(* ===== verification/_CoqProject ===== *)
-Q . S2P
Prelude.v
LLVM.v
IR.v
Expr.v
Dataflow.v
DataflowTheory.v
DataflowRun.v
MustAnalysis.v
Examples.v
Liveness.v
Available.v
Dominance.v
BlockSem.v
LocalOpts.v
LocalOptsSem.v
LocalOptsCorrect.v
DCE.v
DomTree.v
LICM.v
LICMWalk.v
LICMCorrect.v
FunctionInfo.v
LoopMemory.v
Bits.v
AddrRange.v
AddrRangeMap.v
XBar.v
XBarLayer.v
MemCmd.v
Request.v
Packet.v
AbstractMem.v
LLSC.v
MemoryCorrect.v
CacheBlk.v
CacheTags.v
CacheTagsCorrect.v
CacheTagsInv.v
MSHR.v
MSHRCorrect.v
MSHRQueue.v
MSHRQueueCorrect.v
PacketQueue.v
ClockedObject.v
SimpleMem.v
Cache.v
CacheMemory.v
CacheCorrect.v
CacheFill.v
CacheTransparent.v
CacheTiming.v
CacheBlocking.v
CacheRetry.v
Prefetch.v
PrefetchCorrect.v
PrefetchStride.v
PrefetchCache.v
StackDist.v
StackDistTree.v
StackDistGrow.v
StackDistRun.v
SnoopFilter.v
NoncoherentXBar.v
NoncoherentXBarCorrect.v
CoherentXBar.v
CoherentXBarCorrect.v
Bridge.v
EventQueue.v
EventQueueLinks.v
EventQueueCorrect.v
EventQueueRun.v
SatCounter.v
RAS.v
BTB.v
DirPred.v
DirPredCorrect.v
DirPredLearn.v
BPredUnit.v
BPredCorrect.v
BPredRun.v
