(* ===== verification/Prelude.v ===== *)
(** * Verification of the compiler-course passes and of the gather memory system

    ** The program

    The repository holds the LLVM passes of a compiler course and a project that
    finds columnar memory accesses in loops and serves them with gather reads of
    the gem5 memory.  The passes are: local optimizations and a function summary
    (asst1), an iterative data-flow framework with live variables and available
    expressions (asst2), dominance, dead code elimination and loop-invariant code
    motion on a copy of that framework (asst3), and the loop-memory analysis
    (project/src).  The part of gem5 (project/src/gem5/src) that a gather access
    goes through is: the request with the pattern hidden in its virtual address,
    the packet, the caches that keep gathered lines under an address of their
    own, the crossbars between them, and the memory that shuffles addresses; below
    them are packet queues, address ranges and bit utilities.  The simulator runs on its event queue,
    and its processors predict branches before they fetch.

    ** Files and what they model

    Shared:
    - Prelude: outcomes of C++ routines (value, exit or failed assertion, out of
      fuel), [std::map::operator[]], indices of a domain, tactics.
    - LLVM: interfaces for [BitVector] with the laws of its documentation;
      theorems about the passes use only the laws, the instances at the end of
      the file satisfy them.
    - IR: values, instructions, blocks and functions as the passes see them.
    - Examples: the small functions on which the passes are evaluated.

    asst2 and asst3:
    - Expr: [Expression], its order and printing (dataflow.cpp).
    - Dataflow: [DataFlow::applyMeetOp], [DataFlow::run] (dataflow.cpp), both
      copies; DataflowTheory and DataflowRun: its theory against the interface
      [MonotoneAnalysis]; MustAnalysis: forward intersection analyses.
    - Liveness (liveness.cpp), Available (available.cpp), Dominance and DomTree
      (dominance.cpp: dominators, immediate dominators, the tree on a heap of
      nodes linked both ways), DCE (DeadCodeElimination.cpp), LICM, LICMWalk and
      LICMCorrect (LoopInvariantCodeMotion.cpp: the pass, its traversal of the
      tree, its correctness).
    - BlockSem: a big-step semantics of blocks (integer operators as in the LLVM
      reference, any interpretation for the rest), against which the
      transformations are judged.

    asst1 and project:
    - LocalOpts (LocalOpts.cpp), LocalOptsSem and LocalOptsCorrect: the three
      rewriting passes, the loop that drives them, and their correctness.
    - FunctionInfo (FunctionInfo.cpp): the line printed for a function.
    - LoopMemory (LoopMemoryAnalysis.cpp): annotated variables, derived
      addresses, and the cost model that tells columnar from row accesses.

    gem5:
    - Bits (base/bitfield.hh, base/intmath.hh, base/intmath.cc, base/flags.hh),
      AddrRange (base/addr_range.hh), AddrRangeMap (base/addr_range_map.hh), MemCmd (the command table of mem/packet.hh
      and mem/packet.cc), Request (mem/request.hh), Packet (mem/packet.hh,
      mem/packet.cc, mem/packet_access.hh), AbstractMem (mem/abstract_mem.hh, mem/abstract_mem.cc);
      LLSC and MemoryCorrect: what an access to the memory does.
    - CacheBlk (mem/cache/blk.hh); CacheTags (mem/cache/tags: cacheset.hh,
      base_set_assoc, lru.cc, random_repl.cc), CacheTagsCorrect and CacheTagsInv:
      lookup, replacement and the invariant of the tag store.
    - MSHR and MSHRCorrect (mem/cache/mshr.hh, mshr.cc: registers on a heap, for
      a target may point to the register of another cache); MSHRQueue and
      MSHRQueueCorrect (mem/cache/mshr_queue.hh, mshr_queue.cc).
    - PacketQueue (mem/packet_queue.hh, packet_queue.cc), ClockedObject
      (sim/clocked_object.hh), SimpleMem (mem/simple_mem.hh, simple_mem.cc).
    - Cache (mem/cache/cache_impl.hh, base.hh, cache.hh): the atomic, functional
      and snoop handlers and all they call.  The other ends of the ports are the
      class [Ports]; CacheMemory: the class [Memory], what a cache needs from
      the memory side, and the simple memory as an instance; CacheCorrect,
      CacheFill and CacheTransparent: hits, fills and whole runs.
    - CacheTiming: the timing handlers of the same files, the choice of the next
      request, blocking and retries; the ports and the prefetcher are the
      classes [TimingPorts] and [Prefetcher].  CacheBlocking: every handler
      keeps the blocking flags right; CacheRetry: the events of a cache as a step
      relation.
    - Prefetch (mem/cache/prefetch: base, queued, tagged, stride): the queue of
      prefetches around any calculator of addresses (the class [Calculator]),
      with the tagged and the stride prefetcher as its instances; PrefetchCorrect
      and PrefetchStride: the queue and what the stride table learns;
      PrefetchCache: the queue as the [Prefetcher] of a timing cache.
    - XBar (mem/xbar.hh, xbar.cc: the address map of a crossbar), XBarLayer (its
      layers), NoncoherentXBar (mem/noncoherent_xbar.cc) and
      NoncoherentXBarCorrect: the calls of the neighbours as a step relation.
      SnoopFilter (mem/snoop_filter.hh, snoop_filter.cc): the filter and the
      caches it follows; CoherentXBar (mem/coherent_xbar.cc), around the former
      crossbar and the filter, and CoherentXBarCorrect.  Bridge (mem/bridge.cc,
      bridge.hh): the places it reserves for responses are never exceeded.
    - StackDist (mem/stack_dist_calc.hh, stack_dist_calc.cc): the tree of partial
      sums on a heap; StackDistTree, StackDistGrow: its invariant through updates,
      growth and new leaves; StackDistRun: runs.
    - SatCounter, RAS, BTB (cpu/pred/sat_counter.hh, ras, btb); DirPred
      (cpu/pred/2bit_local, tournament, bi_mode): the three predictors behind the
      class [DirPredictor], with its promises [Speculates] in DirPredCorrect and
      what they learn in DirPredLearn; BPredUnit (cpu/pred/bpred_unit.hh,
      bpred_unit_impl.hh) around any predictor and instruction set ([ISA]);
      BPredCorrect and BPredRun: undoing predictions, and runs.
    - EventQueue (sim/eventq.hh, sim/eventq_impl.hh, sim/eventq.cc): events on a
      heap and the two-level linked list; EventQueueLinks: the list the pointers
      represent; EventQueueCorrect: the operations on that list; EventQueueRun:
      reachable states and servicing.

    State is passed explicitly; a record per class holds its fields and each
    method is a function to [outcome].  Machine integers are [Z] with the
    wrap-around written out; pointers are numbers into a heap where the code
    shares and updates objects (dominance tree, events, miss registers); an
    index outside a vector is the outcome [Exited].

    ** What the theorems show

    - Framework: [run] terminates for any monotone analysis, its result solves
      the data-flow equations on reachable blocks and is the extreme solution.
    - Analyses: liveness, availability, dominance and strong liveness are each
      exactly their path-based definition; the per-instruction sets that are
      printed agree with the block sets; immediate dominators and the tree are
      the ones dominance defines.
    - Transformations: the local optimizations, dead code elimination and
      loop-invariant code motion preserve the meaning of blocks (loops), under
      the conditions the code needs; where it needs more than it checks, the
      failing case is proved as well.  The drivers terminate.
    - Memory: the gather address map is an involution inside its block and
      exchanges tuple and field numbers; patterns survive their encoding;
      reads return what was written; gathers read the words of the map and stay
      inside the memory; load-locked reservations behave as a map from contexts
      to granules, and a store-conditional succeeds exactly when no write that
      starts in its granule came between (swaps and the tail of a wide write are
      proved to escape); up to eight interleaving bits, merged address ranges
      partition the address space; the bit utilities meet their mathematical
      definitions.
    - Caches: in every reachable tag store a lookup finds the one block of its
      line and LRU picks the block of the set unused for longest; a
      store-conditional on a block succeeds exactly when its reservation stands;
      registers are free, ready or in service and a queue that is not full takes
      a request; after an invalidating snoop no register relies on the lost copy;
      packet queues stay in order and a waiting packet has its event.  In atomic
      mode a cache above any memory answers reads, gather reads and writes as the
      memory alone would.  In timing mode the port is blocked exactly while a
      queue is full or a register out of targets, and a refused request is
      retried.
    - Prefetching: the queue keeps its bound, order and contents; the tagged
      prefetcher asks for the next lines; an instruction that keeps a stride is
      prefetched along it.
    - Crossbars: an address goes to the port that announced it (the start of an
      interleaving apart, which the map may miss), whatever the
      cache of recent ports holds, and the ranges announced above are those
      below; every layer is a queue, no retry is lost and no assertion fails,
      also when ports call back while they are being retried.  The snoop filter
      names every cache that may have a line, and a coherent crossbar shows a
      request to all of them.
    - Stack distances: the sum tree gives the number of distinct addresses since
      the last access to the same one.
    - Branch prediction: the return stack is a bounded stack, the target buffer
      keeps the last update of each entry, the local predictor learns; the unit
      keeps exactly the branches in flight and never fails, and a squash restores
      what predictions changed.
    - Event queue: the linked bins refine an ordered list; every reachable state
      is ordered and flagged correctly; servicing ends and processes every event
      that is due, in the order of time.

    ** Bounds and fuel

    Loops that are not structural take fuel, and a theorem says how much is
    enough: [DataFlow::run] takes blocks * width + 2 sweeps; the rounds of
    [runOnModule] are bounded by the number of instructions; the LICM worklist
    by the number of nodes of the tree; the walks over the event queue by the
    number of events; for [serviceEvents] there is enough fuel when handlers
    schedule at the current tick only events of lower rank ([events_serviced],
    over a well-founded order on multisets of ranks); the division loop of
    [isPrime] by its argument; [clearDownstreamPending] by the number of marked
    registers.  The loop over the targets of a response has the number of
    targets as fuel, one round for each.  The walks to the root of the sum tree
    take as many steps as it has layers, which is their fuel.

    ** Parameters

    LLVM is not part of the repository: bit vectors, the control-flow graph and
    its orders, [mayHaveSideEffects], [isSafeToSpeculativelyExecute], loop
    information and scalar evolution are parameters with the documented facts
    the passes rely on, collected in the classes [BitVectorLaws], [CFGLaws],
    [LocalOptsLaws] and [SpeculationLaws].  The handlers of events are a
    parameter with the class [Handler]; the other ends of ports, the prefetcher
    and the instruction set are the classes named above, and the contents of
    fresh memory a function [fresh].

    ** Not modelled

    The rest of gem5: processors and instruction sets (largely generated),
    DRAM controllers (timing models around the memory), the Ruby
    protocols (another memory system), the fully associative tags (a second
    replacement of the tags that are modelled), devices and system emulation,
    the simulation loop over several queues with its thread barrier; the
    libraries vendored with it; debug printing ([DBG], [DPRINTF],
    [PrintReqState], [dump]), statistics registration, probe points, the reports
    and tests.  They do not change the state of what is modelled. *)

From stdpp Require Import gmap list strings.
From Stdlib Require Import ZArith.

(** ** Automation *)

(** Decide the integer comparisons of the goal from the context. *)
Ltac zbool := repeat match goal with
  | |- context [(?a <=? ?b)%Z] =>
      first [rewrite (proj2 (Z.leb_le a b)) by lia | rewrite (proj2 (Z.leb_gt a b)) by lia]
  | |- context [(?a <? ?b)%Z] =>
      first [rewrite (proj2 (Z.ltb_lt a b)) by lia | rewrite (proj2 (Z.ltb_ge a b)) by lia]
  end; cbn [andb orb negb]; rewrite ?andb_true_r, ?andb_false_r, ?orb_false_r, ?orb_true_r, ?xorb_false_r;
  cbn [andb orb negb].

(** ** Outcomes of the modelled C++ routines *)

(** A routine either returns a value, leaves the process ([exit], a failed
    [assert]) or does something undefined, or the model of one of its loops is
    out of fuel. *)
Inductive outcome (A : Type) : Type :=
| Done (a : A)
| Exited
| OutOfFuel.
Arguments Done {A} a.
Arguments Exited {A}.
Arguments OutOfFuel {A}.

Definition obind {A B : Type} (m : outcome A) (k : A -> outcome B) : outcome B :=
  match m with
  | Done a => k a
  | Exited => Exited
  | OutOfFuel => OutOfFuel
  end.

Declare Scope outcome_scope.
Delimit Scope outcome_scope with outcome.
Notation "'let!' x ':=' m 'in' k" := (obind m (fun x => k))
  (at level 10, x pattern, k at level 200) : outcome_scope.

Lemma obind_Done {A B} (m : outcome A) (k : A -> outcome B) b :
  obind m k = Done b <-> exists a, m = Done a /\ k a = Done b.
Proof. destruct m; simpl; naive_solver. Qed.

(** ** [std::map::operator[]] *)

(** [m[k]] inserts a value-initialised element when the key is absent; the
    caller gets the element and the map it now lives in. *)
Definition map_sub {K A : Type} `{Countable K} (d : A) (m : gmap K A) (k : K)
  : A * gmap K A :=
  match m !! k with
  | Some a => (a, m)
  | None => (d, <[k := d]> m)
  end.

(** Reading through the default: what [operator[]] returns. *)
Definition map_get {K A : Type} `{Countable K} (d : A) (m : gmap K A) (k : K) : A :=
  default d (m !! k).

Section MapSub.
Context {K A : Type} `{Countable K} (d : A).
Implicit Types (m : gmap K A).

Lemma map_sub_fst m k : fst (map_sub d m k) = map_get d m k.
Proof. unfold map_sub, map_get. by destruct (m !! k). Qed.

(** The insertion of a default element is invisible to later reads. *)
Lemma map_get_sub m k k' : map_get d (snd (map_sub d m k)) k' = map_get d m k'.
Proof.
  unfold map_sub, map_get. destruct (m !! k) eqn:E; simpl; [done|].
  rewrite lookup_insert. case_decide; subst; [by rewrite E|done].
Qed.

Lemma map_sub_Some m k a : m !! k = Some a -> map_sub d m k = (a, m).
Proof. unfold map_sub. by intros ->. Qed.

Lemma map_get_insert m k a k' :
  map_get d (<[k := a]> m) k' = if decide (k = k') then a else map_get d m k'.
Proof. unfold map_get. rewrite lookup_insert. by case_decide. Qed.

End MapSub.

(** ** Lists *)

Lemma list_filter_all {A : Type} (P : A -> Prop) `{forall x, Decision (P x)} (l : list A) : Forall P l -> filter P l = l.
Proof. induction 1 as [|x l Hx Hl IH]; [done|]. rewrite filter_cons, decide_True by done. by rewrite IH. Qed.

Lemma map_ext_elem {A B : Type} (f g : A -> B) (l : list A) :
  (forall x, x ∈ l -> f x = g x) -> map f l = map g l.
Proof. intros E. apply map_ext_in. intros x Hx. apply E. by apply list_elem_of_In. Qed.

Lemma elem_of_map {A B : Type} (f : A -> B) (l : list A) y :
  y ∈ map f l <-> exists x, y = f x /\ x ∈ l.
Proof. apply (list_elem_of_fmap f l y). Qed.

Lemma filter_keeps {A : Type} (P : A -> Prop) `{forall x, Decision (P x)} (l : list A) :
  (forall x, x ∈ l -> P x) -> filter P l = l.
Proof.
  induction l as [|x l IH]; intros Hp; [done|]. rewrite filter_cons_True by (apply Hp; by left).
  f_equal. apply IH. intros y Hy. apply Hp. by right.
Qed.

Lemma filter_ext_elem {A : Type} (P Q : A -> Prop) `{forall x, Decision (P x), forall x, Decision (Q x)} (l : list A) :
  (forall x, x ∈ l -> P x <-> Q x) -> filter P l = filter Q l.
Proof.
  induction l as [|x l IH]; intros E; [done|]. pose proof (E x ltac:(by left)) as Ex.
  rewrite !filter_cons, IH by (intros y Hy; apply E; by right). do 2 case_decide; tauto.
Qed.

Lemma NoDup_map_inj {A B : Type} (f : A -> B) (l : list A) x y :
  NoDup (map f l) -> x ∈ l -> y ∈ l -> f x = f y -> x = y.
Proof.
  induction l as [|z l IH]; cbn [map]; [by intros _ ?%not_elem_of_nil|].
  intros [Hz Hl]%NoDup_cons Hx Hy E. apply elem_of_cons in Hx as [->|Hx], Hy as [->|Hy]; try done; [| |by apply IH].
  - exfalso. apply Hz, elem_of_map. by exists y.
  - exfalso. apply Hz, elem_of_map. by exists x.
Qed.

(** ** Indices of a list of domain elements *)

(** [for (i = 0; i < domain.size(); i++) index[domain[i]] = i;] : a later
    occurrence overrides an earlier one. *)
Fixpoint index_from {D : Type} `{Countable D} (i : nat) (l : list D)
    (m : gmap D nat) : gmap D nat :=
  match l with
  | [] => m
  | d :: l' => index_from (S i) l' (<[d := i]> m)
  end.

Section IndexFrom.
Context {D : Type} `{Countable D}.

Lemma index_from_notin l : forall i (m : gmap D nat) d,
  d ∉ l -> index_from i l m !! d = m !! d.
Proof.
  induction l as [|x l IH]; intros i m d Hd; simpl; [done|].
  rewrite IH by set_solver. apply lookup_insert_ne. set_solver.
Qed.

Lemma index_from_lookup l : forall i (m : gmap D nat) j d,
  NoDup l -> l !! j = Some d -> index_from i l m !! d = Some (i + j).
Proof.
  induction l as [|x l IH]; intros i m j d Hnd Hj; [done|].
  apply NoDup_cons in Hnd as [Hx Hnd]. destruct j as [|j]; simpl in *.
  - injection Hj as ->. rewrite index_from_notin by done.
    rewrite lookup_insert_eq. f_equal; lia.
  - rewrite (IH (S i) _ j d Hnd Hj). f_equal; lia.
Qed.

Lemma index_from_size l : forall i (m : gmap D nat),
  NoDup l -> (forall d, d ∈ l -> m !! d = None) ->
  size (index_from i l m) = size m + length l.
Proof.
  induction l as [|x l IH]; intros i m Hnd Hm; simpl; [lia|].
  apply NoDup_cons in Hnd as [Hx Hnd]. rewrite IH; [|done|].
  - rewrite map_size_insert_None; [lia|]. apply Hm. set_solver.
  - intros d Hd. rewrite lookup_insert_ne by set_solver. apply Hm. set_solver.
Qed.

Lemma index_from_inv l : forall i (m : gmap D nat) d k,
  NoDup l -> index_from i l m !! d = Some k ->
  (m !! d = Some k /\ d ∉ l) \/ (i <= k /\ l !! (k - i) = Some d).
Proof.
  intros i m d k Hnd Hk. destruct (decide (d ∈ l)) as [Hin|Hin].
  - apply list_elem_of_lookup in Hin as [j Hj].
    rewrite (index_from_lookup _ _ _ j d Hnd Hj) in Hk. injection Hk as <-.
    right. split; [lia|]. by replace (i + j - i) with j by lia.
  - left. by rewrite index_from_notin in Hk.
Qed.

(** The index map of a duplicate-free domain is the inverse of its lookup. *)
Lemma index_spec (l : list D) d k : NoDup l ->
  index_from 0 l ∅ !! d = Some k <-> l !! k = Some d.
Proof.
  intros Hnd. split.
  - intros Hk. apply index_from_inv in Hk as [[Hk _]|[_ Hk]]; [|by rewrite Nat.sub_0_r in Hk|done].
    by rewrite lookup_empty in Hk.
  - intros Hk. by apply (index_from_lookup l 0 ∅ k d).
Qed.

Lemma index_size (l : list D) : NoDup l -> size (index_from 0 l ∅) = length l.
Proof. intros Hnd. rewrite index_from_size; [by rewrite map_size_empty|done|]. intros. apply lookup_empty. Qed.

Lemma index_lt (l : list D) d k : NoDup l -> index_from 0 l ∅ !! d = Some k -> k < length l.
Proof. intros Hnd Hk. apply index_spec in Hk; [|done]. by apply lookup_lt_Some in Hk. Qed.

Lemma index_elem (l : list D) d : NoDup l -> d ∈ l -> exists k, index_from 0 l ∅ !! d = Some k.
Proof.
  intros Hnd Hd. apply list_elem_of_lookup in Hd as [k Hk]. exists k. by apply index_spec.
Qed.

End IndexFrom.

(** ** [std::vector::operator[]]

    An index outside the vector is undefined behaviour. *)
Section Vector.
Context {A : Type}.
Implicit Types (l : list A) (i : Z).

Definition vec_get l i : outcome A :=
  if (0 <=? i)%Z then match l !! Z.to_nat i with Some x => Done x | None => Exited end else Exited.
Definition vec_set l i (x : A) : outcome (list A) :=
  if ((0 <=? i) && (i <? Z.of_nat (length l)))%Z then Done (<[Z.to_nat i := x]> l) else Exited.

Lemma vec_get_in l i : (0 <= i < Z.of_nat (length l))%Z -> exists x, vec_get l i = Done x /\ l !! Z.to_nat i = Some x.
Proof.
  intros Hi. unfold vec_get. rewrite (proj2 (Z.leb_le 0 i)) by lia. destruct (lookup_lt_is_Some_2 l (Z.to_nat i)) as [x E]; [lia|].
  exists x. by rewrite E.
Qed.

Lemma vec_get_Done l i x : vec_get l i = Done x <-> (0 <= i)%Z /\ l !! Z.to_nat i = Some x.
Proof.
  unfold vec_get. destruct (Z.leb_spec 0 i); [|split; [done|lia]]. destruct (l !! Z.to_nat i); split; [by intros [= ->]|by intros [_ [= ->]]|done|by intros []].
Qed.

Lemma vec_set_in l i x : (0 <= i < Z.of_nat (length l))%Z -> vec_set l i x = Done (<[Z.to_nat i := x]> l).
Proof. intros Hi. unfold vec_set. by rewrite (proj2 (Z.leb_le 0 i)), (proj2 (Z.ltb_lt i _)) by lia. Qed.

Lemma vec_set_Done l i x l' : vec_set l i x = Done l' -> (0 <= i < Z.of_nat (length l))%Z /\ l' = <[Z.to_nat i := x]> l.
Proof. unfold vec_set. destruct (Z.leb_spec 0 i), (Z.ltb_spec i (Z.of_nat (length l))); try done. by intros [= <-]. Qed.
End Vector.
