(* ===== verification/LLVM.v ===== *)
(** * The LLVM library as the passes see it

    LLVM itself is not part of this repository.  What the passes rely on is
    stated here as interfaces: a class of operations together with a class of
    the laws its documentation gives.  Every theorem about a pass is proved
    against these classes; the instances at the end show that the laws can be
    met, and the concrete runs of the passes use them. *)

From stdpp Require Import gmap list strings.
From Stdlib Require Import ZArith.
From S2P Require Import Prelude.

(** ** llvm/ADT/BitVector.h *)

Class BitVectorAPI (V : Type) := {
  bv_empty : V;                      (* BitVector() *)
  bv_make : nat -> bool -> V;        (* BitVector(s, t) *)
  bv_size : V -> nat;                (* size() *)
  bv_get : V -> nat -> bool;         (* operator[] *)
  bv_set : V -> nat -> V;            (* set(i) *)
  bv_reset : V -> nat -> V;          (* reset(i) *)
  bv_flip : V -> V;                  (* flip() *)
  bv_or : V -> V -> V;               (* operator|= *)
  bv_and : V -> V -> V;              (* operator&= *)
  bv_eqb : V -> V -> bool            (* operator== *)
}.

(** The bit at an index, 0 past the end: how [|=], [&=] and [==] read the
    shorter of two vectors. *)
Definition bit {V : Type} `{BitVectorAPI V} (a : V) (i : nat) : bool :=
  bool_decide (i < bv_size a) && bv_get a i.
Arguments bit : simpl never.

Class BitVectorLaws (V : Type) `{BitVectorAPI V} : Prop := {
  size_empty : bv_size (bv_empty : V) = 0;
  size_make n b : bv_size (bv_make n b : V) = n;
  bit_make n b i : bit (bv_make n b : V) i = bool_decide (i < n) && b;
  size_set (a : V) i : i < bv_size a -> bv_size (bv_set a i) = bv_size a;
  bit_set (a : V) i j : i < bv_size a -> bit (bv_set a i) j = bool_decide (i = j) || bit a j;
  size_reset (a : V) i : i < bv_size a -> bv_size (bv_reset a i) = bv_size a;
  bit_reset (a : V) i j : i < bv_size a -> bit (bv_reset a i) j = negb (bool_decide (i = j)) && bit a j;
  size_flip (a : V) : bv_size (bv_flip a) = bv_size a;
  bit_flip (a : V) i : bit (bv_flip a) i = bool_decide (i < bv_size a) && negb (bit a i);
  size_or (a b : V) : bv_size (bv_or a b) = Nat.max (bv_size a) (bv_size b);
  bit_or (a b : V) i : bit (bv_or a b) i = bit a i || bit b i;
  size_and (a b : V) : bv_size (bv_and a b) = bv_size a;
  bit_and (a b : V) i : bit (bv_and a b) i = bit a i && bit b i;
  bv_eqb_bits (a b : V) : bv_eqb a b = true <-> forall i, bit a i = bit b i;
  bv_ext (a b : V) : bv_size a = bv_size b -> (forall i, bit a i = bit b i) -> a = b
}.

Section BitVectorFacts.
Context {V : Type} `{BitVectorLaws V}.

Lemma bit_ge (a : V) i : bv_size a <= i -> bit a i = false.
Proof. intros Hi. unfold bit. rewrite bool_decide_false by lia. done. Qed.

Lemma bit_get (a : V) i : i < bv_size a -> bit a i = bv_get a i.
Proof. intros Hi. unfold bit. by rewrite bool_decide_true. Qed.

Lemma bit_empty i : bit (bv_empty : V) i = false.
Proof. apply bit_ge. rewrite size_empty. lia. Qed.

Lemma bit_size (a : V) i : bit a i = true -> i < bv_size a.
Proof. destruct (decide (i < bv_size a)); [done|]. rewrite bit_ge by lia. done. Qed.

Lemma bv_eqb_eq (a b : V) : bv_size a = bv_size b -> bv_eqb a b = true -> a = b.
Proof. rewrite bv_eqb_bits. apply bv_ext. Qed.

Lemma bv_eqb_refl (a : V) : bv_eqb a a = true.
Proof. by apply bv_eqb_bits. Qed.

End BitVectorFacts.

(** The list-of-booleans model of a bit vector. *)
Module ListBits.

Abbreviation t := (list bool).

Fixpoint zip_or (a b : t) : t :=
  match a, b with
  | [], _ => b
  | _, [] => a
  | x :: a', y :: b' => (x || y) :: zip_or a' b'
  end.

Fixpoint zip_and (a b : t) : t :=
  match a, b with
  | [], _ => []
  | x :: a', [] => false :: zip_and a' []
  | x :: a', y :: b' => (x && y) :: zip_and a' b'
  end.

Fixpoint zeros (a : t) : bool :=
  match a with
  | [] => true
  | x :: a' => negb x && zeros a'
  end.

Fixpoint same (a b : t) : bool :=
  match a, b with
  | [], _ => zeros b
  | _, [] => zeros a
  | x :: a', y :: b' => Bool.eqb x y && same a' b'
  end.

#[global] Instance api : BitVectorAPI t := {
  bv_empty := [];
  bv_make n b := replicate n b;
  bv_size := length;
  bv_get a i := default false (a !! i);
  bv_set a i := <[i := true]> a;
  bv_reset a i := <[i := false]> a;
  bv_flip := map negb;
  bv_or := zip_or;
  bv_and := zip_and;
  bv_eqb := same
}.

Lemma bit_lookup (a : t) i : bit a i = default false (a !! i).
Proof.
  unfold bit; simpl. case_bool_decide as E; [done|].
  by rewrite lookup_ge_None_2 by lia.
Qed.

Lemma bit_nil i : bit ([] : t) i = false.
Proof. by rewrite bit_lookup. Qed.

Lemma bit_0 x (a : t) : bit (x :: a) 0 = x.
Proof. by rewrite bit_lookup. Qed.

Lemma bit_S x (a : t) i : bit (x :: a) (S i) = bit a i.
Proof. by rewrite !bit_lookup. Qed.

Lemma zip_or_bit (a : t) : forall b i, bit (zip_or a b) i = bit a i || bit b i.
Proof.
  induction a as [|x a IH]; intros b i.
  - by rewrite bit_nil.
  - destruct b as [|y b]; [by rewrite bit_nil, orb_false_r|].
    change (zip_or (x :: a) (y :: b)) with ((x || y) :: zip_or a b).
    destruct i; [by rewrite !bit_0|]. by rewrite !bit_S.
Qed.

Lemma zip_and_bit (a : t) : forall b i, bit (zip_and a b) i = bit a i && bit b i.
Proof.
  induction a as [|x a IH]; intros b i; [by rewrite bit_nil|].
  destruct b as [|y b], i as [|i]; cbn [zip_and]; rewrite ?bit_0, ?bit_S, ?bit_nil, ?IH, ?bit_nil,
    ?andb_false_r; done.
Qed.

Lemma zeros_bit (a : t) : zeros a = true <-> forall i, bit a i = false.
Proof.
  induction a as [|x a IH]; simpl.
  - split; [intros _ i; apply bit_nil|done].
  - rewrite andb_true_iff, negb_true_iff, IH. split.
    + intros [-> Ha] [|i]; [by rewrite bit_0|by rewrite bit_S].
    + intros Ha. split; [by rewrite <- (Ha 0), bit_0|].
      intros i. by rewrite <- (Ha (S i)), bit_S.
Qed.

Lemma same_bit (a : t) : forall b, same a b = true <-> forall i, bit a i = bit b i.
Proof.
  induction a as [|x a IH]; intros b.
  - change (same [] b) with (zeros b). rewrite zeros_bit.
    split; intros Hb i; pose proof (Hb i); rewrite ?bit_nil in *; congruence.
  - destruct b as [|y b].
    + change (same (x :: a) []) with (zeros (x :: a)). rewrite zeros_bit.
      split; intros Hb i; pose proof (Hb i); rewrite ?bit_nil in *; congruence.
    + cbn [same]. rewrite andb_true_iff, Bool.eqb_true_iff, IH. split.
      * intros [-> Ha] [|i]; [by rewrite !bit_0|by rewrite !bit_S].
      * intros Ha. split; [by pose proof (Ha 0); rewrite !bit_0 in *|].
        intros i. pose proof (Ha (S i)). by rewrite !bit_S in *.
Qed.

#[global] Instance laws : BitVectorLaws t.
Proof.
  split; simpl; try done.
  - intros. apply length_replicate.
  - intros n b i. rewrite bit_lookup. case_bool_decide as E; simpl.
    + by rewrite lookup_replicate_2.
    + by rewrite lookup_ge_None_2 by (rewrite length_replicate; lia).
  - intros. apply length_insert.
  - intros a i j Hi. rewrite !bit_lookup.
    case_bool_decide as E; simpl; [subst; by rewrite list_lookup_insert_eq|].
    by rewrite list_lookup_insert_ne.
  - intros. apply length_insert.
  - intros a i j Hi. rewrite !bit_lookup.
    case_bool_decide as E; simpl; [subst; by rewrite list_lookup_insert_eq|].
    by rewrite list_lookup_insert_ne.
  - intros. apply length_map.
  - intros a i. rewrite !bit_lookup.
    change (map negb a) with (negb <$> a). rewrite list_lookup_fmap.
    case_bool_decide as E; simpl.
    + apply lookup_lt_is_Some in E as [x ->]. done.
    + by rewrite lookup_ge_None_2 by lia.
  - induction a as [|x a IH]; intros [|y b]; simpl; rewrite ?IH; lia.
  - apply zip_or_bit.
  - induction a as [|x a IH]; intros [|y b]; simpl; rewrite ?IH; lia.
  - apply zip_and_bit.
  - apply same_bit.
  - intros a b Hl Hb. apply list_eq_same_length with (length a); [done|done|].
    intros i x y Hi Hx Hy. pose proof (Hb i) as E. rewrite !bit_lookup, Hx, Hy in E.
    by simpl in E.
Qed.

End ListBits.
