(* ===== verification/IR.v ===== *)
(** * The IR the passes traverse

    Values, instructions and blocks with the source's distinctions
    ([isa<Instruction>], [isa<Argument>], [ConstantInt::classof],
    [dyn_cast<BinaryOperator>], [dyn_cast<PHINode>], ...).  A value stands for
    the address of an LLVM [Value]: an instruction, argument or other value by
    number, an integer constant by its type and value (LLVM keeps one object
    per integer constant, so comparing addresses compares those). *)

From stdpp Require Import gmap list strings countable.
From Stdlib Require Import ZArith.
From S2P Require Import Prelude.

(** ** Values *)

Inductive value :=
| VInst (id : nat)                  (* Instruction *)
| VArg (id : nat)                   (* Argument *)
| VConstInt (width : Z) (c : Z)     (* ConstantInt of type iN, 0 <= c < 2^N *)
| VOther (id : nat).                (* any other Value: block, global, function, ... *)

#[export] Instance value_eq_dec : EqDecision value.
Proof. solve_decision. Defined.

#[export] Instance value_countable : Countable value.
Proof.
  refine (inj_countable'
    (fun v => match v with
      | VInst i => inl (inl i) | VArg i => inl (inr i)
      | VConstInt w c => inr (inl (w, c)) | VOther i => inr (inr i) end)
    (fun s => match s with
      | inl (inl i) => VInst i | inl (inr i) => VArg i
      | inr (inl (w, c)) => VConstInt w c | inr (inr i) => VOther i end) _).
  by intros [].
Defined.

(** [isa<Instruction>(val)] *)
Definition isInstruction (v : value) : bool :=
  match v with VInst _ => true | _ => false end.

(** [isa<Instruction>(val) || isa<Argument>(val)] *)
Definition isInstOrArg (v : value) : bool :=
  match v with VInst _ | VArg _ => true | _ => false end.

(** ** Instructions *)

(** [Instruction::BinaryOps], in LLVM's numbering order. *)
Inductive BinaryOps :=
| Add | FAdd | Sub | FSub | Mul | FMul | UDiv | SDiv | FDiv
| URem | SRem | FRem | Shl | LShr | AShr | And | Or | Xor.

#[export] Instance BinaryOps_eq_dec : EqDecision BinaryOps.
Proof. solve_decision. Defined.

(** The classes of instructions the passes tell apart. *)
Inductive opcode :=
| Binary (op : BinaryOps)
| PHI (incoming : list nat)         (* incoming blocks, parallel to the operands *)
| Ret
| Terminator                        (* any other TerminatorInst *)
| LandingPad
| DbgInfo                           (* DbgInfoIntrinsic *)
| Load
| Store
| GetElementPtr
| Call
| BitCast
| OtherInst (code : nat).

#[export] Instance opcode_eq_dec : EqDecision opcode.
Proof. solve_decision. Defined.

Record inst := mkInst {
  i_id : nat;               (* its address *)
  i_name : string;          (* getName(), empty for unnamed instructions *)
  i_type : option Z;        (* Some N for the integer type iN, None otherwise *)
  i_op : opcode;
  i_ops : list value        (* op_begin() .. op_end() *)
}.

(** The value an instruction is. *)
Definition i_val (i : inst) : value := VInst (i_id i).

Definition isPHI (i : inst) : bool :=
  match i_op i with PHI _ => true | _ => false end.

Definition isTerminator (i : inst) : bool :=
  match i_op i with Ret | Terminator => true | _ => false end.

Definition asBinary (i : inst) : option BinaryOps :=
  match i_op i with Binary op => Some op | _ => None end.

(** [getIncomingValue(ind)] with [getIncomingBlock(ind)], for every [ind] below
    [getNumIncomingValues()]. *)
Definition phiIncoming (i : inst) : list (value * nat) :=
  match i_op i with PHI bs => combine (i_ops i) bs | _ => [] end.

(** ** Order within a block *)

(** No instruction but a phi uses a value that is defined in the block at or
    after it, and no value is defined twice. *)
Fixpoint noForward (l : list inst) : Prop :=
  match l with
  | [] => True
  | i :: l' =>
      (isPHI i = false -> forall v, v ∈ i_ops i -> v ∉ map i_val (i :: l')) /\
      i_val i ∉ map i_val l' /\ noForward l'
  end.

Lemma noForward_app l1 l2 : noForward (l1 ++ l2) <->
  noForward l2 /\ noForward l1 /\ (forall i, i ∈ l1 -> i_val i ∉ map i_val l2) /\
  (forall i v, i ∈ l1 -> isPHI i = false -> v ∈ i_ops i -> v ∉ map i_val l2).
Proof.
  induction l1 as [|i l1 IH]; cbn [app noForward].
  { split; [|tauto]. intros Hl. split; [done|]. split; [done|].
    split; intros ? *; [intros Hi|intros Hi _ _]; by apply not_elem_of_nil in Hi. }
  rewrite IH. cbn [map]. rewrite map_app. clear IH.
  setoid_rewrite not_elem_of_cons. setoid_rewrite not_elem_of_app. split.
  - intros (Ho & [Hid Hid2] & H2 & H1 & Hd & Hu). split; [done|]. split; [split; [|by split]|split].
    + intros Hp v Hv. destruct (Ho Hp v Hv) as (? & ? & ?). done.
    + intros j [->|Hj]%elem_of_cons; [done|by apply Hd].
    + intros j v [->|Hj]%elem_of_cons Hp Hv; [by apply (Ho Hp v Hv)|by apply (Hu j)].
  - intros (H2 & (Ho & Hid & H1) & Hd & Hu). split; [|split; [split; [done|]|split; [done|split; [done|split]]]].
    + intros Hp v Hv. destruct (Ho Hp v Hv). split; [done|]. split; [done|].
      apply (Hu i); [by left|done|done].
    + apply Hd. by left.
    + intros j Hj. apply Hd. by right.
    + intros j v Hj. apply Hu. by right.
Qed.
