(* ===== verification/Expr.v ===== *)
(** * Expressions and printing utilities of dataflow.cpp *)

From stdpp Require Import gmap list strings.
From Stdlib Require Import ZArith String.
From S2P Require Import Prelude LLVM IR.

(** ** What the printers ask of LLVM *)

(** [getName], [Value::print] and [APInt::print(_, true)], and the order of
    addresses ([Value*] compared with [<]). *)
Class ValueAPI := {
  getName : value -> string;
  print : value -> string;
  printAPInt : Z -> Z -> string;
  addr_lt : value -> value -> bool
}.

(** Addresses are totally ordered. *)
Class ValueAPILaws `{ValueAPI} : Prop := {
  addr_irrefl v : addr_lt v v = false;
  addr_trans u v w : addr_lt u v = true -> addr_lt v w = true -> addr_lt u w = true;
  addr_total u v : u <> v -> addr_lt u v = true \/ addr_lt v u = true
}.

(** ** class Expression *)

Record Expression := mkExpression {
  e_v1 : value;
  e_v2 : value;
  e_op : BinaryOps
}.

#[export] Instance Expression_eq_dec : EqDecision Expression.
Proof. solve_decision. Defined.

(** [Expression(Instruction *I)]: the fields are set for binary operators; for
    any other instruction an error is printed and they stay unset. *)
Definition Expression_of (I : inst) : option Expression :=
  match asBinary I, i_ops I with
  | Some op, v1 :: v2 :: _ => Some (mkExpression v1 v2 op)
  | _, _ => None
  end.

(** [operator==] *)
Definition expr_eq (e1 e2 : Expression) : bool :=
  bool_decide (e_v1 e1 = e_v1 e2) && bool_decide (e_v2 e1 = e_v2 e2)
  && bool_decide (e_op e1 = e_op e2).

(** The enumerators of [Instruction::BinaryOps] compare by position. *)
Definition op_num (op : BinaryOps) : nat :=
  match op with
  | Add => 0 | FAdd => 1 | Sub => 2 | FSub => 3 | Mul => 4 | FMul => 5
  | UDiv => 6 | SDiv => 7 | FDiv => 8 | URem => 9 | SRem => 10 | FRem => 11
  | Shl => 12 | LShr => 13 | AShr => 14 | And => 15 | Or => 16 | Xor => 17
  end.

Section Printing.
Context `{ValueAPI}.

(** [operator<] *)
Definition expr_lt (e1 e2 : Expression) : bool :=
  if decide (e_v1 e1 = e_v1 e2) then
    if decide (e_v2 e1 = e_v2 e2) then
      if decide (e_op e1 = e_op e2) then false
      else op_num (e_op e1) <? op_num (e_op e2)
    else addr_lt (e_v2 e1) (e_v2 e2)
  else addr_lt (e_v1 e1) (e_v1 e2).

Definition dquote : string := String (Ascii.ascii_of_nat 34) EmptyString.
Definition quoted (s : string) : string := (dquote ++ s ++ dquote)%string.

Definition getShortValueName (v : value) : string :=
  if negb (bool_decide (getName v = EmptyString)) then ("%" ++ getName v)%string
  else
    match v with
    | VInst _ =>
        let s := print v in
        match String.index 0 "%" s with
        | Some idx1 =>
            match String.index idx1 " " s with
            | Some idx2 => String.substring idx1 (idx2 - idx1) s
            | None => quoted s
            end
        | None => quoted s
        end
    | VConstInt w c => printAPInt w c
    | _ => quoted (print v)
    end.

Definition op_symbol (op : BinaryOps) : string :=
  match op with
  | Add | FAdd => "+"
  | Sub | FSub => "-"
  | Mul | FMul => "*"
  | UDiv | FDiv | SDiv => "/"
  | URem | FRem | SRem => "%"
  | Shl => "<<"
  | AShr | LShr => ">>"
  | And => "&"
  | Or => "|"
  | Xor => "xor"
  end.

(** [Expression::toString] *)
Definition toString (e : Expression) : string :=
  (getShortValueName (e_v1 e) ++ " " ++ op_symbol (e_op e) ++ " " ++
   getShortValueName (e_v2 e))%string.

(** [printSet] of a vector of expressions: the text written to [outs()]. *)
Fixpoint printExpressions_from (first : bool) (x : list Expression) : string :=
  match x with
  | [] => EmptyString
  | e :: x' => ((if first then EmptyString else ", ") ++ toString e ++
               printExpressions_from false x')%string
  end.
Definition printExpressions (x : list Expression) : string :=
  ("{" ++ printExpressions_from true x ++ "}" ++ String (Ascii.ascii_of_nat 10) EmptyString)%string.

(** [printSet(domain, on, mode)]: the elements whose bit is on, separated by
    commas; [show] is the printer the mode selects. *)
Fixpoint printSet_from {D V : Type} `{BitVectorAPI V} (show : D -> string)
    (on : V) (i ind : nat) (domain : list D) : string :=
  match domain with
  | [] => EmptyString
  | d :: domain' =>
      if bv_get on i then
        ((if (0 <? ind)%nat then "," else EmptyString) ++ " " ++ show d ++
         printSet_from show on (S i) (S ind) domain')%string
      else printSet_from show on (S i) ind domain'
  end.
Definition printSet {D V : Type} `{BitVectorAPI V} (show : D -> string)
    (domain : list D) (on : V) : string :=
  ("{" ++ printSet_from show on 0 0 domain ++ " }")%string.

End Printing.

(** [std::setw(WIDTH) << std::right]: padding on the left. *)
Definition WIDTH : nat := 60.
Fixpoint spaces (k : nat) : string :=
  match k with 0 => EmptyString | S k' => String (Ascii.ascii_of_nat 32) (spaces k') end.
Definition setw_right (w : nat) (s : string) : string :=
  (spaces (w - String.length s) ++ s)%string.

(** [printBitVector] writes nothing unless DEBUG is defined: every [outs()] in
    it is inside [DBG].  The same holds of [printResult]. *)

(** ** The orders agree *)

Lemma op_num_inj op1 op2 : op_num op1 = op_num op2 -> op1 = op2.
Proof. destruct op1, op2; simpl; intros E; (done || discriminate E). Qed.

Lemma expr_eq_true e1 e2 : expr_eq e1 e2 = true <-> e1 = e2.
Proof.
  unfold expr_eq. rewrite !andb_true_iff, !bool_decide_eq_true.
  split; [|by intros ->]. destruct e1, e2; simpl. intros [[-> ->] ->]. done.
Qed.

Section Order.
Context `{ValueAPILaws}.

Lemma expr_lt_irrefl e : expr_lt e e = false.
Proof. unfold expr_lt. by rewrite !decide_True. Qed.

Lemma expr_lt_trans e1 e2 e3 :
  expr_lt e1 e2 = true -> expr_lt e2 e3 = true -> expr_lt e1 e3 = true.
Proof.
  unfold expr_lt. destruct e1 as [a1 b1 o1], e2 as [a2 b2 o2], e3 as [a3 b3 o3]; simpl.
  repeat case_decide; subst; rewrite ?Nat.ltb_lt; try done; try lia;
    try (intros Ha Hb; pose proof (addr_trans _ _ _ Ha Hb) as Hc);
    rewrite ?addr_irrefl in *; try done; eauto using addr_trans.
Qed.

Lemma expr_lt_total e1 e2 : e1 <> e2 -> expr_lt e1 e2 = true \/ expr_lt e2 e1 = true.
Proof.
  unfold expr_lt. destruct e1 as [a1 b1 o1], e2 as [a2 b2 o2]; simpl. intros Hne.
  repeat case_decide; subst; try congruence; rewrite ?Nat.ltb_lt; auto using addr_total.
  destruct (Nat.lt_trichotomy (op_num o1) (op_num o2)) as [?|[E|?]]; auto.
  by apply op_num_inj in E.
Qed.

End Order.
