(* ===== verification/Dataflow.v ===== *)
(** * The iterative data-flow framework

    [DataFlow::applyMeetOp] and [DataFlow::run] of asst2/ClassicalDataflow and
    of its copy in asst3/LICM (which differs in the initial value of interior
    blocks).  A basic block is its address, a number; the CFG iterators of LLVM
    are fields of [Function] constrained by [CFGLaws]. *)

From stdpp Require Import gmap list strings.
From S2P Require Import Prelude LLVM.

Abbreviation blk := nat.

(** ** The function under analysis *)

(** What [run] reads of an [llvm::Function]: its blocks in layout order,
    whether the terminator of a block is a [ReturnInst], the CFG iterators and
    the two depth-first orders of llvm/ADT/PostOrderIterator.h. *)
Record Function := {
  f_blocks : list blk;
  f_isRet : blk -> bool;
  f_succs : blk -> list blk;
  f_preds : blk -> list blk;
  f_rpo : list blk;
  f_po : list blk
}.

(** [&F.front()], which is also [&F.getEntryBlock()]. *)
Definition f_front (F : Function) : blk := hd 0 (f_blocks F).

(** A block is reachable when a path of successor edges leads to it from the
    entry block. *)
Inductive reachable (F : Function) : blk -> Prop :=
| reach_entry : reachable F (f_front F)
| reach_step b c : reachable F b -> c ∈ f_succs F b -> reachable F c.

(** LLVM's guarantees for a function with a body: predecessor lists mirror
    successor lists, the entry block has no predecessor (LangRef), a return has
    no successor, and both orders enumerate the reachable blocks once, the
    reverse post-order starting at the entry. *)
Record CFGLaws (F : Function) : Prop := {
  cfg_nonempty : f_blocks F <> [];
  cfg_nodup : NoDup (f_blocks F);
  cfg_succs_in b c : c ∈ f_succs F b -> b ∈ f_blocks F /\ c ∈ f_blocks F;
  cfg_preds b c : b ∈ f_preds F c <-> c ∈ f_succs F b;
  cfg_entry b : f_front F ∉ f_succs F b;
  cfg_ret b : f_isRet F b = true -> f_succs F b = [];
  cfg_rpo_head : exists rest, f_rpo F = f_front F :: rest;
  cfg_rpo b : b ∈ f_rpo F <-> reachable F b;
  cfg_po b : b ∈ f_po F <-> reachable F b
}.

(** ** Data of dataflow.h *)

Inductive Direction := INVALID_DIRECTION | FORWARD | BACKWARD.
Inductive MeetOp := INVALID_MEETOP | UNION | INTERSECTION.

#[export] Instance Direction_eq_dec : EqDecision Direction.
Proof. solve_decision. Defined.
#[export] Instance MeetOp_eq_dec : EqDecision MeetOp.
Proof. solve_decision. Defined.

Record TransferOutput (V : Type) := mkTransferOutput {
  element : V;
  neighborVals : gmap blk V
}.
Arguments mkTransferOutput {V} _ _.
Arguments element {V} _.
Arguments neighborVals {V} _.

Record BlockResult (V : Type) := mkBlockResult {
  br_in : V;
  br_out : V;
  transferOutput : TransferOutput V
}.
Arguments mkBlockResult {V} _ _ _.
Arguments br_in {V} _.
Arguments br_out {V} _.
Arguments transferOutput {V} _.

Record DataFlowResult (V D : Type) `{Countable D} := mkDataFlowResult {
  result : gmap blk (BlockResult V);
  domainToIndex : gmap D nat;
  modified : bool
}.
Arguments mkDataFlowResult {V D _ _} _ _ _.
Arguments result {V D _ _} _.
Arguments domainToIndex {V D _ _} _.
Arguments modified {V D _ _} _.

Section Framework.
Context {V : Type} `{BitVectorAPI V}.

(** [BlockResult()] and [TransferOutput()]: empty vectors, empty map. *)
Definition BlockResult0 : BlockResult V :=
  mkBlockResult bv_empty bv_empty (mkTransferOutput bv_empty ∅).

(** The pointers [blockInput] and [blockOutput] of [run]. *)
Definition blockInput (dir : Direction) (r : BlockResult V) : V :=
  if decide (dir = FORWARD) then br_in r else br_out r.
Definition blockOutput (dir : Direction) (r : BlockResult V) : V :=
  if decide (dir = FORWARD) then br_out r else br_in r.
Definition set_input (dir : Direction) (v : V) (r : BlockResult V) : BlockResult V :=
  if decide (dir = FORWARD) then mkBlockResult v (br_out r) (transferOutput r)
  else mkBlockResult (br_in r) v (transferOutput r).
Definition set_output (dir : Direction) (v : V) (r : BlockResult V) : BlockResult V :=
  if decide (dir = FORWARD) then mkBlockResult (br_in r) v (transferOutput r)
  else mkBlockResult v (br_out r) (transferOutput r).
Definition set_transfer (t : TransferOutput V) (r : BlockResult V) : BlockResult V :=
  mkBlockResult (br_in r) (br_out r) t.

(** ** DataFlow::applyMeetOp *)

(** The first input, then [|=] or [&=] with each further one; an invalid
    operator ends the process at the second input. *)
Definition applyMeetOp (meetup_op : MeetOp) (inputs : list V) : outcome V :=
  match inputs with
  | [] => Done bv_empty
  | first :: rest =>
      foldl (fun acc v =>
        obind acc (fun r =>
          match meetup_op with
          | UNION => Done (bv_or r v)
          | INTERSECTION => Done (bv_and r v)
          | INVALID_MEETOP => Exited
          end)) (Done first) rest
  end.

(** ** DataFlow::run, step by step *)

Definition boundaryBlocks (dir : Direction) (F : Function) : list blk :=
  match dir with
  | FORWARD => [f_front F]
  | BACKWARD => filter (fun b => f_isRet F b = true) (f_blocks F)
  | INVALID_DIRECTION => []
  end.

Definition boundaryRes (dir : Direction) (boundaryCond : V) : BlockResult V :=
  set_transfer (mkTransferOutput boundaryCond ∅)
    (set_input dir boundaryCond BlockResult0).

(** asst2: only the side the transfer function produces is initialised. *)
Definition interiorRes (dir : Direction) (initCond : V) : BlockResult V :=
  set_transfer (mkTransferOutput initCond ∅)
    (set_output dir initCond BlockResult0).

(** asst3: both sides are ([intOtherVal]). *)
Definition interiorRes_both (dir : Direction) (initCond : V) : BlockResult V :=
  set_transfer (mkTransferOutput initCond ∅)
    (set_input dir initCond (set_output dir initCond BlockResult0)).

Definition initResult (dir : Direction) (F : Function) (bRes intRes : BlockResult V)
  : gmap blk (BlockResult V) :=
  let bbs := boundaryBlocks dir F in
  let result := foldl (fun m b => <[b := bRes]> m) ∅ bbs in
  foldl (fun m b => if decide (b ∈ bbs) then m else <[b := intRes]> m) result (f_blocks F).

Definition neighborList (dir : Direction) (F : Function) (b : blk) : list blk :=
  match dir with
  | FORWARD => f_preds F b
  | BACKWARD => f_succs F b
  | INVALID_DIRECTION => []
  end.

Definition blockNeighbors (dir : Direction) (F : Function) : gmap blk (list blk) :=
  foldl (fun m b => <[b := neighborList dir F b]> m) ∅ (f_blocks F).

Definition traversalOrder (dir : Direction) (F : Function) : list blk :=
  match dir with
  | FORWARD => f_rpo F
  | BACKWARD => f_po F
  | INVALID_DIRECTION => []
  end.

(** The value a neighbour contributes to block [BB]: its element, joined with
    the value it keeps for [BB] itself, if any. *)
Definition contribution (t : TransferOutput V) (BB : blk) : V :=
  match neighborVals t !! BB with
  | Some v => bv_or (element t) v
  | None => element t
  end.

(** Collecting the meet inputs; [result[*NI]] may insert a default result. *)
Fixpoint collectMeetInputs (BB : blk) (nl : list blk) (res : gmap blk (BlockResult V))
  : list V * gmap blk (BlockResult V) :=
  match nl with
  | [] => ([], res)
  | n :: nl' =>
      let '(neighborRes, res1) := map_sub BlockResult0 res n in
      let neighVal := contribution (transferOutput neighborRes) BB in
      let '(vs, res2) := collectMeetInputs BB nl' res1 in
      (neighVal :: vs, res2)
  end.

Section Run.
Context {D : Type} `{Countable D}.

(** The virtual method every analysis supplies. *)
Variable transferFn : V -> list D -> gmap D nat -> blk -> TransferOutput V.
Variable direction : Direction.
Variable meetup_op : MeetOp.

(** The body of the inner loop. *)
Definition processBlock (domain : list D) (index : gmap D nat)
    (neighbors : gmap blk (list blk)) (st : gmap blk (BlockResult V) * bool) (BB : blk)
  : outcome (gmap blk (BlockResult V) * bool) :=
  let '(res, converged) := st in
  let '(blockRes, res) := map_sub BlockResult0 res BB in
  let oldBlockRes := blockRes in
  let oldVal := blockOutput direction blockRes in
  let '(meetInputs, res) := collectMeetInputs BB (map_get [] neighbors BB) res in
  obind (match meetInputs with
         | [] => Done (blockInput direction blockRes)
         | _ => applyMeetOp meetup_op meetInputs
         end) (fun input =>
  let t := transferFn input domain index BB in
  let blockRes := set_output direction (element t)
                    (set_transfer t (set_input direction input blockRes)) in
  let converged :=
    if converged then
      if negb (bv_eqb (blockOutput direction blockRes) oldVal)
         || negb (bool_decide (size (neighborVals t) =
                               size (neighborVals (transferOutput oldBlockRes))))
      then false else true
    else converged in
  Done (<[BB := blockRes]> res, converged)).

(** One pass of the [for] loop over the traversal order. *)
Fixpoint sweep (domain : list D) (index : gmap D nat) (neighbors : gmap blk (list blk))
    (order : list blk) (st : gmap blk (BlockResult V) * bool)
  : outcome (gmap blk (BlockResult V) * bool) :=
  match order with
  | [] => Done st
  | BB :: order' =>
      obind (processBlock domain index neighbors st BB)
            (sweep domain index neighbors order')
  end.

(** [while (!converged)] *)
Fixpoint iterate (fuel : nat) (domain : list D) (index : gmap D nat)
    (neighbors : gmap blk (list blk)) (order : list blk) (res : gmap blk (BlockResult V))
  : outcome (gmap blk (BlockResult V)) :=
  match fuel with
  | 0 => OutOfFuel
  | S fuel' =>
      obind (sweep domain index neighbors order (res, true)) (fun st =>
        let '(res', converged) := st in
        if converged then Done res'
        else iterate fuel' domain index neighbors order res')
  end.

(** [run], over the initial interior result. *)
Definition runWith (intRes : BlockResult V) (fuel : nat) (F : Function)
    (domain : list D) (boundaryCond : V) : outcome (DataFlowResult V D) :=
  let index := index_from 0 domain ∅ in
  let res := initResult direction F (boundaryRes direction boundaryCond) intRes in
  obind (iterate fuel domain index (blockNeighbors direction F)
           (traversalOrder direction F) res) (fun res =>
  Done (mkDataFlowResult res index false)).

(** asst2/ClassicalDataflow/dataflow.cpp *)
Definition run (fuel : nat) (F : Function) (domain : list D)
    (boundaryCond initCond : V) : outcome (DataFlowResult V D) :=
  runWith (interiorRes direction initCond) fuel F domain boundaryCond.

(** asst3/LICM/dataflow.cpp *)
Definition run_both (fuel : nat) (F : Function) (domain : list D)
    (boundaryCond initCond : V) : outcome (DataFlowResult V D) :=
  runWith (interiorRes_both direction initCond) fuel F domain boundaryCond.

End Run.
End Framework.
#[global] Arguments processBlock : simpl never.
