(* ===== verification/DataflowTheory.v ===== *)
(** * Theory of the iterative framework

    [DataFlow::run] is studied through the equations a block satisfies: its
    input is the meet of what its neighbours contribute, its transfer output is
    the transfer function of that input.  Three facts are proved for any
    monotone transfer function: a converged sweep solves the equations, the
    iteration converges within a bound that depends on the number of blocks and
    on the width of the vectors, and every property of contributions that the
    meet and the transfer function preserve holds of the result (from which the
    result is the extreme solution). *)

From stdpp Require Import gmap list strings.
From S2P Require Import Prelude LLVM Dataflow.

(** ** Meet, in the order of its operator *)

Section Meet.
Context {V : Type} `{BitVectorLaws V}.

Definition meet2 (op : MeetOp) (a b : V) : V :=
  match op with INTERSECTION => bv_and a b | _ => bv_or a b end.

Definition meetV (op : MeetOp) (l : list V) : V :=
  match l with [] => bv_empty | x :: r => foldl (meet2 op) x r end.

Lemma applyMeetOp_meetV op l : op <> INVALID_MEETOP -> applyMeetOp op l = Done (meetV op l).
Proof.
  intros Hop. destruct l as [|x r]; [done|]. simpl.
  revert x. induction r as [|y r IH]; intros x; [done|].
  simpl. rewrite <- IH. by destruct op.
Qed.

(** The bit of a vector in the orientation of the meet: for an intersection a
    cleared bit is the information that accumulates. *)
Definition val (op : MeetOp) (v : V) (i : nat) : bool :=
  match op with INTERSECTION => negb (bit v i) | _ => bit v i end.

Definition leqV (op : MeetOp) (n : nat) (a b : V) : Prop :=
  forall i, i < n -> val op a i = true -> val op b i = true.

Lemma val_inter (a : V) i : val INTERSECTION a i = true <-> bit a i = false.
Proof. apply negb_true_iff. Qed.

Lemma val_meet2 op (a b : V) i : val op (meet2 op a b) i = val op a i || val op b i.
Proof. destruct op; simpl; rewrite ?bit_or, ?bit_and, ?negb_andb; done. Qed.

Lemma val_foldl op (r : list V) : forall x i,
  val op (foldl (meet2 op) x r) i = val op x i || existsb (fun v => val op v i) r.
Proof.
  induction r as [|y r IH]; intros x i; simpl; [by rewrite orb_false_r|].
  by rewrite IH, val_meet2, orb_assoc.
Qed.

Lemma val_meetV op (l : list V) i : l <> [] ->
  val op (meetV op l) i = existsb (fun v => val op v i) l.
Proof. destruct l as [|x r]; [done|]. intros _. apply val_foldl. Qed.

Lemma val_meetV_true op (l : list V) i : l <> [] ->
  val op (meetV op l) i = true <-> exists v, v ∈ l /\ val op v i = true.
Proof.
  intros Hl. rewrite val_meetV by done. rewrite existsb_exists.
  split; intros (v & Hv & Hi); exists v; [rewrite list_elem_of_In|rewrite <- list_elem_of_In]; done.
Qed.

Lemma size_meet2 op n (a b : V) : bv_size a = n -> bv_size b = n -> bv_size (meet2 op a b) = n.
Proof. destruct op; simpl; rewrite ?size_or, ?size_and; lia. Qed.

Lemma size_meetV op n (l : list V) : l <> [] ->
  (forall v, v ∈ l -> bv_size v = n) -> bv_size (meetV op l) = n.
Proof.
  destruct l as [|x r]; [done|]. intros _ Hl. simpl.
  assert (Hx : bv_size x = n) by (apply Hl; set_solver).
  assert (Hr : forall v, v ∈ r -> bv_size v = n) by (intros v Hv; apply Hl; set_solver).
  clear Hl. revert x Hx. induction r as [|y r IH]; intros x Hx; [done|]. simpl.
  apply IH; [intros v Hv; apply Hr; set_solver|].
  apply size_meet2; [done|]. apply Hr. set_solver.
Qed.

Lemma leqV_refl op n (a : V) : leqV op n a a.
Proof. by intros i _. Qed.

Lemma leqV_trans op n (a b c : V) : leqV op n a b -> leqV op n b c -> leqV op n a c.
Proof. intros Hab Hbc i Hi Ha. auto. Qed.

Lemma meetV_mono op n {A} (f g : A -> V) (l : list A) :
  (forall x, x ∈ l -> leqV op n (f x) (g x)) ->
  l <> [] -> leqV op n (meetV op (map f l)) (meetV op (map g l)).
Proof.
  intros Hfg Hl i Hi. rewrite !val_meetV_true by (by destruct l).
  intros (v & Hv & Hvi). apply elem_of_map in Hv as (x & -> & Hx). exists (g x).
  split; [|by apply (Hfg x)]. apply elem_of_map. by exists x.
Qed.

(** The number of accumulated bits below [n]. *)
Definition weight (op : MeetOp) (n : nat) (v : V) : nat :=
  length (filter (fun i => val op v i = true) (seq 0 n)).

Lemma weight_le op n (v : V) : weight op n v <= n.
Proof. unfold weight. rewrite length_filter, length_seq. lia. Qed.

Lemma filter_seq_mono (p q : nat -> bool) m k :
  (forall i, m <= i < m + k -> p i = true -> q i = true) ->
  length (filter (fun i => p i = true) (seq m k)) <=
  length (filter (fun i => q i = true) (seq m k)) /\
  ((exists i, m <= i < m + k /\ p i = false /\ q i = true) ->
   length (filter (fun i => p i = true) (seq m k)) <
   length (filter (fun i => q i = true) (seq m k))).
Proof.
  revert m. induction k as [|k IH]; intros m Hpq; simpl.
  - split; [done|]. intros (i & ? & _). lia.
  - destruct (IH (S m)) as [IH1 IH2].
    { intros i Hi. apply Hpq. lia. }
    rewrite !filter_cons.
    destruct (p m) eqn:Ep, (q m) eqn:Eq; simpl; try (rewrite Hpq in Eq by (done || lia); done).
    + split; [lia|]. intros (i & Hi & Hpi & Hqi).
      apply -> Nat.succ_lt_mono. apply IH2. exists i. split; [|done].
      destruct (decide (i = m)) as [->|]; [congruence|lia].
    + split; lia.
    + split; [lia|]. intros (i & Hi & Hpi & Hqi). apply IH2. exists i.
      split; [|done]. destruct (decide (i = m)) as [->|]; [congruence|lia].
Qed.

Lemma weight_mono op n (a b : V) : leqV op n a b -> weight op n a <= weight op n b.
Proof. intros Hab. apply filter_seq_mono. intros i Hi. apply Hab. lia. Qed.

Lemma val_inj op n (a b : V) : op <> INVALID_MEETOP -> bv_size a = n -> bv_size b = n ->
  (forall i, i < n -> val op a i = val op b i) -> a = b.
Proof.
  intros Hop Ha Hb Hab. apply bv_ext; [congruence|]. intros i.
  destruct (decide (i < n)) as [Hi|Hi].
  - specialize (Hab i Hi). destruct op; simpl in Hab; [done|done|].
    by destruct (bit a i), (bit b i).
  - rewrite !bit_ge by lia. done.
Qed.

Lemma weight_strict op n (a b : V) : op <> INVALID_MEETOP -> bv_size a = n -> bv_size b = n ->
  leqV op n a b -> a <> b -> weight op n a < weight op n b.
Proof.
  intros Hop Ha Hb Hab Hne. apply filter_seq_mono.
  { intros i Hi. apply Hab. lia. }
  destruct (decide (Exists (fun i => val op a i = false /\ val op b i = true) (seq 0 n))) as [He|He].
  - apply Exists_exists in He as (i & Hi & Hv). exists i.
    apply elem_of_seq in Hi. done.
  - exfalso. apply Hne. apply (val_inj op n); try done. intros i Hi.
    destruct (val op a i) eqn:Ea, (val op b i) eqn:Eb; try done.
    + rewrite (Hab i) in Eb by done. done.
    + exfalso. apply He. apply Exists_exists. exists i. rewrite elem_of_seq. split; [lia|done].
Qed.

End Meet.

(** ** Sweeps over the blocks *)

Section Iteration.
Context {V : Type} `{BitVectorLaws V} {D : Type} `{Countable D}.
Variable transferFn : V -> list D -> gmap D nat -> blk -> TransferOutput V.
Variable dir : Direction.
Variable op : MeetOp.
Hypothesis op_valid : op <> INVALID_MEETOP.
Variable domain : list D.
Variable index : gmap D nat.
Variable neighbors : gmap blk (list blk).

Abbreviation T x b := (transferFn x domain index b).
Abbreviation nbrs b := (map_get [] neighbors b).
Abbreviation view res b := (map_get BlockResult0 res b).
Abbreviation tout res b := (transferOutput (view res b)).

(** The input block [b] gets when it is processed in state [res]. *)
Definition inputAt (res : gmap blk (BlockResult V)) (b : blk) : V :=
  match nbrs b with
  | [] => blockInput dir (view res b)
  | _ => meetV op (map (fun n => contribution (tout res n) b) (nbrs b))
  end.

Definition newRes (x : V) (b : blk) (r : BlockResult V) : BlockResult V :=
  set_output dir (element (T x b)) (set_transfer (T x b) (set_input dir x r)).

Lemma input_newRes x b r : blockInput dir (newRes x b r) = x.
Proof. unfold newRes, blockInput, set_output, set_transfer, set_input. by repeat case_decide. Qed.

Lemma output_newRes x b r : blockOutput dir (newRes x b r) = element (T x b).
Proof. unfold newRes, blockOutput, set_output, set_transfer, set_input. by repeat case_decide. Qed.

Lemma tout_newRes x b r : transferOutput (newRes x b r) = T x b.
Proof. unfold newRes, set_output, set_transfer, set_input. by repeat case_decide. Qed.

(** Whether the code sees a change. *)
Definition changed (x : V) (b : blk) (r : BlockResult V) : bool :=
  negb (bv_eqb (element (T x b)) (blockOutput dir r))
  || negb (bool_decide (size (neighborVals (T x b)) = size (neighborVals (transferOutput r)))).

(** State [res'] is [res] after block [b] has been processed. *)
Definition stepped (res : gmap blk (BlockResult V)) (b : blk)
    (res' : gmap blk (BlockResult V)) : Prop :=
  forall b', view res' b' =
    if decide (b = b') then newRes (inputAt res b) b (view res b) else view res b'.

Lemma collect_spec b nl : forall res vs res',
  collectMeetInputs b nl res = (vs, res') ->
  vs = map (fun n => contribution (tout res n) b) nl /\ forall b', view res' b' = view res b'.
Proof.
  induction nl as [|n nl IH]; intros res vs res'; simpl; [by intros [= <- <-]|].
  destruct (map_sub BlockResult0 res n) as [r res1] eqn:E1.
  destruct (collectMeetInputs b nl res1) as [vs2 res2] eqn:E2. intros [= <- <-].
  apply IH in E2 as [-> Hv].
  pose proof (map_sub_fst BlockResult0 res n) as Hr. rewrite E1 in Hr. simpl in Hr. subst r.
  assert (Hs : forall b', view res1 b' = view res b').
  { intros b'. rewrite <- (map_get_sub BlockResult0 res n b'), E1. done. }
  split; [|intros b'; by rewrite Hv].
  f_equal. apply map_ext_elem. intros x _. by rewrite Hs.
Qed.

Lemma processBlock_spec res c b :
  exists res', stepped res b res' /\
    processBlock transferFn dir op domain index neighbors (res, c) b =
    Done (res', c && negb (changed (inputAt res b) b (view res b))).
Proof.
  unfold processBlock.
  destruct (map_sub BlockResult0 res b) as [r res1] eqn:E1.
  destruct (collectMeetInputs b (nbrs b) res1) as [vs res2] eqn:E2.
  pose proof (map_sub_fst BlockResult0 res b) as Hr. rewrite E1 in Hr. simpl in Hr. subst r.
  assert (Hs : forall b', view res1 b' = view res b').
  { intros b'. rewrite <- (map_get_sub BlockResult0 res b b'), E1. done. }
  apply collect_spec in E2 as [Hvs Hv2].
  assert (Hin : match vs with
                | [] => Done (blockInput dir (view res b))
                | _ => applyMeetOp op vs
                end = Done (inputAt res b)).
  { rewrite Hvs. unfold inputAt. destruct (nbrs b) as [|n nl] eqn:En; [done|].
    rewrite applyMeetOp_meetV by done. simpl. rewrite Hs. f_equal. f_equal.
    apply map_ext_elem. intros x _. by rewrite Hs. }
  rewrite Hin. simpl. eexists. split.
  2: { f_equal. f_equal. fold (newRes (inputAt res b) b (view res b)).
       rewrite output_newRes. unfold changed. destruct c; simpl; [|done].
       by destruct (_ || _). }
  intros b'. rewrite map_get_insert. case_decide; [done|]. by rewrite Hv2, Hs.
Qed.

(** Every sweep is a sequence of such steps. *)
Lemma sweep_ind (P : gmap blk (BlockResult V) -> Prop) order :
  (forall res b res', b ∈ order -> P res -> stepped res b res' -> P res') ->
  forall res c, P res -> exists res' c',
    sweep transferFn dir op domain index neighbors order (res, c) = Done (res', c') /\ P res'.
Proof.
  intros HP. induction order as [|b order IH]; intros res c Hres; simpl; [by eauto|].
  destruct (processBlock_spec res c b) as (res1 & Hst & ->). simpl.
  apply IH; [|by apply (HP res b res1); [set_solver|..]].
  intros res2 b' res3 Hb'. apply HP. set_solver.
Qed.

Lemma sweep_flag order : forall res res' c',
  sweep transferFn dir op domain index neighbors order (res, false) = Done (res', c') ->
  c' = false.
Proof.
  induction order as [|b order IH]; intros res res' c'; simpl; [by intros [= _ <-]|].
  destruct (processBlock_spec res false b) as (res1 & _ & ->). simpl. apply IH.
Qed.

(** *** Well-formed states *)

Variable univ : list blk.
Variable n : nat.
Variable okin : V -> Prop.
Variable init : blk -> BlockResult V.

Hypothesis okin_n : forall x, bv_size x = n -> okin x.
Hypothesis T_size : forall x b, b ∈ univ -> okin x -> bv_size (element (T x b)) = n.
Hypothesis T_nv_size : forall x b b' v, b ∈ univ -> okin x ->
  neighborVals (T x b) !! b' = Some v -> bv_size v = n.
Hypothesis T_nv_det : forall x y b, b ∈ univ -> okin x -> okin y ->
  element (T x b) = element (T y b) -> neighborVals (T x b) = neighborVals (T y b).
Hypothesis nbrs_univ : forall b b', b' ∈ nbrs b -> b' ∈ univ.

Hypothesis init_input : forall b, b ∈ univ -> okin (blockInput dir (init b)).
Hypothesis init_size : forall b, b ∈ univ -> bv_size (element (transferOutput (init b))) = n.
Hypothesis init_nv : forall b, neighborVals (transferOutput (init b)) = ∅.
Hypothesis init_output : forall b i, b ∈ univ ->
  bit (blockOutput dir (init b)) i = bit (element (transferOutput (init b))) i.

Record wfState (res : gmap blk (BlockResult V)) : Prop := {
  wf_in b : b ∈ univ -> okin (blockInput dir (view res b));
  wf_size b : b ∈ univ -> bv_size (element (tout res b)) = n;
  wf_nv b b' v : b ∈ univ -> neighborVals (tout res b) !! b' = Some v -> bv_size v = n;
  wf_out b i : b ∈ univ -> bit (blockOutput dir (view res b)) i = bit (element (tout res b)) i;
  wf_origin b : b ∈ univ ->
    view res b = init b \/
    (tout res b = T (blockInput dir (view res b)) b /\
     blockOutput dir (view res b) = element (tout res b));
  wf_fixed_in b : b ∈ univ -> nbrs b = [] -> blockInput dir (view res b) = blockInput dir (init b)
}.

Lemma wf_init res : (forall b, view res b = init b) -> wfState res.
Proof.
  intros E. split; intros b; rewrite E; auto.
  intros b' v Hb. rewrite init_nv, lookup_empty. done.
Qed.

Lemma contribution_size res b b' : wfState res -> b ∈ univ ->
  bv_size (contribution (tout res b) b') = n.
Proof.
  intros Hwf Hb. unfold contribution. destruct (neighborVals _ !! b') eqn:E.
  - rewrite size_or, (wf_size _ Hwf), (wf_nv _ Hwf b b' v) by done. lia.
  - by apply wf_size.
Qed.

Lemma inputAt_ok res b : wfState res -> b ∈ univ -> okin (inputAt res b).
Proof.
  intros Hwf Hb. unfold inputAt. destruct (nbrs b) as [|m l] eqn:E; [by apply wf_in|].
  apply okin_n. apply size_meetV; [done|]. intros v Hv.
  apply elem_of_map in Hv as (c & -> & Hc).
  apply contribution_size; [done|]. apply nbrs_univ with b. by rewrite E.
Qed.

Lemma wf_step res b res' : wfState res -> b ∈ univ -> stepped res b res' -> wfState res'.
Proof.
  intros Hwf Hb Hst. pose proof (inputAt_ok res b Hwf Hb) as Hok.
  split; intros b1; rewrite ?Hst; case_decide as E; subst;
    rewrite ?input_newRes, ?output_newRes, ?tout_newRes; eauto using wf_in, wf_size, wf_fixed_in.
  - apply (wf_nv _ Hwf).
  - apply (wf_out _ Hwf).
  - apply (wf_origin _ Hwf).
  - intros _ En. unfold inputAt. rewrite En. by apply wf_fixed_in.
Qed.

(** *** A sweep that reports convergence *)

(** A block whose step went unnoticed keeps its transfer output. *)
Lemma unchanged_tout res b : wfState res -> b ∈ univ ->
  changed (inputAt res b) b (view res b) = false ->
  T (inputAt res b) b = tout res b.
Proof.
  intros Hwf Hb Hc. unfold changed in Hc. rewrite orb_false_iff, !negb_false_iff in Hc.
  destruct Hc as [He Hs]. apply bool_decide_eq_true in Hs.
  pose proof (inputAt_ok res b Hwf Hb) as Hok.
  assert (Ee : element (T (inputAt res b) b) = element (tout res b)).
  { apply bv_ext; [by rewrite T_size, (wf_size res Hwf)|]. intros i.
    rewrite <- (wf_out _ Hwf) by done. revert i. by apply bv_eqb_bits. }
  assert (En : neighborVals (T (inputAt res b) b) = neighborVals (tout res b)).
  { destruct (wf_origin _ Hwf b Hb) as [Ei|[Et _]].
    - rewrite Ei, init_nv, map_size_empty in Hs. rewrite Ei, init_nv.
      by apply map_size_empty_inv.
    - rewrite Et. apply T_nv_det; [done|done|by apply wf_in|congruence]. }
  destruct (T _ _), (tout res b). simpl in *. congruence.
Qed.

(** The data-flow equations at a block. *)
Definition equations (res : gmap blk (BlockResult V)) (b : blk) : Prop :=
  blockInput dir (view res b) = inputAt res b /\
  tout res b = T (blockInput dir (view res b)) b /\
  blockOutput dir (view res b) = element (tout res b).

Lemma inputAt_same res res' b :
  (forall b', tout res' b' = tout res b') ->
  blockInput dir (view res' b) = blockInput dir (view res b) ->
  inputAt res' b = inputAt res b.
Proof.
  intros Ht Hi. unfold inputAt. destruct (nbrs b); [done|]. f_equal.
  apply map_ext_elem. intros x _. by rewrite Ht.
Qed.

Lemma sweep_converged order : forall res res',
  wfState res -> (forall b, b ∈ order -> b ∈ univ) ->
  sweep transferFn dir op domain index neighbors order (res, true) = Done (res', true) ->
  wfState res' /\ (forall b, tout res' b = tout res b) /\
  (forall b, b ∈ order -> equations res' b) /\
  (forall b, equations res b -> equations res' b).
Proof.
  induction order as [|b order IH]; intros res res' Hwf Hou; simpl.
  { intros [= <-]. split; [done|]. split; [done|]. split; [|done].
    intros b Hb. by apply not_elem_of_nil in Hb. }
  destruct (processBlock_spec res true b) as (res1 & Hst & ->). simpl.
  destruct (changed _ _ _) eqn:Hc; simpl.
  { intros Hs. by apply sweep_flag in Hs. }
  assert (Hb : b ∈ univ) by set_solver.
  pose proof (unchanged_tout res b Hwf Hb Hc) as Ht.
  assert (Hsame : forall b', tout res1 b' = tout res b').
  { intros b'. rewrite Hst. case_decide; subst; [by rewrite tout_newRes|done]. }
  assert (Hrest : forall b', b <> b' -> view res1 b' = view res b').
  { intros b' Hne. rewrite Hst. by case_decide. }
  assert (Hin : inputAt res1 b = inputAt res b).
  { unfold inputAt at 1. destruct (nbrs b) eqn:En.
    - rewrite Hst, decide_True, input_newRes by done. done.
    - unfold inputAt. rewrite En. f_equal. apply map_ext_elem. intros x _. by rewrite Hsame. }
  assert (Heq : equations res1 b).
  { unfold equations. rewrite Hin, Hst, decide_True by done.
    by rewrite input_newRes, output_newRes, tout_newRes. }
  assert (Hkeep : forall b', equations res b' -> equations res1 b').
  { intros b' (E1 & E2 & E3). destruct (decide (b = b')) as [<-|Hne]; [done|].
    unfold equations. rewrite (inputAt_same res res1), !Hrest; auto. by rewrite Hrest. }
  intros Hsw. destruct (IH res1 res') as (Hw & Ht' & He & Hk); [by eapply wf_step|set_solver|done|].
  split; [done|]. split; [intros b'; by rewrite Ht', Hsame|]. split; [|by auto].
  intros b' [->|]%elem_of_cons; auto.
Qed.

(** *** Ascending states and termination *)

Variable order : list blk.
Hypothesis order_univ : forall b, b ∈ order -> b ∈ univ.

Definition leqT (t t' : TransferOutput V) : Prop :=
  leqV op n (element t) (element t') /\
  forall b', leqV op n (contribution t b') (contribution t' b').

Hypothesis T_mono : forall x y b, b ∈ univ -> okin x -> okin y -> leqV op n x y -> leqT (T x b) (T y b).

Lemma leqT_refl t : leqT t t.
Proof. split; intros; apply leqV_refl. Qed.

Lemma leqT_trans t1 t2 t3 : leqT t1 t2 -> leqT t2 t3 -> leqT t1 t3.
Proof. intros [H12 K12] [H23 K23]. split; intros; eapply leqV_trans; eauto. Qed.

(** No block is above what processing it would give. *)
Definition ascending (res : gmap blk (BlockResult V)) : Prop :=
  forall b, b ∈ order -> leqT (tout res b) (T (inputAt res b) b).

Lemma inputAt_mono res res' b :
  (forall b', b' ∈ nbrs b -> leqT (tout res b') (tout res' b')) ->
  (nbrs b = [] -> blockInput dir (view res' b) = blockInput dir (view res b)) ->
  leqV op n (inputAt res b) (inputAt res' b).
Proof.
  intros Hle Hin. unfold inputAt. destruct (nbrs b) as [|m l] eqn:E.
  - rewrite Hin by done. apply leqV_refl.
  - apply meetV_mono; [|done]. intros x Hx. by apply Hle.
Qed.

Lemma stepped_input res b res' b' : stepped res b res' -> nbrs b' = [] ->
  blockInput dir (view res' b') = blockInput dir (view res b').
Proof.
  intros Hst En. rewrite Hst. case_decide as E; [subst|done].
  rewrite input_newRes. unfold inputAt. by rewrite En.
Qed.

Lemma step_grows res b res' : stepped res b res' ->
  leqT (tout res b) (T (inputAt res b) b) ->
  forall b', leqT (tout res b') (tout res' b').
Proof.
  intros Hst Hle b'. rewrite Hst. case_decide; subst; [by rewrite tout_newRes|apply leqT_refl].
Qed.

Lemma ascending_step res b res' : wfState res -> ascending res -> b ∈ order ->
  stepped res b res' -> ascending res'.
Proof.
  intros Hwf Hasc Hb Hst b' Hb'.
  pose proof (step_grows res b res' Hst (Hasc b Hb)) as Hg.
  assert (Hwf' : wfState res') by (apply (wf_step res b); auto).
  assert (Hin : leqT (T (inputAt res b') b') (T (inputAt res' b') b')).
  { apply T_mono; [by auto|by apply inputAt_ok; auto..|].
    apply inputAt_mono; [by auto|by apply (stepped_input res b)]. }
  rewrite Hst at 1. case_decide as E; subst; [by rewrite tout_newRes|].
  eapply leqT_trans; [by apply Hasc|done].
Qed.

Definition weightOf (res : gmap blk (BlockResult V)) (l : list blk) : nat :=
  sum_list (map (fun b => weight op n (element (tout res b))) l).

Lemma weightOf_bound res l : weightOf res l <= length l * n.
Proof.
  induction l as [|b l IH]; simpl; [done|]. unfold weightOf in *. simpl.
  pose proof (weight_le op n (element (tout res b))). lia.
Qed.

Lemma weightOf_step res b res' l : wfState res -> b ∈ univ -> stepped res b res' ->
  leqT (tout res b) (T (inputAt res b) b) ->
  weightOf res l <= weightOf res' l /\
  (element (T (inputAt res b) b) <> element (tout res b) -> b ∈ l ->
   weightOf res l < weightOf res' l).
Proof.
  intros Hwf Hbu Hst Hle. pose proof (step_grows res b res' Hst Hle) as Hg.
  assert (Hone : forall b', weight op n (element (tout res b')) <= weight op n (element (tout res' b'))).
  { intros b'. apply weight_mono, Hg. }
  induction l as [|b1 l IH]; unfold weightOf in *; simpl.
  { split; [done|]. intros _ Hb. by apply not_elem_of_nil in Hb. }
  destruct IH as [IH1 IH2]. pose proof (Hone b1). split; [lia|].
  intros Hne Hb. apply elem_of_cons in Hb as [<-|Hb]; [|pose proof (IH2 Hne Hb); lia].
  assert (weight op n (element (tout res b)) < weight op n (element (tout res' b))); [|lia].
  rewrite (Hst b), decide_True, tout_newRes by done.
  apply weight_strict; auto; [by apply wf_size|by apply T_size; [|apply inputAt_ok]|apply Hle].
Qed.

(** The block holds the transfer function of its input. *)
Definition settled (res : gmap blk (BlockResult V)) (b : blk) : Prop :=
  tout res b = T (blockInput dir (view res b)) b.

Lemma settled_step res b res' b' : stepped res b res' ->
  settled res b' \/ b = b' -> settled res' b'.
Proof.
  intros Hst Hs. unfold settled. rewrite Hst. case_decide as E; subst.
  - by rewrite tout_newRes, input_newRes.
  - by destruct Hs.
Qed.

(** A change the code reports on a settled block is a change of its element. *)
Lemma changed_element res b : wfState res -> b ∈ univ -> settled res b ->
  changed (inputAt res b) b (view res b) = true ->
  element (T (inputAt res b) b) <> element (tout res b).
Proof.
  intros Hwf Hb Hset Hc E. pose proof (inputAt_ok res b Hwf Hb) as Hok.
  assert (En : neighborVals (T (inputAt res b) b) = neighborVals (tout res b)).
  { rewrite Hset. apply T_nv_det; [done|done|by apply wf_in|]. by rewrite E, Hset. }
  unfold changed in Hc. rewrite En, bool_decide_true, orb_false_r, negb_true_iff in Hc by done.
  rewrite (proj2 (bv_eqb_bits _ _)) in Hc; [done|].
  intros i. by rewrite E, wf_out.
Qed.

Lemma sweep_ascends l : (forall b, b ∈ l -> b ∈ order) -> forall res c,
  wfState res -> ascending res -> exists res' c',
    sweep transferFn dir op domain index neighbors l (res, c) = Done (res', c') /\
    wfState res' /\ ascending res' /\
    (forall b, settled res b \/ b ∈ l -> settled res' b) /\
    weightOf res order <= weightOf res' order /\
    (c = true -> c' = false -> (forall b, b ∈ l -> settled res b) ->
     weightOf res order < weightOf res' order).
Proof.
  induction l as [|b l IH]; intros Hl res c Hwf Hasc; simpl.
  { exists res, c. split; [done|]. split; [done|]. split; [done|]. split; [|split; [done|congruence]].
    intros b [Hs|Hb]; [done|by apply not_elem_of_nil in Hb]. }
  destruct (processBlock_spec res c b) as (res1 & Hst & ->). simpl.
  assert (Hbo : b ∈ order) by set_solver. assert (Hbu : b ∈ univ) by auto.
  destruct (weightOf_step res b res1 order Hwf Hbu Hst (Hasc b Hbo)) as [Hw1 Hw2].
  edestruct (IH ltac:(set_solver) res1) as (res2 & c2 & Es & Hwf2 & Hasc2 & Hset2 & Hw & Hstr);
    [by eapply wf_step|by eapply ascending_step|].
  exists res2, c2. split; [done|]. split; [done|]. split; [done|]. split; [|split; [lia|]].
  - intros b' Hb'. apply Hset2. destruct (decide (b = b')) as [->|Hne].
    + left. eapply settled_step; eauto.
    + destruct Hb' as [Hs|[->|Hb']%elem_of_cons]; [left|done|by right].
      eapply settled_step; eauto.
  - intros -> -> Hset. destruct (changed _ _ _) eqn:Ech; simpl in *.
    + assert (weightOf res order < weightOf res1 order); [|lia].
      apply Hw2; [|done]. apply changed_element; auto. apply Hset. set_solver.
    + assert (weightOf res1 order < weightOf res2 order); [|lia].
      apply Hstr; [done|done|]. intros b' Hb'. eapply settled_step; [done|].
      left. apply Hset. set_solver.
Qed.

Lemma iterate_settled fuel : forall res,
  wfState res -> ascending res -> (forall b, b ∈ order -> settled res b) ->
  length order * n < weightOf res order + fuel ->
  exists res', iterate transferFn dir op fuel domain index neighbors order res = Done res'.
Proof.
  induction fuel as [|fuel IH]; intros res Hwf Hasc Hset Hf.
  { pose proof (weightOf_bound res order). lia. }
  simpl. destruct (sweep_ascends order ltac:(auto) res true Hwf Hasc)
    as (res' & c & -> & Hwf' & Hasc' & Hset' & Hw & Hstr). simpl.
  destruct c; [by eauto|]. apply IH; auto.
  pose proof (Hstr eq_refl eq_refl Hset). lia.
Qed.

(** *** From the initial state *)

(** Every block starts at the bottom, except the first one processed when it
    has no neighbour (the entry block of a forward analysis). *)
Hypothesis init_bottom : forall b, b ∈ order ->
  (hd_error order = Some b /\ nbrs b = []) \/
  (forall i, i < n -> val op (element (transferOutput (init b))) i = false).

Lemma bottom_leq b t : (forall i, i < n -> val op (element (transferOutput (init b))) i = false) ->
  (forall b', bv_size (contribution t b') = n) -> leqT (transferOutput (init b)) t.
Proof.
  intros Hbot _. split.
  - intros i Hi. by rewrite Hbot.
  - intros b' i Hi. unfold contribution at 1. rewrite init_nv, lookup_empty. by rewrite Hbot.
Qed.

Lemma ascending_first b0 rest res res1 : order = b0 :: rest -> (forall b, view res b = init b) ->
  stepped res b0 res1 -> ascending res1.
Proof.
  intros Eo Ei Hst. assert (Hwf : wfState res) by by apply wf_init.
  assert (Hb0 : b0 ∈ order) by (rewrite Eo; set_solver).
  assert (Hwf1 : wfState res1) by (apply (wf_step res b0); auto).
  assert (Hcs : forall x b b', b ∈ univ -> okin x -> bv_size (contribution (T x b) b') = n).
  { intros x b b' Hbu Hx. unfold contribution. destruct (neighborVals _ !! b') eqn:E.
    - rewrite size_or, T_size, (T_nv_size x b b' v) by done. lia.
    - by apply T_size. }
  intros b Hb. rewrite Hst at 1. case_decide as E.
  - subst b. rewrite tout_newRes.
    apply T_mono; [by auto|by apply inputAt_ok; auto..|].
    destruct (init_bottom b0 Hb0) as [[_ En]|Hbot].
    + unfold inputAt. rewrite En. rewrite Hst, decide_True, input_newRes by done.
      unfold inputAt. rewrite En. apply leqV_refl.
    + apply inputAt_mono; [|by apply (stepped_input res b0)].
      intros b' Hb'. apply (step_grows res b0); [done|]. rewrite Ei.
      apply bottom_leq; [done|]. intros b''. apply Hcs; [by auto|]. apply inputAt_ok; auto.
  - rewrite Ei. apply bottom_leq.
    + destruct (init_bottom b Hb) as [[Eh _]|Hbot]; [|done].
      rewrite Eo in Eh. simpl in Eh. congruence.
    + intros b'. apply Hcs; [by auto|]. apply inputAt_ok; auto.
Qed.

Lemma sweep_first b0 rest res : order = b0 :: rest -> exists res1,
  stepped res b0 res1 /\
  sweep transferFn dir op domain index neighbors order (res, true) =
  sweep transferFn dir op domain index neighbors rest
    (res1, negb (changed (inputAt res b0) b0 (view res b0))).
Proof.
  intros ->. destruct (processBlock_spec res true b0) as (res1 & Hst & Ep).
  exists res1. split; [done|]. simpl. by rewrite Ep.
Qed.

Lemma iterate_terminates fuel res : (forall b, view res b = init b) ->
  length order * n + 1 < fuel ->
  exists res', iterate transferFn dir op fuel domain index neighbors order res = Done res'.
Proof.
  intros Ei Hf. destruct fuel as [|fuel]; [lia|]. simpl.
  assert (Ho : order = [] \/ exists b0 rest, order = b0 :: rest) by (destruct order; eauto).
  destruct Ho as [->|(b0 & rest & Eo)]; [simpl; by eauto|].
  destruct (sweep_first b0 rest res Eo) as (res1 & Hst & ->).
  assert (Hwf : wfState res) by by apply wf_init.
  assert (Hasc : ascending res1) by by apply (ascending_first b0 rest res).
  assert (Hwf1 : wfState res1) by (apply (wf_step res b0); auto; apply order_univ; rewrite Eo; set_solver).
  destruct (sweep_ascends rest ltac:(rewrite Eo; set_solver) res1
    (negb (changed (inputAt res b0) b0 (view res b0))) Hwf1 Hasc)
    as (res2 & c & -> & Hwf2 & Hasc2 & Hset2 & Hw & _). simpl.
  destruct c; [by eauto|]. apply iterate_settled; auto; [|lia].
  intros b Hb. apply Hset2. rewrite Eo in Hb. apply elem_of_cons in Hb as [->|Hb]; [|by right].
  left. eapply settled_step; eauto.
Qed.

(** *** Properties of the result *)

Lemma iterate_solves fuel : forall res res', wfState res ->
  iterate transferFn dir op fuel domain index neighbors order res = Done res' ->
  wfState res' /\ forall b, b ∈ order -> equations res' b.
Proof.
  induction fuel as [|fuel IH]; intros res res' Hwf; simpl; [done|].
  destruct (sweep_ind wfState order) with (res := res) (c := true)
    as (res1 & c & Es & Hwf1); [intros r b r' Hb Hr; apply (wf_step r b); auto|done|].
  rewrite Es. simpl. destruct c.
  - intros [= <-]. apply sweep_converged in Es as (Hw & _ & He & _); auto.
  - by apply IH.
Qed.

(** Blocks outside the traversal order keep their state. *)
Lemma iterate_unvisited fuel : forall res res',
  iterate transferFn dir op fuel domain index neighbors order res = Done res' ->
  forall b, b ∉ order -> view res' b = view res b.
Proof using H0 op_valid.
  induction fuel as [|fuel IH]; intros res res'; simpl; [done|].
  destruct (sweep_ind (fun r => forall b, b ∉ order -> view r b = view res b) order)
    with (res := res) (c := true) as (res1 & c & Es & Hres1); [|done|].
  { intros r b r' Hb Hr Hst b' Hb'. rewrite Hst, decide_False by (intros ->; done). by apply Hr. }
  rewrite Es. simpl. destruct c; [by intros [= <-]|].
  intros Hit b Hb. by rewrite (IH _ _ Hit b Hb), Hres1.
Qed.

(** A property of transfer outputs that one step of the equations preserves
    holds of every block of the result. *)
Lemma iterate_invariant (Q : blk -> TransferOutput V -> Prop) :
  (forall b, (hd_error order = Some b /\ nbrs b = []) \/ Q b (transferOutput (init b))) ->
  (forall b (t : blk -> TransferOutput V), b ∈ order ->
     (forall m, m ∈ nbrs b -> Q m (t m) /\ (forall b', bv_size (contribution (t m) b') = n)) ->
     Q b (T (match nbrs b with
             | [] => blockInput dir (init b)
             | _ => meetV op (map (fun m => contribution (t m) b) (nbrs b))
             end) b)) ->
  forall fuel res res', (forall b, view res b = init b) ->
  iterate transferFn dir op fuel domain index neighbors order res = Done res' ->
  forall b, Q b (tout res' b) \/ (order = []).
Proof.
  intros Hinit Hstep fuel res res' Ei. set (P := fun r => wfState r /\ forall b, Q b (tout r b)).
  assert (Hpres : forall r b r', b ∈ order -> wfState r ->
    (forall m, m ∈ nbrs b -> Q m (tout r m)) -> stepped r b r' ->
    Q b (tout r' b)).
  { intros r b r' Hb Hwf Hq Hst. rewrite Hst, decide_True, tout_newRes by done.
    specialize (Hstep b (fun m => tout r m) Hb). unfold inputAt. destruct (nbrs b) eqn:En.
    - rewrite (wf_fixed_in _ Hwf) by auto. apply Hstep. intros m Hm. by apply not_elem_of_nil in Hm.
    - rewrite <- En in *. apply Hstep. intros m Hm. split; [by apply Hq|].
      intros b'. apply contribution_size; [done|]. by apply nbrs_univ with b. }
  assert (HP : forall r b r', b ∈ order -> P r -> stepped r b r' -> P r').
  { intros r b r' Hb [Hwf Hq] Hst. split; [apply (wf_step r b); auto|]. intros b'.
    destruct (decide (b = b')) as [<-|Hne]; [by eapply Hpres; eauto|].
    rewrite Hst. case_decide; [done|]. apply Hq. }
  assert (Hit : forall f r r', P r ->
    iterate transferFn dir op f domain index neighbors order r = Done r' -> P r').
  { induction f as [|f IH]; intros r r' Hr; simpl; [done|].
    destruct (sweep_ind P order HP r true Hr) as (r1 & c & -> & Hr1). simpl.
    destruct c; [by intros [= <-]|]. by apply IH. }
  assert (Ho : order = [] \/ exists b0 rest, order = b0 :: rest) by (destruct order; eauto).
  destruct Ho as [->|(b0 & rest & Eo)]; [by right|]. intros Hi b. left. revert b.
  destruct fuel as [|fuel]; [done|]. simpl in Hi.
  destruct (sweep_first b0 rest res Eo) as (res1 & Hst & Ep). rewrite Ep in Hi.
  assert (Hb0 : b0 ∈ order) by (rewrite Eo; set_solver).
  assert (Hwf : wfState res) by by apply wf_init.
  assert (HP1 : P res1).
  { split; [apply (wf_step res b0); auto|]. intros b.
    destruct (decide (b0 = b)) as [<-|Hne].
    - apply (Hpres res b0 res1); [done|done| |done]. intros m Hm.
      rewrite Ei. destruct (Hinit m) as [[Eh En]|Hq]; [|done].
      rewrite Eo in Eh. simpl in Eh. injection Eh as <-. rewrite En in Hm.
      by apply not_elem_of_nil in Hm.
    - rewrite Hst. case_decide; [done|]. rewrite Ei.
      destruct (Hinit b) as [[Eh _]|Hq]; [|done]. rewrite Eo in Eh. simpl in Eh. congruence. }
  destruct (sweep_ind P rest) with (res := res1) (c := negb (changed (inputAt res b0) b0 (view res b0)))
    as (res2 & c & Es & HP2); [intros r b r' Hb; apply HP; rewrite Eo; set_solver|done|].
  rewrite Es in Hi. simpl in Hi. destruct c.
  - injection Hi as <-. apply HP2.
  - apply Hit in Hi; [apply Hi|done].
Qed.

End Iteration.
