(* ===== verification/DataflowRun.v ===== *)
(** * [DataFlow::run] on a function

    The interface [MonotoneAnalysis] is what an analysis promises to the
    framework.  In return [run] terminates, solves the data-flow equations on
    every reachable block, and gives the extreme solution. *)

From stdpp Require Import gmap list strings.
From S2P Require Import Prelude LLVM Dataflow DataflowTheory.

(** The result record of a block, [output.result[block]]. *)
Abbreviation resultAt out b := (map_get BlockResult0 (result out) b).

Section InitialState.
Context {V : Type} `{BitVectorLaws V}.
Variable dir : Direction.
Variable F : Function.
Hypothesis HF : CFGLaws F.
Variables bRes intRes : BlockResult V.

Definition initOf (b : blk) : BlockResult V :=
  if decide (b ∈ boundaryBlocks dir F) then bRes
  else if decide (b ∈ f_blocks F) then intRes else BlockResult0.

Lemma front_in_blocks : f_front F ∈ f_blocks F.
Proof. pose proof (cfg_nonempty F HF). unfold f_front. destruct (f_blocks F); [done|]. set_solver. Qed.

Lemma boundary_in_blocks b : b ∈ boundaryBlocks dir F -> b ∈ f_blocks F.
Proof.
  unfold boundaryBlocks. destruct dir; [set_solver| |].
  - intros Hb. apply list_elem_of_singleton in Hb as ->. apply front_in_blocks.
  - intros Hb. by apply list_elem_of_filter in Hb as [_ Hb].
Qed.

Lemma foldl_boundary (l : list blk) : forall m b,
  map_get BlockResult0 (foldl (fun m b => <[b := bRes]> m) m l) b =
  if decide (b ∈ l) then bRes else map_get BlockResult0 m b.
Proof.
  induction l as [|x l IH]; intros m b.
  - rewrite decide_False by apply not_elem_of_nil. done.
  - cbn [foldl]. rewrite IH, map_get_insert. repeat case_decide; set_solver.
Qed.

Lemma foldl_interior (bbs l : list blk) : forall m b,
  map_get BlockResult0
    (foldl (fun m b => if decide (b ∈ bbs) then m else <[b := intRes]> m) m l) b =
  if decide (b ∈ l /\ b ∉ bbs) then intRes else map_get BlockResult0 m b.
Proof.
  induction l as [|x l IH]; intros m b.
  - rewrite decide_False; [done|]. intros [Hb _]. by apply not_elem_of_nil in Hb.
  - cbn [foldl]. rewrite IH. destruct (decide (x ∈ bbs)).
    + repeat case_decide; set_solver.
    + rewrite map_get_insert. repeat case_decide; subst; set_solver.
Qed.

Lemma initResult_view b : map_get BlockResult0 (initResult dir F bRes intRes) b = initOf b.
Proof.
  unfold initResult, initOf. rewrite foldl_interior, foldl_boundary.
  repeat case_decide; try done; tauto.
Qed.

Lemma blockNeighbors_get b : b ∈ f_blocks F ->
  map_get [] (blockNeighbors dir F) b = neighborList dir F b.
Proof.
  unfold blockNeighbors. generalize (∅ : gmap blk (list blk)).
  assert (Hk : forall l (m : gmap blk (list blk)) b,
    map_get [] (foldl (fun m b => <[b := neighborList dir F b]> m) m l) b =
    if decide (b ∈ l) then neighborList dir F b else map_get [] m b).
  { induction l as [|x l IH]; intros m b'.
    - rewrite decide_False by apply not_elem_of_nil. done.
    - cbn [foldl]. rewrite IH, map_get_insert. repeat case_decide; subst; set_solver. }
  intros m Hb. by rewrite Hk, decide_True.
Qed.

Lemma reachable_in_blocks b : reachable F b -> b ∈ f_blocks F.
Proof.
  induction 1 as [|b c _ _ Hc]; [apply front_in_blocks|]. by apply (cfg_succs_in F HF) in Hc as [_ Hc].
Qed.

Lemma order_reachable b : dir <> INVALID_DIRECTION ->
  b ∈ traversalOrder dir F <-> reachable F b.
Proof. destruct dir; simpl; [done|intros _; apply cfg_rpo, HF|intros _; apply cfg_po, HF]. Qed.

Lemma neighbors_in_blocks b c : c ∈ neighborList dir F b -> c ∈ f_blocks F.
Proof.
  destruct dir; simpl; intros Hc; [by apply not_elem_of_nil in Hc| |].
  - apply (cfg_preds F HF) in Hc. by apply (cfg_succs_in F HF) in Hc as [Hc _].
  - by apply (cfg_succs_in F HF) in Hc as [_ Hc].
Qed.

Lemma front_no_neighbors : neighborList FORWARD F (f_front F) = [].
Proof.
  simpl. destruct (f_preds F (f_front F)) as [|c l] eqn:E; [done|].
  destruct (cfg_entry F HF c). apply (cfg_preds F HF). rewrite E. set_solver.
Qed.

End InitialState.

(** ** Gen and kill sets *)

(** [transferOutput.element] as liveness, available expressions and dead-code
    elimination build it: [kill.flip()], [&= input], [|= gen]. *)
Section GenKill.
Context {V : Type} `{BitVectorLaws V}.

Definition genKill (kill gen input : V) : V := bv_or (bv_and (bv_flip kill) input) gen.

Lemma genKill_bit kill gen input i : bv_size kill = bv_size gen ->
  bit (genKill kill gen input) i = bit gen i || (bit input i && negb (bit kill i) && bool_decide (i < bv_size kill)).
Proof.
  intros Hs. unfold genKill. rewrite bit_or, bit_and, bit_flip.
  by destruct (bit gen i), (bit input i), (bit kill i), (bool_decide _).
Qed.

Lemma genKill_size kill gen input n : bv_size kill = n -> bv_size gen = n ->
  bv_size (genKill kill gen input) = n.
Proof. intros Hk Hg. unfold genKill. rewrite size_or, size_and, size_flip. lia. Qed.

Lemma genKill_mono op n kill gen x y : bv_size kill = n -> bv_size gen = n ->
  leqV op n x y -> leqV op n (genKill kill gen x) (genKill kill gen y).
Proof.
  intros Hk Hg Hxy i Hi. specialize (Hxy i Hi). destruct op; simpl in *;
    rewrite !genKill_bit by congruence;
    destruct (bit gen i), (bit x i), (bit y i), (bit kill i), (bool_decide _); simpl in *; naive_solver.
Qed.

End GenKill.

(** ** What an analysis promises *)

Section Analysis.
Context {V : Type} `{BitVectorLaws V} {D : Type} `{Countable D}.
Variable transferFn : V -> list D -> gmap D nat -> blk -> TransferOutput V.
Variable dir : Direction.
Variable op : MeetOp.
Variable F : Function.
Variable domain : list D.

Abbreviation n := (length domain).
Abbreviation index := (index_from 0 domain ∅).
Abbreviation T x b := (transferFn x domain index b).

(** The vectors the transfer function accepts ([okin]) include those as long as
    the domain; it returns such vectors, is monotone in the order of the meet,
    and what it keeps per neighbour is a function of the element it returns
    (the framework's convergence test looks at the element and at the number of
    neighbours only). *)
Class MonotoneAnalysis (okin : V -> Prop) : Prop := {
  ma_ok x : bv_size x = n -> okin x;
  ma_size x b : b ∈ f_blocks F -> okin x -> bv_size (element (T x b)) = n;
  ma_nv_size x b b' v : b ∈ f_blocks F -> okin x -> neighborVals (T x b) !! b' = Some v -> bv_size v = n;
  ma_nv_det x y b : b ∈ f_blocks F -> okin x -> okin y ->
    element (T x b) = element (T y b) -> neighborVals (T x b) = neighborVals (T y b);
  ma_mono x y b : b ∈ f_blocks F -> okin x -> okin y -> leqV op n x y -> leqT op n (T x b) (T y b)
}.

(** The initial values all callers use: an empty boundary condition, and for
    interior blocks the neutral element of the meet. *)
Definition bottom : V := bv_make n (bool_decide (op = INTERSECTION)).

Record wellInitialised (okin : V -> Prop) (intRes : BlockResult V) : Prop := {
  wi_op : op <> INVALID_MEETOP;
  wi_dir : dir = FORWARD \/ (dir = BACKWARD /\ op = UNION);
  wi_in : okin (blockInput dir intRes);
  wi_out : blockOutput dir intRes = bottom;
  wi_tout : transferOutput intRes = mkTransferOutput bottom ∅
}.

Lemma wellInitialised_asst2 (okin : V -> Prop) : op <> INVALID_MEETOP ->
  dir = FORWARD \/ (dir = BACKWARD /\ op = UNION) -> okin bv_empty ->
  wellInitialised okin (interiorRes dir bottom).
Proof. intros Hop Hd Hok. split; auto; destruct Hd as [->|[-> _]]; done. Qed.

Lemma wellInitialised_asst3 (okin : V -> Prop) : op <> INVALID_MEETOP ->
  dir = FORWARD \/ (dir = BACKWARD /\ op = UNION) -> okin bottom ->
  wellInitialised okin (interiorRes_both dir bottom).
Proof. intros Hop Hd Hok. split; auto; destruct Hd as [->|[-> _]]; done. Qed.

Section Solved.
Context (okin : V -> Prop) {HM : MonotoneAnalysis okin}.
Hypothesis HF : CFGLaws F.
Variable intRes : BlockResult V.
Hypothesis HI : wellInitialised okin intRes.

Abbreviation order := (traversalOrder dir F).
Abbreviation init := (initOf dir F (boundaryRes dir (bv_make n false)) intRes).
Abbreviation nbs := (blockNeighbors dir F).

Lemma dir_valid : dir <> INVALID_DIRECTION.
Proof. destruct (wi_dir _ _ HI) as [->|[-> _]]; done. Qed.

Lemma order_blocks b : b ∈ order -> b ∈ f_blocks F.
Proof. rewrite order_reachable; [by apply reachable_in_blocks|done|apply dir_valid]. Qed.

(** Block numbers outside the function have no neighbours in the map. *)
Lemma nbs_get b : map_get [] nbs b = if decide (b ∈ f_blocks F) then neighborList dir F b else [].
Proof.
  case_decide as E; [by apply blockNeighbors_get|].
  unfold map_get, blockNeighbors.
  assert (Hk : forall l (m : gmap blk (list blk)), b ∉ l ->
    foldl (fun m b => <[b := neighborList dir F b]> m) m l !! b = m !! b).
  { induction l as [|x l IH]; intros m Hb; simpl; [done|].
    rewrite IH by set_solver. apply lookup_insert_ne. set_solver. }
  by rewrite Hk.
Qed.

Lemma boundary_io : blockInput dir (boundaryRes dir (bv_make n false : V)) = bv_make n false /\
  blockOutput dir (boundaryRes dir (bv_make n false : V)) = bv_empty /\
  transferOutput (boundaryRes dir (bv_make n false : V)) = mkTransferOutput (bv_make n false) ∅.
Proof. pose proof dir_valid. unfold boundaryRes. destruct dir; done. Qed.

Lemma init_in b : b ∈ f_blocks F -> okin (blockInput dir (init b)).
Proof.
  intros Hb. unfold initOf. destruct boundary_io as (E & _). repeat case_decide; try done.
  - rewrite E. apply ma_ok. apply size_make.
  - apply (wi_in _ _ HI).
Qed.

Lemma init_elt_size b : b ∈ f_blocks F -> bv_size (element (transferOutput (init b))) = n.
Proof.
  intros Hb. unfold initOf. destruct boundary_io as (_ & _ & E). repeat case_decide; try done.
  - rewrite E. apply size_make.
  - rewrite (wi_tout _ _ HI). apply size_make.
Qed.

Lemma init_nv b : neighborVals (transferOutput (init b)) = ∅.
Proof.
  unfold initOf. destruct boundary_io as (_ & _ & E). repeat case_decide; [by rewrite E| |done].
  by rewrite (wi_tout _ _ HI).
Qed.

Lemma init_out b i : b ∈ f_blocks F ->
  bit (blockOutput dir (init b)) i = bit (element (transferOutput (init b))) i.
Proof.
  intros Hb. unfold initOf. destruct boundary_io as (_ & E1 & E2). repeat case_decide; try done.
  - rewrite E1, E2. simpl. by rewrite bit_empty, bit_make, andb_false_r.
  - by rewrite (wi_tout _ _ HI), (wi_out _ _ HI).
Qed.

Lemma bottom_val i : i < n -> val op (bottom : V) i = false.
Proof.
  intros Hi. unfold bottom. pose proof (wi_op _ _ HI). destruct op; simpl; [done| |];
    rewrite bit_make, bool_decide_true by done; done.
Qed.

Lemma init_bottom b : b ∈ order ->
  (hd_error order = Some b /\ map_get [] nbs b = []) \/
  (forall i, i < n -> val op (element (transferOutput (init b))) i = false).
Proof.
  intros Hb. unfold initOf. destruct boundary_io as (_ & _ & E).
  pose proof (order_blocks b Hb) as Hbb. case_decide as Eb; [|right].
  - rewrite nbs_get, decide_True by done.
    destruct (wi_dir _ _ HI) as [Ed|[Ed Eo]].
    + left. destruct (cfg_rpo_head F HF) as [rest Er]. revert Eb. rewrite Ed. simpl.
      intros Eb%list_elem_of_singleton. subst b. rewrite Er. split; [done|].
      by apply front_no_neighbors.
    + right. intros i Hi. rewrite E, Eo. simpl. by rewrite bit_make, andb_false_r.
  - rewrite decide_True by done. intros i Hi. rewrite (wi_tout _ _ HI). by apply bottom_val.
Qed.

(** The neighbour lists [run] uses. *)
Lemma nbs_univ b c : c ∈ map_get [] nbs b -> c ∈ f_blocks F.
Proof.
  rewrite nbs_get. case_decide; [by apply neighbors_in_blocks|]. intros Hc. by apply not_elem_of_nil in Hc.
Qed.

Lemma run_done_lemma fuel : length order * n + 1 < fuel -> exists out,
  runWith transferFn dir op intRes fuel F domain (bv_make n false) = Done out.
Proof.
  intros Hf. unfold runWith.
  edestruct (iterate_terminates transferFn dir op (wi_op _ _ HI) domain index nbs
    (f_blocks F) n okin init ma_ok ma_size ma_nv_size ma_nv_det nbs_univ
    init_in init_elt_size init_nv init_out order order_blocks ma_mono init_bottom fuel)
    as [res ->]; [intros b; by apply initResult_view|done|].
  simpl. by eexists.
Qed.

(** The equations of the result, in terms of the function's CFG. *)
Definition solves (out : DataFlowResult V D) (b : blk) : Prop :=
  blockInput dir (resultAt out b) =
    (match neighborList dir F b with
     | [] => blockInput dir (init b)
     | _ => meetV op (map (fun m => contribution (transferOutput (resultAt out m)) b)
                          (neighborList dir F b))
     end) /\
  transferOutput (resultAt out b) = T (blockInput dir (resultAt out b)) b /\
  blockOutput dir (resultAt out b) = element (transferOutput (resultAt out b)).

Lemma run_solves_lemma fuel out :
  runWith transferFn dir op intRes fuel F domain (bv_make n false) = Done out ->
  domainToIndex out = index /\
  (forall b, reachable F b -> solves out b /\ okin (blockInput dir (resultAt out b))).
Proof.
  unfold runWith. rewrite obind_Done. intros (res & Hit & [= <-]). split; [done|].
  edestruct (iterate_solves transferFn dir op (wi_op _ _ HI) domain index nbs
    (f_blocks F) n okin init ma_ok ma_size ma_nv_size ma_nv_det nbs_univ
    init_in init_elt_size init_nv init_out order order_blocks) as [Hwf He]; [|exact Hit|].
  { apply wf_init; [exact init_in|exact init_elt_size|exact init_nv|exact init_out|].
    intros b. by apply initResult_view. }
  intros b Hb. assert (Hbo : b ∈ order) by by apply (order_reachable dir F HF b dir_valid).
  pose proof (order_blocks b Hbo) as Hbb.
  destruct (He b Hbo) as (E1 & E2 & E3). split; [|by apply (wf_in _ _ _ _ _ _ _ _ _ _ Hwf)].
  split; [|done]. simpl. rewrite E1 at 1. unfold inputAt. rewrite nbs_get, decide_True by done.
  destruct (neighborList dir F b) eqn:En; [|done].
  apply (wf_fixed_in _ _ _ _ _ _ _ _ _ _ Hwf); [done|]. by rewrite nbs_get, decide_True.
Qed.

(** A property of transfer outputs preserved by the equations holds of the
    result. *)
Lemma run_invariant_lemma (Q : blk -> TransferOutput V -> Prop) :
  (forall b, (dir = FORWARD /\ b = f_front F) \/ Q b (transferOutput (init b))) ->
  (forall b (t : blk -> TransferOutput V), reachable F b ->
     (forall m, m ∈ neighborList dir F b ->
        Q m (t m) /\ (forall b', bv_size (contribution (t m) b') = n)) ->
     Q b (T (match neighborList dir F b with
             | [] => blockInput dir (init b)
             | _ => meetV op (map (fun m => contribution (t m) b) (neighborList dir F b))
             end) b)) ->
  forall fuel out,
  runWith transferFn dir op intRes fuel F domain (bv_make n false) = Done out ->
  forall b, Q b (transferOutput (resultAt out b)).
Proof.
  intros Hi Hs fuel out. unfold runWith. rewrite obind_Done. intros (res & Hit & [= <-]) b.
  edestruct (iterate_invariant transferFn dir op (wi_op _ _ HI) domain index nbs
    (f_blocks F) n okin init ma_ok ma_size ma_nv_size ma_nv_det nbs_univ
    init_in init_elt_size init_nv init_out order order_blocks ma_mono init_bottom Q)
    with (b := b) as [HQ|Eo]; [ | | |exact Hit|exact HQ|].
  - intros c. destruct (Hi c) as [[Ed ->]|Hc]; [left|by right].
    rewrite nbs_get, decide_True by by apply front_in_blocks.
    rewrite Ed. simpl. destruct (cfg_rpo_head F HF) as [rest ->]. split; [done|].
    by apply front_no_neighbors.
  - intros c t Hc Hm. pose proof (order_blocks c Hc) as Hcb.
    rewrite nbs_get, decide_True in * by done. apply Hs; [|done].
    by apply (order_reachable dir F HF c dir_valid).
  - intros c. by apply initResult_view.
  - exfalso. assert (Hr : f_front F ∈ order).
    { apply (order_reachable dir F HF _ dir_valid). constructor. }
    rewrite Eo in Hr. by apply not_elem_of_nil in Hr.
Qed.

(** Another family of transfer outputs that meets the equations: the blocks
    [run] never visits keep their initial value. *)
Record isSolution (t : blk -> TransferOutput V) : Prop := {
  sol_size m b : m ∈ f_blocks F -> bv_size (contribution (t m) b) = n;
  sol_fixed b : ~ reachable F b -> t b = transferOutput (init b);
  sol_eq b : reachable F b ->
    t b = T (match neighborList dir F b with
             | [] => blockInput dir (init b)
             | _ => meetV op (map (fun m => contribution (t m) b) (neighborList dir F b))
             end) b
}.

Lemma run_least_lemma fuel out t : isSolution t ->
  runWith transferFn dir op intRes fuel F domain (bv_make n false) = Done out ->
  forall b, leqT op n (transferOutput (resultAt out b)) (t b).
Proof.
  intros Ht Hrun. revert fuel out Hrun.
  apply (run_invariant_lemma (fun b x => leqT op n x (t b))).
  - intros b. destruct (decide (dir = FORWARD /\ b = f_front F)) as [Ef|Ef]; [by left|right].
    destruct (decide (b ∈ order)) as [Hbo|Hbo].
    2: { rewrite (sol_fixed t Ht b); [apply leqT_refl|].
         by rewrite <- (order_reachable dir F HF b dir_valid). }
    destruct (init_bottom b Hbo) as [[Eh _]|Hbot].
    + destruct (wi_dir _ _ HI) as [Ed|[Ed Eo]].
      * destruct (cfg_rpo_head F HF) as [rest Er]. exfalso. apply Ef. split; [done|].
        revert Eh. rewrite Ed. simpl. rewrite Er. simpl. congruence.
      * apply (bottom_leq op n init init_nv); [|intros b'; apply (sol_size t Ht), order_blocks, Hbo].
        intros i Hi. unfold initOf. destruct boundary_io as (_ & _ & E).
        repeat case_decide; [rewrite E|rewrite (wi_tout _ _ HI); by apply bottom_val|].
        -- rewrite Eo. simpl. by rewrite bit_make, andb_false_r.
        -- exfalso. by apply order_blocks in Hbo.
    + apply (bottom_leq op n init init_nv); [done|].
      intros b'. apply (sol_size t Ht), order_blocks, Hbo.
  - intros b t' Hb Hm. rewrite (sol_eq t Ht b Hb).
    destruct (neighborList dir F b) as [|m0 l] eqn:En; [apply leqT_refl|]. rewrite <- En in *.
    assert (Hne : neighborList dir F b <> []) by (rewrite En; done).
    assert (Hsz : forall t'', (forall m, m ∈ neighborList dir F b -> bv_size (contribution (t'' m) b) = n) ->
      okin (meetV op (map (fun m => contribution (t'' m) b) (neighborList dir F b)))).
    { intros t'' Hs. apply ma_ok, size_meetV; [by rewrite En|].
      intros v (m & -> & Hm')%elem_of_map. by apply Hs. }
    apply ma_mono; [by apply reachable_in_blocks|..].
    + apply Hsz. intros m Hm'. by apply Hm.
    + apply Hsz. intros m Hm'. apply (sol_size t Ht). by apply (neighbors_in_blocks dir F HF b).
    + apply meetV_mono; [|done]. intros m Hm'. by apply Hm.
Qed.

Lemma run_is_solution fuel out :
  runWith transferFn dir op intRes fuel F domain (bv_make n false) = Done out ->
  isSolution (fun b => transferOutput (resultAt out b)).
Proof.
  intros Hrun. pose proof (run_solves_lemma fuel out Hrun) as [_ Hs].
  revert Hrun. unfold runWith. rewrite obind_Done. intros (res & Hit & [= <-]). split; simpl.
  - edestruct (iterate_solves transferFn dir op (wi_op _ _ HI) domain index nbs
      (f_blocks F) n okin init ma_ok ma_size ma_nv_size ma_nv_det nbs_univ
      init_in init_elt_size init_nv init_out order order_blocks) as [Hwf _]; [|exact Hit|].
    { apply wf_init; [exact init_in|exact init_elt_size|exact init_nv|exact init_out|].
      intros b. by apply initResult_view. }
    intros m b Hm. by apply (contribution_size _ _ _ _ _ _ _ _ _ _ m b Hwf).
  - intros b Hb. rewrite (iterate_unvisited transferFn dir op (wi_op _ _ HI) domain index nbs order fuel _ _ Hit b).
    + by rewrite initResult_view.
    + by rewrite (order_reachable dir F HF b dir_valid).
  - intros b Hb. destruct (Hs b Hb) as [(E1 & E2 & _) _]. simpl in E1, E2. rewrite E2 at 1. by rewrite E1 at 1.
Qed.

(** C2: [DataFlow::run] terminates.  For a monotone analysis it returns within
    [blocks * width + 2] sweeps over the traversal order: every sweep after the
    first that does not end the loop adds a bit to some block. *)
Theorem run_terminates fuel : length (traversalOrder dir F) * length domain + 2 <= fuel ->
  exists out, runWith transferFn dir op intRes fuel F domain (bv_make (length domain) false) = Done out.
Proof. intros Hf. apply run_done_lemma. lia. Qed.

(** C3: What [run] returns solves the data-flow equations at every reachable
    block: the input is the meet of the neighbours' contributions (or the
    initial input when there is none), the transfer output is the transfer
    function of the input, and the output side is its element. *)
Theorem run_solves_equations fuel out :
  runWith transferFn dir op intRes fuel F domain (bv_make (length domain) false) = Done out ->
  domainToIndex out = index_from 0 domain ∅ /\ forall b, reachable F b -> solves out b.
Proof. intros Hrun. apply run_solves_lemma in Hrun as [Hi Hs]. split; [done|]. intros b Hb. by apply Hs. Qed.

(** C4: What [run] returns is the extreme solution of the data-flow equations:
    it is a solution, and any other solution contains it (for a union) or is
    contained in it (for an intersection), at every block. *)
Theorem run_extreme fuel out :
  runWith transferFn dir op intRes fuel F domain (bv_make (length domain) false) = Done out ->
  isSolution (fun b => transferOutput (resultAt out b)) /\
  forall t, isSolution t ->
  forall b, leqT op (length domain) (transferOutput (resultAt out b)) (t b).
Proof.
  intros Hrun. split; [by apply (run_is_solution fuel)|].
  intros t Ht. by apply (run_least_lemma fuel).
Qed.

End Solved.
End Analysis.
