(* ===== verification/MustAnalysis.v ===== *)
(** * Forward analyses that meet by intersection

    Dominance and available expressions are both forward [DataFlow] analyses
    with [MeetOp::INTERSECTION] whose transfer function generates and kills
    bits.  What they have in common is proved once here: a bit of the IN set of
    a reachable block is on exactly when every path from the entry leaves it
    on. *)

From stdpp Require Import gmap list strings.
From S2P Require Import Prelude LLVM Dataflow DataflowTheory DataflowRun.

(** [entryPath F p b]: control can reach [b] from the entry through exactly the
    blocks [p], in this order, before arriving at [b]. *)
Inductive entryPath (F : Function) : list blk -> blk -> Prop :=
| ep_start : entryPath F [] (f_front F)
| ep_step p b c : entryPath F p b -> c ∈ f_succs F b -> entryPath F (p ++ [b]) c.

Lemma reachable_path F b : reachable F b <-> exists p, entryPath F p b.
Proof.
  split.
  - induction 1 as [|b c _ [p Hp] Hc]; [exists []; constructor|].
    exists (p ++ [b]). by apply ep_step.
  - intros [p Hp]. induction Hp; [constructor|]. by apply reach_step with b.
Qed.

(** The effect of a path on one bit, from an entry where it is off. *)
Definition along (gen kill : blk -> bool) (p : list blk) : bool :=
  foldl (fun a b => gen b || (a && negb (kill b))) false p.

Lemma along_snoc gen kill p b :
  along gen kill (p ++ [b]) = gen b || (along gen kill p && negb (kill b)).
Proof. unfold along. by rewrite foldl_app. Qed.

Section Must.
Context {V : Type} `{BitVectorLaws V} {D : Type} `{Countable D}.
Variable transferFn : V -> list D -> gmap D nat -> blk -> TransferOutput V.
Variable F : Function.
Variable domain : list D.
Context (okin : V -> Prop) {HM : MonotoneAnalysis transferFn INTERSECTION F domain okin}.
Hypothesis HF : CFGLaws F.
Variable intRes : BlockResult V.
Hypothesis HI : wellInitialised FORWARD INTERSECTION domain okin intRes.

Abbreviation n := (length domain).
Abbreviation index := (index_from 0 domain ∅).
Abbreviation T x b := (transferFn x domain index b).

(** What the transfer function does to each bit. *)
Variables gen kill : nat -> blk -> bool.
Hypothesis HT : forall x b, b ∈ f_blocks F -> okin x -> neighborVals (T x b) = ∅ /\
  forall j, j < n -> bit (element (T x b)) j = gen j b || (bit x j && negb (kill j b)).

Abbreviation initB b := (initOf FORWARD F (boundaryRes FORWARD (bv_make n false : V)) intRes b).

Lemma must_init_interior b j : b ∈ f_blocks F -> b <> f_front F -> j < n ->
  bit (element (transferOutput (initB b))) j = true.
Proof.
  intros Hb Hne Hj. unfold initOf. rewrite decide_False by (simpl; set_solver).
  rewrite decide_True by done. rewrite (wi_tout _ _ _ _ _ HI). simpl. unfold bottom.
  by rewrite bit_make, bool_decide_true.
Qed.

Lemma must_init_front : blockInput FORWARD (initB (f_front F)) = bv_make n false.
Proof. unfold initOf. by rewrite decide_True by (simpl; set_solver). Qed.

Lemma pred_exists c : reachable F c -> c <> f_front F -> neighborList FORWARD F c <> [].
Proof.
  intros Hc Hne E. destruct Hc as [|b c Hb Hc]; [done|].
  assert (b ∈ neighborList FORWARD F c) as Hin by by apply (cfg_preds F HF).
  rewrite E in Hin. by apply not_elem_of_nil in Hin.
Qed.

(** A meet by intersection clears a bit when some input does. *)
Lemma meet_cleared (f : blk -> V) l j : l <> [] ->
  bit (meetV INTERSECTION (map f l)) j = false <-> exists m, m ∈ l /\ bit (f m) j = false.
Proof.
  intros Hl. rewrite <- val_inter. rewrite (val_meetV_true INTERSECTION) by (by destruct l).
  split.
  - intros (y & (m & -> & Hm)%elem_of_map & Hv). exists m. split; [done|]. by apply val_inter.
  - intros (m & Hm & Hv). exists (f m). split; [apply elem_of_map; by exists m|]. by apply val_inter.
Qed.

Variable fuel : nat.
Variable out : DataFlowResult V D.
Hypothesis Hrun : runWith transferFn FORWARD INTERSECTION intRes fuel F domain (bv_make n false) = Done out.

(** The value a round of the iteration feeds to the transfer function. *)
Abbreviation fed t c :=
  (match neighborList FORWARD F c with
   | [] => blockInput FORWARD (initB c)
   | _ => meetV INTERSECTION (map (fun m => contribution (t m) c) (neighborList FORWARD F c))
   end).

Lemma fed_okin (t : blk -> TransferOutput V) c : c ∈ f_blocks F ->
  (forall m, m ∈ neighborList FORWARD F c -> forall b', bv_size (contribution (t m) b') = n) ->
  okin (fed t c).
Proof.
  intros Hc Hm. destruct (neighborList FORWARD F c) as [|m l] eqn:En.
  - by apply (init_in transferFn FORWARD INTERSECTION F domain okin _ HI c).
  - rewrite <- En in *. apply (ma_ok transferFn INTERSECTION F domain). apply size_meetV; [by rewrite En|].
    intros v (m' & -> & Hm')%elem_of_map. by apply Hm.
Qed.

(** Nothing is kept per neighbour, and elements are as long as the domain. *)
Lemma must_shape b : neighborVals (transferOutput (resultAt out b)) = ∅ /\
  (b ∈ f_blocks F -> bv_size (element (transferOutput (resultAt out b))) = n).
Proof.
  eapply (run_invariant_lemma transferFn FORWARD INTERSECTION F domain okin HF _ HI
    (fun b t => neighborVals t = ∅ /\ (b ∈ f_blocks F -> bv_size (element t) = n))); [| |exact Hrun].
  - intros c. destruct (decide (c = f_front F)) as [->|Hne]; [by left|right].
    split; [apply (init_nv FORWARD INTERSECTION F domain okin _ HI)|].
    intros Hc. by apply (init_elt_size FORWARD INTERSECTION F domain okin _ HI).
  - intros c t Hc Hm. pose proof (reachable_in_blocks F HF c Hc) as Hcb.
    assert (Hx : okin (fed t c)) by (apply fed_okin; [done|]; intros m Hmn; by apply Hm).
    split; [by apply HT|]. intros _. exact (ma_size transferFn INTERSECTION F domain _ c Hcb Hx).
Qed.

(** A cleared bit of an OUT set is justified by a path that leaves it off. *)
Lemma must_cleared b j : j < n -> b ∈ f_blocks F ->
  bit (element (transferOutput (resultAt out b))) j = false ->
  exists p, entryPath F p b /\ along (gen j) (kill j) (p ++ [b]) = false.
Proof.
  intros Hj Hb.
  eapply (run_invariant_lemma transferFn FORWARD INTERSECTION F domain okin HF _ HI
    (fun b t => neighborVals t = ∅ /\ (b ∈ f_blocks F ->
       bit (element t) j = false -> exists p, entryPath F p b /\ along (gen j) (kill j) (p ++ [b]) = false)));
    [| |exact Hrun|exact Hb].
  - intros c. destruct (decide (c = f_front F)) as [->|Hne]; [by left|right].
    split; [apply (init_nv FORWARD INTERSECTION F domain okin _ HI)|].
    intros Hc. by rewrite must_init_interior.
  - intros c t Hc Hm. pose proof (reachable_in_blocks F HF c Hc) as Hcb.
    assert (Hx : okin (fed t c)) by (apply fed_okin; [done|]; intros m Hmn; by apply Hm).
    destruct (HT _ c Hcb Hx) as (En & Hbits). split; [done|]. intros _. rewrite (Hbits j Hj).
    destruct (neighborList FORWARD F c) as [|m l] eqn:El.
    + destruct (decide (c = f_front F)) as [->|Hcf]; [|by destruct (pred_exists c Hc Hcf)].
      intros Hbit. exists []. split; [constructor|]. rewrite along_snoc. simpl.
      rewrite must_init_front, bit_make, andb_false_r in Hbit. done.
    + rewrite <- El in *. rewrite orb_false_iff, andb_false_iff, meet_cleared by by rewrite El.
      intros [Hg Hor]. destruct Hor as [(m' & Hm' & Hv)|Hk].
      * destruct (Hm m' Hm') as [[En' HQ] _]. unfold contribution in Hv. rewrite En', lookup_empty in Hv.
        assert (Hs : c ∈ f_succs F m') by by apply (cfg_preds F HF).
        destruct (HQ (proj1 (cfg_succs_in F HF _ _ Hs)) Hv) as (p & Hp & HX).
        exists (p ++ [m']). split; [by apply ep_step|]. by rewrite along_snoc, HX, Hg.
      * apply reachable_path in Hc as [p Hp]. exists p. split; [done|].
        by rewrite along_snoc, Hg, Hk, andb_false_r.
Qed.

Lemma must_solved : domainToIndex out = index /\
  forall b, reachable F b ->
  solves transferFn FORWARD INTERSECTION F domain intRes out b /\ okin (br_in (resultAt out b)).
Proof. by apply (run_solves_lemma transferFn FORWARD INTERSECTION F domain okin HF _ HI fuel). Qed.

(** The OUT set of a reachable block. *)
Lemma must_out b j : reachable F b -> j < n ->
  neighborVals (transferOutput (resultAt out b)) = ∅ /\
  bit (element (transferOutput (resultAt out b))) j =
    gen j b || (bit (br_in (resultAt out b)) j && negb (kill j b)).
Proof.
  intros Hb Hj. destruct must_solved as [_ Hs]. destruct (Hs b Hb) as [(_ & Et & _) Hok].
  rewrite Et. destruct (HT (br_in (resultAt out b)) b) as (En & Hbits);
    [by apply reachable_in_blocks|done|]. split; [exact En|]. by rewrite <- (Hbits j Hj).
Qed.

(** The IN set of a reachable block: off at the entry, elsewhere on when every
    predecessor's OUT has it on. *)
Lemma must_in b j : reachable F b -> j < n ->
  bit (br_in (resultAt out b)) j = false <->
  b = f_front F \/ exists c, b ∈ f_succs F c /\
    bit (element (transferOutput (resultAt out c))) j = false.
Proof.
  intros Hb Hj. destruct must_solved as [_ Hs]. destruct (Hs b Hb) as [(E & _) _].
  change (br_in ?r) with (blockInput FORWARD r). rewrite E. clear E.
  destruct (decide (b = f_front F)) as [->|Hne].
  { rewrite front_no_neighbors, must_init_front, bit_make, andb_false_r by done.
    split; [by left|done]. }
  destruct (neighborList FORWARD F b) as [|m l] eqn:El; [by destruct (pred_exists b Hb Hne)|].
  rewrite <- El. rewrite meet_cleared by by rewrite El.
  assert (Hc : forall c, bit (contribution (transferOutput (resultAt out c)) b) j = false ->
     bit (element (transferOutput (resultAt out c))) j = false).
  { intros c. unfold contribution. destruct (neighborVals _ !! b); [|done].
    rewrite bit_or, orb_false_iff. by intros [? _]. }
  split.
  - intros (c & Hcn & Hv). right. exists c. split; [by apply (cfg_preds F HF)|]. by apply Hc.
  - intros [?|(c & Hcs & Hv)]; [done|]. exists c. split; [by apply (cfg_preds F HF)|].
    unfold contribution. destruct (must_shape c) as [-> _]. by rewrite lookup_empty.
Qed.

Lemma must_in_size b : reachable F b -> bv_size (br_in (resultAt out b)) = n.
Proof.
  intros Hb. destruct must_solved as [_ Hs]. destruct (Hs b Hb) as [(E & _) _].
  change (br_in ?r) with (blockInput FORWARD r). rewrite E. clear E.
  destruct (decide (b = f_front F)) as [->|Hne].
  { rewrite front_no_neighbors, must_init_front by done. apply size_make. }
  destruct (neighborList FORWARD F b) as [|m l] eqn:El; [by destruct (pred_exists b Hb Hne)|].
  rewrite <- El. apply size_meetV; [by rewrite El|]. intros v (c & -> & Hc)%elem_of_map.
  apply (cfg_preds F HF) in Hc. apply (cfg_succs_in F HF) in Hc as [Hc _].
  destruct (must_shape c) as [En Hsz]. unfold contribution. rewrite En, lookup_empty. by apply Hsz.
Qed.

(** Every path clears the bits it leaves off. *)
Lemma must_paths p b j : entryPath F p b -> j < n -> along (gen j) (kill j) p = false ->
  bit (br_in (resultAt out b)) j = false.
Proof.
  intros Hp Hj. induction Hp as [|p c b Hp IH Hc]; intros Ha.
  - apply must_in; [constructor|done|by left].
  - assert (Hcr : reachable F c) by (apply reachable_path; by exists p).
    apply must_in; [by apply reach_step with c|done|right]. exists c. split; [done|].
    destruct (must_out c j Hcr Hj) as [_ ->]. rewrite along_snoc, orb_false_iff, andb_false_iff in Ha.
    destruct Ha as [-> [Ha| ->]]; [by rewrite IH|by rewrite andb_false_r].
Qed.

(** The meet over all paths. *)
Lemma must_exact b j : reachable F b -> j < n ->
  (bit (br_in (resultAt out b)) j = true /\ forall p, entryPath F p b -> along (gen j) (kill j) p = true) \/
  (bit (br_in (resultAt out b)) j = false /\ exists p, entryPath F p b /\ along (gen j) (kill j) p = false).
Proof.
  intros Hb Hj. destruct (bit (br_in (resultAt out b)) j) eqn:Eb; [left|right]; (split; [done|]).
  - intros p Hp. destruct (along _ _ p) eqn:Ea; [done|].
    rewrite (must_paths p b j Hp Hj Ea) in Eb. done.
  - apply must_in in Eb as [-> |(c & Hc & He)]; [exists []; split; [constructor|done]| |done|done].
    destruct (must_cleared c j Hj (proj1 (cfg_succs_in F HF _ _ Hc)) He) as (p & Hp & Ha).
    exists (p ++ [c]). split; [by apply ep_step|done].
Qed.

End Must.
