(* ===== verification/Examples.v ===== *)
(** * Small functions on which the passes are run

    [loopF] is the shape of a counted loop: entry 0, header 1, body 2, exit 3.
    [trapF] has a block that ends in [unreachable], [deadF] one that no path
    from the entry reaches. *)

From stdpp Require Import gmap list strings pretty.
From Stdlib Require Import ZArith.
From S2P Require Import Prelude LLVM IR Dataflow Expr.

Definition loopF : Function := {|
  f_blocks := [0; 1; 2; 3];
  f_isRet b := bool_decide (b = 3);
  f_succs b := match b with 0 => [1] | 1 => [2; 3] | 2 => [1] | _ => [] end;
  f_preds b := match b with 1 => [0; 2] | 2 => [1] | 3 => [1] | _ => [] end;
  f_rpo := [0; 1; 2; 3];
  f_po := [3; 2; 1; 0]
|}.

Definition trapF : Function := {|
  f_blocks := [0; 1; 2];
  f_isRet b := bool_decide (b = 2);
  f_succs b := match b with 0 => [1; 2] | _ => [] end;
  f_preds b := match b with 1 => [0] | 2 => [0] | _ => [] end;
  f_rpo := [0; 1; 2];
  f_po := [2; 1; 0]
|}.

(** Entry 0 branches to 1 and 2, which join in 3; block 4 is unreachable. *)
Definition deadF : Function := {|
  f_blocks := [0; 1; 2; 3; 4];
  f_isRet b := bool_decide (b = 3);
  f_succs b := match b with 0 => [1; 2] | 1 => [3] | 2 => [3] | 4 => [3] | _ => [] end;
  f_preds b := match b with 1 => [0] | 2 => [0] | 3 => [1; 2; 4] | _ => [] end;
  f_rpo := [0; 1; 2; 3];
  f_po := [3; 2; 1; 0]
|}.

(** Membership in a concrete list of blocks, by cases. *)
Ltac in_list := repeat (apply elem_of_cons; first [left; reflexivity | right]).

Ltac blocks_in :=
  repeat match goal with
  | H : _ ∈ _ :: _ |- _ => apply elem_of_cons in H as [->|H]
  | H : _ ∈ [] |- _ => by apply not_elem_of_nil in H
  end.

Lemma loopF_reach b : b ∈ [0; 1; 2; 3] <-> reachable loopF b.
Proof.
  assert (H0 : reachable loopF 0) by apply (reach_entry loopF).
  assert (H1 : reachable loopF 1) by (apply (reach_step _ 0); [done|simpl; set_solver]).
  split.
  - intros Hb. blocks_in; try done; apply (reach_step _ 1); try done; simpl; set_solver.
  - induction 1 as [|b c Hb IH Hc]; [simpl; set_solver|]. blocks_in; simpl in Hc; set_solver.
Qed.

Lemma trapF_reach b : b ∈ [0; 1; 2] <-> reachable trapF b.
Proof.
  assert (H0 : reachable trapF 0) by apply (reach_entry trapF).
  split.
  - intros Hb. blocks_in; try done; apply (reach_step _ 0); try done; simpl; set_solver.
  - induction 1 as [|b c Hb IH Hc]; [simpl; set_solver|]. blocks_in; simpl in Hc; set_solver.
Qed.

Lemma deadF_reach b : b ∈ [0; 1; 2; 3] <-> reachable deadF b.
Proof.
  assert (H0 : reachable deadF 0) by apply (reach_entry deadF).
  assert (H1 : reachable deadF 1) by (apply (reach_step _ 0); [done|simpl; set_solver]).
  split.
  - intros Hb. blocks_in; try done;
      first [by (apply (reach_step _ 0); [done|]; simpl; set_solver)
            |by (apply (reach_step _ 1); [done|]; simpl; set_solver)].
  - induction 1 as [|b c Hb IH Hc]; [simpl; set_solver|]. blocks_in; simpl in Hc; set_solver.
Qed.

(** The laws of a concrete CFG, by cases on block numbers. *)
Ltac by_block b := do 5 (destruct b as [|b]; [simpl; set_solver|]); simpl; set_solver.
Ltac by_edge b c := do 5 (destruct c as [|c]; [by_block b|]); by_block b.
Ltac solve_cfg reach :=
  split; simpl;
  [done
  |repeat constructor; set_solver
  |intros b c; by_block b
  |intros b c; by_edge b c
  |intros b; by_block b
  |intros b Hb; apply bool_decide_eq_true in Hb; by subst
  |by eexists
  |apply reach
  |intros b; rewrite <- reach; set_solver].

Lemma loopF_laws : CFGLaws loopF.
Proof. solve_cfg loopF_reach. Qed.

Lemma trapF_laws : CFGLaws trapF.
Proof. solve_cfg trapF_reach. Qed.

Lemma deadF_laws : CFGLaws deadF.
Proof. solve_cfg deadF_reach. Qed.

(** A counted loop over [loopF]: [i1 = phi [0, entry], [i2, body]],
    [i10 = icmp i1, arg0], [i2 = add i1, 1], [ret i1]. *)
Definition loopInsts (b : blk) : list inst :=
  match b with
  | 0 => [mkInst 20 "" None Terminator [VOther 1]]
  | 1 => [mkInst 1 "i" (Some 32%Z) (PHI [0; 2]) [VConstInt 32 0; VInst 2];
          mkInst 10 "cmp" (Some 1%Z) (OtherInst 0) [VInst 1; VArg 0];
          mkInst 21 "" None Terminator [VInst 10; VOther 3; VOther 2]]
  | 2 => [mkInst 2 "inc" (Some 32%Z) (Binary Add) [VInst 1; VConstInt 32 1];
          mkInst 22 "" None Terminator [VOther 1]]
  | 3 => [mkInst 23 "" None Ret [VInst 1]]
  | _ => []
  end.

(** Block 1 of [trapF] uses the argument and ends in [unreachable]. *)
Definition trapInsts (b : blk) : list inst :=
  match b with
  | 0 => [mkInst 20 "" None Terminator [VArg 0; VOther 1; VOther 2]]
  | 1 => [mkInst 5 "" None Call [VArg 0; VOther 9]; mkInst 21 "" None Terminator []]
  | 2 => [mkInst 22 "" None Ret [VArg 0]]
  | _ => []
  end.

(** Names and addresses by number. *)
Definition numberedAPI : ValueAPI := {|
  getName v := match v with VInst i => pretty.pretty i | VArg i => "arg" | _ => "" end;
  print v := "?";
  printAPInt w c := pretty.pretty c;
  addr_lt u v := (encode u <? encode v)%positive
|}.
