(* ===== verification/Liveness.v ===== *)
(** * Live variables: asst2/ClassicalDataflow/liveness.cpp *)

From stdpp Require Import gmap list strings.
From Stdlib Require Import ZArith.
From S2P Require Import Prelude LLVM IR Expr Dataflow DataflowTheory DataflowRun Examples.

Module Liveness.

(** ** The analysis *)

Section Analysis.
Context {V : Type} `{BitVectorAPI V}.

(** The instructions of a block, in order. *)
Variable insts : blk -> list inst.

(** The variables of [transferFn] that its loops update. *)
Record locals := mkLocals {
  l_index : gmap value nat;         (* domainToIndex, a copy *)
  l_def : V;                        (* defSet *)
  l_use : V;                        (* useSet *)
  l_nv : gmap blk V                 (* transferOutput.neighborVals *)
}.

(** One incoming value of a phi node. *)
Definition stepIncoming (domainSize : nat) (st : locals) (vb : value * blk) : locals :=
  let '(val, valBlock) := vb in
  if isInstOrArg val then
    let nv := match l_nv st !! valBlock with
              | None => <[valBlock := bv_make domainSize false]> (l_nv st)
              | Some _ => l_nv st
              end in
    let '(valInd, index) := map_sub 0 (l_index st) val in
    let '(vec, nv) := map_sub bv_empty nv valBlock in
    mkLocals index (l_def st) (l_use st) (<[valBlock := bv_set vec valInd]> nv)
  else st.

(** One operand of any other instruction. *)
Definition stepOperand (st : locals) (val : value) : locals :=
  if isInstOrArg val then
    let '(valInd, index) := map_sub 0 (l_index st) val in
    if negb (bv_get (l_def st) valInd)
    then mkLocals index (l_def st) (bv_set (l_use st) valInd) (l_nv st)
    else mkLocals index (l_def st) (l_use st) (l_nv st)
  else st.

Definition stepDef (st : locals) (insn : inst) : locals :=
  match l_index st !! i_val insn with
  | Some k => mkLocals (l_index st) (bv_set (l_def st) k) (l_use st) (l_nv st)
  | None => st
  end.

Definition stepInst (domainSize : nat) (st : locals) (insn : inst) : locals :=
  stepDef
    (if isPHI insn then foldl (stepIncoming domainSize) st (phiIncoming insn)
     else foldl stepOperand st (i_ops insn)) insn.

(** [LivenessAnalysis::transferFn] *)
Definition transferFn (input : V) (domain : list value) (domainToIndex : gmap value nat)
    (block : blk) : TransferOutput V :=
  let domainSize := size domainToIndex in
  let st := foldl (stepInst domainSize)
              (mkLocals domainToIndex (bv_make domainSize false) (bv_make domainSize false) ∅)
              (insts block) in
  mkTransferOutput (bv_or (bv_and (bv_flip (l_def st)) input) (l_use st)) (l_nv st).

(** The domain: every instruction or argument some instruction uses, in order
    of first use. *)
Definition pushValue (domain : list value) (val : value) : list value :=
  if isInstOrArg val then
    if decide (val ∈ domain) then domain else domain ++ [val]
  else domain.

Definition computeDomain (F : Function) : list value :=
  foldl (fun domain insn => foldl pushValue domain (i_ops insn)) []
        (concat (map insts (f_blocks F))).

(** [pass.run(F, domain, boundaryCond, initCond)] as [runOnFunction] calls it. *)
Definition analyse (fuel : nat) (F : Function) : outcome (DataFlowResult V value) :=
  let domain := computeDomain F in
  run transferFn BACKWARD UNION fuel F domain
      (bv_make (length domain) false) (bv_make (length domain) false).

(** ** Printing the result *)

Section Output.
Context `{ValueAPI}.

(** The effect of one instruction on [liveValues], walking up the block. *)
Definition useOperand (st : gmap value nat * V) (val : value) : gmap value nat * V :=
  if isInstOrArg val then
    let '(ind, index) := map_sub 0 (fst st) val in (index, bv_set (snd st) ind)
  else st.

Definition killValue (st : gmap value nat * V) (insn : inst) : gmap value nat * V :=
  match fst st !! i_val insn with
  | Some k => (fst st, bv_reset (snd st) k)
  | None => st
  end.

Definition stepUp (st : gmap value nat * V) (insn : inst) : gmap value nat * V :=
  if isPHI insn then killValue st insn
  else killValue (foldl useOperand st (i_ops insn)) insn.

Definition rule : string :=
  "//===--------------------------------------------------------------------------------------------------------------------------===//".

Definition showLive (domain : list value) (live : V) : string :=
  setw_right WIDTH (printSet getShortValueName domain live).

(** [revOut] for the instructions already visited in reverse. *)
Fixpoint walkUp (domain : list value) (rev_insts : list inst) (st : gmap value nat * V)
  : list string * (gmap value nat * V) :=
  match rev_insts with
  | [] => ([], st)
  | insn :: rest =>
      let st' := stepUp st insn in
      let line := (spaces WIDTH ++ print (i_val insn))%string in
      let '(lines, st'') := walkUp domain rest st' in
      if isPHI insn then (line :: lines, st'')
      else (line :: showLive domain (snd st') :: lines, st'')
  end.

Definition printBlock (domain : list value) (out : DataFlowResult V value)
    (index : gmap value nat) (block : blk) : list string * gmap value nat :=
  let liveValues := br_out (map_get BlockResult0 (result out) block) in
  let '(lines, (index', _)) := walkUp domain (rev (insts block)) (index, liveValues) in
  (rev (rule :: showLive domain liveValues :: lines ++ [rule]), index').

Fixpoint printBlocks (domain : list value) (out : DataFlowResult V value)
    (index : gmap value nat) (blocks : list blk) : list string :=
  match blocks with
  | [] => []
  | b :: blocks' =>
      let '(lines, index') := printBlock domain out index b in
      lines ++ printBlocks domain out index' blocks'
  end.

(** [Liveness::runOnFunction]: the lines written to [outs()], and the returned
    flag, which is always false. *)
Definition runOnFunction (fuel : nat) (F : Function) : outcome (list string * bool) :=
  obind (analyse fuel F) (fun out =>
    Done (printBlocks (computeDomain F) out (domainToIndex out) (f_blocks F), false)).

End Output.
End Analysis.

(** ** What the sets mean *)

(** [v] is an operand of an instruction that is not a phi. *)
Definition usesPlain (i : inst) (v : value) : bool :=
  negb (isPHI i) && isInstOrArg v && bool_decide (v ∈ i_ops i).

(** [v] is used before any definition of it in the list. *)
Fixpoint exposed (l : list inst) (v : value) : bool :=
  match l with
  | [] => false
  | i :: l' => usesPlain i v || (negb (bool_decide (v = i_val i)) && exposed l' v)
  end.

Definition defined (l : list inst) (v : value) : bool := existsb (fun i => bool_decide (v = i_val i)) l.

(** A phi of the list takes [v] when control comes from [p]. *)
Definition phiTakes (l : list inst) (p : blk) (v : value) : bool :=
  existsb (fun i => isPHI i && isInstOrArg v && bool_decide ((v, p) ∈ phiIncoming i)) l.

(** A control-flow path from block [b]. *)
Inductive cfgPath (F : Function) : blk -> list blk -> Prop :=
| path_nil b : cfgPath F b []
| path_cons b c p : c ∈ f_succs F b -> cfgPath F c p -> cfgPath F b (c :: p).

(** [v] is live at the end of [b]: some path leads, through blocks that do not
    define [v], to a block that uses it before defining it, or to a block one
    of whose phis takes it on the edge the path arrives by. *)
Definition liveOut (insts : blk -> list inst) (F : Function) (b : blk) (v : value) : Prop :=
  exists p c, cfgPath F b (p ++ [c]) /\
    Forall (fun q => defined (insts q) v = false) p /\
    (exposed (insts c) v = true \/ phiTakes (insts c) (List.last p b) v = true).

Section LiveOut.
Variable insts : blk -> list inst.
Variable F : Function.

Lemma liveOut_use b c v : c ∈ f_succs F b -> exposed (insts c) v = true -> liveOut insts F b v.
Proof. intros Hc Hu. exists [], c. split; [by repeat constructor|]. split; [constructor|by left]. Qed.

Lemma liveOut_phi b c v : c ∈ f_succs F b -> phiTakes (insts c) b v = true -> liveOut insts F b v.
Proof. intros Hc Hu. exists [], c. split; [by repeat constructor|]. split; [constructor|by right]. Qed.

Lemma last_cons (b c : blk) p : List.last (c :: p) b = List.last p c.
Proof.
  destruct p as [|d p]; [done|]. change (List.last (c :: d :: p) b) with (List.last (d :: p) b).
  revert d. induction p as [|e p IH]; intros d; [done|]. apply (IH e).
Qed.

Lemma liveOut_through b c v : c ∈ f_succs F b -> defined (insts c) v = false ->
  liveOut insts F c v -> liveOut insts F b v.
Proof.
  intros Hc Hd (p & d & Hp & Hf & Hu). exists (c :: p), d. split; [|split].
  - simpl. by constructor.
  - by constructor.
  - by rewrite (last_cons b c p).
Qed.

(** The first edge of a live path. *)
Lemma liveOut_inv b v : liveOut insts F b v -> exists c, c ∈ f_succs F b /\
  (exposed (insts c) v = true \/ phiTakes (insts c) b v = true \/
   (defined (insts c) v = false /\ liveOut insts F c v)).
Proof.
  intros (p & d & Hp & Hf & Hu). destruct p as [|c p]; simpl in Hp; inversion Hp; subst.
  - exists d. split; [done|]. destruct Hu; auto.
  - exists c. split; [done|]. right. right. inversion Hf; subst. split; [done|].
    exists p, d. split; [done|]. split; [done|]. by rewrite <- (last_cons b c p).
Qed.

(** Induction along a live path. *)
Lemma liveOut_ind' (P : blk -> Prop) v :
  (forall b c, c ∈ f_succs F b ->
     exposed (insts c) v = true \/ phiTakes (insts c) b v = true \/
     (defined (insts c) v = false /\ P c) -> P b) ->
  forall b, liveOut insts F b v -> P b.
Proof.
  intros HP b (p & d & Hp & Hf & Hu). revert b Hp Hu.
  induction p as [|c p IH]; intros b Hp Hu; simpl in Hp; inversion Hp; subst.
  - apply (HP b d); [done|]. destruct Hu; auto.
  - inversion Hf; subst. apply (HP b c); [done|]. right. right. split; [done|].
    apply IH; [done|done|]. by rewrite <- (last_cons b c p).
Qed.

End LiveOut.

(** ** The sets [transferFn] builds *)

Section Sets.
Context {V : Type} `{BitVectorLaws V}.
Variable domain : list value.
Hypothesis Hnd : NoDup domain.

Abbreviation n := (length domain).
Abbreviation index := (index_from 0 domain ∅).

(** Every instruction or argument the list mentions is in the domain. *)
Definition covered (l : list inst) : Prop :=
  forall i v, i ∈ l -> v ∈ i_ops i -> isInstOrArg v = true -> v ∈ domain.

Record wfLocals (st : locals) : Prop := {
  wl_index : l_index st = index;
  wl_def : bv_size (l_def st : V) = n;
  wl_use : bv_size (l_use st : V) = n;
  wl_nv p v : l_nv st !! p = Some v -> bv_size (v : V) = n
}.

(** The bit of the value kept for predecessor [p]. *)
Definition nvBit (nv : gmap blk V) (p : blk) (j : nat) : bool := bit (map_get bv_empty nv p) j.

Lemma map_sub_index st v : wfLocals st -> v ∈ domain -> exists k,
  domain !! k = Some v /\ k < n /\ map_sub 0 (l_index st) v = (k, index).
Proof.
  intros Hwf Hv. destruct (index_elem domain v Hnd Hv) as [k Hk]. exists k.
  split; [by apply index_spec|]. split; [by apply (index_lt domain v)|].
  rewrite (wl_index st Hwf). by apply map_sub_Some.
Qed.

Lemma index_same_bit j k v w : domain !! j = Some v -> domain !! k = Some w ->
  bool_decide (k = j) = bool_decide (w = v).
Proof.
  intros Hj Hk. apply bool_decide_ext. split; [intros ->; congruence|].
  intros ->. eapply NoDup_lookup; eauto.
Qed.

Lemma stepOperand_spec st val : wfLocals st ->
  (isInstOrArg val = true -> val ∈ domain) ->
  let st' := stepOperand st val in
  wfLocals st' /\ l_def st' = l_def st /\ l_nv st' = l_nv st /\
  forall j v, domain !! j = Some v ->
  bit (l_use st') j = bit (l_use st) j ||
    (negb (bit (l_def st) j) && (isInstOrArg val && bool_decide (val = v))).
Proof.
  intros Hwf Hin. unfold stepOperand. destruct (isInstOrArg val) eqn:Ei.
  2: { simpl. repeat (split; [done|]). intros j v Hj. by rewrite andb_false_r, orb_false_r. }
  destruct (map_sub_index st val Hwf (Hin eq_refl)) as (k & Hk & Hkn & ->).
  pose proof (wl_def st Hwf) as Hd. pose proof (wl_use st Hwf) as Hu.
  rewrite <- bit_get by lia. destruct (bit (l_def st) k) eqn:Ed; simpl.
  - split; [split; simpl; try done; apply (wl_nv st Hwf)|]. repeat (split; [done|]). intros j v Hj.
    rewrite <- (index_same_bit j k v val Hj Hk).
    case_bool_decide as Ekj; [subst; by rewrite Ed, orb_false_r|by rewrite andb_false_r, orb_false_r].
  - split; [split; simpl; try done; [by rewrite size_set; lia|apply (wl_nv st Hwf)]|].
    repeat (split; [done|]). intros j v Hj. rewrite <- (index_same_bit j k v val Hj Hk).
    rewrite bit_set by lia.
    case_bool_decide as Ekj; [subst; rewrite Ed; simpl; by rewrite orb_true_r|].
    by rewrite andb_false_r, orb_false_r.
Qed.

Lemma foldl_stepOperand ops : forall st, wfLocals st ->
  (forall w, w ∈ ops -> isInstOrArg w = true -> w ∈ domain) ->
  let st' := foldl stepOperand st ops in
  wfLocals st' /\ l_def st' = l_def st /\ l_nv st' = l_nv st /\
  forall j v, domain !! j = Some v ->
  bit (l_use st') j = bit (l_use st) j ||
    (negb (bit (l_def st) j) && (isInstOrArg v && bool_decide (v ∈ ops))).
Proof.
  induction ops as [|w ops IH]; intros st Hwf Hin; cbv zeta; cbn [foldl].
  { repeat (split; [done|]). intros j v Hj.
    rewrite (bool_decide_false (v ∈ [])) by apply not_elem_of_nil.
    by rewrite !andb_false_r, orb_false_r. }
  destruct (stepOperand_spec st w Hwf) as (Hwf1 & Hd1 & Hn1 & Hu1); [set_solver|].
  destruct (IH (stepOperand st w) Hwf1) as (Hwf2 & Hd2 & Hn2 & Hu2); [set_solver|].
  split; [done|]. split; [congruence|]. split; [congruence|]. intros j v Hj.
  rewrite (Hu2 j v Hj), (Hu1 j v Hj), Hd1.
  rewrite (bool_decide_ext (v ∈ w :: ops) (w = v \/ v ∈ ops)) by set_solver.
  rewrite bool_decide_or. destruct (decide (w = v)) as [->|Hne].
  - rewrite (bool_decide_true (v = v)) by done. simpl.
    by destruct (bit (l_use st) j), (bit (l_def st) j), (isInstOrArg v), (bool_decide (v ∈ ops)).
  - rewrite (bool_decide_false (w = v)) by done. rewrite andb_false_r. simpl.
    by rewrite andb_false_r, orb_false_r.
Qed.

Lemma stepIncoming_spec st w q : wfLocals st ->
  (isInstOrArg w = true -> w ∈ domain) ->
  let st' := stepIncoming n st (w, q) in
  wfLocals st' /\ l_def st' = l_def st /\ l_use st' = l_use st /\
  forall j v p, domain !! j = Some v -> nvBit (l_nv st') p j = nvBit (l_nv st) p j ||
    (isInstOrArg w && bool_decide ((w, q) = (v, p))).
Proof.
  intros Hwf Hin. unfold stepIncoming. destruct (isInstOrArg w) eqn:Ei.
  2: { simpl. repeat (split; [done|]). intros j v p _. by rewrite orb_false_r. }
  destruct (map_sub_index st w Hwf (Hin eq_refl)) as (k & Hk & Hkn & ->).
  set (nv1 := match l_nv st !! q with None => _ | Some _ => _ end).
  assert (Hq : exists x, nv1 !! q = Some x /\ bv_size x = n /\ forall i, bit x i = nvBit (l_nv st) q i).
  { unfold nv1, nvBit, map_get. destruct (l_nv st !! q) as [x|] eqn:Eq.
    - exists x. split; [done|]. split; [by apply (wl_nv st Hwf q)|done].
    - exists (bv_make n false). rewrite lookup_insert_eq. split; [done|].
      split; [apply size_make|]. intros i. simpl. by rewrite bit_empty, bit_make, andb_false_r. }
  assert (Hp : forall p, p <> q -> nv1 !! p = l_nv st !! p).
  { intros p Hp. unfold nv1. destruct (l_nv st !! q); [done|]. by apply lookup_insert_ne. }
  destruct Hq as (x & Hx & Hxs & Hxb). rewrite (map_sub_Some bv_empty nv1 q x Hx). simpl.
  split; [|split; [done|split; [done|]]].
  - split; simpl; [done|apply Hwf|apply Hwf|].
    intros p y. rewrite lookup_insert. case_decide; [intros [= <-]; rewrite size_set; lia|].
    rewrite Hp by done. apply (wl_nv st Hwf).
  - intros j v p Hj. unfold nvBit at 1, map_get. rewrite lookup_insert. case_decide as E.
    + subst p. simpl. rewrite bit_set, Hxb by lia. rewrite (index_same_bit j k v w Hj Hk).
      rewrite orb_comm. f_equal. apply bool_decide_ext. naive_solver.
    + rewrite Hp by done. rewrite (bool_decide_false ((w, q) = (v, p))) by congruence.
      by rewrite orb_false_r.
Qed.

Lemma foldl_stepIncoming l : forall st, wfLocals st ->
  (forall w q, (w, q) ∈ l -> isInstOrArg w = true -> w ∈ domain) ->
  let st' := foldl (stepIncoming n) st l in
  wfLocals st' /\ l_def st' = l_def st /\ l_use st' = l_use st /\
  forall j v p, domain !! j = Some v -> nvBit (l_nv st') p j = nvBit (l_nv st) p j ||
    (isInstOrArg v && bool_decide ((v, p) ∈ l)).
Proof.
  induction l as [|[w q] l IH]; intros st Hwf Hin; cbv zeta; cbn [foldl].
  { repeat (split; [done|]). intros j v p _.
    rewrite (bool_decide_false ((v, p) ∈ [])) by apply not_elem_of_nil.
    by rewrite andb_false_r, orb_false_r. }
  destruct (stepIncoming_spec st w q Hwf) as (Hwf1 & Hd1 & Hu1 & Hn1); [set_solver|].
  destruct (IH (stepIncoming n st (w, q)) Hwf1) as (Hwf2 & Hd2 & Hu2 & Hn2).
  { intros w' q' Hw. apply (Hin w' q'). set_solver. }
  split; [done|]. split; [congruence|]. split; [congruence|]. intros j v p Hj.
  rewrite (Hn2 j v p Hj), (Hn1 j v p Hj).
  rewrite (bool_decide_ext ((v, p) ∈ (w, q) :: l) ((w, q) = (v, p) \/ (v, p) ∈ l)) by set_solver.
  rewrite bool_decide_or. destruct (decide ((w, q) = (v, p))) as [E|E].
  - injection E as -> ->. rewrite (bool_decide_true ((v, p) = (v, p))) by done. simpl.
    by destruct (nvBit (l_nv st) p j), (isInstOrArg v), (bool_decide ((v, p) ∈ l)).
  - rewrite (bool_decide_false ((w, q) = (v, p))) by done. by rewrite andb_false_r, orb_false_r.
Qed.

Lemma stepDef_spec st i : wfLocals st ->
  let st' := stepDef st i in
  wfLocals st' /\ l_use st' = l_use st /\ l_nv st' = l_nv st /\
  forall j v, domain !! j = Some v ->
  bit (l_def st') j = bit (l_def st) j || bool_decide (v = i_val i).
Proof.
  intros Hwf. unfold stepDef. rewrite (wl_index st Hwf).
  destruct (index !! i_val i) as [k|] eqn:Ek; simpl.
  - pose proof (index_lt domain _ _ Hnd Ek) as Hkn. apply index_spec in Ek; [|done].
    assert (Hks : k < bv_size (l_def st)) by by rewrite (wl_def st Hwf).
    split.
    + split; simpl; [done|rewrite size_set by done|..]; apply Hwf.
    + split; [done|]. split; [done|]. intros j v Hj. rewrite bit_set by done.
      rewrite (index_same_bit j k v _ Hj Ek), orb_comm. f_equal. apply bool_decide_ext. naive_solver.
  - split; [done|]. split; [done|]. split; [done|]. intros j v Hj.
    rewrite (bool_decide_false (v = _)); [by rewrite orb_false_r|].
    intros ->. apply (index_spec domain) in Hj; [|done]. congruence.
Qed.

Lemma phiIncoming_ops i w q : (w, q) ∈ phiIncoming i -> w ∈ i_ops i.
Proof.
  unfold phiIncoming. destruct (i_op i); try (intros Hw; by apply not_elem_of_nil in Hw).
  intros Hw. apply list_elem_of_In in Hw. apply in_combine_l in Hw. by apply list_elem_of_In.
Qed.

Lemma stepInst_spec st i : wfLocals st -> covered [i] ->
  let st' := stepInst n st i in
  wfLocals st' /\ forall j v, domain !! j = Some v ->
  bit (l_def st') j = bit (l_def st) j || bool_decide (v = i_val i) /\
  bit (l_use st') j = bit (l_use st) j || (negb (bit (l_def st) j) && usesPlain i v) /\
  forall p, nvBit (l_nv st') p j = nvBit (l_nv st) p j || phiTakes [i] p v.
Proof.
  intros Hwf Hc. unfold stepInst. unfold usesPlain, phiTakes. simpl.
  destruct (isPHI i) eqn:Ephi; simpl.
  - destruct (foldl_stepIncoming (phiIncoming i) st Hwf) as (Hwf1 & Hd1 & Hu1 & Hn1).
    { intros w q Hw. apply Hc with i; [set_solver|]. by apply phiIncoming_ops with q. }
    destruct (stepDef_spec _ i Hwf1) as (Hwf2 & Hu2 & Hn2 & Hd2).
    split; [done|]. intros j v Hj. rewrite (Hd2 j v Hj), Hd1, Hu2, Hu1, Hn2. split; [done|].
    split; [by rewrite andb_false_r, orb_false_r|]. intros p. by rewrite (Hn1 j v p Hj), orb_false_r.
  - destruct (foldl_stepOperand (i_ops i) st Hwf) as (Hwf1 & Hd1 & Hn1 & Hu1).
    { intros w Hw. apply Hc with i; [set_solver|done]. }
    destruct (stepDef_spec _ i Hwf1) as (Hwf2 & Hu2 & Hn2 & Hd2).
    split; [done|]. intros j v Hj. rewrite (Hd2 j v Hj), Hd1, Hu2, (Hu1 j v Hj), Hn2, Hn1.
    split; [done|]. split; [done|]. intros p. by rewrite orb_false_r.
Qed.

Lemma foldl_stepInst l : forall st, wfLocals st -> covered l ->
  let st' := foldl (stepInst n) st l in
  wfLocals st' /\ forall j v, domain !! j = Some v ->
  bit (l_def st') j = bit (l_def st) j || defined l v /\
  bit (l_use st') j = bit (l_use st) j || (negb (bit (l_def st) j) && exposed l v) /\
  forall p, nvBit (l_nv st') p j = nvBit (l_nv st) p j || phiTakes l p v.
Proof.
  induction l as [|i l IH]; intros st Hwf Hc; cbv zeta; cbn [foldl].
  { split; [done|]. intros j v Hj. simpl. rewrite andb_false_r, !orb_false_r.
    repeat (split; [done|]). intros p. by rewrite orb_false_r. }
  destruct (stepInst_spec st i Hwf) as (Hwf1 & H1).
  { intros i' v' Hi. apply Hc. set_solver. }
  destruct (IH (stepInst n st i) Hwf1) as (Hwf2 & H2).
  { intros i' v' Hi. apply Hc. set_solver. }
  split; [done|]. intros j v Hj. destruct (H1 j v Hj) as (Hd1 & Hu1 & Hn1).
  destruct (H2 j v Hj) as (Hd2 & Hu2 & Hn2).
  rewrite Hd2, Hu2, Hd1, Hu1. split; [simpl; by rewrite orb_assoc|]. split.
  - simpl. by destruct (bit (l_use st) j), (bit (l_def st) j), (usesPlain i v), (bool_decide (v = i_val i)), (exposed l v).
  - intros p. rewrite Hn2, Hn1. unfold phiTakes. simpl. by rewrite orb_false_r, orb_assoc.
Qed.

End Sets.

(** ** The domain *)

Lemma foldl_pushValue ops : forall domain, NoDup domain ->
  NoDup (foldl pushValue domain ops) /\
  forall v, v ∈ foldl pushValue domain ops <-> v ∈ domain \/ (v ∈ ops /\ isInstOrArg v = true).
Proof.
  induction ops as [|w ops IH]; intros domain Hnd; cbn [foldl].
  { split; [done|]. intros v. set_solver. }
  assert (Hp : NoDup (pushValue domain w) /\
    forall v, v ∈ pushValue domain w <-> v ∈ domain \/ (v = w /\ isInstOrArg v = true)).
  { unfold pushValue. destruct (isInstOrArg w) eqn:Ew; [destruct (decide (w ∈ domain)) as [Ed|Ed]|].
    - split; [done|]. intros v. split; [by left|]. by intros [?|[-> _]].
    - split; [apply NoDup_app; split; [done|split; [set_solver|apply NoDup_singleton]]|].
      intros v. rewrite elem_of_app, list_elem_of_singleton. naive_solver.
    - split; [done|]. intros v. split; [by left|]. intros [?|[-> E]]; [done|congruence]. }
  destruct Hp as [Hn He]. destruct (IH _ Hn) as [Hn' He']. split; [done|].
  intros v. rewrite He', He, elem_of_cons. naive_solver.
Qed.

Lemma foldl_domain l : forall domain, NoDup domain ->
  let d := foldl (fun domain insn => foldl pushValue domain (i_ops insn)) domain l in
  NoDup d /\ forall v, v ∈ d <-> v ∈ domain \/
    exists i, i ∈ l /\ v ∈ i_ops i /\ isInstOrArg v = true.
Proof.
  induction l as [|i l IH]; intros domain Hnd; cbv zeta; cbn [foldl].
  { split; [done|]. set_solver. }
  destruct (foldl_pushValue (i_ops i) domain Hnd) as [Hn He].
  destruct (IH _ Hn) as [Hn' He']. split; [done|]. intros v. rewrite He', He.
  setoid_rewrite elem_of_cons. naive_solver.
Qed.

Section Exact.
Context {V : Type} `{BitVectorLaws V}.
Variable insts : blk -> list inst.
Variable F : Function.
Hypothesis HF : CFGLaws F.

Abbreviation domain := (computeDomain insts F).
Abbreviation n := (length domain).
Abbreviation index := (index_from 0 domain ∅).
Abbreviation T x b := (transferFn (V := V) insts x domain index b).

Lemma domain_NoDup : NoDup domain.
Proof. apply foldl_domain. constructor. Qed.

Lemma domain_covers b : b ∈ f_blocks F -> covered domain (insts b).
Proof.
  intros Hb i v Hi Hv Ha. apply foldl_domain; [constructor|]. right. exists i. split; [|done].
  apply list_elem_of_In, in_concat. exists (insts b). split; [|by apply list_elem_of_In].
  apply in_map. by apply list_elem_of_In.
Qed.

(** [transferFn] keeps its sets as long as the domain even on blocks whose
    operands are not all in it, so only covered blocks are considered. *)
Abbreviation start := (mkLocals index (bv_make n false : V) (bv_make n false) ∅).
Abbreviation final b := (foldl (stepInst n) start (insts b)).

Lemma start_wf : wfLocals domain start.
Proof.
  split; simpl; rewrite ?size_make; [done..|]. intros p v. by rewrite lookup_empty.
Qed.

Lemma transferFn_eq x b : T x b =
  mkTransferOutput (genKill (l_def (final b)) (l_use (final b)) x) (l_nv (final b)).
Proof. unfold transferFn. by rewrite index_size by apply domain_NoDup. Qed.

Lemma final_spec b : b ∈ f_blocks F -> wfLocals domain (final b) /\
  forall j v, domain !! j = Some v ->
  bit (l_def (final b)) j = defined (insts b) v /\
  bit (l_use (final b)) j = exposed (insts b) v /\
  forall p, nvBit (l_nv (final b)) p j = phiTakes (insts b) p v.
Proof.
  intros Hb. destruct (foldl_stepInst domain domain_NoDup (insts b) start start_wf) as [Hwf Hs].
  { by apply domain_covers. }
  split; [done|]. intros j v Hj. destruct (Hs j v Hj) as (Hd & Hu & Hn). simpl in *.
  rewrite bit_make, andb_false_r in *. split; [done|]. split; [done|].
  intros p. rewrite Hn. unfold nvBit, map_get. rewrite lookup_empty. simpl. by rewrite bit_empty.
Qed.

Lemma liveness_monotone :
  MonotoneAnalysis (V := V) (transferFn insts) UNION F domain (fun _ => True).
Proof.
  split; try done.
  - intros x b Hb _. rewrite transferFn_eq. apply genKill_size; apply final_spec; done.
  - intros x b b' v Hb _. rewrite transferFn_eq. destruct (final_spec b Hb) as [Hwf _].
    apply (wl_nv _ _ Hwf).
  - intros x y b Hb _ _ Hxy. rewrite !transferFn_eq. unfold leqT, contribution. simpl.
    destruct (final_spec b Hb) as [Hwf _].
    assert (Hg : leqV UNION n (genKill (l_def (final b)) (l_use (final b)) x)
                              (genKill (l_def (final b)) (l_use (final b)) y)).
    { apply genKill_mono; [apply Hwf..|done]. }
    split; [done|]. intros b'. destruct (l_nv (final b) !! b'); [|done].
    intros i Hi. simpl. rewrite !bit_or, !orb_true_iff. intros [Hb'|?]; [left|by right].
    by apply (Hg i).
Qed.

#[local] Existing Instance liveness_monotone.

Lemma liveness_initialised : wellInitialised BACKWARD UNION domain (fun _ => True)
  (interiorRes (V := V) BACKWARD (bv_make n false)).
Proof. by apply (wellInitialised_asst2 BACKWARD UNION domain); [|right|]. Qed.

(** The bits of one application of the transfer function. *)
Lemma transferFn_bits x b j v : b ∈ f_blocks F -> domain !! j = Some v ->
  bit (element (T x b)) j = exposed (insts b) v || (bit x j && negb (defined (insts b) v)) /\
  forall p, bit (contribution (T x b) p) j = bit (element (T x b)) j || phiTakes (insts b) p v.
Proof.
  intros Hb Hj. rewrite transferFn_eq. simpl. destruct (final_spec b Hb) as [Hwf Hs].
  destruct (Hs j v Hj) as (Hd & Hu & Hn). split.
  - rewrite genKill_bit, Hd, Hu by (rewrite (wl_def _ _ Hwf), (wl_use _ _ Hwf); done).
    rewrite (bool_decide_true (j < _)); [by rewrite andb_true_r|].
    rewrite (wl_def _ _ Hwf). by apply lookup_lt_Some in Hj.
  - intros p. specialize (Hn p). unfold contribution. simpl.
    unfold nvBit, map_get in Hn. destruct (l_nv (final b) !! p) as [v'|] eqn:Ep; simpl in Hn.
    + by rewrite bit_or, Hn.
    + rewrite bit_empty in Hn. by rewrite <- Hn, orb_false_r.
Qed.

Definition liveIn (b : blk) (v : value) : Prop :=
  exposed (insts b) v = true \/ (defined (insts b) v = false /\ liveOut insts F b v).

Lemma analyse_runWith fuel : analyse (V := V) insts fuel F =
  runWith (transferFn insts) BACKWARD UNION (interiorRes BACKWARD (bv_make n false)) fuel F domain
    (bv_make n false).
Proof. done. Qed.

Lemma init_bit_false b j :
  bit (element (transferOutput (initOf BACKWARD F
    (boundaryRes BACKWARD (bv_make n false : V)) (interiorRes BACKWARD (bv_make n false)) b))) j = false /\
  bit (blockInput BACKWARD (initOf BACKWARD F
    (boundaryRes BACKWARD (bv_make n false : V)) (interiorRes BACKWARD (bv_make n false)) b)) j = false.
Proof.
  unfold initOf, boundaryRes, interiorRes, set_transfer, set_input, set_output, blockInput.
  rewrite !(decide_False (P := BACKWARD = FORWARD)) by done.
  destruct (decide (b ∈ _)); [|destruct (decide (b ∈ f_blocks F))]; simpl;
    rewrite ?bit_make, ?bit_empty, ?andb_false_r; done.
Qed.

(** Every bit of the result is justified by a path. *)
Lemma liveness_sound fuel out : analyse (V := V) insts fuel F = Done out ->
  forall b j v, domain !! j = Some v ->
  (bit (element (transferOutput (resultAt out b))) j = true -> liveIn b v) /\
  (forall p, bit (contribution (transferOutput (resultAt out b)) p) j = true ->
     liveIn b v \/ phiTakes (insts b) p v = true).
Proof.
  rewrite analyse_runWith. intros Hrun b.
  eapply (run_invariant_lemma (transferFn insts) BACKWARD UNION F domain (fun _ => True) HF
    _ liveness_initialised
    (fun b t => forall j v, domain !! j = Some v ->
       (bit (element t) j = true -> liveIn b v) /\
       (forall p, bit (contribution t p) j = true -> liveIn b v \/ phiTakes (insts b) p v = true)));
    [| |exact Hrun].
  - intros c. right. intros j v Hj. destruct (init_bit_false c j) as [E _].
    split; [by rewrite E|]. intros p. unfold contribution.
    rewrite (init_nv BACKWARD UNION F domain (fun _ => True) _ liveness_initialised), lookup_empty.
    by rewrite E.
  - intros c t Hc Hm j v Hj. pose proof (reachable_in_blocks F HF c Hc) as Hcb.
    set (x := match neighborList BACKWARD F c with [] => _ | _ => _ end).
    assert (Hx : bit x j = true -> liveOut insts F c v).
    { unfold x. destruct (neighborList BACKWARD F c) as [|m l] eqn:En.
      - destruct (init_bit_false c j) as [_ ->]. done.
      - rewrite <- En in *. intros Hb.
        apply (val_meetV_true UNION) in Hb as (y & Hy & Hb); [|by rewrite En].
        apply elem_of_map in Hy as (m' & -> & Hm').
        destruct (Hm m' Hm') as [HQ _]. destruct (HQ j v Hj) as [_ HQ'].
        destruct (HQ' c Hb) as [[Hu|[Hd Hl]]|Hp].
        + by apply liveOut_use with m'.
        + by apply liveOut_through with m'.
        + by apply liveOut_phi with m'. }
    destruct (transferFn_bits x c j v Hcb Hj) as [He Hcon].
    assert (HeIn : bit (element (T x c)) j = true -> liveIn c v).
    { rewrite He, orb_true_iff, andb_true_iff, negb_true_iff.
      intros [?|[? ?]]; [by left|right; auto]. }
    split; [done|]. intros p. rewrite Hcon, orb_true_iff. intros [?|?]; auto.
Qed.

(** Every live path is found. *)
Lemma liveness_complete fuel out : analyse (V := V) insts fuel F = Done out ->
  forall j v, domain !! j = Some v -> forall b, liveOut insts F b v -> reachable F b ->
  bit (br_out (resultAt out b)) j = true.
Proof.
  rewrite analyse_runWith. intros Hrun j v Hj.
  apply (run_solves_lemma (transferFn insts) BACKWARD UNION F domain (fun _ => True) HF
    _ liveness_initialised) in Hrun as [_ Hs].
  apply (liveOut_ind' insts F (fun b => reachable F b -> bit (br_out (resultAt out b)) j = true)).
  intros b c Hc Hcase Hb.
  assert (Hcr : reachable F c) by by apply reach_step with b.
  destruct (Hs b Hb) as [(E & _ & _) _]. change (br_out ?r) with (blockInput BACKWARD r).
  rewrite E. clear E. cbn [neighborList].
  destruct (f_succs F b) as [|s0 sl] eqn:Esucc; [by apply not_elem_of_nil in Hc|].
  rewrite <- Esucc in *.
  apply (val_meetV_true UNION); [by rewrite Esucc|].
  exists (contribution (transferOutput (resultAt out c)) b).
  split; [apply elem_of_map; by exists c|]. simpl.
  destruct (Hs c Hcr) as [(_ & Et & _) _]. rewrite Et.
  destruct (transferFn_bits (br_out (resultAt out c)) c j v) as [He Hcon];
    [by apply reachable_in_blocks|done|].
  change (blockInput BACKWARD ?r) with (br_out r). rewrite Hcon, He.
  destruct Hcase as [->|[->|[-> HP]]]; [done|by rewrite orb_true_r|].
  rewrite (HP Hcr). simpl. by rewrite orb_true_r.
Qed.

Lemma br_out_sound fuel out : analyse (V := V) insts fuel F = Done out ->
  forall b j v, reachable F b -> domain !! j = Some v ->
  bit (br_out (resultAt out b)) j = true -> liveOut insts F b v.
Proof.
  intros Hrun b j v Hb Hj. pose proof (liveness_sound fuel out Hrun) as Hsound.
  rewrite analyse_runWith in Hrun.
  apply (run_solves_lemma (transferFn insts) BACKWARD UNION F domain (fun _ => True) HF
    _ liveness_initialised) in Hrun as [_ Hs].
  destruct (Hs b Hb) as [(E & _ & _) _]. change (br_out ?r) with (blockInput BACKWARD r).
  rewrite E. clear E. cbn [neighborList].
  destruct (f_succs F b) as [|s0 sl] eqn:Esucc.
  { destruct (init_bit_false b j) as [_ ->]. done. }
  rewrite <- Esucc in *. intros Hbit.
  apply (val_meetV_true UNION) in Hbit as (y & Hy & Hbit); [|by rewrite Esucc].
  apply elem_of_map in Hy as (c & -> & Hc).
  destruct (Hsound c j v Hj) as [_ Hcon].
  destruct (Hcon b Hbit) as [[Hu|[Hd Hl]]|Hp].
  - by apply liveOut_use with c.
  - by apply liveOut_through with c.
  - by apply liveOut_phi with c.
Qed.

Lemma br_in_bits fuel out : analyse (V := V) insts fuel F = Done out ->
  forall b, reachable F b ->
  br_in (resultAt out b) = element (T (br_out (resultAt out b)) b).
Proof.
  rewrite analyse_runWith. intros Hrun b Hb.
  apply (run_solves_lemma (transferFn insts) BACKWARD UNION F domain (fun _ => True) HF
    _ liveness_initialised) in Hrun as [_ Hs].
  destruct (Hs b Hb) as [(_ & Et & Eo) _].
  change (br_in ?r) with (blockOutput BACKWARD r). by rewrite Eo, Et.
Qed.

(** C1: Liveness analysis terminates, and on every reachable block its OUT set
    (IN set) holds exactly the domain elements that are live at the end (at the
    start) of the block: those a path carries to a use, or to a phi edge,
    without crossing a definition. *)
Theorem liveness_exact : exists out,
  analyse (V := V) insts (length (f_po F) * length (computeDomain insts F) + 2) F = Done out /\
  forall b j v, reachable F b -> computeDomain insts F !! j = Some v ->
    (bit (br_out (resultAt out b)) j = true <-> liveOut insts F b v) /\
    (bit (br_in (resultAt out b)) j = true <->
       exposed (insts b) v = true \/ (defined (insts b) v = false /\ liveOut insts F b v)).
Proof.
  destruct (run_done_lemma (transferFn insts) BACKWARD UNION F domain (fun _ => True) HF
    _ liveness_initialised (length (f_po F) * n + 2)) as [out Hrun]; [simpl; lia|].
  rewrite <- analyse_runWith in Hrun. exists out. split; [exact Hrun|].
  intros b j v Hb Hj.
  assert (Hout : bit (br_out (resultAt out b)) j = true <-> liveOut insts F b v).
  { split; [by eapply br_out_sound|]. intros Hl. by eapply liveness_complete. }
  split; [done|]. rewrite (br_in_bits _ _ Hrun b Hb).
  destruct (transferFn_bits (br_out (resultAt out b)) b j v) as [-> _];
    [by apply reachable_in_blocks|done|].
  rewrite orb_true_iff, andb_true_iff, negb_true_iff, Hout. tauto.
Qed.

(** A block with no successor that does not return (its terminator is
    [unreachable]) is neither a boundary block nor given a meet. *)
Lemma exit_block_out_lemma fuel out : analyse (V := V) insts fuel F = Done out ->
  forall b, reachable F b -> f_succs F b = [] -> f_isRet F b = false ->
  br_out (resultAt out b) = bv_empty.
Proof.
  rewrite analyse_runWith. intros Hrun b Hb Hs Hr.
  apply (run_solves_lemma (transferFn insts) BACKWARD UNION F domain (fun _ => True) HF
    _ liveness_initialised) in Hrun as [_ Hsol].
  destruct (Hsol b Hb) as [(E & _ & _) _]. change (br_out ?r) with (blockInput BACKWARD r).
  rewrite E. simpl. rewrite Hs. unfold initOf. rewrite decide_False.
  - rewrite decide_True by by apply reachable_in_blocks. done.
  - simpl. rewrite list_elem_of_filter. rewrite Hr. by intros [? _].
Qed.

Lemma out_size fuel out : analyse (V := V) insts fuel F = Done out ->
  forall b, reachable F b -> f_succs F b <> [] \/ f_isRet F b = true ->
  bv_size (br_out (resultAt out b)) = n.
Proof.
  rewrite analyse_runWith. intros Hrun b Hb Hsr.
  apply (run_solves_lemma (transferFn insts) BACKWARD UNION F domain (fun _ => True) HF
    _ liveness_initialised) in Hrun as [_ Hsol].
  destruct (Hsol b Hb) as [(E & _ & _) _]. change (br_out ?r) with (blockInput BACKWARD r).
  rewrite E. clear E. cbn [neighborList]. destruct (f_succs F b) as [|c0 l] eqn:Es.
  - unfold initOf. rewrite decide_True; [apply size_make|]. simpl. rewrite list_elem_of_filter.
    destruct Hsr as [?|Hr]; [done|]. split; [done|]. by apply reachable_in_blocks.
  - rewrite <- Es. apply size_meetV; [by rewrite Es|]. intros y (c & -> & Hc)%elem_of_map.
    destruct (Hsol c) as [(_ & Et & _) _]; [by apply reach_step with b|]. rewrite Et, transferFn_eq.
    assert (Hcb : c ∈ f_blocks F) by by apply (cfg_succs_in F HF) in Hc as [_ Hc].
    destruct (final_spec c Hcb) as [Hwf _]. unfold contribution. simpl.
    assert (Hg : forall x, bv_size (genKill (l_def (final c)) (l_use (final c)) x) = n)
      by (intros x; apply genKill_size; apply Hwf).
    destruct (l_nv (final c) !! b) eqn:En; [|done]. rewrite size_or, Hg, (wl_nv _ _ Hwf _ _ En). lia.
Qed.

(** *** The printed sets *)

(** No instruction uses its own result, as in any block an execution can reach
    (LLVM's dominance rule). *)
Definition noSelfUse (l : list inst) : Prop := forall i, i ∈ l -> i_val i ∉ i_ops i.

Lemma killValue_spec live i : bv_size live = n ->
  exists live', killValue (index, live : V) i = (index, live') /\ bv_size live' = n /\
  forall j v, domain !! j = Some v -> bit live' j = bit live j && negb (bool_decide (v = i_val i)).
Proof.
  intros Hs. unfold killValue. simpl. destruct (index !! i_val i) as [k|] eqn:Ek.
  - pose proof (index_lt domain _ _ domain_NoDup Ek) as Hk. apply index_spec in Ek; [|apply domain_NoDup].
    eexists. split; [done|]. split; [rewrite size_reset; lia|]. intros j v Hj.
    rewrite bit_reset by lia. rewrite (index_same_bit domain domain_NoDup j k v _ Hj Ek), andb_comm.
    f_equal. f_equal. apply bool_decide_ext. naive_solver.
  - eexists. split; [done|]. split; [done|]. intros j v Hj.
    rewrite (bool_decide_false (v = _)); [by rewrite andb_true_r|].
    intros ->. apply index_spec in Hj; [congruence|apply domain_NoDup].
Qed.

Lemma useOperands_spec ops : forall live, bv_size live = n ->
  (forall w, w ∈ ops -> isInstOrArg w = true -> w ∈ domain) ->
  exists live', foldl useOperand (index, live : V) ops = (index, live') /\ bv_size live' = n /\
  forall j v, domain !! j = Some v ->
    bit live' j = bit live j || (isInstOrArg v && bool_decide (v ∈ ops)).
Proof.
  induction ops as [|w ops IH]; intros live Hs Hin.
  { exists live. repeat (split; [done|]). intros j v _.
    rewrite (bool_decide_false (v ∈ [])) by apply not_elem_of_nil. by rewrite andb_false_r, orb_false_r. }
  assert (Hstep : exists live1, useOperand (index, live) w = (index, live1) /\ bv_size live1 = n /\
    forall j v, domain !! j = Some v ->
      bit live1 j = bit live j || (isInstOrArg v && bool_decide (v = w))).
  { unfold useOperand. simpl. destruct (isInstOrArg w) eqn:Ew.
    - destruct (index_elem domain w domain_NoDup) as [k Hk]; [by apply Hin; [set_solver|]|].
      rewrite (map_sub_Some 0 index w k Hk). pose proof (index_lt domain _ _ domain_NoDup Hk) as Hkn.
      apply index_spec in Hk; [|apply domain_NoDup].
      eexists. split; [done|]. split; [rewrite size_set; lia|]. intros j v Hj. rewrite bit_set by lia.
      rewrite (index_same_bit domain domain_NoDup j k v w Hj Hk), orb_comm. f_equal.
      destruct (decide (v = w)) as [->|Hne]; [by rewrite Ew, bool_decide_true|].
      rewrite !bool_decide_false by congruence. by rewrite andb_false_r.
    - exists live. repeat (split; [done|]). intros j v _.
      destruct (decide (v = w)) as [->|Hne]; [by rewrite Ew, orb_false_r|].
      rewrite bool_decide_false by done. by rewrite andb_false_r, orb_false_r. }
  destruct Hstep as (live1 & E1 & Hs1 & Hb1). cbn [foldl]. rewrite E1.
  destruct (IH live1 Hs1) as (live2 & E2 & Hs2 & Hb2); [set_solver|].
  exists live2. split; [done|]. split; [done|]. intros j v Hj.
  rewrite (Hb2 j v Hj), (Hb1 j v Hj), (bool_decide_ext (v ∈ w :: ops) (v = w \/ v ∈ ops)) by set_solver.
  rewrite bool_decide_or. by destruct (bit live j), (isInstOrArg v), (bool_decide (v = w)), (bool_decide (v ∈ ops)).
Qed.

Lemma stepUp_spec live i : bv_size live = n -> covered domain [i] ->
  exists live', stepUp (index, live : V) i = (index, live') /\ bv_size live' = n /\
  forall j v, domain !! j = Some v ->
    bit live' j = (bit live j || usesPlain i v) && negb (bool_decide (v = i_val i)).
Proof.
  intros Hs Hc. unfold stepUp, usesPlain. destruct (isPHI i); simpl.
  - destruct (killValue_spec live i Hs) as (l1 & E & Hs1 & Hb). exists l1. split; [done|].
    split; [done|]. intros j v Hj. by rewrite (Hb j v Hj), orb_false_r.
  - destruct (useOperands_spec (i_ops i) live Hs) as (l1 & E1 & Hs1 & Hb1).
    { intros w Hw. apply (Hc i); [set_solver|done]. }
    rewrite E1. destruct (killValue_spec l1 i Hs1) as (l2 & E2 & Hs2 & Hb2). exists l2.
    split; [done|]. split; [done|]. intros j v Hj. by rewrite (Hb2 j v Hj), (Hb1 j v Hj).
Qed.

Lemma walkUp_state `{ValueAPI} (d : list value) l : forall st : gmap value nat * V,
  snd (walkUp d l st) = foldl stepUp st l.
Proof.
  induction l as [|i l IH]; intros st; [done|]. simpl.
  specialize (IH (stepUp st i)). destruct (walkUp d l (stepUp st i)) as [lines st'] eqn:E.
  simpl in IH. subst st'. by destruct (isPHI i).
Qed.

Lemma foldl_stepUp l : forall live, bv_size live = n -> covered domain l -> noSelfUse l ->
  exists live', foldl stepUp (index, live : V) (rev l) = (index, live') /\ bv_size live' = n /\
  forall j v, domain !! j = Some v ->
    bit live' j = exposed l v || (bit live j && negb (defined l v)).
Proof.
  induction l as [|i l IH]; intros live Hs Hc Hself.
  { exists live. repeat (split; [done|]). intros j v _. simpl. by rewrite andb_true_r. }
  destruct (IH live Hs) as (l1 & E1 & Hs1 & Hb1).
  { intros i' v Hi. apply Hc. set_solver. }
  { intros i' Hi. apply Hself. set_solver. }
  destruct (stepUp_spec l1 i Hs1) as (l2 & E2 & Hs2 & Hb2).
  { intros i' v Hi. apply Hc. set_solver. }
  exists l2. simpl. rewrite foldl_app, E1. split; [done|]. split; [done|]. intros j v Hj.
  rewrite (Hb2 j v Hj), (Hb1 j v Hj). unfold usesPlain.
  simpl. unfold usesPlain. destruct (decide (v = i_val i)) as [->|Hne].
  - rewrite (bool_decide_false (_ ∈ i_ops i)) by (apply Hself; set_solver).
    rewrite (bool_decide_true (i_val i = i_val i)) by done. by rewrite !andb_false_r.
  - rewrite (bool_decide_false (v = i_val i)) by done. simpl. rewrite !andb_true_r.
    by destruct (exposed l v), (bit live j && _), (negb _ && _ && _).
Qed.

(** The sets printed while walking up a block agree with the data-flow
    result: starting from OUT, after the last (topmost) instruction the walk
    has computed exactly the IN set, for a reachable block whose OUT was
    initialised and in which no instruction uses itself. *)
Theorem printed_top_is_in `{ValueAPI} fuel out b :
  analyse (V := V) insts fuel F = Done out -> reachable F b ->
  f_succs F b <> [] \/ f_isRet F b = true ->
  noSelfUse (insts b) ->
  snd (snd (walkUp (computeDomain insts F) (rev (insts b))
              (domainToIndex out, br_out (resultAt out b)))) =
  br_in (resultAt out b).
Proof.
  intros Hrun Hb Hs Hself. pose proof (reachable_in_blocks F HF b Hb) as Hbb.
  rewrite walkUp_state, (br_in_bits _ _ Hrun b Hb).
  pose proof Hrun as Hrun'. rewrite analyse_runWith in Hrun'.
  apply (run_solves_lemma (transferFn insts) BACKWARD UNION F domain (fun _ => True) HF
    _ liveness_initialised) in Hrun' as [Hidx _]. rewrite Hidx.
  destruct (foldl_stepUp (insts b) (br_out (resultAt out b))) as (l' & -> & Hs' & Hb').
  - by apply (out_size fuel).
  - by apply domain_covers.
  - done.
  - cbn [snd]. apply bv_ext.
    + rewrite Hs', transferFn_eq. simpl. symmetry. apply genKill_size; by apply final_spec.
    + intros j. destruct (decide (j < n)) as [Hj|Hj].
      * apply lookup_lt_is_Some in Hj as [v Hj]. rewrite (Hb' j v Hj).
        symmetry. by apply transferFn_bits.
      * rewrite !bit_ge; [done| |lia]. rewrite transferFn_eq. simpl.
        rewrite (genKill_size _ _ _ n); [lia|by apply final_spec..].
Qed.

End Exact.

(** ** On the counted loop *)

Lemma liveness_exact_witness :
  liveOut loopInsts loopF 2 (VInst 2) /\ liveOut loopInsts loopF 0 (VArg 0) /\
  ~ liveOut loopInsts loopF 3 (VInst 1).
Proof.
  destruct (liveness_exact (V := ListBits.t) loopInsts loopF loopF_laws) as (out & Hrun & Hex).
  vm_compute in Hrun. injection Hrun as Hout. clear - Hex Hout.
  assert (Hr : forall b, b ∈ [0; 1; 2; 3] -> reachable loopF b) by (intros b; apply loopF_reach).
  split; [|split].
  - apply (Hex 2 0 (VInst 2)); [apply Hr; set_solver|reflexivity|]. by subst out.
  - apply (Hex 0 2 (VArg 0)); [apply Hr; set_solver|reflexivity|]. by subst out.
  - intros Hl. apply (Hex 3 1 (VInst 1)) in Hl; [|apply Hr; set_solver|reflexivity]. by subst out.
Defined.

Lemma printed_top_is_in_witness : exists out,
  analyse (V := ListBits.t) loopInsts 20 loopF = Done out /\
  snd (snd (walkUp (H0 := numberedAPI) (computeDomain loopInsts loopF) (rev (loopInsts 1))
              (domainToIndex out, br_out (resultAt out 1)))) = br_in (resultAt out 1).
Proof.
  eexists. split; [vm_compute; reflexivity|].
  apply (printed_top_is_in (H1 := numberedAPI) loopInsts loopF loopF_laws 20 _ 1).
  - vm_compute. reflexivity.
  - apply loopF_reach. set_solver.
  - left. done.
  - intros i Hi. simpl in Hi. blocks_in; simpl; set_solver.
Defined.

(** The framework's theorems hold of this analysis. *)
Lemma run_terminates_witness : exists out,
  runWith (transferFn (V := ListBits.t) loopInsts) BACKWARD UNION
    (interiorRes BACKWARD (bv_make 4 false)) 18 loopF (computeDomain loopInsts loopF)
    (bv_make 4 false) = Done out.
Proof.
  apply (run_terminates (transferFn loopInsts) BACKWARD UNION loopF (computeDomain loopInsts loopF)
    (fun _ => True) (HM := liveness_monotone loopInsts loopF) loopF_laws _
    (liveness_initialised loopInsts loopF)).
  vm_compute. repeat constructor.
Defined.

Lemma run_solves_equations_witness : exists out,
  analyse (V := ListBits.t) loopInsts 18 loopF = Done out /\
  solves (transferFn (V := ListBits.t) loopInsts) BACKWARD UNION loopF (computeDomain loopInsts loopF)
    (interiorRes BACKWARD (bv_make 4 false)) out 1.
Proof.
  eexists. split; [vm_compute; reflexivity|].
  apply (run_solves_equations (transferFn loopInsts) BACKWARD UNION loopF (computeDomain loopInsts loopF)
    (fun _ => True) (HM := liveness_monotone loopInsts loopF) loopF_laws _
    (liveness_initialised loopInsts loopF) 18).
  - vm_compute. reflexivity.
  - apply loopF_reach. set_solver.
Defined.

Lemma run_extreme_witness : exists out,
  analyse (V := ListBits.t) loopInsts 18 loopF = Done out /\
  isSolution (transferFn (V := ListBits.t) loopInsts) BACKWARD UNION loopF
    (computeDomain loopInsts loopF) (interiorRes BACKWARD (bv_make 4 false))
    (fun b => transferOutput (resultAt out b)).
Proof.
  eexists. split; [vm_compute; reflexivity|].
  apply (run_extreme (transferFn loopInsts) BACKWARD UNION loopF (computeDomain loopInsts loopF)
    (fun _ => True) (HM := liveness_monotone loopInsts loopF) loopF_laws _
    (liveness_initialised loopInsts loopF) 18).
  vm_compute. reflexivity.
Defined.

(** Finding.  A reachable block that ends in [unreachable] keeps an OUT
    vector of length 0 whatever the size of the domain, because asst2's [run]
    initialises only the IN side of interior blocks; [runOnFunction] then
    indexes that vector with domain indices. *)
Theorem exit_block_out_empty (V : Type) `{BitVectorLaws V} insts F fuel out b :
  CFGLaws F -> analyse (V := V) insts fuel F = Done out ->
  reachable F b -> f_succs F b = [] -> f_isRet F b = false ->
  bv_size (br_out (resultAt out b)) = 0.
Proof. intros HF Hrun Hb Hs Hr. rewrite (exit_block_out_lemma insts F HF fuel out Hrun b Hb Hs Hr). apply size_empty. Qed.

Lemma exit_block_out_empty_witness :
  length (computeDomain trapInsts trapF) = 1 /\
  exists out, analyse (V := ListBits.t) trapInsts 20 trapF = Done out /\
  bv_size (br_out (resultAt out 1)) = 0.
Proof.
  split; [reflexivity|]. eexists. split; [vm_compute; reflexivity|].
  eapply (exit_block_out_empty ListBits.t trapInsts trapF 20 _ 1 trapF_laws); [|..].
  - vm_compute. reflexivity.
  - apply trapF_reach. set_solver.
  - reflexivity.
  - reflexivity.
Defined.

Arguments locals V : clear implicits.
End Liveness.
