(* ===== verification/Available.v ===== *)
(** * Available expressions: asst2/ClassicalDataflow/available.cpp *)

From stdpp Require Import gmap countable list strings.
From Stdlib Require Import ZArith.
From S2P Require Import Prelude LLVM IR Expr Dataflow DataflowTheory DataflowRun MustAnalysis Examples.

#[export] Instance BinaryOps_countable : Countable BinaryOps.
Proof.
  refine (inj_countable op_num (fun k => List.find (fun op => Nat.eqb (op_num op) k)
    [Add; FAdd; Sub; FSub; Mul; FMul; UDiv; SDiv; FDiv; URem; SRem; FRem; Shl; LShr; AShr; And; Or; Xor]) _).
  by intros [].
Defined.

#[export] Instance Expression_countable : Countable Expression.
Proof.
  refine (inj_countable' (fun e => (e_v1 e, e_v2 e, e_op e))
    (fun t => mkExpression t.1.1 t.1.2 t.2) _). by intros [].
Defined.

Module Available.

(** An [Expression*]: the address [new] returned and the object there, which is
    never written after its construction. *)
Record ExprPtr := mkPtr { ep_addr : nat; ep_expr : Expression }.

#[export] Instance ExprPtr_eq_dec : EqDecision ExprPtr.
Proof. solve_decision. Defined.
#[export] Instance ExprPtr_countable : Countable ExprPtr.
Proof. refine (inj_countable' (fun e => (ep_addr e, ep_expr e)) (fun t => mkPtr t.1 t.2) _). by intros []. Defined.

(** ** The analysis *)

Section Analysis.
Context {V : Type} `{BitVectorAPI V} `{ValueAPI}.

(** The instructions of a block, in order. *)
Variable insts : blk -> list inst.

(** The first domain element equal ([operator==]) to an expression. *)
Definition findMatch (domain : list ExprPtr) (expr : Expression) : option ExprPtr :=
  List.find (fun element => expr_eq expr (ep_expr element)) domain.

(** The operands whose names [transferFn] compares with the assigned name. *)
Definition mentions (insn : string) (expr : Expression) : bool :=
  bool_decide (getName (e_v1 expr) = insn) || bool_decide (getName (e_v2 expr) = insn).

(** The variables of [transferFn] that its loop updates. *)
Record locals := mkLocals {
  l_index : gmap ExprPtr nat;       (* domainToIndex, a copy *)
  l_gen : V;                        (* GenSet *)
  l_kill : V                        (* KillSet *)
}.

Definition stepGen (domain : list ExprPtr) (st : locals) (I : inst) : locals :=
  match Expression_of I with
  | Some expr =>
      match findMatch domain expr with
      | Some m =>
          let '(valInd, index) := map_sub 0 (l_index st) m in
          mkLocals index (bv_set (l_gen st) valInd) (l_kill st)
      | None => st
      end
  | None => st
  end.

Definition killElement (insn : string) (st : locals) (expr : ExprPtr) : locals :=
  if mentions insn (ep_expr expr) then
    match l_index st !! expr with
    | Some k => mkLocals (l_index st) (bv_reset (l_gen st) k) (bv_set (l_kill st) k)
    | None => st
    end
  else st.

Definition stepKill (domain : list ExprPtr) (st : locals) (I : inst) : locals :=
  let insn := getName (i_val I) in
  if bool_decide (insn = EmptyString) then st
  else foldl (killElement insn) st domain.

(** The body of the loop over the block. *)
Definition stepInst (domain : list ExprPtr) (st : locals) (I : inst) : locals :=
  stepKill domain (stepGen domain st I) I.

(** [AEAnalysis::transferFn] *)
Definition transferFn (input : V) (domain : list ExprPtr) (domainToIndex : gmap ExprPtr nat)
    (block : blk) : TransferOutput V :=
  let domainSize := size domainToIndex in
  let st := foldl (stepInst domain)
              (mkLocals domainToIndex (bv_make domainSize false) (bv_make domainSize false))
              (insts block) in
  mkTransferOutput (bv_or (bv_and (bv_flip (l_kill st)) input) (l_gen st)) ∅.

(** The domain: the expressions of the function, without repetition.  [next] is
    the address of the next allocation. *)
Definition pushExpr (st : nat * list ExprPtr) (I : inst) : nat * list ExprPtr :=
  let '(next, domain) := st in
  match Expression_of I with
  | Some expr =>
      match findMatch domain expr with
      | None => (S next, domain ++ [mkPtr next expr])
      | Some _ => (S next, domain)
      end
  | None => st
  end.

Definition computeDomain (F : Function) : list ExprPtr :=
  snd (foldl pushExpr (0, []) (concat (map insts (f_blocks F)))).

(** [pass.run(F, domain, boundaryCond, initCond)] as [runOnFunction] calls it. *)
Definition analyse (fuel : nat) (F : Function) : outcome (DataFlowResult V ExprPtr) :=
  let domain := computeDomain F in
  run transferFn FORWARD INTERSECTION fuel F domain
      (bv_make (length domain) false) (bv_make (length domain) true).

(** ** Printing the result *)

(** The effect of one instruction on [availableExprs]. *)
Definition genDown (domain : list ExprPtr) (st : gmap ExprPtr nat * V) (I : inst) : gmap ExprPtr nat * V :=
  match Expression_of I with
  | Some expr =>
      match findMatch domain expr with
      | Some m =>
          let '(valInd, index) := map_sub 0 (fst st) m in (index, bv_set (snd st) valInd)
      | None => st
      end
  | None => st
  end.

Definition killDown (domain : list ExprPtr) (st : gmap ExprPtr nat * V) (I : inst) : gmap ExprPtr nat * V :=
  let insn_str := getName (i_val I) in
  if bool_decide (insn_str = EmptyString) then st
  else
    foldl (fun st expr =>
      if mentions insn_str (ep_expr expr) then
        match fst st !! expr with
        | Some k => (fst st, bv_reset (snd st) k)
        | None => st
        end
      else st) st domain.

Definition stepDown (domain : list ExprPtr) (st : gmap ExprPtr nat * V) (I : inst) : gmap ExprPtr nat * V :=
  killDown domain (genDown domain st I) I.

Definition rule : string :=
  "//===--------------------------------------------------------------------------------------------------------------------------===//".

Definition showSet (domain : list ExprPtr) (on : V) : string :=
  setw_right WIDTH (printSet (fun p => toString (ep_expr p)) domain on).

Fixpoint walkDown (domain : list ExprPtr) (l : list inst) (st : gmap ExprPtr nat * V)
  : list string * (gmap ExprPtr nat * V) :=
  match l with
  | [] => ([], st)
  | insn :: rest =>
      let st' := stepDown domain st insn in
      let line := (spaces WIDTH ++ print (i_val insn))%string in
      let '(lines, st'') := walkDown domain rest st' in
      if isPHI insn then (line :: lines, st'')
      else (line :: showSet domain (snd st') :: lines, st'')
  end.

Definition printBlock (domain : list ExprPtr) (out : DataFlowResult V ExprPtr)
    (index : gmap ExprPtr nat) (block : blk) : list string * gmap ExprPtr nat :=
  let availableExprs := br_in (map_get BlockResult0 (result out) block) in
  let '(lines, (index', _)) := walkDown domain (insts block) (index, availableExprs) in
  (rule :: (showSet domain availableExprs ++ " :: BB Entry")%string :: lines ++ [rule], index').

Fixpoint printBlocks (domain : list ExprPtr) (out : DataFlowResult V ExprPtr)
    (index : gmap ExprPtr nat) (blocks : list blk) : list string :=
  match blocks with
  | [] => []
  | b :: blocks' =>
      let '(lines, index') := printBlock domain out index b in
      lines ++ printBlocks domain out index' blocks'
  end.

(** [AvailableExpressions::runOnFunction]: the lines written to [outs()], and
    the returned flag, which is always false. *)
Definition runOnFunction (fuel : nat) (F : Function) : outcome (list string * bool) :=
  let domain := computeDomain F in
  obind (analyse fuel F) (fun out =>
    Done (printBlocks domain out (index_from 0 domain ∅) (f_blocks F), false)).

(** ** What the sets mean *)

Definition computes (e : Expression) (i : inst) : bool := bool_decide (Expression_of i = Some e).

(** The instruction has a name, and it is the name of an operand. *)
Definition kills (e : Expression) (i : inst) : bool :=
  negb (bool_decide (getName (i_val i) = EmptyString)) && mentions (getName (i_val i)) e.

(** Whether [e] is available after an instruction, given before. *)
Definition after1 (e : Expression) (a : bool) (i : inst) : bool :=
  negb (kills e i) && (computes e i || a).

(** ... and after a list of instructions. *)
Definition after (e : Expression) (a : bool) (l : list inst) : bool := foldl (after1 e) a l.

End Analysis.

Section Meaning.
Context `{ValueAPI}.

Lemma after_split e l : forall a,
  after e a l = after e false l || (a && negb (existsb (kills e) l)).
Proof.
  induction l as [|i l IH]; intros a; [by rewrite andb_true_r|].
  change (after e a (i :: l)) with (after e (after1 e a i) l).
  change (after e false (i :: l)) with (after e (after1 e false i) l).
  rewrite (IH (after1 e a i)), (IH (after1 e false i)). unfold after1. simpl.
  by destruct (kills e i), (computes e i), a, (after e false l), (existsb (kills e) l).
Qed.

(** Available after a sequence of instructions: computed by one of them that
    does not kill it, and not killed since. *)
Lemma after_true e l : after e false l = true <->
  exists l1 i l2, l = l1 ++ i :: l2 /\ Expression_of i = Some e /\
    Forall (fun k => kills e k = false) (i :: l2).
Proof.
  induction l as [|i l IH] using rev_ind.
  - split; [done|]. intros (l1 & i & l2 & E & _). by destruct l1.
  - unfold after. rewrite foldl_app. change (foldl (after1 e) false l) with (after e false l).
    simpl. unfold after1. rewrite andb_true_iff, negb_true_iff, orb_true_iff, IH.
    unfold computes. rewrite bool_decide_eq_true. split.
    + intros (Hk & [He|(l1 & i' & l2 & -> & He & Hf)]).
      * exists l, i, []. split; [done|]. split; [done|]. by repeat constructor.
      * exists l1, i', (l2 ++ [i]). split; [by rewrite <- app_assoc|]. split; [done|].
        inversion Hf; subst. constructor; [done|]. apply Forall_app. split; [done|]. by repeat constructor.
    + intros (l1 & i' & l2 & E & He & Hf). destruct l2 as [|k l2 _] using rev_ind.
      * apply app_inj_tail in E as [-> ->]. inversion Hf; subst. by split; [|left].
      * rewrite app_comm_cons, app_assoc in E. apply app_inj_tail in E as [-> ->].
        rewrite app_comm_cons in Hf. apply Forall_app in Hf as [Hf Hk].
        split; [by inversion Hk|]. right. by exists l1, i', l2.
Qed.

End Meaning.

(** ** The domain *)

Lemma findMatch_Some domain e p : findMatch domain e = Some p -> p ∈ domain /\ ep_expr p = e.
Proof.
  intros Hf. apply find_some in Hf as [Hin He]. apply expr_eq_true in He.
  split; [by apply list_elem_of_In|done].
Qed.

Lemma findMatch_None domain e : findMatch domain e = None <-> e ∉ map ep_expr domain.
Proof.
  split.
  - intros Hf (p & -> & Hp)%elem_of_map. apply list_elem_of_In in Hp. pose proof (find_none _ _ Hf p Hp) as E.
    cbv beta in E. by rewrite (proj2 (expr_eq_true _ _)) in E.
  - intros Hn. destruct (findMatch domain e) as [p|] eqn:E; [|done].
    apply findMatch_Some in E as [Hp <-]. destruct Hn. apply elem_of_map. by exists p.
Qed.

Lemma foldl_pushExpr l : forall next domain, NoDup (map ep_expr domain) ->
  let d := snd (foldl pushExpr (next, domain) l) in
  NoDup (map ep_expr d) /\
  forall e, e ∈ map ep_expr d <-> e ∈ map ep_expr domain \/ exists i, i ∈ l /\ Expression_of i = Some e.
Proof.
  induction l as [|i l IH]; intros next domain Hnd; cbv zeta; cbn [foldl].
  { split; [done|]. intros e. split; [by left|]. intros [?|(i & Hi & _)]; [done|by apply not_elem_of_nil in Hi]. }
  assert (Hkeep : forall next', (forall e, Expression_of i = Some e -> e ∈ map ep_expr domain) ->
    let d := snd (foldl pushExpr (next', domain) l) in NoDup (map ep_expr d) /\
    forall e, e ∈ map ep_expr d <-> e ∈ map ep_expr domain \/ exists k, k ∈ i :: l /\ Expression_of k = Some e).
  { intros next' He. destruct (IH next' domain Hnd) as [Hn Hi]. split; [done|]. intros e. rewrite Hi.
    setoid_rewrite elem_of_cons. naive_solver. }
  unfold pushExpr at 2 4. destruct (Expression_of i) as [e0|] eqn:Ee; [|by apply Hkeep].
  destruct (findMatch domain e0) as [p|] eqn:Ef.
  - apply Hkeep. intros e [= <-]. apply findMatch_Some in Ef as [Hp <-]. apply elem_of_map. by exists p.
  - apply findMatch_None in Ef. destruct (IH (S next) (domain ++ [mkPtr next e0])) as [Hn Hi].
    { rewrite map_app. apply NoDup_app. split; [done|]. split; [set_solver|apply NoDup_singleton]. }
    split; [done|]. intros e. rewrite Hi, map_app, elem_of_app. simpl. rewrite list_elem_of_singleton.
    setoid_rewrite elem_of_cons. simpl. naive_solver.
Qed.

(** ** The sets [transferFn] builds *)

Section Sets.
Context {V : Type} `{BitVectorLaws V} `{ValueAPI}.
Variable domain : list ExprPtr.
Hypothesis Hnd : NoDup (map ep_expr domain).

Abbreviation n := (length domain).
Abbreviation index := (index_from 0 domain ∅).

Lemma domain_nodup : NoDup domain.
Proof. by eapply NoDup_fmap_1. Qed.

Lemma domain_same j k p q : domain !! j = Some p -> domain !! k = Some q ->
  bool_decide (k = j) = bool_decide (ep_expr q = ep_expr p).
Proof.
  intros Hj Hk. apply bool_decide_ext. split; [intros ->; congruence|]. intros E.
  eapply NoDup_lookup; [exact Hnd| |].
  - change (map ep_expr domain) with (ep_expr <$> domain). rewrite list_lookup_fmap, Hk. done.
  - change (map ep_expr domain) with (ep_expr <$> domain). rewrite list_lookup_fmap, Hj. simpl. by rewrite E.
Qed.

Lemma findMatch_index e : match findMatch domain e with
  | Some m => exists k, domain !! k = Some m /\ k < n /\ map_sub 0 index m = (k, index) /\ ep_expr m = e
  | None => forall j p, domain !! j = Some p -> ep_expr p <> e
  end.
Proof.
  destruct (findMatch domain e) as [m|] eqn:Ef.
  - apply findMatch_Some in Ef as [Hm He]. destruct (index_elem domain m domain_nodup Hm) as [k Hk].
    exists k. split; [by apply index_spec; [apply domain_nodup|]|].
    split; [by apply (index_lt domain m); [apply domain_nodup|]|]. split; [by apply map_sub_Some|done].
  - apply findMatch_None in Ef. intros j p Hj <-. apply Ef, elem_of_map. exists p.
    split; [done|]. by apply list_elem_of_lookup_2 in Hj.
Qed.

Record wfLocals (st : locals) : Prop := {
  wl_index : l_index st = index;
  wl_gen : bv_size (l_gen st : V) = n;
  wl_kill : bv_size (l_kill st : V) = n
}.

Lemma stepGen_spec st i : wfLocals st -> wfLocals (stepGen domain st i) /\
  l_kill (stepGen domain st i) = l_kill st /\
  forall j p, domain !! j = Some p ->
  bit (l_gen (stepGen domain st i)) j = computes (ep_expr p) i || bit (l_gen st) j.
Proof.
  intros Hwf. unfold stepGen, computes. destruct (Expression_of i) as [e|]; [|done].
  pose proof (findMatch_index e) as Hf. destruct (findMatch domain e) as [m|].
  - destruct Hf as (k & Hk & Hkn & Hsub & He). rewrite (wl_index st Hwf), Hsub. simpl.
    pose proof (wl_gen st Hwf) as Hg. split; [split; simpl; [done|rewrite size_set; lia|apply Hwf]|].
    split; [done|]. intros j p Hj. rewrite bit_set by lia. f_equal.
    rewrite (domain_same j k p m Hj Hk), He. apply bool_decide_ext.
    split; [by intros ->|by intros [= ->]].
  - split; [done|]. split; [done|]. intros j p Hj. rewrite bool_decide_false; [done|].
    intros [= E]. by apply (Hf j p Hj).
Qed.

Lemma killElement_spec insn st q k : wfLocals st -> domain !! k = Some q ->
  wfLocals (killElement insn st q) /\
  forall j, j < n ->
  bit (l_gen (killElement insn st q)) j =
    negb (bool_decide (k = j) && mentions insn (ep_expr q)) && bit (l_gen st) j /\
  bit (l_kill (killElement insn st q)) j =
    (bool_decide (k = j) && mentions insn (ep_expr q)) || bit (l_kill st) j.
Proof.
  intros Hwf Hk. unfold killElement. destruct (mentions insn (ep_expr q)).
  2: { split; [done|]. intros j Hj. by rewrite andb_false_r. }
  rewrite (wl_index st Hwf), (proj2 (index_spec domain q k domain_nodup) Hk).
  pose proof (wl_gen st Hwf) as Hg. pose proof (wl_kill st Hwf) as Hl.
  assert (Hkn : k < n) by by apply lookup_lt_Some in Hk.
  split; [split; simpl; rewrite ?size_set, ?size_reset by lia; done|].
  intros j Hj. simpl. rewrite bit_reset, bit_set, andb_true_r by lia. done.
Qed.

Lemma foldl_killElement insn ks : forall st, wfLocals st -> (forall k, k ∈ ks -> k < n) ->
  let qs := omap (fun k => domain !! k) ks in
  let st' := foldl (killElement insn) st qs in
  wfLocals st' /\
  forall j p, domain !! j = Some p ->
  bit (l_gen st') j = negb (bool_decide (j ∈ ks) && mentions insn (ep_expr p)) && bit (l_gen st) j /\
  bit (l_kill st') j = (bool_decide (j ∈ ks) && mentions insn (ep_expr p)) || bit (l_kill st) j.
Proof.
  induction ks as [|k ks IH]; intros st Hwf Hks; cbv zeta.
  { split; [done|]. intros j p Hj. rewrite (bool_decide_false (j ∈ [])) by apply not_elem_of_nil. done. }
  destruct (lookup_lt_is_Some_2 domain k) as [q Hq]; [apply Hks; set_solver|].
  cbn [omap list_omap]. rewrite Hq. cbn [foldl].
  destruct (killElement_spec insn st q k Hwf Hq) as [Hwf1 S1].
  destruct (IH (killElement insn st q) Hwf1) as [Hwf2 S2]; [set_solver|].
  split; [done|]. intros j p Hj. destruct (S2 j p Hj) as [-> ->].
  destruct (S1 j) as [-> ->]; [by apply lookup_lt_Some in Hj|].
  rewrite (bool_decide_ext (j ∈ k :: ks) (k = j \/ j ∈ ks)) by set_solver. rewrite bool_decide_or.
  destruct (decide (k = j)) as [->|Hne].
  - assert (q = p) as -> by congruence. rewrite (bool_decide_true (j = j)) by done.
    by destruct (mentions insn (ep_expr p)), (bool_decide (j ∈ ks)), (bit (l_gen st) j).
  - by rewrite (bool_decide_false (k = j)) by done.
Qed.

Lemma omap_seq {A} (l : list A) : omap (fun k => l !! k) (seq 0 (length l)) = l.
Proof.
  assert (Hk : forall m (l : list A), omap (fun k => l !! k) (seq m (length l - m)) = drop m l).
  { clear l. intros m l. remember (length l - m) as d eqn:Ed. revert m Ed.
    induction d as [|d IH]; intros m Ed; simpl; [by rewrite drop_ge by lia|].
    destruct (lookup_lt_is_Some_2 l m) as [x Hx]; [lia|]. rewrite Hx, IH by lia.
    by rewrite (drop_S l x m Hx). }
  specialize (Hk 0 l). rewrite Nat.sub_0_r, drop_0 in Hk. by rewrite Hk.
Qed.

Lemma stepKill_spec st i : wfLocals st -> wfLocals (stepKill domain st i) /\
  forall j p, domain !! j = Some p ->
  bit (l_gen (stepKill domain st i)) j = negb (kills (ep_expr p) i) && bit (l_gen st) j /\
  bit (l_kill (stepKill domain st i)) j = kills (ep_expr p) i || bit (l_kill st) j.
Proof.
  intros Hwf. unfold stepKill, kills. case_bool_decide as En; [done|]. simpl.
  destruct (foldl_killElement (getName (i_val i)) (seq 0 n) st Hwf) as [Hwf1 S1].
  { intros k Hk. apply elem_of_seq in Hk. lia. }
  rewrite omap_seq in *. split; [done|]. intros j p Hj. destruct (S1 j p Hj) as [-> ->].
  rewrite (bool_decide_true (j ∈ _)); [done|].
  apply elem_of_seq. apply lookup_lt_Some in Hj. lia.
Qed.

Lemma block_stepInst l : forall st, wfLocals st ->
  let st' := foldl (stepInst domain) st l in
  wfLocals st' /\
  forall j p, domain !! j = Some p ->
  bit (l_gen st') j = after (ep_expr p) (bit (l_gen st) j) l /\
  bit (l_kill st') j = existsb (kills (ep_expr p)) l || bit (l_kill st) j.
Proof.
  induction l as [|i l IH]; intros st Hwf; cbv zeta; cbn [foldl]; [done|].
  destruct (stepGen_spec st i Hwf) as (Hwf1 & Hk1 & Hg1).
  destruct (stepKill_spec (stepGen domain st i) i Hwf1) as [Hwf2 S2].
  destruct (IH _ Hwf2) as [Hwf3 S3]. split; [exact Hwf3|]. intros j p Hj.
  change (stepInst domain st i) with (stepKill domain (stepGen domain st i) i).
  destruct (S3 j p Hj) as [-> ->]. destruct (S2 j p Hj) as [-> ->].
  rewrite (Hg1 j p Hj), Hk1. split; [done|]. simpl.
  by destruct (kills (ep_expr p) i), (existsb (kills (ep_expr p)) l), (bit (l_kill st) j).
Qed.

End Sets.

Section Exact.
Context {V : Type} `{BitVectorLaws V} `{ValueAPI}.
Variable insts : blk -> list inst.
Variable F : Function.
Hypothesis HF : CFGLaws F.

Abbreviation domain := (computeDomain insts F).
Abbreviation n := (length domain).
Abbreviation index := (index_from 0 domain ∅).
Abbreviation T x b := (transferFn (V := V) insts x domain index b).
Abbreviation okin := (fun _ : V => True).

(** The expression at an index. *)
Abbreviation exprAt j := (default (mkExpression (VOther 0) (VOther 0) Add) (ep_expr <$> (domain !! j))).

Lemma domain_exprs : NoDup (map ep_expr domain).
Proof. apply foldl_pushExpr. constructor. Qed.

Abbreviation start := (mkLocals index (bv_make n false : V) (bv_make n false)).
Abbreviation final b := (foldl (stepInst domain) start (insts b)).

Lemma avail_start_wf : wfLocals domain start.
Proof. split; simpl; rewrite ?size_make; done. Qed.

Lemma avail_transfer_eq x b : T x b =
  mkTransferOutput (genKill (l_kill (final b)) (l_gen (final b)) x) ∅.
Proof. unfold transferFn. by rewrite index_size by apply domain_nodup, domain_exprs. Qed.

Lemma available_bits x b : b ∈ f_blocks F -> okin x -> neighborVals (T x b) = ∅ /\
  forall j, j < n -> bit (element (T x b)) j =
    after (exprAt j) false (insts b) || (bit x j && negb (existsb (kills (exprAt j)) (insts b))).
Proof.
  intros _ _. rewrite avail_transfer_eq. split; [done|]. intros j Hj. simpl.
  destruct (block_stepInst domain domain_exprs (insts b) start avail_start_wf) as [Hwf Hs].
  pose proof Hj as Hj'. apply lookup_lt_is_Some in Hj' as [p Hp]. rewrite Hp. simpl.
  destruct (Hs j p Hp) as [Hg Hk]. simpl in Hg, Hk. rewrite bit_make, andb_false_r in Hg, Hk.
  rewrite orb_false_r in Hk.
  rewrite genKill_bit, Hg, Hk by (rewrite (wl_kill _ _ Hwf), (wl_gen _ _ Hwf); done).
  rewrite (bool_decide_true (j < _)); [by rewrite andb_true_r|]. by rewrite (wl_kill _ _ Hwf).
Qed.

Lemma available_monotone :
  MonotoneAnalysis (V := V) (transferFn insts) INTERSECTION F domain okin.
Proof.
  split; try done.
  - intros x b Hb _. rewrite avail_transfer_eq.
    destruct (block_stepInst domain domain_exprs (insts b) start avail_start_wf) as [Hwf _].
    apply genKill_size; apply Hwf.
  - intros x y b Hb _ _ Hxy. rewrite !avail_transfer_eq.
    destruct (block_stepInst domain domain_exprs (insts b) start avail_start_wf) as [Hwf _].
    assert (Hg : leqV INTERSECTION n (genKill (l_kill (final b)) (l_gen (final b)) x)
                              (genKill (l_kill (final b)) (l_gen (final b)) y)).
    { apply genKill_mono; [apply Hwf..|done]. }
    split; [done|]. intros b'. unfold contribution. cbn [neighborVals element].
    by rewrite lookup_empty.
Qed.
#[local] Existing Instance available_monotone.

Lemma available_initialised : wellInitialised FORWARD INTERSECTION domain okin
  (interiorRes (V := V) FORWARD (bv_make n true)).
Proof. by apply (wellInitialised_asst2 FORWARD INTERSECTION domain); [|left|]. Qed.

Lemma along_after e p :
  along (fun b => after e false (insts b)) (fun b => existsb (kills e) (insts b)) p =
  after e false (concat (map insts p)).
Proof.
  induction p as [|b p IH] using rev_ind; [done|].
  rewrite along_snoc, IH, map_app, concat_app. simpl. rewrite app_nil_r.
  unfold after at 3. rewrite foldl_app. symmetry. apply (after_split e (insts b)).
Qed.

Lemma analyse_done : exists out,
  analyse (V := V) insts (length (f_rpo F) * n + 2) F = Done out.
Proof.
  apply (run_done_lemma (transferFn insts) FORWARD INTERSECTION F domain okin HF
    _ available_initialised). simpl. lia.
Qed.

Section Computed.
Variable fuel : nat.
Variable out : DataFlowResult V ExprPtr.
Hypothesis Hrun : analyse (V := V) insts fuel F = Done out.

Lemma available_in b j p : reachable F b -> domain !! j = Some p ->
  bit (br_in (resultAt out b)) j = true <->
  forall path, entryPath F path b -> after (ep_expr p) false (concat (map insts path)) = true.
Proof.
  intros Hb Hj. assert (Hjn : j < n) by by apply lookup_lt_Some in Hj.
  destruct (must_exact (transferFn insts) F domain okin HF _ available_initialised _ _ available_bits
    fuel out Hrun b j Hb Hjn) as [[-> Hp]|[-> (q & Hq & Ha)]]; rewrite Hj in *; simpl in *.
  - split; [|done]. intros _ q Hq. rewrite <- along_after. by apply Hp.
  - split; [done|]. intros Hall. rewrite along_after, Hall in Ha by done. done.
Qed.

Lemma available_out b j p : reachable F b -> domain !! j = Some p ->
  bit (br_out (resultAt out b)) j = after (ep_expr p) (bit (br_in (resultAt out b)) j) (insts b).
Proof.
  intros Hb Hj. assert (Hjn : j < n) by by apply lookup_lt_Some in Hj.
  destruct (must_solved (transferFn insts) F domain okin HF _ available_initialised fuel out Hrun) as [_ Hs].
  destruct (Hs b Hb) as [(_ & _ & Eo) _]. change (br_out ?r) with (blockOutput FORWARD r). rewrite Eo.
  destruct (must_out (transferFn insts) F domain okin HF _ available_initialised _ _ available_bits
    fuel out Hrun b j Hb Hjn) as [_ ->]. rewrite Hj. simpl. by rewrite (after_split _ _ (bit _ j)).
Qed.

End Computed.

(** ** The walk that prints a block *)

Lemma genDown_sim st i : genDown domain (l_index st, l_gen st : V) i =
  (l_index (stepGen domain st i), l_gen (stepGen domain st i)).
Proof.
  unfold genDown, stepGen. destruct (Expression_of i) as [e|]; [|done].
  destruct (findMatch domain e) as [m|]; [|done]. simpl. by destruct (map_sub 0 (l_index st) m).
Qed.

Lemma killDown_sim st i : killDown domain (l_index st, l_gen st : V) i =
  (l_index (stepKill domain st i), l_gen (stepKill domain st i)).
Proof.
  unfold killDown, stepKill. case_bool_decide; [done|]. generalize domain. clear.
  intros l. revert st. induction l as [|p l IH]; intros st; [done|]. simpl. rewrite <- IH. f_equal.
  unfold killElement. destruct (mentions _ _); [|done]. by destruct (l_index st !! p).
Qed.

Lemma walkDown_sim l : forall st, snd (walkDown domain l (l_index st, l_gen st : V)) =
  (l_index (foldl (stepInst domain) st l), l_gen (foldl (stepInst domain) st l)).
Proof.
  induction l as [|i l IH]; intros st; [done|]. cbn [walkDown foldl].
  unfold stepDown. rewrite genDown_sim, killDown_sim.
  pose proof (IH (stepInst domain st i)) as E. unfold stepInst at 1 2 in E.
  destruct (walkDown domain l _) as [lines st'']. cbn [snd] in E.
  destruct (isPHI i); cbn [snd]; exact E.
Qed.

(** The forward walk that [runOnFunction] prints starts from the IN set and,
    for every reachable block, ends at the OUT set the analysis computed, bit
    for bit: the printed sets are consistent with the data-flow result. *)
Theorem printed_bottom_is_out fuel out b : analyse (V := V) insts fuel F = Done out ->
  reachable F b -> forall j p, computeDomain insts F !! j = Some p ->
  bit (snd (snd (walkDown (computeDomain insts F) (insts b)
     (index_from 0 (computeDomain insts F) ∅, br_in (resultAt out b))))) j =
  bit (br_out (resultAt out b)) j.
Proof.
  intros Hrun Hb j p Hj. rewrite (available_out fuel out Hrun b j p Hb Hj).
  set (st := mkLocals index (br_in (resultAt out b)) (bv_make n false)).
  change (index_from 0 domain ∅, br_in (resultAt out b)) with (l_index st, l_gen st).
  rewrite walkDown_sim. simpl.
  destruct (block_stepInst domain domain_exprs (insts b) st) as [_ Hs].
  { split; [done| |apply size_make].
    by apply (must_in_size (transferFn insts) F domain okin HF _ available_initialised _ _ available_bits fuel). }
  by apply Hs.
Qed.

Lemma kills_false e k : kills e k = false <->
  getName (i_val k) = EmptyString \/ getName (e_v1 e) <> getName (i_val k) /\ getName (e_v2 e) <> getName (i_val k).
Proof.
  unfold kills, mentions. rewrite andb_false_iff, negb_false_iff, orb_false_iff.
  by rewrite !bool_decide_eq_false, bool_decide_eq_true.
Qed.

Lemma path_block path b k : entryPath F path b -> k ∈ concat (map insts path) -> exists c, c ∈ f_blocks F /\ k ∈ insts c.
Proof.
  intros Hpath. induction Hpath as [|path b c Hpath IH Hc]; [by intros ?%not_elem_of_nil|].
  rewrite map_app, concat_app, elem_of_app. intros [Hk|Hk]; [by apply IH|].
  simpl in Hk. rewrite app_nil_r in Hk. exists b. split; [|done]. by apply (cfg_succs_in F HF) in Hc as [Hc _].
Qed.

(** The names of the operands tell which instruction defines them: an
    instruction that is an operand of an expression has a name, and no other
    operand has it. *)
Definition namesTell : Prop := forall b i p v, b ∈ f_blocks F -> i ∈ insts b -> p ∈ computeDomain insts F ->
  v = e_v1 (ep_expr p) \/ v = e_v2 (ep_expr p) -> v = i_val i <-> getName (i_val i) <> EmptyString /\ getName v = getName (i_val i).

Lemma names_kill (Hn : namesTell) path b k p : p ∈ computeDomain insts F -> entryPath F path b -> k ∈ concat (map insts path) ->
  kills (ep_expr p) k = false <-> i_val k <> e_v1 (ep_expr p) /\ i_val k <> e_v2 (ep_expr p).
Proof.
  intros Hp Hpath Hk. destruct (path_block path b k Hpath Hk) as (c & Hc & Hkc). rewrite kills_false.
  pose proof (Hn c k p (e_v1 (ep_expr p)) Hc Hkc Hp ltac:(by left)) as N1.
  pose proof (Hn c k p (e_v2 (ep_expr p)) Hc Hkc Hp ltac:(by right)) as N2.
  destruct (decide (getName (i_val k) = EmptyString)); naive_solver.
Qed.


End Exact.

(** A function over [loopF] that computes [arg0 + arg1] in the entry block and
    recomputes [i1 * i5] around the loop; terminators have no name. *)
Definition sumInsts (b : blk) : list inst :=
  match b with
  | 0 => [mkInst 5 "sum" (Some 32%Z) (Binary Add) [VArg 0; VArg 1];
          mkInst 20 "" None Terminator [VOther 1]]
  | 1 => [mkInst 1 "i" (Some 32%Z) (PHI [0; 2]) [VConstInt 32 0; VInst 2];
          mkInst 2 "mul" (Some 32%Z) (Binary Mul) [VInst 1; VInst 5];
          mkInst 21 "" None Terminator [VArg 0; VOther 3; VOther 2]]
  | 2 => [mkInst 22 "" None Terminator [VOther 1]]
  | 3 => [mkInst 23 "" None Ret [VInst 2]]
  | _ => []
  end.

Definition namedAPI : ValueAPI := {|
  getName v := match v with
    | VInst 5 => "sum" | VInst 1 => "i" | VInst 2 => "mul"
    | VArg 0 => "a" | VArg 1 => "b" | _ => EmptyString end;
  print v := "?";
  printAPInt w c := pretty.pretty c;
  addr_lt u v := (encode u <? encode v)%positive
|}.

Lemma sumInsts_domain : computeDomain sumInsts loopF =
  [mkPtr 0 (mkExpression (VArg 0) (VArg 1) Add); mkPtr 1 (mkExpression (VInst 1) (VInst 5) Mul)].
Proof. reflexivity. Qed.


Lemma printed_bottom_is_out_witness : exists out,
  analyse (V := ListBits.t) (H0 := namedAPI) sumInsts 10 loopF = Done out /\
  bit (snd (snd (walkDown (H := ListBits.api) (H0 := namedAPI) (computeDomain sumInsts loopF) (sumInsts 1)
     (index_from 0 (computeDomain sumInsts loopF) ∅, br_in (resultAt out 1))))) 1 = true.
Proof.
  assert (E : obind (analyse (V := ListBits.t) (H0 := namedAPI) sumInsts 10 loopF)
    (fun o => Done (bit (br_out (resultAt o 1)) 1)) = Done true) by (vm_compute; reflexivity).
  apply obind_Done in E as (out & Hrun & E). exists out. split; [exact Hrun|].
  assert (Hr : reachable loopF 1) by (apply loopF_reach; in_list).
  assert (Hd : computeDomain sumInsts loopF !! 1 = Some (mkPtr 1 (mkExpression (VInst 1) (VInst 5) Mul)))
    by (rewrite sumInsts_domain; reflexivity).
  injection E as E. rewrite <- E.
  exact (printed_bottom_is_out (V := ListBits.t) (H1 := namedAPI) sumInsts loopF loopF_laws 10 out 1
    Hrun Hr 1 _ Hd).
Defined.

End Available.
