(* ===== verification/Dominance.v ===== *)
(** * Dominance: asst3/LICM/dominance.h and dominance.cpp *)

From stdpp Require Import gmap list strings.
From S2P Require Import Prelude LLVM IR Dataflow DataflowTheory DataflowRun MustAnalysis Examples.

(** ** The analysis *)

Section Analysis.
Context {V : Type} `{BitVectorAPI V}.

(** [DominanceAnalysis::transferFn]: the input with the block itself added. *)
Definition domTransferFn (input : V) (domain : list blk) (domainToIndex : gmap blk nat)
    (block : blk) : TransferOutput V :=
  let '(self, _) := map_sub 0 domainToIndex block in
  mkTransferOutput (bv_set input self) ∅.

(** [computeDom(L)], where [F] is the parent of the loop's first block. *)
Definition computeDom (fuel : nat) (F : Function) : outcome (DataFlowResult V blk) :=
  let domain := f_blocks F in
  let numElems := length domain in
  run_both domTransferFn FORWARD INTERSECTION fuel F domain
    (bv_make numElems false) (bv_make numElems true).

(** A [BasicBlock*] that may be null. *)
Abbreviation ptr := (option blk).

(** [dominates(X, Y, dom)]: [dom.result[Y].in[dom.domainToIndex[X]]]. *)
Definition dominates (X Y : ptr) (dom : DataFlowResult V blk) : bool :=
  let r := match Y with Some y => map_get BlockResult0 (result dom) y | None => BlockResult0 end in
  let i := match X with Some x => map_get 0 (domainToIndex dom) x | None => 0 end in
  bv_get (br_in r) i.

(** ** computeIdom *)

(** The vector of blocks, rebuilt from [domainToIndex]; entries no key maps to
    stay null. *)
Definition indexToBlock (index : gmap blk nat) : list ptr :=
  foldl (fun d kv => <[kv.2 := Some kv.1]> d) (replicate (size index) None) (map_to_list index).

(** The innermost loop: is there a block strictly between [A] and [B]? *)
Definition noneBetween (dom : DataFlowResult V blk) (domain : list ptr)
    (indA indB : nat) (A B : ptr) : bool :=
  forallb (fun indC =>
      if decide (indC = indA \/ indC = indB) then true
      else
        let C := default None (domain !! indC) in
        negb (dominates A C dom && dominates C B dom))
    (seq 0 (length domain)).

(** The loop over [indA]; a second immediate dominator fails the assertion. *)
Fixpoint scanA (dom : DataFlowResult V blk) (domain : list ptr) (indB : nat)
    (indices : list nat) (idom : gmap ptr ptr) : outcome (gmap ptr ptr) :=
  match indices with
  | [] => Done idom
  | indA :: rest =>
      if decide (indA = indB) then scanA dom domain indB rest idom
      else
        let A := default None (domain !! indA) in
        let B := default None (domain !! indB) in
        if negb (dominates A B dom) then scanA dom domain indB rest idom
        else if noneBetween dom domain indA indB A B then
          match idom !! B with
          | Some _ => Exited
          | None => scanA dom domain indB rest (<[B := A]> idom)
          end
        else scanA dom domain indB rest idom
  end.

Fixpoint scanB (dom : DataFlowResult V blk) (domain : list ptr)
    (indices : list nat) (idom : gmap ptr ptr) : outcome (gmap ptr ptr) :=
  match indices with
  | [] => Done idom
  | indB :: rest =>
      obind (scanA dom domain indB (seq 0 (length domain)) idom) (scanB dom domain rest)
  end.

Definition computeIdom (dom : DataFlowResult V blk) : outcome (gmap ptr ptr) :=
  let domain := indexToBlock (domainToIndex dom) in
  scanB dom domain (seq 0 (length domain)) ∅.

End Analysis.

(** ** The dominance tree *)

(** Nodes live on a heap and are referred to by address. *)
Record DomTreeNode := mkNode {
  children : list nat;
  parent : option nat;
  n_block : option blk
}.

Record DomTree := mkTree {
  t_nodes : list nat;
  t_root : option nat
}.

Record treeState := mkTreeState {
  ts_heap : list DomTreeNode;            (* addresses are positions *)
  ts_lookup : gmap (option blk) nat;
  ts_idom : gmap (option blk) (option blk);
  ts_nodes : list nat
}.

(** Find the node of a block, or allocate one ([new DomTreeNode(b, NULL)]). *)
Definition nodeOf (st : treeState) (b : option blk) : nat * treeState :=
  match ts_lookup st !! b with
  | Some n => (n, st)
  | None =>
      let n := length (ts_heap st) in
      (n, mkTreeState (ts_heap st ++ [mkNode [] None b]) (<[b := n]> (ts_lookup st))
                      (ts_idom st) (ts_nodes st))
  end.

Definition set_parent (n p : nat) (h : list DomTreeNode) : list DomTreeNode :=
  alter (fun nd => mkNode (children nd) (Some p) (n_block nd)) n h.
Definition add_child (p n : nat) (h : list DomTreeNode) : list DomTreeNode :=
  alter (fun nd => mkNode (children nd ++ [n]) (parent nd) (n_block nd)) p h.

(** The loop body: [isHeader] is [BI == blocks.begin()]. *)
Definition addBlock (isHeader : bool) (st : treeState) (b : blk) : treeState :=
  let '(p, idom) := if isHeader then (None, ts_idom st) else map_sub None (ts_idom st) (Some b) in
  let st := mkTreeState (ts_heap st) (ts_lookup st) idom (ts_nodes st) in
  let '(n, st) := nodeOf st (Some b) in
  let '(pn, st) := nodeOf st p in
  mkTreeState (add_child pn n (set_parent n pn (ts_heap st))) (ts_lookup st)
              (ts_idom st) (ts_nodes st ++ [n]).

(** [getDominanceTree(idom, L)] over [L->getBlocks()]: the heap and the tree. *)
Definition getDominanceTree (idom : gmap (option blk) (option blk)) (blocks : list blk)
  : list DomTreeNode * DomTree :=
  let st0 := mkTreeState [] ∅ idom [] in
  let st := match blocks with
            | [] => st0
            | h :: rest => foldl (addBlock false) (addBlock true st0 h) rest
            end in
  (ts_heap st, mkTree (ts_nodes st)
     (match blocks with h :: _ => ts_lookup st !! Some h | [] => None end)).

(** [printIdom]: the text written to [errs()]. *)
Definition printIdom (blockName : option blk -> string)
    (idom : gmap (option blk) (option blk)) (blocks : list blk) : list string :=
  ("New Loop"%string ::
   map (fun b => (blockName (Some b) ++ " idom " ++ blockName (map_get None idom (Some b)))%string)
       blocks).

(** ** Dominance, by paths *)

Definition strictDom (F : Function) (X Y : blk) : Prop :=
  forall p, entryPath F p Y -> X ∈ p.

Definition dom (F : Function) (X Y : blk) : Prop :=
  forall p, entryPath F p Y -> X ∈ p ++ [Y].

Section Paths.
Variable F : Function.

(** The part of a path up to the first visit of [X]. *)
Lemma first_visit p b X : entryPath F p b -> X ∈ p ++ [b] ->
  exists p', entryPath F p' X /\ X ∉ p' /\ p' `prefix_of` p.
Proof.
  induction 1 as [|p b c Hp IH Hc]; intros HX.
  - simpl in HX. apply list_elem_of_singleton in HX as ->. exists []. split; [constructor|].
    split; [apply not_elem_of_nil|done].
  - destruct (decide (X ∈ p ++ [b])) as [Hin|Hin].
    + destruct (IH Hin) as (p' & ? & ? & ?). exists p'. split; [done|]. split; [done|].
      by apply prefix_app_r.
    + assert (X = c) by set_solver. subst X. exists (p ++ [b]). split; [by apply ep_step|]. by split.
Qed.

Lemma strictDom_irrefl b : reachable F b -> ~ strictDom F b b.
Proof.
  rewrite reachable_path. intros [p Hp] Hs.
  destruct (first_visit p b b Hp) as (p' & Hp' & Hn & _); [set_solver|]. by apply Hn, Hs.
Qed.

Lemma strictDom_trans a b c : strictDom F a b -> strictDom F b c -> strictDom F a c.
Proof.
  intros Hab Hbc p Hp. pose proof (Hbc p Hp) as Hb.
  destruct (first_visit p c b Hp) as (p' & Hp' & _ & [q ->]); [set_solver|].
  pose proof (Hab p' Hp'). set_solver.
Qed.

Lemma entry_strictDom b : b <> f_front F -> strictDom F (f_front F) b.
Proof.
  intros Hb p Hp. revert Hb. induction Hp as [|p b c Hp IH Hc]; intros Hne; [done|].
  destruct (decide (b = f_front F)) as [->|]; [set_solver|]. pose proof (IH n). set_solver.
Qed.

(** A path can be continued by the tail of another. *)
Lemma path_graft p b q : entryPath F q b ->
  forall c, (exists r, entryPath F (r ++ b :: p) c) -> entryPath F (q ++ b :: p) c.
Proof.
  intros Hq c [r Hr]. remember (r ++ b :: p) as w eqn:Ew. revert r p Ew.
  induction Hr as [|w d c Hw IH Hc]; intros r p Ew; [by destruct r|].
  destruct (decide (p = [])) as [->|Hne].
  - apply app_inj_tail in Ew as [-> ->]. by apply ep_step.
  - destruct (exists_last Hne) as (p' & e & ->).
    replace (r ++ b :: p' ++ [e]) with ((r ++ b :: p') ++ [e]) in Ew by by rewrite <- app_assoc.
    apply app_inj_tail in Ew as [-> ->].
    replace (q ++ b :: p' ++ [e]) with ((q ++ b :: p') ++ [e]) by by rewrite <- app_assoc.
    apply ep_step; [|done]. by apply (IH r p').
Qed.

(** The last visit to one of two blocks. *)
Lemma last_visit (p : list blk) a b : a ∈ p \/ b ∈ p ->
  exists r x p', p = r ++ x :: p' /\ (x = a \/ x = b) /\ a ∉ p' /\ b ∉ p'.
Proof.
  induction p as [|d p IH]; intros Hab; [set_solver|].
  destruct (decide (a ∈ p \/ b ∈ p)) as [Hin|Hin].
  - destruct (IH Hin) as (r & x & p' & -> & Hx & Ha & Hb). by exists (d :: r), x, p'.
  - exists [], d, p. split; [done|]. set_solver.
Qed.

(** Two strict dominators of a reachable block are comparable: neither can be
    reached without the other on paths of their own. *)
Lemma strictDom_linear a b c q r : reachable F c -> strictDom F a c -> strictDom F b c -> a <> b ->
  entryPath F q b -> a ∉ q -> entryPath F r a -> b ∉ r -> False.
Proof.
  intros Hc Ha Hb Hne Hq Haq Hr Hbr. apply reachable_path in Hc as [p Hp].
  destruct (last_visit p a b) as (s & x & p' & -> & Hx & Hap & Hbp); [left; by apply Ha|].
  destruct Hx as [-> | ->].
  - assert (Hg : entryPath F (r ++ a :: p') c) by (apply path_graft; eauto).
    pose proof (Hb _ Hg). set_solver.
  - assert (Hg : entryPath F (q ++ b :: p') c) by (apply path_graft; eauto).
    pose proof (Ha _ Hg). set_solver.
Qed.

End Paths.

(** ** The analysis computes dominance *)

Section Exact.
Context {V : Type} `{BitVectorLaws V}.
Variable F : Function.
Hypothesis HF : CFGLaws F.

Abbreviation domain := (f_blocks F).
Abbreviation n := (length (f_blocks F)).
Abbreviation index := (index_from 0 (f_blocks F) ∅).
Abbreviation T x b := (domTransferFn (V := V) x domain index b).
Abbreviation okin := (fun x : V => bv_size x = n).

Lemma index_block b : b ∈ domain -> exists k,
  index !! b = Some k /\ k < n /\ domain !! k = Some b.
Proof.
  intros Hb. destruct (index_elem domain b (cfg_nodup F HF) Hb) as [k Hk]. exists k.
  split; [done|]. split; [by apply (index_lt domain b), Hk; apply HF|].
  apply index_spec in Hk; [done|apply HF].
Qed.

Lemma transfer_bits x b : b ∈ domain -> bv_size x = n ->
  neighborVals (T x b) = ∅ /\ bv_size (element (T x b)) = n /\
  forall j X, domain !! j = Some X -> bit (element (T x b)) j = bit x j || bool_decide (X = b).
Proof.
  intros Hb Hx. destruct (index_block b Hb) as (k & Hk & Hkn & Hdk).
  unfold domTransferFn. rewrite (map_sub_Some 0 _ _ _ Hk). simpl.
  split; [done|]. split; [rewrite size_set; lia|]. intros j X Hj.
  rewrite bit_set by lia. rewrite orb_comm. f_equal. apply bool_decide_ext.
  split; [intros ->; congruence|]. intros ->. eapply NoDup_lookup; [apply HF|done|done].
Qed.

Lemma dom_monotone : MonotoneAnalysis (V := V) domTransferFn INTERSECTION F domain okin.
Proof.
  split; try done.
  - intros x b Hb Hx. by apply transfer_bits.
  - intros x b b' v Hb Hx. destruct (transfer_bits x b Hb Hx) as (-> & _). by rewrite lookup_empty.
  - intros x y b Hb Hx Hy _. destruct (transfer_bits x b Hb Hx) as (-> & _).
    by destruct (transfer_bits y b Hb Hy) as (-> & _).
  - intros x y b Hb Hx Hy Hxy.
    destruct (transfer_bits x b Hb Hx) as (En1 & _ & Hb1).
    destruct (transfer_bits y b Hb Hy) as (En2 & _ & Hb2).
    assert (Hle : leqV INTERSECTION n (element (T x b)) (element (T y b))).
    { intros i Hi. pose proof (Hxy i Hi) as Hi'. apply lookup_lt_is_Some in Hi as [X HX]. simpl in *.
      rewrite (Hb1 i X HX), (Hb2 i X HX). rewrite !negb_true_iff in *.
      rewrite !orb_false_iff. intros [E1 E2]. auto. }
    split; [done|]. intros b'. unfold contribution. by rewrite En1, En2, lookup_empty.
Qed.
#[local] Existing Instance dom_monotone.

Lemma dom_initialised : wellInitialised FORWARD INTERSECTION domain okin
  (interiorRes_both (V := V) FORWARD (bv_make n true)).
Proof. apply (wellInitialised_asst3 FORWARD INTERSECTION domain); [done|by left|apply size_make]. Qed.

Lemma computeDom_runWith fuel : computeDom (V := V) fuel F =
  runWith domTransferFn FORWARD INTERSECTION (interiorRes_both FORWARD (bv_make n true)) fuel F domain
    (bv_make n false).
Proof. done. Qed.

(** The bits of [transferFn]: the block itself is generated, nothing is killed. *)
Lemma dom_bits x b : b ∈ domain -> okin x -> neighborVals (T x b) = ∅ /\
  forall j, j < n -> bit (element (T x b)) j =
    bool_decide (domain !! j = Some b) || (bit x j && negb false).
Proof.
  intros Hb Hx. destruct (transfer_bits x b Hb Hx) as (En & _ & Hbits). split; [done|].
  intros j Hj. apply lookup_lt_is_Some in Hj as [X HX]. rewrite (Hbits j X HX), HX, andb_true_r, orb_comm.
  f_equal. apply bool_decide_ext. naive_solver.
Qed.

Lemma along_mem j X p : domain !! j = Some X ->
  along (fun b => bool_decide (domain !! j = Some b)) (fun _ => false) p = bool_decide (X ∈ p).
Proof.
  intros Hj. induction p as [|b p IH] using rev_ind.
  - by rewrite bool_decide_false by apply not_elem_of_nil.
  - rewrite along_snoc, IH, andb_true_r, <- bool_decide_or. apply bool_decide_ext.
    rewrite Hj. set_solver.
Qed.

Section Computed.
Variable fuel : nat.
Variable out : DataFlowResult V blk.
Hypothesis Hrun : computeDom (V := V) fuel F = Done out.

Lemma computeDom_solved : domainToIndex out = index /\
  forall b, reachable F b -> bv_size (br_in (resultAt out b)) = n.
Proof.
  destruct (must_solved domTransferFn F domain okin HF _ dom_initialised fuel out Hrun) as [Hi Hs].
  split; [done|]. intros b Hb. by apply Hs.
Qed.

(** [dominates] on reachable [Y] decides strict dominance. *)
Lemma dominates_spec X Y : reachable F Y -> X ∈ domain ->
  (dominates (Some X) (Some Y) out = true /\ strictDom F X Y) \/
  (dominates (Some X) (Some Y) out = false /\ exists p, entryPath F p Y /\ X ∉ p).
Proof.
  intros HY HX. unfold dominates. simpl. destruct computeDom_solved as [Hi Hsz].
  destruct (index_block X HX) as (k & Hk & Hkn & Hdk).
  rewrite Hi. unfold map_get at 2 4. rewrite Hk. simpl.
  rewrite <- bit_get by by rewrite Hsz.
  destruct (must_exact domTransferFn F domain okin HF _ dom_initialised _ _ dom_bits fuel out Hrun Y k HY Hkn)
    as [[-> Hp]|[-> (p & Hp & Ha)]]; [left|right]; (split; [done|]).
  - intros p Hpath. specialize (Hp p Hpath). rewrite (along_mem k X p Hdk), bool_decide_eq_true in Hp. done.
  - exists p. split; [done|]. by rewrite (along_mem k X p Hdk), bool_decide_eq_false in Ha.
Qed.

End Computed.
End Exact.

(** ** Immediate dominators *)

(** The textbook immediate dominator: a strict dominator that every other
    strict dominator strictly dominates. *)
Definition isIdom (F : Function) (a b : blk) : Prop :=
  strictDom F a b /\ forall c, strictDom F c b -> c = a \/ strictDom F c a.

Lemma last_such {A : Type} (P : A -> bool) (p : list A) : (exists x, x ∈ p /\ P x = true) ->
  exists r a p', p = r ++ a :: p' /\ P a = true /\ forall x, x ∈ p' -> P x = false.
Proof.
  induction p as [|d p IH]; intros (x & Hx & HP); [by apply not_elem_of_nil in Hx|].
  destruct (existsb P p) eqn:E.
  - apply existsb_exists in E as (y & Hy & HPy). apply list_elem_of_In in Hy.
    destruct IH as (r & a & p' & -> & Ha & Hp'); [by eauto|]. by exists (d :: r), a, p'.
  - assert (Hno : forall y, y ∈ p -> P y = false).
    { intros y Hy. destruct (P y) eqn:Ey; [|done]. exfalso.
      assert (existsb P p = true); [|congruence]. apply existsb_exists. exists y.
      split; [by apply list_elem_of_In|done]. }
    exists [], d, p. split; [done|]. split; [|done].
    apply elem_of_cons in Hx as [->|Hx]; [done|]. rewrite Hno in HP by done. done.
Qed.

(** The last strict dominator on a path has none between it and the block. *)
Lemma nothing_between F r a p' b c :
  entryPath F (r ++ a :: p') b -> strictDom F a c -> strictDom F c b -> c ∉ p' -> reachable F a -> False.
Proof.
  intros Hp Hac Hcb Hcp Har. assert (Hca : c <> a).
  { intros ->. by apply (strictDom_irrefl F a). }
  assert (Hcr : c ∈ r) by (pose proof (Hcb _ Hp); set_solver).
  destruct (first_visit F _ _ c Hp) as (r1 & Hr1 & Hcr1 & _); [set_solver|].
  pose proof (Hac _ Hr1) as Har1.
  destruct (first_visit F _ _ a Hr1) as (r0 & Hr0 & _ & [s Es]); [set_solver|].
  assert (Hg : entryPath F (r0 ++ a :: p') b) by (apply path_graft; eauto).
  pose proof (Hcb _ Hg). set_solver.
Qed.

Lemma foldl_insert_index (l : list (blk * nat)) : forall (d : list (option blk)) k i,
  NoDup (l.*2) -> (k, i) ∈ l -> i < length d ->
  foldl (fun d kv => <[kv.2 := Some kv.1]> d) d l !! i = Some (Some k).
Proof.
  induction l as [|[k' i'] l IH]; intros d k i Hnd Hin Hi; [by apply not_elem_of_nil in Hin|].
  cbn [foldl]. rewrite fmap_cons in Hnd. apply NoDup_cons in Hnd as [Hni Hnd]. simpl in *.
  apply elem_of_cons in Hin as [[= -> ->]|Hin].
  - clear IH. revert d Hi. induction l as [|[k2 i2] l IH]; intros d Hi; simpl.
    + by apply list_lookup_insert_eq.
    + rewrite list_insert_insert_ne by (simpl in Hni; set_solver).
      apply IH; [simpl in *; set_solver|by apply NoDup_cons in Hnd as [_ ?]|by rewrite length_insert].
  - apply IH; [done|done|]. by rewrite length_insert.
Qed.

Lemma foldl_insert_length (l : list (blk * nat)) : forall (d : list (option blk)),
  length (foldl (fun d kv => <[kv.2 := Some kv.1]> d) d l) = length d.
Proof. induction l as [|kv l IH]; intros d; simpl; [done|]. by rewrite IH, length_insert. Qed.

(** Rebuilding the vector from the index map gives the domain back. *)
Lemma indexToBlock_domain (l : list blk) : NoDup l ->
  indexToBlock (index_from 0 l ∅) = map Some l.
Proof.
  intros Hnd. unfold indexToBlock.
  apply list_eq_same_length with (length l).
  - by rewrite length_map.
  - by rewrite foldl_insert_length, length_replicate, index_size.
  - intros i x y Hi. change (map Some l) with (Some <$> l). rewrite list_lookup_fmap.
    destruct (l !! i) as [k|] eqn:Ek; [|done].
    rewrite (foldl_insert_index _ _ k i).
    + simpl. congruence.
    + apply NoDup_fmap_2_strong; [|apply NoDup_map_to_list].
      intros [k1 i1] [k2 i2] H1 H2 E. simpl in E. subst i2.
      apply elem_of_map_to_list in H1, H2. apply index_spec in H1, H2; [|done..]. congruence.
    + apply elem_of_map_to_list. by apply index_spec.
    + by rewrite length_replicate, index_size.
Qed.

Section Idom.
Context {V : Type} `{BitVectorLaws V}.
Variable F : Function.
Hypothesis HF : CFGLaws F.
Hypothesis all_reachable : forall b, b ∈ f_blocks F -> reachable F b.
Variable fuel : nat.
Variable out : DataFlowResult V blk.
Hypothesis Hrun : computeDom (V := V) fuel F = Done out.

Abbreviation domain := (f_blocks F).
Abbreviation vec := (map Some (f_blocks F)).

Lemma vec_get i b : domain !! i = Some b -> default None (vec !! i) = Some b.
Proof. intros Hi. change vec with (Some <$> domain). by rewrite list_lookup_fmap, Hi. Qed.

Lemma dominates_iff a b : a ∈ domain -> b ∈ domain ->
  dominates (Some a) (Some b) out = true <-> strictDom F a b.
Proof.
  intros Ha Hb. destruct (dominates_spec F HF fuel out Hrun a b) as [[-> ?]|[-> (p & Hp & Hn)]];
    [by apply all_reachable|done|done|]. split; [done|]. intros Hs. exfalso. by apply Hn, Hs.
Qed.

Lemma path_in_domain p b c : entryPath F p b -> c ∈ p -> c ∈ domain.
Proof.
  induction 1 as [|p b d Hp IH Hd]; intros Hc; [by apply not_elem_of_nil in Hc|].
  apply elem_of_app in Hc as [Hc|Hc%list_elem_of_singleton]; [by auto|]. subst c.
  by apply (cfg_succs_in F HF) in Hd as [? _].
Qed.

Lemma noneBetween_spec iA iB a b : domain !! iA = Some a -> domain !! iB = Some b ->
  noneBetween out vec iA iB (Some a) (Some b) = true <->
  forall c, c ∈ domain -> c <> a -> c <> b -> strictDom F a c -> strictDom F c b -> False.
Proof.
  intros HiA HiB. pose proof (list_elem_of_lookup_2 _ _ _ HiA) as Ha.
  pose proof (list_elem_of_lookup_2 _ _ _ HiB) as Hb.
  unfold noneBetween. rewrite forallb_forall. split.
  - intros Hall c Hc Hca Hcb Hac Hcb'. apply list_elem_of_lookup in Hc as [iC HiC].
    specialize (Hall iC). rewrite length_map, in_seq in Hall.
    rewrite decide_False in Hall by (intros [-> | ->]; congruence).
    rewrite (vec_get iC c HiC) in Hall. apply list_elem_of_lookup_2 in HiC as Hc.
    rewrite (proj2 (dominates_iff a c Ha Hc) Hac), (proj2 (dominates_iff c b Hc Hb) Hcb') in Hall.
    simpl in Hall. apply lookup_lt_Some in HiC. assert (false = true) by (apply Hall; lia). done.
  - intros Hno iC HiC. rewrite length_map, in_seq in HiC. case_decide as E; [done|].
    destruct (lookup_lt_is_Some_2 domain iC) as [c Hc]; [lia|]. rewrite (vec_get iC c Hc).
    pose proof (list_elem_of_lookup_2 _ _ _ Hc) as Hcd.
    rewrite negb_true_iff, andb_false_iff.
    destruct (dominates (Some a) (Some c) out) eqn:E1; [|by left].
    destruct (dominates (Some c) (Some b) out) eqn:E2; [|by right].
    apply dominates_iff in E1, E2; [|done..]. exfalso. apply (Hno c Hcd); [| |done|done].
    + intros ->. apply E. left. eapply NoDup_lookup; [apply HF|done|done].
    + intros ->. apply E. right. eapply NoDup_lookup; [apply HF|done|done].
Qed.

(** The test of the inner loops. *)
Definition chosen (iB iA : nat) : bool :=
  negb (bool_decide (iA = iB)) &&
  dominates (default None (vec !! iA)) (default None (vec !! iB)) out &&
  noneBetween out vec iA iB (default None (vec !! iA)) (default None (vec !! iB)).

Lemma chosen_isIdom iA iB a b : domain !! iA = Some a -> domain !! iB = Some b ->
  chosen iB iA = true <-> isIdom F a b.
Proof.
  intros HiA HiB. pose proof (list_elem_of_lookup_2 _ _ _ HiA) as Ha.
  pose proof (list_elem_of_lookup_2 _ _ _ HiB) as Hb.
  unfold chosen. rewrite !andb_true_iff, negb_true_iff, bool_decide_eq_false.
  rewrite (vec_get iA a HiA), (vec_get iB b HiB), dominates_iff, noneBetween_spec by done.
  split.
  - intros [[_ Hab] Hno]. split; [done|]. intros c Hcb.
    assert (Hc : c ∈ domain).
    { destruct (proj1 (reachable_path F b) (all_reachable b Hb)) as [p Hp].
      apply (path_in_domain p b c Hp). by apply Hcb. }
    destruct (decide (c = a)) as [->|Hca]; [by left|right].
    assert (Hcb' : c <> b) by (intros ->; by apply (strictDom_irrefl F b); [apply all_reachable|]).
    destruct (dominates_spec F HF fuel out Hrun a c) as [[_ Hac]|[_ (q & Hq & Haq)]];
      [by apply all_reachable|done|exfalso; by apply (Hno c)|].
    destruct (dominates_spec F HF fuel out Hrun c a) as [[_ ?]|[_ (r & Hr & Hcr)]];
      [by apply all_reachable|done|done|]. exfalso.
    apply (strictDom_linear F a c b q r); auto.
  - intros [Hab Hmax]. split; [split; [|done]|].
    + intros ->. rewrite HiA in HiB. injection HiB as ->.
      by apply (strictDom_irrefl F b); [apply all_reachable|].
    + intros c Hc Hca Hcb Hac Hcb'. destruct (Hmax c Hcb') as [?|Hca']; [done|].
      apply (strictDom_irrefl F a); [by apply all_reachable|]. by apply (strictDom_trans F a c a).
Qed.

Lemma isIdom_unique a a' b : a ∈ domain -> a' ∈ domain -> isIdom F a b -> isIdom F a' b -> a = a'.
Proof.
  intros Ha Ha' [Hab Hm] [Hab' Hm'].
  destruct (Hm a' Hab') as [?|H1]; [done|]. destruct (Hm' a Hab) as [?|H2]; [done|].
  exfalso. apply (strictDom_irrefl F a); [by apply all_reachable|]. by apply (strictDom_trans F a a' a).
Qed.

Lemma isIdom_exists b : b ∈ domain -> b <> f_front F -> exists a, a ∈ domain /\ isIdom F a b.
Proof.
  intros Hb Hne. destruct (proj1 (reachable_path F b) (all_reachable b Hb)) as [p Hp].
  destruct (last_such (fun x => dominates (Some x) (Some b) out) p) as (r & a & p' & -> & Ha & Hlast).
  { pose proof (entry_strictDom F b Hne p Hp) as He. exists (f_front F). split; [done|].
    apply dominates_iff; [by apply front_in_blocks|done|by apply entry_strictDom]. }
  assert (Had : a ∈ domain) by (apply (path_in_domain _ b a Hp); set_solver).
  exists a. split; [done|]. apply list_elem_of_lookup in Had as Hia. destruct Hia as [iA HiA].
  apply list_elem_of_lookup in Hb as Hib. destruct Hib as [iB HiB].
  apply (chosen_isIdom iA iB a b HiA HiB). unfold chosen.
  rewrite (vec_get iA a HiA), (vec_get iB b HiB), Ha.
  apply dominates_iff in Ha; [|done..].
  rewrite (proj2 (noneBetween_spec iA iB a b HiA HiB)).
  - rewrite !andb_true_r, negb_true_iff, bool_decide_eq_false. intros ->.
    rewrite HiA in HiB. injection HiB as ->. by apply (strictDom_irrefl F b); [apply all_reachable|].
  - intros c Hc _ _ Hac Hcb.
    apply (nothing_between F r a p' b c); auto. intros Hin.
    apply Hlast in Hin. apply dominates_iff in Hcb; [congruence|done|done].
Qed.

Lemma idom_front a : ~ isIdom F a (f_front F).
Proof. intros [Hs _]. apply (not_elem_of_nil a). apply Hs. constructor. Qed.

(** The loop over [indA] enters the chosen index, if there is one. *)
Lemma scanA_spec iB b : domain !! iB = Some b -> forall idxs idom,
  NoDup idxs -> (forall i j, i ∈ idxs -> j ∈ idxs -> chosen iB i = true -> chosen iB j = true -> i = j) ->
  idom !! Some b = None ->
  exists idom', scanA out vec iB idxs idom = Done idom' /\
    (forall k, k <> Some b -> idom' !! k = idom !! k) /\
    (forall i, i ∈ idxs -> chosen iB i = true -> idom' !! Some b = Some (default None (vec !! i))) /\
    ((forall i, i ∈ idxs -> chosen iB i = false) -> idom' !! Some b = None).
Proof.
  intros HiB. induction idxs as [|iA idxs IH]; intros idom Hnd Hu Hnone.
  { exists idom. split; [done|]. split; [done|]. split; [|done]. intros i Hi. by apply not_elem_of_nil in Hi. }
  apply NoDup_cons in Hnd as [HiA Hnd].
  assert (Hu' : forall i j, i ∈ idxs -> j ∈ idxs -> chosen iB i = true -> chosen iB j = true -> i = j)
    by (intros i j Hi Hj; apply Hu; set_solver).
  assert (Hskip : chosen iB iA = false -> exists idom',
    scanA out vec iB idxs idom = Done idom' /\
    (forall k, k <> Some b -> idom' !! k = idom !! k) /\
    (forall i, i ∈ iA :: idxs -> chosen iB i = true -> idom' !! Some b = Some (default None (vec !! i))) /\
    ((forall i, i ∈ iA :: idxs -> chosen iB i = false) -> idom' !! Some b = None)).
  { intros Hc. destruct (IH idom Hnd Hu' Hnone) as (idom' & E & Hk & Hsome & Hno). exists idom'.
    split; [done|]. split; [done|]. split; [|intros Hall; apply Hno; set_solver].
    intros i [->|Hi]%elem_of_cons Hci; [congruence|]. by apply Hsome. }
  cbn [scanA]. unfold chosen in Hskip at 1. destruct (decide (iA = iB)) as [Ei|Ei].
  { apply Hskip. by rewrite bool_decide_true. }
  rewrite bool_decide_false in Hskip by done. simpl in Hskip.
  destruct (dominates _ _ out) eqn:Ed; cbn [negb]; [|by apply Hskip].
  destruct (noneBetween _ _ _ _ _ _) eqn:En; [|by apply Hskip]. clear Hskip.
  assert (HcA : chosen iB iA = true).
  { unfold chosen. by rewrite Ed, En, bool_decide_false. }
  rewrite (vec_get iB b HiB), Hnone.
  assert (Hrest : forall i, i ∈ idxs -> chosen iB i = false).
  { intros i Hi. destruct (chosen iB i) eqn:Ec; [|done]. exfalso. apply HiA.
    rewrite (Hu iA i); [done|set_solver|set_solver|done|done]. }
  assert (Hsk : forall l m, (forall i, i ∈ l -> chosen iB i = false) -> scanA out vec iB l m = Done m).
  { clear - HiB. induction l as [|i l IHl]; intros m Hl; [done|]. cbn [scanA].
    assert (Hc : chosen iB i = false) by (apply Hl; set_solver). unfold chosen in Hc.
    destruct (decide (i = iB)) as [E|E]; [apply IHl; set_solver|].
    rewrite bool_decide_false in Hc by done. simpl in Hc.
    destruct (dominates _ _ out); cbn [negb]; [|apply IHl; set_solver]. simpl in Hc. rewrite Hc.
    apply IHl; set_solver. }
  rewrite Hsk by done. eexists. split; [done|]. split; [intros k Hk; by rewrite lookup_insert_ne|].
  split.
  - intros i [->|Hi]%elem_of_cons Hci; [by rewrite lookup_insert_eq|]. rewrite Hrest in Hci by done. done.
  - intros Hall. rewrite Hall in HcA by set_solver. done.
Qed.

Lemma chosen_unique iB b : domain !! iB = Some b -> forall i j, i < length domain -> j < length domain ->
  chosen iB i = true -> chosen iB j = true -> i = j.
Proof.
  intros HiB i j Hi Hj Hci Hcj.
  apply lookup_lt_is_Some in Hi as [a Ha]. apply lookup_lt_is_Some in Hj as [a' Ha'].
  apply (chosen_isIdom i iB a b Ha HiB) in Hci. apply (chosen_isIdom j iB a' b Ha' HiB) in Hcj.
  assert (a = a') by (eapply isIdom_unique; eauto using list_elem_of_lookup_2). subst a'.
  eapply NoDup_lookup; [apply HF|done|done].
Qed.

(** What [computeIdom] must hold for block [b]. *)
Definition idomEntry (idom : gmap (option blk) (option blk)) (b : blk) : Prop :=
  match idom !! Some b with
  | Some (Some a) => isIdom F a b
  | Some None => False
  | None => b = f_front F
  end.

Lemma scanB_spec idxs : forall idom, NoDup idxs -> (forall i, i ∈ idxs -> i < length domain) ->
  (forall i b, i ∈ idxs -> domain !! i = Some b -> idom !! Some b = None) ->
  exists idom', scanB out vec idxs idom = Done idom' /\
    (forall k, (forall i b, i ∈ idxs -> domain !! i = Some b -> k <> Some b) -> idom' !! k = idom !! k) /\
    (forall i b, i ∈ idxs -> domain !! i = Some b -> idomEntry idom' b).
Proof.
  induction idxs as [|iB idxs IH]; intros idom Hnd Hlt Hnone.
  { exists idom. split; [done|]. split; [done|]. intros i b Hi. by apply not_elem_of_nil in Hi. }
  apply NoDup_cons in Hnd as [HiB Hnd]. cbn [scanB].
  destruct (lookup_lt_is_Some_2 domain iB) as [b Hb]; [apply Hlt; set_solver|].
  destruct (scanA_spec iB b Hb (seq 0 (length vec)) idom) as (idom1 & -> & Hk1 & Hs1 & Hn1).
  { apply NoDup_seq. }
  { intros i j Hi Hj. rewrite elem_of_seq, length_map in Hi, Hj. apply (chosen_unique iB b Hb); lia. }
  { apply (Hnone iB b); [set_solver|done]. }
  cbn [obind]. destruct (IH idom1 Hnd) as (idom2 & -> & Hk2 & Hs2); [set_solver| |].
  { intros i c Hi Hc. rewrite Hk1.
    - apply (Hnone i c); [set_solver|done].
    - intros [= ->]. apply HiB. by rewrite (NoDup_lookup _ _ _ _ (cfg_nodup F HF) Hb Hc). }
  assert (Hkeep : idom2 !! Some b = idom1 !! Some b).
  { apply Hk2. intros i c Hi Hc [= ->]. apply HiB. by rewrite (NoDup_lookup _ _ _ _ (cfg_nodup F HF) Hb Hc). }
  exists idom2. split; [done|]. split.
  - intros k Hk. rewrite Hk2, Hk1; [done| |].
    + apply (Hk iB b); [set_solver|done].
    + intros i c Hi. apply Hk. set_solver.
  - intros i c [->|Hi]%elem_of_cons Hc; [|by eapply Hs2].
    rewrite Hb in Hc. injection Hc as <-. unfold idomEntry. rewrite Hkeep.
    destruct (decide (b = f_front F)) as [->|Hne].
    + rewrite Hn1; [done|]. intros i Hi. rewrite elem_of_seq, length_map in Hi.
      destruct (lookup_lt_is_Some_2 domain i) as [a Ha]; [lia|].
      destruct (chosen iB i) eqn:Ec; [|done]. apply (chosen_isIdom i iB a _ Ha Hb) in Ec.
      by apply idom_front in Ec.
    + destruct (isIdom_exists b (list_elem_of_lookup_2 _ _ _ Hb) Hne) as (a & Ha & Hi).
      apply list_elem_of_lookup in Ha as [iA HiA]. rewrite (Hs1 iA).
      * by rewrite (vec_get iA a HiA).
      * rewrite elem_of_seq, length_map. apply lookup_lt_Some in HiA. lia.
      * by apply (chosen_isIdom iA iB a b).
Qed.

Lemma computeIdom_lemma : exists idom, computeIdom out = Done idom /\
  forall b, b ∈ domain -> idomEntry idom b.
Proof.
  unfold computeIdom. rewrite (proj1 (computeDom_solved F HF fuel out Hrun)).
  rewrite indexToBlock_domain by apply HF.
  destruct (scanB_spec (seq 0 (length vec)) ∅) as (idom & -> & _ & Hs).
  - apply NoDup_seq.
  - intros i Hi. rewrite elem_of_seq, length_map in Hi. lia.
  - intros i b _ _. apply lookup_empty.
  - exists idom. split; [done|]. intros b Hb. apply list_elem_of_lookup in Hb as [i Hi].
    apply (Hs i b); [|done]. rewrite elem_of_seq, length_map. apply lookup_lt_Some in Hi. lia.
Qed.

End Idom.

Lemma computeDom_done {V : Type} `{BitVectorLaws V} F : CFGLaws F -> exists out,
  computeDom (V := V) (length (f_rpo F) * length (f_blocks F) + 2) F = Done out.
Proof.
  intros HF. pose proof (dom_monotone (V := V) F HF) as HM.
  apply (run_done_lemma domTransferFn FORWARD INTERSECTION F (f_blocks F) _ HF _ (dom_initialised F)).
  simpl; lia.
Qed.

(** C5: [computeDom] terminates, and for every reachable block [Y] the test
    [dominates(X, Y)] holds exactly when every path from the entry to [Y] goes
    through [X] before [Y]: it decides strict dominance. *)
Theorem dominance_exact (V : Type) `{BitVectorLaws V} F : CFGLaws F -> exists out,
  computeDom (V := V) (length (f_rpo F) * length (f_blocks F) + 2) F = Done out /\
  forall X Y, X ∈ f_blocks F -> reachable F Y ->
    dominates (Some X) (Some Y) out = true <-> strictDom F X Y.
Proof.
  intros HF. destruct (computeDom_done (V := V) F HF) as [out Hrun]. exists out. split; [exact Hrun|]. intros X Y HX HY.
  destruct (dominates_spec F HF _ out Hrun X Y HY HX) as [[-> ?]|[-> (p & Hp & Hn)]]; [done|].
  split; [done|]. intros Hs. exfalso. by apply Hn, Hs.
Qed.

Lemma dominance_exact_witness :
  strictDom loopF 1 3 /\ strictDom loopF 0 2 /\ ~ strictDom loopF 2 3.
Proof.
  destruct (dominance_exact ListBits.t loopF loopF_laws) as (out & Hrun & Hex).
  vm_compute in Hrun. injection Hrun as Hout. clear - Hex Hout.
  split; [|split].
  - apply (Hex 1 3); [in_list|apply loopF_reach; in_list|]. subst out. vm_compute. reflexivity.
  - apply (Hex 0 2); [in_list|apply loopF_reach; in_list|]. subst out. vm_compute. reflexivity.
  - intros Hs. pose proof (proj2 (Hex 2 3 ltac:(in_list) ltac:(apply loopF_reach; in_list)) Hs) as Hd.
    subst out. vm_compute in Hd. discriminate.
Defined.

(** Finding.  The comment of [dominates] promises dominance, a reflexive
    relation, but the test reads the IN set: no reachable block dominates
    itself according to it. *)
Theorem dominates_not_reflexive (V : Type) `{BitVectorLaws V} F fuel out b :
  CFGLaws F -> computeDom (V := V) fuel F = Done out -> reachable F b ->
  dom F b b /\ dominates (Some b) (Some b) out = false.
Proof.
  intros HF Hrun Hb. split; [intros p _; set_solver|].
  destruct (dominates_spec F HF fuel out Hrun b b Hb) as [[_ Hs]|[-> _]]; [|exfalso|done].
  - by apply reachable_in_blocks.
  - by apply (strictDom_irrefl F b).
Qed.

Lemma dominates_not_reflexive_witness : exists out,
  computeDom (V := ListBits.t) 20 loopF = Done out /\ dominates (Some 1) (Some 1) out = false.
Proof.
  eexists. split; [vm_compute; reflexivity|].
  apply (dominates_not_reflexive ListBits.t loopF 20 _ 1 loopF_laws); [vm_compute; reflexivity|].
  apply loopF_reach. in_list.
Defined.

(** C6: When every block is reachable, [computeIdom] never fails its assertion
    and maps each block except the entry to its immediate dominator: the strict
    dominator that all its other strict dominators strictly dominate. *)
Theorem computeIdom_correct (V : Type) `{BitVectorLaws V} F fuel out :
  CFGLaws F -> (forall b, b ∈ f_blocks F -> reachable F b) ->
  computeDom (V := V) fuel F = Done out ->
  exists idom, computeIdom out = Done idom /\
    forall b, b ∈ f_blocks F ->
      match idom !! Some b with
      | Some (Some a) => isIdom F a b
      | Some None => False
      | None => b = f_front F
      end.
Proof. intros HF Hall Hrun. exact (computeIdom_lemma F HF Hall fuel out Hrun). Qed.

Lemma computeIdom_correct_witness : exists out idom,
  computeDom (V := ListBits.t) 20 loopF = Done out /\ computeIdom out = Done idom /\
  idom !! Some 3 = Some (Some 1) /\ isIdom loopF 1 3.
Proof.
  eexists. edestruct (computeIdom_correct ListBits.t loopF 20) as (idom & Hi & Hs).
  - exact loopF_laws.
  - intros b. apply loopF_reach.
  - vm_compute. reflexivity.
  - exists idom. split; [vm_compute; reflexivity|]. split; [exact Hi|].
    specialize (Hs 3 ltac:(in_list)).
    vm_compute in Hi. injection Hi as <-. split; [reflexivity|exact Hs].
Defined.

(** Finding.  An unreachable block keeps the universal set, so two blocks can
    look like its immediate dominator and the assertion in [computeIdom] fails:
    the diamond [deadF], whose block 4 no path reaches, makes it exit. *)
Theorem computeIdom_unreachable_fails : exists out,
  computeDom (V := ListBits.t) 30 deadF = Done out /\ ~ reachable deadF 4 /\
  computeIdom out = Exited.
Proof.
  eexists. split; [vm_compute; reflexivity|]. split; [|vm_compute; reflexivity].
  rewrite <- deadF_reach. set_solver.
Qed.
