(* ===== verification/BlockSem.v ===== *)
(** * Meaning of basic blocks

    A big-step semantics of the instructions of a block: LLVM LangRef for the
    integer operators, an arbitrary interpretation for everything else.  The
    correctness theorems of the transformations are stated against it. *)

From stdpp Require Import gmap list strings.
From Stdlib Require Import ZArith Lia.
From S2P Require Import Prelude LLVM IR.

#[local] Open Scope Z_scope.

(** The signed reading of a [w]-bit pattern. *)
Definition signed (w c : Z) : Z := if c <? 2 ^ (w - 1) then c else c - 2 ^ w.

(** ** Integer operators *)

Definition inRange (w x : Z) : bool := (0 <=? x) && (x <? 2 ^ w).

(** The integer binary operators on [iN], [None] where the LangRef leaves the
    result undefined: division by zero, overflowing signed division, and shifts
    by the width or more. *)
Definition evalBin (op : BinaryOps) (w x y : Z) : option Z :=
  if inRange w x && inRange w y then
    match op with
    | Add => Some ((x + y) mod 2 ^ w)
    | Sub => Some ((x - y) mod 2 ^ w)
    | Mul => Some ((x * y) mod 2 ^ w)
    | UDiv => if y =? 0 then None else Some (x / y)
    | URem => if y =? 0 then None else Some (x mod y)
    | SDiv =>
        if (y =? 0) || ((signed w x =? - 2 ^ (w - 1)) && (signed w y =? -1)) then None
        else Some (Z.quot (signed w x) (signed w y) mod 2 ^ w)
    | SRem =>
        if (y =? 0) || ((signed w x =? - 2 ^ (w - 1)) && (signed w y =? -1)) then None
        else Some (Z.rem (signed w x) (signed w y) mod 2 ^ w)
    | Shl => if y <? w then Some ((x * 2 ^ y) mod 2 ^ w) else None
    | LShr => if y <? w then Some (x / 2 ^ y) else None
    | AShr => if y <? w then Some ((signed w x / 2 ^ y) mod 2 ^ w) else None
    | And => Some (Z.land x y)
    | Or => Some (Z.lor x y)
    | Xor => Some (Z.lxor x y)
    | _ => None
    end
  else None.

Lemma inRange_iff w x : inRange w x = true <-> 0 <= x < 2 ^ w.
Proof. unfold inRange. rewrite andb_true_iff, Z.leb_le, Z.ltb_lt. lia. Qed.

Lemma evalBin_range op w x y r : evalBin op w x y = Some r -> 0 <= x < 2 ^ w /\ 0 <= y < 2 ^ w.
Proof.
  unfold evalBin. destruct (inRange w x) eqn:Ex, (inRange w y) eqn:Ey; try done.
  apply inRange_iff in Ex, Ey. done.
Qed.

(** Computing with [evalBin] on operands in range. *)
Lemma evalBin_in w x y : 0 <= x < 2 ^ w -> 0 <= y < 2 ^ w ->
  inRange w x && inRange w y = true.
Proof. intros Hx Hy. rewrite andb_true_iff, !inRange_iff. done. Qed.

(** ** Renaming *)

(** Replace every use of an instruction. *)
Definition substV (id : nat) (v : value) (w : value) : value :=
  match w with
  | VInst j => if decide (j = id) then v else w
  | _ => w
  end.
Definition substI (s : value -> value) (i : inst) : inst :=
  mkInst (i_id i) (i_name i) (i_type i) (i_op i) (map s (i_ops i)).

(** ** Executing a block *)

Section Semantics.

(** Values the block does not compute (arguments, globals, ...), the state of
    memory and the outside world, and the meaning of every instruction that is
    not an integer operator: from its opcode, type, address and operand values
    to its result, if it has one, and the new state. *)
Variable ext : value -> option Z.
Variable World : Type.
Variable other : opcode -> option Z -> nat -> World -> list (option Z) -> option (option Z * World).

Abbreviation env := (gmap nat Z).

Definition eval (e : env) (v : value) : option Z :=
  match v with
  | VInst j => e !! j
  | VConstInt _ c => Some c
  | _ => ext v
  end.

Definition setResult (e : env) (id : nat) (r : option Z) : env :=
  match r with Some x => <[id := x]> e | None => e end.

Definition execOther (i : inst) (s : env * World) : option (env * World) :=
  '(r, m) ← other (i_op i) (i_type i) (i_id i) (snd s) (map (eval (fst s)) (i_ops i));
  Some (setResult (fst s) (i_id i) r, m).

(** One instruction.  A phi has its value when the block is entered. *)
Definition execInst (s : env * World) (i : inst) : option (env * World) :=
  match i_op i, i_type i with
  | PHI _, _ => Some s
  | Binary op, Some w =>
      match i_ops i with
      | v1 :: v2 :: _ =>
          x ← eval (fst s) v1; y ← eval (fst s) v2; r ← evalBin op w x y;
          Some (<[i_id i := r]> (fst s), snd s)
      | _ => None
      end
  | _, _ => execOther i s
  end.

Fixpoint execBlock (s : env * World) (l : list inst) : option (env * World) :=
  match l with
  | [] => Some s
  | i :: l' => s' ← execInst s i; execBlock s' l'
  end.

Lemma execBlock_app l1 : forall s l2, execBlock s (l1 ++ l2) = (s' ← execBlock s l1; execBlock s' l2).
Proof.
  induction l1 as [|i l1 IH]; intros s l2; [done|]. simpl. destruct (execInst s i) as [s'|]; [|done].
  simpl. apply IH.
Qed.

(** ** Effects depend on operand values only *)

Lemma substI_id s i : i_id (substI s i) = i_id i.
Proof. done. Qed.

Lemma map_val_subst s l : map i_val (map (substI s) l) = map i_val l.
Proof. rewrite map_map. done. Qed.

Lemma isPHI_subst s i : isPHI (substI s i) = isPHI i.
Proof. done. Qed.

(** An instruction's effect depends on its operands' values only. *)
Lemma execInst_result e m i e' m' : execInst (e, m) i = Some (e', m') -> exists r,
  e' = setResult e (i_id i) r /\
  forall e2 s, (isPHI i = false -> forall v, v ∈ i_ops i -> eval e v = eval e2 (s v)) ->
  execInst (e2, m) (substI s i) = Some (setResult e2 (i_id i) r, m').
Proof.
  assert (Ho : execOther i (e, m) = Some (e', m') -> isPHI i = false -> exists r,
    e' = setResult e (i_id i) r /\
    forall e2 s, (isPHI i = false -> forall v, v ∈ i_ops i -> eval e v = eval e2 (s v)) ->
    execOther (substI s i) (e2, m) = Some (setResult e2 (i_id i) r, m')).
  { unfold execOther. simpl. intros Hx Hp.
    destruct (other _ _ _ _ _) as [[r m2]|] eqn:E; [|done]. simpl in Hx. injection Hx as <- <-.
    exists r. split; [done|]. intros e2 s Hs. rewrite map_map.
    rewrite <- (map_ext_elem _ _ (i_ops i) (Hs Hp)), E. done. }
  unfold execInst, isPHI in *. destruct (i_op i) as [op| | | | | | | | | | |] eqn:Eop;
    try (intros Hx; destruct (Ho Hx eq_refl) as (r & -> & Hr); exists r; split; [done|];
         intros e2 s Hs; cbn [i_op i_type substI]; rewrite Eop; by apply Hr).
  - destruct (i_type i) as [w|] eqn:Et;
      [|intros Hx; destruct (Ho Hx eq_refl) as (r & -> & Hr); exists r; split; [done|];
        intros e2 s Hs; cbn [i_op i_type substI]; rewrite Eop, Et; by apply Hr].
    destruct (i_ops i) as [|v1 [|v2 vs]] eqn:Eops; try done. simpl.
    destruct (eval e v1) as [x|] eqn:E1; [|done]. destruct (eval e v2) as [y|] eqn:E2; [|done]. simpl.
    destruct (evalBin op w x y) as [r|] eqn:Er; [|done]. simpl. intros [= <- <-]. exists (Some r).
    split; [done|]. intros e2 s Hs. cbn [i_op i_type substI i_ops]. rewrite Eop, Et, Eops. simpl.
    rewrite <- (Hs eq_refl v1), <- (Hs eq_refl v2), E1, E2 by set_solver. simpl. by rewrite Er.
  - intros [= <- <-]. exists None. split; [done|]. intros e2 s _. cbn [i_op substI]. by rewrite Eop.
Qed.

Lemma eval_setResult e id r v : v <> VInst id -> eval (setResult e id r) v = eval e v.
Proof. intros Hne. destruct r, v; try done. simpl. apply lookup_insert_ne. congruence. Qed.

Lemma eval_setResult_eq e e' id r : eval e (VInst id) = eval e' (VInst id) ->
  eval (setResult e id r) (VInst id) = eval (setResult e' id r) (VInst id).
Proof. destruct r; simpl; [by rewrite !lookup_insert_eq|done]. Qed.

(** If nothing outside the integer operators touches the world, nothing does. *)
Lemma execInst_world e m i e' m' :
  (forall o t id w vs r w', other o t id w vs = Some (r, w') -> w' = w) ->
  execInst (e, m) i = Some (e', m') -> m' = m.
Proof.
  intros Hpure. assert (Ho : execOther i (e, m) = Some (e', m') -> m' = m).
  { unfold execOther. simpl. destruct (other _ _ _ _ _) as [[r w]|] eqn:E; [|done]. simpl.
    intros [= _ <-]. by eapply Hpure. }
  unfold execInst. destruct (i_op i); try done; [|by intros [= _ <-]].
  destruct (i_type i); [|done]. destruct (i_ops i) as [|v1 [|v2 vs]]; try done. simpl.
  destruct (eval e v1); [|done]. destruct (eval e v2); [|done]. simpl.
  destruct (evalBin _ _ _ _); [|done]. simpl. by intros [= _ <-].
Qed.

End Semantics.
