(* ===== verification/LocalOpts.v ===== *)
(** * Local optimizations: asst1/LocalOpts/LocalOpts.cpp

    The three rewriting passes over a basic block and the loop of
    [runOnModule] that drives them.  A function is the list of its blocks, a
    block the list of its instructions; instruction names play no part in the
    pass (they only occur in [DBG] output) and are empty here. *)

From stdpp Require Import gmap list strings.
From Stdlib Require Import ZArith Lia.
From S2P Require Import Prelude LLVM IR BlockSem.

#[local] Open Scope Z_scope.

(** ** Machine integers *)

(** [int64_t] arithmetic, wrapping around. *)
Definition wrap64 (z : Z) : Z := signed 64 (z mod 2 ^ 64).

Definition int64 (z : Z) : Prop := - 2 ^ 63 <= z < 2 ^ 63.

(** ** What the pass uses of LLVM *)

Abbreviation func := (list (list inst)).

(** Apply a renaming to a function. *)
Definition substF (s : value -> value) (F : func) : func := map (map (substI s)) F.

(** Edit one block of a function. *)
Definition onBlock (b : nat) (g : list inst -> list inst) (F : func) : func := alter g b F.
Definition insertAt (k : nat) (I : inst) (l : list inst) : list inst := take k l ++ I :: drop k l.
Definition eraseAt (k : nat) (l : list inst) : list inst := take k l ++ drop (S k) l.
Definition instAt (F : func) (b k : nat) : option inst := l ← F !! b; l !! k.

(** llvm/IR/Constants.h and llvm/Transforms/Utils/BasicBlockUtils.h.  Block and
    instruction iterators are positions. *)
Class LocalOptsAPI := {
  getSExtValue : value -> Z;
  ConstantInt_get : Z -> Z -> value;                       (* (IntegerType*, uint64_t) *)
  insertBefore : func -> nat -> nat -> inst -> func;       (* getInstList().insert(BI, I) *)
  ReplaceInstWithValue : func -> nat -> nat -> value -> func;
  ReplaceInstWithInst : func -> nat -> nat -> inst -> func
}.

Class LocalOptsLaws `{LocalOptsAPI} : Prop := {
  getSExtValue_spec w c : 1 <= w <= 64 -> 0 <= c < 2 ^ w -> getSExtValue (VConstInt w c) = signed w c;
  ConstantInt_get_spec w v : 1 <= w <= 64 -> 0 <= v < 2 ^ 64 -> ConstantInt_get w v = VConstInt w (v mod 2 ^ w);
  insertBefore_spec F b k I : insertBefore F b k I = onBlock b (insertAt k I) F;
  (** all uses are replaced, and the instruction is removed and deleted *)
  ReplaceInstWithValue_spec F b k v insn : instAt F b k = Some insn ->
    ReplaceInstWithValue F b k v = onBlock b (eraseAt k) (substF (substV (i_id insn) v) F);
  (** the new instruction takes the place of the old one, in the block and in
      every use *)
  ReplaceInstWithInst_spec F b k J insn : instAt F b k = Some insn ->
    ReplaceInstWithInst F b k J =
      onBlock b (eraseAt (S k)) (substF (substV (i_id insn) (i_val J)) (onBlock b (insertAt k J) F))
}.

Module PlainAPI.

#[global] Instance api : LocalOptsAPI := {
  getSExtValue v := match v with VConstInt w c => signed w c | _ => 0 end;
  ConstantInt_get w v := VConstInt w (v mod 2 ^ w);
  insertBefore F b k I := onBlock b (insertAt k I) F;
  ReplaceInstWithValue F b k v :=
    match instAt F b k with
    | Some insn => onBlock b (eraseAt k) (substF (substV (i_id insn) v) F)
    | None => F
    end;
  ReplaceInstWithInst F b k J :=
    match instAt F b k with
    | Some insn =>
        onBlock b (eraseAt (S k)) (substF (substV (i_id insn) (i_val J)) (onBlock b (insertAt k J) F))
    | None => F
    end
}.

#[global] Instance laws : LocalOptsLaws.
Proof. split; [done..| |]; intros F b k v insn Hi; simpl; by rewrite Hi. Qed.

End PlainAPI.

(** ** find_log and find_log_improved *)

(** [while (((n & 1) == 0) && n > 1) { n >>= 1; ++res; }] *)
Fixpoint log_loop (fuel : nat) (n res : Z) : option (Z * Z) :=
  match fuel with
  | O => None
  | S fuel' =>
      if (Z.land n 1 =? 0) && (1 <? n) then log_loop fuel' (Z.shiftr n 1) (wrap64 (res + 1))
      else Some (n, res)
  end.

(** 64 rounds are enough for any [int64_t]. *)
Definition find_log (n : Z) : Z :=
  if n <=? 0 then -1
  else
    match log_loop 64 n 0 with
    | Some (n', res) => if n' =? 1 then res else -1
    | None => -1
    end.

(** The result and the final value of the reference argument [exponent]. *)
Definition find_log_improved (n exponent : Z) : Z * Z :=
  if n <=? 0 then (-1, exponent)
  else
    let exponent := find_log n in
    if 0 <=? exponent then (0, exponent)
    else
      let exponent := find_log (wrap64 (n - 1)) in
      if 0 <=? exponent then (1, exponent)
      else
        let exponent := find_log (wrap64 (n + 1)) in
        if 0 <=? exponent then (-1, exponent)
        else (-2, exponent).

(** ** The passes *)

Record LocalOptsInfoStruct := mkInfo {
  numAlgebraicOpts : Z;
  numConstantFolds : Z;
  numStrengthReds : Z
}.

(** The module under transformation: a function, the next free address and the
    statistics. *)
Record state := mkState {
  st_func : func;
  st_next : nat;
  st_info : LocalOptsInfoStruct
}.

Definition countAlgebraic (i : LocalOptsInfoStruct) : LocalOptsInfoStruct :=
  mkInfo (numAlgebraicOpts i + 1) (numConstantFolds i) (numStrengthReds i).
Definition countFold (i : LocalOptsInfoStruct) : LocalOptsInfoStruct :=
  mkInfo (numAlgebraicOpts i) (numConstantFolds i + 1) (numStrengthReds i).
Definition countReduction (i : LocalOptsInfoStruct) : LocalOptsInfoStruct :=
  mkInfo (numAlgebraicOpts i) (numConstantFolds i) (numStrengthReds i + 1).

(** [ConstantInt::classof] *)
Definition isConst (v : value) : bool := match v with VConstInt _ _ => true | _ => false end.

(** [ci->getValue().eq(APInt(w, c))] *)
Definition constIs (v : value) (c : Z) : bool :=
  match v with VConstInt _ c' => c' =? c | _ => false end.

(** The cases of the switch of [algebraic_optimizations]: the value an
    instruction of type [iN] is replaced by. *)
Definition addRule (val1 val2 : value) : option value :=
  if isConst val1 then if constIs val1 0 then Some val2 else None
  else if isConst val2 then if constIs val2 0 then Some val1 else None
  else None.

Definition subRule (ci_zero val1 val2 : value) : option value :=
  if isConst val2 then if constIs val2 0 then Some val1 else None
  else if decide (val1 = val2) then Some ci_zero
  else None.

Definition mulRule (ci_zero val1 val2 : value) : option value :=
  if isConst val2 then
    if constIs val2 1 then Some val1
    else if constIs val2 0 then Some ci_zero else None
  else if isConst val1 then
    if constIs val1 1 then Some val2
    else if constIs val1 0 then Some ci_zero else None
  else None.

Definition divRule (ci_zero ci_one val1 val2 : value) : option value :=
  if isConst val2 then if constIs val2 1 then Some val1 else None
  else if isConst val1 then if constIs val1 0 then Some ci_zero else None
  else if decide (val1 = val2) then Some ci_one
  else None.

Definition andRule (ci_zero val1 val2 : value) : option value :=
  if isConst val2 then if constIs val2 0 then Some ci_zero else None
  else if isConst val1 then if constIs val1 0 then Some ci_zero else None
  else None.

Definition orRule (val1 val2 : value) : option value :=
  if isConst val2 then if constIs val2 0 then Some val1 else None
  else if isConst val1 then if constIs val1 0 then Some val2 else None
  else None.

Definition xorRule (val1 val2 : value) : option value :=
  if isConst val2 then if constIs val2 0 then Some val1 else None
  else if isConst val1 then if constIs val1 0 then Some val2 else None
  else None.

Definition algebraicRule (w : Z) (op : BinaryOps) (val1 val2 : value) : option value :=
  let ci_zero := VConstInt w 0 in
  let ci_one := VConstInt w 1 in
  match op with
  | Add => addRule val1 val2
  | Sub => subRule ci_zero val1 val2
  | Mul => mulRule ci_zero val1 val2
  | UDiv | SDiv => divRule ci_zero ci_one val1 val2
  | And => andRule ci_zero val1 val2
  | Or => orRule val1 val2
  | Xor => xorRule val1 val2
  | _ => None
  end.

Section Passes.
Context `{LocalOptsAPI}.

(** What an undefined shift of C++ yields. *)
Variable ub : Z -> Z -> Z.

(** [get_const(t, val)] with an [int64_t] argument. *)
Definition get_const (w val : Z) : value := ConstantInt_get w (val mod 2 ^ 64).

(** [a << b] and [a >> b] on [int64_t]. *)
Definition shl64 (a b : Z) : Z := if (0 <=? b) && (b <? 64) then wrap64 (a * 2 ^ b) else ub a b.
Definition shr64 (a b : Z) : Z := if (0 <=? b) && (b <? 64) then Z.shiftr a b else ub a b.

(** The switch of [constant_folding] on two constants of type [iN]; [None] is
    [known_inst = false].  [INT64_MIN / -1] traps. *)
Definition foldConstants (w : Z) (op : BinaryOps) (val1 val2 : value) : outcome (option value) :=
  let a := getSExtValue val1 in
  let b := getSExtValue val2 in
  match op with
  | Add => Done (Some (get_const w (wrap64 (a + b))))
  | Sub => Done (Some (get_const w (wrap64 (a - b))))
  | Mul => Done (Some (get_const w (wrap64 (a * b))))
  | UDiv | SDiv =>
      if b =? 0 then Done None
      else if (a =? - 2 ^ 63) && (b =? -1) then Exited
      else Done (Some (get_const w (Z.quot a b)))
  | Shl => Done (Some (get_const w (shl64 a b)))
  | LShr => Done (Some (get_const w (shr64 a b)))
  | _ => Done None
  end.

(** An operand's type, for the constants folding looks at. *)
Definition constWidth (v : value) : Z := match v with VConstInt w _ => w | _ => 0 end.

(** The switch of [strength_reduction]: the instructions created for an
    instruction of type [ty], at the addresses from [next] on.  The last one
    replaces it. *)
Definition createBinary (id : nat) (ty : option Z) (op : BinaryOps) (v1 v2 : value) : inst :=
  mkInst id "" ty (Binary op) [v1; v2].

Definition reduceRule (next : nat) (ty : option Z) (op : BinaryOps) (val1 val2 : value)
  : option (list inst) :=
  match op with
  | Mul =>
      let '(val1, val2) := if isConst val1 then (val2, val1) else (val1, val2) in
      if isConst val2 then
        let '(check_pow, log_i) := find_log_improved (getSExtValue val2) 0 in
        if check_pow =? -2 then None
        else
          let modified_inst := createBinary next ty Shl val1 (get_const (constWidth val2) log_i) in
          if check_pow =? 0 then Some [modified_inst]
          else if check_pow =? 1 then
            Some [modified_inst; createBinary (S next) ty Add (VInst next) val1]
          else
            Some [modified_inst; createBinary (S next) ty Sub (VInst next) val1]
      else None
  | UDiv | SDiv =>
      if isConst val2 then
        let log_i := find_log (getSExtValue val2) in
        if 0 <=? log_i then
          Some [createBinary next ty LShr val1 (get_const (constWidth val2) log_i)]
        else None
      else None
  | _ => None
  end.

(** The loops.  [n] bounds the instructions still to visit, [k] is [BI]; the
    flag is [modified]. *)
Fixpoint algebraicLoop (n b k : nat) (modified : bool) (st : state) : bool * state :=
  match n with
  | O => (modified, st)
  | S n' =>
      match instAt (st_func st) b k with
      | None => (modified, st)
      | Some insn =>
          match asBinary insn, i_type insn, i_ops insn with
          | Some op, Some w, val1 :: val2 :: _ =>
              match algebraicRule w op val1 val2 with
              | Some v =>
                  algebraicLoop n' b k true
                    (mkState (ReplaceInstWithValue (st_func st) b k v) (st_next st)
                             (countAlgebraic (st_info st)))
              | None => algebraicLoop n' b (S k) modified st
              end
          | _, _, _ => algebraicLoop n' b (S k) modified st
          end
      end
  end.

Fixpoint foldingLoop (n b k : nat) (modified : bool) (st : state) : outcome (bool * state) :=
  match n with
  | O => Done (modified, st)
  | S n' =>
      match instAt (st_func st) b k with
      | None => Done (modified, st)
      | Some insn =>
          match asBinary insn, i_ops insn with
          | Some op, val1 :: val2 :: _ =>
              if negb (isConst val1) || negb (isConst val2) then foldingLoop n' b (S k) modified st
              else
                obind (foldConstants (constWidth val1) op val1 val2) (fun r =>
                match r with
                | Some ci_final =>
                    foldingLoop n' b k true
                      (mkState (ReplaceInstWithValue (st_func st) b k ci_final) (st_next st)
                               (countFold (st_info st)))
                | None => foldingLoop n' b (S k) modified st
                end)
          | _, _ => foldingLoop n' b (S k) modified st
          end
      end
  end.

(** [inst_removed] is never set, so the pass always reports no modification. *)
Fixpoint reductionLoop (n b k : nat) (st : state) : bool * state :=
  match n with
  | O => (false, st)
  | S n' =>
      match instAt (st_func st) b k with
      | None => (false, st)
      | Some insn =>
          match asBinary insn, i_ops insn with
          | Some op, val1 :: val2 :: _ =>
              match reduceRule (st_next st) (i_type insn) op val1 val2 with
              | Some [J] =>
                  reductionLoop n' b (S k)
                    (mkState (ReplaceInstWithInst (st_func st) b k J) (S (st_next st))
                             (countReduction (st_info st)))
              | Some [modified_inst; final_inst] =>
                  reductionLoop n' b (S (S k))
                    (mkState (ReplaceInstWithInst (insertBefore (st_func st) b k modified_inst)
                                b (S k) final_inst)
                             (S (S (st_next st))) (countReduction (st_info st)))
              | _ => reductionLoop n' b (S k) st
              end
          | _, _ => reductionLoop n' b (S k) st
          end
      end
  end.

Definition blockLen (st : state) (b : nat) : nat := length (default [] (st_func st !! b)).

(** Each round of a loop leaves one instruction fewer ahead of the iterator, so
    the length of the block bounds the rounds. *)
Definition algebraic_optimizations (b : nat) (st : state) : bool * state :=
  algebraicLoop (blockLen st b) b 0 false st.
Definition constant_folding (b : nat) (st : state) : outcome (bool * state) :=
  foldingLoop (blockLen st b) b 0 false st.
Definition strength_reduction (b : nat) (st : state) : bool * state :=
  reductionLoop (blockLen st b) b 0 st.

(** ** runOnModule *)

(** The body of [while(1)]: [||] does not call the later passes once one of
    them has modified the block. *)
Definition runPasses (b : nat) (st : state) : outcome (bool * state) :=
  let '(modified, st) := algebraic_optimizations b st in
  obind (if modified then Done (modified, st) else constant_folding b st) (fun r =>
  let '(modified, st) := r in
  if modified then Done (modified, st) else Done (strength_reduction b st)).

Fixpoint optimizeBlock (fuel : nat) (b : nat) (st : state) : outcome state :=
  match fuel with
  | O => OutOfFuel
  | S fuel' =>
      obind (runPasses b st) (fun r =>
      let '(modified, st) := r in
      if modified then optimizeBlock fuel' b st else Done st)
  end.

(** The loop over the blocks of a function.  A round that does not end the
    [while] removes an instruction. *)
Fixpoint optimizeBlocks (bs : list nat) (st : state) : outcome state :=
  match bs with
  | [] => Done st
  | b :: bs' => obind (optimizeBlock (S (blockLen st b)) b st) (optimizeBlocks bs')
  end.

Definition optimizeFunction (F : func) (next : nat) (info : LocalOptsInfoStruct) : outcome state :=
  optimizeBlocks (seq 0 (length F)) (mkState F next info).

(** [runOnModule]: the functions in turn, with the statistics carried over; the
    pass reports a modification in any case. *)
Fixpoint optimizeFunctions (M : list func) (next : nat) (info : LocalOptsInfoStruct)
  : outcome (list func * LocalOptsInfoStruct) :=
  match M with
  | [] => Done ([], info)
  | F :: M' =>
      obind (optimizeFunction F next info) (fun st =>
      obind (optimizeFunctions M' (st_next st) (st_info st)) (fun r =>
      Done (st_func st :: fst r, snd r)))
  end.

Definition printLocalOptsSummary (i : LocalOptsInfoStruct) : list string :=
  ["Transformations applied:"%string;
   ("Algebraic identities: " ++ pretty.pretty (numAlgebraicOpts i))%string;
   ("Constant folding: " ++ pretty.pretty (numConstantFolds i))%string;
   ("Strength reduction: " ++ pretty.pretty (numStrengthReds i))%string].

Definition runOnModule (M : list func) (next : nat) : outcome (list func * list string * bool) :=
  obind (optimizeFunctions M next (mkInfo 0 0 0)) (fun r =>
  Done (fst r, printLocalOptsSummary (snd r), true)).

End Passes.

(** ** Powers of two *)

Lemma wrap64_id z : int64 z -> wrap64 z = z.
Proof.
  unfold int64, wrap64, signed. intros Hz. change (2 ^ (64 - 1)) with (2 ^ 63).
  destruct (Z.ltb_spec (z mod 2 ^ 64) (2 ^ 63)) as [Hl|Hl]; destruct (Z_lt_le_dec z 0).
  - rewrite <- (Z.mod_unique z (2 ^ 64) (-1) (z + 2 ^ 64)) in Hl by lia. lia.
  - apply Z.mod_small. lia.
  - rewrite <- (Z.mod_unique z (2 ^ 64) (-1) (z + 2 ^ 64)) by lia. lia.
  - rewrite Z.mod_small in Hl by lia. lia.
Qed.

Lemma pow2_divide w v : 0 <= w <= v -> (2 ^ w | 2 ^ v).
Proof. intros Hw. exists (2 ^ (v - w)). rewrite <- Z.pow_add_r by lia. f_equal. lia. Qed.

Lemma mod_mod_pow2 w v z : 0 <= w <= v -> (z mod 2 ^ v) mod 2 ^ w = z mod 2 ^ w.
Proof.
  intros Hw. symmetry. apply Znumtheory.Zmod_div_mod; [apply Z.pow_pos_nonneg; lia..|].
  by apply pow2_divide.
Qed.

Lemma wrap64_mod w z : 1 <= w <= 64 -> wrap64 z mod 2 ^ w = z mod 2 ^ w.
Proof.
  intros Hw. unfold wrap64, signed. rewrite <- (mod_mod_pow2 w 64 z) by lia.
  destruct (_ <? _); [done|]. destruct (pow2_divide w 64) as [q ->]; [lia|].
  rewrite <- (Z_mod_plus_full (_ - _) q). f_equal. lia.
Qed.

Lemma signed_mod w c : 0 <= w -> signed w c mod 2 ^ w = c mod 2 ^ w.
Proof.
  intros Hw. unfold signed. destruct (_ <? _); [done|].
  rewrite <- (Z_mod_plus_full (c - 2 ^ w) 1). f_equal. lia.
Qed.

Lemma signed_range w c : 1 <= w -> 0 <= c < 2 ^ w -> - 2 ^ (w - 1) <= signed w c < 2 ^ (w - 1).
Proof.
  intros Hw Hc. unfold signed. assert (2 ^ w = 2 * 2 ^ (w - 1)).
  { rewrite <- Z.pow_succ_r by lia. f_equal. lia. }
  destruct (Z.ltb_spec c (2 ^ (w - 1))); lia.
Qed.

Lemma signed_int64 w c : 1 <= w <= 64 -> 0 <= c < 2 ^ w -> int64 (signed w c).
Proof.
  intros Hw Hc. pose proof (signed_range w c ltac:(lia) Hc). unfold int64.
  assert (2 ^ (w - 1) <= 2 ^ 63) by (apply Z.pow_le_mono_r; lia). lia.
Qed.

(** The loop divides out the powers of two. *)
Lemma log_loop_spec fuel : forall n res, 0 < n < 2 ^ Z.of_nat fuel -> 0 <= res ->
  res + Z.of_nat fuel < 2 ^ 63 ->
  exists m k, log_loop fuel n res = Some (m, res + k) /\ 0 <= k < Z.of_nat fuel /\
    n = m * 2 ^ k /\ Z.odd m = true /\ 0 < m.
Proof.
  induction fuel as [|fuel IH]; intros n res Hn Hres Hb; [simpl in Hn; lia|].
  cbn [log_loop]. rewrite Nat2Z.inj_succ, Z.pow_succ_r in Hn by lia.
  change (Z.land n 1) with (Z.land n (Z.ones 1)). rewrite (Z.land_ones n 1) by lia.
  change (2 ^ 1) with 2.
  destruct (Z.odd n) eqn:Eo.
  - rewrite Zmod_odd, Eo. simpl. exists n, 0. rewrite Z.add_0_r, Z.mul_1_r. repeat split; try done; lia.
  - rewrite Zmod_odd, Eo. rewrite <- Z.negb_even, negb_false_iff in Eo. apply Z.even_spec in Eo as [h ->].
    rewrite (proj2 (Z.ltb_lt 1 (2 * h))) by lia. simpl.
    rewrite Z.shiftr_div_pow2 by lia. change (2 ^ 1) with 2. rewrite Z.mul_comm, Z.div_mul by lia.
    rewrite wrap64_id by (unfold int64; lia).
    destruct (IH h (res + 1)) as (m & k & -> & Hk & -> & Hm & Hp); [lia..|].
    exists m, (k + 1). split; [f_equal; f_equal; lia|]. split; [lia|].
    rewrite Z.pow_add_r by lia. split; [|done]. lia.
Qed.

Lemma odd_pow2 m k j : 0 <= k -> 0 <= j -> Z.odd m = true -> m * 2 ^ k = 2 ^ j -> m = 1.
Proof.
  intros Hk Hj Hm E. assert (0 < m) by (pose proof (Z.pow_pos_nonneg 2 k); pose proof (Z.pow_pos_nonneg 2 j); nia).
  assert (k <= j).
  { apply (Z.pow_le_mono_r_iff 2); [lia|lia|]. pose proof (Z.pow_pos_nonneg 2 k). nia. }
  replace j with ((j - k) + k) in E by lia. rewrite Z.pow_add_r in E by lia.
  apply Z.mul_reg_r in E; [|pose proof (Z.pow_pos_nonneg 2 k); lia]. subst m.
  destruct (Z.eq_dec (j - k) 0) as [->|Hne]; [done|].
  rewrite Z.odd_pow in Hm by lia. done.
Qed.

(** [find_log] on the whole range of its argument. *)
Lemma find_log_cases n : int64 n ->
  (exists k, 0 <= k < 63 /\ n = 2 ^ k /\ find_log n = k) \/
  (find_log n = -1 /\ forall k, 0 <= k -> n <> 2 ^ k).
Proof.
  unfold int64. intros Hn. unfold find_log. destruct (Z.leb_spec n 0) as [Hle|Hgt].
  { right. split; [done|]. intros k Hk ->. pose proof (Z.pow_pos_nonneg 2 k). lia. }
  destruct (log_loop_spec 64 n 0) as (m & k & -> & Hk & -> & Hm & Hp); [|lia|lia|].
  { split; [lia|]. apply (Z.lt_trans _ (2 ^ 63)); [lia|]. apply Z.pow_lt_mono_r; lia. }
  destruct (Z.eqb_spec m 1) as [->|Hne].
  - left. exists k. rewrite Z.mul_1_l in *. split; [|done].
    split; [lia|]. apply (Z.pow_lt_mono_r_iff 2); lia.
  - right. split; [done|]. intros j Hj E. apply Hne. apply (odd_pow2 m k j); [lia|done..].
Qed.

(** [find_log] returns the exponent of a positive power of two and -1 for
    every other [int64_t]; its loop ends within 64 rounds. *)
Theorem find_log_spec n : - 2 ^ 63 <= n < 2 ^ 63 ->
  (forall k, 0 <= k -> find_log n = k <-> n = 2 ^ k) /\
  (find_log n = -1 <-> forall k, 0 <= k -> n <> 2 ^ k).
Proof.
  intros Hn. destruct (find_log_cases n Hn) as [(j & Hj & -> & ->)|[-> Hno]].
  - split.
    + intros k Hk. split; [by intros ->|]. intros E. apply (Z.pow_inj_r 2); lia.
    + split; [lia|]. intros Hk. by destruct (Hk j); [lia|].
  - split; [|done]. intros k Hk. split; [lia|]. intros E. by destruct (Hno k Hk).
Qed.

Lemma find_log_spec_witness : find_log 64 = 6 /\ find_log 96 = -1.
Proof.
  split.
  - apply (find_log_spec 64); [lia|lia|reflexivity].
  - apply (find_log_spec 96); [lia|]. intros k Hk E.
    destruct (Z_lt_le_dec k 7) as [Hl|Hl].
    + assert (2 ^ k <= 2 ^ 6) by (apply Z.pow_le_mono_r; lia). lia.
    + assert (2 ^ 7 <= 2 ^ k) by (apply Z.pow_le_mono_r; lia). lia.
Defined.

(** What the result of [find_log_improved] says about a positive argument. *)
Definition improvedMeaning (n : Z) (r : Z * Z) : Prop :=
  let '(check, e) := r in
  (check = 0 /\ 0 <= e < 63 /\ n = 2 ^ e) \/
  (check = 1 /\ 0 <= e < 63 /\ n = 2 ^ e + 1) \/
  (check = -1 /\ 0 <= e < 63 /\ n = 2 ^ e - 1) \/
  (check = -2 /\ forall k, 0 <= k < 63 -> n <> 2 ^ k /\ n <> 2 ^ k + 1 /\ n <> 2 ^ k - 1).

Lemma find_log_improved_cases n e0 : 0 < n < 2 ^ 63 -> improvedMeaning n (find_log_improved n e0).
Proof.
  intros Hn. unfold find_log_improved. rewrite (proj2 (Z.leb_gt n 0)) by lia.
  destruct (find_log_cases n) as [(k & Hk & E & ->)|[-> H0]]; [unfold int64; lia| |].
  { rewrite (proj2 (Z.leb_le 0 k)) by lia. left. auto. }
  cbn [Z.leb Z.compare]. rewrite wrap64_id by (unfold int64; lia).
  destruct (find_log_cases (n - 1)) as [(k & Hk & E & ->)|[-> H1]]; [unfold int64; lia| |].
  { rewrite (proj2 (Z.leb_le 0 k)) by lia. right. left. split; [done|]. split; [done|]. lia. }
  cbn [Z.leb Z.compare]. assert (Hw : int64 (wrap64 (n + 1)) /\ (n + 1 < 2 ^ 63 -> wrap64 (n + 1) = n + 1)).
  { split; [|intros; apply wrap64_id; unfold int64; lia].
    unfold wrap64. apply signed_int64; [lia|]. apply Z.mod_pos_bound. lia. }
  destruct Hw as [Hi Hw].
  destruct (find_log_cases (wrap64 (n + 1)) Hi) as [(k & Hk & E & ->)|[-> H2]].
  - rewrite (proj2 (Z.leb_le 0 k)) by lia. right. right. left. split; [done|]. split; [done|].
    destruct (Z_lt_le_dec (n + 1) (2 ^ 63)) as [Hl|Hl]; [rewrite Hw in E by done; lia|].
    exfalso. assert (n + 1 = 2 ^ 63) as E' by lia. rewrite E' in E.
    change (wrap64 (2 ^ 63)) with (- 2 ^ 63) in E. pose proof (Z.pow_pos_nonneg 2 k). lia.
  - right. right. right. split; [done|]. intros k Hk.
    assert (2 ^ k < 2 ^ 63) by (apply Z.pow_lt_mono_r; lia).
    split; [apply H0; lia|]. split; [intros E; apply (H1 k); lia|].
    intros E. apply (H2 k); [lia|]. rewrite Hw; lia.
Qed.

(** On positive arguments [find_log_improved] recognises exactly the numbers
    2^k, 2^k + 1 and 2^k - 1 with 2^k an [int64_t], and reports which of them
    together with k. *)
Theorem find_log_improved_spec n e0 : 0 < n < 2 ^ 63 ->
  improvedMeaning n (find_log_improved n e0).
Proof. apply find_log_improved_cases. Qed.

Lemma find_log_improved_spec_witness :
  improvedMeaning 31 (find_log_improved 31 0) /\ find_log_improved 31 0 = (-1, 5).
Proof. split; [apply (find_log_improved_spec 31 0); lia|reflexivity]. Defined.

(** Finding.  The comment promises -2 when the argument is not of the form
    2^k, 2^k + 1 or 2^k - 1, but a negative argument yields -1, the code of
    2^k - 1, with the exponent left as the caller set it. *)
Theorem find_log_improved_nonpositive n e0 : n <= 0 ->
  find_log_improved n e0 = (-1, e0) /\ (n < 0 -> forall k, 0 <= k -> n <> 2 ^ k - 1).
Proof.
  intros Hn. split.
  - unfold find_log_improved. by rewrite (proj2 (Z.leb_le n 0)).
  - intros Hneg k Hk ->. pose proof (Z.pow_pos_nonneg 2 k). lia.
Qed.

Lemma find_log_improved_nonpositive_witness : find_log_improved (-3) 0 = (-1, 0).
Proof. apply (find_log_improved_nonpositive (-3) 0). lia. Defined.
