(* ===== verification/LocalOptsSem.v ===== *)
(** * The local optimizations preserve the meaning of a block

    The simulation between a block and its rewriting over the semantics of
    BlockSem.v, and preservation by the passes of LocalOpts.v. *)

From stdpp Require Import gmap list strings.
From Stdlib Require Import ZArith Lia.
From S2P Require Import Prelude LLVM IR BlockSem LocalOpts.

#[local] Open Scope Z_scope.

(** ** Each algebraic identity *)

(** What an operand evaluates to: its value in an environment, or the constant
    it is. *)
Definition denotes (ev : value -> option Z) : Prop := forall w c, ev (VConstInt w c) = Some c.

Lemma constIs_eval ev v c x : denotes ev -> constIs v c = true -> ev v = Some x -> x = c.
Proof.
  intros Hd. destruct v as [| |w c'|]; try done. simpl. rewrite Z.eqb_eq, Hd. intros -> [= <-]. done.
Qed.

Lemma signed_zero w : 1 <= w -> signed w 0 = 0.
Proof. intros Hw. unfold signed. by rewrite (proj2 (Z.ltb_lt 0 (2 ^ (w - 1)))) by (apply Z.pow_pos_nonneg; lia). Qed.

Lemma signed_eq_zero w c : 1 <= w -> 0 <= c < 2 ^ w -> signed w c = 0 <-> c = 0.
Proof.
  intros Hw Hc. split; [|intros ->; by apply signed_zero]. unfold signed.
  destruct (_ <? _); lia.
Qed.

Lemma mod_signed w c : 1 <= w -> 0 <= c < 2 ^ w -> signed w c mod 2 ^ w = c.
Proof. intros Hw Hc. rewrite signed_mod by lia. by apply Z.mod_small. Qed.

(** Division by the constant one: in [i1] the pattern 1 reads as -1, and only
    the undefined case differs. *)
Lemma sdiv_one w x r : 1 <= w -> evalBin SDiv w x 1 = Some r -> r = x.
Proof.
  intros Hw E. destruct (evalBin_range _ _ _ _ _ E) as [Hx Hy]. revert E.
  unfold evalBin. rewrite evalBin_in by done. simpl.
  destruct (Z.eq_dec w 1) as [->|Hne].
  - assert (x = 0 \/ x = 1) as [-> | ->] by lia; vm_compute; [by intros [= <-]|done].
  - assert (2 ^ 1 <= 2 ^ (w - 1)) by (apply Z.pow_le_mono_r; lia).
    assert (E1 : signed w 1 = 1) by (unfold signed; rewrite (proj2 (Z.ltb_lt 1 _)); lia).
    rewrite E1, andb_false_r, Z.quot_1_r. intros [= <-]. by apply mod_signed.
Qed.

Lemma sdiv_self w x r : 1 <= w -> evalBin SDiv w x x = Some r -> r = 1.
Proof.
  intros Hw E. destruct (evalBin_range _ _ _ _ _ E) as [Hx _]. revert E.
  unfold evalBin. rewrite evalBin_in by done.
  destruct (Z.eqb_spec x 0) as [|Hne]; [done|]. simpl. destruct (_ && _); [done|].
  rewrite Z.quot_same by (rewrite signed_eq_zero; lia).
  rewrite Z.mod_small; [by intros [= <-]|]. assert (2 ^ 1 <= 2 ^ w) by (apply Z.pow_le_mono_r; lia). lia.
Qed.

Lemma sdiv_zero w y r : 1 <= w -> evalBin SDiv w 0 y = Some r -> r = 0.
Proof.
  intros Hw E. destruct (evalBin_range _ _ _ _ _ E) as [Hx Hy]. revert E.
  unfold evalBin. rewrite evalBin_in by done.
  destruct (Z.eqb_spec y 0) as [|Hne]; [done|]. cbn [orb]. destruct (_ && _); [done|].
  rewrite signed_zero, Z.quot_0_l, Z.mod_0_l by (rewrite ?signed_eq_zero; lia). by intros [= <-].
Qed.

Lemma udiv_self w x r : evalBin UDiv w x x = Some r -> r = 1.
Proof.
  unfold evalBin. destruct (_ && _); [|done]. destruct (Z.eqb_spec x 0); [done|].
  rewrite Z.div_same by done. by intros [= <-].
Qed.

Lemma udiv_zero w y r : evalBin UDiv w 0 y = Some r -> r = 0.
Proof. unfold evalBin. destruct (_ && _); [|done]. destruct (Z.eqb_spec y 0); [done|]. by intros [= <-]. Qed.

Ltac rule_cases :=
  repeat match goal with
  | |- context [if isConst ?v then _ else _] => destruct (isConst v)
  | |- context [if constIs ?v ?c then _ else _] => destruct (constIs v c) eqn:?
  | |- context [if decide (?u = ?v) then _ else _] => destruct (decide (u = v))
  end; try (intros [=]; done).

(** Replacing an operand known to be 0 or 1. *)
Ltac const_operands Hd :=
  repeat match goal with
  | Hc : constIs ?v ?c = true, He : _ ?v = Some ?x |- _ =>
      assert (x = c) by (exact (constIs_eval _ v c x Hd Hc He)); clear Hc; subst x
  end.

Lemma algebraicRule_sound ev w op v1 v2 v x y r : 1 <= w -> denotes ev ->
  algebraicRule w op v1 v2 = Some v -> ev v1 = Some x -> ev v2 = Some y ->
  evalBin op w x y = Some r -> ev v = Some r.
Proof.
  intros Hw Hd Hr Hx Hy E. destruct (evalBin_range _ _ _ _ _ E) as [Rx Ry].
  assert (Hev : forall c, ev (VConstInt w c) = Some c) by by intros c.
  revert Hr E. unfold algebraicRule, addRule, subRule, mulRule, divRule, andRule, orRule, xorRule. destruct op; try done; rule_cases; intros [= <-] E; subst;
    const_operands Hd; rewrite ?Hev, ?Hx, ?Hy; try (rewrite Hx in Hy; injection Hy as <-);
    try (apply sdiv_one in E; [by subst|done]); try (apply sdiv_self in E; [by subst|done]);
    try (apply sdiv_zero in E; [by subst|done]); try (apply udiv_self in E; by subst);
    try (apply udiv_zero in E; by subst);
    revert E; unfold evalBin; rewrite evalBin_in by lia;
    rewrite ?Z.add_0_l, ?Z.add_0_r, ?Z.sub_0_r, ?Z.sub_diag, ?Z.mul_1_l, ?Z.mul_1_r, ?Z.mul_0_l,
      ?Z.mul_0_r, ?Z.div_1_r, ?Z.land_0_r, ?Z.land_0_l, ?Z.lor_0_r, ?Z.lor_0_l, ?Z.lxor_0_r,
      ?Z.lxor_0_l, ?Z.mod_0_l, ?Z.mod_small by (done || lia); by intros [= <-].
Qed.

(** ** Constant folding *)

Section Folding.
Context `{LocalOptsLaws}.
Variable ub : Z -> Z -> Z.

Lemma get_const_spec w val : 1 <= w <= 64 -> get_const w val = VConstInt w (val mod 2 ^ w).
Proof.
  intros Hw. unfold get_const. rewrite ConstantInt_get_spec; [|done|apply Z.mod_pos_bound; lia].
  by rewrite mod_mod_pow2 by lia.
Qed.

Lemma width_le_pow w : 1 <= w -> w <= 2 ^ (w - 1).
Proof.
  intros Hw. pose proof (Z.pow_gt_lin_r 2 (w - 1)). lia.
Qed.

(** The operators [constant_folding] computes on the signed readings although
    they are unsigned: the operands must be small enough for both to agree. *)
Definition foldSafe (op : BinaryOps) (w c1 c2 : Z) : Prop :=
  match op with
  | UDiv => c1 < 2 ^ (w - 1) /\ c2 < 2 ^ (w - 1)
  | LShr => c1 < 2 ^ (w - 1)
  | _ => True
  end.

Lemma signed_small w c : c < 2 ^ (w - 1) -> signed w c = c.
Proof. intros Hc. unfold signed. by rewrite (proj2 (Z.ltb_lt _ _)). Qed.

Lemma signed_op_mod (f : Z -> Z -> Z) w a b : 1 <= w ->
  (forall x y, f x y mod 2 ^ w = f (x mod 2 ^ w) (y mod 2 ^ w) mod 2 ^ w) ->
  f (signed w a) (signed w b) mod 2 ^ w = f a b mod 2 ^ w.
Proof. intros Hw Hf. by rewrite Hf, !signed_mod, <- Hf by lia. Qed.

Lemma signed_mul_mod w a z : 1 <= w -> (signed w a * z) mod 2 ^ w = (a * z) mod 2 ^ w.
Proof. intros Hw. by rewrite Zmult_mod, signed_mod, <- Zmult_mod by lia. Qed.

Lemma foldConstants_sound w op c1 c2 r : 1 <= w <= 64 -> foldSafe op w c1 c2 ->
  evalBin op w c1 c2 = Some r ->
  foldConstants ub w op (VConstInt w c1) (VConstInt w c2) = Done (Some (VConstInt w r)) \/
  foldConstants ub w op (VConstInt w c1) (VConstInt w c2) = Done None.
Proof.
  intros Hw Hs E. destruct (evalBin_range _ _ _ _ _ E) as [R1 R2]. revert E.
  unfold evalBin. rewrite evalBin_in by done. unfold foldConstants.
  rewrite !getSExtValue_spec by done. pose proof (width_le_pow w). simpl in Hs.
  destruct op; simpl in Hs; try (by right); rewrite ?get_const_spec by done.
  - intros [= <-]. left. rewrite wrap64_mod by done.
    by rewrite (signed_op_mod Z.add) by (lia || (intros; apply Zplus_mod)).
  - intros [= <-]. left. rewrite wrap64_mod by done.
    by rewrite (signed_op_mod Z.sub) by (lia || (intros; apply Zminus_mod)).
  - intros [= <-]. left. rewrite wrap64_mod by done.
    by rewrite (signed_op_mod Z.mul) by (lia || (intros; apply Zmult_mod)).
  - rewrite !signed_small by lia. destruct (Z.eqb_spec c2 0); [done|]. intros [= <-].
    destruct (Z.eqb_spec c1 (- 2 ^ 63)); [lia|]. cbn [andb]. left. rewrite Z.quot_div_nonneg by lia.
    rewrite Z.mod_small; [done|]. split; [apply Z.div_pos; lia|].
    apply Z.div_lt_upper_bound; [lia|]. nia.
  - destruct (Z.eqb_spec c2 0) as [|Hne]; [done|]. cbn [orb].
    destruct (_ && _) eqn:Eo; [done|]. intros [= <-].
    destruct (Z.eqb_spec (signed w c2) 0) as [E0|E0]; [rewrite signed_eq_zero in E0; lia|].
    destruct (Z.eqb_spec (signed w c1) (- 2 ^ 63)) as [E1|E1], (Z.eqb_spec (signed w c2) (-1)) as [E2|E2];
      cbn [andb]; auto.
    exfalso. pose proof (signed_range w c1 ltac:(lia) R1).
    assert (w = 64) as ->.
    { destruct (Z.eq_dec w 64); [done|]. assert (2 ^ (w - 1) < 2 ^ 63) by (apply Z.pow_lt_mono_r; lia). lia. }
    rewrite E1 in Eo. done.
  - destruct (Z.ltb_spec c2 w); [|done]. intros [= <-]. left. rewrite (signed_small w c2) by lia.
    unfold shl64. rewrite (proj2 (Z.leb_le 0 c2)), (proj2 (Z.ltb_lt c2 64)) by lia. cbn [andb].
    by rewrite wrap64_mod, signed_mul_mod by lia.
  - destruct (Z.ltb_spec c2 w); [|done]. intros [= <-]. left. rewrite !signed_small by lia.
    unfold shr64. rewrite (proj2 (Z.leb_le 0 c2)), (proj2 (Z.ltb_lt c2 64)) by lia. cbn [andb].
    rewrite Z.shiftr_div_pow2 by lia. rewrite Z.mod_small; [done|].
    pose proof (Z.pow_pos_nonneg 2 c2). split; [apply Z.div_pos; lia|].
    apply Z.div_lt_upper_bound; [lia|]. nia.
Qed.

(** ** Strength reduction *)

(** Multiplication by the constants [find_log_improved] recognises. *)
Lemma mul_shift w x c e k : 1 <= w -> 0 <= e < w -> 0 <= x < 2 ^ w -> 0 <= c < 2 ^ w ->
  signed w c = 2 ^ e + k -> ((x * 2 ^ e) mod 2 ^ w + k * x) mod 2 ^ w = (x * c) mod 2 ^ w.
Proof.
  intros Hw He Hx Hc E. rewrite Zplus_mod_idemp_l.
  replace (x * 2 ^ e + k * x) with (x * signed w c) by (rewrite E; ring).
  by rewrite Z.mul_comm, signed_mul_mod, Z.mul_comm by done.
Qed.

(** The shift amount is below the width. *)
Lemma shift_below w n e k : 1 <= w -> 0 <= e -> n < 2 ^ (w - 1) -> n = 2 ^ e + k -> -1 <= k -> e < w.
Proof.
  intros Hw He Hn E Hk. assert (2 ^ e <= 2 ^ (w - 1)) as Hp by lia.
  apply Z.pow_le_mono_r_iff in Hp; lia.
Qed.

End Folding.

(** ** Simulation *)

Section Semantics.
Variable ext : value -> option Z.
Variable World : Type.
Variable other : opcode -> option Z -> nat -> World -> list (option Z) -> option (option Z * World).

Abbreviation env := (gmap nat Z).
Abbreviation eval := (eval ext).
Abbreviation execInst := (execInst ext World other).
Abbreviation execBlock := (execBlock ext World other).


(** The values below an address. *)
Definition vlt (N : nat) (v : value) : Prop := match v with VInst j => (j < N)%nat | _ => True end.

(** Whenever [l] runs to its end so does [l'], in the same world, and every old
    value can be read through [s]. *)
Definition sim (N : nat) (l l' : list inst) (s : value -> value) : Prop :=
  forall e m e1 m1, execBlock (e, m) l = Some (e1, m1) ->
  exists e2, execBlock (e, m) l' = Some (e2, m1) /\
    forall v, vlt N v -> eval e1 v = eval e2 (s v).

Lemma sim_refl N l : sim N l l id.
Proof. intros e m e1 m1 Hl. by exists e1. Qed.

Lemma sim_trans N N' l l' l'' s s' : sim N l l' s -> sim N' l' l'' s' ->
  (forall v, vlt N v -> vlt N' (s v)) -> sim N l l'' (s' ∘ s).
Proof.
  intros H1 H2 Hs e m e1 m1 Hl. destruct (H1 e m e1 m1 Hl) as (e2 & Hl' & E1).
  destruct (H2 e m e2 m1 Hl') as (e3 & Hl'' & E2). exists e3. split; [done|].
  intros v Hv. rewrite (E1 v Hv). simpl. by apply E2, Hs.
Qed.

(** ** Well-formed blocks *)

(** The instruction defines and uses addresses below [N]. *)
Definition instBelow (N : nat) (i : inst) : Prop :=
  (i_id i < N)%nat /\ forall v, v ∈ i_ops i -> vlt N v.

(** Types: [ty] gives those of instructions, [tyV] of values. *)
Definition tyV (ty : nat -> option Z) (targ : value -> option Z) (v : value) : option Z :=
  match v with
  | VInst j => ty j
  | VConstInt w _ => Some w
  | _ => targ v
  end.

(** An integer operator and its operands have one type [iN], N at most 64 as
    [getSExtValue] requires, and a constant operand is a pattern of that type;
    operators of another type have no [ConstantInt] operand. *)
Definition typedInst (ty : nat -> option Z) (targ : value -> option Z) (i : inst) : Prop :=
  ty (i_id i) = i_type i /\
  forall op, i_op i = Binary op ->
    match i_type i with
    | Some w => 1 <= w <= 64 /\ forall v, v ∈ i_ops i -> tyV ty targ v = Some w /\
                  match v with VConstInt _ c => 0 <= c < 2 ^ w | _ => True end
    | None => forall v, v ∈ i_ops i -> isConst v = false /\ tyV ty targ v = None
    end.

Record wfBlock (targ : value -> option Z) (N : nat) (l : list inst) : Prop := {
  wf_below : forall i, i ∈ l -> instBelow N i;
  wf_forward : noForward l;
  wf_typed : exists ty, forall i, i ∈ l -> typedInst ty targ i
}.

(** ** Replacing one instruction *)

Section Replace.
Variable N : nat.
Variable id : nat.
Variable v0 : value.
Abbreviation s := (substV id v0).

Lemma substV_ne v : v <> VInst id -> s v = v.
Proof. destruct v; simpl; try done. case_decide; [by subst|done]. Qed.

Lemma substV_eq : s (VInst id) = v0.
Proof. simpl. by rewrite decide_True. Qed.

Definition related (e1 e2 : env) : Prop := forall v, vlt N v -> eval e1 v = eval e2 (s v).

(** After the replaced instruction. *)
Lemma exec_post post : forall e1 e2 m e1' m', related e1 e2 ->
  (forall j, j ∈ post -> instBelow N j /\ i_id j <> id /\ i_val j <> v0) ->
  execBlock (e1, m) post = Some (e1', m') ->
  exists e2', execBlock (e2, m) (map (substI s) post) = Some (e2', m') /\ related e1' e2'.
Proof.
  induction post as [|j post IH]; intros e1 e2 m e1' m' Hr Hj Hx; simpl in *.
  { injection Hx as <- <-. by exists e2. }
  destruct (execInst (e1, m) j) as [[e1a ma]|] eqn:Ej; [|done]. simpl in Hx.
  destruct (Hj j) as ([Hid Hops] & Hne & Hv); [set_solver|].
  apply execInst_result in Ej as (r & -> & Hs). rewrite (Hs e2 s); [|intros _ v Hv'; by apply Hr, Hops].
  simpl. apply (IH _ _ _ _ _) with (3 := Hx); [|intros k Hk; apply Hj; set_solver].
  intros v Hlt. destruct (decide (v = VInst (i_id j))) as [->|Hvj].
  - rewrite substV_ne by congruence. apply eval_setResult_eq.
    rewrite (Hr (VInst (i_id j)) Hlt), substV_ne by congruence. done.
  - rewrite eval_setResult by done. rewrite (Hr v Hlt).
    destruct (decide (v = VInst id)) as [->|Hvi].
    + rewrite substV_eq, eval_setResult; [done|]. intros E. by apply Hv.
    + by rewrite substV_ne, eval_setResult.
Qed.

(** Before it, nothing reads it. *)
Lemma exec_pre pre : forall e m,
  (forall j, j ∈ pre -> isPHI j = false -> VInst id ∉ i_ops j) ->
  execBlock (e, m) (map (substI s) pre) = execBlock (e, m) pre.
Proof.
  induction pre as [|j pre IH]; intros e m Hj; [done|]. cbn [map execBlock].
  assert (E : execInst (e, m) (substI s j) = execInst (e, m) j).
  { destruct (isPHI j) eqn:Ep.
    - unfold execInst, isPHI in *. cbn [i_op substI]. by destruct (i_op j).
    - replace (substI s j) with j; [done|]. unfold substI. destruct j as [a b c d ops]; simpl in *.
      f_equal. rewrite <- (map_id ops) at 1. apply map_ext_elem. intros v Hv. symmetry. apply substV_ne.
      intros ->. apply (Hj (mkInst a b c d ops)); [set_solver|done|done]. }
  rewrite E. destruct (execInst (e, m) j) as [[e' m']|]; [|done]. simpl. apply IH. set_solver.
Qed.

End Replace.

(** What a replacement must provide: instructions that compute the value
    without touching anything old. *)
Definition justified (N : nat) (i : inst) (news : list inst) (v0 : value) : Prop :=
  forall e m e1 m1, execInst (e, m) i = Some (e1, m1) ->
  exists e2, execBlock (e, m) news = Some (e2, m1) /\
    eval e2 v0 = eval e1 (i_val i) /\
    forall v, vlt N v -> v <> i_val i -> eval e1 v = eval e2 v.

Lemma replace_sim N pre i post news v0 :
  (forall j, j ∈ pre ++ i :: post -> instBelow N j) -> noForward (pre ++ i :: post) ->
  v0 ∉ map i_val post -> justified N i news v0 ->
  sim N (pre ++ i :: post)
    (map (substI (substV (i_id i) v0)) pre ++ news ++ map (substI (substV (i_id i) v0)) post)
    (substV (i_id i) v0).
Proof.
  intros Hb Hnf Hv0 Hj e m e1 m1. rewrite execBlock_app. simpl.
  apply noForward_app in Hnf as ((_ & Hipost & _) & _ & _ & Hpre).
  destruct (execBlock (e, m) pre) as [[ea ma]|] eqn:Epre; [|done]. simpl.
  destruct (execInst (ea, ma) i) as [[eb mb]|] eqn:Ei; [|done]. simpl. intros Hpost.
  destruct (Hj _ _ _ _ Ei) as (e2 & Hnews & Hv & Hold).
  destruct (exec_post N (i_id i) v0 post eb e2 mb e1 m1) as (e3 & Hpost' & Hrel).
  - intros v Hlt. destruct (decide (v = i_val i)) as [->|Hne].
    + unfold i_val at 2. by rewrite substV_eq.
    + rewrite substV_ne by done. by apply Hold.
  - intros j Hjp. split; [apply Hb; set_solver|]. split; intros E.
    + apply Hipost. apply elem_of_map. exists j. unfold i_val. by rewrite E.
    + apply Hv0. apply elem_of_map. by exists j.
  - done.
  - exists e3. split; [|done]. rewrite execBlock_app, exec_pre, Epre.
    + simpl. rewrite execBlock_app, Hnews. simpl. done.
    + intros j Hjp Hp Hin. apply (Hpre j (VInst (i_id i)) Hjp Hp Hin).
      cbn [map]. set_solver.
Qed.

End Semantics.

(** ** Replacement keeps blocks well formed *)

Lemma noForward_subst s l : noForward l ->
  (forall i v, i ∈ l -> isPHI i = false -> v ∈ i_ops i -> s v = v \/ s v ∉ map i_val l) ->
  noForward (map (substI s) l).
Proof.
  induction l as [|i l IH]; intros Hl Hs; [done|]. cbn [map noForward].
  change (i_val (substI s i) :: map i_val (map (substI s) l)) with
    (map i_val (map (substI s) (i :: l))). rewrite !map_val_subst.
  destruct Hl as (Ho & Hid & Hl). split; [|split; [done|]].
  - intros Hp w Hw. cbn [i_ops substI] in Hw. apply elem_of_map in Hw as (v & -> & Hv).
    destruct (Hs i v) as [->|Hn]; [set_solver|done|done| |done]. by apply Ho.
  - apply IH; [done|]. intros j v Hj Hp Hv. destruct (Hs j v) as [?|Hn]; [set_solver|done|done|by left|].
    right. intros Hin. apply Hn. cbn [map]. set_solver.
Qed.

(** Instructions created at the addresses from [N] on. *)
Definition fresh (N : nat) (news : list inst) : Prop :=
  map i_id news = seq N (length news) /\
  forall i, i ∈ news -> isPHI i = false /\ forall v, v ∈ i_ops i -> vlt (i_id i) v.

Lemma fresh_ids N news i : fresh N news -> i ∈ news -> (N <= i_id i < N + length news)%nat.
Proof.
  intros [He _] Hi. assert (i_id i ∈ map i_id news) as Hin by (apply elem_of_map; by exists i).
  rewrite He, elem_of_seq in Hin. done.
Qed.

Lemma vlt_le N N' v : (N <= N')%nat -> vlt N v -> vlt N' v.
Proof. destruct v; simpl; try done. lia. Qed.

Lemma fresh_noForward news : forall N, fresh N news -> noForward news.
Proof.
  induction news as [|i news IH]; intros N Hf; [done|].
  assert (Hf' : fresh (S N) news).
  { destruct Hf as [He Hp]. injection He as _ He. split; [done|]. intros j Hj. apply Hp. set_solver. }
  assert (Hid : i_id i = N) by (destruct Hf as [He _]; by injection He).
  assert (Hgt : forall v, v ∈ map i_val news -> ~ vlt (S N) v).
  { intros v (j & -> & Hj)%elem_of_map. pose proof (fresh_ids _ _ j Hf' Hj). simpl. lia. }
  cbn [noForward]. split; [|split; [|by eapply IH]].
  - intros _ v Hv. destruct Hf as [_ Hp]. destruct (Hp i) as [_ Hops]; [set_solver|].
    specialize (Hops v Hv). rewrite Hid in Hops. cbn [map]. rewrite not_elem_of_cons. split.
    + intros ->. simpl in Hops. lia.
    + intros Hin. apply (Hgt v Hin). revert Hops. apply vlt_le. lia.
  - intros Hin. apply (Hgt _ Hin). simpl. lia.
Qed.

Lemma val_not_in v (l : list inst) N : (forall i, i ∈ l -> ~ vlt N (i_val i)) -> vlt N v -> v ∉ map i_val l.
Proof. intros Hl Hv (i & -> & Hi)%elem_of_map. by apply (Hl i). Qed.

Ltac mem := rewrite ?elem_of_app, ?elem_of_cons in *; tauto.

Lemma replace_noForward N pre i post news v0 :
  (forall j, j ∈ pre ++ i :: post -> instBelow N j) -> noForward (pre ++ i :: post) ->
  fresh N news -> v0 ∉ map i_val post ->
  (forall j v, j ∈ news -> v ∈ i_ops j -> v ∉ map i_val post) ->
  noForward (map (substI (substV (i_id i) v0)) pre ++ news ++ map (substI (substV (i_id i) v0)) post).
Proof.
  intros Hb Hnf Hfr Hv0 Hops. set (s := substV (i_id i) v0).
  apply noForward_app in Hnf as ((Hi & Hipost & Hpost) & Hpre & Hdpre & Hupre). cbn [map] in Hdpre, Hupre.
  assert (Hsame : forall j v, j ∈ pre -> isPHI j = false -> v ∈ i_ops j -> s v = v).
  { intros j v Hj Hp Hv. apply substV_ne. intros ->. apply (Hupre j _ Hj Hp Hv). by left. }
  assert (Hnew : forall j, j ∈ news -> ~ vlt N (i_val j)).
  { intros j Hj. pose proof (fresh_ids _ _ j Hfr Hj). simpl. lia. }
  rewrite !noForward_app, map_app, !map_val_subst.
  split; [split; [|split; [by eapply fresh_noForward|split]]|split; [|split]].
  - apply noForward_subst; [done|]. intros j v Hj Hp Hv.
    destruct (decide (v = VInst (i_id i))) as [->|Hne]; [right; unfold s; by rewrite substV_eq|left].
    by apply substV_ne.
  - intros j Hj (k & E & Hk)%elem_of_map. apply (Hnew j Hj). rewrite E.
    destruct (Hb k) as [Hlt _]; [mem|done].
  - intros j v Hj _ Hv. by apply (Hops j).
  - apply noForward_subst; [done|]. intros j v Hj Hp Hv. left. by apply (Hsame j).
  - intros j (j' & -> & Hj)%elem_of_map. change (i_val (substI s j')) with (i_val j').
    rewrite not_elem_of_app. pose proof (Hdpre j' Hj) as Hd. apply not_elem_of_cons in Hd as [_ Hd]. split; [|done].
    apply (val_not_in _ _ N Hnew). destruct (Hb j') as [Hlt _]; [mem|done].
  - intros j v (j' & -> & Hj)%elem_of_map. rewrite isPHI_subst. intros Hp Hv.
    cbn [i_ops substI] in Hv. apply elem_of_map in Hv as (u & -> & Hu).
    rewrite (Hsame j' u Hj Hp Hu), not_elem_of_app. pose proof (Hupre j' u Hj Hp Hu) as Hd.
    apply not_elem_of_cons in Hd as [_ Hd]. split; [|done].
    apply (val_not_in _ _ N Hnew). destruct (Hb j') as [_ Hlt]; [mem|by apply Hlt].
Qed.

(** The types after creating [news] of type [iN] from [N] on. *)
Definition extendTy (ty : nat -> option Z) (N : nat) (w : Z) (j : nat) : option Z :=
  if decide (N <= j)%nat then Some w else ty j.

Lemma tyV_extend ty targ N w v : vlt N v -> tyV (extendTy ty N w) targ v = tyV ty targ v.
Proof. destruct v; try done. simpl. intros Hl. unfold extendTy. by rewrite decide_False by lia. Qed.

(** A value that can stand for an integer of type [iN]. *)
Definition okValue (ty : nat -> option Z) (targ : value -> option Z) (w : Z) (v : value) : Prop :=
  tyV ty targ v = Some w /\ match v with VConstInt _ c => 0 <= c < 2 ^ w | _ => True end.

Lemma typed_subst ty targ N w i v0 j : instBelow N j -> typedInst ty targ j -> ty (i_id i) = Some w ->
  okValue (extendTy ty N w) targ w v0 ->
  typedInst (extendTy ty N w) targ (substI (substV (i_id i) v0) j).
Proof.
  intros [Hid Hb] [Hty Hop] Hi [Hv0 Hc0]. split.
  - cbn [i_id i_type substI]. unfold extendTy. rewrite decide_False by lia. done.
  - intros op Eop. cbn [i_op substI] in Eop. specialize (Hop op Eop).
    cbn [i_type substI i_ops]. destruct (i_type j) as [w'|].
    + destruct Hop as [Hw Hops]. split; [done|]. intros v (u & -> & Hu)%elem_of_map.
      destruct (Hops u Hu) as [Htu Hcu]. destruct (decide (u = VInst (i_id i))) as [->|Hne].
      * rewrite substV_eq. simpl in Htu. assert (w' = w) as -> by congruence. done.
      * rewrite substV_ne by done. rewrite tyV_extend by by apply Hb. done.
    + intros v (u & -> & Hu)%elem_of_map. destruct (Hop u Hu) as [Hcu Htu].
      destruct (decide (u = VInst (i_id i))) as [->|Hne]; [simpl in Htu; congruence|].
      rewrite substV_ne by done. rewrite tyV_extend by by apply Hb. done.
Qed.

Lemma replace_wf targ N pre i post news v0 w : wfBlock targ N (pre ++ i :: post) ->
  i_type i = Some w -> fresh N news -> v0 ∉ map i_val post -> vlt (N + length news) v0 ->
  (forall j v, j ∈ news -> v ∈ i_ops j -> v ∉ map i_val post) ->
  (forall ty, typedInst ty targ i -> okValue (extendTy ty N w) targ w v0 /\
     forall j, j ∈ news -> typedInst (extendTy ty N w) targ j) ->
  wfBlock targ (N + length news)
    (map (substI (substV (i_id i) v0)) pre ++ news ++ map (substI (substV (i_id i) v0)) post).
Proof.
  intros [Hb Hnf (ty & Hty)] Hw Hfr Hv0 Hlt Hops Hnews.
  assert (Hi : typedInst ty targ i) by (apply Hty; mem).
  destruct (Hnews ty Hi) as [Hok Htn].
  assert (Hsub : forall j, j ∈ map (substI (substV (i_id i) v0)) pre ++ map (substI (substV (i_id i) v0)) post ->
    exists j', j' ∈ pre ++ i :: post /\ j = substI (substV (i_id i) v0) j').
  { intros j Hj. rewrite <- map_app in Hj. apply elem_of_map in Hj as (j' & -> & Hj'). exists j'.
    split; [|done]. mem. }
  assert (Hcase : forall P : inst -> Prop, (forall j, j ∈ news -> P j) ->
    (forall j', j' ∈ pre ++ i :: post -> P (substI (substV (i_id i) v0) j')) ->
    forall j, j ∈ map (substI (substV (i_id i) v0)) pre ++ news ++ map (substI (substV (i_id i) v0)) post -> P j).
  { intros P Hn Ho j Hj. rewrite !elem_of_app in Hj. destruct Hj as [Hj|[Hj|Hj]]; [|by apply Hn|].
    - destruct (Hsub j) as (j' & Hj' & ->); [mem|]. by apply Ho.
    - destruct (Hsub j) as (j' & Hj' & ->); [mem|]. by apply Ho. }
  split.
  - apply Hcase.
    + intros j Hj. pose proof (fresh_ids _ _ j Hfr Hj). destruct Hfr as [_ Hp]. split; [lia|].
      intros v Hv. destruct (Hp j Hj) as [_ Hvl]. specialize (Hvl v Hv). revert Hvl. apply vlt_le. lia.
    + intros j' Hj'. destruct (Hb j' Hj') as [Hid Hbo]. split; [cbn [i_id substI]; lia|].
      intros v (u & -> & Hu)%elem_of_map. destruct (decide (u = VInst (i_id i))) as [->|Hne];
        [by rewrite substV_eq|]. rewrite substV_ne by done. apply (vlt_le N); [lia|by apply Hbo].
  - by apply (replace_noForward N).
  - exists (extendTy ty N w). apply Hcase; [done|]. intros j' Hj'. apply typed_subst; [by apply Hb|by apply Hty| |done].
    destruct Hi as [-> _]. done.
Qed.

(** ** Passes over a function *)

Section PassTheory.
Context `{LocalOptsLaws}.
Variable ub : Z -> Z -> Z.
Variable targ : value -> option Z.
Variable ext : value -> option Z.
Variable World : Type.
Variable other : opcode -> option Z -> nat -> World -> list (option Z) -> option (option Z * World).

Abbreviation simulates := (sim ext World other).

(** From [st] to [st'] block [b] was rewritten to a block that simulates it
    through a renaming, and every other block was renamed. *)
Definition preserved (b : nat) (st st' : state) : Prop :=
  exists l l' s, st_func st !! b = Some l /\ st_func st' !! b = Some l' /\
    simulates (st_next st) l l' s /\ (st_next st <= st_next st')%nat /\
    (forall v, vlt (st_next st) v -> vlt (st_next st') (s v)) /\
    (forall b', b' <> b -> st_func st' !! b' = map (substI s) <$> (st_func st !! b')).

Definition wfAt (b : nat) (st : state) : Prop :=
  exists l, st_func st !! b = Some l /\ wfBlock targ (st_next st) l.

Lemma substI_ident i : substI id i = i.
Proof. unfold substI. rewrite map_id. by destruct i. Qed.

Lemma substI_comp s s' i : substI s' (substI s i) = substI (s' ∘ s) i.
Proof. unfold substI. simpl. by rewrite map_map. Qed.

Lemma preserved_refl b st : wfAt b st -> preserved b st st.
Proof.
  intros (l & Hl & _). exists l, l, id. split; [done|]. split; [done|]. split; [apply sim_refl|].
  split; [lia|]. split; [done|]. intros b' _. destruct (st_func st !! b') as [l'|]; [|done]. simpl.
  f_equal. rewrite <- (map_id l') at 1. apply map_ext. intros i. by rewrite substI_ident.
Qed.

Lemma preserved_trans b st1 st2 st3 : preserved b st1 st2 -> preserved b st2 st3 -> preserved b st1 st3.
Proof.
  intros (l1 & l2 & s & E1 & E2 & Hs & Hle & Hb & Ho) (l2' & l3 & s' & E2' & E3 & Hs' & Hle' & Hb' & Ho').
  rewrite E2 in E2'. injection E2' as <-. exists l1, l3, (s' ∘ s). split; [done|]. split; [done|].
  split; [by eapply sim_trans|]. split; [lia|]. split; [intros v Hv; by apply Hb', Hb|].
  intros b' Hne. rewrite (Ho' b' Hne), (Ho b' Hne). destruct (st_func st1 !! b') as [l'|]; [|done]. simpl.
  f_equal. rewrite map_map. apply map_ext. intros i. apply substI_comp.
Qed.

(** The shape of the function after an edit of block [b] around position [k]. *)
Definition splicedBy (b : nat) (s : value -> value) (pre news post : list inst) (F F' : func) : Prop :=
  F' !! b = Some (map (substI s) pre ++ news ++ map (substI s) post) /\
  forall b', b' <> b -> F' !! b' = map (substI s) <$> (F !! b').

Lemma instAt_split F b k i : instAt F b k = Some i -> exists pre post,
  F !! b = Some (pre ++ i :: post) /\ length pre = k.
Proof.
  unfold instAt. destruct (F !! b) as [l|]; [|done]. simpl. intros Hi.
  exists (take k l), (drop (S k) l). split; [by rewrite (take_drop_middle l k i Hi)|].
  apply length_take_le. apply lookup_lt_Some in Hi. lia.
Qed.

Lemma substF_lookup s F b : substF s F !! b = map (substI s) <$> (F !! b).
Proof. apply list_lookup_fmap. Qed.

Lemma onBlock_lookup b g F : onBlock b g F !! b = g <$> (F !! b).
Proof. apply list_lookup_alter_eq. Qed.

Lemma onBlock_lookup_ne b b' g F : b' <> b -> onBlock b g F !! b' = F !! b'.
Proof. intros Hne. by apply list_lookup_alter_ne. Qed.

Lemma eraseAt_middle pre (i : inst) post : eraseAt (length pre) (pre ++ i :: post) = pre ++ post.
Proof.
  unfold eraseAt. rewrite take_app_length. replace (S (length pre)) with (length (pre ++ [i]))
    by (rewrite length_app; simpl; lia).
  replace (pre ++ i :: post) with ((pre ++ [i]) ++ post) by by rewrite <- app_assoc.
  by rewrite drop_app_length.
Qed.

Lemma insertAt_middle pre (j : inst) post : insertAt (length pre) j (pre ++ post) = pre ++ j :: post.
Proof. unfold insertAt. by rewrite take_app_length, drop_app_length. Qed.

Lemma replaceValue_spliced F b pre i post v : F !! b = Some (pre ++ i :: post) ->
  splicedBy b (substV (i_id i) v) pre [] post F (ReplaceInstWithValue F b (length pre) v).
Proof.
  intros Hl. assert (Hi : instAt F b (length pre) = Some i).
  { unfold instAt. rewrite Hl. simpl. by rewrite list_lookup_middle. }
  rewrite (ReplaceInstWithValue_spec _ _ _ _ _ Hi). split.
  - rewrite onBlock_lookup, substF_lookup, Hl. simpl. rewrite map_app. simpl. f_equal.
    rewrite <- (length_map (substI (substV (i_id i) v)) pre). apply eraseAt_middle.
  - intros b' Hne. by rewrite onBlock_lookup_ne, substF_lookup.
Qed.

(** [news] ends with the instruction that takes over; its operands do not
    mention the replaced one. *)
Lemma replaceInst_spliced F b pre i post front J : F !! b = Some (pre ++ i :: post) ->
  (forall j, j ∈ front ++ [J] -> VInst (i_id i) ∉ i_ops j) ->
  splicedBy b (substV (i_id i) (i_val J)) pre (front ++ [J]) post F
    (ReplaceInstWithInst (foldl (fun F '(k, j) => insertBefore F b k j) F
       (combine (seq (length pre) (length front)) front)) b (length pre + length front) J).
Proof.
  intros Hl Hops. set (s := substV (i_id i) (i_val J)).
  assert (Hsame : map (substI s) (front ++ [J]) = front ++ [J]).
  { rewrite <- (map_id (front ++ [J])) at 2. apply map_ext_elem. intros j Hj. unfold substI.
    replace (map s (i_ops j)) with (i_ops j); [by destruct j|]. rewrite <- (map_id (i_ops j)) at 1.
    apply map_ext_elem. intros v Hv. symmetry. apply substV_ne. intros ->. by apply (Hops j). }
  assert (Hins : forall front pre F, F !! b = Some (pre ++ i :: post) ->
    let F' := foldl (fun F '(k, j) => insertBefore F b k j) F (combine (seq (length pre) (length front)) front) in
    F' !! b = Some (pre ++ front ++ i :: post) /\ forall b', b' <> b -> F' !! b' = F !! b').
  { clear - H0. induction front as [|j front IH]; intros pre F Hl; [done|]. cbn [length seq combine foldl].
    rewrite insertBefore_spec. destruct (IH (pre ++ [j]) (onBlock b (insertAt (length pre) j) F)) as [E Ho].
    - rewrite onBlock_lookup, Hl. simpl. rewrite insertAt_middle. by rewrite <- app_assoc.
    - rewrite length_app in E, Ho. simpl in E, Ho. rewrite Nat.add_1_r in E, Ho. split.
      + rewrite E. by rewrite <- app_assoc.
      + intros b' Hne. rewrite (Ho b' Hne). by apply onBlock_lookup_ne. }
  destruct (Hins front pre F Hl) as [E Ho]. cbv zeta in E, Ho.
  set (F1 := foldl _ F _) in *. rewrite app_assoc in E.
  assert (Hi : instAt F1 b (length pre + length front) = Some i).
  { unfold instAt. rewrite E. simpl. rewrite <- length_app. by rewrite list_lookup_middle. }
  rewrite (ReplaceInstWithInst_spec _ _ _ _ _ Hi). split.
  - rewrite onBlock_lookup, substF_lookup, onBlock_lookup, E. simpl.
    rewrite <- length_app, insertAt_middle. f_equal.
    replace ((pre ++ front) ++ J :: i :: post) with ((pre ++ front ++ [J]) ++ i :: post)
      by (rewrite <- !app_assoc; done).
    rewrite map_app. cbn [map].
    replace (S (length (pre ++ front))) with (length (map (substI s) (pre ++ front ++ [J])))
      by (rewrite length_map, !length_app; simpl; lia).
    rewrite eraseAt_middle. fold s. rewrite map_app, Hsame. by rewrite <- !app_assoc.
  - intros b' Hne. rewrite onBlock_lookup_ne, substF_lookup, onBlock_lookup_ne by done. by rewrite (Ho b' Hne).
Qed.

(** One justified replacement. *)
Lemma splice_preserved b st st' pre i post news v0 w :
  st_func st !! b = Some (pre ++ i :: post) -> wfBlock targ (st_next st) (pre ++ i :: post) ->
  splicedBy b (substV (i_id i) v0) pre news post (st_func st) (st_func st') ->
  st_next st' = (st_next st + length news)%nat ->
  i_type i = Some w -> isPHI i = false -> fresh (st_next st) news ->
  (forall v, v = v0 \/ (exists j, j ∈ news /\ v ∈ i_ops j) ->
     v ∈ i_ops i \/ (exists w' c, v = VConstInt w' c) \/ ~ vlt (st_next st) v) ->
  vlt (st_next st + length news) v0 ->
  (forall ty, typedInst ty targ i -> okValue (extendTy ty (st_next st) w) targ w v0 /\
     forall j, j ∈ news -> typedInst (extendTy ty (st_next st) w) targ j) ->
  justified ext World other (st_next st) i news v0 ->
  preserved b st st' /\ wfAt b st'.
Proof.
  intros Hl Hwf [Hb Ho] Hnext Hw Hphi Hfr Hops Hv0 Hty Hj.
  assert (Hnotpost : forall v, v ∈ i_ops i \/ (exists w' c, v = VConstInt w' c) \/ ~ vlt (st_next st) v ->
    v ∉ map i_val post).
  { intros v Hv (j & E & Hjp)%elem_of_map. destruct Hv as [Hv|[(w' & c & ->)|Hv]]; [|done|].
    - pose proof (wf_forward _ _ _ Hwf) as Hnf. apply noForward_app in Hnf as ((Hu & _) & _).
      apply (Hu Hphi v Hv). cbn [map]. right. apply elem_of_map. by exists j.
    - apply Hv. rewrite E. destruct (wf_below _ _ _ Hwf j) as [Hlt _]; [mem|done]. }
  assert (Hv0post : v0 ∉ map i_val post) by (apply Hnotpost, Hops; by left).
  split.
  - exists (pre ++ i :: post), (map (substI (substV (i_id i) v0)) pre ++ news ++ map (substI (substV (i_id i) v0)) post),
      (substV (i_id i) v0).
    split; [done|]. split; [done|]. split; [apply replace_sim; [apply Hwf|apply Hwf|done|done]|].
    split; [lia|]. split; [|done]. intros v Hv. rewrite Hnext.
    destruct (decide (v = VInst (i_id i))) as [->|Hne]; [by rewrite substV_eq|].
    rewrite substV_ne by done. apply (vlt_le (st_next st)); [lia|done].
  - eexists. split; [exact Hb|]. rewrite Hnext. apply (replace_wf targ _ _ _ _ _ _ w); try done.
    intros j v Hjn Hv. apply Hnotpost, Hops. right. by exists j.
Qed.

Lemma wf_binary b st k i : wfAt b st -> instAt (st_func st) b k = Some i -> exists pre post,
  st_func st !! b = Some (pre ++ i :: post) /\ length pre = k /\
  wfBlock targ (st_next st) (pre ++ i :: post).
Proof.
  intros (l & Hl & Hwf) Hi. apply instAt_split in Hi as (pre & post & E & Hk).
  rewrite E in Hl. injection Hl as <-. by exists pre, post.
Qed.

Lemma typed_operands ty i op w v1 v2 vs : typedInst ty targ i -> i_op i = Binary op ->
  i_type i = Some w -> i_ops i = v1 :: v2 :: vs -> 1 <= w <= 64 /\ okValue ty targ w v1 /\ okValue ty targ w v2.
Proof.
  intros [_ Hop] Eop Et Eo. specialize (Hop op Eop). rewrite Et, Eo in Hop. destruct Hop as [Hw Hv].
  split; [done|]. split; apply Hv; rewrite !elem_of_cons; tauto.
Qed.

Lemma asBinary_Some i op : asBinary i = Some op -> i_op i = Binary op /\ isPHI i = false.
Proof. unfold asBinary, isPHI. destruct (i_op i); try done. intros [= ->]. done. Qed.

(** Execution of an integer operator. *)
Lemma execInst_binary i op w v1 v2 vs e m e1 m1 : i_op i = Binary op -> i_type i = Some w ->
  i_ops i = v1 :: v2 :: vs -> execInst ext World other (e, m) i = Some (e1, m1) ->
  exists x y r, eval ext e v1 = Some x /\ eval ext e v2 = Some y /\ evalBin op w x y = Some r /\
    e1 = <[i_id i := r]> e /\ m1 = m.
Proof.
  intros Eop Et Eo. unfold execInst. rewrite Eop, Et, Eo. cbn [fst snd].
  destruct (eval ext e v1) as [x|]; [|done]. destruct (eval ext e v2) as [y|]; [|done]. simpl.
  destruct (evalBin op w x y) as [r|] eqn:Er; [|done]. simpl. intros [= <- <-]. by exists x, y, r.
Qed.

Lemma eval_denotes e : denotes (eval ext e).
Proof. by intros w c. Qed.

(** A replacement by a value that evaluates to the result. *)
Lemma justified_value N i op w v1 v2 vs v0 : i_op i = Binary op -> i_type i = Some w ->
  i_ops i = v1 :: v2 :: vs ->
  (forall e x y r, eval ext e v1 = Some x -> eval ext e v2 = Some y -> evalBin op w x y = Some r ->
     eval ext e v0 = Some r) ->
  justified ext World other N i [] v0.
Proof.
  intros Eop Et Eo Hv e m e1 m1 Hx.
  destruct (execInst_binary i op w v1 v2 vs e m e1 m1 Eop Et Eo Hx) as (x & y & r & Ex & Ey & Er & -> & ->).
  exists e. split; [done|]. split; [simpl; rewrite lookup_insert_eq; by apply (Hv e x y)|].
  intros v _ Hne. destruct v; try done. simpl. rewrite lookup_insert_ne; [done|]. intros <-. by apply Hne.
Qed.

(** ... keeps the block well formed and its meaning. *)
Lemma value_step b st st' pre i post op w v1 v2 vs v0 :
  st_func st !! b = Some (pre ++ i :: post) -> wfBlock targ (st_next st) (pre ++ i :: post) ->
  i_op i = Binary op -> i_type i = Some w -> i_ops i = v1 :: v2 :: vs ->
  (v0 = v1 \/ v0 = v2 \/ exists c, v0 = VConstInt w c /\ 0 <= c < 2 ^ w) ->
  (forall e x y r, eval ext e v1 = Some x -> eval ext e v2 = Some y -> evalBin op w x y = Some r ->
     eval ext e v0 = Some r) ->
  st_func st' = ReplaceInstWithValue (st_func st) b (length pre) v0 -> st_next st' = st_next st ->
  preserved b st st' /\ wfAt b st'.
Proof.
  intros Hl Hwf Eop Et Eo Hv0 Hev Ef En.
  destruct (wf_below _ _ _ Hwf i) as [_ Hops]; [mem|]. rewrite Eo in Hops.
  apply (splice_preserved b st st' pre i post [] v0 w); try done.
  - rewrite Ef. by apply replaceValue_spliced.
  - simpl. lia.
  - unfold isPHI. by rewrite Eop.
  - split; [done|]. intros j Hj. by apply not_elem_of_nil in Hj.
  - intros v [->|(j & Hj & _)]; [|by apply not_elem_of_nil in Hj]. rewrite Eo, !elem_of_cons.
    destruct Hv0 as [->|[->|(c & -> & _)]]; eauto 6.
  - simpl. rewrite Nat.add_0_r. destruct Hv0 as [->|[->|(c & -> & _)]]; [| |done];
      apply Hops; rewrite !elem_of_cons; tauto.
  - intros ty Hty. split; [|intros j Hj; by apply not_elem_of_nil in Hj].
    destruct (typed_operands ty i op w v1 v2 vs Hty Eop Et Eo) as (_ & [T1 C1] & [T2 C2]).
    destruct Hv0 as [->|[->|(c & -> & Hc)]]; [| |done];
      (split; [rewrite tyV_extend; [done|apply Hops; rewrite !elem_of_cons; tauto]|done]).
  - by apply (justified_value _ i op w v1 v2 vs).
Qed.

Lemma algebraicRule_values w op v1 v2 v : algebraicRule w op v1 v2 = Some v -> 1 <= w ->
  v = v1 \/ v = v2 \/ exists c, v = VConstInt w c /\ 0 <= c < 2 ^ w.
Proof.
  intros Hr Hw. assert (2 ^ 1 <= 2 ^ w) by (apply Z.pow_le_mono_r; lia).
  assert (Hc : forall c, 0 <= c <= 1 -> exists c', VConstInt w c = VConstInt w c' /\ 0 <= c' < 2 ^ w)
    by (intros c Hc; exists c; split; [done|lia]).
  revert Hr. unfold algebraicRule, addRule, subRule, mulRule, divRule, andRule, orRule, xorRule. destruct op; try done; rule_cases; intros [= <-]; auto;
    right; right; apply Hc; lia.
Qed.

(** ** algebraic_optimizations *)

Lemma algebraicLoop_preserved b n : forall k modified st, wfAt b st ->
  preserved b st (snd (algebraicLoop n b k modified st)) /\ wfAt b (snd (algebraicLoop n b k modified st)).
Proof.
  induction n as [|n IH]; intros k modified st Hwf; cbn [algebraicLoop].
  { split; [by apply preserved_refl|done]. }
  destruct (instAt (st_func st) b k) as [i|] eqn:Hi; [|split; [by apply preserved_refl|done]].
  destruct (asBinary i) as [op|] eqn:Eb; [|by apply IH].
  destruct (i_type i) as [w|] eqn:Et; [|by apply IH].
  destruct (i_ops i) as [|v1 [|v2 vs]] eqn:Eo; [by apply IH..|].
  destruct (algebraicRule w op v1 v2) as [v|] eqn:Er; [|by apply IH].
  destruct (wf_binary b st k i Hwf Hi) as (pre & post & Hl & Hk & Hwl).
  apply asBinary_Some in Eb as [Eop _].
  assert (Hw : 1 <= w <= 64).
  { destruct (wf_typed _ _ _ Hwl) as (ty & Hty). destruct (Hty i) as [T O]; [mem|].
    by apply (typed_operands ty i op w v1 v2 vs (conj T O)). }
  set (st1 := mkState _ _ _). destruct (value_step b st st1 pre i post op w v1 v2 vs v) as [Hp Hwf1]; try done.
  - apply (algebraicRule_values w op v1 v2 v Er). lia.
  - intros e x y r Hx Hy Hr. apply (algebraicRule_sound _ w op v1 v2 v x y r); try done; lia.
  - by rewrite Hk.
  - destruct (IH k true st1 Hwf1) as [Hp' Hwf']. split; [|done]. by eapply preserved_trans.
Qed.

(** ** constant_folding *)

(** No operator that folding evaluates with the wrong signedness. *)
Definition noUnsigned (b : nat) (st : state) : Prop :=
  forall l i, st_func st !! b = Some l -> i ∈ l -> i_op i <> Binary UDiv /\ i_op i <> Binary LShr.

Lemma noUnsigned_value b st st' pre i post v0 : st_func st !! b = Some (pre ++ i :: post) ->
  st_func st' = ReplaceInstWithValue (st_func st) b (length pre) v0 -> noUnsigned b st -> noUnsigned b st'.
Proof.
  intros Hl Ef Hn l j Hl' Hj. rewrite Ef in Hl'.
  destruct (replaceValue_spliced (st_func st) b pre i post v0 Hl) as [E _]. rewrite E in Hl'.
  injection Hl' as <-. simpl in Hj. rewrite <- map_app in Hj. apply elem_of_map in Hj as (j' & -> & Hj').
  apply (Hn _ j' Hl). mem.
Qed.

Lemma foldConstants_width w op v1 v2 v : 1 <= w <= 64 -> foldConstants ub w op v1 v2 = Done (Some v) ->
  exists c, v = VConstInt w c /\ 0 <= c < 2 ^ w.
Proof.
  intros Hw. assert (Hc : forall z, exists c, get_const w z = VConstInt w c /\ 0 <= c < 2 ^ w).
  { intros z. rewrite get_const_spec by done. eexists. split; [done|]. apply Z.mod_pos_bound.
    apply Z.pow_pos_nonneg; lia. }
  unfold foldConstants. destruct op; try done; try (intros [= <-]; apply Hc);
    (destruct (_ =? 0); [done|]; destruct (_ && _); [done|]; intros [= <-]; apply Hc).
Qed.

Lemma foldingLoop_preserved b n : forall k modified st modified' st', wfAt b st -> noUnsigned b st ->
  foldingLoop ub n b k modified st = Done (modified', st') ->
  preserved b st st' /\ wfAt b st' /\ noUnsigned b st'.
Proof.
  induction n as [|n IH]; intros k modified st modified' st' Hwf Hun; cbn [foldingLoop].
  { intros [= <- <-]. split; [by apply preserved_refl|done]. }
  destruct (instAt (st_func st) b k) as [i|] eqn:Hi; [|intros [= <- <-]; split; [by apply preserved_refl|done]].
  destruct (asBinary i) as [op|] eqn:Eb; [|by apply IH].
  destruct (i_ops i) as [|v1 [|v2 vs]] eqn:Eo; [by apply IH..|].
  destruct (isConst v1) eqn:C1; [|by apply IH]. destruct (isConst v2) eqn:C2; [|by apply IH]. cbn [negb orb].
  destruct (wf_binary b st k i Hwf Hi) as (pre & post & Hl & Hk & Hwl).
  apply asBinary_Some in Eb as [Eop Hphi].
  destruct (wf_typed _ _ _ Hwl) as (ty & Hty). assert (Hti : typedInst ty targ i) by (apply Hty; mem).
  destruct (i_type i) as [w|] eqn:Et.
  2: { destruct Hti as [_ Ho]. specialize (Ho op Eop). rewrite Et, Eo in Ho.
       destruct (Ho v1) as [C _]; [rewrite elem_of_cons; tauto|congruence]. }
  destruct (typed_operands ty i op w v1 v2 vs Hti Eop Et Eo) as (Hw & [T1 R1] & [T2 R2]).
  destruct v1 as [| |w1 c1|], v2 as [| |w2 c2|]; try done. cbn [tyV constWidth] in *.
  injection T1 as ->. injection T2 as ->.
  destruct (foldConstants ub w op _ _) as [[v|]| |] eqn:Er; try done; cbn [obind]; [|by apply IH].
  intros Hloop. set (st1 := mkState _ _ _) in Hloop.
  assert (Hsafe : foldSafe op w c1 c2).
  { destruct (Hun _ i Hl) as [Hu1 Hu2]; [mem|]. rewrite Eop in Hu1, Hu2. by destruct op. }
  assert (Ef : st_func st1 = ReplaceInstWithValue (st_func st) b (length pre) v) by (simpl; by rewrite Hk).
  destruct (value_step b st st1 pre i post op w (VConstInt w c1) (VConstInt w c2) vs v)
    as [Hp Hwf1]; try done.
  - right. right. by eapply foldConstants_width.
  - intros e x y r [= <-] [= <-] Hr.
    destruct (foldConstants_sound ub w op c1 c2 r Hw Hsafe Hr) as [E|E]; rewrite E in Er; [|done].
    by injection Er as <-.
  - destruct (IH k true st1 modified' st' Hwf1) as (Hp' & Hwf' & Hun'); [|done|].
    + by apply (noUnsigned_value b st st1 pre i post v).
    + split; [by eapply preserved_trans|done].
Qed.

(** ** strength_reduction *)

(** The instructions reduction gets right: no signed division, and no
    multiplication by a negative constant. *)
Definition reduceSafe (b : nat) (st : state) : Prop :=
  forall l i, st_func st !! b = Some l -> i ∈ l -> i_op i <> Binary SDiv /\
    (i_op i = Binary Mul -> forall w c, VConstInt w c ∈ i_ops i -> 0 <= signed w c).

Lemma improved_value n : 0 <= n < 2 ^ 63 ->
  let '(check, e) := find_log_improved n 0 in
  check = -2 \/ ((check = 0 \/ check = 1 \/ check = -1) /\ 0 <= e /\ n = 2 ^ e + check).
Proof.
  intros Hn. destruct (Z.eq_dec n 0) as [E|Hne].
  { subst n. right. split; [by right; right|]. split; reflexivity || done. }
  assert (Hp : 0 < n < 2 ^ 63) by lia.
  pose proof (find_log_improved_cases n 0 Hp) as Hc. unfold improvedMeaning in Hc.
  destruct (find_log_improved n 0) as [check e].
  destruct Hc as [(-> & ? & ?)|[(-> & ? & ?)|[(-> & ? & ?)|[-> _]]]]; [right..|by left]; lia.
Qed.

(** The shapes of what [reduceRule] creates: a shift, or a shift followed by an
    addition or subtraction of the operand. *)
Lemma reduceRule_shape N w op v1 v2 vs i news : i_op i = Binary op -> i_type i = Some w ->
  i_ops i = v1 :: v2 :: vs -> reduceRule N (i_type i) op v1 v2 = Some news ->
  exists a w' z op1, a ∈ i_ops i /\ VConstInt w' z ∈ i_ops i /\
  exists k, (news = [createBinary N (Some w) op1 a (get_const w' k)] \/
    exists op2, news = [createBinary N (Some w) op1 a (get_const w' k);
                        createBinary (S N) (Some w) op2 (VInst N) a]).
Proof.
  intros Eop Et Eo. rewrite Et, Eo.
  assert (H1 : v1 ∈ v1 :: v2 :: vs) by (rewrite elem_of_cons; tauto).
  assert (H2 : v2 ∈ v1 :: v2 :: vs) by (rewrite !elem_of_cons; tauto).
  assert (Hmul : forall a c, a ∈ v1 :: v2 :: vs -> c ∈ v1 :: v2 :: vs -> isConst c = true ->
    (let '(check_pow, log_i) := find_log_improved (getSExtValue c) 0 in
     if check_pow =? -2 then None
     else if check_pow =? 0 then Some [createBinary N (Some w) Shl a (get_const (constWidth c) log_i)]
     else if check_pow =? 1 then
       Some [createBinary N (Some w) Shl a (get_const (constWidth c) log_i);
             createBinary (S N) (Some w) Add (VInst N) a]
     else Some [createBinary N (Some w) Shl a (get_const (constWidth c) log_i);
                createBinary (S N) (Some w) Sub (VInst N) a]) = Some news ->
    exists a w' z op1, a ∈ v1 :: v2 :: vs /\ VConstInt w' z ∈ v1 :: v2 :: vs /\
    exists k, (news = [createBinary N (Some w) op1 a (get_const w' k)] \/
      exists op2, news = [createBinary N (Some w) op1 a (get_const w' k);
                          createBinary (S N) (Some w) op2 (VInst N) a])).
  { intros a c Ha Hc Hk. destruct c as [| |w' z|]; try done.
    destruct (find_log_improved _ 0) as [check e]. destruct (check =? -2); [done|]. intros Hn.
    exists a, w', z, Shl. split; [done|]. split; [done|]. exists e.
    destruct (check =? 0); [injection Hn as <-; by left|]. right.
    destruct (check =? 1); injection Hn as <-; eauto. }
  unfold reduceRule. destruct op; try done.
  - destruct (isConst v1) eqn:C1.
    + rewrite C1. by apply Hmul.
    + destruct (isConst v2) eqn:C2; [|done]. by apply Hmul.
  - destruct (isConst v2) eqn:C2; [|done]. destruct v2 as [| |w' z|]; try done.
    destruct (0 <=? _); [|done]. intros [= <-]. exists v1, w', z, LShr. eauto.
  - destruct (isConst v2) eqn:C2; [|done]. destruct v2 as [| |w' z|]; try done.
    destruct (0 <=? _); [|done]. intros [= <-]. exists v1, w', z, LShr. eauto.
Qed.

(** Running what was created. *)
Definition computesFresh (N : nat) (e : gmap nat Z) (m : World) (news : list inst) (r : Z) : Prop :=
  exists e2, execBlock ext World other (e, m) news = Some (e2, m) /\
    eval ext e2 (VInst (N + (length news - 1))) = Some r /\
    forall v, vlt N v -> eval ext e v = eval ext e2 v.

Lemma eval_fresh N e j r v : vlt N v -> (N <= j)%nat -> eval ext (<[j := r]> e) v = eval ext e v.
Proof. destruct v; try done. simpl. intros Hv Hj. apply lookup_insert_ne. lia. Qed.

Lemma exec_created e m id w op a b x y r : eval ext e a = Some x -> eval ext e b = Some y ->
  evalBin op w x y = Some r ->
  execInst ext World other (e, m) (createBinary id (Some w) op a b) = Some (<[id := r]> e, m).
Proof. intros Ha Hb Hr. unfold execInst. simpl. by rewrite Ha, Hb; simpl; rewrite Hr. Qed.

Lemma computes_one N e m w op a b x y r : eval ext e a = Some x -> eval ext e b = Some y ->
  evalBin op w x y = Some r -> computesFresh N e m [createBinary N (Some w) op a b] r.
Proof.
  intros Ha Hb Hr. exists (<[N := r]> e). cbn [execBlock].
  rewrite (exec_created e m N w op a b x y r Ha Hb Hr). split; [done|]. split.
  - simpl. rewrite Nat.add_0_r. apply lookup_insert_eq.
  - intros v Hv. by rewrite (eval_fresh N).
Qed.

Lemma computes_two N e m w op op2 a b x y s r : vlt N a -> eval ext e a = Some x ->
  eval ext e b = Some y -> evalBin op w x y = Some s -> evalBin op2 w s x = Some r ->
  computesFresh N e m [createBinary N (Some w) op a b; createBinary (S N) (Some w) op2 (VInst N) a] r.
Proof.
  intros Hlt Ha Hb Hs Hr. exists (<[S N := r]> (<[N := s]> e)). cbn [execBlock].
  rewrite (exec_created e m N w op a b x y s Ha Hb Hs). cbn [mbind option_bind].
  rewrite (exec_created (<[N := s]> e) m (S N) w op2 (VInst N) a s x r); [| |by rewrite (eval_fresh N)|done].
  - split; [done|]. split.
    + simpl. replace (N + 1)%nat with (S N) by lia. apply lookup_insert_eq.
    + intros v Hv. rewrite !(eval_fresh N) by (done || lia). done.
  - simpl. apply lookup_insert_eq.
Qed.

(** Multiplication by a constant 2^e + check with check in {-1, 0, 1}. *)
Lemma computes_mul N e m w a x c : 1 <= w <= 64 -> vlt N a -> eval ext e a = Some x ->
  0 <= x < 2 ^ w -> 0 <= c < 2 ^ w -> 0 <= signed w c ->
  let '(check_pow, log_i) := find_log_improved (signed w c) 0 in
  check_pow <> -2 ->
  computesFresh N e m
    (if check_pow =? 0 then [createBinary N (Some w) Shl a (get_const w log_i)]
     else if check_pow =? 1 then
       [createBinary N (Some w) Shl a (get_const w log_i); createBinary (S N) (Some w) Add (VInst N) a]
     else [createBinary N (Some w) Shl a (get_const w log_i); createBinary (S N) (Some w) Sub (VInst N) a])
    ((x * c) mod 2 ^ w).
Proof.
  intros Hw Hlt Ha Hx Hc Hpos. pose proof (signed_range w c ltac:(lia) Hc) as Hr.
  assert (2 ^ (w - 1) <= 2 ^ 63) by (apply Z.pow_le_mono_r; lia).
  pose proof (improved_value (signed w c) ltac:(lia)) as Hi.
  destruct (find_log_improved (signed w c) 0) as [check k]. intros Hne.
  destruct Hi as [?|(Hcheck & Hk & E)]; [done|].
  assert (Hkw : k < w) by (apply (shift_below w (signed w c) k check); lia).
  assert (Hkr : 0 <= k < 2 ^ w) by (pose proof (Z.pow_gt_lin_r 2 w); lia).
  assert (Hshl : evalBin Shl w x k = Some ((x * 2 ^ k) mod 2 ^ w)).
  { unfold evalBin. rewrite evalBin_in by done. by rewrite (proj2 (Z.ltb_lt k w)). }
  assert (Hb : eval ext e (get_const w k) = Some k) by (rewrite get_const_spec, Z.mod_small by done; done).
  assert (Hs : 0 <= (x * 2 ^ k) mod 2 ^ w < 2 ^ w) by (apply Z.mod_pos_bound; lia).
  pose proof (mul_shift w x c k check ltac:(lia) ltac:(lia) Hx Hc E) as Hm.
  destruct Hcheck as [-> | [-> | ->]]; cbn [Z.eqb Pos.eqb].
  - rewrite Z.mul_0_l, Z.add_0_r, Zmod_mod in Hm. apply (computes_one _ _ _ _ _ _ _ x k); [done|done|].
    by rewrite Hshl, Hm.
  - apply (computes_two _ _ _ _ _ _ _ _ x k ((x * 2 ^ k) mod 2 ^ w)); try done.
    unfold evalBin. rewrite evalBin_in by done. rewrite Z.mul_1_l in Hm. by rewrite Hm.
  - apply (computes_two _ _ _ _ _ _ _ _ x k ((x * 2 ^ k) mod 2 ^ w)); try done.
    unfold evalBin. rewrite evalBin_in by done. rewrite <- Hm. f_equal.
Qed.

Lemma computes_udiv N e m w a x c : 1 <= w <= 64 -> eval ext e a = Some x ->
  0 <= x < 2 ^ w -> 0 <= c < 2 ^ w -> 0 <= find_log (signed w c) ->
  computesFresh N e m [createBinary N (Some w) LShr a (get_const w (find_log (signed w c)))] (x / c).
Proof.
  intros Hw Ha Hx Hc Hlog.
  destruct (find_log_cases (signed w c) (signed_int64 w c Hw Hc)) as [(k & Hk & E & Ek)|[Ek _]]; [|lia].
  rewrite Ek. pose proof (signed_range w c ltac:(lia) Hc) as Hr.
  assert (Hpos : 0 < 2 ^ k) by (apply Z.pow_pos_nonneg; lia).
  assert (Ec : c = 2 ^ k) by (unfold signed in E; destruct (_ <? _); lia).
  assert (Hkw : k < w) by (apply (shift_below w (signed w c) k 0); lia).
  assert (Hkr : 0 <= k < 2 ^ w) by (pose proof (Z.pow_gt_lin_r 2 w); lia).
  apply (computes_one _ _ _ _ _ _ _ x k); [done|rewrite get_const_spec, Z.mod_small by done; done|].
  unfold evalBin. rewrite evalBin_in by done. by rewrite (proj2 (Z.ltb_lt k w)), Ec.
Qed.

Lemma mul_comm_range w x y r : evalBin Mul w x y = Some r -> r = (x * y) mod 2 ^ w.
Proof. unfold evalBin. destruct (_ && _); [|done]. by intros [= <-]. Qed.

Lemma reduceRule_justified N i op w v1 v2 vs news : i_op i = Binary op -> i_type i = Some w ->
  i_ops i = v1 :: v2 :: vs -> 1 <= w <= 64 ->
  (forall v, v ∈ i_ops i -> vlt N v /\ match v with VConstInt w' c => w' = w /\ 0 <= c < 2 ^ w | _ => True end) ->
  op <> SDiv -> (op = Mul -> forall w c, VConstInt w c ∈ i_ops i -> 0 <= signed w c) ->
  reduceRule N (i_type i) op v1 v2 = Some news ->
  justified ext World other N i news (VInst (N + (length news - 1))).
Proof.
  intros Eop Et Eo Hw Hops Hsd Hmul Hrule e m e1 m1 Hx.
  destruct (execInst_binary i op w v1 v2 vs e m e1 m1 Eop Et Eo Hx) as (x & y & r & Ex & Ey & Er & -> & ->).
  destruct (evalBin_range _ _ _ _ _ Er) as [Rx Ry].
  assert (Hin1 : v1 ∈ i_ops i) by (rewrite Eo; apply elem_of_cons; tauto).
  assert (Hin2 : v2 ∈ i_ops i) by (rewrite Eo, !elem_of_cons; tauto).
  destruct (Hops v1 Hin1) as [L1 T1]. destruct (Hops v2 Hin2) as [L2 T2].
  cut (computesFresh N e m news r).
  { intros (e2 & He2 & Hv & Hold). exists e2. split; [done|].
    split; [simpl; rewrite lookup_insert_eq; exact Hv|]. intros v Hlt Hne. rewrite <- (Hold v Hlt).
    destruct v; try done. simpl. apply lookup_insert_ne. intros <-. by apply Hne. }
  rewrite Et in Hrule. unfold reduceRule in Hrule. destruct op; try done.
  - specialize (Hmul eq_refl). destruct v1 as [j|j|w1 c1|j] eqn:E1; cbn [isConst] in Hrule;
      [| |destruct T1 as [-> T1]|];
      try (destruct v2 as [?|?|w2 c2|?] eqn:E2; cbn [isConst] in Hrule; try done; destruct T2 as [-> T2];
        rewrite <- E1 in *; rewrite getSExtValue_spec in Hrule by done; injection Ey as <-;
        pose proof (computes_mul N e m w v1 x c2 Hw L1 Ex Rx Ry (Hmul _ _ Hin2)) as Hc;
        apply mul_comm_range in Er; subst r; destruct (find_log_improved _ 0) as [check k];
        destruct (Z.eqb_spec check (-2)); [done|]; specialize (Hc n);
        cbn [constWidth] in Hrule; destruct (check =? 0), (check =? 1); by injection Hrule as <-).
    rewrite getSExtValue_spec in Hrule by done. injection Ex as <-.
    pose proof (computes_mul N e m w v2 y c1 Hw L2 Ey Ry Rx (Hmul _ _ Hin1)) as Hc.
    apply mul_comm_range in Er. subst r. rewrite (Z.mul_comm c1 y).
    destruct (find_log_improved _ 0) as [check k]. destruct (Z.eqb_spec check (-2)); [done|]. specialize (Hc n).
    cbn [constWidth] in Hrule. destruct (check =? 0), (check =? 1); by injection Hrule as <-.
  - destruct v2 as [j|j|w2 c2|j]; cbn [isConst] in Hrule; try done. destruct T2 as [-> T2].
    rewrite getSExtValue_spec in Hrule by done. injection Ey as <-. cbn [constWidth] in Hrule.
    destruct (Z.leb_spec 0 (find_log (signed w c2))) as [Hl|]; [|done]. injection Hrule as <-.
    revert Er. unfold evalBin. rewrite evalBin_in by done. destruct (Z.eqb_spec c2 0); [done|].
    intros [= <-]. by apply computes_udiv.
Qed.

Lemma created_typed ty N w id op a b : (N <= id)%nat -> 1 <= w <= 64 ->
  okValue (extendTy ty N w) targ w a -> okValue (extendTy ty N w) targ w b ->
  typedInst (extendTy ty N w) targ (createBinary id (Some w) op a b).
Proof.
  intros Hid Hw Ha Hb. split.
  - simpl. unfold extendTy. by rewrite decide_True by lia.
  - intros op' _. cbn [i_type createBinary i_ops]. split; [done|].
    intros v [->|[->|Hv%not_elem_of_nil]%elem_of_cons]%elem_of_cons; done.
Qed.

(** What reduction creates from an operand [u] and a shift amount [c]. *)
Definition createdFrom (N : nat) (w : Z) (u : value) (c : Z) (news : list inst) : Prop :=
  exists op1, news = [createBinary N (Some w) op1 u (VConstInt w c)] \/
  exists op2, news = [createBinary N (Some w) op1 u (VConstInt w c);
                      createBinary (S N) (Some w) op2 (VInst N) u].

Section Created.
Variables (N : nat) (w : Z) (u : value) (c : Z) (news : list inst).
Hypothesis Hcreated : createdFrom N w u c news.

Lemma created_ids : map i_id news = seq N (length news).
Proof. by destruct Hcreated as (op1 & [->|(op2 & ->)]). Qed.

Lemma created_inst j : j ∈ news -> exists op v1 v2, j = createBinary (i_id j) (Some w) op v1 v2 /\
  (N <= i_id j)%nat /\ (v1 = u \/ v1 = VInst N /\ (N < i_id j)%nat) /\ (v2 = u \/ v2 = VConstInt w c).
Proof.
  destruct Hcreated as (op1 & [->|(op2 & ->)]); rewrite ?elem_of_cons.
  - intros [->|Hj%not_elem_of_nil]; [|done]. exists op1, u, (VConstInt w c). auto.
  - intros [->|[->|Hj%not_elem_of_nil]]; [| |done].
    + exists op1, u, (VConstInt w c). auto.
    + exists op2, (VInst N), u. simpl. auto 6 with lia.
Qed.

Lemma created_ops j v : j ∈ news -> v ∈ i_ops j ->
  v = u \/ v = VInst N /\ (N < i_id j)%nat \/ v = VConstInt w c.
Proof.
  intros Hj Hv. destruct (created_inst j Hj) as (op & v1 & v2 & Ej & _ & H1 & H2). rewrite Ej in Hv.
  cbn [i_ops createBinary] in Hv. rewrite !elem_of_cons in Hv.
  destruct Hv as [->|[->|Hv%not_elem_of_nil]]; [| |done]; tauto.
Qed.

Lemma created_fresh : vlt N u -> fresh N news.
Proof.
  intros Hu. split; [apply created_ids|]. intros j Hj.
  destruct (created_inst j Hj) as (op & v1 & v2 & Ej & Hge & _). split; [by rewrite Ej|].
  intros v Hv. destruct (created_ops j v Hj Hv) as [->|[[-> ?]| ->]]; [|done|done]. by apply (vlt_le N).
Qed.

Lemma created_last front J : news = front ++ [J] -> i_val J = VInst (N + (length news - 1)).
Proof.
  intros E. pose proof created_ids as Hids. unfold i_val. f_equal.
  assert (HL : last (map i_id news) = Some (i_id J)) by (rewrite E, map_app; apply last_snoc).
  rewrite Hids, E, length_app in HL. simpl in HL. rewrite Nat.add_1_r, seq_S, last_snoc in HL.
  injection HL as <-. rewrite E, length_app. simpl. lia.
Qed.

Lemma created_all_typed ty j : 1 <= w <= 64 -> 0 <= c < 2 ^ w -> okValue (extendTy ty N w) targ w u ->
  j ∈ news -> typedInst (extendTy ty N w) targ j.
Proof.
  intros Hw Hc Hu Hj. destruct (created_inst j Hj) as (op & v1 & v2 & Ej & Hge & H1 & H2). rewrite Ej.
  apply created_typed; [done|done| |by destruct H2 as [-> | ->]].
  destruct H1 as [->|[-> _]]; [done|]. split; [|done]. simpl. unfold extendTy. by rewrite decide_True.
Qed.

End Created.

Lemma reduceRule_created N w op v1 v2 vs i news : i_op i = Binary op -> i_type i = Some w ->
  i_ops i = v1 :: v2 :: vs -> 1 <= w <= 64 ->
  (forall v, v ∈ i_ops i -> match v with VConstInt w' _ => w' = w | _ => True end) ->
  reduceRule N (i_type i) op v1 v2 = Some news ->
  exists u c, u ∈ i_ops i /\ 0 <= c < 2 ^ w /\ createdFrom N w u c news.
Proof.
  intros Eop Et Eo Hw Hty Hrule.
  destruct (reduceRule_shape N w op v1 v2 vs i news Eop Et Eo Hrule) as (a & w' & z & op1 & Ha & Hz & k & Hs).
  pose proof (Hty _ Hz) as ->. rewrite get_const_spec in Hs by done. exists a, (k mod 2 ^ w).
  split; [done|]. split; [apply Z.mod_pos_bound, Z.pow_pos_nonneg; lia|]. by exists op1.
Qed.

Lemma reduceRule_ops N ty op v1 v2 news j : reduceRule N ty op v1 v2 = Some news -> j ∈ news ->
  i_op j <> Binary SDiv /\ i_op j <> Binary Mul.
Proof.
  intros Hrule Hj. assert (Hops : i_op j = Binary Shl \/ i_op j = Binary Add \/
    i_op j = Binary Sub \/ i_op j = Binary LShr).
  { revert Hrule Hj. unfold reduceRule. destruct op; try done; rule_cases;
    repeat match goal with
      | |- context [let '(_, _) := ?p in _] => destruct p
      | |- context [if isConst ?v then _ else _] => destruct (isConst v)
      | |- context [if ?b then _ else _] => destruct b
      end; try done; intros [= <-]; rewrite ?elem_of_cons;
      intros Hj; repeat destruct Hj as [->|Hj]; auto; by apply not_elem_of_nil in Hj. }
  destruct Hops as [E|[E|[E|E]]]; by rewrite E.
Qed.

(** Reduction creates nothing it could get wrong. *)
Lemma reduceSafe_spliced b st st' pre i post news J : st_func st !! b = Some (pre ++ i :: post) ->
  splicedBy b (substV (i_id i) (i_val J)) pre news post (st_func st) (st_func st') ->
  (forall j, j ∈ news -> i_op j <> Binary SDiv /\ i_op j <> Binary Mul) ->
  reduceSafe b st -> reduceSafe b st'.
Proof.
  intros Hl [Hb' _] Hnews Hsafe l' j' Hl' Hj'. rewrite Hb' in Hl'. injection Hl' as <-.
  assert (Hold : forall j0, j0 ∈ pre ++ i :: post -> let j := substI (substV (i_id i) (i_val J)) j0 in
    i_op j <> Binary SDiv /\ (i_op j = Binary Mul -> forall w c, VConstInt w c ∈ i_ops j -> 0 <= signed w c)).
  { intros j0 Hj0. destruct (Hsafe _ j0 Hl Hj0) as [H1 H2]. split; [done|]. intros Em w0 c0 Hin.
    apply (H2 Em). apply elem_of_map in Hin as (u & Eu & Hu).
    destruct (decide (u = VInst (i_id i))) as [->|Hne]; [rewrite substV_eq in Eu; done|].
    rewrite substV_ne in Eu by done. by subst u. }
  rewrite !elem_of_app in Hj'.
  destruct Hj' as [(j0 & -> & Hj0)%elem_of_map|[Hj'|(j0 & -> & Hj0)%elem_of_map]];
    [apply Hold; mem| |apply Hold; mem].
  destruct (Hnews j' Hj') as [H1 H2]. done.
Qed.

(** One reduction, with [news = front ++ [J]]. *)
Lemma reduce_step b st st' pre i post op w v1 v2 vs front J :
  st_func st !! b = Some (pre ++ i :: post) -> wfBlock targ (st_next st) (pre ++ i :: post) ->
  reduceSafe b st -> i_op i = Binary op -> i_type i = Some w -> i_ops i = v1 :: v2 :: vs ->
  reduceRule (st_next st) (i_type i) op v1 v2 = Some (front ++ [J]) ->
  st_func st' = ReplaceInstWithInst (foldl (fun F '(k, j) => insertBefore F b k j) (st_func st)
       (combine (seq (length pre) (length front)) front)) b (length pre + length front) J ->
  st_next st' = (st_next st + length (front ++ [J]))%nat ->
  preserved b st st' /\ wfAt b st' /\ reduceSafe b st'.
Proof.
  intros Hl Hwf Hsafe Eop Et Eo Hrule Ef En. set (N := st_next st) in *.
  destruct (wf_below _ _ _ Hwf i) as [Hid Hbel]; [mem|].
  destruct (wf_typed _ _ _ Hwf) as (ty & Hty). assert (Hti : typedInst ty targ i) by (apply Hty; mem).
  assert (Hw : 1 <= w <= 64) by by apply (typed_operands ty i op w v1 v2 vs).
  assert (Hok : forall ty, typedInst ty targ i -> forall v, v ∈ i_ops i -> okValue ty targ w v).
  { intros ty' [_ Ho] v Hv. specialize (Ho op Eop). rewrite Et in Ho. by apply Ho. }
  assert (Hwidth : forall v, v ∈ i_ops i -> match v with VConstInt w' c => w' = w /\ 0 <= c < 2 ^ w | _ => True end).
  { intros v Hv. destruct (Hok ty Hti v Hv) as [T1 R1]. destruct v as [| |w' c|]; try done.
    simpl in T1. by injection T1 as ->. }
  assert (Hcw : forall v, v ∈ i_ops i -> match v with VConstInt w' _ => w' = w | _ => True end).
  { intros v Hv. specialize (Hwidth v Hv). destruct v; try done. by destruct Hwidth. }
  destruct (reduceRule_created N w op v1 v2 vs i _ Eop Et Eo Hw Hcw Hrule) as (u & c & Hu & Hc & Hcr).
  assert (Hself : i_val i ∉ i_ops i).
  { pose proof (wf_forward _ _ _ Hwf) as Hnf. apply noForward_app in Hnf as ((Hf & _) & _).
    intros Hin. apply (Hf ltac:(unfold isPHI; by rewrite Eop) _ Hin). cbn [map]. by left. }
  pose proof (created_last N w u c _ Hcr front J eq_refl) as HJ.
  pose proof (created_ops N w u c _ Hcr) as Hops.
  assert (Hspl := replaceInst_spliced (st_func st) b pre i post front J Hl). specialize (Hspl
    ltac:(intros j Hj Hin; destruct (Hops j _ Hj Hin) as [E|[[[= E] _]|?]];
          [apply Hself; unfold i_val; rewrite E; done|lia|done])).
  rewrite <- Ef in Hspl. destruct (Hsafe _ i Hl) as [Hs1 Hs2]; [mem|].
  cut (preserved b st st' /\ wfAt b st').
  { intros [Hp Hwf']. split; [done|]. split; [done|].
    apply (reduceSafe_spliced b st st' pre i post _ J Hl Hspl); [|done].
    intros j Hj. by apply (reduceRule_ops _ _ _ _ _ _ j Hrule). }
  apply (splice_preserved b st st' pre i post (front ++ [J]) (i_val J) w); try done.
  - unfold isPHI. by rewrite Eop.
  - apply (created_fresh _ _ _ _ _ Hcr). by apply Hbel.
  - intros v [->|(j & Hj & Hv)]; [right; right; rewrite HJ; simpl; fold N; lia|].
    destruct (Hops j v Hj Hv) as [->|[[-> _]| ->]]; [by left|right; right; simpl; fold N; lia|eauto].
  - rewrite HJ. simpl. fold N. rewrite length_app. simpl. lia.
  - intros ty' Hty'. fold N. split.
    + rewrite HJ. split; [|done]. simpl. unfold extendTy. by rewrite decide_True by lia.
    + intros j Hj. apply (created_all_typed _ _ _ _ _ Hcr); [done|done| |done].
      destruct (Hok ty' Hty' u Hu) as [T1 R1]. split; [|done]. rewrite tyV_extend; [done|by apply Hbel].
  - fold N. rewrite HJ. apply (reduceRule_justified N i op w v1 v2 vs); try done.
    + intros v Hv. split; [by apply Hbel|by apply Hwidth].
    + congruence.
    + intros ->. by apply Hs2.
Qed.

Lemma reductionLoop_preserved b n : forall k st, wfAt b st -> reduceSafe b st ->
  preserved b st (snd (reductionLoop n b k st)) /\ wfAt b (snd (reductionLoop n b k st)).
Proof.
  induction n as [|n IH]; intros k st Hwf Hsafe; cbn [reductionLoop].
  { split; [by apply preserved_refl|done]. }
  destruct (instAt (st_func st) b k) as [i|] eqn:Hi; [|split; [by apply preserved_refl|done]].
  destruct (asBinary i) as [op|] eqn:Eb; [|by apply IH].
  destruct (i_ops i) as [|v1 [|v2 vs]] eqn:Eo; [by apply IH..|].
  destruct (reduceRule (st_next st) (i_type i) op v1 v2) as [news|] eqn:Er; [|by apply IH].
  destruct (wf_binary b st k i Hwf Hi) as (pre & post & Hl & Hk & Hwl).
  apply asBinary_Some in Eb as [Eop Hphi].
  destruct (i_type i) as [w|] eqn:Et.
  2: { exfalso. destruct (wf_typed _ _ _ Hwl) as (ty & Hty). destruct (Hty i) as [_ Ho]; [mem|].
       specialize (Ho op Eop). rewrite Et, Eo in Ho.
       destruct (Ho v1) as [C1 _]; [rewrite elem_of_cons; tauto|].
       destruct (Ho v2) as [C2 _]; [rewrite !elem_of_cons; tauto|].
       revert Er. unfold reduceRule. destruct op; rewrite ?C1, ?C2; done. }
  assert (Hstep : forall front J st1, news = front ++ [J] ->
    st_func st1 = ReplaceInstWithInst (foldl (fun F '(k, j) => insertBefore F b k j) (st_func st)
       (combine (seq k (length front)) front)) b (k + length front) J ->
    st_next st1 = (st_next st + length (front ++ [J]))%nat -> forall k',
    preserved b st (snd (reductionLoop n b k' st1)) /\ wfAt b (snd (reductionLoop n b k' st1))).
  { intros front J st1 -> Ef En k'. rewrite <- Hk in Ef. rewrite <- Et in Er.
    destruct (reduce_step b st st1 pre i post op w v1 v2 vs front J) as (Hp & Hwf1 & Hs1); try done.
    destruct (IH k' st1 Hwf1 Hs1) as [Hp' Hwf']. split; [|done]. by eapply preserved_trans. }
  destruct news as [|J [|J2 [|? ?]]]; [by apply IH| | |by apply IH].
  - apply (Hstep [] J); [done| |simpl; lia]. simpl. by rewrite Nat.add_0_r.
  - apply (Hstep [J] J2); [done| |simpl; lia]. simpl. by rewrite Nat.add_1_r.
Qed.

End PassTheory.
