(* ===== verification/LocalOptsCorrect.v ===== *)
(** * Correctness of the local optimizations

    Termination and normal forms of the driver loop of [runOnModule], semantic
    preservation of each pass, and the cases in which the code goes wrong. *)

From stdpp Require Import gmap list strings.
From Stdlib Require Import ZArith Lia.
From S2P Require Import Prelude LLVM IR BlockSem Examples LocalOpts LocalOptsSem.

#[local] Open Scope Z_scope.

(** ** The driver *)

Section Driver.
Context `{LocalOptsLaws}.
Variable ub : Z -> Z -> Z.

Lemma replaceValue_len st st' b k v i : instAt (st_func st) b k = Some i ->
  st_func st' = ReplaceInstWithValue (st_func st) b k v -> (S (blockLen st' b) = blockLen st b)%nat.
Proof.
  intros Hi Ef. apply instAt_split in Hi as (pre & post & Hl & Hk).
  destruct (replaceValue_spliced (st_func st) b pre i post v Hl) as [E _]. rewrite Hk, <- Ef in E.
  unfold blockLen. rewrite Hl, E. simpl. rewrite !length_app, !length_map. simpl. lia.
Qed.

(** A pass that reports a modification has shortened the block; one that does
    not has left everything as it was. *)
Definition progress (b : nat) (modified modified' : bool) (st st' : state) : Prop :=
  (blockLen st' b <= blockLen st b)%nat /\
  ((modified' = modified /\ st' = st) \/ (modified' = true /\ (blockLen st' b < blockLen st b)%nat)).

Lemma progress_refl b m st : progress b m m st st.
Proof. split; [lia|by left]. Qed.

Lemma progress_step b m m' st st1 st' : (S (blockLen st1 b) = blockLen st b)%nat ->
  progress b true m' st1 st' -> progress b m m' st st'.
Proof.
  intros Hs [Hle Hc]. split; [lia|]. right. destruct Hc as [[-> ->]|[-> ?]]; (split; [done|lia]).
Qed.

Lemma algebraicLoop_progress b n : forall k m st,
  progress b m (fst (algebraicLoop n b k m st)) st (snd (algebraicLoop n b k m st)).
Proof.
  induction n as [|n IH]; intros k m st; cbn [algebraicLoop]; [apply progress_refl|].
  destruct (instAt (st_func st) b k) as [i|] eqn:Hi; [|apply progress_refl].
  destruct (asBinary i); [|apply IH]. destruct (i_type i); [|apply IH].
  destruct (i_ops i) as [|v1 [|v2 vs]]; [apply IH..|]. destruct (algebraicRule _ _ _ _) as [v|]; [|apply IH].
  eapply progress_step; [|apply IH]. by apply (replaceValue_len st _ b k v i).
Qed.

Lemma foldingLoop_progress b n : forall k m st m' st', foldingLoop ub n b k m st = Done (m', st') ->
  progress b m m' st st'.
Proof.
  induction n as [|n IH]; intros k m st m' st'; cbn [foldingLoop]; [intros [= <- <-]; apply progress_refl|].
  destruct (instAt (st_func st) b k) as [i|] eqn:Hi; [|intros [= <- <-]; apply progress_refl].
  destruct (asBinary i); [|apply IH].
  destruct (i_ops i) as [|v1 [|v2 vs]]; [apply IH..|]. destruct (_ || _); [apply IH|].
  rewrite obind_Done. intros ([v|] & _ & Hl); [|by eapply IH].
  eapply progress_step; [|by eapply IH]. by apply (replaceValue_len st _ b k v i).
Qed.

Lemma foldingLoop_fuel b n : forall k m st, foldingLoop ub n b k m st <> OutOfFuel.
Proof.
  induction n as [|n IH]; intros k m st; cbn [foldingLoop]; [done|].
  destruct (instAt (st_func st) b k); [|done]. destruct (asBinary _); [|apply IH].
  destruct (i_ops _) as [|v1 [|v2 vs]]; [apply IH..|]. destruct (_ || _); [apply IH|].
  destruct (foldConstants _ _ _ _ _) as [[v|]| |] eqn:E; cbn [obind]; try done; try apply IH.
  revert E. unfold foldConstants. destruct b0; try done; destruct (_ =? 0); try done; by destruct (_ && _).
Qed.

Lemma reductionLoop_flag b n : forall k st, fst (reductionLoop n b k st) = false.
Proof.
  induction n as [|n IH]; intros k st; cbn [reductionLoop]; [done|].
  destruct (instAt _ _ _); [|done]. destruct (asBinary _); [|apply IH].
  destruct (i_ops _) as [|v1 [|v2 vs]]; [apply IH..|].
  destruct (reduceRule _ _ _ _ _) as [[|J [|J2 [|? ?]]]|]; apply IH.
Qed.

(** Which of the two continuations a round of the [while] takes. *)
Lemma runPasses_cases b st : match runPasses ub b st with
  | Done (true, st') => (blockLen st' b < blockLen st b)%nat
  | Done (false, st') =>
      algebraic_optimizations b st = (false, st) /\ constant_folding ub b st = Done (false, st) /\
      st' = snd (strength_reduction b st)
  | Exited => True
  | OutOfFuel => False
  end.
Proof.
  unfold runPasses. pose proof (algebraicLoop_progress b (blockLen st b) 0 false st) as [_ Ha].
  change (algebraicLoop (blockLen st b) b 0 false st) with (algebraic_optimizations b st) in Ha.
  destruct (algebraic_optimizations b st) as [[] st1]; simpl in Ha.
  { destruct Ha as [[? _]|[_ ?]]; done. }
  destruct Ha as [[_ ->]|[? _]]; [|done].
  destruct (constant_folding ub b st) as [[m2 st2]| |] eqn:Ef; cbn [obind]; [|done|by apply foldingLoop_fuel in Ef].
  apply foldingLoop_progress in Ef as Hf. destruct Hf as [_ [[-> ->]|[-> ?]]]; [|done].
  destruct (strength_reduction b st) as [m3 st3] eqn:Es.
  pose proof (reductionLoop_flag b (blockLen st b) 0 st) as Hm.
  change (reductionLoop (blockLen st b) b 0 st) with (strength_reduction b st) in Hm. rewrite Es in Hm.
  simpl in Hm. by subst m3.
Qed.

Lemma optimizeBlock_cases b fuel : forall st, (blockLen st b < fuel)%nat ->
  match optimizeBlock ub fuel b st with
  | Done st' => exists st1, algebraic_optimizations b st1 = (false, st1) /\
      constant_folding ub b st1 = Done (false, st1) /\ st' = snd (strength_reduction b st1)
  | Exited => True
  | OutOfFuel => False
  end.
Proof.
  induction fuel as [|fuel IH]; intros st Hf; [lia|]. cbn [optimizeBlock].
  pose proof (runPasses_cases b st) as Hr. destruct (runPasses ub b st) as [[[] st1]| |]; cbn [obind].
  - apply IH. lia.
  - by exists st.
  - done.
  - done.
Qed.

(** A pass that changes nothing has found nothing to do. *)
Lemma algebraicLoop_none b n : forall k st, (blockLen st b <= k + n)%nat ->
  fst (algebraicLoop n b k false st) = false ->
  forall j i op w v1 v2 vs, (k <= j)%nat -> instAt (st_func st) b j = Some i ->
  i_op i = Binary op -> i_type i = Some w -> i_ops i = v1 :: v2 :: vs -> algebraicRule w op v1 v2 = None.
Proof.
  induction n as [|n IH]; intros k st Hlen Hno j i op w v1 v2 vs Hj Hi Eop Et Eo.
  { unfold instAt, blockLen in *. destruct (st_func st !! b) as [l|]; [|done]. simpl in *.
    apply lookup_lt_Some in Hi. lia. }
  cbn [algebraicLoop] in Hno. destruct (decide (j = k)) as [->|Hne].
  - rewrite Hi in Hno. unfold asBinary in Hno. rewrite Eop, Et, Eo in Hno.
    destruct (algebraicRule w op v1 v2) as [v|]; [|done]. exfalso.
    match goal with H : fst (algebraicLoop n b k true ?s) = false |- _ =>
      pose proof (algebraicLoop_progress b n k true s) as [_ Hp]; rewrite H in Hp end.
    destruct Hp as [[? _]|[? _]]; done.
  - assert (Hk : (S k <= j)%nat) by lia. assert (Hl : (blockLen st b <= S k + n)%nat) by lia.
    destruct (instAt (st_func st) b k) as [i'|] eqn:Hik.
    + assert (Hrest : fst (algebraicLoop n b (S k) false st) = false ->
        algebraicRule w op v1 v2 = None) by (intros Hr; by apply (IH (S k) st Hl Hr j i op w v1 v2 vs)).
      destruct (asBinary i'); [|by apply Hrest]. destruct (i_type i'); [|by apply Hrest].
      destruct (i_ops i') as [|u1 [|u2 us]]; [by apply Hrest..|].
      destruct (algebraicRule _ _ u1 u2) as [v|]; [|by apply Hrest]. exfalso.
      match goal with H : fst (algebraicLoop n b k true ?s) = false |- _ =>
        pose proof (algebraicLoop_progress b n k true s) as [_ Hp]; rewrite H in Hp end.
      destruct Hp as [[? _]|[? _]]; done.
    + exfalso. unfold instAt in *. destruct (st_func st !! b) as [l|]; [|done]. simpl in *.
      apply lookup_lt_Some in Hi. apply lookup_ge_None in Hik. lia.
Qed.

End Driver.

(** ** Theorems about the passes *)

Section Claims.
Context `{LocalOptsLaws}.
Variable ub : Z -> Z -> Z.
Variable targ : value -> option Z.
Variable ext : value -> option Z.
Variable World : Type.
Variable other : opcode -> option Z -> nat -> World -> list (option Z) -> option (option Z * World).

(** C9: Algebraic optimization preserves the meaning of every well-formed block,
    whatever the other instructions do: if the block runs to its end from some
    environment and memory, the optimized block does too, with the same final
    memory, and every value of the function reads the same through the
    renaming that was applied to the other blocks. *)
Theorem algebraic_preserves b st l : st_func st !! b = Some l -> wfBlock targ (st_next st) l ->
  preserved ext World other b st (snd (algebraic_optimizations b st)).
Proof. intros Hl Hwf. apply (algebraicLoop_preserved ub targ). by exists l. Qed.

(** C11: Constant folding preserves the meaning of a well-formed block without
    [udiv] and [lshr]: additions, subtractions, multiplications, signed
    divisions and left shifts of constants up to 64 bits are folded to the
    value they compute. *)
Theorem folding_preserves b st l modified st' : st_func st !! b = Some l ->
  wfBlock targ (st_next st) l ->
  (forall i, i ∈ l -> i_op i <> Binary UDiv /\ i_op i <> Binary LShr) ->
  constant_folding ub b st = Done (modified, st') ->
  preserved ext World other b st st'.
Proof.
  intros Hl Hwf Hun Hf. apply (foldingLoop_preserved ub targ ext World other b) in Hf; [apply Hf|by exists l|].
  intros l' i Hl'. rewrite Hl in Hl'. injection Hl' as <-. apply Hun.
Qed.

(** C10: Strength reduction preserves the meaning of a well-formed block that has
    no [sdiv] and no multiplication by a constant whose signed value is
    negative: multiplications by 2^k, 2^k + 1 and 2^k - 1 become shifts and
    additions or subtractions, unsigned divisions by 2^k become shifts. *)
Theorem reduction_preserves b st l : st_func st !! b = Some l -> wfBlock targ (st_next st) l ->
  (forall i, i ∈ l -> i_op i <> Binary SDiv /\
     (i_op i = Binary Mul -> forall w c, VConstInt w c ∈ i_ops i -> 0 <= signed w c)) ->
  preserved ext World other b st (snd (strength_reduction b st)).
Proof.
  intros Hl Hwf Hs. apply (reductionLoop_preserved ub targ); [by exists l|].
  intros l' i Hl'. rewrite Hl in Hl'. injection Hl' as <-. apply Hs.
Qed.

(** The [while(1)] of [runOnModule] ends: with one round more than the block
    has instructions it never runs out, and it stops either in the trap of a
    folded [INT64_MIN / -1] or after exactly one strength reduction, applied to
    a block on which the other two passes find nothing to do. *)
Theorem optimizeBlock_terminates b st :
  match optimizeBlock ub (S (blockLen st b)) b st with
  | Done st' => exists st1, algebraic_optimizations b st1 = (false, st1) /\
      constant_folding ub b st1 = Done (false, st1) /\ st' = snd (strength_reduction b st1)
  | Exited => True
  | OutOfFuel => False
  end.
Proof. apply optimizeBlock_cases. lia. Qed.

(** When [algebraic_optimizations] reports no modification the block is in
    normal form: no instruction of it is an instance of an identity the pass
    knows. *)
Theorem algebraic_normal b st : fst (algebraic_optimizations b st) = false ->
  snd (algebraic_optimizations b st) = st /\
  forall j i op w v1 v2 vs, instAt (st_func st) b j = Some i -> i_op i = Binary op ->
    i_type i = Some w -> i_ops i = v1 :: v2 :: vs -> algebraicRule w op v1 v2 = None.
Proof.
  intros Hf. split.
  - destruct (algebraicLoop_progress b (blockLen st b) 0 false st) as [_ Hp].
    unfold algebraic_optimizations in Hf. rewrite Hf in Hp. destruct Hp as [[_ E]|[? _]]; done.
  - intros j i op w v1 v2 vs. apply (algebraicLoop_none b (blockLen st b) 0 st); [lia|done|lia].
Qed.

(** C12: Finding.  A multiplication by a constant whose signed value is negative
    is rewritten to [(x << 0) - x]: the block then computes 0 instead of the
    product, which differs from it whenever the product is not a multiple of
    2^w. *)
Theorem reduction_negative_zero N w c u e m x : 1 <= w <= 64 -> 0 <= c < 2 ^ w -> signed w c < 0 ->
  isConst u = false -> vlt N u -> eval ext e u = Some x -> 0 <= x < 2 ^ w ->
  exists news e2, reduceRule N (Some w) Mul u (VConstInt w c) = Some news /\
    execBlock ext World other (e, m) news = Some (e2, m) /\
    eval ext e2 (VInst (N + (length news - 1))) = Some 0 /\
    evalBin Mul w x c = Some ((x * c) mod 2 ^ w).
Proof.
  intros Hw Hc Hneg Hu Hlt Hx Rx. unfold reduceRule. rewrite Hu. cbn [isConst].
  rewrite getSExtValue_spec by done. unfold find_log_improved. rewrite (proj2 (Z.leb_le _ 0)) by lia.
  cbn [Z.eqb Pos.eqb constWidth].
  assert (Hz : eval ext e (get_const w 0) = Some 0) by (rewrite get_const_spec by done; by rewrite Zmod_0_l).
  assert (Hp : 0 < 2 ^ w) by (apply Z.pow_pos_nonneg; lia).
  edestruct (computes_two ext World other N e m w Shl Sub u (get_const w 0) x 0 x 0) as (e2 & He & Hv & _); try done.
  - unfold evalBin. rewrite evalBin_in by lia. rewrite (proj2 (Z.ltb_lt 0 w)) by lia.
    by rewrite Z.mul_1_r, Z.mod_small.
  - unfold evalBin. rewrite evalBin_in by lia. by rewrite Z.sub_diag, Z.mod_0_l by lia.
  - eexists _, e2. split; [done|]. split; [exact He|]. split; [exact Hv|].
    unfold evalBin. by rewrite evalBin_in.
Qed.

(** Finding.  A signed division by 2^k is rewritten to a logical right shift,
    which gives a different result for every negative dividend. *)
Theorem reduction_sdiv_negative N w k u x : 1 <= k <= w - 2 -> w <= 64 -> 2 ^ (w - 1) <= x < 2 ^ w ->
  reduceRule N (Some w) SDiv u (VConstInt w (2 ^ k)) =
    Some [createBinary N (Some w) LShr u (VConstInt w k)] /\
  exists q r, evalBin SDiv w x (2 ^ k) = Some q /\ evalBin LShr w x k = Some r /\ q <> r.
Proof.
  intros Hk Hw Hx. assert (Hpk : 2 ^ 1 <= 2 ^ k) by (apply Z.pow_le_mono_r; lia).
  assert (Hkw : 2 ^ k < 2 ^ (w - 1)) by (apply Z.pow_lt_mono_r; lia).
  assert (Hww : 2 ^ w = 2 * 2 ^ (w - 1)) by (rewrite <- Z.pow_succ_r by lia; f_equal; lia).
  assert (Hlk : k < 2 ^ k) by (apply Z.pow_gt_lin_r; lia).
  assert (Hsk : signed w (2 ^ k) = 2 ^ k) by by apply signed_small.
  assert (Hsx : signed w x = x - 2 ^ w) by (unfold signed; rewrite (proj2 (Z.ltb_ge _ _)); lia).
  split.
  - unfold reduceRule. cbn [isConst]. rewrite getSExtValue_spec, Hsk by lia.
    destruct (find_log_cases (2 ^ k)) as [(j & Hj & E & ->)|[_ Hno]]; [| |by destruct (Hno k); [lia|]].
    + unfold int64. assert (2 ^ (w - 1) <= 2 ^ 63) by (apply Z.pow_le_mono_r; lia). lia.
    + apply Z.pow_inj_r in E; [|lia..]. subst j. rewrite (proj2 (Z.leb_le 0 k)) by lia.
      cbn [constWidth]. by rewrite get_const_spec, Z.mod_small by lia.
  - unfold evalBin. rewrite !evalBin_in by lia. rewrite (proj2 (Z.eqb_neq _ _)), Hsk, Hsx by lia.
    rewrite (proj2 (Z.eqb_neq (2 ^ k) (-1))), andb_false_r, (proj2 (Z.ltb_lt k w)) by lia. cbn [orb].
    eexists _, _. split; [done|]. split; [done|].
    assert (H1 : 1 <= x / 2 ^ k < 2 ^ (w - 1)).
    { split; [apply Z.div_le_lower_bound; lia|apply Z.div_lt_upper_bound; nia]. }
    assert (H2 : - 2 ^ (w - 1) < Z.quot (x - 2 ^ w) (2 ^ k) <= 0).
    { replace (x - 2 ^ w) with (- (2 ^ w - x)) by lia. rewrite Z.quot_opp_l, Z.quot_div_nonneg by lia.
      pose proof (Z.div_pos (2 ^ w - x) (2 ^ k)). assert ((2 ^ w - x) / 2 ^ k < 2 ^ (w - 1)); [|lia].
      apply Z.div_lt_upper_bound; nia. }
    destruct (Z.eq_dec (Z.quot (x - 2 ^ w) (2 ^ k)) 0) as [->|Hne]; [rewrite Zmod_0_l; lia|].
    rewrite <- (Z.mod_unique _ (2 ^ w) (-1) (Z.quot (x - 2 ^ w) (2 ^ k) + 2 ^ w)) by lia. lia.
Qed.

(** Finding.  Folding computes [udiv] and [lshr] on the sign-extended
    operands: 200 udiv 3 and 200 lshr 1 in i8 fold to 238 and 228 instead of 66
    and 100. *)
Theorem folding_unsigned_wrong :
  foldConstants ub 8 UDiv (VConstInt 8 200) (VConstInt 8 3) = Done (Some (VConstInt 8 238)) /\
  evalBin UDiv 8 200 3 = Some 66 /\
  foldConstants ub 8 LShr (VConstInt 8 200) (VConstInt 8 1) = Done (Some (VConstInt 8 228)) /\
  evalBin LShr 8 200 1 = Some 100.
Proof.
  unfold foldConstants. rewrite !getSExtValue_spec by lia.
  change (signed 8 200) with (-56). change (signed 8 3) with 3. change (signed 8 1) with 1.
  cbn [Z.eqb Pos.eqb andb]. rewrite !get_const_spec by lia. done.
Qed.

End Claims.

(** ** Witnesses *)

(** A block that computes [((a + 0) * 7) - 0] and [6 * 7], and returns the first. *)
Definition sampleBlock : list inst :=
  [mkInst 1 "" (Some 32) (Binary Add) [VArg 0; VConstInt 32 0];
   mkInst 2 "" (Some 32) (Binary Mul) [VInst 1; VConstInt 32 7];
   mkInst 3 "" (Some 32) (Binary Sub) [VInst 2; VConstInt 32 0];
   mkInst 4 "" (Some 32) (Binary Mul) [VConstInt 32 6; VConstInt 32 7];
   mkInst 5 "" None Ret [VInst 3]].
Definition sampleState : state := mkState [sampleBlock] 10 (mkInfo 0 0 0).
Definition argTypes (v : value) : option Z := match v with VArg _ => Some 32 | _ => None end.

Definition noUB (a b : Z) : Z := 0.
Definition argVal (v : value) : option Z := match v with VArg 0 => Some 5 | _ => None end.
Definition retOnly (o : opcode) (t : option Z) (id : nat) (m : nat) (vs : list (option Z))
  : option (option Z * nat) := Some (None, m).

Ltac list_cases :=
  repeat match goal with
  | H : _ ∈ _ :: _ |- _ => apply elem_of_cons in H as [->|H]
  | H : _ ∈ [] |- _ => by apply not_elem_of_nil in H
  end.

Lemma sampleBlock_wf : wfBlock argTypes 10 sampleBlock.
Proof.
  split.
  - intros i Hi. unfold sampleBlock in Hi. list_cases; (split; [simpl; lia|]); intros v Hv;
      cbn [i_ops] in Hv; list_cases; simpl; lia || done.
  - repeat split; try (intros _ v Hv); cbn [i_ops map] in *; list_cases; rewrite ?not_elem_of_cons;
      repeat split; (done || apply not_elem_of_nil).
  - exists (fun j => if (1 <=? j)%nat && (j <=? 4)%nat then Some 32 else None).
    intros i Hi. unfold sampleBlock in Hi. list_cases; (split; [done|]); intros op Hop; try done;
      cbn [i_type]; (split; [lia|]); intros v Hv; cbn [i_ops] in Hv; list_cases; (split; [done|lia || done]).
Qed.

Lemma algebraic_preserves_witness :
  preserved argVal nat retOnly 0 sampleState (snd (algebraic_optimizations 0 sampleState)) /\
  length (default [] (st_func (snd (algebraic_optimizations 0 sampleState)) !! 0%nat)) = 3%nat.
Proof.
  split; [|reflexivity].
  exact (algebraic_preserves noUB argTypes argVal nat retOnly 0 sampleState sampleBlock eq_refl sampleBlock_wf).
Defined.

Lemma folding_preserves_witness :
  preserved argVal nat retOnly 0 sampleState
    (mkState [[mkInst 1 "" (Some 32) (Binary Add) [VArg 0; VConstInt 32 0];
               mkInst 2 "" (Some 32) (Binary Mul) [VInst 1; VConstInt 32 7];
               mkInst 3 "" (Some 32) (Binary Sub) [VInst 2; VConstInt 32 0];
               mkInst 5 "" None Ret [VInst 3]]] 10 (mkInfo 0 1 0)).
Proof.
  apply (folding_preserves noUB argTypes argVal nat retOnly 0 sampleState sampleBlock true); [done| | |done].
  - exact sampleBlock_wf.
  - intros i Hi. unfold sampleBlock in Hi. list_cases; done.
Defined.

Lemma reduction_preserves_witness :
  preserved argVal nat retOnly 0 sampleState (snd (strength_reduction 0 sampleState)) /\
  numStrengthReds (st_info (snd (strength_reduction 0 sampleState))) = 1.
Proof.
  split; [|reflexivity].
  apply (reduction_preserves noUB argTypes argVal nat retOnly 0 sampleState sampleBlock eq_refl sampleBlock_wf).
  intros i Hi. unfold sampleBlock in Hi. list_cases; (split; [done|]); intros E w c Hin; try done;
    cbn [i_ops] in Hin; rewrite !elem_of_cons in Hin;
    destruct Hin as [E1|[E1|E1%not_elem_of_nil]]; try done; injection E1 as -> ->; vm_compute; done.
Defined.

Lemma algebraic_normal_witness :
  let st := mkState [[mkInst 1 "" (Some 32) (Binary Mul) [VArg 0; VConstInt 32 7]]] 10 (mkInfo 0 0 0) in
  algebraicRule 32 Mul (VArg 0) (VConstInt 32 7) = None /\ snd (algebraic_optimizations 0 st) = st.
Proof.
  intros st. destruct (algebraic_normal 0 st) as [E Hn]; [reflexivity|]. split; [|exact E].
  by apply (Hn 0%nat (mkInst 1 "" (Some 32) (Binary Mul) [VArg 0; VConstInt 32 7]) Mul 32 (VArg 0) (VConstInt 32 7) []).
Defined.

Lemma reduction_negative_zero_witness : exists news e2,
  reduceRule 10 (Some 32) Mul (VArg 0) (VConstInt 32 (2 ^ 32 - 3)) = Some news /\
  execBlock argVal nat retOnly (∅, 0%nat) news = Some (e2, 0%nat) /\
  eval argVal e2 (VInst 11) = Some 0 /\ evalBin Mul 32 5 (2 ^ 32 - 3) = Some (2 ^ 32 - 15).
Proof.
  destruct (reduction_negative_zero argVal nat retOnly 10 32 (2 ^ 32 - 3) (VArg 0) ∅ 0%nat 5)
    as (news & e2 & Hr & He & Hv & Hm); try done.
  exists news, e2. split; [exact Hr|]. split; [exact He|]. split; [|exact Hm].
  vm_compute in Hr. injection Hr as <-. exact Hv.
Defined.

Lemma reduction_sdiv_negative_witness : exists q r,
  evalBin SDiv 8 252 2 = Some q /\ evalBin LShr 8 252 1 = Some r /\ q <> r.
Proof. apply (reduction_sdiv_negative 10 8 1 (VArg 0) 252); lia. Defined.

Lemma folding_unsigned_wrong_witness :
  foldConstants noUB 8 UDiv (VConstInt 8 200) (VConstInt 8 3) = Done (Some (VConstInt 8 238)).
Proof. apply (folding_unsigned_wrong noUB). Defined.

Lemma optimizeBlock_terminates_witness : exists st st1,
  optimizeBlock noUB 6 0 sampleState = Done st /\ st = snd (strength_reduction 0 st1) /\
  algebraic_optimizations 0 st1 = (false, st1) /\
  st_func st = [[mkInst 10 "" (Some 32) (Binary Shl) [VArg 0; VConstInt 32 3];
                 mkInst 11 "" (Some 32) (Binary Sub) [VInst 10; VArg 0];
                 mkInst 5 "" None Ret [VInst 11]]].
Proof.
  pose proof (optimizeBlock_terminates noUB 0 sampleState) as Ht.
  change (S (blockLen sampleState 0)) with 6%nat in Ht.
  destruct (optimizeBlock noUB 6 0 sampleState) as [st| |] eqn:E; [|vm_compute in E; discriminate E|done].
  destruct Ht as (st1 & Ha & _ & Hs). exists st, st1. split; [reflexivity|]. split; [exact Hs|].
  split; [exact Ha|]. vm_compute in E. injection E as <-. reflexivity.
Defined.
