(* ===== verification/DCE.v ===== *)
(** * Dead code elimination: asst3/LICM/DeadCodeElimination.cpp *)

From stdpp Require Import gmap list strings.
From Stdlib Require Import ZArith.
From S2P Require Import Prelude LLVM IR BlockSem Dataflow DataflowTheory DataflowRun Examples.

Module DCE.

Section Pass.
Context {V : Type} `{BitVectorAPI V}.

(** [Instruction::mayHaveSideEffects] *)
Variable mayHaveSideEffects : inst -> bool.

(** The instructions that are live whatever uses them. *)
Definition alwaysLive (i : inst) : bool :=
  isTerminator i || bool_decide (i_op i = DbgInfo) || bool_decide (i_op i = LandingPad)
  || mayHaveSideEffects i.

(** ** The analysis *)

(** The variables of [transferFn] that its loops update. *)
Record locals := mkLocals {
  l_index : gmap value nat;         (* domainToIndex, a copy *)
  l_def : V;                        (* defSet *)
  l_use : V;                        (* useSet *)
  l_nv : gmap blk V                 (* transferOutput.neighborVals *)
}.

(** The forward loop. *)
Definition markRoot (st : locals) (insn : inst) : locals :=
  if alwaysLive insn then
    match l_index st !! i_val insn with
    | Some _ =>
        let '(valInd, index) := map_sub 0 (l_index st) (i_val insn) in
        mkLocals index (l_def st) (bv_set (l_use st) valInd) (l_nv st)
    | None => st
    end
  else st.

(** One incoming value of a live phi. *)
Definition markIncoming (domainSize : nat) (st : locals) (vb : value * blk) : locals :=
  let '(val, valBlock) := vb in
  if isInstruction val then
    let nv := match l_nv st !! valBlock with
              | None => <[valBlock := bv_make domainSize false]> (l_nv st)
              | Some _ => l_nv st
              end in
    let '(valInd, index) := map_sub 0 (l_index st) val in
    let '(vec, nv) := map_sub bv_empty nv valBlock in
    mkLocals index (l_def st) (l_use st) (<[valBlock := bv_set vec valInd]> nv)
  else st.

(** One operand of any other live instruction. *)
Definition markOperand (st : locals) (val : value) : locals :=
  if isInstruction val then
    let '(valInd, index) := map_sub 0 (l_index st) val in
    mkLocals index (l_def st) (bv_set (l_use st) valInd) (l_nv st)
  else st.

Definition markDef (st : locals) (insn : inst) : locals :=
  match l_index st !! i_val insn with
  | Some k => mkLocals (l_index st) (bv_set (l_def st) k) (l_use st) (l_nv st)
  | None => st
  end.

(** The body of the backward loop. *)
Definition stepBack (domainSize : nat) (st : locals) (insn : inst) : locals :=
  match l_index st !! i_val insn with
  | None => st
  | Some _ =>
      let '(valInd, index) := map_sub 0 (l_index st) (i_val insn) in
      let st := mkLocals index (l_def st) (l_use st) (l_nv st) in
      if negb (bv_get (l_use st) valInd) then st
      else
        markDef
          (if isPHI insn then foldl (markIncoming domainSize) st (phiIncoming insn)
           else foldl markOperand st (i_ops insn)) insn
  end.

(** The instructions of a block, in order. *)
Variable insts : blk -> list inst.

(** [DCEAnalysis::transferFn] *)
Definition transferFn (input : V) (domain : list value) (domainToIndex : gmap value nat)
    (block : blk) : TransferOutput V :=
  let domainSize := size domainToIndex in
  let st := mkLocals domainToIndex (bv_make domainSize false) input ∅ in
  let st := foldl markRoot st (insts block) in
  let st := foldl (stepBack domainSize) st (rev (insts block)) in
  mkTransferOutput (bv_or (bv_and (bv_flip (l_def st)) input) (l_use st)) (l_nv st).

(** The domain: every instruction of the function. *)
Definition pushInst (domain : list value) (insn : inst) : list value :=
  if decide (i_val insn ∈ domain) then domain else domain ++ [i_val insn].
Definition computeDomain (F : Function) : list value :=
  foldl pushInst [] (concat (map insts (f_blocks F))).

Definition analyse (fuel : nat) (F : Function) : outcome (DataFlowResult V value) :=
  let domain := computeDomain F in
  run_both transferFn BACKWARD UNION fuel F domain
      (bv_make (length domain) false) (bv_make (length domain) false).

End Pass.

(** ** Deletion *)

Section Deletion.
Context {V : Type} `{BitVectorAPI V}.
Variable mayHaveSideEffects : inst -> bool.

(** The body of a function: the instructions of each block. *)
Abbreviation body := (blk -> list inst).

(** [I->use_empty()]: no instruction of the function has it as an operand. *)
Definition use_empty (F : Function) (bd : body) (v : value) : bool :=
  forallb (fun b => forallb (fun i => negb (bool_decide (v ∈ i_ops i))) (bd b)) (f_blocks F).

(** [I->eraseFromParent()] *)
Definition eraseFromParent (b : blk) (I : inst) (bd : body) : body :=
  fun b' => if decide (b' = b) then filter (fun i => i_id i <> i_id I) (bd b') else bd b'.

(** The instructions of a block to delete, last first. *)
Definition deleteSet (domain : list value) (out : DataFlowResult V value) (SLV : V) (l : list inst)
  : list inst :=
  filter (fun I => alwaysLive mayHaveSideEffects I = false /\ i_val I ∈ domain /\
                   bv_get SLV (map_get 0 (domainToIndex out) (i_val I)) = false) (rev l).

(** The loop that deletes them, skipping those still in use. *)
Definition deleteAll (F : Function) (b : blk) (dead : list inst) (bd : body) : body :=
  foldl (fun bd I => if use_empty F bd (i_val I) then eraseFromParent b I bd else bd) bd dead.

Fixpoint deleteBlocks (F : Function) (domain : list value) (out : DataFlowResult V value)
    (blocks : list blk) (modified : bool) (bd : body) : bool * body :=
  match blocks with
  | [] => (modified, bd)
  | b :: blocks' =>
      let SLV := br_in (map_get BlockResult0 (result out) b) in
      let dead := deleteSet domain out SLV (bd b) in
      deleteBlocks F domain out blocks' (modified || negb (bool_decide (dead = [])))
        (deleteAll F b dead bd)
  end.

(** [DCE::runOnFunction]: the returned flag and the new body. *)
Definition runOnFunction (fuel : nat) (F : Function) (bd : body) : outcome (bool * body) :=
  obind (analyse (V := V) mayHaveSideEffects bd fuel F) (fun out =>
    Done (deleteBlocks F (computeDomain bd F) out (f_po F) false bd)).

End Deletion.

(** ** The sets [transferFn] builds *)

(** [v] is an instruction the non-phi [i] uses. *)
Definition uses (i : inst) (v : value) : bool :=
  negb (isPHI i) && isInstruction v && bool_decide (v ∈ i_ops i).

(** The phi [i] takes the instruction [v] from block [p]. *)
Definition takes (i : inst) (p : blk) (v : value) : bool :=
  isPHI i && isInstruction v && bool_decide ((v, p) ∈ phiIncoming i).

(** The live values before a block from those after it, by a backward walk. *)
Fixpoint back (l : list inst) (U : value -> bool) : value -> bool :=
  match l with
  | [] => U
  | i :: l' => fun v => back l' U v || (back l' U (i_val i) && uses i v)
  end.

Lemma back_incl l U v : U v = true -> back l U v = true.
Proof. induction l as [|i l IH]; intros Hv; simpl; [done|]. by rewrite IH. Qed.

(** A live value was live after the block or is used by a live instruction. *)
Lemma back_inv l U v : back l U v = true -> U v = true \/
  exists i, i ∈ l /\ back l U (i_val i) = true /\ uses i v = true.
Proof.
  induction l as [|i l IH]; simpl; [by left|]. rewrite orb_true_iff, andb_true_iff.
  intros [Hv|[Hi Hu]].
  - destruct (IH Hv) as [?|(k & Hk & Hb & Hu)]; [by left|right]. exists k.
    split; [by right|]. split; [by rewrite Hb|done].
  - right. exists i. split; [by left|]. by rewrite Hi.
Qed.

(** Under the order of definitions and uses, what a block's instruction is when
    the walk visits it is what it is at the end. *)
Lemma back_suffix pre l U v : (forall i, i ∈ pre -> uses i v = false) -> back (pre ++ l) U v = back l U v.
Proof.
  induction pre as [|i pre IH]; intros Hn; simpl; [done|].
  rewrite (Hn i), andb_false_r, orb_false_r by (by left). apply IH. intros k Hk. apply Hn. by right.
Qed.

Lemma noForward_uses pre i post : noForward (pre ++ i :: post) -> forall k, k ∈ pre ++ [i] -> uses k (i_val i) = false.
Proof.
  intros Hnf k Hk. apply noForward_app in Hnf as ((Hi & _) & _ & _ & Hu).
  unfold uses. destruct (isPHI k) eqn:Ep; [done|]. cbn [negb andb].
  rewrite bool_decide_false; [by rewrite andb_false_r|]. intros Hin.
  apply elem_of_app in Hk as [Hk| ->%list_elem_of_singleton].
  - apply (Hu k _ Hk Ep Hin). cbn [map]. by left.
  - apply (Hi Ep _ Hin). cbn [map]. by left.
Qed.

Lemma back_closed l U i v : noForward l -> i ∈ l -> back l U (i_val i) = true -> uses i v = true ->
  back l U v = true.
Proof.
  intros Hnf Hi Hb Hu. apply list_elem_of_split in Hi as (pre & post & ->).
  pose proof (noForward_uses pre i post Hnf) as Hno.
  assert (Hb' : back (i :: post) U (i_val i) = true).
  { rewrite <- (back_suffix pre (i :: post) U); [done|]. intros k Hk. apply Hno. rewrite elem_of_app. by left. }
  assert (Hp : back post U (i_val i) = true).
  { rewrite <- (back_suffix [i] post U); [done|]. intros k Hk. apply Hno. rewrite elem_of_app. by right. }
  clear - Hp Hu. induction pre as [|k pre IH]; simpl.
  - rewrite Hp, Hu. by rewrite orb_true_r.
  - by rewrite IH.
Qed.

Section Sets.
Context {V : Type} `{BitVectorLaws V}.
Variable mayHaveSideEffects : inst -> bool.
Variable domain : list value.
Hypothesis Hnd : NoDup domain.

Abbreviation n := (length domain).
Abbreviation index := (index_from 0 domain ∅).

Record wfLocals (st : locals) : Prop := {
  wl_index : l_index st = index;
  wl_def : bv_size (l_def st : V) = n;
  wl_use : bv_size (l_use st : V) = n;
  wl_nv p v : l_nv st !! p = Some v -> bv_size (v : V) = n
}.

Definition nvBit (nv : gmap blk V) (p : blk) (j : nat) : bool := bit (map_get bv_empty nv p) j.

(** The use set as a set of values. *)
Definition useOf (x : V) (v : value) : bool :=
  match index !! v with Some k => bit x k | None => false end.

Lemma useOf_bit x j v : domain !! j = Some v -> useOf x v = bit x j.
Proof. intros Hj. unfold useOf. by rewrite (proj2 (index_spec domain v j Hnd) Hj). Qed.

Lemma sub_index st v : wfLocals st -> v ∈ domain -> exists k,
  domain !! k = Some v /\ k < n /\ index !! v = Some k /\ map_sub 0 (l_index st) v = (k, index).
Proof.
  intros Hwf Hv. destruct (index_elem domain v Hnd Hv) as [k Hk]. exists k.
  split; [by apply index_spec|]. split; [by apply (index_lt domain v)|]. split; [done|].
  rewrite (wl_index st Hwf). by apply map_sub_Some.
Qed.

Lemma useOf_set x k w v : domain !! k = Some w -> bv_size x = n -> v ∈ domain ->
  useOf (bv_set x k) v = useOf x v || bool_decide (w = v).
Proof.
  intros Hk Hs Hv. destruct (index_elem domain v Hnd Hv) as [j Hj]. unfold useOf. rewrite Hj.
  apply index_spec in Hj; [|done]. assert (k < n) by by apply lookup_lt_Some in Hk.
  rewrite bit_set by lia. rewrite orb_comm. f_equal. apply bool_decide_ext.
  split; [intros ->; congruence|]. intros ->. eapply NoDup_lookup; eauto.
Qed.

Lemma markRoot_spec st i : wfLocals st -> i_val i ∈ domain ->
  let st' := markRoot mayHaveSideEffects st i in
  wfLocals st' /\ l_nv st' = l_nv st /\ forall v, v ∈ domain ->
  useOf (l_use st') v = useOf (l_use st) v || (alwaysLive mayHaveSideEffects i && bool_decide (i_val i = v)).
Proof.
  intros Hwf Hi. unfold markRoot. destruct (alwaysLive mayHaveSideEffects i).
  2: { split; [done|]. split; [done|]. intros v _. by rewrite orb_false_r. }
  destruct (sub_index st (i_val i) Hwf Hi) as (k & Hk & Hkn & Hix & ->).
  rewrite (wl_index st Hwf), Hix. pose proof (wl_use st Hwf) as Hu.
  split; [split; simpl; [done|apply Hwf|rewrite size_set; lia|apply Hwf]|]. split; [done|].
  intros v Hv. simpl. by apply useOf_set.
Qed.

Lemma foldl_markRoot l : forall st, wfLocals st -> (forall i, i ∈ l -> i_val i ∈ domain) ->
  let st' := foldl (markRoot mayHaveSideEffects) st l in
  wfLocals st' /\ l_nv st' = l_nv st /\ forall v, v ∈ domain ->
  useOf (l_use st') v = useOf (l_use st) v ||
    existsb (fun i => alwaysLive mayHaveSideEffects i && bool_decide (i_val i = v)) l.
Proof.
  induction l as [|i l IH]; intros st Hwf Hin; cbv zeta; cbn [foldl].
  { split; [done|]. split; [done|]. intros v _. by rewrite orb_false_r. }
  destruct (markRoot_spec st i Hwf) as (Hwf1 & Hn1 & Hu1); [apply Hin; by left|].
  destruct (IH _ Hwf1) as (Hwf2 & Hn2 & Hu2); [intros k Hk; apply Hin; by right|].
  split; [done|]. split; [congruence|]. intros v Hv. rewrite (Hu2 v Hv), (Hu1 v Hv). simpl.
  by rewrite orb_assoc.
Qed.

Lemma foldl_markOperand ops : forall st, wfLocals st ->
  (forall w, w ∈ ops -> isInstruction w = true -> w ∈ domain) ->
  let st' := foldl markOperand st ops in
  wfLocals st' /\ l_nv st' = l_nv st /\ forall v, v ∈ domain ->
  useOf (l_use st') v = useOf (l_use st) v || (isInstruction v && bool_decide (v ∈ ops)).
Proof.
  induction ops as [|w ops IH]; intros st Hwf Hin; cbv zeta; cbn [foldl].
  { split; [done|]. split; [done|]. intros v _.
    rewrite (bool_decide_false (v ∈ [])) by apply not_elem_of_nil. by rewrite andb_false_r, orb_false_r. }
  assert (Hstep : wfLocals (markOperand st w) /\ l_nv (markOperand st w) = l_nv st /\ forall v, v ∈ domain ->
    useOf (l_use (markOperand st w)) v = useOf (l_use st) v || (isInstruction w && bool_decide (w = v))).
  { unfold markOperand. destruct (isInstruction w) eqn:Ew.
    2: { split; [done|]. split; [done|]. intros v _. by rewrite orb_false_r. }
    destruct (sub_index st w Hwf) as (k & Hk & Hkn & _ & ->); [apply Hin; [by left|done]|].
    pose proof (wl_use st Hwf) as Hu.
    split; [split; simpl; [done|apply Hwf|rewrite size_set; lia|apply Hwf]|]. split; [done|].
    intros v Hv. simpl. by apply useOf_set. }
  destruct Hstep as (Hwf1 & Hn1 & Hu1).
  destruct (IH _ Hwf1) as (Hwf2 & Hn2 & Hu2); [intros k Hk; apply Hin; by right|].
  split; [done|]. split; [congruence|]. intros v Hv. rewrite (Hu2 v Hv), (Hu1 v Hv).
  rewrite (bool_decide_ext (v ∈ w :: ops) (w = v \/ v ∈ ops)) by (rewrite elem_of_cons; naive_solver).
  rewrite bool_decide_or. destruct (decide (w = v)) as [->|Hne].
  - rewrite (bool_decide_true (v = v)) by done.
    by destruct (useOf (l_use st) v), (isInstruction v), (bool_decide (v ∈ ops)).
  - rewrite (bool_decide_false (w = v)) by done. by rewrite andb_false_r, orb_false_r.
Qed.

Lemma markIncoming_spec st w q : wfLocals st -> (isInstruction w = true -> w ∈ domain) ->
  let st' := markIncoming n st (w, q) in
  wfLocals st' /\ l_use st' = l_use st /\ forall j v p, domain !! j = Some v ->
  nvBit (l_nv st') p j = nvBit (l_nv st) p j || (isInstruction w && bool_decide ((w, q) = (v, p))).
Proof.
  intros Hwf Hin. unfold markIncoming. destruct (isInstruction w) eqn:Ei.
  2: { split; [done|]. split; [done|]. intros j v p _. by rewrite orb_false_r. }
  destruct (sub_index st w Hwf (Hin eq_refl)) as (k & Hk & Hkn & _ & ->).
  set (nv1 := match l_nv st !! q with None => _ | Some _ => _ end).
  assert (Hq : exists x, nv1 !! q = Some x /\ bv_size x = n /\ forall i, bit x i = nvBit (l_nv st) q i).
  { unfold nv1, nvBit, map_get. destruct (l_nv st !! q) as [x|] eqn:Eq.
    - exists x. split; [done|]. split; [by apply (wl_nv st Hwf q)|done].
    - exists (bv_make n false). rewrite lookup_insert_eq. split; [done|].
      split; [apply size_make|]. intros i. simpl. by rewrite bit_empty, bit_make, andb_false_r. }
  assert (Hp : forall p, p <> q -> nv1 !! p = l_nv st !! p).
  { intros p Hp. unfold nv1. destruct (l_nv st !! q); [done|]. by apply lookup_insert_ne. }
  destruct Hq as (x & Hx & Hxs & Hxb). rewrite (map_sub_Some bv_empty nv1 q x Hx). simpl.
  split; [|split; [done|]].
  - split; simpl; [done|apply Hwf|apply Hwf|].
    intros p y. rewrite lookup_insert. case_decide; [intros [= <-]; rewrite size_set; lia|].
    rewrite Hp by done. apply (wl_nv st Hwf).
  - intros j v p Hj. unfold nvBit at 1, map_get. rewrite lookup_insert. case_decide as E.
    + subst p. simpl. rewrite bit_set, Hxb by lia. rewrite orb_comm. f_equal. apply bool_decide_ext.
      split; [intros ->; congruence|]. intros [= ->]. by eapply NoDup_lookup.
    + rewrite Hp by done. rewrite (bool_decide_false ((w, q) = (v, p))) by congruence.
      by rewrite orb_false_r.
Qed.

Lemma foldl_markIncoming l : forall st, wfLocals st ->
  (forall w q, (w, q) ∈ l -> isInstruction w = true -> w ∈ domain) ->
  let st' := foldl (markIncoming n) st l in
  wfLocals st' /\ l_use st' = l_use st /\ forall j v p, domain !! j = Some v ->
  nvBit (l_nv st') p j = nvBit (l_nv st) p j || (isInstruction v && bool_decide ((v, p) ∈ l)).
Proof.
  induction l as [|[w q] l IH]; intros st Hwf Hin; cbv zeta; cbn [foldl].
  { split; [done|]. split; [done|]. intros j v p _.
    rewrite (bool_decide_false ((v, p) ∈ [])) by apply not_elem_of_nil. by rewrite andb_false_r, orb_false_r. }
  destruct (markIncoming_spec st w q Hwf) as (Hwf1 & Hu1 & Hn1); [apply (Hin w q); by left|].
  destruct (IH _ Hwf1) as (Hwf2 & Hu2 & Hn2); [intros w' q' Hw; apply (Hin w' q'); by right|].
  split; [done|]. split; [congruence|]. intros j v p Hj. rewrite (Hn2 j v p Hj), (Hn1 j v p Hj).
  rewrite (bool_decide_ext ((v, p) ∈ (w, q) :: l) ((w, q) = (v, p) \/ (v, p) ∈ l))
    by (rewrite elem_of_cons; naive_solver).
  rewrite bool_decide_or. destruct (decide ((w, q) = (v, p))) as [E|E].
  - injection E as -> ->. rewrite (bool_decide_true ((v, p) = (v, p))) by done. simpl.
    by destruct (nvBit (l_nv st) p j), (isInstruction v), (bool_decide ((v, p) ∈ l)).
  - rewrite (bool_decide_false ((w, q) = (v, p))) by done. by rewrite andb_false_r, orb_false_r.
Qed.

(** Every instruction the list defines or uses is in the domain. *)
Definition covered (l : list inst) : Prop :=
  forall i, i ∈ l -> i_val i ∈ domain /\
    (forall v, v ∈ i_ops i -> isInstruction v = true -> v ∈ domain).

Lemma phiIncoming_op i w q : (w, q) ∈ phiIncoming i -> w ∈ i_ops i.
Proof.
  unfold phiIncoming. destruct (i_op i); try (intros Hw; by apply not_elem_of_nil in Hw).
  intros Hw. apply list_elem_of_In in Hw. apply in_combine_l in Hw. by apply list_elem_of_In.
Qed.

Lemma markDef_spec st i : wfLocals st -> i_val i ∈ domain ->
  wfLocals (markDef st i) /\ l_use (markDef st i) = l_use st /\ l_nv (markDef st i) = l_nv st.
Proof.
  intros Hwf Hi. unfold markDef. rewrite (wl_index st Hwf).
  destruct (index !! i_val i) as [k|] eqn:Ek; [|done]. pose proof (index_lt domain _ _ Hnd Ek).
  pose proof (wl_def st Hwf). split; [|done].
  split; simpl; [done|rewrite size_set; lia|apply Hwf|apply Hwf].
Qed.

Lemma stepBack_spec st i : wfLocals st -> covered [i] ->
  let st' := stepBack n st i in
  let live := useOf (l_use st) (i_val i) in
  wfLocals st' /\
  (forall v, v ∈ domain -> useOf (l_use st') v = useOf (l_use st) v || (live && uses i v)) /\
  (forall j v p, domain !! j = Some v -> nvBit (l_nv st') p j = nvBit (l_nv st) p j || (live && takes i p v)).
Proof.
  intros Hwf Hc. destruct (Hc i) as [Hi Hops]; [by left|]. cbv zeta. unfold stepBack.
  destruct (sub_index st (i_val i) Hwf Hi) as (k & Hk & Hkn & Hix & ->).
  rewrite (wl_index st Hwf), Hix. cbn [l_use].
  assert (Hlive : useOf (l_use st) (i_val i) = bv_get (l_use st) k).
  { unfold useOf. rewrite Hix. apply bit_get. rewrite (wl_use st Hwf). done. }
  rewrite Hlive. set (st0 := mkLocals index (l_def st) (l_use st) (l_nv st)).
  assert (Hwf0 : wfLocals st0) by (split; [done|apply Hwf..]).
  destruct (bv_get (l_use st) k); cbn [negb].
  2: { split; [done|]. split; [intros v _|intros j v p _]; simpl; by rewrite orb_false_r. }
  unfold uses, takes. destruct (isPHI i) eqn:Ep; cbn [negb andb].
  - destruct (foldl_markIncoming (phiIncoming i) st0 Hwf0) as (Hwf1 & Hu1 & Hn1).
    { intros w q Hw. apply Hops. by apply (phiIncoming_op i w q). }
    destruct (markDef_spec _ i Hwf1 Hi) as (Hwf2 & Hu2 & Hn2). split; [done|].
    rewrite Hu2, Hu1, Hn2. split; [intros v _; by rewrite orb_false_r|]. intros j v p Hj. by rewrite (Hn1 j v p Hj).
  - destruct (foldl_markOperand (i_ops i) st0 Hwf0) as (Hwf1 & Hn1 & Hu1); [done|].
    destruct (markDef_spec _ i Hwf1 Hi) as (Hwf2 & Hu2 & Hn2). split; [done|].
    rewrite Hu2, Hn2, Hn1. split; [|intros j v p _; by rewrite orb_false_r].
    intros v Hv. by rewrite (Hu1 v Hv).
Qed.

(** What the live phis met on the walk take. *)
Fixpoint backTakes (l : list inst) (U : value -> bool) (p : blk) (v : value) : bool :=
  match l with
  | [] => false
  | i :: l' => backTakes l' U p v || (back l' U (i_val i) && takes i p v)
  end.

Lemma back_ext l U U' : (forall v, v ∈ domain -> U v = U' v) -> covered l ->
  forall v, v ∈ domain -> back l U v = back l U' v.
Proof.
  induction l as [|i l IH]; intros HU Hc v Hv; simpl; [by apply HU|].
  assert (Hc' : covered l) by (intros k Hk; apply Hc; by right).
  rewrite (IH HU Hc' v Hv), (IH HU Hc' (i_val i)); [done|]. apply Hc. by left.
Qed.

Lemma foldl_stepBack l : forall st, wfLocals st -> covered l ->
  let st' := foldl (stepBack n) st (rev l) in
  wfLocals st' /\
  (forall v, v ∈ domain -> useOf (l_use st') v = back l (useOf (l_use st)) v) /\
  (forall j v p, domain !! j = Some v ->
     nvBit (l_nv st') p j = nvBit (l_nv st) p j || backTakes l (useOf (l_use st)) p v).
Proof.
  induction l as [|i l IH]; intros st Hwf Hc; cbv zeta.
  { split; [done|]. split; [done|]. intros j v p _. by rewrite orb_false_r. }
  cbn [rev]. rewrite foldl_app. cbn [foldl].
  destruct (IH st Hwf) as (Hwf1 & Hu1 & Hn1); [intros k Hk; apply Hc; by right|].
  assert (Hi : i_val i ∈ domain) by (apply Hc; by left).
  destruct (stepBack_spec _ i Hwf1) as (Hwf2 & Hu2 & Hn2).
  { intros k ->%list_elem_of_singleton. apply Hc. by left. }
  split; [done|]. split.
  - intros v Hv. by rewrite (Hu2 v Hv), (Hu1 v Hv), (Hu1 _ Hi).
  - intros j v p Hj. rewrite (Hn2 j v p Hj), (Hn1 j v p Hj), (Hu1 _ Hi). cbn [backTakes]. by rewrite orb_assoc.
Qed.

Lemma backTakes_iff l U p v : noForward l ->
  backTakes l U p v = true <-> exists i, i ∈ l /\ back l U (i_val i) = true /\ takes i p v = true.
Proof.
  induction l as [|i l IH]; intros Hnf.
  { split; [done|]. intros (i & Hi & _). by apply not_elem_of_nil in Hi. }
  pose proof (noForward_uses [] i l Hnf i ltac:(by left)) as Hself.
  assert (Hkeep : forall k, k ∈ l -> back (i :: l) U (i_val k) = back l U (i_val k)).
  { intros k Hk. apply list_elem_of_split in Hk as (a & b & ->). simpl.
    rewrite (noForward_uses (i :: a) k b Hnf i), andb_false_r, orb_false_r; [done|by left]. }
  cbn [backTakes]. rewrite orb_true_iff, andb_true_iff, IH by apply Hnf. split.
  - intros [(k & Hk & Hb & Ht)|[Hb Ht]].
    + exists k. split; [by right|]. by rewrite Hkeep.
    + exists i. split; [by left|]. cbn [back]. by rewrite Hb.
  - intros (k & [->|Hk]%elem_of_cons & Hb & Ht).
    + right. cbn [back] in Hb. rewrite Hself, andb_false_r, orb_false_r in Hb. done.
    + left. exists k. by rewrite Hkeep in Hb.
Qed.

(** ** What is kept per predecessor depends on the element alone *)

Lemma markIncoming_nv l : forall st st' : locals (V := V), l_index st = l_index st' -> l_nv st = l_nv st' ->
  l_index (foldl (markIncoming n) st l) = l_index (foldl (markIncoming n) st' l) /\
  l_nv (foldl (markIncoming n) st l) = l_nv (foldl (markIncoming n) st' l).
Proof.
  induction l as [|[w q] l IH]; intros st st' Hi Hn; [done|]. cbn [foldl]. apply IH;
    unfold markIncoming; destruct (isInstruction w); try done; rewrite Hi, Hn;
    destruct (map_sub 0 (l_index st') w), (map_sub bv_empty _ q); done.
Qed.

Lemma stepBack_nv st st' i : wfLocals st -> wfLocals st' -> covered [i] -> l_nv st = l_nv st' ->
  useOf (l_use st) (i_val i) = useOf (l_use st') (i_val i) ->
  l_nv (stepBack n st i) = l_nv (stepBack n st' i).
Proof.
  intros Hwf Hwf' Hc Hn Hl. destruct (Hc i) as [Hi Hops]; [by left|]. unfold stepBack.
  destruct (sub_index st (i_val i) Hwf Hi) as (k & Hk & Hkn & Hix & ->).
  destruct (sub_index st' (i_val i) Hwf' Hi) as (k' & Hk' & _ & Hix' & ->).
  assert (k' = k) as -> by congruence.
  rewrite (wl_index st Hwf), (wl_index st' Hwf'), Hix. cbn [l_use].
  unfold useOf in Hl. rewrite Hix, !bit_get in Hl by (rewrite ?(wl_use st Hwf), ?(wl_use st' Hwf'); done).
  rewrite Hl. destruct (bv_get (l_use st') k); [|done]. cbn [negb].
  assert (Hmd : forall s : locals (V := V), l_nv (markDef s i) = l_nv s)
    by (intros s; unfold markDef; by destruct (l_index s !! i_val i)).
  assert (Hmo : forall ops (s : locals (V := V)), l_nv (foldl markOperand s ops) = l_nv s).
  { induction ops as [|w ops IH]; intros s; [done|]. cbn [foldl]. rewrite IH. unfold markOperand.
    destruct (isInstruction w); [|done]. by destruct (map_sub 0 (l_index s) w). }
  rewrite !Hmd. destruct (isPHI i); [by apply markIncoming_nv|by rewrite !Hmo].
Qed.

Lemma foldl_stepBack_nv l : forall st st', wfLocals st -> wfLocals st' -> covered l -> noForward l ->
  l_nv st = l_nv st' ->
  (forall k, k ∈ l -> back l (useOf (l_use st)) (i_val k) = back l (useOf (l_use st')) (i_val k)) ->
  l_nv (foldl (stepBack n) st (rev l)) = l_nv (foldl (stepBack n) st' (rev l)).
Proof.
  induction l as [|i l IH]; intros st st' Hwf Hwf' Hc Hnf Hn Hb; [done|].
  assert (Hc' : covered l) by (intros k Hk; apply Hc; by right).
  assert (Hi : i_val i ∈ domain) by (apply Hc; by left).
  assert (Hkeep : forall k U, k ∈ i :: l -> back (i :: l) U (i_val k) = back l U (i_val k)).
  { intros k U Hk. apply list_elem_of_split in Hk as (a & b & E). cbn [back]. rewrite E in Hnf.
    rewrite (noForward_uses a k b Hnf i), andb_false_r, orb_false_r; [done|].
    destruct a; injection E as -> _; by left. }
  cbn [rev]. rewrite !foldl_app. cbn [foldl].
  destruct (foldl_stepBack l st Hwf Hc') as (Hwf1 & Hu1 & _).
  destruct (foldl_stepBack l st' Hwf' Hc') as (Hwf1' & Hu1' & _).
  apply stepBack_nv; [done|done| | |].
  - intros k ->%list_elem_of_singleton. apply Hc. by left.
  - apply IH; try done; [apply Hnf|]. intros k Hk. rewrite <- !(Hkeep k) by by right. apply Hb. by right.
  - rewrite (Hu1 _ Hi), (Hu1' _ Hi), <- !(Hkeep i) by by left. apply Hb. by left.
Qed.

End Sets.

(** ** Strong liveness *)

(** [i] has [v] among its operands; a phi takes it along some edge. *)
Definition operandOf (i : inst) (v : value) : Prop :=
  if isPHI i then exists p, (v, p) ∈ phiIncoming i else v ∈ i_ops i.

(** The instructions some always-live one depends on. *)
Inductive needed (live : inst -> bool) (insts : blk -> list inst) (F : Function) : value -> Prop :=
| needed_root b i : reachable F b -> i ∈ insts b -> live i = true -> needed live insts F (i_val i)
| needed_op b i v : reachable F b -> i ∈ insts b -> needed live insts F (i_val i) ->
    operandOf i v -> isInstruction v = true -> needed live insts F v.

(** Control can go from one block to another. *)
Inductive leads (F : Function) : blk -> blk -> Prop :=
| leads_refl b : leads F b b
| leads_step b c d : c ∈ f_succs F b -> leads F c d -> leads F b d.

(** SSA form: every instruction operand is an instruction of the function,
    blocks define before they use, no instruction occurs twice, and control
    leads from the definition to each use (for a phi, to the incoming block,
    which is a predecessor). *)
Record SSAForm (insts : blk -> list inst) (F : Function) : Prop := {
  ssa_closed b i v : b ∈ f_blocks F -> i ∈ insts b -> v ∈ i_ops i -> isInstruction v = true ->
    exists d k, d ∈ f_blocks F /\ k ∈ insts d /\ v = i_val k;
  ssa_forward b : b ∈ f_blocks F -> noForward (insts b);
  ssa_unique b b' i i' : b ∈ f_blocks F -> b' ∈ f_blocks F -> i ∈ insts b -> i' ∈ insts b' ->
    i_val i = i_val i' -> b = b' /\ i = i';
  ssa_use b i d k : reachable F b -> i ∈ insts b -> isPHI i = false -> d ∈ f_blocks F -> k ∈ insts d ->
    i_val k ∈ i_ops i -> leads F d b;
  ssa_phi b i d k p : reachable F b -> i ∈ insts b -> d ∈ f_blocks F -> k ∈ insts d ->
    (i_val k, p) ∈ phiIncoming i -> b ∈ f_succs F p /\ reachable F p /\ leads F d p
}.

Section Exact.
Context {V : Type} `{BitVectorLaws V}.
Variable mayHaveSideEffects : inst -> bool.
Variable insts : blk -> list inst.
Variable F : Function.
Hypothesis HF : CFGLaws F.
Hypothesis HS : SSAForm insts F.

Abbreviation live := (alwaysLive mayHaveSideEffects).
Abbreviation domain := (computeDomain insts F).
Abbreviation n := (length domain).
Abbreviation index := (index_from 0 domain ∅).
Abbreviation T x b := (transferFn (V := V) mayHaveSideEffects insts x domain index b).
Abbreviation okin := (fun x : V => bv_size x = n).

Lemma foldl_pushInst l : forall dom, NoDup dom -> NoDup (foldl pushInst dom l) /\
  forall v, v ∈ foldl pushInst dom l <-> v ∈ dom \/ exists i, i ∈ l /\ v = i_val i.
Proof.
  induction l as [|i l IH]; intros dom Hnd; cbn [foldl].
  { split; [done|]. intros v. split; [by left|]. intros [?|(i & Hi & _)]; [done|by apply not_elem_of_nil in Hi]. }
  assert (Hp : NoDup (pushInst dom i) /\ forall v, v ∈ pushInst dom i <-> v ∈ dom \/ v = i_val i).
  { unfold pushInst. destruct (decide (i_val i ∈ dom)) as [Hi|Hi].
    - split; [done|]. intros v. split; [by left|]. by intros [?| ->].
    - split; [apply NoDup_app; split; [done|split; [|apply NoDup_singleton]]|].
      + intros v Hv ->%list_elem_of_singleton. done.
      + intros v. by rewrite elem_of_app, list_elem_of_singleton. }
  destruct Hp as [Hn He]. destruct (IH _ Hn) as [Hn' He']. split; [done|]. intros v. rewrite He', He.
  setoid_rewrite elem_of_cons. naive_solver.
Qed.

Lemma dce_domain_nodup : NoDup domain.
Proof. apply foldl_pushInst. constructor. Qed.

Lemma dce_domain v : v ∈ domain <-> exists b i, b ∈ f_blocks F /\ i ∈ insts b /\ v = i_val i.
Proof.
  unfold computeDomain. rewrite (proj2 (foldl_pushInst _ [] (NoDup_nil_2))). split.
  - intros [Hv|(i & Hi & ->)]; [by apply not_elem_of_nil in Hv|].
    apply list_elem_of_In, in_concat in Hi as (l & Hl & Hi). apply in_map_iff in Hl as (b & <- & Hb).
    exists b, i. rewrite !list_elem_of_In. done.
  - intros (b & i & Hb & Hi & ->). right. exists i. split; [|done].
    apply list_elem_of_In, in_concat. exists (insts b). split; [|by apply list_elem_of_In].
    apply in_map. by apply list_elem_of_In.
Qed.

Lemma dce_covered b : b ∈ f_blocks F -> covered domain (insts b).
Proof.
  intros Hb i Hi. split; [apply dce_domain; by exists b, i|]. intros v Hv Hin.
  apply dce_domain. destruct (ssa_closed _ _ HS b i v Hb Hi Hv Hin) as (d & k & ? & ? & ->). by exists d, k.
Qed.

Abbreviation start x := (mkLocals index (bv_make n false : V) x ∅).
Abbreviation rooted x b := (foldl (markRoot mayHaveSideEffects) (start x) (insts b)).
Abbreviation final x b := (foldl (stepBack n) (rooted x b) (rev (insts b))).

(** The values live at the end of the block, with its always-live instructions. *)
Definition atEnd (x : V) (b : blk) (v : value) : bool :=
  useOf domain x v || existsb (fun i => live i && bool_decide (i_val i = v)) (insts b).

Lemma rooted_spec x b : b ∈ f_blocks F -> okin x -> wfLocals domain (rooted x b) /\
  l_nv (rooted x b) = ∅ /\ forall v, v ∈ domain -> useOf domain (l_use (rooted x b)) v = atEnd x b v.
Proof.
  intros Hb Hx. apply (foldl_markRoot mayHaveSideEffects domain dce_domain_nodup).
  - split; simpl; [done|apply size_make|done|]. intros p v. by rewrite lookup_empty.
  - intros i Hi. by apply (dce_covered b Hb).
Qed.

Lemma dce_final_spec x b : b ∈ f_blocks F -> okin x -> wfLocals domain (final x b) /\
  (forall v, v ∈ domain -> useOf domain (l_use (final x b)) v = back (insts b) (atEnd x b) v) /\
  (forall j v p, domain !! j = Some v ->
     nvBit (l_nv (final x b)) p j = true <->
     exists i, i ∈ insts b /\ back (insts b) (atEnd x b) (i_val i) = true /\ takes i p v = true).
Proof.
  intros Hb Hx. destruct (rooted_spec x b Hb Hx) as (Hwf & Hn & Hu).
  pose proof (dce_covered b Hb) as Hc.
  destruct (foldl_stepBack domain dce_domain_nodup (insts b) _ Hwf Hc) as (Hwf' & Hu' & Hn').
  pose proof (back_ext domain (insts b) _ _ Hu Hc) as Hext.
  split; [done|]. split; [intros v Hv; by rewrite (Hu' v Hv), (Hext v Hv)|].
  intros j v p Hj. rewrite (Hn' j v p Hj), Hn. unfold nvBit, map_get. rewrite lookup_empty.
  simpl. rewrite bit_empty. cbn [orb]. rewrite backTakes_iff by by apply (ssa_forward _ _ HS).
  split; intros (i & Hi & Hbk & Ht); exists i; (split; [done|]);
    [rewrite <- Hext|rewrite Hext]; try done; by apply Hc.
Qed.

Lemma dce_transfer_eq x b : T x b = mkTransferOutput (genKill (l_def (final x b)) (l_use (final x b)) x) (l_nv (final x b)).
Proof. unfold transferFn. by rewrite index_size by apply dce_domain_nodup. Qed.

Lemma domain_at v : v ∈ domain -> exists j, domain !! j = Some v /\ j < n.
Proof. intros [j Hj]%list_elem_of_lookup. exists j. split; [done|]. by apply lookup_lt_Some in Hj. Qed.

(** One application of the transfer function: its element is the backward walk
    (nothing is killed, the use set starts from the input). *)
Lemma dce_bits x b j v : b ∈ f_blocks F -> okin x -> domain !! j = Some v ->
  bit (element (T x b)) j = back (insts b) (atEnd x b) v /\
  forall p, bit (contribution (T x b) p) j = true <->
    bit (element (T x b)) j = true \/
    exists i, i ∈ insts b /\ back (insts b) (atEnd x b) (i_val i) = true /\ takes i p v = true.
Proof.
  intros Hb Hx Hj. destruct (dce_final_spec x b Hb Hx) as (Hwf & Hu & Hn).
  assert (Hv : v ∈ domain) by by apply list_elem_of_lookup_2 in Hj.
  assert (He : bit (element (T x b)) j = back (insts b) (atEnd x b) v).
  { rewrite dce_transfer_eq. cbn [element]. rewrite genKill_bit
      by (rewrite (wl_def _ _ Hwf), (wl_use _ _ Hwf); done).
    rewrite <- (useOf_bit domain dce_domain_nodup (l_use (final x b)) j v Hj), (Hu v Hv).
    destruct (back (insts b) (atEnd x b) v) eqn:Eb; [done|]. cbn [orb].
    assert (bit x j = false) as ->; [|done].
    destruct (bit x j) eqn:Ex; [|done]. rewrite back_incl in Eb; [done|]. unfold atEnd.
    by rewrite (useOf_bit domain dce_domain_nodup x j v Hj), Ex. }
  split; [done|]. intros p. rewrite dce_transfer_eq in *. unfold contribution.
  cbn [element neighborVals] in *. specialize (Hn j v p Hj). unfold nvBit, map_get in Hn.
  destruct (l_nv (final x b) !! p) as [y|]; simpl in Hn.
  - by rewrite bit_or, orb_true_iff, Hn.
  - rewrite bit_empty in Hn. split; [by left|]. intros [?|Hx']; [done|]. by apply Hn in Hx'.
Qed.

Lemma atEnd_mono x y b : leqV UNION n x y -> forall v, v ∈ domain -> atEnd x b v = true -> atEnd y b v = true.
Proof.
  intros Hxy v Hv. destruct (domain_at v Hv) as (j & Hj & Hjn). unfold atEnd. rewrite !orb_true_iff.
  rewrite !(useOf_bit domain dce_domain_nodup _ j v Hj). intros [Hb|?]; [left|by right]. by apply (Hxy j Hjn).
Qed.

Lemma back_mono l U U' : covered domain l -> (forall v, v ∈ domain -> U v = true -> U' v = true) ->
  forall v, v ∈ domain -> back l U v = true -> back l U' v = true.
Proof.
  intros Hc HU. induction l as [|i l IH]; intros v Hv; simpl; [by apply HU|].
  assert (Hc' : covered domain l) by (intros k Hk; apply Hc; by right).
  rewrite !orb_true_iff, !andb_true_iff. intros [Hb|[Hb Hu]]; [left; by apply IH|right].
  split; [|done]. apply IH; [done| |done]. apply Hc. by left.
Qed.

Lemma dce_monotone : MonotoneAnalysis (V := V) (transferFn mayHaveSideEffects insts) UNION F domain okin.
Proof.
  split; try done.
  - intros x b Hb Hx. rewrite dce_transfer_eq. destruct (dce_final_spec x b Hb Hx) as (Hwf & _).
    apply genKill_size; apply Hwf.
  - intros x b b' v Hb Hx. rewrite dce_transfer_eq. destruct (dce_final_spec x b Hb Hx) as (Hwf & _).
    apply (wl_nv _ _ Hwf).
  - intros x y b Hb Hx Hy E. pose proof (dce_covered b Hb) as Hc.
    assert (Heq : forall v, v ∈ domain -> back (insts b) (atEnd x b) v = back (insts b) (atEnd y b) v).
    { intros v Hv. destruct (domain_at v Hv) as (j & Hj & Hjn).
      destruct (dce_bits x b j v Hb Hx Hj) as [<- _]. destruct (dce_bits y b j v Hb Hy Hj) as [<- _]. by rewrite E. }
    rewrite !dce_transfer_eq. cbn [neighborVals].
    destruct (rooted_spec x b Hb Hx) as (Hwx & Hnx & Hux). destruct (rooted_spec y b Hb Hy) as (Hwy & Hny & Huy).
    apply (foldl_stepBack_nv domain dce_domain_nodup); [done|done|done|by apply (ssa_forward _ _ HS)|congruence|].
    intros k Hk. assert (Hkd : i_val k ∈ domain) by by apply Hc.
    rewrite (back_ext domain _ _ _ Hux Hc _ Hkd), (back_ext domain _ _ _ Huy Hc _ Hkd). by apply Heq.
  - intros x y b Hb Hx Hy Hxy. pose proof (dce_covered b Hb) as Hc.
    pose proof (back_mono (insts b) _ _ Hc (atEnd_mono x y b Hxy)) as Hm.
    assert (Hle : forall j, j < n -> exists v, domain !! j = Some v /\ v ∈ domain).
    { intros j Hj. apply lookup_lt_is_Some in Hj as [v Hv]. exists v. split; [done|]. by apply list_elem_of_lookup_2 in Hv. }
    split.
    + intros j Hj. destruct (Hle j Hj) as (v & Hv & Hvd). unfold val.
      destruct (dce_bits x b j v Hb Hx Hv) as [-> _]. destruct (dce_bits y b j v Hb Hy Hv) as [-> _]. by apply Hm.
    + intros p j Hj. destruct (Hle j Hj) as (v & Hv & Hvd). unfold val.
      destruct (dce_bits x b j v Hb Hx Hv) as [Ex Hcx]. destruct (dce_bits y b j v Hb Hy Hv) as [Ey Hcy].
      rewrite Hcx, Hcy, Ex, Ey. intros [?|(i & Hi & Hbi & Ht)]; [left; by apply Hm|right].
      exists i. split; [done|]. split; [|done]. apply Hm; [|done]. by apply Hc.
Qed.
#[local] Existing Instance dce_monotone.

Lemma dce_initialised : wellInitialised BACKWARD UNION domain okin
  (interiorRes_both (V := V) BACKWARD (bv_make n false)).
Proof. apply (wellInitialised_asst3 BACKWARD UNION domain); [done|by right|apply size_make]. Qed.

Lemma dce_runWith fuel : analyse (V := V) mayHaveSideEffects insts fuel F =
  runWith (transferFn mayHaveSideEffects insts) BACKWARD UNION (interiorRes_both BACKWARD (bv_make n false))
    fuel F domain (bv_make n false).
Proof. done. Qed.

Abbreviation need := (needed live insts F).

Lemma back_needed b x : reachable F b -> b ∈ f_blocks F -> (forall j v, domain !! j = Some v -> bit x j = true -> need v) ->
  forall v, v ∈ domain -> back (insts b) (atEnd x b) v = true -> need v.
Proof.
  intros Hr Hb Hx. assert (Hroot : forall v, v ∈ domain -> atEnd x b v = true -> need v).
  { intros v Hv. destruct (domain_at v Hv) as (j & Hj & _). unfold atEnd. rewrite orb_true_iff.
    rewrite (useOf_bit domain dce_domain_nodup x j v Hj). intros [Hb'|He]; [by apply (Hx j)|].
    apply existsb_exists in He as (i & Hi & E). apply andb_true_iff in E as [El Ev].
    apply bool_decide_eq_true in Ev as <-. apply (needed_root _ _ _ b); [done|by apply list_elem_of_In|done]. }
  assert (Hsub : forall l, (forall i, i ∈ l -> i ∈ insts b) -> forall v, v ∈ domain ->
    back l (atEnd x b) v = true -> need v); [|by apply Hsub].
  induction l as [|i l IH]; intros Hl v Hv; simpl; [by apply Hroot|].
  assert (Hl' : forall k, k ∈ l -> k ∈ insts b) by (intros k Hk; apply Hl; by right).
  assert (Hi : i ∈ insts b) by (apply Hl; by left).
  rewrite orb_true_iff, andb_true_iff. intros [Hbk|[Hbk Hu]]; [by apply IH|].
  unfold uses in Hu. rewrite !andb_true_iff, negb_true_iff, bool_decide_eq_true in Hu.
  destruct Hu as [[Hp Hins] Hin].
  apply (needed_op _ _ _ b i); [done|done| |unfold operandOf; by rewrite Hp|done].
  apply (IH Hl'); [by apply (dce_covered b Hb)|done].
Qed.

(** Every bit is justified by a chain of uses from an always-live instruction. *)
Lemma dce_sound fuel out : analyse (V := V) mayHaveSideEffects insts fuel F = Done out ->
  forall b j v, domain !! j = Some v ->
  (bit (element (transferOutput (resultAt out b))) j = true -> need v) /\
  (forall p, bit (contribution (transferOutput (resultAt out b)) p) j = true -> need v).
Proof.
  rewrite dce_runWith. intros Hrun b.
  eapply (run_invariant_lemma (transferFn mayHaveSideEffects insts) BACKWARD UNION F domain okin HF
    _ dce_initialised
    (fun b t => forall j v, domain !! j = Some v -> (bit (element t) j = true -> need v) /\
       (forall p, bit (contribution t p) j = true -> need v))); [| |exact Hrun].
  - intros c. right. intros j v Hj.
    set (ini := initOf BACKWARD F _ _ c).
    assert (E : bit (element (transferOutput ini)) j = false).
    { unfold ini, initOf, boundaryRes, interiorRes_both.
      destruct (decide (c ∈ _)); [|destruct (decide (c ∈ f_blocks F))]; simpl;
        rewrite ?bit_make, ?bit_empty, ?andb_false_r; done. }
    assert (Hn : neighborVals (transferOutput ini) = ∅)
      by apply (init_nv BACKWARD UNION F domain okin _ dce_initialised).
    split; [by rewrite E|]. intros p. unfold contribution. rewrite Hn, lookup_empty, E. done.
  - intros c t Hc Hm j v Hj. pose proof (reachable_in_blocks F HF c Hc) as Hcb.
    set (x := match neighborList BACKWARD F c with [] => _ | _ => _ end).
    assert (Hx : okin x /\ forall j v, domain !! j = Some v -> bit x j = true -> need v).
    { unfold x. destruct (neighborList BACKWARD F c) as [|m l] eqn:En.
      - split; [by apply (init_in (transferFn mayHaveSideEffects insts) BACKWARD UNION F domain okin _ dce_initialised c)|].
        intros j' v' Hj'. unfold initOf, boundaryRes, interiorRes_both, blockInput.
        rewrite (decide_False (P := BACKWARD = FORWARD)) by done.
        destruct (decide (c ∈ _)); [|destruct (decide (c ∈ f_blocks F))]; simpl;
          rewrite ?bit_make, ?bit_empty, ?andb_false_r; done.
      - rewrite <- En in *. split.
        + apply size_meetV; [by rewrite En|]. intros y (m' & -> & Hm')%elem_of_map. by apply Hm.
        + intros j' v' Hj' Hb. apply (val_meetV_true UNION) in Hb as (y & Hy & Hb); [|by rewrite En].
          apply elem_of_map in Hy as (m' & -> & Hm'). destruct (Hm m' Hm') as [HQ _].
          by apply (proj2 (HQ j' v' Hj') c). }
    destruct Hx as [Hok Hx]. destruct (dce_bits x c j v Hcb Hok Hj) as [He Hcon].
    assert (Hvd : v ∈ domain) by by apply list_elem_of_lookup_2 in Hj.
    assert (Hel : bit (element (T x c)) j = true -> need v) by (rewrite He; by apply (back_needed c x)).
    split; [done|]. intros p Hb. apply Hcon in Hb as [Hb|(i & Hi & Hbi & Ht)]; [by apply Hel|].
    unfold takes in Ht. rewrite !andb_true_iff, bool_decide_eq_true in Ht. destruct Ht as [[Hphi Hins] Hin].
    apply (needed_op _ _ _ c i); [done|done| |unfold operandOf; rewrite Hphi; by exists p|done].
    apply (back_needed c x Hc Hcb Hx); [by apply (dce_covered c Hcb)|done].
Qed.

Section Computed.
Variable fuel : nat.
Variable out : DataFlowResult V value.
Hypothesis Hrun : analyse (V := V) mayHaveSideEffects insts fuel F = Done out.

Lemma dce_solved : domainToIndex out = index /\ forall b, reachable F b ->
  br_in (resultAt out b) = element (T (br_out (resultAt out b)) b) /\
  transferOutput (resultAt out b) = T (br_out (resultAt out b)) b /\ okin (br_out (resultAt out b)) /\
  (f_succs F b <> [] -> br_out (resultAt out b) =
     meetV UNION (map (fun m => contribution (transferOutput (resultAt out m)) b) (f_succs F b))).
Proof.
  pose proof Hrun as Hr. rewrite dce_runWith in Hr.
  apply (run_solves_lemma (transferFn mayHaveSideEffects insts) BACKWARD UNION F domain okin HF
    _ dce_initialised) in Hr as [Hi Hs].
  split; [done|]. intros b Hb. destruct (Hs b Hb) as [(E1 & E2 & E3) Hok].
  change (br_in ?r) with (blockOutput BACKWARD r). change (br_out ?r) with (blockInput BACKWARD r).
  split; [by rewrite E3, E2|]. split; [done|]. split; [done|]. intros Hne. rewrite E1. cbn [neighborList].
  by destruct (f_succs F b).
Qed.

(** The bit of a value in the IN set of a block. *)
Definition inSet (b : blk) (v : value) : Prop :=
  exists j, domain !! j = Some v /\ bit (br_in (resultAt out b)) j = true.

Lemma in_from_out b j v : reachable F b -> domain !! j = Some v ->
  bit (br_out (resultAt out b)) j = true -> bit (br_in (resultAt out b)) j = true.
Proof.
  intros Hb Hj Hbit. destruct (proj2 dce_solved b Hb) as (-> & _ & Hok & _).
  destruct (dce_bits _ b j v (reachable_in_blocks F HF b Hb) Hok Hj) as [-> _].
  apply back_incl. unfold atEnd. by rewrite (useOf_bit domain dce_domain_nodup _ j v Hj), Hbit.
Qed.

Lemma out_from_succ b c j : reachable F b -> c ∈ f_succs F b ->
  bit (contribution (transferOutput (resultAt out c)) b) j = true -> bit (br_out (resultAt out b)) j = true.
Proof.
  intros Hb Hc Hbit. destruct (proj2 dce_solved b Hb) as (_ & _ & _ & Hm).
  assert (Hne : f_succs F b <> []) by (intros E; rewrite E in Hc; by apply not_elem_of_nil in Hc).
  rewrite (Hm Hne). apply (val_meetV_true UNION); [by destruct (f_succs F b)|].
  exists (contribution (transferOutput (resultAt out c)) b). split; [apply elem_of_map; by exists c|done].
Qed.

Lemma in_flows_back b c v : leads F b c -> reachable F b -> inSet c v -> inSet b v.
Proof.
  induction 1 as [b|b c d Hc _ IH]; intros Hb Hv; [done|].
  assert (Hcr : reachable F c) by by apply (reach_step F b).
  destruct (IH Hcr Hv) as (j & Hj & Hbit). exists j. split; [done|].
  apply (in_from_out b j v Hb Hj), (out_from_succ b c j Hb Hc).
  destruct (proj2 dce_solved c Hcr) as (E & Et & Hok & _). rewrite Et.
  apply (dce_bits _ c j v (reachable_in_blocks F HF c Hcr) Hok Hj). left. by rewrite <- E.
Qed.

Lemma leads_reachable b c : reachable F b -> leads F b c -> reachable F c.
Proof. intros Hb Hl. induction Hl as [|b c d Hc _ IH]; [done|]. apply IH. by apply (reach_step F b). Qed.

Lemma dce_complete v : need v -> forall d k, reachable F d -> k ∈ insts d -> i_val k = v -> inSet d v.
Proof.
  induction 1 as [b i Hb Hi Hl|b i v Hb Hi Hn IH Ho Hins]; intros d k Hd Hk E.
  - destruct (ssa_unique _ _ HS d b k i) as [-> _]; try done; [by apply reachable_in_blocks..|].
    assert (Hv : i_val i ∈ domain) by by apply (dce_covered b (reachable_in_blocks F HF b Hb)).
    destruct (domain_at _ Hv) as (j & Hj & _). exists j. split; [done|].
    destruct (proj2 dce_solved b Hb) as (-> & _ & Hok & _).
    destruct (dce_bits _ b j _ (reachable_in_blocks F HF b Hb) Hok Hj) as [-> _].
    apply back_incl. unfold atEnd. apply orb_true_iff. right. apply existsb_exists. exists i.
    split; [by apply list_elem_of_In|]. by rewrite Hl, bool_decide_true.
  - subst v. assert (Hbb : b ∈ f_blocks F) by by apply reachable_in_blocks.
    assert (Hdd : d ∈ f_blocks F) by by apply reachable_in_blocks.
    destruct (IH b i Hb Hi eq_refl) as (ji & Hji & Hbi).
    destruct (proj2 dce_solved b Hb) as (Ein & Et & Hok & _).
    rewrite Ein in Hbi. rewrite (proj1 (dce_bits _ b ji _ Hbb Hok Hji)) in Hbi.
    assert (Hv : i_val k ∈ domain) by by apply (dce_covered d Hdd).
    destruct (domain_at _ Hv) as (j & Hj & _). unfold operandOf in Ho. destruct (isPHI i) eqn:Ep.
    + destruct Ho as (p & Hp). destruct (ssa_phi _ _ HS b i d k p Hb Hi Hdd Hk Hp) as (Hs & Hpr & Hlead).
      apply (in_flows_back d p); [done|done|]. exists j. split; [done|].
      apply (in_from_out p j _ Hpr Hj), (out_from_succ p b j Hpr Hs). rewrite Et.
      apply (dce_bits _ b j _ Hbb Hok Hj). right. exists i. split; [done|]. split; [done|].
      unfold takes. by rewrite Ep, Hins, bool_decide_true.
    + apply (in_flows_back d b); [by apply (ssa_use _ _ HS b i d k)|done|]. exists j. split; [done|].
      rewrite Ein. rewrite (proj1 (dce_bits _ b j _ Hbb Hok Hj)).
      apply (back_closed _ _ i); [by apply (ssa_forward _ _ HS)|done|done|].
      unfold uses. by rewrite Ep, Hins, bool_decide_true.
Qed.

Lemma dce_in_iff b j i : reachable F b -> i ∈ insts b -> domain !! j = Some (i_val i) ->
  bit (br_in (resultAt out b)) j = true <-> need (i_val i).
Proof.
  intros Hb Hi Hj. split.
  - intros Hbit. destruct (proj2 dce_solved b Hb) as (E & Et & _). rewrite E, <- Et in Hbit.
    by apply (proj1 (dce_sound fuel out Hrun b j _ Hj)).
  - intros Hn. destruct (dce_complete _ Hn b i Hb Hi eq_refl) as (j' & Hj' & Hbit).
    by rewrite (NoDup_lookup _ _ _ _ dce_domain_nodup Hj Hj').
Qed.

End Computed.

Lemma dce_done : exists out,
  analyse (V := V) mayHaveSideEffects insts (length (f_po F) * n + 2) F = Done out.
Proof.
  apply (run_done_lemma (transferFn mayHaveSideEffects insts) BACKWARD UNION F domain okin HF
    _ dce_initialised). simpl. lia.
Qed.

(** C13: The strong-liveness analysis of dead code elimination terminates, and on
    functions in SSA form the IN set of a reachable block holds exactly those
    of its instructions that are needed: they are always live, or a chain of
    uses leads from an always-live instruction to them, phi edges included. *)
Theorem dce_exact : exists out,
  analyse (V := V) mayHaveSideEffects insts (length (f_po F) * length (computeDomain insts F) + 2) F = Done out /\
  forall b j i, reachable F b -> i ∈ insts b -> computeDomain insts F !! j = Some (i_val i) ->
    bit (br_in (resultAt out b)) j = true <-> needed (alwaysLive mayHaveSideEffects) insts F (i_val i).
Proof. destruct dce_done as [out Hrun]. exists out. split; [done|]. by apply (dce_in_iff _ _ Hrun). Qed.

End Exact.

(** ** What deletion does *)

Section Deleted.
Context {V : Type} `{BitVectorAPI V}.
Variable mayHaveSideEffects : inst -> bool.
Variable F : Function.
Variable bd0 : blk -> list inst.
Hypothesis Hunique : forall b b' i i', b ∈ f_blocks F -> b' ∈ f_blocks F -> i ∈ bd0 b -> i' ∈ bd0 b' ->
  i_id i = i_id i' -> b = b' /\ i = i'.

(** The body without the instructions at some addresses. *)
Definition without (gone : list nat) (b : blk) : list inst := filter (fun i => i_id i ∉ gone) (bd0 b).

(** [bd] lacks the instructions [gone], which have no effect of their own and
    are not used by what is left. *)
Record erased (gone : list nat) (bd : blk -> list inst) : Prop := {
  er_body b : b ∈ f_blocks F -> bd b = without gone b;
  er_pure id : id ∈ gone -> exists d k, d ∈ f_blocks F /\ k ∈ bd0 d /\ i_id k = id /\
    alwaysLive mayHaveSideEffects k = false;
  er_unused id b i : id ∈ gone -> b ∈ f_blocks F -> i ∈ bd b -> VInst id ∉ i_ops i
}.

Lemma erased_start : erased [] bd0.
Proof.
  split; [|intros id Hid; by apply not_elem_of_nil in Hid|intros id b i Hid; by apply not_elem_of_nil in Hid].
  intros b _. symmetry. apply filter_keeps. intros i _. apply not_elem_of_nil.
Qed.

Lemma use_empty_spec bd v b i : use_empty F bd v = true -> b ∈ f_blocks F -> i ∈ bd b -> v ∉ i_ops i.
Proof.
  intros Hu Hb Hi. unfold use_empty in Hu. rewrite forallb_forall in Hu.
  specialize (Hu b ltac:(by apply list_elem_of_In)). rewrite forallb_forall in Hu.
  specialize (Hu i ltac:(by apply list_elem_of_In)). by rewrite negb_true_iff, bool_decide_eq_false in Hu.
Qed.

Lemma without_cons id gone b : without (id :: gone) b = filter (fun i => i_id i <> id) (without gone b).
Proof.
  unfold without. rewrite list_filter_filter. apply list_filter_iff.
  intros i. rewrite not_elem_of_cons. tauto.
Qed.

Lemma erase_step gone bd b k : erased gone bd -> b ∈ f_blocks F -> k ∈ bd0 b ->
  alwaysLive mayHaveSideEffects k = false -> use_empty F bd (i_val k) = true ->
  erased (i_id k :: gone) (eraseFromParent b k bd).
Proof.
  intros He Hb Hk Hl Hu. assert (Hsub : forall c i, i ∈ eraseFromParent b k bd c -> i ∈ bd c).
  { intros c i. unfold eraseFromParent. case_decide; [|done]. by intros [_ ?]%list_elem_of_filter. }
  split.
  - intros c Hc. unfold eraseFromParent. rewrite without_cons, <- (er_body _ _ He c Hc).
    case_decide as E; [done|]. symmetry. apply filter_keeps. intros i Hi Eid.
    rewrite (er_body _ _ He c Hc) in Hi. apply list_elem_of_filter in Hi as [_ Hi].
    apply E. by apply (Hunique c b i k).
  - intros id [->|Hid]%elem_of_cons; [by exists b, k|by apply (er_pure _ _ He)].
  - intros id c i Hid Hc Hi. apply Hsub in Hi. apply elem_of_cons in Hid as [->|Hid].
    + by apply (use_empty_spec bd (i_val k) c i).
    + by apply (er_unused _ _ He id c).
Qed.

Lemma deleteAll_erased b dead : forall gone bd, b ∈ f_blocks F ->
  (forall k, k ∈ dead -> k ∈ bd0 b /\ alwaysLive mayHaveSideEffects k = false) ->
  erased gone bd -> exists gone', erased gone' (deleteAll F b dead bd).
Proof.
  induction dead as [|k dead IH]; intros gone bd Hb Hd He; [by exists gone|]. unfold deleteAll. cbn [foldl].
  destruct (Hd k) as [Hk Hl]; [by left|]. destruct (use_empty F bd (i_val k)) eqn:Hu.
  - apply (IH (i_id k :: gone)); [done| |by apply erase_step]. intros j Hj. apply Hd. by right.
  - apply (IH gone); [done| |done]. intros j Hj. apply Hd. by right.
Qed.

Lemma deleteBlocks_erased domain (out : DataFlowResult V value) blocks : forall gone bd m,
  (forall b, b ∈ blocks -> b ∈ f_blocks F) -> erased gone bd ->
  exists gone', erased gone' (snd (deleteBlocks mayHaveSideEffects F domain out blocks m bd)).
Proof.
  induction blocks as [|b blocks IH]; intros gone bd m Hb He; [by exists gone|]. cbn [deleteBlocks].
  assert (Hbf : b ∈ f_blocks F) by (apply Hb; by left).
  destruct (deleteAll_erased b (deleteSet mayHaveSideEffects domain out
    (br_in (map_get BlockResult0 (result out) b)) (bd b)) gone bd Hbf) as [gone1 He1]; [|done|].
  - intros k Hk. apply list_elem_of_filter in Hk as [(Hl & _) Hk]. split; [|done].
    apply list_elem_of_In, in_rev, list_elem_of_In in Hk. rewrite (er_body _ _ He b Hbf) in Hk.
    by apply list_elem_of_filter in Hk as [_ Hk].
  - apply (IH gone1); [|done]. intros c Hc. apply Hb. by right.
Qed.

End Deleted.

(** ** Deleting without changing the meaning *)

Section Meaning.
Variable ext : value -> option Z.
Variable World : Type.
Variable other : opcode -> option Z -> nat -> World -> list (option Z) -> option (option Z * World).

(** Environments that agree except on deleted instructions. *)
Definition agree (gone : list nat) (e1 e2 : gmap nat Z) : Prop :=
  forall v, (forall id, id ∈ gone -> v <> VInst id) -> eval ext e1 v = eval ext e2 v.

Lemma exec_without gone l : forall e1 e2 m e1' m', agree gone e1 e2 ->
  (forall i, i ∈ l -> i_id i ∈ gone -> forall e m e' m', execInst ext World other (e, m) i = Some (e', m') -> m' = m) ->
  (forall i id, i ∈ l -> i_id i ∉ gone -> id ∈ gone -> VInst id ∉ i_ops i) ->
  execBlock ext World other (e1, m) l = Some (e1', m') ->
  exists e2', execBlock ext World other (e2, m) (filter (fun i => i_id i ∉ gone) l) = Some (e2', m') /\
    agree gone e1' e2'.
Proof.
  induction l as [|i l IH]; intros e1 e2 m e1' m' Ha Hpure Hun Hx.
  { cbn in Hx. injection Hx as <- <-. by exists e2. }
  cbn [execBlock] in Hx.
  destruct (execInst ext World other (e1, m) i) as [[ea ma]|] eqn:Ei; [|done]. simpl in Hx.
  assert (Hpure' : forall j, j ∈ l -> i_id j ∈ gone -> forall e m e' m',
    execInst ext World other (e, m) j = Some (e', m') -> m' = m) by (intros j Hj; apply Hpure; by right).
  assert (Hun' : forall j id, j ∈ l -> i_id j ∉ gone -> id ∈ gone -> VInst id ∉ i_ops j)
    by (intros j id Hj; apply Hun; by right).
  destruct (decide (i_id i ∈ gone)) as [Hg|Hg].
  - rewrite filter_cons_False by tauto. pose proof (Hpure i ltac:(by left) Hg _ _ _ _ Ei) as ->.
    apply execInst_result in Ei as (r & -> & _). apply (IH _ e2 m e1' m') with (4 := Hx); try done.
    intros v Hv. rewrite eval_setResult by by apply Hv. by apply Ha.
  - rewrite filter_cons_True by done. cbn [execBlock].
    apply execInst_result in Ei as (r & -> & Hs). specialize (Hs e2 (fun v => v)).
    replace (substI (fun v => v) i) with i in Hs
      by (unfold substI; rewrite map_id; by destruct i).
    rewrite Hs.
    + simpl. apply (IH _ (setResult e2 (i_id i) r) ma e1' m') with (4 := Hx); try done.
      intros v Hv. destruct (decide (v = VInst (i_id i))) as [->|Hne].
      * apply eval_setResult_eq. by apply Ha.
      * rewrite !eval_setResult by done. by apply Ha.
    + intros _ v Hv. apply Ha. intros id Hid ->. by apply (Hun i id ltac:(by left) Hg Hid).
Qed.

End Meaning.

Section Claims.
Context {V : Type} `{BitVectorAPI V}.
Variable mayHaveSideEffects : inst -> bool.
Variable F : Function.
Variable bd : blk -> list inst.

Lemma runOnFunction_erased fuel m bd' : CFGLaws F -> SSAForm bd F ->
  runOnFunction (V := V) mayHaveSideEffects fuel F bd = Done (m, bd') ->
  exists gone, erased mayHaveSideEffects F bd gone bd'.
Proof.
  intros HF HS. unfold runOnFunction. rewrite obind_Done. intros (out & _ & [= E]).
  assert (Hu : forall b b' i i', b ∈ f_blocks F -> b' ∈ f_blocks F -> i ∈ bd b -> i' ∈ bd b' ->
    i_id i = i_id i' -> b = b' /\ i = i').
  { intros b b' i i' Hb Hb' Hi Hi' Eid. apply (ssa_unique _ _ HS); try done. unfold i_val. by rewrite Eid. }
  destruct (deleteBlocks_erased mayHaveSideEffects F bd Hu (computeDomain bd F) out (f_po F) [] bd false)
    as [gone He].
  - intros b Hb. apply (reachable_in_blocks F HF). by apply (cfg_po F HF).
  - apply erased_start.
  - exists gone. by rewrite E in He.
Qed.

(** Dead code elimination only deletes: the new body is the old one without
    a set of instructions, none of them always live and none of them used by an
    instruction that is left, so every remaining operand is still defined. *)
Theorem dce_safe fuel m bd' : CFGLaws F -> SSAForm bd F ->
  runOnFunction (V := V) mayHaveSideEffects fuel F bd = Done (m, bd') ->
  exists gone : list nat,
    (forall b, b ∈ f_blocks F -> bd' b = filter (fun i => i_id i ∉ gone) (bd b)) /\
    (forall b i, b ∈ f_blocks F -> i ∈ bd b -> alwaysLive mayHaveSideEffects i = true -> i ∈ bd' b) /\
    (forall b i d k, b ∈ f_blocks F -> d ∈ f_blocks F -> i ∈ bd' b -> k ∈ bd d ->
       i_val k ∈ i_ops i -> k ∈ bd' d).
Proof.
  intros HF HS Hrun. destruct (runOnFunction_erased fuel m bd' HF HS Hrun) as [gone He].
  exists gone. split; [apply He|]. split.
  - intros b i Hb Hi Hl. rewrite (er_body _ _ _ _ _ He b Hb). apply list_elem_of_filter. split; [|done].
    intros Hg. destruct (er_pure _ _ _ _ _ He _ Hg) as (d & k & Hd & Hk & Eid & Hp).
    destruct (ssa_unique _ _ HS b d i k) as [_ ->]; try done; [unfold i_val; by rewrite Eid|congruence].
  - intros b i d k Hb Hd Hi Hk Hin. rewrite (er_body _ _ _ _ _ He d Hd). apply list_elem_of_filter.
    split; [|done]. intros Hg. by apply (er_unused _ _ _ _ _ He _ b i Hg Hb Hi).
Qed.

(** C14: Dead code elimination preserves the meaning of every block, given that
    instructions without side effects leave the world alone: if the old block
    runs to its end so does the new one, with the same final world, and they
    agree on every value that was not deleted. *)
Theorem dce_preserves ext World other fuel m bd' : CFGLaws F -> SSAForm bd F ->
  (forall b i e w e' w', b ∈ f_blocks F -> i ∈ bd b -> alwaysLive mayHaveSideEffects i = false ->
     execInst ext World other (e, w) i = Some (e', w') -> w' = w) ->
  runOnFunction (V := V) mayHaveSideEffects fuel F bd = Done (m, bd') ->
  exists gone : list nat, forall b e w e1 w1, b ∈ f_blocks F ->
    execBlock ext World other (e, w) (bd b) = Some (e1, w1) ->
    exists e2, execBlock ext World other (e, w) (bd' b) = Some (e2, w1) /\
      agree ext gone e1 e2 /\
      (forall id, id ∈ gone -> forall i, i ∈ bd' b -> VInst id ∉ i_ops i).
Proof.
  intros HF HS Hpure Hrun. destruct (runOnFunction_erased fuel m bd' HF HS Hrun) as [gone He].
  exists gone. intros b e w e1 w1 Hb Hx. rewrite (er_body _ _ _ _ _ He b Hb).
  destruct (exec_without ext World other gone (bd b) e e w e1 w1) as (e2 & He2 & Ha); try done.
  - intros i Hi Hg e' w' e'' w'' Hex.
    destruct (er_pure _ _ _ _ _ He _ Hg) as (d & k & Hd & Hk & Eid & Hp).
    destruct (ssa_unique _ _ HS d b k i) as [_ ->]; try done; [unfold i_val; by rewrite Eid|].
    by apply (Hpure b i e' w' e'' w'').
  - intros i id Hi Hg Hid. apply (er_unused _ _ _ _ _ He id b i Hid Hb).
    rewrite (er_body _ _ _ _ _ He b Hb). by apply list_elem_of_filter.
  - exists e2. split; [done|]. split; [done|]. intros id Hid i Hi.
    apply (er_unused _ _ _ _ _ He id b i Hid Hb). by rewrite (er_body _ _ _ _ _ He b Hb).
Qed.

End Claims.

(** ** Examples *)

(** The counted loop with a dead multiplication [i5]. *)
Definition deadMulInsts (b : blk) : list inst :=
  match b with
  | 0 => [mkInst 20 "" None Terminator [VOther 1]]
  | 1 => [mkInst 1 "i" (Some 32%Z) (PHI [0; 2]) [VConstInt 32 0; VInst 2];
          mkInst 21 "" None Terminator [VArg 0; VOther 3; VOther 2]]
  | 2 => [mkInst 2 "inc" (Some 32%Z) (Binary Add) [VInst 1; VConstInt 32 1];
          mkInst 5 "sq" (Some 32%Z) (Binary Mul) [VInst 1; VInst 2];
          mkInst 22 "" None Terminator [VOther 1]]
  | 3 => [mkInst 23 "" None Ret [VInst 1]]
  | _ => []
  end.

(** A loop whose counter nothing uses: [i1] and [i2] only use each other. *)
Definition deadCycleInsts (b : blk) : list inst :=
  match b with
  | 0 => [mkInst 20 "" None Terminator [VOther 1]]
  | 1 => [mkInst 1 "i" (Some 32%Z) (PHI [0; 2]) [VConstInt 32 0; VInst 2];
          mkInst 21 "" None Terminator [VArg 0; VOther 3; VOther 2]]
  | 2 => [mkInst 2 "inc" (Some 32%Z) (Binary Add) [VInst 1; VConstInt 32 1];
          mkInst 22 "" None Terminator [VOther 1]]
  | 3 => [mkInst 23 "" None Ret [VArg 0]]
  | _ => []
  end.

Definition noEffects (i : inst) : bool := false.

Lemma loop_leads : leads loopF 1 1 /\ leads loopF 1 2 /\ leads loopF 1 3 /\ leads loopF 2 2.
Proof.
  assert (leads loopF 1 2) by (apply (leads_step _ 1 2); [simpl; in_list|constructor]).
  assert (leads loopF 1 3) by (apply (leads_step _ 1 3); [simpl; in_list|constructor]).
  repeat split; try done; constructor.
Qed.

(** Cases on the instructions of the example and on their operands. *)
Ltac inst_cases :=
  repeat match goal with H : _ ∈ deadMulInsts _ |- _ => progress (cbn in H) end; blocks_in.
Ltac operand_cases :=
  repeat match goal with
  | H : _ ∈ _ :: _ |- _ =>
      let E := fresh "E" in apply elem_of_cons in H as [E|H]; [try discriminate E|]
  | H : _ ∈ [] |- _ => exfalso; by apply not_elem_of_nil in H
  end.

Lemma deadMul_ssa : SSAForm deadMulInsts loopF.
Proof.
  destruct loop_leads as (L11 & L12 & L13 & L22). split.
  - intros b i v Hb Hi Hv Hin. change (b ∈ [0; 1; 2; 3]) in Hb. blocks_in; inst_cases; cbn in Hv; blocks_in;
      try discriminate Hin;
      first [exists 1; eexists; split; [cbn; in_list|split; [cbn; in_list|reflexivity]]
            |exists 2; eexists; split; [cbn; in_list|split; [cbn; in_list|reflexivity]]].
  - intros b Hb. change (b ∈ [0; 1; 2; 3]) in Hb.
    blocks_in; repeat split; try (intros Hp v Hv; first [discriminate Hp|cbn in Hv; blocks_in]);
      cbn; rewrite ?not_elem_of_cons; repeat split; try discriminate; apply not_elem_of_nil.
  - intros b b' i i' Hb Hb' Hi Hi' E. change (b ∈ [0; 1; 2; 3]) in Hb. change (b' ∈ [0; 1; 2; 3]) in Hb'.
    blocks_in; inst_cases; first [discriminate E|by split].
  - intros b i d k Hb Hi Hp Hd Hk Hin. apply loopF_reach in Hb. change (d ∈ [0; 1; 2; 3]) in Hd.
    blocks_in; inst_cases; try discriminate Hp; cbn in Hin; operand_cases; done.
  - intros b i d k p Hb Hi Hd Hk Hin. apply loopF_reach in Hb. change (d ∈ [0; 1; 2; 3]) in Hd.
    blocks_in; inst_cases; cbn in Hin; operand_cases;
      match goal with E : (_, _) = (_, _) |- _ => injection E as -> end;
      (split; [cbn; in_list|]); (split; [apply loopF_reach; in_list|done]).
Qed.

Lemma dce_exact_witness : exists out,
  analyse (V := ListBits.t) noEffects deadMulInsts 30 loopF = Done out /\
  bit (br_in (resultAt out 2)) 4 = false /\ ~ needed (alwaysLive noEffects) deadMulInsts loopF (VInst 5) /\
  needed (alwaysLive noEffects) deadMulInsts loopF (VInst 2).
Proof.
  destruct (dce_exact (V := ListBits.t) noEffects deadMulInsts loopF loopF_laws deadMul_ssa)
    as (out & Hrun & Hex).
  change (length (f_po loopF) * length (computeDomain deadMulInsts loopF) + 2) with 30 in Hrun.
  assert (E : obind (analyse (V := ListBits.t) noEffects deadMulInsts 30 loopF)
    (fun o => Done (bit (br_in (resultAt o 2)) 4, bit (br_in (resultAt o 2)) 3)) = Done (false, true))
    by (vm_compute; reflexivity).
  rewrite Hrun in E. injection E as E4 E3. exists out.
  assert (Hr : reachable loopF 2) by (apply loopF_reach; in_list).
  split; [|split; [exact E4|split]].
  - exact Hrun.
  - intros Hn. apply (Hex 2 4 (mkInst 5 "sq" (Some 32%Z) (Binary Mul) [VInst 1; VInst 2])) in Hn.
    + rewrite E4 in Hn. discriminate Hn.
    + exact Hr.
    + simpl. in_list.
    + reflexivity.
  - apply (Hex 2 3 (mkInst 2 "inc" (Some 32%Z) (Binary Add) [VInst 1; VConstInt 32 1])).
    + exact Hr.
    + simpl. in_list.
    + reflexivity.
    + exact E3.
Defined.

(** The result of a run, on the blocks of the example. *)
Definition shownResult (o : outcome (bool * (blk -> list inst))) : option (bool * list (list nat)) :=
  match o with
  | Done (m, bd) => Some (m, map (fun b => map i_id (bd b)) [0; 1; 2; 3])
  | _ => None
  end.

Lemma dce_safe_witness : exists m bd',
  runOnFunction (V := ListBits.t) noEffects 30 loopF deadMulInsts = Done (m, bd') /\
  m = true /\ map i_id (bd' 2) = [2; 22] /\
  (forall b i, b ∈ f_blocks loopF -> i ∈ deadMulInsts b -> alwaysLive noEffects i = true -> i ∈ bd' b).
Proof.
  assert (E : shownResult (runOnFunction (V := ListBits.t) noEffects 30 loopF deadMulInsts) =
    Some (true, [[20]; [1; 21]; [2; 22]; [23]])) by (vm_compute; reflexivity).
  destruct (runOnFunction (V := ListBits.t) noEffects 30 loopF deadMulInsts) as [[m bd']| |] eqn:Hrun;
    [|discriminate E|discriminate E].
  injection E as Em _ _ E2 _. exists m, bd'. split; [reflexivity|]. split; [exact Em|]. split; [exact E2|].
  destruct (dce_safe (V := ListBits.t) noEffects loopF deadMulInsts 30 m bd' loopF_laws deadMul_ssa Hrun)
    as (gone & _ & Hkeep & _). exact Hkeep.
Defined.

Definition noValues (v : value) : option Z := None.
Definition doNothing (o : opcode) (t : option Z) (id : nat) (w : nat) (vs : list (option Z))
  : option (option Z * nat) := Some (None, w).

Lemma dce_preserves_witness : exists m bd' gone,
  runOnFunction (V := ListBits.t) noEffects 30 loopF deadMulInsts = Done (m, bd') /\
  forall b e w e1 w1, b ∈ f_blocks loopF ->
    execBlock noValues nat doNothing (e, w) (deadMulInsts b) = Some (e1, w1) ->
    exists e2, execBlock noValues nat doNothing (e, w) (bd' b) = Some (e2, w1) /\ agree noValues gone e1 e2.
Proof.
  destruct (runOnFunction (V := ListBits.t) noEffects 30 loopF deadMulInsts) as [[m bd']| |] eqn:Hrun;
    [|vm_compute in Hrun; discriminate Hrun|vm_compute in Hrun; discriminate Hrun].
  destruct (dce_preserves (V := ListBits.t) noEffects loopF deadMulInsts noValues nat doNothing 30 m bd'
    loopF_laws deadMul_ssa) as (gone & Hg); [|exact Hrun|].
  - intros b i e w e' w' _ _ _. apply execInst_world. intros o t id w0 vs r w1 E. injection E as _ E.
    by rewrite E.
  - exists m, bd', gone. split; [reflexivity|]. intros b e w e1 w1 Hb Hx.
    destruct (Hg b e w e1 w1 Hb Hx) as (e2 & He & Ha & _). exists e2. split; [exact He|exact Ha].
Defined.

(** Finding.  On a loop counter that only feeds itself the pass deletes
    nothing, since neither instruction is free of uses, and still reports that
    it modified the function. *)
Theorem dce_dead_cycle_kept : exists bd',
  runOnFunction (V := ListBits.t) noEffects 30 loopF deadCycleInsts = Done (true, bd') /\
  (forall b, b ∈ f_blocks loopF -> bd' b = deadCycleInsts b) /\
  ~ needed (alwaysLive noEffects) deadCycleInsts loopF (VInst 1).
Proof.
  assert (E : match runOnFunction (V := ListBits.t) noEffects 30 loopF deadCycleInsts with
    | Done (m, bd) => Some (m, map bd [0; 1; 2; 3]) | _ => None end =
    Some (true, map deadCycleInsts [0; 1; 2; 3])) by (vm_compute; reflexivity).
  destruct (runOnFunction (V := ListBits.t) noEffects 30 loopF deadCycleInsts) as [[m bd']| |]; try done.
  injection E as -> E0 E1 E2 E3. exists bd'. split; [done|]. split.
  - intros b Hb. change (b ∈ [0; 1; 2; 3]) in Hb. blocks_in; done.
  - assert (Hinv : forall v, needed (alwaysLive noEffects) deadCycleInsts loopF v -> v <> VInst 1 /\ v <> VInst 2).
    { induction 1 as [b i Hb Hi Hl|b i v Hb Hi _ IH Ho Hin]; apply loopF_reach in Hb.
      - blocks_in; cbn in Hi; blocks_in; done.
      - blocks_in; cbn in Hi; blocks_in; cbn in IH, Ho; try tauto;
          blocks_in; try discriminate Hin; destruct Ho as (p & Ho); operand_cases; done. }
    intros Hn. by apply Hinv in Hn as [? _].
Qed.

End DCE.
