(* ===== verification/DomTree.v ===== *)
(** * The dominance tree built by getDominanceTree (asst3/LICM/dominance.cpp)

    The nodes are shared objects on a heap, linked both ways.  The tree is
    shown to be what the immediate-dominator map describes. *)

From stdpp Require Import gmap list strings.
From S2P Require Import Prelude LLVM IR Dataflow DataflowTheory DataflowRun MustAnalysis Examples Dominance.

Section Tree.
Variable idom : gmap (option blk) (option blk).
Variable header : blk.

(** The parent block of a loop block in the tree: none for the header. *)
Definition parentOf (b : blk) : option blk :=
  if decide (b = header) then None else map_get None idom (Some b).

(** The node of a block. *)
Abbreviation at_ st p := (ts_lookup st !! p).

Record treeInv (seen : list blk) (st : treeState) : Prop := {
  ti_lookup p m : at_ st p = Some m <-> exists nd, ts_heap st !! m = Some nd /\ n_block nd = p;
  ti_seen b : b ∈ seen -> is_Some (at_ st (Some b)) /\ is_Some (at_ st (parentOf b));
  ti_nodes : map Some (ts_nodes st) = map (fun b => at_ st (Some b)) seen;
  ti_children m nd : ts_heap st !! m = Some nd ->
    map Some (children nd) = map (fun b => at_ st (Some b)) (filter (fun b => parentOf b = n_block nd) seen);
  ti_parent m nd : ts_heap st !! m = Some nd ->
    parent nd = match n_block nd with
                | Some b => if decide (b ∈ seen) then at_ st (parentOf b) else None
                | None => None
                end;
  ti_idom k : map_get None (ts_idom st) k = map_get None idom k
}.

Lemma nodeOf_spec seen st p : treeInv seen st -> let '(n, st') := nodeOf st p in
  treeInv seen st' /\ at_ st' p = Some n /\ (forall q m, at_ st q = Some m -> at_ st' q = Some m).
Proof.
  intros Hi. unfold nodeOf. destruct (at_ st p) as [n|] eqn:Ep; [done|].
  set (n := length (ts_heap st)). cbn [ts_lookup]. rewrite lookup_insert_eq.
  assert (Hold : forall q m, at_ st q = Some m -> <[p := n]> (ts_lookup st) !! q = Some m).
  { intros q m Hq. rewrite lookup_insert_ne; [done|]. intros <-. congruence. }
  assert (Hsame : forall b, b ∈ seen -> <[p := n]> (ts_lookup st) !! Some b = at_ st (Some b) /\
    <[p := n]> (ts_lookup st) !! parentOf b = at_ st (parentOf b)).
  { intros b Hb. destruct (ti_seen _ _ Hi b Hb) as [[m Hm] [m' Hm']]. rewrite Hm, Hm'.
    split; by apply Hold. }
  split; [|done]. split; cbn [ts_lookup ts_heap ts_nodes ts_idom].
  - intros q m. rewrite lookup_insert. case_decide as E.
    + subst q. split.
      * intros [= <-]. eexists. split; [apply list_lookup_middle; done|done].
      * intros (nd & Hnd & Hb). apply lookup_snoc_Some in Hnd as [[_ Hnd]|[-> _]]; [|done].
        rewrite (proj2 (ti_lookup _ _ Hi p m)) in Ep; [done|]. by exists nd.
    + rewrite (ti_lookup _ _ Hi q m). split; intros (nd & Hnd & Hb); exists nd; (split; [|done]).
      * by apply lookup_app_l_Some.
      * apply lookup_snoc_Some in Hnd as [[_ Hnd]|[_ <-]]; [done|by simpl in Hb].
  - intros b Hb. destruct (Hsame b Hb) as [-> ->]. by apply (ti_seen _ _ Hi).
  - rewrite (ti_nodes _ _ Hi). apply map_ext_elem. intros b Hb. by destruct (Hsame b Hb) as [-> _].
  - intros m nd Hnd. apply lookup_snoc_Some in Hnd as [[_ Hnd]|[_ <-]].
    + rewrite (ti_children _ _ Hi m nd Hnd). apply map_ext_elem. intros b Hb.
      apply list_elem_of_filter in Hb as [_ Hb]. by destruct (Hsame b Hb) as [-> _].
    + simpl. destruct (filter _ seen) as [|b l] eqn:Ef; [done|].
      assert (Hb : b ∈ filter (fun b => parentOf b = p) seen) by (rewrite Ef; by left).
      apply list_elem_of_filter in Hb as [Hp Hb]. destruct (ti_seen _ _ Hi b Hb) as [_ [m' Hm']]. congruence.
  - intros m nd Hnd. apply lookup_snoc_Some in Hnd as [[_ Hnd]|[_ <-]].
    + rewrite (ti_parent _ _ Hi m nd Hnd). destruct (n_block nd) as [b|]; [|done].
      case_decide as Hb; [|done]. by destruct (Hsame b Hb) as [_ ->].
    + simpl. destruct p as [b|]; [|done]. case_decide as Hb; [|done].
      destruct (ti_seen _ _ Hi b Hb) as [[m' Hm'] _]. congruence.
  - apply (ti_idom _ _ Hi).
Qed.

(** The two updates of the heap. *)
Lemma linked_lookup n pn h m nd' : add_child pn n (set_parent n pn h) !! m = Some nd' <->
  exists nd, h !! m = Some nd /\
    nd' = mkNode (children nd ++ (if decide (m = pn) then [n] else []))
                 (if decide (m = n) then Some pn else parent nd) (n_block nd).
Proof.
  assert (E : add_child pn n (set_parent n pn h) !! m =
    (fun nd => mkNode (children nd ++ (if decide (m = pn) then [n] else []))
                 (if decide (m = n) then Some pn else parent nd) (n_block nd)) <$> h !! m).
  { unfold add_child, set_parent. rewrite !list_lookup_alter.
    repeat case_decide; subst; try congruence;
      match goal with |- context [h !! ?k] => destruct (h !! k) as [[ch pa bl]|] end; simpl;
      by rewrite ?app_nil_r. }
  rewrite E, fmap_Some. done.
Qed.

Lemma link_inv seen st b n pn : treeInv seen st -> b ∉ seen -> at_ st (Some b) = Some n ->
  at_ st (parentOf b) = Some pn ->
  treeInv (seen ++ [b]) (mkTreeState (add_child pn n (set_parent n pn (ts_heap st))) (ts_lookup st)
    (ts_idom st) (ts_nodes st ++ [n])).
Proof.
  intros Hi Hb Hn Hpn. split; cbn [ts_lookup ts_heap ts_nodes ts_idom].
  - intros p m. rewrite (ti_lookup _ _ Hi p m). split.
    + intros (nd & Hnd & Hp). eexists. split; [apply linked_lookup; by exists nd|done].
    + intros (nd' & Hnd' & Hp). apply linked_lookup in Hnd' as (nd & Hnd & ->). by exists nd.
  - intros c Hc. apply elem_of_app in Hc as [Hc| ->%list_elem_of_singleton]; [by apply (ti_seen _ _ Hi)|eauto].
  - rewrite !map_app, (ti_nodes _ _ Hi). simpl. by rewrite Hn.
  - intros m nd' Hnd'. apply linked_lookup in Hnd' as (nd & Hnd & ->). cbn [children n_block].
    rewrite filter_app, !map_app, (ti_children _ _ Hi m nd Hnd). f_equal.
    assert (Hiff : m = pn <-> parentOf b = n_block nd).
    { split.
      - intros ->. apply (ti_lookup _ _ Hi) in Hpn as (nd0 & Hnd0 & <-). by rewrite Hnd in Hnd0; injection Hnd0 as <-.
      - intros E. assert (at_ st (n_block nd) = Some m) as Hm by (apply (ti_lookup _ _ Hi); by exists nd).
        rewrite <- E, Hpn in Hm. by injection Hm. }
    destruct (decide (m = pn)) as [Em|Em].
    + rewrite filter_cons_True by by apply Hiff. simpl. by rewrite Hn.
    + rewrite filter_cons_False by (intros E; by apply Em, Hiff). done.
  - intros m nd' Hnd'. apply linked_lookup in Hnd' as (nd & Hnd & ->). cbn [parent n_block].
    assert (Hm : at_ st (n_block nd) = Some m) by (apply (ti_lookup _ _ Hi); by exists nd).
    destruct (decide (m = n)) as [->|Hne].
    + assert (n_block nd = Some b) as ->.
      { apply (ti_lookup _ _ Hi) in Hn as (nd0 & Hnd0 & <-). by rewrite Hnd in Hnd0; injection Hnd0 as <-. }
      rewrite decide_True by (apply elem_of_app; right; by left). done.
    + rewrite (ti_parent _ _ Hi m nd Hnd). destruct (n_block nd) as [c|] eqn:Ec; [|done].
      assert (c <> b) by (intros ->; congruence).
      destruct (decide (c ∈ seen)) as [Hc|Hc]; [rewrite decide_True; [done|]|rewrite decide_False; [done|]].
      * apply elem_of_app. by left.
      * intros [?|?%list_elem_of_singleton]%elem_of_app; done.
  - apply (ti_idom _ _ Hi).
Qed.

Lemma addBlock_inv seen st b isHeader : treeInv seen st -> b ∉ seen ->
  (isHeader = true <-> b = header) -> treeInv (seen ++ [b]) (addBlock isHeader st b).
Proof.
  intros Hi Hb Hh. unfold addBlock.
  assert (Hp : exists idom', (if isHeader then (None, ts_idom st) else map_sub None (ts_idom st) (Some b)) =
    (parentOf b, idom') /\ forall k, map_get None idom' k = map_get None idom k).
  { unfold parentOf. destruct isHeader.
    - exists (ts_idom st). rewrite decide_True by by apply Hh. split; [done|]. apply (ti_idom _ _ Hi).
    - rewrite decide_False by (intros E; apply Hh in E; done).
      rewrite <- (ti_idom _ _ Hi (Some b)). exists (snd (map_sub None (ts_idom st) (Some b))).
      rewrite <- (map_sub_fst None). split; [apply surjective_pairing|].
      intros k. rewrite map_get_sub. apply (ti_idom _ _ Hi). }
  destruct Hp as (idom' & -> & Hk).
  assert (Hi0 : treeInv seen (mkTreeState (ts_heap st) (ts_lookup st) idom' (ts_nodes st)))
    by (split; try apply Hi; apply Hk).
  pose proof (nodeOf_spec seen _ (Some b) Hi0) as H1. destruct (nodeOf _ (Some b)) as [n st1].
  destruct H1 as (Hi1 & Hn & _).
  pose proof (nodeOf_spec seen st1 (parentOf b) Hi1) as H2. destruct (nodeOf st1 (parentOf b)) as [pn st2].
  destruct H2 as (Hi2 & Hpn & Hkeep). by apply link_inv; [| |apply Hkeep|].
Qed.

Lemma foldl_addBlock rest : forall seen st, treeInv seen st -> NoDup (seen ++ rest) -> header ∉ rest ->
  treeInv (seen ++ rest) (foldl (addBlock false) st rest).
Proof.
  induction rest as [|b rest IH]; intros seen st Hi Hnd Hh; [by rewrite app_nil_r|]. cbn [foldl].
  replace (seen ++ b :: rest) with ((seen ++ [b]) ++ rest) in * by by rewrite <- app_assoc.
  apply IH; [|done|set_solver]. apply addBlock_inv; [done| |].
  - apply NoDup_app in Hnd as (Hnd & _). apply NoDup_app in Hnd as (_ & Hn & _). set_solver.
  - split; [done|]. intros ->. set_solver.
Qed.

Lemma treeInv_start : treeInv [] (mkTreeState [] ∅ idom []).
Proof.
  split; simpl; try done.
  - intros p m. rewrite lookup_empty. split; [done|]. intros (nd & Hnd & _). by rewrite lookup_nil in Hnd.
  - intros b Hb. by apply not_elem_of_nil in Hb.
Qed.

End Tree.

(** The state after the loop over a loop's blocks. *)
Lemma getDominanceTree_inv idom h rest : NoDup (h :: rest) ->
  exists st, treeInv idom h (h :: rest) st /\
    getDominanceTree idom (h :: rest) = (ts_heap st, mkTree (ts_nodes st) (ts_lookup st !! Some h)).
Proof.
  intros Hnd. exists (foldl (addBlock false) (addBlock true (mkTreeState [] ∅ idom []) h) rest).
  split; [|done]. apply (foldl_addBlock idom h rest [h]); [|done|by apply NoDup_cons in Hnd as [? _]].
  apply (addBlock_inv idom h []); [apply treeInv_start|apply not_elem_of_nil|done].
Qed.

(** C15: The tree [getDominanceTree] builds for a loop mirrors the immediate
    dominators: its root is the node of the header, every loop block has one
    node, that node's parent is the node of the block's immediate dominator (of
    the null block for the header), and its children are exactly the nodes of
    the loop blocks it immediately dominates, in the order of the loop. *)
Theorem domtree_correct idom h rest heap tree : NoDup (h :: rest) ->
  getDominanceTree idom (h :: rest) = (heap, tree) ->
  exists node : option blk -> option nat,
    t_root tree = node (Some h) /\
    map Some (t_nodes tree) = map (fun b => node (Some b)) (h :: rest) /\
    forall b, b ∈ h :: rest -> exists n nd pn pnd,
      node (Some b) = Some n /\ heap !! n = Some nd /\ n_block nd = Some b /\
      parent nd = Some pn /\ heap !! pn = Some pnd /\ n_block pnd = parentOf idom h b /\
      map Some (children nd) =
        map (fun c => node (Some c)) (filter (fun c => parentOf idom h c = Some b) (h :: rest)).
Proof.
  intros Hnd Ht. destruct (getDominanceTree_inv idom h rest Hnd) as (st & Hi & E).
  rewrite E in Ht. injection Ht as <- <-. exists (fun p => ts_lookup st !! p).
  split; [done|]. split; [apply (ti_nodes _ _ _ _ Hi)|]. intros b Hb.
  destruct (ti_seen _ _ _ _ Hi b Hb) as [[n Hn] [pn Hpn]].
  pose proof (proj1 (ti_lookup _ _ _ _ Hi _ _) Hn) as (nd & Hnd' & Eb).
  pose proof (proj1 (ti_lookup _ _ _ _ Hi _ _) Hpn) as (pnd & Hpnd & Ep).
  exists n, nd, pn, pnd. split; [done|]. split; [done|]. split; [done|].
  split; [|split; [done|split; [done|]]].
  - rewrite (ti_parent _ _ _ _ Hi n nd Hnd'), Eb, decide_True by done. done.
  - rewrite (ti_children _ _ _ _ Hi n nd Hnd'), Eb. done.
Qed.

Lemma domtree_correct_witness : exists heap tree node,
  getDominanceTree ({[Some 2 := Some 1; Some 1 := Some 0]}) [1; 2] = (heap, tree) /\
  t_root tree = node (Some 1) /\ parentOf {[Some 2 := Some 1; Some 1 := Some 0]} 1 2 = Some 1 /\
  exists n nd, node (Some 1) = Some n /\ heap !! n = Some nd /\ map Some (children nd) = [node (Some 2)].
Proof.
  destruct (getDominanceTree ({[Some 2 := Some 1; Some 1 := Some 0]}) [1; 2]) as [heap tree] eqn:E.
  destruct (domtree_correct {[Some 2 := Some 1; Some 1 := Some 0]} 1 [2] heap tree) as (node & Hr & Hn & Hb).
  - apply NoDup_cons. split; [|apply NoDup_singleton]. intros Hin%list_elem_of_singleton. discriminate Hin.
  - exact E.
  - exists heap, tree, node. split; [reflexivity|]. split; [exact Hr|]. split; [reflexivity|].
    destruct (Hb 1) as (n & nd & pn & pnd & H1 & H2 & _ & _ & _ & _ & H7); [by left|].
    exists n, nd. split; [exact H1|]. split; [exact H2|]. exact H7.
Defined.
