(* ===== verification/LICM.v ===== *)
(** * Loop-invariant code motion: asst3/LICM/LoopInvariantCodeMotion.cpp *)

From stdpp Require Import gmap list strings.
From Stdlib Require Import ZArith.
From S2P Require Import Prelude LLVM IR Dataflow DataflowTheory DataflowRun MustAnalysis Examples Dominance DomTree.

Module LICM.

(** What the pass asks of LLVM's loop analyses about the loop [L]:
    [getLoopPreheader()], [getBlocks()] (header first), and whether
    [LI.getLoopFor(b)] is [L] itself rather than a loop nested in it. *)
Record Loop := mkLoop {
  lp_preheader : option blk;
  lp_blocks : list blk;
  lp_innermost : blk -> bool
}.

Section Pass.
Context {V : Type} `{BitVectorAPI V}.

(** llvm/Analysis/ValueTracking.h and [Instruction::mayReadFromMemory]. *)
Variable isSafeToSpeculativelyExecute : inst -> bool.
Variable mayReadFromMemory : inst -> bool.

Abbreviation body := (blk -> list inst).

(** [L->contains(op_inst)]: the instruction is in one of the loop's blocks. *)
Definition contains (L : Loop) (bd : body) (v : value) : bool :=
  existsb (fun b => existsb (fun i => bool_decide (i_val i = v)) (bd b)) (lp_blocks L).

(** [isInvariant(L, invStmts, inst)] *)
Definition isInvariant (L : Loop) (bd : body) (invStmts : list inst) (insn : inst) : bool :=
  if negb (isSafeToSpeculativelyExecute insn) || mayReadFromMemory insn
     || bool_decide (i_op insn = LandingPad)
  then false
  else
    forallb (fun op =>
      if isInstruction op then
        negb (contains L bd op && negb (bool_decide (op ∈ map i_val invStmts)))
      else true) (i_ops insn).

(** The loop over the instructions of one block. *)
Definition collectBlock (L : Loop) (bd : body) (invStmts : list inst) (l : list inst) : list inst :=
  foldl (fun inv insn => if isInvariant L bd inv insn then inv ++ [insn] else inv) invStmts l.

(** The depth-first traversal.  The worklist is a stack, its top first; the
    result is [None] when the function returns false from inside the loop. *)
Fixpoint traverse (fuel : nat) (L : Loop) (bd : body) (heap : list DomTreeNode)
    (worklist : list nat) (invStmts : list inst) : outcome (option (list inst)) :=
  match fuel with
  | O => OutOfFuel
  | S fuel' =>
      match worklist with
      | [] => Done (Some invStmts)
      | n :: worklist =>
          match heap !! n with
          | None => Exited
          | Some nd =>
              match n_block nd with
              | None => Done None
              | Some b =>
                  if negb (lp_innermost L b) then Done None
                  else
                    traverse fuel' L bd heap (rev (children nd) ++ worklist)
                      (collectBlock L bd invStmts (bd b))
              end
          end
      end
  end.

(** [inst->moveBefore(&preheader->back())] *)
Definition moveBefore (preheader : blk) (insn : inst) (bd : body) : body :=
  let bd := fun b => filter (fun i => i_id i <> i_id insn) (bd b) in
  fun b => if decide (b = preheader)
           then take (length (bd b) - 1) (bd b) ++ insn :: drop (length (bd b) - 1) (bd b)
           else bd b.

Definition hoist (preheader : blk) (invStmts : list inst) (bd : body) : body :=
  foldl (fun bd insn => moveBefore preheader insn bd) bd invStmts.

(** [LICM::runOnLoop] on a loop of function [F]: the returned flag and the new
    body.  Visiting each node once takes one round per node and one to stop. *)
Definition runOnLoop (fuel : nat) (F : Function) (L : Loop) (bd : body) : outcome (bool * body) :=
  match lp_preheader L with
  | None => Done (false, bd)
  | Some preheader =>
      obind (computeDom (V := V) fuel F) (fun dominanceResult =>
      obind (computeIdom dominanceResult) (fun idom =>
      let '(heap, tree) := getDominanceTree idom (lp_blocks L) in
      obind (traverse (S (length heap)) L bd heap (match t_root tree with Some r => [r] | None => [] end) [])
        (fun r =>
      match r with
      | None => Done (false, bd)
      | Some invStmts =>
          Done (negb (bool_decide (invStmts = [])), hoist preheader invStmts bd)
      end)))
  end.

(** ** The invariant statements *)

(** Each statement's operands are computed outside the loop or by an earlier
    statement, and it may be executed at any time. *)
Definition wellOrdered (L : Loop) (bd : body) (inv : list inst) : Prop :=
  forall pre i post, inv = pre ++ i :: post ->
    isSafeToSpeculativelyExecute i = true /\ mayReadFromMemory i = false /\ i_op i <> LandingPad /\
    forall v, v ∈ i_ops i -> isInstruction v = true -> contains L bd v = true -> v ∈ map i_val pre.

Lemma isInvariant_spec L bd inv i : isInvariant L bd inv i = true <->
  isSafeToSpeculativelyExecute i = true /\ mayReadFromMemory i = false /\ i_op i <> LandingPad /\
  forall v, v ∈ i_ops i -> isInstruction v = true -> contains L bd v = true -> v ∈ map i_val inv.
Proof.
  unfold isInvariant. destruct (isSafeToSpeculativelyExecute i) eqn:Es; cbn [negb orb]; [|naive_solver].
  destruct (mayReadFromMemory i) eqn:Em; cbn [negb orb]; [naive_solver|].
  case_bool_decide as El; [naive_solver|]. rewrite forallb_forall. split.
  - intros Hf. split; [done|]. split; [done|]. split; [done|]. intros v Hv Hi Hc.
    specialize (Hf v ltac:(by apply list_elem_of_In)). rewrite Hi, Hc in Hf. cbn [andb] in Hf.
    by rewrite negb_involutive, bool_decide_eq_true in Hf.
  - intros (_ & _ & _ & Hf) v Hv. apply list_elem_of_In in Hv. destruct (isInstruction v) eqn:Hi; [|done].
    destruct (contains L bd v) eqn:Hc; [|done]. cbn [andb]. rewrite negb_involutive, bool_decide_eq_true. by apply Hf.
Qed.

Lemma wellOrdered_snoc L bd inv i : wellOrdered L bd inv -> isInvariant L bd inv i = true ->
  wellOrdered L bd (inv ++ [i]).
Proof.
  intros Hw Hi pre k post E. destruct post as [|p post _] using rev_ind.
  - apply app_inj_tail in E as [-> ->]. by apply isInvariant_spec.
  - rewrite app_comm_cons, app_assoc in E. apply app_inj_tail in E as [-> _]. by apply (Hw pre k post).
Qed.

Lemma collectBlock_ordered L bd l : forall inv, wellOrdered L bd inv ->
  wellOrdered L bd (collectBlock L bd inv l) /\
  exists new, collectBlock L bd inv l = inv ++ new /\ forall i, i ∈ new -> i ∈ l.
Proof.
  induction l as [|i l IH]; intros inv Hw; unfold collectBlock; cbn [foldl].
  { split; [done|]. exists []. rewrite app_nil_r. split; [done|]. intros k Hk. by apply not_elem_of_nil in Hk. }
  destruct (isInvariant L bd inv i) eqn:Ei.
  - destruct (IH (inv ++ [i])) as (Hw' & new & E & Hn); [by apply wellOrdered_snoc|].
    split; [done|]. exists (i :: new). split; [unfold collectBlock in E; rewrite E; by rewrite <- app_assoc|].
    intros k [->|Hk]%elem_of_cons; [by left|right; by apply Hn].
  - destruct (IH inv Hw) as (Hw' & new & E & Hn). split; [done|]. exists new. split; [done|].
    intros k Hk. right. by apply Hn.
Qed.

End Pass.

End LICM.
