(* ===== verification/LICMWalk.v ===== *)
(** * The traversal of the dominance tree in LICM::runOnLoop

    Every node of the tree is pushed on the worklist at most once, so the walk
    ends; the statements it collects are loop statements, in an order in which
    they can be executed one after the other. *)

From stdpp Require Import gmap list strings.
From S2P Require Import Prelude LLVM IR Dataflow DataflowTheory DataflowRun MustAnalysis Examples Dominance DomTree LICM.

Section Walk.
Context (isSafeToSpeculativelyExecute mayReadFromMemory : inst -> bool).
Context (L : LICM.Loop) (bd : blk -> list inst).
Context (idom : gmap (option blk) (option blk)) (h : blk) (rest : list blk) (st : treeState).
Context (Hblocks : LICM.lp_blocks L = h :: rest) (Hnd : NoDup (h :: rest)) (Hinv : treeInv idom h (h :: rest) st).

(** Every instruction has one place. *)
Context (Huniq : forall b c i j, i ∈ bd b -> j ∈ bd c -> i_id i = i_id j -> b = c).
Context (Hids : forall b, NoDup (map i_id (bd b))).

Abbreviation heap := (ts_heap st).
Abbreviation wellOrdered := (LICM.wellOrdered isSafeToSpeculativelyExecute mayReadFromMemory L bd).
Abbreviation collectBlock := (LICM.collectBlock isSafeToSpeculativelyExecute mayReadFromMemory L bd).
Abbreviation traverse := (LICM.traverse isSafeToSpeculativelyExecute mayReadFromMemory).

(** The node [m] stands for the loop block [b]. *)
Definition nodeFor (m : nat) (b : blk) : Prop :=
  b ∈ h :: rest /\ exists nd, heap !! m = Some nd /\ n_block nd = Some b.

Lemma nodeFor_at m b : nodeFor m b <-> b ∈ h :: rest /\ ts_lookup st !! Some b = Some m.
Proof. unfold nodeFor. by rewrite (ti_lookup _ _ _ _ Hinv (Some b) m). Qed.

Lemma nodeFor_block m b c : nodeFor m b -> nodeFor m c -> b = c.
Proof. intros (_ & nd & Hm & Hb) (_ & nd' & Hm' & Hc). congruence. Qed.

Lemma nodeFor_node m n b : nodeFor m b -> nodeFor n b -> m = n.
Proof. rewrite !nodeFor_at. intros [_ Hm] [_ Hn]. congruence. Qed.

(** The children of a node. *)
Lemma children_nodes m nd b : heap !! m = Some nd -> n_block nd = Some b ->
  NoDup (children nd) /\
  forall c, c ∈ children nd -> exists b', nodeFor c b' /\ parentOf idom h b' = Some b.
Proof.
  intros Hm Hb. pose proof (ti_children _ _ _ _ Hinv m nd Hm) as Hc. rewrite Hb in Hc.
  set (bs := filter (fun b0 => parentOf idom h b0 = Some b) (h :: rest)) in *.
  assert (Hcs : forall c, c ∈ children nd -> exists b', b' ∈ bs /\ ts_lookup st !! Some b' = Some c).
  { intros c Hin. assert (Hs : Some c ∈ map Some (children nd)) by (apply elem_of_map; by exists c).
    rewrite Hc in Hs. apply elem_of_map in Hs as (b' & E & Hb'). by exists b'. }
  split.
  - apply (NoDup_fmap_1 Some). change (NoDup (map Some (children nd))). rewrite Hc.
    apply NoDup_fmap_2_strong; [|by apply NoDup_filter].
    intros x y Hx Hy E. apply list_elem_of_filter in Hx as [_ Hx], Hy as [_ Hy].
    destruct (ti_seen _ _ _ _ Hinv x Hx) as [[k Hk] _]. rewrite Hk in E.
    apply (nodeFor_block k); apply nodeFor_at; by split.
  - intros c Hin. destruct (Hcs c Hin) as (b' & [Hp Hb']%list_elem_of_filter & E).
    exists b'. split; [by apply nodeFor_at|done].
Qed.

(** ** The invariant of the walk *)

Record walkInv (vis worklist : list nat) (inv : list inst) : Prop := {
  wk_nodup : NoDup (vis ++ worklist);
  wk_node m : m ∈ vis ++ worklist -> exists b, nodeFor m b /\
    (b = h \/ exists p c, p ∈ vis /\ nodeFor p c /\ parentOf idom h b = Some c);
  wk_inst i : i ∈ inv -> exists m b, m ∈ vis /\ nodeFor m b /\ i ∈ bd b;
  wk_ids : NoDup (map i_id inv);
  wk_order : wellOrdered inv
}.

Lemma walk_start : exists r, ts_lookup st !! Some h = Some r /\ walkInv [] [r] [].
Proof.
  destruct (ti_seen _ _ _ _ Hinv h ltac:(by left)) as [[r Hr] _]. exists r. split; [done|]. split.
  - apply NoDup_singleton.
  - intros m ->%list_elem_of_singleton. exists h. split; [apply nodeFor_at; split; [by left|done]|by left].
  - intros i Hi. by apply not_elem_of_nil in Hi.
  - constructor.
  - intros pre i post E. by destruct pre.
Qed.

Lemma collectBlock_sub l : forall inv, exists new, collectBlock inv l = inv ++ new /\ sublist new l.
Proof.
  induction l as [|i l IH]; intros inv; unfold LICM.collectBlock; cbn [foldl].
  { exists []. rewrite app_nil_r. split; [done|constructor]. }
  destruct (LICM.isInvariant _ _ _ _ _ _).
  - destruct (IH (inv ++ [i])) as (new & E & Hs). exists (i :: new).
    split; [unfold LICM.collectBlock in E; rewrite E; by rewrite <- app_assoc|by constructor].
  - destruct (IH inv) as (new & E & Hs). exists new. split; [done|by constructor].
Qed.

(** New statements come from the block, once each. *)
Lemma collect_ids vis worklist inv m b : walkInv vis worklist inv -> m ∉ vis -> nodeFor m b ->
  NoDup (map i_id (collectBlock inv (bd b))) /\
  forall i, i ∈ collectBlock inv (bd b) -> i ∈ inv \/ i ∈ bd b.
Proof.
  intros Hw Hm Hb. destruct (collectBlock_sub (bd b) inv) as (new & -> & Hs). rewrite map_app. split.
  - apply NoDup_app. split; [apply (wk_ids _ _ _ Hw)|]. split.
    + intros x Hx Hy. apply elem_of_map in Hx as (i & -> & Hi), Hy as (j & E & Hj).
      destruct (wk_inst _ _ _ Hw i Hi) as (m' & b' & Hm' & Hb' & Hi').
      assert (Hj' : j ∈ bd b) by by apply (elem_of_sublist new).
      pose proof (Huniq b' b i j Hi' Hj' E) as ->. apply Hm. by rewrite (nodeFor_node m m' b).
    + apply (sublist_NoDup _ (map i_id (bd b))); [apply Hids|by apply (fmap_sublist i_id)].
  - intros i [?|Hi]%elem_of_app; [by left|right; by apply (elem_of_sublist new)].
Qed.

Lemma walk_step vis m worklist inv nd b : walkInv vis (m :: worklist) inv ->
  heap !! m = Some nd -> n_block nd = Some b ->
  walkInv (m :: vis) (rev (children nd) ++ worklist) (collectBlock inv (bd b)).
Proof.
  intros Hw Hm Hb. destruct (children_nodes m nd b Hm Hb) as [Hcn Hcb].
  pose proof (wk_nodup _ _ _ Hw) as Hd.
  assert (Hperm : vis ++ m :: worklist ≡ₚ (m :: vis) ++ worklist) by (simpl; by rewrite Permutation_middle).
  assert (Hmv : m ∉ vis) by (intros Hv; apply NoDup_app in Hd as (_ & Hd & _); apply (Hd m Hv); by left).
  destruct (wk_node _ _ _ Hw m) as (b' & Hnb & _); [set_solver|].
  assert (b' = b) as -> by (destruct Hnb as (_ & nd2 & Hm2 & Hb2); congruence).
  assert (Hfresh : forall c, c ∈ children nd -> c ∉ vis ++ m :: worklist).
  { intros c Hc Hin. destruct (Hcb c Hc) as (bc & Hbc & Hp).
    destruct (wk_node _ _ _ Hw c Hin) as (bc' & Hbc' & Hor). pose proof (nodeFor_block _ _ _ Hbc Hbc') as <-.
    destruct Hor as [->|(p & q & Hpv & Hq & Hpq)].
    - unfold parentOf in Hp. by rewrite decide_True in Hp.
    - assert (q = b) as -> by congruence. apply Hmv. by rewrite (nodeFor_node m p b). }
  destruct (collect_ids vis (m :: worklist) inv m b Hw Hmv Hnb) as [Hci Hcs]. split.
  - rewrite (Permutation_app_comm (rev _)), app_assoc. apply NoDup_app. rewrite <- Hperm. split; [done|].
    rewrite <- Permutation_rev. split; [|done]. intros x Hx Hx'. rewrite <- Permutation_rev in Hx'. apply (Hfresh x Hx'). by rewrite Hperm.
  - intros k Hk. assert (Hk' : k ∈ children nd \/ k ∈ vis ++ m :: worklist).
    { rewrite !elem_of_app, <- Permutation_rev in Hk. rewrite Hperm, elem_of_app. tauto. }
    destruct Hk' as [Hk'|Hk'].
    + destruct (Hcb k Hk') as (bk & Hbk & Hp). exists bk. split; [done|]. right. exists m, b.
      split; [by left|done].
    + destruct (wk_node _ _ _ Hw k Hk') as (bk & Hbk & Hor). exists bk. split; [done|].
      destruct Hor as [->|(p & q & Hp & Hq)]; [by left|right]. exists p, q. split; [by right|done].
  - intros i Hi. destruct (Hcs i Hi) as [Hi'|Hi'].
    + destruct (wk_inst _ _ _ Hw i Hi') as (p & q & Hp & Hq). exists p, q. split; [by right|done].
    + exists m, b. split; [by left|done].
  - done.
  - apply LICM.collectBlock_ordered, (wk_order _ _ _ Hw).
Qed.

(** ** The walk ends *)

Lemma walk_length vis worklist inv : walkInv vis worklist inv -> length (vis ++ worklist) <= length heap.
Proof.
  intros Hw. rewrite <- (length_seq (length heap) 0). apply submseteq_length, NoDup_submseteq; [apply Hw|].
  intros m Hm. destruct (wk_node _ _ _ Hw m Hm) as (b & (_ & nd & Hl & _) & _).
  apply lookup_lt_Some in Hl. apply elem_of_seq. lia.
Qed.

Lemma traverse_walk fuel : forall vis worklist inv, walkInv vis worklist inv ->
  length heap < fuel + length vis ->
  traverse fuel L bd heap worklist inv = Done None \/
  exists vis' inv', traverse fuel L bd heap worklist inv = Done (Some inv') /\ walkInv vis' [] inv'.
Proof.
  induction fuel as [|fuel IH]; intros vis worklist inv Hw Hf; cbn [LICM.traverse].
  { pose proof (walk_length _ _ _ Hw) as Hl. rewrite length_app in Hl. lia. }
  destruct worklist as [|m worklist]; [right; by exists vis, inv|].
  destruct (wk_node _ _ _ Hw m) as (b & (_ & nd & Hm & Hb) & _); [set_solver|].
  rewrite Hm, Hb. destruct (LICM.lp_innermost L b); [|by left]. cbn [negb].
  apply (IH (m :: vis)); [by apply walk_step|cbn [length]; lia].
Qed.

(** The statements the walk collects. *)
Lemma traverse_root : exists r, ts_lookup st !! Some h = Some r /\
  (traverse (S (length heap)) L bd heap [r] [] = Done None \/
   exists inv, traverse (S (length heap)) L bd heap [r] [] = Done (Some inv) /\
     wellOrdered inv /\ NoDup (map i_id inv) /\ forall i, i ∈ inv -> exists b, b ∈ LICM.lp_blocks L /\ i ∈ bd b).
Proof.
  destruct walk_start as (r & Hr & Hw). exists r. split; [done|].
  destruct (traverse_walk (S (length heap)) [] [r] [] Hw) as [E|(vis & inv & E & Hw')]; [simpl; lia|by left|].
  right. exists inv. split; [done|]. split; [apply Hw'|]. split; [apply Hw'|]. intros i Hi.
  destruct (wk_inst _ _ _ Hw' i Hi) as (m & b & _ & [Hb _] & Hib). exists b. by rewrite Hblocks.
Qed.

End Walk.
