(* ===== verification/LICMCorrect.v ===== *)
(** * Loop-invariant code motion preserves the loop

    The loop before and after [LICM::runOnLoop], compared on every path through
    its blocks in the semantics of BlockSem. *)

From stdpp Require Import gmap list strings.
From Stdlib Require Import ZArith.
From S2P Require Import Prelude LLVM IR Dataflow DataflowTheory DataflowRun MustAnalysis Examples Dominance DomTree BlockSem LICM LICMWalk.

Abbreviation body := (blk -> list inst).

(** ** What hoisting does to the blocks *)

Lemma filter_ids (l : list inst) (ids : list nat) :
  (forall i, i ∈ l -> i_id i ∉ ids) -> filter (fun i => i_id i ∉ ids) l = l.
Proof. intros Hl. by apply filter_keeps. Qed.

Lemma hoist_spec ph term inv : forall (bd : body) front, bd ph = front ++ [term] ->
  NoDup (map i_id inv) -> (forall i, i ∈ bd ph -> i_id i ∉ map i_id inv) ->
  forall b, LICM.hoist ph inv bd b =
    if decide (b = ph) then front ++ inv ++ [term] else filter (fun i => i_id i ∉ map i_id inv) (bd b).
Proof.
  induction inv as [|k inv IH]; intros bd front Hph Hnd Hnew b.
  { cbn [LICM.hoist foldl map]. case_decide; [by subst|]. symmetry. apply filter_keeps.
    intros i _. apply not_elem_of_nil. }
  apply NoDup_cons in Hnd as [Hk Hnd].
  assert (E : LICM.moveBefore ph k bd ph = (front ++ [k]) ++ [term]).
  { unfold LICM.moveBefore. rewrite decide_True by done.
    rewrite filter_keeps by (intros i Hi; specialize (Hnew i Hi); cbn [map] in Hnew; set_solver).
    rewrite Hph, length_app, Nat.add_sub, take_app_length, drop_app_length, <- app_assoc. done. }
  change (LICM.hoist ph (k :: inv) bd) with (LICM.hoist ph inv (LICM.moveBefore ph k bd)).
  rewrite (IH _ _ E Hnd).
  - case_decide; [by rewrite <- !app_assoc|]. unfold LICM.moveBefore. rewrite decide_False by done.
    rewrite list_filter_filter. apply list_filter_iff. intros i. cbn [map]. rewrite not_elem_of_cons. tauto.
  - intros i. rewrite E, <- app_assoc. intros [Hi|[->|Hi]%elem_of_cons]%elem_of_app; [|done|].
    + intros Hin. apply (Hnew i); [rewrite Hph; apply elem_of_app; by left|by right].
    + intros Hin. apply (Hnew i); [rewrite Hph; apply elem_of_app; by right|by right].
Qed.

Section Correct.

(** The semantics of instructions that are not integer operators. *)
Context (ext : value -> option Z) (World : Type).
Context (other : opcode -> option Z -> nat -> World -> list (option Z) -> option (option Z * World)).
Context (isSafeToSpeculativelyExecute mayReadFromMemory : inst -> bool).

Abbreviation env := (gmap nat Z).
Abbreviation eval := (BlockSem.eval ext).
Abbreviation execInst := (BlockSem.execInst ext World other).
Abbreviation execBlock := (BlockSem.execBlock ext World other).

(** The effect of [i] is to write [x] whatever the state, when its operands
    have the values they have in [e]. *)
Definition computes (e : env) (i : inst) (x : Z) : Prop :=
  forall e2 w, (forall v, v ∈ i_ops i -> eval e2 v = eval e v) ->
    execInst (e2, w) i = Some (<[i_id i := x]> e2, w).

(** What the two LLVM queries promise: an instruction that is safe to execute
    speculatively is not a phi, and with its operands computed it runs without
    trapping and only writes its result, which depends on its operands alone
    when it does not read memory.  [okEnv] says that values are of their types. *)
Class SpeculationLaws (okEnv : env -> Prop) : Prop := {
  sl_phi i : isSafeToSpeculativelyExecute i = true -> isPHI i = false;
  sl_computes e i : isSafeToSpeculativelyExecute i = true -> mayReadFromMemory i = false -> okEnv e ->
    (forall v, v ∈ i_ops i -> isInstruction v = true -> is_Some (eval e v)) ->
    exists x, computes e i x /\ okEnv (<[i_id i := x]> e)
}.

(** ** Paths through the loop *)

(** The values of a block's phis on the edge from [prev]. *)
Definition incomingFrom (prev : blk) (i : inst) : option value :=
  '(_, (v, _)) ← list_find (fun vb => vb.2 = prev) (phiIncoming i); Some v.

Definition enterBlock (bd : body) (prev b : blk) (e : env) : env :=
  foldr (fun i acc => setResult acc (i_id i) (incomingFrom prev i ≫= eval e)) e
    (filter (fun i => isPHI i = true) (bd b)).

(** Executing the blocks of a path, the first entered from [prev]. *)
Fixpoint execPath (bd : body) (s : env * World) (prev : blk) (p : list blk) : option (env * World) :=
  match p with
  | [] => Some s
  | b :: p' => s' ← execBlock (enterBlock bd prev b s.1, s.2) (bd b); execPath bd s' b p'
  end.

Section Loop.
Context (L : LICM.Loop) (bd : body).
Abbreviation contains := (LICM.contains L bd).

(** The value is not computed in the loop, or is among those computed so far. *)
Definition availableV (seen : list nat) (v : value) : Prop :=
  match v with VInst j => contains v = true -> j ∈ seen | _ => True end.

#[export] Instance availableV_dec seen v : Decision (availableV seen v).
Proof. destruct v; apply _. Defined.

Fixpoint usesAvailable (seen : list nat) (l : list inst) : Prop :=
  match l with
  | [] => True
  | i :: l' => (isPHI i = false -> Forall (availableV seen) (i_ops i)) /\
               usesAvailable (i_id i :: seen) l'
  end.

#[export] Instance usesAvailable_dec l : forall seen, Decision (usesAvailable seen l).
Proof. induction l; intros seen; simpl; apply _. Defined.

Definition phiIds (b : blk) : list nat := map i_id (filter (fun i => isPHI i = true) (bd b)).

Definition phiAvailable (seen : list nat) (prev : blk) (i : inst) : Prop :=
  isPHI i = true -> match incomingFrom prev i with Some v => availableV seen v | None => True end.

#[export] Instance phiAvailable_dec seen prev i : Decision (phiAvailable seen prev i).
Proof. unfold phiAvailable. destruct (incomingFrom prev i); apply _. Defined.

(** Along the path every use comes after the definition. *)
Fixpoint defsBeforeUses (seen : list nat) (prev : blk) (p : list blk) : Prop :=
  match p with
  | [] => True
  | b :: p' =>
      Forall (phiAvailable seen prev) (bd b) /\
      usesAvailable (phiIds b ++ seen) (bd b) /\
      defsBeforeUses (map i_id (bd b) ++ phiIds b ++ seen) b p'
  end.

#[export] Instance defsBeforeUses_dec p : forall seen prev, Decision (defsBeforeUses seen prev p).
Proof. induction p; intros seen prev; simpl; apply _. Defined.

(** The computed ids of a path. *)
Definition pathIds (p : list blk) : list nat := concat (map (fun b => map i_id (bd b)) p).

(** ** The hoisted statements *)

Context (inv : list inst).
Context (Hord : LICM.wellOrdered isSafeToSpeculativelyExecute mayReadFromMemory L bd inv).
Context (Hnd : NoDup (map i_id inv)).
Context (Hin : forall i, i ∈ inv -> exists b, b ∈ LICM.lp_blocks L /\ i ∈ bd b).
Context (Hphi : forall i, i ∈ inv -> isPHI i = false).

Lemma contains_iff v : contains v = true <-> exists b i, b ∈ LICM.lp_blocks L /\ i ∈ bd b /\ v = i_val i.
Proof.
  unfold LICM.contains. rewrite existsb_exists. split.
  - intros (b & Hb & Hi). apply existsb_exists in Hi as (i & Hi & E). apply bool_decide_eq_true in E.
    exists b, i. by rewrite !list_elem_of_In.
  - intros (b & i & Hb & Hi & ->). exists b. split; [by apply list_elem_of_In|]. apply existsb_exists.
    exists i. split; [by apply list_elem_of_In|by apply bool_decide_eq_true].
Qed.

Lemma hoisted_contained j : j ∈ map i_id inv -> contains (VInst j) = true.
Proof.
  intros (i & -> & Hi)%elem_of_map. destruct (Hin i Hi) as (b & Hb & Hib). apply contains_iff. by exists b, i.
Qed.

(** Operands of a statement that are computed in the loop are statements. *)
Lemma hoisted_operand pre i post v : inv = pre ++ i :: post -> v ∈ i_ops i -> contains v = true ->
  exists j, v = VInst j /\ j ∈ map i_id pre.
Proof.
  intros E Hv Hc. destruct (Hord _ _ _ E) as (_ & _ & _ & Ho).
  apply contains_iff in Hc as (b & k & Hb & Hk & ->). exists (i_id k). split; [done|].
  assert (Hp : i_val k ∈ map i_val pre) by (apply Ho; [done|done|apply contains_iff; by exists b, k]).
  apply elem_of_map in Hp as (k' & [= Ek] & Hk'). apply elem_of_map. by exists k'.
Qed.

(** The statements have been computed in [e]. *)
Definition settled (S : list inst) (e : env) : Prop :=
  forall i, i ∈ S -> exists x, e !! i_id i = Some x /\ computes e i x.

Lemma computes_eq e e' i x : computes e i x -> (forall v, v ∈ i_ops i -> eval e' v = eval e v) ->
  computes e' i x.
Proof. intros Hc He e2 w H2. apply Hc. intros v Hv. by rewrite H2, He. Qed.

Lemma settled_set S e j r : settled S e -> (forall i, i ∈ S -> i_id i <> j /\ VInst j ∉ i_ops i) ->
  settled S (setResult e j r).
Proof.
  intros Hs Hj i Hi. destruct (Hs i Hi) as (x & Hx & Hc), (Hj i Hi) as [Hne Hop]. exists x. split.
  - destruct r; [|done]. cbn [setResult]. rewrite lookup_insert_ne; done.
  - apply (computes_eq e); [done|]. intros v Hv. apply eval_setResult. intros ->. done.
Qed.

(** Loop instructions that stay do not disturb the statements. *)
Lemma settled_other e j r : settled inv e -> contains (VInst j) = true -> j ∉ map i_id inv ->
  settled inv (setResult e j r).
Proof.
  intros Hs Hc Hj. apply settled_set; [done|]. intros i Hi. split.
  - intros <-. apply Hj, elem_of_map. by exists i.
  - intros Hv. apply list_elem_of_split in Hi as (pre & post & E).
    destruct (hoisted_operand pre i post _ E Hv Hc) as (k & [= <-] & Hk).
    apply Hj. rewrite E, map_app, elem_of_app. by left.
Qed.

(** ** Running the statements in the preheader *)

Lemma run_hoisted okEnv `{SpeculationLaws okEnv} e0 w post : forall pre e, inv = pre ++ post ->
  settled pre e -> okEnv e ->
  (forall j, j ∉ map i_id inv -> e !! j = e0 !! j) ->
  (forall i v, i ∈ post -> v ∈ i_ops i -> isInstruction v = true -> contains v = false -> is_Some (eval e0 v)) ->
  exists e', execBlock (e, w) post = Some (e', w) /\ settled inv e' /\
    forall j, j ∉ map i_id inv -> e' !! j = e0 !! j.
Proof.
  induction post as [|i post IH]; intros pre e E Hs Hok Heq Hdef.
  { rewrite app_nil_r in E. subst. by exists e. }
  destruct (Hord _ _ _ E) as (Hsafe & Hread & _ & _).
  assert (Hfresh : i_id i ∉ map i_id pre).
  { rewrite E, map_app in Hnd. apply NoDup_app in Hnd as (_ & Hd & _). intros Hi. apply (Hd _ Hi). by left. }
  assert (Hops : forall v, v ∈ i_ops i -> isInstruction v = true -> is_Some (eval e v)).
  { intros v Hv Hi. destruct (contains v) eqn:Hc.
    - destruct (hoisted_operand pre i post v E Hv Hc) as (j & -> & (k & -> & Hk)%elem_of_map).
      destruct (Hs k Hk) as (x & Hx & _). by exists x.
    - destruct v as [j| | |]; try done. simpl. rewrite Heq; [by apply (Hdef i (VInst j)); [left| | |]|].
      intros Hj%hoisted_contained. congruence. }
  destruct (sl_computes e i Hsafe Hread Hok Hops) as (x & Hc & Hok').
  assert (Hself : VInst (i_id i) ∉ i_ops i).
  { intros Hv. destruct (hoisted_operand pre i post _ E Hv) as (j & [= <-] & Hj); [|done].
    apply hoisted_contained. rewrite E, map_app, elem_of_app. right. by left. }
  destruct (IH (pre ++ [i]) (<[i_id i := x]> e)) as (e' & He' & Hset & Hag).
  - by rewrite <- app_assoc.
  - intros k [Hk| ->%list_elem_of_singleton]%elem_of_app.
    + apply (settled_set pre e (i_id i) (Some x) Hs); [|done]. intros k' Hk'. split.
      * intros Ek. apply Hfresh, elem_of_map. by exists k'.
      * intros Hv. apply list_elem_of_split in Hk' as (p1 & p2 & ->). rewrite <- app_assoc in E.
        destruct (hoisted_operand p1 k' (p2 ++ i :: post) _ E Hv) as (j & [= <-] & Hj).
        { apply hoisted_contained. rewrite E, map_app. cbn [app map]. rewrite map_app. set_solver. }
        apply Hfresh. rewrite map_app, elem_of_app. by left.
    + exists x. split; [apply lookup_insert_eq|]. apply (computes_eq e); [done|]. intros v Hv.
      apply (eval_setResult ext e (i_id i) (Some x)). intros ->. done.
  - done.
  - intros j Hj. rewrite lookup_insert_ne; [by apply Heq|]. intros <-. apply Hj.
    rewrite E, map_app, elem_of_app. right. by left.
  - intros k v Hk. apply Hdef. by right.
  - exists e'. split; [|done]. cbn [BlockSem.execBlock]. rewrite (Hc e w) by done. done.
Qed.

(** ** Old and new run side by side *)

(** [e] is the old environment, [e'] the new one: they agree on everything but
    the hoisted statements the old run has not reached. *)
Definition agree (seen : list nat) (e e' : env) : Prop :=
  forall j, (j ∈ map i_id inv -> j ∈ seen) -> e !! j = e' !! j.

Lemma agree_eval seen e e' v : agree seen e e' -> availableV seen v -> eval e v = eval e' v.
Proof.
  intros Ha Hv. destruct v as [j| | |]; try done. simpl. apply Ha. intros Hj.
  apply Hv. by apply hoisted_contained.
Qed.

Lemma agree_set seen e e' j r : agree seen e e' -> agree (j :: seen) (setResult e j r) (setResult e' j r) \/ j ∈ map i_id inv.
Proof.
  intros Ha. destruct (decide (j ∈ map i_id inv)) as [Hj|Hj]; [by right|left]. intros k Hk.
  assert (Hk' : k <> j -> e !! k = e' !! k) by (intros Hne; apply Ha; intros Hk'; set_solver).
  destruct r as [x|]; cbn [setResult].
  - destruct (decide (k = j)) as [->|Hne]; [by rewrite !lookup_insert_eq|].
    rewrite !lookup_insert_ne by done. by apply Hk'.
  - destruct (decide (k = j)) as [->|Hne]; [|by apply Hk']. apply Ha. done.
Qed.

Lemma agree_weaken seen seen' e e' : agree seen' e e' -> (forall j, j ∈ seen -> j ∈ seen') -> agree seen e e'.
Proof. intros Ha Hs j Hj. apply Ha. auto. Qed.

Lemma substI_self i : substI (fun v => v) i = i.
Proof. destruct i. unfold substI. simpl. by rewrite map_id. Qed.

(** One instruction of the loop. *)
Lemma step_agree seen e e' w i f w1 : agree seen e e' -> settled inv e' -> contains (i_val i) = true ->
  (isPHI i = false -> Forall (availableV seen) (i_ops i)) ->
  (i_id i ∈ map i_id inv -> i ∈ inv) ->
  execInst (e, w) i = Some (f, w1) ->
  if decide (i_id i ∈ map i_id inv)
  then agree (i_id i :: seen) f e' /\ w1 = w
  else exists f', execInst (e', w) i = Some (f', w1) /\ agree (i_id i :: seen) f f' /\ settled inv f'.
Proof.
  intros Ha Hs Hc Hu Hi Hx. setoid_rewrite Forall_forall in Hu. case_decide as Hd.
  - destruct (Hs i (Hi Hd)) as (x & Hex & Hcx).
    rewrite (Hcx e w) in Hx by (intros v Hv; apply (agree_eval seen); [done|]; apply Hu; [by apply Hphi, Hi|done]).
    injection Hx as <- <-. split; [|done]. intros j Hj. destruct (decide (j = i_id i)) as [->|Hne].
    + by rewrite lookup_insert_eq.
    + rewrite lookup_insert_ne by done. apply Ha. intros Hj'. set_solver.
  - destruct (execInst_result _ _ _ _ _ _ _ _ Hx) as (r & -> & Hr). exists (setResult e' (i_id i) r).
    specialize (Hr e' (fun v => v)). rewrite substI_self in Hr. split; [|split].
    + apply Hr. intros Hp v Hv. apply (agree_eval seen); [done|by apply Hu].
    + by destruct (agree_set seen e e' (i_id i) r Ha).
    + by apply settled_other.
Qed.

(** One block. *)
Lemma block_agree l : forall seen e e' w f w1, agree seen e e' -> settled inv e' ->
  (forall i, i ∈ l -> contains (i_val i) = true /\ (i_id i ∈ map i_id inv -> i ∈ inv)) ->
  usesAvailable seen l -> execBlock (e, w) l = Some (f, w1) ->
  exists f', execBlock (e', w) (filter (fun i => i_id i ∉ map i_id inv) l) = Some (f', w1) /\
    agree (map i_id l ++ seen) f f' /\ settled inv f'.
Proof.
  induction l as [|i l IH]; intros seen e e' w f w1 Ha Hs Hl Hu Hx.
  { injection Hx as <- <-. by exists e'. }
  cbn [BlockSem.execBlock] in Hx. destruct (execInst (e, w) i) as [[e1 w2]|] eqn:Ei; [|done]. cbn [mbind option_bind] in Hx.
  destruct Hu as [Hu1 Hu2]. destruct (Hl i) as [Hc Hi]; [by left|].
  pose proof (step_agree seen e e' w i e1 w2 Ha Hs Hc Hu1 Hi Ei) as Hstep.
  assert (Hl' : forall k, k ∈ l -> contains (i_val k) = true /\ (i_id k ∈ map i_id inv -> k ∈ inv))
    by (intros k Hk; apply Hl; by right).
  destruct (decide (i_id i ∈ map i_id inv)) as [Hd|Hd].
  - destruct Hstep as [Ha1 ->]. rewrite filter_cons_False by tauto.
    destruct (IH _ _ _ _ _ _ Ha1 Hs Hl' Hu2 Hx) as (f' & Hf & Hag & Hset). exists f'. split; [done|].
    split; [|done]. apply (agree_weaken _ (map i_id l ++ i_id i :: seen)); [done|]. cbn [map]. set_solver.
  - destruct Hstep as (e1' & Ei' & Ha1 & Hs1). rewrite filter_cons_True by done.
    destruct (IH _ _ _ _ _ _ Ha1 Hs1 Hl' Hu2 Hx) as (f' & Hf & Hag & Hset). exists f'.
    cbn [BlockSem.execBlock]. rewrite Ei'. split; [done|]. split; [|done].
    apply (agree_weaken _ (map i_id l ++ i_id i :: seen)); [done|]. cbn [map]. set_solver.
Qed.

(** The phis of a block. *)
Lemma phis_agree seen prev e0 e0' l : forall e e', agree seen e0 e0' -> agree seen e e' -> settled inv e' ->
  (forall i, i ∈ l -> contains (i_val i) = true /\ i_id i ∉ map i_id inv /\
    isPHI i = true /\ phiAvailable seen prev i) ->
  let enter e0 e := foldr (fun i acc => setResult acc (i_id i) (incomingFrom prev i ≫= eval e0)) e l in
  agree (map i_id l ++ seen) (enter e0 e) (enter e0' e') /\ settled inv (enter e0' e').
Proof.
  induction l as [|i l IH]; intros e e' H0 Ha Hs Hl; [done|]. cbn [foldr map app].
  destruct (Hl i) as (Hc & Hi & Hp & Hv); [by left|]. specialize (Hv Hp).
  destruct (IH e e' H0 Ha Hs) as [Ha1 Hs1]; [intros k Hk; apply Hl; by right|].
  assert (E : (incomingFrom prev i ≫= eval e0) = (incomingFrom prev i ≫= eval e0')).
  { destruct (incomingFrom prev i) as [v|]; [|done]. simpl. by apply (agree_eval seen). }
  rewrite E. split; [by destruct (agree_set _ _ _ (i_id i) (incomingFrom prev i ≫= eval e0') Ha1)|].
  by apply settled_other.
Qed.

(** A path through the loop. *)
Lemma path_agree bd' : (forall b, b ∈ LICM.lp_blocks L -> bd' b = filter (fun i => i_id i ∉ map i_id inv) (bd b)) ->
  (forall b i, b ∈ LICM.lp_blocks L -> i ∈ bd b -> i_id i ∈ map i_id inv -> i ∈ inv) ->
  forall p seen prev e e' w f w1, Forall (fun b => b ∈ LICM.lp_blocks L) p ->
  agree seen e e' -> settled inv e' -> defsBeforeUses seen prev p ->
  execPath bd (e, w) prev p = Some (f, w1) ->
  exists f', execPath bd' (e', w) prev p = Some (f', w1) /\ agree (pathIds p ++ seen) f f'.
Proof.
  intros Hbd Huni p. induction p as [|b p IH]; intros seen prev e e' w f w1 Hp Ha Hs Hd Hx.
  { injection Hx as <- <-. by exists e'. }
  apply Forall_cons in Hp as [Hb Hp]. destruct Hd as (Hphis & Huse & Hrest). cbn [execPath fst snd] in Hx |- *.
  destruct (execBlock _ (bd b)) as [[e1 w2]|] eqn:Eb; [|done]. cbn [mbind option_bind] in Hx.
  assert (Hcont : forall i, i ∈ bd b -> contains (i_val i) = true) by (intros i Hi; apply contains_iff; by exists b, i).
  assert (Hents : filter (fun i => isPHI i = true) (bd' b) = filter (fun i => isPHI i = true) (bd b)).
  { rewrite (Hbd b Hb), list_filter_filter. apply filter_ext_elem. intros i Hi. split; [tauto|]. intros Hpi. split; [done|].
    intros Hd. pose proof (Hphi i (Huni b i Hb Hi Hd)). congruence. }
  destruct (phis_agree seen prev e e' (filter (fun i => isPHI i = true) (bd b)) e e' Ha Ha Hs) as [Ha1 Hs1].
  { intros i [Hpi Hi]%list_elem_of_filter. split; [by apply Hcont|]. split.
    - intros Hd. pose proof (Hphi i (Huni b i Hb Hi Hd)). congruence.
    - split; [done|]. by apply (proj1 (Forall_forall _ _) Hphis). }
  assert (Hside : forall i, i ∈ bd b -> contains (i_val i) = true /\ (i_id i ∈ map i_id inv -> i ∈ inv))
    by (intros i Hi; split; [by apply Hcont|by apply (Huni b)]).
  destruct (block_agree (bd b) _ _ _ _ _ _ Ha1 Hs1 Hside Huse Eb) as (e1' & Eb' & Ha2 & Hs2).
  unfold enterBlock. rewrite Hents, (Hbd b Hb), Eb'. cbn [mbind option_bind].
  destruct (IH _ b e1 e1' w2 f w1 Hp Ha2 Hs2 Hrest Hx) as (f' & Hf & Hag). exists f'. split; [done|].
  apply (agree_weaken _ (pathIds p ++ map i_id (bd b) ++ phiIds b ++ seen)); [done|].
  intros j. unfold pathIds. cbn [map concat]. rewrite !elem_of_app. tauto.
Qed.

End Loop.

End Correct.

(** ** The pass *)

(** A loop in SSA form with its preheader. *)
Record wfLoop (L : LICM.Loop) (bd : body) (ph : blk) (front : list inst) (term : inst) : Prop := {
  wl_preheader : LICM.lp_preheader L = Some ph;
  wl_header : LICM.lp_blocks L <> [];
  wl_blocks : NoDup (LICM.lp_blocks L);
  wl_outside : ph ∉ LICM.lp_blocks L;
  wl_body : bd ph = front ++ [term];
  wl_uniq b c i j : i ∈ bd b -> j ∈ bd c -> i_id i = i_id j -> b = c;
  wl_ids b : NoDup (map i_id (bd b));
  wl_term v : v ∈ i_ops term -> LICM.contains L bd v = false;
  wl_unused b i : b ∈ LICM.lp_blocks L -> i ∈ bd b -> i_val term ∉ i_ops i
}.

Section Pass.
Context {V : Type} `{BitVectorLaws V}.
Context (safe reads : inst -> bool).

(** What the pass does to the blocks: nothing, or it moves a list of loop
    statements, each safe to execute speculatively and using loop values only from
    statements before it in the list, to just before the terminator of the
    preheader, removes exactly them from their blocks, and returns whether there
    was any. *)
Lemma runOnLoop_spec F L bd ph front term : CFGLaws F ->
  (forall b, b ∈ f_blocks F -> reachable F b) -> wfLoop L bd ph front term -> exists flag bd',
  LICM.runOnLoop (V := V) safe reads (length (f_rpo F) * length (f_blocks F) + 2) F L bd = Done (flag, bd') /\
  ((flag = false /\ bd' = bd) \/
   exists inv, (flag = true <-> inv <> []) /\ LICM.wellOrdered safe reads L bd inv /\ NoDup (map i_id inv) /\
     (forall i, i ∈ inv -> exists b, b ∈ LICM.lp_blocks L /\ i ∈ bd b) /\
     forall b, bd' b = if decide (b = ph) then front ++ inv ++ [term]
                       else filter (fun i => i_id i ∉ map i_id inv) (bd b)).
Proof.
  intros HF Hall Hw. unfold LICM.runOnLoop. rewrite (wl_preheader _ _ _ _ _ Hw).
  destruct (computeDom_done (V := V) F HF) as [out Hrun]. rewrite Hrun. cbn [obind].
  destruct (computeIdom_lemma F HF Hall _ out Hrun) as (idom & -> & _). cbn [obind].
  pose proof (wl_blocks _ _ _ _ _ Hw) as Hnb. destruct (LICM.lp_blocks L) as [|h rest] eqn:El; [by destruct (wl_header _ _ _ _ _ Hw)|].
  destruct (getDominanceTree_inv idom h rest Hnb) as (st & Hi & ->). cbn [t_root].
  destruct (traverse_root safe reads L bd idom h rest st El Hnb Hi (wl_uniq _ _ _ _ _ Hw) (wl_ids _ _ _ _ _ Hw))
    as (r & Hr & Ht). rewrite Hr. destruct Ht as [-> | (inv & -> & Ho & Hn & Hb)]; cbn [obind].
  { exists false, bd. split; [done|]. by left. }
  eexists _, _. split; [done|]. right. exists inv. rewrite El in Hb. split; [|split; [done|split; [done|split; [done|]]]].
  - by rewrite negb_true_iff, bool_decide_eq_false.
  - apply hoist_spec; [apply Hw|done|]. intros i Hip Hiv. apply elem_of_map in Hiv as (j & E & Hj).
    destruct (Hb j Hj) as (b & Hbl & Hjb). pose proof (wl_uniq _ _ _ _ _ Hw _ _ _ _ Hip Hjb E) as <-.
    apply (wl_outside _ _ _ _ _ Hw). by rewrite El.
Qed.

End Pass.

Section Preserves.
Context (ext : value -> option Z) (World : Type).
Context (other : opcode -> option Z -> nat -> World -> list (option Z) -> option (option Z * World)).
Context (safe reads : inst -> bool) (okEnv : gmap nat Z -> Prop).
Context `{HL : !SpeculationLaws ext World other safe reads okEnv}.
Context (L : LICM.Loop) (bd : body) (ph : blk) (front : list inst) (term : inst).
Context (Hw : wfLoop L bd ph front term).
Abbreviation execInst := (BlockSem.execInst ext World other).
Abbreviation execBlock := (BlockSem.execBlock ext World other).
Abbreviation execPath := (execPath ext World other).

(** The loop's operands from outside have been computed. *)
Definition readyIn (e : gmap nat Z) (v : value) : Prop :=
  isInstruction v = true -> LICM.contains L bd v = false -> is_Some (BlockSem.eval ext e v).
Definition operandsReady (e : gmap nat Z) : Prop :=
  Forall (fun b => Forall (fun i => Forall (readyIn e) (i_ops i)) (bd b)) (LICM.lp_blocks L).

#[export] Instance operandsReady_dec e : Decision (operandsReady e).
Proof. unfold operandsReady, readyIn. apply _. Defined.

(** [bd'] run with its preheader does what [bd] does with its own, on every
    path through the loop, up to statements the old run has not computed. *)
Definition loopRefines (bd' : body) : Prop :=
  forall e0 w0 ea wa e1 w1, execBlock (e0, w0) front = Some (ea, wa) -> okEnv ea -> operandsReady ea ->
  execInst (ea, wa) term = Some (e1, w1) -> exists e2, execBlock (e0, w0) (bd' ph) = Some (e2, w1) /\
  forall p w f w', Forall (fun b => b ∈ LICM.lp_blocks L) p -> defsBeforeUses L bd [] ph p ->
    execPath bd (e1, w) ph p = Some (f, w') -> exists f', execPath bd' (e2, w) ph p = Some (f', w') /\
    forall j, LICM.contains L bd (VInst j) = false \/ j ∈ pathIds bd p -> f !! j = f' !! j.

Lemma unchanged_refines : loopRefines bd.
Proof.
  intros e0 w0 ea wa e1 w1 Hf _ _ Ht. exists e1. split.
  - rewrite (wl_body _ _ _ _ _ Hw), execBlock_app, Hf. cbn [mbind option_bind BlockSem.execBlock]. by rewrite Ht.
  - intros p w f w' _ _ Hx. by exists f.
Qed.

Lemma hoisted_refines inv bd' : LICM.wellOrdered safe reads L bd inv -> NoDup (map i_id inv) ->
  (forall i, i ∈ inv -> exists b, b ∈ LICM.lp_blocks L /\ i ∈ bd b) ->
  (forall b, bd' b = if decide (b = ph) then front ++ inv ++ [term]
                     else filter (fun i => i_id i ∉ map i_id inv) (bd b)) ->
  loopRefines bd'.
Proof.
  intros Ho Hn Hb Hbd' e0 w0 ea wa e1 w1 Hf Hok Hr Ht.
  assert (Hphi : forall i, i ∈ inv -> isPHI i = false).
  { intros i (pre & post & E)%list_elem_of_split. apply (sl_phi _ _ _ _ _ i (SpeculationLaws := HL)). by apply (Ho pre i post). }
  assert (Hout : forall i, i ∈ inv -> i_id i <> i_id term).
  { intros i Hi E. destruct (Hb i Hi) as (b & Hbl & Hib). apply (wl_outside _ _ _ _ _ Hw).
    rewrite <- (wl_uniq _ _ _ _ _ Hw b ph i term Hib); [done| |done].
    rewrite (wl_body _ _ _ _ _ Hw), elem_of_app. right. by left. }
  destruct (run_hoisted ext World other safe reads L bd inv Ho Hn Hb Hphi okEnv ea wa inv [] ea) as (eb & Hx & Hs & Heq); try done.
  { intros i Hi. by apply not_elem_of_nil in Hi. }
  { intros i v Hi Hv. destruct (Hb i Hi) as (b & Hbl & Hib). unfold operandsReady in Hr. rewrite Forall_forall in Hr.
    specialize (Hr b Hbl). rewrite Forall_forall in Hr. specialize (Hr i Hib). rewrite Forall_forall in Hr. by apply Hr. }
  destruct (execInst_result _ _ _ _ _ _ _ _ Ht) as (r & -> & Hres). specialize (Hres eb (fun v => v)).
  rewrite substI_self in Hres. exists (setResult eb (i_id term) r). split.
  { rewrite Hbd', decide_True, !execBlock_app, Hf by done. cbn [mbind option_bind]. rewrite execBlock_app, Hx.
    cbn [mbind option_bind BlockSem.execBlock]. rewrite Hres; [done|]. intros _ v Hv.
    destruct v as [j| | |]; try done. symmetry. apply Heq. intros Hj%(hoisted_contained L bd inv Hb).
    rewrite (wl_term _ _ _ _ _ Hw _ Hv) in Hj. done. }
  assert (Hs2 : settled ext World other inv (setResult eb (i_id term) r)).
  { apply settled_set; [done|]. intros i Hi. split; [by apply Hout|]. destruct (Hb i Hi) as (b & Hbl & Hib).
    by apply (wl_unused _ _ _ _ _ Hw b). }
  assert (Ha : agree inv [] (setResult ea (i_id term) r) (setResult eb (i_id term) r)).
  { intros j Hj. assert (Hj' : ea !! j = eb !! j) by (symmetry; apply Heq; intros Hin; by apply Hj, not_elem_of_nil in Hin).
    destruct r as [x|]; cbn [setResult]; [|done]. destruct (decide (j = i_id term)) as [->|]; [by rewrite !lookup_insert_eq|].
    by rewrite !lookup_insert_ne. }
  intros p w f w' Hp Hd Hrun.
  assert (Hbl' : forall b, b ∈ LICM.lp_blocks L -> bd' b = filter (fun i => i_id i ∉ map i_id inv) (bd b)).
  { intros b Hbl. rewrite Hbd', decide_False; [done|]. intros ->. by apply (wl_outside _ _ _ _ _ Hw). }
  assert (Hone : forall b i, b ∈ LICM.lp_blocks L -> i ∈ bd b -> i_id i ∈ map i_id inv -> i ∈ inv).
  { intros b i Hbl Hi Hid. apply elem_of_map in Hid as (k & E & Hk). destruct (Hb k Hk) as (c & Hc & Hkc).
    pose proof (wl_uniq _ _ _ _ _ Hw b c i k Hi Hkc E) as <-.
    by rewrite (NoDup_map_inj i_id (bd b) i k (wl_ids _ _ _ _ _ Hw b)). }
  destruct (path_agree ext World other safe reads L bd inv Ho Hn Hb Hphi bd' Hbl' Hone p [] ph _ _ w f w' Hp Ha Hs2 Hd Hrun)
    as (f' & Hf' & Hag).
  exists f'. split; [done|]. intros j Hj. apply Hag. intros Hin. rewrite app_nil_r.
  destruct Hj as [Hj|Hj]; [|done]. rewrite (hoisted_contained L bd inv Hb j Hin) in Hj. done.
Qed.

End Preserves.

(** C16: Loop-invariant code motion terminates on every loop of a function whose
    blocks are all reachable, and preserves the loop: from any state in which
    the old preheader ends, the new preheader, hoisted statements included, ends
    too, with the same memory, and then every path through the blocks of the
    loop does in the new function what it does in the old one, with the same
    memory and the same value for every instruction the old run has executed. *)
Theorem licm_preserves (V : Type) `{BitVectorLaws V} ext World other safe reads okEnv
    F L bd ph front term : SpeculationLaws ext World other safe reads okEnv ->
  CFGLaws F -> (forall b, b ∈ f_blocks F -> reachable F b) -> wfLoop L bd ph front term ->
  exists flag bd',
    LICM.runOnLoop (V := V) safe reads (length (f_rpo F) * length (f_blocks F) + 2) F L bd = Done (flag, bd') /\
    loopRefines ext World other okEnv L bd ph front term bd'.
Proof.
  intros HL HF Hall Hw. destruct (runOnLoop_spec (V := V) safe reads F L bd ph front term HF Hall Hw)
    as (flag & bd' & Hrun & [[_ ->]|(inv & _ & Ho & Hn & Hb & Hbd')]); exists flag; eexists; (split; [done|]).
  - by apply unchanged_refines.
  - by eapply hoisted_refines.
Qed.

(** ** A loop with an invariant statement *)

(** [loopF] with a sum of preheader values in the loop. *)
Definition sumInsts (b : blk) : list inst :=
  match b with
  | 0 => [mkInst 4 "n" (Some 32%Z) (Binary Add) [VConstInt 32 20; VConstInt 32 1];
          mkInst 20 "" None Terminator [VOther 1]]
  | 1 => [mkInst 1 "i" (Some 32%Z) (PHI [0; 2]) [VConstInt 32 0; VInst 2];
          mkInst 3 "k" (Some 32%Z) (Binary Add) [VInst 4; VConstInt 32 7];
          mkInst 10 "cmp" (Some 1%Z) (OtherInst 0) [VInst 1; VInst 3];
          mkInst 21 "" None Terminator [VInst 10; VOther 3; VOther 2]]
  | 2 => [mkInst 5 "m" (Some 32%Z) (Binary Add) [VInst 3; VInst 3];
          mkInst 2 "inc" (Some 32%Z) (Binary Add) [VInst 1; VInst 5];
          mkInst 22 "" None Terminator [VOther 1]]
  | 3 => [mkInst 23 "" None Ret [VInst 1]]
  | _ => []
  end.

Definition sumLoop : LICM.Loop := {|
  LICM.lp_preheader := Some 0; LICM.lp_blocks := [1; 2]; LICM.lp_innermost b := true |}.

(** A speculation test: 32-bit additions of instructions and constants. *)
Definition inRange32 (v : value) : bool :=
  match v with VInst _ => true | VConstInt _ c => BlockSem.inRange 32 c | _ => false end.
Definition add32 (i : inst) : bool :=
  match i_op i, i_type i, i_ops i with
  | Binary Add, Some 32%Z, [v1; v2] => inRange32 v1 && inRange32 v2
  | _, _, _ => false
  end.
Definition inType (e : gmap nat Z) : Prop := map_Forall (fun _ x => BlockSem.inRange 32 x = true) e.

(** Branches and comparisons have no effect, the outside world is a counter. *)
Definition quiet (o : opcode) (t : option Z) (id : nat) (w : nat) (vs : list (option Z)) :
  option (option Z * nat) := Some (match o with OtherInst _ => Some 1%Z | _ => None end, S w).

#[export] Instance add32_laws : SpeculationLaws (fun _ => None) nat quiet add32 (fun _ => false) inType.
Proof.
  split.
  - intros i. unfold add32, isPHI. by destruct (i_op i).
  - intros e i Hi _ He Hd. unfold add32 in Hi. destruct (i_op i) as [[]| | | | | | | | | | |] eqn:Eo; try done.
    destruct (i_type i) as [w|] eqn:Et; [|done]. destruct (decide (w = 32%Z)) as [->|Hne].
    2: { exfalso. destruct w as [|p|p]; [done| |done].
         do 6 (destruct p as [p|p|]; try done). }
    destruct (i_ops i) as [|v1 [|v2 [|]]] eqn:Ep; try done. apply andb_true_iff in Hi as [H1 H2].
    assert (Hv : forall v, v ∈ [v1; v2] -> inRange32 v = true -> exists x, BlockSem.eval (fun _ => None) e v = Some x /\ BlockSem.inRange 32 x = true).
    { intros v Hv Hr. destruct v as [j| |w c|]; try done.
      - destruct (Hd (VInst j) Hv eq_refl) as [x Hx]. exists x. split; [done|]. by apply (He j).
      - by exists c. }
    destruct (Hv v1 ltac:(by left) H1) as (x & Hx & Rx), (Hv v2 ltac:(right; by left) H2) as (y & Hy & Ry).
    exists ((x + y) mod 2 ^ 32)%Z. split.
    + intros e2 w Heq. unfold BlockSem.execInst. rewrite Eo, Et, Ep. cbn [fst snd].
      rewrite (Heq v1), (Heq v2), Hx, Hy by (rewrite ?Ep; set_solver). cbn [mbind option_bind].
      unfold evalBin. by rewrite Rx, Ry.
    + apply map_Forall_insert_2; [|done]. apply inRange_iff. by apply Z.mod_pos_bound.
Qed.

Lemma sumLoop_wf : wfLoop sumLoop sumInsts 0 [mkInst 4 "n" (Some 32%Z) (Binary Add) [VConstInt 32 20; VConstInt 32 1]]
  (mkInst 20 "" None Terminator [VOther 1]).
Proof.
  split; try done.
  - repeat constructor; set_solver.
  - simpl. set_solver.
  - intros b c i j Hi Hj E.
    destruct b as [|[|[|[|b]]]]; simpl in Hi; repeat (apply elem_of_cons in Hi as [->|Hi]); try (by apply not_elem_of_nil in Hi);
    destruct c as [|[|[|[|c]]]]; simpl in Hj; repeat (apply elem_of_cons in Hj as [->|Hj]); try (by apply not_elem_of_nil in Hj); done.
  - intros b. destruct b as [|[|[|[|b]]]]; simpl; repeat constructor; set_solver.
  - intros v Hv. by apply list_elem_of_singleton in Hv as ->.
  - intros b i Hb Hi. simpl in Hb. apply elem_of_cons in Hb as [->|Hb%list_elem_of_singleton]; [|subst b];
      simpl in Hi; repeat (apply elem_of_cons in Hi as [->|Hi]); try (by apply not_elem_of_nil in Hi); simpl; set_solver.
Qed.

(** Both sums are hoisted, [k] before [m] that uses it. *)
Lemma sum_run : obind (LICM.runOnLoop (V := ListBits.t) add32 (fun _ => false) 18 loopF sumLoop sumInsts)
    (fun r => Done (r.1, map (fun b => map i_id (r.2 b)) [0; 1; 2])) =
  Done (true, [[4; 3; 5; 20]; [1; 10; 21]; [2; 22]]).
Proof. vm_compute. reflexivity. Qed.

Lemma loopF_all b : b ∈ f_blocks loopF -> reachable loopF b.
Proof. apply loopF_reach. Qed.

Lemma licm_preserves_witness : exists bd' e2 f',
  LICM.runOnLoop (V := ListBits.t) add32 (fun _ => false) 18 loopF sumLoop sumInsts = Done (true, bd') /\
  BlockSem.execBlock (fun _ => None) nat quiet (∅, 0) (bd' 0) = Some (e2, 1) /\
  execPath (fun _ => None) nat quiet bd' (e2, 1) 0 [1; 2] = Some (f', 4) /\ f' !! 2 = Some 56%Z.
Proof.
  pose proof sum_run as Hc.
  destruct (licm_preserves ListBits.t (fun _ => None) nat quiet add32 (fun _ => false) inType
    loopF sumLoop sumInsts 0 _ _ add32_laws loopF_laws loopF_all sumLoop_wf) as (flag & bd' & Hrun & Href).
  change (length (f_rpo loopF) * length (f_blocks loopF) + 2) with 18 in Hrun. rewrite Hrun in Hc.
  cbn [obind fst snd map] in Hc. injection Hc as -> _ _ _.
  destruct (Href ∅ 0 {[4 := 21%Z]} 0 {[4 := 21%Z]} 1) as (e2 & He2 & Hpath).
  - vm_compute. reflexivity.
  - apply map_Forall_insert_2; [reflexivity|apply map_Forall_empty].
  - apply (bool_decide_unpack _). vm_compute. exact I.
  - vm_compute. reflexivity.
  - destruct (Hpath [1; 2] 1 {[1 := 0%Z; 2 := 56%Z; 3 := 28%Z; 4 := 21%Z; 5 := 56%Z; 10 := 1%Z]} 4) as (f' & Hf & Hag).
    + repeat constructor; in_list.
    + apply (bool_decide_unpack _). vm_compute. exact I.
    + vm_compute. reflexivity.
    + exists bd', e2, f'. split; [exact Hrun|]. split; [exact He2|]. split; [exact Hf|].
      rewrite <- (Hag 2); [reflexivity|]. right. vm_compute. in_list.
Defined.

(** Finding.  A block that belongs to an inner loop makes [runOnLoop] return
    at once and hoist nothing, where the comment says the block is skipped: with
    block 2 in an inner loop, the invariant sum of the header stays. *)
Theorem licm_subloop_aborts :
  LICM.runOnLoop (V := ListBits.t) add32 (fun _ => false) 18 loopF
    {| LICM.lp_preheader := Some 0; LICM.lp_blocks := [1; 2]; LICM.lp_innermost b := bool_decide (b <> 2) |}
    sumInsts = Done (false, sumInsts) /\
  LICM.isInvariant add32 (fun _ => false) sumLoop sumInsts []
    (mkInst 3 "k" (Some 32%Z) (Binary Add) [VInst 4; VConstInt 32 7]) = true.
Proof. split; vm_compute; reflexivity. Qed.
