(* ===== verification/FunctionInfo.v ===== *)
(** * The function-information pass: asst1/FunctionInfo/FunctionInfo.cpp

    The pass prints one line per function and changes nothing.  What it asks of
    LLVM about a function is a record; the text it writes to [outs()] is the
    result. *)

From stdpp Require Import list strings pretty.
From Stdlib Require Import ZArith.
From S2P Require Import Prelude.

Module FunctionInfo.

Record Function := mkFunction {
  getName : string;
  isVarArg : bool;
  arg_size : N;
  getNumUses : N;
  blockSizes : list N         (* FI->size() for each basic block *)
}.

(** The tab after a comma and the end of a line. *)
Definition comma : string := String (Ascii.ascii_of_nat 44) (String (Ascii.ascii_of_nat 9) EmptyString).
Definition newline : string := String (Ascii.ascii_of_nat 10) EmptyString.

(** [size_t] arithmetic. *)
Definition addSize (a b : N) : N := ((a + b) mod 2 ^ 64)%N.

Definition instructionCount (F : Function) : N := foldl addSize 0%N (blockSizes F).

(** [runOnFunction(F)]: the line printed, and the value returned. *)
Definition runOnFunction (F : Function) : string * bool :=
  let args := if isVarArg F then "*"%string else pretty (arg_size F) in
  ((getName F ++ comma ++ args ++ comma ++ pretty (getNumUses F) ++ comma ++
    pretty (N.of_nat (length (blockSizes F))) ++ comma ++ pretty (instructionCount F) ++ newline)%string, false).

Definition header (moduleId : string) : string :=
  ("Module " ++ moduleId ++ newline ++
   "Name," ++ String (Ascii.ascii_of_nat 9) ("Args" ++ comma ++ "Calls" ++ comma ++ "Blocks" ++ comma ++ "Insns" ++ newline))%string.

(** [printFunctionInfo(M)] *)
Definition printFunctionInfo (moduleId : string) (M : list Function) : string :=
  foldl (fun out F => out ++ fst (runOnFunction F))%string (header moduleId) M.

(** [runOnModule(M)] *)
Definition runOnModule (moduleId : string) (M : list Function) : string * bool :=
  (printFunctionInfo moduleId M, false).

(** ** Reading a line back *)

Definition isComma (c : Ascii.ascii) : bool := Ascii.eqb c (Ascii.ascii_of_nat 44).
Definition isLayout (c : Ascii.ascii) : bool :=
  Ascii.eqb c (Ascii.ascii_of_nat 9) || Ascii.eqb c (Ascii.ascii_of_nat 10).

(** No comma, tab or end of line. *)
Fixpoint plain (s : string) : bool :=
  match s with EmptyString => true | String c s' => negb (isComma c || isLayout c) && plain s' end.

(** The columns of a line: cut at the commas, without tabs and line ends. *)
Fixpoint columns (s : string) : list string :=
  match s with
  | EmptyString => [EmptyString]
  | String c s' =>
      if isComma c then EmptyString :: columns s'
      else if isLayout c then columns s'
      else match columns s' with x :: l => String c x :: l | [] => [] end
  end.

Lemma columns_app a s : plain a = true -> columns (a ++ comma ++ s) = a :: columns s.
Proof.
  induction a as [|c a IH]; intros Hp; [done|]. apply andb_true_iff in Hp as [Hc Hp].
  apply negb_true_iff, orb_false_iff in Hc as [H1 H2]. 
  change (String c a +:+ comma +:+ s) with (String c (a +:+ comma +:+ s)). unfold columns. fold columns. rewrite H1, H2. by rewrite IH.
Qed.

Lemma columns_end a : plain a = true -> columns (a ++ newline) = [a].
Proof.
  induction a as [|c a IH]; intros Hp; [done|]. apply andb_true_iff in Hp as [Hc Hp].
  apply negb_true_iff, orb_false_iff in Hc as [H1 H2]. 
  change (String c a +:+ newline) with (String c (a +:+ newline)). unfold columns. fold columns. by rewrite H1, H2, IH.
Qed.

(** Numbers are printed in digits. *)
Lemma plain_pretty (n : N) : plain (pretty n) = true.
Proof.
  assert (Hgo : forall s, plain s = true -> plain (pretty_N_go n s) = true).
  { induction (N.lt_wf_0 n) as [x _ IH]; intros s Hs. destruct (decide (x = 0%N)) as [->|Hx]; [done|].
    rewrite pretty_N_go_step by lia. apply IH; [apply N.div_lt; lia|]. cbn [plain]. rewrite Hs, andb_true_r.
    unfold pretty_N_char. by repeat case_match. }
  unfold pretty, pretty_N. case_decide; [done|by apply Hgo].
Qed.

Lemma count_total l : forall n, (foldl N.add n l < 2 ^ 64)%N -> foldl addSize n l = foldl N.add n l.
Proof.
  assert (Hmono : forall l n, (n <= foldl N.add n l)%N).
  { induction l0 as [|x l0 IH]; intros n; cbn [foldl]; [lia|]. specialize (IH (n + x)%N). lia. }
  induction l as [|x l IH]; intros n Hl; cbn [foldl] in *; [done|].
  pose proof (Hmono l (n + x)%N). unfold addSize at 2. rewrite N.mod_small by lia. by apply IH.
Qed.

(** A printed line can be read back: for a function whose name has no comma,
    tab or line end, the columns are its name, its number of arguments (a star
    for a variadic function), its uses, its basic blocks and, below 2^64, the
    total number of their instructions. *)
Theorem functioninfo_roundtrip F : plain (getName F) = true -> (foldl N.add 0 (blockSizes F) < 2 ^ 64)%N ->
  columns (fst (runOnFunction F)) =
    [getName F; if isVarArg F then "*"%string else pretty (arg_size F); pretty (getNumUses F);
     pretty (N.of_nat (length (blockSizes F))); pretty (foldl N.add 0%N (blockSizes F))].
Proof.
  intros Hn Hc. unfold runOnFunction, instructionCount. cbn [fst]. rewrite count_total by done.
  assert (Ha : plain (if isVarArg F then "*"%string else pretty (arg_size F)) = true)
    by (destruct (isVarArg F); [done|apply plain_pretty]).
  rewrite !columns_app, columns_end by (done || apply plain_pretty). done.
Qed.

Lemma functioninfo_roundtrip_witness :
  columns (fst (runOnFunction (mkFunction "main" false 2 0 [3; 1]%N))) = ["main"; "2"; "0"; "2"; "4"]%string.
Proof.
  etransitivity; [apply (functioninfo_roundtrip (mkFunction "main" false 2 0 [3; 1]%N)); vm_compute; reflexivity|].
  vm_compute. reflexivity.
Defined.

End FunctionInfo.
