(* ===== verification/LoopMemory.v ===== *)
(** * The loop-memory analysis: project/src/LoopMemoryAnalysis.cpp

    The pass finds the variables annotated in the entry block, follows the
    address computations derived from them, and classifies the accesses inside
    loops by their strides.  Scalar evolution and loop information are LLVM's
    and parameters here; the lines written to [outs()] are values of [event]. *)

From stdpp Require Import gmap list strings.
From Stdlib Require Import ZArith.
From S2P Require Import Prelude IR BlockSem.

Module LoopMemory.

(** ** Scalar evolution expressions *)

(** [SCEVConstant] with its [APInt], [SCEVAddRecExpr], or any other class. *)
Inductive SCEV :=
| scConstant (width c : Z)
| scAddRecExpr (operands : list SCEV)
| scOther (kind : nat).

(** An [APInt]: width and bit pattern. *)
Abbreviation APInt := (Z * Z)%type.

(** [parseExpression(AR, constants)].  An operand that is not a constant is cast
    to [SCEVAddRecExpr] without a test; for another class nothing is defined. *)
Fixpoint parseExpression (AR : SCEV) (constants : list APInt) : outcome (list APInt) :=
  match AR with
  | scAddRecExpr operands =>
      (fix loop (ops : list SCEV) (constants : list APInt) : outcome (list APInt) :=
         match ops with
         | [] => Done constants
         | operand :: ops =>
             match operand with
             | scConstant w c => loop ops (constants ++ [(w, c)])
             | _ => obind (parseExpression operand constants) (loop ops)
             end
         end) operands constants
  | _ => Exited
  end.

Inductive pattern := Regular | Columnar.

(** [last.sle(penultimate)]: signed, on equal widths. *)
Definition sle (a b : APInt) : outcome bool :=
  if decide (a.1 = b.1) then Done (BlockSem.signed a.1 a.2 <=? BlockSem.signed b.1 b.2)%Z else Exited.

(** The cost model: compare the last two constants. *)
Definition classify (AR : SCEV) : outcome pattern :=
  obind (parseExpression AR []) (fun constants =>
  match rev constants with
  | last :: penultimate :: _ =>
      obind (sle last penultimate) (fun b => Done (if b then Regular else Columnar))
  | _ => Exited
  end).

(** ** The pass *)

Inductive event :=
| Annotation (annotatedValue annotation filename linenumber : value)
| PointsTo (gep var : value)
| Access (insn : value) (AR : SCEV) (p : pattern).

Section Pass.

(** Value names, and for an instruction in a loop the access function of its
    pointer relative to its base at the innermost loop's scope ([None] when the
    instruction is in no loop or the base pointer is not a [SCEVUnknown]). *)
Variable getName : value -> string.
Variable accessFn : inst -> option SCEV.

(** [getPointerOperand(Inst)] *)
Definition getPointerOperand (i : inst) : option value :=
  match i_op i with
  | Load => i_ops i !! 0
  | Store => i_ops i !! 1
  | GetElementPtr => i_ops i !! 0
  | _ => None
  end.

(** The bitcasts of the entry block. *)
Definition castMap (entry : list inst) : gmap value value :=
  foldl (fun m i => match i_op i, i_ops i with
                    | BitCast, v :: _ => <[i_val i := v]> m
                    | _, _ => m
                    end) ∅ entry.

(** One instruction of the entry block in the search for annotations. *)
Definition annotate (casts : gmap value value) (st : list value * list event) (i : inst)
  : list value * list event :=
  let '(structures, out) := st in
  match i_op i with
  | Call =>
      match last (i_ops i) with
      | Some calledFunction =>
          if negb (String.eqb (getName calledFunction) "llvm.var.annotation") then st
          else
            match i_ops i with
            | v :: annotation :: filename :: linenumber :: _ =>
                let annotatedValue := match casts !! v with Some u => u | None => v end in
                (structures ++ [annotatedValue],
                 out ++ [Annotation annotatedValue annotation filename linenumber])
            | _ => st
            end
      | None => st
      end
  | _ => st
  end.

Definition annotations (structures : list value) (entry : list inst) : list value * list event :=
  foldl (annotate (castMap entry)) (structures, []) entry.

(** One instruction of the function in the delinearization. *)
Definition analyse (structures : list value) (st : gmap value value * list event) (i : inst)
  : outcome (gmap value value * list event) :=
  let '(mapAccessToVar, out) := st in
  match i_op i with
  | GetElementPtr =>
      match i_ops i !! 0 with
      | Some pointer_operand =>
          if decide (pointer_operand ∈ structures) then
            Done (<[i_val i := pointer_operand]> mapAccessToVar, out ++ [PointsTo (i_val i) pointer_operand])
          else
            match mapAccessToVar !! pointer_operand with
            | Some var => Done (<[i_val i := var]> mapAccessToVar, out)
            | None => Done st
            end
      | None => Done st
      end
  | Load | Store =>
      match getPointerOperand i with
      | Some pointer_operand =>
          if bool_decide (mapAccessToVar !! pointer_operand = None) && bool_decide (pointer_operand ∉ structures)
          then Done st
          else if bool_decide (mapAccessToVar !! i_val i <> None) then Done st
          else
            match accessFn i with
            | Some (scAddRecExpr ops) =>
                obind (classify (scAddRecExpr ops)) (fun p =>
                Done (mapAccessToVar, out ++ [Access (i_val i) (scAddRecExpr ops) p]))
            | _ => Done st
            end
      | None => Done st
      end
  | _ => Done st
  end.

Definition analyseAll (structures : list value) (st : gmap value value * list event) (l : list inst) :
  outcome (gmap value value * list event) :=
  foldl (fun s i => obind s (fun st => analyse structures st i)) (Done st) l.

(** [runOnFunction(F)] on the blocks of a function, entry first.  [structures]
    is a member of the pass and is never cleared. *)
Definition runOnFunction (structures : list value) (blocks : list (list inst)) :
  outcome (list value * list event) :=
  let '(structures, out) := annotations structures (default [] (head blocks)) in
  obind (analyseAll structures (∅, out) (concat blocks)) (fun r => Done (structures, snd r)).

(** ** What is reported *)

(** The address [p] is computed from the variable [s] by the address
    computations of [l]. *)
Inductive derives (l : list inst) (S : list value) : value -> value -> Prop :=
| derives_base s : s ∈ S -> derives l S s s
| derives_gep i p s : i ∈ l -> i_op i = GetElementPtr -> i_ops i !! 0 = Some p -> derives l S p s ->
    derives l S (i_val i) s.

(** The events of the second stage say what the code says. *)
Definition eventOk (l : list inst) (S : list value) (e : event) : Prop :=
  match e with
  | Annotation v _ _ _ => v ∈ S
  | PointsTo g s => s ∈ S /\ derives l S g s
  | Access v AR p => classify AR = Done p /\
      exists i q s, i ∈ l /\ v = i_val i /\ getPointerOperand i = Some q /\ accessFn i = Some AR /\
        s ∈ S /\ derives l S q s
  end.

Record analysisInv (l : list inst) (S : list value) (st : gmap value value * list event) : Prop := {
  an_map k v : st.1 !! k = Some v -> v ∈ S /\ derives l S k v;
  an_out e : e ∈ st.2 -> eventOk l S e
}.

Lemma analysisInv_out l S m out e : analysisInv l S (m, out) -> eventOk l S e -> analysisInv l S (m, out ++ [e]).
Proof.
  intros [Hm Ho] He. split; [done|]. intros e' [He'|E%list_elem_of_singleton]%elem_of_app; [by apply Ho|by subst].
Qed.

Lemma analysisInv_map l S m out k v : analysisInv l S (m, out) -> v ∈ S -> derives l S k v ->
  analysisInv l S (<[k := v]> m, out).
Proof.
  intros [Hm Ho] Hv Hd. split; [|done]. intros k' v'. simpl. rewrite lookup_insert. case_decide as E; [subst k'|apply Hm].
  by intros [= <-].
Qed.

Lemma analyse_inv l S st i st' : i ∈ l -> analysisInv l S st -> analyse S st i = Done st' -> analysisInv l S st'.
Proof.
  intros Hi Hinv. destruct st as [m out]. unfold analyse.
  destruct (i_op i) eqn:Eo; try (by intros [= <-]).
  1,2: destruct (getPointerOperand i) as [q|] eqn:Eq; [|by intros [= <-]];
    destruct (bool_decide (m !! q = None) && bool_decide (q ∉ S)) eqn:Eb; [by intros [= <-]|];
    destruct (bool_decide (m !! i_val i <> None)); [by intros [= <-]|];
    destruct (accessFn i) as [[|ops|]|] eqn:Ea; try (by intros [= <-]);
    destruct (classify (scAddRecExpr ops)) as [p| |] eqn:Ec; try done; intros [= <-];
    apply analysisInv_out; [done|]; split; [done|];
    assert (exists s, s ∈ S /\ derives l S q s) as (s & Hs & Hd);
      [apply andb_false_iff in Eb as [Eb|Eb]; apply bool_decide_eq_false in Eb;
        [destruct (m !! q) as [s|] eqn:Em; [exists s; by apply (an_map _ _ _ Hinv)|done]
        |apply dec_stable in Eb; exists q; split; [done|by constructor]]
      |by exists i, q, s].
  destruct (i_ops i !! 0) as [q|] eqn:Eq; [|by intros [= <-]]. case_decide as Hq.
  - intros [= <-]. assert (Hd : derives l S (i_val i) q) by (apply (derives_gep l S i q q); by try constructor).
    apply analysisInv_out; [by apply analysisInv_map|done].
  - destruct (m !! q) as [s|] eqn:Em; [|by intros [= <-]]. intros [= <-].
    destruct (an_map _ _ _ Hinv q s Em) as [Hs Hd]. apply analysisInv_map; [done|done|]. by apply (derives_gep l S i q s).
Qed.

Lemma analyseAll_inv l S l' : forall st st', (forall i, i ∈ l' -> i ∈ l) -> analysisInv l S st ->
  analyseAll S st l' = Done st' -> analysisInv l S st'.
Proof.
  induction l' as [|i l' IH]; intros st st' Hl Hinv; unfold analyseAll; cbn [foldl obind]; [by intros [= <-]|].
  destruct (analyse S st i) as [st1| |] eqn:E.
  - apply IH; [intros k Hk; apply Hl; by right|]. apply (analyse_inv l S st i); [apply Hl; by left|done|done].
  - intros Hx. exfalso. clear -Hx. induction l' as [|k l' IH]; [done|]. by apply IH.
  - intros Hx. exfalso. clear -Hx. induction l' as [|k l' IH]; [done|]. by apply IH.
Qed.

Lemma annotations_spec casts l : forall S out, let r := foldl (annotate casts) (S, out) l in
  (exists S', r.1 = S ++ S') /\ (forall e, e ∈ r.2 -> e ∈ out \/ exists v a f n, e = Annotation v a f n /\ v ∈ r.1).
Proof.
  induction l as [|i l IH]; intros S out; cbn [foldl].
  { split; [exists []; by rewrite app_nil_r|]. by left. }
  assert (Hstep : annotate casts (S, out) i = (S, out) \/ exists v a f n,
    annotate casts (S, out) i = (S ++ [v], out ++ [Annotation v a f n])).
  { unfold annotate. repeat (case_match; try by left); right; by eexists _, _, _, _. }
  destruct Hstep as [-> | (v & a & f & n & ->)]; [apply IH|].
  destruct (IH (S ++ [v]) (out ++ [Annotation v a f n])) as [[S' E] Ho]. split.
  - exists (v :: S'). cbn zeta. rewrite E, <- app_assoc. done.
  - intros e He. destruct (Ho e He) as [[He'|E'%list_elem_of_singleton]%elem_of_app|He']; [by left| |by right].
    right. exists v, a, f, n. split; [done|]. cbn zeta. rewrite E. set_solver.
Qed.

End Pass.

(** Every line the analysis prints is justified: each variable it names is
    annotated, each address it attributes to a variable is computed from that
    variable by getelementptr instructions of the function, and each access it
    classifies is a load or store through such an address, with the pattern the
    cost model gives its recurrence.  Annotated variables of earlier functions
    stay in the list. *)
Theorem loopmem_justified getName accessFn structures blocks structures' out :
  runOnFunction getName accessFn structures blocks = Done (structures', out) ->
  (exists new, structures' = structures ++ new) /\
  Forall (eventOk accessFn (concat blocks) structures') out.
Proof.
  unfold runOnFunction, annotations. intros Hrun.
  pose proof (annotations_spec getName accessFn (castMap (default [] (head blocks))) (default [] (head blocks)) structures [])
    as [[new En] Hout].
  destruct (foldl _ _ _) as [S out1]. cbn [fst snd] in *. subst S.
  apply obind_Done in Hrun as ([m out'] & Ha & [= <- <-]). split; [by exists new|].
  apply Forall_forall. apply (an_out accessFn _ _ (m, out')).
  apply (analyseAll_inv accessFn _ _ (concat blocks)) with (3 := Ha); [done|]. split.
  - intros k v. simpl. by rewrite lookup_empty.
  - intros e He. destruct (Hout e He) as [Hn|(v & a & f & n & -> & Hv)]; [by apply not_elem_of_nil in Hn|done].
Qed.

(** ** The cost model *)

(** Only constants and nested recurrences. *)
Fixpoint affine (s : SCEV) : bool :=
  match s with
  | scConstant _ _ => true
  | scAddRecExpr ops => forallb affine ops
  | scOther _ => false
  end.

(** The constants, left to right. *)
Fixpoint leaves (s : SCEV) : list APInt :=
  match s with
  | scConstant w c => [(w, c)]
  | scAddRecExpr ops => flat_map leaves ops
  | scOther _ => []
  end.

Section SCEVInd.
Variable P : SCEV -> Prop.
Hypothesis Hc : forall w c, P (scConstant w c).
Hypothesis Ha : forall ops, Forall P ops -> P (scAddRecExpr ops).
Hypothesis Ho : forall k, P (scOther k).
Fixpoint SCEV_nested_ind (s : SCEV) : P s :=
  match s with
  | scConstant w c => Hc w c
  | scAddRecExpr ops =>
      Ha ops ((fix go l : Forall P l := match l with [] => Forall_nil_2 _ | x :: l => Forall_cons_2 _ _ _ (SCEV_nested_ind x) (go l) end) ops)
  | scOther k => Ho k
  end.
End SCEVInd.

Lemma parse_leaves s : forall acc ops, s = scAddRecExpr ops ->
  parseExpression s acc = if affine s then Done (acc ++ leaves s) else Exited.
Proof.
  induction s as [w c|ops IH|k] using SCEV_nested_ind; intros acc ops0 E; [done| |done]. clear E ops0.
  cbn [parseExpression affine leaves]. revert acc. induction IH as [|x l Hx _ IHl]; intros acc.
  { by rewrite app_nil_r. }
  cbn [forallb flat_map]. destruct x as [w c|ops|k].
  - rewrite IHl. cbn [affine leaves andb]. by rewrite <- app_assoc.
  - rewrite (Hx acc ops eq_refl). destruct (affine (scAddRecExpr ops)); cbn [obind andb]; [|done].
    rewrite IHl, <- app_assoc. done.
  - done.
Qed.

(** The cost model looks at the last two constants of a recurrence whose
    operands are constants and recurrences, in the order they are written: the
    access is columnar when the last exceeds the one before as signed numbers,
    regular otherwise.  With fewer constants, other operands or different
    widths the routine does not return. *)
Theorem loopmem_classify ops : classify (scAddRecExpr ops) =
  if affine (scAddRecExpr ops) then
    match rev (leaves (scAddRecExpr ops)) with
    | (w, inner) :: (w', outer) :: _ =>
        if decide (w = w')
        then Done (if (BlockSem.signed w outer <? BlockSem.signed w inner)%Z then Columnar else Regular)
        else Exited
    | _ => Exited
    end
  else Exited.
Proof.
  unfold classify. rewrite (parse_leaves _ [] ops eq_refl). destruct (affine _); [|done]. cbn [obind app].
  destruct (rev _) as [|[w inner] [|[w' outer] l]]; [done..|]. unfold sle. cbn [fst snd].
  case_decide as E; [|done]. subst w'. cbn [obind]. rewrite Z.ltb_antisym. by destruct (_ <=? _)%Z.
Qed.

(** Finding: in a loop that is not nested the step is compared with the start
    offset, so a walk from offset 0 with any positive step is called columnar. *)
Lemma single_loop_columnar step : (0 < step < 2 ^ 63)%Z ->
  classify (scAddRecExpr [scConstant 64 0; scConstant 64 step]) = Done Columnar.
Proof.
  intros Hs. unfold classify, sle. cbn [parseExpression obind app rev fst snd]. rewrite decide_True by done.
  cbn [obind]. unfold BlockSem.signed. change (64 - 1)%Z with 63%Z. rewrite (proj2 (Z.ltb_lt step _)) by lia.
  change (0 <? 2 ^ 63)%Z with true. cbn iota. by rewrite (proj2 (Z.leb_gt step 0)) by lia.
Qed.

(** A matrix walked down a column: rows of 80 bytes in the inner loop. *)
Definition columnWalk : list inst :=
  [mkInst 1 "" None GetElementPtr [VArg 0; VInst 9];
   mkInst 2 "" None GetElementPtr [VInst 1; VInst 8];
   mkInst 3 "" (Some 32%Z) Load [VInst 2]].
Definition annotateArg : list inst :=
  [mkInst 5 "" None BitCast [VArg 0];
   mkInst 6 "" None Call [VInst 5; VOther 1; VOther 2; VConstInt 32 7; VOther 0]].
Definition columnSCEV : SCEV := scAddRecExpr [scAddRecExpr [scConstant 64 0; scConstant 64 4]; scConstant 64 80].

Definition annotationName (v : value) : string :=
  if decide (v = VOther 0) then "llvm.var.annotation" else "".
Definition columnAccess (i : inst) : option SCEV := if decide (i_id i = 3) then Some columnSCEV else None.
Definition columnOut : list event :=
  [Annotation (VArg 0) (VOther 1) (VOther 2) (VConstInt 32 7); PointsTo (VInst 1) (VArg 0);
   Access (VInst 3) columnSCEV Columnar].

Lemma columnRun : runOnFunction annotationName columnAccess [] [annotateArg; columnWalk] = Done ([VArg 0], columnOut).
Proof. vm_compute. reflexivity. Qed.

Lemma loopmem_justified_witness : derives (concat [annotateArg; columnWalk]) [VArg 0] (VInst 2) (VArg 0).
Proof.
  destruct (loopmem_justified annotationName columnAccess [] [annotateArg; columnWalk] _ _ columnRun) as [_ Hok].
  apply Forall_cons in Hok as [_ Hok]. apply Forall_cons in Hok as [_ Hok]. apply Forall_cons in Hok as [Hok _].
  destruct Hok as (_ & i & q & s & Hi & E & Hq & _ & Hs & Hd).
  apply list_elem_of_singleton in Hs as ->.
  assert (q = VInst 2) as ->; [|exact Hd]. cbn [concat app annotateArg columnWalk] in Hi.
  repeat (apply elem_of_cons in Hi as [->|Hi]; [first [discriminate E | discriminate Hq | injection Hq as <-; reflexivity]|]).
  by apply not_elem_of_nil in Hi.
Defined.

End LoopMemory.
