(* ===== verification/Bits.v ===== *)
(** * Bit and integer utilities of the memory system

    gem5/src/base/bitfield.hh, base/intmath.hh, base/intmath.cc and
    base/flags.hh, on 64-bit unsigned integers unless a width is given.  Values
    are integers between 0 and 2^64; wrap-around and complement are written
    out. *)

From stdpp Require Import base list numbers.
From Stdlib Require Import ZArith Lia Znumtheory.
From S2P Require Import Prelude.

#[local] Open Scope Z_scope.

(** ** Machine words *)

Definition wrap (w x : Z) : Z := x mod 2 ^ w.
Definition bnot (w x : Z) : Z := Z.lxor x (Z.ones w).
Definition u64 (x : Z) : Prop := 0 <= x < 2 ^ 64.

(** ** base/bitfield.hh *)

Definition mask (nbits : Z) : Z :=
  if nbits =? 64 then Z.ones 64 else wrap 64 (wrap 64 (Z.shiftl 1 nbits) - 1).

Definition bits (val first last : Z) : Z :=
  let nbits := first - last + 1 in
  Z.land (Z.shiftr val last) (mask nbits).

Definition bit1 (val bit : Z) : Z := bits val bit bit.

Definition mbits (val first last : Z) : Z :=
  Z.land val (Z.land (mask (first + 1)) (bnot 64 (mask last))).

Definition mask_range (first last : Z) : Z := mbits (Z.ones 64) first last.

Definition sext (N val : Z) : Z :=
  let sign_bit := bits val (N - 1) (N - 1) in
  if sign_bit =? 0 then val else Z.lor val (bnot 64 (mask N)).

Definition insertBits (val first last bit_val : Z) : Z :=
  let bmask := wrap 64 (Z.shiftl (mask (first - last + 1)) last) in
  Z.lor (Z.land (wrap 64 (Z.shiftl bit_val last)) bmask) (Z.land val (bnot 64 bmask)).

Definition insertBit (val bit bit_val : Z) : Z := insertBits val bit bit bit_val.

(** One step of the binary searches: skip [k] bits when the test holds. *)
Definition searchStep (test : Z -> bool) (k : Z) (s : Z * Z) : Z * Z :=
  let '(pos, val) := s in
  if test val then (pos + k, Z.shiftr val k) else (pos, val).

Definition nonzero (x : Z) : bool := negb (x =? 0).

Definition findMsbSet (val : Z) : Z :=
  if val =? 0 then 0
  else
    let s := (0, val) in
    let s := searchStep (fun v => nonzero (bits v 63 32)) 32 s in
    let s := searchStep (fun v => nonzero (bits v 31 16)) 16 s in
    let s := searchStep (fun v => nonzero (bits v 15 8)) 8 s in
    let s := searchStep (fun v => nonzero (bits v 7 4)) 4 s in
    let s := searchStep (fun v => nonzero (bits v 3 2)) 2 s in
    let '(msb, val) := s in
    if nonzero (bits val 1 1) then msb + 1 else msb.

Definition findLsbSet (val : Z) : Z :=
  if val =? 0 then 64
  else
    let s := (0, val) in
    let s := searchStep (fun v => negb (nonzero (bits v 31 0))) 32 s in
    let s := searchStep (fun v => negb (nonzero (bits v 15 0))) 16 s in
    let s := searchStep (fun v => negb (nonzero (bits v 7 0))) 8 s in
    let s := searchStep (fun v => negb (nonzero (bits v 3 0))) 4 s in
    let s := searchStep (fun v => negb (nonzero (bits v 1 0))) 2 s in
    let '(lsb, val) := s in
    if negb (nonzero (bits val 0 0)) then lsb + 1 else lsb.

Definition isPow2 (v : Z) : bool := Z.land v (wrap 64 (v - 1)) =? 0.

(** The portable branch of [popCount]. *)
Definition popCount (val : Z) : Z :=
  let m1 := 0x5555555555555555 in
  let m2 := 0x3333333333333333 in
  let m4 := 0x0f0f0f0f0f0f0f0f in
  let sum := 0x0101010101010101 in
  let val := wrap 64 (val - Z.land (Z.shiftr val 1) m1) in
  let val := wrap 64 (Z.land val m2 + Z.land (Z.shiftr val 2) m2) in
  let val := Z.land (wrap 64 (val + Z.shiftr val 4)) m4 in
  Z.shiftr (wrap 64 (val * sum)) 56.

(** ** base/flags.hh, for flags of width [w] *)

Module Flags.
Definition isSet (f m : Z) : bool := nonzero (Z.land f m).
Definition allSet (f m : Z) : bool := Z.land f m =? m.
Definition noneSet (f m : Z) : bool := Z.land f m =? 0.
Definition clear (w f m : Z) : Z := Z.land f (bnot w m).
Definition set (f m : Z) : Z := Z.lor f m.
Definition setTo (w f m : Z) (val : bool) : Z := Z.lor (Z.land f (bnot w m)) (if val then m else 0).
Definition update (w f flags m : Z) : Z := Z.lor (Z.land f (bnot w m)) (Z.land flags m).
End Flags.

(** ** base/intmath.hh *)

(** [isPrime]: trial division by 5, 7, 11, 13, ...; [fuel] bounds the loop. *)
Fixpoint isPrime_loop (fuel : nat) (n i : Z) : outcome bool :=
  match fuel with
  | O => OutOfFuel
  | S fuel =>
      if i * i <=? n then
        if (Z.rem n i =? 0) || (Z.rem n (i + 2) =? 0) then Done false
        else isPrime_loop fuel n (i + 6)
      else Done true
  end.

Definition isPrime (fuel : nat) (n : Z) : outcome bool :=
  if (n =? 2) || (n =? 3) then Done true else isPrime_loop fuel n 5.

(** The loop tests fewer than [n] divisors. *)
Definition isPrimeN (n : Z) : outcome bool := isPrime (S (Z.to_nat n)) n.

Definition leastSigBit (n : Z) : Z := Z.land n (bnot 64 (wrap 64 (n - 1))).
Definition isPowerOf2 (n : Z) : bool := nonzero n && (leastSigBit n =? n).

(** [power(n, e)]: the result and how often the overflow warning is printed. *)
Fixpoint power_loop (k : nat) (n : Z) (s : Z * nat) : Z * nat :=
  match k with
  | O => s
  | S k =>
      let '(result, warnings) := s in
      let result' := wrap 64 (result * n) in
      power_loop k n (result', if result' <? result then S warnings else warnings)
  end.
Definition power (n e : Z) : Z * nat :=
  if e =? 0 then (1, O) else power_loop (Z.to_nat (e - 1)) n (n, O).

(** [floorLog2(unsigned long long)]; the other widths are the same search. *)
Definition floorLog2 (x : Z) : outcome Z :=
  if 0 <? x then
    let s := (0, x) in
    let s := searchStep (fun x => nonzero (Z.land x 0xffffffff00000000)) 32 s in
    let s := searchStep (fun x => nonzero (Z.land x 0x00000000ffff0000)) 16 s in
    let s := searchStep (fun x => nonzero (Z.land x 0x000000000000ff00)) 8 s in
    let s := searchStep (fun x => nonzero (Z.land x 0x00000000000000f0)) 4 s in
    let s := searchStep (fun x => nonzero (Z.land x 0x000000000000000c)) 2 s in
    let '(y, x) := s in
    Done (if nonzero (Z.land x 0x2) then y + 1 else y)
  else Exited.

Definition ceilLog2 (n : Z) : outcome Z :=
  if n =? 1 then Done 0 else obind (floorLog2 (wrap 64 (n - 1))) (fun y => Done (y + 1)).
Definition floorPow2 (n : Z) : outcome Z := obind (floorLog2 n) (fun y => Done (wrap 64 (Z.shiftl 1 y))).
(** A shift by the width of the type is undefined. *)
Definition ceilPow2 (n : Z) : outcome Z := obind (ceilLog2 n) (fun y => if y <? 64 then Done (wrap 64 (Z.shiftl 1 y)) else Exited).
Definition divCeil (a b : Z) : Z := wrap 64 (a + b - 1) / b.
Definition roundUp (val align : Z) : Z :=
  let mask := wrap 64 (align - 1) in Z.land (wrap 64 (val + mask)) (bnot 64 mask).
Definition roundDown (val align : Z) : Z :=
  let mask := wrap 64 (align - 1) in Z.land val (bnot 64 mask).

Definition isHex (c : Z) : bool :=
  ((48 <=? c) && (c <=? 57)) || ((65 <=? c) && (c <=? 70)) || ((97 <=? c) && (c <=? 102)).
Definition isOct (c : Z) : bool := (48 <=? c) && (c <=? 55).
Definition isDec (c : Z) : bool := (48 <=? c) && (c <=? 57).
Definition hex2Int (c : Z) : Z :=
  if (48 <=? c) && (c <=? 57) then c - 48
  else if (65 <=? c) && (c <=? 70) then c - 65 + 10
  else if (97 <=? c) && (c <=? 102) then c - 97 + 10
  else 0.

(** base/intmath.cc: [prevPrime]. *)
Fixpoint prevPrime_loop (fuel : nat) (n decr : Z) : outcome Z :=
  match fuel with
  | O => OutOfFuel
  | S fuel' =>
      obind (isPrimeN n) (fun p =>
      if p then Done n else prevPrime_loop fuel' (n - decr) (6 - decr))
  end.
Definition prevPrime (fuel : nat) (n : Z) : outcome Z :=
  let n := if Z.odd n then n else n - 1 in
  let decr := Z.rem n 3 in
  if decr =? 0 then prevPrime_loop fuel (n - 2) 2
  else if decr =? 1 then prevPrime_loop fuel n 4
  else prevPrime_loop fuel n decr.

(** ** Masks and slices *)

Lemma mask_ones n : 0 <= n <= 64 -> mask n = Z.ones n.
Proof.
  intros Hn. unfold mask. destruct (Z.eqb_spec n 64) as [->|Hne]; [done|]. unfold wrap.
  assert (0 < 2 ^ n < 2 ^ 64) by (split; [apply Z.pow_pos_nonneg|apply Z.pow_lt_mono_r]; lia).
  rewrite Z.shiftl_1_l, !Z.mod_small by (rewrite ?Z.mod_small; lia). rewrite Z.ones_equiv. lia.
Qed.

Lemma bits_spec val first last : 0 <= last <= first -> first < 64 ->
  bits val first last = (val / 2 ^ last) mod 2 ^ (first - last + 1).
Proof.
  intros Hl Hf. unfold bits. rewrite mask_ones, Z.land_ones, Z.shiftr_div_pow2 by lia. done.
Qed.

Lemma bits_range val first last : 0 <= last <= first -> first < 64 -> 0 <= bits val first last < 2 ^ (first - last + 1).
Proof. intros. rewrite bits_spec by done. apply Z.mod_pos_bound, Z.pow_pos_nonneg; lia. Qed.

Lemma testbit_wrap w x i : 0 <= i -> 0 <= w -> Z.testbit (wrap w x) i = Z.testbit x i && (i <? w).
Proof.
  intros Hi Hw. unfold wrap. destruct (Z.ltb_spec i w).
  - rewrite Z.mod_pow2_bits_low, andb_true_r by lia. done.
  - rewrite Z.mod_pow2_bits_high, andb_false_r by lia. done.
Qed.

Lemma testbit_ones n i : 0 <= i -> 0 <= n -> Z.testbit (Z.ones n) i = (i <? n).
Proof. intros Hi Hn. rewrite Z.testbit_ones by done. by rewrite (proj2 (Z.leb_le 0 i)). Qed.

Lemma testbit_bnot w x i : 0 <= i -> 0 <= w -> Z.testbit (bnot w x) i = xorb (Z.testbit x i) (i <? w).
Proof. intros Hi Hw. unfold bnot. by rewrite Z.lxor_spec, testbit_ones. Qed.

Lemma testbit_shiftl x n i : 0 <= i -> 0 <= n -> Z.testbit (Z.shiftl x n) i = (n <=? i) && Z.testbit x (i - n).
Proof.
  intros Hi Hn. rewrite Z.shiftl_spec by done. destruct (Z.leb_spec n i); [done|].
  rewrite Z.testbit_neg_r by lia. done.
Qed.

(** The bits of a word built from shifts, masks and logical operations. *)
Create Rewrite HintDb word_bits.
#[export] Hint Rewrite Z.land_spec Z.lor_spec Z.lxor_spec Z.ldiff_spec Z.bits_0 : word_bits.
#[export] Hint Rewrite testbit_wrap testbit_ones testbit_bnot testbit_shiftl Z.shiftr_spec using lia : word_bits.

(** Compare two words bit by bit. *)
Ltac bitwise i Hi := apply Z.bits_inj'; intros i Hi; autorewrite with word_bits.

(** A word is determined by its low bits. *)
Lemma testbit_above w x i : 0 <= x < 2 ^ w -> w <= i -> Z.testbit x i = false.
Proof.
  intros Hx Hi. destruct (Z.eq_dec x 0) as [->|Hne]; [apply Z.bits_0|]. apply Z.bits_above_log2; [lia|].
  assert (Z.log2 x < w) by (apply Z.log2_lt_pow2; lia). lia.
Qed.

Lemma word_bounds w x : 0 <= w -> 0 <= x -> (forall i, w <= i -> Z.testbit x i = false) -> x < 2 ^ w.
Proof.
  intros Hw Hx Hb. destruct (Z.ltb_spec x (2 ^ w)); [done|]. exfalso.
  assert (0 < x) by (pose proof (Z.pow_pos_nonneg 2 w); lia).
  assert (w <= Z.log2 x) by (apply Z.log2_le_pow2; lia).
  pose proof (Z.bit_log2 x ltac:(lia)) as Hl. rewrite Hb in Hl; done.
Qed.

Lemma testbit_insertBits val first last b i : 0 <= last <= first -> first < 64 -> 0 <= i -> u64 val ->
  Z.testbit (insertBits val first last b) i =
    if (last <=? i) && (i <=? first) then Z.testbit b (i - last) else Z.testbit val i.
Proof.
  intros Hl Hf Hi Hv. unfold insertBits.
  rewrite mask_ones by lia. rewrite Z.lor_spec, !Z.land_spec, testbit_bnot, !testbit_wrap, !testbit_shiftl by lia.
  destruct (Z.leb_spec last i); cbn [andb].
  - rewrite testbit_ones by lia. replace (i - last <? first - last + 1) with (i <=? first)
      by (destruct (Z.leb_spec i first), (Z.ltb_spec (i - last) (first - last + 1)); lia || done).
    destruct (Z.leb_spec i first); cbn [andb].
    + rewrite (proj2 (Z.ltb_lt i 64)) by lia. cbn [andb xorb]. by rewrite !andb_true_r, andb_false_r, orb_false_r.
    + rewrite andb_false_r. cbn [orb xorb]. destruct (Z.ltb_spec i 64); [by rewrite andb_true_r|].
      rewrite (testbit_above 64 val i) by (unfold u64 in *; lia). done.
  - cbn [xorb orb]. rewrite (proj2 (Z.ltb_lt i 64)) by lia. by rewrite andb_true_r.
Qed.

Lemma testbit_bits val first last i : 0 <= last <= first -> first < 64 -> 0 <= i ->
  Z.testbit (bits val first last) i = (i <=? first - last) && Z.testbit val (i + last).
Proof.
  intros Hl Hf Hi. unfold bits. rewrite mask_ones, Z.land_spec, testbit_ones, Z.shiftr_spec by lia.
  rewrite andb_comm. f_equal. destruct (Z.ltb_spec i (first - last + 1)), (Z.leb_spec i (first - last)); lia || done.
Qed.

Lemma insertBits_u64 val first last b : 0 <= last <= first -> first < 64 -> u64 val -> u64 (insertBits val first last b).
Proof.
  intros Hl Hf Hv. assert (0 <= insertBits val first last b).
  { unfold insertBits. apply Z.lor_nonneg. split; apply Z.land_nonneg; left; [|apply Hv].
    unfold wrap. apply Z.mod_pos_bound. lia. }
  split; [done|]. apply word_bounds; [lia|done|]. intros i Hi. rewrite testbit_insertBits by (done || lia).
  rewrite (proj2 (Z.leb_gt i first)) by lia. rewrite andb_false_r. apply (testbit_above 64); [apply Hv|done].
Qed.

(** Writing a bit field and reading it back: after [insertBits] the field
    holds the low bits of the value written, every other bit is as before, and
    the word is still a 64-bit word. *)
Theorem insertBits_roundtrip val first last b : 0 <= last <= first -> first < 64 -> u64 val ->
  u64 (insertBits val first last b) /\
  bits (insertBits val first last b) first last = b mod 2 ^ (first - last + 1) /\
  forall f l, 0 <= l <= f -> f < 64 -> f < last \/ first < l -> bits (insertBits val first last b) f l = bits val f l.
Proof.
  intros Hl Hf Hv. split; [by apply insertBits_u64|]. split; [|intros f l Hlf Hff Hd]; apply Z.bits_inj'; intros i Hi.
  - rewrite testbit_bits, testbit_insertBits by (done || lia). change (b mod _) with (wrap (first - last + 1) b).
    rewrite testbit_wrap by lia. rewrite (proj2 (Z.leb_le last (i + last))) by lia. cbn [andb].
    replace (i + last - last) with i by lia.
    destruct (Z.leb_spec i (first - last)), (Z.leb_spec (i + last) first), (Z.ltb_spec i (first - last + 1)); try lia;
      by rewrite ?andb_true_r, ?andb_false_r.
  - rewrite !testbit_bits by (done || lia). destruct (Z.leb_spec i (f - l)); [|done]. cbn [andb].
    rewrite testbit_insertBits by (done || lia).
    destruct (Z.leb_spec last (i + l)), (Z.leb_spec (i + l) first); cbn [andb]; lia || done.
Qed.

Lemma insertBits_roundtrip_witness : bits (insertBits 0xff00 11 8 0xabc) 11 8 = 0xc.
Proof. apply (proj1 (proj2 (insertBits_roundtrip 0xff00 11 8 0xabc ltac:(lia) ltac:(lia) ltac:(unfold u64; lia)))). Defined.

(** ** Binary searches for the highest bit *)

(** A step that halves the width keeps the logarithm. *)
Lemma searchStep_log2 test k pos x : 0 < k -> 0 < x < 2 ^ (2 * k) ->
  test x = (2 ^ k <=? x) ->
  let '(pos', x') := searchStep test k (pos, x) in 0 < x' < 2 ^ k /\ pos' + Z.log2 x' = pos + Z.log2 x.
Proof.
  intros Hk Hx Ht. unfold searchStep. rewrite Ht. destruct (Z.leb_spec (2 ^ k) x) as [H|H]; [|lia].
  rewrite Z.shiftr_div_pow2 by lia. pose proof (Z.pow_pos_nonneg 2 k) as Hp. split.
  - replace (2 * k) with (k + k) in Hx by lia. rewrite Z.pow_add_r in Hx by lia.
    split; [apply Z.div_str_pos; lia|apply Z.div_lt_upper_bound; lia].
  - rewrite <- Z.shiftr_div_pow2, Z.log2_shiftr by lia.
    assert (k <= Z.log2 x) by (apply Z.log2_le_pow2; lia). lia.
Qed.

Lemma nonzero_iff x : nonzero x = true <-> x <> 0.
Proof. unfold nonzero. by rewrite negb_true_iff, Z.eqb_neq. Qed.

(** The high half of a [2k]-bit word is not zero. *)
Lemma high_half k x : 0 < k -> 0 <= x < 2 ^ (2 * k) ->
  nonzero (Z.land x (Z.shiftl (Z.ones k) k)) = (2 ^ k <=? x) /\
  nonzero (Z.land (Z.shiftr x k) (Z.ones k)) = (2 ^ k <=? x).
Proof.
  intros Hk Hx. pose proof (Z.pow_pos_nonneg 2 k) as Hp.
  assert (E : Z.shiftr x k = 0 <-> x < 2 ^ k).
  { rewrite Z.shiftr_div_pow2 by lia. rewrite Z.div_small_iff by lia. lia. }
  assert (Hs : 0 <= Z.shiftr x k < 2 ^ k).
  { rewrite Z.shiftr_div_pow2 by lia. replace (2 * k) with (k + k) in Hx by lia. rewrite Z.pow_add_r in Hx by lia.
    split; [apply Z.div_pos; lia|apply Z.div_lt_upper_bound; lia]. }
  assert (E1 : Z.land (Z.shiftr x k) (Z.ones k) = Z.shiftr x k) by (rewrite Z.land_ones, Z.mod_small; lia).
  assert (E2 : Z.land x (Z.shiftl (Z.ones k) k) = Z.shiftl (Z.shiftr x k) k).
  { rewrite <- E1. apply Z.bits_inj'. intros i Hi. rewrite Z.land_spec, !testbit_shiftl by lia.
    destruct (Z.leb_spec k i); [|by rewrite andb_false_r]. cbn [andb].
    rewrite Z.land_spec, Z.shiftr_spec by lia. by replace (i - k + k) with i by lia. }
  rewrite E1, E2. split; apply eq_bool_prop_intro; rewrite !Is_true_true, nonzero_iff, Z.leb_le; [|lia].
  rewrite Z.shiftl_mul_pow2 by lia. nia.
Qed.

Lemma top_bit x : 0 < x < 2 ^ 2 -> forall y, (if nonzero (Z.land x 2) then y + 1 else y) = y + Z.log2 x.
Proof. intros Hx y. assert (x = 1 \/ x = 2 \/ x = 3) as [-> | [-> | ->]] by lia; simpl; lia. Qed.

Ltac halve k := match goal with
  | |- context [searchStep ?t k (?p, ?x)] =>
      let Hh := fresh "Hh" in let p' := fresh "pos" in let x' := fresh "x" in
      pose proof (searchStep_log2 t k p x) as Hh;
      destruct (searchStep t k (p, x)) as [p' x'];
      specialize (Hh ltac:(lia) ltac:(simpl; lia)); destruct Hh; [|]
  end.

Lemma floorLog2_spec x : 0 < x < 2 ^ 64 -> floorLog2 x = Done (Z.log2 x).
Proof.
  intros Hx. unfold floorLog2. cbv zeta. rewrite (proj2 (Z.ltb_lt 0 x)) by lia.
  halve 32; [apply (high_half 32); simpl; lia|]. halve 16; [apply (high_half 16); simpl; lia|].
  halve 8; [apply (high_half 8); simpl; lia|]. halve 4; [apply (high_half 4); simpl; lia|].
  halve 2; [apply (high_half 2); simpl; lia|]. rewrite top_bit by (simpl; lia). f_equal. lia.
Qed.

Lemma findMsbSet_spec x : 0 < x < 2 ^ 64 -> findMsbSet x = Z.log2 x.
Proof.
  intros Hx. unfold findMsbSet. cbv zeta. rewrite (proj2 (Z.eqb_neq x 0)) by lia.
  halve 32; [apply (high_half 32); simpl; lia|]. halve 16; [apply (high_half 16); simpl; lia|].
  halve 8; [apply (high_half 8); simpl; lia|]. halve 4; [apply (high_half 4); simpl; lia|].
  halve 2; [apply (high_half 2); simpl; lia|].
  assert (x4 = 1 \/ x4 = 2 \/ x4 = 3) as [-> | [-> | ->]] by lia; simpl in *; lia.
Qed.

Lemma pow2_around y : 0 < y < 2 ^ 64 -> 0 <= Z.log2 y < 64 /\ 2 ^ Z.log2 y <= y < 2 * 2 ^ Z.log2 y.
Proof.
  intros Hy. split; [split; [apply Z.log2_nonneg|apply Z.log2_lt_pow2; lia]|].
  rewrite <- Z.pow_succ_r by apply Z.log2_nonneg. apply Z.log2_spec. lia.
Qed.

Lemma ceilPow2_spec x : 0 <= x < 2 ^ 64 ->
  if (0 <? x) && (x <=? 2 ^ 63) then exists k, 0 <= k <= 63 /\ ceilPow2 x = Done (2 ^ k) /\ x <= 2 ^ k < 2 * x
  else ceilPow2 x = Exited.
Proof.
  intros Hx. destruct (Z.eqb_spec x 0) as [->|H0]; [reflexivity|]. rewrite (proj2 (Z.ltb_lt 0 x)) by lia. cbn [andb].
  unfold ceilPow2, ceilLog2. destruct (Z.eqb_spec x 1) as [->|Hne]; [exists 0; by split|].
  assert (E : wrap 64 (x - 1) = x - 1) by (apply Z.mod_small; lia). rewrite E, floorLog2_spec by lia. cbn [obind].
  destruct (pow2_around (x - 1) ltac:(lia)) as [Hl Hp]. destruct (Z.leb_spec x (2 ^ 63)) as [Hle|Hgt].
  - assert (Hlt : Z.log2 (x - 1) < 63) by (apply Z.log2_lt_pow2; lia). rewrite (proj2 (Z.ltb_lt _ _)) by lia.
    exists (Z.log2 (x - 1) + 1). rewrite Z.shiftl_1_l, Z.add_1_r, Z.pow_succ_r by lia. split; [lia|]. split; [|lia].
    f_equal. apply Z.mod_small. lia.
  - assert (Hge : 63 <= Z.log2 (x - 1)) by (apply Z.log2_le_pow2; lia). by rewrite (proj2 (Z.ltb_ge _ _)) by lia.
Qed.

(** C19: The binary searches on every 64-bit number.  Of zero, the logarithm and
    the power of two below fail the assertion and [findMsbSet] is 0.  Of any
    other number [floorLog2] and [findMsbSet] give the position of the highest
    set bit, at most 63, and [floorPow2] the greatest power of two up to it;
    [ceilPow2] gives the least power of two from it on for 1 to 2^63, and
    shifts by the whole width, which is undefined, for zero and beyond. *)
Theorem log2_searches x : 0 <= x < 2 ^ 64 ->
  (if x =? 0 then floorLog2 x = Exited /\ findMsbSet x = 0 /\ floorPow2 x = Exited
   else floorLog2 x = Done (Z.log2 x) /\ findMsbSet x = Z.log2 x /\ 0 <= Z.log2 x <= 63 /\
     floorPow2 x = Done (2 ^ Z.log2 x) /\ 2 ^ Z.log2 x <= x < 2 * 2 ^ Z.log2 x) /\
  (if (0 <? x) && (x <=? 2 ^ 63) then exists k, 0 <= k <= 63 /\ ceilPow2 x = Done (2 ^ k) /\ x <= 2 ^ k < 2 * x
   else ceilPow2 x = Exited).
Proof.
  intros Hx. split; [|by apply ceilPow2_spec]. destruct (Z.eqb_spec x 0) as [->|Hne]; [done|].
  destruct (pow2_around x ltac:(lia)) as [Hl Hp]. unfold floorPow2. rewrite floorLog2_spec, findMsbSet_spec by lia. cbn [obind].
  do 2 (split; [done|]). split; [lia|]. split; [|done]. rewrite Z.shiftl_1_l. f_equal. apply Z.mod_small. lia.
Qed.

Lemma log2_searches_witness : floorLog2 1000 = Done 9 /\ findMsbSet 1000 = 9 /\ floorPow2 1000 = Done 512 /\ exists k, ceilPow2 1000 = Done (2 ^ k).
Proof.
  destruct (log2_searches 1000 ltac:(lia)) as ((H1 & H2 & _ & H3 & _) & k & _ & H4 & _).
  split; [exact H1|]. split; [exact H2|]. split; [exact H3|]. exists k. exact H4.
Defined.

(** ** Alignment *)

Lemma land_bnot_mask val k : u64 val -> 0 <= k <= 64 -> Z.land val (bnot 64 (Z.ones k)) = val - val mod 2 ^ k.
Proof.
  intros Hv Hk. rewrite <- Z.land_ones by lia. rewrite Z.sub_nocarry_ldiff.
  - apply Z.bits_inj'. intros i Hi. rewrite Z.ldiff_spec, !Z.land_spec, testbit_bnot, testbit_ones by lia.
    destruct (Z.ltb_spec i k), (Z.ltb_spec i 64); try lia; try (by destruct (Z.testbit val i)).
    rewrite (testbit_above 64 val i) by (unfold u64 in Hv; lia). done.
  - apply Z.bits_inj'. intros i Hi. rewrite Z.ldiff_spec, Z.land_spec, Z.bits_0.
    by destruct (Z.testbit val i), (Z.testbit (Z.ones k) i).
Qed.

Lemma align_mask k : 0 <= k < 64 -> wrap 64 (2 ^ k - 1) = Z.ones k.
Proof.
  intros Hk. assert (0 < 2 ^ k < 2 ^ 64) by (split; [apply Z.pow_pos_nonneg|apply Z.pow_lt_mono_r]; lia).
  unfold wrap. rewrite Z.mod_small by lia. rewrite Z.ones_equiv. lia.
Qed.

Lemma roundDown_spec val k : u64 val -> 0 <= k < 64 -> roundDown val (2 ^ k) = val - val mod 2 ^ k.
Proof. intros Hv Hk. unfold roundDown. rewrite align_mask by done. apply land_bnot_mask; [done|lia]. Qed.

(** [roundDown] and [roundUp] to a power of two give the nearest multiples:
    the greatest at most the value, and, when it fits in 64 bits, the least that
    is at least the value; when it does not fit [roundUp] gives zero. *)
Theorem rounding val k : u64 val -> 0 <= k < 64 ->
  let a := 2 ^ k in
  (a | roundDown val a) /\ roundDown val a <= val < roundDown val a + a /\
  (val + a <= 2 ^ 64 -> (a | roundUp val a) /\ val <= roundUp val a < val + a) /\
  (2 ^ 64 <= val + (a - 1) -> roundUp val a = 0).
Proof.
  intros Hv Hk a. assert (Ha : 0 < a) by (apply Z.pow_pos_nonneg; lia).
  assert (Hd : forall v, (a | v - v mod a)) by (intros v; exists (v / a); pose proof (Z.div_mod v a); lia).
  assert (Er : roundDown val a = val - val mod a) by by apply roundDown_spec. rewrite Er.
  assert (Eu : roundUp val a = Z.land (wrap 64 (val + Z.ones k)) (bnot 64 (Z.ones k)))
    by (unfold roundUp, a; by rewrite align_mask). rewrite Eu. clear Er Eu.
  pose proof (Z.mod_pos_bound val a Ha) as Hm. split; [apply Hd|]. split; [lia|].
  assert (E : Z.ones k = a - 1) by (rewrite Z.ones_equiv; fold a; lia).
  split; intros Hb.
  - assert (Hs : wrap 64 (val + Z.ones k) = val + (a - 1)) by (unfold u64 in Hv; rewrite E; apply Z.mod_small; lia).
    rewrite Hs, land_bnot_mask by (unfold u64 in *; lia). fold a. split; [apply Hd|].
    pose proof (Z.mod_pos_bound (val + (a - 1)) a Ha). lia.
  - assert (Hs : wrap 64 (val + Z.ones k) = val + (a - 1) - 2 ^ 64).
    { unfold u64 in Hv. assert (a < 2 ^ 64) by (apply Z.pow_lt_mono_r; lia). unfold wrap. rewrite E.
      symmetry. apply (Z.mod_unique _ _ 1); lia. }
    assert (a < 2 ^ 64) by (apply Z.pow_lt_mono_r; lia). unfold u64 in Hv.
    rewrite Hs, land_bnot_mask by (unfold u64; lia). fold a. rewrite Z.mod_small by lia. lia.
Qed.

Lemma rounding_witness : roundDown 1000 64 <= 1000 /\ (64 | roundUp 1000 64).
Proof.
  destruct (rounding 1000 6 ltac:(unfold u64; lia) ltac:(lia)) as (_ & H1 & H2 & _).
  split; [exact (proj1 H1)|]. apply (H2 ltac:(lia)).
Defined.

(** ** Primes *)

Section Primality.
Context (n : Z) (Hn : 5 <= n) (H2 : n mod 2 <> 0) (H3 : n mod 3 <> 0).

(** No divisor below [i]. *)
Definition trialled (i : Z) : Prop := forall d, 1 < d < i -> ~ (d | n).

Lemma not_even d : d mod 2 = 0 -> ~ (d | n).
Proof. intros Hd [q E]. apply H2. rewrite E, Z.mul_mod, Hd, Z.mul_0_r by lia. done. Qed.

Lemma not_three d : d mod 3 = 0 -> ~ (d | n).
Proof. intros Hd [q E]. apply H3. rewrite E, Z.mul_mod, Hd, Z.mul_0_r by lia. done. Qed.

Lemma trialled_step i : i mod 6 = 5 -> trialled i -> ~ (i | n) -> ~ (i + 2 | n) -> trialled (i + 6).
Proof.
  intros Hi Ht H0 Hs d Hd.
  assert (d < i \/ d = i \/ d = i + 1 \/ d = i + 2 \/ d = i + 3 \/ d = i + 4 \/ d = i + 5) as Hc by lia.
  destruct Hc as [Hc|[->|[->|[->|[->|[->| ->]]]]]]; try done; [apply Ht; lia|..]; first
    [apply not_even; Z.div_mod_to_equations; lia | apply not_three; Z.div_mod_to_equations; lia].
Qed.

Lemma trialled_prime i : n < i * i -> 1 < i -> trialled i -> prime n.
Proof.
  intros Hi Hp Ht. apply prime_alt. split; [lia|]. intros d Hd [q E].
  destruct (Z.ltb_spec d i).
  - apply (Ht d); [lia|by exists q].
  - apply (Ht q); [nia|]. exists d. lia.
Qed.

Lemma rem_divide i : 0 < i -> (Z.rem n i =? 0) = true <-> (i | n).
Proof. intros Hi. rewrite Z.eqb_eq, Z.rem_divide by lia. done. Qed.

Lemma isPrime_loop_spec fuel : forall i, 5 <= i -> i mod 6 = 5 -> trialled i -> n - i < Z.of_nat fuel -> (0 < fuel)%nat ->
  exists b, isPrime_loop fuel n i = Done b /\ (b = true <-> prime n).
Proof.
  induction fuel as [|fuel IH]; intros i Hi Hm Ht Hf Hp; [lia|]. cbn [isPrime_loop].
  destruct (Z.leb_spec (i * i) n) as [Hle|Hgt].
  - destruct (Z.rem n i =? 0) eqn:E1; [|destruct (Z.rem n (i + 2) =? 0) eqn:E2]; cbn [orb].
    + exists false. split; [done|]. split; [done|]. apply rem_divide in E1; [|lia].
      intros Hpr. destruct (prime_divisors n Hpr i E1) as [?|[?|[?|?]]]; nia.
    + exists false. split; [done|]. split; [done|]. apply rem_divide in E2; [|lia].
      intros Hpr. destruct (prime_divisors n Hpr (i + 2) E2) as [?|[?|[?|?]]]; nia.
    + apply IH; [lia|Z.div_mod_to_equations; lia| |lia|nia].
      apply trialled_step; [done|done|..]; intros Hd; apply rem_divide in Hd; (congruence || lia).
  - exists true. split; [done|]. split; [|done]. intros _. by apply (trialled_prime i); [lia|lia|].
Qed.

End Primality.

(** [isPrime] decides primality of numbers that are divisible neither by 2
    nor by 3, the only ones [prevPrime] asks about; the loop tests fewer than
    [n] candidates. *)
Theorem isPrime_correct n : 5 <= n -> n mod 2 <> 0 -> n mod 3 <> 0 ->
  exists b, isPrimeN n = Done b /\ (b = true <-> prime n).
Proof.
  intros Hn H2 H3. unfold isPrimeN, isPrime. rewrite (proj2 (Z.eqb_neq n 2)), (proj2 (Z.eqb_neq n 3)) by lia. cbn [orb].
  apply isPrime_loop_spec; [done|done|done|lia|done| |lia|lia].
  intros d Hd. assert (d = 2 \/ d = 3 \/ d = 4) as [-> | [-> | ->]] by lia;
    first [by apply not_even | by apply not_three].
Qed.

Lemma isPrime_correct_witness : prime 101.
Proof.
  destruct (isPrime_correct 101 ltac:(lia) ltac:(discriminate) ltac:(discriminate)) as (b & E & Hb).
  vm_compute in E. apply Hb. congruence.
Defined.

Lemma isPowerOf2_log2 n : 0 < n < 2 ^ 64 -> isPowerOf2 n = true -> n = 2 ^ Z.log2 n.
Proof.
  intros Hn [_ Hl%Z.eqb_eq]%andb_true_iff. destruct (Z.log2_spec n) as [Hlo Hhi]; [lia|].
  apply Z.le_lteq in Hlo as [Hlt|?]; [|done]. exfalso.
  assert (Hp : Z.log2 (n - 1) = Z.log2 n) by (apply Z.log2_unique; [apply Z.log2_nonneg|lia]).
  assert (H0 : 0 <= Z.log2 n < 64) by (split; [apply Z.log2_nonneg|apply Z.log2_lt_pow2; lia]).
  assert (B : Z.testbit (leastSigBit n) (Z.log2 n) = true) by (rewrite Hl; apply Z.bit_log2; lia).
  assert (C : Z.testbit (n - 1) (Z.log2 n) = true).
  { rewrite <- Hp. apply Z.bit_log2. assert (0 < 2 ^ Z.log2 n) by (apply Z.pow_pos_nonneg; lia). lia. }
  unfold leastSigBit in B. autorewrite with word_bits in B. rewrite C in B.
  destruct (Z.ltb_spec (Z.log2 n) 64); [|lia]. cbn in B. rewrite andb_false_r in B. discriminate.
Qed.

(** The mask below a power of two. *)
Lemma pow2_mask n : 0 < n < 2 ^ 64 -> isPowerOf2 n = true -> n - 1 = Z.ones (Z.log2 n).
Proof. intros H1 H2. rewrite Z.ones_equiv. pose proof (isPowerOf2_log2 n H1 H2). lia. Qed.

(** Finding: the comment promises a primality test for every number; multiples
    of 2 and 3 below 25 pass it, and so does 1. *)
Lemma isPrime_small_composites : map isPrimeN [1; 4; 9; 15; 21] = replicate 5 (Done true).
Proof. vm_compute. reflexivity. Qed.
