(* ===== verification/AddrRange.v ===== *)
(** * Address ranges: gem5/src/base/addr_range.hh

    Ranges with inclusive bounds, possibly interleaved on a slice of address
    bits with an optional XOR hash.  [fatal] and [panic] leave the simulator. *)

From stdpp Require Import base list numbers.
From Stdlib Require Import ZArith Lia.
From S2P Require Import Prelude Bits.

#[local] Open Scope Z_scope.

Module AddrRange.

Record t := mk {
  start : Z;
  end_ : Z;
  intlvHighBit : Z;
  xorHighBit : Z;
  intlvBits : Z;
  intlvMatch : Z
}.

#[global] Instance t_eq_dec : EqDecision t.
Proof. solve_decision. Defined.

(** The constructors. *)
Definition empty : t := mk 1 0 0 0 0 0.
Definition plain (s e : Z) : t := mk s e 0 0 0 0.

Definition make (s e high xorHigh nbits mtch : Z) : outcome t :=
  let r := mk s e high xorHigh nbits mtch in
  if nonzero nbits && (Z.shiftl 1 nbits <=? mtch) then Exited
  else if nonzero nbits && nonzero xorHigh then
    if xorHigh =? high then Exited
    else if high <? xorHigh then
      if xorHigh - high <? nbits then Exited else Done r
    else
      if high - xorHigh <? nbits then Exited else Done r
  else Done r.

Definition interleaved (r : t) : bool := nonzero (intlvBits r).
Definition hashed (r : t) : bool := interleaved r && nonzero (xorHighBit r).
Definition granularity (r : t) : Z := wrap 64 (Z.shiftl 1 (intlvHighBit r - intlvBits r + 1)).
Definition stripes (r : t) : Z := wrap 32 (Z.shiftl 1 (intlvBits r)).
Definition size (r : t) : Z := Z.shiftr (wrap 64 (end_ r - start r + 1)) (intlvBits r).
Definition valid (r : t) : bool := start r <=? end_ r.

Definition mergesWith (self r : t) : bool :=
  (start r =? start self) && (end_ r =? end_ self) && (intlvHighBit r =? intlvHighBit self) &&
  (xorHighBit r =? xorHighBit self) && (intlvBits r =? intlvBits self).

(** The slice of the address the match value is compared with. *)
Definition select (r : t) (a : Z) : Z :=
  let slice := bits a (intlvHighBit r) (intlvHighBit r - intlvBits r + 1) in
  if negb (hashed r) then slice
  else Z.lxor slice (bits a (xorHighBit r) (xorHighBit r - intlvBits r + 1)).

Definition contains (r : t) (a : Z) : bool :=
  let in_range := (start r <=? a) && (a <=? end_ r) in
  if negb (interleaved r) then in_range
  else if in_range then select r a =? intlvMatch r
  else false.

Definition intersects (self r : t) : outcome bool :=
  let overlap := (start self <=? end_ r) && (start r <=? end_ self) in
  if negb (interleaved self) then Done overlap
  else if size r =? 1 then Done (contains self (start r))
  else if negb (interleaved r) then Done overlap
  else if mergesWith self r then Done (intlvMatch self =? intlvMatch r)
  else Exited.

Definition isSubset (self r : t) : outcome bool :=
  if interleaved self then Exited
  else Done ((start r <=? start self) && (end_ self <=? end_ r)).

(** The constructor that merges the ranges of an interleaving. *)
Fixpoint checkMatches (self : t) (mtch : Z) (ranges : list t) : bool :=
  match ranges with
  | [] => true
  | r :: ranges =>
      mergesWith self r && (intlvMatch r =? mtch) && checkMatches self (wrap 8 (mtch + 1)) ranges
  end.

Definition merge (ranges : list t) : outcome t :=
  match ranges with
  | [] => Done empty
  | r0 :: _ =>
      let self := mk (start r0) (end_ r0) (intlvHighBit r0) (xorHighBit r0) (intlvBits r0) 0 in
      if negb (Z.of_nat (length ranges) =? Z.shiftl 1 (intlvBits self)) then Exited
      else if negb (checkMatches self 0 ranges) then Exited
      else Done (plain (start self) (end_ self))
  end.

Definition lt (self r : t) : bool :=
  if negb (start self =? start r) then start self <? start r else intlvMatch self <? intlvMatch r.

Definition eq (self r : t) : bool :=
  if negb (start self =? start r) then false
  else if negb (end_ self =? end_ r) then false
  else if negb (intlvBits self =? intlvBits r) then false
  else if nonzero (intlvBits self) then
    (intlvHighBit self =? intlvHighBit r) && (intlvMatch self =? intlvMatch r)
  else true.

Definition RangeEx (s e : Z) : t := plain s (wrap 64 (e - 1)).
Definition RangeIn (s e : Z) : t := plain s e.
Definition RangeSize (s n : Z) : t := plain s (wrap 64 (s + n - 1)).

(** ** Merging *)

Lemma mergesWith_eq self r : mergesWith self r = true <->
  r = mk (start self) (end_ self) (intlvHighBit self) (xorHighBit self) (intlvBits self) (intlvMatch r).
Proof.
  unfold mergesWith. rewrite !andb_true_iff, !Z.eqb_eq. destruct r as [s e h x n m]; simpl. split.
  - by intros ((((-> & ->) & ->) & ->) & ->).
  - by intros [= -> -> -> -> ->].
Qed.

(** The ranges of a successful merge differ in the match value only, which is
    their position, in eight bits. *)
Lemma checkMatches_lookup self ranges : forall m, 0 <= m < 2 ^ 8 -> checkMatches self m ranges = true ->
  forall j r, ranges !! j = Some r ->
    r = mk (start self) (end_ self) (intlvHighBit self) (xorHighBit self) (intlvBits self) (wrap 8 (m + Z.of_nat j)).
Proof.
  induction ranges as [|r0 ranges IH]; intros m Hm Hc j r Hj; [done|].
  cbn [checkMatches] in Hc. apply andb_true_iff in Hc as [Hc Hrest]. apply andb_true_iff in Hc as [Hw Em].
  apply mergesWith_eq in Hw. apply Z.eqb_eq in Em. destruct j as [|j].
  - injection Hj as <-. rewrite Hw, Em. f_equal. rewrite Z.add_0_r. symmetry. by apply Z.mod_small.
  - rewrite (IH (wrap 8 (m + 1)) ltac:(by apply Z.mod_pos_bound) Hrest j r Hj). f_equal. unfold wrap.
    rewrite Zplus_mod_idemp_l. f_equal. lia.
Qed.

(** The slices of an interleaving lie inside the address. *)
Definition sliced (r : t) : Prop :=
  0 <= intlvBits r /\ intlvBits r - 1 <= intlvHighBit r < 64 /\ (xorHighBit r <> 0 -> intlvBits r - 1 <= xorHighBit r < 64).

(** They have at most as many bits as a match value. *)
Definition wf (r : t) : Prop := sliced r /\ intlvBits r <= 8.

Lemma lxor_range k x y : 0 <= k -> 0 <= x < 2 ^ k -> 0 <= y < 2 ^ k -> 0 <= Z.lxor x y < 2 ^ k.
Proof.
  intros Hk Hx Hy. assert (0 <= Z.lxor x y) by (apply Z.lxor_nonneg; lia). split; [done|].
  apply word_bounds; [done|done|]. intros i Hi. rewrite Z.lxor_spec, !(testbit_above k); [done|lia..].
Qed.

Lemma select_range r a : sliced r -> 0 < intlvBits r -> 0 <= select r a < 2 ^ intlvBits r.
Proof.
  intros (Hb & Hh & Hx) Hp. unfold select.
  assert (Hs : forall h, intlvBits r - 1 <= h < 64 -> 0 <= bits a h (h - intlvBits r + 1) < 2 ^ intlvBits r).
  { intros h Hr. replace (intlvBits r) with (h - (h - intlvBits r + 1) + 1) at 3 by lia. apply bits_range; lia. }
  destruct (hashed r) eqn:E; cbn [negb]; [|by apply Hs]. apply andb_true_iff in E as [_ E%nonzero_iff].
  apply lxor_range; [lia|by apply Hs|apply Hs; by apply Hx].
Qed.

(** An address of a merged range is in exactly one of the ranges. *)
Lemma merge_partition r0 ranges R a : wf r0 ->
  merge (r0 :: ranges) = Done R ->
  (contains R a = true /\ exists i, (i < length (r0 :: ranges))%nat /\ forall j r, (r0 :: ranges) !! j = Some r -> contains r a = true <-> j = i) \/
  (contains R a = false /\ forall j r, (r0 :: ranges) !! j = Some r -> contains r a = false).
Proof.
  intros Hw Hm. unfold merge in Hm. cbn [intlvBits] in Hm.
  destruct (Z.eqb_spec (Z.of_nat (length (r0 :: ranges))) (Z.shiftl 1 (intlvBits r0))) as [El|]; [|done].
  set (self := mk _ _ _ _ _ 0) in Hm. cbn [negb] in Hm.
  destruct (checkMatches self 0 (r0 :: ranges)) eqn:Ec; [|done]. injection Hm as Hm.
  destruct Hw as [Hw H8]. pose proof Hw as (Hb & Hh & Hx). rewrite Z.shiftl_1_l in El.
  assert (Hlen : Z.of_nat (length (r0 :: ranges)) <= 2 ^ 8) by (rewrite El; apply Z.pow_le_mono_r; lia).
  assert (Hr : forall j r, (r0 :: ranges) !! j = Some r ->
    r = mk (start r0) (end_ r0) (intlvHighBit r0) (xorHighBit r0) (intlvBits r0) (Z.of_nat j))
    by (intros j r Hj; rewrite (checkMatches_lookup self (r0 :: ranges) 0 ltac:(lia) Ec j r Hj); f_equal; apply Z.mod_small;
        apply lookup_lt_Some in Hj; lia).
  set (in_range := (start r0 <=? a) && (a <=? end_ r0)).
  assert (HR : contains R a = in_range) by by subst R. rewrite HR. clear HR.
  assert (Hc : forall j r, (r0 :: ranges) !! j = Some r -> contains r a =
    in_range && (negb (nonzero (intlvBits r0)) || (select r0 a =? Z.of_nat j))).
  { intros j r Hj. rewrite (Hr j r Hj). unfold contains, interleaved, select, hashed. cbn.
    fold in_range. destruct (nonzero (intlvBits r0)); destruct in_range; done. }
  destruct in_range; [left|right]; (split; [done|]).
  - destruct (Z.eqb_spec (intlvBits r0) 0) as [E0|Hne].
    + exists 0%nat. split; [cbn; lia|]. intros j r Hj. rewrite (Hc j r Hj). unfold nonzero. rewrite E0. cbn. split; [|done]. intros _.
      apply lookup_lt_Some in Hj. rewrite E0 in El. cbn [length] in *. lia.
    + exists (Z.to_nat (select r0 a)). pose proof (select_range r0 a Hw ltac:(lia)) as Hs.
      split; [lia|]. intros j r Hj. rewrite (Hc j r Hj). unfold nonzero. rewrite (proj2 (Z.eqb_neq _ _) Hne). cbn [negb orb andb].
      rewrite Z.eqb_eq. lia.
  - intros j r Hj. by rewrite (Hc j r Hj).
Qed.

(** The match value of a merge wraps after 256 ranges. *)
Lemma merge_repeats r0 ranges R j r : merge (r0 :: ranges) = Done R -> (r0 :: ranges) !! (j + 256)%nat = Some r -> (r0 :: ranges) !! j = Some r.
Proof.
  unfold merge. intros Hm Hj. destruct (negb (Z.of_nat _ =? _)); [done|]. set (self := mk _ _ _ _ _ 0) in Hm.
  destruct (checkMatches self 0 (r0 :: ranges)) eqn:Ec; [|done]. pose proof (checkMatches_lookup self (r0 :: ranges) 0 ltac:(lia) Ec) as Hl.
  assert (Hlt : (j < length (r0 :: ranges))%nat) by (apply lookup_lt_Some in Hj; lia).
  apply lookup_lt_is_Some_2 in Hlt as [r' Hr']. rewrite Hr', (Hl _ _ Hr'), (Hl _ _ Hj). do 2 f_equal. unfold wrap.
  rewrite Nat2Z.inj_add, Z.add_assoc. change (Z.of_nat 256) with (1 * 2 ^ 8). by rewrite Z_mod_plus_full.
Qed.

(** C20: Merging the ranges of an interleaving whose slices lie inside the
    address.  With at most eight interleaving bits the ranges the constructor
    accepts partition the merged range: an address is in it exactly when it is
    in one of them, and then in that one only.  With more bits they do not,
    because the expected match value wraps: every range occurs again 256
    positions later. *)
Theorem addrrange_merge_partition r0 ranges R a : sliced r0 -> merge (r0 :: ranges) = Done R ->
  if intlvBits r0 <=? 8 then
    (contains R a = true /\ exists i, (i < length (r0 :: ranges))%nat /\ forall j r, (r0 :: ranges) !! j = Some r -> contains r a = true <-> j = i) \/
    (contains R a = false /\ forall j r, (r0 :: ranges) !! j = Some r -> contains r a = false)
  else forall j r, (r0 :: ranges) !! (j + 256)%nat = Some r -> (r0 :: ranges) !! j = Some r.
Proof.
  intros Hw Hm. destruct (Z.leb_spec (intlvBits r0) 8); [by apply merge_partition|]. intros j r. by eapply merge_repeats.
Qed.

(** 512 ranges of nine interleaving bits, with match values that wrap. *)
Definition wrapped : list t := (fun j => mk 0 0xfffff 14 0 9 (Z.of_nat j mod 256)) <$> seq 0 512.

(** Finding: they are merged, although address 0 is in two of them and address
    0x4000 in none. *)
Theorem merge_accepts_wrapped : merge wrapped = Done (plain 0 0xfffff) /\
  length (filter (fun r => contains r 0 = true) wrapped) = 2%nat /\ filter (fun r => contains r 0x4000 = true) wrapped = [].
Proof. repeat split; vm_compute; reflexivity. Qed.

(** The merged range has the addresses of all of them. *)
Lemma merge_contains r0 ranges R a : wf r0 -> merge (r0 :: ranges) = Done R ->
  contains R a = true <-> exists r, r ∈ r0 :: ranges /\ contains r a = true.
Proof.
  intros Hw Hm. destruct (merge_partition r0 ranges R a Hw Hm) as [[Hc [i [Hl Hi]]]|[Hc Hn]]; rewrite Hc.
  - split; [intros _|done]. destruct (lookup_lt_is_Some_2 _ _ Hl) as [r Hr]. exists r. split; [by eapply list_elem_of_lookup_2|by apply (Hi i)].
  - split; [done|]. intros (r & [j Hj]%list_elem_of_lookup & Hr). rewrite (Hn j r Hj) in Hr. done.
Qed.

(** Two channels on address bit 6. *)
Definition channel (m : Z) : t := mk 0 0xffff 6 0 1 m.

Lemma addrrange_merge_partition_witness :
  contains (plain 0 0xffff) 0x40 = true /\ contains (channel 1) 0x40 = true /\ contains (channel 0) 0x40 = false.
Proof.
  destruct (addrrange_merge_partition (channel 0) [channel 1] (plain 0 0xffff) 0x40) as [[H1 [i [_ Hi]]]|[H1 _]].
  - unfold sliced. cbn. lia.
  - vm_compute. reflexivity.
  - split; [exact H1|]. pose proof (Hi 1%nat (channel 1) eq_refl) as H2. pose proof (Hi 0%nat (channel 0) eq_refl) as H3.
    assert (i = 1%nat) as -> by (symmetry; apply H2; vm_compute; reflexivity). split; [by apply H2|].
    destruct (contains (channel 0) 0x40); [|reflexivity]. discriminate (proj1 H3 eq_refl).
  - discriminate H1.
Defined.

(** ** Overlap and inclusion of contiguous ranges *)

Lemma intersects_plain s e s' e' : s <= e -> s' <= e' ->
  intersects (plain s e) (plain s' e') = Done true <->
  exists a, contains (plain s e) a = true /\ contains (plain s' e') a = true.
Proof.
  intros H H'. unfold intersects, contains, plain, interleaved, nonzero. cbn. split.
  - intros [= E]. apply andb_true_iff in E as [E1%Z.leb_le E2%Z.leb_le]. exists (Z.max s s').
    rewrite !andb_true_iff, !Z.leb_le. lia.
  - intros (a & [E1%Z.leb_le E2%Z.leb_le]%andb_true_iff & [E3%Z.leb_le E4%Z.leb_le]%andb_true_iff).
    f_equal. rewrite andb_true_iff, !Z.leb_le. lia.
Qed.

Lemma isSubset_plain s e s' e' : s <= e -> isSubset (plain s e) (plain s' e') = Done true <->
  forall a, contains (plain s e) a = true -> contains (plain s' e') a = true.
Proof.
  intros H. unfold isSubset, contains, plain, interleaved, nonzero. cbn. split.
  - intros [= E] a. rewrite !andb_true_iff, !Z.leb_le in *. lia.
  - intros Ha. f_equal. pose proof (Ha s) as H1. pose proof (Ha e) as H2.
    rewrite !andb_true_iff, !Z.leb_le in *. lia.
Qed.

(** Finding: the comment of [isSubset] promises that every address of this range
    is in the other one; the interleaving of the other range is not looked at. *)
Lemma isSubset_ignores_interleaving :
  isSubset (plain 0 0xff) (channel 1) = Done true /\
  contains (plain 0 0xff) 0 = true /\ contains (channel 1) 0 = false.
Proof. vm_compute. done. Qed.

(** Finding: [operator==] does not compare the hash bits; equal ranges can hold
    different addresses. *)
Lemma eq_ignores_hash : eq (mk 0 0xffff 6 12 1 0) (mk 0 0xffff 6 0 1 0) = true /\
  contains (mk 0 0xffff 6 12 1 0) 0x1000 = false /\ contains (mk 0 0xffff 6 0 1 0) 0x1000 = true.
Proof. vm_compute. done. Qed.

End AddrRange.
