(* ===== verification/AddrRangeMap.v ===== *)
(** * Maps from address ranges: gem5/src/base/addr_range_map.hh

    The tree is a list of entries in the order of the keys, and an iterator a
    position in it; the length is the end.  [findPoint_exact] says what a search
    for one address finds, [insert_compatible] what an insertion does. *)

From Stdlib Require Import ZArith Lia.
From Stdlib Require Import Sorted.
From stdpp Require Import base numbers list sorting.
From S2P Require Import Prelude Bits AddrRange.

#[local] Open Scope Z_scope.
#[local] Open Scope outcome_scope.

Module AddrRangeMap.
Import AddrRange.

Section tree.
Context {V : Type}.
#[local] Abbreviation entry := (AddrRange.t * V)%type.

(** [std::map::upper_bound]: the first key above [r]. *)
Fixpoint upper_bound (r : AddrRange.t) (m : list entry) : nat :=
  match m with
  | [] => O
  | x :: m => if lt r x.1 then O else S (upper_bound r m)
  end.

(** The loop that steps back through the ranges of one chunk, and the test after it. *)
Fixpoint stepBack (r orig_range : AddrRange.t) (m : list entry) (i : nat) : outcome (option nat) :=
  match m !! i with
  | None => Exited
  | Some x =>
      let last := let! b := intersects x.1 r in Done (if b then Some i else None) in
      match i with
      | O => last
      | S j =>
          if mergesWith x.1 orig_range then
            match m !! j with
            | None => Exited
            | Some y => let! b := intersects y.1 r in if b then Done (Some j) else stepBack r orig_range m j
            end
          else last
      end
  end.

Definition find (r : AddrRange.t) (m : list entry) : outcome (option nat) :=
  match upper_bound r m with
  | O =>
      match m with
      | [] => Done None
      | x :: _ => let! b := intersects x.1 r in Done (if b then Some O else None)
      end
  | S i =>
      match m !! i with
      | None => Exited
      | Some x =>
          let! b := intersects x.1 r in
          if b then Done (Some i)
          else if interleaved x.1 then stepBack r x.1 m i
          else Done None
      end
  end.

Definition findPoint (a : Z) (m : list entry) : outcome (option nat) := find (RangeSize a 1) m.

Definition intersect (r : AddrRange.t) (m : list entry) : outcome bool := let! o := find r m in Done (match o with Some _ => true | None => false end).

(** [std::map::insert]: a key that is there already stays as it is. *)
Fixpoint treeInsert (r : AddrRange.t) (d : V) (m : list entry) : nat * list entry :=
  match m with
  | [] => (O, [(r, d)])
  | x :: m' =>
      if lt x.1 r then let '(i, m'') := treeInsert r d m' in (S i, x :: m'')
      else if lt r x.1 then (O, (r, d) :: x :: m') else (O, x :: m')
  end.

(** The position of the new entry, or the end. *)
Definition insert (r : AddrRange.t) (d : V) (m : list entry) : outcome (option nat * list entry) :=
  let! b := intersect r m in
  if b then Done (None, m) else let '(i, m') := treeInsert r d m in Done (Some i, m').

(** ** Order *)

Lemma lt_spec x y : lt x y = true <-> start x < start y \/ start x = start y /\ intlvMatch x < intlvMatch y.
Proof. unfold lt. destruct (Z.eqb_spec (start x) (start y)); cbn [negb]; rewrite Z.ltb_lt; lia. Qed.

Lemma lt_false x y : lt x y = false <-> start y < start x \/ start x = start y /\ intlvMatch y <= intlvMatch x.
Proof. unfold lt. destruct (Z.eqb_spec (start x) (start y)); cbn [negb]; rewrite Z.ltb_ge; lia. Qed.

(** ** Well-formed maps *)

(** A range of 64-bit addresses; a part of an interleaving has more than one. *)
Record okRange (r : AddrRange.t) : Prop := {
  ok_start : 0 <= start r;
  ok_valid : start r <= end_ r;
  ok_end : end_ r < 2 ^ 64;
  ok_match : 0 <= intlvMatch r;
  ok_size : interleaved r = true -> size r <> 1 }.

(** The address is the first of a range, which does not come first at its start. *)
Definition hidden (a : Z) (r : AddrRange.t) : Prop := a = start r /\ intlvMatch r <> 0.

Definition apart (x y : AddrRange.t) : Prop := end_ x < start y \/ end_ y < start x.

(** Two ranges of a map are apart or different parts of one interleaving. *)
Definition compatible (x y : AddrRange.t) : Prop :=
  apart x y \/ mergesWith x y = true /\ interleaved x = true /\ intlvMatch x <> intlvMatch y.

Lemma mergesWith_sym x y : mergesWith x y = true -> mergesWith y x = true.
Proof. unfold mergesWith. rewrite !andb_true_iff, !Z.eqb_eq. intuition congruence. Qed.
Lemma mergesWith_trans x y z : mergesWith x y = true -> mergesWith y z = true -> mergesWith x z = true.
Proof. unfold mergesWith. rewrite !andb_true_iff, !Z.eqb_eq. intuition congruence. Qed.
Lemma mergesWith_interleaved x y : mergesWith x y = true -> interleaved y = interleaved x.
Proof. unfold mergesWith, interleaved. rewrite !andb_true_iff, !Z.eqb_eq. intros [_ ->]. done. Qed.
Lemma mergesWith_start x y : mergesWith x y = true -> start y = start x.
Proof. unfold mergesWith. rewrite !andb_true_iff, !Z.eqb_eq. tauto. Qed.

Lemma compatible_sym x y : compatible x y -> compatible y x.
Proof.
  intros [H|(Hm&Hi&Hn)]; [left; unfold apart in *; lia|right]. split; [by apply mergesWith_sym|]. split; [by rewrite (mergesWith_interleaved x)|done].
Qed.

Definition before (x y : entry) : Prop := lt x.1 y.1 = true.

Record wfMap (m : list entry) : Prop := {
  wm_sorted : StronglySorted before m;
  wm_ok : forall x, x ∈ m -> okRange x.1;
  wm_compatible : forall x y, x ∈ m -> y ∈ m -> x = y \/ compatible x.1 y.1 }.

Lemma sorted_lookup m i j x y : StronglySorted before m -> (i < j)%nat -> m !! i = Some x -> m !! j = Some y -> before x y.
Proof.
  intros Hs. revert i j. induction Hs as [|z m Hs IH Hz]; intros i j Hij Hi Hj; [done|]. destruct j as [|j]; [lia|]. destruct i as [|i].
  - injection Hi as <-. by eapply Forall_lookup_1 in Hz.
  - eapply (IH i j); [lia|done|done].
Qed.

Lemma upper_bound_below r m i x : m !! i = Some x -> (i < upper_bound r m)%nat -> lt r x.1 = false.
Proof.
  revert i. induction m as [|y m IH]; intros i Hi Hlt; [done|]. cbn [upper_bound] in Hlt. destruct (lt r y.1) eqn:E; [lia|].
  destruct i as [|i]; [by injection Hi as <-|]. eapply IH; [done|lia].
Qed.

Lemma upper_bound_at r m x : m !! upper_bound r m = Some x -> lt r x.1 = true.
Proof. induction m as [|y m IH]; [done|]. cbn [upper_bound]. destruct (lt r y.1) eqn:E; [by intros [= <-]|done]. Qed.

Lemma upper_bound_above r m i x : StronglySorted before m -> m !! i = Some x -> (upper_bound r m <= i)%nat -> lt r x.1 = true.
Proof.
  intros Hs Hi Hle. assert (Hu : (upper_bound r m < length m)%nat) by (apply lookup_lt_Some in Hi; lia). apply lookup_lt_is_Some in Hu as [y Hy].
  pose proof (upper_bound_at _ _ _ Hy) as Hr. destruct (decide (upper_bound r m = i)) as [E|Hne]; [congruence|].
  assert (Hb : before y x) by (eapply (sorted_lookup m); [done| |done|done]; lia). unfold before in Hb. rewrite lt_spec in *. lia.
Qed.

(** ** One address *)

Lemma contains_start r a : contains r a = true -> start r <= a <= end_ r.
Proof.
  unfold contains. destruct (interleaved r); cbn [negb]; [destruct ((start r <=? a) && (a <=? end_ r)) eqn:E; [|done]; intros _|intros E];
    apply andb_true_iff in E; rewrite !Z.leb_le in E; lia.
Qed.

Lemma contains_match r a : contains r a = true -> interleaved r = true -> select r a = intlvMatch r.
Proof. unfold contains. intros Hc Hi. rewrite Hi in Hc. cbn [negb] in Hc. destruct (_ && _); [by apply Z.eqb_eq|done]. Qed.

Lemma intersects_point x a : 0 <= a < 2 ^ 64 -> intersects x (RangeSize a 1) = Done (contains x a).
Proof.
  intros Ha. unfold intersects, RangeSize. replace (a + 1 - 1) with a by lia. unfold wrap. rewrite (Z.mod_small a) by done. cbn [start end_ plain].
  unfold size. cbn [start end_ intlvBits plain]. replace (a - a + 1) with 1 by lia. change (Z.shiftr (wrap 64 1) 0 =? 1) with true. cbv iota.
  unfold contains. destruct (interleaved x); cbn [negb]; done.
Qed.

Lemma lt_point a x : 0 <= a < 2 ^ 64 -> lt (RangeSize a 1) x = true <-> a < start x \/ a = start x /\ 0 < intlvMatch x.
Proof. intros Ha. rewrite lt_spec. done. Qed.

(** The loop starts at an entry that does not have the address. *)
Lemma stepBack_point a orig m i x : 0 <= a < 2 ^ 64 -> m !! i = Some x -> contains x.1 a = false ->
  exists o, stepBack (RangeSize a 1) orig m i = Done o /\
    match o with
    | Some j => exists y, m !! j = Some y /\ contains y.1 a = true
    | None => forall j y, (j <= i)%nat -> m !! j = Some y -> contains y.1 a = true -> exists k z, (j < k <= i)%nat /\ m !! k = Some z /\ mergesWith z.1 orig = false
    end.
Proof.
  intros Ha. revert x. induction i as [|i IH]; intros x Hx Hn; cbn [stepBack]; rewrite Hx; cbn iota; rewrite intersects_point, Hn by done; cbn [obind].
  - eexists. split; [done|]. intros j y Hj Hy Hc. assert (j = 0%nat) as -> by lia. congruence.
  - destruct (mergesWith x.1 orig) eqn:Em.
    + assert (Hi : (i < length m)%nat) by (apply lookup_lt_Some in Hx; lia). destruct (lookup_lt_is_Some_2 m i Hi) as [y Hy].
      rewrite Hy, intersects_point by done. cbn [obind]. destruct (contains y.1 a) eqn:E; [eexists; split; [done|by exists y]|].
      destruct (IH y Hy E) as (o&Eo&Ho). exists o. split; [done|]. destruct o as [j|]; [done|]. intros j z Hj Hz Hc.
      destruct (decide (j = S i)) as [->|Hne]; [congruence|]. destruct (Ho j z ltac:(lia) Hz Hc) as (k&w&Hk&Hw). exists k, w. split; [lia|done].
    + eexists. split; [done|]. intros j z Hj Hz Hc. exists (S i), x. split; [|done]. destruct (decide (j = S i)) as [->|Hne]; [congruence|lia].
Qed.

Section wf.
Context (m : list entry) (Hm : wfMap m).

Lemma wf_lookup i x : m !! i = Some x -> okRange x.1.
Proof. intros Hx. by eapply (wm_ok _ Hm), list_elem_of_lookup_2. Qed.

(** Two entries that meet are parts of one interleaving. *)
Lemma wf_meet i j x y : (i < j)%nat -> m !! i = Some x -> m !! j = Some y -> start y.1 <= end_ x.1 -> start x.1 <= end_ y.1 -> mergesWith x.1 y.1 = true /\ interleaved x.1 = true.
Proof.
  intros Hij Hx Hy H1' H2'. destruct (wm_compatible _ Hm x y) as [->|[Hap|(Hme&Hi&_)]]; [by eapply list_elem_of_lookup_2..| | |done].
  - pose proof (sorted_lookup m i j y y (wm_sorted _ Hm) Hij Hx Hy) as Hb. unfold before in Hb. rewrite lt_spec in Hb. lia.
  - unfold apart in Hap. lia.
Qed.

Lemma wf_start i j x y : (i <= j)%nat -> m !! i = Some x -> m !! j = Some y -> start x.1 <= start y.1.
Proof.
  intros Hij Hx Hy. destruct (decide (i = j)) as [->|Hne]; [replace y with x by congruence; lia|].
  pose proof (sorted_lookup m i j x y (wm_sorted _ Hm) ltac:(lia) Hx Hy) as Hb. unfold before in Hb. rewrite lt_spec in Hb. lia.
Qed.

(** The entry of an address is before the upper bound, unless it hides it. *)
Lemma contains_below a i x : 0 <= a < 2 ^ 64 -> m !! i = Some x -> contains x.1 a = true -> ~ hidden a x.1 -> (i < upper_bound (RangeSize a 1) m)%nat.
Proof.
  intros Ha Hx Hc Hh. destruct (decide (i < upper_bound (RangeSize a 1) m)%nat) as [|Hge]; [done|]. exfalso. apply Hh.
  pose proof (upper_bound_above (RangeSize a 1) m i x (wm_sorted _ Hm) Hx ltac:(lia)) as Hlt. apply lt_point in Hlt; [|done]. pose proof (contains_start _ _ Hc). unfold hidden. lia.
Qed.

(** The search finds the entry of the address when there is one that does not
    hide it; what it finds is right. *)
Lemma findPoint_exact a : 0 <= a < 2 ^ 64 -> exists o, findPoint a m = Done o /\
  match o with
  | Some i => exists x, m !! i = Some x /\ contains x.1 a = true
  | None => forall x, x ∈ m -> contains x.1 a = true -> hidden a x.1
  end.
Proof.
  intros Ha. unfold findPoint, find. pose proof (contains_below a) as Hbel.
  assert (Hdec : forall r, {hidden a r} + {~ hidden a r}) by (intros r; unfold hidden; apply and_dec; apply _).
  destruct (upper_bound (RangeSize a 1) m) as [|i] eqn:Eu.
  - assert (Hno : forall x, x ∈ m -> contains x.1 a = true -> hidden a x.1).
    { intros x [k Hk]%list_elem_of_lookup E. destruct (Hdec x.1) as [|Hh]; [done|]. pose proof (Hbel k x Ha Hk E Hh). lia. }
    destruct m as [|x m'] eqn:Em; [by eexists|]. rewrite intersects_point by done. cbn [obind]. destruct (contains x.1 a) eqn:E; eexists; (split; [done|]); [by exists x|done].
  - assert (Hi : (i < length m)%nat).
    { enough (upper_bound (RangeSize a 1) m <= length m)%nat by lia. clear. induction m as [|y l IH]; cbn [upper_bound length]; [lia|]. destruct (lt _ _); lia. }
    destruct (lookup_lt_is_Some_2 m i Hi) as [x Hx]. rewrite Hx, intersects_point by done. cbn [obind]. destruct (contains x.1 a) eqn:Ec; [eexists; split; [done|by exists x]|].
    assert (Hxa : start x.1 <= a). { pose proof (upper_bound_below (RangeSize a 1) m i x Hx ltac:(lia)) as Hl. apply lt_false in Hl. cbn [start RangeSize plain] in Hl. lia. }
    assert (Hmeet : forall j y, m !! j = Some y -> contains y.1 a = true -> ~ hidden a y.1 -> (j < i)%nat /\ forall k z, (j < k <= i)%nat -> m !! k = Some z -> mergesWith y.1 z.1 = true /\ interleaved y.1 = true).
    { intros j y Hy Hc Hh. pose proof (Hbel j y Ha Hy Hc Hh). assert (j <> i) by congruence. split; [lia|]. intros k z Hk Hz. pose proof (contains_start _ _ Hc).
      pose proof (wf_start k i z x ltac:(lia) Hz Hx). pose proof (wf_start j k y z ltac:(lia) Hy Hz). pose proof (ok_valid _ (wf_lookup _ _ Hz)).
      apply (wf_meet j k y z); [lia|done|done|lia|lia]. }
    destruct (interleaved x.1) eqn:Ei.
    + destruct (stepBack_point a x.1 m i x Ha Hx Ec) as (o&Eo&Ho). exists o. split; [done|]. destruct o as [j|]; [done|]. intros y [j Hy]%list_elem_of_lookup Ey.
      destruct (Hdec y.1) as [|Hh]; [done|exfalso]. destruct (Hmeet j y Hy Ey Hh) as [Hj Hme]. destruct (Ho j y ltac:(lia) Hy Ey) as (k&z&Hk&Hz&Hnm).
      rewrite (mergesWith_trans z.1 y.1 x.1) in Hnm; [done|apply mergesWith_sym; by eapply Hme|]. apply (Hme i x); [lia|done].
    + eexists. split; [done|]. intros y [j Hy]%list_elem_of_lookup Ey. destruct (Hdec y.1) as [|Hh]; [done|exfalso]. destruct (Hmeet j y Hy Ey Hh) as [Hj Hme].
      destruct (Hme i x ltac:(lia) Hx) as [Hm1 Hm2]. rewrite (mergesWith_interleaved y.1 x.1 Hm1) in Ei. congruence.
Qed.

End wf.

(** ** Insertion *)

(** Two interleavings can only be compared when they are the same. *)
Lemma intersects_compatible x r : okRange x -> okRange r -> compatible x r ->
  intersects x r = if interleaved x && interleaved r && negb (mergesWith x r) then Exited else Done false.
Proof.
  intros Hx Hr Hc. unfold intersects. assert (Hov : apart x r -> (start x <=? end_ r) && (start r <=? end_ x) = false).
  { intros Ha. apply andb_false_iff. rewrite !Z.leb_gt. unfold apart in Ha. lia. }
  destruct (interleaved x) eqn:Ex; cbn [negb andb]; [|destruct Hc as [Ha|(_&Hi&_)]; [by rewrite Hov|congruence]].
  destruct (interleaved r) eqn:Er; cbn [negb andb].
  - rewrite (proj2 (Z.eqb_neq _ _) (ok_size _ Hr Er)). destruct (mergesWith x r) eqn:Em; cbn [negb]; [|done].
    destruct Hc as [Ha|(_&_&Hn)]; [|by rewrite (proj2 (Z.eqb_neq _ _) Hn)]. pose proof (ok_valid _ Hr). pose proof (ok_valid _ Hx).
    unfold apart in Ha. unfold mergesWith in Em. rewrite !andb_true_iff, !Z.eqb_eq in Em. lia.
  - assert (Ha : apart x r) by (destruct Hc as [Ha|(Hm&Hi&_)]; [done|]; apply mergesWith_interleaved in Hm; congruence).
    rewrite Hov by done. destruct (size r =? 1); [|done]. destruct (contains x (start r)) eqn:E; [|done].
    apply contains_start in E. pose proof (ok_valid _ Hr). unfold apart in Ha. lia.
Qed.

(** No entry is found to meet the range. *)
Definition quiet (r : AddrRange.t) (m : list entry) : Prop := forall x, x ∈ m -> intersects x.1 r = Done false \/ intersects x.1 r = Exited.

Lemma stepBack_miss r orig m i o : quiet r m -> stepBack r orig m i = Done o -> o = None.
Proof.
  intros Hm. induction i as [|i IH]; cbn [stepBack]; (destruct (m !! _) as [x|] eqn:Hx; [|done]); apply list_elem_of_lookup_2 in Hx;
    (destruct (Hm x Hx) as [->| ->]; cbn [obind]; [try by intros [= <-]|try done]);
    (destruct (mergesWith x.1 orig); [|by try intros [= <-]]); (destruct (m !! i) as [y|] eqn:Hy; [|done]);
    apply list_elem_of_lookup_2 in Hy; destruct (Hm y Hy) as [->| ->]; cbn [obind]; [apply IH|done|apply IH|done].
Qed.

Lemma find_miss r m o : quiet r m -> find r m = Done o -> o = None.
Proof.
  intros Hm. unfold find. destruct (upper_bound r m) as [|i].
  - destruct m as [|x m]; [by intros [= <-]|]. destruct (Hm x) as [->| ->]; [left|by intros [= <-]|done].
  - destruct (m !! i) as [x|] eqn:Hx; [|done]. apply list_elem_of_lookup_2 in Hx. destruct (Hm x Hx) as [->| ->]; cbn [obind]; [|done].
    destruct (interleaved x.1); [by apply stepBack_miss|by intros [= <-]].
Qed.

Lemma lt_total x y : okRange x -> okRange y -> compatible x y -> lt x y = false -> lt y x = true.
Proof.
  intros Hx Hy Hc. rewrite lt_false, lt_spec. pose proof (ok_valid _ Hx). pose proof (ok_valid _ Hy). destruct Hc as [Ha|(Hm&_&Hn)]; [unfold apart in Ha; lia|].
  apply mergesWith_start in Hm. lia.
Qed.

Lemma treeInsert_ok r d m : okRange r -> (forall x, x ∈ m -> okRange x.1 /\ compatible x.1 r) -> StronglySorted before m ->
  let '(i, m') := treeInsert r d m in m' !! i = Some (r, d) /\ m' ≡ₚ (r, d) :: m /\ StronglySorted before m'.
Proof.
  intros Hr Hc Hs. induction Hs as [|x m Hs IH Hx]; cbn [treeInsert]; [by repeat constructor|]. destruct (lt x.1 r) eqn:E.
  - specialize (IH ltac:(intros y Hy; apply Hc; by right)). destruct (treeInsert r d m) as [i m']. destruct IH as (E1&E2&E3). split; [done|].
    split; [rewrite E2; apply Permutation_swap|]. constructor; [done|]. rewrite E2. constructor; [done|done].
  - destruct (Hc x) as [Ho Hco]; [left|]. assert (Hl : lt r x.1 = true) by (apply (lt_total x.1 r); done). rewrite Hl. split; [done|]. split; [done|].
    constructor; [by constructor|]. constructor; [done|]. eapply Forall_impl; [exact Hx|]. intros y Hy. unfold before in *. cbn [fst]. rewrite lt_spec in *. lia.
Qed.

(** A range that is apart from the others is added by an insertion that returns,
    and they stay. *)
Lemma insert_compatible r d m o m' : wfMap m -> okRange r -> (forall x, x ∈ m -> compatible x.1 r) -> insert r d m = Done (o, m') ->
  exists i, o = Some i /\ m' !! i = Some (r, d) /\ m' ≡ₚ (r, d) :: m /\ wfMap m'.
Proof.
  intros Hm Hr Hc. unfold insert, intersect. intros (b&(o'&Eo&[= <-])%obind_Done&E)%obind_Done.
  assert (o' = None) as ->.
  { eapply find_miss; [|exact Eo]. intros x Hx. rewrite intersects_compatible by (by apply Hm || by apply Hc || done). destruct (_ && _); auto. }
  pose proof (treeInsert_ok r d m Hr) as Hi. destruct (treeInsert r d m) as [i m'']. injection E as <- <-. destruct Hi as (E1&E2&E3); [|apply Hm|].
  { intros x Hx. split; [by apply Hm|by apply Hc]. }
  exists i. split; [done|]. do 2 (split; [done|]). split; [done|..].
  - intros x. rewrite E2. intros [->|Hx]%elem_of_cons; [done|by apply Hm].
  - intros x y. rewrite E2. intros [->|Hx]%elem_of_cons [->|Hy]%elem_of_cons; [by left|right; apply compatible_sym; by apply Hc|right; by apply Hc|by apply Hm].
Qed.

End tree.

(** Finding: only the range before the new one is looked at, so a range that
    reaches into the next one is taken, and the addresses of the overlap lead to
    the wrong entry or to none. *)
Theorem overlap_accepted : exists m, insert (plain 40 100) 2 [(plain 0 9, 0); (plain 50 59, 1)] = Done (Some 1%nat, m) /\
  findPoint 55 m = Done (Some 2%nat) /\ findPoint 70 m = Done None /\ contains (plain 40 100) 70 = true.
Proof. eexists. repeat split; vm_compute; reflexivity. Qed.

(** Finding: the first address of an interleaving whose slice is not zero there
    is found only when its range happens to be the first of the map. *)
Theorem start_not_found : let high m := mk 0x80000000 0xffffffff 6 31 1 m in
  contains (high 1) 0x80000000 = true /\ findPoint 0x80000000 [(high 0, 0); (high 1, 1)] = Done None.
Proof. split; vm_compute; reflexivity. Qed.

(** Finding: a second interleaving, apart from the first, stops the simulation. *)
Theorem two_interleavings : insert (mk 0x10000 0x1ffff 6 0 1 0) 2 [(channel 0, 0); (channel 1, 1)] = Exited.
Proof. vm_compute. reflexivity. Qed.

End AddrRangeMap.
