(* ===== verification/XBar.v ===== *)
(** * The crossbar's address map: gem5/src/mem/xbar.cc and xbar.hh

    A crossbar learns the ranges of the ports below it, sends a packet to the
    port of its address through a small cache of recent ports, and tells the
    ports above which ranges it answers for. *)

From Stdlib Require Import ZArith Lia.
From stdpp Require Import base numbers list sorting sets.
From S2P Require Import Prelude Bits AddrRange AddrRangeMap.

#[local] Open Scope Z_scope.
#[local] Open Scope outcome_scope.

Module XBar.
Import AddrRange AddrRangeMap.

(** ** State *)

Record PortCache := mkPortCache { valid : bool; id : Z; range : AddrRange.t }.

Definition InvalidPortID : Z := -1.

Record t := mk {
  portMap : list (AddrRange.t * Z);
  gotAddrRanges : list bool;
  gotAllAddrRanges : bool;
  defaultPortID : Z;
  useDefaultRange : bool;
  defaultRange : AddrRange.t;
  xbarRanges : list AddrRange.t;
  portCache : PortCache * PortCache * PortCache
}.

Definition noPort : PortCache := mkPortCache false InvalidPortID AddrRange.empty.

(** [n] ports below, the default one, when there is one, the last. *)
Definition new (n : nat) (hasDefault useDefault : bool) : t :=
  mk [] (replicate (n + (if hasDefault then 1 else 0)) false) false (if hasDefault then Z.of_nat n else InvalidPortID) useDefault
    AddrRange.empty [] (noPort, noPort, noPort).

Definition withMap (m : list (AddrRange.t * Z)) (s : t) : t :=
  mk m (gotAddrRanges s) (gotAllAddrRanges s) (defaultPortID s) (useDefaultRange s) (defaultRange s) (xbarRanges s) (portCache s).
Definition withGot (g : list bool) (all : bool) (s : t) : t :=
  mk (portMap s) g all (defaultPortID s) (useDefaultRange s) (defaultRange s) (xbarRanges s) (portCache s).
Definition withDefault (r : AddrRange.t) (s : t) : t :=
  mk (portMap s) (gotAddrRanges s) (gotAllAddrRanges s) (defaultPortID s) (useDefaultRange s) r (xbarRanges s) (portCache s).
Definition withRanges (l : list AddrRange.t) (s : t) : t :=
  mk (portMap s) (gotAddrRanges s) (gotAllAddrRanges s) (defaultPortID s) (useDefaultRange s) (defaultRange s) l (portCache s).
Definition withCache (c : PortCache * PortCache * PortCache) (s : t) : t :=
  mk (portMap s) (gotAddrRanges s) (gotAllAddrRanges s) (defaultPortID s) (useDefaultRange s) (defaultRange s) (xbarRanges s) c.

(** ** The cache of ports *)

Definition cached (c : PortCache) (a : Z) : bool := valid c && contains (range c) a.

Definition checkPortCache (a : Z) (s : t) : Z :=
  let '(c0, c1, c2) := portCache s in
  if cached c0 a then id c0 else if cached c1 a then id c1 else if cached c2 a then id c2 else InvalidPortID.

Definition updatePortCache (i : Z) (r : AddrRange.t) (s : t) : t :=
  let '(c0, c1, _) := portCache s in withCache (mkPortCache true i r, c0, c1) s.

Definition invalid (c : PortCache) : PortCache := mkPortCache false (id c) (range c).
Definition clearPortCache (s : t) : t := let '(c0, c1, c2) := portCache s in withCache (invalid c0, invalid c1, invalid c2) s.

(** ** Finding the port of an address *)

Definition findPort (a : Z) (s : t) : outcome (Z * t) :=
  if negb (gotAllAddrRanges s) then Exited
  else
    let dest_id := checkPortCache a s in
    if negb (dest_id =? InvalidPortID) then Done (dest_id, s)
    else
      let! i := findPoint a (portMap s) in
      match i with
      | Some i =>
          match portMap s !! i with
          | Some x => Done (x.2, updatePortCache x.2 x.1 s)
          | None => Exited
          end
      | None =>
          if useDefaultRange s then if contains (defaultRange s) a then Done (defaultPortID s, s) else Exited
          else if negb (defaultPortID s =? InvalidPortID) then Done (defaultPortID s, s) else Exited
      end.

(** ** A port below has new ranges *)

Definition setGot (p : Z) (s : t) : outcome t :=
  if (0 <=? p) && (p <? Z.of_nat (length (gotAddrRanges s))) then
    let g := <[Z.to_nat p := true]> (gotAddrRanges s) in
    Done (withGot g (if gotAllAddrRanges s then true else forallb (fun b => b) g) s)
  else Exited.

Fixpoint addRanges (p : Z) (ranges : list AddrRange.t) (m : list (AddrRange.t * Z)) : outcome (list (AddrRange.t * Z)) :=
  match ranges with
  | [] => Done m
  | r :: ranges => let! (o, m) := insert r p m in match o with None => Exited | Some _ => addRanges p ranges m end
  end.

(** The range is announced unless it is inside the default range. *)
Definition announce (r : AddrRange.t) (s : t) (out : list AddrRange.t) : outcome (list AddrRange.t) :=
  if useDefaultRange s then let! b := isSubset r (defaultRange s) in Done (if b then out else out ++ [r])
  else Done (out ++ [r]).

Definition flush (intlv_ranges : list AddrRange.t) (s : t) (out : list AddrRange.t) : outcome (list AddrRange.t) :=
  match intlv_ranges with
  | [] => Done out
  | _ => let! merged_range := merge intlv_ranges in announce merged_range s out
  end.

(** The loop over the map; the ranges of one interleaving are collected first. *)
Fixpoint aggregate (s : t) (m : list (AddrRange.t * Z)) (intlv_ranges out : list AddrRange.t) : outcome (list AddrRange.t) :=
  match m with
  | [] => flush intlv_ranges s out
  | x :: m =>
      if interleaved x.1 then
        match last intlv_ranges with
        | Some r =>
            if mergesWith r x.1 then aggregate s m (intlv_ranges ++ [x.1]) out
            else let! out := flush intlv_ranges s out in aggregate s m [x.1] out
        | None => aggregate s m [x.1] out
        end
      else let! out := announce x.1 s out in aggregate s m intlv_ranges out
  end.

(** No range may overlap the default range in part. *)
Fixpoint checkDefault (d : AddrRange.t) (l : list AddrRange.t) : outcome unit :=
  match l with
  | [] => Done tt
  | r :: l =>
      let! b := intersects r d in
      if b then let! c := isSubset r d in if c then checkDefault d l else Exited
      else checkDefault d l
  end.

Definition aggregateRanges (s : t) : outcome t :=
  let! out :=
    (if useDefaultRange s then
       match gotAddrRanges s !! Z.to_nat (defaultPortID s) with
       | Some true => if 0 <=? defaultPortID s then Done [defaultRange s] else Exited
       | _ => Exited
       end
     else Done []) in
  let! out := aggregate s (portMap s) [] out in
  let! _ := (if useDefaultRange s then checkDefault (defaultRange s) out else Done tt) in
  Done (withRanges out s).

Definition fromPort (p : Z) (x : AddrRange.t * Z) : Prop := x.2 = p.
#[global] Instance fromPort_dec p x : Decision (fromPort p x).
Proof. unfold fromPort. apply _. Defined.

(** [ranges] is what the port answers; the result says whether the ports above
    are told. *)
Definition recvRangeChange (p : Z) (ranges : list AddrRange.t) (s : t) : outcome (bool * t) :=
  let! s := setGot p s in
  let! s :=
    (if p =? defaultPortID s then
       if useDefaultRange s then match ranges with [r] => Done (withDefault r s) | _ => Exited end
       else Done s
     else
       let! m := addRanges p ranges (filter (fun x => ~ fromPort p x) (portMap s)) in
       Done (withMap m s)) in
  let! s := (if gotAllAddrRanges s then aggregateRanges s else Done s) in
  Done (gotAllAddrRanges s, clearPortCache s).

Definition getAddrRanges (s : t) : outcome (list AddrRange.t) := if gotAllAddrRanges s then Done (xbarRanges s) else Exited.


(** ** What the ports below have announced *)

(** The last ranges of each port. *)
Definition setPort (ann : Z -> list AddrRange.t) (p : Z) (l : list AddrRange.t) : Z -> list AddrRange.t := fun q => if q =? p then l else ann q.

(** Ranges are proper, apart or parts of one interleaving. *)
Definition legalChange (s : t) (ann : Z -> list AddrRange.t) (p : Z) (ranges : list AddrRange.t) : Prop :=
  p <> defaultPortID s -> Forall okRange ranges /\ ForallOrdPairs compatible ranges /\
    forall q r r', q <> p -> q <> defaultPortID s -> r' ∈ ann q -> r ∈ ranges -> compatible r' r.

Inductive reachable : t -> (Z -> list AddrRange.t) -> Prop :=
| reach_new n hasDefault useDefault : reachable (new n hasDefault useDefault) (fun _ => [])
| reach_change s ann p ranges b s' : reachable s ann -> legalChange s ann p ranges -> recvRangeChange p ranges s = Done (b, s') -> reachable s' (setPort ann p ranges)
| reach_find s ann a p s' : reachable s ann -> 0 <= a < 2 ^ 64 -> findPort a s = Done (p, s') -> reachable s' ann.

Definition entries (s : t) : list PortCache := let '(c0, c1, c2) := portCache s in [c0; c1; c2].

Record decodes (s : t) (ann : Z -> list AddrRange.t) : Prop := {
  dc_wf : wfMap (portMap s);
  dc_map : forall r p, (r, p) ∈ portMap s <-> p <> defaultPortID s /\ r ∈ ann p;
  dc_ports : forall x, x ∈ portMap s -> 0 <= x.2;
  dc_cache : forall c, c ∈ entries s -> valid c = true -> (range c, id c) ∈ portMap s }.

(** ** The port of an address *)

Lemma checkPortCache_ok a s : (checkPortCache a s = InvalidPortID) \/ exists c, c ∈ entries s /\ valid c = true /\ contains (range c) a = true /\ checkPortCache a s = id c.
Proof.
  unfold checkPortCache, entries, cached. destruct (portCache s) as [[c0 c1] c2]. destruct (valid c0 && contains (range c0) a) eqn:E0.
  { right. exists c0. apply andb_true_iff in E0. split; [left|tauto]. }
  destruct (valid c1 && contains (range c1) a) eqn:E1; [right; exists c1; apply andb_true_iff in E1; split; [right; left|tauto]|].
  destruct (valid c2 && contains (range c2) a) eqn:E2; [right; exists c2; apply andb_true_iff in E2; split; [right; right; left|tauto]|by left].
Qed.

Lemma mergesWith_select x y a : mergesWith x y = true -> select x a = select y a.
Proof.
  unfold mergesWith, select, hashed, interleaved. rewrite !andb_true_iff, !Z.eqb_eq. intros ((((_&_)&->)&->)&->). done.
Qed.

(** Two entries of the map that have the same address are the same. *)
Lemma wf_unique (m : list (AddrRange.t * Z)) x y a : wfMap m -> x ∈ m -> y ∈ m -> contains x.1 a = true -> contains y.1 a = true -> x = y.
Proof.
  intros Hm Hx Hy Cx Cy. destruct (wm_compatible _ Hm x y Hx Hy) as [|[Ha|(Hme&Hi&Hn)]]; [done|exfalso..].
  - apply contains_start in Cx, Cy. unfold apart in Ha. lia.
  - pose proof (mergesWith_interleaved _ _ Hme) as Hi'. rewrite Hi in Hi'. apply contains_match in Cx, Cy; [|done..]. destruct Hn. rewrite <-Cx, <-Cy. by apply mergesWith_select.
Qed.

(** Where an address leads when no port announces it. *)
Definition fallback (a : Z) (s : t) : option Z :=
  if useDefaultRange s then if contains (defaultRange s) a then Some (defaultPortID s) else None
  else if negb (defaultPortID s =? InvalidPortID) then Some (defaultPortID s) else None.

Section find.
Context (s : t) (ann : Z -> list AddrRange.t) (Hs : decodes s ann).

Lemma findPort_ok a : 0 <= a < 2 ^ 64 -> gotAllAddrRanges s = true ->
  (exists x s', x ∈ portMap s /\ contains x.1 a = true /\ findPort a s = Done (x.2, s') /\ (s' = s \/ s' = updatePortCache x.2 x.1 s)) \/
  (forall x, x ∈ portMap s -> contains x.1 a = true -> hidden a x.1) /\ findPort a s = match fallback a s with Some p => Done (p, s) | None => Exited end.
Proof.
  intros Ha Hg. unfold findPort. rewrite Hg. cbn [negb]. destruct (checkPortCache_ok a s) as [E|(c&Hc&Hv&Ca&E)]; rewrite E.
  - change (InvalidPortID =? InvalidPortID) with true. cbn [negb]. destruct (findPoint_exact (portMap s) (dc_wf _ _ Hs) a Ha) as (o&Eo&Ho). rewrite Eo. cbn [obind].
    destruct o as [i|].
    + destruct Ho as (x&Hx&Cx). rewrite Hx. left. eexists x, _. split; [by eapply list_elem_of_lookup_2|]. split; [done|]. split; [done|by right].
    + right. split; [done|]. unfold fallback. destruct (useDefaultRange s); [by destruct (contains _ a)|by destruct (negb _)].
  - left. pose proof (dc_cache _ _ Hs c Hc Hv) as Hin. pose proof (dc_ports _ _ Hs _ Hin) as Hp. cbn [snd] in Hp.
    rewrite (proj2 (Z.eqb_neq (id c) InvalidPortID)) by (unfold InvalidPortID; lia). cbn [negb]. eexists _, s. split; [exact Hin|]. split; [done|]. split; [done|by left].
Qed.

Lemma updatePortCache_decodes x : x ∈ portMap s -> decodes (updatePortCache x.2 x.1 s) ann.
Proof.
  intros Hx. destruct Hs as [D1 D2 D3 D4]. unfold updatePortCache. unfold entries in D4. destruct (portCache s) as [[c0 c1] c2]. split; cbn [portMap withCache defaultPortID]; [done..|].
  unfold entries. cbn [portCache]. intros c [->|[->|[->|Hc%elem_of_nil]%elem_of_cons]%elem_of_cons]%elem_of_cons Hv; [|apply D4; [left|done]|apply D4; [right; left|done]|done].
  cbn [range id]. by destruct x.
Qed.

End find.

(** ** Range changes *)

Lemma addRanges_ok p ranges m m' : wfMap m -> Forall okRange ranges -> ForallOrdPairs compatible ranges -> (forall r x, r ∈ ranges -> x ∈ m -> compatible x.1 r) ->
  addRanges p ranges m = Done m' -> wfMap m' /\ m' ≡ₚ map (fun r => (r, p)) ranges ++ m.
Proof.
  intros Hm Hok Hp. revert m Hm. induction Hp as [|r ranges Hr Hp IH]; intros m Hm Hc; [by intros [= <-]|]. apply Forall_cons in Hok as [Hok Hoks]. cbn [addRanges].
  intros ([o m1]&E&E2)%obind_Done. destruct (insert_compatible r p m o m1 Hm Hok) as (i&->&_&Ep&Hm1); [intros x Hx; by apply Hc; [left|]|done|].
  destruct (IH Hoks m1 Hm1) as (Hm2&Ep2); [|done|].
  { intros r' x Hr'. rewrite Ep. intros [->|Hx]%elem_of_cons; [|by apply Hc; [right|]]. cbn [fst]. eapply Forall_forall in Hr; [exact Hr|done]. }
  split; [done|]. rewrite Ep2, Ep. cbn [map]. symmetry. apply Permutation_middle.
Qed.

Lemma wfMap_filter (Q : AddrRange.t * Z -> Prop) `{forall x, Decision (Q x)} m : wfMap m -> wfMap (filter Q m).
Proof.
  intros [W1 W2 W3]. split.
  - clear W2 W3. induction W1 as [|x m Hs IH Hx]; [constructor|]. rewrite filter_cons. destruct (decide (Q x)); [|done]. constructor; [done|].
    apply Forall_forall. intros y [_ Hy]%list_elem_of_filter. by eapply Forall_forall in Hx.
  - intros x [_ Hx]%list_elem_of_filter. by apply W2.
  - intros x y [_ Hx]%list_elem_of_filter [_ Hy]%list_elem_of_filter. by apply W3.
Qed.

(** The steps of a range change that leave the map alone. *)
Lemma setGot_keeps p s s' : setGot p s = Done s' -> 0 <= p /\ portMap s' = portMap s /\ defaultPortID s' = defaultPortID s /\ useDefaultRange s' = useDefaultRange s.
Proof. unfold setGot. destruct (Z.leb_spec 0 p); cbn [andb]; [|done]. destruct (p <? _); [|done]. by intros [= <-]. Qed.

Lemma aggregateRanges_keeps s s' : aggregateRanges s = Done s' -> exists out, s' = withRanges out s.
Proof. unfold aggregateRanges. intros (o1&_&(o2&_&(u&_&[= <-])%obind_Done)%obind_Done)%obind_Done. by exists o2. Qed.

Lemma clear_entries s c : c ∈ entries (clearPortCache s) -> valid c = false.
Proof.
  unfold entries, clearPortCache. destruct (portCache s) as [[c0 c1] c2]. cbn [portCache withCache].
  by intros [->|[->|[->|Hc%elem_of_nil]%elem_of_cons]%elem_of_cons]%elem_of_cons.
Qed.
Lemma clear_map s : portMap (clearPortCache s) = portMap s /\ defaultPortID (clearPortCache s) = defaultPortID s.
Proof. unfold clearPortCache. by destruct (portCache s) as [[? ?] ?]. Qed.

Lemma decodes_cleared s ann m : wfMap m -> portMap s = m -> (forall r p, (r, p) ∈ m <-> p <> defaultPortID s /\ r ∈ ann p) -> (forall x, x ∈ m -> 0 <= x.2) -> decodes (clearPortCache s) ann.
Proof.
  intros Hw Em Hm Hp. destruct (clear_map s) as [E1 E2]. split; rewrite ?E1, ?E2, ?Em; [done..|]. intros c Hc%clear_entries. congruence.
Qed.

Lemma recvRangeChange_decodes s ann p ranges b s' : decodes s ann -> legalChange s ann p ranges -> recvRangeChange p ranges s = Done (b, s') -> decodes s' (setPort ann p ranges).
Proof.
  intros [D1 D2 D3 _] Hl. unfold recvRangeChange. intros (s1&E1&(s2&E2&(s3&E3&[= _ <-])%obind_Done)%obind_Done)%obind_Done.
  destruct (setGot_keeps _ _ _ E1) as (Hp&Em&Ed&_). assert (E3' : portMap s3 = portMap s2 /\ defaultPortID s3 = defaultPortID s2).
  { destruct (gotAllAddrRanges s2); [apply aggregateRanges_keeps in E3 as [out ->]; done|by injection E3 as <-]. }
  destruct E3' as [Em3 Ed3]. rewrite Ed in E2. destruct (Z.eqb_spec p (defaultPortID s)) as [->|Hne].
  - assert (E2' : portMap s2 = portMap s /\ defaultPortID s2 = defaultPortID s). { destruct (useDefaultRange s1); [destruct ranges as [|r [|]]; [done| |done]|]; injection E2 as <-; done. }
    destruct E2' as [Em2 Ed2]. eapply decodes_cleared; [exact D1|congruence| |done]. intros r q. rewrite D2, Ed3, Ed2. unfold setPort. destruct (Z.eqb_spec q (defaultPortID s)); tauto.
  - apply obind_Done in E2 as (m&E2&[= <-]). destruct (Hl Hne) as (L1&L2&L3).
    assert (Hin : forall x, x ∈ filter (fun x => ~ fromPort p x) (portMap s1) <-> x ∈ portMap s /\ x.2 <> p) by (intros x; rewrite list_elem_of_filter, Em; unfold fromPort; tauto).
    destruct (addRanges_ok p ranges (filter (fun x => ~ fromPort p x) (portMap s1)) m) as (Hw&Hperm); [apply wfMap_filter; by rewrite Em|done|done| |done|].
    { intros r x Hr [Hx Hxp]%Hin. destruct x as [r' q]. apply D2 in Hx as [Hq Hx]. by eapply (L3 q). }
    cbn [portMap withMap defaultPortID] in Em3, Ed3.
    assert (Hmem : forall r q, (r, q) ∈ m <-> (q = p /\ r ∈ ranges) \/ (q <> p /\ (r, q) ∈ portMap s)).
    { intros r q. rewrite Hperm, elem_of_app, Hin, list_elem_of_fmap. cbn [snd]. split; [intros [(r'&[= -> ->]&Hr)|]; tauto|]. intros [[-> Hr]|]; [left; by exists r|tauto]. }
    eapply decodes_cleared; [exact Hw|done|..].
    + intros r q. rewrite Hmem, D2, Ed3, Ed. unfold setPort. destruct (Z.eqb_spec q p) as [->|]; tauto.
    + intros [r q] [[-> _]|[_ Hq]]%Hmem; [done|]. by apply (D3 (r, q)).
Qed.

Lemma reachable_decodes s ann : reachable s ann -> decodes s ann.
Proof.
  induction 1 as [n d u|s ann p ranges b s' Hr IH Hl E|s ann a p s' Hr IH Ha E].
  - split; cbn [portMap new].
    + split; [apply SSorted_nil|by intros x ?%elem_of_nil|by intros x y ?%elem_of_nil].
    + intros r p. split; [by intros ?%elem_of_nil|]. by intros [_ ?%elem_of_nil].
    + by intros x ?%elem_of_nil.
    + by intros c [->|[->|[->|Hc%elem_of_nil]%elem_of_cons]%elem_of_cons]%elem_of_cons.
  - by eapply recvRangeChange_decodes.
  - assert (Hg : gotAllAddrRanges s = true) by (unfold findPort in E; by destruct (gotAllAddrRanges s)). destruct (findPort_ok s ann IH a Ha Hg) as [(x&s2&Hx&_&E2&Hs2)|[_ E2]]; rewrite E in E2.
    + injection E2 as -> <-. destruct Hs2 as [->| ->]; [done|by apply updatePortCache_decodes].
    + destruct (fallback a s); [by injection E2 as _ ->|done].
Qed.

(** ** The ranges the crossbar announces *)

Definition covers (l : list AddrRange.t) (a : Z) : Prop := exists r, r ∈ l /\ contains r a = true.

Lemma covers_app l k a : covers (l ++ k) a <-> covers l a \/ covers k a.
Proof. unfold covers. setoid_rewrite elem_of_app. split; [intros (r&[Hr|Hr]&Hc); eauto|intros [(r&Hr&Hc)|(r&Hr&Hc)]; eauto]. Qed.
Lemma covers_one r a : covers [r] a <-> contains r a = true.
Proof. unfold covers. setoid_rewrite list_elem_of_singleton. split; [by intros (?&->&?)|by eexists]. Qed.
Lemma covers_nil a : covers [] a <-> False.
Proof. unfold covers. split; [by intros (?&?%elem_of_nil&_)|done]. Qed.

Lemma announce_grows s r out out' : announce r s out = Done out' -> out ⊆ out'.
Proof. unfold announce. destruct (useDefaultRange s); [intros (b&_&[= <-])%obind_Done; destruct b; set_solver|intros [= <-]; set_solver]. Qed.
Lemma flush_grows s l out out' : flush l s out = Done out' -> out ⊆ out'.
Proof. unfold flush. destruct l; [by intros [= <-]|]. intros (R&_&E)%obind_Done. by eapply announce_grows. Qed.
Lemma aggregate_grows s m intlv out out' : aggregate s m intlv out = Done out' -> out ⊆ out'.
Proof.
  revert intlv out. induction m as [|x m IH]; intros intlv out; cbn [aggregate]; [apply flush_grows|]. destruct (interleaved x.1).
  - destruct (last intlv) as [r|]; [|apply IH]. destruct (mergesWith r x.1); [apply IH|]. intros (o&Eo%flush_grows&E%IH)%obind_Done. set_solver.
  - intros (o&Eo%announce_grows&E%IH)%obind_Done. set_solver.
Qed.

Section aggregate.
Context (s : t) (Hd : useDefaultRange s = true -> interleaved (defaultRange s) = false).

Definition inDefault (a : Z) : Prop := useDefaultRange s = true /\ contains (defaultRange s) a = true.

Lemma announce_covers r out out' a : announce r s out = Done out' -> covers out' a \/ inDefault a <-> covers out a \/ contains r a = true \/ inDefault a.
Proof.
  unfold announce. destruct (useDefaultRange s) eqn:Eu; [intros (b&Eb&[= <-])%obind_Done|intros [= <-]; rewrite covers_app, covers_one; tauto].
  destruct b; [|rewrite covers_app, covers_one; tauto]. unfold isSubset in Eb. destruct (interleaved r) eqn:Er; [done|]. injection Eb as [E1%Z.leb_le E2%Z.leb_le]%andb_true_iff.
  enough (contains r a = true -> inDefault a) by tauto. unfold inDefault, contains. rewrite Er, (Hd eq_refl). cbn [negb]. rewrite !andb_true_iff, !Z.leb_le. split; [done|lia].
Qed.

Lemma flush_covers l out out' a : Forall wf l -> flush l s out = Done out' -> covers out' a \/ inDefault a <-> covers out a \/ covers l a \/ inDefault a.
Proof.
  intros Hl. unfold flush. destruct l as [|r l]; [intros [= <-]; rewrite covers_nil; tauto|]. intros (R&Em&Ea)%obind_Done. rewrite (announce_covers _ _ _ _ Ea).
  apply Forall_cons in Hl as [Hr _]. rewrite (merge_contains r l R a Hr Em). done.
Qed.

Lemma aggregate_covers m intlv out out' a : (forall x, x ∈ m -> interleaved x.1 = true -> wf x.1) -> Forall wf intlv -> aggregate s m intlv out = Done out' ->
  covers out' a \/ inDefault a <-> covers out a \/ covers intlv a \/ covers m.*1 a \/ inDefault a.
Proof.
  revert intlv out. induction m as [|x m IH]; intros intlv out Hm Hi; cbn [aggregate fmap list_fmap].
  { intros E. rewrite (flush_covers _ _ _ _ Hi E), covers_nil. tauto. }
  change (covers (x.1 :: m.*1) a) with (covers ([x.1] ++ m.*1) a). rewrite covers_app, covers_one.
  assert (Hm' : forall y, y ∈ m -> interleaved y.1 = true -> wf y.1) by (intros y Hy; apply Hm; by right). assert (Hx : interleaved x.1 = true -> wf x.1) by (apply Hm; left).
  destruct (interleaved x.1).
  - specialize (Hx eq_refl). destruct (last intlv) as [r|] eqn:El.
    + destruct (mergesWith r x.1).
      * intros E. rewrite (IH (intlv ++ [x.1]) out Hm' ltac:(apply Forall_app_2; [done|by constructor]) E), covers_app, covers_one. tauto.
      * intros (o&Eo&E)%obind_Done. rewrite (IH [x.1] o Hm' ltac:(by constructor) E), covers_one. pose proof (flush_covers _ _ _ a Hi Eo). tauto.
    + apply last_None in El as ->. intros E. rewrite (IH [x.1] out Hm' ltac:(by constructor) E), covers_one, covers_nil. tauto.
  - intros (o&Eo&E)%obind_Done. rewrite (IH _ _ Hm' Hi E). pose proof (announce_covers _ _ _ a Eo). tauto.
Qed.

Lemma aggregateRanges_covers s' a : (forall x, x ∈ portMap s -> interleaved x.1 = true -> wf x.1) -> aggregateRanges s = Done s' ->
  covers (xbarRanges s') a <-> inDefault a \/ covers (portMap s).*1 a.
Proof.
  intros Hm. unfold aggregateRanges. intros (o1&E1&(o2&E2&(u&_&[= <-])%obind_Done)%obind_Done)%obind_Done. cbn [xbarRanges withRanges].
  pose proof (aggregate_covers _ _ _ _ a Hm ltac:(constructor) E2) as Ha. rewrite covers_nil in Ha.
  destruct (useDefaultRange s) eqn:Eu; [|injection E1 as <-; rewrite covers_nil in Ha; assert (~ inDefault a) by (intros [? _]; congruence); tauto].
  assert (o1 = [defaultRange s]) as ->. { destruct (gotAddrRanges s !! _) as [[]|]; [|done..]. destruct (0 <=? _); [by injection E1 as <-|done]. }
  rewrite covers_one in Ha. apply aggregate_grows in E2. assert (Hg : contains (defaultRange s) a = true -> covers o2 a) by (intros Hc; exists (defaultRange s); set_solver).
  assert (Hi : inDefault a -> contains (defaultRange s) a = true) by (by intros [_ ?]). assert (Hi' : contains (defaultRange s) a = true -> inDefault a) by done. tauto.
Qed.

End aggregate.

(** C37: Address decoding.  Whatever range changes and lookups have gone before,
    as long as the ranges announced are proper ranges of 64-bit addresses (a
    part of an interleaving of more than one address), apart from each other or
    different parts of one interleaving, the crossbar that has heard from every
    port sends an address to the one port whose last announced ranges contain
    it, and to the default port, or to no one, when there is none: the cache of
    recent ports never shows.  The exception is the first address of a range
    whose match value is not zero ([hidden]): it may be missed and treated as
    one that nobody has announced. *)
Theorem xbar_finds_port s ann a : reachable s ann -> gotAllAddrRanges s = true -> 0 <= a < 2 ^ 64 ->
  (exists p r s', p <> defaultPortID s /\ r ∈ ann p /\ contains r a = true /\ findPort a s = Done (p, s') /\
     forall q r', q <> defaultPortID s -> r' ∈ ann q -> contains r' a = true -> q = p) \/
  (forall q r, q <> defaultPortID s -> r ∈ ann q -> contains r a = true -> hidden a r) /\
    findPort a s = match fallback a s with Some p => Done (p, s) | None => Exited end.
Proof.
  intros Hr Hg Ha. pose proof (reachable_decodes _ _ Hr) as Hs. destruct (findPort_ok s ann Hs a Ha Hg) as [([r p]&s'&Hx&Hc&E&_)|[Hn E]].
  - left. exists p, r, s'. pose proof (proj1 (dc_map _ _ Hs r p) Hx) as [Hp Hin]. do 4 (split; [done|]). intros q r' Hq Hr' Hc'.
    assert (Heq : (r', q) = (r, p)) by (eapply (wf_unique (portMap s)); [apply Hs|by apply (dc_map _ _ Hs)|done|done|done]). congruence.
  - right. split; [|done]. intros q r Hq Hin Hc. apply (Hn (r, q)); [by apply (dc_map _ _ Hs)|done].
Qed.

(** When the last port has told its ranges, the ranges the crossbar announces
    in turn hold exactly the addresses of the default range, where it is used,
    and of the ranges of the ports below. *)
Theorem xbar_announces s ann p ranges s' : reachable s ann -> legalChange s ann p ranges -> recvRangeChange p ranges s = Done (true, s') ->
  (useDefaultRange s' = true -> interleaved (defaultRange s') = false) ->
  (forall q r, r ∈ setPort ann p ranges q -> interleaved r = true -> wf r) ->
  exists l, getAddrRanges s' = Done l /\ forall a, covers l a <->
    (useDefaultRange s' = true /\ contains (defaultRange s') a = true) \/
    exists q r, q <> defaultPortID s' /\ r ∈ setPort ann p ranges q /\ contains r a = true.
Proof.
  intros Hr Hl E Hd Hw. assert (Hs : decodes s' (setPort ann p ranges)) by (apply reachable_decodes; by eapply reach_change).
  unfold recvRangeChange in E. apply obind_Done in E as (s1&_&E). apply obind_Done in E as (s2&_&E). apply obind_Done in E as (s3&E3&E). injection E as Eg Es.
  assert (Eg2 : gotAllAddrRanges s2 = true). { destruct (gotAllAddrRanges s2) eqn:Eg'; [done|]. injection E3 as <-. congruence. }
  rewrite Eg2 in E3. destruct (aggregateRanges_keeps _ _ E3) as [out Eo].
  assert (Hk : useDefaultRange s' = useDefaultRange s2 /\ defaultRange s' = defaultRange s2 /\ portMap s' = portMap s2 /\ xbarRanges s' = xbarRanges s3 /\ gotAllAddrRanges s' = true).
  { rewrite <-Es, Eo. unfold clearPortCache. destruct (portCache _) as [[? ?] ?]. done. }
  destruct Hk as (K1&K2&K3&K4&K5). unfold getAddrRanges. rewrite K5. eexists. split; [done|]. intros a. rewrite K4.
  rewrite (aggregateRanges_covers s2 ltac:(by rewrite <-K1, <-K2) s3 a); [|intros [r q] Hx; rewrite <-K3 in Hx; apply (dc_map _ _ Hs) in Hx as [_ Hx]; by apply (Hw q)|done].
  unfold inDefault. rewrite <-K1, <-K2, <-K3. apply or_iff_compat_l. unfold covers. setoid_rewrite list_elem_of_fmap. split.
  - intros (r&([r' q]&->&Hx)&Hc). exists q, r'. apply (dc_map _ _ Hs) in Hx as [Hq Hx]. done.
  - intros (q&r&Hq&Hx&Hc). exists r. split; [exists (r, q); split; [done|by apply (dc_map _ _ Hs)]|done].
Qed.

(** ** A crossbar with two channels and a device *)

Definition told (p : Z) (ranges : list AddrRange.t) (s : t) : t := match recvRangeChange p ranges s with Done (_, s') => s' | _ => s end.
Definition device : AddrRange.t := plain 0x10000 0x10fff.
Definition two : t := told 1 [channel 1] (told 0 [channel 0] (new 3 false false)).
Definition twoAnn : Z -> list AddrRange.t := setPort (setPort (fun _ => []) 0 [channel 0]) 1 [channel 1].

Lemma channel_ok m : 0 <= m -> okRange (channel m).
Proof. intros Hm. split; cbn [channel start end_ intlvMatch]; try lia. intros _; vm_compute; discriminate. Qed.
Lemma device_ok : okRange device.
Proof. split; vm_compute; try discriminate; done. Qed.

Lemma two_reachable : reachable two twoAnn.
Proof.
  apply (reach_change (told 0 [channel 0] (new 3 false false)) _ _ _ false); [apply (reach_change (new 3 false false) _ _ _ false); [apply reach_new|..]|..].
  - intros _. split; [repeat constructor; by apply channel_ok|]. split; [repeat constructor|]. by intros q r r' _ _ Hr%elem_of_nil.
  - vm_compute. reflexivity.
  - intros _. split; [repeat constructor; by apply channel_ok|]. split; [repeat constructor|]. unfold setPort. intros q r r' _ _ Hr' Hr%list_elem_of_singleton. subst r.
    destruct (q =? 0); [|by apply elem_of_nil in Hr']. apply list_elem_of_singleton in Hr' as ->. right; split; [reflexivity|]; split; [reflexivity|discriminate].
  - vm_compute. reflexivity.
Qed.

Lemma device_legal : legalChange two twoAnn 2 [device].
Proof.
  intros _. split; [repeat constructor; apply device_ok|]. split; [repeat constructor|]. unfold twoAnn, setPort. intros q r r' _ _ Hr' Hr%list_elem_of_singleton. subst r.
  destruct (q =? 1); [|destruct (q =? 0); [|by apply elem_of_nil in Hr']]; apply list_elem_of_singleton in Hr' as ->; (left; left; reflexivity).
Qed.

Lemma xbar_finds_port_witness : exists p s', findPort 0x1040 (told 2 [device] two) = Done (p, s') /\ p = 1.
Proof.
  destruct (xbar_finds_port (told 2 [device] two) (setPort twoAnn 2 [device]) 0x1040) as [(p&r&s'&_&_&_&E&Hu)|[Hn _]].
  - apply (reach_change two _ _ _ true); [exact two_reachable|exact device_legal|vm_compute; reflexivity].
  - vm_compute. reflexivity.
  - lia.
  - exists p, s'. split; [exact E|]. symmetry. apply (Hu 1 (channel 1)); [vm_compute; discriminate|left|vm_compute; reflexivity].
  - destruct (Hn 1 (channel 1) ltac:(vm_compute; discriminate) ltac:(left) ltac:(vm_compute; reflexivity)) as [E _]. discriminate E.
Defined.

Lemma xbar_announces_witness : exists l, getAddrRanges (told 2 [device] two) = Done l /\ covers l 0x40 /\ covers l 0x10000.
Proof.
  destruct (xbar_announces two twoAnn 2 [device] (told 2 [device] two)) as (l&E&Hl).
  - exact two_reachable.
  - exact device_legal.
  - vm_compute. reflexivity.
  - intros Hu. discriminate Hu.
  - unfold twoAnn, setPort. intros q r Hr Hi. destruct (q =? 2); [apply list_elem_of_singleton in Hr as ->; discriminate Hi|].
    destruct (q =? 1); [|destruct (q =? 0); [|by apply elem_of_nil in Hr]]; apply list_elem_of_singleton in Hr as ->; unfold wf, sliced; cbn; lia.
  - exists l. split; [exact E|]. split; apply Hl; right; [exists 1, (channel 1)|exists 2, device]; (split; [vm_compute; discriminate|]; split; [left|vm_compute; reflexivity]).
Defined.

End XBar.
