(* ===== verification/XBarLayer.v ===== *)
(** * Crossbar layers: the [Layer] of gem5/src/mem/xbar.cc and xbar.hh

    A layer lets one packet at a time through to its destination port.  A port
    that finds it occupied waits in a queue; one whose packet the destination
    refused waits for the destination to send a retry.  Source ports are their
    identifiers; sending a retry runs the code of the port, which may call the
    layer again, so the functions that send one work on the whole state. *)

From Stdlib Require Import ZArith Lia.
From stdpp Require Import base numbers list.
From S2P Require Import Prelude Bits.

#[local] Open Scope Z_scope.
#[local] Open Scope outcome_scope.

Module XBarLayer.

Inductive State := IDLE | BUSY | RETRY.
#[global] Instance State_eq_dec : EqDecision State.
Proof. solve_decision. Defined.

Record layer := mkLayer {
  state : State;
  drainManager : bool;
  waitingForLayer : list Z;
  waitingForPeer : option Z;
  releaseEvent : option Z;
  occupancy : Z
}.

Definition newLayer : layer := mkLayer IDLE false [] None None 0.

Definition withState (x : State) (l : layer) : layer := mkLayer x (drainManager l) (waitingForLayer l) (waitingForPeer l) (releaseEvent l) (occupancy l).
Definition withWaiting (q : list Z) (l : layer) : layer := mkLayer (state l) (drainManager l) q (waitingForPeer l) (releaseEvent l) (occupancy l).
Definition withPeer (p : option Z) (l : layer) : layer := mkLayer (state l) (drainManager l) (waitingForLayer l) p (releaseEvent l) (occupancy l).
Definition withManager (b : bool) (l : layer) : layer := mkLayer (state l) b (waitingForLayer l) (waitingForPeer l) (releaseEvent l) (occupancy l).

(** An event is scheduled once, and not in the past. *)
Definition occupyLayer (now until : Z) (l : layer) : outcome layer :=
  if negb (bool_decide (state l = BUSY)) then Exited
  else if until =? 0 then Exited
  else match releaseEvent l with
       | Some _ => Exited
       | None =>
           if until <? now then Exited
           else Done (mkLayer (state l) (drainManager l) (waitingForLayer l) (waitingForPeer l) (Some until) (occupancy l + (until - now)))
       end.

Definition tryTiming (src_port : Z) (l : layer) : outcome (bool * layer) :=
  if bool_decide (state l = BUSY) || bool_decide (waitingForPeer l <> None) then
    if bool_decide (src_port ∈ waitingForLayer l) then Exited
    else Done (false, withWaiting (waitingForLayer l ++ [src_port]) l)
  else Done (true, withState BUSY l).

Definition succeededTiming (now busy_time : Z) (l : layer) : outcome layer :=
  if negb (bool_decide (state l = BUSY)) then Exited else occupyLayer now busy_time l.

Definition failedTiming (now src_port busy_time : Z) (l : layer) : outcome layer :=
  match waitingForPeer l with
  | Some _ => Exited
  | None =>
      let l := withPeer (Some src_port) l in
      if negb (bool_decide (state l = BUSY)) then Exited else occupyLayer now busy_time l
  end.

(** The event leaves the queue when it fires. *)
Definition fired (l : layer) : layer := mkLayer (state l) (drainManager l) (waitingForLayer l) (waitingForPeer l) None (occupancy l).

(** [true]: not drained. *)
Definition drain (l : layer) : bool * layer := if bool_decide (state l <> IDLE) then (true, withManager true l) else (false, l).

Section retry.
Context {S : Type} (get : S -> option layer) (put : layer -> S -> S).
Context (clockEdge : S -> Z * S) (sendRetry : Z -> S -> outcome S) (now : Z).

Definition onLayer {A} (k : layer -> outcome A) (s : S) : outcome A := match get s with Some l => k l | None => Exited end.

Definition retryWaiting (s : S) : outcome S :=
  onLayer (fun l =>
    match waitingForLayer l with
    | [] => Exited
    | retryingPort :: rest =>
        if negb (bool_decide (state l = IDLE)) then Exited
        else
          let! s := sendRetry retryingPort (put (withWaiting rest (withState RETRY l)) s) in
          onLayer (fun l =>
            if bool_decide (state l = RETRY) then
              let '(edge, s) := clockEdge s in
              let! l := occupyLayer now edge (withState BUSY l) in Done (put l s)
            else Done s) s
    end) s.

(** Whether the drain manager was told. *)
Definition releaseLayer (s : S) : outcome (bool * S) :=
  onLayer (fun l =>
    if negb (bool_decide (state l = BUSY)) then Exited
    else if bool_decide (releaseEvent l <> None) then Exited
    else
      let l := withState IDLE l in
      match waitingForLayer l, waitingForPeer l with
      | _ :: _, None => let! s := retryWaiting (put l s) in Done (false, s)
      | _ :: _, Some _ => Done (false, put l s)
      | [], None => if drainManager l then Done (true, put (withManager false l) s) else Done (false, put l s)
      | [], Some _ => Done (false, put l s)
      end) s.

Definition recvRetry (s : S) : outcome S :=
  onLayer (fun l =>
    match waitingForPeer l with
    | None => Exited
    | Some p =>
        let s := put (withPeer None (withWaiting (p :: waitingForLayer l) l)) s in
        if bool_decide (state l = IDLE) then retryWaiting s
        else if bool_decide (state l = BUSY) then Done s else Exited
    end) s.

End retry.

(** ** Between calls *)

Definition waiters (l : layer) : list Z := option_list (waitingForPeer l) ++ waitingForLayer l.

(** A layer is idle, with no event, and then whoever waits waits for the
    destination; or busy until its event fires. *)
Definition layerOK (l : layer) : Prop :=
  match state l with
  | IDLE => releaseEvent l = None /\ (waitingForLayer l <> [] -> waitingForPeer l <> None)
  | BUSY => is_Some (releaseEvent l)
  | RETRY => False
  end.

(** Between [tryTiming] and the answer of the destination. *)
Definition taken (l : layer) : Prop := state l = BUSY /\ waitingForPeer l = None /\ releaseEvent l = None.

Lemma occupyLayer_ok now until l : taken l \/ (state l = BUSY /\ releaseEvent l = None) -> 0 < until -> now <= until ->
  exists l', occupyLayer now until l = Done l' /\ layerOK l' /\ state l' = BUSY /\ releaseEvent l' = Some until /\ waitingForLayer l' = waitingForLayer l /\ waitingForPeer l' = waitingForPeer l.
Proof.
  intros Hl Hu Hn. assert (Hb : state l = BUSY /\ releaseEvent l = None) by (destruct Hl as [(?&_&?)|]; tauto). destruct Hb as [Hb Hr]. unfold occupyLayer.
  rewrite bool_decide_true by done. cbn [negb]. rewrite (proj2 (Z.eqb_neq until 0)) by lia. rewrite Hr, (proj2 (Z.ltb_ge until now)) by lia.
  eexists. split; [done|]. unfold layerOK. cbn [state releaseEvent]. rewrite Hb. by eauto.
Qed.

(** A port that does not wait is let through or becomes the last to wait. *)
Lemma tryTiming_ok p l : layerOK l \/ (state l = RETRY /\ waitingForPeer l = None /\ releaseEvent l = None) -> p ∉ waiters l ->
  exists b l', tryTiming p l = Done (b, l') /\
    if b then taken l' /\ waitingForLayer l' = waitingForLayer l
    else layerOK l' /\ state l' = state l /\ releaseEvent l' = releaseEvent l /\ waitingForPeer l' = waitingForPeer l /\ waitingForLayer l' = waitingForLayer l ++ [p].
Proof.
  intros Hl Hp. unfold tryTiming. destruct (bool_decide (state l = BUSY) || bool_decide (waitingForPeer l <> None)) eqn:E.
  - rewrite bool_decide_false by (unfold waiters in Hp; rewrite elem_of_app in Hp; tauto). eexists false, _. split; [done|]. unfold layerOK in *. cbn [state withWaiting releaseEvent waitingForPeer waitingForLayer].
    apply orb_true_iff in E. rewrite !bool_decide_eq_true in E. split; [|done]. destruct Hl as [Hl|(Hs&Hw&_)]; [|destruct E; congruence]. destruct (state l); [|done|done].
    destruct E as [|E]; [done|]. tauto.
  - apply orb_false_iff in E. rewrite !bool_decide_eq_false in E. destruct E as [E1 E2]. eexists true, _. split; [done|]. cbn [waitingForLayer withState]. split; [|done].
    assert (Hw : waitingForPeer l = None) by (destruct (waitingForPeer l); [by destruct E2|done]). split; [done|]. split; [done|]. cbn [releaseEvent withState].
    destruct Hl as [Hl|(_&_&?)]; [|done]. unfold layerOK in Hl. destruct (state l); [tauto|done|done].
Qed.

End XBarLayer.
