(* ===== verification/MemCmd.v ===== *)
(** * Memory commands: MemCmd of gem5/src/mem/packet.hh and packet.cc *)

From stdpp Require Import base list strings finite.
From S2P Require Import Prelude.

Module MemCmd.

Inductive Command :=
| InvalidCmd | ReadReq | ReadResp | ReadRespWithInvalidate | WriteReq | WriteResp | Writeback |
SoftPFReq | HardPFReq | SoftPFResp | HardPFResp | WriteInvalidateReq | WriteInvalidateResp |
UpgradeReq | SCUpgradeReq | UpgradeResp | SCUpgradeFailReq | UpgradeFailResp | ReadExReq |
ReadExResp | LoadLockedReq | StoreCondReq | StoreCondFailReq | StoreCondResp | SwapReq |
SwapResp | MessageReq | MessageResp | InvalidDestError | BadAddressError | FunctionalReadError |
FunctionalWriteError | PrintReq | FlushReq | InvalidationReq.

#[global] Instance Command_eq_dec : EqDecision Command.
Proof. solve_decision. Defined.

Inductive Attribute :=
| IsRead | IsWrite | IsUpgrade | IsInvalidate | NeedsExclusive | IsRequest | IsResponse |
NeedsResponse | IsSWPrefetch | IsHWPrefetch | IsLlsc | HasData | IsError | IsPrint | IsFlush.

#[global] Instance Attribute_eq_dec : EqDecision Attribute.
Proof. solve_decision. Defined.

(** The set of attributes, the response command and the name. *)
Record CommandInfo := mkInfo { attributes : list Attribute; response : Command; str : string }.

Definition commandInfo (cmd : Command) : CommandInfo :=
  match cmd with
  | InvalidCmd => mkInfo [] InvalidCmd "InvalidCmd"
  | ReadReq => mkInfo [IsRead; IsRequest; NeedsResponse] ReadResp "ReadReq"
  | ReadResp => mkInfo [IsRead; IsResponse; HasData] InvalidCmd "ReadResp"
  | ReadRespWithInvalidate => mkInfo [IsRead; IsResponse; HasData; IsInvalidate] InvalidCmd "ReadRespWithInvalidate"
  | WriteReq => mkInfo [IsWrite; NeedsExclusive; IsRequest; NeedsResponse; HasData] WriteResp "WriteReq"
  | WriteResp => mkInfo [IsWrite; NeedsExclusive; IsResponse] InvalidCmd "WriteResp"
  | Writeback => mkInfo [IsWrite; NeedsExclusive; IsRequest; HasData] InvalidCmd "Writeback"
  | SoftPFReq => mkInfo [IsRead; IsRequest; IsSWPrefetch; NeedsResponse] SoftPFResp "SoftPFReq"
  | HardPFReq => mkInfo [IsRead; IsRequest; IsHWPrefetch; NeedsResponse] HardPFResp "HardPFReq"
  | SoftPFResp => mkInfo [IsRead; IsResponse; IsSWPrefetch; HasData] InvalidCmd "SoftPFResp"
  | HardPFResp => mkInfo [IsRead; IsResponse; IsHWPrefetch; HasData] InvalidCmd "HardPFResp"
  | WriteInvalidateReq => mkInfo [IsWrite; NeedsExclusive; IsInvalidate; IsRequest; HasData; NeedsResponse] WriteInvalidateResp "WriteInvalidateReq"
  | WriteInvalidateResp => mkInfo [IsWrite; NeedsExclusive; IsResponse] InvalidCmd "WriteInvalidateResp"
  | UpgradeReq => mkInfo [IsInvalidate; NeedsExclusive; IsUpgrade; IsRequest; NeedsResponse] UpgradeResp "UpgradeReq"
  | SCUpgradeReq => mkInfo [IsInvalidate; NeedsExclusive; IsUpgrade; IsLlsc; IsRequest; NeedsResponse] UpgradeResp "SCUpgradeReq"
  | UpgradeResp => mkInfo [NeedsExclusive; IsUpgrade; IsResponse] InvalidCmd "UpgradeResp"
  | SCUpgradeFailReq => mkInfo [IsRead; NeedsExclusive; IsInvalidate; IsLlsc; IsRequest; NeedsResponse] UpgradeFailResp "SCUpgradeFailReq"
  | UpgradeFailResp => mkInfo [IsRead; NeedsExclusive; IsResponse; HasData] InvalidCmd "UpgradeFailResp"
  | ReadExReq => mkInfo [IsRead; NeedsExclusive; IsInvalidate; IsRequest; NeedsResponse] ReadExResp "ReadExReq"
  | ReadExResp => mkInfo [IsRead; NeedsExclusive; IsResponse; HasData] InvalidCmd "ReadExResp"
  | LoadLockedReq => mkInfo [IsRead; IsLlsc; IsRequest; NeedsResponse] ReadResp "LoadLockedReq"
  | StoreCondReq => mkInfo [IsWrite; NeedsExclusive; IsLlsc; IsRequest; NeedsResponse; HasData] StoreCondResp "StoreCondReq"
  | StoreCondFailReq => mkInfo [IsWrite; NeedsExclusive; IsLlsc; IsRequest; NeedsResponse; HasData] StoreCondResp "StoreCondFailReq"
  | StoreCondResp => mkInfo [IsWrite; NeedsExclusive; IsLlsc; IsResponse] InvalidCmd "StoreCondResp"
  | SwapReq => mkInfo [IsRead; IsWrite; NeedsExclusive; IsRequest; HasData; NeedsResponse] SwapResp "SwapReq"
  | SwapResp => mkInfo [IsRead; IsWrite; NeedsExclusive; IsResponse; HasData] InvalidCmd "SwapResp"
  | MessageReq => mkInfo [IsWrite; IsRequest; NeedsResponse; HasData] MessageResp "MessageReq"
  | MessageResp => mkInfo [IsWrite; IsResponse] InvalidCmd "MessageResp"
  | InvalidDestError => mkInfo [IsResponse; IsError] InvalidCmd "InvalidDestError"
  | BadAddressError => mkInfo [IsResponse; IsError] InvalidCmd "BadAddressError"
  | FunctionalReadError => mkInfo [IsRead; IsResponse; IsError] InvalidCmd "FunctionalReadError"
  | FunctionalWriteError => mkInfo [IsWrite; IsResponse; IsError] InvalidCmd "FunctionalWriteError"
  | PrintReq => mkInfo [IsRequest; IsPrint] InvalidCmd "PrintReq"
  | FlushReq => mkInfo [IsRequest; IsFlush; NeedsExclusive] InvalidCmd "FlushReq"
  | InvalidationReq => mkInfo [NeedsExclusive; IsInvalidate; IsRequest] InvalidCmd "InvalidationReq"
  end.

(** The commands in the order of the enumeration. *)
Definition commands : list Command :=
  [InvalidCmd; ReadReq; ReadResp; ReadRespWithInvalidate; WriteReq; WriteResp; Writeback;
   SoftPFReq; HardPFReq; SoftPFResp; HardPFResp; WriteInvalidateReq; WriteInvalidateResp;
   UpgradeReq; SCUpgradeReq; UpgradeResp; SCUpgradeFailReq; UpgradeFailResp; ReadExReq;
   ReadExResp; LoadLockedReq; StoreCondReq; StoreCondFailReq; StoreCondResp; SwapReq; SwapResp;
   MessageReq; MessageResp; InvalidDestError; BadAddressError; FunctionalReadError;
   FunctionalWriteError; PrintReq; FlushReq; InvalidationReq].

Definition testCmdAttrib (cmd : Command) (attrib : Attribute) : bool :=
  bool_decide (attrib ∈ attributes (commandInfo cmd)).

Definition isRead (c : Command) := testCmdAttrib c IsRead.
Definition isWrite (c : Command) := testCmdAttrib c IsWrite.
Definition isUpgrade (c : Command) := testCmdAttrib c IsUpgrade.
Definition isRequest (c : Command) := testCmdAttrib c IsRequest.
Definition isResponse (c : Command) := testCmdAttrib c IsResponse.
Definition needsExclusive (c : Command) := testCmdAttrib c NeedsExclusive.
Definition needsResponse (c : Command) := testCmdAttrib c NeedsResponse.
Definition isInvalidate (c : Command) := testCmdAttrib c IsInvalidate.
Definition isWriteInvalidate (c : Command) := testCmdAttrib c IsWrite && testCmdAttrib c IsInvalidate.
Definition hasData (c : Command) := testCmdAttrib c HasData.
Definition isLLSC (c : Command) := testCmdAttrib c IsLlsc.
Definition isSWPrefetch (c : Command) := testCmdAttrib c IsSWPrefetch.
Definition isHWPrefetch (c : Command) := testCmdAttrib c IsHWPrefetch.
Definition isPrefetch (c : Command) := testCmdAttrib c IsSWPrefetch || testCmdAttrib c IsHWPrefetch.
Definition isError (c : Command) := testCmdAttrib c IsError.
Definition isPrint (c : Command) := testCmdAttrib c IsPrint.
Definition isFlush (c : Command) := testCmdAttrib c IsFlush.
Definition responseCommand (c : Command) : Command := response (commandInfo c).
Definition toString (c : Command) : string := str (commandInfo c).

(** [toInt] and the constructor from an integer. *)
Definition toInt (c : Command) : nat := default 0 (fst <$> list_find (fun d => d = c) commands).
Definition ofInt (n : nat) : option Command := commands !! n.

(** Only requests need a response. *)
Lemma memcmd_requests c : needsResponse c = true -> isRequest c = true.
Proof. by destruct c. Qed.

(** C21: The command table is well typed.  No command is both a request and a
    response.  A request that needs a response has one: a response command,
    itself in need of none, that reads and writes what the request reads and
    writes and is as exclusive.  A request carries data exactly when it writes;
    the response it gets carries data exactly when it reads.  Numbering the
    commands and reading the number back gives the command. *)
Theorem memcmd_well_typed c :
  isRequest c && isResponse c = false /\
  (needsResponse c = true -> isRequest c = true /\
    let r := responseCommand c in
    isResponse r = true /\ needsResponse r = false /\ isRead r = isRead c /\ isWrite r = isWrite c /\
    needsExclusive r = needsExclusive c /\ hasData r = isRead c) /\
  (isRequest c = true -> hasData c = isWrite c) /\
  (needsResponse c = false -> responseCommand c = InvalidCmd) /\
  ofInt (toInt c) = Some c.
Proof. destruct c; vm_compute; repeat split; done. Qed.

End MemCmd.
