(* ===== verification/Request.v ===== *)
(** * Memory requests: gem5/src/mem/request.hh

    A request with its public and private flags.  [_gather_pattern] is not
    initialised by the constructors: it is [None] until it is written. *)

From stdpp Require Import base list numbers.
From Stdlib Require Import ZArith Lia.
From S2P Require Import Prelude Bits.

#[local] Open Scope Z_scope.

Module Request.

(** ** Flags *)

Definition ARCH_BITS := 0x000000FF.
Definition INST_FETCH := 0x00000100.
Definition PHYSICAL := 0x00000200.
Definition VPTE := 0x00000400.
Definition ALTMODE := 0x00000800.
Definition UNCACHEABLE := 0x00001000.
Definition MMAPPED_IPR := 0x00002000.
Definition CLEAR_LL := 0x00004000.
Definition PRIVILEGED := 0x00008000.
Definition CACHE_BLOCK_ZERO := 0x00010000.
Definition NO_ACCESS := 0x00080000.
Definition LOCKED_RMW := 0x00100000.
Definition LLSC := 0x00200000.
Definition MEM_SWAP := 0x00400000.
Definition MEM_SWAP_COND := 0x00800000.
Definition PREFETCH := 0x01000000.
Definition PF_EXCLUSIVE := 0x02000000.
Definition EVICT_NEXT := 0x04000000.
Definition GENERIC_IPR := 0x08000000.
Definition SECURE := 0x10000000.
Definition PT_WALK := 0x20000000.
Definition GATHER := 0x40000000.
Definition STICKY_FLAGS := INST_FETCH.

Definition VALID_SIZE := 0x01.
Definition VALID_PADDR := 0x02.
Definition VALID_VADDR := 0x04.
Definition VALID_PC := 0x10.
Definition VALID_CONTEXT_ID := 0x20.
Definition VALID_THREAD_ID := 0x40.
Definition VALID_EXTRA_DATA := 0x80.
Definition STICKY_PRIVATE_FLAGS := Z.lor VALID_CONTEXT_ID VALID_THREAD_ID.

Definition invldMasterId := 0xFFFF.
Definition UnknownTaskId := 1024.

(** The place of a gather pattern in an address. *)
Definition GATHER_PATTERN_BITS := 3.
Definition GATHER_PATTERN_SHIFT := 8 * 8 - GATHER_PATTERN_BITS.
Definition GATHER_PATTERN_MASK := wrap 64 (Z.shiftl (Z.ones 64) GATHER_PATTERN_SHIFT).

(** ** The object *)

Record t := mk {
  paddr : Z;
  size : Z;
  masterId : Z;
  flags : Z;
  privateFlags : Z;
  time : Z;
  taskId : Z;
  asid : Z;
  vaddr : Z;
  gather_pattern : option Z;
  extraData : Z;
  contextId_ : Z;
  threadId_ : Z;
  pc : Z;
  translateDelta : Z;
  accessDelta : Z;
  depth : Z
}.

(** The minimal constructor. *)
Definition new : t := mk 0 0 invldMasterId 0 0 0 UnknownTaskId 0 0 None 0 0 0 0 0 0 0.

Definition isUncacheable (r : t) : bool := Flags.isSet (flags r) UNCACHEABLE.
Definition isInstFetch (r : t) : bool := Flags.isSet (flags r) INST_FETCH.
Definition isPrefetch (r : t) : bool := Flags.isSet (flags r) PREFETCH.
Definition isGather (r : t) : bool := Flags.isSet (flags r) GATHER.
Definition isLLSC (r : t) : bool := Flags.isSet (flags r) LLSC.
Definition isPriv (r : t) : bool := Flags.isSet (flags r) PRIVILEGED.
Definition isLockedRMW (r : t) : bool := Flags.isSet (flags r) LOCKED_RMW.
Definition isSwap (r : t) : bool := Flags.isSet (flags r) (Z.lor MEM_SWAP MEM_SWAP_COND).
Definition isCondSwap (r : t) : bool := Flags.isSet (flags r) MEM_SWAP_COND.
Definition isMmappedIpr (r : t) : bool := Flags.isSet (flags r) MMAPPED_IPR.
Definition isClearLL (r : t) : bool := Flags.isSet (flags r) CLEAR_LL.
Definition isSecure (r : t) : bool := Flags.isSet (flags r) SECURE.
Definition isPTWalk (r : t) : bool := Flags.isSet (flags r) PT_WALK.

(** [privateFlags.set(m)] *)
Definition setPrivate (m : Z) (r : t) : t :=
  mk (paddr r) (size r) (masterId r) (flags r) (Flags.set (privateFlags r) m) (time r) (taskId r) (asid r)
     (vaddr r) (gather_pattern r) (extraData r) (contextId_ r) (threadId_ r) (pc r) (translateDelta r)
     (accessDelta r) (depth r).

(** [setPhys(paddr, size, flags, mid, time)] *)
Definition setPhys (pa sz fl mid tm : Z) (r : t) : t :=
  mk pa sz mid
     (Flags.set (Flags.clear 32 (flags r) (bnot 32 STICKY_FLAGS)) fl)
     (Flags.set (Flags.clear 8 (privateFlags r) (bnot 8 STICKY_PRIVATE_FLAGS)) (Z.lor VALID_PADDR VALID_SIZE))
     tm (taskId r) (asid r) (vaddr r) (gather_pattern r) (extraData r) (contextId_ r) (threadId_ r) (pc r)
     (translateDelta r) 0 0.

Definition setThreadContext (context_id tid : Z) (r : t) : t :=
  setPrivate (Z.lor VALID_CONTEXT_ID VALID_THREAD_ID)
    (mk (paddr r) (size r) (masterId r) (flags r) (privateFlags r) (time r) (taskId r) (asid r)
        (vaddr r) (gather_pattern r) (extraData r) context_id tid (pc r) (translateDelta r) (accessDelta r) (depth r)).

(** [setVirt(asid, vaddr, size, flags, mid, pc)] at tick [now]: the low bits of
    a gather address are the pattern. *)
Definition setVirt (now as_ va sz fl mid pc_ : Z) (r : t) : t :=
  let fl' := Flags.set (Flags.clear 32 (flags r) (bnot 32 STICKY_FLAGS)) fl in
  let pf' := Flags.set (Flags.clear 8 (privateFlags r) (bnot 8 STICKY_PRIVATE_FLAGS))
               (Z.lor VALID_VADDR (Z.lor VALID_SIZE VALID_PC)) in
  let gather := Flags.isSet fl' GATHER in
  mk (paddr r) sz mid fl' pf' now (taskId r) as_
     (if gather then Z.land va (bnot 64 7) else va)
     (if gather then Some (Z.land va 7) else gather_pattern r)
     (extraData r) (contextId_ r) (threadId_ r) pc_ 0 0 0.

(** The constructors. *)
Definition physical (pa sz fl mid tm : Z) : t := setPhys pa sz fl mid tm new.
Definition physicalPC (pa sz fl mid tm pc_ : Z) : t :=
  let r := setPhys pa sz fl mid tm new in
  let r := setPrivate VALID_PC r in
  mk (paddr r) (size r) (masterId r) (flags r) (privateFlags r) (time r) (taskId r) (asid r)
     (vaddr r) (gather_pattern r) (extraData r) (contextId_ r) (threadId_ r) pc_ (translateDelta r) (accessDelta r) (depth r).
Definition virtual (now as_ va sz fl mid pc_ cid tid : Z) : t :=
  setThreadContext cid tid (setVirt now as_ va sz fl mid pc_ new).

Definition setPaddr (pa : Z) (r : t) : t :=
  setPrivate VALID_PADDR
    (mk pa (size r) (masterId r) (flags r) (privateFlags r) (time r) (taskId r) (asid r)
        (vaddr r) (gather_pattern r) (extraData r) (contextId_ r) (threadId_ r) (pc r) (translateDelta r) (accessDelta r) (depth r)).

(** [splitOnVaddr(split_addr, req1, req2)] *)
Definition setVaddrSize (va sz : Z) (r : t) : t :=
  mk (paddr r) sz (masterId r) (flags r) (privateFlags r) (time r) (taskId r) (asid r)
     va (gather_pattern r) (extraData r) (contextId_ r) (threadId_ r) (pc r) (translateDelta r) (accessDelta r) (depth r).

Definition splitOnVaddr (split_addr : Z) (r : t) : outcome (t * t) :=
  if negb (Flags.isSet (privateFlags r) VALID_VADDR) then Exited
  else if negb (Flags.noneSet (privateFlags r) VALID_PADDR) then Exited
  else if negb ((vaddr r <? split_addr) && (split_addr <? wrap 64 (vaddr r + size r))) then Exited
  else
    let sz1 := wrap 32 (split_addr - vaddr r) in
    Done (setVaddrSize (vaddr r) sz1 r, setVaddrSize split_addr (wrap 32 (size r - sz1)) r).

(** ** Accessors *)

(** A getter guarded by a validity flag. *)
Definition guarded {A : Type} (m : Z) (get : t -> A) (r : t) : outcome A :=
  if Flags.isSet (privateFlags r) m then Done (get r) else Exited.

Definition hasPaddr (r : t) : bool := Flags.isSet (privateFlags r) VALID_PADDR.
Definition getPaddr : t -> outcome Z := guarded VALID_PADDR paddr.
Definition hasSize (r : t) : bool := Flags.isSet (privateFlags r) VALID_SIZE.
Definition getSize : t -> outcome Z := guarded VALID_SIZE size.
Definition getTime : t -> outcome Z := guarded (Z.lor VALID_PADDR VALID_VADDR) time.
Definition getFlags : t -> outcome Z := guarded (Z.lor VALID_PADDR VALID_VADDR) flags.
Definition setFlags (fl : Z) (r : t) : outcome t :=
  guarded (Z.lor VALID_PADDR VALID_VADDR)
    (fun r => mk (paddr r) (size r) (masterId r) (Flags.set (flags r) fl) (privateFlags r) (time r) (taskId r)
       (asid r) (vaddr r) (gather_pattern r) (extraData r) (contextId_ r) (threadId_ r) (pc r) (translateDelta r)
       (accessDelta r) (depth r)) r.
Definition hasVaddr (r : t) : bool := Flags.isSet (privateFlags r) VALID_VADDR.
Definition getVaddr : t -> outcome Z := guarded VALID_VADDR vaddr.
Definition getGatherPattern (r : t) : outcome Z :=
  if isGather r then match gather_pattern r with Some p => Done p | None => Exited end else Done 0.
Definition getAsid : t -> outcome Z := guarded VALID_VADDR asid.
Definition getArchFlags : t -> outcome Z :=
  guarded (Z.lor VALID_PADDR VALID_VADDR) (fun r => Z.land (flags r) ARCH_BITS).
Definition extraDataValid (r : t) : bool := Flags.isSet (privateFlags r) VALID_EXTRA_DATA.
Definition getExtraData : t -> outcome Z := guarded VALID_EXTRA_DATA extraData.
Definition setExtraData (d : Z) (r : t) : t :=
  setPrivate VALID_EXTRA_DATA
    (mk (paddr r) (size r) (masterId r) (flags r) (privateFlags r) (time r) (taskId r) (asid r)
        (vaddr r) (gather_pattern r) d (contextId_ r) (threadId_ r) (pc r) (translateDelta r) (accessDelta r) (depth r)).
Definition hasContextId (r : t) : bool := Flags.isSet (privateFlags r) VALID_CONTEXT_ID.
Definition contextId : t -> outcome Z := guarded VALID_CONTEXT_ID contextId_.
Definition threadId : t -> outcome Z := guarded VALID_THREAD_ID threadId_.
Definition hasPC (r : t) : bool := Flags.isSet (privateFlags r) VALID_PC.
Definition getPC : t -> outcome Z := guarded VALID_PC pc.


(** ** Bookkeeping *)

Definition setTaskId (id : Z) (r : t) : t :=
  mk (paddr r) (size r) (masterId r) (flags r) (privateFlags r) (time r) id (asid r)
     (vaddr r) (gather_pattern r) (extraData r) (contextId_ r) (threadId_ r) (pc r) (translateDelta r) (accessDelta r) (depth r).
Definition setAsid (a : Z) (r : t) : t :=
  mk (paddr r) (size r) (masterId r) (flags r) (privateFlags r) (time r) (taskId r) a
     (vaddr r) (gather_pattern r) (extraData r) (contextId_ r) (threadId_ r) (pc r) (translateDelta r) (accessDelta r) (depth r).
Definition setPC (pc_ : Z) (r : t) : t :=
  setPrivate VALID_PC
    (mk (paddr r) (size r) (masterId r) (flags r) (privateFlags r) (time r) (taskId r) (asid r)
        (vaddr r) (gather_pattern r) (extraData r) (contextId_ r) (threadId_ r) pc_ (translateDelta r) (accessDelta r) (depth r)).
Definition incAccessDepth (r : t) : t :=
  mk (paddr r) (size r) (masterId r) (flags r) (privateFlags r) (time r) (taskId r) (asid r)
     (vaddr r) (gather_pattern r) (extraData r) (contextId_ r) (threadId_ r) (pc r) (translateDelta r) (accessDelta r) (depth r + 1).
(** The latencies at tick [now]. *)
Definition setTranslateLatency (now : Z) (r : t) : t :=
  mk (paddr r) (size r) (masterId r) (flags r) (privateFlags r) (time r) (taskId r) (asid r)
     (vaddr r) (gather_pattern r) (extraData r) (contextId_ r) (threadId_ r) (pc r) (wrap 64 (now - time r)) (accessDelta r) (depth r).
Definition setAccessLatency (now : Z) (r : t) : t :=
  mk (paddr r) (size r) (masterId r) (flags r) (privateFlags r) (time r) (taskId r) (asid r)
     (vaddr r) (gather_pattern r) (extraData r) (contextId_ r) (threadId_ r) (pc r) (translateDelta r)
     (wrap 64 (now - time r - translateDelta r)) (depth r).

End Request.
