(* ===== verification/Packet.v ===== *)
(** * Packets: gem5/src/mem/packet.hh and packet.cc

    A packet carries a command, its request, an address, a size and, when it has
    been given one, a buffer of bytes.  Assertions and panics leave the
    simulator. *)

From stdpp Require Import base list strings numbers.
From Stdlib Require Import ZArith Lia.
From S2P Require Import Prelude Bits MemCmd Request.

#[local] Open Scope Z_scope.

(** ** Buffers *)

(** A byte buffer; [memcpy(dest + doff, src + soff, n)], undefined outside the
    buffers. *)
Abbreviation buffer := (list Z).

Definition memcpy (dest : buffer) (doff : Z) (src : buffer) (soff n : Z) : outcome buffer :=
  if (0 <=? doff) && (0 <=? soff) && (0 <=? n) && (doff + n <=? Z.of_nat (length dest)) &&
     (soff + n <=? Z.of_nat (length src))
  then Done (take (Z.to_nat doff) dest ++ take (Z.to_nat n) (drop (Z.to_nat soff) src) ++
             drop (Z.to_nat (doff + n)) dest)
  else Exited.

(** A 64-bit difference stored in an [int]. *)
Definition toInt32 (x : Z) : Z := (x + 2 ^ 31) mod 2 ^ 32 - 2 ^ 31.

Lemma toInt32_id x : - 2 ^ 31 <= x < 2 ^ 31 -> toInt32 x = x.
Proof. intros Hx. unfold toInt32. rewrite Z.mod_small by lia. lia. Qed.

Lemma memcpy_spec dest doff src soff n : 0 <= doff -> 0 <= soff -> 0 <= n ->
  doff + n <= Z.of_nat (length dest) -> soff + n <= Z.of_nat (length src) ->
  exists r, memcpy dest doff src soff n = Done r /\ length r = length dest /\
    forall i, r !! i = if decide (doff <= Z.of_nat i < doff + n)
                       then src !! Z.to_nat (Z.of_nat i - doff + soff) else dest !! i.
Proof.
  intros Hd Hs Hn Hld Hls. unfold memcpy.
  rewrite !(proj2 (Z.leb_le _ _)) by lia. cbn [andb]. eexists. split; [done|].
  split; [rewrite !length_app, !length_take, !length_drop; lia|]. intros i.
  destruct (decide (doff <= Z.of_nat i < doff + n)) as [Hi|Hi].
  - rewrite lookup_app_r by (rewrite length_take; lia).
    rewrite lookup_app_l by (rewrite !length_take, length_drop; lia). rewrite length_take.
    rewrite lookup_take_lt, lookup_drop by lia. f_equal. lia.
  - destruct (decide (Z.of_nat i < doff)).
    + rewrite lookup_app_l by (rewrite length_take; lia). apply lookup_take_lt. lia.
    + rewrite lookup_app_r by (rewrite length_take; lia).
      rewrite lookup_app_r by (rewrite !length_take, length_drop; lia).
      rewrite !length_take, length_drop, lookup_drop. f_equal. lia.
Qed.

Module Packet.

Definition COPY_FLAGS := 0x0000000F.
Definition SHARED := 0x00000001.
Definition EXPRESS_SNOOP := 0x00000002.
Definition SUPPLY_EXCLUSIVE := 0x00000004.
Definition MEM_INHIBIT := 0x00000008.
Definition VALID_ADDR := 0x00000100.
Definition VALID_SIZE := 0x00000200.
Definition STATIC_DATA := 0x00001000.
Definition DYNAMIC_DATA := 0x00002000.
Definition SUPPRESS_FUNC_ERROR := 0x00008000.
Definition PREFETCH_SNOOP_SQUASH := 0x00010000.

(** [senderState] is a stack of states, the top first; a state is its address. *)
Record t := mk {
  flags : Z;
  cmd : MemCmd.Command;
  req : Request.t;
  data : option buffer;
  addr : Z;
  isSecure_ : bool;
  size : Z;
  origCmd : MemCmd.Command;
  bytesValid : list bool;
  headerDelay : Z;
  payloadDelay : Z;
  senderState : list nat
}.

(** Updates of one field. *)
Definition setFlag (m : Z) (p : t) : t :=
  mk (Flags.set (flags p) m) (cmd p) (req p) (data p) (addr p) (isSecure_ p) (size p) (origCmd p) (bytesValid p)
     (headerDelay p) (payloadDelay p) (senderState p).
Definition clearFlag (m : Z) (p : t) : t :=
  mk (Flags.clear 32 (flags p) m) (cmd p) (req p) (data p) (addr p) (isSecure_ p) (size p) (origCmd p) (bytesValid p)
     (headerDelay p) (payloadDelay p) (senderState p).
Definition withCmd (c : MemCmd.Command) (p : t) : t :=
  mk (flags p) c (req p) (data p) (addr p) (isSecure_ p) (size p) (origCmd p) (bytesValid p)
     (headerDelay p) (payloadDelay p) (senderState p).
Definition withReq (r : Request.t) (p : t) : t :=
  mk (flags p) (cmd p) r (data p) (addr p) (isSecure_ p) (size p) (origCmd p) (bytesValid p)
     (headerDelay p) (payloadDelay p) (senderState p).
Definition withData (d : option buffer) (p : t) : t :=
  mk (flags p) (cmd p) (req p) d (addr p) (isSecure_ p) (size p) (origCmd p) (bytesValid p)
     (headerDelay p) (payloadDelay p) (senderState p).
Definition withAddr (a : Z) (p : t) : t :=
  mk (flags p) (cmd p) (req p) (data p) a (isSecure_ p) (size p) (origCmd p) (bytesValid p)
     (headerDelay p) (payloadDelay p) (senderState p).
Definition withBytesValid (b : list bool) (p : t) : t :=
  mk (flags p) (cmd p) (req p) (data p) (addr p) (isSecure_ p) (size p) (origCmd p) b
     (headerDelay p) (payloadDelay p) (senderState p).
Definition withSenders (s : list nat) (p : t) : t :=
  mk (flags p) (cmd p) (req p) (data p) (addr p) (isSecure_ p) (size p) (origCmd p) (bytesValid p)
     (headerDelay p) (payloadDelay p) s.

(** ** Construction *)

(** [Packet(req, cmd)] *)
Definition new (r : Request.t) (c : MemCmd.Command) : t :=
  let fl := Z.lor (if Request.hasPaddr r then VALID_ADDR else 0) (if Request.hasSize r then VALID_SIZE else 0) in
  mk fl c r None
     (if Request.hasPaddr r then Request.paddr r else 0)
     (if Request.hasPaddr r then Request.isSecure r else false)
     (if Request.hasSize r then Request.size r else 0)
     MemCmd.InvalidCmd [] 0 0 [].

(** [Packet(req, cmd, blkSize)]: for the whole block. *)
Definition newBlock (r : Request.t) (c : MemCmd.Command) (blkSize : Z) : t :=
  let fl := Z.lor (if Request.hasPaddr r then VALID_ADDR else 0) VALID_SIZE in
  mk fl c r None
     (if Request.hasPaddr r then Z.land (Request.paddr r) (bnot 64 (blkSize - 1)) else 0)
     (if Request.hasPaddr r then Request.isSecure r else false)
     blkSize MemCmd.InvalidCmd [] 0 0 [].

Definition makeReadCmd (r : Request.t) : MemCmd.Command :=
  if Request.isLLSC r then MemCmd.LoadLockedReq
  else if Request.isPrefetch r then MemCmd.SoftPFReq
  else MemCmd.ReadReq.

Definition makeWriteCmd (r : Request.t) : MemCmd.Command :=
  if Request.isLLSC r then MemCmd.StoreCondReq
  else if Request.isSwap r then MemCmd.SwapReq
  else MemCmd.WriteReq.

Definition createRead (r : Request.t) : t := new r (makeReadCmd r).
Definition createWrite (r : Request.t) : t := new r (makeWriteCmd r).

(** ** Accessors and flags *)

Definition getAddr (p : t) : outcome Z :=
  if Flags.isSet (flags p) VALID_ADDR then Done (addr p) else Exited.
Definition setAddr (a : Z) (p : t) : outcome t :=
  if Flags.isSet (flags p) VALID_ADDR then Done (withAddr a p) else Exited.
Definition getSize (p : t) : outcome Z :=
  if Flags.isSet (flags p) VALID_SIZE then Done (size p) else Exited.
Definition setSize (n : Z) (p : t) : outcome t :=
  if Flags.isSet (flags p) VALID_SIZE then Exited
  else Done (setFlag VALID_SIZE
    (mk (flags p) (cmd p) (req p) (data p) (addr p) (isSecure_ p) n (origCmd p) (bytesValid p)
        (headerDelay p) (payloadDelay p) (senderState p))).
Definition isSecure (p : t) : outcome bool :=
  if Flags.isSet (flags p) VALID_ADDR then Done (isSecure_ p) else Exited.
Definition getOffset (blkSize : Z) (p : t) : outcome Z :=
  obind (getAddr p) (fun a => Done (Z.land a (blkSize - 1))).

(** The address used in cache tags: the gather pattern in the top bits. *)
Definition getCacheAddr (p : t) : outcome Z :=
  obind (getAddr p) (fun a =>
  obind (Request.getGatherPattern (req p)) (fun pat =>
  Done (Z.lor a (wrap 64 (Z.shiftl pat Request.GATHER_PATTERN_SHIFT))))).

Definition memInhibitAsserted (p : t) : bool := Flags.isSet (flags p) MEM_INHIBIT.
Definition assertMemInhibit (p : t) : outcome t :=
  if negb (MemCmd.isRequest (cmd p)) then Exited
  else if Flags.isSet (flags p) MEM_INHIBIT then Exited
  else Done (setFlag MEM_INHIBIT p).
Definition assertShared (p : t) : t := setFlag SHARED p.
Definition setExpressSnoop (p : t) : t := setFlag EXPRESS_SNOOP p.
Definition setSupplyExclusive (p : t) : t := setFlag SUPPLY_EXCLUSIVE p.
Definition clearSupplyExclusive (p : t) : t := clearFlag SUPPLY_EXCLUSIVE p.
Definition sharedAsserted (p : t) : bool := Flags.isSet (flags p) SHARED.
Definition isExpressSnoop (p : t) : bool := Flags.isSet (flags p) EXPRESS_SNOOP.
Definition isSupplyExclusive (p : t) : bool := Flags.isSet (flags p) SUPPLY_EXCLUSIVE.
Definition setSuppressFuncError (p : t) : t := setFlag SUPPRESS_FUNC_ERROR p.
Definition suppressFuncError (p : t) : bool := Flags.isSet (flags p) SUPPRESS_FUNC_ERROR.
Definition setPrefetchSquashed (p : t) : t := setFlag PREFETCH_SNOOP_SQUASH p.
Definition prefetchSquashed (p : t) : bool := Flags.isSet (flags p) PREFETCH_SNOOP_SQUASH.
Definition hadBadAddress (p : t) : bool := bool_decide (cmd p = MemCmd.BadAddressError).
Definition copyError (q p : t) : outcome t :=
  if MemCmd.isError (cmd q) then Done (withCmd (cmd q) p) else Exited.
Definition setBadAddress (p : t) : outcome t :=
  if MemCmd.isResponse (cmd p) then Done (withCmd MemCmd.BadAddressError p) else Exited.

(** ** Commands *)

Definition convertScToWrite (p : t) : outcome t :=
  if MemCmd.isLLSC (cmd p) && MemCmd.isWrite (cmd p) then Done (withCmd MemCmd.WriteReq p) else Exited.
Definition convertLlToRead (p : t) : outcome t :=
  if MemCmd.isLLSC (cmd p) && MemCmd.isRead (cmd p) then Done (withCmd MemCmd.ReadReq p) else Exited.

Definition makeResponse (p : t) : outcome t :=
  if negb (MemCmd.needsResponse (cmd p)) then Exited
  else if negb (MemCmd.isRequest (cmd p)) then Exited
  else Done (clearFlag EXPRESS_SNOOP
    (mk (flags p) (MemCmd.responseCommand (cmd p)) (req p) (data p) (addr p) (isSecure_ p) (size p) (cmd p)
        (bytesValid p) (headerDelay p) (payloadDelay p) (senderState p))).

Definition setFunctionalResponseStatus (success : bool) (p : t) : t :=
  if success then p
  else if MemCmd.isWrite (cmd p) then withCmd MemCmd.FunctionalWriteError p
  else withCmd MemCmd.FunctionalReadError p.

(** ** Data *)

Definition hasBuffer (p : t) : bool := Flags.isSet (flags p) (Z.lor STATIC_DATA DYNAMIC_DATA).

(** [dataStatic(p)], [dataDynamic(p)], [allocate()]; a fresh buffer has unknown
    contents, given as an argument. *)
Definition giveData (kind : Z) (d : buffer) (p : t) : outcome t :=
  if hasBuffer p then Exited else Done (setFlag kind (withData (Some d) p)).
Definition dataStatic := giveData STATIC_DATA.
Definition dataDynamic := giveData DYNAMIC_DATA.
Definition allocate (fresh : Z -> buffer) (p : t) : outcome t :=
  obind (getSize p) (fun n => giveData DYNAMIC_DATA (fresh n) p).
Definition deleteData (p : t) : t := withData None (clearFlag (Z.lor STATIC_DATA DYNAMIC_DATA) p).

Definition getPtr (p : t) : outcome buffer :=
  if hasBuffer p then match data p with Some d => Done d | None => Exited end else Exited.

(** [Packet(pkt, clear_flags, alloc_data)]: a copy; static data is shared,
    dynamic data is not. *)
Definition copy (fresh : Z -> buffer) (clear_flags alloc_data : bool) (p : t) : outcome t :=
  let fl := Flags.set (if clear_flags then 0 else Z.land (flags p) COPY_FLAGS)
              (Z.land (flags p) (Z.lor VALID_ADDR VALID_SIZE)) in
  let q := mk fl (cmd p) (req p) None (addr p) (isSecure_ p) (size p) MemCmd.InvalidCmd (bytesValid p)
              (headerDelay p) (payloadDelay p) (senderState p) in
  if alloc_data then
    if Flags.isSet (flags p) STATIC_DATA then Done (setFlag STATIC_DATA (withData (data p) q))
    else allocate fresh q
  else Done q.

(** [setData(p)] from another buffer; [writeData(p)]. *)
Definition setData (src : buffer) (soff : Z) (p : t) : outcome t :=
  obind (getPtr p) (fun d => obind (getSize p) (fun n =>
  obind (memcpy d 0 src soff n) (fun d' => Done (withData (Some d') p)))).
Definition setDataFromBlock (blk : buffer) (blkSize : Z) (p : t) : outcome t :=
  obind (getOffset blkSize p) (fun off => setData blk off p).
Definition writeDataAt (dest : buffer) (doff : Z) (p : t) : outcome buffer :=
  obind (getPtr p) (fun d => obind (getSize p) (fun n => memcpy dest doff d 0 n)).
Definition writeDataToBlock (blk : buffer) (blkSize : Z) (p : t) : outcome buffer :=
  obind (getOffset blkSize p) (fun off => writeDataAt blk off p).

(** ** Sender states *)

Definition pushSenderState (s : nat) (p : t) : t := withSenders (s :: senderState p) p.
Definition popSenderState (p : t) : outcome (nat * t) :=
  match senderState p with
  | [] => Exited
  | s :: rest => Done (s, withSenders rest p)
  end.
Definition findNextSenderState (isT : nat -> bool) (p : t) : option nat :=
  snd <$> list_find (fun s => isT s = true) (senderState p).

(** ** Functional accesses *)

(** Offsets and size of the copy when the packet [fs..fe] and the value
    [vs..ve] overlap partially. *)
Definition partialOverlap (fs fe vs ve n : Z) : outcome (Z * Z * Z) :=
  if (vs <? fs) && (ve <=? fe) then Done (toInt32 (fs - vs), 0, toInt32 (ve - fs))
  else if (fs <=? vs) && (fe <? ve) then Done (0, toInt32 (vs - fs), toInt32 (fe - vs))
  else if (fs <=? vs) && (ve <=? fe) then Done (0, toInt32 (vs - fs), n)
  else if (vs <? fs) && (fe <? ve) then Done (toInt32 (fs - vs), 0, toInt32 (fe - fs))
  else Exited.

(** Mark the bytes found, and whether all others were found before. *)
Definition markValid (b : list bool) (off n : Z) : list bool :=
  take (Z.to_nat off) b ++ replicate (Z.to_nat n) true ++ drop (Z.to_nat (off + n)) b.
Definition othersValid (b : list bool) (off n : Z) : bool :=
  forallb id (take (Z.to_nat off) b) && forallb id (drop (Z.to_nat (off + n)) b).

(** [checkFunctional(obj, addr, is_secure, size, data)]: the result, the packet
    and the value's data. *)
Definition checkFunctional (val_addr : Z) (is_secure : bool) (val_size : Z) (vdata : option buffer) (p : t)
  : outcome (bool * t * option buffer) :=
  obind (getAddr p) (fun func_start =>
  obind (getSize p) (fun func_size =>
  let func_end := wrap 64 (func_start + func_size - 1) in
  let val_start := val_addr in
  let val_end := wrap 64 (val_start + val_size - 1) in
  if negb (eqb is_secure (isSecure_ p)) || (val_end <? func_start) || (func_end <? val_start)
  then Done (false, p, vdata)
  else if MemCmd.isPrint (cmd p) then match vdata with None => Done (false, p, vdata) | Some _ => Exited end
  else
    match vdata with
    | None => Done (false, p, vdata)
    | Some v =>
        let offset := toInt32 (func_start - val_start) in
        if MemCmd.isRead (cmd p) then
          obind (getPtr p) (fun d =>
          if (val_start <=? func_start) && (func_end <=? val_end) then
            obind (memcpy d 0 v offset func_size) (fun d' =>
            let bv := match bytesValid p with [] => replicate (Z.to_nat func_size) true | b => b end in
            Done (true, withBytesValid bv (withData (Some d') p), vdata))
          else
            obind (partialOverlap func_start func_end val_start val_end val_size)
              (fun '(val_offset, func_offset, overlap_size) =>
            obind (memcpy d func_offset v val_offset overlap_size) (fun d' =>
            let bv := match bytesValid p with [] => replicate (Z.to_nat func_size) false | b => b end in
            Done (othersValid bv func_offset overlap_size,
                  withBytesValid (markValid bv func_offset overlap_size) (withData (Some d') p), vdata))))
        else if MemCmd.isWrite (cmd p) then
          obind (getPtr p) (fun d =>
          if 0 <=? offset then
            obind (memcpy v offset d 0 (Z.min func_end val_end - func_start + 1)) (fun v' => Done (false, p, Some v'))
          else
            obind (memcpy v 0 d (- offset) (Z.min func_end val_end - val_start + 1)) (fun v' => Done (false, p, Some v')))
        else Exited
    end)).

(** [checkFunctional(other)]: against another packet, whose data a write
    updates. *)
Definition checkFunctionalPacket (other p : t) : outcome (bool * t * t) :=
  obind (getAddr other) (fun a => obind (isSecure other) (fun sec => obind (getSize other) (fun n =>
  obind (if MemCmd.hasData (cmd other) then obind (getPtr other) (fun d => Done (Some d)) else Done None) (fun v =>
  obind (checkFunctional a sec n v p) (fun '(r, p, v') =>
  Done (r, p, match v' with Some d => withData (Some d) other | None => other end)))))).

(** ** Functional accesses against a value *)

(** A packet with an address, a size and a buffer of that size, and a value in
    memory; neither wraps around the address space. *)
Record overlapCase (p : t) (d : buffer) (va : Z) (v : buffer) : Prop := {
  oc_addr : getAddr p = Done (addr p);
  oc_size : getSize p = Done (size p);
  oc_data : getPtr p = Done d;
  oc_len : Z.of_nat (length d) = size p;
  oc_pos : 0 < size p /\ 0 < Z.of_nat (length v);
  oc_small : size p < 2 ^ 31 /\ Z.of_nat (length v) < 2 ^ 31;
  oc_range : 0 <= addr p /\ addr p + size p <= 2 ^ 64 /\ 0 <= va /\ va + Z.of_nat (length v) <= 2 ^ 64;
  oc_print : MemCmd.isPrint (cmd p) = false
}.

(** Byte [i] of the value after the packet has been written over it. *)
Definition overwritten (p : t) (d : buffer) (va : Z) (v : buffer) (i : nat) : option Z :=
  let a := va + Z.of_nat i in
  if decide (addr p <= a < addr p + size p) then d !! Z.to_nat (a - addr p) else v !! i.

(** A functional write updates a value in flight exactly where it overlaps
    the packet, whatever the overlap: each byte of the value becomes the byte
    the packet has for its address, if it has one, and the others stay. *)
Theorem checkFunctional_write p d va v : overlapCase p d va v ->
  MemCmd.isWrite (cmd p) = true -> MemCmd.isRead (cmd p) = false ->
  exists v', checkFunctional va (isSecure_ p) (Z.of_nat (length v)) (Some v) p = Done (false, p, Some v') /\
    length v' = length v /\ forall i, (i < length v)%nat -> v' !! i = overwritten p d va v i.
Proof.
  intros [Ha Hs Hd Hl Hp Hsm Hr Hpr] Hw Hrd. unfold checkFunctional. rewrite Ha, Hs. cbn [obind].
  unfold wrap. rewrite !Z.mod_small by lia. rewrite eqb_reflx. cbn [negb orb].
  destruct (Z.ltb_spec (va + Z.of_nat (length v) - 1) (addr p)) as [H1|H1]; cbn [orb];
    [|destruct (Z.ltb_spec (addr p + size p - 1) va) as [H2|H2]].
  1,2: exists v; split; [done|]; split; [done|]; intros i Hi; unfold overwritten; cbv zeta; rewrite decide_False; [done|lia].
  rewrite Hpr, Hrd, Hw, Hd. cbn [obind]. rewrite toInt32_id by lia.
  destruct (Z.leb_spec 0 (addr p - va)) as [Ho|Ho].
  - destruct (memcpy_spec v (addr p - va) d 0 (Z.min (addr p + size p - 1) (va + Z.of_nat (length v) - 1) - addr p + 1))
      as (v' & -> & Hlen & Hv); [lia..|]. exists v'. split; [done|]. split; [done|]. intros i Hi. rewrite Hv.
    unfold overwritten. cbv zeta. repeat case_decide; try lia; [f_equal; lia|done].
  - destruct (memcpy_spec v 0 d (- (addr p - va)) (Z.min (addr p + size p - 1) (va + Z.of_nat (length v) - 1) - va + 1))
      as (v' & -> & Hlen & Hv); [lia..|]. exists v'. split; [done|]. split; [done|]. intros i Hi. rewrite Hv.
    unfold overwritten. cbv zeta. repeat case_decide; try lia; [f_equal; lia|done].
Qed.

(** A functional read that lies inside the value takes its bytes and is
    satisfied; a read that does not overlap it is left alone. *)
Theorem checkFunctional_read p d va v : overlapCase p d va v -> MemCmd.isRead (cmd p) = true ->
  (va <= addr p -> addr p + size p <= va + Z.of_nat (length v) -> exists d' p',
    checkFunctional va (isSecure_ p) (Z.of_nat (length v)) (Some v) p = Done (true, p', Some v) /\
    getPtr p' = Done d' /\ length d' = length d /\
    forall i, (i < length d)%nat -> d' !! i = v !! Z.to_nat (addr p + Z.of_nat i - va)) /\
  (va + Z.of_nat (length v) <= addr p \/ addr p + size p <= va ->
    checkFunctional va (isSecure_ p) (Z.of_nat (length v)) (Some v) p = Done (false, p, Some v)).
Proof.
  intros [Ha Hs Hd Hl Hp Hsm Hr Hpr] Hrd. unfold checkFunctional. rewrite Ha, Hs. cbn [obind].
  unfold wrap. rewrite !Z.mod_small by lia. rewrite eqb_reflx. cbn [negb orb]. split.
  - intros H1 H2. rewrite (proj2 (Z.ltb_ge _ (addr p))), (proj2 (Z.ltb_ge _ va)) by lia. cbn [orb].
    rewrite Hpr, Hrd, Hd. cbn [obind]. rewrite !(proj2 (Z.leb_le _ _)) by lia. cbn [andb]. rewrite toInt32_id by lia.
    destruct (memcpy_spec d 0 v (addr p - va) (size p)) as (d' & -> & Hlen & Hv); [lia..|]. cbn [obind].
    eexists d', _. split; [done|]. split; [|split; [done|]].
    + unfold getPtr in *. unfold hasBuffer in *. cbn. by destruct (Flags.isSet _ _).
    + intros i Hi. rewrite Hv, decide_True by lia. f_equal. lia.
  - intros [H1|H1].
    + by rewrite (proj2 (Z.ltb_lt _ (addr p))) by lia.
    + rewrite (proj2 (Z.ltb_lt _ va)) by lia. by rewrite orb_true_r.
Qed.

(** A packet of [n] bytes at [a]. *)
Definition samplePacket (c : MemCmd.Command) (a : Z) (d : buffer) : t :=
  withData (Some d) (setFlag DYNAMIC_DATA (new (Request.physical a (Z.of_nat (length d)) 0 0 0) c)).

Lemma samplePacket_case c a d va v : MemCmd.isPrint c = false -> 0 < Z.of_nat (length d) < 2 ^ 31 ->
  0 < Z.of_nat (length v) < 2 ^ 31 -> 0 <= a < 2 ^ 63 -> 0 <= va < 2 ^ 63 -> overlapCase (samplePacket c a d) d va v.
Proof.
  intros Hp Hd Hv Ha Hva. split; try done; change (size (samplePacket c a d)) with (Z.of_nat (length d));
    change (addr (samplePacket c a d)) with a; lia.
Qed.

Lemma checkFunctional_write_witness : exists v',
  checkFunctional 0x10 false 4 (Some [1; 2; 3; 4]) (samplePacket MemCmd.WriteReq 0x12 [7; 8; 9; 10]) =
    Done (false, samplePacket MemCmd.WriteReq 0x12 [7; 8; 9; 10], Some v') /\ v' !! 3%nat = Some 8 /\ v' !! 1%nat = Some 2.
Proof.
  destruct (checkFunctional_write (samplePacket MemCmd.WriteReq 0x12 [7; 8; 9; 10]) [7; 8; 9; 10] 0x10 [1; 2; 3; 4])
    as (v' & Hc & Hl & Hv).
  - apply samplePacket_case; (reflexivity || (cbn; lia)).
  - reflexivity.
  - reflexivity.
  - exists v'. split; [exact Hc|]. split; [rewrite Hv by (cbn; lia); reflexivity|rewrite Hv by (cbn; lia); reflexivity].
Defined.

Lemma checkFunctional_read_witness : exists p' d',
  checkFunctional 0x10 false 4 (Some [1; 2; 3; 4]) (samplePacket MemCmd.ReadReq 0x12 [0; 0]) = Done (true, p', Some [1; 2; 3; 4]) /\
  getPtr p' = Done d' /\ d' !! 0%nat = Some 3.
Proof.
  destruct (checkFunctional_read (samplePacket MemCmd.ReadReq 0x12 [0; 0]) [0; 0] 0x10 [1; 2; 3; 4]) as [Hin _].
  - apply samplePacket_case; (reflexivity || (cbn; lia)).
  - reflexivity.
  - destruct (Hin ltac:(vm_compute; discriminate) ltac:(vm_compute; discriminate)) as (d' & p' & Hc & Hg & _ & Hd). exists p', d'.
    split; [exact Hc|]. split; [exact Hg|]. rewrite Hd by (cbn; lia). reflexivity.
Defined.

(** Finding: in three of the four cases of a partial overlap of a read the size
    is one byte short: of the four bytes a value shares with the start of the
    packet only three are copied and marked. *)
Lemma checkFunctional_partial_short : exists p',
  checkFunctional 0xc false 8 (Some [1; 2; 3; 4; 5; 6; 7; 8]) (samplePacket MemCmd.ReadReq 0x10 (replicate 8 0)) =
    Done (false, p', Some [1; 2; 3; 4; 5; 6; 7; 8]) /\
  getPtr p' = Done [5; 6; 7; 0; 0; 0; 0; 0] /\
  bytesValid p' = [true; true; true; false; false; false; false; false].
Proof. eexists. split; [vm_compute; reflexivity|]. split; vm_compute; reflexivity. Qed.

(** ** Gather addresses *)

Lemma land_low3 a p : u64 a -> a mod 8 = 0 -> 0 <= p < 8 ->
  Z.land (Z.lor a p) 7 = p /\ Z.land (Z.lor a p) (bnot 64 7) = a.
Proof.
  intros Ha Hm Hp.
  assert (Hbit : forall i, 0 <= i < 3 -> Z.testbit a i = false).
  { intros i Hi. replace a with (a / 8 * 2 ^ 3) by (pose proof (Z.div_mod a 8); lia).
    rewrite Z.mul_pow2_bits_low; [done|lia]. }
  assert (Hpb : forall i, 3 <= i -> Z.testbit p i = false) by (intros i Hi; apply (testbit_above 3); lia).
  change 7 with (Z.ones 3). split; apply Z.bits_inj'; intros i Hi.
  - rewrite Z.land_spec, Z.lor_spec, testbit_ones by lia. destruct (Z.ltb_spec i 3).
    + by rewrite Hbit, andb_true_r.
    + by rewrite andb_false_r, Hpb.
  - rewrite Z.land_spec, Z.lor_spec, testbit_bnot, testbit_ones by lia.
    destruct (Z.ltb_spec i 3), (Z.ltb_spec i 64); try lia; cbn [xorb].
    + by rewrite andb_false_r, Hbit.
    + by rewrite andb_true_r, Hpb, orb_false_r.
    + by rewrite andb_false_r, (testbit_above 64 a).
Qed.

Lemma cache_pattern_bits pa pat : 0 <= pa < 2 ^ 61 -> 0 <= pat < 8 ->
  let c := Z.lor pa (wrap 64 (Z.shiftl pat 61)) in Z.shiftr c 61 = pat /\ c mod 2 ^ 61 = pa /\ u64 c.
Proof.
  intros Hp Hq. assert (E : wrap 64 (Z.shiftl pat 61) = pat * 2 ^ 61).
  { rewrite Z.shiftl_mul_pow2 by lia. apply Z.mod_small. lia. }
  assert (Ec : Z.lor pa (wrap 64 (Z.shiftl pat 61)) = pa + pat * 2 ^ 61).
  { rewrite E. symmetry. rewrite <- Z.shiftl_mul_pow2 by lia. apply Z.add_nocarry_lor.
    apply Z.bits_inj'. intros i Hi. rewrite Z.land_spec, Z.bits_0, testbit_shiftl by lia.
    destruct (Z.leb_spec 61 i); [|by rewrite andb_false_r]. by rewrite (testbit_above 61 pa i) by lia. }
  cbv zeta. rewrite Ec, Z.shiftr_div_pow2, Z.div_add, Z.mod_add, Z.div_small, Z.mod_small by lia.
  split; [lia|]. split; [done|]. unfold u64. lia.
Qed.

(** A gather pattern survives its encodings.  A virtual request whose address
    is an aligned address with the pattern in its low three bits has that
    address and that pattern; and in the cache address of its packet, once the
    request is translated to a physical address below 2^61, the top three bits
    are the pattern and the rest is the physical address. *)
Theorem gather_roundtrip now as_ va sz fl mid pc cid tid pat pa :
  u64 va -> va mod 8 = 0 -> 0 <= pat < 8 -> 0 <= pa < 2 ^ 61 -> Flags.isSet fl Request.GATHER = true ->
  let r := Request.setPaddr pa (Request.virtual now as_ (Z.lor va pat) sz fl mid pc cid tid) in
  Request.getVaddr r = Done va /\ Request.getGatherPattern r = Done pat /\
  exists c, getCacheAddr (createRead r) = Done c /\ u64 c /\
    Z.shiftr c Request.GATHER_PATTERN_SHIFT = pat /\ c mod 2 ^ Request.GATHER_PATTERN_SHIFT = pa.
Proof.
  intros Hva Hal Hpat Hpa Hg r.
  destruct (land_low3 va pat Hva Hal Hpat) as [E1 E2].
  assert (Hfl : Flags.isSet (Flags.set 0 fl) Request.GATHER = true) by exact Hg.
  assert (Hgr : Request.isGather r = true) by exact Hfl.
  assert (Hgp : Request.gather_pattern r = Some pat).
  { unfold r, Request.setPaddr, Request.setPrivate, Request.virtual, Request.setThreadContext, Request.setVirt.
    cbn [Request.gather_pattern Request.flags Request.new]. change (Flags.clear 32 0 _) with 0. by rewrite Hfl, E1. }
  assert (Hv : Request.vaddr r = va).
  { unfold r, Request.setPaddr, Request.setPrivate, Request.virtual, Request.setThreadContext, Request.setVirt.
    cbn [Request.vaddr Request.flags Request.new]. change (Flags.clear 32 0 _) with 0. by rewrite Hfl, E2. }
  assert (Hp : Request.getGatherPattern r = Done pat) by (unfold Request.getGatherPattern; by rewrite Hgr, Hgp).
  split; [unfold Request.getVaddr, Request.guarded; by rewrite <- Hv|]. split; [done|].
  destruct (cache_pattern_bits pa pat Hpa Hpat) as (H1 & H2 & H3).
  exists (Z.lor pa (wrap 64 (Z.shiftl pat 61))). split; [|done].
  unfold getCacheAddr, createRead. assert (Ha : getAddr (new r (makeReadCmd r)) = Done pa) by done.
  rewrite Ha. cbn [obind]. change (req (new r (makeReadCmd r))) with r. by rewrite Hp.
Qed.

Lemma gather_roundtrip_witness : exists c,
  getCacheAddr (createRead (Request.setPaddr 0x2000 (Request.virtual 0 0 0x1005 8 Request.GATHER 0 0 0 0))) = Done c /\
  Z.shiftr c 61 = 5 /\ c mod 2 ^ 61 = 0x2000.
Proof.
  destruct (gather_roundtrip 0 0 0x1000 8 Request.GATHER 0 0 0 0 5 0x2000) as (_ & _ & c & Hc & _ & H1 & H2).
  - unfold u64. lia.
  - reflexivity.
  - lia.
  - lia.
  - reflexivity.
  - exists c. split; [exact Hc|]. split; [exact H1|exact H2].
Defined.

(** Finding: a physical request flagged as a gather never gets a pattern; its
    pattern is read uninitialised. *)
Lemma gather_physical_uninitialised pa sz mid tm :
  Request.getGatherPattern (Request.physical pa sz Request.GATHER mid tm) = Exited.
Proof. done. Qed.

End Packet.

(** ** Typed access to the data: gem5/src/mem/packet_access.hh

    [get] and [set] read and write a word of [w] bytes at the start of the data
    in the byte order of the simulated machine, which is a parameter. *)

#[local] Open Scope outcome_scope.

Module PacketAccess.
Import Packet.

(** The value of little-endian bytes, and back. *)
Fixpoint combine (bs : buffer) : Z := match bs with [] => 0 | b :: bs => b + 2 ^ 8 * combine bs end.
Fixpoint split (w : nat) (v : Z) : buffer := match w with O => [] | S w => v mod 2 ^ 8 :: split w (v / 2 ^ 8) end.

Definition ordered (bigEndian : bool) (bs : buffer) : buffer := if bigEndian then rev bs else bs.

Definition get (bigEndian : bool) (w : nat) (p : Packet.t) : outcome Z :=
  if negb (hasBuffer p) then Exited
  else if size p <? Z.of_nat w then Exited
  else let! d := getPtr p in
    if Z.of_nat (length d) <? Z.of_nat w then Exited
    else Done (combine (ordered bigEndian (take w d))).

Definition set (bigEndian : bool) (w : nat) (v : Z) (p : Packet.t) : outcome Packet.t :=
  if negb (hasBuffer p) then Exited
  else if size p <? Z.of_nat w then Exited
  else let! d := getPtr p in
    if Z.of_nat (length d) <? Z.of_nat w then Exited
    else Done (withData (Some (ordered bigEndian (split w v) ++ drop w d)) p).

Lemma split_length w v : length (split w v) = w.
Proof. revert v. induction w as [|w IH]; intros v; [done|]. cbn. by rewrite IH. Qed.

Lemma combine_split w v : 0 <= v < 2 ^ (8 * Z.of_nat w) -> combine (split w v) = v.
Proof.
  revert v. induction w as [|w IH]; intros v Hv; [cbn in *; lia|]. cbn [split combine]. rewrite IH; [pose proof (Z.div_mod v (2 ^ 8)); lia|].
  replace (8 * Z.of_nat (S w)) with (8 + 8 * Z.of_nat w) in Hv by lia. rewrite Z.pow_add_r in Hv by lia. split; [apply Z.div_pos; lia|]. apply Z.div_lt_upper_bound; lia.
Qed.

Lemma combine_range bs : Forall (fun b => 0 <= b < 2 ^ 8) bs -> 0 <= combine bs < 2 ^ (8 * Z.of_nat (length bs)).
Proof.
  induction 1 as [|b bs Hb Hbs IH]; [cbn; lia|]. cbn [combine length]. replace (8 * Z.of_nat (S (length bs))) with (8 + 8 * Z.of_nat (length bs)) by lia. rewrite Z.pow_add_r by lia. nia.
Qed.

Lemma split_combine bs : Forall (fun b => 0 <= b < 2 ^ 8) bs -> split (length bs) (combine bs) = bs.
Proof.
  induction 1 as [|b bs Hb Hbs IH]; [done|]. cbn [split combine length]. replace (b + 2 ^ 8 * combine bs) with (combine bs * 2 ^ 8 + b) by lia.
  rewrite Z.div_add_l, (Z.div_small b), Z.add_0_r, IH by lia. f_equal. rewrite Z.add_comm, Z.mod_add, Z.mod_small by lia. done.
Qed.

(** A value that fits is read back, in either byte order; the rest of the data
    and the packet stay. *)
Lemma get_set be w v p d : hasBuffer p = true -> data p = Some d -> Z.of_nat w <= size p -> Z.of_nat w <= Z.of_nat (length d) -> 0 <= v < 2 ^ (8 * Z.of_nat w) ->
  exists p', set be w v p = Done p' /\ get be w p' = Done v /\ getPtr p' = Done (ordered be (split w v) ++ drop w d) /\ withData None p' = withData None p.
Proof.
  intros Hb Hd Hs Hl Hv. unfold set, get, getPtr. rewrite Hb, Hd. cbn [negb]. rewrite (proj2 (Z.ltb_ge _ _)) by lia. cbn [obind]. rewrite (proj2 (Z.ltb_ge _ _)) by lia. eexists. split; [done|].
  change (hasBuffer (withData _ p)) with (hasBuffer p). rewrite Hb. cbn [negb size withData data]. rewrite (proj2 (Z.ltb_ge _ _)) by lia. cbn [obind].
  assert (Hlen : length (ordered be (split w v)) = w) by (destruct be; cbn [ordered]; rewrite ?length_rev; apply split_length).
  rewrite length_app, Hlen, (proj2 (Z.ltb_ge _ _)) by lia. split; [|done]. rewrite take_app_le, take_ge by lia. f_equal. destruct be; cbn [ordered]; rewrite ?rev_involutive; by apply combine_split.
Qed.

(** Writing back what was read changes nothing. *)
Lemma set_get be w p d : hasBuffer p = true -> data p = Some d -> Z.of_nat w <= size p -> Z.of_nat w <= Z.of_nat (length d) -> Forall (fun b => 0 <= b < 2 ^ 8) d ->
  exists v, get be w p = Done v /\ 0 <= v < 2 ^ (8 * Z.of_nat w) /\ set be w v p = Done p.
Proof.
  intros Hb Hd Hs Hl Hf. unfold set, get, getPtr. rewrite Hb, Hd. cbn [negb]. rewrite (proj2 (Z.ltb_ge _ _)) by lia. cbn [obind]. rewrite (proj2 (Z.ltb_ge _ _)) by lia. eexists. split; [done|].
  assert (Ht : length (ordered be (take w d)) = w) by (destruct be; cbn [ordered]; rewrite ?length_rev, length_take; lia).
  assert (Hfo : Forall (fun b => 0 <= b < 2 ^ 8) (ordered be (take w d))) by (destruct be; cbn [ordered]; [apply Forall_rev|]; by apply Forall_take).
  split; [pose proof (combine_range _ Hfo) as Hc; by rewrite Ht in Hc|]. pose proof (split_combine _ Hfo) as Hsc. rewrite Ht in Hsc. rewrite Hsc.
  assert (Ho : ordered be (ordered be (take w d)) = take w d) by (destruct be; cbn [ordered]; [apply rev_involutive|done]). rewrite Ho, take_drop. f_equal. unfold withData. rewrite <-Hd. by destruct p.
Qed.

End PacketAccess.
