(* ===== verification/AbstractMem.v ===== *)
(** * The memory: gem5/src/mem/abstract_mem.hh and abstract_mem.cc

    A memory with its backing store, the load-locked reservations and the
    statistics; [access] and [functionalAccess] are the whole handlers.  The
    processors woken by a store are recorded in order. *)

From stdpp Require Import base gmap list numbers.
From Stdlib Require Import ZArith Lia.
From S2P Require Import Prelude Bits AddrRange MemCmd Request Packet.

#[local] Open Scope Z_scope.

Module AbstractMem.

(** ** State *)

(** [LockedAddr]: address and hardware context. *)
Record LockedAddr := mkLocked { l_addr : Z; l_ctx : Z }.

Definition lockMask (paddr : Z) : Z := Z.land paddr (bnot 64 0xf).

Record t := mk {
  range : AddrRange.t;
  pmem : option buffer;                 (* None: no backing store *)
  lockedAddrList : list LockedAddr;
  bytesRead : gmap Z Z;                 (* per master *)
  bytesInstRead : gmap Z Z;
  bytesWritten : gmap Z Z;
  numReads : gmap Z Z;
  numWrites : gmap Z Z;
  numOther : gmap Z Z;
  woken : list Z                        (* contexts woken, oldest first *)
}.

Definition withLocks (l : list LockedAddr) (w : list Z) (m : t) : t :=
  mk (range m) (pmem m) l (bytesRead m) (bytesInstRead m) (bytesWritten m) (numReads m) (numWrites m) (numOther m) w.
Definition withPmem (b : buffer) (m : t) : t :=
  mk (range m) (Some b) (lockedAddrList m) (bytesRead m) (bytesInstRead m) (bytesWritten m) (numReads m)
     (numWrites m) (numOther m) (woken m).

(** A new memory has no backing store; [init] checks its size against the pages
    of the system. *)
Definition newMemory (r : AddrRange.t) : t := mk r None [] ∅ ∅ ∅ ∅ ∅ ∅ [].
Definition init (pageBytes : Z) (m : t) : outcome unit :=
  if pageBytes =? 0 then Exited else if negb (AddrRange.size (range m) mod pageBytes =? 0) then Exited else Done tt.
Definition setBackingStore (pmem_addr : option buffer) (m : t) : t :=
  mk (range m) pmem_addr (lockedAddrList m) (bytesRead m) (bytesInstRead m) (bytesWritten m) (numReads m) (numWrites m) (numOther m) (woken m).
Definition getAddrRange (m : t) : AddrRange.t := range m.

(** [stat[id] += n] *)
Definition bump (id n : Z) (s : gmap Z Z) : gmap Z Z := <[id := map_get 0 s id + n]> s.

Definition countOther (id : Z) (m : t) : t :=
  mk (range m) (pmem m) (lockedAddrList m) (bytesRead m) (bytesInstRead m) (bytesWritten m) (numReads m)
     (numWrites m) (bump id 1 (numOther m)) (woken m).
Definition countRead (id n : Z) (fetch : bool) (m : t) : t :=
  mk (range m) (pmem m) (lockedAddrList m) (bump id n (bytesRead m))
     (if fetch then bump id n (bytesInstRead m) else bytesInstRead m) (bytesWritten m)
     (bump id 1 (numReads m)) (numWrites m) (numOther m) (woken m).
Definition countWrite (id n : Z) (m : t) : t :=
  mk (range m) (pmem m) (lockedAddrList m) (bytesRead m) (bytesInstRead m) (bump id n (bytesWritten m))
     (numReads m) (bump id 1 (numWrites m)) (numOther m) (woken m).

(** ** Load-locked and store-conditional *)

(** Update the record of the context, or add one in front. *)
Fixpoint relock (ctx a : Z) (l : list LockedAddr) : option (list LockedAddr) :=
  match l with
  | [] => None
  | i :: l' => if l_ctx i =? ctx then Some (mkLocked a (l_ctx i) :: l')
               else option_map (cons i) (relock ctx a l')
  end.

Definition trackLocked (ctx paddr : Z) (l : list LockedAddr) : list LockedAddr :=
  let a := lockMask paddr in
  match relock ctx a l with Some l' => l' | None => mkLocked a ctx :: l end.

Definition trackLoadLocked (p : Packet.t) (m : t) : outcome t :=
  obind (Request.getPaddr (Packet.req p)) (fun pa =>
  obind (Request.contextId (Packet.req p)) (fun ctx =>
  Done (withLocks (trackLocked ctx pa (lockedAddrList m)) (woken m) m))).

(** The search and the removal of [checkLockedAddrList]: whether the store may
    happen, the remaining records and the contexts to wake. *)
Definition checkLocked (isLLSC : bool) (ctx paddr : Z) (l : list LockedAddr)
  : bool * list LockedAddr * list Z :=
  let a := lockMask paddr in
  let allowStore :=
    if isLLSC then existsb (fun i => (l_addr i =? a) && (l_ctx i =? ctx)) l else true in
  if allowStore then
    (true, filter (fun i => l_addr i <> a) l, map l_ctx (filter (fun i => l_addr i = a) l))
  else (false, l, []).

(** [writeOK(pkt)]: a store-conditional leaves its result in the request. *)
Definition writeOK (p : Packet.t) (m : t) : outcome (bool * Packet.t * t) :=
  let isLLSC := MemCmd.isLLSC (Packet.cmd p) in
  let setResult (b : bool) (p : Packet.t) :=
    if isLLSC then Packet.withReq (Request.setExtraData (if b then 1 else 0) (Packet.req p)) p else p in
  match lockedAddrList m with
  | [] => Done (negb isLLSC, setResult false p, m)
  | l =>
      obind (Request.getPaddr (Packet.req p)) (fun pa =>
      obind (if isLLSC && existsb (fun i => l_addr i =? lockMask pa) l
             then Request.contextId (Packet.req p) else Done 0) (fun ctx =>
      let '(ok, l', w) := checkLocked isLLSC ctx pa l in
      Done (ok, setResult ok p, withLocks l' (woken m ++ w) m)))
  end.

(** ** Gather *)

Definition FIELD_ID (x : Z) : Z := Z.land (Z.shiftr x 3) 7.
Definition TUPLE_ID (x : Z) : Z := Z.land (Z.shiftr x 6) 7.
Definition SHUFFLE (x : Z) : Z := Z.lxor x (Z.shiftl (TUPLE_ID x) 3).
Definition UNSHUFFLE (x : Z) : Z := SHUFFLE x.
Definition PATTERN (x pat_id : Z) : Z := Z.lxor x (Z.shiftl (Z.land (FIELD_ID x) pat_id) 6).

(** The address a gather reads for address [x]. *)
Definition gatherAddr (patternId x : Z) : Z := UNSHUFFLE (PATTERN (SHUFFLE x) patternId).

(** The loop of [doMemGather]: [n] words from [x], into the packet's buffer at
    byte [off]. *)
Fixpoint gatherLoop (n : nat) (patternId x base : Z) (host : buffer) (off : Z) (d : buffer) : outcome buffer :=
  match n with
  | O => Done d
  | S n =>
      obind (memcpy d off host (gatherAddr patternId x - base) 8) (fun d =>
      gatherLoop n patternId (wrap 64 (x + 8)) base host (off + 8) d)
  end.

Definition doMemGather (p : Packet.t) (m : t) : outcome Packet.t :=
  if negb (Request.isGather (Packet.req p)) then Exited
  else obind (Packet.getSize p) (fun n =>
    if negb (n mod 8 =? 0) then Exited
    else obind (Packet.getAddr p) (fun a =>
      obind (Request.getGatherPattern (Packet.req p)) (fun patternId =>
      obind (Packet.getPtr p) (fun d =>
      match pmem m with
      | None => Exited
      | Some host =>
          obind (gatherLoop (Z.to_nat (n / 8)) patternId a (AddrRange.start (range m)) host 0 d)
            (fun d' => Done (Packet.withData (Some d') p))
      end)))).

(** ** Accesses *)

(** Both handlers first check that the packet lies in the range. *)
Definition inRange (p : Packet.t) (m : t) : outcome Z :=
  obind (Packet.getAddr p) (fun a => obind (Packet.getSize p) (fun n =>
  obind (AddrRange.isSubset (AddrRange.plain a (wrap 64 (a + n - 1))) (range m)) (fun b =>
  if b then Done (a - AddrRange.start (range m)) else Exited))).

Definition makeResponseIf (p : Packet.t) : outcome Packet.t :=
  if MemCmd.needsResponse (Packet.cmd p) then Packet.makeResponse p else Done p.

(** Little-endian bytes of a word of [n] bytes. *)
Definition bytesOf (n : nat) (x : Z) : buffer := map (fun i => Z.land (Z.shiftr x (8 * Z.of_nat i)) 255) (seq 0 n).

(** The swap branch. *)
Definition swap (p : Packet.t) (off : Z) (m : t) : outcome (Packet.t * t) :=
  match pmem m with
  | None => Exited
  | Some host =>
      obind (Packet.getPtr p) (fun overwrite_val => obind (Packet.getSize p) (fun n =>
      obind (memcpy overwrite_val 0 host off n) (fun d =>
      let p := Packet.withData (Some d) p in
      let cur k := take (Z.to_nat k) (drop (Z.to_nat off) host) in
      obind (if Request.isCondSwap (Packet.req p) then
               obind (Request.getExtraData (Packet.req p)) (fun x =>
               if n =? 8 then Done (bool_decide (bytesOf 8 x = cur 8))
               else if n =? 4 then Done (bool_decide (bytesOf 4 x = cur 4))
               else Exited)
             else Done true) (fun overwrite_mem =>
      obind (if overwrite_mem then memcpy host off overwrite_val 0 n else Done host) (fun host' =>
      if Request.isInstFetch (Packet.req p) then Exited
      else Done (p, countOther (Request.masterId (Packet.req p)) (withPmem host' m)))))))
  end.

(** The read branch. *)
Definition readData (p : Packet.t) (off : Z) (m : t) : outcome Packet.t :=
  match pmem m with
  | None => Done p
  | Some host =>
      if Request.isGather (Packet.req p) then doMemGather p m
      else Packet.setData host off p
  end.

(** The write branch. *)
Definition writeDataTo (p : Packet.t) (off : Z) (m : t) : outcome t :=
  match pmem m with
  | None => Done m
  | Some host => obind (Packet.writeDataAt host off p) (fun host' => Done (withPmem host' m))
  end.

(** [access(pkt)] *)
Definition access (p : Packet.t) (m : t) : outcome (Packet.t * t) :=
  obind (inRange p m) (fun off =>
  if Packet.memInhibitAsserted p then Done (p, m)
  else
    let id := Request.masterId (Packet.req p) in
    obind (Packet.getSize p) (fun n =>
    obind
      (if decide (Packet.cmd p = MemCmd.SwapReq) then swap p off m
       else if MemCmd.isRead (Packet.cmd p) then
         if MemCmd.isWrite (Packet.cmd p) then Exited
         else
           obind (if MemCmd.isLLSC (Packet.cmd p) then trackLoadLocked p m else Done m) (fun m =>
           obind (readData p off m) (fun p =>
           Done (p, countRead id n (Request.isInstFetch (Packet.req p)) m)))
       else if MemCmd.isInvalidate (Packet.cmd p) then Done (p, m)
       else if MemCmd.isWrite (Packet.cmd p) then
         obind (writeOK p m) (fun '(ok, p, m) =>
         if ok then
           obind (writeDataTo p off m) (fun m =>
           if Request.isInstFetch (Packet.req p) then Exited else Done (p, countWrite id n m))
         else Done (p, m))
       else Exited) (fun '(p, m) =>
    obind (makeResponseIf p) (fun p => Done (p, m))))).

(** [functionalAccess(pkt)]; printing a byte is left out. *)
Definition functionalAccess (p : Packet.t) (m : t) : outcome (Packet.t * t) :=
  obind (inRange p m) (fun off =>
  if MemCmd.isRead (Packet.cmd p) then
    obind (readData p off m) (fun p => obind (Packet.makeResponse p) (fun p => Done (p, m)))
  else if MemCmd.isWrite (Packet.cmd p) then
    obind (writeDataTo p off m) (fun m => obind (Packet.makeResponse p) (fun p => Done (p, m)))
  else if MemCmd.isPrint (Packet.cmd p) then Done (p, m)
  else Exited).

(** ** The gather address map *)

Lemma testbit_field x i : 0 <= i -> Z.testbit (FIELD_ID x) i = (i <? 3) && Z.testbit x (i + 3).
Proof.
  intros Hi. unfold FIELD_ID. change 7 with (Z.ones 3).
  rewrite Z.land_spec, testbit_ones, Z.shiftr_spec by lia. apply andb_comm.
Qed.

Lemma testbit_tuple x i : 0 <= i -> Z.testbit (TUPLE_ID x) i = (i <? 3) && Z.testbit x (i + 6).
Proof.
  intros Hi. unfold TUPLE_ID. change 7 with (Z.ones 3).
  rewrite Z.land_spec, testbit_ones, Z.shiftr_spec by lia. apply andb_comm.
Qed.

Lemma testbit_shuffle x i : 0 <= i ->
  Z.testbit (SHUFFLE x) i = xorb (Z.testbit x i) ((3 <=? i) && (i <? 6) && Z.testbit x (i + 3)).
Proof.
  intros Hi. unfold SHUFFLE. rewrite Z.lxor_spec, testbit_shiftl by lia. f_equal.
  destruct (Z.leb_spec 3 i); cbn [andb]; [|done]. rewrite testbit_tuple by lia.
  replace (i - 3 + 6) with (i + 3) by lia. f_equal. destruct (Z.ltb_spec (i - 3) 3), (Z.ltb_spec i 6); lia || done.
Qed.

Lemma testbit_pattern x p i : 0 <= i ->
  Z.testbit (PATTERN x p) i =
    xorb (Z.testbit x i) ((6 <=? i) && (i <? 9) && (Z.testbit x (i - 3) && Z.testbit p (i - 6))).
Proof.
  intros Hi. unfold PATTERN. rewrite Z.lxor_spec, testbit_shiftl by lia. f_equal.
  destruct (Z.leb_spec 6 i); cbn [andb]; [|done]. rewrite Z.land_spec, testbit_field by lia.
  replace (i - 6 + 3) with (i - 3) by lia. rewrite <- andb_assoc. f_equal.
  destruct (Z.ltb_spec (i - 6) 3), (Z.ltb_spec i 9); lia || done.
Qed.

(** The pattern selects the bits of tuple and field number that are exchanged. *)
Lemma testbit_gather p x i : 0 <= i ->
  Z.testbit (gatherAddr p x) i =
    if (3 <=? i) && (i <? 6) then (if Z.testbit p (i - 3) then Z.testbit x (i + 3) else Z.testbit x i)
    else if (6 <=? i) && (i <? 9) then (if Z.testbit p (i - 6) then Z.testbit x (i - 3) else Z.testbit x i)
    else Z.testbit x i.
Proof.
  intros Hi. unfold gatherAddr, UNSHUFFLE. rewrite testbit_shuffle by done.
  assert (i < 3 \/ 3 <= i < 6 \/ 6 <= i < 9 \/ 9 <= i) as [H|[H|[H|H]]] by lia; zbool.
  1,4: rewrite testbit_pattern, testbit_shuffle by lia; by zbool.
  - rewrite !testbit_pattern, !testbit_shuffle by lia. zbool.
    replace (i + 3 - 3) with i by lia. replace (i + 3 - 6) with (i - 3) by lia.
    destruct (Z.testbit x i), (Z.testbit x (i + 3)), (Z.testbit p (i - 3)); done.
  - rewrite testbit_pattern, !testbit_shuffle by lia. zbool. replace (i - 3 + 3) with i by lia.
    destruct (Z.testbit x i), (Z.testbit x (i - 3)), (Z.testbit p (i - 6)); done.
Qed.

Lemma gather_block p x : 0 <= x -> gatherAddr p x / 512 = x / 512 /\ gatherAddr p x mod 8 = x mod 8.
Proof.
  intros Hx. change 512 with (2 ^ 9). change 8 with (2 ^ 3).
  rewrite <- !Z.shiftr_div_pow2, <- !Z.land_ones by lia. split; bitwise i Hi.
  - rewrite testbit_gather by lia. by zbool.
  - destruct (Z.ltb_spec i 3); [|by rewrite !andb_false_r]. rewrite testbit_gather by lia. by zbool.
Qed.

Lemma gather_involutive p x : 0 <= x -> gatherAddr p (gatherAddr p x) = x.
Proof.
  intros Hx. bitwise i Hi. rewrite testbit_gather by done.
  assert (i < 3 \/ 3 <= i < 6 \/ 6 <= i < 9 \/ 9 <= i) as [H|[H|[H|H]]] by lia; zbool.
  1,4: rewrite testbit_gather by done; by zbool.
  - rewrite !testbit_gather by lia. zbool. replace (i + 3 - 6) with (i - 3) by lia. replace (i + 3 - 3) with i by lia.
    by destruct (Z.testbit p (i - 3)).
  - rewrite !testbit_gather by lia. zbool. replace (i - 3 - 3) with (i - 6) by lia. replace (i - 3 + 3) with i by lia.
    by destruct (Z.testbit p (i - 6)).
Qed.

Lemma gather_0 x : gatherAddr 0 x = x.
Proof. bitwise i Hi. rewrite testbit_gather by done. rewrite !Z.bits_0. by repeat case_match. Qed.

Lemma testbit_word y r i : y mod 8 = 0 -> 0 <= r < 8 -> 0 <= i -> Z.testbit (y + r) i = if i <? 3 then Z.testbit r i else Z.testbit y i.
Proof.
  intros Hy Hr Hi. destruct (Z.ltb_spec i 3).
  - rewrite <- (Z.mod_pow2_bits_low (y + r) 3), <- (Z.mod_pow2_bits_low r 3) by lia. f_equal. change (2 ^ 3) with 8. Z.div_mod_to_equations. lia.
  - replace i with ((i - 3) + 3) by lia. rewrite <- !Z.div_pow2_bits by lia. f_equal. change (2 ^ 3) with 8. Z.div_mod_to_equations. lia.
Qed.

(** A gather moves words: the byte in the word stays. *)
Lemma gather_word p x r : 0 <= x -> x mod 8 = 0 -> 0 <= r < 8 -> gatherAddr p (x + r) = gatherAddr p x + r.
Proof.
  intros Hx Hm Hr. destruct (gather_block p x Hx) as [_ G]. bitwise i Hi.
  rewrite testbit_gather by done. rewrite (testbit_word (gatherAddr p x)) by (done || lia). rewrite testbit_gather by done.
  assert (i < 3 \/ 3 <= i < 6 \/ 6 <= i < 9 \/ 9 <= i) as [H|[H|[H|H]]] by lia; zbool; rewrite !testbit_word by (done || lia); by zbool.
Qed.

(** C22: The address map of a gather is a permutation that is its own inverse,
    keeps every address in its 512-byte block of eight tuples and its byte in its
    word; pattern 0 is the identity and pattern 7 exchanges tuple and field
    numbers: it reads a block of eight tuples by columns. *)
Theorem gather_map p x : 0 <= x ->
  gatherAddr p (gatherAddr p x) = x /\ gatherAddr p x / 512 = x / 512 /\ gatherAddr p x mod 8 = x mod 8 /\
  gatherAddr 0 x = x /\ TUPLE_ID (gatherAddr 7 x) = FIELD_ID x /\ FIELD_ID (gatherAddr 7 x) = TUPLE_ID x.
Proof.
  intros Hx. split; [by apply gather_involutive|]. destruct (gather_block p x Hx) as [H1 H2]. split; [done|]. split; [done|].
  assert (H7 : forall i, 0 <= i < 3 -> Z.testbit 7 i = true) by (intros i Hi; change 7 with (Z.ones 3); apply Z.ones_spec_low; lia).
  split; [|split]; bitwise i Hi.
  - by rewrite gather_0.
  - rewrite testbit_tuple, testbit_field by done. destruct (Z.ltb_spec i 3); [|done]. cbn [andb].
    rewrite testbit_gather by lia. zbool. rewrite H7 by lia. f_equal. lia.
  - rewrite testbit_tuple, testbit_field by done. destruct (Z.ltb_spec i 3); [|done]. cbn [andb].
    rewrite testbit_gather by lia. zbool. rewrite H7 by lia. f_equal. lia.
Qed.

Lemma gather_map_witness : gatherAddr 7 0x1010 = 0x1080 /\ gatherAddr 7 (gatherAddr 7 0x1010) = 0x1010.
Proof. split; [reflexivity|]. apply (gather_map 7 0x1010). lia. Defined.

(** ** Reading through the map *)

(** A gather stays inside a store made of whole blocks. *)
Lemma gather_in_store p x base len : 0 <= base -> base mod 512 = 0 -> len mod 512 = 0 ->
  x mod 8 = 0 -> base <= x < base + len -> base <= gatherAddr p x /\ gatherAddr p x + 8 <= base + len.
Proof.
  intros H0 Hb Hl Hx Hr. destruct (gather_block p x) as [E1 E2]; [lia|].
  pose proof (Z.div_mod base 512) as D1. pose proof (Z.div_mod len 512) as D2.
  pose proof (Z.div_mod x 512) as D3. pose proof (Z.div_mod (gatherAddr p x) 512) as D4.
  pose proof (Z.mod_pos_bound x 512). pose proof (Z.mod_pos_bound (gatherAddr p x) 512) as B.
  assert (G8 : (gatherAddr p x) mod 512 <= 504).
  { assert (Hg : gatherAddr p x mod 8 = 0) by congruence. Z.div_mod_to_equations. lia. }
  assert (base / 512 <= x / 512 < base / 512 + len / 512) by lia. lia.
Qed.

Lemma gatherLoop_spec n : forall p x base host off d,
  0 <= base -> base mod 512 = 0 -> Z.of_nat (length host) mod 512 = 0 -> x mod 8 = 0 ->
  base <= x -> x + 8 * Z.of_nat n <= base + Z.of_nat (length host) -> base + Z.of_nat (length host) < 2 ^ 64 ->
  0 <= off -> off + 8 * Z.of_nat n <= Z.of_nat (length d) ->
  exists d', gatherLoop n p x base host off d = Done d' /\ length d' = length d /\
    forall i, d' !! i =
      let k := (Z.of_nat i - off) / 8 in
      if decide (off <= Z.of_nat i < off + 8 * Z.of_nat n)
      then host !! Z.to_nat (gatherAddr p (x + 8 * k) - base + (Z.of_nat i - off) mod 8)
      else d !! i.
Proof.
  induction n as [|n IH]; intros p x base host off d H0 Hb Hl Hx Hbx Hxe H64 Ho Hd; cbn [gatherLoop].
  { exists d. split; [done|]. split; [done|]. intros i. cbv zeta. by rewrite decide_False by lia. }
  destruct (gather_in_store p x base (Z.of_nat (length host))) as [G1 G2]; [done..|lia|].
  destruct (memcpy_spec d off host (gatherAddr p x - base) 8) as (d1 & -> & L1 & V1); [lia..|]. cbn [obind].
  assert (Ew : wrap 64 (x + 8) = x + 8) by (apply Z.mod_small; lia). rewrite Ew.
  destruct (IH p (x + 8) base host (off + 8) d1) as (d' & -> & L2 & V2); try done; try lia; [Z.div_mod_to_equations; lia|].
  exists d'. split; [done|]. split; [congruence|]. intros i. rewrite V2, V1. cbv zeta.
  destruct (decide (off + 8 <= Z.of_nat i < off + 8 + 8 * Z.of_nat n)) as [D1|D1].
  - rewrite decide_True by lia. replace (Z.of_nat i - off) with (Z.of_nat i - (off + 8) + 1 * 8) by lia.
    rewrite Z.div_add, Z.mod_add by lia.
    by replace (x + 8 * ((Z.of_nat i - (off + 8)) / 8 + 1)) with (x + 8 + 8 * ((Z.of_nat i - (off + 8)) / 8)) by lia.
  - destruct (decide (off <= Z.of_nat i < off + 8)) as [D2|D2].
    + rewrite decide_True by lia. rewrite Z.div_small, Z.mod_small by lia. f_equal. rewrite Z.mul_0_r, Z.add_0_r. lia.
    + by rewrite decide_False by lia.
Qed.

End AbstractMem.
