(* ===== verification/LLSC.v ===== *)
(** * Load-locked and store-conditional

    The list of locked addresses kept by the memory implements a map from
    hardware contexts to reserved granules; from that, over sequences of calls
    of [AbstractMemory::access], a store-conditional succeeds exactly when no
    write has broken its reservation. *)

From stdpp Require Import gmap list strings.
From Stdlib Require Import ZArith Lia.
From S2P Require Import Prelude Bits AddrRange MemCmd Request Packet AbstractMem.
Import AbstractMem.

#[local] Open Scope Z_scope.

(** ** The specification *)

(** What the memory promises about reservations: a context reserves one granule
    at a time; a store to a granule cancels every reservation of it; a
    store-conditional is a store exactly when its context holds the granule. *)
Class Reservations (R : Type) := {
  granule : Z -> Z;                            (* of an address *)
  reserved : R -> Z -> option Z;               (* the granule a context holds *)
  reserve : Z -> Z -> R -> R;                  (* context, address *)
  store : bool -> Z -> Z -> R -> bool * R;     (* conditional?, context, address *)
  res_ok : R -> Prop
}.

Class ReservationLaws (R : Type) `{Reservations R} : Prop := {
  reserve_ok c a r : res_ok r -> res_ok (reserve c a r);
  store_ok b c a r : res_ok r -> res_ok (store b c a r).2;
  reserved_reserve c a r c' : res_ok r ->
    reserved (reserve c a r) c' = if decide (c' = c) then Some (granule a) else reserved r c';
  store_result b c a r : res_ok r -> (store b c a r).1 = negb b || bool_decide (reserved r c = Some (granule a));
  reserved_store b c a r c' : res_ok r ->
    reserved (store b c a r).2 c' =
      if (store b c a r).1 && bool_decide (reserved r c' = Some (granule a)) then None else reserved r c'
}.

(** ** Atomicity, from the specification *)

Inductive memop :=
| LoadLocked (ctx addr : Z)
| StoreCond (ctx addr : Z)
| Store (addr : Z).

Section Atomic.
Context {R : Type} `{ReservationLaws R}.

Definition stepOp (r : R) (o : memop) : bool * R :=
  match o with
  | LoadLocked c g => (true, reserve c g r)
  | StoreCond c g => store true c g r
  | Store g => store false 0 g r
  end.

(** The operation, when it has succeeded, is a store to granule [g]. *)
Definition storesTo (g : Z) (o : memop) : bool := match o with LoadLocked _ _ => false | StoreCond _ a | Store a => granule a =? g end.

Definition locksAgain (c : Z) (o : memop) : bool :=
  match o with LoadLocked c' _ => c' =? c | _ => false end.

Lemma stepOp_ok r o : res_ok r -> res_ok (stepOp r o).2.
Proof. intros Hr. destruct o; [by apply reserve_ok|by apply store_ok..]. Qed.

(** One operation keeps or breaks the reservation. *)
Lemma stepOp_reserved c g r o : res_ok r -> locksAgain c o = false -> reserved r c = Some g \/ reserved r c = None ->
  reserved (stepOp r o).2 c = if (stepOp r o).1 && storesTo g o then None else reserved r c.
Proof.
  intros Hr Hl Hc. destruct o as [c' g'|c' g'|g']; cbn [stepOp snd fst locksAgain storesTo andb] in *.
  - rewrite reserved_reserve by done. apply Z.eqb_neq in Hl. by rewrite decide_False.
  - rewrite reserved_store by done. destruct (store true c' g' r).1; cbn [andb]; [|done].
    destruct (Z.eqb_spec (granule g') g) as [E|E]; destruct Hc as [Hc|Hc]; rewrite Hc; case_bool_decide; congruence.
  - rewrite reserved_store by done. destruct (store false 0 g' r).1; cbn [andb]; [|done].
    destruct (Z.eqb_spec (granule g') g) as [E|E]; destruct Hc as [Hc|Hc]; rewrite Hc; case_bool_decide; congruence.
Qed.

End Atomic.

(** ** The list of locked addresses *)

(** A context has at most one record. *)
Definition oneRecord (l : list LockedAddr) : Prop := NoDup (map l_ctx l).

Definition recordOf (l : list LockedAddr) (c : Z) : option Z :=
  l_addr <$> (snd <$> list_find (fun i => l_ctx i = c) l).

Lemma recordOf_cons i l c : recordOf (i :: l) c = if decide (l_ctx i = c) then Some (l_addr i) else recordOf l c.
Proof.
  unfold recordOf. cbn [list_find]. case_decide; [done|]. by destruct (list_find _ l) as [[]|].
Qed.

Lemma recordOf_elem l c g : oneRecord l -> recordOf l c = Some g <-> mkLocked g c ∈ l.
Proof.
  induction l as [|[a b] l IH]; intros Hl; [split; [done|by intros ?%not_elem_of_nil]|].
  unfold oneRecord in Hl. cbn [map l_ctx] in Hl. apply NoDup_cons in Hl as [Hn Hl]. rewrite recordOf_cons, elem_of_cons, <- (IH Hl). cbn [l_ctx l_addr].
  case_decide as E; [subst b|naive_solver]. split; [intros [= ->]; by left|]. intros [[= ->]|Hr]; [done|].
  exfalso. apply Hn, elem_of_map. apply (IH Hl) in Hr. by exists (mkLocked g c).
Qed.

Lemma recordOf_none l c : recordOf l c = None <-> c ∉ map l_ctx l.
Proof.
  induction l as [|i l IH]; [split; [by intros _ ?%not_elem_of_nil|done]|].
  rewrite recordOf_cons. cbn [map]. rewrite not_elem_of_cons, <- IH. case_decide; naive_solver.
Qed.

Lemma relock_spec c a l : match relock c a l with
  | Some l' => map l_ctx l' = map l_ctx l /\ c ∈ map l_ctx l /\
               forall c', recordOf l' c' = if decide (c' = c) then Some a else recordOf l c'
  | None => c ∉ map l_ctx l
  end.
Proof.
  induction l as [|i l IH]; cbn [relock]; [apply not_elem_of_nil|]. destruct (Z.eqb_spec (l_ctx i) c) as [E|Hne].
  - split; [done|]. split; [cbn [map]; rewrite E; by left|]. intros c'. rewrite !recordOf_cons. cbn [l_ctx l_addr].
    repeat case_decide; congruence.
  - destruct (relock c a l) as [l'|]; cbn [option_map].
    + destruct IH as (Em & Hc & Hr). cbn [map]. rewrite Em. split; [done|]. split; [by right|].
      intros c'. rewrite !recordOf_cons, Hr. repeat case_decide; congruence.
    + cbn [map]. rewrite not_elem_of_cons. split; [congruence|done].
Qed.

Lemma trackLocked_spec c pa l : oneRecord l -> oneRecord (trackLocked c pa l) /\
  forall c', recordOf (trackLocked c pa l) c' = if decide (c' = c) then Some (lockMask pa) else recordOf l c'.
Proof.
  intros Hl. unfold trackLocked. pose proof (relock_spec c (lockMask pa) l) as Hr.
  destruct (relock c (lockMask pa) l) as [l'|].
  - destruct Hr as (Em & _ & Hr). split; [unfold oneRecord; by rewrite Em|done].
  - split; [by apply NoDup_cons|]. intros c'. rewrite recordOf_cons. cbn [l_ctx l_addr]. repeat case_decide; congruence.
Qed.

Lemma filter_oneRecord (P : LockedAddr -> Prop) `{forall x, Decision (P x)} l : oneRecord l -> oneRecord (filter P l).
Proof.
  intros Hl. apply (sublist_NoDup _ (map l_ctx l)); [done|]. apply (fmap_sublist l_ctx).
  clear Hl. induction l as [|x l IH]; [done|]. rewrite filter_cons. case_decide; by constructor.
Qed.

Lemma checkLocked_spec b c pa l : oneRecord l -> let '(ok, l', _) := checkLocked b c pa l in
  ok = negb b || bool_decide (recordOf l c = Some (lockMask pa)) /\ oneRecord l' /\
  forall c', recordOf l' c' = if ok && bool_decide (recordOf l c' = Some (lockMask pa)) then None else recordOf l c'.
Proof.
  intros Hl. unfold checkLocked.
  assert (Eok : (if b then existsb (fun i => (l_addr i =? lockMask pa) && (l_ctx i =? c)) l else true) =
    negb b || bool_decide (recordOf l c = Some (lockMask pa))).
  { destruct b; cbn [negb orb]; [|done]. apply eq_bool_prop_intro. rewrite !Is_true_true, existsb_exists, bool_decide_eq_true.
    rewrite recordOf_elem by done. split.
    - intros ([a' c'] & Hi & He). cbn in He. apply andb_true_iff in He as [E1%Z.eqb_eq E2%Z.eqb_eq]. subst.
      by apply list_elem_of_In.
    - intros Hi. exists (mkLocked (lockMask pa) c). cbn. rewrite !Z.eqb_refl. split; [by apply list_elem_of_In|done]. }
  rewrite Eok. destruct (negb b || _) eqn:E; [|done]. split; [done|]. split; [by apply filter_oneRecord|].
  intros c'. cbn [andb]. clear E Eok. case_bool_decide as Hc.
  - apply recordOf_none. intros Hin. apply elem_of_map in Hin as ([a' c0] & -> & Hin). cbn [l_ctx] in *.
    apply list_elem_of_filter in Hin as [Hne Hin]. apply recordOf_elem in Hin; [|done]. cbn in *. congruence.
  - destruct (recordOf l c') as [g|] eqn:Eg.
    + apply recordOf_elem; [by apply filter_oneRecord|]. apply recordOf_elem in Eg; [|done].
      apply list_elem_of_filter. split; [cbn; congruence|done].
    + apply recordOf_none in Eg. apply recordOf_none. intros Hin. apply Eg.
      apply elem_of_map in Hin as (i & -> & [_ Hi]%list_elem_of_filter). apply elem_of_map. by exists i.
Qed.

(** The list of locked addresses meets the specification. *)
#[export] Instance lockList : Reservations (list LockedAddr) := {
  granule := lockMask;
  reserved := recordOf;
  reserve := trackLocked;
  store b c a l := (checkLocked b c a l).1;
  res_ok := oneRecord
}.

Lemma lockList_store b c a (l : list LockedAddr) : oneRecord l ->
  (store b c a l).1 = negb b || bool_decide (recordOf l c = Some (lockMask a)) /\ oneRecord (store b c a l).2 /\
  forall c', recordOf (store b c a l).2 c' =
    if (store b c a l).1 && bool_decide (recordOf l c' = Some (lockMask a)) then None else recordOf l c'.
Proof.
  intros Hl. pose proof (checkLocked_spec b c a l Hl) as Hs. unfold store, lockList.
  destruct (checkLocked b c a l) as [[ok l'] w]. exact Hs.
Qed.

#[export] Instance lockList_laws : ReservationLaws (list LockedAddr).
Proof.
  split; intros.
  - by apply trackLocked_spec.
  - by apply lockList_store.
  - by apply trackLocked_spec.
  - by apply lockList_store.
  - by apply lockList_store.
Qed.

(** The memory's list of locked addresses implements reservations: one per
    context, set by a load-locked, checked by a store-conditional, and cancelled
    for every context by a successful store to the granule. *)
Theorem lock_list_refines c a b (l : list LockedAddr) : oneRecord l ->
  oneRecord (trackLocked c a l) /\ oneRecord (checkLocked b c a l).1.2 /\
  (forall c', recordOf (trackLocked c a l) c' = if decide (c' = c) then Some (lockMask a) else recordOf l c') /\
  (checkLocked b c a l).1.1 = negb b || bool_decide (recordOf l c = Some (lockMask a)) /\
  forall c', recordOf (checkLocked b c a l).1.2 c' =
    if (checkLocked b c a l).1.1 && bool_decide (recordOf l c' = Some (lockMask a)) then None else recordOf l c'.
Proof.
  intros Hl. destruct (trackLocked_spec c a l Hl) as [H1 H2]. destruct (lockList_store b c a l Hl) as (H3 & H4 & H5).
  repeat (split; [assumption|]). assumption.
Qed.

Lemma lock_list_refines_witness :
  (checkLocked true 1 0x108 [mkLocked 0x100 2; mkLocked 0x100 1]).1.1 = true.
Proof.
  destruct (lock_list_refines 1 0x108 true [mkLocked 0x100 2; mkLocked 0x100 1]) as (_ & _ & _ & H & _).
  - unfold oneRecord. cbn. repeat constructor; [|apply not_elem_of_nil]. intros E%list_elem_of_singleton. discriminate E.
  - rewrite H. vm_compute. reflexivity.
Defined.

(** ** The accesses of a memory *)

(** What an access means for the reservations: a swap, a packet that another
    cache answers and a write that invalidates mean nothing. *)
Definition opOf (p : Packet.t) : option memop :=
  let pa := Request.paddr (Packet.req p) in
  let ctx := Request.contextId_ (Packet.req p) in
  if Packet.memInhibitAsserted p || bool_decide (Packet.cmd p = MemCmd.SwapReq) then None
  else if MemCmd.isRead (Packet.cmd p) then if MemCmd.isLLSC (Packet.cmd p) then Some (LoadLocked ctx pa) else None
  else if MemCmd.isInvalidate (Packet.cmd p) then None
  else if MemCmd.isLLSC (Packet.cmd p) then Some (StoreCond ctx pa) else Some (Store pa).

(** The byte at an address. *)
Definition byteAt (m : t) (x : Z) : option Z := host ← pmem m; if x <? AddrRange.start (range m) then None else host !! Z.to_nat (x - AddrRange.start (range m)).

(** The packet is for the byte. *)
Definition reaches (p : Packet.t) (x : Z) : Prop := exists a n, Packet.getAddr p = Done a /\ Packet.getSize p = Done n /\ a <= x < a + n.

(** What [access] did to the memory. *)
Record accessed (p : Packet.t) (m : t) (p' : Packet.t) (m' : t) : Prop := {
  ac_locks : lockedAddrList m' = match opOf p with Some o => (stepOp (lockedAddrList m) o).2 | None => lockedAddrList m end;
  ac_range : range m' = range m;
  ac_result : forall c a, opOf p = Some (StoreCond c a) ->
    Request.getExtraData (Packet.req p') = Done (if (stepOp (lockedAddrList m) (StoreCond c a)).1 then 1 else 0);
  ac_bytes : forall x, byteAt m' x = byteAt m x \/
    reaches p x /\ (Packet.cmd p = MemCmd.SwapReq \/ exists o, opOf p = Some o /\ (stepOp (lockedAddrList m) o).1 = true /\ forall c a, o <> LoadLocked c a) }.

Lemma memcpy_outside dest doff src soff n d i : memcpy dest doff src soff n = Done d -> ~ (doff <= Z.of_nat i < doff + n) -> d !! i = dest !! i.
Proof.
  intros Hd Hi. pose proof Hd as Hc. unfold memcpy in Hc. destruct (_ && _) eqn:E; [|done]. rewrite !andb_true_iff, !Z.leb_le in E. destruct E as ((((E1&E2)&E3)&E4)&E5).
  destruct (memcpy_spec dest doff src soff n) as (r & Hr & _ & Hv); [done..|]. rewrite Hd in Hr. injection Hr as <-. by rewrite Hv, decide_False.
Qed.

(** Only the bytes of the packet may change. *)
Lemma byteAt_copy m host p off n src soff host' a x : pmem m = Some host -> Packet.getAddr p = Done a -> Packet.getSize p = Done n -> off = a - AddrRange.start (range m) ->
  memcpy host off src soff n = Done host' -> byteAt (withPmem host' m) x = byteAt m x \/ reaches p x.
Proof.
  intros Hm Ha Hn -> Hc. destruct (decide (a <= x < a + n)) as [Hin|Hout]; [right; by exists a, n|left]. unfold byteAt. cbn [pmem range withPmem]. rewrite Hm. cbn [mbind option_bind].
  destruct (Z.ltb_spec x (AddrRange.start (range m))); [done|]. eapply memcpy_outside; [exact Hc|]. lia.
Qed.

Lemma responds_req q q' : makeResponseIf q = Done q' -> Packet.req q' = Packet.req q.
Proof.
  unfold makeResponseIf, Packet.makeResponse. destruct (MemCmd.needsResponse _); [|by intros [= <-]]. cbn [negb]. destruct (negb _); [done|]. by intros [= <-].
Qed.

Lemma writeOK_step p m ok q m' : writeOK p m = Done (ok, q, m') -> let o := if MemCmd.isLLSC (Packet.cmd p) then StoreCond (Request.contextId_ (Packet.req p)) (Request.paddr (Packet.req p)) else Store (Request.paddr (Packet.req p)) in
  ok = (stepOp (lockedAddrList m) o).1 /\ lockedAddrList m' = (stepOp (lockedAddrList m) o).2 /\ range m' = range m /\ pmem m' = pmem m /\
  Packet.cmd q = Packet.cmd p /\ Packet.getPtr q = Packet.getPtr p /\ Packet.getSize q = Packet.getSize p /\
  (MemCmd.isLLSC (Packet.cmd p) = true -> Request.getExtraData (Packet.req q) = Done (if ok then 1 else 0)).
Proof.
  unfold writeOK. set (res := fun b : bool => if MemCmd.isLLSC (Packet.cmd p) then Packet.withReq (Request.setExtraData (if b then 1 else 0) (Packet.req p)) p else p).
  assert (Hres : forall b, Packet.cmd (res b) = Packet.cmd p /\ Packet.getPtr (res b) = Packet.getPtr p /\ Packet.getSize (res b) = Packet.getSize p /\
    (MemCmd.isLLSC (Packet.cmd p) = true -> Request.getExtraData (Packet.req (res b)) = Done (if b then 1 else 0))).
  { intros b. unfold res. destruct (MemCmd.isLLSC (Packet.cmd p)); [|done]. do 3 (split; [done|]). intros _. unfold Request.getExtraData, Request.guarded, Request.setExtraData.
    cbn. unfold Flags.isSet, Flags.set. by rewrite Z.land_comm, Z.land_lor_distr_r, Z.land_diag; destruct (Z.land _ _) eqn:E. }
  destruct (lockedAddrList m) as [|i l] eqn:El.
  - intros [= <- <- <-]. rewrite El. destruct (Hres false) as (R1&R2&R3&R4). destruct (MemCmd.isLLSC (Packet.cmd p)) eqn:Ell; cbn; do 7 (split; [done|]); done.
  - intros (pa & Hpa & (ctx & Hctx & H)%obind_Done)%obind_Done. assert (pa = Request.paddr (Packet.req p)) as ->.
    { unfold Request.getPaddr, Request.guarded in Hpa. destruct (Flags.isSet _ _); [by injection Hpa|done]. }
    assert (Hsame : checkLocked (MemCmd.isLLSC (Packet.cmd p)) ctx (Request.paddr (Packet.req p)) (i :: l) =
      checkLocked (MemCmd.isLLSC (Packet.cmd p)) (if MemCmd.isLLSC (Packet.cmd p) then Request.contextId_ (Packet.req p) else 0) (Request.paddr (Packet.req p)) (i :: l)).
    { destruct (MemCmd.isLLSC (Packet.cmd p)); [|done]. cbn [andb] in Hctx. destruct (existsb _ (i :: l)) eqn:Ex.
      - unfold Request.contextId, Request.guarded in Hctx. destruct (Flags.isSet _ _); [by injection Hctx as <-|done].
      - unfold checkLocked. assert (Hn : forall c, existsb (fun j => (l_addr j =? lockMask (Request.paddr (Packet.req p))) && (l_ctx j =? c)) (i :: l) = false).
        { intros c. apply not_true_iff_false. intros (j & Hj & [E1 _]%andb_true_iff)%existsb_exists. apply not_true_iff_false in Ex. apply Ex, existsb_exists. by exists j. }
        by rewrite !Hn. }
    rewrite Hsame in H. destruct (checkLocked _ _ _ (i :: l)) as [[ok' l'] w] eqn:Ec. injection H as <- <- <-. destruct (Hres ok') as (R1&R2&R3&R4).
    destruct (MemCmd.isLLSC (Packet.cmd p)) eqn:Ell; cbn [stepOp store lockList]; rewrite Ec; cbn [fst snd]; do 7 (split; [done|]); done.
Qed.

Lemma inRange_addr p m off : inRange p m = Done off -> exists a, Packet.getAddr p = Done a /\ off = a - AddrRange.start (range m).
Proof. unfold inRange. intros (a & Ha & (n & _ & (b & _ & H)%obind_Done)%obind_Done)%obind_Done. destruct b; [|done]. injection H as <-. by exists a. Qed.

Lemma swap_accessed p off m q m' a : Packet.getAddr p = Done a -> off = a - AddrRange.start (range m) -> swap p off m = Done (q, m') ->
  lockedAddrList m' = lockedAddrList m /\ range m' = range m /\ forall x, byteAt m' x = byteAt m x \/ reaches p x.
Proof.
  intros Ha Ho. unfold swap. destruct (pmem m) as [host|] eqn:Em; [|done].
  intros (ov & _ & (n & Hn & (d & _ & (ow & _ & (host' & Hh & H)%obind_Done)%obind_Done)%obind_Done)%obind_Done)%obind_Done.
  destruct (Request.isInstFetch _); [done|]. injection H as <- <-. do 2 (split; [done|]). intros x. destruct ow; [by eapply byteAt_copy|].
  injection Hh as <-. left. unfold byteAt. cbn. by rewrite Em.
Qed.

Lemma access_accessed p m p' m' : access p m = Done (p', m') -> accessed p m p' m'.
Proof.
  unfold access. intros (off & (a & Ha & Ho)%inRange_addr & H)%obind_Done. destruct (Packet.memInhibitAsserted p) eqn:Ei.
  { injection H as <- <-. split; unfold opOf; rewrite ?Ei; [done|done|done|by left]. }
  apply obind_Done in H as (n & Hn & ([q m1] & H & (r & Hr & [= <- <-])%obind_Done)%obind_Done).
  assert (Hsame : forall m2, opOf p = None -> lockedAddrList m2 = lockedAddrList m -> range m2 = range m -> pmem m2 = pmem m -> accessed p m r m2).
  { intros m2 Hop E1 E2 E3. split; rewrite ?Hop; [done|done|done|]. intros x. left. unfold byteAt. by rewrite E2, E3. }
  destruct (decide (Packet.cmd p = MemCmd.SwapReq)) as [Ec|Ec].
  { destruct (swap_accessed p off m q m1 a Ha Ho H) as (S1&S2&S3). split; unfold opOf; rewrite ?Ei, ?bool_decide_true by done; [done|done|done|]. intros x. destruct (S3 x); [by left|right; split; [done|by left]]. }
  assert (Hop : opOf p = if MemCmd.isRead (Packet.cmd p) then if MemCmd.isLLSC (Packet.cmd p) then Some (LoadLocked (Request.contextId_ (Packet.req p)) (Request.paddr (Packet.req p))) else None
    else if MemCmd.isInvalidate (Packet.cmd p) then None
    else Some (if MemCmd.isLLSC (Packet.cmd p) then StoreCond (Request.contextId_ (Packet.req p)) (Request.paddr (Packet.req p)) else Store (Request.paddr (Packet.req p)))).
  { unfold opOf. rewrite Ei, bool_decide_false by done. cbn [orb]. repeat (case_match; try done). }
  destruct (MemCmd.isRead (Packet.cmd p)).
  - destruct (MemCmd.isWrite (Packet.cmd p)); [done|]. apply obind_Done in H as (m2 & Hm2 & (q2 & _ & [= <- <-])%obind_Done).
    destruct (MemCmd.isLLSC (Packet.cmd p)); [|injection Hm2 as <-; by apply Hsame].
    unfold trackLoadLocked in Hm2. apply obind_Done in Hm2 as (pa & Hpa & (ctx & Hctx & [= <-])%obind_Done). unfold Request.getPaddr, Request.contextId, Request.guarded in *.
    destruct (Flags.isSet _ _) in Hpa; [|done]. destruct (Flags.isSet _ _) in Hctx; [|done]. injection Hpa as <-. injection Hctx as <-. split; rewrite ?Hop; [done|done|done|by left].
  - destruct (MemCmd.isInvalidate (Packet.cmd p)); [injection H as <- <-; by apply Hsame|]. destruct (MemCmd.isWrite (Packet.cmd p)); [|done].
    apply obind_Done in H as ([[ok q2] m2] & Hw & H). apply writeOK_step in Hw as (W1&W2&W3&W4&W5&W6&W7&W8).
    set (o := if MemCmd.isLLSC (Packet.cmd p) then StoreCond _ _ else Store _) in *.
    assert (Hm1 : q = q2 /\ lockedAddrList m1 = lockedAddrList m2 /\ range m1 = range m2 /\ forall x, byteAt m1 x = byteAt m2 x \/ reaches p x /\ ok = true).
    { destruct ok; [|injection H as <- <-; by auto]. apply obind_Done in H as (m3 & Hm3 & H). destruct (Request.isInstFetch _); [done|]. injection H as <- <-. unfold writeDataTo in Hm3.
      destruct (pmem m2) as [host|] eqn:Em; [|injection Hm3 as <-; auto]. apply obind_Done in Hm3 as (host' & Hh & [= <-]). do 3 (split; [done|]). intros x.
      unfold Packet.writeDataAt in Hh. apply obind_Done in Hh as (d & _ & (n2 & Hn2 & Hh)%obind_Done). rewrite W7 in Hn2.
      destruct (byteAt_copy m2 host p off n2 d 0 host' a x) as [E|E]; [done|done|done|by rewrite W3|done|left; exact E|right; split; [exact E|done]]. }
    destruct Hm1 as (->&M1&M2&M3). split; rewrite ?Hop.
    + by rewrite M1, W2.
    + by rewrite M2, W3.
    + intros c a0 E. rewrite (responds_req _ _ Hr). injection E as E. rewrite <- E, <- W1. apply W8. unfold o in E. by destruct (MemCmd.isLLSC (Packet.cmd p)).
    + intros x. assert (Hb : byteAt m2 x = byteAt m x) by (unfold byteAt; by rewrite W3, W4). rewrite <- Hb. destruct (M3 x) as [E|[E1 E2]]; [by left|right]. split; [done|]. right.
      exists o. split; [done|]. split; [congruence|]. intros c a0. unfold o. by destruct (MemCmd.isLLSC (Packet.cmd p)).
Qed.

(** ** Sequences of accesses *)

Fixpoint accesses (ps : list Packet.t) (m : t) : outcome (list Packet.t * t) :=
  match ps with
  | [] => Done ([], m)
  | p :: ps => obind (access p m) (fun '(r, m) => obind (accesses ps m) (fun '(rs, m) => Done (r :: rs, m)))
  end.

(** The packet, with its response, is a write that was done and starts in granule [g]. *)
Definition breaks (g : Z) (e : Packet.t * Packet.t) : bool :=
  match opOf e.1 with
  | Some (Store a) => lockMask a =? g
  | Some (StoreCond _ a) => (lockMask a =? g) && match Request.getExtraData (Packet.req e.2) with Done v => v =? 1 | _ => false end
  | _ => false
  end.

(** The packet is no swap, and as a write it stays in the granule where it starts. *)
Definition confined (p : Packet.t) : Prop := Packet.cmd p <> MemCmd.SwapReq /\
  forall o, opOf p = Some o -> (forall c a, o <> LoadLocked c a) -> forall x, reaches p x -> lockMask x = lockMask (Request.paddr (Packet.req p)).

Lemma breaks_storesTo g p m p' m' : accessed p m p' m' ->
  breaks g (p, p') = match opOf p with Some o => (stepOp (lockedAddrList m) o).1 && storesTo g o | None => false end.
Proof.
  intros [_ _ Hr _]. unfold breaks. cbn [fst snd]. destruct (opOf p) as [[c a|c a|a]|] eqn:E; [done| |done|done]. rewrite (Hr c a eq_refl). cbn [storesTo granule lockList].
  rewrite andb_comm. by destruct (stepOp (lockedAddrList m) (StoreCond c a)).1.
Qed.

Lemma accessed_ok p m p' m' : accessed p m p' m' -> oneRecord (lockedAddrList m) -> oneRecord (lockedAddrList m').
Proof. intros [-> _ _ _] Hm. destruct (opOf p) as [o|]; [exact (stepOp_ok (lockedAddrList m) o Hm)|done]. Qed.

Lemma accesses_ok ps : forall m rs m', accesses ps m = Done (rs, m') -> oneRecord (lockedAddrList m) -> oneRecord (lockedAddrList m').
Proof.
  induction ps as [|p ps IH]; intros m rs m'; cbn [accesses]; [by intros [= <- <-]|].
  intros ([r m1] & Ha%access_accessed & ([rs1 m2] & Hs & [= <- <-])%obind_Done)%obind_Done Hm. eapply IH; [done|]. by eapply accessed_ok.
Qed.

(** A sequence of accesses without a load-locked of [c] keeps its reservation or breaks it. *)
Lemma accesses_reserved c g ps : forall m rs m', accesses ps m = Done (rs, m') -> oneRecord (lockedAddrList m) ->
  (forall p b, p ∈ ps -> opOf p <> Some (LoadLocked c b)) -> recordOf (lockedAddrList m) c = Some g \/ recordOf (lockedAddrList m) c = None ->
  recordOf (lockedAddrList m') c = if existsb (breaks g) (zip ps rs) then None else recordOf (lockedAddrList m) c.
Proof.
  induction ps as [|p ps IH]; intros m rs m'; cbn [accesses]; [by intros [= <- <-]|].
  intros ([r m1] & Ha%access_accessed & ([rs1 m2] & Hs & [= <- <-])%obind_Done)%obind_Done Hm Hl Hc. cbn [zip zip_with existsb]. rewrite (breaks_storesTo g p m r m1 Ha).
  assert (H1 : recordOf (lockedAddrList m1) c = if match opOf p with Some o => (stepOp (lockedAddrList m) o).1 && storesTo g o | None => false end then None else recordOf (lockedAddrList m) c).
  { rewrite (ac_locks _ _ _ _ Ha). destruct (opOf p) as [o|] eqn:Eo; [|done]. refine (stepOp_reserved c g (lockedAddrList m) o Hm _ Hc).
    destruct o as [c' b|c' b|b]; [|done|done]. cbn. apply Z.eqb_neq. intros ->. by apply (Hl p b); [left|]. }
  rewrite (IH m1 rs1 m2 Hs); [|by eapply accessed_ok|intros q b Hq; apply Hl; by right|rewrite H1; case_match; auto].
  rewrite H1. case_match; cbn [orb]; [by destruct (existsb _ _)|done].
Qed.

(** While the reservation holds, the bytes of the granule do not change. *)
Lemma accesses_bytes g ps x : lockMask x = g -> forall m rs m', accesses ps m = Done (rs, m') -> Forall confined ps ->
  existsb (breaks g) (zip ps rs) = false -> byteAt m' x = byteAt m x.
Proof.
  intros Hx. induction ps as [|p ps IH]; intros m rs m'; cbn [accesses]; [by intros [= <- <-]|].
  intros ([r m1] & Ha%access_accessed & ([rs1 m2] & Hs & [= <- <-])%obind_Done)%obind_Done [[Hns Hcf] Hps]%Forall_cons. cbn [zip zip_with existsb].
  intros [Hb Hbs]%orb_false_iff. rewrite (IH m1 rs1 m2) by done. destruct (ac_bytes _ _ _ _ Ha x) as [E|[Hre [E|(o&Eo&Eok&Hnl)]]]; [done|done|exfalso].
  rewrite (breaks_storesTo g p m r m1 Ha), Eo, Eok in Hb. pose proof (Hcf o Eo Hnl x Hre) as Hlx. unfold opOf in Eo.
  destruct (_ || _); [done|]. destruct (MemCmd.isRead _); [destruct (MemCmd.isLLSC _); [|done]; injection Eo as <-; by destruct (Hnl (Request.contextId_ (Packet.req p)) (Request.paddr (Packet.req p)))|].
  destruct (MemCmd.isInvalidate _); [done|]. destruct (MemCmd.isLLSC _); injection Eo as <-; cbn in Hb; apply Z.eqb_neq in Hb; congruence.
Qed.

(** C25: Load-locked and store-conditional through [access].  In a memory that
    started without reservations, a store-conditional of context [c], to the
    16-byte granule of the last load-locked of [c], reports success exactly
    when none of the accesses in between was a write that was done (plain, or
    a store-conditional that reported success) and starts in that granule; a
    store-conditional that fails changes no byte.  If the accesses in between
    are no swaps and their writes stay in the granule where they start,
    success means that no byte of the granule has changed since the load:
    swaps, and the part of a write beyond its first granule, break no
    reservation in this code. *)
Theorem llsc_atomic m pre rs0 m0 ll c a ll' m1 ps rs m2 sc a' sc' m3 : lockedAddrList m = [] -> accesses pre m = Done (rs0, m0) ->
  opOf ll = Some (LoadLocked c a) -> access ll m0 = Done (ll', m1) ->
  (forall p b, p ∈ ps -> opOf p <> Some (LoadLocked c b)) -> accesses ps m1 = Done (rs, m2) ->
  opOf sc = Some (StoreCond c a') -> lockMask a' = lockMask a -> access sc m2 = Done (sc', m3) ->
  let broken := existsb (breaks (lockMask a)) (zip ps rs) in
  Request.getExtraData (Packet.req sc') = Done (if broken then 0 else 1) /\
  (broken = true -> forall x, byteAt m3 x = byteAt m2 x) /\
  (broken = false -> Forall confined ps -> forall x, lockMask x = lockMask a -> byteAt m2 x = byteAt m1 x).
Proof.
  intros Hm Hpre Hll Ha%access_accessed Hps Has Hsc Ea Hs%access_accessed broken.
  assert (H0 : oneRecord (lockedAddrList m0)) by (eapply accesses_ok; [done|]; rewrite Hm; constructor).
  assert (H1 : recordOf (lockedAddrList m1) c = Some (lockMask a)).
  { rewrite (ac_locks _ _ _ _ Ha), Hll. cbn [stepOp snd]. destruct (trackLocked_spec c a (lockedAddrList m0) H0) as [_ Ht]. unfold reserve, lockList. by rewrite Ht, decide_True. }
  assert (Hok1 : oneRecord (lockedAddrList m1)) by by eapply accessed_ok. assert (Hok2 : oneRecord (lockedAddrList m2)) by by eapply accesses_ok.
  pose proof (accesses_reserved c (lockMask a) ps m1 rs m2 Has Hok1 Hps ltac:(by left)) as H2. fold broken in H2. rewrite H1 in H2.
  assert (Hres : (stepOp (lockedAddrList m2) (StoreCond c a')).1 = negb broken).
  { cbn [stepOp]. destruct (lockList_store true c a' (lockedAddrList m2) Hok2) as [-> _]. cbn [negb orb]. rewrite H2, Ea. destruct broken; [by rewrite bool_decide_false|by rewrite bool_decide_true]. }
  split; [|split].
  - rewrite (ac_result _ _ _ _ Hs c a' Hsc), Hres. by destruct broken.
  - intros Hb x. destruct (ac_bytes _ _ _ _ Hs x) as [E|[_ [E|(o&Eo&Eok&_)]]]; [done|by unfold opOf in Hsc; rewrite E, bool_decide_true, orb_true_r in Hsc by done|].
    rewrite Hsc in Eo. injection Eo as <-. rewrite Hres, Hb in Eok. done.
  - intros Hb Hcf x Hx. eapply accesses_bytes; [exact Hx|exact Has|done|exact Hb].
Qed.

(** ** Contexts on one memory *)

Definition lockMem : t := mk (AddrRange.plain 0x100 0x1ff) (Some (replicate 256 0)) [] ∅ ∅ ∅ ∅ ∅ ∅ [].
Definition from (ctx : Z) (c : MemCmd.Command) (a : Z) (d : buffer) : Packet.t :=
  Packet.withData (Some d) (Packet.setFlag Packet.DYNAMIC_DATA (Packet.new (Request.setThreadContext ctx 0 (Request.physical a (Z.of_nat (length d)) 0 0 0)) c)).
Definition after (ps : list Packet.t) : t := match accesses ps lockMem with Done (_, m) => m | _ => lockMem end.
Definition answers (ps : list Packet.t) : list Packet.t := match accesses ps lockMem with Done (rs, _) => rs | _ => [] end.

(** Another context reserves the granule too and writes elsewhere. *)
Definition quietRun : list Packet.t := [from 2 MemCmd.LoadLockedReq 0x124 [0; 0]; from 3 MemCmd.WriteReq 0x140 [5; 6]].

Lemma llsc_atomic_witness : exists sc' m3, access (from 1 MemCmd.StoreCondReq 0x12c [7; 8]) (after (from 1 MemCmd.LoadLockedReq 0x120 [0; 0] :: quietRun)) = Done (sc', m3) /\
  Request.getExtraData (Packet.req sc') = Done 1.
Proof.
  destruct (access (from 1 MemCmd.StoreCondReq 0x12c [7; 8]) (after (from 1 MemCmd.LoadLockedReq 0x120 [0; 0] :: quietRun))) as [[sc' m3]| |] eqn:E; [|vm_compute in E; discriminate E..].
  destruct (access (from 1 MemCmd.LoadLockedReq 0x120 [0; 0]) lockMem) as [[ll' m1]| |] eqn:E1; [|vm_compute in E1; discriminate E1..].
  destruct (accesses quietRun m1) as [[rs m2]| |] eqn:E2; [|vm_compute in E1; injection E1 as _ <-; vm_compute in E2; discriminate E2..].
  assert (Em : after (from 1 MemCmd.LoadLockedReq 0x120 [0; 0] :: quietRun) = m2) by (unfold after; cbn [accesses]; rewrite E1; cbn [obind]; rewrite E2; reflexivity).
  rewrite Em in E. exists sc', m3. split; [reflexivity|].
  destruct (llsc_atomic lockMem [] [] lockMem (from 1 MemCmd.LoadLockedReq 0x120 [0; 0]) 1 0x120 ll' m1 quietRun rs m2 (from 1 MemCmd.StoreCondReq 0x12c [7; 8]) 0x12c sc' m3) as (H & _); try reflexivity; try done.
  - intros p b [->|[->|Hp%elem_of_nil]%elem_of_cons]%elem_of_cons; vm_compute; [discriminate|discriminate|done].
  - rewrite H. vm_compute in E1. injection E1 as _ <-. vm_compute in E2. injection E2 as <- _. vm_compute. reflexivity.
Defined.

(** The results of the store-conditionals among the responses. *)
Definition results (ps : list Packet.t) : list (outcome Z) := (fun r => Request.getExtraData (Packet.req r)) <$> answers ps.

(** Finding: a swap of another context writes the reserved word, and the
    store-conditional still succeeds. *)
Theorem swap_keeps_reservation :
  byteAt (after [from 1 MemCmd.LoadLockedReq 0x120 [0; 0]; from 2 MemCmd.SwapReq 0x120 [9; 9]]) 0x120 = Some 9 /\
  last (results [from 1 MemCmd.LoadLockedReq 0x120 [0; 0]; from 2 MemCmd.SwapReq 0x120 [9; 9]; from 1 MemCmd.StoreCondReq 0x120 [7; 8]]) = Some (Done 1).
Proof. split; vm_compute; reflexivity. Qed.

(** Finding: so does a write that starts in the granule before. *)
Theorem wide_write_keeps_reservation :
  byteAt (after [from 1 MemCmd.LoadLockedReq 0x120 [0; 0]; from 2 MemCmd.WriteReq 0x110 (replicate 32 9)]) 0x120 = Some 9 /\
  last (results [from 1 MemCmd.LoadLockedReq 0x120 [0; 0]; from 2 MemCmd.WriteReq 0x110 (replicate 32 9); from 1 MemCmd.StoreCondReq 0x120 [7; 8]]) = Some (Done 1).
Proof. split; vm_compute; reflexivity. Qed.
