(* ===== verification/MemoryCorrect.v ===== *)
(** * What an access to the memory does

    [AbstractMemory::access] and [functionalAccess] against the bytes of the
    backing store. *)

From stdpp Require Import gmap list strings.
From Stdlib Require Import ZArith Lia.
From S2P Require Import Prelude Bits AddrRange MemCmd Request Packet AbstractMem.
Import AbstractMem.

#[local] Open Scope Z_scope.

(** A memory that is not interleaved, with a store of the size of its range. *)
Record wfMem (m : t) (s : Z) (host : buffer) : Prop := {
  wm_store : pmem m = Some host;
  wm_range : range m = AddrRange.plain s (s + Z.of_nat (length host) - 1);
  wm_bounds : 0 <= s /\ s + Z.of_nat (length host) < 2 ^ 64
}.

(** A packet for the bytes [a .. a + length d) of that memory, with buffer [d]. *)
Record onMem (p : Packet.t) (a : Z) (d : buffer) (s : Z) (host : buffer) : Prop := {
  om_addr : Packet.getAddr p = Done a;
  om_size : Packet.getSize p = Done (Z.of_nat (length d));
  om_data : Packet.getPtr p = Done d;
  om_pos : (0 < length d)%nat;
  om_in : s <= a /\ a + Z.of_nat (length d) <= s + Z.of_nat (length host);
  om_live : Packet.memInhibitAsserted p = false
}.

(** The bytes of the store at address [a]. *)
Definition bytesAt (s : Z) (host : buffer) (a : Z) (n : nat) : buffer :=
  take n (drop (Z.to_nat (a - s)) host).

Section Access.
Context (m : t) (s : Z) (host : buffer) (Hm : wfMem m s host).
Context (p : Packet.t) (a : Z) (d : buffer) (Hp : onMem p a d s host).

Lemma inRange_done : inRange p m = Done (a - s).
Proof.
  destruct Hm as [_ Hr Hb], Hp as [Ha Hs _ Hpos Hin _]. unfold inRange. rewrite Ha, Hs. cbn [obind].
  rewrite Hr. unfold wrap. rewrite Z.mod_small by lia. unfold AddrRange.isSubset, AddrRange.interleaved, AddrRange.plain, nonzero. cbn.
  rewrite !(proj2 (Z.leb_le _ _)) by lia. done.
Qed.

Lemma memcpy_bytes (dst src : buffer) off : 0 <= off -> off + Z.of_nat (length dst) <= Z.of_nat (length src) ->
  memcpy dst 0 src off (Z.of_nat (length dst)) = Done (take (length dst) (drop (Z.to_nat off) src)).
Proof.
  intros H1 H2. unfold memcpy. rewrite !(proj2 (Z.leb_le _ _)) by lia. cbn [andb]. f_equal.
  rewrite Nat2Z.id, Z.add_0_l, Nat2Z.id, drop_all. by rewrite app_nil_r.
Qed.

Lemma getPtr_withData d' : Packet.getPtr (Packet.withData (Some d') p) = Done d'.
Proof.
  destruct Hp as [_ _ Hd _ _ _]. unfold Packet.getPtr in *. unfold Packet.hasBuffer in *.
  cbn [Packet.withData Packet.flags Packet.data] in *. by destruct (Flags.isSet _ _).
Qed.

Lemma setData_host : exists p', Packet.setData host (a - s) p = Done p' /\ p' = Packet.withData (Some (bytesAt s host a (length d))) p.
Proof.
  destruct Hm as [_ _ Hb], Hp as [_ Hs Hd _ Hin _]. unfold Packet.setData. rewrite Hd, Hs. cbn [obind].
  rewrite memcpy_bytes by lia. cbn [obind]. by eexists.
Qed.

(** A response has the data of the packet it answers. *)
Lemma response_ptr q d' : Packet.getPtr q = Done d' -> MemCmd.needsResponse (Packet.cmd q) = true ->
  exists q', Packet.makeResponse q = Done q' /\ Packet.getPtr q' = Done d' /\
    Packet.cmd q' = MemCmd.responseCommand (Packet.cmd q).
Proof.
  intros Hd Hn. unfold Packet.makeResponse. rewrite Hn, (MemCmd.memcmd_requests _ Hn). cbn [negb].
  eexists. split; [done|]. split; [|done].
  assert (E : forall f, Flags.isSet (Flags.clear 32 f Packet.EXPRESS_SNOOP) (Z.lor Packet.STATIC_DATA Packet.DYNAMIC_DATA) =
    Flags.isSet f (Z.lor Packet.STATIC_DATA Packet.DYNAMIC_DATA)).
  { intros f. unfold Flags.isSet, Flags.clear. by rewrite <- Z.land_assoc. }
  unfold Packet.getPtr, Packet.hasBuffer in *. cbn [Packet.clearFlag Packet.flags Packet.data]. by rewrite E.
Qed.

(** ** Reads *)

Definition isPlainRead : Prop :=
  Packet.cmd p <> MemCmd.SwapReq /\ MemCmd.isRead (Packet.cmd p) = true /\ MemCmd.isWrite (Packet.cmd p) = false /\
  MemCmd.isLLSC (Packet.cmd p) = false /\ MemCmd.needsResponse (Packet.cmd p) = true.

(** Reading through [readData] whatever the data comes from. *)
Lemma access_read d' : isPlainRead -> readData p (a - s) m = Done (Packet.withData (Some d') p) ->
  exists p' m', access p m = Done (p', m') /\ Packet.getPtr p' = Done d' /\
    Packet.cmd p' = MemCmd.responseCommand (Packet.cmd p) /\ pmem m' = pmem m /\ range m' = range m /\
    lockedAddrList m' = lockedAddrList m.
Proof.
  intros (Hsw & Hr & Hw & Hl & Hn) Hd. unfold access. rewrite inRange_done. cbn [obind].
  rewrite (om_live _ _ _ _ _ Hp), (om_size _ _ _ _ _ Hp). cbn [obind].
  rewrite decide_False, Hr, Hw, Hl by done. cbn [obind]. rewrite Hd. cbn [obind].
  destruct (response_ptr (Packet.withData (Some d') p) d') as (q & Hq & Hg & Hc); [apply getPtr_withData|done|].
  unfold makeResponseIf. change (Packet.cmd (Packet.withData (Some d') p)) with (Packet.cmd p) in *. rewrite Hn, Hq.
  cbn [obind]. eexists _, _. split; [done|]. done.
Qed.

Lemma readData_plain : Request.isGather (Packet.req p) = false ->
  readData p (a - s) m = Done (Packet.withData (Some (bytesAt s host a (length d))) p).
Proof.
  intros Hg. unfold readData. rewrite (wm_store _ _ _ Hm), Hg. destruct setData_host as (q & -> & ->). done.
Qed.

(** ** Writes *)

Lemma writeOK_plain pa : MemCmd.isLLSC (Packet.cmd p) = false -> Request.getPaddr (Packet.req p) = Done pa ->
  exists m', writeOK p m = Done (true, p, m') /\ pmem m' = pmem m /\ range m' = range m.
Proof.
  intros Hl Hpa. unfold writeOK. rewrite Hl. destruct (lockedAddrList m); [by exists m|]. rewrite Hpa. cbn [obind andb].
  unfold checkLocked. by eexists.
Qed.

Lemma access_write pa : Packet.cmd p = MemCmd.WriteReq -> Request.isInstFetch (Packet.req p) = false ->
  Request.getPaddr (Packet.req p) = Done pa ->
  exists p' m' host', access p m = Done (p', m') /\ Packet.cmd p' = MemCmd.WriteResp /\ wfMem m' s host' /\
    length host' = length host /\
    forall i, host' !! i = if decide (a - s <= Z.of_nat i < a - s + Z.of_nat (length d))
                           then d !! Z.to_nat (Z.of_nat i - (a - s)) else host !! i.
Proof.
  intros Hc Hf Hpa. unfold access. rewrite inRange_done. cbn [obind].
  rewrite (om_live _ _ _ _ _ Hp), (om_size _ _ _ _ _ Hp). cbn [obind]. rewrite decide_False by (rewrite Hc; done).
  replace (MemCmd.isRead (Packet.cmd p)) with false by by rewrite Hc.
  replace (MemCmd.isInvalidate (Packet.cmd p)) with false by by rewrite Hc.
  replace (MemCmd.isWrite (Packet.cmd p)) with true by by rewrite Hc.
  destruct (writeOK_plain pa) as (m1 & -> & E1 & E2); [by rewrite Hc|done|]. cbn [obind].
  unfold writeDataTo. rewrite E1, (wm_store _ _ _ Hm). unfold Packet.writeDataAt.
  rewrite (om_data _ _ _ _ _ Hp), (om_size _ _ _ _ _ Hp). cbn [obind].
  pose proof (om_in _ _ _ _ _ Hp) as Hin. pose proof (wm_bounds _ _ _ Hm) as Hb.
  destruct (memcpy_spec host (a - s) d 0 (Z.of_nat (length d))) as (host' & -> & Hlen & Hv); [lia..|]. cbn [obind].
  rewrite Hf. cbn [obind]. unfold makeResponseIf. replace (MemCmd.needsResponse (Packet.cmd p)) with true by by rewrite Hc.
  destruct (response_ptr p d) as (q & Hq & _ & Hqc); [apply Hp|by rewrite Hc|]. rewrite Hq. cbn [obind].
  eexists _, _, host'. split; [done|]. split; [by rewrite Hqc, Hc|]. split; [|split; [done|]].
  - split; cbn; [done|by rewrite E2, (wm_range _ _ _ Hm), Hlen|lia].
  - intros i. rewrite Hv. by rewrite Z.add_0_r.
Qed.

End Access.

Lemma bytesAt_lookup s host a n i : (i < n)%nat -> s <= a ->
  bytesAt s host a n !! i = host !! Z.to_nat (a + Z.of_nat i - s).
Proof. intros Hi Ha. unfold bytesAt. rewrite lookup_take_lt, lookup_drop by done. f_equal. lia. Qed.

(** C23: Memory holds what is written to it.  After a write access to any bytes of
    the memory, whatever reservations there are, a read access to any bytes of
    it is answered with the written bytes where the two overlap and with the old
    contents elsewhere. *)
Theorem memory_roundtrip m s host p a d pa q b e : wfMem m s host ->
  onMem p a d s host -> Packet.cmd p = MemCmd.WriteReq -> Request.isInstFetch (Packet.req p) = false ->
  Request.getPaddr (Packet.req p) = Done pa ->
  onMem q b e s host -> Packet.cmd q = MemCmd.ReadReq -> Request.isGather (Packet.req q) = false ->
  exists p' m' q' m'' r, access p m = Done (p', m') /\ Packet.cmd p' = MemCmd.WriteResp /\
    access q m' = Done (q', m'') /\ Packet.cmd q' = MemCmd.ReadResp /\
    Packet.getPtr q' = Done r /\ length r = length e /\
    forall i, (i < length e)%nat -> r !! i =
      let x := b + Z.of_nat i in
      if decide (a <= x < a + Z.of_nat (length d)) then d !! Z.to_nat (x - a) else host !! Z.to_nat (x - s).
Proof.
  intros Hm Hp Hc Hf Hpa Hq Hqc Hqg.
  destruct (access_write m s host Hm p a d Hp pa Hc Hf Hpa) as (p' & m' & host' & Ha & Hpc & Hm' & Hlen & Hv).
  assert (Hq' : onMem q b e s host') by (destruct Hq as [? ? ? ? Hin ?]; split; rewrite ?Hlen; done).
  assert (Hpr : isPlainRead q) by (unfold isPlainRead; rewrite Hqc; done).
  destruct (access_read m' s host' Hm' q b e Hq' _ Hpr (readData_plain m' s host' Hm' q b e Hq' Hqg))
    as (q' & m'' & Hb & Hg & Hcc & _). rewrite Hqc in Hcc.
  exists p', m', q', m'', (bytesAt s host' b (length e)).
  pose proof (om_in _ _ _ _ _ Hq) as Hqi. pose proof (om_in _ _ _ _ _ Hp) as Hpi. pose proof (wm_bounds _ _ _ Hm) as Hbd.
  repeat (split; [done|]). split.
  { unfold bytesAt. rewrite length_take, length_drop. lia. }
  intros i Hi. rewrite bytesAt_lookup, Hv by (done || lia). cbv zeta.
  repeat case_decide; try lia; [|done]. f_equal. lia.
Qed.

(** C24: A gather read is answered with the words of the memory at the gathered
    addresses: byte [i] of the answer is byte [i mod 8] of the word that the
    pattern puts in place of word [i / 8], and on a memory made of whole 512-byte
    blocks no address outside the memory is touched. *)
Theorem memory_gather m s host p a d pat : wfMem m s host -> onMem p a d s host ->
  s mod 512 = 0 -> Z.of_nat (length host) mod 512 = 0 ->
  a mod 8 = 0 -> Z.of_nat (length d) mod 8 = 0 ->
  Packet.cmd p = MemCmd.ReadReq -> Request.isGather (Packet.req p) = true ->
  Request.getGatherPattern (Packet.req p) = Done pat ->
  exists p' m' r, access p m = Done (p', m') /\ Packet.cmd p' = MemCmd.ReadResp /\ pmem m' = Some host /\
    Packet.getPtr p' = Done r /\ length r = length d /\
    forall i, (i < length d)%nat ->
      let g := gatherAddr pat (a + 8 * (Z.of_nat i / 8)) in
      r !! i = host !! Z.to_nat (g - s + Z.of_nat i mod 8) /\ s <= g /\ g + 8 <= s + Z.of_nat (length host).
Proof.
  intros Hm Hp Hs5 Hl5 Ha8 Hd8 Hc Hg Hpat.
  pose proof (om_in _ _ _ _ _ Hp) as Hin. pose proof (wm_bounds _ _ _ Hm) as Hbd.
  assert (En : 8 * (Z.of_nat (length d) / 8) = Z.of_nat (length d)) by (pose proof (Z.div_mod (Z.of_nat (length d)) 8); lia).
  assert (Hpos : 0 <= Z.of_nat (length d) / 8) by (apply Z.div_pos; lia).
  destruct (gatherLoop_spec (Z.to_nat (Z.of_nat (length d) / 8)) pat a s host 0 d) as (r & Hr & Hlen & Hv); try done; [lia..|].
  assert (Hrd : readData p (a - s) m = Done (Packet.withData (Some r) p)).
  { unfold readData. rewrite (wm_store _ _ _ Hm), Hg. unfold doMemGather. rewrite Hg, (om_size _ _ _ _ _ Hp). cbn [negb obind].
    rewrite Hd8. cbn [Z.eqb negb]. rewrite (om_addr _ _ _ _ _ Hp), Hpat, (om_data _ _ _ _ _ Hp), (wm_store _ _ _ Hm). cbn [obind].
    rewrite (wm_range _ _ _ Hm). cbn [AddrRange.plain AddrRange.start]. by rewrite Hr. }
  assert (Hpr : isPlainRead p) by (unfold isPlainRead; rewrite Hc; done).
  destruct (access_read m s host Hm p a d Hp r Hpr Hrd) as (p' & m' & Hacc & Hgp & Hcc & Hpm & _).
  exists p', m', r. rewrite Hc in Hcc. rewrite (wm_store _ _ _ Hm) in Hpm. repeat (split; [done|]).
  intros i Hi. rewrite Hv. cbv zeta. rewrite Z.sub_0_r, decide_True by lia. split; [done|].
  assert (Z.of_nat i / 8 < Z.of_nat (length d) / 8) by (apply Z.div_lt_upper_bound; lia).
  assert (0 <= Z.of_nat i / 8) by (apply Z.div_pos; lia).
  apply gather_in_store; [lia|done|done| |lia]. rewrite Z.mul_comm, Z.mod_add by lia. done.
Qed.

(** ** A block of eight tuples *)

(** Word [f] of tuple [t] holds [16 * t + f]. *)
Definition tupleBlock : buffer :=
  concat (map (fun t => concat (map (fun f => Z.of_nat (16 * t + f) :: replicate 7 0) (seq 0 8))) (seq 0 8)).
Definition tupleMem : t := mk (AddrRange.plain 0x1000 0x11ff) (Some tupleBlock) [] ∅ ∅ ∅ ∅ ∅ ∅ [].

Definition gatherPacket (va : Z) (d : buffer) : Packet.t :=
  Packet.withData (Some d) (Packet.setFlag Packet.DYNAMIC_DATA
    (Packet.createRead (Request.setPaddr 0x1000
      (Request.virtual 0 0 va (Z.of_nat (length d)) Request.GATHER 0 0 0 0)))).

Lemma tupleMem_wf : wfMem tupleMem 0x1000 tupleBlock.
Proof. split; [reflexivity|reflexivity|]. vm_compute. split; [discriminate|reflexivity]. Qed.

(** Pattern 7 gathers field 0 of the eight tuples. *)
Lemma memory_gather_witness : exists p' m' r,
  access (gatherPacket 0x1007 (replicate 64 0)) tupleMem = Done (p', m') /\ Packet.getPtr p' = Done r /\
  r !! 8%nat = Some 16 /\ r !! 56%nat = Some 112.
Proof.
  destruct (memory_gather tupleMem 0x1000 tupleBlock (gatherPacket 0x1007 (replicate 64 0)) 0x1000 (replicate 64 0) 7)
    as (p' & m' & r & Ha & _ & _ & Hg & _ & Hr); try reflexivity.
  - exact tupleMem_wf.
  - split; try reflexivity; [apply Nat.ltb_lt; reflexivity|]. vm_compute. split; discriminate.
  - exists p', m', r. split; [exact Ha|]. split; [exact Hg|]. split.
    + destruct (Hr 8%nat) as [-> _]; [apply Nat.ltb_lt; reflexivity|]. vm_compute. reflexivity.
    + destruct (Hr 56%nat) as [-> _]; [apply Nat.ltb_lt; reflexivity|]. vm_compute. reflexivity.
Defined.

Lemma memory_roundtrip_witness : exists q' m'' r p' m',
  access (Packet.samplePacket MemCmd.WriteReq 0x1010 [7; 8]) tupleMem = Done (p', m') /\
  access (Packet.samplePacket MemCmd.ReadReq 0x100f [0; 0; 0]) m' = Done (q', m'') /\
  Packet.getPtr q' = Done r /\ r !! 1%nat = Some 7 /\ r !! 0%nat = Some 0.
Proof.
  destruct (memory_roundtrip tupleMem 0x1000 tupleBlock (Packet.samplePacket MemCmd.WriteReq 0x1010 [7; 8]) 0x1010 [7; 8] 0x1010
    (Packet.samplePacket MemCmd.ReadReq 0x100f [0; 0; 0]) 0x100f [0; 0; 0])
    as (p' & m' & q' & m'' & r & Ha & _ & Hb & _ & Hg & _ & Hr); try reflexivity.
  - exact tupleMem_wf.
  - split; try reflexivity; [apply Nat.ltb_lt; reflexivity|]. vm_compute. split; discriminate.
  - split; try reflexivity; [apply Nat.ltb_lt; reflexivity|]. vm_compute. split; discriminate.
  - exists q', m'', r, p', m'. split; [exact Ha|]. split; [exact Hb|]. split; [exact Hg|]. split.
    + rewrite Hr by (apply Nat.ltb_lt; reflexivity). vm_compute. reflexivity.
    + rewrite Hr by (apply Nat.ltb_lt; reflexivity). vm_compute. reflexivity.
Defined.

(** The write branch does not look at the gather flag: what a flagged write puts
    in word 1 is not what a gather read of the same address and pattern finds. *)
Lemma gather_write_is_plain : exists p' m' q' m'' r,
  let req := Request.setPaddr 0x1000 (Request.virtual 0 0 0x1007 64 Request.GATHER 0 0 0 0) in
  let pkt c d := Packet.withData (Some d) (Packet.setFlag Packet.DYNAMIC_DATA (Packet.new req c)) in
  access (pkt MemCmd.WriteReq (replicate 64 99)) tupleMem = Done (p', m') /\
  access (pkt MemCmd.ReadReq (replicate 64 0)) m' = Done (q', m'') /\
  Packet.getPtr q' = Done r /\ r !! 8%nat = Some 16.
Proof. eexists _, _, _, _, _. cbv zeta. split; [vm_compute; reflexivity|]. split; [vm_compute; reflexivity|]. split; vm_compute; reflexivity. Qed.
