(* ===== verification/CacheBlk.v ===== *)
(** * Cache blocks: gem5/src/mem/cache/blk.hh

    A block with its status bits, its data and the load-locked reservations on
    it.  A store-conditional to the block succeeds exactly when the history of
    the block says so. *)

From stdpp Require Import base list strings numbers.
From Stdlib Require Import ZArith Lia.
From S2P Require Import Prelude Bits MemCmd Request Packet.

#[local] Open Scope Z_scope.
#[local] Open Scope outcome_scope.

Module CacheBlk.

(** ** Status bits *)

Definition BlkValid := 0x01.
Definition BlkWritable := 0x02.
Definition BlkReadable := 0x04.
Definition BlkDirty := 0x08.
Definition BlkReferenced := 0x10.
Definition BlkHWPrefetched := 0x20.
Definition BlkSecure := 0x40.

(** ** The block *)

(** A reservation: context and inclusive address range. *)
Record Lock := mkLock { contextId : Z; lowAddr : Z; highAddr : Z }.

(** The bytes of a block are its own slice of the tag store's data. *)
Record t := mk {
  task_id : Z;
  asid : Z;
  tag : Z;
  data : buffer;
  size : Z;
  status : Z;
  whenReady : Z;
  set : Z;
  isTouched : bool;
  refCount : Z;
  srcMasterId : Z;
  tickInserted : Z;
  lockList : list Lock
}.

Definition new : t := mk Request.UnknownTaskId (-1) 0 [] 0 0 0 (-1) false 0 Request.invldMasterId 0 [].

(** Updates of one field. *)
Definition withTask (x : Z) (b : t) : t :=
  mk x (asid b) (tag b) (data b) (size b) (status b) (whenReady b) (set b) (isTouched b) (refCount b) (srcMasterId b) (tickInserted b) (lockList b).
Definition withTag (x : Z) (b : t) : t :=
  mk (task_id b) (asid b) x (data b) (size b) (status b) (whenReady b) (set b) (isTouched b) (refCount b) (srcMasterId b) (tickInserted b) (lockList b).
Definition withData (x : buffer) (b : t) : t :=
  mk (task_id b) (asid b) (tag b) x (size b) (status b) (whenReady b) (set b) (isTouched b) (refCount b) (srcMasterId b) (tickInserted b) (lockList b).
Definition withStatus (x : Z) (b : t) : t :=
  mk (task_id b) (asid b) (tag b) (data b) (size b) x (whenReady b) (set b) (isTouched b) (refCount b) (srcMasterId b) (tickInserted b) (lockList b).
Definition withReady (x : Z) (b : t) : t :=
  mk (task_id b) (asid b) (tag b) (data b) (size b) (status b) x (set b) (isTouched b) (refCount b) (srcMasterId b) (tickInserted b) (lockList b).
Definition withSet (x : Z) (b : t) : t :=
  mk (task_id b) (asid b) (tag b) (data b) (size b) (status b) (whenReady b) x (isTouched b) (refCount b) (srcMasterId b) (tickInserted b) (lockList b).
Definition withTouched (x : bool) (b : t) : t :=
  mk (task_id b) (asid b) (tag b) (data b) (size b) (status b) (whenReady b) (set b) x (refCount b) (srcMasterId b) (tickInserted b) (lockList b).
Definition withRefs (x : Z) (b : t) : t :=
  mk (task_id b) (asid b) (tag b) (data b) (size b) (status b) (whenReady b) (set b) (isTouched b) x (srcMasterId b) (tickInserted b) (lockList b).
Definition withSource (m tk : Z) (now : Z) (b : t) : t :=
  mk tk (asid b) (tag b) (data b) (size b) (status b) (whenReady b) (set b) (isTouched b) (refCount b) m now (lockList b).
Definition withLocks (x : list Lock) (b : t) : t :=
  mk (task_id b) (asid b) (tag b) (data b) (size b) (status b) (whenReady b) (set b) (isTouched b) (refCount b) (srcMasterId b) (tickInserted b) x.

Definition setStatus (m : Z) (b : t) : t := withStatus (Flags.set (status b) m) b.
Definition clearStatus (m : Z) (b : t) : t := withStatus (Flags.clear 32 (status b) m) b.

(** ** State tests *)

Definition isWritable (b : t) : bool := Flags.allSet (status b) (Z.lor BlkWritable BlkValid).
Definition isReadable (b : t) : bool := Flags.allSet (status b) (Z.lor BlkReadable BlkValid).
Definition isValid (b : t) : bool := Flags.isSet (status b) BlkValid.
Definition isDirty (b : t) : bool := Flags.isSet (status b) BlkDirty.
Definition isReferenced (b : t) : bool := Flags.isSet (status b) BlkReferenced.
Definition wasPrefetched (b : t) : bool := Flags.isSet (status b) BlkHWPrefetched.
Definition isSecure (b : t) : bool := Flags.isSet (status b) BlkSecure.

(** The MOESI letter of [print()]. *)
Definition moesi (b : t) : string :=
  match isWritable b, isDirty b, isValid b with
  | true, true, true => "M"
  | false, true, true => "O"
  | true, false, true => "E"
  | false, false, true => "S"
  | false, false, false => "I"
  | _, _, _ => "T"
  end.

(** ** Locks *)

(** [Lock(req)] *)
Definition lockOf (r : Request.t) : outcome Lock :=
  let! c := Request.contextId r in
  let! a := Request.getPaddr r in
  let! n := Request.getSize r in
  Done (mkLock c a (wrap 64 (a + n - 1))).

(** [Lock::matchesContext(req)] *)
Definition matchesContext (r : Request.t) (l : Lock) : outcome bool :=
  let! a := Request.getPaddr r in
  let! n := Request.getSize r in
  let! c := Request.contextId r in
  let high := wrap 64 (a + n - 1) in
  Done ((contextId l =? c) && (lowAddr l <=? a) && (high <=? highAddr l)).

(** [Lock::overlapping(req)] *)
Definition overlapping (r : Request.t) (l : Lock) : outcome bool :=
  let! a := Request.getPaddr r in
  let! n := Request.getSize r in
  let high := wrap 64 (a + n - 1) in
  Done ((a <=? highAddr l) && (lowAddr l <=? high)).

Definition trackLoadLocked (p : Packet.t) (b : t) : outcome t :=
  if negb (MemCmd.isLLSC (Packet.cmd p)) then Exited
  else let! l := lockOf (Packet.req p) in Done (withLocks (l :: lockList b) b).

(** The loop of [clearLoadLocks(req)]. *)
Fixpoint eraseOverlapping (r : Request.t) (l : list Lock) : outcome (list Lock) :=
  match l with
  | [] => Done []
  | x :: l =>
      let! o := overlapping r x in
      let! l := eraseOverlapping r l in
      Done (if o then l else x :: l)
  end.

Definition clearLoadLocks (r : option Request.t) (b : t) : outcome t :=
  match r with
  | None => Done (withLocks [] b)
  | Some r => let! l := eraseOverlapping r (lockList b) in Done (withLocks l b)
  end.

(** [invalidate()] *)
Definition invalidate (b : t) : t := withLocks [] (withTouched false (withStatus 0 b)).

(** The search of [checkWrite] for a lock of the context. *)
Fixpoint holdsLock (r : Request.t) (l : list Lock) : outcome bool :=
  match l with
  | [] => Done false
  | x :: l => let! m := matchesContext r x in if m then Done true else holdsLock r l
  end.

(** [checkWrite(pkt)]: whether to write, the packet and the block. *)
Definition checkWrite (p : Packet.t) (b : t) : outcome (bool * Packet.t * t) :=
  let r := Packet.req p in
  if MemCmd.isLLSC (Packet.cmd p) then
    let! success := holdsLock r (lockList b) in
    let r := Request.setExtraData (if success then 1 else 0) r in
    let! b := clearLoadLocks (Some r) b in
    Done (success, Packet.withReq r p, b)
  else
    let! b := clearLoadLocks (Some r) b in
    Done (true, p, b).

(** ** The history of a block *)

(** What happens to the reservations of a block: a load-locked of a context, or
    a store (conditional or not) to an inclusive range. *)
Inductive blkEvent :=
| LoadLocked (ctx lo hi : Z)
| Stored (lo hi : Z).

Definition overlaps (lo hi lo' hi' : Z) : bool := (lo <=? hi') && (lo' <=? hi).

(** The reservations after a history, latest event first. *)
Fixpoint locksAfter (h : list blkEvent) : list Lock :=
  match h with
  | [] => []
  | LoadLocked c lo hi :: h => mkLock c lo hi :: locksAfter h
  | Stored lo hi :: h => filter (fun l => overlaps lo hi (lowAddr l) (highAddr l) = false) (locksAfter h)
  end.

(** The context has a reservation that covers the range: it was made by a
    load-locked, and since then no store touched the reserved range. *)
Definition reserved (h : list blkEvent) (c lo hi : Z) : Prop :=
  exists h1 h2 lo' hi', h = h1 ++ LoadLocked c lo' hi' :: h2 /\ lo' <= lo /\ hi <= hi' /\
    forall slo shi, Stored slo shi ∈ h1 -> overlaps slo shi lo' hi' = false.

Lemma locksAfter_spec h l : l ∈ locksAfter h <->
  exists h1 h2, h = h1 ++ LoadLocked (contextId l) (lowAddr l) (highAddr l) :: h2 /\
    forall slo shi, Stored slo shi ∈ h1 -> overlaps slo shi (lowAddr l) (highAddr l) = false.
Proof.
  induction h as [|[c lo hi|lo hi] h IH]; cbn [locksAfter].
  - split; [by intros ?%not_elem_of_nil|]. intros (h1 & h2 & E & _). by destruct h1.
  - rewrite elem_of_cons, IH. split.
    + intros [->|(h1 & h2 & -> & Hs)].
      * exists [], h. split; [done|]. by intros ? ? ?%not_elem_of_nil.
      * exists (LoadLocked c lo hi :: h1), h2. split; [done|]. intros slo shi [?|?]%elem_of_cons; [done|by apply Hs].
    + intros ([|ev h1] & h2 & E & Hs); cbn in E; injection E as E1 E2; [left; destruct l; cbn in *; congruence|right].
      exists h1, h2. split; [done|]. intros slo shi ?. apply Hs. by right.
  - rewrite list_elem_of_filter, IH. split.
    + intros (Ho & h1 & h2 & -> & Hs). exists (Stored lo hi :: h1), h2. split; [done|].
      intros slo shi [[= -> ->]|?]%elem_of_cons; [done|by apply Hs].
    + intros ([|ev h1] & h2 & E & Hs); cbn in E; [done|]. injection E as <- ->. split; [apply Hs; by left|].
      exists h1, h2. split; [done|]. intros slo shi ?. apply Hs. by right.
Qed.

(** A request for [n] bytes at [a] by context [c]. *)
Record accesses (r : Request.t) (c a n : Z) : Prop := {
  ac_ctx : Request.contextId r = Done c;
  ac_addr : Request.getPaddr r = Done a;
  ac_size : Request.getSize r = Done n;
  ac_range : 0 <= a /\ 0 < n /\ a + n <= 2 ^ 64 }.

Lemma high_nowrap r c a n : accesses r c a n -> wrap 64 (a + n - 1) = a + n - 1.
Proof. intros [_ _ _ H]. apply Z.mod_small. lia. Qed.

Lemma trackLoadLocked_history p b h c a n : MemCmd.isLLSC (Packet.cmd p) = true -> accesses (Packet.req p) c a n ->
  lockList b = locksAfter h ->
  exists b', trackLoadLocked p b = Done b' /\ lockList b' = locksAfter (LoadLocked c a (a + n - 1) :: h) /\ status b' = status b /\ data b' = data b.
Proof.
  intros Hl Ha Hb. unfold trackLoadLocked, lockOf. rewrite Hl, (ac_ctx _ _ _ _ Ha), (ac_addr _ _ _ _ Ha), (ac_size _ _ _ _ Ha).
  cbn [negb obind]. rewrite (high_nowrap _ _ _ _ Ha). eexists. split; [done|]. cbn. by rewrite Hb.
Qed.

Lemma eraseOverlapping_spec r c a n l : accesses r c a n ->
  eraseOverlapping r l = Done (filter (fun x => overlaps a (a + n - 1) (lowAddr x) (highAddr x) = false) l).
Proof.
  intros Ha. induction l as [|x l IH]; [done|]. cbn [eraseOverlapping]. unfold overlapping.
  rewrite (ac_addr _ _ _ _ Ha), (ac_size _ _ _ _ Ha). cbn [obind]. rewrite IH, (high_nowrap _ _ _ _ Ha). cbn [obind].
  change ((a <=? highAddr x) && (lowAddr x <=? a + n - 1)) with (overlaps a (a + n - 1) (lowAddr x) (highAddr x)).
  rewrite filter_cons. by destruct (overlaps a (a + n - 1) (lowAddr x) (highAddr x)).
Qed.

Lemma holdsLock_spec r c a n l : accesses r c a n ->
  holdsLock r l = Done (existsb (fun x => (contextId x =? c) && (lowAddr x <=? a) && (a + n - 1 <=? highAddr x)) l).
Proof.
  intros Ha. induction l as [|x l IH]; [done|]. cbn [holdsLock existsb]. unfold matchesContext.
  rewrite (ac_ctx _ _ _ _ Ha), (ac_addr _ _ _ _ Ha), (ac_size _ _ _ _ Ha). cbn [obind]. rewrite (high_nowrap _ _ _ _ Ha).
  by destruct ((contextId x =? c) && (lowAddr x <=? a) && (a + n - 1 <=? highAddr x)).
Qed.

Lemma accesses_setExtra r c a n d : accesses r c a n -> accesses (Request.setExtraData d r) c a n.
Proof.
  assert (E : forall x m, Flags.isSet x m = true -> Flags.isSet (Flags.set x Request.VALID_EXTRA_DATA) m = true).
  { intros x m. unfold Flags.isSet, Flags.set. rewrite Z.land_lor_distr_l, !nonzero_iff, Z.lor_eq_0_iff. tauto. }
  intros [H1 H2 H3 H4]. split; [| | |done];
    unfold Request.contextId, Request.getPaddr, Request.getSize, Request.guarded, Request.setExtraData in *;
    cbn [Request.setPrivate Request.privateFlags Request.contextId_ Request.paddr Request.size] in *;
    match goal with H : (if ?x then _ else _) = Done _ |- _ => destruct x eqn:E'; [|discriminate]; rewrite (E _ _ E'); exact H end.
Qed.

(** Load-locked and store-conditional on a cache block.  If the block's
    reservations are those of its history, a store-conditional of a context
    succeeds exactly when the context has loaded a range that covers the store
    and no store, conditional or not, successful or not, has touched the loaded
    range since; the outcome is left in the request, and the store becomes part
    of the history. *)
Theorem blk_llsc p b h c a n : MemCmd.isLLSC (Packet.cmd p) = true -> accesses (Packet.req p) c a n ->
  lockList b = locksAfter h ->
  exists ok p' b', checkWrite p b = Done (ok, p', b') /\ (ok = true <-> reserved h c a (a + n - 1)) /\
    Request.getExtraData (Packet.req p') = Done (if ok then 1 else 0) /\
    lockList b' = locksAfter (Stored a (a + n - 1) :: h) /\ status b' = status b /\ data b' = data b.
Proof.
  intros Hl Ha Hb. unfold checkWrite. rewrite Hl, (holdsLock_spec _ c a n) by done. cbn [obind].
  set (ok := existsb _ _). unfold clearLoadLocks.
  rewrite (eraseOverlapping_spec _ c a n) by by apply accesses_setExtra. cbn [obind].
  eexists ok, _, _. split; [done|]. split; [|split; [|cbn [withLocks lockList locksAfter]; by rewrite Hb]].
  - subst ok. rewrite existsb_exists. rewrite Hb. split.
    + intros (x & Hx & Hm). rewrite !andb_true_iff, Z.eqb_eq, !Z.leb_le in Hm. destruct Hm as [[<- Hlo] Hhi].
      apply list_elem_of_In, locksAfter_spec in Hx as (h1 & h2 & -> & Hs). by exists h1, h2, (lowAddr x), (highAddr x).
    + intros (h1 & h2 & lo' & hi' & -> & Hlo & Hhi & Hs). exists (mkLock c lo' hi'). split.
      * apply list_elem_of_In, locksAfter_spec. by exists h1, h2.
      * cbn. rewrite !andb_true_iff, Z.eqb_eq, !Z.leb_le. done.
  - unfold Request.getExtraData, Request.guarded, Request.setExtraData.
    cbn [Packet.withReq Packet.req Request.setPrivate Request.privateFlags Request.extraData].
    replace (Flags.isSet _ _) with true; [by destruct ok|]. symmetry. unfold Flags.isSet, Flags.set.
    rewrite nonzero_iff, Z.land_lor_distr_l, Z.lor_eq_0_iff. intros [_ E]. discriminate E.
Qed.

(** Context 1 loads 8 bytes at 0x40, context 2 fails a store-conditional to
    them, and then context 1 fails as well. *)
Definition llPacket (c : MemCmd.Command) (ctx a n : Z) : Packet.t :=
  Packet.new (Request.setThreadContext ctx 0 (Request.physical a n Request.LLSC 0 0)) c.

Lemma blk_llsc_witness : exists ok p' b',
  checkWrite (llPacket MemCmd.StoreCondReq 1 0x40 8) (withLocks [mkLock 1 0x40 0x47] new) = Done (ok, p', b') /\ ok = true.
Proof.
  destruct (blk_llsc (llPacket MemCmd.StoreCondReq 1 0x40 8) (withLocks [mkLock 1 0x40 0x47] new) [LoadLocked 1 0x40 0x47] 1 0x40 8)
    as (ok & p' & b' & H1 & H2 & _); [reflexivity| |reflexivity|].
  - split; [reflexivity..|lia].
  - exists ok, p', b'. split; [exact H1|]. apply H2. exists [], [], 0x40, 0x47. split; [reflexivity|].
    split; [lia|]. split; [lia|]. intros slo shi Hs. by apply not_elem_of_nil in Hs.
Defined.

(** A failed store-conditional of another context breaks a reservation. *)
Lemma failed_sc_breaks_reservation : exists p' b',
  checkWrite (llPacket MemCmd.StoreCondReq 2 0x40 8) (withLocks [mkLock 1 0x40 0x47] new) = Done (false, p', b') /\ lockList b' = [].
Proof. eexists _, _. split; vm_compute; reflexivity. Qed.

End CacheBlk.
