(* ===== verification/CacheTags.v ===== *)
(** * Cache tags: gem5/src/mem/cache/tags

    cacheset.hh, base_set_assoc.hh, base_set_assoc.cc, lru.cc and
    random_repl.cc.  A block is its index in the array of blocks; a set is the
    list of its blocks, the most recently used first.  Subscripts outside an
    array and failed assertions leave the simulator. *)

From stdpp Require Import base gmap list numbers.
From Stdlib Require Import ZArith Lia.
From S2P Require Import Prelude Bits MemCmd Request Packet CacheBlk.

#[local] Open Scope Z_scope.
#[local] Open Scope outcome_scope.

Module CacheTags.

(** An array access. *)
Definition at_ {A : Type} (l : list A) (i : nat) : outcome A :=
  match l !! i with Some x => Done x | None => Exited end.

(** ** CacheSet *)

(** The do-while loop of [moveToHead]: [next] is written over the blocks in
    turn until the moved block has been overwritten. *)
Fixpoint shiftUntil (blk next : nat) (l : list nat) : outcome (list nat) :=
  match l with
  | [] => Exited
  | x :: l =>
      if decide (x = blk) then Done (next :: l)
      else let! l := shiftUntil blk x l in Done (next :: l)
  end.

Definition moveToHead (blk : nat) (l : list nat) : outcome (list nat) :=
  let! first := at_ l 0 in
  if decide (first = blk) then Done l else shiftUntil blk blk l.

(** The same loop from the last way down. *)
Definition moveToTail (blk : nat) (l : list nat) : outcome (list nat) :=
  let! last := at_ l (length l - 1) in
  if decide (last = blk) then Done l
  else let! r := shiftUntil blk blk (rev l) in Done (rev r).

(** [findBlk(tag, is_secure)]: the first way that matches. *)
Fixpoint findBlk (blks : list CacheBlk.t) (tag : Z) (is_secure : bool) (l : list nat) : outcome (option nat) :=
  match l with
  | [] => Done None
  | i :: l =>
      let! b := at_ blks i in
      if (CacheBlk.tag b =? tag) && CacheBlk.isValid b && eqb (CacheBlk.isSecure b) is_secure
      then Done (Some i) else findBlk blks tag is_secure l
  end.

(** ** The tag store *)

(** What the constructor fixes, with the clock and the masters of the system. *)
Record geometry := mkGeometry {
  blkSize : Z;
  assoc : Z;
  numSets : Z;
  sequentialAccess : bool;
  accessLatency : Z;
  blkMask : Z;
  setShift : Z;
  setMask : Z;
  tagShift : Z;
  warmupBound : Z;
  numBlocks : Z;
  maxMasters : Z;
  clockPeriod : Z
}.

Record t := mk {
  geo : geometry;
  sets : list (list nat);
  blks : list CacheBlk.t;
  tagsInUse : Z;
  warmedUp : bool;
  warmupCycle : Z;
  replacements : Z;
  totalRefs : Z;
  sampledRefs : Z;
  occupancies : gmap Z Z;
  tagAccesses : Z;
  dataAccesses : Z
}.

(** The constructor: [fatal] on bad parameters. *)
Definition newGeometry (block_size size assoc_ : Z) (seqAccess : bool) (lat masters period : Z) : outcome geometry :=
  if block_size * assoc_ =? 0 then Exited
  else
    let n := wrap 32 (size / (block_size * assoc_)) in
    if (block_size <? 4) || negb (isPowerOf2 block_size) then Exited
    else if (n <=? 0) || negb (isPowerOf2 n) then Exited
    else if assoc_ <=? 0 then Exited
    else
      let! sh := floorLog2 block_size in
      let! tg := floorLog2 n in
      Done (mkGeometry block_size assoc_ n seqAccess lat (block_size - 1) sh (n - 1) (sh + tg) (n * assoc_) (n * assoc_) masters period).

(** The blocks of set [i], with [dataBlks] as they were allocated. *)
Definition initialBlk (g : geometry) (fresh : nat -> buffer) (k : nat) : CacheBlk.t :=
  let j := Z.of_nat k mod assoc g in
  let i := Z.of_nat k / assoc g in
  let b := CacheBlk.invalidate (CacheBlk.withData (fresh k) CacheBlk.new) in
  CacheBlk.mk (CacheBlk.task_id b) (CacheBlk.asid b) j (CacheBlk.data b) (blkSize g) (CacheBlk.status b) 0 i false
    (CacheBlk.refCount b) (CacheBlk.srcMasterId b) (CacheBlk.tickInserted b) (CacheBlk.lockList b).

Definition new (fresh : nat -> buffer) (g : geometry) : t :=
  let a := Z.to_nat (assoc g) in
  mk g (map (fun i => seq (i * a) a) (seq 0 (Z.to_nat (numSets g))))
     (map (initialBlk g fresh) (seq 0 (Z.to_nat (numSets g) * a)))
     0 false 0 0 0 0 ∅ 0 0.

Definition withSets (s : list (list nat)) (c : t) : t :=
  mk (geo c) s (blks c) (tagsInUse c) (warmedUp c) (warmupCycle c) (replacements c) (totalRefs c) (sampledRefs c)
     (occupancies c) (tagAccesses c) (dataAccesses c).
Definition withBlks (b : list CacheBlk.t) (c : t) : t :=
  mk (geo c) (sets c) b (tagsInUse c) (warmedUp c) (warmupCycle c) (replacements c) (totalRefs c) (sampledRefs c)
     (occupancies c) (tagAccesses c) (dataAccesses c).
Definition withCounts (tags data : Z) (c : t) : t :=
  mk (geo c) (sets c) (blks c) (tagsInUse c) (warmedUp c) (warmupCycle c) (replacements c) (totalRefs c) (sampledRefs c)
     (occupancies c) (tagAccesses c + tags) (dataAccesses c + data).
Definition withOcc (o : gmap Z Z) (c : t) : t :=
  mk (geo c) (sets c) (blks c) (tagsInUse c) (warmedUp c) (warmupCycle c) (replacements c) (totalRefs c) (sampledRefs c)
     o (tagAccesses c) (dataAccesses c).
Definition withInUse (n : Z) (warm : bool) (cyc : Z) (c : t) : t :=
  mk (geo c) (sets c) (blks c) n warm cyc (replacements c) (totalRefs c) (sampledRefs c)
     (occupancies c) (tagAccesses c) (dataAccesses c).
Definition withReplaced (refs : Z) (c : t) : t :=
  mk (geo c) (sets c) (blks c) (tagsInUse c) (warmedUp c) (warmupCycle c) (replacements c + 1) (totalRefs c + refs)
     (sampledRefs c + 1) (occupancies c) (tagAccesses c) (dataAccesses c).

(** Writing a block and a set. *)
Definition setBlk (i : nat) (b : CacheBlk.t) (c : t) : t := withBlks (<[i := b]> (blks c)) c.
Definition getBlk (i : nat) (c : t) : outcome CacheBlk.t := at_ (blks c) i.
Definition updateBlk (f : CacheBlk.t -> CacheBlk.t) (i : nat) (c : t) : outcome t :=
  let! b := getBlk i c in Done (setBlk i (f b) c).
Definition updateSet (f : list nat -> outcome (list nat)) (s : Z) (c : t) : outcome t :=
  let! l := at_ (sets c) (Z.to_nat s) in
  let! l := f l in
  Done (withSets (<[Z.to_nat s := l]> (sets c)) c).

(** ** Addresses *)

Definition extractTag (g : geometry) (addr : Z) : Z := Z.shiftr addr (tagShift g).
Definition extractSet (g : geometry) (addr : Z) : Z := Z.land (Z.shiftr addr (setShift g)) (setMask g).
Definition extractBlkOffset (g : geometry) (addr : Z) : Z := Z.land addr (blkMask g).
Definition blkAlign (g : geometry) (addr : Z) : Z := Z.land addr (bnot 64 (blkMask g)).
Definition regenerateBlkAddr (g : geometry) (tag set : Z) : Z :=
  Z.lor (wrap 64 (Z.shiftl tag (tagShift g))) (wrap 64 (Z.shiftl set (setShift g))).

(** [ClockedObject::ticksToCycles] *)
Definition ticksToCycles (g : geometry) (ticks : Z) : Z := divCeil ticks (clockPeriod g).

(** ** BaseSetAssoc *)

Definition findBlock (addr : Z) (is_secure : bool) (c : t) : outcome (option nat) :=
  let! l := at_ (sets c) (Z.to_nat (extractSet (geo c) addr)) in
  findBlk (blks c) (extractTag (geo c) addr) is_secure l.

(** [accessBlock] at tick [now]: the block and the latency. *)
Definition baseAccessBlock (now addr : Z) (is_secure : bool) (c : t) : outcome (option nat * Z * t) :=
  let! blk := findBlock addr is_secure c in
  let lat := accessLatency (geo c) in
  let c := withCounts (assoc (geo c))
             (if sequentialAccess (geo c) then match blk with Some _ => 1 | None => 0 end else assoc (geo c)) c in
  match blk with
  | None => Done (None, lat, c)
  | Some i =>
      let! b := getBlk i c in
      let wait := ticksToCycles (geo c) (CacheBlk.whenReady b - now) in
      let lat := if (now <? CacheBlk.whenReady b) && (lat <? wait) then wait else lat in
      let! c := updateBlk (fun b => CacheBlk.withRefs (CacheBlk.refCount b + 1) b) i c in
      Done (Some i, lat, c)
  end.

(** [invalidate(blk)]: the statistics of an eviction. *)
Definition baseInvalidate (now : Z) (i : nat) (c : t) : outcome t :=
  let! b := getBlk i c in
  if negb (CacheBlk.isValid b) then Exited
  else if negb (CacheBlk.srcMasterId b <? maxMasters (geo c)) then Exited
  else
    let m := CacheBlk.srcMasterId b in
    let c := withOcc (<[m := map_get 0 (occupancies c) m - 1]> (occupancies c))
               (withInUse (tagsInUse c - 1) (warmedUp c) (warmupCycle c) c) in
    Done (setBlk i (CacheBlk.withSource Request.invldMasterId Request.UnknownTaskId now b) c).

(** [findVictim(addr)]: the first invalid block, else the last. *)
Fixpoint firstInvalid (blks : list CacheBlk.t) (cur : outcome nat) (l : list nat) : outcome nat :=
  match l with
  | [] => cur
  | i :: l => let! b := at_ blks i in if CacheBlk.isValid b then firstInvalid blks (Done i) l else Done i
  end.
Definition baseFindVictim (addr : Z) (c : t) : outcome nat :=
  let! l := at_ (sets c) (Z.to_nat (extractSet (geo c) addr)) in
  firstInvalid (blks c) Exited l.

(** A block that was not in use begins to be. *)
Definition touch (now : Z) (i : nat) (c : t) : outcome t :=
  let! b := getBlk i c in
  if CacheBlk.isTouched b then Done c
  else
    let n := tagsInUse c + 1 in
    let warm := negb (warmedUp c) && (warmupBound (geo c) <=? n) in
    Done (withInUse n (warmedUp c || warm) (if warm then now else warmupCycle c)
            (setBlk i (CacheBlk.withTouched true b) c)).

(** A valid block is evicted. *)
Definition evict (i : nat) (c : t) : outcome t :=
  let! b := getBlk i c in
  if CacheBlk.isValid b then
    if CacheBlk.srcMasterId b <? maxMasters (geo c) then
      let m := CacheBlk.srcMasterId b in
      let c := withReplaced (CacheBlk.refCount b) c in
      let c := withOcc (<[m := map_get 0 (occupancies c) m - 1]> (occupancies c)) c in
      Done (setBlk i (CacheBlk.invalidate (CacheBlk.withRefs 0 b)) c)
    else Exited
  else Done c.

(** [insertBlock(pkt, blk)] *)
Definition baseInsertBlock (now : Z) (p : Packet.t) (i : nat) (c : t) : outcome t :=
  let! addr := Packet.getCacheAddr p in
  let master_id := Request.masterId (Packet.req p) in
  let! c := touch now i c in
  let! c := evict i c in
  let! c := updateBlk (fun b => CacheBlk.withTag (extractTag (geo c) addr) (CacheBlk.withTouched true b)) i c in
  if master_id <? maxMasters (geo c) then
    let c := withOcc (<[master_id := map_get 0 (occupancies c) master_id + 1]> (occupancies c)) c in
    let! c := updateBlk (CacheBlk.withSource master_id (Request.taskId (Packet.req p)) now) i c in
    Done (withCounts 1 1 c)
  else Exited.

Definition clearLocks (c : t) : t := withBlks (map (CacheBlk.withLocks []) (blks c)) c.

(** [cleanupRefs()] *)
Definition cleanupRefs (c : t) : t :=
  foldl (fun c b => if CacheBlk.isValid b
                    then mk (geo c) (sets c) (blks c) (tagsInUse c) (warmedUp c) (warmupCycle c) (replacements c)
                           (totalRefs c + CacheBlk.refCount b) (sampledRefs c + 1) (occupancies c) (tagAccesses c) (dataAccesses c)
                    else c) c (blks c).

(** ** LRU *)

Definition accessBlock (now addr : Z) (is_secure : bool) (c : t) : outcome (option nat * Z * t) :=
  let! (blk, lat, c) := baseAccessBlock now addr is_secure c in
  match blk with
  | None => Done (None, lat, c)
  | Some i =>
      let! b := getBlk i c in
      let! c := updateSet (moveToHead i) (CacheBlk.set b) c in
      Done (Some i, lat, c)
  end.

Definition findVictim (addr : Z) (c : t) : outcome nat :=
  let! l := at_ (sets c) (Z.to_nat (extractSet (geo c) addr)) in
  let! i := at_ l (Z.to_nat (assoc (geo c) - 1)) in
  let! _ := getBlk i c in
  Done i.

Definition insertBlock (now : Z) (p : Packet.t) (i : nat) (c : t) : outcome t :=
  let! c := baseInsertBlock now p i c in
  let! addr := Packet.getCacheAddr p in
  updateSet (moveToHead i) (extractSet (geo c) addr) c.

Definition invalidate (now : Z) (i : nat) (c : t) : outcome t :=
  let! c := baseInvalidate now i c in
  let! b := getBlk i c in
  updateSet (moveToTail i) (CacheBlk.set b) c.

(** ** RandomRepl *)

(** [findVictim(addr)] with the number the generator returns. *)
Definition randomFindVictim (random : Z) (addr : Z) (c : t) : outcome nat :=
  let! i := baseFindVictim addr c in
  let! b := getBlk i c in
  if CacheBlk.isValid b then
    if (random <? assoc (geo c)) && (0 <=? random) then
      let! l := at_ (sets c) (Z.to_nat (extractSet (geo c) addr)) in
      at_ l (Z.to_nat random)
    else Exited
  else Done i.

End CacheTags.
