(* ===== verification/CacheTagsCorrect.v ===== *)
(** * Cache tags: what they keep

    The split of an address into tag, set and offset, the order in which a set
    keeps its blocks, the invariant of the tag store and the blocks it finds
    and replaces. *)

From stdpp Require Import base gmap list numbers sorting.
From Stdlib Require Import ZArith Lia.
From S2P Require Import Prelude Bits MemCmd Request Packet CacheBlk CacheTags.

#[local] Open Scope Z_scope.
#[local] Open Scope outcome_scope.

Module CacheTagsCorrect.
Import CacheTags.

(** ** Geometry and addresses *)

Record wfGeo (g : geometry) : Prop := {
  wg_blk : blkSize g = 2 ^ setShift g;
  wg_sets : numSets g = 2 ^ (tagShift g - setShift g);
  wg_shift : 2 <= setShift g <= tagShift g;
  wg_tag : tagShift g < 64;
  wg_blkMask : blkMask g = Z.ones (setShift g);
  wg_setMask : setMask g = Z.ones (tagShift g - setShift g);
  wg_assoc : 0 < assoc g }.

(** The constructor's geometry is well formed. *)
Lemma newGeometry_wf block_size size a seqAccess lat masters period g :
  0 <= block_size < 2 ^ 32 -> newGeometry block_size size a seqAccess lat masters period = Done g -> wfGeo g.
Proof.
  intros Hb. unfold newGeometry. destruct (_ =? 0); [discriminate|]. set (n := wrap 32 _).
  assert (Hn : 0 <= n < 2 ^ 32) by (apply Z.mod_pos_bound; lia).
  destruct (Z.ltb_spec block_size 4); cbn [orb]; [discriminate|].
  destruct (isPowerOf2 block_size) eqn:Pb; cbn [negb]; [|discriminate].
  destruct (Z.leb_spec n 0); cbn [orb]; [discriminate|].
  destruct (isPowerOf2 n) eqn:Pn; cbn [negb]; [|discriminate].
  destruct (Z.leb_spec a 0); [discriminate|].
  rewrite !floorLog2_spec by lia. cbn [obind]. intros [= <-].
  apply isPowerOf2_log2 in Pb; [|lia]. apply isPowerOf2_log2 in Pn; [|lia].
  assert (Z.log2 n < 32) by (apply Z.log2_lt_pow2; lia).
  assert (Z.log2 block_size < 32) by (apply Z.log2_lt_pow2; lia).
  assert (0 <= Z.log2 n) by apply Z.log2_nonneg.
  assert (2 <= Z.log2 block_size) by (apply (Z.log2_le_mono 4); lia).
  split; cbn [blkSize numSets setShift tagShift blkMask setMask assoc]; rewrite ?Z.add_simpl_l; try lia.
  all: rewrite Z.ones_equiv; lia.
Qed.

Section address.
Context (g : geometry) (W : wfGeo g).

Ltac geo := pose proof (wg_shift g W); pose proof (wg_tag g W).

Lemma extractSet_range addr : 0 <= extractSet g addr < numSets g.
Proof.
  geo. unfold extractSet. rewrite (wg_setMask g W), Z.land_ones, (wg_sets g W) by lia. apply Z.mod_pos_bound, Z.pow_pos_nonneg; lia.
Qed.

Lemma testbit_extractSet addr i : 0 <= i ->
  Z.testbit (extractSet g addr) i = Z.testbit addr (i + setShift g) && (i <? tagShift g - setShift g).
Proof. intros ?. geo. unfold extractSet. rewrite (wg_setMask g W). by autorewrite with word_bits. Qed.

Lemma regenerate_extract addr : u64 addr ->
  regenerateBlkAddr g (extractTag g addr) (extractSet g addr) = blkAlign g addr.
Proof.
  intros Ha. geo. unfold regenerateBlkAddr, extractTag, blkAlign. rewrite (wg_blkMask g W). bitwise i Hi.
  destruct (Z.leb_spec (setShift g) i).
  - rewrite testbit_extractSet, !Z.sub_add by lia.
    destruct (Z.ltb_spec i (setShift g)); [lia|]. cbn [xorb andb].
    destruct (Z.ltb_spec i 64); [|by rewrite (testbit_above 64 addr), !andb_false_r by (done || lia)].
    destruct (Z.leb_spec (tagShift g) i); destruct (Z.ltb_spec (i - setShift g) (tagShift g - setShift g)); try lia;
      cbn [andb]; rewrite ?Z.shiftr_spec, ?Z.sub_add by lia; destruct (Z.testbit addr i); done.
  - destruct (Z.leb_spec (tagShift g) i); [lia|]. destruct (Z.ltb_spec i (setShift g)); [|lia].
    destruct (Z.ltb_spec i 64); [|lia]. cbn. by rewrite andb_false_r.
Qed.

Lemma testbit_regenerate tag set i : 0 <= tag < 2 ^ (64 - tagShift g) -> 0 <= set < numSets g -> 0 <= i ->
  Z.testbit (regenerateBlkAddr g tag set) i =
    if tagShift g <=? i then Z.testbit tag (i - tagShift g)
    else if setShift g <=? i then Z.testbit set (i - setShift g) else false.
Proof.
  intros Ht Hs Hi. geo. rewrite (wg_sets g W) in Hs. unfold regenerateBlkAddr. autorewrite with word_bits.
  destruct (Z.leb_spec (tagShift g) i).
  - destruct (Z.leb_spec (setShift g) i); [|lia]. cbn [andb].
    rewrite (testbit_above (tagShift g - setShift g) set) by lia. rewrite andb_false_l, orb_false_r.
    destruct (Z.ltb_spec i 64); [by rewrite andb_true_r|].
    by rewrite (testbit_above (64 - tagShift g) tag) by lia.
  - cbn [andb orb]. destruct (Z.ltb_spec i 64); [|lia]. rewrite andb_true_r. by destruct (setShift g <=? i).
Qed.

Lemma extract_regenerate tag set : 0 <= tag < 2 ^ (64 - tagShift g) -> 0 <= set < numSets g ->
  extractTag g (regenerateBlkAddr g tag set) = tag /\ extractSet g (regenerateBlkAddr g tag set) = set /\
  extractBlkOffset g (regenerateBlkAddr g tag set) = 0.
Proof.
  intros Ht Hs. geo. split; [|split].
  - unfold extractTag. bitwise i Hi. rewrite testbit_regenerate by (done || lia).
    destruct (Z.leb_spec (tagShift g) (i + tagShift g)); [|lia]. by rewrite Z.add_simpl_r.
  - apply Z.bits_inj'. intros i Hi. rewrite testbit_extractSet, testbit_regenerate by (done || lia).
    destruct (Z.leb_spec (tagShift g) (i + setShift g)).
    + rewrite (testbit_above (tagShift g - setShift g) set) by (rewrite <- ?(wg_sets g W); done || lia).
      destruct (Z.ltb_spec i (tagShift g - setShift g)); [lia|]. by rewrite andb_false_r.
    + destruct (Z.leb_spec (setShift g) (i + setShift g)); [|lia]. rewrite Z.add_simpl_r.
      destruct (Z.ltb_spec i (tagShift g - setShift g)); [|lia]. by rewrite andb_true_r.
  - unfold extractBlkOffset. rewrite (wg_blkMask g W). bitwise i Hi. rewrite testbit_regenerate by (done || lia).
    destruct (Z.ltb_spec i (setShift g)); [|by rewrite andb_false_r].
    destruct (Z.leb_spec (tagShift g) i); [lia|]. destruct (Z.leb_spec (setShift g) i); [lia|done].
Qed.

Lemma blkAlign_offset addr : u64 addr ->
  blkAlign g addr = addr - addr mod blkSize g /\ extractBlkOffset g addr = addr mod blkSize g.
Proof.
  intros Ha. geo. unfold blkAlign, extractBlkOffset. rewrite (wg_blkMask g W), (wg_blk g W), Z.land_ones by lia.
  split; [apply land_bnot_mask; [done|lia]|done].
Qed.

(** Tag and set decide the block. *)
Lemma same_block a b : u64 a -> u64 b ->
  (extractTag g a = extractTag g b /\ extractSet g a = extractSet g b) <-> blkAlign g a = blkAlign g b.
Proof.
  intros Ha Hb. split.
  - intros [E1 E2]. by rewrite <- !regenerate_extract, E1, E2.
  - intros E. rewrite <- !regenerate_extract in E by done.
    assert (T : forall x, u64 x -> 0 <= extractTag g x < 2 ^ (64 - tagShift g)).
    { intros x [Hx0 Hx]. geo. unfold extractTag. rewrite Z.shiftr_div_pow2 by lia. split; [apply Z.div_pos; [lia|apply Z.pow_pos_nonneg; lia]|].
      apply Z.div_lt_upper_bound; [apply Z.pow_pos_nonneg; lia|]. rewrite <- Z.pow_add_r by lia.
      replace (tagShift g + (64 - tagShift g)) with 64 by lia. done. }
    destruct (extract_regenerate (extractTag g a) (extractSet g a)) as (A1 & A2 & _); [by apply T|apply extractSet_range|].
    destruct (extract_regenerate (extractTag g b) (extractSet g b)) as (B1 & B2 & _); [by apply T|apply extractSet_range|].
    rewrite E in A1, A2. split; congruence.
Qed.

End address.

(** The split of an address.  Tag and set of an address give back the
    address of its line, which with the offset is the address; every tag and
    set in range come back from the address regenerated from them; and two
    addresses have the same tag and set exactly when they lie in one line. *)
Theorem address_split g : wfGeo g ->
  (forall a, u64 a -> regenerateBlkAddr g (extractTag g a) (extractSet g a) = blkAlign g a /\
     blkAlign g a + extractBlkOffset g a = a /\ 0 <= extractBlkOffset g a < blkSize g) /\
  (forall tag set, 0 <= tag < 2 ^ (64 - tagShift g) -> 0 <= set < numSets g ->
     extractTag g (regenerateBlkAddr g tag set) = tag /\ extractSet g (regenerateBlkAddr g tag set) = set /\
     extractBlkOffset g (regenerateBlkAddr g tag set) = 0) /\
  (forall a b, u64 a -> u64 b ->
     (extractTag g a = extractTag g b /\ extractSet g a = extractSet g b) <-> a / blkSize g = b / blkSize g).
Proof.
  intros W. pose proof (wg_shift g W). assert (Hp : 0 < blkSize g) by (rewrite (wg_blk g W); apply Z.pow_pos_nonneg; lia).
  split; [|split].
  - intros a Ha. destruct (blkAlign_offset g W a Ha) as [E1 E2]. rewrite regenerate_extract, E1, E2 by done.
    split; [done|]. split; [lia|]. by apply Z.mod_pos_bound.
  - apply (extract_regenerate g W).
  - intros a b Ha Hb. rewrite (same_block g W a b Ha Hb), (proj1 (blkAlign_offset g W a Ha)), (proj1 (blkAlign_offset g W b Hb)).
    pose proof (Z.div_mod a (blkSize g)). pose proof (Z.div_mod b (blkSize g)). nia.
Qed.

(** The 32 kB, two-way cache with lines of 64 bytes. *)
Definition l1Geo : geometry := mkGeometry 64 2 256 false 2 63 6 255 14 512 512 4 500.

Lemma address_split_witness : newGeometry 64 32768 2 false 2 4 500 = Done l1Geo /\
  regenerateBlkAddr l1Geo (extractTag l1Geo 0x12345) (extractSet l1Geo 0x12345) = blkAlign l1Geo 0x12345.
Proof.
  split; [vm_compute; reflexivity|].
  refine (proj1 (proj1 (address_split l1Geo (newGeometry_wf 64 32768 2 false 2 4 500 l1Geo _ _)) 0x12345 _)).
  - split; reflexivity || discriminate.
  - vm_compute. reflexivity.
  - split; reflexivity || discriminate.
Defined.

(** ** The order of a set *)

Lemma shiftUntil_spec blk l1 l2 : forall next, blk ∉ l1 -> shiftUntil blk next (l1 ++ blk :: l2) = Done (next :: l1 ++ l2).
Proof.
  induction l1 as [|x l1 IH]; intros next Hb; cbn [app shiftUntil].
  - by rewrite decide_True.
  - apply not_elem_of_cons in Hb as [Hx Hb]. rewrite decide_False by done. by rewrite IH.
Qed.

Lemma moveToHead_spec blk l1 l2 : blk ∉ l1 -> moveToHead blk (l1 ++ blk :: l2) = Done (blk :: l1 ++ l2).
Proof.
  intros Hb. unfold moveToHead, at_. destruct l1 as [|x l1]; cbn [app lookup list_lookup obind].
  - by rewrite decide_True.
  - pose proof Hb as Hb'. apply not_elem_of_cons in Hb' as [Hx _]. rewrite decide_False by done.
    by apply (shiftUntil_spec blk (x :: l1)).
Qed.

Lemma moveToTail_spec blk l1 l2 : blk ∉ l2 -> moveToTail blk (l1 ++ blk :: l2) = Done ((l1 ++ l2) ++ [blk]).
Proof.
  intros Hb. unfold moveToTail, at_. destruct l2 as [|x l2 _] using rev_ind.
  - rewrite length_app, Nat.add_sub, lookup_app_r, Nat.sub_diag by lia. cbn. rewrite decide_True by done. by rewrite app_nil_r.
  - replace (l1 ++ blk :: l2 ++ [x]) with ((l1 ++ blk :: l2) ++ [x]) by by rewrite <- app_assoc.
    rewrite length_app, Nat.add_sub, lookup_app_r, Nat.sub_diag by lia. cbn [lookup list_lookup obind].
    rewrite decide_False by set_solver. rewrite rev_app_distr, rev_app_distr. cbn [rev app].
    replace (x :: (rev l2 ++ [blk]) ++ rev l1) with ((x :: rev l2) ++ blk :: rev l1) by (cbn; by rewrite <- app_assoc).
    rewrite shiftUntil_spec by (rewrite not_elem_of_cons, list_elem_of_In, <- in_rev, <- list_elem_of_In; set_solver).
    cbn. by rewrite rev_app_distr, !rev_involutive, <- !app_assoc.
Qed.

(** What happened to blocks: use, or invalidation.  Latest first. *)
Inductive useEvent := Used (b : nat) | Dropped (b : nat).

(** The rank of a block: the time of its last use, zero if nothing happened to
    it, and for a block dropped since, the later the lower. *)
Fixpoint rank (h : list useEvent) (b : nat) : Z :=
  match h with
  | [] => 0
  | Used x :: h => if decide (x = b) then Z.of_nat (S (length h)) else rank h b
  | Dropped x :: h => if decide (x = b) then - Z.of_nat (S (length h)) else rank h b
  end.

(** [x] is to be kept rather than [y]: it ranks higher, or neither was touched
    and it comes first. *)
Definition newer (h : list useEvent) (x y : nat) : Prop :=
  rank h y < rank h x \/ rank h x = 0 /\ rank h y = 0 /\ (x < y)%nat.

Lemma rank_bound h b : Z.abs (rank h b) <= Z.of_nat (length h).
Proof. induction h as [|[x|x] h IH]; cbn [rank length]; [lia| |]; case_decide; lia. Qed.

Lemma sorted_weaken h h' (l : list nat) : (forall x, x ∈ l -> rank h' x = rank h x) ->
  StronglySorted (newer h) l -> StronglySorted (newer h') l.
Proof.
  intros Hr. induction 1 as [|x l Hs IH Hf]; constructor.
  - apply IH. intros y Hy. apply Hr. by right.
  - rewrite Forall_forall in *. intros y Hy. specialize (Hf y Hy). unfold newer in *.
    rewrite !Hr by (by left || by right). done.
Qed.

Lemma StronglySorted_app_elim (R : nat -> nat -> Prop) l1 l2 b : StronglySorted R (l1 ++ b :: l2) -> StronglySorted R (l1 ++ l2).
Proof.
  induction l1 as [|x l1 IH]; cbn; inversion 1 as [|? ? Hs Hf]; subst; [done|]. constructor; [by apply IH|].
  rewrite Forall_app, Forall_cons in Hf. rewrite Forall_app. tauto.
Qed.

Lemma StronglySorted_snoc (R : nat -> nat -> Prop) l b : StronglySorted R l -> (forall x, x ∈ l -> R x b) -> StronglySorted R (l ++ [b]).
Proof.
  induction 1 as [|x l Hs IH Hf]; cbn; intros Hb; constructor; [constructor|constructor|apply IH; set_solver|].
  rewrite Forall_app, Forall_singleton. split; [done|]. apply Hb. by left.
Qed.

Lemma used_sorted h l1 l2 b : b ∉ l1 ++ l2 -> StronglySorted (newer h) (l1 ++ b :: l2) ->
  StronglySorted (newer (Used b :: h)) (b :: l1 ++ l2).
Proof.
  intros Hb Hs%StronglySorted_app_elim.
  assert (Hr : forall x, x ∈ l1 ++ l2 -> rank (Used b :: h) x = rank h x) by (intros x Hx; cbn; rewrite decide_False; congruence).
  constructor; [by apply (sorted_weaken h)|]. rewrite Forall_forall. intros x Hx. left. rewrite (Hr x) by done.
  cbn [rank]. rewrite decide_True by done. pose proof (rank_bound h x). lia.
Qed.

Lemma dropped_sorted h l1 l2 b : b ∉ l1 ++ l2 -> StronglySorted (newer h) (l1 ++ b :: l2) ->
  StronglySorted (newer (Dropped b :: h)) ((l1 ++ l2) ++ [b]).
Proof.
  intros Hb Hs%StronglySorted_app_elim.
  assert (Hr : forall x, x ∈ l1 ++ l2 -> rank (Dropped b :: h) x = rank h x) by (intros x Hx; cbn; rewrite decide_False; congruence).
  apply StronglySorted_snoc; [by apply (sorted_weaken h)|]. intros x Hx. left. rewrite (Hr x) by done.
  cbn [rank]. rewrite decide_True by done. pose proof (rank_bound h x). lia.
Qed.

Lemma sorted_last (R : nat -> nat -> Prop) l x y : StronglySorted R (l ++ [y]) -> x ∈ l -> R x y.
Proof.
  induction l as [|z l IH]; cbn; inversion 1 as [|? ? Hs Hf]; subst; [by intros ?%not_elem_of_nil|].
  intros [->|Hx]%elem_of_cons; [|by apply IH]. rewrite Forall_app, Forall_singleton in Hf. tauto.
Qed.

End CacheTagsCorrect.
