(* ===== verification/CacheTagsInv.v ===== *)
(** * Cache tags: the invariant of the tag store

    Every history of accesses, insertions, invalidations and block updates
    keeps a block for at most one way of its set and the sets in the order of
    least recent use, so a lookup is exact and the victim is the block of the
    set that ranks lowest. *)

From stdpp Require Import base gmap list numbers sorting.
From Stdlib Require Import ZArith Lia.
From S2P Require Import Prelude Bits MemCmd Request Packet CacheBlk CacheTags CacheTagsCorrect.

#[local] Open Scope Z_scope.
#[local] Open Scope outcome_scope.

Module CacheTagsInv.
Import CacheTags CacheTagsCorrect.

Definition ways (c : t) : nat := Z.to_nat (assoc (geo c)).

(** A block holds the line of a tag and a security bit. *)
Definition holds (tag : Z) (sec : bool) (b : CacheBlk.t) : Prop :=
  CacheBlk.isValid b = true /\ CacheBlk.tag b = tag /\ CacheBlk.isSecure b = sec.

Record tagsOK (c : t) : Prop := {
  to_geo : wfGeo (geo c);
  to_sets : length (sets c) = Z.to_nat (numSets (geo c));
  to_blks : length (blks c) = (length (sets c) * ways c)%nat;
  to_perm : forall s l, sets c !! s = Some l -> l ≡ₚ seq (s * ways c) (ways c);
  to_set : forall k b, blks c !! k = Some b -> CacheBlk.set b = Z.of_nat (k / ways c);
  to_unique : forall k k' b b', blks c !! k = Some b -> blks c !! k' = Some b' ->
    holds (CacheBlk.tag b) (CacheBlk.isSecure b) b' -> CacheBlk.isValid b = true -> CacheBlk.set b = CacheBlk.set b' -> k = k' }.

(** ** Changes of one block and of one set *)

Record changed (i : nat) (b b' : CacheBlk.t) (c c' : t) : Prop := {
  ch_geo : geo c' = geo c;
  ch_sets : sets c' = sets c;
  ch_at : blks c !! i = Some b;
  ch_blks : blks c' = <[i := b']> (blks c) }.

Lemma changed_trans i b b' b'' c c' c'' : changed i b b' c c' -> changed i b' b'' c' c'' -> changed i b b'' c c''.
Proof.
  intros [G S A B] [G' S' A' B']. split; [congruence..|]. rewrite B', B. apply list_insert_insert_eq.
Qed.

Lemma changed_refl i b c : blks c !! i = Some b -> changed i b b c c.
Proof. intros H. split; [done..|]. by rewrite list_insert_id. Qed.

Lemma getBlk_Done i c b : getBlk i c = Done b <-> blks c !! i = Some b.
Proof. unfold getBlk, at_. destruct (blks c !! i); split; congruence. Qed.

Lemma setBlk_changed i b b' c c0 : blks c !! i = Some b -> geo c0 = geo c -> sets c0 = sets c -> blks c0 = blks c ->
  changed i b b' c (setBlk i b' c0).
Proof. intros H G S B. split; cbn; congruence. Qed.

Lemma updateBlk_changed f i c c' : updateBlk f i c = Done c' -> exists b, changed i b (f b) c c'.
Proof.
  unfold updateBlk. intros (b & Hb%getBlk_Done & [= <-])%obind_Done. exists b. by apply setBlk_changed.
Qed.

Lemma changed_at i b b' c c' : changed i b b' c c' -> blks c' !! i = Some b'.
Proof. intros [_ _ A B]. rewrite B. apply list_lookup_insert_eq. by apply lookup_lt_Some in A. Qed.

(** A changed block that is valid must be the only one for its line. *)
Lemma changed_ok i b b' c c' : tagsOK c -> changed i b b' c c' -> CacheBlk.set b' = CacheBlk.set b ->
  (CacheBlk.isValid b' = true -> forall k bk, blks c !! k = Some bk -> k <> i ->
     holds (CacheBlk.tag b') (CacheBlk.isSecure b') bk -> CacheBlk.set bk <> CacheBlk.set b) ->
  tagsOK c'.
Proof.
  intros [G S N P T U] Hc Hs Hu. destruct Hc as [Cg Cs Ca Cb].
  assert (Hw : ways c' = ways c) by (unfold ways; by rewrite Cg).
  assert (Hat : forall k x, blks c' !! k = Some x -> k = i /\ x = b' \/ k <> i /\ blks c !! k = Some x).
  { intros k x. rewrite Cb, list_lookup_insert_Some. intros [(-> & -> & _)|(? & ?)]; [by left|by right]. }
  split; rewrite ?Cg, ?Cs, ?Hw; try done.
  - by rewrite Cb, length_insert.
  - intros k x [[-> ->]|[_ Hk]]%Hat; [rewrite Hs|]; by apply T.
  - intros k k' x x' [[-> ->]|[Hk Hx]]%Hat [[-> ->]|[Hk' Hx']]%Hat Hh Hv Es; [done| | |by eapply U].
    + exfalso. eapply (Hu Hv k'); try done. congruence.
    + exfalso. destruct Hh as (Hv' & Ht & Hse). eapply (Hu Hv' k); try done; repeat split; congruence.
Qed.

(** A change that leaves the line of the block alone. *)
Lemma changed_same_line i b b' c c' : tagsOK c -> changed i b b' c c' -> CacheBlk.set b' = CacheBlk.set b ->
  (CacheBlk.isValid b' = true -> holds (CacheBlk.tag b') (CacheBlk.isSecure b') b) -> tagsOK c'.
Proof.
  intros Hok Hc Hs Hl. eapply changed_ok; try done. intros Hv k bk Hk Hne (Hvk & Htk & Hsk) Es.
  destruct (Hl Hv) as (Hvb & Htb & Hsb). apply Hne.
  eapply (to_unique c Hok k i bk b); try done; [by eapply ch_at|]. repeat split; congruence.
Qed.

Record moved (s : nat) (l l' : list nat) (c c' : t) : Prop := {
  mv_geo : geo c' = geo c;
  mv_blks : blks c' = blks c;
  mv_at : sets c !! s = Some l;
  mv_sets : sets c' = <[s := l']> (sets c) }.

Lemma updateSet_moved f s c c' : updateSet f s c = Done c' ->
  exists l l', f l = Done l' /\ moved (Z.to_nat s) l l' c c'.
Proof.
  unfold updateSet. intros (l & Hl & (l' & Hf & [= <-])%obind_Done)%obind_Done. exists l, l'. split; [done|].
  split; try done. unfold at_ in Hl. destruct (sets c !! Z.to_nat s) as [l0|] eqn:E; [by injection Hl as ->|done].
Qed.

Lemma moved_ok s l l' c c' : tagsOK c -> moved s l l' c c' -> l' ≡ₚ l -> tagsOK c'.
Proof.
  intros [G S N P T U] [Mg Mb Ma Ms] Hp. assert (Hw : ways c' = ways c) by (unfold ways; by rewrite Mg).
  split; rewrite ?Mg, ?Mb, ?Hw, ?Ms, ?length_insert; try done.
  intros s' x. rewrite list_lookup_insert_Some. intros [(-> & -> & _)|(_ & ?)]; [rewrite Hp|]; by apply P.
Qed.

(** ** The ways of a set *)

Section ok.
Context (c : t) (Hok : tagsOK c).

Lemma ways_pos : (0 < ways c)%nat.
Proof. unfold ways. pose proof (wg_assoc _ (to_geo c Hok)). lia. Qed.

Lemma set_NoDup s l : sets c !! s = Some l -> NoDup l.
Proof. intros Hl%(to_perm c Hok). rewrite Hl. apply NoDup_seq. Qed.

Lemma set_mem s l k : sets c !! s = Some l -> k ∈ l <-> (k / ways c)%nat = s.
Proof.
  intros Hl%(to_perm c Hok). rewrite Hl, elem_of_seq. pose proof ways_pos. split.
  - intros [H1 H2]. symmetry. apply (Nat.div_unique k (ways c) s (k - s * ways c)); lia.
  - intros <-. pose proof (Nat.div_mod k (ways c)). pose proof (Nat.mod_upper_bound k (ways c)). lia.
Qed.

Lemma set_blk s l k : sets c !! s = Some l -> k ∈ l -> exists b, blks c !! k = Some b /\ CacheBlk.set b = Z.of_nat s.
Proof.
  intros Hl Hk. destruct (lookup_lt_is_Some_2 (blks c) k) as [b Hb].
  - pose proof Hk as Hk'. rewrite (to_perm c Hok _ _ Hl), elem_of_seq in Hk'. rewrite (to_blks c Hok).
    apply lookup_lt_Some in Hl. nia.
  - exists b. split; [done|]. rewrite (to_set c Hok k b Hb). f_equal. by eapply set_mem.
Qed.

Lemma blk_in_set k b l : blks c !! k = Some b -> sets c !! Z.to_nat (CacheBlk.set b) = Some l -> k ∈ l.
Proof. intros Hb Hl. apply (set_mem _ _ _ Hl). rewrite (to_set c Hok k b Hb). lia. Qed.

Lemma set_exists a : exists l, sets c !! Z.to_nat (extractSet (geo c) a) = Some l.
Proof.
  apply lookup_lt_is_Some_2. rewrite (to_sets c Hok). pose proof (extractSet_range _ (to_geo c Hok) a). lia.
Qed.

Lemma blk_set_exists k b : blks c !! k = Some b -> exists l, sets c !! Z.to_nat (CacheBlk.set b) = Some l /\ k ∈ l.
Proof.
  intros Hb. destruct (lookup_lt_is_Some_2 (sets c) (Z.to_nat (CacheBlk.set b))) as [l Hl].
  - rewrite (to_set c Hok k b Hb), Nat2Z.id. apply lookup_lt_Some in Hb. rewrite (to_blks c Hok) in Hb.
    apply Nat.Div0.div_lt_upper_bound. lia.
  - exists l. split; [done|]. by eapply blk_in_set.
Qed.

(** ** Lookup *)

Lemma findBlk_spec tag sec l : (forall k, k ∈ l -> is_Some (blks c !! k)) ->
  exists r, findBlk (blks c) tag sec l = Done r /\
    match r with
    | Some k => k ∈ l /\ exists b, blks c !! k = Some b /\ holds tag sec b
    | None => forall k b, k ∈ l -> blks c !! k = Some b -> ~ holds tag sec b
    end.
Proof.
  induction l as [|k l IH]; intros Hl; cbn [findBlk].
  - exists None. split; [done|]. by intros k b ?%not_elem_of_nil.
  - destruct (Hl k) as [b Hb]; [by left|]. unfold at_. rewrite Hb. cbn [obind].
    destruct ((CacheBlk.tag b =? tag) && CacheBlk.isValid b && eqb (CacheBlk.isSecure b) sec) eqn:E.
    + rewrite !andb_true_iff, Z.eqb_eq, eqb_true_iff in E. exists (Some k). split; [done|].
      split; [by left|]. exists b. unfold holds. tauto.
    + destruct IH as (r & -> & Hr); [intros k' Hk'; apply Hl; by right|]. exists r. split; [done|].
      destruct r as [k'|]; [split; [right; tauto|tauto]|].
      intros k' b' [->|Hk']%elem_of_cons Hb'; [|by apply Hr with k'].
      intros (H1 & H2 & H3). replace b' with b in * by congruence.
      rewrite H1, H2, H3, Z.eqb_refl, eqb_reflx in E. discriminate.
Qed.

(** The block of the line of an address. *)
Definition lineAt (a : Z) (sec : bool) (k : nat) : Prop :=
  exists b, blks c !! k = Some b /\ CacheBlk.set b = extractSet (geo c) a /\ holds (extractTag (geo c) a) sec b.

Lemma findBlock_spec a sec : exists r, findBlock a sec c = Done r /\ forall k, r = Some k <-> lineAt a sec k.
Proof.
  unfold findBlock. destruct (set_exists a) as [l Hl]. unfold at_. rewrite Hl. cbn [obind].
  pose proof (extractSet_range _ (to_geo c Hok) a) as Hr.
  destruct (findBlk_spec (extractTag (geo c) a) sec l) as (r & -> & Hspec).
  { intros k Hk. destruct (set_blk _ _ _ Hl Hk) as (b & ? & _). by exists b. }
  exists r. split; [done|]. intros k. split.
  - intros ->. destruct Hspec as (Hk & b & Hb & Hh). exists b. split; [done|]. split; [|done].
    destruct (set_blk _ _ _ Hl Hk) as (b' & Hb' & Hs). rewrite Hb in Hb'. injection Hb' as ->. lia.
  - intros (b & Hb & Hs & Hh). assert (Hk : k ∈ l) by (eapply blk_in_set; [done|]; by rewrite Hs).
    destruct r as [k'|]; [|exfalso; by eapply Hspec]. destruct Hspec as (Hk' & b' & Hb' & Hh').
    f_equal. destruct (set_blk _ _ _ Hl Hk') as (b'' & Hb'' & Hs''). rewrite Hb' in Hb''. injection Hb'' as ->.
    destruct Hh as (H1 & H2 & H3), Hh' as (H4 & H5 & H6).
    eapply (to_unique c Hok k' k); try done; [repeat split; congruence|]. rewrite Hs''. lia.
Qed.

End ok.

(** ** The operations *)

Lemma isValid_status b b' : CacheBlk.status b' = CacheBlk.status b ->
  CacheBlk.isValid b' = CacheBlk.isValid b /\ CacheBlk.isSecure b' = CacheBlk.isSecure b.
Proof. unfold CacheBlk.isValid, CacheBlk.isSecure. by intros ->. Qed.

(** What an operation of the tag store leaves alone in a block. *)
Record sameLine (b b' : CacheBlk.t) : Prop := {
  sl_set : CacheBlk.set b' = CacheBlk.set b;
  sl_tag : CacheBlk.tag b' = CacheBlk.tag b;
  sl_status : CacheBlk.status b' = CacheBlk.status b;
  sl_data : CacheBlk.data b' = CacheBlk.data b;
  sl_size : CacheBlk.size b' = CacheBlk.size b;
  sl_locks : CacheBlk.lockList b' = CacheBlk.lockList b }.

Lemma sameLine_ok i b b' c c' : tagsOK c -> changed i b b' c c' -> sameLine b b' -> tagsOK c'.
Proof.
  intros Hok Hc [Hs Ht Hst _ _ _]. eapply changed_same_line; try done. destruct (isValid_status b b' Hst) as [E1 E2].
  intros Hv. repeat split; congruence.
Qed.

Lemma baseAccessBlock_spec now a sec c : tagsOK c -> exists r lat c', baseAccessBlock now a sec c = Done (r, lat, c') /\
  (forall k, r = Some k <-> lineAt c a sec k) /\
  match r with
  | Some k => exists b, changed k b (CacheBlk.withRefs (CacheBlk.refCount b + 1) b) c c'
  | None => geo c' = geo c /\ sets c' = sets c /\ blks c' = blks c
  end.
Proof.
  intros Hok. unfold baseAccessBlock. destruct (findBlock_spec c Hok a sec) as (r & -> & Hr). cbn [obind].
  destruct r as [k|]; [|by eexists None, _, _].
  destruct (proj1 (Hr k) eq_refl) as (b & Hb & _). set (c0 := withCounts _ _ c).
  assert (Hg : getBlk k c0 = Done b) by by apply getBlk_Done.
  rewrite Hg. cbn [obind]. unfold updateBlk. rewrite Hg. cbn [obind].
  eexists (Some k), _, _. split; [done|]. split; [done|]. exists b. by apply setBlk_changed.
Qed.

(** A block of a set moves to an end of it. *)
Lemma split_set c s l k : tagsOK c -> sets c !! s = Some l -> k ∈ l -> exists l1 l2, l = l1 ++ k :: l2 /\ k ∉ l1 ++ l2.
Proof.
  intros Hok Hl (l1 & l2 & ->)%list_elem_of_split. exists l1, l2. split; [done|].
  apply (set_NoDup c Hok) in Hl. apply NoDup_app in Hl as (_ & Hd & Hn%NoDup_cons). rewrite elem_of_app. intros [?|?]; [|tauto].
  eapply Hd; [done|by left].
Qed.

Lemma moveToHead_moved c s l1 l2 k : sets c !! Z.to_nat s = Some (l1 ++ k :: l2) -> k ∉ l1 ++ l2 ->
  exists c', updateSet (moveToHead k) s c = Done c' /\ moved (Z.to_nat s) (l1 ++ k :: l2) (k :: l1 ++ l2) c c'.
Proof.
  intros Hl Hk. unfold updateSet, at_. rewrite Hl. cbn [obind].
  rewrite moveToHead_spec by set_solver. cbn [obind]. eexists. split; [done|]. by split.
Qed.

Lemma moveToTail_moved c s l1 l2 k : sets c !! Z.to_nat s = Some (l1 ++ k :: l2) -> k ∉ l1 ++ l2 ->
  exists c', updateSet (moveToTail k) s c = Done c' /\ moved (Z.to_nat s) (l1 ++ k :: l2) ((l1 ++ l2) ++ [k]) c c'.
Proof.
  intros Hl Hk. unfold updateSet, at_. rewrite Hl. cbn [obind].
  rewrite moveToTail_spec by set_solver. cbn [obind]. eexists. split; [done|]. by split.
Qed.

(** A block changes and moves in its set. *)
Record stepped (i : nat) (b b' : CacheBlk.t) (place : list nat -> list nat -> list nat) (c c' : t) : Prop := {
  st_geo : geo c' = geo c;
  st_at : blks c !! i = Some b;
  st_blks : blks c' = <[i := b']> (blks c);
  st_sets : exists l1 l2, sets c !! Z.to_nat (CacheBlk.set b) = Some (l1 ++ i :: l2) /\ i ∉ l1 ++ l2 /\
    sets c' = <[Z.to_nat (CacheBlk.set b) := place l1 l2]> (sets c) }.

Definition toHead (i : nat) (l1 l2 : list nat) : list nat := i :: l1 ++ l2.
Definition toTail (i : nat) (l1 l2 : list nat) : list nat := (l1 ++ l2) ++ [i].

Lemma stepped_intro i b b' place c c1 c2 l1 l2 : changed i b b' c c1 -> i ∉ l1 ++ l2 ->
  moved (Z.to_nat (CacheBlk.set b)) (l1 ++ i :: l2) (place l1 l2) c1 c2 -> stepped i b b' place c c2.
Proof.
  intros [G S A B] Hi [Mg Mb Ma Ms]. split; [congruence|done|congruence|]. exists l1, l2. rewrite <- S. auto.
Qed.

Lemma accessBlock_spec now a sec c : tagsOK c -> exists r lat c', accessBlock now a sec c = Done (r, lat, c') /\
  (forall k, r = Some k <-> lineAt c a sec k) /\
  match r with
  | Some k => exists b, stepped k b (CacheBlk.withRefs (CacheBlk.refCount b + 1) b) (toHead k) c c'
  | None => geo c' = geo c /\ sets c' = sets c /\ blks c' = blks c
  end.
Proof.
  intros Hok. unfold accessBlock. destruct (baseAccessBlock_spec now a sec c Hok) as (r & lat & c1 & -> & Hr & Hc). cbn [obind].
  destruct r as [k|]; [|by eexists None, _, _]. destruct Hc as [b Hc].
  rewrite (proj2 (getBlk_Done _ _ _) (changed_at _ _ _ _ _ Hc)). cbn [obind CacheBlk.withRefs CacheBlk.set].
  destruct (blk_set_exists c Hok k b (ch_at _ _ _ _ _ Hc)) as (l & Hl & Hk).
  destruct (split_set c _ l k Hok Hl Hk) as (l1 & l2 & -> & Hn).
  destruct (moveToHead_moved c1 (CacheBlk.set b) l1 l2 k) as (c2 & -> & Hm); [by rewrite (ch_sets _ _ _ _ _ Hc)|done|].
  cbn [obind]. eexists (Some k), _, _. split; [done|]. split; [done|]. exists b. by eapply stepped_intro.
Qed.

Lemma stepped_invariant i b b' c c' place : (place = toHead i \/ place = toTail i) -> tagsOK c -> stepped i b b' place c c' ->
  CacheBlk.set b' = CacheBlk.set b ->
  (CacheBlk.isValid b' = true -> forall k bk, blks c !! k = Some bk -> k <> i ->
     holds (CacheBlk.tag b') (CacheBlk.isSecure b') bk -> CacheBlk.set bk <> CacheBlk.set b) -> tagsOK c'.
Proof.
  intros Hp Hok [G A B (l1 & l2 & Hl & Hi & Hs)] Es Hu.
  apply (moved_ok (Z.to_nat (CacheBlk.set b)) (l1 ++ i :: l2) (place l1 l2) (withBlks (<[i := b']> (blks c)) c)).
  - by apply (changed_ok i b b' c).
  - by split.
  - destruct Hp as [-> | ->]; unfold toHead, toTail; [|rewrite <- Permutation_cons_append]; by rewrite Permutation_middle.
Qed.

Lemma findVictim_spec a c : tagsOK c -> exists v l, findVictim a c = Done v /\
  sets c !! Z.to_nat (extractSet (geo c) a) = Some (l ++ [v]) /\
  exists b, blks c !! v = Some b /\ CacheBlk.set b = extractSet (geo c) a.
Proof.
  intros Hok. unfold findVictim, at_. destruct (set_exists c Hok a) as [l Hl]. rewrite Hl. cbn [obind].
  assert (Hn : length l = ways c) by (rewrite (to_perm c Hok _ _ Hl); apply length_seq).
  pose proof (ways_pos c Hok). destruct l as [|v l _] using rev_ind; [cbn in Hn; lia|].
  rewrite length_app in Hn. cbn in Hn. replace (Z.to_nat (assoc (geo c) - 1)) with (length l) by (unfold ways in Hn; lia).
  rewrite lookup_app_r, Nat.sub_diag by lia. cbn [lookup list_lookup obind].
  destruct (set_blk c Hok _ _ v Hl) as (b & Hb & Hs); [set_solver|]. rewrite (proj2 (getBlk_Done _ _ _) Hb). cbn [obind].
  exists v, l. split; [done|]. split; [done|]. exists b. split; [done|].
  pose proof (extractSet_range _ (to_geo c Hok) a). lia.
Qed.

(** The block after [insertBlock]: the new tag, and not yet valid. *)
Record inserted (tg m : Z) (b b' : CacheBlk.t) : Prop := {
  in_set : CacheBlk.set b' = CacheBlk.set b;
  in_tag : CacheBlk.tag b' = tg;
  in_status : CacheBlk.status b' = if CacheBlk.isValid b then 0 else CacheBlk.status b;
  in_data : CacheBlk.data b' = CacheBlk.data b;
  in_size : CacheBlk.size b' = CacheBlk.size b;
  in_ready : CacheBlk.whenReady b' = CacheBlk.whenReady b;
  in_source : CacheBlk.srcMasterId b' = m }.

Lemma inserted_invalid tg m b b' : inserted tg m b b' -> CacheBlk.isValid b' = false.
Proof.
  intros [_ _ H _ _ _ _]. unfold CacheBlk.isValid in *. rewrite H. by destruct (Flags.isSet (CacheBlk.status b) _) eqn:E.
Qed.

Lemma touch_changed now i c b : blks c !! i = Some b -> exists c' tt, touch now i c = Done c' /\ changed i b (CacheBlk.withTouched tt b) c c'.
Proof.
  intros Hb. unfold touch. rewrite (proj2 (getBlk_Done _ _ _) Hb). cbn [obind]. destruct (CacheBlk.isTouched b) eqn:E.
  - exists c, true. split; [done|]. replace (CacheBlk.withTouched true b) with b by (destruct b; cbn in *; by subst). by apply changed_refl.
  - eexists _, true. split; [done|]. by split.
Qed.

Lemma evict_changed i c b : blks c !! i = Some b ->
  (CacheBlk.isValid b = true -> CacheBlk.srcMasterId b < maxMasters (geo c)) ->
  exists c', evict i c = Done c' /\
    changed i b (if CacheBlk.isValid b then CacheBlk.invalidate (CacheBlk.withRefs 0 b) else b) c c'.
Proof.
  intros Hb Hm. unfold evict. rewrite (proj2 (getBlk_Done _ _ _) Hb). cbn [obind].
  destruct (CacheBlk.isValid b) eqn:Hv; [|exists c; split; [done|by apply changed_refl]].
  rewrite (proj2 (Z.ltb_lt _ _)) by auto. eexists. split; [done|]. by split.
Qed.

Lemma updateBlk_total f i c b : blks c !! i = Some b -> exists c', updateBlk f i c = Done c' /\ changed i b (f b) c c'.
Proof.
  intros Hb. unfold updateBlk. rewrite (proj2 (getBlk_Done _ _ _) Hb). cbn [obind]. eexists. split; [done|]. by apply setBlk_changed.
Qed.

Lemma baseInsertBlock_spec now p i c b a : Packet.getCacheAddr p = Done a -> blks c !! i = Some b ->
  (CacheBlk.isValid b = true -> CacheBlk.srcMasterId b < maxMasters (geo c)) ->
  Request.masterId (Packet.req p) < maxMasters (geo c) ->
  exists c' b', baseInsertBlock now p i c = Done c' /\ changed i b b' c c' /\
    inserted (extractTag (geo c) a) (Request.masterId (Packet.req p)) b b'.
Proof.
  intros Ha Hb Hm Hr. unfold baseInsertBlock. rewrite Ha. cbn [obind].
  destruct (touch_changed now i c b Hb) as (c1 & tt & -> & H1). cbn [obind].
  destruct (evict_changed i c1 _ (changed_at _ _ _ _ _ H1)) as (c2 & -> & H2).
  { rewrite (ch_geo _ _ _ _ _ H1). exact Hm. }
  cbn [obind].
  destruct (updateBlk_total (fun b => CacheBlk.withTag (extractTag (geo c2) a) (CacheBlk.withTouched true b)) i c2 _
              (changed_at _ _ _ _ _ H2)) as (c3 & -> & H3). cbn [obind].
  pose proof (changed_trans _ _ _ _ _ _ _ (changed_trans _ _ _ _ _ _ _ H1 H2) H3) as H4.
  rewrite (ch_geo _ _ _ _ _ H4), (proj2 (Z.ltb_lt _ _) Hr).
  match goal with |- context [updateBlk ?f i ?c4] =>
    destruct (updateBlk_total f i c4 _ (changed_at _ _ _ _ _ H4)) as (c5 & -> & H5) end. cbn [obind].
  eexists _, _. split; [done|]. split.
  - destruct H4 as [G4 S4 A4 B4], H5 as [G5 S5 A5 B5]. cbn in *. split; cbn; try congruence.
    rewrite B5, B4. apply list_insert_insert_eq.
  - rewrite (ch_geo _ _ _ _ _ H2), (ch_geo _ _ _ _ _ H1).
    change (CacheBlk.isValid (CacheBlk.withTouched tt b)) with (CacheBlk.isValid b).
    split; destruct (CacheBlk.isValid b); done.
Qed.

Lemma insertBlock_spec now p i c b a : tagsOK c -> Packet.getCacheAddr p = Done a -> blks c !! i = Some b ->
  CacheBlk.set b = extractSet (geo c) a ->
  (CacheBlk.isValid b = true -> CacheBlk.srcMasterId b < maxMasters (geo c)) ->
  Request.masterId (Packet.req p) < maxMasters (geo c) ->
  exists c' b', insertBlock now p i c = Done c' /\ stepped i b b' (toHead i) c c' /\
    inserted (extractTag (geo c) a) (Request.masterId (Packet.req p)) b b'.
Proof.
  intros Hok Ha Hb Hs Hm Hr. unfold insertBlock.
  destruct (baseInsertBlock_spec now p i c b a Ha Hb Hm Hr) as (c1 & b' & -> & H1 & H2). cbn [obind]. rewrite Ha. cbn [obind].
  destruct (blk_set_exists c Hok i b Hb) as (l & Hl & Hi). destruct (split_set c _ l i Hok Hl Hi) as (l1 & l2 & -> & Hn).
  rewrite (ch_geo _ _ _ _ _ H1), <- Hs.
  destruct (moveToHead_moved c1 (CacheBlk.set b) l1 l2 i) as (c2 & -> & H3); [by rewrite (ch_sets _ _ _ _ _ H1)|done|].
  exists c2, b'. split; [done|]. split; [by eapply stepped_intro|done].
Qed.

Lemma invalidate_spec now i c b : tagsOK c -> blks c !! i = Some b -> CacheBlk.isValid b = true ->
  CacheBlk.srcMasterId b < maxMasters (geo c) ->
  exists c', invalidate now i c = Done c' /\
    stepped i b (CacheBlk.withSource Request.invldMasterId Request.UnknownTaskId now b) (toTail i) c c'.
Proof.
  intros Hok Hb Hv Hm. unfold invalidate, baseInvalidate. rewrite (proj2 (getBlk_Done _ _ _) Hb). cbn [obind].
  rewrite Hv, (proj2 (Z.ltb_lt _ _) Hm). cbn [negb obind].
  match goal with |- context [setBlk i ?b' ?c0] => assert (H1 : changed i b b' c (setBlk i b' c0)) by (by apply setBlk_changed);
    set (c1 := setBlk i b' c0) in * end.
  rewrite (proj2 (getBlk_Done _ _ _) (changed_at _ _ _ _ _ H1)). cbn [obind CacheBlk.withSource CacheBlk.set].
  destruct (blk_set_exists c Hok i b Hb) as (l & Hl & Hi). destruct (split_set c _ l i Hok Hl Hi) as (l1 & l2 & -> & Hn).
  destruct (moveToTail_moved c1 (CacheBlk.set b) l1 l2 i) as (c2 & -> & H3); [by rewrite (ch_sets _ _ _ _ _ H1)|done|].
  exists c2. split; [done|]. by eapply stepped_intro.
Qed.

(** ** What a finished operation says of its arguments *)

Lemma shiftUntil_elem blk l : forall next r, shiftUntil blk next l = Done r -> blk ∈ l.
Proof.
  induction l as [|x l IH]; cbn; [done|]. intros next r. case_decide; [subst; left|].
  intros (r' & Hr & _)%obind_Done. right. by eapply IH.
Qed.

Lemma moveToHead_elem blk l r : moveToHead blk l = Done r -> blk ∈ l.
Proof.
  unfold moveToHead. intros (x & Hx & H)%obind_Done. case_decide; [|by eapply shiftUntil_elem]. subst x. unfold at_ in Hx.
  destruct (l !! 0%nat) as [y|] eqn:E; [|done]. injection Hx as ->. by eapply list_elem_of_lookup_2.
Qed.

Lemma insertBlock_Done now p i c c' : tagsOK c -> insertBlock now p i c = Done c' ->
  exists a b, Packet.getCacheAddr p = Done a /\ blks c !! i = Some b /\ CacheBlk.set b = extractSet (geo c) a /\
    (CacheBlk.isValid b = true -> CacheBlk.srcMasterId b < maxMasters (geo c)) /\
    Request.masterId (Packet.req p) < maxMasters (geo c).
Proof.
  intros Hok. unfold insertBlock. intros (c4 & Hi & (a & Ha & Hu)%obind_Done)%obind_Done. exists a.
  pose proof Hi as Hi'. unfold baseInsertBlock in Hi'. rewrite Ha in Hi'. cbn [obind] in Hi'.
  apply obind_Done in Hi' as (c1 & Ht & Hi'). assert (exists b, blks c !! i = Some b) as [b Hb].
  { unfold touch in Ht. apply obind_Done in Ht as (b & Hb%getBlk_Done & _). by exists b. }
  exists b. split; [done|]. split; [done|].
  destruct (touch_changed now i c b Hb) as (c1' & tt & Ht' & H1). rewrite Ht in Ht'. injection Ht' as <-.
  apply obind_Done in Hi' as (c2 & He & Hi').
  assert (Hm : CacheBlk.isValid b = true -> CacheBlk.srcMasterId b < maxMasters (geo c)).
  { unfold evict in He. rewrite (proj2 (getBlk_Done _ _ _) (changed_at _ _ _ _ _ H1)) in He. cbn [obind] in He.
    change (CacheBlk.isValid (CacheBlk.withTouched tt b)) with (CacheBlk.isValid b) in He. intros Hv. rewrite Hv in He.
    cbn [CacheBlk.withTouched CacheBlk.srcMasterId] in He. rewrite (ch_geo _ _ _ _ _ H1) in He.
    destruct (Z.ltb_spec (CacheBlk.srcMasterId b) (maxMasters (geo c))); done. }
  destruct (evict_changed i c1 _ (changed_at _ _ _ _ _ H1)) as (c2' & He' & H2); [rewrite (ch_geo _ _ _ _ _ H1); exact Hm|].
  rewrite He in He'. injection He' as <-. apply obind_Done in Hi' as (c3 & (b3 & H3)%updateBlk_changed & Hi').
  rewrite (ch_geo _ _ _ _ _ H3), (ch_geo _ _ _ _ _ H2), (ch_geo _ _ _ _ _ H1) in Hi'.
  destruct (Z.ltb_spec (Request.masterId (Packet.req p)) (maxMasters (geo c))) as [Hr|]; [|done].
  split; [|done]. destruct (baseInsertBlock_spec now p i c b a Ha Hb Hm Hr) as (c4' & b' & Hi4 & H4 & _).
  rewrite Hi in Hi4. injection Hi4 as <-. apply updateSet_moved in Hu as (l & l' & Hl%moveToHead_elem & [_ _ Ml _]).
  rewrite (ch_geo _ _ _ _ _ H4), (ch_sets _ _ _ _ _ H4) in Ml. apply (set_mem c Hok _ _ _ Ml) in Hl.
  rewrite (to_set c Hok i b Hb), Hl. pose proof (extractSet_range _ (to_geo c Hok) a). lia.
Qed.

Lemma invalidate_Done now i c c' : invalidate now i c = Done c' ->
  exists b, blks c !! i = Some b /\ CacheBlk.isValid b = true /\ CacheBlk.srcMasterId b < maxMasters (geo c).
Proof.
  unfold invalidate, baseInvalidate. intros (c1 & (b & Hb%getBlk_Done & H)%obind_Done & _)%obind_Done. exists b. split; [done|].
  destruct (CacheBlk.isValid b); [|done]. cbn [negb] in H. split; [done|].
  by destruct (Z.ltb_spec (CacheBlk.srcMasterId b) (maxMasters (geo c))).
Qed.

(** ** Histories *)

(** A step of the tag store, with what happened to a block.  The cache changes
    blocks besides: it may make a block valid when no block holds its line. *)
Inductive step : t -> list useEvent -> t -> Prop :=
| step_access now a sec c r lat c' : accessBlock now a sec c = Done (r, lat, c') ->
    step c (match r with Some i => [Used i] | None => [] end) c'
| step_insert now p i c c' : insertBlock now p i c = Done c' -> step c [Used i] c'
| step_invalidate now i c c' : invalidate now i c = Done c' -> step c [Dropped i] c'
| step_block i b b' c c' : changed i b b' c c' -> CacheBlk.set b' = CacheBlk.set b ->
    (CacheBlk.isValid b' = true -> holds (CacheBlk.tag b') (CacheBlk.isSecure b') b \/
       forall k bk, blks c !! k = Some bk -> holds (CacheBlk.tag b') (CacheBlk.isSecure b') bk -> CacheBlk.set bk <> CacheBlk.set b) ->
    step c [] c'
| step_clear c : step c [] (clearLocks c).

Inductive reachable (fresh : nat -> buffer) (g : geometry) : list useEvent -> t -> Prop :=
| reach_new : reachable fresh g [] (new fresh g)
| reach_step h c e c' : reachable fresh g h c -> step c e c' -> reachable fresh g (e ++ h) c'.

Definition ordered (h : list useEvent) (c : t) : Prop := forall s l, sets c !! s = Some l -> StronglySorted (newer h) l.

Lemma stepped_ordered e place i b b' h c c' : (e = Used i /\ place = toHead i \/ e = Dropped i /\ place = toTail i) ->
  tagsOK c -> ordered h c -> stepped i b b' place c c' -> ordered (e :: h) c'.
Proof.
  intros He Hok Ho [G A B (l1 & l2 & Hl & Hi & Hs)] s l. rewrite Hs, list_lookup_insert_Some.
  intros [(<- & <- & _)|(Hne & Hl')].
  - destruct He as [[-> ->]|[-> ->]]; [apply used_sorted|apply dropped_sorted]; try done; by eapply Ho.
  - apply (sorted_weaken h); [|by eapply Ho]. intros x Hx. assert (i <> x).
    { intros <-. apply Hne. assert (Hi' : i ∈ l1 ++ i :: l2) by set_solver.
      apply (set_mem c Hok _ _ _ Hl) in Hi'. apply (set_mem c Hok _ _ _ Hl') in Hx. congruence. }
    destruct He as [[-> _]|[-> _]]; cbn [rank]; by rewrite decide_False.
Qed.

Lemma same_line_unique c i b b' : tagsOK c -> blks c !! i = Some b -> CacheBlk.set b' = CacheBlk.set b ->
  (CacheBlk.isValid b' = true -> holds (CacheBlk.tag b') (CacheBlk.isSecure b') b) ->
  CacheBlk.isValid b' = true -> forall k bk, blks c !! k = Some bk -> k <> i ->
  holds (CacheBlk.tag b') (CacheBlk.isSecure b') bk -> CacheBlk.set bk <> CacheBlk.set b.
Proof.
  intros Hok Hb Hs Hl Hv k bk Hk Hne (Hvk & Htk & Hsk) Es. destruct (Hl Hv) as (Hvb & Htb & Hsb). apply Hne.
  eapply (to_unique c Hok k i bk b); try done. repeat split; congruence.
Qed.

Lemma step_ok h c e c' : step c e c' -> tagsOK c -> ordered h c -> tagsOK c' /\ ordered (e ++ h) c'.
Proof.
  intros Hst Hok Ho. destruct Hst as [now a sec c r lat c' H|now p i c c' H|now i c c' H|i b b' c c' Hc Hs Hv|c].
  - destruct (accessBlock_spec now a sec c Hok) as (r' & lat' & c1 & H1 & _ & H2). rewrite H in H1. injection H1 as <- <- <-.
    destruct r as [k|]; [destruct H2 as [b Hb]|].
    + split; [|eapply stepped_ordered; by eauto]. eapply stepped_invariant; [by left|done|done|done|]. eapply same_line_unique; eauto using st_at. by repeat split.
    + destruct H2 as (G & S & B). split; [|intros s l; rewrite S; apply Ho].
      destruct Hok. split; unfold ways in *; rewrite ?G, ?S, ?B; done.
  - destruct (insertBlock_Done now p i c c' Hok H) as (a & b & Ha & Hb & Hs & Hm & Hr).
    destruct (insertBlock_spec now p i c b a Hok Ha Hb Hs Hm Hr) as (c1 & b' & H1 & H2 & H3). rewrite H in H1. injection H1 as <-.
    split; [|eapply stepped_ordered; by eauto]. eapply stepped_invariant; [by left|done|done|by eapply in_set|].
    rewrite (inserted_invalid _ _ _ _ H3). discriminate.
  - destruct (invalidate_Done now i c c' H) as (b & Hb & Hv & Hm).
    destruct (invalidate_spec now i c b Hok Hb Hv Hm) as (c1 & H1 & H2). rewrite H in H1. injection H1 as <-.
    split; [|eapply stepped_ordered; by eauto]. eapply stepped_invariant; [by right|done|done|done|]. eapply same_line_unique; eauto. by repeat split.
  - split; [|intros s l; rewrite (ch_sets _ _ _ _ _ Hc); apply Ho]. eapply changed_ok; eauto. intros Hv' k bk Hk Hne Hh.
    destruct (Hv Hv') as [Hl|Hn]; [|by eapply Hn]. eapply same_line_unique; eauto using ch_at.
  - split; [|exact Ho]. destruct Hok as [G S N P T U].
    assert (Hat : forall k b, blks (clearLocks c) !! k = Some b -> exists b0, blks c !! k = Some b0 /\ b = CacheBlk.withLocks [] b0).
    { intros k b. cbn. rewrite list_lookup_fmap. destruct (blks c !! k) as [b0|]; [|done]. intros [= <-]. by exists b0. }
    split; try done.
    + cbn. by rewrite length_fmap.
    + intros k b (b0 & Hb & ->)%Hat. exact (T k b0 Hb).
    + intros k k' b b' (b0 & Hb & ->)%Hat (b0' & Hb' & ->)%Hat Hh Hv Es. exact (U k k' b0 b0' Hb Hb' Hh Hv Es).
Qed.

Section initial.
Context (fresh : nat -> buffer) (g : geometry) (W : wfGeo g).

Lemma new_set s l : sets (new fresh g) !! s = Some l -> l = seq (s * Z.to_nat (assoc g)) (Z.to_nat (assoc g)).
Proof.
  cbn. rewrite list_lookup_fmap. destruct (seq 0 _ !! s) as [s'|] eqn:E; [|done]. apply lookup_seq in E as [-> _]. by intros [= <-].
Qed.

Lemma new_blk k b : blks (new fresh g) !! k = Some b -> b = initialBlk g fresh k.
Proof.
  cbn. rewrite list_lookup_fmap. destruct (seq 0 _ !! k) as [k'|] eqn:E; [|done]. apply lookup_seq in E as [-> _]. by intros [= <-].
Qed.

Lemma new_ok : tagsOK (new fresh g).
Proof.
  pose proof (wg_assoc g W). split.
  - done.
  - cbn. by rewrite length_fmap, length_seq.
  - cbn. by rewrite !length_fmap, !length_seq.
  - by intros s l ->%new_set.
  - intros k b ->%new_blk. unfold ways. cbn. rewrite Nat2Z.inj_div, Z2Nat.id by lia. done.
  - intros k k' b b' ->%new_blk ->%new_blk _ Hv. discriminate.
Qed.

Lemma new_ordered : ordered [] (new fresh g).
Proof.
  intros s l ->%new_set. generalize (s * Z.to_nat (assoc g))%nat as n. induction (Z.to_nat (assoc g)) as [|k IH]; intros n; cbn [seq];
    constructor; [apply IH|]. rewrite Forall_forall. intros x Hx%elem_of_seq. right. cbn. lia.
Qed.

Lemma reachable_ok h c : reachable fresh g h c -> tagsOK c /\ ordered h c.
Proof.
  induction 1 as [|h c e c' _ [IH1 IH2] Hs]; [split; [apply new_ok|apply new_ordered]|by eapply step_ok].
Qed.

End initial.

(** C26: least recently used replacement.  After any history of the tag store,
    the victim for an address is a block of the address's set, and every other
    block of the set is to be kept rather than it: it was used since, or the
    victim was invalidated since, or neither was ever touched and the victim
    has the higher index. *)
Theorem tags_lru fresh g h c a : wfGeo g -> reachable fresh g h c ->
  exists v b, findVictim a c = Done v /\ blks c !! v = Some b /\ CacheBlk.set b = extractSet (geo c) a /\
    forall k bk, blks c !! k = Some bk -> CacheBlk.set bk = extractSet (geo c) a -> k <> v -> newer h k v.
Proof.
  intros W [Hok Ho]%reachable_ok; [|done]. destruct (findVictim_spec a c Hok) as (v & l & Hv & Hl & b & Hb & Hs).
  exists v, b. do 3 (split; [done|]). intros k bk Hk Hks Hne. apply (sorted_last _ l); [by eapply Ho|].
  assert (Hin : k ∈ l ++ [v]) by (eapply (blk_in_set c Hok); [done|]; by rewrite Hks). set_solver.
Qed.

(** Lookup.  After any history of the tag store a lookup finishes, finds a
    block exactly when the block is valid and holds the address's line with the
    asked security, and no two blocks do; the address regenerated from the
    block is the address of the line. *)
Theorem tags_lookup fresh g h c a sec : wfGeo g -> u64 a -> reachable fresh g h c ->
  exists r, findBlock a sec c = Done r /\ (forall k, r = Some k <-> lineAt c a sec k) /\
    forall k b, r = Some k -> blks c !! k = Some b ->
      regenerateBlkAddr (geo c) (CacheBlk.tag b) (CacheBlk.set b) = blkAlign (geo c) a.
Proof.
  intros W Ha [Hok _]%reachable_ok; [|done]. destruct (findBlock_spec c Hok a sec) as (r & Hr & Hl).
  exists r. split; [done|]. split; [done|]. intros k b (b' & Hb' & Hs & _ & Ht & _)%Hl Hb.
  rewrite Hb in Hb'. injection Hb' as <-. rewrite Ht, Hs. apply regenerate_extract; [apply (to_geo c Hok)|done].
Qed.

(** ** Random replacement *)

Lemma firstInvalid_spec c l : (forall k, k ∈ l -> is_Some (blks c !! k)) -> forall cur,
  (exists v b, firstInvalid (blks c) cur l = Done v /\ v ∈ l /\ blks c !! v = Some b /\ CacheBlk.isValid b = false) \/
  (forall k b, k ∈ l -> blks c !! k = Some b -> CacheBlk.isValid b = true) /\
  firstInvalid (blks c) cur l = match last l with Some v => Done v | None => cur end.
Proof.
  induction l as [|k l IH]; intros Hl cur; cbn [firstInvalid].
  - right. split; [by intros k b ?%not_elem_of_nil|done].
  - destruct (Hl k) as [b Hb]; [by left|]. unfold at_. rewrite Hb. cbn [obind]. destruct (CacheBlk.isValid b) eqn:Hv.
    + destruct (IH (fun k' Hk' => Hl k' (list_elem_of_further _ _ _ Hk')) (Done k)) as [(v & b' & H1 & H2 & H3)|[H1 H2]].
      * left. exists v, b'. split; [done|]. split; [by right|done].
      * right. split; [|rewrite H2, last_cons; by destruct (last l)].
        intros k' b' [->|Hk']%elem_of_cons Hb'; [congruence|by eapply H1].
    + left. exists k, b. split; [done|]. split; [by left|done].
Qed.

(** The random victim is a block of the set, and an invalid one if there is. *)
Lemma randomFindVictim_spec random a c : tagsOK c -> 0 <= random < assoc (geo c) ->
  exists v b, randomFindVictim random a c = Done v /\ blks c !! v = Some b /\ CacheBlk.set b = extractSet (geo c) a /\
    (CacheBlk.isValid b = true -> forall k bk, blks c !! k = Some bk -> CacheBlk.set bk = extractSet (geo c) a -> CacheBlk.isValid bk = true).
Proof.
  intros Hok Hr. unfold randomFindVictim, baseFindVictim, at_. destruct (set_exists c Hok a) as [l Hl]. rewrite Hl. cbn [obind].
  pose proof (extractSet_range _ (to_geo c Hok) a) as Hs.
  assert (Hin : forall k, k ∈ l -> exists b, blks c !! k = Some b /\ CacheBlk.set b = extractSet (geo c) a).
  { intros k Hk. destruct (set_blk c Hok _ _ k Hl Hk) as (b & Hb & Hsb). exists b. split; [done|]. lia. }
  assert (Hn : length l = ways c) by (rewrite (to_perm c Hok _ _ Hl); apply length_seq).
  destruct (firstInvalid_spec c l (fun k Hk => let '(ex_intro _ b (conj Hb _)) := Hin k Hk in ex_intro _ b Hb) Exited)
    as [(v & b & -> & Hv & Hb & Hi)|[Hall ->]]; cbn [obind].
  - rewrite (proj2 (getBlk_Done _ _ _) Hb). cbn [obind]. rewrite Hi. exists v, b. split; [done|]. split; [done|].
    destruct (Hin v Hv) as (b' & Hb' & ?). split; congruence.
  - destruct (last l) as [v|] eqn:El; [|apply last_None in El; subst l; cbn in Hn; pose proof (ways_pos c Hok); lia].
    assert (Hv : v ∈ l) by (apply last_Some in El as [l' ->]; set_solver).
    destruct (Hin v Hv) as (b & Hb & Hsb). cbn [obind]. rewrite (proj2 (getBlk_Done _ _ _) Hb). cbn [obind]. rewrite (Hall v b Hv Hb).
    rewrite (proj2 (Z.ltb_lt _ _)), (proj2 (Z.leb_le _ _)) by lia. cbn [andb].
    destruct (lookup_lt_is_Some_2 l (Z.to_nat random)) as [w Hw]; [rewrite Hn; unfold ways; lia|]. rewrite Hw.
    destruct (Hin w (list_elem_of_lookup_2 _ _ _ Hw)) as (bw & Hbw & Hsw). exists w, bw. do 3 (split; [done|]).
    intros _ k bk Hk Hks. eapply Hall; [|done]. eapply (blk_in_set c Hok); [done|]. by rewrite Hks.
Qed.

(** ** Two sets of two ways, lines of four bytes *)

Definition demoGeo : geometry := mkGeometry 4 2 2 false 1 3 2 1 3 4 4 8 1.
Definition demoFresh (_ : nat) : buffer := [].
Definition demoPacket : Packet.t := Packet.new (Request.physical 0x14 4 0 1 0) MemCmd.ReadReq.
Definition demoTags : t :=
  match insertBlock 5 demoPacket 3 (new demoFresh demoGeo) with Done c => c | _ => new demoFresh demoGeo end.

Lemma demoGeo_wf : wfGeo demoGeo.
Proof. split; vm_compute; (done || split; congruence). Qed.

Lemma demo_reachable : reachable demoFresh demoGeo [Used 3] demoTags.
Proof.
  apply (reach_step demoFresh demoGeo [] (new demoFresh demoGeo) [Used 3] demoTags); [constructor|].
  apply (step_insert 5 demoPacket). vm_compute. reflexivity.
Qed.

Lemma tags_lru_witness : exists v b, findVictim 0x14 demoTags = Done v /\ blks demoTags !! v = Some b /\ v = 2%nat.
Proof.
  destruct (tags_lru demoFresh demoGeo [Used 3] demoTags 0x14 demoGeo_wf demo_reachable) as (v & b & H1 & H2 & _).
  exists v, b. split; [exact H1|]. split; [exact H2|]. vm_compute in H1. by injection H1.
Defined.

Lemma tags_lookup_witness : exists r, findBlock 0x14 false demoTags = Done r /\ forall k, r = Some k <-> lineAt demoTags 0x14 false k.
Proof.
  destruct (tags_lookup demoFresh demoGeo [Used 3] demoTags 0x14 false demoGeo_wf) as (r & H1 & H2 & _).
  - split; reflexivity || discriminate.
  - exact demo_reachable.
  - exists r. exact (conj H1 H2).
Defined.

End CacheTagsInv.
