(* ===== verification/MSHR.v ===== *)
(** * Miss status holding registers: gem5/src/mem/cache/mshr.hh and mshr.cc

    A register holds the requests that wait for one line.  Registers of all
    caches live in one heap, by their address: a packet that comes from a cache
    above carries the register of that cache among its sender states, and the
    flag [downstreamPending] of that register is set and cleared from below. *)

From stdpp Require Import base gmap list numbers.
From Stdlib Require Import ZArith Lia.
From S2P Require Import Prelude Bits MemCmd Request Packet.

#[local] Open Scope Z_scope.
#[local] Open Scope outcome_scope.

Module MSHR.

(** ** Data *)

Inductive Source := FromCPU | FromSnoop | FromPrefetcher.
#[global] Instance Source_eq_dec : EqDecision Source.
Proof. solve_decision. Defined.

Record Target := mkTarget {
  recvTime : Z;
  t_readyTime : Z;
  t_order : Z;
  pkt : Packet.t;
  source : Source;
  markedPending : bool
}.

Record TargetList := mkTargets {
  elems : list Target;
  tl_needsExclusive : bool;
  hasUpgrade : bool
}.

Definition noTargets : TargetList := mkTargets [] false false.
Definition resetFlags (l : TargetList) : TargetList := mkTargets (elems l) false false.
Definition isReset (l : TargetList) : bool := negb (tl_needsExclusive l) && negb (hasUpgrade l).

(** The register; its places in the lists of its queue are left to the queue. *)
Record t := mk {
  readyTime : Z;
  isUncacheable : bool;
  downstreamPending : bool;
  pendingDirty : bool;
  postInvalidate : bool;
  postDowngrade : bool;
  order : Z;
  addr : Z;
  size : Z;
  isSecure : bool;
  inService : bool;
  isForward : bool;
  threadNum : Z;
  targets : TargetList;
  deferredTargets : TargetList
}.

Definition InvalidThreadID : Z := -1.

Definition new : t :=
  mk 0 false false false false false 0 0 0 false false false InvalidThreadID noTargets noTargets.

(** Updates of some fields. *)
Definition withDownstream (b : bool) (m : t) : t :=
  mk (readyTime m) (isUncacheable m) b (pendingDirty m) (postInvalidate m) (postDowngrade m) (order m) (addr m) (size m)
     (isSecure m) (inService m) (isForward m) (threadNum m) (targets m) (deferredTargets m).
Definition withLists (ts ds : TargetList) (m : t) : t :=
  mk (readyTime m) (isUncacheable m) (downstreamPending m) (pendingDirty m) (postInvalidate m) (postDowngrade m) (order m)
     (addr m) (size m) (isSecure m) (inService m) (isForward m) (threadNum m) ts ds.
Definition withService (s dirty inval down : bool) (m : t) : t :=
  mk (readyTime m) (isUncacheable m) (downstreamPending m) dirty inval down (order m)
     (addr m) (size m) (isSecure m) s (isForward m) (threadNum m) (targets m) (deferredTargets m).
Definition withInService (s : bool) (m : t) : t :=
  withService s (pendingDirty m) (postInvalidate m) (postDowngrade m) m.
Definition withTime (o r : Z) (m : t) : t :=
  mk r (isUncacheable m) (downstreamPending m) (pendingDirty m) (postInvalidate m) (postDowngrade m) o
     (addr m) (size m) (isSecure m) (inService m) (isForward m) (threadNum m) (targets m) (deferredTargets m).

Definition onTargets (deferred : bool) (f : TargetList -> TargetList) (m : t) : t :=
  if deferred then withLists (targets m) (f (deferredTargets m)) m
  else withLists (f (targets m)) (deferredTargets m) m.

(** ** The heap of registers *)

Abbreviation heap := (gmap nat t).

Definition get (i : nat) (h : heap) : outcome t := match h !! i with Some m => Done m | None => Exited end.
Definition modify (f : t -> t) (i : nat) (h : heap) : outcome heap := let! m := get i h in Done (<[i := f m]> h).

(** [findNextSenderState<MSHR>()] *)
Definition upstream (h : heap) (p : Packet.t) : option nat :=
  Packet.findNextSenderState (fun s => bool_decide (is_Some (h !! s))) p.

(** ** Accessors *)

Definition needsExclusive (m : t) : bool := tl_needsExclusive (targets m).
Definition isPendingDirty (m : t) : outcome bool := if inService m then Done (pendingDirty m) else Exited.
Definition hasPostInvalidate (m : t) : outcome bool := if inService m then Done (postInvalidate m) else Exited.
Definition hasPostDowngrade (m : t) : outcome bool := if inService m then Done (postDowngrade m) else Exited.

Definition getNumTargets (m : t) : nat := (length (elems (targets m)) + length (elems (deferredTargets m)))%nat.
Definition hasTargets (m : t) : bool := match elems (targets m) with [] => false | _ => true end.
Definition getTarget (m : t) : outcome Target := match elems (targets m) with x :: _ => Done x | [] => Exited end.

Definition popFront (l : TargetList) : TargetList := mkTargets (tail (elems l)) (tl_needsExclusive l) (hasUpgrade l).
Definition popTarget (m : t) : outcome t := if hasTargets m then Done (onTargets false popFront m) else Exited.

Definition isForwardNoResponse (m : t) : outcome bool :=
  if decide (getNumTargets m = 1%nat) then
    let! tgt := getTarget m in
    Done (bool_decide (source tgt = FromCPU) && negb (MemCmd.needsResponse (Packet.cmd (pkt tgt))))
  else Done false.

(** ** Target lists *)

(** [add]: the flags of the list. *)
Definition addFlags (p : Packet.t) (src : Source) (l : TargetList) : TargetList :=
  if decide (src = FromSnoop) then l
  else mkTargets (elems l) (tl_needsExclusive l || MemCmd.needsExclusive (Packet.cmd p))
         (hasUpgrade l || (MemCmd.isUpgrade (Packet.cmd p) || bool_decide (Packet.cmd p = MemCmd.StoreCondReq))).
Definition pushBack (x : Target) (l : TargetList) : TargetList :=
  mkTargets (elems l ++ [x]) (tl_needsExclusive l) (hasUpgrade l).

(** [add] to one of the two lists of register [i]. *)
Definition add (now : Z) (deferred : bool) (i : nat) (p : Packet.t) (ready ord : Z) (src : Source) (markPending : bool)
    (h : heap) : outcome heap :=
  let! h := modify (onTargets deferred (addFlags p src)) i h in
  let! h := (if markPending then
               match upstream h p with
               | Some j =>
                   let! u := get j h in
                   if downstreamPending u then Exited else Done (<[j := withDownstream true u]> h)
               | None => Done h
               end
             else Done h) in
  modify (onTargets deferred (pushBack (mkTarget now ready ord p src markPending))) i h.

Definition replaceUpgrade (p : Packet.t) : Packet.t :=
  match Packet.cmd p with
  | MemCmd.UpgradeReq => Packet.withCmd MemCmd.ReadExReq p
  | MemCmd.SCUpgradeReq => Packet.withCmd MemCmd.SCUpgradeFailReq p
  | MemCmd.StoreCondReq => Packet.withCmd MemCmd.StoreCondFailReq p
  | _ => p
  end.
Definition onPkt (f : Packet.t -> Packet.t) (x : Target) : Target :=
  mkTarget (recvTime x) (t_readyTime x) (t_order x) (f (pkt x)) (source x) (markedPending x).
Definition replaceUpgrades (l : TargetList) : TargetList :=
  if hasUpgrade l then mkTargets (map (onPkt replaceUpgrade) (elems l)) (tl_needsExclusive l) false else l.

(** [TargetList::clearDownstreamPending()], with the register's own. *)
Fixpoint clearTargets (rec : nat -> heap -> outcome heap) (l : list Target) (h : heap) : outcome heap :=
  match l with
  | [] => Done h
  | x :: l =>
      let! h := (if markedPending x then match upstream h (pkt x) with Some j => rec j h | None => Done h end else Done h) in
      clearTargets rec l h
  end.

(** [MSHR::clearDownstreamPending()] *)
Fixpoint clearDownstreamPending (fuel : nat) (i : nat) (h : heap) : outcome heap :=
  match fuel with
  | O => OutOfFuel
  | S fuel =>
      let! m := get i h in
      if negb (downstreamPending m) then Exited
      else clearTargets (clearDownstreamPending fuel) (elems (targets m)) (<[i := withDownstream false m]> h)
  end.

(** How many registers are marked. *)
Definition marked (h : heap) : nat := base.size (filter (fun '(_, m) => downstreamPending m = true) h).

Definition clearList (l : TargetList) (h : heap) : outcome heap :=
  clearTargets (clearDownstreamPending (S (marked h))) (elems l) h.

(** [TargetList::checkFunctional(pkt)]: the result, the packet and the list. *)
Fixpoint checkTargets (p : Packet.t) (l : list Target) : outcome (bool * Packet.t * list Target) :=
  match l with
  | [] => Done (false, p, [])
  | x :: l =>
      let! (r, p, q) := Packet.checkFunctionalPacket (pkt x) p in
      let x := onPkt (fun _ => q) x in
      if r then Done (true, p, x :: l)
      else let! (r, p, l) := checkTargets p l in Done (r, p, x :: l)
  end.
Definition withElems (e : list Target) (l : TargetList) : TargetList := mkTargets e (tl_needsExclusive l) (hasUpgrade l).

(** ** The register *)

Definition allocate (now : Z) (a n : Z) (target : Packet.t) (whenReady ord : Z) (i : nat) (h : heap) : outcome heap :=
  let! m := get i h in
  let! sec := Packet.isSecure target in
  if negb (isReset (targets m)) then Exited
  else
    let h := <[i := mk whenReady (Request.isUncacheable (Packet.req target)) false (pendingDirty m) (postInvalidate m)
                      (postDowngrade m) ord a n sec false false 0 (targets m) (deferredTargets m)]> h in
    let src := if decide (Packet.cmd target = MemCmd.HardPFReq) then FromPrefetcher else FromCPU in
    let! h := add now false i target whenReady ord src true h in
    let! m := get i h in
    if isReset (deferredTargets m) then Done h else Exited.

(** [markInService]: whether the register is to be freed. *)
Definition markInService (pending_dirty_resp : bool) (i : nat) (h : heap) : outcome (bool * heap) :=
  let! m := get i h in
  if inService m then Exited
  else
    let! fwd := isForwardNoResponse m in
    if fwd then let! m := popTarget m in Done (true, <[i := m]> h)
    else
      let m := withService true (tl_needsExclusive (targets m) || pending_dirty_resp) false false m in
      let h := <[i := m]> h in
      let! h := (if downstreamPending m then Done h else clearList (targets m) h) in
      Done (false, h).

Definition deallocate (i : nat) (h : heap) : outcome heap :=
  let! m := get i h in
  if hasTargets m then Exited
  else if isReset (deferredTargets m)
  then Done (<[i := withInService false (onTargets false resetFlags m)]> h) else Exited.

(** The condition of [allocateTarget] to defer a packet. *)
Definition defers (p : Packet.t) (m : t) : outcome bool :=
  if negb (inService m) then Done false
  else match elems (deferredTargets m) with
  | _ :: _ => Done true
  | [] =>
      let! inval := hasPostInvalidate m in
      if inval then Done true
      else if MemCmd.needsExclusive (Packet.cmd p) then
        let! dirty := isPendingDirty m in
        if negb dirty then Done true
        else let! down := hasPostDowngrade m in Done (down || isForward m)
      else Done false
  end.

Definition allocateTarget (now : Z) (p : Packet.t) (whenReady ord : Z) (i : nat) (h : heap) : outcome heap :=
  if decide (Packet.cmd p = MemCmd.HardPFReq) then Exited
  else
    let! m := get i h in
    let! d := defers p m in
    if d then
      let! inval := hasPostInvalidate m in
      add now true i (if inval then replaceUpgrade p else p) whenReady ord FromCPU true h
    else add now false i p whenReady ord FromCPU (negb (inService m)) h.

(** [handleSnoop]: whether the snoop is dealt with, the packet and the heap;
    [fresh] is the contents of a new buffer. *)
Definition handleSnoop (fresh : Z -> buffer) (now : Z) (p : Packet.t) (ord : Z) (i : nat) (h : heap)
    : outcome (bool * Packet.t * heap) :=
  let! m := get i h in
  let excl := MemCmd.needsExclusive (Packet.cmd p) in
  if negb (inService m) || (Packet.isExpressSnoop p && downstreamPending m) then
    let m := if excl then withLists (replaceUpgrades (targets m)) (replaceUpgrades (deferredTargets m)) m else m in
    Done (false, p, <[i := m]> h)
  else
    let m := if excl then onTargets true replaceUpgrades m else m in
    let h := <[i := m]> h in
    if postInvalidate m then Done (true, p, h)
    else
      let! (p, h) :=
        (if pendingDirty m || MemCmd.isInvalidate (Packet.cmd p) then
           let! cp := Packet.copy fresh true true p in
           let! h := add now false i cp now ord FromSnoop (downstreamPending m && tl_needsExclusive (targets m)) h in
           let! p := (if pendingDirty m
                      then let! p := Packet.assertMemInhibit p in Done (Packet.setSupplyExclusive p) else Done p) in
           let! h := (if excl then modify (fun m => withService (inService m) (pendingDirty m) true (postDowngrade m) m) i h
                      else Done h) in
           Done (p, h)
         else Done (p, h)) in
      if excl then Done (true, p, h)
      else
        let! h := modify (fun m => withService (inService m) (pendingDirty m) (postInvalidate m) true m) i h in
        Done (true, Packet.assertShared p, h).

Definition promoteDeferredTargets (now : Z) (i : nat) (h : heap) : outcome (bool * heap) :=
  let! m := get i h in
  if hasTargets m then Exited
  else match elems (deferredTargets m) with
  | [] => Done (false, h)
  | x :: _ =>
      let m := withLists (deferredTargets m) (resetFlags (targets m)) m in
      Done (true, <[i := withTime (t_order x) (Z.max now (t_readyTime x)) m]> h)
  end.

(** [handleFill(pkt, blk)] *)
Definition handleFill (p : Packet.t) (i : nat) (h : heap) : outcome heap :=
  let! m := get i h in
  if Packet.sharedAsserted p then Done h
  else
    let! inval := hasPostInvalidate m in
    if inval then Done h
    else
      let! down := hasPostDowngrade m in
      if down then Done h
      else if negb (tl_needsExclusive (deferredTargets m)) then Done h
      else if tl_needsExclusive (targets m) then Exited
      else if downstreamPending m then Exited
      else
        let! h := clearList (deferredTargets m)
                    (<[i := onTargets false (fun l => mkTargets (elems l) true (hasUpgrade l)) m]> h) in
        modify (fun m => withLists (mkTargets (elems (targets m) ++ elems (deferredTargets m))
                                      (tl_needsExclusive (targets m)) (hasUpgrade (targets m))) noTargets m) i h.

(** [checkFunctional(pkt)] *)
Definition checkFunctional (p : Packet.t) (i : nat) (h : heap) : outcome (bool * Packet.t * heap) :=
  let! m := get i h in
  if MemCmd.isPrint (Packet.cmd p) then
    let! (_, p, _) := Packet.checkFunctional (addr m) (isSecure m) (size m) None p in
    Done (false, p, h)
  else
    let! (r, p, ts) := checkTargets p (elems (targets m)) in
    let m := onTargets false (withElems ts) m in
    if r then Done (true, p, <[i := m]> h)
    else
      let! (r, p, ds) := checkTargets p (elems (deferredTargets m)) in
      Done (r, p, <[i := onTargets true (withElems ds) m]> h).

End MSHR.
