(* ===== verification/MSHRCorrect.v ===== *)
(** * Miss status holding registers: what they keep

    The downstream marks are cleared along the chain of caches and the
    recursion ends; a snoop that takes the line away leaves no request that
    relies on a copy of it. *)

From Stdlib Require Import ZArith Lia.
From stdpp Require Import base gmap numbers list.
From S2P Require Import Prelude Bits MemCmd Request Packet MSHR.

#[local] Open Scope Z_scope.
#[local] Open Scope outcome_scope.

Module MSHRCorrect.
Import MSHR.

(** ** The recursion ends *)

(** The second heap is the first with some marks cleared. *)
Definition lessMarked (h h' : heap) : Prop :=
  forall j, h' !! j = h !! j \/ exists m, h !! j = Some m /\ h' !! j = Some (withDownstream false m).

#[local] Instance lessMarked_preorder : PreOrder lessMarked.
Proof.
  split; [by left|]. intros h1 h2 h3 H1 H2 j. destruct (H2 j) as [->|(m & E & ->)]; [apply H1|]. right.
  destruct (H1 j) as [E'|(m' & E1 & E2)]; [exists m; by rewrite <- E'|].
  exists m'. split; [done|]. rewrite E in E2. injection E2 as ->. done.
Qed.

Lemma lessMarked_clear h i m : h !! i = Some m -> lessMarked h (<[i := withDownstream false m]> h).
Proof.
  intros E j. destruct (decide (i = j)) as [<-|Hne]; [right; exists m; by rewrite lookup_insert_eq|left; by rewrite lookup_insert_ne].
Qed.

Lemma marked_mono h h' : lessMarked h h' -> (marked h' <= marked h)%nat.
Proof.
  intros Hl. unfold marked. rewrite <- !size_dom. apply subseteq_size. intros j.
  rewrite !elem_of_dom. intros [m [E Hm]%map_lookup_filter_Some].
  destruct (Hl j) as [E'|(m' & _ & E')]; rewrite E' in E; [|by injection E as <-].
  exists m. by apply map_lookup_filter_Some.
Qed.

Lemma marked_clear h i m : h !! i = Some m -> downstreamPending m = true ->
  (marked (<[i := withDownstream false m]> h) < marked h)%nat.
Proof.
  intros E Hm. unfold marked. rewrite <- !size_dom. apply subset_size. split.
  - intros j. rewrite !elem_of_dom. intros [x [Ex Hx]%map_lookup_filter_Some].
    rewrite lookup_insert_Some in Ex. destruct Ex as [[<- <-]|[Hne Ex]]; [done|]. exists x. by apply map_lookup_filter_Some.
  - intros Hs. specialize (Hs i). rewrite !elem_of_dom in Hs.
    destruct Hs as [x [Ex Hx]%map_lookup_filter_Some]; [exists m; by apply map_lookup_filter_Some|].
    rewrite lookup_insert_eq in Ex. by injection Ex as <-.
Qed.

Definition ends (r : outcome heap) (h : heap) : Prop := r <> OutOfFuel /\ forall h', r = Done h' -> lessMarked h h'.

Lemma clearTargets_ends rec l : forall h,
  (forall j h1, lessMarked h h1 -> ends (rec j h1) h1) -> ends (clearTargets rec l h) h.
Proof.
  induction l as [|x l IH]; intros h Hrec; cbn [clearTargets].
  - split; [done|]. intros h' [= <-]. reflexivity.
  - assert (Hx : ends (if markedPending x then match upstream h (pkt x) with Some j => rec j h | None => Done h end else Done h) h).
    { destruct (markedPending x); [destruct (upstream h (pkt x)); [apply Hrec; reflexivity|]|];
        split; try done; intros h' [= <-]; reflexivity. }
    destruct Hx as [Hf Hd]. destruct (if markedPending x then _ else _) as [h1| |] eqn:E; cbn [obind]; [|done|done].
    specialize (Hd h1 eq_refl). destruct (IH h1) as [Hf' Hd']; [intros j h2 H2; apply Hrec; by etrans|].
    split; [done|]. intros h' Hh'%Hd'. by etrans.
Qed.

Lemma clear_ends fuel : forall i h, (marked h < fuel)%nat -> ends (clearDownstreamPending fuel i h) h.
Proof.
  induction fuel as [|fuel IH]; intros i h Hf; [lia|]. cbn [clearDownstreamPending]. unfold get.
  destruct (h !! i) as [m|] eqn:E; cbn [obind]; [|done]. destruct (downstreamPending m) eqn:Hm; cbn [negb]; [|done].
  pose proof (marked_clear h i m E Hm) as Hlt. pose proof (lessMarked_clear h i m E) as Hl.
  destruct (clearTargets_ends (clearDownstreamPending fuel) (elems (targets m)) (<[i := withDownstream false m]> h)) as [H1 H2].
  - intros j h1 Hj. apply IH. apply marked_mono in Hj. lia.
  - split; [done|]. intros h' Hh'%H2. by etrans.
Qed.

(** More fuel changes nothing. *)
Lemma clearTargets_mono (r1 r2 : nat -> heap -> outcome heap) l : (forall j h, r1 j h <> OutOfFuel -> r2 j h = r1 j h) ->
  forall h, clearTargets r1 l h <> OutOfFuel -> clearTargets r2 l h = clearTargets r1 l h.
Proof.
  intros Hr. induction l as [|x l IH]; intros h Hf; cbn [clearTargets] in *; [done|].
  set (s := fun r : nat -> heap -> outcome heap => if markedPending x then match upstream h (pkt x) with Some j => r j h | None => Done h end else Done h).
  assert (E : s r2 = s r1).
  { unfold s in *. destruct (markedPending x); [|done]. destruct (upstream h (pkt x)) as [j|]; [|done]. apply Hr.
    intros E. by rewrite E in Hf. }
  fold (s r1) in Hf |- *. fold (s r2). rewrite E. destruct (s r1) as [h1| |]; cbn [obind] in *; [by apply IH|done|done].
Qed.

Lemma clear_mono f : forall f' i h, (f <= f')%nat -> clearDownstreamPending f i h <> OutOfFuel ->
  clearDownstreamPending f' i h = clearDownstreamPending f i h.
Proof.
  induction f as [|f IH]; intros f' i h Hle Hf; [done|]. destruct f' as [|f']; [lia|]. cbn [clearDownstreamPending] in *.
  destruct (get i h) as [m| |]; cbn [obind] in *; [|done|done]. destruct (negb (downstreamPending m)); [done|].
  apply clearTargets_mono; [|done]. intros j h1. apply IH. lia.
Qed.

(** ** What is cleared *)

(** The registers above the marked targets of a list. *)
Definition above (h : heap) (l : list Target) : list nat :=
  omap (fun x => if markedPending x then upstream h (pkt x) else None) l.

(** The marked registers form a tree above [i], with the nodes [S]. *)
Fixpoint upTree (d : nat) (h : heap) (i : nat) (S : gset nat) : Prop :=
  match d with
  | O => False
  | S d => exists m Ss, h !! i = Some m /\ downstreamPending m = true /\
      Forall2 (upTree d h) (above h (elems (targets m))) Ss /\
      (forall k1 k2 S1 S2, Ss !! k1 = Some S1 -> Ss !! k2 = Some S2 -> k1 <> k2 -> S1 ## S2) /\
      i ∉ ⋃ Ss /\ S = {[ i ]} ∪ ⋃ Ss
  end.

(** The heap with the marks of [S] cleared. *)
Definition clearIn (S : gset nat) (h : heap) : heap :=
  map_imap (fun j m => Some (if decide (j ∈ S) then withDownstream false m else m)) h.

Lemma lookup_clearIn S h j : clearIn S h !! j = (fun m => if decide (j ∈ S) then withDownstream false m else m) <$> h !! j.
Proof. unfold clearIn. rewrite map_lookup_imap. by destruct (h !! j). Qed.

Lemma clearIn_clearIn S T h : clearIn T (clearIn S h) = clearIn (S ∪ T) h.
Proof.
  apply map_eq. intros j. rewrite !lookup_clearIn. destruct (h !! j) as [m|]; [|done]. cbn. f_equal.
  destruct (decide (j ∈ S)), (decide (j ∈ T)), (decide (j ∈ S ∪ T)); try done; set_solver.
Qed.

Lemma clearIn_singleton h i m : h !! i = Some m -> <[i := withDownstream false m]> h = clearIn {[ i ]} h.
Proof.
  intros E. apply map_eq. intros j. rewrite lookup_clearIn. destruct (decide (i = j)) as [<-|Hne].
  - rewrite lookup_insert_eq, E. cbn. rewrite decide_True by set_solver. done.
  - rewrite lookup_insert_ne by done. destruct (h !! j); [|done]. cbn. rewrite decide_False by set_solver. done.
Qed.

Lemma list_find_ext {A} (P Q : A -> Prop) `{forall x, Decision (P x), forall x, Decision (Q x)} l :
  (forall x, P x <-> Q x) -> list_find P l = list_find Q l.
Proof.
  intros E. induction l as [|x l IH]; [done|]. cbn. destruct (decide (P x)) as [p|p], (decide (Q x)) as [q|q]; try done;
    [by apply E in p|by apply E in q|by rewrite IH].
Qed.

Lemma upstream_clearIn S h p : upstream (clearIn S h) p = upstream h p.
Proof.
  unfold upstream, Packet.findNextSenderState. f_equal. apply list_find_ext. intros s.
  rewrite !bool_decide_eq_true. rewrite lookup_clearIn. destruct (h !! s); cbn; split; intros [? ?]; done || by eexists.
Qed.

Lemma above_clearIn S h l : above (clearIn S h) l = above h l.
Proof. unfold above. induction l as [|x l IH]; [done|]. cbn. by rewrite upstream_clearIn, IH. Qed.

Lemma upTree_clearIn d : forall h i S X, upTree d h i S -> S ## X -> upTree d (clearIn X h) i S.
Proof.
  induction d as [|d IH]; intros h i S X; [done|]. cbn [upTree]. intros (m & Ss & E & Hm & HF & Hdj & Hi & ->) HX.
  exists m, Ss. rewrite lookup_clearIn, E. cbn. rewrite decide_False by set_solver. do 2 (split; [done|]).
  rewrite above_clearIn. split; [|done]. assert (HX' : ⋃ Ss ## X) by set_solver. clear HX Hdj Hi.
  induction HF as [|j Sj js Ss Hj HF IHF]; constructor; [apply IH; [done|]|apply IHF]; cbn in HX'; set_solver.
Qed.

Lemma clearTargets_tree d fuel l Ss : forall h,
  (forall j S h1, upTree d h1 j S -> clearDownstreamPending fuel j h1 = Done (clearIn S h1)) ->
  Forall2 (upTree d h) (above h l) Ss ->
  (forall k1 k2 S1 S2, Ss !! k1 = Some S1 -> Ss !! k2 = Some S2 -> k1 <> k2 -> S1 ## S2) ->
  clearTargets (clearDownstreamPending fuel) l h = Done (clearIn (⋃ Ss) h).
Proof.
  revert Ss. induction l as [|x l IH]; intros Ss h Hrec HF Hdj.
  - inversion HF; subst. cbn. f_equal. apply map_eq. intros j. rewrite lookup_clearIn. by destruct (h !! j).
  - unfold above in HF. cbn [omap list_omap] in HF. cbn [clearTargets].
    destruct (markedPending x); [destruct (upstream h (pkt x)) as [j|]|].
    2,3: cbn [obind]; by apply IH.
    inversion HF as [|? U ? Ss' Hj HF']; subst. rewrite (Hrec j U h Hj). cbn [obind]. rewrite (IH Ss').
    + by rewrite clearIn_clearIn.
    + done.
    + rewrite above_clearIn. assert (HS : forall T, T ∈ Ss' -> T ## U).
      { intros T [k Hk]%list_elem_of_lookup. symmetry. by apply (Hdj 0%nat (S k)%nat). }
      clear -HF' HS. fold (above h l) in HF'. induction HF' as [|j' T js Ts Hj' HF' IH]; constructor.
      * apply upTree_clearIn; [done|]. apply HS. by left.
      * apply IH. intros T' HT'. apply HS. by right.
    + intros k1 k2 S1 S2 H1 H2 Hne. apply (Hdj (S k1) (S k2)); [done|done|lia].
Qed.

Lemma clear_tree d : forall i S h, upTree d h i S -> clearDownstreamPending d i h = Done (clearIn S h).
Proof.
  induction d as [|d IH]; intros i S h; [done|]. cbn [upTree]. intros (m & Ss & E & Hm & HF & Hdj & Hi & ->).
  cbn [clearDownstreamPending]. unfold get. rewrite E. cbn [obind]. rewrite Hm. cbn [negb].
  rewrite (clearIn_singleton h i m E), (clearTargets_tree d d _ Ss); [by rewrite clearIn_clearIn|done| |done].
  rewrite above_clearIn. assert (HS : forall T, T ∈ Ss -> T ## {[ i ]}) by (intros T HT x Hx ->%elem_of_singleton; apply Hi, elem_of_union_list; by exists T).
  clear -HF HS. induction HF as [|j T js Ts Hj HF IH]; constructor.
  - apply upTree_clearIn; [done|]. apply HS. by left.
  - apply IH. intros T' HT'. apply HS. by right.
Qed.

(** Clearing downstream marks.  The recursion up the chain of caches ends:
    with as much fuel as there are marked registers, and one more, it never
    runs out, and if no assertion fails it only clears marks.  When the marked
    registers above the first form a tree, no assertion fails and exactly the
    marks of the tree are cleared. *)
Theorem clear_marks i h fuel : (marked h < fuel)%nat ->
  (clearDownstreamPending fuel i h <> OutOfFuel /\
   forall h', clearDownstreamPending fuel i h = Done h' -> lessMarked h h') /\
  forall d S, upTree d h i S -> clearDownstreamPending fuel i h = Done (clearIn S h).
Proof.
  intros Hf. destruct (clear_ends fuel i h Hf) as [H1 H2]. split; [done|]. intros d S Hd%clear_tree.
  assert (Hx : clearDownstreamPending (Nat.max d fuel) i h = Done (clearIn S h)).
  { rewrite (clear_mono d), Hd by (lia || congruence). done. }
  by rewrite <- (clear_mono fuel (Nat.max d fuel)) by (lia || done).
Qed.

(** A register whose one request comes from register 1 of the cache above. *)
Definition twoLevels : heap :=
  let p := Packet.pushSenderState 1 (Packet.new (Request.physical 0x40 8 0 0 0) MemCmd.ReadReq) in
  {[ 0%nat := withDownstream true (withLists (mkTargets [mkTarget 0 0 0 p FromCPU true] false false) noTargets new);
     1%nat := withDownstream true new ]}.

Lemma clear_marks_witness : clearDownstreamPending 3 0 twoLevels = Done (clearIn {[ 0%nat; 1%nat ]} twoLevels).
Proof.
  apply (proj2 (clear_marks 0 twoLevels 3 ltac:(vm_compute; lia)) 2%nat).
  eexists _, [{[ 1%nat ]}]. split; [reflexivity|]. split; [reflexivity|]. split.
  - constructor; [|constructor]. eexists _, []. split; [reflexivity|]. split; [reflexivity|]. split; [constructor|].
    split; [|split; [set_solver|set_solver]]. intros k1 k2 S1 S2 H. discriminate H.
  - split; [|split; set_solver]. intros k1 k2 S1 S2 H1 H2 Hne.
    apply list_lookup_singleton_Some in H1 as [-> _], H2 as [-> _]. lia.
Defined.

(** ** Requests that rely on a copy of the line *)

(** An upgrade and a store-conditional are for a cache that has a copy. *)
Definition relies (p : Packet.t) : bool := MemCmd.isUpgrade (Packet.cmd p) || bool_decide (Packet.cmd p = MemCmd.StoreCondReq).

Definition isRequester (x : Target) : Prop := source x <> FromSnoop /\ MemCmd.isRequest (Packet.cmd (pkt x)) = true.
Definition noReliance (l : TargetList) : Prop := forall x, x ∈ elems l -> isRequester x -> relies (pkt x) = false.

(** The flags of a list cover its targets. *)
Definition flagsOK (l : TargetList) : Prop := forall x, x ∈ elems l -> isRequester x ->
  (relies (pkt x) = true -> hasUpgrade l = true) /\ (MemCmd.needsExclusive (Packet.cmd (pkt x)) = true -> tl_needsExclusive l = true).

(** [F]: the registers whose targets are being served after a fill. *)
Record regOK (F : gset nat) (i : nat) (m : t) : Prop := {
  ro_targets : i ∉ F -> flagsOK (targets m);
  ro_deferred : flagsOK (deferredTargets m);
  ro_inval : inService m = true -> postInvalidate m = true -> noReliance (deferredTargets m) }.
Definition heapOK (F : gset nat) (h : heap) : Prop := forall i m, h !! i = Some m -> regOK F i m.

Lemma replaceUpgrade_ok p : MemCmd.isRequest (Packet.cmd (replaceUpgrade p)) = MemCmd.isRequest (Packet.cmd p) /\
  (MemCmd.isRequest (Packet.cmd p) = true -> relies (replaceUpgrade p) = false) /\
  (MemCmd.needsExclusive (Packet.cmd (replaceUpgrade p)) = true -> MemCmd.needsExclusive (Packet.cmd p) = true).
Proof. unfold replaceUpgrade, relies. destruct (Packet.cmd p) eqn:E; cbn; rewrite ?E; repeat split; try done; vm_compute; done. Qed.

Lemma replaceUpgrades_ok l : flagsOK l -> flagsOK (replaceUpgrades l) /\ noReliance (replaceUpgrades l).
Proof.
  intros Hl. unfold replaceUpgrades. destruct (hasUpgrade l) eqn:E.
  - assert (H : forall x, x ∈ map (onPkt replaceUpgrade) (elems l) -> isRequester x ->
      relies (pkt x) = false /\ (MemCmd.needsExclusive (Packet.cmd (pkt x)) = true -> tl_needsExclusive l = true)).
    { intros x (y & -> & Hy)%elem_of_map [Hs Hr]. cbn in *. destruct (replaceUpgrade_ok (pkt y)) as (E1 & E2 & E3).
      rewrite E1 in Hr. split; [by apply E2|]. intros Hn%E3. by apply (Hl y). }
    split; intros x Hx Hr; destruct (H x Hx Hr) as [H1 H2]; [|done]. split; [congruence|done].
  - split; [done|]. intros x Hx Hr. destruct (relies (pkt x)) eqn:Ex; [|done]. destruct (Hl x Hx Hr) as [H1 _].
    rewrite E in H1. discriminate (H1 Ex).
Qed.

Lemma heapOK_insert F h i m : heapOK F h -> regOK F i m -> heapOK F (<[i := m]> h).
Proof. intros Hh Hm j x. rewrite lookup_insert_Some. intros [[<- <-]|[_ E]]; [done|by eapply Hh]. Qed.

Lemma regOK_downstream F i b m : regOK F i m -> regOK F i (withDownstream b m).
Proof. intros [H1 H2 H3]. by split. Qed.

Lemma heapOK_lessMarked F h h' : heapOK F h -> lessMarked h h' -> heapOK F h'.
Proof.
  intros Hh Hl j m E. destruct (Hl j) as [E'|(m' & E1 & E2)]; [rewrite E' in E; by eapply Hh|].
  rewrite E2 in E. injection E as <-. apply regOK_downstream. by eapply Hh.
Qed.

Lemma get_Done i h m : get i h = Done m <-> h !! i = Some m.
Proof. unfold get. destruct (h !! i); split; congruence. Qed.

Lemma modify_Done f i h h' : modify f i h = Done h' <-> exists m, h !! i = Some m /\ h' = <[i := f m]> h.
Proof.
  unfold modify. rewrite obind_Done. split.
  - intros (m & Hm%get_Done & [= <-]). by exists m.
  - intros (m & Hm & ->). exists m. by rewrite get_Done.
Qed.

Lemma addFlags_elems p src l : elems (addFlags p src l) = elems l.
Proof. unfold addFlags. by case_decide. Qed.

Lemma flagsOK_addFlags p src l : flagsOK l -> flagsOK (addFlags p src l).
Proof.
  intros Hl x Hx Hr. rewrite addFlags_elems in Hx. destruct (Hl x Hx Hr) as [H1 H2]. unfold addFlags.
  case_decide; [done|]. cbn. split; intros H'; [rewrite H1|rewrite H2]; done.
Qed.

Lemma flagsOK_push x l : flagsOK l ->
  (isRequester x -> (relies (pkt x) = true -> hasUpgrade l = true) /\
     (MemCmd.needsExclusive (Packet.cmd (pkt x)) = true -> tl_needsExclusive l = true)) -> flagsOK (pushBack x l).
Proof.
  intros Hl Hx y. cbn. rewrite elem_of_app, list_elem_of_singleton. intros [Hy| ->] Hr; [by apply Hl|by apply Hx].
Qed.

(** What [add] does to the register it adds to. *)
Definition added (deferred : bool) (x : Target) (m : t) : t :=
  onTargets deferred (pushBack x) (onTargets deferred (addFlags (pkt x) (source x)) m).

(** [add] changes the lists of its register, and marks of registers. *)
Definition addedTo (i : nat) (deferred : bool) (x : Target) (h h' : heap) : Prop :=
  exists m b, h !! i = Some m /\ h' !! i = Some (withDownstream b (added deferred x m)) /\
    forall j, j <> i -> h' !! j = h !! j \/ exists mj, h !! j = Some mj /\ h' !! j = Some (withDownstream true mj).

Lemma add_Done now deferred i p ready ord src mark h h' : add now deferred i p ready ord src mark h = Done h' ->
  addedTo i deferred (mkTarget now ready ord p src mark) h h'.
Proof.
  unfold add. intros (h1 & (m & Hm & ->)%modify_Done & (h2 & H2 & (m2 & Hm2 & ->)%modify_Done)%obind_Done)%obind_Done.
  set (m1 := onTargets deferred (addFlags p src) m) in *.
  assert (Hu : h2 = <[i := m1]> h \/ exists j u, <[i := m1]> h !! j = Some u /\ h2 = <[j := withDownstream true u]> (<[i := m1]> h)).
  { destruct mark; [|left; congruence]. destruct (upstream (<[i:=m1]> h) p) as [j|]; [|left; congruence].
    apply obind_Done in H2 as (u & Hu%get_Done & H2). destruct (downstreamPending u); [done|]. right. exists j, u. by injection H2. }
  assert (W : forall b, onTargets deferred (pushBack (mkTarget now ready ord p src mark)) (withDownstream b m1) =
                 withDownstream b (added deferred (mkTarget now ready ord p src mark) m)) by (intros b; by destruct deferred).
  exists m. destruct Hu as [->|(j & u & Hu & ->)].
  - exists (downstreamPending m). rewrite lookup_insert_eq in Hm2. injection Hm2 as <-. split; [done|]. split.
    + rewrite lookup_insert_eq. f_equal. destruct deferred; by destruct m.
    + intros j Hj. left. by rewrite !lookup_insert_ne by done.
  - rewrite lookup_insert_Some in Hu. destruct Hu as [[<- <-]|[Hne Hu]].
    + exists true. rewrite lookup_insert_eq in Hm2. injection Hm2 as <-. split; [done|]. split.
      * rewrite lookup_insert_eq. f_equal. apply W.
      * intros j Hj. left. by rewrite !lookup_insert_ne by done.
    + exists (downstreamPending m). rewrite lookup_insert_ne, lookup_insert_eq in Hm2 by done. injection Hm2 as <-. split; [done|]. split.
      * rewrite lookup_insert_eq. f_equal. destruct deferred; by destruct m.
      * intros j' Hj'. rewrite lookup_insert_ne by done. destruct (decide (j = j')) as [<-|?].
        -- right. exists u. by rewrite lookup_insert_eq.
        -- left. by rewrite !lookup_insert_ne by done.
Qed.

Lemma added_ok F i deferred x m : regOK F i m ->
  (deferred = true -> inService m = true -> postInvalidate m = true -> isRequester x -> relies (pkt x) = false) ->
  regOK F i (added deferred x m).
Proof.
  intros [H1 H2 H3] Hx.
  assert (HP : forall l, flagsOK l -> flagsOK (pushBack x (addFlags (pkt x) (source x) l))).
  { intros l Hl. apply flagsOK_push; [by apply flagsOK_addFlags|]. intros [Hs _]. unfold addFlags. rewrite decide_False by done. cbn.
    fold (relies (pkt x)). split; intros ->; apply orb_true_r. }
  destruct deferred; split; cbn; try (intros Hi; apply HP; by apply H1); try apply HP; try done. intros Hs Hp y. cbn. rewrite addFlags_elems, elem_of_app, list_elem_of_singleton.
  intros [Hy| ->] Hr; [by apply H3|by apply Hx].
Qed.

Lemma addedTo_ok F i deferred x h h' : heapOK F h -> addedTo i deferred x h h' ->
  (forall m, h !! i = Some m -> deferred = true -> inService m = true -> postInvalidate m = true -> isRequester x -> relies (pkt x) = false) ->
  heapOK F h'.
Proof.
  intros Hh (m & b & Hm & Hm' & Ho) Hx j mj Hj. destruct (decide (j = i)) as [->|Hne].
  - rewrite Hm' in Hj. injection Hj as <-. apply regOK_downstream, added_ok; [by eapply Hh|by apply Hx].
  - destruct (Ho j Hne) as [E|(u & E1 & E2)]; [rewrite E in Hj; by eapply Hh|].
    rewrite E2 in Hj. injection Hj as <-. apply regOK_downstream. by eapply Hh.
Qed.

(** ** Every operation keeps the flags right *)

Lemma clearList_ok F l h h' : heapOK F h -> clearList l h = Done h' -> heapOK F h'.
Proof.
  intros Hh E. eapply heapOK_lessMarked; [done|].
  eapply (clearTargets_ends (clearDownstreamPending (S (marked h)))); [|done].
  intros j h1 H1%marked_mono. apply clear_ends. lia.
Qed.

Lemma flagsOK_sub e l : (forall x, x ∈ e -> x ∈ elems l) -> flagsOK l -> flagsOK (withElems e l).
Proof. intros Hs Hl x Hx. by apply Hl, Hs. Qed.

Lemma noReliance_sub e l : (forall x, x ∈ e -> x ∈ elems l) -> noReliance l -> noReliance (withElems e l).
Proof. intros Hs Hl x Hx. by apply Hl, Hs. Qed.

Lemma popTarget_ok F i m m' : regOK F i m -> popTarget m = Done m' -> regOK F i m'.
Proof.
  unfold popTarget. intros [H1 H2 H3]. destruct (hasTargets m); [|done]. intros [= <-]. split; try done.
  intros Hi. apply (flagsOK_sub (tail (elems (targets m)))); [|by apply H1]. intros x. destruct (elems (targets m)); [done|]. by right.
Qed.

Lemma allocate_ok F now a n p w o i h h' : heapOK F h -> allocate now a n p w o i h = Done h' -> heapOK F h'.
Proof.
  intros Hh. unfold allocate.
  intros (m & Hm%get_Done & (sec & _ & H)%obind_Done)%obind_Done. destruct (negb _); [done|].
  apply obind_Done in H as (h1 & Ha%add_Done & (m1 & _ & H)%obind_Done). destruct (isReset _); [|done]. injection H as <-.
  eapply addedTo_ok; [|done|done]. apply heapOK_insert; [done|]. destruct (Hh i m Hm). by split.
Qed.

Lemma allocateTarget_ok F now p w o i h h' : heapOK F h -> allocateTarget now p w o i h = Done h' -> heapOK F h'.
Proof.
  intros Hh. unfold allocateTarget. destruct (decide _); [done|].
  intros (m & Hm%get_Done & ([|] & Hd & H)%obind_Done)%obind_Done.
  - apply obind_Done in H as (inval & Hi & Ha%add_Done). eapply addedTo_ok; [done|done|].
    intros m' Hm' _ Hs Hp [_ Hr]. rewrite Hm in Hm'. injection Hm' as <-. unfold hasPostInvalidate in Hi. rewrite Hs, Hp in Hi.
    injection Hi as <-. cbn in *. destruct (replaceUpgrade_ok p) as (E1 & E2 & _). apply E2. congruence.
  - apply add_Done in H. eapply addedTo_ok; [done|done|done].
Qed.

Lemma markInService_ok F d i h r h' : heapOK F h -> markInService d i h = Done (r, h') -> heapOK F h'.
Proof.
  intros Hh. unfold markInService. intros (m & Hm%get_Done & H)%obind_Done. destruct (inService m); [done|].
  pose proof (Hh i m Hm) as Hr. apply obind_Done in H as ([|] & _ & H).
  - apply obind_Done in H as (m' & Hp & [= <- <-]). apply heapOK_insert; [done|]. by eapply popTarget_ok.
  - apply obind_Done in H as (h1 & H & [= <- <-]).
    assert (Hi : heapOK F (<[i := withService true (tl_needsExclusive (targets m) || d) false false m]> h)).
    { apply heapOK_insert; [done|]. destruct Hr. by split. }
    destruct (downstreamPending _); [by injection H as <-|]. by eapply clearList_ok.
Qed.

Lemma deallocate_ok F i h h' : heapOK F h -> deallocate i h = Done h' -> heapOK F h'.
Proof.
  intros Hh. unfold deallocate. intros (m & Hm%get_Done & H)%obind_Done. destruct (hasTargets m) eqn:Ht; [done|].
  destruct (isReset _); [|done]. injection H as <-. apply heapOK_insert; [done|]. destruct (Hh i m Hm) as [H1 H2 H3].
  split; [|done|done]. intros _ x Hx. unfold hasTargets in Ht. cbn in Hx.
  destruct (elems (targets m)); [by apply not_elem_of_nil in Hx|done].
Qed.

Lemma promote_ok F now i h r h' : heapOK F h -> promoteDeferredTargets now i h = Done (r, h') -> heapOK F h'.
Proof.
  intros Hh. unfold promoteDeferredTargets. intros (m & Hm%get_Done & H)%obind_Done. destruct (hasTargets m) eqn:Ht; [done|].
  destruct (elems (deferredTargets m)) as [|x l]; injection H as <- <-; [done|]. apply heapOK_insert; [done|].
  destruct (Hh i m Hm) as [H1 H2 H3].
  assert (He : elems (targets m) = []) by (unfold hasTargets in Ht; by destruct (elems (targets m))).
  split; cbn; [done| |]; intros; intros y Hy; cbn in Hy; rewrite He in Hy; by apply not_elem_of_nil in Hy.
Qed.

Lemma checkTargets_cmds p l r p' l' : checkTargets p l = Done (r, p', l') ->
  Forall2 (fun x y => source y = source x /\ Packet.cmd (pkt y) = Packet.cmd (pkt x)) l l'.
Proof.
  revert p r p' l'. induction l as [|x l IH]; intros p r p' l'; cbn [checkTargets]; [intros [= <- <- <-]; constructor|].
  intros ([[r1 p1] q] & Hq & H)%obind_Done.
  assert (Hc : Packet.cmd q = Packet.cmd (pkt x)).
  { unfold Packet.checkFunctionalPacket in Hq.
    do 4 apply obind_Done in Hq as (? & _ & Hq). apply obind_Done in Hq as ([[? ?] [?|]] & _ & [= _ _ <-]); done. }
  destruct r1; [injection H as <- <- <-; constructor; [done|]; clear; induction l; by constructor|].
  apply obind_Done in H as ([[r2 p2] l2] & Hl & [= <- <- <-]). constructor; [done|]. by eapply IH.
Qed.

Lemma same_cmds l e : Forall2 (fun x y => source y = source x /\ Packet.cmd (pkt y) = Packet.cmd (pkt x)) (elems l) e ->
  (flagsOK l -> flagsOK (withElems e l)) /\ (noReliance l -> noReliance (withElems e l)).
Proof.
  intros HF.
  assert (HE : forall y, y ∈ e -> isRequester y -> exists x, x ∈ elems l /\ isRequester x /\ Packet.cmd (pkt y) = Packet.cmd (pkt x)).
  { intros y [k Hk]%list_elem_of_lookup [Hs Hr]. destruct (Forall2_lookup_r _ _ _ _ _ HF Hk) as (x & Hx & Es & Ec).
    exists x. split; [by eapply list_elem_of_lookup_2|]. split; [|done]. split; congruence. }
  split; intros Hl y Hy Hr; destruct (HE y Hy Hr) as (x & Hx & Hrx & Ec); specialize (Hl x Hx Hrx); unfold relies in *; by rewrite Ec.
Qed.

Lemma checkFunctional_ok F p i h r p' h' : heapOK F h -> checkFunctional p i h = Done (r, p', h') -> heapOK F h'.
Proof.
  intros Hh. unfold checkFunctional. intros (m & Hm%get_Done & H)%obind_Done. pose proof (Hh i m Hm) as [H1 H2 H3].
  destruct (MemCmd.isPrint _); [apply obind_Done in H as ([[? ?] ?] & _ & [= <- <- <-]); done|].
  apply obind_Done in H as ([[r1 p1] ts] & Ht%checkTargets_cmds%same_cmds & H). destruct Ht as [Ht _].
  destruct r1; [injection H as <- <- <-; apply heapOK_insert; [done|]; split; [intros Hi; by apply Ht, H1|done|done]|].
  apply obind_Done in H as ([[r2 p2] ds] & Hd%checkTargets_cmds%same_cmds & [= <- <- <-]). destruct Hd as [Hd Hd'].
  apply heapOK_insert; [done|]. split; cbn; [intros Hi; by apply Ht, H1|by apply Hd|]. intros Hs Hp. apply Hd'. by apply H3.
Qed.

Lemma heapOK_more F G h : F ⊆ G -> heapOK F h -> heapOK G h.
Proof. intros Hs Hh i m Hm. destruct (Hh i m Hm) as [H1 H2 H3]. split; [|done..]. intros Hi. apply H1. set_solver. Qed.

(** After a fill the flags may fall short of the targets, until they are served. *)
Lemma handleFill_ok F p i h h' : heapOK F h -> handleFill p i h = Done h' -> heapOK ({[i]} ∪ F) h'.
Proof.
  intros Hh H. assert (Hs : heapOK ({[i]} ∪ F) h) by (eapply heapOK_more; [|done]; set_solver). unfold handleFill in H. apply obind_Done in H as (m & Hm%get_Done & H).
  destruct (Packet.sharedAsserted p); [by injection H as <-|]. apply obind_Done in H as ([|] & _ & H); [by injection H as <-|].
  apply obind_Done in H as ([|] & _ & H); [by injection H as <-|]. destruct (tl_needsExclusive (deferredTargets m)); cbn [negb] in H; [|by injection H as <-].
  destruct (tl_needsExclusive (targets m)); [done|]. destruct (downstreamPending m); [done|].
  apply obind_Done in H as (h1 & Hc & (m1 & Hm1 & ->)%modify_Done).
  set (m0 := onTargets false _ m) in Hc. destruct (Hs i m Hm) as [H1 H2 H3].
  assert (H0 : heapOK ({[i]} ∪ F) (<[i := m0]> h)) by (apply heapOK_insert; [done|]; split; [set_solver|done..]).
  apply heapOK_insert; [by eapply clearList_ok|]. split; cbn; [set_solver|intros; intros x Hx; by apply not_elem_of_nil in Hx|intros; intros x Hx; by apply not_elem_of_nil in Hx].
Qed.

Lemma served_ok F i h m : heapOK F h -> h !! i = Some m -> hasTargets m = false -> heapOK (F ∖ {[i]}) h.
Proof.
  intros Hh Hm Ht j mj Hj. destruct (Hh j mj Hj) as [H1 H2 H3]. split; [|done..]. intros Hn. destruct (decide (j = i)) as [->|Hne]; [|apply H1; set_solver].
  assert (mj = m) as -> by congruence. intros x Hx. unfold hasTargets in Ht. destruct (elems (targets m)); [by apply not_elem_of_nil in Hx|done].
Qed.

(** A snoop that takes the line away, and what is left in the register. *)
Record lineTaken (r : bool) (m : t) : Prop := {
  lt_deferred : noReliance (deferredTargets m);
  lt_before : r = false -> noReliance (targets m);
  lt_after : r = true -> inService m = true /\ postInvalidate m = true }.

Lemma withService_ok F i s d v w m : regOK F i m -> (s = true -> v = true -> noReliance (deferredTargets m)) -> regOK F i (withService s d v w m).
Proof. intros [H1 H2 H3] H. by split. Qed.

Lemma handleSnoop_ok F fresh now p ord i h r p' h' : heapOK F h -> i ∉ F -> handleSnoop fresh now p ord i h = Done (r, p', h') ->
  heapOK F h' /\ (MemCmd.needsExclusive (Packet.cmd p) = true -> MemCmd.isInvalidate (Packet.cmd p) = true ->
    exists m', h' !! i = Some m' /\ lineTaken r m').
Proof.
  intros Hh Hi H. unfold handleSnoop in H. apply obind_Done in H as (m & Hm%get_Done & H). pose proof (Hh i m Hm) as Hr.
  pose proof Hr as [H1 H2 H3]. destruct (replaceUpgrades_ok _ (H1 Hi)) as [F1 N1]. destruct (replaceUpgrades_ok _ H2) as [F2 N2].
  destruct (negb (inService m) || _) eqn:Hb.
  { injection H as <- <- <-. split.
    - apply heapOK_insert; [done|]. destruct (MemCmd.needsExclusive _); [|done]. by split.
    - intros -> _. eexists. split; [apply lookup_insert_eq|]. by split. }
  apply orb_false_iff in Hb as [Hs%negb_false_iff _].
  set (m1 := if MemCmd.needsExclusive (Packet.cmd p) then onTargets true replaceUpgrades m else m) in H.
  assert (Hr1 : regOK F i m1) by (subst m1; destruct (MemCmd.needsExclusive _); [by split|done]).
  assert (Hs1 : inService m1 = true) by (subst m1; by destruct (MemCmd.needsExclusive _)).
  assert (Hn1 : MemCmd.needsExclusive (Packet.cmd p) = true -> noReliance (deferredTargets m1)) by (subst m1; by intros ->).
  assert (Hh1 : heapOK F (<[i := m1]> h)) by by apply heapOK_insert.
  destruct (postInvalidate m1) eqn:Hp1.
  { injection H as <- <- <-. split; [done|]. intros Hx _. exists m1. split; [apply lookup_insert_eq|]. split; auto. done. }
  apply obind_Done in H as ([p2 h2] & H2' & H).
  assert (Hmid : heapOK F h2 /\ exists m2, h2 !! i = Some m2 /\ regOK F i m2 /\ inService m2 = true /\
            (MemCmd.needsExclusive (Packet.cmd p) = true -> MemCmd.isInvalidate (Packet.cmd p) = true ->
              postInvalidate m2 = true /\ noReliance (deferredTargets m2)) /\
            (MemCmd.needsExclusive (Packet.cmd p) = false -> postInvalidate m2 = false)).
  { destruct (pendingDirty m1 || MemCmd.isInvalidate (Packet.cmd p)) eqn:Hd.
    - apply obind_Done in H2' as (cp & _ & (h3 & Ha%add_Done & (p3 & _ & (h4 & H4 & [= <- <-])%obind_Done)%obind_Done)%obind_Done).
      assert (Hh3 : heapOK F h3) by (eapply addedTo_ok; [done|done|done]).
      destruct Ha as (m1' & b & Em1 & Em3 & _). rewrite lookup_insert_eq in Em1. injection Em1 as <-.
      destruct (MemCmd.needsExclusive (Packet.cmd p)) eqn:Hx.
      + apply modify_Done in H4 as (m3 & Hm3 & ->). rewrite Em3 in Hm3. injection Hm3 as <-.
        assert (Hr3 : regOK F i (withService (inService m1) (pendingDirty m1) true (postDowngrade m1)
                              (withDownstream b (added false (mkTarget now now ord cp FromSnoop (downstreamPending m1 && tl_needsExclusive (targets m1))) m1)))).
        { apply withService_ok; [by eapply Hh3|]. intros _ _. by apply Hn1. }
        split; [by apply heapOK_insert|]. eexists. split; [apply lookup_insert_eq|]. split; [done|]. split; [done|]. split; [|done].
        intros _ _. split; [done|]. by apply Hn1.
      + injection H4 as <-. split; [done|]. eexists. split; [done|]. split; [by eapply Hh3|]. split; [done|]. split; [done|]. by intros _.
    - injection H2' as <- <-. split; [done|]. exists m1. split; [apply lookup_insert_eq|]. split; [done|]. split; [done|].
      split; [|done]. intros _ Hv. rewrite Hv, orb_true_r in Hd. done. }
  destruct Hmid as (Hh2 & m2 & Em2 & Hr2 & Hs2 & Hx2 & Hy2). destruct (MemCmd.needsExclusive (Packet.cmd p)) eqn:Hx.
  - injection H as <- <- <-. split; [done|]. intros _ Hv. exists m2. split; [done|]. destruct (Hx2 eq_refl Hv). by split.
  - apply obind_Done in H as (h5 & (m3 & Hm3 & ->)%modify_Done & [= <- <- <-]). rewrite Em2 in Hm3. injection Hm3 as <-.
    split; [|done]. apply heapOK_insert; [done|]. apply withService_ok; [done|]. by rewrite Hy2.
Qed.

(** ** Histories *)

(** The registers with those that are being answered: [Cache::recvTimingResp]
    calls [handleFill], also for a target of its own, and then serves the
    targets one by one until there are none; all this is one call, in which the
    register gets no snoop. *)
Inductive step (F : gset nat) (h : heap) : gset nat -> heap -> Prop :=
| step_allocate now a n p w o i h' : allocate now a n p w o i h = Done h' -> step F h F h'
| step_target now p w o i h' : allocateTarget now p w o i h = Done h' -> step F h F h'
| step_service d i r h' : markInService d i h = Done (r, h') -> step F h F h'
| step_resend i m : h !! i = Some m -> inService m = true -> step F h F (<[i := withInService false m]> h)
| step_pop i m m' : h !! i = Some m -> popTarget m = Done m' -> step F h F (<[i := m']> h)
| step_promote now i r h' : promoteDeferredTargets now i h = Done (r, h') -> step F h F h'
| step_deallocate i h' : deallocate i h = Done h' -> step F h F h'
| step_snoop fresh now p o i r p' h' : i ∉ F -> handleSnoop fresh now p o i h = Done (r, p', h') -> step F h F h'
| step_check p i r p' h' : checkFunctional p i h = Done (r, p', h') -> step F h F h'
| step_fill p i h' : handleFill p i h = Done h' -> step F h ({[i]} ∪ F) h'
| step_served i m : h !! i = Some m -> hasTargets m = false -> step F h (F ∖ {[i]}) h.

Inductive reachable : gset nat -> heap -> Prop :=
| reach_new h : (forall i m, h !! i = Some m -> m = new) -> reachable ∅ h
| reach_step F h F' h' : reachable F h -> step F h F' h' -> reachable F' h'.

Lemma register_new_ok F i : regOK F i new.
Proof. split; [intros _|..]; try done; intros x Hx; by apply not_elem_of_nil in Hx. Qed.

Lemma registers_reachable_ok F h : reachable F h -> heapOK F h.
Proof.
  induction 1 as [h Hn|F h F' h' _ IH Hs]; [intros i m ->%Hn; apply register_new_ok|].
  destruct Hs; eauto using allocate_ok, allocateTarget_ok, markInService_ok, promote_ok, deallocate_ok, checkFunctional_ok, handleFill_ok, served_ok.
  - apply heapOK_insert; [done|]. apply withService_ok; [by eapply IH|done].
  - apply heapOK_insert; [done|]. eapply popTarget_ok; [by eapply IH|done].
  - by eapply handleSnoop_ok.
Qed.

Lemma upstream_dom h h' p : (forall s, is_Some (h !! s) <-> is_Some (h' !! s)) -> upstream h p = upstream h' p.
Proof. intros E. unfold upstream, Packet.findNextSenderState. f_equal. apply list_find_ext. intros s. rewrite !bool_decide_eq_true. apply E. Qed.

Lemma is_Some_insert (h : heap) i m m' s : h !! i = Some m -> is_Some (h !! s) <-> is_Some (<[i := m']> h !! s).
Proof.
  intros E. destruct (decide (i = s)) as [<-|?]; [rewrite lookup_insert_eq, E|by rewrite lookup_insert_ne]. split; by eexists.
Qed.

Lemma copy_senders fresh a b p cp : Packet.copy fresh a b p = Done cp -> Packet.senderState cp = Packet.senderState p.
Proof.
  unfold Packet.copy, Packet.allocate, Packet.giveData. destruct b; [|by intros [= <-]].
  destruct (Flags.isSet _ _); [by intros [= <-]|]. intros (n & _ & H)%obind_Done. destruct (Packet.hasBuffer _); [done|]. by injection H as <-.
Qed.

Lemma add_total now deferred i p ready ord src mark h m : h !! i = Some m ->
  (forall j u, upstream h p = Some j -> h !! j = Some u -> downstreamPending u = false) ->
  exists h', add now deferred i p ready ord src mark h = Done h'.
Proof.
  intros Hm Hu. unfold add, modify, get. rewrite Hm. cbn [obind]. set (m1 := onTargets _ _ m).
  assert (Hd : forall s, is_Some (h !! s) <-> is_Some (<[i := m1]> h !! s)) by (intros s; by eapply is_Some_insert).
  destruct mark; [|cbn [obind]; rewrite lookup_insert_eq; by eexists].
  rewrite <- (upstream_dom h) by done. destruct (upstream h p) as [j|] eqn:Ej; [|cbn [obind]; rewrite lookup_insert_eq; by eexists].
  assert (exists u, h !! j = Some u) as [u Hj].
  { unfold upstream, Packet.findNextSenderState in Ej. apply fmap_Some in Ej as ([k s] & Ek & ->).
    apply list_find_Some in Ek as (_ & Hs%bool_decide_eq_true & _). destruct Hs as [u Hs]. by exists u. }
  assert (exists u', <[i := m1]> h !! j = Some u' /\ downstreamPending u' = false) as (u' & Hj' & Hu').
  { destruct (decide (i = j)) as [<-|?].
    - exists m1. rewrite lookup_insert_eq. split; [done|]. specialize (Hu i m eq_refl Hm). subst m1. by destruct deferred.
    - exists u. rewrite lookup_insert_ne by done. split; [done|]. by apply (Hu j u). }
  rewrite Hj'. cbn [obind]. rewrite Hu'. cbn [obind].
  destruct (proj1 (is_Some_insert (<[i := m1]> h) j u' (withDownstream true u') i Hj')) as [x ->]; [|by eexists].
  rewrite lookup_insert_eq. by eexists.
Qed.


(** A register not yet in service with an upgrade, and an invalidating snoop. *)
Definition upgradeHeap : heap :=
  match allocate 0 0x40 64 (Packet.new (Request.physical 0x40 64 0 0 0) MemCmd.UpgradeReq) 10 1 0 {[ 0%nat := new ]} with
  | Done h => h | _ => ∅ end.


(** Finding: when deferred requests are moved up after a fill, the flag that
    some of them are upgrades is lost.  Nobody asks for it while they are served. *)
Lemma fill_loses_upgrade : exists h h' m', handleFill (Packet.new (Request.physical 0x40 64 0 0 0) MemCmd.ReadResp) 0 h = Done h' /\
  h' !! 0%nat = Some m' /\ hasUpgrade (targets m') = false /\ exists x, x ∈ elems (targets m') /\ relies (pkt x) = true.
Proof.
  set (x := mkTarget 0 0 0 (Packet.new (Request.physical 0x40 64 0 0 0) MemCmd.UpgradeReq) FromCPU false).
  exists {[ 0%nat := withService true false false false (withLists noTargets (mkTargets [x] true true) new) ]}.
  eexists _, _. split; [vm_compute; reflexivity|]. split; [vm_compute; reflexivity|]. split; [reflexivity|].
  exists x. split; [left|reflexivity].
Qed.

End MSHRCorrect.
