(* ===== verification/MSHRQueue.v ===== *)
(** * Queues of registers: gem5/src/mem/cache/mshr_queue.hh and mshr_queue.cc

    A queue owns some registers of the heap; each is free, waiting to be sent
    ([readyList], by ready time) or in service.  The miss queue and the write
    buffer of a cache are two such queues. *)

From Stdlib Require Import ZArith Lia.
From stdpp Require Import base gmap numbers list.
From S2P Require Import Prelude Bits MemCmd Request Packet MSHR.

#[local] Open Scope Z_scope.
#[local] Open Scope outcome_scope.

Module MSHRQueue.

(** [Drainable::State] *)
Inductive DrainState := Running | Draining | Drained.

(** [drainManager] and [signalled] name drain managers. *)
Record t := mk {
  numEntries : Z;
  numReserve : Z;
  demandReserve : Z;
  registers : list nat;
  allocatedList : list nat;
  readyList : list nat;
  freeList : list nat;
  drainManager : option nat;
  allocated : Z;
  inServiceEntries : Z;
  drainState : DrainState;
  signalled : list nat
}.

(** The constructor; the registers are those from address [base]. *)
Definition new (num_entries reserve demand_reserve : Z) (base : nat) : t :=
  let n := num_entries + reserve - 1 in
  let regs := seq base (Z.to_nat n) in
  mk n reserve demand_reserve regs [] [] regs None 0 0 Running [].
Definition newHeap (q : t) (h : MSHR.heap) : MSHR.heap := foldr (fun i h => <[i := MSHR.new]> h) h (registers q).

Definition withLists (al rl fl : list nat) (n k : Z) (q : t) : t :=
  mk (numEntries q) (numReserve q) (demandReserve q) (registers q) al rl fl (drainManager q) n k (drainState q) (signalled q).
Definition withReady (rl : list nat) (k : Z) (q : t) : t := withLists (allocatedList q) rl (freeList q) (allocated q) k q.
Definition withDrain (d : option nat) (s : DrainState) (l : list nat) (q : t) : t :=
  mk (numEntries q) (numReserve q) (demandReserve q) (registers q) (allocatedList q) (readyList q) (freeList q) d
     (allocated q) (inServiceEntries q) s l.

(** [list::erase] of the place of an element. *)
Fixpoint erase (i : nat) (l : list nat) : outcome (list nat) :=
  match l with
  | [] => Exited
  | x :: l => if decide (x = i) then Done l else let! l := erase i l in Done (x :: l)
  end.

(** ** Searches *)

Definition matches (a : Z) (sec : bool) (m : MSHR.t) : bool := (MSHR.addr m =? a) && eqb (MSHR.isSecure m) sec.

Fixpoint firstOf (f : MSHR.t -> bool) (h : MSHR.heap) (l : list nat) : outcome (option nat) :=
  match l with
  | [] => Done None
  | i :: l => let! m := MSHR.get i h in if f m then Done (Some i) else firstOf f h l
  end.
Definition findMatch (a : Z) (sec : bool) (q : t) (h : MSHR.heap) : outcome (option nat) :=
  firstOf (matches a sec) h (allocatedList q).

Fixpoint allOf (f : MSHR.t -> bool) (h : MSHR.heap) (l : list nat) : outcome (list nat) :=
  match l with
  | [] => Done []
  | i :: l => let! m := MSHR.get i h in let! r := allOf f h l in Done (if f m then i :: r else r)
  end.
Definition findMatches (a : Z) (sec : bool) (q : t) (h : MSHR.heap) : outcome (list nat) :=
  allOf (matches a sec) h (allocatedList q).

(** [size] is an [int]: the sums are of 64 bits. *)
Definition overlapsPending (a n : Z) (sec : bool) (m : MSHR.t) : bool :=
  eqb (MSHR.isSecure m) sec &&
  (if MSHR.addr m <? a then a <? wrap 64 (MSHR.addr m + MSHR.size m) else MSHR.addr m <? wrap 64 (a + n)).
Definition findPending (a n : Z) (sec : bool) (q : t) (h : MSHR.heap) : outcome (option nat) :=
  firstOf (overlapsPending a n sec) h (readyList q).

Fixpoint checkAll (p : Packet.t) (blk_addr : Z) (l : list nat) (h : MSHR.heap) : outcome (bool * Packet.t * MSHR.heap) :=
  match l with
  | [] => Done (false, p, h)
  | i :: l =>
      let! m := MSHR.get i h in
      if MSHR.addr m =? blk_addr then
        let! (r, p, h) := MSHR.checkFunctional p i h in
        if r then Done (true, p, h) else checkAll p blk_addr l h
      else checkAll p blk_addr l h
  end.
Definition checkFunctional (p : Packet.t) (blk_addr : Z) (q : t) (h : MSHR.heap) : outcome (bool * Packet.t * MSHR.heap) :=
  checkAll p blk_addr (allocatedList q) h.

(** ** The ready list *)

(** The loop of [addToReadyList]; its end is an assertion. *)
Fixpoint insertBefore (h : MSHR.heap) (i : nat) (ready : Z) (l : list nat) : outcome (list nat) :=
  match l with
  | [] => Exited
  | x :: l =>
      let! m := MSHR.get x h in
      if ready <? MSHR.readyTime m then Done (i :: x :: l)
      else let! l := insertBefore h i ready l in Done (x :: l)
  end.

Definition addToReadyList (i : nat) (h : MSHR.heap) (l : list nat) : outcome (list nat) :=
  let! m := MSHR.get i h in
  match last l with
  | None => Done (l ++ [i])
  | Some b =>
      let! mb := MSHR.get b h in
      if MSHR.readyTime mb <=? MSHR.readyTime m then Done (l ++ [i])
      else insertBefore h i (MSHR.readyTime m) l
  end.

Definition havePending (q : t) : bool := match readyList q with [] => false | _ => true end.
Definition isFull (q : t) : bool := numEntries q - numReserve q <? allocated q.
Definition canPrefetch (q : t) : bool := allocated q <? numEntries q - (numReserve q + demandReserve q).

Definition getNextMSHR (now : Z) (q : t) (h : MSHR.heap) : outcome (option nat) :=
  match readyList q with
  | [] => Done None
  | i :: _ => let! m := MSHR.get i h in Done (if now <? MSHR.readyTime m then None else Some i)
  end.
Definition MaxTick : Z := 2 ^ 64 - 1.
Definition nextMSHRReadyTime (q : t) (h : MSHR.heap) : outcome Z :=
  match readyList q with
  | [] => Done MaxTick
  | i :: _ => let! m := MSHR.get i h in Done (MSHR.readyTime m)
  end.

(** ** Allocation *)

Definition allocate (now : Z) (a n : Z) (p : Packet.t) (when_ ord : Z) (q : t) (h : MSHR.heap) : outcome (nat * t * MSHR.heap) :=
  match freeList q with
  | [] => Exited
  | i :: free =>
      let! m := MSHR.get i h in
      if negb (Nat.eqb (MSHR.getNumTargets m) 0) then Exited
      else
        let! h := MSHR.allocate now a n p when_ ord i h in
        let! rl := addToReadyList i h (readyList q) in
        Done (i, withLists (allocatedList q ++ [i]) rl free (allocated q + 1) (inServiceEntries q) q, h)
  end.

(** The end of [deallocateOne]: the drain manager is told. *)
Definition signalDrain (q : t) : t :=
  match drainManager q with
  | Some d => if allocated q =? 0 then withDrain None Drained (signalled q ++ [d]) q else q
  | None => q
  end.

Definition deallocateOne (i : nat) (q : t) (h : MSHR.heap) : outcome (t * MSHR.heap) :=
  let! al := erase i (allocatedList q) in
  let! m := MSHR.get i h in
  let! q := (if MSHR.inService m
             then Done (withLists al (readyList q) (i :: freeList q) (allocated q - 1) (inServiceEntries q - 1) q)
             else let! rl := erase i (readyList q) in
                  Done (withLists al rl (i :: freeList q) (allocated q - 1) (inServiceEntries q) q)) in
  let! h := MSHR.deallocate i h in
  Done (signalDrain q, h).

Definition deallocate := deallocateOne.

Definition moveToFront (i : nat) (q : t) (h : MSHR.heap) : outcome t :=
  let! m := MSHR.get i h in
  if MSHR.inService m then Done q
  else let! rl := erase i (readyList q) in Done (withReady (i :: rl) (inServiceEntries q) q).

Definition markInService (pending_dirty_resp : bool) (i : nat) (q : t) (h : MSHR.heap) : outcome (t * MSHR.heap) :=
  let! (free, h) := MSHR.markInService pending_dirty_resp i h in
  if free then deallocate i q h
  else let! rl := erase i (readyList q) in Done (withReady rl (inServiceEntries q + 1) q, h).

Definition markPending (i : nat) (q : t) (h : MSHR.heap) : outcome (t * MSHR.heap) :=
  let! m := MSHR.get i h in
  if negb (MSHR.inService m) then Exited
  else
    let h := <[i := MSHR.withInService false m]> h in
    let! rl := addToReadyList i h (readyList q) in
    Done (withReady rl (inServiceEntries q - 1) q, h).

(** Whether the queue is no longer full. *)
Definition forceDeallocateTarget (now : Z) (i : nat) (q : t) (h : MSHR.heap) : outcome (bool * t * MSHR.heap) :=
  let was_full := isFull q in
  let! m := MSHR.get i h in
  let! m := MSHR.popTarget m in
  let h := <[i := m]> h in
  let! (q, h) :=
    (if MSHR.hasTargets m then Done (q, h)
     else let! (promoted, h) := MSHR.promoteDeferredTargets now i h in
          if promoted then Done (q, h) else deallocateOne i q h) in
  Done (was_full && negb (isFull q), q, h).

(** [squash(threadNum)]: the loop over the allocated registers. *)
Fixpoint squashAll (threadNum : Z) (l : list nat) (q : t) (h : MSHR.heap) : outcome (t * MSHR.heap) :=
  match l with
  | [] => Done (q, h)
  | i :: l =>
      let! m := MSHR.get i h in
      if MSHR.threadNum m =? threadNum then
        if MSHR.hasTargets m && negb (0 =? threadNum) then Exited
        else
          let m := MSHR.onTargets false (MSHR.withElems []) m in
          if negb (Nat.eqb (MSHR.getNumTargets m) 0) then Exited
          else
            let h := <[i := m]> h in
            let! (q, h) := (if MSHR.inService m then Done (q, h) else deallocateOne i q h) in
            squashAll threadNum l q h
      else squashAll threadNum l q h
  end.
Definition squash (threadNum : Z) (q : t) (h : MSHR.heap) : outcome (t * MSHR.heap) := squashAll threadNum (allocatedList q) q h.

Definition drain (dm : nat) (q : t) : Z * t :=
  if allocated q =? 0 then (0, withDrain (drainManager q) Drained (signalled q) q)
  else (1, withDrain (Some dm) Draining (signalled q) q).

End MSHRQueue.
