(* ===== verification/MSHRQueueCorrect.v ===== *)
(** * Queues of registers: the invariant

    Every register of a queue is free, ready or in service, the counters are
    the sizes of the lists, and a queue that is not full can always take one
    more request. *)

From Stdlib Require Import ZArith Lia.
From stdpp Require Import base gmap numbers list sorting.
From S2P Require Import Prelude Bits MemCmd Request Packet MSHR MSHRCorrect MSHRQueue.

#[local] Open Scope Z_scope.
#[local] Open Scope outcome_scope.

Module MSHRQueueCorrect.
Import MSHRQueue.

(** A register that waits for its next use. *)
Record idle (m : MSHR.t) : Prop := {
  id_service : MSHR.inService m = false;
  id_targets : MSHR.targets m = MSHR.noTargets;
  id_deferred : MSHR.deferredTargets m = MSHR.noTargets }.

Record queueOK (q : t) (h : MSHR.heap) : Prop := {
  qo_perm : registers q ≡ₚ allocatedList q ++ freeList q;
  qo_nodup : NoDup (registers q);
  qo_entries : Z.of_nat (length (registers q)) = numEntries q;
  qo_allocated : allocated q = Z.of_nat (length (allocatedList q));
  qo_service : inServiceEntries q + Z.of_nat (length (readyList q)) = allocated q;
  qo_ready : NoDup (readyList q);
  qo_sub : forall i, i ∈ readyList q -> i ∈ allocatedList q;
  qo_alloc : forall i, i ∈ allocatedList q -> exists m, h !! i = Some m /\ (i ∈ readyList q <-> MSHR.inService m = false);
  qo_free : forall i, i ∈ freeList q -> exists m, h !! i = Some m /\ idle m }.

(** ** Lists *)

Lemma erase_Done i l l' : erase i l = Done l' -> l ≡ₚ i :: l'.
Proof.
  revert l'. induction l as [|x l IH]; intros l'; cbn [erase]; [done|]. case_decide as Hx; [intros [= <-]; by subst|].
  intros (l1 & H1%IH & [= <-])%obind_Done. rewrite H1. apply Permutation_swap.
Qed.

Lemma erase_total i l : i ∈ l -> exists l', erase i l = Done l'.
Proof.
  induction l as [|x l IH]; [by intros ?%not_elem_of_nil|]. cbn [erase]. case_decide; [by eexists|].
  intros [->|Hi]%elem_of_cons; [done|]. destruct (IH Hi) as [l' ->]. by eexists.
Qed.

Lemma ready_insertBefore_spec h i ready l : (forall x, x ∈ l -> is_Some (h !! x)) ->
  (exists x m, x ∈ l /\ h !! x = Some m /\ ready < MSHR.readyTime m) ->
  exists l1 l2, l = l1 ++ l2 /\ insertBefore h i ready l = Done (l1 ++ i :: l2) /\
    (forall x m, x ∈ l1 -> h !! x = Some m -> MSHR.readyTime m <= ready) /\
    exists y m, head l2 = Some y /\ h !! y = Some m /\ ready < MSHR.readyTime m.
Proof.
  induction l as [|x l IH]; intros Hl (z & mz & Hz & Ez & Hr); [by apply not_elem_of_nil in Hz|]. cbn [insertBefore].
  destruct (Hl x) as [m Em]; [by left|]. rewrite (proj2 (MSHRCorrect.get_Done _ _ _) Em). cbn [obind].
  destruct (Z.ltb_spec ready (MSHR.readyTime m)) as [Hlt|Hge].
  - exists [], (x :: l). split; [done|]. split; [done|]. split; [by intros ? ? ?%not_elem_of_nil|]. by exists x, m.
  - destruct IH as (l1 & l2 & -> & -> & H1 & H2).
    + intros y Hy. apply Hl. by right.
    + apply elem_of_cons in Hz as [->|Hz]; [|by exists z, mz]. rewrite Em in Ez. injection Ez as ->. lia.
    + exists (x :: l1), l2. split; [done|]. split; [done|]. split; [|done].
      intros y my [->|Hy]%elem_of_cons Ey; [|by eapply H1]. rewrite Em in Ey. by injection Ey as <-.
Qed.

(** A register goes behind all that are ready no later, before the first that
    is ready later; the assertion at the end of the loop never fails. *)
Lemma addToReadyList_spec i h l m : h !! i = Some m -> (forall x, x ∈ l -> is_Some (h !! x)) ->
  exists l1 l2, l = l1 ++ l2 /\ addToReadyList i h l = Done (l1 ++ i :: l2) /\
    (forall y my, head l2 = Some y -> h !! y = Some my -> MSHR.readyTime m < MSHR.readyTime my) /\
    (forall x mx, last l1 = Some x -> h !! x = Some mx -> MSHR.readyTime mx <= MSHR.readyTime m).
Proof.
  intros Em Hl. unfold addToReadyList. rewrite (proj2 (MSHRCorrect.get_Done _ _ _) Em). cbn [obind].
  destruct (last l) as [b|] eqn:El.
  - assert (Hb : b ∈ l) by (apply last_Some in El as [l' ->]; set_solver).
    destruct (Hl b Hb) as [mb Eb]. rewrite (proj2 (MSHRCorrect.get_Done _ _ _) Eb). cbn [obind].
    destruct (Z.leb_spec (MSHR.readyTime mb) (MSHR.readyTime m)).
    + exists l, []. rewrite app_nil_r. split; [done|]. split; [done|]. split; [done|]. intros x mx Hx Ex. congruence.
    + destruct (ready_insertBefore_spec h i (MSHR.readyTime m) l Hl) as (l1 & l2 & -> & -> & H1 & y & my & Hy & Ey & Hlt); [by exists b, mb|].
      exists l1, l2. split; [done|]. split; [done|]. split; [intros ? ? ? ?; congruence|].
      intros x mx [l' ->]%last_Some Ex. eapply H1; [|done]. set_solver.
  - apply last_None in El as ->. exists [], []. done.
Qed.

Lemma addToReadyList_Done i h l l' : addToReadyList i h l = Done l' -> l' ≡ₚ i :: l.
Proof.
  unfold addToReadyList. intros (m & _ & H)%obind_Done. destruct (last l) as [b|]; [|injection H as <-; by rewrite <- Permutation_cons_append].
  apply obind_Done in H as (mb & _ & H). destruct (_ <=? _); [injection H as <-; by rewrite <- Permutation_cons_append|].
  revert l' H. induction l as [|x l IH]; intros l'; cbn [insertBefore]; [done|]. intros (mx & _ & H)%obind_Done.
  destruct (_ <? _); [by injection H as <-|]. apply obind_Done in H as (l1 & H1%IH & [= <-]). rewrite H1. apply Permutation_swap.
Qed.

(** ** Changes of the heap *)

Section queue.
Context (q : t) (h : MSHR.heap) (Hq : queueOK q h).

Lemma alloc_free_disjoint i : i ∈ allocatedList q -> i ∈ freeList q -> False.
Proof.
  intros H1 H2. pose proof (qo_nodup q h Hq) as Hn. rewrite (qo_perm q h Hq) in Hn. apply NoDup_app in Hn as (_ & Hd & _). by eapply Hd.
Qed.

Lemma alloc_NoDup : NoDup (allocatedList q) /\ NoDup (freeList q).
Proof. pose proof (qo_nodup q h Hq) as Hn. rewrite (qo_perm q h Hq) in Hn. by apply NoDup_app in Hn as (? & _ & ?). Qed.

Lemma register_some i : i ∈ registers q -> exists m, h !! i = Some m.
Proof.
  rewrite (qo_perm q h Hq), elem_of_app. intros [Hi|Hi].
  - destruct (qo_alloc q h Hq i Hi) as (m & ? & _). by exists m.
  - destruct (qo_free q h Hq i Hi) as (m & ? & _). by exists m.
Qed.

Lemma ready_some x : x ∈ readyList q -> is_Some (h !! x).
Proof. intros Hx%(qo_sub q h Hq). destruct (qo_alloc q h Hq x Hx) as (m & ? & _). by exists m. Qed.

(** The registers keep their service state, the free ones stay idle. *)
Definition keeps (h' : MSHR.heap) : Prop := forall i m, i ∈ registers q -> h !! i = Some m ->
  exists m', h' !! i = Some m' /\ MSHR.inService m' = MSHR.inService m /\ (i ∈ freeList q -> idle m -> idle m').

Lemma keeps_ok h' : keeps h' -> queueOK q h'.
Proof.
  intros Hk. assert (Hk' : forall i m, i ∈ allocatedList q \/ i ∈ freeList q -> h !! i = Some m ->
    exists m', h' !! i = Some m' /\ MSHR.inService m' = MSHR.inService m /\ (i ∈ freeList q -> idle m -> idle m')).
  { intros i m Hi. apply Hk. by rewrite (qo_perm q h Hq), elem_of_app. }
  destruct Hq as [Q1 Q2 Q3 Q4 Q5 Q6 Q7 Q8 Q9]. split; try done.
  - intros i Hi. destruct (Q8 i Hi) as (m & Em & Hm). destruct (Hk' i m) as (m' & Em' & Es & _); [by left|done|].
    exists m'. split; [done|]. by rewrite Es.
  - intros i Hi. destruct (Q9 i Hi) as (m & Em & Hm). destruct (Hk' i m) as (m' & Em' & _ & Hf); [by right|done|].
    exists m'. split; [done|]. by apply Hf.
Qed.

End queue.

Lemma idle_downstream b m : idle m -> idle (MSHR.withDownstream b m).
Proof. intros [H1 H2 H3]. by split. Qed.

Lemma lessMarked_keeps q h h' : MSHRCorrect.lessMarked h h' -> keeps q h h'.
Proof.
  intros Hl i m _ Em. destruct (Hl i) as [E|(m' & E1 & E2)]; [exists m; by rewrite E|]. rewrite Em in E1. injection E1 as <-.
  exists (MSHR.withDownstream false m). split; [done|]. split; [done|]. intros _. apply idle_downstream.
Qed.

(** A target is added to an allocated register. *)
Lemma addedTo_keeps q h h' i d x : i ∉ freeList q -> MSHRCorrect.addedTo i d x h h' -> keeps q h h'.
Proof.
  intros Hi (m0 & b & E0 & E1 & Ho) j m Hj Em. destruct (decide (j = i)) as [->|Hne].
  - rewrite E0 in Em. injection Em as ->. eexists. split; [done|]. split; [by destruct d|]. by intros ?.
  - destruct (Ho j Hne) as [E|(mj & E & E')]; [exists m; by rewrite E|]. rewrite Em in E. injection E as <-.
    eexists. split; [done|]. split; [done|]. intros _. apply idle_downstream.
Qed.

Lemma insert_keeps q h i m m' : i ∉ freeList q -> h !! i = Some m -> MSHR.inService m' = MSHR.inService m -> keeps q h (<[i := m']> h).
Proof.
  intros Hi Em Es j x Hj Ex. destruct (decide (i = j)) as [<-|Hne].
  - rewrite Em in Ex. injection Ex as <-. exists m'. rewrite lookup_insert_eq. split; [done|]. split; [done|]. by intros ?.
  - exists x. by rewrite lookup_insert_ne.
Qed.

(** ** The operations keep the invariant *)

Lemma MSHR_allocate_Done now a n p w o i h h' : MSHR.allocate now a n p w o i h = Done h' ->
  (exists m', h' !! i = Some m' /\ MSHR.inService m' = false) /\
  forall j, j <> i -> h' !! j = h !! j \/ exists mj, h !! j = Some mj /\ h' !! j = Some (MSHR.withDownstream true mj).
Proof.
  unfold MSHR.allocate. intros (m & Em & (sec & _ & H)%obind_Done)%obind_Done. destruct (negb _); [done|].
  apply obind_Done in H as (h1 & Ha%MSHRCorrect.add_Done & (m1 & _ & H)%obind_Done). destruct (MSHR.isReset _); [|done]. injection H as <-.
  destruct Ha as (m2 & b & E2 & E3 & Ho). rewrite lookup_insert_eq in E2. injection E2 as <-. split; [by eexists|].
  intros j Hj. destruct (Ho j Hj) as [E|(mj & E & E')]; rewrite lookup_insert_ne in E by done; [by left|right; by exists mj].
Qed.

Lemma queue_allocate_ok now a n p w o q h i q' h' : queueOK q h -> allocate now a n p w o q h = Done (i, q', h') -> queueOK q' h'.
Proof.
  intros Hq. unfold allocate. destruct (freeList q) as [|k fl] eqn:Ef; [done|]. intros (m & Em & H)%obind_Done.
  destruct (negb _); [done|]. apply obind_Done in H as (h1 & Ha & (rl & Hr%addToReadyList_Done & [= <- <- <-])%obind_Done).
  apply MSHR_allocate_Done in Ha as ((m' & Em' & Hs) & Ho).
  assert (Hk : k ∉ allocatedList q) by (intros Hx; eapply alloc_free_disjoint; [done|done|]; rewrite Ef; left).
  assert (Hf : k ∉ fl) by (destruct (alloc_NoDup q h Hq) as [_ Hn]; rewrite Ef in Hn; by apply NoDup_cons in Hn as [? _]).
  assert (Hkr : k ∉ readyList q) by (intros Hx; by apply Hk, (qo_sub q h Hq)).
  destruct Hq as [Q1 Q2 Q3 Q4 Q5 Q6 Q7 Q8 Q9]. rewrite Ef in Q1, Q9. split; cbn.
  - rewrite Q1, <- app_assoc. done.
  - done.
  - done.
  - rewrite length_app. cbn. lia.
  - rewrite Hr. cbn [length]. lia.
  - rewrite Hr. by apply NoDup_cons.
  - intros x. rewrite Hr, elem_of_app, list_elem_of_singleton, elem_of_cons. intros [->|Hx]; [by right|left; by apply Q7].
  - intros x. rewrite elem_of_app, list_elem_of_singleton. intros [Hx| ->].
    + assert (x <> k) by congruence. destruct (Q8 x Hx) as (mx & Ex & Hi). destruct (Ho x) as [E|(mj & E & E')]; [done|..].
      * exists mx. rewrite E. split; [done|]. rewrite Hr, elem_of_cons. rewrite <- Hi. naive_solver.
      * rewrite Ex in E. injection E as <-. eexists. split; [done|]. cbn. rewrite Hr, elem_of_cons, <- Hi. naive_solver.
    + exists m'. split; [done|]. rewrite Hr, elem_of_cons. naive_solver.
  - intros x Hx. assert (x <> k) by congruence. destruct (Q9 x) as (mx & Ex & Hi); [by right|].
    destruct (Ho x) as [E|(mj & E & E')]; [done|exists mx; by rewrite E|]. rewrite Ex in E. injection E as <-.
    eexists. split; [done|]. by apply idle_downstream.
Qed.

Lemma signalDrain_ok q h : queueOK (signalDrain q) h <-> queueOK q h.
Proof.
  unfold signalDrain. destruct (drainManager q); [|done]. destruct (_ =? 0); [|done]. split; intros [Q1 Q2 Q3 Q4 Q5 Q6 Q7 Q8 Q9]; by split.
Qed.

Lemma MSHR_deallocate_Done i h h' m : h !! i = Some m -> MSHR.deallocate i h = Done h' -> MSHR.elems (MSHR.deferredTargets m) = [] ->
  exists m', h' = <[i := m']> h /\ idle m'.
Proof.
  intros Em H Hd. unfold MSHR.deallocate in H. rewrite (proj2 (MSHRCorrect.get_Done _ _ _) Em) in H. cbn [obind] in H.
  destruct (MSHR.hasTargets m) eqn:Ht; [done|]. destruct (MSHR.isReset (MSHR.deferredTargets m)) eqn:Hr; [|done]. injection H as <-.
  eexists. split; [done|]. split; cbn; [done| |].
  - unfold MSHR.hasTargets in Ht. unfold MSHR.resetFlags. by destruct (MSHR.elems (MSHR.targets m)).
  - unfold MSHR.isReset in Hr. destruct (MSHR.deferredTargets m) as [e [|] [|]]; cbn in *; try done. by subst e.
Qed.

(** A register leaves the queue's use. *)
Lemma deallocateOne_ok i q h q' h' m : queueOK q h -> h !! i = Some m -> MSHR.elems (MSHR.deferredTargets m) = [] ->
  deallocateOne i q h = Done (q', h') -> queueOK q' h'.
Proof.
  intros Hq Em Hd. unfold deallocateOne. intros (al & Ha%erase_Done & H)%obind_Done.
  rewrite (proj2 (MSHRCorrect.get_Done _ _ _) Em) in H. cbn [obind] in H.
  apply obind_Done in H as (q1 & H1 & (h1 & Hh & [= <- <-])%obind_Done). apply signalDrain_ok.
  destruct (MSHR_deallocate_Done i h h1 m Em Hh Hd) as (m' & -> & Hm').
  assert (Hia : i ∈ allocatedList q) by (rewrite Ha; left). destruct (alloc_NoDup q h Hq) as [Hna Hnf].
  rewrite Ha in Hna. apply NoDup_cons in Hna as [Hial Hnal].
  destruct Hq as [Q1 Q2 Q3 Q4 Q5 Q6 Q7 Q8 Q9]. destruct (Q8 i Hia) as (m0 & E0 & Hi). rewrite Em in E0. injection E0 as <-.
  assert (Hx : exists rl k, q1 = withLists al rl (i :: freeList q) (allocated q - 1) k q /\ k + Z.of_nat (length rl) = allocated q - 1 /\
            NoDup rl /\ i ∉ rl /\ forall x, x <> i -> x ∈ rl <-> x ∈ readyList q).
  { destruct (MSHR.inService m) eqn:Hs.
    - injection H1 as <-. eexists _, _. split; [done|]. split; [lia|]. split; [done|]. split; [|done]. intros Hx%Hi. congruence.
    - apply obind_Done in H1 as (rl & Hr%erase_Done & [= <-]). exists rl, (inServiceEntries q). rewrite Hr in Q5, Q6. cbn in Q5.
      apply NoDup_cons in Q6 as [? ?]. split; [done|]. split; [lia|]. split; [done|]. split; [done|].
      intros x Hx. rewrite Hr, elem_of_cons. naive_solver. }
  destruct Hx as (rl & k & -> & Hk & Hnr & Hir & Hrl). split; cbn.
  - rewrite Q1, Ha. cbn. apply Permutation_middle.
  - done.
  - done.
  - rewrite Ha in Q4. cbn in Q4. lia.
  - done.
  - done.
  - intros x Hx. assert (x <> i) by congruence. apply Hrl in Hx; [|done]. apply Q7 in Hx. rewrite Ha in Hx. set_solver.
  - intros x Hx. assert (x <> i) by congruence. destruct (Q8 x) as (mx & Ex & Hmx); [rewrite Ha; by right|].
    exists mx. rewrite lookup_insert_ne by done. split; [done|]. by rewrite Hrl.
  - intros x [->|Hx]%elem_of_cons; [exists m'; by rewrite lookup_insert_eq|].
    assert (x <> i). { intros ->. pose proof Q2 as Hn. rewrite Q1, Ha in Hn. cbn in Hn. apply NoDup_cons in Hn as [Hn _]. set_solver. }
    rewrite lookup_insert_ne by done. by apply Q9.
Qed.

(** A register changes between ready and in service. *)
Lemma reready_ok q h i m m' rl k : queueOK q h -> i ∈ allocatedList q -> h !! i = Some m -> NoDup rl ->
  (forall x, x <> i -> x ∈ rl <-> x ∈ readyList q) -> (i ∈ rl <-> MSHR.inService m' = false) ->
  k + Z.of_nat (length rl) = allocated q -> queueOK (withReady rl k q) (<[i := m']> h).
Proof.
  intros Hq Hi Em Hn Hrl Hir Hk. pose proof (alloc_free_disjoint q h Hq i Hi) as Hf.
  destruct Hq as [Q1 Q2 Q3 Q4 Q5 Q6 Q7 Q8 Q9]. split; try done; cbn.
  - intros x Hx. destruct (decide (x = i)) as [->|Hne]; [done|]. by apply Q7, Hrl.
  - intros x Hx. destruct (decide (i = x)) as [<-|Hne]; [exists m'; by rewrite lookup_insert_eq|].
    destruct (Q8 x Hx) as (mx & Ex & Hmx). exists mx. rewrite lookup_insert_ne by done. split; [done|]. rewrite Hrl by congruence. done.
  - intros x Hx. destruct (decide (i = x)) as [<-|Hne]; [done|]. rewrite lookup_insert_ne by done. by apply Q9.
Qed.

Lemma isForwardNoResponse_one m : MSHR.isForwardNoResponse m = Done true ->
  exists x, MSHR.elems (MSHR.targets m) = [x] /\ MSHR.elems (MSHR.deferredTargets m) = [].
Proof.
  unfold MSHR.isForwardNoResponse, MSHR.getNumTargets, MSHR.getTarget. case_decide as Hn; [|done].
  destruct (MSHR.elems (MSHR.targets m)) as [|x [|y l]]; [done| |cbn in Hn; lia]. intros _. exists x.
  destruct (MSHR.elems (MSHR.deferredTargets m)); [done|cbn in Hn; lia].
Qed.

Lemma queue_markInService_ok d i q h q' h' : queueOK q h -> i ∈ allocatedList q -> markInService d i q h = Done (q', h') -> queueOK q' h'.
Proof.
  intros Hq Hi. unfold markInService. intros ([free h1] & Hm & H)%obind_Done. unfold MSHR.markInService in Hm.
  apply obind_Done in Hm as (m & Em%MSHRCorrect.get_Done & Hm). destruct (MSHR.inService m) eqn:Hs; [done|].
  apply obind_Done in Hm as ([|] & Hf & Hm).
  - apply obind_Done in Hm as (m1 & Hp & [= <- <-]). apply isForwardNoResponse_one in Hf as (x & Hx & Hd).
    assert (Hm1 : MSHR.inService m1 = MSHR.inService m /\ MSHR.elems (MSHR.deferredTargets m1) = []).
    { unfold MSHR.popTarget in Hp. destruct (MSHR.hasTargets m); [|done]. by injection Hp as <-. }
    eapply deallocateOne_ok; [|apply lookup_insert_eq|apply Hm1|exact H].
    eapply (keeps_ok q h); [done|]. eapply insert_keeps; [|done|apply Hm1]. intros Hfr. by eapply alloc_free_disjoint.
  - apply obind_Done in Hm as (h2 & Hc & [= <- <-]). apply obind_Done in H as (rl & Hr%erase_Done & [= <- <-]).
    set (m1 := MSHR.withService _ _ _ _ m) in Hc. pose proof (qo_ready q h Hq) as Hn. rewrite Hr in Hn. apply NoDup_cons in Hn as [Hir Hn].
    assert (H1 : queueOK (withReady rl (inServiceEntries q + 1) q) (<[i := m1]> h)).
    { eapply reready_ok; try done.
      - intros x Hx. rewrite Hr, elem_of_cons. naive_solver.
      - pose proof (qo_service q h Hq) as Q5. rewrite Hr in Q5. cbn in Q5. lia. }
    destruct (MSHR.downstreamPending m1); [by injection Hc as <-|]. eapply keeps_ok; [done|]. apply lessMarked_keeps.
    eapply (MSHRCorrect.clearTargets_ends (MSHR.clearDownstreamPending (S (MSHR.marked (<[i := m1]> h))))); [|done].
    intros j h3 H3%MSHRCorrect.marked_mono. apply MSHRCorrect.clear_ends. lia.
Qed.

Lemma markPending_ok i q h q' h' : queueOK q h -> i ∈ allocatedList q -> markPending i q h = Done (q', h') -> queueOK q' h'.
Proof.
  intros Hq Hi. unfold markPending. intros (m & Em%MSHRCorrect.get_Done & H)%obind_Done. destruct (MSHR.inService m) eqn:Hs; [|done].
  cbn [negb] in H. apply obind_Done in H as (rl & Hr%addToReadyList_Done & [= <- <-]).
  destruct (qo_alloc q h Hq i Hi) as (m0 & E0 & Hm0). rewrite Em in E0. injection E0 as <-.
  assert (Hir : i ∉ readyList q) by (rewrite Hm0; congruence).
  eapply reready_ok; try done.
  - rewrite Hr. apply NoDup_cons. split; [done|]. apply (qo_ready q h Hq).
  - intros x Hx. rewrite Hr, elem_of_cons. naive_solver.
  - rewrite Hr, elem_of_cons. naive_solver.
  - rewrite Hr. cbn. pose proof (qo_service q h Hq). lia.
Qed.

Lemma moveToFront_ok i q h q' : queueOK q h -> moveToFront i q h = Done q' -> queueOK q' h /\ readyList q' ≡ₚ readyList q.
Proof.
  intros Hq. unfold moveToFront. intros (m & Em & H)%obind_Done. destruct (MSHR.inService m); [by injection H as <-|].
  apply obind_Done in H as (rl & Hr%erase_Done & [= <-]). split; [|done]. cbn in *.
  destruct Hq as [Q1 Q2 Q3 Q4 Q5 Q6 Q7 Q8 Q9]. rewrite Hr in Q5, Q6. split; try done; cbn.
  - intros x. rewrite <- Hr. apply Q7.
  - intros x Hx. destruct (Q8 x Hx) as (m0 & E0 & H0). exists m0. split; [done|]. by rewrite <- Hr.
Qed.

Lemma forceDeallocateTarget_ok now i q h b q' h' : queueOK q h -> i ∈ allocatedList q ->
  forceDeallocateTarget now i q h = Done (b, q', h') -> queueOK q' h'.
Proof.
  intros Hq Hi. unfold forceDeallocateTarget. intros (m & Em%MSHRCorrect.get_Done & H)%obind_Done.
  apply obind_Done in H as (m1 & Hp & ([q1 h1] & H & [= <- <- <-])%obind_Done).
  assert (Hif : i ∉ freeList q) by (intros ?; by eapply alloc_free_disjoint).
  assert (Hs : MSHR.inService m1 = MSHR.inService m).
  { unfold MSHR.popTarget in Hp. destruct (MSHR.hasTargets m); [|done]. by injection Hp as <-. }
  assert (H1 : queueOK q (<[i := m1]> h)) by (eapply keeps_ok; [done|]; by eapply insert_keeps).
  destruct (MSHR.hasTargets m1) eqn:Ht; [by injection H as <- <-|]. apply obind_Done in H as ([pr h2] & H2 & H).
  unfold MSHR.promoteDeferredTargets in H2. rewrite (proj2 (MSHRCorrect.get_Done _ _ _) (lookup_insert_eq h i m1)) in H2. cbn [obind] in H2.
  rewrite Ht in H2. destruct (MSHR.elems (MSHR.deferredTargets m1)) as [|x l] eqn:Hd.
  - injection H2 as <- <-. eapply deallocateOne_ok; [exact H1|apply lookup_insert_eq|done|done].
  - injection H2 as <- <-. injection H as <- <-. eapply keeps_ok; [exact H1|]. eapply insert_keeps; [done|apply lookup_insert_eq|done].
Qed.

Lemma deallocateOne_lists i q h q' h' : deallocateOne i q h = Done (q', h') ->
  allocatedList q ≡ₚ i :: allocatedList q' /\ forall j, j <> i -> h' !! j = h !! j.
Proof.
  unfold deallocateOne. intros (al & Ha%erase_Done & (m & Em & (q1 & H1 & (h1 & Hh & [= <- <-])%obind_Done)%obind_Done)%obind_Done)%obind_Done.
  split.
  - assert (allocatedList q1 = al) as E.
    { destruct (MSHR.inService m); [by injection H1 as <-|]. by apply obind_Done in H1 as (rl & _ & [= <-]). }
    rewrite Ha, <- E. unfold signalDrain. destruct (drainManager q1); [|done]. by destruct (_ =? 0).
  - intros j Hj. unfold MSHR.deallocate in Hh. apply obind_Done in Hh as (m1 & _ & Hh). destruct (MSHR.hasTargets m1); [done|].
    destruct (MSHR.isReset _); [|done]. injection Hh as <-. by rewrite lookup_insert_ne.
Qed.

Lemma squashAll_ok threadNum l : forall q h q' h', NoDup l -> (forall i, i ∈ l -> i ∈ allocatedList q) -> queueOK q h ->
  squashAll threadNum l q h = Done (q', h') -> queueOK q' h'.
Proof.
  induction l as [|i l IH]; intros q h q' h' Hn Hl Hq; cbn [squashAll]; [by intros [= <- <-]|].
  apply NoDup_cons in Hn as [Hi Hn]. intros (m & Em%MSHRCorrect.get_Done & H)%obind_Done.
  assert (Hl' : forall x, x ∈ l -> x ∈ allocatedList q) by (intros x Hx; apply Hl; by right).
  destruct (_ =? threadNum); [|by eapply IH]. destruct (MSHR.hasTargets m && _); [done|].
  set (m1 := MSHR.onTargets _ _ m) in H. destruct (Nat.eqb_spec (MSHR.getNumTargets m1) 0) as [Hz|]; cbn [negb] in H; [|done].
  assert (H1 : queueOK q (<[i := m1]> h)).
  { eapply keeps_ok; [done|]. eapply insert_keeps; [|done|done]. intros ?. eapply alloc_free_disjoint; [done| |done]. apply Hl. left. }
  apply obind_Done in H as ([q1 h1] & Hd & H). destruct (MSHR.inService m1); [injection Hd as <- <-; by eapply IH|].
  eapply (IH q1 h1); [done| | |done].
  - intros x Hx. apply deallocateOne_lists in Hd as [Hd _]. specialize (Hl' x Hx). rewrite Hd in Hl'. set_solver.
  - eapply deallocateOne_ok; [exact H1|apply lookup_insert_eq| |done]. unfold MSHR.getNumTargets in Hz.
    destruct (MSHR.elems (MSHR.deferredTargets m1)); [done|cbn in Hz; lia].
Qed.

(** ** Operations of a register that is in use *)

Lemma keeps_trans q h1 h2 h3 : keeps q h1 h2 -> keeps q h2 h3 -> keeps q h1 h3.
Proof.
  intros H1 H2 i m Hi Em. destruct (H1 i m Hi Em) as (m2 & E2 & S2 & F2). destruct (H2 i m2 Hi E2) as (m3 & E3 & S3 & F3).
  exists m3. split; [done|]. split; [congruence|]. auto.
Qed.

Lemma modify_keeps q h f i h' : i ∉ freeList q -> (forall m, MSHR.inService (f m) = MSHR.inService m) ->
  MSHR.modify f i h = Done h' -> keeps q h h'.
Proof. intros Hi Hf (m & Em & ->)%MSHRCorrect.modify_Done. by eapply insert_keeps. Qed.

Lemma allocateTarget_keeps q now p w o i h h' : i ∉ freeList q -> MSHR.allocateTarget now p w o i h = Done h' -> keeps q h h'.
Proof.
  intros Hi. unfold MSHR.allocateTarget. destruct (decide _); [done|]. intros (m & _ & ([|] & _ & H)%obind_Done)%obind_Done.
  - apply obind_Done in H as (v & _ & H%MSHRCorrect.add_Done). by eapply addedTo_keeps.
  - apply MSHRCorrect.add_Done in H. by eapply addedTo_keeps.
Qed.

Lemma handleSnoop_keeps q fresh now p o i h r p' h' : i ∉ freeList q -> MSHR.handleSnoop fresh now p o i h = Done (r, p', h') -> keeps q h h'.
Proof.
  intros Hi. unfold MSHR.handleSnoop. intros (m & Em%MSHRCorrect.get_Done & H)%obind_Done.
  destruct (negb (MSHR.inService m) || _).
  { injection H as <- <- <-. eapply insert_keeps; [done|done|]. by destruct (MemCmd.needsExclusive _). }
  set (m1 := if MemCmd.needsExclusive _ then _ else m) in H.
  assert (K1 : keeps q h (<[i := m1]> h)) by (eapply insert_keeps; [done|done|]; subst m1; by destruct (MemCmd.needsExclusive _)).
  destruct (MSHR.postInvalidate m1); [by injection H as <- <- <-|]. apply obind_Done in H as ([p2 h2] & H2 & H).
  assert (K2 : keeps q (<[i := m1]> h) h2).
  { destruct (MSHR.pendingDirty m1 || _); [|injection H2 as <- <-; intros j x _ E; by exists x].
    apply obind_Done in H2 as (cp & _ & (h3 & Ha%MSHRCorrect.add_Done & (p3 & _ & (h4 & H4 & [= <- <-])%obind_Done)%obind_Done)%obind_Done).
    eapply keeps_trans; [by eapply addedTo_keeps|]. destruct (MemCmd.needsExclusive _); [eapply modify_keeps; [done| |exact H4]; done|].
    injection H4 as <-. intros j x _ E. by exists x. }
  eapply keeps_trans; [done|]. eapply keeps_trans; [done|]. destruct (MemCmd.needsExclusive _).
  - injection H as <- <- <-. intros j x _ E. by exists x.
  - apply obind_Done in H as (h5 & H5 & [= <- <- <-]). eapply modify_keeps; [done| |exact H5]; done.
Qed.

Lemma checkFunctional_keeps q p i h r p' h' : i ∉ freeList q -> MSHR.checkFunctional p i h = Done (r, p', h') -> keeps q h h'.
Proof.
  intros Hi. unfold MSHR.checkFunctional. intros (m & Em%MSHRCorrect.get_Done & H)%obind_Done.
  destruct (MemCmd.isPrint _); [apply obind_Done in H as ([[? ?] ?] & _ & [= <- <- <-]); intros j x _ E; by exists x|].
  apply obind_Done in H as ([[[|] p1] ts] & _ & H); [injection H as <- <- <-; by eapply insert_keeps|].
  apply obind_Done in H as ([[r2 p2] ds] & _ & [= <- <- <-]). by eapply insert_keeps.
Qed.

Lemma clearList_keeps q l h h' : MSHR.clearList l h = Done h' -> keeps q h h'.
Proof.
  intros H. apply lessMarked_keeps.
  eapply (MSHRCorrect.clearTargets_ends (MSHR.clearDownstreamPending (S (MSHR.marked h)))); [|done].
  intros j h3 H3%MSHRCorrect.marked_mono. apply MSHRCorrect.clear_ends. lia.
Qed.

Lemma handleFill_keeps q p i h h' : i ∉ freeList q -> MSHR.handleFill p i h = Done h' -> keeps q h h'.
Proof.
  intros Hi H. assert (K0 : keeps q h h) by (intros j x _ E; by exists x).
  unfold MSHR.handleFill in H. apply obind_Done in H as (m & Em%MSHRCorrect.get_Done & H).
  destruct (Packet.sharedAsserted p); [by injection H as <-|]. apply obind_Done in H as ([|] & _ & H); [by injection H as <-|].
  apply obind_Done in H as ([|] & _ & H); [by injection H as <-|].
  destruct (negb _); [by injection H as <-|]. destruct (MSHR.tl_needsExclusive (MSHR.targets m)); [done|]. destruct (MSHR.downstreamPending m); [done|].
  apply obind_Done in H as (h1 & Hc & H). eapply keeps_trans; [|eapply keeps_trans; [eapply clearList_keeps; exact Hc|]].
  - by eapply insert_keeps.
  - eapply modify_keeps; [done| |exact H]; done.
Qed.

(** ** Histories *)

(** What happens to a queue: its own operations, operations of a register that
    is not free, and what happens to registers elsewhere. *)
Inductive step (q : t) (h : MSHR.heap) : t -> MSHR.heap -> Prop :=
| step_allocate now a n p w o i q' h' : allocate now a n p w o q h = Done (i, q', h') -> step q h q' h'
| step_service d i q' h' : i ∈ allocatedList q -> markInService d i q h = Done (q', h') -> step q h q' h'
| step_pending i q' h' : i ∈ allocatedList q -> markPending i q h = Done (q', h') -> step q h q' h'
| step_front i q' : moveToFront i q h = Done q' -> step q h q' h
| step_force now i b q' h' : i ∈ allocatedList q -> forceDeallocateTarget now i q h = Done (b, q', h') -> step q h q' h'
| step_deallocate i m q' h' : h !! i = Some m -> MSHR.elems (MSHR.deferredTargets m) = [] ->
    deallocate i q h = Done (q', h') -> step q h q' h'
| step_squash n q' h' : squash n q h = Done (q', h') -> step q h q' h'
| step_drain dm r q' : drain dm q = (r, q') -> step q h q' h
| step_target now p w o i h' : i ∉ freeList q -> MSHR.allocateTarget now p w o i h = Done h' -> step q h q h'
| step_snoop fresh now p o i r p' h' : i ∉ freeList q -> MSHR.handleSnoop fresh now p o i h = Done (r, p', h') -> step q h q h'
| step_check p i r p' h' : i ∉ freeList q -> MSHR.checkFunctional p i h = Done (r, p', h') -> step q h q h'
| step_fill p i h' : i ∉ freeList q -> MSHR.handleFill p i h = Done h' -> step q h q h'
| step_pop i m m' : i ∉ freeList q -> h !! i = Some m -> MSHR.popTarget m = Done m' -> step q h q (<[i := m']> h)
| step_promote now i r h' : i ∉ freeList q -> MSHR.promoteDeferredTargets now i h = Done (r, h') -> step q h q h'
| step_elsewhere h' : (forall i, i ∈ registers q -> h' !! i = h !! i) -> step q h q h'.

Inductive reachable : t -> MSHR.heap -> Prop :=
| reach_new n r d base h : 0 <= n + r - 1 -> reachable (new n r d base) (newHeap (new n r d base) h)
| reach_step q h q' h' : reachable q h -> step q h q' h' -> reachable q' h'.

Lemma newHeap_lookup (l : list nat) h i : i ∈ l -> foldr (fun i (h : MSHR.heap) => <[i := MSHR.new]> h) h l !! i = Some MSHR.new.
Proof.
  induction l as [|x l IH]; [by intros ?%not_elem_of_nil|]. cbn. destruct (decide (x = i)) as [<-|?]; [by rewrite lookup_insert_eq|].
  rewrite lookup_insert_ne by done. intros [->|Hi]%elem_of_cons; [done|by apply IH].
Qed.

Lemma queue_new_ok n r d base h : 0 <= n + r - 1 -> queueOK (new n r d base) (newHeap (new n r d base) h).
Proof.
  intros Hn. split; cbn; try done.
  - apply NoDup_seq.
  - rewrite length_seq. lia.
  - constructor.
  - intros i Hi. by apply not_elem_of_nil in Hi.
  - intros i Hi. exists MSHR.new. split; [by apply newHeap_lookup|]. by split.
Qed.

Lemma queue_step_ok q h q' h' : step q h q' h' -> queueOK q h -> queueOK q' h'.
Proof.
  intros Hs Hq. destruct Hs as [| | |i q' H| | |n q' h' H|dm r q' H| | | | |i m m' Hi Em H|now i r h' Hi H|h' H];
    eauto using queue_allocate_ok, queue_markInService_ok, markPending_ok, forceDeallocateTarget_ok, deallocateOne_ok, keeps_ok,
      allocateTarget_keeps, handleSnoop_keeps, checkFunctional_keeps, handleFill_keeps.
  - by eapply moveToFront_ok.
  - eapply squashAll_ok; [exact (proj1 (alloc_NoDup q h Hq))|done|exact Hq|exact H].
  - unfold drain in H. destruct (_ =? 0); injection H as <- <-; destruct Hq; by split.
  - eapply keeps_ok; [done|]. eapply insert_keeps; [done|done|]. unfold MSHR.popTarget in H. destruct (MSHR.hasTargets m); [|done]. by injection H as <-.
  - eapply keeps_ok; [done|]. unfold MSHR.promoteDeferredTargets in H. apply obind_Done in H as (m & Em%MSHRCorrect.get_Done & H).
    destruct (MSHR.hasTargets m); [done|]. destruct (MSHR.elems (MSHR.deferredTargets m)); injection H as <- <-; [intros j x _ E; by exists x|].
    by eapply insert_keeps.
  - eapply keeps_ok; [done|]. intros i m Hi Em. exists m. by rewrite H.
Qed.

Lemma queue_reachable_ok q h : reachable q h -> queueOK q h.
Proof. induction 1; eauto using queue_new_ok, queue_step_ok. Qed.

(** ** A queue that is not full *)

Lemma firstOf_spec f h l : (forall i, i ∈ l -> is_Some (h !! i)) -> exists r, firstOf f h l = Done r /\
  match r with
  | Some i => exists m, i ∈ l /\ h !! i = Some m /\ f m = true
  | None => forall i m, i ∈ l -> h !! i = Some m -> f m = false
  end.
Proof.
  induction l as [|i l IH]; intros Hl; cbn [firstOf]; [exists None; split; [done|]; by intros ? ? ?%not_elem_of_nil|].
  destruct (Hl i) as [m Em]; [by left|]. rewrite (proj2 (MSHRCorrect.get_Done _ _ _) Em). cbn [obind]. destruct (f m) eqn:Ef.
  - exists (Some i). split; [done|]. exists m. split; [by left|done].
  - destruct IH as (r & -> & Hr); [intros x Hx; apply Hl; by right|]. exists r. split; [done|]. destruct r as [k|].
    + destruct Hr as (mk & Hk & Ek & Fk). exists mk. split; [by right|done].
    + intros x mx [->|Hx]%elem_of_cons Ex; [congruence|by eapply Hr].
Qed.

Lemma findMatch_spec a sec q h : queueOK q h -> exists r, findMatch a sec q h = Done r /\
  match r with
  | Some i => exists m, i ∈ allocatedList q /\ h !! i = Some m /\ matches a sec m = true
  | None => forall i m, i ∈ allocatedList q -> h !! i = Some m -> matches a sec m = false
  end.
Proof. intros Hq. apply firstOf_spec. intros i Hi. destruct (qo_alloc q h Hq i Hi) as (m & ? & _). by exists m. Qed.

Lemma MSHR_allocate_total now a n p w o i h m sec : h !! i = Some m -> idle m -> Packet.isSecure p = Done sec ->
  (forall j u, j <> i -> MSHR.upstream h p = Some j -> h !! j = Some u -> MSHR.downstreamPending u = false) ->
  exists h' m', MSHR.allocate now a n p w o i h = Done h' /\ h' !! i = Some m' /\ MSHR.addr m' = a /\ MSHR.isSecure m' = sec /\
    MSHR.readyTime m' = w /\ (forall j, j <> i -> is_Some (h !! j) -> is_Some (h' !! j)) /\
    forall j mj mj', j <> i -> h !! j = Some mj -> h' !! j = Some mj' -> exists b, mj' = MSHR.withDownstream b mj.
Proof.
  intros Em Hi Hs Hu. unfold MSHR.allocate. rewrite (proj2 (MSHRCorrect.get_Done _ _ _) Em), Hs. cbn [obind].
  rewrite (id_targets m Hi). cbn [negb MSHR.isReset MSHR.noTargets MSHR.tl_needsExclusive MSHR.hasUpgrade andb].
  set (m1 := MSHR.mk _ _ _ _ _ _ _ _ _ _ _ _ _ _ _). set (src := if decide _ then _ else _).
  destruct (MSHRCorrect.add_total now false i p w o src true (<[i := m1]> h) m1) as [h' Ha]; [apply lookup_insert_eq| |].
  - intros j u Hj Hju. rewrite <- (MSHRCorrect.upstream_dom h) in Hj by (intros s; by eapply MSHRCorrect.is_Some_insert).
    rewrite lookup_insert_Some in Hju. destruct Hju as [[<- <-]|[Hne Hju]]; [done|]. by apply (Hu j u).
  - rewrite Ha. cbn [obind]. apply MSHRCorrect.add_Done in Ha as (m2 & b & E2 & E3 & Ho).
    rewrite lookup_insert_eq in E2. injection E2 as <-. rewrite (proj2 (MSHRCorrect.get_Done _ _ _) E3). cbn [obind].
    change (MSHR.deferredTargets _) with (MSHR.deferredTargets m). rewrite (id_deferred m Hi). cbn [MSHR.isReset MSHR.noTargets MSHR.tl_needsExclusive MSHR.hasUpgrade andb negb].
    eexists h', _. split; [done|]. split; [done|]. do 3 (split; [done|]). split.
    + intros j Hj Hsj. destruct (Ho j Hj) as [E|(mj & _ & E)]; rewrite E; [by rewrite lookup_insert_ne|by eexists].
    + intros j mj mj' Hj Ej Ej'. destruct (Ho j Hj) as [E|(x & E & E')]; rewrite lookup_insert_ne in E by done.
      * exists (MSHR.downstreamPending mj). rewrite E, Ej in Ej'. injection Ej' as <-. by destruct mj.
      * rewrite Ej in E. injection E as <-. rewrite E' in Ej'. injection Ej' as <-. by eexists.
Qed.

(** C28: the queue of registers.  In every history each register of the queue is
    exactly one of free, ready and in service, the counters are right, and a
    queue that is not full takes another request without a failed assertion:
    its address is then found in the queue, at the new register unless it was
    there before. *)
Theorem queue_takes_request q h now a n p w o sec : reachable q h -> isFull q = false -> 1 <= numReserve q ->
  Packet.isSecure p = Done sec ->
  (forall j u, MSHR.upstream h p = Some j -> h !! j = Some u -> MSHR.downstreamPending u = false) ->
  queueOK q h /\ exists i q' h', allocate now a n p w o q h = Done (i, q', h') /\ i ∈ freeList q /\ queueOK q' h' /\
    allocated q' = allocated q + 1 /\ (exists k, findMatch a sec q' h' = Done (Some k)) /\
    (findMatch a sec q h = Done None -> findMatch a sec q' h' = Done (Some i)).
Proof.
  intros Hq%queue_reachable_ok Hf Hres Hs Hu. split; [done|]. unfold isFull in Hf. apply Z.ltb_ge in Hf.
  assert (Hlen : Z.of_nat (length (registers q)) = Z.of_nat (length (allocatedList q)) + Z.of_nat (length (freeList q))).
  { rewrite (qo_perm q h Hq), length_app. lia. }
  rewrite (qo_entries q h Hq), <- (qo_allocated q h Hq) in Hlen.
  destruct (freeList q) as [|i fl] eqn:Ef; [cbn in Hlen; lia|].
  destruct (qo_free q h Hq i) as (m & Em & Hi); [rewrite Ef; left|].
  destruct (MSHR_allocate_total now a n p w o i h m sec Em Hi Hs) as (h' & m' & Ha & Em' & Ea & Es & Er & Hd & Ho); [by eauto|].
  assert (Hia : i ∉ allocatedList q) by (intros Hx; eapply alloc_free_disjoint; [done|done|]; rewrite Ef; left).
  destruct (addToReadyList_spec i h' (readyList q) m' Em') as (l1 & l2 & _ & Hr & _).
  { intros x Hx. apply Hd; [intros ->; by apply Hia, (qo_sub q h Hq)|]. by apply (ready_some q h Hq). }
  assert (Hall : exists q', allocate now a n p w o q h = Done (i, q', h') /\ allocatedList q' = allocatedList q ++ [i] /\ allocated q' = allocated q + 1).
  { unfold allocate. rewrite Ef, (proj2 (MSHRCorrect.get_Done _ _ _) Em). cbn [obind].
    unfold MSHR.getNumTargets. rewrite (id_targets m Hi), (id_deferred m Hi). cbn [MSHR.noTargets MSHR.elems length Nat.add Nat.eqb negb].
    rewrite Ha. cbn [obind]. rewrite Hr. cbn [obind]. by eexists. }
  destruct Hall as (q' & Hall & Eal & Ecnt). pose proof (queue_allocate_ok _ _ _ _ _ _ _ _ _ _ _ Hq Hall) as Hq'.
  exists i, q', h'. split; [done|]. split; [left|]. split; [done|]. split; [done|].
  assert (Hmi : matches a sec m' = true) by (unfold matches; by rewrite Ea, Es, Z.eqb_refl, eqb_reflx).
  destruct (findMatch_spec a sec q' h' Hq') as (r & Hfm & Hspec). rewrite Hfm. destruct r as [k|].
  - split; [by eexists|]. intros Hnone. destruct Hspec as (mk & Hk & Ek & Hmk). rewrite Eal, elem_of_app, list_elem_of_singleton in Hk.
    destruct Hk as [Hk| ->]; [|done]. exfalso. destruct (findMatch_spec a sec q h Hq) as (r0 & Hfm0 & Hspec0). rewrite Hnone in Hfm0.
    injection Hfm0 as <-. destruct (qo_alloc q h Hq k Hk) as (mk0 & Ek0 & _). assert (k <> i) by congruence.
    destruct (Ho k mk0 mk) as [b ->]; [done..|]. specialize (Hspec0 k mk0 Hk Ek0). unfold matches in *. cbn in Hmk. congruence.
  - exfalso. specialize (Hspec i m'). rewrite Hmi in Hspec. discriminate Hspec; [|done]. rewrite Eal. set_solver.
Qed.

Lemma queue_takes_request_witness : exists i q' h',
  allocate 0 0x40 64 (Packet.new (Request.physical 0x44 8 0 0 0) MemCmd.ReadReq) 10 1 (new 4 1 0 0) (newHeap (new 4 1 0 0) ∅) = Done (i, q', h') /\
  findMatch 0x40 false q' h' = Done (Some i).
Proof.
  destruct (queue_takes_request (new 4 1 0 0) (newHeap (new 4 1 0 0) ∅) 0 0x40 64 (Packet.new (Request.physical 0x44 8 0 0 0) MemCmd.ReadReq) 10 1 false)
    as (_ & i & q' & h' & H1 & _ & _ & _ & _ & H2); try reflexivity.
  - apply (reach_new 4 1 0 0 ∅). lia.
  - intros j u H. discriminate H.
  - exists i, q', h'. split; [exact H1|]. apply H2. reflexivity.
Defined.

End MSHRQueueCorrect.
