(* ===== verification/PacketQueue.v ===== *)
(** * Packet queues: gem5/src/mem/packet_queue.hh and packet_queue.cc

    The packets a port has yet to send, by the tick they may be sent at, the
    event that sends the first of them and the wait for a retry. *)

From Stdlib Require Import ZArith Lia.
From stdpp Require Import base sets numbers list sorting.
From S2P Require Import Prelude Bits MemCmd Request Packet.

#[local] Open Scope Z_scope.
#[local] Open Scope outcome_scope.

Module PacketQueue.

Record DeferredPacket := mkDeferred { tick : Z; pkt : Packet.t }.

(** [sendEvent] is the tick the event is scheduled at, if it is. *)
Record t := mk {
  transmitList : list DeferredPacket;
  sendEvent : option Z;
  drainManager : option nat;
  waitingOnRetry : bool;
  signalled : list nat
}.

Definition new : t := mk [] None None false [].

Definition withList (l : list DeferredPacket) (q : t) : t := mk l (sendEvent q) (drainManager q) (waitingOnRetry q) (signalled q).
Definition withEvent (e : option Z) (q : t) : t := mk (transmitList q) e (drainManager q) (waitingOnRetry q) (signalled q).
Definition withRetry (b : bool) (q : t) : t := mk (transmitList q) (sendEvent q) (drainManager q) b (signalled q).

Definition MaxTick : Z := 2 ^ 64 - 1.

Definition size (q : t) : nat := length (transmitList q).
Definition deferredPacketReady (now : Z) (q : t) : bool :=
  match transmitList q with dp :: _ => tick dp <=? now | [] => false end.
Definition deferredPacketReadyTime (q : t) : Z :=
  match transmitList q with dp :: _ => tick dp | [] => MaxTick end.

Fixpoint hasAddrIn (a : Z) (l : list DeferredPacket) : outcome bool :=
  match l with
  | [] => Done false
  | dp :: l => let! b := Packet.getAddr (pkt dp) in if b =? a then Done true else hasAddrIn a l
  end.
Definition hasAddr (a : Z) (q : t) : outcome bool := hasAddrIn a (transmitList q).

(** The loop of [checkFunctional]: the result, the packet and the list. *)
Fixpoint checkList (p : Packet.t) (l : list DeferredPacket) : outcome (bool * Packet.t * list DeferredPacket) :=
  match l with
  | [] => Done (false, p, [])
  | dp :: l =>
      let! (found, p, other) := Packet.checkFunctionalPacket (pkt dp) p in
      let dp := mkDeferred (tick dp) other in
      if found then Done (true, p, dp :: l)
      else let! (found, p, l) := checkList p l in Done (found, p, dp :: l)
  end.
Definition checkFunctional (p : Packet.t) (q : t) : outcome (bool * Packet.t * t) :=
  let! (found, p, l) := checkList p (transmitList q) in Done (found, p, withList l q).

Definition schedSendEvent (now when_ : Z) (q : t) : outcome t :=
  if waitingOnRetry q then
    match sendEvent q with None => Done q | Some _ => Exited end
  else if negb (when_ =? MaxTick) then
    let w := Z.max when_ (now + 1) in
    Done (match sendEvent q with
          | None => withEvent (Some w) q
          | Some e => if w <? e then withEvent (Some w) q else q
          end)
  else
    Done (match drainManager q, transmitList q, sendEvent q with
          | Some d, [], None => mk [] None None (waitingOnRetry q) (signalled q ++ [d])
          | _, _, _ => q
          end).

(** The insertion sort of [schedSendTiming], past the first element. *)
Fixpoint insertByTick (dp : DeferredPacket) (l : list DeferredPacket) : list DeferredPacket :=
  match l with
  | [] => [dp]
  | x :: l => if tick x <=? tick dp then x :: insertByTick dp l else dp :: x :: l
  end.

Definition schedSendTiming (now : Z) (p : Packet.t) (when_ : Z) (force_order : bool) (q : t) : outcome t :=
  if negb (now <=? when_) then Exited
  else if Packet.isExpressSnoop p then Exited
  else if (100 <? Z.of_nat (size q)) then Exited
  else
    let when_ := match last (transmitList q) with
                 | Some back => if force_order && (when_ <? tick back) then tick back else when_
                 | None => when_
                 end in
    let dp := mkDeferred when_ p in
    match transmitList q with
    | [] => schedSendEvent now when_ (withList [dp] q)
    | front :: rest =>
        if when_ <? tick front then
          if force_order then Exited else schedSendEvent now when_ (withList (dp :: front :: rest) q)
        else
          match last (transmitList q) with
          | Some back =>
              if tick back <=? when_ then Done (withList (transmitList q ++ [dp]) q)
              else if force_order then Exited
              else Done (withList (front :: insertByTick dp rest) q)
          | None => Exited
          end
    end.

Definition drain (dm : nat) (q : t) : Z * t :=
  match transmitList q with
  | [] => (0, q)
  | _ => (1, mk (transmitList q) (sendEvent q) (Some dm) (waitingOnRetry q) (signalled q))
  end.

Section send.
(** [sendTiming(pkt)] of the port: whether the packet is taken.  It may enqueue
    packets on the queue. *)
Context (sendTiming : Packet.t -> t -> outcome (bool * t)).

Definition sendDeferredPacket (now : Z) (q : t) : outcome t :=
  if waitingOnRetry q then Exited
  else if negb (deferredPacketReady now q) then Exited
  else match transmitList q with
  | [] => Exited
  | dp :: rest =>
      let! (taken, q) := sendTiming (pkt dp) (withList rest q) in
      let q := withRetry (negb taken) q in
      if taken then schedSendEvent now (deferredPacketReadyTime q) q
      else Done (withList (dp :: transmitList q) q)
  end.

(** [processSendEvent()]: the event has just been taken off the event queue. *)
Definition processSendEvent (now : Z) (q : t) : outcome t :=
  let q := withEvent None q in
  if waitingOnRetry q then Exited else sendDeferredPacket now q.

Definition retry (now : Z) (q : t) : outcome t :=
  if waitingOnRetry q then sendDeferredPacket now (withRetry false q) else Exited.

End send.

(** ** Order *)

Definition before (x y : DeferredPacket) : Prop := tick x <= tick y.

Lemma sorted_last_bound l b x : StronglySorted before l -> last l = Some b -> x ∈ l -> tick x <= tick b.
Proof.
  intros Hs [l' ->]%last_Some Hx. apply elem_of_app in Hx as [Hx|Hx%list_elem_of_singleton]; [|by subst].
  induction l' as [|y l' IH]; [by apply not_elem_of_nil in Hx|]. cbn in Hs. inversion Hs as [|? ? Hs' Hf]; subst.
  apply elem_of_cons in Hx as [->|Hx]; [|by apply IH]. rewrite Forall_app, Forall_singleton in Hf. apply Hf.
Qed.

Lemma insertByTick_split dp l : StronglySorted before l -> exists l1 l2, l = l1 ++ l2 /\ insertByTick dp l = l1 ++ dp :: l2 /\
  (forall x, x ∈ l1 -> tick x <= tick dp) /\ (forall x, x ∈ l2 -> tick dp < tick x).
Proof.
  induction l as [|x l IH]; intros Hs; cbn [insertByTick].
  - exists [], []. split; [done|]. split; [done|]. split; intros x Hx; by apply not_elem_of_nil in Hx.
  - inversion Hs as [|? ? Hs' Hf]; subst. destruct (Z.leb_spec (tick x) (tick dp)) as [H|H].
    + destruct (IH Hs') as (l1 & l2 & -> & -> & H1 & H2). exists (x :: l1), l2. split; [done|]. split; [done|]. split; [|done].
      intros y [->|Hy]%elem_of_cons; [done|by apply H1].
    + exists [], (x :: l). split; [done|]. split; [done|]. split; [intros y Hy; by apply not_elem_of_nil in Hy|].
      intros y [->|Hy]%elem_of_cons; [done|]. rewrite Forall_forall in Hf. specialize (Hf y Hy). unfold before in Hf. lia.
Qed.

Lemma sorted_insert dp l1 l2 : StronglySorted before (l1 ++ l2) -> (forall x, x ∈ l1 -> tick x <= tick dp) ->
  (forall x, x ∈ l2 -> tick dp <= tick x) -> StronglySorted before (l1 ++ dp :: l2).
Proof.
  induction l1 as [|x l1 IH]; cbn; intros Hs H1 H2.
  - constructor; [done|]. rewrite Forall_forall. intros y Hy. by apply H2.
  - inversion Hs as [|? ? Hs' Hf]; subst. constructor; [apply IH; [done| |done]; intros y Hy; apply H1; by right|].
    rewrite Forall_app in *. rewrite Forall_cons. destruct Hf as [Hf1 Hf2]. split; [done|]. split; [|done]. apply H1. by left.
Qed.

(** ** The invariant *)

(** At tick [now]: the list is by tick; when the queue waits for a retry, no
    event is scheduled and the first packet could have been sent; otherwise an
    event is scheduled exactly when there are packets, not before the tick of
    the first. *)
Record queueOK (now : Z) (q : t) : Prop := {
  pq_sorted : StronglySorted before (transmitList q);
  pq_ticks : forall dp, dp ∈ transmitList q -> tick dp < MaxTick;
  pq_retry : waitingOnRetry q = true -> sendEvent q = None /\ deferredPacketReady now q = true;
  pq_event : waitingOnRetry q = false -> transmitList q <> [] ->
    exists e, sendEvent q = Some e /\ deferredPacketReadyTime q <= e;
  pq_idle : waitingOnRetry q = false -> transmitList q = [] -> sendEvent q = None }.

(** While a packet is being sent the event may be missing. *)
Record sending (q : t) : Prop := {
  sq_sorted : StronglySorted before (transmitList q);
  sq_ticks : forall dp, dp ∈ transmitList q -> tick dp < MaxTick;
  sq_retry : waitingOnRetry q = false;
  sq_event : forall e, sendEvent q = Some e -> transmitList q <> [] /\ deferredPacketReadyTime q <= e }.

Lemma packets_new_ok now : queueOK now new.
Proof. split; cbn; try done; [constructor|]. intros dp Hdp. by apply not_elem_of_nil in Hdp. Qed.

(** Time passes. *)
Lemma later_ok now now' q : now <= now' -> queueOK now q -> queueOK now' q.
Proof.
  intros Ht [H1 H1' H2 H3 H4]. split; try done. intros Hr. destruct (H2 Hr) as [? Hd]. split; [done|].
  unfold deferredPacketReady in *. destruct (transmitList q); [done|]. apply Z.leb_le in Hd. apply Z.leb_le. lia.
Qed.

Lemma queueOK_sending now q : queueOK now q -> waitingOnRetry q = false -> sending q.
Proof.
  intros [H1 H1' H2 H3 H4] Hw. split; try done. intros e He. destruct (transmitList q) as [|dp l] eqn:El; [rewrite H4 in He; done|].
  split; [done|]. destruct H3 as (e' & He' & Hle); [done|done|]. rewrite He in He'. by injection He' as <-.
Qed.

(** [schedSendEvent] makes the event right. *)
Lemma schedSendEvent_ok now q dp rest : StronglySorted before (transmitList q) -> (forall x, x ∈ transmitList q -> tick x < MaxTick) ->
  waitingOnRetry q = false -> transmitList q = dp :: rest -> (forall e, sendEvent q = Some e -> tick dp <= e) ->
  exists q', schedSendEvent now (tick dp) q = Done q' /\ transmitList q' = transmitList q /\ queueOK now q'.
Proof.
  intros Hs Ht Hw Hl He. unfold schedSendEvent. rewrite Hw.
  assert (tick dp < MaxTick) by (apply Ht; rewrite Hl; left). destruct (Z.eqb_spec (tick dp) MaxTick); [lia|]. cbn [negb].
  assert (Hok : forall e, tick dp <= e -> queueOK now (withEvent (Some e) q)).
  { intros e Hle. split; cbn; try done; [congruence| |congruence]. intros _ _. exists e. split; [done|].
    unfold deferredPacketReadyTime. cbn. by rewrite Hl. }
  eexists. split; [done|]. destruct (sendEvent q) as [e|] eqn:Ee; [destruct (_ <? e)|].
  - split; [done|]. apply Hok. lia.
  - split; [done|]. replace q with (withEvent (Some e) q) by (destruct q; cbn in *; by subst). apply Hok. by apply He.
  - split; [done|]. apply Hok. lia.
Qed.

(** The tick a new packet is put at. *)
Definition effective (when_ : Z) (force_order : bool) (q : t) : Z :=
  match last (transmitList q) with
  | Some back => if force_order && (when_ <? tick back) then tick back else when_
  | None => when_
  end.

(** Where a new packet goes: behind every packet that may go no later. *)
Definition placed (dp : DeferredPacket) (l l' : list DeferredPacket) : Prop :=
  exists l1 l2, l = l1 ++ l2 /\ l' = l1 ++ dp :: l2 /\ (forall x, x ∈ l1 -> tick x <= tick dp) /\ (forall x, x ∈ l2 -> tick dp < tick x).

Lemma placed_sorted dp l l' : placed dp l l' -> StronglySorted before l -> tick dp < MaxTick -> (forall x, x ∈ l -> tick x < MaxTick) ->
  StronglySorted before l' /\ forall x, x ∈ l' -> tick x < MaxTick.
Proof.
  intros (l1 & l2 & -> & -> & H1 & H2) Hs Hd Ht. split.
  - apply sorted_insert; [done|done|]. intros x Hx. specialize (H2 x Hx). lia.
  - intros x. rewrite elem_of_app, elem_of_cons. intros [Hx|[->|Hx]]; [apply Ht; set_solver|done|apply Ht; set_solver].
Qed.

Section enqueue.
Context (now when_ : Z) (p : Packet.t) (force_order : bool) (q : t).
Context (Hwhen : now <= when_ < MaxTick) (Hex : Packet.isExpressSnoop p = false) (Hsz : Z.of_nat (size q) <= 100).
Context (Hs : StronglySorted before (transmitList q)) (Ht : forall x, x ∈ transmitList q -> tick x < MaxTick).
Context (Hr : waitingOnRetry q = true -> deferredPacketReady now q = true).

(** The three cases of an insertion, with the event to be made right in the
    first two. *)
Lemma schedSendTiming_cases : let dp := mkDeferred (effective when_ force_order q) p in exists l',
  placed dp (transmitList q) l' /\ (force_order = true -> l' = transmitList q ++ [dp]) /\ tick dp < MaxTick /\
  schedSendTiming now p when_ force_order q =
    match transmitList q with
    | [] => schedSendEvent now (tick dp) (withList l' q)
    | f :: _ => if tick dp <? tick f then schedSendEvent now (tick dp) (withList l' q) else Done (withList l' q)
    end /\
  match transmitList q with f :: _ => tick dp < tick f -> waitingOnRetry q = false /\ exists r, l' = dp :: r | [] => l' = [dp] end.
Proof.
  intros dp. assert (Hd : tick dp < MaxTick).
  { unfold dp, effective. cbn. destruct (last (transmitList q)) as [b|] eqn:El; [|lia]. destruct (force_order && _); [|lia].
    apply Ht. apply last_Some in El as [l' ->]. set_solver. }
  unfold schedSendTiming. rewrite (proj2 (Z.leb_le now when_)), Hex by lia. cbn [negb]. rewrite (proj2 (Z.ltb_ge 100 _)) by lia.
  fold (effective when_ force_order q). cbv zeta. fold dp. destruct (transmitList q) as [|f rest] eqn:El.
  { exists [dp]. split; [exists [], []; repeat split; try done; intros x Hx; by apply not_elem_of_nil in Hx|]. done. }
  rewrite <- El in *. change (effective when_ force_order q) with (tick dp).
  destruct (last (transmitList q)) as [b|] eqn:Eb; [|apply last_None in Eb; congruence].
  assert (Hb : forall x, x ∈ transmitList q -> tick x <= tick b) by (intros x; by eapply sorted_last_bound).
  assert (Hf : force_order = true -> tick b <= tick dp).
  { intros ->. unfold dp, effective. rewrite Eb. cbn. destruct (Z.ltb_spec when_ (tick b)); cbn; lia. }
  destruct (Z.ltb_spec (tick dp) (tick f)) as [Hlt|Hge].
  - assert (Hff : force_order = false). { destruct force_order; [|done]. specialize (Hf eq_refl). specialize (Hb f ltac:(rewrite El; left)). lia. }
    rewrite Hff. exists (dp :: transmitList q). split; [|split; [done|split; [done|split; [by rewrite El|]]]].
    + exists [], (transmitList q). split; [done|]. split; [done|]. split; [intros x Hx; by apply not_elem_of_nil in Hx|].
      intros x Hx. rewrite El in Hs, Hx. inversion Hs as [|? ? _ HF]; subst. rewrite Forall_forall in HF.
      apply elem_of_cons in Hx as [->|Hx]; [done|]. specialize (HF x Hx). unfold before in HF. lia.
    + intros _. split; [|by eexists]. destruct (waitingOnRetry q); [|done]. specialize (Hr eq_refl).
      unfold deferredPacketReady in Hr. rewrite El in Hr. apply Z.leb_le in Hr.
      assert (tick dp = when_) as E by (unfold dp, effective; rewrite Eb, Hff; done). lia.
  - destruct (Z.leb_spec (tick b) (tick dp)) as [Hle|Hgt].
    + exists (transmitList q ++ [dp]). split; [|split; [done|split; [done|split; [done|lia]]]].
      exists (transmitList q), []. rewrite app_nil_r. split; [done|]. split; [done|]. split; [|intros x Hx; by apply not_elem_of_nil in Hx].
      intros x Hx. specialize (Hb x Hx). lia.
    + assert (Hff : force_order = false) by (destruct force_order; [specialize (Hf eq_refl); lia|done]). rewrite Hff.
      exists (f :: insertByTick dp rest). split; [|split; [done|split; [done|split; [done|lia]]]].
      rewrite El in Hs. inversion Hs as [|? ? Hs' HF]; subst. destruct (insertByTick_split dp rest Hs') as (l1 & l2 & E1 & E2 & H1 & H2).
      exists (f :: l1), l2. rewrite El, E2, E1. split; [done|]. split; [done|]. split; [|done].
      intros x [->|Hx]%elem_of_cons; [done|by apply H1].
Qed.

End enqueue.

Lemma enqueue_ok now when_ p force_order q : queueOK now q -> now <= when_ < MaxTick -> Packet.isExpressSnoop p = false ->
  Z.of_nat (size q) <= 100 -> exists q', schedSendTiming now p when_ force_order q = Done q' /\ queueOK now q' /\
    placed (mkDeferred (effective when_ force_order q) p) (transmitList q) (transmitList q') /\
    (force_order = true -> transmitList q' = transmitList q ++ [mkDeferred (effective when_ force_order q) p]).
Proof.
  intros [H1 H2 H3 H4 H5] Hw Hx Hz.
  assert (He : waitingOnRetry q = false -> forall e, sendEvent q = Some e -> transmitList q <> [] /\ deferredPacketReadyTime q <= e).
  { intros Hr. apply (sq_event q). by eapply queueOK_sending. }
  destruct (schedSendTiming_cases now when_ p force_order q Hw Hx Hz H1 H2) as (l' & Hp & Hfo & Hd & -> & Hc).
  { intros Hr. by apply H3. }
  set (dp := mkDeferred (effective when_ force_order q) p) in *. destruct (placed_sorted dp _ _ Hp H1 Hd H2) as [S1 S2].
  destruct (transmitList q) as [|f rest] eqn:El.
  - subst l'. destruct (waitingOnRetry q) eqn:Hr; [destruct (H3 eq_refl) as [_ Hy]; unfold deferredPacketReady in Hy; by rewrite El in Hy|].
    destruct (schedSendEvent_ok now (withList [dp] q) dp []) as (q' & -> & Hl & Hok); try done.
    { intros e Hq. cbn in Hq. rewrite H5 in Hq; done. }
    exists q'. rewrite Hl. done.
  - destruct (Z.ltb_spec (tick dp) (tick f)) as [Hlt|Hge].
    + destruct (Hc Hlt) as [Hr [r ->]]. destruct (schedSendEvent_ok now (withList (dp :: r) q) dp r) as (q' & -> & Hl & Hok); try done.
      { intros e Hq. destruct (He Hr e Hq) as [_ Hle]. unfold deferredPacketReadyTime in Hle. rewrite El in Hle. lia. }
      exists q'. rewrite Hl. done.
    + exists (withList l' q). split; [done|]. split; [|done].
      assert (Hh : head l' = Some f).
      { destruct Hp as (l1 & l2 & E & -> & P1 & P2). destruct l1 as [|x l1]; cbn in *; [|congruence].
        subst l2. specialize (P2 f ltac:(left)). lia. }
      destruct l' as [|f' l']; [done|]. injection Hh as ->. split; cbn; try done.
      * intros Hr. destruct (H3 Hr) as [? Hy]. split; [done|]. unfold deferredPacketReady in *. by rewrite El in Hy.
      * intros Hr _. destruct (H4 Hr) as (e & Ee & Hle); [done|]. exists e. split; [done|].
        unfold deferredPacketReadyTime in *. by rewrite El in Hle.
Qed.

Section sendTiming.
(** The port takes a packet or not; it leaves the queue alone if it does not,
    and enqueues at most if it does. *)
Context (sendTiming : Packet.t -> t -> outcome (bool * t)).
Context (Hsend : forall p q, sending q -> exists b q', sendTiming p q = Done (b, q') /\
  (if b then sending q' else q' = q)).

Lemma sendDeferredPacket_ok now q : waitingOnRetry q = false -> sendEvent q = None -> deferredPacketReady now q = true ->
  StronglySorted before (transmitList q) -> (forall dp, dp ∈ transmitList q -> tick dp < MaxTick) ->
  exists q', sendDeferredPacket sendTiming now q = Done q' /\ queueOK now q'.
Proof.
  intros Hr He Hy Hs Ht. unfold sendDeferredPacket. rewrite Hr, Hy. cbn [negb]. unfold deferredPacketReady in Hy.
  destruct (transmitList q) as [|dp rest] eqn:El; [done|]. inversion Hs as [|? ? Hs' HF]; subst.
  assert (Hm : sending (withList rest q)).
  { split; cbn; try done; [|congruence]. intros x Hx. apply Ht. by right. }
  destruct (Hsend (pkt dp) (withList rest q) Hm) as (b & q1 & -> & Hq1). cbn [obind]. destruct b.
  - destruct Hq1 as [S1 S2 S3 S4]. cbn [negb]. replace (withRetry false q1) with q1 by (destruct q1; cbn in *; by subst).
    unfold deferredPacketReadyTime at 1. destruct (transmitList q1) as [|f l] eqn:E1.
    + unfold schedSendEvent. rewrite S3, Z.eqb_refl. cbn [negb]. rewrite E1. eexists. split; [done|].
      assert (sendEvent q1 = None) as E2 by (destruct (sendEvent q1) as [e|]; [by destruct (S4 e eq_refl)|done]).
      assert (Hq1 : queueOK now q1) by (split; rewrite ?E1; try done; congruence).
      rewrite E2. destruct (drainManager q1); [|done]. split; cbn; try done; congruence.
    + destruct (schedSendEvent_ok now q1 f l) as (q' & -> & _ & Hok); rewrite ?E1; try done.
      { intros e Hq. destruct (S4 e Hq) as [_ Hle]. unfold deferredPacketReadyTime in Hle. by rewrite E1 in Hle. }
      by exists q'.
  - subst q1. eexists. split; [done|]. split; cbn; try done.
Qed.

End sendTiming.

(** Packet queues.  The packets wait in the order of their ticks, those of
    one tick in the order they came, and a forced order is kept; a queue that
    does not wait for a retry has its event scheduled, at or after the tick of
    its first packet; so neither the event nor a retry ever finds the queue
    without a packet to send, and both leave it in order. *)
Theorem packet_queue_order now q (sendTiming : Packet.t -> t -> outcome (bool * t)) : queueOK now q ->
  (forall p q, sending q -> exists b q', sendTiming p q = Done (b, q') /\ (if b then sending q' else q' = q)) ->
  (forall p when_ force_order, now <= when_ < MaxTick -> Packet.isExpressSnoop p = false -> Z.of_nat (size q) <= 100 ->
     exists q', schedSendTiming now p when_ force_order q = Done q' /\ queueOK now q' /\
       placed (mkDeferred (effective when_ force_order q) p) (transmitList q) (transmitList q') /\
       (force_order = true -> transmitList q' = transmitList q ++ [mkDeferred (effective when_ force_order q) p])) /\
  (sendEvent q = Some now -> exists q', processSendEvent sendTiming now q = Done q' /\ queueOK now q') /\
  (waitingOnRetry q = true -> exists q', retry sendTiming now q = Done q' /\ queueOK now q') /\
  (forall now', now <= now' -> queueOK now' q).
Proof.
  intros Hq Hsend. split; [|split; [|split]].
  - intros p w f. by apply enqueue_ok.
  - intros He. pose proof Hq as [H1 H2 H3 H4 H5]. assert (Hr : waitingOnRetry q = false).
    { destruct (waitingOnRetry q); [destruct (H3 eq_refl); congruence|done]. }
    unfold processSendEvent. cbn. rewrite Hr. apply (sendDeferredPacket_ok sendTiming Hsend); try done.
    destruct (sq_event q (queueOK_sending now q Hq Hr) now He) as [Hn Hle].
    unfold deferredPacketReady, deferredPacketReadyTime in *. cbn. destruct (transmitList q); [done|]. by apply Z.leb_le.
  - intros Hr. destruct Hq as [H1 H2 H3 H4 H5]. destruct (H3 Hr) as [He Hy]. unfold retry. rewrite Hr.
    by apply (sendDeferredPacket_ok sendTiming Hsend).
  - intros now' Hn. by eapply later_ok.
Qed.

(** The port takes everything. *)
Definition takesAll (_ : Packet.t) (q : t) : outcome (bool * t) := Done (true, q).

Lemma packet_queue_order_witness : exists q',
  schedSendTiming 5 (Packet.new (Request.physical 0x40 8 0 0 0) MemCmd.ReadReq) 7 false new = Done q' /\ queueOK 5 q'.
Proof.
  destruct (proj1 (packet_queue_order 5 new takesAll (packets_new_ok 5)
    (fun p q H => ex_intro _ true (ex_intro _ q (conj eq_refl H)))) (Packet.new (Request.physical 0x40 8 0 0 0) MemCmd.ReadReq) 7 false)
    as (q' & H1 & H2 & _); [split; [lia|reflexivity]|reflexivity|vm_compute; discriminate|].
  exists q'. exact (conj H1 H2).
Defined.

End PacketQueue.
