(* ===== verification/ClockedObject.v ===== *)
(** * Clocked objects: gem5/src/sim/clocked_object.hh

    An object keeps the tick of its next clock edge and its cycle, and brings
    them up to date when asked. *)

From Stdlib Require Import ZArith Lia.
From stdpp Require Import base numbers.
From S2P Require Import Prelude Bits.

#[local] Open Scope Z_scope.

Module ClockedObject.

(** [tick] and [cycle]; the period is that of the clock domain. *)
Record t := mk { tick : Z; cycle : Z }.

Definition new : t := mk 0 0.

Definition update (now clockPeriod : Z) (c : t) : t :=
  if now <=? tick c then c
  else
    let c := mk (wrap 64 (tick c + clockPeriod)) (wrap 64 (cycle c + 1)) in
    if now <=? tick c then c
    else
      let elapsedCycles := divCeil (wrap 64 (now - tick c)) clockPeriod in
      mk (wrap 64 (tick c + elapsedCycles * clockPeriod)) (wrap 64 (cycle c + elapsedCycles)).

Definition resetClock (now clockPeriod : Z) : t :=
  let elapsedCycles := divCeil now clockPeriod in
  mk (wrap 64 (elapsedCycles * clockPeriod)) elapsedCycles.

Definition clockEdge (now clockPeriod cycles : Z) (c : t) : Z * t :=
  let c := update now clockPeriod c in (wrap 64 (tick c + clockPeriod * cycles), c).
Definition curCycle (now clockPeriod : Z) (c : t) : Z * t := let c := update now clockPeriod c in (cycle c, c).
Definition nextCycle (now clockPeriod : Z) (c : t) : Z * t := clockEdge now clockPeriod 1 c.
Definition ticksToCycles (t clockPeriod : Z) : Z := divCeil t clockPeriod.

(** The object is on an edge and has counted the edges. *)
Record onEdge (period : Z) (c : t) : Prop := {
  oe_cycle : 0 <= cycle c;
  oe_tick : tick c = cycle c * period }.

Lemma divCeil_spec a b : 0 <= a -> 0 < b -> a + b <= 2 ^ 64 -> let n := divCeil a b in
  0 <= n /\ a <= n * b < a + b.
Proof.
  intros Ha Hb Hs n. unfold n, divCeil, wrap. rewrite Z.mod_small by lia.
  pose proof (Z.div_mod (a + b - 1) b). pose proof (Z.mod_pos_bound (a + b - 1) b). split; [apply Z.div_pos; lia|]. nia.
Qed.

(** Clock edges.  Once up to date, an object is at the first clock edge not
    before the current tick, or stays at a later edge it had already reached,
    and its cycle counts the edges; the edge of a later cycle is as many
    periods on. *)
Theorem update_next_edge now period cycles c : onEdge period c -> 0 < period -> 0 <= now -> 0 <= cycles ->
  Z.max now (tick c) + period * (cycles + 1) < 2 ^ 64 ->
  let '(edge, c') := clockEdge now period cycles c in
  onEdge period c' /\ now <= tick c' /\ tick c <= tick c' /\
  (tick c < now -> tick c' < now + period) /\ (now <= tick c -> tick c' = tick c) /\
  edge = tick c' + period * cycles.
Proof.
  intros [Hc Ht] Hp Hn Hcy Hb. unfold clockEdge.
  assert (Hu : onEdge period (update now period c) /\ now <= tick (update now period c) /\ tick c <= tick (update now period c) /\
    (tick c < now -> tick (update now period c) < now + period) /\ (now <= tick c -> tick (update now period c) = tick c)).
  { unfold update. destruct (Z.leb_spec now (tick c)); [split; [by split|lia]|]. cbn [tick cycle].
    assert (tick c + period < 2 ^ 64) by nia. assert (0 <= tick c) by nia. assert (cycle c + 1 < 2 ^ 64) by nia.
    unfold wrap. rewrite (Z.mod_small (tick c + period)), (Z.mod_small (cycle c + 1)) by lia.
    destruct (Z.leb_spec now (tick c + period)); cbn [tick cycle]; [split; [split; cbn; nia|lia]|].
    rewrite (Z.mod_small (now - (tick c + period))) by lia.
    destruct (divCeil_spec (now - (tick c + period)) period) as [D1 D2]; [lia..|nia|].
    set (n := divCeil _ _) in *. rewrite !Z.mod_small by nia. split; [split; cbn; nia|]. nia. }
  destruct Hu as (H1 & H2 & H3 & H4 & H5). do 5 (split; [done|]). unfold wrap. apply Z.mod_small. nia.
Qed.

Lemma update_next_edge_witness : let '(edge, c') := clockEdge 1234 500 2 new in tick c' = 1500 /\ edge = 2500.
Proof.
  pose proof (update_next_edge 1234 500 2 new) as H. destruct (clockEdge 1234 500 2 new) as [edge c'] eqn:E.
  destruct H as (_ & _ & _ & _ & _ & He); [split; cbn; lia|lia..|vm_compute; reflexivity|].
  vm_compute in E. injection E as <- <-. split; [reflexivity|exact He].
Defined.

End ClockedObject.
