(* ===== verification/SimpleMem.v ===== *)
(** * The simple memory: gem5/src/mem/simple_mem.hh and simple_mem.cc

    A memory with a latency and a bandwidth: atomic and functional accesses at
    once, timing accesses through a queue of responses.  The two events of the
    memory are the ticks they are scheduled at. *)

From Stdlib Require Import ZArith Lia.
From stdpp Require Import base gmap numbers list.
From S2P Require Import Prelude Bits AddrRange MemCmd Request Packet AbstractMem.

#[local] Open Scope Z_scope.
#[local] Open Scope outcome_scope.

Module SimpleMem.

Record DeferredPacket := mkDeferred { pkt : Packet.t; tick : Z }.

(** [duration n] is the product of a size and the bandwidth, a [double]; [rng]
    gives the numbers the random generator returns, [drawn] of them so far.
    [retriesSent] and [deleted] count what the memory asks of others. *)
Record t := mk {
  mem : AbstractMem.t;
  latency : Z;
  latency_var : Z;
  rng : nat -> Z;
  drawn : nat;
  duration : Z -> Z;
  packetQueue : list DeferredPacket;
  isBusy : bool;
  retryReq : bool;
  retryResp : bool;
  releaseEvent : option Z;
  dequeueEvent : option Z;
  pendingDelete : list Packet.t;
  drainManager : option nat;
  signalled : list nat;
  retriesSent : nat
}.

Definition withMem (x : AbstractMem.t) (m : t) : t :=
  mk x (latency m) (latency_var m) (rng m) (drawn m) (duration m) (packetQueue m) (isBusy m) (retryReq m) (retryResp m)
     (releaseEvent m) (dequeueEvent m) (pendingDelete m) (drainManager m) (signalled m) (retriesSent m).
Definition withDrawn (n : nat) (m : t) : t :=
  mk (mem m) (latency m) (latency_var m) (rng m) n (duration m) (packetQueue m) (isBusy m) (retryReq m) (retryResp m)
     (releaseEvent m) (dequeueEvent m) (pendingDelete m) (drainManager m) (signalled m) (retriesSent m).
Definition withQueue (q : list DeferredPacket) (resp : bool) (e : option Z) (m : t) : t :=
  mk (mem m) (latency m) (latency_var m) (rng m) (drawn m) (duration m) q (isBusy m) (retryReq m) resp
     (releaseEvent m) e (pendingDelete m) (drainManager m) (signalled m) (retriesSent m).
Definition withBusy (b : bool) (e : option Z) (m : t) : t :=
  mk (mem m) (latency m) (latency_var m) (rng m) (drawn m) (duration m) (packetQueue m) b (retryReq m) (retryResp m)
     e (dequeueEvent m) (pendingDelete m) (drainManager m) (signalled m) (retriesSent m).
Definition withRetryReq (b : bool) (n : nat) (m : t) : t :=
  mk (mem m) (latency m) (latency_var m) (rng m) (drawn m) (duration m) (packetQueue m) (isBusy m) b (retryResp m)
     (releaseEvent m) (dequeueEvent m) (pendingDelete m) (drainManager m) (signalled m) n.
Definition withDelete (l : list Packet.t) (m : t) : t :=
  mk (mem m) (latency m) (latency_var m) (rng m) (drawn m) (duration m) (packetQueue m) (isBusy m) (retryReq m) (retryResp m)
     (releaseEvent m) (dequeueEvent m) l (drainManager m) (signalled m) (retriesSent m).
Definition withDrain (d : option nat) (l : list nat) (m : t) : t :=
  mk (mem m) (latency m) (latency_var m) (rng m) (drawn m) (duration m) (packetQueue m) (isBusy m) (retryReq m) (retryResp m)
     (releaseEvent m) (dequeueEvent m) (pendingDelete m) d l (retriesSent m).

Definition getLatency (m : t) : Z * t :=
  if latency_var m =? 0 then (latency m, m)
  else (latency m + rng m (drawn m), withDrawn (S (drawn m)) m).

(** ** Atomic and functional accesses *)

Definition recvAtomic (p : Packet.t) (m : t) : outcome (Z * Packet.t * t) :=
  let! (p, a) := AbstractMem.access p (mem m) in
  let m := withMem a m in
  if Packet.memInhibitAsserted p then Done (0, p, m)
  else let (lat, m) := getLatency m in Done (lat, p, m).

(** The loop over the queue: the packet and the queue. *)
Fixpoint checkQueue (p : Packet.t) (q : list DeferredPacket) : outcome (Packet.t * list DeferredPacket) :=
  match q with
  | [] => Done (p, [])
  | d :: q =>
      let! (done, p, other) := Packet.checkFunctionalPacket (pkt d) p in
      let d := mkDeferred other (tick d) in
      if done then Done (p, d :: q) else let! (p, q) := checkQueue p q in Done (p, d :: q)
  end.

Definition recvFunctional (p : Packet.t) (m : t) : outcome (Packet.t * t) :=
  let! (p, a) := AbstractMem.functionalAccess p (mem m) in
  let m := withMem a m in
  let! (p, q) := checkQueue p (packetQueue m) in
  Done (p, withQueue q (retryResp m) (dequeueEvent m) m).

(** ** Timing accesses *)

(** The memory is busy for the time the data takes. *)
Definition occupy (now : Z) (p : Packet.t) (m : t) : outcome t :=
  if MemCmd.isRead (Packet.cmd p) || MemCmd.isWrite (Packet.cmd p) then
    let! n := Packet.getSize p in
    if duration m n =? 0 then Done m
    else match releaseEvent m with
    | Some _ => Exited
    | None => Done (withBusy true (Some (now + duration m n)) m)
    end
  else Done m.

(** [recvTimingReq(pkt)]: whether the request is taken. *)
Definition recvTimingReq (now : Z) (p : Packet.t) (m : t) : outcome (bool * t) :=
  let m := withDelete [] m in
  if Packet.memInhibitAsserted p then Done (true, withDelete [p] m)
  else if retryReq m then Done (false, m)
  else if isBusy m then Done (false, withRetryReq true (retriesSent m) m)
  else
    let p := Packet.mk (Packet.flags p) (Packet.cmd p) (Packet.req p) (Packet.data p) (Packet.addr p) (Packet.isSecure_ p) (Packet.size p)
               (Packet.origCmd p) (Packet.bytesValid p) 0 0 (Packet.senderState p) in
    let! m := occupy now p m in
    let needsResponse := MemCmd.needsResponse (Packet.cmd p) in
    let! (_, p, m) := recvAtomic p m in
    if needsResponse then
      if negb (MemCmd.isResponse (Packet.cmd p)) then Exited
      else
        let (lat, m) := getLatency m in
        let d := mkDeferred p (now + lat) in
        let ev := if negb (retryResp m) then match dequeueEvent m with None => Some (tick d) | e => e end else dequeueEvent m in
        Done (true, withQueue (packetQueue m ++ [d]) (retryResp m) ev m)
    else Done (true, withDelete [p] m).

(** [release()], as its event fires. *)
Definition release (m : t) : outcome t :=
  if isBusy m then
    let m := withBusy false None m in
    Done (if retryReq m then withRetryReq false (S (retriesSent m)) m else m)
  else Exited.

(** [dequeue()]; [taken] is what the port's [sendTimingResp] returns. *)
Definition dequeue (now : Z) (taken : bool) (m : t) : outcome t :=
  match packetQueue m with
  | [] => Exited
  | _ :: rest =>
      if negb taken then Done (withQueue (packetQueue m) true (dequeueEvent m) m)
      else
        match rest with
        | d :: _ => Done (withQueue rest false (Some (Z.max (tick d) now)) m)
        | [] =>
            let m := withQueue [] false (dequeueEvent m) m in
            Done (match drainManager m with Some dm => withDrain None (signalled m ++ [dm]) m | None => m end)
        end
  end.

(** The event fires; a retry comes. *)
Definition fireDequeue (now : Z) (taken : bool) (m : t) : outcome t :=
  dequeue now taken (withQueue (packetQueue m) (retryResp m) None m).
Definition recvRespRetry (now : Z) (taken : bool) (m : t) : outcome t := if retryResp m then dequeue now taken m else Exited.

Definition drain (dm : nat) (m : t) : Z * t :=
  match packetQueue m with [] => (0, m) | _ => (1, withDrain (Some dm) (signalled m) m) end.

(** ** Responses are neither lost nor reordered *)

Record memOK (m : t) : Prop := {
  mo_busy : isBusy m = true <-> releaseEvent m <> None;
  mo_retry : retryReq m = true -> isBusy m = true;
  mo_resp : retryResp m = true -> packetQueue m <> [] /\ dequeueEvent m = None;
  mo_event : retryResp m = false -> (packetQueue m <> [] <-> dequeueEvent m <> None) }.

Lemma getLatency_frame m : let m' := snd (getLatency m) in
  packetQueue m' = packetQueue m /\ isBusy m' = isBusy m /\ retryReq m' = retryReq m /\ retryResp m' = retryResp m /\
  releaseEvent m' = releaseEvent m /\ dequeueEvent m' = dequeueEvent m.
Proof. unfold getLatency. by destruct (_ =? 0). Qed.

Lemma recvAtomic_frame p m lat p' m' : recvAtomic p m = Done (lat, p', m') ->
  packetQueue m' = packetQueue m /\ isBusy m' = isBusy m /\ retryReq m' = retryReq m /\ retryResp m' = retryResp m /\
  releaseEvent m' = releaseEvent m /\ dequeueEvent m' = dequeueEvent m.
Proof.
  unfold recvAtomic. intros ([q a] & _ & H)%obind_Done. destruct (Packet.memInhibitAsserted q); [by injection H as <- <- <-|].
  pose proof (getLatency_frame (withMem a m)) as F. destruct (getLatency (withMem a m)) as [l m1]. by injection H as <- <- <-.
Qed.

Lemma checkQueue_length p q p' q' : checkQueue p q = Done (p', q') -> length q' = length q.
Proof.
  revert p p' q'. induction q as [|d q IH]; intros p p' q'; cbn; [by intros [= <- <-]|].
  intros ([[[|] p1] o] & _ & H)%obind_Done; [by injection H as <- <-|].
  apply obind_Done in H as ([p2 q2] & H2 & [= <- <-]). cbn. by rewrite (IH _ _ _ H2).
Qed.

Lemma frame_ok m m' : memOK m -> length (packetQueue m') = length (packetQueue m) -> isBusy m' = isBusy m -> retryReq m' = retryReq m ->
  retryResp m' = retryResp m -> releaseEvent m' = releaseEvent m -> dequeueEvent m' = dequeueEvent m -> memOK m'.
Proof.
  intros [H1 H2 H3 H4] Hq Eb Er Ep Ee Ed.
  assert (Hn : packetQueue m' <> [] <-> packetQueue m <> []) by (destruct (packetQueue m'), (packetQueue m); cbn in Hq; done).
  split; rewrite ?Eb, ?Er, ?Ep, ?Ee, ?Ed, ?Hn; done.
Qed.

Definition new (a : AbstractMem.t) (lat var : Z) (r : nat -> Z) (d : Z -> Z) : t :=
  mk a lat var r 0 d [] false false false None None [] None [] 0.

Lemma memory_new_ok a lat var r d : memOK (new a lat var r d).
Proof. by split. Qed.

Lemma occupy_ok now p m m' : memOK m -> isBusy m = false -> occupy now p m = Done m' ->
  memOK m' /\ packetQueue m' = packetQueue m /\ retryResp m' = retryResp m /\ dequeueEvent m' = dequeueEvent m /\ retryReq m' = retryReq m.
Proof.
  intros Hm Hb. unfold occupy. destruct (_ || _); [|by intros [= <-]]. intros (n & _ & H)%obind_Done.
  destruct (_ =? 0); [by injection H as <-|]. destruct (releaseEvent m); [done|]. injection H as <-.
  split; [|done]. destruct Hm as [H1 H2 H3 H4]. by split.
Qed.

(** A response joins the queue. *)
Lemma memory_enqueue_ok d e m : memOK m ->
  (e = if negb (retryResp m) then match dequeueEvent m with None => Some (tick d) | e => e end else dequeueEvent m) ->
  memOK (withQueue (packetQueue m ++ [d]) (retryResp m) e m).
Proof.
  intros [H1 H2 H3 H4] ->. split; cbn; try done.
  - intros Hr. rewrite Hr. destruct (H3 Hr). split; [by destruct (packetQueue m)|done].
  - intros Hr. rewrite Hr. cbn. split; [by destruct (dequeueEvent m)|by destruct (packetQueue m)].
Qed.

Lemma recvTimingReq_ok now p m b m' : memOK m -> recvTimingReq now p m = Done (b, m') -> memOK m' /\
  (b = false -> retryReq m' = true /\ packetQueue m' = packetQueue m) /\
  (b = true -> Packet.memInhibitAsserted p = false -> MemCmd.needsResponse (Packet.cmd p) = true ->
     exists d, packetQueue m' = packetQueue m ++ [d] /\ MemCmd.isResponse (Packet.cmd (pkt d)) = true).
Proof.
  intros Hm. assert (Hm0 : forall l, memOK (withDelete l m)) by (intros l; by destruct Hm; split).
  unfold recvTimingReq. destruct (Packet.memInhibitAsserted p) eqn:Hi; [intros [= <- <-]; split; [apply Hm0|done]|]. cbn [retryReq withDelete].
  destruct (retryReq m) eqn:Hr; [intros [= <- <-]; split; [apply Hm0|split; [intros _; by split|done]]|]. cbn [isBusy withDelete]. destruct (isBusy m) eqn:Hb.
  { intros [= <- <-]. split; [destruct Hm as [H1 H2 H3 H4]; by split|]. split; [intros _; by split|done]. }
  intros (m1 & H1 & H)%obind_Done. apply occupy_ok in H1 as (Hm1 & Eq1 & Er1 & Ee1 & Ert1); [|apply Hm0|done].
  apply obind_Done in H as ([[lat p2] m2] & H2 & H). apply recvAtomic_frame in H2 as (Eq2 & Eb2 & Ert2 & Er2 & Erl2 & Ee2).
  assert (Hm2 : memOK m2) by (eapply frame_ok; try done; congruence). cbn [Packet.cmd] in H.
  destruct (MemCmd.needsResponse (Packet.cmd p)).
  - destruct (MemCmd.isResponse (Packet.cmd p2)) eqn:Hp2; [|done]. cbn [negb] in H.
    pose proof (getLatency_frame m2) as F. destruct (getLatency m2) as [l3 m3]. cbn in F. destruct F as (Eq3 & Eb3 & Ert3 & Er3 & Erl3 & Ee3).
    injection H as <- <-. assert (Hm3 : memOK m3) by (eapply frame_ok; try done; congruence).
    split; [by apply memory_enqueue_ok|]. split; [done|]. intros _ _ _. eexists. split; [cbn; rewrite Eq3, Eq2, Eq1; reflexivity|done].
  - injection H as <- <-. split; [destruct Hm2; by split|]. done.
Qed.

Lemma dequeue_ok now taken m d q : memOK m -> packetQueue m = d :: q -> dequeueEvent m = None \/ retryResp m = true ->
  exists m', dequeue now taken (withQueue (packetQueue m) (retryResp m) None m) = Done m' /\ memOK m' /\
    packetQueue m' = (if taken then q else packetQueue m) /\ retryResp m' = negb taken.
Proof.
  intros [H1 H2 H3 H4] Hq He. unfold dequeue. cbn [packetQueue withQueue]. rewrite Hq. destruct taken; cbn [negb].
  - destruct q as [|d' q].
    + eexists. split; [done|]. cbn. destruct (drainManager m); (split; [by split|done]).
    + eexists. split; [done|]. split; [by split|done].
  - eexists. split; [done|]. split; [by split|done].
Qed.

(** Responses of the simple memory.  No assertion fails when its events
    fire or a retry comes: a release sends the retry a refused request waits
    for; responses leave in the order the requests were taken, a refused
    response stays first, and as long as there are responses an event or a
    retry is due.  Atomic and functional accesses do not disturb this. *)
Theorem simple_memory_queue m : memOK m ->
  (forall now p b m', recvTimingReq now p m = Done (b, m') -> memOK m' /\
     (b = false -> retryReq m' = true /\ packetQueue m' = packetQueue m) /\
     (b = true -> Packet.memInhibitAsserted p = false -> MemCmd.needsResponse (Packet.cmd p) = true ->
        exists d, packetQueue m' = packetQueue m ++ [d] /\ MemCmd.isResponse (Packet.cmd (pkt d)) = true)) /\
  (releaseEvent m <> None -> exists m', release m = Done m' /\ memOK m' /\ isBusy m' = false /\ retryReq m' = false /\
     retriesSent m' = (if retryReq m then S (retriesSent m) else retriesSent m)) /\
  (forall now taken, dequeueEvent m <> None -> exists d q m', packetQueue m = d :: q /\ fireDequeue now taken m = Done m' /\ memOK m' /\
     packetQueue m' = (if taken then q else packetQueue m)) /\
  (forall now taken, retryResp m = true -> exists d q m', packetQueue m = d :: q /\ recvRespRetry now taken m = Done m' /\ memOK m' /\
     packetQueue m' = (if taken then q else packetQueue m)) /\
  (packetQueue m <> [] -> dequeueEvent m <> None \/ retryResp m = true) /\
  (forall p lat p' m', recvAtomic p m = Done (lat, p', m') -> memOK m' /\ packetQueue m' = packetQueue m) /\
  (forall p p' m', recvFunctional p m = Done (p', m') -> memOK m').
Proof.
  intros Hm. pose proof Hm as [H1 H2 H3 H4]. split; [|split; [|split; [|split; [|split; [|split]]]]].
  - intros now p b m'. by apply recvTimingReq_ok.
  - intros He%H1. unfold release. rewrite He. cbn. eexists. split; [done|].
    destruct (retryReq m) eqn:Hr; (split; [split; cbn; [split; done|congruence|done|done]|]); done.
  - intros now taken He. assert (Hr : retryResp m = false) by (destruct (retryResp m); [by destruct (H3 eq_refl)|done]).
    destruct (packetQueue m) as [|d q] eqn:Hq; [by apply (H4 Hr) in He|].
    assert (Hm' : memOK m) by done. unfold fireDequeue, dequeue. cbn [packetQueue withQueue]. rewrite Hq. destruct taken; cbn [negb].
    + destruct q as [|d' q]; (eexists d, _, _; split; [done|]; split; [done|]).
      * cbn. destruct (drainManager m); (split; [by split|done]).
      * split; [by split|done].
    + eexists d, q, _. split; [done|]. split; [done|]. split; [by split|done].
  - intros now taken Hr. destruct (H3 Hr) as [Hn He]. destruct (packetQueue m) as [|d q] eqn:Hq; [done|].
    destruct (dequeue_ok now taken m d q) as (m' & Hd & Hm' & Eq & _); [done|done|by right|].
    exists d, q, m'. split; [done|]. unfold recvRespRetry. rewrite Hr.
    replace (withQueue (packetQueue m) (retryResp m) None m) with m in Hd by (destruct m; cbn in *; by subst).
    rewrite Eq, Hq. by destruct taken.
  - intros Hn. destruct (retryResp m) eqn:Hr; [by right|left; by apply H4].
  - intros p lat p' m' H%recvAtomic_frame. destruct H as (E1 & E2 & E3 & E4 & E5 & E6). split; [|done]. eapply frame_ok; try done. congruence.
  - intros p p' m'. unfold recvFunctional. intros ([p1 a] & _ & ([p2 q] & Hc%checkQueue_length & [= <- <-])%obind_Done)%obind_Done.
    eapply frame_ok; try done.
Qed.

Lemma simple_memory_queue_witness : exists m', release (withBusy true (Some 10) (new (AbstractMem.mk (AddrRange.plain 0 0xff) None [] ∅ ∅ ∅ ∅ ∅ ∅ [])
    30 0 (fun _ => 0) (fun n => n))) = Done m' /\ memOK m' /\ isBusy m' = false.
Proof.
  destruct (proj1 (proj2 (simple_memory_queue (withBusy true (Some 10) (new (AbstractMem.mk (AddrRange.plain 0 0xff) None [] ∅ ∅ ∅ ∅ ∅ ∅ [])
    30 0 (fun _ => 0) (fun n => n))) ltac:(by split)))) as (m' & H1 & H2 & H3 & _); [discriminate|].
  exists m'. exact (conj H1 (conj H2 H3)).
Defined.

End SimpleMem.
