(* ===== verification/Cache.v ===== *)
(** * The cache in atomic mode: gem5/src/mem/cache/cache_impl.hh and base.hh

    The whole handlers of atomic and functional accesses and of atomic snoops,
    on the tag store, the registers, the port queues and the clock of the
    cache.  What lies around the cache, the memory side below and the processor
    side above, is the state [S] with the operations of its ports. *)

From Stdlib Require Import ZArith Lia.
From stdpp Require Import base gmap numbers list.
From S2P Require Import Prelude Bits AddrRange MemCmd Request Packet AbstractMem CacheBlk CacheTags MSHR MSHRQueue PacketQueue ClockedObject.

#[local] Open Scope Z_scope.
#[local] Open Scope outcome_scope.

Module Cache.

(** ** Ports *)

(** The operations of the two ports: the latency of an atomic access in ticks,
    the packet, which is modified in place, and the new state around. *)
Class Ports (S : Type) := {
  sendAtomic : Packet.t -> S -> outcome (Z * Packet.t * S);
  sendFunctional : Packet.t -> S -> outcome (Packet.t * S);
  isSnooping : S -> bool;
  sendAtomicSnoop : Packet.t -> S -> outcome (Packet.t * S);
  sendFunctionalSnoop : Packet.t -> S -> outcome (Packet.t * S) }.

(** ** State *)

Record params := mkParams {
  blkSize : Z;
  lookupLatency : Z;
  forwardLatency : Z;
  fillLatency : Z;
  forwardSnoops : bool;
  isTopLevel : bool;
  doFastWrites : bool;
  bypassCaches : bool;
  maxMasters : Z;
  clockPeriod : Z
}.

Record t := mk {
  prm : params;
  tags : CacheTags.t;
  tempBlock : CacheBlk.t;
  mshrQueue : MSHRQueue.t;
  writeBuffer : MSHRQueue.t;
  regs : MSHR.heap;
  respQueue : PacketQueue.t;
  reqQueue : PacketQueue.t;
  snoopRespQueue : PacketQueue.t;
  clock : ClockedObject.t;
  hits : gmap (nat * Z) Z;
  misses : gmap (nat * Z) Z;
  writebacks : gmap Z Z;
  missCount : Z;
  exitRequested : bool
}.

Definition withTags (x : CacheTags.t) (c : t) : t :=
  mk (prm c) x (tempBlock c) (mshrQueue c) (writeBuffer c) (regs c) (respQueue c) (reqQueue c) (snoopRespQueue c) (clock c)
     (hits c) (misses c) (writebacks c) (missCount c) (exitRequested c).
Definition withTemp (x : CacheBlk.t) (c : t) : t :=
  mk (prm c) (tags c) x (mshrQueue c) (writeBuffer c) (regs c) (respQueue c) (reqQueue c) (snoopRespQueue c) (clock c)
     (hits c) (misses c) (writebacks c) (missCount c) (exitRequested c).
Definition withQueues (r : MSHR.heap) (a b d : PacketQueue.t) (c : t) : t :=
  mk (prm c) (tags c) (tempBlock c) (mshrQueue c) (writeBuffer c) r a b d (clock c)
     (hits c) (misses c) (writebacks c) (missCount c) (exitRequested c).
Definition withClock (x : ClockedObject.t) (c : t) : t :=
  mk (prm c) (tags c) (tempBlock c) (mshrQueue c) (writeBuffer c) (regs c) (respQueue c) (reqQueue c) (snoopRespQueue c) x
     (hits c) (misses c) (writebacks c) (missCount c) (exitRequested c).
Definition withStats (h m : gmap (nat * Z) Z) (w : gmap Z Z) (n : Z) (e : bool) (c : t) : t :=
  mk (prm c) (tags c) (tempBlock c) (mshrQueue c) (writeBuffer c) (regs c) (respQueue c) (reqQueue c) (snoopRespQueue c) (clock c)
     h m w n e.

(** [wbMasterId], [funcMasterId] *)
Definition wbMasterId : Z := 0.
Definition funcMasterId : Z := 1.

(** A pointer to a block: into the tag store, or the temporary block. *)
Inductive blkRef := InTags (i : nat) | Temp.
#[global] Instance blkRef_eq_dec : EqDecision blkRef.
Proof. solve_decision. Defined.

Definition getBlk (r : blkRef) (c : t) : outcome CacheBlk.t :=
  match r with InTags i => CacheTags.getBlk i (tags c) | Temp => Done (tempBlock c) end.
Definition setBlk (r : blkRef) (b : CacheBlk.t) (c : t) : t :=
  match r with InTags i => withTags (CacheTags.setBlk i b (tags c)) c | Temp => withTemp b c end.
Definition updBlk (f : CacheBlk.t -> CacheBlk.t) (r : blkRef) (c : t) : outcome t :=
  let! b := getBlk r c in Done (setBlk r (f b) c).

(** ** BaseCache *)

Definition blockAlign (c : t) (a : Z) : Z := Z.land a (bnot 64 (blkSize (prm c) - 1)).

Definition bump (k : nat * Z) (m : gmap (nat * Z) Z) : gmap (nat * Z) Z := <[k := map_get 0 m k + 1]> m.

Definition incHitCount (p : Packet.t) (c : t) : outcome t :=
  let id := Request.masterId (Packet.req p) in
  if id <? maxMasters (prm c)
  then Done (withStats (bump (MemCmd.toInt (Packet.cmd p), id) (hits c)) (misses c) (writebacks c) (missCount c) (exitRequested c) c)
  else Exited.

(** The depth of the request counts the caches it missed in. *)
Definition incMissCount (p : Packet.t) (c : t) : outcome (Packet.t * t) :=
  let id := Request.masterId (Packet.req p) in
  if id <? maxMasters (prm c) then
    let p := Packet.withReq (Request.incAccessDepth (Packet.req p)) p in
    let n := if missCount c =? 0 then 0 else missCount c - 1 in
    let stop := negb (missCount c =? 0) && (n =? 0) in
    Done (p, withStats (hits c) (bump (MemCmd.toInt (Packet.cmd p), id) (misses c)) (writebacks c) n (exitRequested c || stop) c)
  else Exited.

Definition inCache (a : Z) (sec : bool) (c : t) : outcome bool :=
  let! b := CacheTags.findBlock a sec (tags c) in Done (match b with Some _ => true | None => false end).
Definition inMissQueue (a : Z) (sec : bool) (c : t) : outcome bool :=
  let! m := MSHRQueue.findMatch a sec (mshrQueue c) (regs c) in Done (match m with Some _ => true | None => false end).

(** [tags->invalidate(blk); blk->invalidate();] *)
Definition dropBlk (now : Z) (r : blkRef) (c : t) : outcome t :=
  let! c := (match r with
             | InTags i => let! tg := CacheTags.invalidate now i (tags c) in Done (withTags tg c)
             | Temp => Done c
             end) in
  updBlk CacheBlk.invalidate r c.

Section handlers.
Context {S : Type} `{Ports S}.

(** Uninitialised memory of a given size. *)
Context (fresh : Z -> buffer).

(** ** Compare and swap *)

Definition cmpAndSwap (r : blkRef) (p : Packet.t) (c : t) : outcome (Packet.t * t) :=
  if negb (MemCmd.isRequest (Packet.cmd p)) then Exited
  else
    let! a := Packet.getCacheAddr p in
    let! n := Packet.getSize p in
    let! b := getBlk r c in
    let offset := CacheTags.extractBlkOffset (CacheTags.geo (tags c)) a in
    if negb (n <=? 8) then Exited
    else
      let! overwrite_val := Packet.writeDataAt (fresh 8) 0 p in
      let! p := Packet.setData (CacheBlk.data b) offset p in
      let cur k := take k (drop (Z.to_nat offset) (CacheBlk.data b)) in
      let! overwrite_mem :=
        (if Request.isCondSwap (Packet.req p) then
           if n =? 8 then let! x := Request.getExtraData (Packet.req p) in Done (bool_decide (AbstractMem.bytesOf 8 x = cur 8%nat))
           else if n =? 4 then let! x := Request.getExtraData (Packet.req p) in Done (bool_decide (AbstractMem.bytesOf 4 x = cur 4%nat))
           else Exited
         else Done true) in
      if overwrite_mem then
        let! d := memcpy (CacheBlk.data b) offset overwrite_val 0 n in
        Done (p, setBlk r (CacheBlk.setStatus CacheBlk.BlkDirty (CacheBlk.withData d b)) c)
      else Done (p, c).

(** ** Satisfying a request from a block *)

(** The write: into the block, and functionally through to memory. *)
Definition writeThrough (r : blkRef) (p : Packet.t) (c : t) (s : S) : outcome (Packet.t * t * S) :=
  let! b := getBlk r c in
  let! d := Packet.writeDataToBlock (CacheBlk.data b) (blkSize (prm c)) p in
  let c := setBlk r (CacheBlk.withData d b) c in
  let! temp := Packet.allocate fresh (Packet.new (Packet.req p) MemCmd.WriteReq) in
  let! src := Packet.getPtr p in
  let! temp := Packet.setData src 0 temp in
  let! (temp, s) := sendFunctional temp s in
  Done (Packet.withReq (Packet.req temp) p, c, s).

(** The read: functionally from memory. *)
Definition readThrough (p : Packet.t) (s : S) : outcome (Packet.t * S) :=
  let! temp := Packet.allocate fresh (Packet.new (Packet.req p) MemCmd.ReadReq) in
  let! (temp, s) := sendFunctional temp s in
  let! src := Packet.getPtr temp in
  let! p := Packet.setData src 0 (Packet.withReq (Packet.req temp) p) in
  Done (p, s).

(** What becomes of the block that is given to a cache above. *)
Definition supplyBlock (now : Z) (r : blkRef) (p : Packet.t) (deferred_response pending_downgrade : bool) (c : t)
    : outcome (Packet.t * t) :=
  let! b := getBlk r c in
  if MemCmd.needsExclusive (Packet.cmd p) then
    let! p := (if CacheBlk.isDirty b then Packet.assertMemInhibit p else Done p) in
    let! c := dropBlk now r c in
    Done (p, c)
  else if CacheBlk.isWritable b && negb pending_downgrade && negb (Packet.sharedAsserted p) &&
          negb (Request.isInstFetch (Packet.req p)) then
    if CacheBlk.isDirty b then
      if negb deferred_response && negb (isTopLevel (prm c)) then
        let! p := Packet.assertMemInhibit p in
        Done (p, setBlk r (CacheBlk.clearStatus CacheBlk.BlkDirty b) c)
      else Done (Packet.assertShared p, c)
    else Done (p, c)
  else Done (Packet.assertShared p, c).

Definition satisfyCpuSideRequest (now : Z) (p : Packet.t) (r : blkRef) (deferred_response pending_downgrade : bool) (c : t) (s : S)
    : outcome (Packet.t * t * S) :=
  let! b := getBlk r c in
  let! off := Packet.getOffset (blkSize (prm c)) p in
  let! n := Packet.getSize p in
  if negb (MemCmd.isRequest (Packet.cmd p)) then Exited
  else if negb (CacheBlk.isValid b) then Exited
  else if negb (off + n <=? blkSize (prm c)) then Exited
  else if decide (Packet.cmd p = MemCmd.SwapReq) then
    let! (p, c) := cmpAndSwap r p c in Done (p, c, s)
  else if MemCmd.isWrite (Packet.cmd p) && (negb (MemCmd.isWriteInvalidate (Packet.cmd p)) || isTopLevel (prm c)) then
    if negb (CacheBlk.isWritable b) then Exited
    else
      let! (ok, p, b) := CacheBlk.checkWrite p b in
      let c := setBlk r b c in
      let! (p, c, s) := (if ok then writeThrough r p c s else Done (p, c, s)) in
      let! c := updBlk (CacheBlk.setStatus CacheBlk.BlkDirty) r c in
      Done (p, c, s)
  else if MemCmd.isRead (Packet.cmd p) then
    let! c := (if MemCmd.isLLSC (Packet.cmd p)
               then let! b := CacheBlk.trackLoadLocked p b in Done (setBlk r b c) else Done c) in
    let! (p, s) := readThrough p s in
    if n =? blkSize (prm c) then
      let! (p, c) := supplyBlock now r p deferred_response pending_downgrade c in Done (p, c, s)
    else Done (p, c, s)
  else if negb (MemCmd.isUpgrade (Packet.cmd p) || (MemCmd.isWriteInvalidate (Packet.cmd p) && negb (isTopLevel (prm c)))) then Exited
  else match r with
  | Temp => Exited
  | InTags _ => let! c := dropBlk now r c in Done (p, c, s)
  end.

(** ** Writing blocks back *)

Definition writebackBlk (now : Z) (r : blkRef) (c : t) : outcome (Packet.t * t) :=
  let! b := getBlk r c in
  if negb (CacheBlk.isValid b && CacheBlk.isDirty b) then Exited
  else
    let c := withStats (hits c) (misses c) (<[wbMasterId := map_get 0 (writebacks c) wbMasterId + 1]> (writebacks c)) (missCount c)
               (exitRequested c) c in
    let a := CacheTags.regenerateBlkAddr (CacheTags.geo (tags c)) (CacheBlk.tag b) (CacheBlk.set b) in
    let rq := Request.physical a (blkSize (prm c)) 0 wbMasterId now in
    let! rq := (if CacheBlk.isSecure b then Request.setFlags Request.SECURE rq else Done rq) in
    let rq := Request.setTaskId (CacheBlk.task_id b) rq in
    let p := Packet.new rq MemCmd.Writeback in
    let p := if CacheBlk.isWritable b then Packet.setSupplyExclusive p else p in
    let! p := Packet.allocate fresh p in
    let! d := Packet.getPtr p in
    let! d := memcpy d 0 (CacheBlk.data b) 0 (blkSize (prm c)) in
    let b := CacheBlk.withSource (CacheBlk.srcMasterId b) Request.UnknownTaskId now b in
    Done (Packet.withData (Some d) p, setBlk r (CacheBlk.clearStatus CacheBlk.BlkDirty b) c).

Definition writebackVisitor (now : Z) (r : blkRef) (c : t) (s : S) : outcome (t * S) :=
  let! b := getBlk r c in
  if CacheBlk.isDirty b then
    if negb (CacheBlk.isValid b) then Exited
    else
      let a := CacheTags.regenerateBlkAddr (CacheTags.geo (tags c)) (CacheBlk.tag b) (CacheBlk.set b) in
      let rq := Request.setTaskId (CacheBlk.task_id b) (Request.physical a (blkSize (prm c)) 0 funcMasterId now) in
      let! p := Packet.dataStatic (CacheBlk.data b) (Packet.new rq MemCmd.WriteReq) in
      let! (_, s) := sendFunctional p s in
      Done (setBlk r (CacheBlk.clearStatus CacheBlk.BlkDirty b) c, s)
  else Done (c, s).

Definition invalidateVisitor (now : Z) (r : blkRef) (c : t) : outcome t :=
  let! b := getBlk r c in
  if CacheBlk.isValid b then if CacheBlk.isDirty b then Exited else dropBlk now r c else Done c.

(** [tags->forEachBlk(visitor)] *)
Fixpoint forEachBlk (visit : blkRef -> t -> S -> outcome (t * S)) (l : list nat) (c : t) (s : S) : outcome (t * S) :=
  match l with
  | [] => Done (c, s)
  | i :: l => let! (c, s) := visit (InTags i) c s in forEachBlk visit l c s
  end.
Definition allBlks (c : t) : list nat :=
  seq 0 (Z.to_nat (CacheTags.numSets (CacheTags.geo (tags c)) * CacheTags.assoc (CacheTags.geo (tags c)))).
Definition memWriteback (now : Z) (c : t) (s : S) : outcome (t * S) := forEachBlk (writebackVisitor now) (allBlks c) c s.
Definition memInvalidate (now : Z) (c : t) (s : S) : outcome (t * S) :=
  forEachBlk (fun r c s => let! c := invalidateVisitor now r c in Done (c, s)) (allBlks c) c s.
Definition isDirty (c : t) : bool := existsb CacheBlk.isDirty (CacheTags.blks (tags c)).

Definition uncacheableFlush (now : Z) (p : Packet.t) (c : t) (s : S) : outcome (t * S) :=
  let c := if Request.isClearLL (Packet.req p) then withTags (CacheTags.clearLocks (tags c)) c else c in
  let! a := Packet.getCacheAddr p in
  let! sec := Packet.isSecure p in
  let! blk := CacheTags.findBlock a sec (tags c) in
  match blk with
  | Some i =>
      let! (c, s) := writebackVisitor now (InTags i) c s in
      let! c := invalidateVisitor now (InTags i) c in
      Done (c, s)
  | None => Done (c, s)
  end.

(** ** Allocation and fills *)

(** The block to replace, unless it has a request outstanding, and the packet
    that writes it back. *)
Definition allocateBlock (now a : Z) (c : t) : outcome (option nat * list Packet.t * t) :=
  let! i := CacheTags.findVictim a (tags c) in
  let! b := getBlk (InTags i) c in
  if CacheBlk.isValid b then
    let repl_addr := CacheTags.regenerateBlkAddr (CacheTags.geo (tags c)) (CacheBlk.tag b) (CacheBlk.set b) in
    let! m := MSHRQueue.findMatch repl_addr (CacheBlk.isSecure b) (mshrQueue c) (regs c) in
    match m with
    | Some j =>
        let! m := MSHR.get j (regs c) in
        if (negb (CacheBlk.isWritable b) || CacheBlk.isDirty b) && MSHR.needsExclusive m then Done (None, [], c) else Exited
    | None =>
        if CacheBlk.isDirty b then let! (w, c) := writebackBlk now (InTags i) c in Done (Some i, [w], c)
        else Done (Some i, [], c)
    end
  else Done (Some i, [], c).

(** The block of a fill: found, replaced or the temporary one. *)
Definition fillBlock (now : Z) (p : Packet.t) (a : Z) (blk : option blkRef) (c : t) : outcome (blkRef * list Packet.t * t) :=
  match blk with
  | None =>
      if negb (MemCmd.hasData (Packet.cmd p)) then Exited
      else if negb (MemCmd.isRead (Packet.cmd p) || MemCmd.isWriteInvalidate (Packet.cmd p)) then Exited
      else
        let! (i, wbs, c) := allocateBlock now a c in
        let! (r, c) :=
          (match i with
           | None =>
               let g := CacheTags.geo (tags c) in
               let tb := tempBlock c in
               if CacheBlk.isValid tb then Exited
               else Done (Temp, withTemp (CacheBlk.withSet (CacheTags.extractSet g a) (CacheBlk.withTag (CacheTags.extractTag g a) tb)) c)
           | Some i => let! tg := CacheTags.insertBlock now p i (tags c) in Done (InTags i, withTags tg c)
           end) in
        let! b := getBlk r c in
        if CacheBlk.isValid b then Exited else Done (r, wbs, c)
  | Some r =>
      let! b := getBlk r c in
      if negb (CacheBlk.tag b =? CacheTags.extractTag (CacheTags.geo (tags c)) a) then Exited
      else if negb (MemCmd.hasData (Packet.cmd p) || CacheBlk.isValid b) then Exited
      else Done (r, [], c)
  end.

Definition handleFill (now : Z) (p : Packet.t) (blk : option blkRef) (c : t) : outcome (blkRef * list Packet.t * t) :=
  if negb (MemCmd.isResponse (Packet.cmd p) || MemCmd.isWriteInvalidate (Packet.cmd p)) then Exited
  else
    let! a := Packet.getCacheAddr p in
    let! sec := Packet.isSecure p in
    let! (r, wbs, c) := fillBlock now p a blk c in
    let! b := getBlk r c in
    let b := if sec then CacheBlk.setStatus CacheBlk.BlkSecure b else b in
    let b := CacheBlk.setStatus (Z.lor CacheBlk.BlkValid CacheBlk.BlkReadable) b in
    let b := if Packet.sharedAsserted p then b
             else let b := CacheBlk.setStatus CacheBlk.BlkWritable b in
                  if Packet.memInhibitAsserted p then CacheBlk.setStatus CacheBlk.BlkDirty b else b in
    let! b := (if MemCmd.isRead (Packet.cmd p) then
                 if negb (MemCmd.hasData (Packet.cmd p)) then Exited
                 else let! src := Packet.getPtr p in
                      let! d := memcpy (CacheBlk.data b) 0 src 0 (blkSize (prm c)) in
                      Done (CacheBlk.withData d b)
               else Done b) in
    let (edge, clk) := ClockedObject.clockEdge now (clockPeriod (prm c)) 0 (clock c) in
    let ready := wrap 64 (edge + fillLatency (prm c) * clockPeriod (prm c) + Packet.payloadDelay p) in
    Done (r, wbs, setBlk r (CacheBlk.withReady ready b) (withClock clk c)).

(** ** The access path *)

(** A writeback from a cache above. *)
Definition accessWriteback (now : Z) (p : Packet.t) (a : Z) (sec : bool) (blk : option nat) (c : t)
    : outcome (bool * Packet.t * option nat * list Packet.t * t) :=
  let! n := Packet.getSize p in
  if negb (blkSize (prm c) =? n) then Exited
  else
    let! (blk, wbs, c) :=
      (match blk with
       | Some i => Done (Some i, [], c)
       | None =>
           let! (i, wbs, c) := allocateBlock now a c in
           match i with
           | None => Done (None, wbs, c)
           | Some i =>
               let! tg := CacheTags.insertBlock now p i (tags c) in
               let! c := updBlk (CacheBlk.withStatus (Z.lor (Z.lor CacheBlk.BlkValid CacheBlk.BlkReadable)
                                   (if sec then CacheBlk.BlkSecure else 0))) (InTags i) (withTags tg c) in
               Done (Some i, wbs, c)
           end
       end) in
    match blk with
    | None => let! (p, c) := incMissCount p c in Done (false, p, None, wbs, c)
    | Some i =>
        let! c := updBlk (fun b => let b := CacheBlk.setStatus CacheBlk.BlkDirty b in
                     if Packet.isSupplyExclusive p then CacheBlk.setStatus CacheBlk.BlkWritable b else b) (InTags i) c in
        if MemCmd.needsResponse (Packet.cmd p) then Exited
        else
          let! b := getBlk (InTags i) c in
          let! src := Packet.getPtr p in
          let! d := memcpy (CacheBlk.data b) 0 src 0 (blkSize (prm c)) in
          let! c := incHitCount p (setBlk (InTags i) (CacheBlk.withData d b) c) in
          Done (true, p, Some i, wbs, c)
    end.

(** [access(pkt, blk, lat, writebacks)] *)
Definition access (now : Z) (p : Packet.t) (c : t) (s : S)
    : outcome (bool * Packet.t * option nat * Z * list Packet.t * t * S) :=
  if negb (MemCmd.isRequest (Packet.cmd p)) then Exited
  else if Request.isUncacheable (Packet.req p) then
    let! (c, s) := uncacheableFlush now p c s in
    Done (false, p, None, lookupLatency (prm c), [], c, s)
  else
    let! a := Packet.getCacheAddr p in
    let! sec := Packet.isSecure p in
    let! (blk, lat, tg) := CacheTags.accessBlock now a sec (tags c) in
    let c := withTags tg c in
    if decide (Packet.cmd p = MemCmd.Writeback) then
      let! (ok, p, blk, wbs, c) := accessWriteback now p a sec blk c in
      Done (ok, p, blk, lat, wbs, c, s)
    else
      let! hit := (match blk with
                   | None => Done false
                   | Some i => let! b := getBlk (InTags i) c in
                               Done (if MemCmd.needsExclusive (Packet.cmd p) then CacheBlk.isWritable b else CacheBlk.isReadable b)
                   end) in
      match blk, hit with
      | Some i, true =>
          let! c := incHitCount p c in
          let! (p, c, s) := satisfyCpuSideRequest now p (InTags i) false false c s in
          Done (true, p, blk, lat, [], c, s)
      | _, _ =>
          let! (p, c) := incMissCount p c in
          match blk with
          | None =>
              if MemCmd.isLLSC (Packet.cmd p) && MemCmd.isWrite (Packet.cmd p)
              then Done (true, Packet.withReq (Request.setExtraData 0 (Packet.req p)) p, blk, lat, [], c, s)
              else Done (false, p, blk, lat, [], c, s)
          | Some _ => Done (false, p, blk, lat, [], c, s)
          end
      end.

Definition promoteWholeLineWrites (p : Packet.t) (c : t) : outcome Packet.t :=
  if doFastWrites (prm c) && bool_decide (Packet.cmd p = MemCmd.WriteReq) then
    let! n := Packet.getSize p in
    if n =? blkSize (prm c) then
      let! off := Packet.getOffset (blkSize (prm c)) p in
      if off =? 0 then
        if isTopLevel (prm c) then Done (Packet.withCmd MemCmd.WriteInvalidateReq p) else Exited
      else Done p
    else Done p
  else Done p.

(** The packet for the line, or none when the request is passed on. *)
Definition getBusPacket (p : Packet.t) (blk : option CacheBlk.t) (needsExclusive : bool) (c : t) : outcome (option Packet.t) :=
  let blkValid := match blk with Some b => CacheBlk.isValid b | None => false end in
  if Request.isUncacheable (Packet.req p) then Done None
  else if negb blkValid && (bool_decide (Packet.cmd p = MemCmd.Writeback) || MemCmd.isUpgrade (Packet.cmd p)) then Done None
  else if negb (MemCmd.needsResponse (Packet.cmd p)) then Exited
  else
    let! cmd :=
      (match blk with
       | Some b =>
           if CacheBlk.isValid b then
             if negb needsExclusive || CacheBlk.isWritable b then Exited
             else Done (if MemCmd.isLLSC (Packet.cmd p) then MemCmd.SCUpgradeReq else MemCmd.UpgradeReq)
           else Done MemCmd.InvalidCmd
       | None => Done MemCmd.InvalidCmd
       end) in
    let cmd := if blkValid then cmd
               else if bool_decide (Packet.cmd p = MemCmd.SCUpgradeFailReq) || bool_decide (Packet.cmd p = MemCmd.StoreCondFailReq)
               then MemCmd.SCUpgradeFailReq
               else if MemCmd.isWriteInvalidate (Packet.cmd p) then Packet.cmd p
               else if needsExclusive then MemCmd.ReadExReq else MemCmd.ReadReq in
    let! q := Packet.allocate fresh (Packet.newBlock (Packet.req p) cmd (blkSize (prm c))) in
    Done (Some q).

(** The response to the packet for the line: the request is satisfied. *)
Definition busResponse (now : Z) (p bus : Packet.t) (blk : option nat) (wbs : list Packet.t) (c : t) (s : S)
    : outcome (Packet.t * list Packet.t * t * S) :=
  if negb (MemCmd.needsResponse (Packet.cmd p)) then Done (p, wbs, c, s)
  else if negb (MemCmd.isResponse (Packet.cmd bus)) then Exited
  else if MemCmd.isError (Packet.cmd bus) then
    let! p := Packet.makeResponse p in
    let! p := Packet.copyError bus p in
    Done (p, wbs, c, s)
  else if MemCmd.isWriteInvalidate (Packet.cmd p) then
    if isTopLevel (prm c) then
      let! (r, wbs', c) := handleFill now p (InTags <$> blk) c in
      let! (p, c, s) := satisfyCpuSideRequest now p r false false c s in
      Done (p, wbs ++ wbs', c, s)
    else match blk with
    | Some i => let! (p, c, s) := satisfyCpuSideRequest now p (InTags i) false false c s in Done (p, wbs, c, s)
    | None => Done (p, wbs, c, s)
    end
  else if MemCmd.isRead (Packet.cmd bus) || bool_decide (Packet.cmd bus = MemCmd.UpgradeResp) then
    let! (r, wbs', c) := handleFill now bus (InTags <$> blk) c in
    let! (p, c, s) := satisfyCpuSideRequest now p r false false c s in
    Done (p, wbs ++ wbs', c, s)
  else let! p := Packet.makeResponse p in Done (p, wbs, c, s).

(** The loop over the writebacks. *)
Fixpoint sendWritebacks (l : list Packet.t) (s : S) : outcome S :=
  match l with
  | [] => Done s
  | w :: l => let! (_, _, s) := sendAtomic w s in sendWritebacks l s
  end.

Definition ticksToCycles (c : t) (ticks : Z) : Z := ClockedObject.ticksToCycles ticks (clockPeriod (prm c)).

(** The miss path of [recvAtomic]. *)
Definition atomicMiss (now : Z) (p : Packet.t) (blk : option nat) (lat : Z) (wbs : list Packet.t) (c : t) (s : S)
    : outcome (Packet.t * Z * list Packet.t * t * S) :=
  let! b := (match blk with Some i => let! b := getBlk (InTags i) c in Done (Some b) | None => Done None end) in
  let! bus := getBusPacket p b (MemCmd.needsExclusive (Packet.cmd p)) c in
  match bus with
  | None =>
      let! (tk, p, s) := sendAtomic p s in
      Done (p, lat + ticksToCycles c tk, wbs, c, s)
  | Some bus =>
      let! (tk, bus, s) := sendAtomic bus s in
      let p := Packet.withReq (Packet.req bus) p in
      let! (p, wbs, c, s) := busResponse now p bus blk wbs c s in
      Done (p, lat + ticksToCycles c tk, wbs, c, s)
  end.

(** A request whose response comes from a cache above. *)
Definition inhibited (now : Z) (p : Packet.t) (c : t) (s : S) : outcome (Z * Packet.t * t * S) :=
  let lat := lookupLatency (prm c) in
  if Request.isUncacheable (Packet.req p) then Exited
  else if MemCmd.isInvalidate (Packet.cmd p) then
    let! a := Packet.getCacheAddr p in
    let! sec := Packet.isSecure p in
    let! blk := CacheTags.findBlock a sec (tags c) in
    let! c := (match blk with
               | Some i => let! b := getBlk (InTags i) c in if CacheBlk.isValid b then dropBlk now (InTags i) c else Done c
               | None => Done c
               end) in
    let! (tk, p, s) := sendAtomic p s in
    Done ((lat + ticksToCycles c tk) * clockPeriod (prm c), p, c, s)
  else Done (lat * clockPeriod (prm c), p, c, s).

(** [recvAtomic(pkt)]: the latency, the packet and the state. *)
Definition recvAtomic (now : Z) (p : Packet.t) (c : t) (s : S) : outcome (Z * Packet.t * t * S) :=
  if bypassCaches (prm c) then
    let! (tk, p, s) := sendAtomic p s in Done (ticksToCycles c tk, p, c, s)
  else
    let! p := promoteWholeLineWrites p c in
    if Packet.memInhibitAsserted p then inhibited now p c s
    else
      let! (ok, p, blk, lat, wbs, c, s) := access now p c s in
      let! (p, lat, wbs, c, s) := (if ok then Done (p, lat, wbs, c, s) else atomicMiss now p blk lat wbs c s) in
      let! s := sendWritebacks wbs s in
      let! p := (if MemCmd.needsResponse (Packet.cmd p) then Packet.makeResponse p else Done p) in
      Done (lat * clockPeriod (prm c), p, c, s).

(** ** Functional accesses *)

(** The data of the block, as [checkFunctional] sees and updates it. *)
Definition checkBlk (p : Packet.t) (blk_addr : Z) (sec : bool) (i : nat) (c : t) : outcome (bool * Packet.t * t) :=
  let! b := getBlk (InTags i) c in
  if CacheBlk.isValid b then
    let! (r, p, d) := Packet.checkFunctional blk_addr sec (blkSize (prm c)) (Some (CacheBlk.data b)) p in
    Done (r, p, match d with Some d => setBlk (InTags i) (CacheBlk.withData d b) c | None => c end)
  else Done (false, p, c).

(** The queues, in the order the code asks them. *)
Definition checkQueues (p : Packet.t) (blk_addr : Z) (c : t) : outcome (bool * Packet.t * t) :=
  let! (r, p, rq) := PacketQueue.checkFunctional p (respQueue c) in
  let c := withQueues (regs c) rq (reqQueue c) (snoopRespQueue c) c in
  if r then Done (true, p, c)
  else
    let! (r, p, h) := MSHRQueue.checkFunctional p blk_addr (mshrQueue c) (regs c) in
    let c := withQueues h (respQueue c) (reqQueue c) (snoopRespQueue c) c in
    if r then Done (true, p, c)
    else
      let! (r, p, h) := MSHRQueue.checkFunctional p blk_addr (writeBuffer c) (regs c) in
      let c := withQueues h (respQueue c) (reqQueue c) (snoopRespQueue c) c in
      if r then Done (true, p, c)
      else
        let! (r, p, q) := PacketQueue.checkFunctional p (reqQueue c) in
        let c := withQueues (regs c) (respQueue c) q (snoopRespQueue c) c in
        if r then Done (true, p, c)
        else
          let! (r, p, q) := PacketQueue.checkFunctional p (snoopRespQueue c) in
          Done (r, p, withQueues (regs c) (respQueue c) (reqQueue c) q c).

Definition functionalAccess (p : Packet.t) (fromCpuSide : bool) (c : t) (s : S) : outcome (Packet.t * t * S) :=
  if bypassCaches (prm c) then
    if fromCpuSide then let! (p, s) := sendFunctional p s in Done (p, c, s) else Exited
  else
    let! a := Packet.getCacheAddr p in
    let blk_addr := blockAlign c a in
    let! sec := Packet.isSecure p in
    let! blk := CacheTags.findBlock a sec (tags c) in
    let! mshr := MSHRQueue.findMatch blk_addr sec (mshrQueue c) (regs c) in
    let! (have_data, p, c) := (match blk with Some i => checkBlk p blk_addr sec i c | None => Done (false, p, c) end) in
    let! have_dirty :=
      (match have_data, blk with
       | true, Some i =>
           let! b := getBlk (InTags i) c in
           if CacheBlk.isDirty b then Done true
           else match mshr with
           | Some j => let! m := MSHR.get j (regs c) in if MSHR.inService m then MSHR.isPendingDirty m else Done false
           | None => Done false
           end
       | _, _ => Done false
       end) in
    let! (done, p, c) := (if have_dirty then Done (true, p, c) else checkQueues p blk_addr c) in
    if done then let! p := Packet.makeResponse p in Done (p, c, s)
    else if fromCpuSide then let! (p, s) := sendFunctional p s in Done (p, c, s)
    else if forwardSnoops (prm c) && isSnooping s then let! (p, s) := sendFunctionalSnoop p s in Done (p, c, s)
    else Done (p, c, s).

(** ** Atomic snoops *)

(** [handleSnoop] with [is_timing] false. *)
Definition handleSnoop (now : Z) (p : Packet.t) (blk : option nat) (c : t) (s : S) : outcome (Packet.t * t * S) :=
  if negb (MemCmd.isRequest (Packet.cmd p)) then Exited
  else
    let invalidate := MemCmd.isInvalidate (Packet.cmd p) in
    let needs_exclusive := MemCmd.needsExclusive (Packet.cmd p) in
    let! (p, s) :=
      (if forwardSnoops (prm c) then
         let alreadyResponded := Packet.memInhibitAsserted p in
         let! (p, s) := sendAtomicSnoop p s in
         if negb alreadyResponded && Packet.memInhibitAsserted p && negb (MemCmd.isResponse (Packet.cmd p)) then Exited
         else Done (p, s)
       else Done (p, s)) in
    match blk with
    | None => Done (p, c, s)
    | Some i =>
        let! b := getBlk (InTags i) c in
        if negb (CacheBlk.isValid b) then Done (p, c, s)
        else
          let respond := CacheBlk.isDirty b && MemCmd.needsResponse (Packet.cmd p) && negb (MemCmd.isWriteInvalidate (Packet.cmd p)) in
          let have_exclusive := CacheBlk.isWritable b in
          if decide (Packet.cmd p = MemCmd.HardPFReq) then Done (Packet.setPrefetchSquashed p, c, s)
          else
            let! (p, c) :=
              (if MemCmd.isRead (Packet.cmd p) && negb invalidate then
                 if needs_exclusive then Exited
                 else Done (Packet.assertShared p, setBlk (InTags i) (CacheBlk.clearStatus CacheBlk.BlkWritable b) c)
               else Done (p, c)) in
            let! p :=
              (if respond then
                 let! p := Packet.assertMemInhibit p in
                 let p := if have_exclusive then Packet.setSupplyExclusive p else p in
                 let! p := Packet.makeResponse p in
                 Packet.setDataFromBlock (CacheBlk.data b) (blkSize (prm c)) p
               else Done p) in
            let! c := (if invalidate then dropBlk now (InTags i) c else Done c) in
            Done (p, c, s)
    end.

Definition recvAtomicSnoop (now : Z) (p : Packet.t) (c : t) (s : S) : outcome (Z * Packet.t * t * S) :=
  if bypassCaches (prm c) then Exited
  else if Request.isUncacheable (Packet.req p) || bool_decide (Packet.cmd p = MemCmd.Writeback) then Done (0, p, c, s)
  else
    let! a := Packet.getCacheAddr p in
    let! sec := Packet.isSecure p in
    let! blk := CacheTags.findBlock a sec (tags c) in
    let! (p, c, s) := handleSnoop now p blk c s in
    Done (forwardLatency (prm c) * clockPeriod (prm c), p, c, s).

End handlers.
End Cache.
