(* ===== verification/CacheMemory.v ===== *)
(** * What a cache asks of the memory below

    Packets for bytes of a store, the promises of a memory side to the cache
    above it as a class, and the simple memory as an instance. *)

From Stdlib Require Import ZArith Lia.
From stdpp Require Import base gmap numbers list.
From S2P Require Import Prelude Bits AddrRange MemCmd Request Packet AbstractMem MemoryCorrect SimpleMem CacheBlk CacheTags MSHR MSHRQueue PacketQueue ClockedObject Cache.

#[local] Open Scope Z_scope.
#[local] Open Scope outcome_scope.

Module CacheMemory.

(** ** Flags *)

Lemma isSet_set_other f m m' : Z.land m m' = 0 -> Flags.isSet (Flags.set f m) m' = Flags.isSet f m'.
Proof. intros E. unfold Flags.isSet, Flags.set. by rewrite Z.land_lor_distr_l, E, Z.lor_0_r. Qed.

Lemma isSet_set_same f m m' : Z.land m m' <> 0 -> Flags.isSet (Flags.set f m) m' = true.
Proof. intros E. unfold Flags.isSet, Flags.set. rewrite Z.land_lor_distr_l, nonzero_iff, Z.lor_eq_0_iff. tauto. Qed.

Lemma isSet_clear32_other f m m' : Z.land (bnot 32 m) m' = m' -> Flags.isSet (Flags.clear 32 f m) m' = Flags.isSet f m'.
Proof. intros E. unfold Flags.isSet, Flags.clear. by rewrite <- Z.land_assoc, E. Qed.

(** ** Packets *)

(** A packet with a command, an address, a size and a buffer of that size. *)
Record pktOf (p : Packet.t) (cmd : MemCmd.Command) (a n : Z) (d : buffer) : Prop := {
  po_cmd : Packet.cmd p = cmd;
  po_addr : Packet.getAddr p = Done a;
  po_size : Packet.getSize p = Done n;
  po_data : Packet.getPtr p = Done d;
  po_len : Z.of_nat (length d) = n;
  po_secure : Packet.isSecure p = Done false;
  po_inhibit : Packet.memInhibitAsserted p = false }.

Lemma pktOf_withReq r p cmd a n d : pktOf p cmd a n d -> pktOf (Packet.withReq r p) cmd a n d.
Proof. intros [H1 H2 H3 H4 H5 H6 H7]. by split. Qed.

Lemma pktOf_withData d' p cmd a n d : pktOf p cmd a n d -> Z.of_nat (length d') = n -> pktOf (Packet.withData (Some d') p) cmd a n d'.
Proof.
  intros [H1 H2 H3 H4 H5 H6 H7] Hl. split; try done. unfold Packet.getPtr, Packet.hasBuffer in *. cbn. by destruct (Flags.isSet _ _).
Qed.

Lemma pktOf_setFlag m p cmd a n d : Z.land m Packet.VALID_ADDR = 0 -> Z.land m Packet.VALID_SIZE = 0 ->
  Z.land m (Z.lor Packet.STATIC_DATA Packet.DYNAMIC_DATA) = 0 -> Z.land m Packet.MEM_INHIBIT = 0 ->
  pktOf p cmd a n d -> pktOf (Packet.setFlag m p) cmd a n d.
Proof.
  intros E1 E2 E3 E4 [H1 H2 H3 H4 H5 H6 H7].
  split; [done|..|done| |]; unfold Packet.getAddr, Packet.getSize, Packet.getPtr, Packet.isSecure, Packet.memInhibitAsserted, Packet.hasBuffer in *;
    cbn [Packet.setFlag Packet.flags Packet.addr Packet.size Packet.data Packet.isSecure_]; by rewrite isSet_set_other.
Qed.

Lemma pktOf_response p cmd a n d : pktOf p cmd a n d -> MemCmd.needsResponse cmd = true ->
  exists p', Packet.makeResponse p = Done p' /\ pktOf p' (MemCmd.responseCommand cmd) a n d /\ Packet.req p' = Packet.req p /\
    Packet.sharedAsserted p' = Packet.sharedAsserted p.
Proof.
  intros [H1 H2 H3 H4 H5 H6 H7] Hn. unfold Packet.makeResponse. rewrite H1, Hn, (MemCmd.memcmd_requests _ Hn). cbn [negb].
  eexists. split; [done|]. split; [|split; [done|by apply isSet_clear32_other]].
  split; [done|..|done| |]; unfold Packet.getAddr, Packet.getSize, Packet.getPtr, Packet.isSecure, Packet.memInhibitAsserted, Packet.hasBuffer in *;
    cbn [Packet.clearFlag Packet.flags Packet.addr Packet.size Packet.data Packet.isSecure_]; by rewrite isSet_clear32_other.
Qed.

Lemma pktOf_setData src off p cmd a n d : pktOf p cmd a n d -> 0 <= off -> off + n <= Z.of_nat (length src) ->
  exists p', Packet.setData src off p = Done p' /\ pktOf p' cmd a n (take (Z.to_nat n) (drop (Z.to_nat off) src)) /\
    Packet.req p' = Packet.req p /\ Packet.sharedAsserted p' = Packet.sharedAsserted p.
Proof.
  intros Hp Ho Hn. unfold Packet.setData. rewrite (po_data _ _ _ _ _ Hp), (po_size _ _ _ _ _ Hp). cbn [obind].
  pose proof (po_len _ _ _ _ _ Hp) as <-. rewrite memcpy_bytes by lia. cbn [obind].
  eexists. split; [done|]. split; [|done]. rewrite Nat2Z.id.
  eapply pktOf_withData; [done|]. rewrite length_take, length_drop. lia.
Qed.

(** A request for [n] bytes at [a], with its gather pattern. *)
Record reqFor (r : Request.t) (a n pat : Z) : Prop := {
  rf_paddr : Request.hasPaddr r = true;
  rf_addr : Request.paddr r = a;
  rf_size : Request.hasSize r = true;
  rf_bytes : Request.size r = n;
  rf_cached : Request.isUncacheable r = false;
  rf_secure : Request.isSecure r = false;
  rf_pattern : Request.getGatherPattern r = Done pat }.

Lemma reqFor_depth r a n pat : reqFor r a n pat -> reqFor (Request.incAccessDepth r) a n pat.
Proof. intros [H1 H2 H3 H4 H5 H6 H7]. by split. Qed.

Section fresh.
Context (fresh : Z -> buffer) (Hfresh : forall n, 0 <= n -> Z.of_nat (length (fresh n)) = n).

Lemma allocate_new r cmd a n pat : reqFor r a n pat -> 0 <= n ->
  exists p, Packet.allocate fresh (Packet.new r cmd) = Done p /\ pktOf p cmd a n (fresh n) /\ Packet.req p = r /\ Packet.sharedAsserted p = false.
Proof.
  intros [H1 H2 H3 H4 H5 H6 H7] Hn. unfold Packet.allocate, Packet.giveData, Packet.getSize, Packet.hasBuffer, Packet.new. cbn.
  rewrite H1, H3, H4, H2, H6. cbn. eexists. split; [done|]. split; [|done]. split; try done. by apply Hfresh.
Qed.

Lemma allocate_newBlock r cmd a n pat bs : reqFor r a n pat -> 0 <= bs ->
  exists p, Packet.allocate fresh (Packet.newBlock r cmd bs) = Done p /\
    pktOf p cmd (Z.land a (bnot 64 (bs - 1))) bs (fresh bs) /\ Packet.req p = r /\ Packet.sharedAsserted p = false.
Proof.
  intros [H1 H2 H3 H4 H5 H6 H7] Hn. unfold Packet.allocate, Packet.giveData, Packet.getSize, Packet.hasBuffer, Packet.newBlock. cbn.
  rewrite H1, H2, H6. cbn. eexists. split; [done|]. split; [|done]. split; try done. by apply Hfresh.
Qed.

End fresh.

(** ** Bytes of a store *)

Definition inStore (st : Z) (host : buffer) (a n : Z) : Prop := 0 < n /\ st <= a /\ a + n <= st + Z.of_nat (length host).

(** [res] is what a read of [n] bytes at [a] with a pattern gives. *)
Definition gathered (st : Z) (host : buffer) (pat a n : Z) (res : buffer) : Prop :=
  Z.of_nat (length res) = n /\ forall i, Z.of_nat i < n -> res !! i = host !! Z.to_nat (AbstractMem.gatherAddr pat (a + Z.of_nat i) - st).

(** A gather reads whole words. *)
Definition aligned (r : Request.t) (a n : Z) : Prop := Request.isGather r = true -> a mod 8 = 0 /\ n mod 8 = 0.

(** [host'] is [host] with [d] written at [a]. *)
Definition written (st : Z) (host : buffer) (a : Z) (d : buffer) (host' : buffer) : Prop :=
  length host' = length host /\ forall i, host' !! i =
    if decide (a - st <= Z.of_nat i < a - st + Z.of_nat (length d)) then d !! Z.to_nat (Z.of_nat i - (a - st)) else host !! i.

Lemma gathered_plain st host a n : inStore st host a n -> gathered st host 0 a n (bytesAt st host a (Z.to_nat n)).
Proof.
  intros (Hn & Ha & Hb). split; [unfold bytesAt; rewrite length_take, length_drop; lia|]. intros i Hi.
  rewrite bytesAt_lookup by lia. by rewrite AbstractMem.gather_0.
Qed.

(** ** The interface *)

(** What the memory side promises: it stores bytes, and answers functional
    reads and writes, reads of a line for sharing or for writing, and
    writebacks. *)
Class Memory (S : Type) `{Cache.Ports S} := {
  stores : S -> Z -> buffer -> Prop;
  stores_bounds s st host : stores s st host -> 0 <= st /\ st + Z.of_nat (length host) < 2 ^ 64;
  functional_read s st host p a n d pat : stores s st host -> pktOf p MemCmd.ReadReq a n d -> inStore st host a n ->
    Request.getGatherPattern (Packet.req p) = Done pat -> aligned (Packet.req p) a n ->
    exists p' s' res, Cache.sendFunctional p s = Done (p', s') /\ Packet.getPtr p' = Done res /\ gathered st host pat a n res /\
      Packet.req p' = Packet.req p /\ stores s' st host;
  functional_write s st host p a n d : stores s st host -> pktOf p MemCmd.WriteReq a n d -> inStore st host a n ->
    exists p' s' host', Cache.sendFunctional p s = Done (p', s') /\ Packet.req p' = Packet.req p /\ stores s' st host' /\ written st host a d host';
  atomic_read s st host p cmd a n d pat : stores s st host -> (cmd = MemCmd.ReadReq \/ cmd = MemCmd.ReadExReq) -> pktOf p cmd a n d ->
    inStore st host a n -> Request.getGatherPattern (Packet.req p) = Done pat -> aligned (Packet.req p) a n ->
    exists tk p' s' res, Cache.sendAtomic p s = Done (tk, p', s') /\ pktOf p' (MemCmd.responseCommand cmd) a n res /\
      gathered st host pat a n res /\ Packet.req p' = Packet.req p /\ Packet.sharedAsserted p' = Packet.sharedAsserted p /\ stores s' st host;
  atomic_writeback s st host p a n d : stores s st host -> pktOf p MemCmd.Writeback a n d -> inStore st host a n ->
    Request.isInstFetch (Packet.req p) = false -> Request.hasPaddr (Packet.req p) = true ->
    exists tk p' s' host', Cache.sendAtomic p s = Done (tk, p', s') /\ stores s' st host' /\ written st host a d host' }.

(** ** The simple memory *)

#[export] Instance simplePorts : Cache.Ports SimpleMem.t := {|
  Cache.sendAtomic := SimpleMem.recvAtomic;
  Cache.sendFunctional := SimpleMem.recvFunctional;
  Cache.isSnooping := fun _ => false;
  Cache.sendAtomicSnoop := fun p s => Done (p, s);
  Cache.sendFunctionalSnoop := fun p s => Done (p, s) |}.

(** A memory of whole blocks of eight tuples, with no response under way. *)
Record simpleStores (m : SimpleMem.t) (st : Z) (host : buffer) : Prop := {
  ss_mem : wfMem (SimpleMem.mem m) st host;
  ss_queue : SimpleMem.packetQueue m = [];
  ss_start : st mod 512 = 0;
  ss_len : Z.of_nat (length host) mod 512 = 0 }.

Lemma pktOf_onMem p cmd a n d st host : pktOf p cmd a n d -> inStore st host a n -> onMem p a d st host.
Proof. intros [H1 H2 H3 H4 H5 H6 H7] (? & ? & ?). split; try done; [congruence|lia|lia]. Qed.

Section simple.
Context (m : AbstractMem.t) (st : Z) (host : buffer) (Hm : wfMem m st host).
Context (Hst : st mod 512 = 0) (Hlen : Z.of_nat (length host) mod 512 = 0).

(** The data a read takes. *)
Lemma readData_gathered p cmd a n d pat : pktOf p cmd a n d -> inStore st host a n ->
  Request.getGatherPattern (Packet.req p) = Done pat -> aligned (Packet.req p) a n ->
  exists res, AbstractMem.readData p (a - st) m = Done (Packet.withData (Some res) p) /\ gathered st host pat a n res.
Proof.
  intros Hp Hin Hpat Hal. pose proof (pktOf_onMem _ _ _ _ _ _ _ Hp Hin) as Hom. destruct (Request.isGather (Packet.req p)) eqn:Hg.
  - destruct (Hal Hg) as [Ha8 Hn8]. destruct Hin as (Hn & Ha & Hb). pose proof (po_len _ _ _ _ _ Hp) as Hl. pose proof (wm_bounds _ _ _ Hm) as Hbd.
    assert (En : 8 * (n / 8) = n) by (Z.div_mod_to_equations; lia).
    assert (Hpos : 0 <= n / 8) by (apply Z.div_pos; lia).
    destruct (AbstractMem.gatherLoop_spec (Z.to_nat (n / 8)) pat a st host 0 d) as (res & Hr & Hrl & Hv); try done; [lia..|].
    exists res. split.
    + unfold AbstractMem.readData. rewrite (wm_store _ _ _ Hm), Hg. unfold AbstractMem.doMemGather.
      rewrite Hg, (po_size _ _ _ _ _ Hp). cbn [negb obind]. rewrite Hn8. cbn [Z.eqb negb].
      rewrite (po_addr _ _ _ _ _ Hp), Hpat, (po_data _ _ _ _ _ Hp), (wm_store _ _ _ Hm). cbn [obind].
      rewrite (wm_range _ _ _ Hm). cbn [AddrRange.plain AddrRange.start]. by rewrite Hr.
    + split; [congruence|]. intros i Hi. rewrite Hv. cbv zeta. rewrite Z.sub_0_r, decide_True by lia.
      assert (Hi8 : Z.of_nat i = 8 * (Z.of_nat i / 8) + Z.of_nat i mod 8) by apply (Z.div_mod (Z.of_nat i) 8 ltac:(lia)).
      assert (E : AbstractMem.gatherAddr pat (a + Z.of_nat i) = AbstractMem.gatherAddr pat (a + 8 * (Z.of_nat i / 8)) + Z.of_nat i mod 8).
      { rewrite <- AbstractMem.gather_word; [f_equal; lia| | |apply Z.mod_pos_bound; lia].
        - assert (0 <= Z.of_nat i / 8) by (apply Z.div_pos; lia). lia.
        - rewrite Z.mul_comm, Z.mod_add by lia. done. }
      rewrite E. f_equal. f_equal. lia.
  - unfold Request.getGatherPattern in Hpat. rewrite Hg in Hpat. injection Hpat as <-.
    exists (bytesAt st host a (length d)). split; [by apply (readData_plain m st host Hm p a d Hom)|].
    pose proof (po_len _ _ _ _ _ Hp). replace (length d) with (Z.to_nat n) by lia. by apply gathered_plain.
Qed.

Lemma writeData_written p cmd a n d m' : pktOf p cmd a n d -> inStore st host a n -> AbstractMem.pmem m' = Some host -> AbstractMem.range m' = AbstractMem.range m ->
  exists host', AbstractMem.writeDataTo p (a - st) m' = Done (AbstractMem.withPmem host' m') /\ written st host a d host' /\
    wfMem (AbstractMem.withPmem host' m') st host'.
Proof.
  intros Hp (Hn & Ha & Hb) Hpm Hrg. unfold AbstractMem.writeDataTo. rewrite Hpm. unfold Packet.writeDataAt.
  rewrite (po_data _ _ _ _ _ Hp), (po_size _ _ _ _ _ Hp). cbn [obind]. pose proof (po_len _ _ _ _ _ Hp) as Hl.
  destruct (memcpy_spec host (a - st) d 0 n) as (host' & -> & Hlen' & Hv); [lia..|]. cbn [obind].
  exists host'. split; [done|]. split; [split; [done|]; intros i; rewrite Hv, Hl; by rewrite Z.add_0_r|].
  pose proof (wm_bounds _ _ _ Hm). split; cbn; [done|by rewrite Hrg, (wm_range _ _ _ Hm), Hlen'|lia].
Qed.

End simple.

Lemma simple_functional_read s st host p a n d pat : simpleStores s st host -> pktOf p MemCmd.ReadReq a n d -> inStore st host a n ->
  Request.getGatherPattern (Packet.req p) = Done pat -> aligned (Packet.req p) a n ->
  exists p' s' res, SimpleMem.recvFunctional p s = Done (p', s') /\ Packet.getPtr p' = Done res /\ gathered st host pat a n res /\
    Packet.req p' = Packet.req p /\ simpleStores s' st host.
Proof.
  intros [Hm Hq Hs Hl] Hp Hin Hpat Hal. unfold SimpleMem.recvFunctional, AbstractMem.functionalAccess.
  rewrite (inRange_done _ st host Hm p a d (pktOf_onMem _ _ _ _ _ _ _ Hp Hin)). cbn [obind].
  rewrite (po_cmd _ _ _ _ _ Hp). change (MemCmd.isRead MemCmd.ReadReq) with true. cbv iota.
  destruct (readData_gathered _ st host Hm Hs Hl p _ a n d pat Hp Hin Hpat Hal) as (res & -> & Hg). cbn [obind].
  destruct (pktOf_response _ _ a n res (pktOf_withData res p _ a n d Hp (proj1 Hg))) as (p' & -> & Hp' & Hr & _); [done|]. cbn [obind].
  cbn [SimpleMem.withMem SimpleMem.packetQueue]. rewrite Hq. cbn [SimpleMem.checkQueue obind].
  eexists _, _, res. split; [done|]. split; [apply Hp'|]. split; [done|]. split; [done|]. by split.
Qed.

Lemma simple_functional_write s st host p a n d : simpleStores s st host -> pktOf p MemCmd.WriteReq a n d -> inStore st host a n ->
  exists p' s' host', SimpleMem.recvFunctional p s = Done (p', s') /\ Packet.req p' = Packet.req p /\ simpleStores s' st host' /\ written st host a d host'.
Proof.
  intros [Hm Hq Hs Hl] Hp Hin. unfold SimpleMem.recvFunctional, AbstractMem.functionalAccess.
  rewrite (inRange_done _ st host Hm p a d (pktOf_onMem _ _ _ _ _ _ _ Hp Hin)). cbn [obind].
  rewrite (po_cmd _ _ _ _ _ Hp). change (MemCmd.isRead MemCmd.WriteReq) with false. change (MemCmd.isWrite MemCmd.WriteReq) with true. cbv iota.
  destruct (writeData_written _ st host Hm p _ a n d _ Hp Hin (wm_store _ _ _ Hm) eq_refl) as (host' & -> & Hw & Hm'). cbn [obind].
  destruct (pktOf_response p _ a n d Hp) as (p' & -> & Hp' & Hr & _); [done|]. cbn [obind].
  cbn [SimpleMem.withMem SimpleMem.packetQueue]. rewrite Hq. cbn [SimpleMem.checkQueue obind].
  eexists _, _, host'. split; [done|]. split; [done|]. split; [|done]. split; cbn; try done. by rewrite (proj1 Hw).
Qed.

(** The latency of an atomic access does not touch the store. *)
Lemma recvAtomic_Done p s p' a : AbstractMem.access p (SimpleMem.mem s) = Done (p', a) ->
  exists tk s', SimpleMem.recvAtomic p s = Done (tk, p', s') /\ SimpleMem.mem s' = a /\ SimpleMem.packetQueue s' = SimpleMem.packetQueue s.
Proof.
  intros H. unfold SimpleMem.recvAtomic. rewrite H. cbn [obind]. destruct (Packet.memInhibitAsserted p'); [by eexists _, _|].
  pose proof (SimpleMem.getLatency_frame (SimpleMem.withMem a s)) as F. unfold SimpleMem.getLatency in *. cbn in *.
  destruct (_ =? 0); by eexists _, _.
Qed.

Lemma simple_atomic_read s st host p cmd a n d pat : simpleStores s st host -> (cmd = MemCmd.ReadReq \/ cmd = MemCmd.ReadExReq) -> pktOf p cmd a n d ->
  inStore st host a n -> Request.getGatherPattern (Packet.req p) = Done pat -> aligned (Packet.req p) a n ->
  exists tk p' s' res, SimpleMem.recvAtomic p s = Done (tk, p', s') /\ pktOf p' (MemCmd.responseCommand cmd) a n res /\
    gathered st host pat a n res /\ Packet.req p' = Packet.req p /\ Packet.sharedAsserted p' = Packet.sharedAsserted p /\ simpleStores s' st host.
Proof.
  intros [Hm Hq Hs Hl] Hc Hp Hin Hpat Hal.
  destruct (readData_gathered _ st host Hm Hs Hl p _ a n d pat Hp Hin Hpat Hal) as (res & Hrd & Hg).
  destruct (pktOf_response _ _ a n res (pktOf_withData res p _ a n d Hp (proj1 Hg))) as (p' & Hmk & Hp' & Hr & Hsh); [by destruct Hc as [-> | ->]|].
  assert (Hacc : exists m', AbstractMem.access p (SimpleMem.mem s) = Done (p', m') /\ wfMem m' st host).
  { unfold AbstractMem.access. rewrite (inRange_done _ st host Hm p a d (pktOf_onMem _ _ _ _ _ _ _ Hp Hin)). cbn [obind].
    rewrite (po_inhibit _ _ _ _ _ Hp), (po_size _ _ _ _ _ Hp). cbn [obind]. rewrite (po_cmd _ _ _ _ _ Hp).
    rewrite decide_False by (by destruct Hc as [-> | ->]). replace (MemCmd.isRead cmd) with true by (by destruct Hc as [-> | ->]).
    replace (MemCmd.isWrite cmd) with false by (by destruct Hc as [-> | ->]). replace (MemCmd.isLLSC cmd) with false by (by destruct Hc as [-> | ->]).
    cbv iota. cbn [obind]. rewrite Hrd. cbn [obind]. unfold AbstractMem.makeResponseIf.
    change (Packet.cmd (Packet.withData (Some res) p)) with (Packet.cmd p). rewrite (po_cmd _ _ _ _ _ Hp).
    replace (MemCmd.needsResponse cmd) with true by (by destruct Hc as [-> | ->]). rewrite Hmk. cbn [obind].
    eexists. split; [done|]. destruct Hm as [M1 M2 M3]. by split. }
  destruct Hacc as (m' & Hacc & Hm'). destruct (recvAtomic_Done p s p' m' Hacc) as (tk & s' & Hra & Ems & Eqs).
  exists tk, p', s', res. split; [done|]. split; [done|]. split; [done|]. split; [done|]. split; [done|]. split; [by rewrite Ems|congruence|done|done].
Qed.

Lemma simple_atomic_writeback s st host p a n d : simpleStores s st host -> pktOf p MemCmd.Writeback a n d -> inStore st host a n ->
  Request.isInstFetch (Packet.req p) = false -> Request.hasPaddr (Packet.req p) = true ->
  exists tk p' s' host', SimpleMem.recvAtomic p s = Done (tk, p', s') /\ simpleStores s' st host' /\ written st host a d host'.
Proof.
  intros [Hm Hq Hs Hl] Hp Hin Hif Hpa.
  assert (Hacc : exists m' host', AbstractMem.access p (SimpleMem.mem s) = Done (p, m') /\ wfMem m' st host' /\ written st host a d host').
  { unfold AbstractMem.access. rewrite (inRange_done _ st host Hm p a d (pktOf_onMem _ _ _ _ _ _ _ Hp Hin)). cbn [obind].
    rewrite (po_inhibit _ _ _ _ _ Hp), (po_size _ _ _ _ _ Hp). cbn [obind].
    destruct (writeOK_plain (SimpleMem.mem s) p (Request.paddr (Packet.req p))) as (m1 & Hok & E1 & E2);
      [by rewrite (po_cmd _ _ _ _ _ Hp)|unfold Request.getPaddr, Request.guarded; unfold Request.hasPaddr in Hpa; by rewrite Hpa|].
    destruct (writeData_written _ st host Hm p _ a n d m1 Hp Hin) as (host' & Hwd & Hw & Hm'); [by rewrite E1, (wm_store _ _ _ Hm)|done|].
    rewrite (po_cmd _ _ _ _ _ Hp). rewrite decide_False by done. cbn [MemCmd.isRead MemCmd.isInvalidate MemCmd.isWrite].
    change (MemCmd.isRead MemCmd.Writeback) with false. change (MemCmd.isInvalidate MemCmd.Writeback) with false.
    change (MemCmd.isWrite MemCmd.Writeback) with true. cbv iota. rewrite Hok. cbn [obind]. rewrite Hwd. cbn [obind]. rewrite Hif. cbn [obind].
    unfold AbstractMem.makeResponseIf. rewrite (po_cmd _ _ _ _ _ Hp). change (MemCmd.needsResponse MemCmd.Writeback) with false. cbv iota. cbn [obind].
    eexists _, host'. split; [done|]. split; [|done]. destruct Hm' as [M1 M2 M3]. by split. }
  destruct Hacc as (m' & host' & Hacc & Hm' & Hw). destruct (recvAtomic_Done p s p m' Hacc) as (tk & s' & Hra & Ems & Eqs).
  exists tk, p, s', host'. split; [done|]. split; [|done]. split; [by rewrite Ems|congruence|done|by rewrite (proj1 Hw)].
Qed.

#[export] Program Instance simpleMemory : Memory SimpleMem.t := {|
  stores := simpleStores;
  functional_read := simple_functional_read;
  functional_write := simple_functional_write;
  atomic_read := simple_atomic_read;
  atomic_writeback := simple_atomic_writeback |}.
Next Obligation. intros s st host [Hm _ _ _]. apply (wm_bounds _ _ _ Hm). Qed.

End CacheMemory.
