(* ===== verification/CacheCorrect.v ===== *)
(** * The cache is transparent

    Above any memory side that keeps the promises of [Memory], atomic reads,
    gather reads and writes through the cache have the data and the effect of
    accesses to the memory itself. *)

From Stdlib Require Import ZArith Lia.
From stdpp Require Import base gmap numbers list.
From S2P Require Import Prelude Bits AddrRange MemCmd Request Packet AbstractMem MemoryCorrect SimpleMem CacheBlk CacheTags CacheTagsCorrect CacheTagsInv MSHR MSHRQueue PacketQueue ClockedObject Cache CacheMemory.

#[local] Open Scope Z_scope.
#[local] Open Scope outcome_scope.

Module CacheCorrect.
Import Cache CacheMemory CacheTagsCorrect CacheTagsInv.

(** ** Lines of the store *)

Lemma bytesAt_ext st h h' a n : st <= a -> (forall i, (i < n)%nat -> h' !! Z.to_nat (a + Z.of_nat i - st) = h !! Z.to_nat (a + Z.of_nat i - st)) ->
  bytesAt st h' a n = bytesAt st h a n.
Proof.
  intros Ha He. apply list_eq. intros i. destruct (decide (i < n)%nat) as [Hi|Hi].
  - rewrite !bytesAt_lookup by done. by apply He.
  - unfold bytesAt. rewrite !lookup_ge_None_2; [done|rewrite length_take; lia|rewrite length_take; lia].
Qed.

Lemma length_bytesAt st host a n : inStore st host a n -> Z.of_nat (length (bytesAt st host a (Z.to_nat n))) = n.
Proof. intros (? & ? & ?). unfold bytesAt. rewrite length_take, length_drop. lia. Qed.

(** A write elsewhere. *)
Lemma written_other st host a d host' b n : written st host a d host' -> inStore st host b n ->
  b + n <= a \/ a + Z.of_nat (length d) <= b -> bytesAt st host' b (Z.to_nat n) = bytesAt st host b (Z.to_nat n).
Proof.
  intros [_ Hw] (? & ? & ?) Hd. apply bytesAt_ext; [done|]. intros i Hi. rewrite Hw. rewrite decide_False by lia. done.
Qed.

(** A write inside a line. *)
Lemma written_line st host a d host' b n : written st host a d host' -> inStore st host b n -> b <= a -> a + Z.of_nat (length d) <= b + n ->
  memcpy (bytesAt st host b (Z.to_nat n)) (a - b) d 0 (Z.of_nat (length d)) = Done (bytesAt st host' b (Z.to_nat n)).
Proof.
  intros [Hl Hw] Hin Hb Hn. pose proof (length_bytesAt _ _ _ _ Hin) as Hlen. destruct Hin as (? & ? & ?).
  destruct (memcpy_spec (bytesAt st host b (Z.to_nat n)) (a - b) d 0 (Z.of_nat (length d))) as (r & -> & Hr & Hv); [lia..|]. f_equal.
  apply list_eq. intros i. destruct (decide (i < Z.to_nat n)%nat) as [Hi|Hi].
  - rewrite Hv, (bytesAt_lookup _ host'), Hw by lia.
    destruct (decide (a - b <= Z.of_nat i < a - b + Z.of_nat (length d))).
    + rewrite decide_True by lia. f_equal. lia.
    + rewrite decide_False by lia. by rewrite bytesAt_lookup by lia.
  - rewrite !lookup_ge_None_2; [done|unfold bytesAt; rewrite length_take; lia|lia].
Qed.

(** Writing what is there. *)
Lemma written_same st host a n host' : inStore st host a n -> written st host a (bytesAt st host a (Z.to_nat n)) host' -> host' = host.
Proof.
  intros Hin [_ Hw]. rewrite (length_bytesAt _ _ _ _ Hin) in Hw. destruct Hin as (? & ? & ?). apply list_eq. intros i. rewrite Hw.
  case_decide; [|done]. rewrite bytesAt_lookup by lia. f_equal. lia.
Qed.

(** Multiples of a line size are a line apart. *)
Lemma multiples_apart n a b : 0 < n -> a mod n = 0 -> b mod n = 0 -> a = b \/ a + n <= b \/ b + n <= a.
Proof.
  intros Hn Ha Hb. apply Z.mod_divide in Ha as [x ->]; [|lia]. apply Z.mod_divide in Hb as [y ->]; [|lia].
  destruct (Z.lt_trichotomy x y) as [H|[->|H]]; [right; left|by left|right; right]; nia.
Qed.

(** ** Status bits *)

(** Valid, readable, writable and not secure. *)
Definition exclusive (s : Z) : Prop := Z.land s 0x47 = 0x07.

Lemma exclusive_bits s : exclusive s ->
  Flags.isSet s CacheBlk.BlkValid = true /\ Flags.allSet s (Z.lor CacheBlk.BlkReadable CacheBlk.BlkValid) = true /\
  Flags.allSet s (Z.lor CacheBlk.BlkWritable CacheBlk.BlkValid) = true /\ Flags.isSet s CacheBlk.BlkSecure = false.
Proof.
  intros E. assert (B : forall m, Z.land 0x47 m = m -> Z.land s m = Z.land 0x07 m).
  { intros m Hm. rewrite <- Hm at 1. by rewrite Z.land_assoc, E. }
  unfold Flags.isSet, Flags.allSet. rewrite !B by reflexivity. done.
Qed.

Lemma exclusive_notSecure b : exclusive (CacheBlk.status b) -> CacheBlk.isSecure b = false.
Proof. apply exclusive_bits. Qed.

Lemma exclusive_dirty s : exclusive s -> exclusive (Flags.set s CacheBlk.BlkDirty).
Proof. intros E. unfold exclusive, Flags.set. by rewrite Z.land_lor_distr_l, E. Qed.

Lemma exclusive_clean s : exclusive s -> exclusive (Flags.clear 32 s CacheBlk.BlkDirty).
Proof. intros E. unfold exclusive, Flags.clear. rewrite <- Z.land_assoc. exact E. Qed.

Lemma clean_not_dirty s : Flags.isSet (Flags.clear 32 s CacheBlk.BlkDirty) CacheBlk.BlkDirty = false.
Proof. unfold Flags.isSet, Flags.clear. by rewrite <- Z.land_assoc, Z.land_0_r. Qed.

(** ** The invariant *)

(** Where a gather pattern is in an address. *)
Definition patternBase : Z := 2 ^ 61.

Record blkOK (g : CacheTags.geometry) (st : Z) (host : buffer) (b : CacheBlk.t) : Prop := {
  bo_len : Z.of_nat (length (CacheBlk.data b)) = CacheTags.blkSize g;
  bo_invalid : CacheBlk.isValid b = false -> CacheBlk.status b = 0;
  bo_state : CacheBlk.isValid b = true -> exclusive (CacheBlk.status b);
  bo_master : CacheBlk.isValid b = true -> CacheBlk.srcMasterId b < CacheTags.maxMasters g;
  bo_tag : CacheBlk.isValid b = true -> 0 <= CacheBlk.tag b < 2 ^ (64 - CacheTags.tagShift g);
  bo_data : CacheBlk.isValid b = true -> let a := CacheTags.regenerateBlkAddr g (CacheBlk.tag b) (CacheBlk.set b) in
    if a <? patternBase then inStore st host a (CacheTags.blkSize g) /\ CacheBlk.data b = bytesAt st host a (Z.to_nat (CacheTags.blkSize g))
    else CacheBlk.isDirty b = false }.

(** A top-level cache with nothing outstanding above a store of whole lines:
    the valid blocks of plain lines hold the bytes of the store, those of
    gathered lines are clean. *)
Record cacheOK (c : t) (st : Z) (host : buffer) : Prop := {
  ck_tags : tagsOK (tags c);
  ck_size : blkSize (prm c) = CacheTags.blkSize (CacheTags.geo (tags c));
  ck_masters : maxMasters (prm c) = CacheTags.maxMasters (CacheTags.geo (tags c));
  ck_bypass : bypassCaches (prm c) = false;
  ck_top : isTopLevel (prm c) = true;
  ck_queue : MSHRQueue.allocatedList (mshrQueue c) = [];
  ck_start : 0 <= st /\ st mod blkSize (prm c) = 0;
  ck_end : Z.of_nat (length host) mod blkSize (prm c) = 0 /\ st + Z.of_nat (length host) <= patternBase;
  ck_blks : forall k b, CacheTags.blks (tags c) !! k = Some b -> blkOK (CacheTags.geo (tags c)) st host b }.

Lemma cacheOK_tags c st host tg : cacheOK c st host -> tagsOK tg -> CacheTags.geo tg = CacheTags.geo (tags c) ->
  (forall k b, CacheTags.blks tg !! k = Some b -> blkOK (CacheTags.geo (tags c)) st host b) -> cacheOK (withTags tg c) st host.
Proof. intros [H1 H2 H3 H4 H5 H6 H7 H8 H9] Ht Hg Hb. split; cbn; try done; by rewrite Hg. Qed.

Lemma cacheOK_same c c' st host : cacheOK c st host -> tags c' = tags c -> prm c' = prm c -> mshrQueue c' = mshrQueue c -> cacheOK c' st host.
Proof. intros [H1 H2 H3 H4 H5 H6 H7 H8 H9] Et Ep Eq. split; rewrite ?Et, ?Ep, ?Eq; done. Qed.

(** A write to memory with the blocks brought along. *)
Lemma cacheOK_host c st host host' tg : cacheOK c st host -> length host' = length host -> tagsOK tg -> CacheTags.geo tg = CacheTags.geo (tags c) ->
  (forall k b, CacheTags.blks tg !! k = Some b -> blkOK (CacheTags.geo (tags c)) st host' b) -> cacheOK (withTags tg c) st host'.
Proof. intros [H1 H2 H3 H4 H5 H6 H7 H8 H9] Hl Ht Hg Hb. split; cbn; rewrite ?Hl; try done; by rewrite Hg. Qed.

(** Changes of a block that keep its line and its data. *)
Lemma blkOK_same g st host b b' : blkOK g st host b -> CacheBlk.data b' = CacheBlk.data b -> CacheBlk.status b' = CacheBlk.status b ->
  CacheBlk.srcMasterId b' = CacheBlk.srcMasterId b -> CacheBlk.tag b' = CacheBlk.tag b -> CacheBlk.set b' = CacheBlk.set b -> blkOK g st host b'.
Proof.
  intros [H1 H2 H3 H4 H5 H6] Ed Es Em Et Eset. split; unfold CacheBlk.isValid, CacheBlk.isDirty in *; rewrite ?Ed, ?Es, ?Em, ?Et, ?Eset; done.
Qed.

Section line.
Context (c : t) (st : Z) (host : buffer) (Hc : cacheOK c st host).
#[local] Notation g := (CacheTags.geo (tags c)).
#[local] Notation bs := (blkSize (prm c)).

Lemma geo_wf : wfGeo g.
Proof. apply (to_geo _ (ck_tags _ _ _ Hc)). Qed.

Lemma bs_pow : bs = 2 ^ CacheTags.setShift g /\ 2 <= CacheTags.setShift g < 64.
Proof.
  rewrite (ck_size _ _ _ Hc). pose proof (wg_shift g geo_wf). pose proof (wg_tag g geo_wf). split; [apply (wg_blk g geo_wf)|lia].
Qed.

Lemma bs_pos : 4 <= bs < 2 ^ 64.
Proof.
  destruct bs_pow as [-> H]. split; [change 4 with (2 ^ 2)|]; [apply Z.pow_le_mono_r; lia|apply Z.pow_lt_mono_r; lia].
Qed.

(** The line of an address. *)
Lemma line_addr a : u64 a -> Z.land a (bnot 64 (bs - 1)) = a - a mod bs.
Proof.
  intros Ha. destruct bs_pow as [-> H]. replace (2 ^ CacheTags.setShift g - 1) with (Z.ones (CacheTags.setShift g)) by (rewrite Z.ones_equiv; lia).
  apply land_bnot_mask; [done|lia].
Qed.

Lemma line_inStore a n : inStore st host a n -> a mod bs + n <= bs -> inStore st host (a - a mod bs) bs.
Proof.
  intros (Hn & Ha & Hb) Hl. destruct (ck_start _ _ _ Hc) as [S1 S2], (ck_end _ _ _ Hc) as [E1 E2]. pose proof bs_pos as Hbs.
  split; [lia|]. pose proof (Z.div_mod a bs). pose proof (Z.mod_pos_bound a bs). pose proof (Z.div_mod st bs). pose proof (Z.div_mod (Z.of_nat (length host)) bs).
  assert (st / bs <= a / bs) by (apply Z.div_le_mono; lia).
  assert (a / bs < st / bs + Z.of_nat (length host) / bs) by (apply Z.div_lt_upper_bound; nia). split; nia.
Qed.

Lemma line_multiple a : (a - a mod bs) mod bs = 0.
Proof.
  pose proof bs_pos. replace (a - a mod bs) with (a / bs * bs) by (pose proof (Z.div_mod a bs); lia). apply Z.mod_mul. lia.
Qed.

(** Two valid blocks of one line are one block. *)
Lemma line_unique k k' b b' : CacheTags.blks (tags c) !! k = Some b -> CacheTags.blks (tags c) !! k' = Some b' ->
  CacheBlk.isValid b = true -> CacheBlk.isValid b' = true ->
  CacheTags.regenerateBlkAddr g (CacheBlk.tag b) (CacheBlk.set b) = CacheTags.regenerateBlkAddr g (CacheBlk.tag b') (CacheBlk.set b') -> k = k'.
Proof.
  intros Hk Hk' Hv Hv' E.
  assert (R : forall k b, CacheTags.blks (tags c) !! k = Some b -> 0 <= CacheBlk.set b < CacheTags.numSets g).
  { intros j x Hj. rewrite (to_set _ (ck_tags _ _ _ Hc) _ _ Hj).
    destruct (blk_set_exists _ (ck_tags _ _ _ Hc) _ _ Hj) as (l & Hl%lookup_lt_Some & _).
    rewrite (to_set _ (ck_tags _ _ _ Hc) _ _ Hj), Nat2Z.id, (to_sets _ (ck_tags _ _ _ Hc)) in Hl. lia. }
  pose proof (ck_blks _ _ _ Hc _ _ Hk) as Ok. pose proof (ck_blks _ _ _ Hc _ _ Hk') as Ok'.
  destruct (extract_regenerate g geo_wf _ _ (bo_tag _ _ _ _ Ok Hv) (R _ _ Hk)) as (T1 & S1 & _).
  destruct (extract_regenerate g geo_wf _ _ (bo_tag _ _ _ _ Ok' Hv') (R _ _ Hk')) as (T2 & S2 & _).
  rewrite E in T1, S1. eapply (to_unique _ (ck_tags _ _ _ Hc) k k' b b'); try done; [|congruence].
  destruct (exclusive_bits _ (bo_state _ _ _ _ Ok Hv)) as (_ & _ & _ & X1). destruct (exclusive_bits _ (bo_state _ _ _ _ Ok' Hv')) as (_ & _ & _ & X2).
  split; [done|]. split; [congruence|]. unfold CacheBlk.isSecure. congruence.
Qed.

(** Lines are apart. *)
Lemma regenerate_multiple tag set : CacheTags.regenerateBlkAddr g tag set mod bs = 0.
Proof.
  destruct bs_pow as [-> H]. rewrite <- Z.land_ones by lia. unfold CacheTags.regenerateBlkAddr.
  pose proof (wg_shift g geo_wf). pose proof (wg_tag g geo_wf). bitwise i Hi. destruct (Z.ltb_spec i (CacheTags.setShift g)); [|by rewrite andb_false_r].
  destruct (Z.leb_spec (CacheTags.tagShift g) i); [lia|]. destruct (Z.leb_spec (CacheTags.setShift g) i); [lia|]. done.
Qed.

(** ** Cache addresses *)

(** The address in the tags: the pattern is above the bytes of the store. *)
Definition cacheAddr (a pat : Z) : Z := a + pat * patternBase.

Lemma getCacheAddr_spec p cmd a n d pat : pktOf p cmd a n d -> Request.getGatherPattern (Packet.req p) = Done pat ->
  0 <= a < patternBase -> 0 <= pat < 8 -> Packet.getCacheAddr p = Done (cacheAddr a pat).
Proof.
  intros Hp Hr Ha Hpat. unfold Packet.getCacheAddr. rewrite (po_addr _ _ _ _ _ Hp), Hr. cbn [obind]. f_equal. unfold cacheAddr.
  change Request.GATHER_PATTERN_SHIFT with 61. unfold wrap, patternBase in *.
  rewrite Z.shiftl_mul_pow2, Z.mod_small by lia.
  rewrite <- Z.add_lor_land. replace (Z.land a (pat * 2 ^ 61)) with 0; [lia|]. symmetry.
  apply Z.bits_inj'. intros i Hi. rewrite Z.land_spec, Z.bits_0. destruct (Z.ltb_spec i 61).
  - by rewrite Z.mul_pow2_bits_low, andb_false_r by lia.
  - by rewrite (testbit_above 61 a) by lia.
Qed.

Section address.
Context (a n pat : Z) (Hin : inStore st host a n) (Hl : a mod bs + n <= bs) (Hpat : 0 <= pat < 8).

Lemma addr_bounds : 0 <= a < patternBase /\ u64 (cacheAddr a pat) /\ u64 (cacheAddr (a - a mod bs) pat).
Proof.
  destruct (line_inStore a n Hin Hl) as (_ & L1 & L2). destruct Hin as (? & ? & ?), (ck_start _ _ _ Hc) as [S1 _], (ck_end _ _ _ Hc) as [_ E2].
  pose proof bs_pos. unfold u64, cacheAddr, patternBase in *. lia.
Qed.

Lemma pattern_multiple : patternBase mod bs = 0.
Proof.
  destruct (line_inStore a n Hin Hl) as (_ & L1 & L2). destruct (ck_start _ _ _ Hc) as [S1 _], (ck_end _ _ _ Hc) as [_ E2].
  assert (Hbp : bs <= patternBase) by lia. destruct bs_pow as [E Hsh]. rewrite E in *. unfold patternBase in *.
  assert (CacheTags.setShift g <= 61).
  { destruct (Z.le_gt_cases (CacheTags.setShift g) 61); [done|]. assert (2 ^ 61 < 2 ^ CacheTags.setShift g) by (apply Z.pow_lt_mono_r; lia). lia. }
  replace 61 with ((61 - CacheTags.setShift g) + CacheTags.setShift g) by lia. rewrite Z.pow_add_r by lia. apply Z.mod_mul. lia.
Qed.

Lemma cacheAddr_align x : CacheTags.blkSize g = bs -> u64 (cacheAddr x pat) -> CacheTags.blkAlign g (cacheAddr x pat) = cacheAddr (x - x mod bs) pat.
Proof.
  intros Eb Hx. rewrite (proj1 (blkAlign_offset g geo_wf _ Hx)), Eb. unfold cacheAddr.
  rewrite (Z.mul_comm pat), Z.add_mod, (Z.mul_mod patternBase), pattern_multiple, Z.mul_0_l, Z.mod_0_l, Z.add_0_r, Z.mod_mod; pose proof bs_pos; lia.
Qed.

(** The bus packet is for the line of the request. *)
Lemma line_same : CacheTags.extractTag g (cacheAddr (a - a mod bs) pat) = CacheTags.extractTag g (cacheAddr a pat) /\
  CacheTags.extractSet g (cacheAddr (a - a mod bs) pat) = CacheTags.extractSet g (cacheAddr a pat).
Proof.
  destruct addr_bounds as (_ & U1 & U2). pose proof bs_pos. apply (same_block g geo_wf); [done|done|].
  rewrite !cacheAddr_align by (done || by rewrite (ck_size _ _ _ Hc)). f_equal. rewrite line_multiple. lia.
Qed.

Lemma line_regenerate : CacheTags.regenerateBlkAddr g (CacheTags.extractTag g (cacheAddr a pat)) (CacheTags.extractSet g (cacheAddr a pat)) =
  cacheAddr (a - a mod bs) pat.
Proof.
  destruct addr_bounds as (_ & U1 & _). rewrite (regenerate_extract g geo_wf) by done. apply cacheAddr_align; [by rewrite (ck_size _ _ _ Hc)|done].
Qed.

Lemma line_tag : 0 <= CacheTags.extractTag g (cacheAddr a pat) < 2 ^ (64 - CacheTags.tagShift g).
Proof.
  destruct addr_bounds as (_ & [U0 U1] & _). pose proof (wg_tag g geo_wf). pose proof (wg_shift g geo_wf). unfold CacheTags.extractTag.
  rewrite Z.shiftr_div_pow2 by lia. split; [apply Z.div_pos; [lia|apply Z.pow_pos_nonneg; lia]|].
  apply Z.div_lt_upper_bound; [apply Z.pow_pos_nonneg; lia|]. rewrite <- Z.pow_add_r by lia.
  by replace (CacheTags.tagShift g + (64 - CacheTags.tagShift g)) with 64 by lia.
Qed.

End address.
End line.

(** ** Requests satisfied from a block *)

Section satisfy.
Context {S : Type} `{Memory S} (fresh : Z -> buffer) (Hfresh : forall n, 0 <= n -> Z.of_nat (length (fresh n)) = n).
Context (c : t) (st : Z) (host : buffer) (Hc : cacheOK c st host).
#[local] Notation g := (CacheTags.geo (tags c)).
#[local] Notation bs := (blkSize (prm c)).

Lemma getOffset_spec p cmd a n d : pktOf p cmd a n d -> 0 <= a -> Packet.getOffset bs p = Done (a mod bs).
Proof.
  intros Hp Ha. unfold Packet.getOffset. rewrite (po_addr _ _ _ _ _ Hp). cbn [obind]. destruct (bs_pow c st host Hc) as [-> Hb].
  replace (2 ^ CacheTags.setShift g - 1) with (Z.ones (CacheTags.setShift g)) by (rewrite Z.ones_equiv; lia). by rewrite Z.land_ones by lia.
Qed.

Lemma readThrough_spec p a n d pat s : stores s st host -> pktOf p MemCmd.ReadReq a n d -> reqFor (Packet.req p) a n pat ->
  aligned (Packet.req p) a n -> inStore st host a n ->
  exists p' s' res, readThrough fresh p s = Done (p', s') /\ pktOf p' MemCmd.ReadReq a n res /\ gathered st host pat a n res /\
    Packet.req p' = Packet.req p /\ stores s' st host.
Proof.
  intros Hs Hp Hr Hal Hin. unfold readThrough. destruct (allocate_new fresh Hfresh (Packet.req p) MemCmd.ReadReq a n pat Hr) as (tp & -> & Ht & Et & _).
  { destruct Hin; lia. }
  cbn [obind]. destruct (functional_read s st host tp a n (fresh n) pat Hs Ht Hin) as (tp' & s' & res & -> & Hptr & Hg & Er & Hs');
    [rewrite Et; apply Hr|by rewrite Et|]. cbn [obind]. rewrite Hptr. cbn [obind].
  destruct (pktOf_setData res 0 (Packet.withReq (Packet.req tp') p) MemCmd.ReadReq a n d (pktOf_withReq _ _ _ _ _ _ Hp))
    as (p' & -> & Hp' & Erq & _); [lia|destruct Hg as [-> _]; lia|]. cbn [obind].
  exists p', s', res. split; [done|]. split; [|split; [done|split; [cbn in Erq; congruence|done]]].
  assert (E : take (Z.to_nat n) (drop (Z.to_nat 0) res) = res) by (apply take_ge; cbn; destruct Hg as [Hg _]; lia).
  by rewrite E in Hp'.
Qed.

Lemma satisfy_read now p a n d pat s i b : stores s st host -> pktOf p MemCmd.ReadReq a n d -> reqFor (Packet.req p) a n pat ->
  aligned (Packet.req p) a n -> inStore st host a n -> a mod bs + n <= bs ->
  CacheTags.blks (tags c) !! i = Some b -> CacheBlk.isValid b = true ->
  exists p' s' res, satisfyCpuSideRequest fresh now p (InTags i) false false c s = Done (p', c, s') /\
    pktOf p' MemCmd.ReadReq a n res /\ gathered st host pat a n res /\ stores s' st host.
Proof.
  intros Hs Hp Hr Hal Hin Hl Hb Hv. unfold satisfyCpuSideRequest, getBlk. rewrite (proj2 (getBlk_Done _ _ _) Hb). cbn [obind].
  rewrite (getOffset_spec p _ a n d Hp) by (destruct Hin as (? & ? & ?), (ck_start _ _ _ Hc); lia). cbn [obind].
  rewrite (po_size _ _ _ _ _ Hp). cbn [obind]. rewrite (po_cmd _ _ _ _ _ Hp), Hv, (proj2 (Z.leb_le _ _) Hl).
  change (MemCmd.isRequest MemCmd.ReadReq) with true. change (MemCmd.isWrite MemCmd.ReadReq) with false.
  change (MemCmd.isRead MemCmd.ReadReq) with true. change (MemCmd.isLLSC MemCmd.ReadReq) with false.
  rewrite decide_False by done. cbn [negb andb obind].
  destruct (readThrough_spec p a n d pat s Hs Hp Hr Hal Hin) as (p' & s' & res & -> & Hp' & Hg & Er & Hs'). cbn [obind].
  destruct (n =? bs); [|by exists p', s', res]. unfold supplyBlock, getBlk. rewrite (proj2 (getBlk_Done _ _ _) Hb). cbn [obind].
  rewrite (po_cmd _ _ _ _ _ Hp'). change (MemCmd.needsExclusive MemCmd.ReadReq) with false. cbv iota.
  assert (Hsh : pktOf (Packet.assertShared p') MemCmd.ReadReq a n res) by by apply pktOf_setFlag.
  destruct (_ && _); [destruct (CacheBlk.isDirty b)|]; rewrite ?(ck_top _ _ _ Hc); cbn [negb andb obind]; by eexists _, s', res.
Qed.

Lemma clearLoadLocks_total r a n pat b : reqFor r a n pat -> exists l, CacheBlk.clearLoadLocks (Some r) b = Done (CacheBlk.withLocks l b).
Proof.
  intros Hr. cbn. assert (E : forall l, exists l', CacheBlk.eraseOverlapping r l = Done l').
  { induction l as [|x l [l' IH]]; [by exists []|]. cbn. unfold CacheBlk.overlapping, Request.getPaddr, Request.getSize, Request.guarded.
    pose proof (rf_paddr _ _ _ _ Hr) as E1. pose proof (rf_size _ _ _ _ Hr) as E2. unfold Request.hasPaddr, Request.hasSize in *.
    rewrite E1, E2. cbn [obind]. rewrite IH. by eexists. }
  destruct (E (CacheBlk.lockList b)) as [l' ->]. by eexists.
Qed.

(** The blocks after a write to the line of block [i]. *)
Lemma blks_after_write i b b' a d host' : CacheTags.blks (tags c) !! i = Some b -> CacheBlk.isValid b = true ->
  CacheTags.regenerateBlkAddr g (CacheBlk.tag b) (CacheBlk.set b) = a - a mod bs -> a mod bs + Z.of_nat (length d) <= bs ->
  written st host a d host' -> blkOK g st host' b' ->
  forall k x, <[i := b']> (CacheTags.blks (tags c)) !! k = Some x -> blkOK g st host' x.
Proof.
  intros Hb Hv Ha Hl Hw Hb' k x. rewrite list_lookup_insert_Some. intros [(-> & -> & _)|(Hne & Hk)]; [done|].
  pose proof (ck_blks _ _ _ Hc _ _ Hk) as [H1 H2 H3 H4 H5 H6]. split; try done. intros Hvx. specialize (H6 Hvx). cbv zeta in *.
  destruct (_ <? patternBase); [|done]. destruct H6 as [Hin Hd].
  pose proof (ck_size _ _ _ Hc) as Eb. pose proof (bs_pos c st host Hc) as Hbs.
  assert (Hin' : inStore st host' (CacheTags.regenerateBlkAddr g (CacheBlk.tag x) (CacheBlk.set x)) (CacheTags.blkSize g)).
  { unfold inStore. rewrite (proj1 Hw). exact Hin. }
  split; [done|]. rewrite Hd. symmetry. eapply written_other; [done|done|].
  assert (Hx : CacheTags.regenerateBlkAddr g (CacheBlk.tag x) (CacheBlk.set x) <> a - a mod bs).
  { intros E. apply Hne. eapply (line_unique c st host Hc i k b x); try done. congruence. }
  pose proof (regenerate_multiple c st host Hc (CacheBlk.tag x) (CacheBlk.set x)) as Hm. rewrite <- Eb.
  pose proof (line_multiple c st host Hc a) as Hm'.
  pose proof (Z.mod_pos_bound a bs ltac:(lia)).
  destruct (multiples_apart bs _ _ ltac:(lia) Hm Hm') as [|[|]]; [done|left|right]; lia.
Qed.

Lemma satisfy_write now p a n d s i b : stores s st host -> pktOf p MemCmd.WriteReq a n d -> reqFor (Packet.req p) a n 0 ->
  inStore st host a n -> a mod bs + n <= bs ->
  CacheTags.blks (tags c) !! i = Some b -> CacheBlk.isValid b = true ->
  CacheTags.regenerateBlkAddr g (CacheBlk.tag b) (CacheBlk.set b) = a - a mod bs ->
  exists p' c' s' host', satisfyCpuSideRequest fresh now p (InTags i) false false c s = Done (p', c', s') /\
    pktOf p' MemCmd.WriteReq a n d /\ stores s' st host' /\ written st host a d host' /\ cacheOK c' st host' /\ prm c' = prm c.
Proof.
  intros Hs Hp Hr Hin Hl Hb Hv Ha. pose proof (ck_blks _ _ _ Hc _ _ Hb) as Hbo. pose proof (bo_state _ _ _ _ Hbo Hv) as Hex.
  destruct (exclusive_bits _ Hex) as (_ & _ & Hw & _). pose proof (po_len _ _ _ _ _ Hp) as Hlen. pose proof (ck_size _ _ _ Hc) as Eb.
  assert (Ha0 : 0 <= a < patternBase) by (destruct (addr_bounds c st host Hc a n 0 Hin Hl) as [? _]; [lia|done]).
  pose proof (bs_pos c st host Hc) as Hbs. pose proof (line_inStore c st host Hc a n Hin Hl) as Hlin. pose proof (Z.mod_pos_bound a bs) as Hmod.
  (* the block holds the line *)
  pose proof (bo_data _ _ _ _ Hbo Hv) as Hda. cbv zeta in Hda. rewrite Ha, <- Eb in Hda.
  rewrite (proj2 (Z.ltb_lt _ _)) in Hda by lia. destruct Hda as [_ Hda].
  (* the temporary packet *)
  destruct (clearLoadLocks_total (Packet.req p) a n 0 b Hr) as [lk Hlk].
  destruct (allocate_new fresh Hfresh (Packet.req p) MemCmd.WriteReq a n 0 Hr) as (tp & Htp & Ht & Et & _); [destruct Hin; lia|].
  destruct (pktOf_setData d 0 tp _ a n _ Ht) as (tp' & Htp' & Ht' & Et' & _); [lia|lia|].
  assert (E : take (Z.to_nat n) (drop (Z.to_nat 0) d) = d) by (apply take_ge; cbn; lia). rewrite E in Ht'.
  destruct (functional_write s st host tp' a n d Hs Ht' Hin) as (tq & s' & host' & Hsf & Erq & Hs' & Hwr).
  assert (Hcopy : memcpy (CacheBlk.data b) (a mod bs) d 0 n = Done (bytesAt st host' (a - a mod bs) (Z.to_nat bs))).
  { rewrite Hda. replace (a mod bs) with (a - (a - a mod bs)) at 2 by lia. rewrite <- Hlen.
    apply written_line; [done|done|lia|lia]. }
  set (d' := bytesAt st host' (a - a mod bs) (Z.to_nat bs)) in *.
  set (b3 := CacheBlk.setStatus CacheBlk.BlkDirty (CacheBlk.withData d' (CacheBlk.withLocks lk b))).
  set (tg := CacheTags.setBlk i b3 (CacheTags.setBlk i (CacheBlk.withData d' (CacheBlk.withLocks lk b)) (CacheTags.setBlk i (CacheBlk.withLocks lk b) (tags c)))).
  assert (Hch : changed i b b3 (tags c) tg).
  { split; try done. cbn. by rewrite !list_insert_insert_eq. }
  exists (Packet.withReq (Packet.req tq) p), (withTags tg c), s', host'. split; [|split; [|split; [done|split; [done|split; [|done]]]]].
  - unfold satisfyCpuSideRequest, getBlk. rewrite (proj2 (getBlk_Done _ _ _) Hb). cbn [obind].
    rewrite (getOffset_spec p _ a n d Hp) by lia. cbn [obind]. rewrite (po_size _ _ _ _ _ Hp). cbn [obind].
    rewrite (po_cmd _ _ _ _ _ Hp), Hv, (proj2 (Z.leb_le _ _) Hl).
    change (MemCmd.isRequest MemCmd.WriteReq) with true. change (MemCmd.isWrite MemCmd.WriteReq) with true.
    change (MemCmd.isWriteInvalidate MemCmd.WriteReq) with false. rewrite decide_False by done. cbn [negb andb orb].
    unfold CacheBlk.isWritable. rewrite Hw. cbn [negb]. unfold CacheBlk.checkWrite. rewrite (po_cmd _ _ _ _ _ Hp).
    change (MemCmd.isLLSC MemCmd.WriteReq) with false. rewrite Hlk. cbn [obind].
    unfold writeThrough, getBlk. cbn [setBlk withTags tags prm].
    assert (Hi : forall x tg', (i < length (CacheTags.blks tg'))%nat -> CacheTags.getBlk i (CacheTags.setBlk i x tg') = Done x).
    { intros x tg' Hi. apply getBlk_Done. by apply list_lookup_insert_eq. }
    pose proof (lookup_lt_Some _ _ _ Hb) as Hilt. rewrite Hi by done. cbn [obind].
    unfold Packet.writeDataToBlock. rewrite (getOffset_spec p _ a n d Hp) by lia. cbn [obind].
    unfold Packet.writeDataAt. rewrite (po_data _ _ _ _ _ Hp), (po_size _ _ _ _ _ Hp). cbn [obind CacheBlk.withLocks CacheBlk.data].
    rewrite Hcopy. cbn [obind]. rewrite Htp. cbn [obind]. rewrite Htp'. cbn [obind]. rewrite Hsf. cbn [obind].
    unfold updBlk, getBlk. cbn [setBlk withTags tags prm]. rewrite Hi by (cbn; by rewrite length_insert). done.
  - by apply pktOf_withReq.
  - assert (Hv3 : CacheBlk.isValid b3 = true) by (apply exclusive_bits; by apply exclusive_dirty).
    apply (cacheOK_host c st host host'); [done|apply Hwr| |done|].
    + eapply changed_same_line; [apply (ck_tags _ _ _ Hc)|done|done|]. intros _. split; [done|]. split; [done|].
      rewrite (exclusive_notSecure b Hex). symmetry. apply exclusive_notSecure. by apply exclusive_dirty.
    + rewrite (ch_blks _ _ _ _ _ Hch). eapply (blks_after_write i b b3 a d host'); try done; [by rewrite Hlen|].
      split; try done.
      * cbn. unfold d'. assert (inStore st host' (a - a mod bs) bs) as Hli by (unfold inStore; rewrite (proj1 Hwr); exact Hlin).
        rewrite (length_bytesAt _ _ _ _ Hli). done.
      * intros Hx. congruence.
      * intros _. by apply exclusive_dirty.
      * intros _. by apply (bo_master _ _ _ _ Hbo).
      * intros _. by apply (bo_tag _ _ _ _ Hbo).
      * intros _. cbv zeta. change (CacheBlk.tag b3) with (CacheBlk.tag b). change (CacheBlk.set b3) with (CacheBlk.set b). rewrite Ha, <- Eb.
        rewrite (proj2 (Z.ltb_lt _ _)) by lia. split; [|done]. unfold inStore. rewrite (proj1 Hwr). exact Hlin.
Qed.

End satisfy.
End CacheCorrect.
