(* ===== verification/CacheFill.v ===== *)
(** * Fills and writebacks

    Replacing a block and filling it with a line keeps the invariant of the
    cache; the writebacks write what the memory holds already. *)

From Stdlib Require Import ZArith Lia.
From stdpp Require Import base gmap numbers list.
From S2P Require Import Prelude Bits AddrRange MemCmd Request Packet AbstractMem MemoryCorrect SimpleMem CacheBlk CacheTags CacheTagsCorrect CacheTagsInv MSHR MSHRQueue PacketQueue ClockedObject Cache CacheMemory CacheCorrect.

#[local] Open Scope Z_scope.
#[local] Open Scope outcome_scope.

Module CacheFill.
Import Cache CacheMemory CacheTagsCorrect CacheTagsInv CacheCorrect.

(** ** Steps of the tag store *)

Lemma cacheOK_stepped c st host i b b' place tg : cacheOK c st host -> (place = toHead i \/ place = toTail i) ->
  stepped i b b' place (tags c) tg -> CacheBlk.set b' = CacheBlk.set b ->
  (CacheBlk.isValid b' = true -> holds (CacheBlk.tag b') (CacheBlk.isSecure b') b) ->
  blkOK (CacheTags.geo (tags c)) st host b' -> cacheOK (withTags tg c) st host.
Proof.
  intros Hc Hp Hs Es Hl Hb. pose proof (ck_tags _ _ _ Hc) as Ht. apply (cacheOK_tags c); [done| |apply Hs|].
  - eapply stepped_invariant; try done. eapply same_line_unique; try done. apply Hs.
  - intros k x. rewrite (st_blks _ _ _ _ _ _ Hs), list_lookup_insert_Some.
    intros [(-> & -> & _)|(_ & Hk)]; [done|by apply (ck_blks _ _ _ Hc k)].
Qed.

Lemma cacheOK_changed c st host i b b' tg : cacheOK c st host -> changed i b b' (tags c) tg -> CacheBlk.set b' = CacheBlk.set b ->
  (CacheBlk.isValid b' = true -> forall k bk, CacheTags.blks (tags c) !! k = Some bk -> k <> i ->
     holds (CacheBlk.tag b') (CacheBlk.isSecure b') bk -> CacheBlk.set bk <> CacheBlk.set b) ->
  blkOK (CacheTags.geo (tags c)) st host b' -> cacheOK (withTags tg c) st host.
Proof.
  intros Hc Hs Es Hl Hb. pose proof (ck_tags _ _ _ Hc) as Ht. apply (cacheOK_tags c); [done| |apply Hs|].
  - by eapply changed_ok.
  - intros k x. rewrite (ch_blks _ _ _ _ _ Hs), list_lookup_insert_Some.
    intros [(-> & -> & _)|(_ & Hk)]; [done|by apply (ck_blks _ _ _ Hc k)].
Qed.

Lemma blkOK_invalid g st host b : Z.of_nat (length (CacheBlk.data b)) = CacheTags.blkSize g -> CacheBlk.status b = 0 -> blkOK g st host b.
Proof.
  intros Hl Hs. assert (E : CacheBlk.isValid b = false) by (unfold CacheBlk.isValid; by rewrite Hs).
  split; try done; intros Hv; rewrite Hv in E; discriminate.
Qed.

(** The block of a line stays where it is. *)
Lemma lineAt_changed i b b' c c' a sec k : changed i b b' c c' -> CacheBlk.set b' = CacheBlk.set b -> CacheBlk.tag b' = CacheBlk.tag b ->
  CacheBlk.isValid b' = CacheBlk.isValid b -> CacheBlk.isSecure b' = CacheBlk.isSecure b -> lineAt c' a sec k -> lineAt c a sec k.
Proof.
  intros [G S A B] E1 E2 E3 E4 (x & Hx & Hs & Hv & Ht & Hse). rewrite B, list_lookup_insert_Some in Hx. rewrite G in *.
  destruct Hx as [(-> & -> & _)|(_ & Hx)]; [exists b|exists x; by repeat split]. repeat split; congruence.
Qed.

(** ** Writebacks *)

(** A packet that writes back a line of the store as it is there. *)
Record wbOf (st : Z) (host : buffer) (n : Z) (w : Packet.t) (a : Z) : Prop := {
  wb_pkt : pktOf w MemCmd.Writeback a n (bytesAt st host a (Z.to_nat n));
  wb_in : inStore st host a n;
  wb_fetch : Request.isInstFetch (Packet.req w) = false;
  wb_paddr : Request.hasPaddr (Packet.req w) = true }.

Lemma wbOf_written st host n w a b d host' : wbOf st host n w a -> written st host b d host' ->
  a + n <= b \/ b + Z.of_nat (length d) <= a -> wbOf st host' n w a.
Proof.
  intros [H1 H2 H3 H4] Hw Hd. split; try done.
  - by rewrite (written_other _ _ _ _ _ _ _ Hw H2 Hd).
  - unfold inStore in *. by rewrite (proj1 Hw).
Qed.

Lemma sendWritebacks_spec {S : Type} `{Memory S} st host n l : forall s, stores s st host -> Forall (fun w => exists a, wbOf st host n w a) l ->
  exists s', sendWritebacks l s = Done s' /\ stores s' st host.
Proof.
  induction l as [|w l IH]; intros s Hs Hl; [by exists s|]. inversion_clear Hl as [|? ? [a Ha] Hl'].
  destruct (atomic_writeback s st host w a n _ Hs (wb_pkt _ _ _ _ _ Ha) (wb_in _ _ _ _ _ Ha) (wb_fetch _ _ _ _ _ Ha) (wb_paddr _ _ _ _ _ Ha))
    as (tk & w' & s' & host' & Hsa & Hs' & Hw).
  rewrite (written_same _ _ _ _ _ (wb_in _ _ _ _ _ Ha) Hw) in Hs'. cbn [sendWritebacks]. rewrite Hsa. cbn [obind]. by apply IH.
Qed.

Section fill.
Context {S : Type} `{Memory S} (fresh : Z -> buffer) (Hfresh : forall n, 0 <= n -> Z.of_nat (length (fresh n)) = n).
Context (c : t) (st : Z) (host : buffer) (Hc : cacheOK c st host).
#[local] Notation g := (CacheTags.geo (tags c)).
#[local] Notation bs := (blkSize (prm c)).

Lemma writeback_spec now i b : CacheTags.blks (tags c) !! i = Some b -> CacheBlk.isValid b = true -> CacheBlk.isDirty b = true ->
  exists w c' b', writebackBlk fresh now (InTags i) c = Done (w, c') /\
    wbOf st host bs w (CacheTags.regenerateBlkAddr g (CacheBlk.tag b) (CacheBlk.set b)) /\
    cacheOK c' st host /\ prm c' = prm c /\ mshrQueue c' = mshrQueue c /\ changed i b b' (tags c) (tags c') /\
    CacheBlk.set b' = CacheBlk.set b /\ CacheBlk.tag b' = CacheBlk.tag b /\ exclusive (CacheBlk.status b').
Proof.
  intros Hb Hv Hd. pose proof (ck_blks _ _ _ Hc _ _ Hb) as Hbo. pose proof (bo_state _ _ _ _ Hbo Hv) as Hex.
  destruct (exclusive_bits _ Hex) as (_ & _ & Hw & Hse). pose proof (ck_size _ _ _ Hc) as Eb.
  pose proof (bo_data _ _ _ _ Hbo Hv) as Hda. cbv zeta in Hda. rewrite <- Eb in Hda.
  set (A := CacheTags.regenerateBlkAddr g (CacheBlk.tag b) (CacheBlk.set b)) in *.
  destruct (A <? patternBase); [|congruence]. destruct Hda as [Hin Hda]. pose proof (bs_pos c st host Hc) as Hbs.
  set (b' := CacheBlk.clearStatus CacheBlk.BlkDirty (CacheBlk.withSource (CacheBlk.srcMasterId b) Request.UnknownTaskId now b)).
  assert (Hex' : exclusive (CacheBlk.status b')) by by apply exclusive_clean.
  set (rq := Request.setTaskId (CacheBlk.task_id b) (Request.physical A bs 0 wbMasterId now)).
  destruct (allocate_new fresh Hfresh rq MemCmd.Writeback A bs 0) as (w & Hal & Hw0 & Hr & _); [by split|lia|].
  assert (Hcopy : memcpy (fresh bs) 0 (CacheBlk.data b) 0 bs = Done (bytesAt st host A (Z.to_nat bs))).
  { pose proof (po_len _ _ _ _ _ Hw0) as Hl. pose proof (length_bytesAt _ _ _ _ Hin) as Hl'. rewrite Hda.
    destruct (memcpy_spec (fresh bs) 0 (bytesAt st host A (Z.to_nat bs)) 0 bs) as (r & -> & Hrl & Hrv); [lia..|]. f_equal.
    apply list_eq. intros k. rewrite Hrv. case_decide; [f_equal; lia|]. rewrite !lookup_ge_None_2; [done|lia|lia]. }
  set (w0 := Packet.setFlag Packet.DYNAMIC_DATA (Packet.withData (Some (fresh bs)) (Packet.setSupplyExclusive (Packet.new rq MemCmd.Writeback)))).
  assert (Hw1 : pktOf w0 MemCmd.Writeback A bs (fresh bs)) by (split; try done; by apply Hfresh; lia).
  set (c' := withTags (CacheTags.setBlk i b' (tags c)) (withStats (hits c) (misses c) (<[wbMasterId := map_get 0 (writebacks c) wbMasterId + 1]> (writebacks c))
               (missCount c) (exitRequested c) c)).
  assert (Hch : changed i b b' (tags c) (tags c')) by by split.
  exists (Packet.withData (Some (bytesAt st host A (Z.to_nat bs))) w0), c', b'.
  split; [|split; [|split; [|split; [done|split; [done|split; [done|done]]]]]].
  - unfold writebackBlk, getBlk. rewrite (proj2 (getBlk_Done _ _ _) Hb). cbn [obind]. rewrite Hv, Hd. cbn [andb negb].
    unfold CacheBlk.isSecure, CacheBlk.isWritable. rewrite Hse, Hw. cbn [obind]. cbv zeta.
    change (prm (withStats _ _ _ _ _ _)) with (prm c). change (tags (withStats _ _ _ _ _ _)) with (tags c). fold A. fold rq.
    change (Packet.allocate fresh (Packet.setSupplyExclusive (Packet.new rq MemCmd.Writeback))) with (Done w0). cbn [obind].
    rewrite (po_data _ _ _ _ _ Hw1). cbn [obind]. rewrite Hcopy. done.
  - split; try done. apply (pktOf_withData _ _ _ _ _ _ Hw1). by apply length_bytesAt.
  - apply (cacheOK_changed (withStats (hits c) (misses c) (<[wbMasterId := map_get 0 (writebacks c) wbMasterId + 1]> (writebacks c))
               (missCount c) (exitRequested c) c) st host i b b'); [by apply (cacheOK_same c)|done|done| |].
    + intros Hv' k bk Hk Hne (Hvk & Htk & Hsk) Es. apply Hne. apply (to_unique _ (ck_tags _ _ _ Hc) k i bk b); try done.
      split; [done|]. split; [done|]. rewrite Hsk, (exclusive_notSecure b), (exclusive_notSecure b') by done. done.
    + split; try done.
      * apply Hbo.
      * intros Hx. destruct (exclusive_bits _ Hex') as (Hx' & _). unfold CacheBlk.isValid in Hx. congruence.
      * intros _. by apply (bo_master _ _ _ _ Hbo).
      * intros _. by apply (bo_tag _ _ _ _ Hbo).
      * intros _. cbv zeta. change (CacheTags.regenerateBlkAddr _ _ _) with A. change (CacheTags.blkSize _) with (CacheTags.blkSize g).
        rewrite <- Eb. destruct (A <? patternBase); [done|]. apply clean_not_dirty.
Qed.

(** What a line displaces: nothing, or a line of the store elsewhere. *)
Definition displaced (a : Z) (wbs : list Packet.t) : Prop :=
  Forall (fun w => exists a', wbOf st host bs w a' /\ a' <> a /\ a' mod bs = 0) wbs.

Lemma allocate_spec now a : 0 <= CacheTags.extractTag g a < 2 ^ (64 - CacheTags.tagShift g) -> (forall k, ~ lineAt (tags c) a false k) ->
  exists i wbs c' b', allocateBlock fresh now a c = Done (Some i, wbs, c') /\
    displaced (CacheTags.regenerateBlkAddr g (CacheTags.extractTag g a) (CacheTags.extractSet g a)) wbs /\
    cacheOK c' st host /\ prm c' = prm c /\ CacheTags.geo (tags c') = g /\
    CacheTags.blks (tags c') !! i = Some b' /\ CacheBlk.set b' = CacheTags.extractSet g a /\ forall k, ~ lineAt (tags c') a false k.
Proof.
  intros Htag Hno. assert (Hnil : forall x, displaced x []) by constructor.
  destruct (findVictim_spec a (tags c) (ck_tags _ _ _ Hc)) as (i & l & Hi & _ & b & Hb & Hset).
  unfold allocateBlock. rewrite Hi. cbn [obind]. unfold getBlk. rewrite (proj2 (getBlk_Done _ _ _) Hb). cbn [obind].
  destruct (CacheBlk.isValid b) eqn:Hv; [|by exists i, [], c, b]. unfold MSHRQueue.findMatch. rewrite (ck_queue _ _ _ Hc).
  cbn [MSHRQueue.firstOf obind]. destruct (CacheBlk.isDirty b) eqn:Hd; [|by exists i, [], c, b].
  destruct (writeback_spec now i b Hb Hv Hd) as (w & c' & b' & -> & Hw & Hok & Ep & _ & Hch & Es & Et & Hex). cbn [obind].
  pose proof (bo_state _ _ _ _ (ck_blks _ _ _ Hc _ _ Hb) Hv) as Hexb.
  exists i, [w], c', b'. split; [done|]. split; [|split; [done|split; [done|split; [apply Hch|split; [by eapply changed_at|split; [congruence|]]]]]].
  - constructor; [|done]. eexists. split; [done|]. split; [|by apply (regenerate_multiple c st host)].
    rewrite Hset. intros E. apply (Hno i). exists b. split; [done|]. split; [done|]. split; [done|].
    split; [|by apply exclusive_notSecure].
    assert (Hsr : 0 <= CacheTags.extractSet g a < CacheTags.numSets g) by (apply extractSet_range, (geo_wf c st host Hc)).
    destruct (extract_regenerate g (geo_wf c st host Hc) _ _ (bo_tag _ _ _ _ (ck_blks _ _ _ Hc _ _ Hb) Hv) Hsr) as (T & _).
    destruct (extract_regenerate g (geo_wf c st host Hc) _ _ Htag Hsr) as (T' & _). congruence.
  - intros k Hk. apply (Hno k). eapply lineAt_changed; try done.
    + rewrite Hv. by apply exclusive_bits.
    + by rewrite !exclusive_notSecure.
Qed.

End fill.

(** ** Fills *)

(** The line, in the blocks, that a fill with a pattern brings. *)
Lemma gathered_line st host a n line : inStore st host a n -> gathered st host 0 a n line -> line = bytesAt st host a (Z.to_nat n).
Proof.
  intros Hin [Hl Hv]. pose proof (gathered_plain st host a n Hin) as [Hl' Hv']. apply list_eq. intros i.
  destruct (decide (Z.of_nat i < n)); [by rewrite Hv, Hv'|]. rewrite !lookup_ge_None_2; [done|lia|lia].
Qed.

(** The status of a block that was empty, after a fill. *)
Lemma filled_status b b' : CacheBlk.status b = 0 ->
  CacheBlk.status b' = Flags.set (Flags.set (CacheBlk.status b) (Z.lor CacheBlk.BlkValid CacheBlk.BlkReadable)) CacheBlk.BlkWritable ->
  exclusive (CacheBlk.status b') /\ CacheBlk.isValid b' = true /\ CacheBlk.isDirty b' = false.
Proof. intros E E'. unfold CacheBlk.isValid, CacheBlk.isDirty. rewrite E', E. by repeat split. Qed.

Section line_fill.
Context {S : Type} `{Memory S} (fresh : Z -> buffer) (Hfresh : forall n, 0 <= n -> Z.of_nat (length (fresh n)) = n).
Context (c : t) (st : Z) (host : buffer) (Hc : cacheOK c st host).
#[local] Notation g := (CacheTags.geo (tags c)).
#[local] Notation bs := (blkSize (prm c)).
Context (a n pat : Z) (Hin : inStore st host a n) (Hl : a mod bs + n <= bs) (Hpat : 0 <= pat < 8).
Context (Hno : forall k, ~ lineAt (tags c) (cacheAddr a pat) false k).
#[local] Notation la := (a - a mod bs).

Lemma lineAt_line k : lineAt (tags c) (cacheAddr la pat) false k <-> lineAt (tags c) (cacheAddr a pat) false k.
Proof. destruct (line_same c st host Hc a n pat Hin Hl Hpat) as [E1 E2]. unfold lineAt. by rewrite E1, E2. Qed.

(** The block a fill takes: empty, with the tag of the line. *)
Lemma fillBlock_spec now bus cmd line : (cmd = MemCmd.ReadResp \/ cmd = MemCmd.ReadExResp) -> pktOf bus cmd la bs line ->
  Request.getGatherPattern (Packet.req bus) = Done pat -> Request.masterId (Packet.req bus) < maxMasters (prm c) ->
  exists i wbs c' b, fillBlock fresh now bus (cacheAddr la pat) None c = Done (InTags i, wbs, c') /\
    displaced c st host (cacheAddr la pat) wbs /\ cacheOK c' st host /\ prm c' = prm c /\ CacheTags.geo (tags c') = g /\
    CacheTags.blks (tags c') !! i = Some b /\ CacheBlk.status b = 0 /\ CacheBlk.srcMasterId b < maxMasters (prm c) /\
    CacheBlk.tag b = CacheTags.extractTag g (cacheAddr a pat) /\ CacheBlk.set b = CacheTags.extractSet g (cacheAddr a pat) /\
    forall k, ~ lineAt (tags c') (cacheAddr a pat) false k.
Proof.
  intros Hcmd Hp Hpt Hm. destruct (line_same c st host Hc a n pat Hin Hl Hpat) as [E1 E2].
  destruct (allocate_spec fresh Hfresh c st host Hc now (cacheAddr la pat)) as (i & wbs & c1 & b & Hal & Hdis & Hok & Ep & Eg & Hb & Hset & Hno1).
  { rewrite E1. by apply (line_tag c st host Hc a n pat). }
  { intros k. by rewrite lineAt_line. }
  rewrite E1, E2, (line_regenerate c st host Hc a n pat Hin Hl Hpat) in Hdis.
  pose proof (ck_blks _ _ _ Hok _ _ Hb) as Hbo. pose proof (ck_masters _ _ _ Hok) as Emx. rewrite Ep in Emx.
  assert (Hca : Packet.getCacheAddr bus = Done (cacheAddr la pat)).
  { destruct (line_inStore c st host Hc a n Hin Hl) as (_ & ? & ?), (ck_start _ _ _ Hc), (ck_end _ _ _ Hc).
    eapply getCacheAddr_spec; try done. pose proof (bs_pos c st host Hc). lia. }
  destruct (insertBlock_spec now bus i (tags c1) b (cacheAddr la pat) (ck_tags _ _ _ Hok) Hca Hb) as (tg & b' & Hins & Hst & Hi).
  { by rewrite Eg. } { apply Hbo. } { rewrite <- Emx. exact Hm. }
  pose proof (inserted_invalid _ _ _ _ Hi) as Hinv. destruct Hi as [I1 I2 I3 I4 _ _ I7]. rewrite Eg in *.
  assert (Hs0 : CacheBlk.status b' = 0).
  { rewrite I3. destruct (CacheBlk.isValid b) eqn:Hv; [done|]. by apply (bo_invalid _ _ _ _ Hbo). }
  assert (Hb' : CacheTags.blks tg !! i = Some b').
  { rewrite (st_blks _ _ _ _ _ _ Hst). apply list_lookup_insert_eq. by apply lookup_lt_Some in Hb. }
  exists i, wbs, (withTags tg c1), b'. split; [|split; [done|split; [|split; [done|split; [cbn; by rewrite (st_geo _ _ _ _ _ _ Hst)|split; [done|]]]]]].
  - unfold fillBlock. rewrite (po_cmd _ _ _ _ _ Hp). replace (MemCmd.hasData cmd) with true by (by destruct Hcmd as [-> | ->]).
    replace (MemCmd.isRead cmd) with true by (by destruct Hcmd as [-> | ->]). cbn [negb orb]. rewrite Hal. cbn [obind]. rewrite Hins. cbn [obind].
    unfold getBlk. cbn [tags withTags]. rewrite (proj2 (getBlk_Done _ _ _) Hb'). cbn [obind]. by rewrite Hinv.
  - eapply (cacheOK_stepped c1); try done; [by left|congruence|]. apply blkOK_invalid; [|done]. rewrite I4, Eg. apply Hbo.
  - split; [done|]. split; [lia|]. split; [congruence|]. split; [congruence|].
    intros k (x & Hx & Hsx & Hvx & Htx & Hsex). cbn in *. rewrite (st_geo _ _ _ _ _ _ Hst), Eg in *.
    rewrite (st_blks _ _ _ _ _ _ Hst), list_lookup_insert_Some in Hx. destruct Hx as [(-> & <- & _)|(_ & Hx)]; [congruence|].
    apply (Hno1 k). exists x. rewrite Eg. repeat split; congruence.
Qed.

Lemma fill_spec now bus cmd line : (cmd = MemCmd.ReadResp \/ cmd = MemCmd.ReadExResp) -> pktOf bus cmd la bs line ->
  Request.getGatherPattern (Packet.req bus) = Done pat -> Request.masterId (Packet.req bus) < maxMasters (prm c) ->
  gathered st host pat la bs line -> Packet.sharedAsserted bus = false ->
  exists i wbs c' b, handleFill fresh now bus None c = Done (InTags i, wbs, c') /\ displaced c st host (cacheAddr la pat) wbs /\
    cacheOK c' st host /\ prm c' = prm c /\ CacheTags.geo (tags c') = g /\ CacheTags.blks (tags c') !! i = Some b /\ CacheBlk.isValid b = true /\
    CacheTags.regenerateBlkAddr g (CacheBlk.tag b) (CacheBlk.set b) = cacheAddr la pat.
Proof.
  intros Hcmd Hp Hpt Hm Hga Hsh.
  destruct (fillBlock_spec now bus cmd line Hcmd Hp Hpt Hm) as (i & wbs & c1 & b & Hf & Hdis & Hok & Ep & Eg & Hb & Hs0 & Hmb & Htb & Hsb & Hno1).
  pose proof (line_inStore c st host Hc a n Hin Hl) as Hlin. pose proof (bs_pos c st host Hc) as Hbs.
  assert (Hla : 0 <= la < patternBase) by (destruct Hlin as (_ & ? & ?), (ck_start _ _ _ Hc), (ck_end _ _ _ Hc); lia).
  pose proof (line_regenerate c st host Hc a n pat Hin Hl Hpat) as Hreg.
  pose proof (ck_blks _ _ _ Hok _ _ Hb) as Hbo. pose proof (bo_len _ _ _ _ Hbo) as Hlen. rewrite Eg, <- (ck_size _ _ _ Hc) in Hlen.
  assert (Hcopy : memcpy (CacheBlk.data b) 0 line 0 bs = Done line).
  { pose proof (po_len _ _ _ _ _ Hp) as Hll. destruct (memcpy_spec (CacheBlk.data b) 0 line 0 bs) as (r & -> & Hrl & Hrv); [lia..|]. f_equal.
    apply list_eq. intros k. rewrite Hrv. case_decide; [f_equal; lia|]. rewrite !lookup_ge_None_2; [done|lia|lia]. }
  unfold handleFill. rewrite (po_cmd _ _ _ _ _ Hp), (getCacheAddr_spec bus cmd la bs line pat Hp Hpt Hla Hpat), (po_secure _ _ _ _ _ Hp).
  replace (MemCmd.isResponse cmd) with true by (by destruct Hcmd as [-> | ->]). replace (MemCmd.isRead cmd) with true by (by destruct Hcmd as [-> | ->]).
  replace (MemCmd.hasData cmd) with true by (by destruct Hcmd as [-> | ->]). cbn [orb negb obind]. rewrite Hf. cbn [obind].
  unfold getBlk. rewrite (proj2 (getBlk_Done _ _ _) Hb). cbn [obind]. rewrite Hsh, (po_inhibit _ _ _ _ _ Hp), (po_data _ _ _ _ _ Hp), Ep. cbn [obind].
  cbn [CacheBlk.setStatus CacheBlk.withStatus CacheBlk.data]. rewrite Hcopy. cbn [obind].
  destruct (ClockedObject.clockEdge _ _ _ _) as [edge clk].
  match goal with |- context [setBlk (InTags i) ?x _] => set (b' := x) end.
  destruct (filled_status b b' Hs0 eq_refl) as (Hex & Hv & Hd).
  exists i, wbs, (setBlk (InTags i) b' (withClock clk c1)), b'. split; [done|]. split; [done|].
  assert (Hch : changed i b b' (tags c1) (CacheTags.setBlk i b' (tags c1))) by by split.
  assert (Hrg : CacheTags.regenerateBlkAddr g (CacheBlk.tag b') (CacheBlk.set b') = cacheAddr la pat).
  { change (CacheBlk.tag b') with (CacheBlk.tag b). change (CacheBlk.set b') with (CacheBlk.set b). by rewrite Htb, Hsb. }
  split; [|split; [done|split; [done|split; [by apply (changed_at _ _ _ _ _ Hch)|by split]]]].
  apply (cacheOK_changed (withClock clk c1) st host i b b'); [by apply (cacheOK_same c1)|done|done| |].
  - intros _ k bk Hk Hne Hh Es. apply (Hno1 k). exists bk. rewrite Eg. split; [done|]. split; [congruence|].
    rewrite <- Htb, <- (exclusive_notSecure b' Hex). exact Hh.
  - change (CacheTags.geo (tags (withClock clk c1))) with (CacheTags.geo (tags c1)). rewrite Eg. split; try done.
    + change (CacheBlk.data b') with line. rewrite (proj1 Hga). apply Hc.
    + intros Hx. congruence.
    + intros _. change (CacheBlk.srcMasterId b') with (CacheBlk.srcMasterId b). by rewrite <- (ck_masters _ _ _ Hc).
    + intros _. change (CacheBlk.tag b') with (CacheBlk.tag b). rewrite Htb. by apply (line_tag c st host Hc a n pat).
    + intros _. cbv zeta. rewrite Hrg. unfold cacheAddr. destruct (Z.ltb_spec (la + pat * patternBase) patternBase) as [Hlt|]; [|done].
      assert (pat = 0) as -> by (unfold patternBase in *; lia). rewrite Z.mul_0_l, Z.add_0_r, <- (ck_size _ _ _ Hc). split; [done|].
      by apply gathered_line.
Qed.

End line_fill.
End CacheFill.
