(* ===== verification/CacheTransparent.v ===== *)
(** * The cache serves reads and writes as the memory would

    Atomic reads, gather reads and writes through [recvAtomic], hits and
    misses, replacements and writebacks, above any memory side that keeps the
    promises of [Memory]. *)

From Stdlib Require Import ZArith Lia.
From stdpp Require Import base gmap numbers list.
From S2P Require Import Prelude Bits AddrRange MemCmd Request Packet AbstractMem MemoryCorrect SimpleMem CacheBlk CacheTags CacheTagsCorrect CacheTagsInv MSHR MSHRQueue PacketQueue ClockedObject Cache CacheMemory CacheCorrect CacheFill.

#[local] Open Scope Z_scope.
#[local] Open Scope outcome_scope.

Module CacheTransparent.
Import Cache CacheMemory CacheTagsCorrect CacheTagsInv CacheCorrect CacheFill.

(** ** Requests of a processor *)

(** A packet for a read or a write inside a line. *)
Record asks (c : t) (st : Z) (host : buffer) (p : Packet.t) (cmd : MemCmd.Command) (a n pat : Z) (d : buffer) : Prop := {
  as_pkt : pktOf p cmd a n d;
  as_req : reqFor (Packet.req p) a n pat;
  as_pat : 0 <= pat < 8;
  as_aligned : aligned (Packet.req p) a n;
  as_master : Request.masterId (Packet.req p) < maxMasters (prm c);
  as_in : inStore st host a n;
  as_line : a mod blkSize (prm c) + n <= blkSize (prm c);
  as_gather : Request.isGather (Packet.req p) = true -> 8 <= blkSize (prm c) }.

Lemma asks_same c c' st host p p' cmd a n pat d : asks c st host p cmd a n pat d -> prm c' = prm c ->
  p' = p \/ p' = Packet.withReq (Request.incAccessDepth (Packet.req p)) p -> asks c' st host p' cmd a n pat d.
Proof.
  intros [H1 H2 H3 H4 H5 H6 H7 H8] Ep [-> | ->]; split; rewrite ?Ep; try done; [by apply pktOf_withReq|by apply reqFor_depth].
Qed.

(** What a read answers and what a write leaves. *)
Definition effect (st : Z) (host : buffer) (cmd : MemCmd.Command) (a n pat : Z) (d res host' : buffer) : Prop :=
  match cmd with
  | MemCmd.ReadReq => gathered st host pat a n res /\ host' = host
  | MemCmd.WriteReq => pat = 0 /\ res = d /\ written st host a d host'
  | _ => False
  end.

Section ask.
Context {S : Type} `{Memory S} (fresh : Z -> buffer) (Hfresh : forall n, 0 <= n -> Z.of_nat (length (fresh n)) = n).

Section one.
Context (c : t) (st : Z) (host : buffer) (Hc : cacheOK c st host).
#[local] Notation g := (CacheTags.geo (tags c)).
#[local] Notation bs := (blkSize (prm c)).
Context (p : Packet.t) (cmd : MemCmd.Command) (a n pat : Z) (d : buffer) (Hask : asks c st host p cmd a n pat d).
Context (Hcmd : cmd = MemCmd.ReadReq \/ cmd = MemCmd.WriteReq).

Lemma ask_cacheAddr : Packet.getCacheAddr p = Done (cacheAddr a pat).
Proof.
  destruct Hask as [H1 H2 H3 H4 H5 H6 H7 H8]. eapply getCacheAddr_spec; [done|apply H2| |done].
  by destruct (addr_bounds c st host Hc a n pat H6 H7 H3).
Qed.

(** The lookup: the block of the line, now the most recent, or a miss. *)
Lemma lookup_spec now : exists r lat tg, CacheTags.accessBlock now (cacheAddr a pat) false (tags c) = Done (r, lat, tg) /\
  cacheOK (withTags tg c) st host /\ CacheTags.geo tg = g /\
  match r with
  | Some k => exists b, CacheTags.blks tg !! k = Some b /\ CacheBlk.isValid b = true /\
      CacheTags.regenerateBlkAddr g (CacheBlk.tag b) (CacheBlk.set b) = cacheAddr (a - a mod bs) pat
  | None => forall k, ~ lineAt tg (cacheAddr a pat) false k
  end.
Proof.
  destruct Hask as [H1 H2 H3 H4 H5 H6 H7 H8].
  destruct (accessBlock_spec now (cacheAddr a pat) false (tags c) (ck_tags _ _ _ Hc)) as (r & lat & tg & -> & Hr & Hs).
  exists r, lat, tg. split; [done|]. destruct r as [k|].
  - destruct Hs as [b Hs]. destruct (proj1 (Hr k) eq_refl) as (b' & Hb' & Eset & Hv & Etag & Hsec).
    rewrite (st_at _ _ _ _ _ _ Hs) in Hb'. injection Hb' as <-. split; [|split; [apply Hs|]].
    + eapply (cacheOK_stepped c); [done|by left|done|done|by repeat split|].
      by apply (blkOK_same _ _ _ b); [apply (ck_blks _ _ _ Hc k), Hs|..].
    + eexists. split; [rewrite (st_blks _ _ _ _ _ _ Hs); apply list_lookup_insert_eq; by eapply lookup_lt_Some, st_at|].
      split; [done|]. cbn [CacheBlk.withRefs CacheBlk.tag CacheBlk.set]. rewrite Etag, Eset. by apply (line_regenerate c st host Hc a n pat).
  - destruct Hs as (Eg & Es & Eb). split; [|split; [done|]].
    + apply (cacheOK_tags c); [done| |done|by rewrite Eb; apply (ck_blks _ _ _ Hc)].
      destruct (ck_tags _ _ _ Hc) as [T1 T2 T3 T4 T5 T6]. by split; unfold ways; rewrite ?Eg, ?Es, ?Eb.
    + intros k (x & Hx & Hk). rewrite Eg, Eb in *. assert (X : None = Some k) by (apply Hr; by exists x). discriminate.
Qed.

(** The line packet and its answer. *)
Lemma bus_spec s : stores s st host -> exists bus tk bus' s' line,
  getBusPacket fresh p None (MemCmd.needsExclusive cmd) c = Done (Some bus) /\ sendAtomic bus s = Done (tk, bus', s') /\
  stores s' st host /\ pktOf bus' (MemCmd.responseCommand (if MemCmd.needsExclusive cmd then MemCmd.ReadExReq else MemCmd.ReadReq)) (a - a mod bs) bs line /\
  gathered st host pat (a - a mod bs) bs line /\ Packet.req bus' = Packet.req p /\ Packet.sharedAsserted bus' = false.
Proof.
  intros Hs. destruct Hask as [H1 H2 H3 H4 H5 H6 H7 H8]. pose proof (bs_pos c st host Hc) as Hbs.
  set (bcmd := if MemCmd.needsExclusive cmd then MemCmd.ReadExReq else MemCmd.ReadReq).
  destruct (allocate_newBlock fresh Hfresh (Packet.req p) bcmd a n pat bs H2) as (bus & Hal & Hb & Er & Hsh); [lia|].
  rewrite (line_addr c st host Hc a) in Hb by (destruct (addr_bounds c st host Hc a n 0 H6 H7) as (? & _); [lia|unfold u64, patternBase in *; lia]).
  pose proof (line_inStore c st host Hc a n H6 H7) as Hlin.
  destruct (atomic_read s st host bus bcmd (a - a mod bs) bs (fresh bs) pat Hs) as (tk & bus' & s' & line & Hsa & Hb' & Hg & Er' & Hsh' & Hs');
    [destruct Hcmd as [-> | ->]; [by left|by right]|done|done|rewrite Er; apply H2| |].
  { rewrite Er. intros Hga. specialize (H8 Hga). destruct (bs_pow c st host Hc) as [E2 Hsf]. pose proof (line_multiple c st host Hc a) as Hm.
    assert (bs mod 8 = 0).
    { rewrite E2 in *. assert (3 <= CacheTags.setShift g) by (apply (Z.pow_le_mono_r_iff 2); lia).
      replace (CacheTags.setShift g) with ((CacheTags.setShift g - 3) + 3) by lia. rewrite Z.pow_add_r by lia. apply Z.mod_mul. done. }
    split; [|done]. apply Z.mod_divide in Hm as [q ->]; [|lia]. by rewrite Z.mul_mod, H9, Z.mul_0_r by done. }
  exists bus, tk, bus', s', line. split; [|by rewrite Er', Er, Hsh', Hsh].
  unfold getBusPacket. rewrite (rf_cached _ _ _ _ H2), (po_cmd _ _ _ _ _ H1).
  replace (bool_decide (cmd = MemCmd.Writeback)) with false by (by destruct Hcmd as [-> | ->]).
  replace (bool_decide (cmd = MemCmd.SCUpgradeFailReq)) with false by (by destruct Hcmd as [-> | ->]).
  replace (bool_decide (cmd = MemCmd.StoreCondFailReq)) with false by (by destruct Hcmd as [-> | ->]).
  replace (MemCmd.isUpgrade cmd) with false by (by destruct Hcmd as [-> | ->]). replace (MemCmd.needsResponse cmd) with true by (by destruct Hcmd as [-> | ->]).
  replace (MemCmd.isWriteInvalidate cmd) with false by (by destruct Hcmd as [-> | ->]). cbn [negb andb orb obind]. fold bcmd. by rewrite Hal.
Qed.

End one.
(** A request is satisfied from the block of its line. *)
Lemma satisfy_spec c st host p cmd a n pat d now s i b : cacheOK c st host -> asks c st host p cmd a n pat d ->
  cmd = MemCmd.ReadReq \/ cmd = MemCmd.WriteReq /\ pat = 0 -> stores s st host ->
  CacheTags.blks (tags c) !! i = Some b -> CacheBlk.isValid b = true ->
  CacheTags.regenerateBlkAddr (CacheTags.geo (tags c)) (CacheBlk.tag b) (CacheBlk.set b) = cacheAddr (a - a mod blkSize (prm c)) pat ->
  exists p' c' s' res host', satisfyCpuSideRequest fresh now p (InTags i) false false c s = Done (p', c', s') /\
    pktOf p' cmd a n res /\ effect st host cmd a n pat d res host' /\ stores s' st host' /\ cacheOK c' st host' /\ prm c' = prm c.
Proof.
  intros Hc [H1 H2 H3 H4 H5 H6 H7 H8] Hcmd Hs Hb Hv Hreg. destruct Hcmd as [-> | [-> ->]].
  - destruct (satisfy_read fresh Hfresh c st host Hc now p a n d pat s i b) as (p' & s' & res & -> & Hp' & Hg & Hs'); try done.
    exists p', c, s', res, host. split; [done|]. split; [done|]. by split.
  - unfold cacheAddr in Hreg. rewrite Z.mul_0_l, Z.add_0_r in Hreg.
    destruct (satisfy_write fresh Hfresh c st host Hc now p a n d s i b) as (p' & c' & s' & host' & -> & Hp' & Hs' & Hw & Hc' & Ep); try done.
    exists p', c', s', d, host'. split; [done|]. split; [done|]. by split.
Qed.

(** The writebacks leave the memory as the request left it. *)
Lemma displaced_after c st host p cmd a n pat d res host' wbs : cacheOK c st host -> asks c st host p cmd a n pat d ->
  effect st host cmd a n pat d res host' -> displaced c st host (cacheAddr (a - a mod blkSize (prm c)) pat) wbs ->
  Forall (fun w => exists a', wbOf st host' (blkSize (prm c)) w a') wbs.
Proof.
  intros Hc Ha He Hd. eapply Forall_impl; [exact Hd|]. intros w (a' & Hw & Hne & Hm). exists a'.
  destruct cmd; try done; cbn in He.
  - by destruct He as [_ ->].
  - destruct He as (-> & _ & Hwr). unfold cacheAddr in Hne. rewrite Z.mul_0_l, Z.add_0_r in Hne.
    pose proof (as_line _ _ _ _ _ _ _ _ _ Ha) as Hl. pose proof (po_len _ _ _ _ _ (as_pkt _ _ _ _ _ _ _ _ _ Ha)) as Hlen.
    pose proof (bs_pos c st host Hc) as Hbs. pose proof (Z.mod_pos_bound a (blkSize (prm c)) ltac:(lia)) as Hmod.
    eapply wbOf_written; [done|done|].
    destruct (multiples_apart (blkSize (prm c)) a' _ ltac:(lia) Hm (line_multiple c st host Hc a)) as [|[|]]; [done|left|right]; lia.
Qed.

(** The access: a hit is satisfied, a miss leaves no block of the line. *)
Lemma access_spec c st host p cmd a n pat d now s : cacheOK c st host -> asks c st host p cmd a n pat d ->
  cmd = MemCmd.ReadReq \/ cmd = MemCmd.WriteReq /\ pat = 0 -> stores s st host ->
  (exists p' i lat c' s' res host', access fresh now p c s = Done (true, p', Some i, lat, [], c', s') /\ prm c' = prm c /\
     pktOf p' cmd a n res /\ effect st host cmd a n pat d res host' /\ stores s' st host' /\ cacheOK c' st host') \/
  (exists p' lat c', access fresh now p c s = Done (false, p', None, lat, [], c', s) /\ cacheOK c' st host /\ prm c' = prm c /\
     asks c' st host p' cmd a n pat d /\ forall k, ~ lineAt (tags c') (cacheAddr a pat) false k).
Proof.
  intros Hc Ha Hcmd Hs. pose proof Ha as [H1 H2 H3 H4 H5 H6 H7 H8].
  assert (Hcmd' : cmd = MemCmd.ReadReq \/ cmd = MemCmd.WriteReq) by tauto.
  destruct (lookup_spec c st host Hc p cmd a n pat d Ha now) as (r & lat & tg & Hacc & Hok & Eg & Hr).
  assert (Hreqc : MemCmd.isRequest cmd = true /\ MemCmd.isLLSC cmd = false) by (by destruct Hcmd' as [-> | ->]).
  assert (Hnw : cmd <> MemCmd.Writeback) by (by destruct Hcmd' as [-> | ->]). destruct Hreqc as [Hrq Hll].
  unfold access. rewrite (po_cmd _ _ _ _ _ H1), Hrq, (rf_cached _ _ _ _ H2), (ask_cacheAddr c st host Hc p cmd a n pat d Ha), (po_secure _ _ _ _ _ H1).
  cbn [negb obind]. rewrite Hacc. cbn [obind]. rewrite decide_False by done.
  destruct r as [i|]; [left|right].
  - destruct Hr as (b & Hb & Hv & Hreg). unfold getBlk at 1. cbn [tags withTags]. rewrite (proj2 (getBlk_Done _ _ _) Hb). cbn [obind].
    assert (Hhit : (if MemCmd.needsExclusive cmd then CacheBlk.isWritable b else CacheBlk.isReadable b) = true).
    { destruct (exclusive_bits _ (bo_state _ _ _ _ (ck_blks _ _ _ Hok _ _ Hb) Hv)) as (_ & ? & ? & _). by destruct (MemCmd.needsExclusive cmd). }
    rewrite Hhit. unfold incHitCount. cbn [prm withTags]. rewrite (proj2 (Z.ltb_lt _ _) H5). cbn [obind].
    match goal with |- context [satisfyCpuSideRequest fresh now p (InTags i) false false ?x s] => set (c1 := x) end.
    destruct (satisfy_spec c1 st host p cmd a n pat d now s i b) as (p' & c' & s' & res & host' & -> & Hp' & He & Hs' & Hc' & Ep); try done.
    + by apply (cacheOK_same (withTags tg c)).
    + change (tags c1) with tg. change (prm c1) with (prm c). by rewrite Eg.
    + cbn [obind]. by exists p', i, lat, c', s', res, host'.
  - cbn [obind]. unfold incMissCount. cbn [prm withTags]. rewrite (proj2 (Z.ltb_lt _ _) H5). cbn [obind].
    cbn [Packet.withReq Packet.cmd]. rewrite (po_cmd _ _ _ _ _ H1), Hll. cbn [andb].
    eexists _, lat, _. split; [done|]. split; [by apply (cacheOK_same (withTags tg c))|]. split; [done|]. split; [|done].
    eapply (asks_same c _ st host p); [done|done|by right].
Qed.

(** The miss: the line is brought in, and the request satisfied from it. *)
Lemma miss_spec c st host p cmd a n pat d now s lat : cacheOK c st host -> asks c st host p cmd a n pat d ->
  cmd = MemCmd.ReadReq \/ cmd = MemCmd.WriteReq /\ pat = 0 -> stores s st host -> (forall k, ~ lineAt (tags c) (cacheAddr a pat) false k) ->
  exists p' lat' wbs c' s' res host', atomicMiss fresh now p None lat [] c s = Done (p', lat', wbs, c', s') /\
    pktOf p' cmd a n res /\ effect st host cmd a n pat d res host' /\ stores s' st host' /\ cacheOK c' st host' /\ prm c' = prm c /\
    Forall (fun w => exists a', wbOf st host' (blkSize (prm c)) w a') wbs.
Proof.
  intros Hc Ha Hcmd Hs Hno. assert (Hcmd' : cmd = MemCmd.ReadReq \/ cmd = MemCmd.WriteReq) by tauto. pose proof Ha as [H1 H2 H3 H4 H5 H6 H7 H8].
  destruct (bus_spec c st host Hc p cmd a n pat d Ha Hcmd' s Hs) as (bus & tk & bus' & s1 & line & Hbus & Hsa & Hs1 & Hb' & Hg & Er & Hsh).
  set (bcmd := MemCmd.responseCommand (if MemCmd.needsExclusive cmd then MemCmd.ReadExReq else MemCmd.ReadReq)) in *.
  assert (Hbc : bcmd = MemCmd.ReadResp \/ bcmd = MemCmd.ReadExResp) by (destruct Hcmd' as [-> | ->]; [by left|by right]).
  destruct (fill_spec fresh Hfresh c st host Hc a n pat H6 H7 H3 Hno now bus' bcmd line Hbc Hb') as
    (i & wbs & c1 & b & Hfill & Hdis & Hc1 & Ep1 & Eg1 & Hb & Hv & Hreg); [rewrite Er; apply H2|by rewrite Er|done|done|].
  assert (Hp1 : Packet.withReq (Packet.req bus') p = p) by (rewrite Er; by destruct p).
  destruct (satisfy_spec c1 st host p cmd a n pat d now s1 i b) as (p' & c' & s' & res & host' & Hsat & Hp' & He & Hs' & Hc' & Ep); try done.
  { by apply (asks_same c c1 st host p p); [done|done|left]. }
  { by rewrite Eg1, Ep1. }
  exists p', (lat + ticksToCycles c' tk), wbs, c', s', res, host'.
  split; [|split; [done|split; [done|split; [done|split; [done|split; [congruence|by eapply displaced_after]]]]]].
  unfold atomicMiss. cbn [obind]. rewrite (po_cmd _ _ _ _ _ H1), Hbus. cbn [obind]. rewrite Hsa. cbn [obind]. rewrite Hp1.
  unfold busResponse. rewrite (po_cmd _ _ _ _ _ H1), (po_cmd _ _ _ _ _ Hb').
  replace (MemCmd.needsResponse cmd) with true by (by destruct Hcmd' as [-> | ->]). replace (MemCmd.isWriteInvalidate cmd) with false by (by destruct Hcmd' as [-> | ->]).
  replace (MemCmd.isResponse bcmd) with true by (by destruct Hbc as [-> | ->]). replace (MemCmd.isError bcmd) with false by (by destruct Hbc as [-> | ->]).
  replace (MemCmd.isRead bcmd) with true by (by destruct Hbc as [-> | ->]). cbn [negb orb fmap option_fmap option_map].
  rewrite Hfill. cbn [obind]. rewrite Hsat. done.
Qed.

(** One request through the cache. *)
Lemma atomic_spec c st host p cmd a n pat d now s : cacheOK c st host -> asks c st host p cmd a n pat d ->
  cmd = MemCmd.ReadReq \/ cmd = MemCmd.WriteReq /\ pat = 0 /\ (doFastWrites (prm c) = false \/ n < blkSize (prm c)) -> stores s st host ->
  exists lat p' c' s' res host', recvAtomic fresh now p c s = Done (lat, p', c', s') /\ prm c' = prm c /\
    pktOf p' (MemCmd.responseCommand cmd) a n res /\ effect st host cmd a n pat d res host' /\ stores s' st host' /\ cacheOK c' st host'.
Proof.
  intros Hc Ha Hcmd Hs. assert (Hcmd' : cmd = MemCmd.ReadReq \/ cmd = MemCmd.WriteReq /\ pat = 0) by tauto.
  assert (Hnr : MemCmd.needsResponse cmd = true) by (by destruct Hcmd' as [-> | [-> _]]).
  pose proof (as_pkt _ _ _ _ _ _ _ _ _ Ha) as Hp.
  assert (Hpr : promoteWholeLineWrites p c = Done p).
  { unfold promoteWholeLineWrites. rewrite (po_cmd _ _ _ _ _ Hp), (po_size _ _ _ _ _ Hp). destruct Hcmd as [-> | (-> & _ & [-> | Hn])]; cbn [andb]; [|done|].
    - by rewrite andb_false_r.
    - destruct (doFastWrites (prm c)); [|done]. cbn [andb obind]. rewrite (proj2 (Z.eqb_neq _ _)) by lia. done. }
  unfold recvAtomic. rewrite (ck_bypass _ _ _ Hc), Hpr. cbn [obind]. rewrite (po_inhibit _ _ _ _ _ Hp).
  destruct (access_spec c st host p cmd a n pat d now s Hc Ha Hcmd' Hs) as
    [(p' & i & lat & c' & s' & res & host' & -> & Ep & Hp' & He & Hs' & Hc')|(p1 & lat & c1 & -> & Hc1 & Ep1 & Ha1 & Hno)]; cbn [obind].
  - cbn [sendWritebacks obind]. rewrite (po_cmd _ _ _ _ _ Hp'), Hnr.
    destruct (pktOf_response p' cmd a n res Hp' Hnr) as (p2 & -> & Hp2 & _). cbn [obind]. by eexists _, p2, c', s', res, host'.
  - destruct (miss_spec c1 st host p1 cmd a n pat d now s lat Hc1 Ha1 Hcmd' Hs Hno) as
      (p' & lat' & wbs & c' & s' & res & host' & -> & Hp' & He & Hs' & Hc' & Ep & Hwb). cbn [obind].
    destruct (sendWritebacks_spec st host' _ wbs s' Hs' Hwb) as (s2 & -> & Hs2). cbn [obind].
    rewrite (po_cmd _ _ _ _ _ Hp'), Hnr. destruct (pktOf_response p' cmd a n res Hp' Hnr) as (p2 & -> & Hp2 & _). cbn [obind].
    exists (lat' * clockPeriod (prm c')), p2, c', s2, res, host'. split; [done|]. split; [congruence|done].
Qed.

(** ** Sequences of requests *)

Fixpoint recvAll (l : list (Z * Packet.t)) (c : t) (s : S) : outcome (list Packet.t * t * S) :=
  match l with
  | [] => Done ([], c, s)
  | (now, p) :: l =>
      let! (_, p, c, s) := recvAtomic fresh now p c s in
      let! (r, c, s) := recvAll l c s in
      Done (p :: r, c, s)
  end.

(** The requests that are served: reads of lines with any pattern, and writes
    without one, each inside a line. *)
Definition served (c : t) (st : Z) (host : buffer) (x : Z * Packet.t) : Prop :=
  exists cmd a n pat d, asks c st host x.2 cmd a n pat d /\
    (cmd = MemCmd.ReadReq \/ cmd = MemCmd.WriteReq /\ pat = 0 /\ (doFastWrites (prm c) = false \/ n < blkSize (prm c))).

(** The memory on its own: each response has the bytes that are stored, and
    the writes change them in turn. *)
Inductive memoryRun (st : Z) : buffer -> list (Z * Packet.t) -> list Packet.t -> buffer -> Prop :=
| run_nil host : memoryRun st host [] [] host
| run_cons host host1 host2 now p p' l l' cmd a n pat d res : pktOf p cmd a n d -> Request.getGatherPattern (Packet.req p) = Done pat ->
    pktOf p' (MemCmd.responseCommand cmd) a n res -> effect st host cmd a n pat d res host1 -> memoryRun st host1 l l' host2 ->
    memoryRun st host ((now, p) :: l) (p' :: l') host2.

Lemma effect_length st host cmd a n pat d res host' : effect st host cmd a n pat d res host' -> length host' = length host.
Proof. destruct cmd; try done; [by intros [_ ->]|by intros (_ & _ & Hw & _)]. Qed.

Lemma served_same c c' st host host' x : prm c' = prm c -> length host' = length host -> served c st host x -> served c' st host' x.
Proof.
  intros Ep El (cmd & a & n & pat & d & [H1 H2 H3 H4 H5 H6 H7 H8] & Hcmd). exists cmd, a, n, pat, d. rewrite Ep. split; [|done].
  split; rewrite ?Ep; try done. unfold inStore in *. by rewrite El.
Qed.

Lemma recvAll_spec st l : forall c host s, cacheOK c st host -> stores s st host -> Forall (served c st host) l ->
  exists r c' s' host', recvAll l c s = Done (r, c', s') /\ memoryRun st host l r host' /\ stores s' st host' /\ cacheOK c' st host'.
Proof.
  induction l as [|[now p] l IH]; intros c host s Hc Hs Hl; [exists [], c, s, host; split; [done|]; split; [constructor|done]|].
  inversion_clear Hl as [|? ? (cmd & a & n & pat & d & Ha & Hcmd) Hl']. cbn in Ha.
  destruct (atomic_spec c st host p cmd a n pat d now s Hc Ha Hcmd Hs) as (lat & p' & c1 & s1 & res & host1 & Hr & Ep & Hp' & He & Hs1 & Hc1).
  destruct (IH c1 host1 s1 Hc1 Hs1) as (r & c' & s' & host' & Hra & Hm & Hs' & Hc').
  { eapply Forall_impl; [done|]. intros y. by apply served_same, (effect_length _ _ _ _ _ _ _ _ _ He). }
  exists (p' :: r), c', s', host'. split; [cbn [recvAll]; rewrite Hr; cbn [obind]; by rewrite Hra|]. split; [|by split].
  econstructor; [apply (as_pkt _ _ _ _ _ _ _ _ _ Ha)|apply (as_req _ _ _ _ _ _ _ _ _ Ha)|done|done|done].
Qed.

End ask.

(** ** A new cache *)

Lemma new_cacheOK prm g (mem : nat -> buffer) st host tb mq wb rg q1 q2 q3 ck : wfGeo g -> (forall k, Z.of_nat (length (mem k)) = CacheTags.blkSize g) ->
  blkSize prm = CacheTags.blkSize g -> maxMasters prm = CacheTags.maxMasters g -> bypassCaches prm = false -> isTopLevel prm = true ->
  MSHRQueue.allocatedList mq = [] -> 0 <= st /\ st mod blkSize prm = 0 ->
  Z.of_nat (length host) mod blkSize prm = 0 /\ st + Z.of_nat (length host) <= patternBase ->
  cacheOK (mk prm (CacheTags.new mem g) tb mq wb rg q1 q2 q3 ck ∅ ∅ ∅ 0 false) st host.
Proof.
  intros W Hm E1 E2 E3 E4 Hq Hst Hh. split; try done; cbn [tags Cache.prm CacheTags.new CacheTags.geo].
  - by apply new_ok.
  - intros k b Hk. cbn in Hk. apply list_elem_of_lookup_2 in Hk. apply list_elem_of_fmap in Hk as (j & -> & _). apply blkOK_invalid; [apply Hm|done].
Qed.

(** C8: transparency.  A top-level cache with nothing outstanding answers any
    sequence of atomic reads, gather reads and writes, hits and misses, with
    the replacements and writebacks they cause, and does so with the data the
    memory below would give: every request returns, each response holds the
    stored bytes at the (gathered) addresses of its request, the writes are in
    the memory when they return, and the plain blocks hold the bytes of the
    memory again.  The memory below is any implementation of [Memory]; a write
    of a whole line is covered when fast writes are off. *)
Theorem cache_transparent {S : Type} `{Memory S} (fresh : Z -> buffer) c st host s l :
  (forall n, 0 <= n -> Z.of_nat (length (fresh n)) = n) -> cacheOK c st host -> stores s st host -> Forall (served c st host) l ->
  exists r c' s' host', recvAll fresh l c s = Done (r, c', s') /\ memoryRun st host l r host' /\ stores s' st host' /\ cacheOK c' st host'.
Proof. intros Hf Hc Hs Hl. by apply recvAll_spec. Qed.

(** Four blocks of 64 bytes in two sets above a memory of 512 bytes: a write,
    a read of the same line and a read of one column of eight tuples. *)
Definition demoGeo : CacheTags.geometry := CacheTags.mkGeometry 64 2 2 false 1 63 6 1 7 4 4 8 1000.
Definition demoBuffer (n : Z) : buffer := repeat 0 (Z.to_nat n).
Definition demoCache : t :=
  mk (mkParams 64 1 1 1 false true true false 8 1000) (CacheTags.new (fun _ => demoBuffer 64) demoGeo) CacheBlk.new (MSHRQueue.new 4 1 1 0)
    (MSHRQueue.new 4 1 1 8) ∅ PacketQueue.new PacketQueue.new PacketQueue.new ClockedObject.new ∅ ∅ ∅ 0 false.
Definition demoHost : buffer := map (fun i => Z.of_nat i mod 256) (seq 0 512).
Definition demoMemory : SimpleMem.t :=
  SimpleMem.new (AbstractMem.mk (AddrRange.plain 0 511) (Some demoHost) [] ∅ ∅ ∅ ∅ ∅ ∅ []) 30000 0 (fun _ => 0) (fun _ => 0).

Definition demoRequest (a n fl : Z) (pat : option Z) : Request.t :=
  let r := Request.physical a n fl 3 0 in
  Request.mk (Request.paddr r) (Request.size r) (Request.masterId r) (Request.flags r) (Request.privateFlags r) (Request.time r) (Request.taskId r)
    (Request.asid r) (Request.vaddr r) pat (Request.extraData r) (Request.contextId_ r) (Request.threadId_ r) (Request.pc r)
    (Request.translateDelta r) (Request.accessDelta r) (Request.depth r).
Definition demoPacket (r : Request.t) (cmd : MemCmd.Command) (d : buffer) : Packet.t :=
  Packet.setFlag Packet.DYNAMIC_DATA (Packet.withData (Some d) (Packet.new r cmd)).
Definition demoOps : list (Z * Packet.t) :=
  [(0, demoPacket (demoRequest 0x48 4 0 None) MemCmd.WriteReq [1; 2; 3; 4]);
   (5000, demoPacket (demoRequest 0x46 8 0 None) MemCmd.ReadReq (demoBuffer 8));
   (9000, demoPacket (demoRequest 0 64 Request.GATHER (Some 7)) MemCmd.ReadReq (demoBuffer 64))].

Lemma demo_cacheOK : cacheOK demoCache 0 demoHost.
Proof. apply new_cacheOK; by vm_compute. Qed.

Lemma demo_stores : stores demoMemory 0 demoHost.
Proof. split; [split|..]; vm_compute; (done || split; congruence). Qed.

Lemma cache_transparent_witness : exists r c' s' host', recvAll demoBuffer demoOps demoCache demoMemory = Done (r, c', s') /\
  memoryRun 0 demoHost demoOps r host' /\ stores s' 0 host' /\ cacheOK c' 0 host'.
Proof.
  apply (cache_transparent demoBuffer demoCache 0 demoHost demoMemory demoOps).
  - intros n Hn. unfold demoBuffer. rewrite repeat_length. lia.
  - exact demo_cacheOK.
  - exact demo_stores.
  - repeat constructor.
    + exists MemCmd.WriteReq, 0x48, 4, 0, [1; 2; 3; 4]. split; [|right; split; [done|split; [done|right; done]]].
      split; [split|split|..]; try done; vm_compute; try done; by repeat split.
    + exists MemCmd.ReadReq, 0x46, 8, 0, (demoBuffer 8). split; [|by left].
      split; [split|split|..]; try done; vm_compute; try done; by repeat split.
    + exists MemCmd.ReadReq, 0, 64, 7, (demoBuffer 64). split; [|by left].
      split; [split|split|..]; try done; vm_compute; try done; by repeat split.
Defined.

(** ** Where the cache is not transparent *)

Definition answers (l : list (Z * Packet.t)) (c : t) (s : SimpleMem.t) : outcome (list (outcome buffer)) :=
  let! (r, _, _) := recvAll demoBuffer l c s in Done (map Packet.getPtr r).

(** A swap changes the block only: [cmpAndSwap] does not write through, and a
    later read goes to the memory. *)
Lemma swap_not_seen : answers
  [(0, demoPacket (demoRequest 0x48 4 0 None) MemCmd.SwapReq [9; 9; 9; 9]);
   (5000, demoPacket (demoRequest 0x48 4 0 None) MemCmd.ReadReq (demoBuffer 4))] demoCache demoMemory =
  Done [Done [72; 73; 74; 75]; Done [72; 73; 74; 75]].
Proof. vm_compute. reflexivity. Qed.

(** The packet for a line carries the request of the processor: a cache that
    serves it reads the size of the request and copies the size of the line
    from it. *)
Lemma line_packet_overread : recvAtomic demoBuffer 0
  (Packet.setFlag Packet.DYNAMIC_DATA (Packet.withData (Some (demoBuffer 64)) (Packet.newBlock (demoRequest 0x48 4 0 None) MemCmd.ReadReq 64)))
  demoCache demoMemory = Exited.
Proof. vm_compute. reflexivity. Qed.

End CacheTransparent.
