(* ===== verification/CacheTiming.v ===== *)
(** * The cache in timing mode: gem5/src/mem/cache/cache_impl.hh, base.hh and base.cc

    The whole handlers of timing requests, responses and snoops, the choice of
    the next packet to send, and the blocking of the port to the processor.
    The other ends of the ports and the prefetcher are the state [S]; they do
    not call back into the cache while it handles a packet. *)

From Stdlib Require Import ZArith Lia.
From stdpp Require Import base gmap numbers list.
From S2P Require Import Prelude Bits AddrRange MemCmd Request Packet AbstractMem CacheBlk CacheTags MSHR MSHRQueue PacketQueue ClockedObject Cache.

#[local] Open Scope Z_scope.
#[local] Open Scope outcome_scope.

Module CacheTiming.
Import Cache.

(** ** Ports and prefetcher *)

(** A request down and a snoop up modify their packet in place. *)
Class TimingPorts (S : Type) := {
  sendTimingReq : Packet.t -> S -> outcome (bool * Packet.t * S);
  sendTimingSnoopReq : Packet.t -> S -> outcome (Packet.t * S) }.

(** The prefetcher looks into the cache with [inCache] and [inMissQueue]. *)
Class Prefetcher (S : Type) := {
  notify : Z -> Packet.t -> (Z -> bool -> outcome bool) -> (Z -> bool -> outcome bool) -> S -> outcome (Z * S);
  getPacket : Z -> S -> outcome (option Packet.t * S);
  nextPrefetchReadyTime : S -> Z }.

(** ** State *)

(** [BaseCache::BlockedCause]; the first two are the two queues. *)
Inductive BlockedCause := Blocked_NoMSHRs | Blocked_NoWBBuffers | Blocked_NoTargets.
Inductive MSHRQueueIndex := MSHRQueue_MSHRs | MSHRQueue_WriteBuffer.
#[global] Instance MSHRQueueIndex_eq_dec : EqDecision MSHRQueueIndex.
Proof. solve_decision. Defined.

Definition causeIndex (b : BlockedCause) : Z :=
  match b with Blocked_NoMSHRs => 0 | Blocked_NoWBBuffers => 1 | Blocked_NoTargets => 2 end.
Definition causeOf (q : MSHRQueueIndex) : BlockedCause :=
  match q with MSHRQueue_MSHRs => Blocked_NoMSHRs | MSHRQueue_WriteBuffer => Blocked_NoWBBuffers end.

Record params := mkParams {
  responseLatency : Z;
  numTarget : Z;
  addrRanges : list AddrRange.t;
  hasPrefetcher : bool;
  prefetchOnAccess : bool
}.

(** [CacheSlavePort]: [sendRetryEvent] is the tick of the event, if scheduled. *)
Record slavePort := mkPort {
  blocked_ : bool;
  mustSendRetry : bool;
  sendRetryEvent : option Z;
  retriesSent : nat
}.

Record stats := mkStats {
  blocked_causes : gmap Z Z;
  blocked_cycles : gmap Z Z;
  mshr_hits : gmap (nat * Z) Z;
  mshr_misses : gmap (nat * Z) Z;
  mshr_miss_latency : gmap (nat * Z) Z;
  mshr_uncacheable_lat : gmap (nat * Z) Z;
  missLatency : gmap (nat * Z) Z
}.

(** [records] are the addresses of the [ForwardResponseRecord]s on the stacks
    of sender states. *)
Record t := mk {
  tprm : params;
  core : Cache.t;
  order : Z;
  blocked : Z;
  blockedCycle : Z;
  noTargetMSHR : option nat;
  port : slavePort;
  records : list nat;
  pendingDelete : list Packet.t;
  stat : stats
}.

(** A new cache blocks nothing; [k] is its tag store, queues and packet queues. *)
Definition new (tp : params) (k : Cache.t) : t :=
  mk tp k 0 0 0 None (mkPort false false None 0) [] [] (mkStats ∅ ∅ ∅ ∅ ∅ ∅ ∅).

Definition withCore (x : Cache.t) (c : t) : t :=
  mk (tprm c) x (order c) (blocked c) (blockedCycle c) (noTargetMSHR c) (port c) (records c) (pendingDelete c) (stat c).
Definition withOrder (x : Z) (c : t) : t :=
  mk (tprm c) (core c) x (blocked c) (blockedCycle c) (noTargetMSHR c) (port c) (records c) (pendingDelete c) (stat c).
Definition withBlocked (m cyc : Z) (p : slavePort) (c : t) : t :=
  mk (tprm c) (core c) (order c) m cyc (noTargetMSHR c) p (records c) (pendingDelete c) (stat c).
Definition withNoTarget (x : option nat) (c : t) : t :=
  mk (tprm c) (core c) (order c) (blocked c) (blockedCycle c) x (port c) (records c) (pendingDelete c) (stat c).
Definition withRecords (x : list nat) (c : t) : t :=
  mk (tprm c) (core c) (order c) (blocked c) (blockedCycle c) (noTargetMSHR c) (port c) x (pendingDelete c) (stat c).
Definition withDelete (x : list Packet.t) (c : t) : t :=
  mk (tprm c) (core c) (order c) (blocked c) (blockedCycle c) (noTargetMSHR c) (port c) (records c) x (stat c).
Definition withStat (x : stats) (c : t) : t :=
  mk (tprm c) (core c) (order c) (blocked c) (blockedCycle c) (noTargetMSHR c) (port c) (records c) (pendingDelete c) x.
Definition withPort (p : slavePort) (c : t) : t := withBlocked (blocked c) (blockedCycle c) p c.

(** Adding to a statistic of a command and a master. *)
Definition plus (k : nat * Z) (n : Z) (m : gmap (nat * Z) Z) : gmap (nat * Z) Z := <[k := map_get 0 m k + n]> m.
Definition statKey (p : Packet.t) : nat * Z := (MemCmd.toInt (Packet.cmd p), Request.masterId (Packet.req p)).
Definition checkMaster (p : Packet.t) (c : t) : bool := Request.masterId (Packet.req p) <? maxMasters (prm (core c)).

Definition countHit (p : Packet.t) (c : t) : t :=
  let s := stat c in
  withStat (mkStats (blocked_causes s) (blocked_cycles s) (plus (statKey p) 1 (mshr_hits s)) (mshr_misses s)
              (mshr_miss_latency s) (mshr_uncacheable_lat s) (missLatency s)) c.
Definition countMiss (p : Packet.t) (c : t) : t :=
  let s := stat c in
  withStat (mkStats (blocked_causes s) (blocked_cycles s) (mshr_hits s) (plus (statKey p) 1 (mshr_misses s))
              (mshr_miss_latency s) (mshr_uncacheable_lat s) (missLatency s)) c.
Definition countMissLatency (k : nat * Z) (uncached : bool) (n : Z) (c : t) : t :=
  let s := stat c in
  withStat (mkStats (blocked_causes s) (blocked_cycles s) (mshr_hits s) (mshr_misses s)
              (if uncached then mshr_miss_latency s else plus k n (mshr_miss_latency s))
              (if uncached then plus k n (mshr_uncacheable_lat s) else mshr_uncacheable_lat s) (missLatency s)) c.
Definition countLatency (p : Packet.t) (n : Z) (c : t) : t :=
  let s := stat c in
  withStat (mkStats (blocked_causes s) (blocked_cycles s) (mshr_hits s) (mshr_misses s)
              (mshr_miss_latency s) (mshr_uncacheable_lat s) (plus (statKey p) n (missLatency s))) c.

(** The clock, the queues and the ports of the cache. *)
Definition clockEdge (now cycles : Z) (c : t) : Z * t :=
  let (e, k) := ClockedObject.clockEdge now (clockPeriod (prm (core c))) cycles (clock (core c)) in
  (e, withCore (withClock k (core c)) c).
Definition curCycle (now : Z) (c : t) : Z * t :=
  let (n, k) := ClockedObject.curCycle now (clockPeriod (prm (core c))) (clock (core c)) in
  (n, withCore (withClock k (core c)) c).

Definition queueAt (q : MSHRQueueIndex) (c : t) : MSHRQueue.t :=
  match q with MSHRQueue_MSHRs => mshrQueue (core c) | MSHRQueue_WriteBuffer => writeBuffer (core c) end.
Definition setQueue (q : MSHRQueueIndex) (x : MSHRQueue.t) (h : MSHR.heap) (c : t) : t :=
  let k := core c in
  withCore (Cache.mk (prm k) (tags k) (tempBlock k)
              (if decide (q = MSHRQueue_MSHRs) then x else mshrQueue k) (if decide (q = MSHRQueue_MSHRs) then writeBuffer k else x) h
              (respQueue k) (reqQueue k) (snoopRespQueue k) (clock k) (hits k) (misses k) (writebacks k) (missCount k) (exitRequested k)) c.
Definition setRegs (h : MSHR.heap) (c : t) : t :=
  withCore (withQueues h (respQueue (core c)) (reqQueue (core c)) (snoopRespQueue (core c)) (core c)) c.

(** [mshr->queue] *)
Definition queueOf (i : nat) (c : t) : MSHRQueueIndex :=
  if decide (i ∈ MSHRQueue.registers (mshrQueue (core c))) then MSHRQueue_MSHRs else MSHRQueue_WriteBuffer.

Definition schedTimingResp (now : Z) (p : Packet.t) (when_ : Z) (c : t) : outcome t :=
  let! q := PacketQueue.schedSendTiming now p when_ false (respQueue (core c)) in
  Done (withCore (withQueues (regs (core c)) q (reqQueue (core c)) (snoopRespQueue (core c)) (core c)) c).
Definition schedTimingSnoopResp (now : Z) (p : Packet.t) (when_ : Z) (force_order : bool) (c : t) : outcome t :=
  let! q := PacketQueue.schedSendTiming now p when_ force_order (snoopRespQueue (core c)) in
  Done (withCore (withQueues (regs (core c)) (respQueue (core c)) (reqQueue (core c)) q (core c)) c).
Definition setReqQueue (q : PacketQueue.t) (c : t) : t :=
  withCore (withQueues (regs (core c)) (respQueue (core c)) q (snoopRespQueue (core c)) (core c)) c.
(** [requestMemSideBus(cause, time)] *)
Definition requestMemSideBus (now time : Z) (c : t) : outcome t :=
  let! q := PacketQueue.schedSendEvent now time (reqQueue (core c)) in Done (setReqQueue q c).

Definition resetDelays (p : Packet.t) : Packet.t :=
  Packet.mk (Packet.flags p) (Packet.cmd p) (Packet.req p) (Packet.data p) (Packet.addr p) (Packet.isSecure_ p) (Packet.size p)
    (Packet.origCmd p) (Packet.bytesValid p) 0 0 (Packet.senderState p).
(** [memset(pkt->getPtr(), 0xFF, pkt->getSize())] *)
Definition fillOnes (p : Packet.t) : outcome Packet.t :=
  let! d := Packet.getPtr p in
  let! n := Packet.getSize p in
  let! d := memcpy d 0 (repeat 255 (Z.to_nat n)) 0 n in
  Done (Packet.withData (Some d) p).

(** ** Blocking *)

Definition portSetBlocked (p : slavePort) : outcome slavePort :=
  if blocked_ p then Exited
  else match sendRetryEvent p with
  | Some _ => Done (mkPort true true None (retriesSent p))
  | None => Done (mkPort true (mustSendRetry p) None (retriesSent p))
  end.
Definition portClearBlocked (now : Z) (p : slavePort) : outcome slavePort :=
  if negb (blocked_ p) then Exited
  else if mustSendRetry p then
    match sendRetryEvent p with
    | None => Done (mkPort false true (Some (now + 1)) (retriesSent p))
    | Some _ => Exited
    end
  else Done (mkPort false false (sendRetryEvent p) (retriesSent p)).
(** The event has just been taken off the event queue. *)
Definition processSendRetry (c : t) : t :=
  withPort (mkPort (blocked_ (port c)) false None (S (retriesSent (port c)))) c.

Definition isBlocked (c : t) : bool := negb (blocked c =? 0).

Definition setBlocked (now : Z) (cause : BlockedCause) (c : t) : outcome t :=
  let flag := wrap 8 (Z.shiftl 1 (causeIndex cause)) in
  if blocked c =? 0 then
    let s := stat c in
    let k := causeIndex cause in
    let c := withStat (mkStats (<[k := map_get 0 (blocked_causes s) k + 1]> (blocked_causes s)) (blocked_cycles s) (mshr_hits s) (mshr_misses s)
                         (mshr_miss_latency s) (mshr_uncacheable_lat s) (missLatency s)) c in
    let (cyc, c) := curCycle now c in
    let! p := portSetBlocked (port c) in
    Done (withBlocked (Z.lor (blocked c) flag) cyc p c)
  else Done (withBlocked (Z.lor (blocked c) flag) (blockedCycle c) (port c) c).

Definition clearBlocked (now : Z) (cause : BlockedCause) (c : t) : outcome t :=
  let flag := wrap 8 (Z.shiftl 1 (causeIndex cause)) in
  let m := Z.land (blocked c) (bnot 8 flag) in
  let c := withBlocked m (blockedCycle c) (port c) c in
  if m =? 0 then
    let (cyc, c) := curCycle now c in
    let s := stat c in
    let k := causeIndex cause in
    let c := withStat (mkStats (blocked_causes s) (<[k := map_get 0 (blocked_cycles s) k + wrap 64 (cyc - blockedCycle c)]> (blocked_cycles s))
                         (mshr_hits s) (mshr_misses s) (mshr_miss_latency s) (mshr_uncacheable_lat s) (missLatency s)) c in
    let! p := portClearBlocked now (port c) in
    Done (withPort p c)
  else Done c.

(** ** Buffers *)

Definition nextOrder (c : t) : Z * t := (order c, withOrder (wrap 64 (order c + 1)) c).

Definition allocateBufferInternal (now : Z) (q : MSHRQueueIndex) (a n : Z) (p : Packet.t) (time : Z) (requestBus : bool) (c : t)
    : outcome (nat * t) :=
  let (ord, c) := nextOrder c in
  let! (i, mq, h) := MSHRQueue.allocate now a n p time ord (queueAt q c) (regs (core c)) in
  let c := setQueue q mq h c in
  let! c := (if MSHRQueue.isFull mq then setBlocked now (causeOf q) c else Done c) in
  let! c := (if requestBus then requestMemSideBus now time c else Done c) in
  Done (i, c).

Definition allocateMissBuffer (now : Z) (p : Packet.t) (time : Z) (requestBus : bool) (c : t) : outcome (nat * t) :=
  if Request.isUncacheable (Packet.req p) then Exited
  else
    let! a := Packet.getCacheAddr p in
    allocateBufferInternal now MSHRQueue_MSHRs (blockAlign (core c) a) (blkSize (prm (core c))) p time requestBus c.
Definition allocateWriteBuffer (now : Z) (p : Packet.t) (time : Z) (requestBus : bool) (c : t) : outcome (nat * t) :=
  if negb (MemCmd.isWrite (Packet.cmd p) && negb (MemCmd.isRead (Packet.cmd p))) then Exited
  else
    let! a := Packet.getCacheAddr p in
    let! n := Packet.getSize p in
    allocateBufferInternal now MSHRQueue_WriteBuffer a n p time requestBus c.
Definition allocateUncachedReadBuffer (now : Z) (p : Packet.t) (time : Z) (requestBus : bool) (c : t) : outcome (nat * t) :=
  if negb (Request.isUncacheable (Packet.req p)) then Exited
  else if negb (MemCmd.isRead (Packet.cmd p)) then Exited
  else
    let! a := Packet.getCacheAddr p in
    let! n := Packet.getSize p in
    allocateBufferInternal now MSHRQueue_MSHRs a n p time requestBus c.

(** [while (!writebacks.empty())] *)
Fixpoint bufferWritebacks (now time : Z) (l : list Packet.t) (c : t) : outcome t :=
  match l with
  | [] => Done c
  | w :: l => let! (_, c) := allocateWriteBuffer now w time true c in bufferWritebacks now time l c
  end.

(** [markInServiceInternal] and [Cache::markInService] *)
Definition markInService (now : Z) (i : nat) (pending_dirty_resp : bool) (c : t) : outcome t :=
  let q := queueOf i c in
  let wasFull := MSHRQueue.isFull (queueAt q c) in
  let! (mq, h) := MSHRQueue.markInService pending_dirty_resp i (queueAt q c) (regs (core c)) in
  let c := setQueue q mq h c in
  if wasFull && negb (MSHRQueue.isFull mq) then clearBlocked now (causeOf q) c else Done c.

(** [Cache::squash(threadNum)] *)
Definition squash (now threadNum : Z) (c : t) : outcome t :=
  let! (cause, c) :=
    (match noTargetMSHR c with
     | Some i =>
         let! m := MSHR.get i (regs (core c)) in
         Done (if MSHR.threadNum m =? threadNum then (Some Blocked_NoTargets, withNoTarget None c) else (None, c))
     | None => Done (None, c)
     end) in
  let cause := if MSHRQueue.isFull (mshrQueue (core c)) then Some Blocked_NoMSHRs else cause in
  let! (mq, h) := MSHRQueue.squash threadNum (mshrQueue (core c)) (regs (core c)) in
  let c := setQueue MSHRQueue_MSHRs mq h c in
  match cause with
  | Some k => if MSHRQueue.isFull mq then Done c else clearBlocked now k c
  | None => Done c
  end.

Section handlers.
Context {S : Type} `{Ports S, TimingPorts S, Prefetcher S}.

(** Uninitialised memory of a given size. *)
Context (fresh : Z -> buffer).

(** ** Requests from the processor side *)

(** A request whose response comes from a cache above: copies elsewhere are
    invalidated. *)
Definition inhibitedReq (p : Packet.t) (c : t) (s : S) : outcome (t * S) :=
  if Request.isUncacheable (Packet.req p) then Exited
  else
    let! s := (if MemCmd.needsExclusive (Packet.cmd p) && negb (Packet.isSupplyExclusive p) then
                 let! snoop := Packet.copy fresh true false p in
                 let snoop := Packet.setExpressSnoop (resetDelays snoop) in
                 let! snoop := Packet.assertMemInhibit snoop in
                 let! (success, _, s) := sendTimingReq snoop s in
                 if success then Done s else Exited
               else Done s) in
    Done (withDelete (pendingDelete c ++ [p]) c, s).

(** Uncacheable requests: prefetches are answered, writes are buffered, reads
    take a register. *)
Definition uncacheableReq (now : Z) (p : Packet.t) (c : t) (s : S) : outcome (t * S) :=
  let! (k, s) := uncacheableFlush now p (core c) s in
  let c := withCore k c in
  if MemCmd.isPrefetch (Packet.cmd p) then
    let! p := Packet.makeResponse p in
    let! p := fillOnes p in
    let (e, c) := clockEdge now (lookupLatency (prm (core c))) c in
    let! c := schedTimingResp now (resetDelays p) (wrap 64 (e + Packet.headerDelay p)) c in
    Done (c, s)
  else
    let (e, c) := clockEdge now (forwardLatency (prm (core c))) c in
    let time := wrap 64 (e + Packet.headerDelay p) in
    let! (_, c) := (if MemCmd.isWrite (Packet.cmd p) && negb (MemCmd.isRead (Packet.cmd p))
                    then allocateWriteBuffer now (resetDelays p) time true c
                    else allocateUncachedReadBuffer now (resetDelays p) time true c) in
    if MemCmd.needsResponse (Packet.cmd p) then Done (c, s) else Exited.

(** [prefetcher->notify(pkt)], unless it is a software prefetch. *)
Definition notifyPrefetcher (now : Z) (p : Packet.t) (next_pf_time : Z) (c : t) (s : S) : outcome (Z * S) :=
  if MemCmd.isSWPrefetch (Packet.cmd p) then Done (next_pf_time, s)
  else notify now p (fun a sec => inCache a sec (core c)) (fun a sec => inMissQueue a sec (core c)) s.

(** A hit: the prefetcher is told and the response scheduled.  [blk] is the
    block, if any. *)
Definition timingHit (now request_time : Z) (p : Packet.t) (blk : option nat) (c : t) (s : S) : outcome (Z * t * S) :=
  let! prefetched := (match blk with
                      | Some i => let! b := Cache.getBlk (InTags i) (core c) in Done (CacheBlk.wasPrefetched b)
                      | None => Done false
                      end) in
  let! (next, c, s) :=
    (if hasPrefetcher (tprm c) && (prefetchOnAccess (tprm c) || prefetched) then
       let! k := (match blk with
                  | Some i => updBlk (CacheBlk.clearStatus CacheBlk.BlkHWPrefetched) (InTags i) (core c)
                  | None => Done (core c)
                  end) in
       let c := withCore k c in
       let! (next, s) := notifyPrefetcher now p PacketQueue.MaxTick c s in
       Done (next, c, s)
     else Done (PacketQueue.MaxTick, c, s)) in
  if MemCmd.needsResponse (Packet.cmd p) then
    let! p := Packet.makeResponse p in
    let! c := schedTimingResp now (resetDelays p) request_time c in
    Done (next, c, s)
  else Done (next, withDelete (pendingDelete c ++ [p]) c, s).

(** A software prefetch that misses is answered at once; a new packet takes its
    place unless the line is on its way. *)
Definition softPrefetch (now request_time : Z) (p : Packet.t) (outstanding : bool) (c : t) : outcome (option Packet.t * t) :=
  if negb (MemCmd.needsResponse (Packet.cmd p)) then Exited
  else if negb (Request.hasPaddr (Packet.req p)) then Exited
  else
    let! pf := (if outstanding then Done None
                else
                  let! a := Request.getPaddr (Packet.req p) in
                  let! n := Request.getSize (Packet.req p) in
                  let! fl := Request.getFlags (Packet.req p) in
                  let! pf := Packet.allocate fresh (Packet.new (Request.physical a n fl (Request.masterId (Packet.req p)) now) (Packet.cmd p)) in
                  let! a1 := Packet.getCacheAddr pf in
                  let! a2 := Packet.getCacheAddr p in
                  let! n1 := Packet.getSize pf in
                  let! n2 := Packet.getSize p in
                  if (a1 =? a2) && (n1 =? n2) then Done (Some pf) else Exited) in
    let! p := Packet.makeResponse p in
    let! p := fillOnes p in
    let! c := schedTimingResp now p request_time c in
    Done (pf, c).

(** The packet joins the register of its line; it is changed in place when it
    is deferred behind an invalidation. *)
Definition coalesce (now forward_time : Z) (p : Packet.t) (i : nat) (c : t) (s : S) : outcome (Z * t * S) :=
  if negb (checkMaster p c) then Exited
  else
    let c := countHit p c in
    let! h := MSHR.modify (fun m => if MSHR.threadNum m =? 0 then m
                             else MSHR.mk (MSHR.readyTime m) (MSHR.isUncacheable m) (MSHR.downstreamPending m) (MSHR.pendingDirty m)
                                    (MSHR.postInvalidate m) (MSHR.postDowngrade m) (MSHR.order m) (MSHR.addr m) (MSHR.size m) (MSHR.isSecure m)
                                    (MSHR.inService m) (MSHR.isForward m) (-1) (MSHR.targets m) (MSHR.deferredTargets m)) i (regs (core c)) in
    let! m := MSHR.get i h in
    let! deferred := MSHR.defers p m in
    let (ord, c) := nextOrder c in
    let! h := MSHR.allocateTarget now p forward_time ord i h in
    let p := if deferred && MSHR.postInvalidate m then MSHR.replaceUpgrade p else p in
    let c := setRegs h c in
    let! m := MSHR.get i h in
    let! c := (if Z.of_nat (MSHR.getNumTargets m) =? numTarget (tprm c)
               then setBlocked now Blocked_NoTargets (withNoTarget (Some i) c) else Done c) in
    let! (next, s) := (if hasPrefetcher (tprm c) then notifyPrefetcher now p PacketQueue.MaxTick c s else Done (PacketQueue.MaxTick, s)) in
    Done (next, c, s).

(** The packet takes a register or a write buffer of its own. *)
Definition newMiss (now forward_time : Z) (p : Packet.t) (blk : option nat) (c : t) (s : S) : outcome (Z * t * S) :=
  if negb (checkMaster p c) then Exited
  else
    let c := countMiss p c in
    let! c :=
      (if decide (Packet.cmd p = MemCmd.Writeback) then let! (_, c) := allocateWriteBuffer now p forward_time true c in Done c
       else
         let! k := (match blk with
                    | Some i =>
                        let! b := Cache.getBlk (InTags i) (core c) in
                        if CacheBlk.isValid b then
                          if negb (MemCmd.needsExclusive (Packet.cmd p)) || CacheBlk.isWritable b then Exited
                          else updBlk (CacheBlk.clearStatus CacheBlk.BlkReadable) (InTags i) (core c)
                        else Done (core c)
                    | None => Done (core c)
                    end) in
         let! (_, c) := allocateMissBuffer now p forward_time true (withCore k c) in Done c) in
    let! (next, s) := (if hasPrefetcher (tprm c) then notifyPrefetcher now p PacketQueue.MaxTick c s else Done (PacketQueue.MaxTick, s)) in
    Done (next, c, s).

Definition timingMiss (now request_time forward_time : Z) (p : Packet.t) (blk : option nat) (c : t) (s : S) : outcome (Z * t * S) :=
  let! a := Packet.getCacheAddr p in
  let! sec := Packet.isSecure p in
  let! mshr := MSHRQueue.findMatch (blockAlign (core c) a) sec (mshrQueue (core c)) (regs (core c)) in
  let! (pkt, c) := (if MemCmd.isSWPrefetch (Packet.cmd p) && isTopLevel (prm (core c))
                    then softPrefetch now request_time p (match mshr with Some _ => true | None => false end) c
                    else Done (Some p, c)) in
  match mshr, pkt with
  | Some i, Some p => coalesce now forward_time p i c s
  | Some _, None => Done (PacketQueue.MaxTick, c, s)
  | None, Some p => newMiss now forward_time p blk c s
  | None, None => Exited
  end.

(** [recvTimingReq(pkt)]; it always takes the packet. *)
Definition recvTimingReq (now : Z) (p : Packet.t) (c : t) (s : S) : outcome (t * S) :=
  let c := withDelete [] c in
  if negb (MemCmd.isRequest (Packet.cmd p)) then Exited
  else if bypassCaches (prm (core c)) then
    let! (success, _, s) := sendTimingReq p s in
    if success then Done (c, s) else Exited
  else
    let! p := promoteWholeLineWrites p (core c) in
    if Packet.memInhibitAsserted p then inhibitedReq p c s
    else if Request.isUncacheable (Packet.req p) then uncacheableReq now p c s
    else
      let! (satisfied, p, blk, lat, wbs, k, s) := Cache.access fresh now p (core c) s in
      let c := withCore k c in
      let (e, c) := clockEdge now lat c in
      let request_time := wrap 64 (e + Packet.headerDelay p) in
      let (e, c) := clockEdge now (forwardLatency (prm (core c))) c in
      let forward_time := wrap 64 (e + Packet.headerDelay p) in
      let p := resetDelays p in
      let! (next, c, s) := (if satisfied then timingHit now request_time p blk c s
                            else timingMiss now request_time forward_time p blk c s) in
      let! c := (if next =? PacketQueue.MaxTick then Done c
                 else let (e, c) := clockEdge now (forwardLatency (prm (core c))) c in requestMemSideBus now (Z.max e next) c) in
      let! c := bufferWritebacks now forward_time wbs c in
      Done (c, s).

(** [CpuSidePort::recvTimingReq(pkt)]: whether the packet is taken. *)
Definition portRecvTimingReq (now : Z) (p : Packet.t) (c : t) (s : S) : outcome (bool * t * S) :=
  if bypassCaches (prm (core c)) then Exited
  else if Packet.memInhibitAsserted p then
    let! (c, s) := recvTimingReq now p c s in Done (true, c, s)
  else if blocked_ (port c) || mustSendRetry (port c) then
    Done (false, withPort (mkPort (blocked_ (port c)) true (sendRetryEvent (port c)) (retriesSent (port c))) c, s)
  else
    let! (c, s) := recvTimingReq now p c s in
    Done (true, withPort (mkPort (blocked_ (port c)) false (sendRetryEvent (port c)) (retriesSent (port c))) c, s).

(** ** Snoops *)

(** The response to a snoop: a new packet unless [req_pkt] is a copy already. *)
Definition doTimingSupplyResponse (now : Z) (req_pkt : Packet.t) (blk_data : buffer) (already_copied pending_inval : bool) (c : t) : outcome t :=
  if negb (MemCmd.isRequest (Packet.cmd req_pkt) && MemCmd.needsResponse (Packet.cmd req_pkt)) then Exited
  else
    let! p := (if already_copied then Done req_pkt else Packet.copy fresh false (MemCmd.isRead (Packet.cmd req_pkt)) req_pkt) in
    if negb (MemCmd.isInvalidate (Packet.cmd req_pkt) || Packet.sharedAsserted p) then Exited
    else
      let! p := Packet.makeResponse p in
      let! p := (if MemCmd.isRead (Packet.cmd p) then Packet.setDataFromBlock blk_data (blkSize (prm (core c))) p else Done p) in
      let p := if bool_decide (Packet.cmd p = MemCmd.ReadResp) && pending_inval then Packet.withCmd MemCmd.ReadRespWithInvalidate p else p in
      let (e, c) := clockEdge now (forwardLatency (prm (core c))) c in
      schedTimingSnoopResp now (resetDelays p) (wrap 64 (e + Packet.headerDelay p)) true c.

(** A new [ForwardResponseRecord]. *)
Definition newRecord (c : t) : nat * t :=
  let r := Nat.succ (foldr Nat.max 0%nat (records c ++ (map fst (map_to_list (regs (core c)))))) in (r, withRecords (r :: records c) c).
Definition deleteRecord (r : nat) (c : t) : t := withRecords (filter (fun x => x <> r) (records c)) c.

(** The snoop goes up first, as a copy; what the caches above say is carried
    over to the packet. *)
Definition forwardSnoop (p : Packet.t) (c : t) (s : S) : outcome (Packet.t * t * S) :=
  let alreadyResponded := Packet.memInhibitAsserted p in
  let! snoop := Packet.copy fresh true false p in
  let (r, c) := newRecord c in
  let snoop := resetDelays (Packet.pushSenderState r (Packet.setExpressSnoop snoop)) in
  let! (snoop, s) := sendTimingSnoopReq snoop s in
  let! (p, c) := (if Packet.memInhibitAsserted snoop then
                    if alreadyResponded then Exited else let! p := Packet.assertMemInhibit p in Done (p, c)
                  else let! (r, _) := Packet.popSenderState snoop in Done (p, deleteRecord r c)) in
  let p := if Packet.sharedAsserted snoop then Packet.assertShared p else p in
  let p := if Packet.prefetchSquashed snoop then Packet.setPrefetchSquashed p else p in
  Done (p, c, s).

(** [handleSnoop] with [is_timing] true. *)
Definition handleSnoop (now : Z) (p : Packet.t) (blk : option blkRef) (is_deferred pending_inval : bool) (c : t) (s : S)
    : outcome (Packet.t * t * S) :=
  if pending_inval && negb is_deferred then Exited
  else if negb (MemCmd.isRequest (Packet.cmd p)) then Exited
  else
    let invalidate := MemCmd.isInvalidate (Packet.cmd p) in
    let needs_exclusive := MemCmd.needsExclusive (Packet.cmd p) in
    let! (p, c, s) := (if forwardSnoops (prm (core c)) then forwardSnoop p c s else Done (p, c, s)) in
    match blk with
    | None => Done (p, c, s)
    | Some r =>
        let! b := Cache.getBlk r (core c) in
        if negb (CacheBlk.isValid b) then Done (p, c, s)
        else
          let respond := CacheBlk.isDirty b && MemCmd.needsResponse (Packet.cmd p) && negb (MemCmd.isWriteInvalidate (Packet.cmd p)) in
          let have_exclusive := CacheBlk.isWritable b in
          if decide (Packet.cmd p = MemCmd.HardPFReq) then Done (Packet.setPrefetchSquashed p, c, s)
          else
            let! (p, c) :=
              (if MemCmd.isRead (Packet.cmd p) && negb invalidate then
                 if needs_exclusive then Exited
                 else Done (Packet.assertShared p, withCore (Cache.setBlk r (CacheBlk.clearStatus CacheBlk.BlkWritable b) (core c)) c)
               else Done (p, c)) in
            let! (p, c) :=
              (if respond then
                 let! p := Packet.assertMemInhibit p in
                 let p := if have_exclusive then Packet.setSupplyExclusive p else p in
                 let! c := doTimingSupplyResponse now p (CacheBlk.data b) is_deferred pending_inval c in
                 Done (p, c)
               else Done (p, c)) in
            let! k := (if invalidate then dropBlk now r (core c) else Done (core c)) in
            Done (p, withCore k c, s)
    end.

(** A snoop that finds the line in the write buffer. *)
Definition snoopWriteback (now : Z) (p : Packet.t) (i : nat) (c : t) : outcome (Packet.t * t) :=
  let! m := MSHR.get i (regs (core c)) in
  if MSHR.isUncacheable m then Exited
  else if negb (Nat.eqb (MSHR.getNumTargets m) 1) then Exited
  else
    let! tgt := MSHR.getTarget m in
    let wb := MSHR.pkt tgt in
    if negb (bool_decide (Packet.cmd wb = MemCmd.Writeback)) then Exited
    else if Packet.memInhibitAsserted p then Exited
    else
      let! p := Packet.assertMemInhibit p in
      let! (p, c) :=
        (if negb (MemCmd.needsExclusive (Packet.cmd p)) then
           let clear x := MSHR.onPkt Packet.clearSupplyExclusive x in
           let m := MSHR.onTargets false (fun l => MSHR.withElems (match MSHR.elems l with x :: e => clear x :: e | [] => [] end) l) m in
           Done (Packet.assertShared p, setRegs (<[i := m]> (regs (core c))) c)
         else if MemCmd.isInvalidate (Packet.cmd p) then Done (p, c) else Exited) in
      let! d := Packet.getPtr wb in
      let! c := doTimingSupplyResponse now p d false false c in
      if MemCmd.isInvalidate (Packet.cmd p) then let! c := markInService now i false c in Done (p, c) else Done (p, c).

(** The write buffer and the block of the line. *)
Definition snoopRest (now : Z) (p : Packet.t) (blk_addr : Z) (sec : bool) (blk : option nat) (c : t) (s : S) : outcome (Packet.t * t * S) :=
  let! wbs := MSHRQueue.findMatches blk_addr sec (writeBuffer (core c)) (regs (core c)) in
  let! (p, c) := (match wbs with
                  | [] => Done (p, c)
                  | [i] => snoopWriteback now p i c
                  | _ => Exited
                  end) in
  handleSnoop now p (InTags <$> blk) false false c s.

Definition recvTimingSnoopReq (now : Z) (p : Packet.t) (c : t) (s : S) : outcome (Packet.t * t * S) :=
  if bypassCaches (prm (core c)) then Exited
  else
    let! a := Packet.getCacheAddr p in
    let in_range := existsb (fun r => AddrRange.contains r a) (addrRanges (tprm c)) in
    if Request.isUncacheable (Packet.req p) || bool_decide (Packet.cmd p = MemCmd.Writeback) || negb in_range then Done (p, c, s)
    else
      let! sec := Packet.isSecure p in
      let! blk := CacheTags.findBlock a sec (tags (core c)) in
      let blk_addr := blockAlign (core c) a in
      let! mshr := MSHRQueue.findMatch blk_addr sec (mshrQueue (core c)) (regs (core c)) in
      match mshr with
      | Some i =>
          if decide (Packet.cmd p = MemCmd.HardPFReq) then Done (Packet.setPrefetchSquashed p, c, s)
          else
            let (ord, c) := nextOrder c in
            let! (deferred, p, h) := MSHR.handleSnoop fresh now p ord i (regs (core c)) in
            let c := setRegs h c in
            if deferred then Done (p, c, s) else snoopRest now p blk_addr sec blk c s
      | None => snoopRest now p blk_addr sec blk c s
      end.

(** ** Responses from the memory side *)

(** What a fill has done so far: the block, whether the response fills it and
    the packets to write back. *)
Record fillState := mkFill { f_blk : option blkRef; f_fill : bool; f_wbs : list Packet.t }.

(** [mshr->handleFill(pkt, blk); blk = handleFill(pkt, blk, writebacks);] *)
Definition fill (now : Z) (p : Packet.t) (i : nat) (f : fillState) (c : t) : outcome (fillState * t) :=
  let! h := MSHR.handleFill p i (regs (core c)) in
  let c := setRegs h c in
  let! (r, wbs, k) := Cache.handleFill fresh now p (f_blk f) (core c) in
  Done (mkFill (Some r) true (f_wbs f ++ wbs), withCore k c).

(** A target of the processor side: [p] is the response. *)
Definition respondTarget (now : Z) (p : Packet.t) (initial_offset : Z) (i : nat) (tgt : MSHR.Target) (f : fillState) (c : t) (s : S)
    : outcome (fillState * t * S) :=
  let is_error := MemCmd.isError (Packet.cmd p) in
  let q := MSHR.pkt tgt in
  if MemCmd.isSWPrefetch (Packet.cmd q) && isTopLevel (prm (core c)) then Done (f, c, s)
  else
    let! (f, c) := (if MemCmd.isWriteInvalidate (Packet.cmd q) && isTopLevel (prm (core c))
                    then if is_error then Exited else fill now q i f c else Done (f, c)) in
    let! m := MSHR.get i (regs (core c)) in
    let! (q, time, c, s) :=
      (if f_fill f then
         match f_blk f with
         | None => Exited
         | Some r =>
             let! down := MSHR.hasPostDowngrade m in
             let! (q, k, s) := satisfyCpuSideRequest fresh now q r true down (core c) s in
             let c := withCore k c in
             let! off := Packet.getOffset (blkSize (prm (core c))) q in
             let transfer_offset := off - initial_offset in
             let transfer_offset := if transfer_offset <? 0 then transfer_offset + blkSize (prm (core c)) else transfer_offset in
             let (e, c) := clockEdge now (responseLatency (tprm c)) c in
             let time := wrap 64 (Packet.headerDelay p + (e + (if transfer_offset =? 0 then 0 else Packet.payloadDelay p))) in
             if Request.isUncacheable (Packet.req q) then Exited
             else if negb (checkMaster q c) then Exited
             else Done (q, time, countLatency q (wrap 64 (time - MSHR.recvTime tgt)) c, s)
         end
       else
         let (e, c) := clockEdge now (responseLatency (tprm c)) c in
         let time := wrap 64 (Packet.headerDelay p + (e + Packet.payloadDelay p)) in
         if decide (Packet.cmd p = MemCmd.UpgradeFailResp) then
           if bool_decide (Packet.cmd q = MemCmd.StoreCondReq) || bool_decide (Packet.cmd q = MemCmd.StoreCondFailReq) ||
              bool_decide (Packet.cmd q = MemCmd.SCUpgradeFailReq)
           then Done (Packet.withReq (Request.setExtraData 0 (Packet.req q)) q, time, c, s) else Exited
         else
           let! q := (if MemCmd.isRead (Packet.cmd p) && negb is_error then let! d := Packet.getPtr p in Packet.setData d 0 q else Done q) in
           Done (q, time, c, s)) in
    let! q := Packet.makeResponse q in
    let! q := (if is_error then Packet.copyError p q else Done q) in
    let! q := (if decide (Packet.cmd q = MemCmd.ReadResp) then
                 if MemCmd.isInvalidate (Packet.cmd p) then Done (Packet.withCmd MemCmd.ReadRespWithInvalidate q)
                 else let! inval := MSHR.hasPostInvalidate m in
                      Done (if inval then Packet.withCmd MemCmd.ReadRespWithInvalidate q else q)
               else Done q) in
    let! c := schedTimingResp now (resetDelays q) time c in
    Done (f, c, s).

(** The body of the loop, for the first target. *)
Definition serveTarget (now : Z) (p : Packet.t) (initial_offset : Z) (i : nat) (tgt : MSHR.Target) (f : fillState) (c : t) (s : S)
    : outcome (fillState * t * S) :=
  match MSHR.source tgt with
  | MSHR.FromCPU => respondTarget now p initial_offset i tgt f c s
  | MSHR.FromPrefetcher =>
      if negb (bool_decide (Packet.cmd (MSHR.pkt tgt) = MemCmd.HardPFReq)) then Exited
      else match f_blk f with
      | Some r => let! k := updBlk (CacheBlk.setStatus CacheBlk.BlkHWPrefetched) r (core c) in Done (f, withCore k c, s)
      | None => Done (f, c, s)
      end
  | MSHR.FromSnoop =>
      if MemCmd.isError (Packet.cmd p) then Exited
      else
        let! m := MSHR.get i (regs (core c)) in
        let! inval := MSHR.hasPostInvalidate m in
        if MemCmd.isInvalidate (Packet.cmd p) && negb inval then Exited
        else let! (_, c, s) := handleSnoop now (MSHR.pkt tgt) (f_blk f) true inval c s in Done (f, c, s)
  end.

(** [while (mshr->hasTargets())] *)
Fixpoint serveTargets (fuel : nat) (now : Z) (p : Packet.t) (initial_offset : Z) (i : nat) (f : fillState) (c : t) (s : S)
    : outcome (fillState * t * S) :=
  let! m := MSHR.get i (regs (core c)) in
  if negb (MSHR.hasTargets m) then Done (f, c, s)
  else match fuel with
  | O => OutOfFuel
  | Datatypes.S fuel =>
      let! tgt := MSHR.getTarget m in
      let! (f, c, s) := serveTarget now p initial_offset i tgt f c s in
      let! m := MSHR.get i (regs (core c)) in
      let! m := MSHR.popTarget m in
      serveTargets fuel now p initial_offset i f (setRegs (<[i := m]> (regs (core c))) c) s
  end.

(** The block after the targets: gone, or downgraded. *)
Definition settleBlock (now : Z) (p : Packet.t) (i : nat) (f : fillState) (c : t) : outcome t :=
  match f_blk f with
  | None => Done c
  | Some r =>
      let! b := Cache.getBlk r (core c) in
      if negb (CacheBlk.isValid b) then Done c
      else
        let! m := MSHR.get i (regs (core c)) in
        let! inval := (if MemCmd.isInvalidate (Packet.cmd p) then Done true else MSHR.hasPostInvalidate m) in
        if inval && (negb (MemCmd.isWriteInvalidate (Packet.cmd p)) || negb (isTopLevel (prm (core c)))) then
          match r with
          | Temp => Exited
          | InTags _ => let! k := dropBlk now r (core c) in Done (withCore k c)
          end
        else
          let! down := MSHR.hasPostDowngrade m in
          if down then let! k := updBlk (CacheBlk.clearStatus CacheBlk.BlkWritable) r (core c) in Done (withCore k c) else Done c
  end.

(** The register asks again for its deferred targets, or is freed. *)
Definition releaseRegister (now : Z) (p : Packet.t) (wasFull : bool) (q : MSHRQueueIndex) (i : nat) (f : fillState) (c : t) (s : S)
    : outcome t :=
  let! (promoted, h) := MSHR.promoteDeferredTargets now i (regs (core c)) in
  let c := setRegs h c in
  if promoted then
    let! k := (match f_blk f with
               | Some r => updBlk (CacheBlk.clearStatus CacheBlk.BlkReadable) r (core c)
               | None => Done (core c)
               end) in
    let c := withCore k c in
    let! (mq, h) := MSHRQueue.markPending i (queueAt q c) (regs (core c)) in
    let (e, c) := clockEdge now 0 (setQueue q mq h c) in
    requestMemSideBus now (wrap 64 (e + Packet.payloadDelay p)) c
  else
    let! (mq, h) := MSHRQueue.deallocate i (queueAt q c) (regs (core c)) in
    let c := setQueue q mq h c in
    let! c := (if wasFull && negb (MSHRQueue.isFull mq) then clearBlocked now (causeOf q) c else Done c) in
    if hasPrefetcher (tprm c) && bool_decide (q = MSHRQueue_MSHRs) && MSHRQueue.canPrefetch mq then
      let next := Z.max (nextPrefetchReadyTime s) now in
      if next =? PacketQueue.MaxTick then Done c else requestMemSideBus now next c
    else Done c.

(** The temporary block is written back and cleared. *)
Definition clearTemp (now forward_time : Z) (f : fillState) (c : t) : outcome t :=
  if decide (f_blk f = Some Temp) then
    let! c := (if CacheBlk.isDirty (tempBlock (core c)) then
                 let! (w, k) := writebackBlk fresh now Temp (core c) in
                 let! (_, c) := allocateWriteBuffer now w forward_time true (withCore k c) in Done c
               else Done c) in
    Done (withCore (withTemp (CacheBlk.invalidate (tempBlock (core c))) (core c)) c)
  else Done c.

Definition recvTimingResp (now : Z) (p : Packet.t) (c : t) (s : S) : outcome (t * S) :=
  if negb (MemCmd.isResponse (Packet.cmd p)) then Exited
  else match Packet.senderState p with
  | [] => Exited
  | i :: _ =>
      let! m := MSHR.get i (regs (core c)) in
      let is_error := MemCmd.isError (Packet.cmd p) in
      let q := queueOf i c in
      let wasFull := MSHRQueue.isFull (queueAt q c) in
      let! c := (if decide (noTargetMSHR c = Some i)
                 then let! c := clearBlocked now Blocked_NoTargets c in Done (withNoTarget None c) else Done c) in
      let! initial_tgt := MSHR.getTarget m in
      let! a := Packet.getCacheAddr p in
      let! sec := Packet.isSecure p in
      let! blk := CacheTags.findBlock a sec (tags (core c)) in
      let key := (MemCmd.toInt (Packet.cmd (MSHR.pkt initial_tgt)), Request.masterId (Packet.req p)) in
      let miss_latency := wrap 64 (now - MSHR.recvTime initial_tgt) in
      let (e, c) := clockEdge now (forwardLatency (prm (core c))) c in
      let forward_time := wrap 64 (e + Packet.headerDelay p) in
      if negb (checkMaster p c) then Exited
      else
        let c := countMissLatency key (Request.isUncacheable (Packet.req p)) miss_latency c in
        let is_fill := negb (MSHR.isForward m) && (MemCmd.isRead (Packet.cmd p) || bool_decide (Packet.cmd p = MemCmd.UpgradeResp)) in
        let f := mkFill (InTags <$> blk) is_fill [] in
        let! (f, c) := (if is_fill && negb is_error then fill now p i f c else Done (f, c)) in
        let! initial_offset := Packet.getOffset (blkSize (prm (core c))) (MSHR.pkt initial_tgt) in
        let! m := MSHR.get i (regs (core c)) in
        let! (f, c, s) := serveTargets (MSHR.getNumTargets m) now p initial_offset i f c s in
        let! c := settleBlock now p i f c in
        let! c := releaseRegister now p wasFull q i f c s in
        let (e, c) := (match f_wbs f with [] => (0, c) | _ => clockEdge now (forwardLatency (prm (core c))) c end) in
        let! c := bufferWritebacks now e (f_wbs f) c in
        let! c := clearTemp now forward_time f c in
        Done (c, s)
  end.

(** [recvTimingSnoopResp(pkt)]: a response from a cache above; only a prefetch
    of this cache has no record. *)
Definition recvTimingSnoopResp (now : Z) (p : Packet.t) (c : t) (s : S) : outcome (t * S) :=
  if negb (MemCmd.isResponse (Packet.cmd p)) then Exited
  else if bypassCaches (prm (core c)) then Exited
  else match Packet.senderState p with
  | r :: _ =>
      if decide (r ∈ records c) then
        let! (_, p) := Packet.popSenderState p in
        let c := deleteRecord r c in
        let (e, c) := clockEdge now (forwardLatency (prm (core c))) c in
        let! c := schedTimingSnoopResp now (resetDelays p) (wrap 64 (e + Packet.headerDelay p)) false c in
        Done (c, s)
      else if decide (Packet.cmd p = MemCmd.HardPFResp) then recvTimingResp now p c s else Exited
  | [] => if decide (Packet.cmd p = MemCmd.HardPFResp) then recvTimingResp now p c s else Exited
  end.

(** ** Sending requests *)

(** A prefetch takes a register when its line is nowhere in the cache. *)
Definition tryPrefetch (now : Z) (c : t) (s : S) : outcome (option nat * t * S) :=
  if hasPrefetcher (tprm c) && MSHRQueue.canPrefetch (mshrQueue (core c)) then
    let! (pkt, s) := getPacket now s in
    match pkt with
    | None => Done (None, c, s)
    | Some p =>
        let! a := Packet.getCacheAddr p in
        let pf_addr := blockAlign (core c) a in
        let! sec := Packet.isSecure p in
        let! blk := CacheTags.findBlock pf_addr sec (tags (core c)) in
        let! m1 := MSHRQueue.findMatch pf_addr sec (mshrQueue (core c)) (regs (core c)) in
        let! m2 := MSHRQueue.findMatch pf_addr sec (writeBuffer (core c)) (regs (core c)) in
        match blk, m1, m2 with
        | None, None, None =>
            if negb (checkMaster p c) then Exited
            else
              let! (i, c) := allocateMissBuffer now p now false (countMiss p c) in
              Done (Some i, c, s)
        | _, _, _ => Done (None, c, s)
        end
    end
  else Done (None, c, s).

(** [getNextMSHR()]: a full write buffer first, then the misses; conflicting
    requests are sent in order. *)
Definition pickMSHR (now : Z) (c : t) : outcome (option nat) :=
  let k := core c in
  let! miss := MSHRQueue.getNextMSHR now (mshrQueue k) (regs k) in
  let! write := MSHRQueue.getNextMSHR now (writeBuffer k) (regs k) in
  let full := MSHRQueue.isFull (writeBuffer k) && (MSHRQueue.inServiceEntries (writeBuffer k) =? 0) in
  match write, miss with
  | Some w, _ =>
      if full || (match miss with None => true | Some _ => false end) then
        let! mw := MSHR.get w (regs k) in
        let! conflict := MSHRQueue.findPending (MSHR.addr mw) (MSHR.size mw) (MSHR.isSecure mw) (mshrQueue k) (regs k) in
        match conflict with
        | Some x => let! mx := MSHR.get x (regs k) in Done (if MSHR.order mx <? MSHR.order mw then Some x else Some w)
        | None => Done (Some w)
        end
      else match miss with
      | Some i =>
          let! mi := MSHR.get i (regs k) in
          let! conflict := MSHRQueue.findPending (MSHR.addr mi) (MSHR.size mi) (MSHR.isSecure mi) (writeBuffer k) (regs k) in
          Done (match conflict with Some x => Some x | None => Some i end)
      | None => Exited
      end
  | None, Some i =>
      let! mi := MSHR.get i (regs k) in
      let! conflict := MSHRQueue.findPending (MSHR.addr mi) (MSHR.size mi) (MSHR.isSecure mi) (writeBuffer k) (regs k) in
      Done (match conflict with Some x => Some x | None => Some i end)
  | None, None => Done None
  end.

Definition getNextMSHR (now : Z) (c : t) (s : S) : outcome (option nat * t * S) :=
  let! pick := pickMSHR now c in
  match pick with
  | Some i => Done (Some i, c, s)
  | None => tryPrefetch now c s
  end.

(** A prefetch is checked with the caches above: [None] when it may go on. *)
Definition snoopPrefetch (now : Z) (p : Packet.t) (i : nat) (blk : option nat) (c : t) (s : S) : outcome (bool * t * S) :=
  let! snoop := Packet.copy fresh true false p in
  let snoop := Packet.withSenders [i] (Packet.setExpressSnoop snoop) in
  let! (snoop, s) := sendTimingSnoopReq snoop s in
  if Packet.memInhibitAsserted snoop then
    let! c := markInService now i (negb (Packet.sharedAsserted snoop)) c in
    Done (false, c, s)
  else if Packet.prefetchSquashed snoop || (match blk with Some _ => true | None => false end) then
    let q := queueOf i c in
    let! (freed, mq, h) := MSHRQueue.forceDeallocateTarget now i (queueAt q c) (regs (core c)) in
    let c := setQueue q mq h c in
    let! c := (if freed then clearBlocked now (causeOf q) c else Done c) in
    Done (false, c, s)
  else Done (true, c, s).

Definition withForward (b : bool) (m : MSHR.t) : MSHR.t :=
  MSHR.mk (MSHR.readyTime m) (MSHR.isUncacheable m) (MSHR.downstreamPending m) (MSHR.pendingDirty m) (MSHR.postInvalidate m)
    (MSHR.postDowngrade m) (MSHR.order m) (MSHR.addr m) (MSHR.size m) (MSHR.isSecure m) (MSHR.inService m) b (MSHR.threadNum m)
    (MSHR.targets m) (MSHR.deferredTargets m).

(** [getTimingPacket()]: the packet, with its register as sender state. *)
Definition getTimingPacket (now : Z) (c : t) (s : S) : outcome (option (Packet.t * nat) * t * S) :=
  let! (mshr, c, s) := getNextMSHR now c s in
  match mshr with
  | None => Done (None, c, s)
  | Some i =>
      let! m := MSHR.get i (regs (core c)) in
      let! tgt := MSHR.getTarget m in
      let tgt_pkt := MSHR.pkt tgt in
      let! fwd := MSHR.isForwardNoResponse m in
      let! blk := CacheTags.findBlock (MSHR.addr m) (MSHR.isSecure m) (tags (core c)) in
      if fwd then
        match blk with
        | Some _ => Exited
        | None =>
            let tag x := MSHR.onPkt (Packet.withSenders [i]) x in
            let m := MSHR.onTargets false (fun l => MSHR.withElems (match MSHR.elems l with x :: e => tag x :: e | [] => [] end) l) m in
            Done (Some (Packet.withSenders [i] tgt_pkt, i), setRegs (<[i := m]> (regs (core c))) c, s)
        end
      else
        let! (go, c, s) := (if decide (Packet.cmd tgt_pkt = MemCmd.HardPFReq) then snoopPrefetch now tgt_pkt i blk c s else Done (true, c, s)) in
        if negb go then Done (None, c, s)
        else
          let! b := (match blk with Some j => let! b := Cache.getBlk (InTags j) (core c) in Done (Some b) | None => Done None end) in
          let! m := MSHR.get i (regs (core c)) in
          let! bus := getBusPacket fresh tgt_pkt b (MSHR.needsExclusive m) (core c) in
          let c := setRegs (<[i := withForward (match bus with None => true | Some _ => false end) m]> (regs (core c))) c in
          let! pkt := (match bus with
                       | Some q => Done q
                       | None =>
                           let! q := Packet.copy fresh false true tgt_pkt in
                           if MemCmd.isWrite (Packet.cmd q) then let! d := Packet.getPtr tgt_pkt in Packet.setData d 0 q else Done q
                       end) in
          Done (Some (Packet.withSenders [i] pkt, i), c, s)
  end.

Definition nextMSHRReadyTime (c : t) (s : S) : outcome Z :=
  let! a := MSHRQueue.nextMSHRReadyTime (mshrQueue (core c)) (regs (core c)) in
  let! b := MSHRQueue.nextMSHRReadyTime (writeBuffer (core c)) (regs (core c)) in
  let next := Z.min a b in
  Done (if hasPrefetcher (tprm c) && MSHRQueue.canPrefetch (mshrQueue (core c)) then Z.min next (nextPrefetchReadyTime s) else next).

(** The end of [sendDeferredPacket]: the next send. *)
Definition scheduleNext (now : Z) (c : t) (s : S) : outcome (t * S) :=
  if PacketQueue.waitingOnRetry (reqQueue (core c)) then Done (c, s)
  else
    let! time := nextMSHRReadyTime c s in
    let! q := PacketQueue.schedSendEvent now time (reqQueue (core c)) in
    Done (setReqQueue q c, s).

(** [CacheReqPacketQueue::sendDeferredPacket()] *)
Definition sendDeferredPacket (now : Z) (c : t) (s : S) : outcome (t * S) :=
  if PacketQueue.waitingOnRetry (reqQueue (core c)) then Exited
  else if negb (PacketQueue.deferredPacketReadyTime (reqQueue (core c)) =? PacketQueue.MaxTick) then Exited
  else
    let! (next, c, s) := getTimingPacket now c s in
    match next with
    | None => scheduleNext now c s
    | Some (p, i) =>
        let! a := Packet.getCacheAddr p in
        let! wait := PacketQueue.hasAddr a (snoopRespQueue (core c)) in
        if wait then
          let! q := PacketQueue.schedSendEvent now (PacketQueue.deferredPacketReadyTime (snoopRespQueue (core c))) (reqQueue (core c)) in
          Done (setReqQueue q c, s)
        else
          let! (sent, p, s) := sendTimingReq p s in
          let c := setReqQueue (PacketQueue.withRetry (negb sent) (reqQueue (core c))) c in
          let! c := (if sent then markInService now i (negb (Packet.sharedAsserted p) && Packet.memInhibitAsserted p) c else Done c) in
          scheduleNext now c s
    end.

(** [processSendEvent()] and [retry()] of the request queue. *)
Definition processSendEvent (now : Z) (c : t) (s : S) : outcome (t * S) :=
  let c := setReqQueue (PacketQueue.withEvent None (reqQueue (core c))) c in
  if PacketQueue.waitingOnRetry (reqQueue (core c)) then Exited else sendDeferredPacket now c s.
Definition recvReqRetry (now : Z) (c : t) (s : S) : outcome (t * S) :=
  if PacketQueue.waitingOnRetry (reqQueue (core c))
  then sendDeferredPacket now (setReqQueue (PacketQueue.withRetry false (reqQueue (core c))) c) s else Exited.

End handlers.

(** [BaseCache::drain(dm)]: how many parts are still to drain. *)
Definition drain (dm : nat) (c : t) : Z * t :=
  let k := core c in
  let (n1, rq) := PacketQueue.drain dm (reqQueue k) in
  let (n2, sq) := PacketQueue.drain dm (snoopRespQueue k) in
  let (n3, pq) := PacketQueue.drain dm (respQueue k) in
  let (n4, mq) := MSHRQueue.drain dm (mshrQueue k) in
  let (n5, wb) := MSHRQueue.drain dm (writeBuffer k) in
  (n1 + n2 + n3 + n4 + n5,
   withCore (Cache.mk (prm k) (tags k) (tempBlock k) mq wb (regs k) pq rq sq (clock k) (hits k) (misses k) (writebacks k) (missCount k)
               (exitRequested k)) c).

(** [serialize] writes [bad_checkpoint]; a cache with dirty data cannot be
    restored. *)
Definition serialize (c : t) : bool := Cache.isDirty (core c).
Definition unserialize (bad_checkpoint : bool) (c : t) : outcome t := if bad_checkpoint then Exited else Done c.
End CacheTiming.
