(* ===== verification/CacheBlocking.v ===== *)
(** * Blocking: gem5/src/mem/cache/base.hh and cache_impl.hh in timing mode

    The cache refuses requests exactly while a queue is full or a register is
    out of targets, and a refused request is retried.  The handlers that move
    data are framed first: they leave the queues and the flags alone. *)

From Stdlib Require Import ZArith Lia.
From stdpp Require Import base gmap numbers list.
From S2P Require Import Prelude Bits AddrRange MemCmd Request Packet AbstractMem CacheBlk CacheTags MSHR MSHRQueue PacketQueue ClockedObject Cache CacheTiming.

#[local] Open Scope Z_scope.
#[local] Open Scope outcome_scope.

Module CacheBlocking.
Import Cache CacheTiming.

(** Take a finished computation apart. *)
Ltac done_inv := repeat match goal with
  | H : obind _ _ = Done _ |- _ => apply obind_Done in H; destruct H as (? & ? & H)
  | H : Exited = Done _ |- _ => discriminate H
  | H : OutOfFuel = Done _ |- _ => discriminate H
  | H : Done _ = Done _ |- _ => inversion H; clear H; subst
  | x : _ * _ |- _ => destruct x
  | H : (if ?b then _ else _) = Done _ |- _ => destruct b eqn:?
  | H : match ?x with _ => _ end = Done _ |- _ => destruct x eqn:?
  | H : (_, _) = (_, _) |- _ => inversion H; clear H; subst
  | H : match ?x with _ => _ end = (_, _) |- _ => destruct x eqn:?
  end.

(** ** The data path leaves the queues alone *)

Definition queuesOf (k : Cache.t) : MSHRQueue.t * MSHRQueue.t * MSHR.heap := (mshrQueue k, writeBuffer k, regs k).

Lemma setBlk_frame r b k : queuesOf (Cache.setBlk r b k) = queuesOf k.
Proof. by destruct r. Qed.

Lemma updBlk_frame f r k k' : updBlk f r k = Done k' -> queuesOf k' = queuesOf k.
Proof. unfold updBlk. intros H. done_inv. apply setBlk_frame. Qed.

Lemma dropBlk_frame now r k k' : dropBlk now r k = Done k' -> queuesOf k' = queuesOf k.
Proof. unfold dropBlk. intros H. done_inv; apply updBlk_frame in H; by rewrite H. Qed.

Lemma incHitCount_frame p k k' : incHitCount p k = Done k' -> queuesOf k' = queuesOf k.
Proof. unfold incHitCount. intros H. by done_inv. Qed.

Lemma incMissCount_frame p k p' k' : incMissCount p k = Done (p', k') -> queuesOf k' = queuesOf k.
Proof. unfold incMissCount. intros H. by done_inv. Qed.

(** Use the frames of the calls in the context. *)
Ltac use_frame L := match goal with H : _ = Done _ |- _ => apply L in H end.
Ltac split_if := repeat match goal with
  | _ : context [queuesOf (if ?b then _ else _)] |- _ => destruct b
  | |- context [queuesOf (if ?b then _ else _)] => destruct b
  end.
Ltac chase := rewrite ?setBlk_frame; repeat match goal with
  | H : queuesOf _ = _ |- queuesOf _ = _ => refine (eq_trans H _); clear H; rewrite ?setBlk_frame
  end; reflexivity.
Ltac framed frames := done_inv; repeat frames; split_if; chase.

Section data_path.
Context {S : Type} `{Ports S} (fresh : Z -> buffer).

Ltac base_frames := first [use_frame updBlk_frame | use_frame dropBlk_frame | use_frame incHitCount_frame | use_frame incMissCount_frame].

Lemma cmpAndSwap_frame r p k p' k' : cmpAndSwap fresh r p k = Done (p', k') -> queuesOf k' = queuesOf k.
Proof. unfold cmpAndSwap. intros E. framed base_frames. Qed.

Lemma writeThrough_frame r p k s p' k' s' : writeThrough fresh r p k s = Done (p', k', s') -> queuesOf k' = queuesOf k.
Proof. unfold writeThrough. intros E. framed base_frames. Qed.

Lemma supplyBlock_frame now r p d pd k p' k' : supplyBlock now r p d pd k = Done (p', k') -> queuesOf k' = queuesOf k.
Proof. unfold supplyBlock. intros E. framed base_frames. Qed.

Lemma satisfy_frame now p r d pd k s p' k' s' : satisfyCpuSideRequest fresh now p r d pd k s = Done (p', k', s') -> queuesOf k' = queuesOf k.
Proof.
  unfold satisfyCpuSideRequest. intros E.
  framed ltac:(first [base_frames | use_frame cmpAndSwap_frame | use_frame writeThrough_frame | use_frame supplyBlock_frame]).
Qed.

Lemma writebackBlk_frame now r k w k' : writebackBlk fresh now r k = Done (w, k') -> queuesOf k' = queuesOf k.
Proof. unfold writebackBlk. intros E. framed base_frames. Qed.

Lemma writebackVisitor_frame now r k s k' s' : writebackVisitor now r k s = Done (k', s') -> queuesOf k' = queuesOf k.
Proof. unfold writebackVisitor. intros E. framed base_frames. Qed.

Lemma invalidateVisitor_frame now r k k' : invalidateVisitor now r k = Done k' -> queuesOf k' = queuesOf k.
Proof. unfold invalidateVisitor. intros E. framed base_frames. Qed.

Lemma uncacheableFlush_frame now p k s k' s' : uncacheableFlush now p k s = Done (k', s') -> queuesOf k' = queuesOf k.
Proof.
  unfold uncacheableFlush. intros E. framed ltac:(first [use_frame writebackVisitor_frame | use_frame invalidateVisitor_frame]).
Qed.

Lemma allocateBlock_frame now a k i w k' : allocateBlock fresh now a k = Done (i, w, k') -> queuesOf k' = queuesOf k.
Proof. unfold allocateBlock. intros E. framed ltac:(first [use_frame writebackBlk_frame]). Qed.

Lemma fillBlock_frame now p a blk k r w k' : fillBlock fresh now p a blk k = Done (r, w, k') -> queuesOf k' = queuesOf k.
Proof. unfold fillBlock. intros E. framed ltac:(first [use_frame allocateBlock_frame]). Qed.

Lemma handleFill_frame now p blk k r w k' : Cache.handleFill fresh now p blk k = Done (r, w, k') -> queuesOf k' = queuesOf k.
Proof. unfold Cache.handleFill. intros E. framed ltac:(first [use_frame fillBlock_frame]). Qed.

Lemma accessWriteback_frame now p a sec blk k r k' q b w : accessWriteback fresh now p a sec blk k = Done (r, q, b, w, k') -> queuesOf k' = queuesOf k.
Proof. unfold accessWriteback. intros E. framed ltac:(first [base_frames | use_frame allocateBlock_frame]). Qed.

Lemma access_frame now p k s r q b lat w k' s' : access fresh now p k s = Done (r, q, b, lat, w, k', s') -> queuesOf k' = queuesOf k.
Proof.
  unfold access. intros E.
  framed ltac:(first [base_frames | use_frame uncacheableFlush_frame | use_frame accessWriteback_frame | use_frame satisfy_frame]).
Qed.

End data_path.

(** ** What the flags say *)

(** All that blocking depends on. *)
Definition view (c : t) : MSHRQueue.t * MSHRQueue.t * Z * option nat * slavePort :=
  (mshrQueue (core c), writeBuffer (core c), blocked c, noTargetMSHR c, port c).

(** The port is blocked as the mask says, and owes a retry exactly when the
    retry is scheduled or has to wait until the port is free. *)
Record portOK (c : t) : Prop := {
  bk_range : 0 <= blocked c < 8;
  bk_port : blocked_ (port c) = negb (blocked c =? 0);
  bk_retry : is_Some (sendRetryEvent (port c)) <-> mustSendRetry (port c) = true /\ blocked_ (port c) = false }.

(** Each bit of the mask is set exactly while its cause lasts. *)
Record blockedOK (c : t) : Prop := {
  bk_ok : portOK c;
  bk_queue : forall q, Z.testbit (blocked c) (causeIndex (causeOf q)) = MSHRQueue.isFull (queueAt q c);
  bk_targets : Z.testbit (blocked c) (causeIndex Blocked_NoTargets) = bool_decide (is_Some (noTargetMSHR c)) }.

Lemma blockedOK_view c c' : view c' = view c -> blockedOK c -> blockedOK c'.
Proof.
  intros [= E1 E2 E3 E4 E5] [[H1 H2 H3] H4 H5]. split; [split|..]; rewrite ?E3, ?E4, ?E5; try done.
  intros q. rewrite H4. destruct q; cbn; congruence.
Qed.

(** With [quiet], also no retry is owed. *)
Definition kept (quiet : bool) (c : t) : Prop := blockedOK c /\ (quiet = true -> mustSendRetry (port c) = false).

Lemma kept_view quiet c c' : view c' = view c -> kept quiet c -> kept quiet c'.
Proof. intros E [Hc Hm]. split; [by eapply blockedOK_view|]. by injection E as _ _ _ _ ->. Qed.

Lemma mask_cases m : 0 <= m < 8 -> m = 0 \/ m = 1 \/ m = 2 \/ m = 3 \/ m = 4 \/ m = 5 \/ m = 6 \/ m = 7.
Proof. lia. Qed.

(** [setBlocked] does not fail, and sets its bit. *)
Lemma setBlocked_spec now k c : portOK c -> exists c', setBlocked now k c = Done c' /\ portOK c' /\
  blocked c' = Z.lor (blocked c) (2 ^ causeIndex k) /\ queuesOf (core c') = queuesOf (core c) /\ noTargetMSHR c' = noTargetMSHR c /\ tprm c' = tprm c.
Proof.
  intros [Hr Hp He]. unfold setBlocked. replace (wrap 8 (Z.shiftl 1 (causeIndex k))) with (2 ^ causeIndex k) by (by destruct k).
  assert (Hr' : 0 <= Z.lor (blocked c) (2 ^ causeIndex k) < 8 /\ Z.lor (blocked c) (2 ^ causeIndex k) <> 0)
    by (destruct (mask_cases _ Hr) as [->|[->|[->|[->|[->|[->|[->| ->]]]]]]], k; vm_compute; repeat split; congruence).
  destruct Hr' as [Hr' Hne]. apply Z.eqb_neq in Hne. destruct (Z.eqb_spec (blocked c) 0) as [E|E].
  - unfold curCycle. destruct (ClockedObject.curCycle _ _ _) as [cyc clk]. cbn [port withCore withStat]. unfold portSetBlocked.
    rewrite Hp, E. cbn [Z.eqb negb]. destruct (sendRetryEvent (port c)) as [tk|] eqn:Ev; cbn [obind];
      (eexists; split; [done|]; split; [|cbn; by rewrite ?E]; split; cbn [blocked withBlocked withCore withStat port blocked_ sendRetryEvent mustSendRetry];
       rewrite ?E in *; rewrite ?Hne; try done; split; [by intros []|by intros []]).
  - eexists. split; [done|]. split; [|done]. split; cbn [blocked withBlocked port]; rewrite ?Hne; done.
Qed.

(** It owes a retry only when one was due. *)
Lemma setBlocked_quiet now k c c' : setBlocked now k c = Done c' -> portOK c -> mustSendRetry (port c) = false -> mustSendRetry (port c') = false.
Proof.
  unfold setBlocked, curCycle. intros E [_ _ He] Hm. destruct (blocked c =? 0); [|by injection E as <-].
  destruct (ClockedObject.curCycle _ _ _) as [cyc clk]. cbn [port withCore withStat] in E. unfold portSetBlocked in E.
  destruct (blocked_ (port c)); [discriminate|]. destruct (sendRetryEvent (port c)); [|by injection E as <-].
  destruct (proj1 He) as [X _]; [by eexists|congruence].
Qed.

(** [clearBlocked] of a cause that is set does not fail, and clears its bit;
    a port that becomes free schedules the retry it owes. *)
Lemma clearBlocked_spec now k c : portOK c -> Z.testbit (blocked c) (causeIndex k) = true -> exists c', clearBlocked now k c = Done c' /\ portOK c' /\
  blocked c' = Z.ldiff (blocked c) (2 ^ causeIndex k) /\ queuesOf (core c') = queuesOf (core c) /\ noTargetMSHR c' = noTargetMSHR c /\ tprm c' = tprm c.
Proof.
  intros [Hr Hp He] Hb. unfold clearBlocked.
  assert (E : Z.land (blocked c) (bnot 8 (wrap 8 (Z.shiftl 1 (causeIndex k)))) = Z.ldiff (blocked c) (2 ^ causeIndex k) /\
    0 <= Z.ldiff (blocked c) (2 ^ causeIndex k) < 8 /\ blocked c <> 0)
    by (destruct (mask_cases _ Hr) as [X|[X|[X|[X|[X|[X|[X|X]]]]]]]; rewrite X in *; destruct k; first [discriminate Hb | vm_compute; repeat split; congruence]).
  destruct E as (-> & Hr' & Hne). apply Z.eqb_neq in Hne. rewrite Hne in Hp. cbn in Hp.
  destruct (Z.eqb_spec (Z.ldiff (blocked c) (2 ^ causeIndex k)) 0) as [E|E].
  - unfold curCycle. cbn [core withBlocked]. destruct (ClockedObject.curCycle _ _ _) as [cyc clk]. cbn [port withCore withStat withBlocked].
    unfold portClearBlocked. rewrite Hp. cbn [negb]. destruct (mustSendRetry (port c)) eqn:Hm.
    + destruct (sendRetryEvent (port c)) as [tk|] eqn:Ev.
      { destruct (proj1 He) as [_ X]; [by eexists|congruence]. }
      cbn [obind]. eexists. split; [done|]. split; [|done]. split; cbn [blocked withPort withBlocked withCore withStat port blocked_ sendRetryEvent mustSendRetry];
        rewrite ?E; done.
    + cbn [obind]. eexists. split; [done|]. split; [|done]. split; cbn [blocked withPort withBlocked withCore withStat port blocked_ sendRetryEvent mustSendRetry];
        rewrite ?E; try done. split; [intros X; destruct (proj1 He X); congruence|by intros []].
  - eexists. split; [done|]. split; [|done]. apply Z.eqb_neq in E. split; cbn [blocked withBlocked port]; rewrite ?E; done.
Qed.

(** ** Queues *)

Lemma mask_set m k j : 0 <= m < 8 -> Z.testbit (Z.lor m (2 ^ causeIndex k)) (causeIndex j) = (Z.testbit m (causeIndex j) || (causeIndex j =? causeIndex k)).
Proof. intros H. rewrite Z.lor_spec, (Z.eqb_sym (causeIndex j)), <- Z.pow2_bits_eqb; [done|by destruct k]. Qed.

Lemma mask_clear m k j : 0 <= m < 8 -> Z.testbit (Z.ldiff m (2 ^ causeIndex k)) (causeIndex j) = (Z.testbit m (causeIndex j) && negb (causeIndex j =? causeIndex k)).
Proof. intros H. rewrite Z.ldiff_spec, (Z.eqb_sym (causeIndex j)), <- Z.pow2_bits_eqb; [done|by destruct k]. Qed.

Lemma isFull_less q q' : MSHRQueue.numEntries q' = MSHRQueue.numEntries q -> MSHRQueue.numReserve q' = MSHRQueue.numReserve q ->
  MSHRQueue.allocated q' <= MSHRQueue.allocated q -> MSHRQueue.isFull q' = true -> MSHRQueue.isFull q = true.
Proof. unfold MSHRQueue.isFull. intros -> -> Hl Hf%Z.ltb_lt. apply Z.ltb_lt. lia. Qed.

Lemma allocate_full now a n p w o q h i q' h' : MSHRQueue.allocate now a n p w o q h = Done (i, q', h') ->
  MSHRQueue.isFull q = true -> MSHRQueue.isFull q' = true.
Proof. unfold MSHRQueue.allocate. intros H. done_inv. unfold MSHRQueue.isFull. intros Hf%Z.ltb_lt. apply Z.ltb_lt.
  cbn [MSHRQueue.withLists MSHRQueue.numEntries MSHRQueue.numReserve MSHRQueue.allocated]. lia. Qed.

Lemma deallocateOne_full i q h q' h' : MSHRQueue.deallocateOne i q h = Done (q', h') -> MSHRQueue.isFull q' = true -> MSHRQueue.isFull q = true.
Proof.
  unfold MSHRQueue.deallocateOne. intros H. done_inv; unfold MSHRQueue.signalDrain; cbn [MSHRQueue.drainManager MSHRQueue.withLists];
    (destruct (MSHRQueue.drainManager q); [destruct (_ =? 0)|]); apply isFull_less; cbn; lia.
Qed.

Lemma markInService_full d i q h q' h' : MSHRQueue.markInService d i q h = Done (q', h') -> MSHRQueue.isFull q' = true -> MSHRQueue.isFull q = true.
Proof. unfold MSHRQueue.markInService. intros H. done_inv; [by eapply deallocateOne_full|done]. Qed.

Lemma markPending_full i q h q' h' : MSHRQueue.markPending i q h = Done (q', h') -> MSHRQueue.isFull q' = MSHRQueue.isFull q.
Proof. unfold MSHRQueue.markPending. intros H. by done_inv. Qed.

Lemma forceDeallocate_full now i q h b q' h' : MSHRQueue.forceDeallocateTarget now i q h = Done (b, q', h') ->
  b = MSHRQueue.isFull q && negb (MSHRQueue.isFull q') /\ (MSHRQueue.isFull q' = true -> MSHRQueue.isFull q = true).
Proof.
  unfold MSHRQueue.forceDeallocateTarget. intros H. done_inv; (split; [done|]); try done. by eapply deallocateOne_full.
Qed.

Lemma queueAt_set q q' mq h c : queueAt q' (setQueue q mq h c) = if decide (q' = q) then mq else queueAt q' c.
Proof. by destruct q, q'. Qed.

Lemma causeIndex_queue q q' : (causeIndex (causeOf q') =? causeIndex (causeOf q)) = bool_decide (q' = q).
Proof. by destruct q, q'. Qed.

Lemma cause_targets q : (causeIndex (causeOf q) =? causeIndex Blocked_NoTargets) = false /\ (causeIndex Blocked_NoTargets =? causeIndex (causeOf q)) = false.
Proof. by destruct q. Qed.

Lemma queueAt_queues q c c' : queuesOf (core c') = queuesOf (core c) -> queueAt q c' = queueAt q c.
Proof. intros [= E1 E2 _]. by destruct q. Qed.

Lemma queueAt_set_regs q h c : queueAt q c = queueAt q (setRegs h c).
Proof. by destruct q. Qed.

Lemma portOK_set q mq h c : portOK c -> portOK (setQueue q mq h c).
Proof. by intros [H1 H2 H3]. Qed.

(** A queue takes a register. *)
Lemma grow_ok now q mq h c c' : blockedOK c -> (MSHRQueue.isFull (queueAt q c) = true -> MSHRQueue.isFull mq = true) ->
  (if MSHRQueue.isFull mq then setBlocked now (causeOf q) (setQueue q mq h c) else Done (setQueue q mq h c)) = Done c' -> blockedOK c'.
Proof.
  intros [Hok Hq Ht] Hg H. pose proof (bk_range _ Hok) as Hr. destruct (MSHRQueue.isFull mq) eqn:Ef.
  - destruct (setBlocked_spec now (causeOf q) _ (portOK_set q mq h c Hok)) as (x & Hx & Hok' & Eb & Eq & En & _). rewrite H in Hx. injection Hx as <-.
    split; [done|intros q'|]; rewrite Eb; change (blocked (setQueue q mq h c)) with (blocked c); rewrite mask_set by done.
    + rewrite causeIndex_queue, Hq, (queueAt_queues q' _ _ Eq), queueAt_set. case_decide as X; [by subst; rewrite bool_decide_true, orb_true_r|].
      by rewrite bool_decide_false, orb_false_r.
    + by rewrite (proj2 (cause_targets q)), orb_false_r, En, Ht.
  - injection H as <-. split; [by apply portOK_set| |done]. intros q'. rewrite queueAt_set. cbn [blocked setQueue withCore]. rewrite Hq.
    case_decide as X; [|done]. subst. destruct (MSHRQueue.isFull (queueAt q c)); [by rewrite Hg in Ef|done].
Qed.

(** A queue gives registers back. *)
Lemma shrink_ok now q mq h c c' : blockedOK c -> (MSHRQueue.isFull mq = true -> MSHRQueue.isFull (queueAt q c) = true) ->
  (if MSHRQueue.isFull (queueAt q c) && negb (MSHRQueue.isFull mq) then clearBlocked now (causeOf q) (setQueue q mq h c)
   else Done (setQueue q mq h c)) = Done c' -> blockedOK c'.
Proof.
  intros [Hok Hq Ht] Hg H. pose proof (bk_range _ Hok) as Hr. destruct (_ && _) eqn:Ef.
  - apply andb_true_iff in Ef as [Ef1 Ef2%negb_true_iff].
    destruct (clearBlocked_spec now (causeOf q) _ (portOK_set q mq h c Hok)) as (x & Hx & Hok' & Eb & Eq & En & _); [cbn; by rewrite Hq|].
    rewrite H in Hx. injection Hx as <-.
    split; [done|intros q'|]; rewrite Eb; change (blocked (setQueue q mq h c)) with (blocked c); rewrite mask_clear by done.
    + rewrite causeIndex_queue, Hq, (queueAt_queues q' _ _ Eq), queueAt_set. case_decide as X; [by subst; rewrite bool_decide_true, andb_false_r|].
      by rewrite bool_decide_false, andb_true_r.
    + by rewrite (proj2 (cause_targets q)), andb_true_r, En, Ht.
  - injection H as <-. split; [by apply portOK_set| |done]. intros q'. rewrite queueAt_set. cbn [blocked setQueue withCore]. rewrite Hq.
    case_decide as X; [|done]. subst. destruct (MSHRQueue.isFull (queueAt q c)), (MSHRQueue.isFull mq); try done. by apply Hg.
Qed.

(** The same for [kept]. *)
Lemma grow_kept now q mq h g c c' : kept g c -> (MSHRQueue.isFull (queueAt q c) = true -> MSHRQueue.isFull mq = true) ->
  (if MSHRQueue.isFull mq then setBlocked now (causeOf q) (setQueue q mq h c) else Done (setQueue q mq h c)) = Done c' -> kept g c'.
Proof.
  intros [Hc Hm] Hg E. split; [by eapply grow_ok|]. intros Hq. specialize (Hm Hq). destruct (MSHRQueue.isFull mq); [|by injection E as <-].
  eapply setBlocked_quiet; [done| |done]. apply portOK_set, Hc.
Qed.

Lemma shrink_kept now q mq h c c' : kept false c -> (MSHRQueue.isFull mq = true -> MSHRQueue.isFull (queueAt q c) = true) ->
  (if MSHRQueue.isFull (queueAt q c) && negb (MSHRQueue.isFull mq) then clearBlocked now (causeOf q) (setQueue q mq h c)
   else Done (setQueue q mq h c)) = Done c' -> kept false c'.
Proof. intros [Hc _] Hg E. split; [|done]. by eapply shrink_ok. Qed.

(** ** The handlers *)

Create HintDb blocking.
Create HintDb viewing.

Lemma withCore_ok g k c : queuesOf k = queuesOf (core c) -> kept g c -> kept g (withCore k c).
Proof. intros [= E1 E2 _]. apply kept_view. unfold view. cbn. congruence. Qed.

Lemma setRegs_ok g h c : kept g c -> kept g (setRegs h c).
Proof. by apply kept_view. Qed.
Lemma withDelete_ok g l c : kept g c -> kept g (withDelete l c).
Proof. by apply kept_view. Qed.
Lemma withRecords_ok g l c : kept g c -> kept g (withRecords l c).
Proof. by apply kept_view. Qed.
Lemma withStat_ok g x c : kept g c -> kept g (withStat x c).
Proof. by apply kept_view. Qed.
Lemma withOrder_ok g x c : kept g c -> kept g (withOrder x c).
Proof. by apply kept_view. Qed.
Lemma setReqQueue_ok g x c : kept g c -> kept g (setReqQueue x c).
Proof. by apply kept_view. Qed.

Lemma clockEdge_ok g now n c e c' : clockEdge now n c = (e, c') -> kept g c -> kept g c'.
Proof. unfold clockEdge. intros H. done_inv. by apply kept_view. Qed.
Lemma nextOrder_ok g c o c' : nextOrder c = (o, c') -> kept g c -> kept g c'.
Proof. unfold nextOrder. intros H. done_inv. by apply kept_view. Qed.
Lemma newRecord_ok g c r c' : newRecord c = (r, c') -> kept g c -> kept g c'.
Proof. unfold newRecord. intros H. done_inv. by apply kept_view. Qed.
Lemma deleteRecord_ok g r c : kept g c -> kept g (deleteRecord r c).
Proof. by apply kept_view. Qed.

Lemma schedTimingResp_ok g now p w c c' : schedTimingResp now p w c = Done c' -> kept g c -> kept g c'.
Proof. unfold schedTimingResp. intros H. done_inv. by apply kept_view. Qed.
Lemma schedTimingSnoopResp_ok g now p w b c c' : schedTimingSnoopResp now p w b c = Done c' -> kept g c -> kept g c'.
Proof. unfold schedTimingSnoopResp. intros H. done_inv. by apply kept_view. Qed.
Lemma requestMemSideBus_ok g now w c c' : requestMemSideBus now w c = Done c' -> kept g c -> kept g c'.
Proof. unfold requestMemSideBus. intros H. done_inv. by apply kept_view. Qed.

#[local] Hint Resolve withCore_ok setRegs_ok withDelete_ok withRecords_ok withStat_ok withOrder_ok setReqQueue_ok clockEdge_ok nextOrder_ok
  newRecord_ok deleteRecord_ok schedTimingResp_ok schedTimingSnoopResp_ok requestMemSideBus_ok : blocking.
#[local] Hint Extern 1 (queuesOf _ = queuesOf _) => reflexivity : blocking.
#[local] Hint Resolve setBlk_frame updBlk_frame dropBlk_frame uncacheableFlush_frame handleFill_frame access_frame satisfy_frame writebackBlk_frame : blocking.

Ltac blocking := done_inv; eauto 20 with blocking.

Lemma allocateBuffer_ok g now q a n p time bus c i c' : allocateBufferInternal now q a n p time bus c = Done (i, c') -> kept g c -> kept g c'.
Proof.
  unfold allocateBufferInternal. cbn [nextOrder]. intros H Hc. set (c1 := withOrder _ c) in H. assert (Hc1 : kept g c1) by by apply withOrder_ok.
  apply obind_Done in H as ([[j mq] h] & Ha & H). apply obind_Done in H as (c2 & H2 & H).
  assert (Hc2 : kept g c2) by (eapply (grow_kept now q mq h g c1); [done|by eapply allocate_full|done]). blocking.
Qed.

Lemma allocateMissBuffer_ok g now p time bus c i c' : allocateMissBuffer now p time bus c = Done (i, c') -> kept g c -> kept g c'.
Proof. unfold allocateMissBuffer. intros H. done_inv. by eapply allocateBuffer_ok. Qed.
Lemma allocateWriteBuffer_ok g now p time bus c i c' : allocateWriteBuffer now p time bus c = Done (i, c') -> kept g c -> kept g c'.
Proof. unfold allocateWriteBuffer. intros H. done_inv. by eapply allocateBuffer_ok. Qed.
Lemma allocateUncached_ok g now p time bus c i c' : allocateUncachedReadBuffer now p time bus c = Done (i, c') -> kept g c -> kept g c'.
Proof. unfold allocateUncachedReadBuffer. intros H. done_inv. by eapply allocateBuffer_ok. Qed.
#[local] Hint Resolve allocateMissBuffer_ok allocateWriteBuffer_ok allocateUncached_ok : blocking.

Lemma bufferWritebacks_ok g now time l : forall c c', bufferWritebacks now time l c = Done c' -> kept g c -> kept g c'.
Proof. induction l as [|w l IH]; cbn; intros c c' H Hc; [by done_inv|]. done_inv. eapply IH; [done|]. by eapply allocateWriteBuffer_ok. Qed.

Lemma serviced_ok now i d c c' : markInService now i d c = Done c' -> kept false c -> kept false c'.
Proof.
  unfold markInService. intros H Hc. apply obind_Done in H as ([mq h] & Hm & H).
  eapply (shrink_kept now (queueOf i c) mq h c); [done|by eapply markInService_full|done].
Qed.
#[local] Hint Resolve bufferWritebacks_ok serviced_ok : blocking.

Section handlers_ok.
Context {S : Type} `{Ports S, TimingPorts S, Prefetcher S} (fresh : Z -> buffer).

Lemma inhibitedReq_ok g p c s c' s' : inhibitedReq fresh p c s = Done (c', s') -> kept g c -> kept g c'.
Proof. unfold inhibitedReq. intros E Hc. blocking. Qed.

Lemma uncacheableReq_ok g now p c s c' s' : uncacheableReq now p c s = Done (c', s') -> kept g c -> kept g c'.
Proof. unfold uncacheableReq. intros E Hc. blocking. Qed.

Lemma timingHit_ok g now rt p blk c s n c' s' : timingHit now rt p blk c s = Done (n, c', s') -> kept g c -> kept g c'.
Proof. unfold timingHit. intros E Hc. blocking. Qed.

Lemma softPrefetch_ok g now rt p b c q c' : softPrefetch fresh now rt p b c = Done (q, c') -> kept g c -> kept g c'.
Proof. unfold softPrefetch. intros E Hc. blocking. Qed.

Lemma newMiss_ok g now ft p blk c s n c' s' : newMiss now ft p blk c s = Done (n, c', s') -> kept g c -> kept g c'.
Proof. unfold newMiss, countMiss. intros E Hc. blocking. Qed.

#[local] Hint Resolve inhibitedReq_ok uncacheableReq_ok timingHit_ok softPrefetch_ok newMiss_ok : blocking.

(** A register runs out of targets. *)
Lemma noTarget_ok g now i c c' : setBlocked now Blocked_NoTargets (withNoTarget (Some i) c) = Done c' -> kept g c -> kept g c'.
Proof.
  intros E [[Hok Hq Ht] Hm]. split; [|intros Hg; eapply setBlocked_quiet; [done|by destruct Hok|by apply Hm]]. pose proof (bk_range _ Hok) as Hr.
  destruct (setBlocked_spec now Blocked_NoTargets (withNoTarget (Some i) c)) as (x & Hx & Hok' & Eb & Eq & En & _); [by destruct Hok|].
  rewrite E in Hx. injection Hx as <-. split; [done|intros q|]; rewrite Eb; change (blocked (withNoTarget (Some i) c)) with (blocked c); rewrite mask_set by done.
  - by rewrite (proj1 (cause_targets q)), orb_false_r, (queueAt_queues q _ _ Eq), Hq.
  - rewrite En. cbn. apply orb_true_r.
Qed.

(** The response for that register arrives. *)
Lemma freeTargets_ok now i c c' : clearBlocked now Blocked_NoTargets c = Done c' -> noTargetMSHR c = Some i -> kept false c ->
  kept false (withNoTarget None c') /\ queuesOf (core c') = queuesOf (core c).
Proof.
  intros E Hn [[Hok Hq Ht] _]. pose proof (bk_range _ Hok) as Hr.
  destruct (clearBlocked_spec now Blocked_NoTargets c Hok) as (x & Hx & Hok' & Eb & Eq & En & _); [by rewrite Ht, Hn|].
  rewrite E in Hx. injection Hx as <-. split; [split; [|done]|done]. split; [by destruct Hok'|intros q|]; cbn [blocked withNoTarget]; rewrite Eb, mask_clear by done.
  - by rewrite (proj1 (cause_targets q)), andb_true_r, Hq, <- (queueAt_queues q _ _ Eq).
  - by rewrite Z.eqb_refl, andb_false_r.
Qed.
#[local] Hint Resolve noTarget_ok : blocking.

Lemma coalesce_ok g now ft p i c s n c' s' : coalesce now ft p i c s = Done (n, c', s') -> kept g c -> kept g c'.
Proof. unfold coalesce, countHit. intros E Hc. blocking. Qed.
#[local] Hint Resolve coalesce_ok : blocking.

Lemma timingMiss_ok g now rt ft p blk c s n c' s' : timingMiss fresh now rt ft p blk c s = Done (n, c', s') -> kept g c -> kept g c'.
Proof. unfold timingMiss. intros E Hc. blocking. Qed.
#[local] Hint Resolve timingMiss_ok : blocking.

Lemma recvTimingReq_blocking g now p c s c' s' : recvTimingReq fresh now p c s = Done (c', s') -> kept g c -> kept g c'.
Proof. unfold recvTimingReq. intros E Hc. blocking. Qed.

(** *** Snoops and responses leave the view alone *)

Lemma withCore_view k c v : queuesOf k = queuesOf (core c) -> view c = v -> view (withCore k c) = v.
Proof. intros [= E1 E2 _] <-. unfold view. cbn. congruence. Qed.
Lemma setRegs_view h c v : view c = v -> view (setRegs h c) = v.
Proof. done. Qed.
Lemma withStat_view x c v : view c = v -> view (withStat x c) = v.
Proof. done. Qed.
Lemma clockEdge_view now n c e c' v : clockEdge now n c = (e, c') -> view c = v -> view c' = v.
Proof. unfold clockEdge. intros E. by done_inv. Qed.
Lemma newRecord_view c r c' v : newRecord c = (r, c') -> view c = v -> view c' = v.
Proof. unfold newRecord. intros E. by done_inv. Qed.
Lemma deleteRecord_view r c v : view c = v -> view (deleteRecord r c) = v.
Proof. done. Qed.
Lemma schedTimingResp_view now p w c c' v : schedTimingResp now p w c = Done c' -> view c = v -> view c' = v.
Proof. unfold schedTimingResp. intros E. by done_inv. Qed.
Lemma schedTimingSnoopResp_view now p w b c c' v : schedTimingSnoopResp now p w b c = Done c' -> view c = v -> view c' = v.
Proof. unfold schedTimingSnoopResp. intros E. by done_inv. Qed.

#[local] Hint Resolve withCore_view setRegs_view withStat_view clockEdge_view newRecord_view deleteRecord_view schedTimingResp_view
  schedTimingSnoopResp_view : viewing.
#[local] Hint Extern 1 (queuesOf _ = queuesOf _) => reflexivity : viewing.
#[local] Hint Resolve setBlk_frame updBlk_frame dropBlk_frame handleFill_frame satisfy_frame : viewing.
Ltac viewing := done_inv; eauto 20 with viewing.

Lemma doTimingSupplyResponse_view now q d b i c c' v : doTimingSupplyResponse fresh now q d b i c = Done c' -> view c = v -> view c' = v.
Proof. unfold doTimingSupplyResponse. intros E Hv. viewing. Qed.
#[local] Hint Resolve doTimingSupplyResponse_view : viewing.

Lemma forwardSnoop_view p c s p' c' s' v : forwardSnoop fresh p c s = Done (p', c', s') -> view c = v -> view c' = v.
Proof. unfold forwardSnoop. intros E Hv. viewing. Qed.
#[local] Hint Resolve forwardSnoop_view : viewing.

Lemma handleSnoop_view now p r b i c s p' c' s' v : handleSnoop fresh now p r b i c s = Done (p', c', s') -> view c = v -> view c' = v.
Proof. unfold handleSnoop. intros E Hv. viewing. Qed.
#[local] Hint Resolve handleSnoop_view : viewing.

Lemma fill_view now p i f c f' c' v : fill fresh now p i f c = Done (f', c') -> view c = v -> view c' = v.
Proof. unfold fill. intros E Hv. viewing. Qed.
#[local] Hint Resolve fill_view : viewing.

Lemma respondTarget_view now p o i tgt f c s f' c' s' v : respondTarget fresh now p o i tgt f c s = Done (f', c', s') -> view c = v -> view c' = v.
Proof. unfold respondTarget, countLatency. intros E Hv. viewing. Qed.
#[local] Hint Resolve respondTarget_view : viewing.

Lemma serveTarget_view now p o i tgt f c s f' c' s' v : serveTarget fresh now p o i tgt f c s = Done (f', c', s') -> view c = v -> view c' = v.
Proof. unfold serveTarget. intros E Hv. viewing. Qed.

Lemma serveTargets_view now p o i v fuel : forall f c s f' c' s', serveTargets fresh fuel now p o i f c s = Done (f', c', s') -> view c = v -> view c' = v.
Proof.
  induction fuel as [|fuel IH]; intros f c s f' c' s' E Hv; cbn [serveTargets] in E; [by done_inv|].
  apply obind_Done in E as (m & _ & E). destruct (negb _); [by done_inv|].
  apply obind_Done in E as (tgt & _ & E). apply obind_Done in E as ([[f1 c1] s1] & E1 & E).
  apply obind_Done in E as (m1 & _ & E). apply obind_Done in E as (m2 & _ & E).
  eapply IH; [done|]. apply setRegs_view. by eapply serveTarget_view.
Qed.

Lemma settleBlock_view now p i f c c' v : settleBlock now p i f c = Done c' -> view c = v -> view c' = v.
Proof. unfold settleBlock. intros E Hv. viewing. Qed.

(** The view lemmas for the invariant. *)
Lemma viewed_ok c c' : (forall v, view c = v -> view c' = v) -> kept false c -> kept false c'.
Proof. intros Hv. apply kept_view. by apply Hv. Qed.

Lemma supply_ok now q d b i c c' : doTimingSupplyResponse fresh now q d b i c = Done c' -> kept false c -> kept false c'.
Proof. intros E. apply viewed_ok. intros v. by eapply doTimingSupplyResponse_view. Qed.
Lemma snooped_ok now p r b i c s p' c' s' : handleSnoop fresh now p r b i c s = Done (p', c', s') -> kept false c -> kept false c'.
Proof. intros E. apply viewed_ok. intros v. by eapply handleSnoop_view. Qed.
#[local] Hint Resolve supply_ok snooped_ok : blocking.

Lemma snoopWriteback_ok now p i c p' c' : snoopWriteback fresh now p i c = Done (p', c') -> kept false c -> kept false c'.
Proof. unfold snoopWriteback. intros E Hc. blocking. Qed.
#[local] Hint Resolve snoopWriteback_ok : blocking.

Lemma snoopRest_ok now p a sec blk c s p' c' s' : snoopRest fresh now p a sec blk c s = Done (p', c', s') -> kept false c -> kept false c'.
Proof. unfold snoopRest. intros E Hc. blocking. Qed.
#[local] Hint Resolve snoopRest_ok : blocking.

Lemma recvTimingSnoopReq_blocking now p c s p' c' s' : recvTimingSnoopReq fresh now p c s = Done (p', c', s') -> kept false c -> kept false c'.
Proof. unfold recvTimingSnoopReq. intros E Hc. blocking. Qed.

Lemma releaseRegister_ok now p wasFull q i f c s c' : releaseRegister now p wasFull q i f c s = Done c' -> wasFull = MSHRQueue.isFull (queueAt q c) ->
  kept false c -> kept false c'.
Proof.
  unfold releaseRegister. intros E Hf Hc. apply obind_Done in E as ([b h] & Hp & E). set (c1 := setRegs h c) in E.
  assert (Hc1 : kept false c1) by by apply setRegs_ok. assert (Hf1 : wasFull = MSHRQueue.isFull (queueAt q c1)) by (by rewrite Hf; f_equal; exact (queueAt_set_regs q h c)). clear Hf. destruct b.
  - apply obind_Done in E as (k & Hk & E). apply obind_Done in E as ([mq h2] & Hm & E). destruct (clockEdge _ _ _) as [e c3] eqn:E3.
    eapply requestMemSideBus_ok; [done|]. eapply clockEdge_ok; [done|].
    assert (Hk' : queuesOf k = queuesOf (core c1)) by (destruct (f_blk f); [by eapply updBlk_frame|by injection Hk as <-]).
    assert (Hc2 : kept false (withCore k c1)) by by apply withCore_ok.
    eapply (shrink_kept now q mq h2 (withCore k c1)); [done| |].
    + by rewrite (markPending_full _ _ _ _ _ Hm).
    + by rewrite (markPending_full _ _ _ _ _ Hm), andb_negb_r.
  - apply obind_Done in E as ([mq h2] & Hm & E). apply obind_Done in E as (c2 & E2 & E). rewrite Hf1 in E2.
    assert (Hc2 : kept false c2) by (eapply (shrink_kept now q mq h2 c1); [done|by eapply deallocateOne_full|done]). blocking.
Qed.

Lemma clearTemp_ok now ft f c c' : clearTemp fresh now ft f c = Done c' -> kept false c -> kept false c'.
Proof. unfold clearTemp. intros E Hc. blocking. Qed.

Lemma queueAt_view q c c' : view c' = view c -> queueAt q c' = queueAt q c.
Proof. intros [= E1 E2 _ _ _]. by destruct q. Qed.

Lemma recvTimingResp_blocking now p c s c' s' : recvTimingResp fresh now p c s = Done (c', s') -> kept false c -> kept false c'.
Proof.
  unfold recvTimingResp. intros E Hc. destruct (negb _); [discriminate|]. destruct (Packet.senderState p) as [|i rest]; [discriminate|].
  apply obind_Done in E as (m & _ & E). apply obind_Done in E as (c1 & E1 & E).
  set (q := queueOf i c) in E. assert (Hfree : kept false c1 /\ queuesOf (core c1) = queuesOf (core c)).
  { case_decide as Hn; [|by injection E1 as <-]. apply obind_Done in E1 as (x & Hx & [= <-]). by destruct (freeTargets_ok _ _ _ _ Hx Hn Hc). }
  destruct Hfree as [Hc1 Eq1]. apply obind_Done in E as (tgt & _ & E). apply obind_Done in E as (a & _ & E). apply obind_Done in E as (sec & _ & E).
  apply obind_Done in E as (blk & _ & E). destruct (clockEdge _ _ _) as [e c2] eqn:E2. destruct (negb _); [discriminate|].
  apply obind_Done in E as ([f c3] & E3 & E). apply obind_Done in E as (off & _ & E). apply obind_Done in E as (m3 & _ & E).
  apply obind_Done in E as ([[f4 c4] s4] & E4 & E). apply obind_Done in E as (c5 & E5 & E). apply obind_Done in E as (c6 & E6 & E).
  assert (Hv : view c5 = view c1).
  { eapply settleBlock_view; [done|]. eapply serveTargets_view; [done|]. destruct (_ && negb _).
    - eapply fill_view; [done|]. apply withStat_view; by eapply clockEdge_view.
    - injection E3 as _ <-. apply withStat_view; by eapply clockEdge_view. }
  assert (Hc6 : kept false c6).
  { eapply releaseRegister_ok; [exact E6| |by eapply kept_view]. by rewrite (queueAt_view _ _ _ Hv), (queueAt_queues _ _ _ Eq1). }
  destruct (match f_wbs f4 with [] => _ | _ => _ end) as [e' c7] eqn:E7.
  assert (Hc7 : kept false c7) by (destruct (f_wbs f4); [by injection E7 as _ <-|by eapply clockEdge_ok]).
  apply obind_Done in E as (c8 & E8 & E). apply obind_Done in E as (c9 & E9 & [= <- <-]).
  eapply clearTemp_ok; [done|]. by eapply bufferWritebacks_ok.
Qed.
#[local] Hint Resolve recvTimingResp_blocking : blocking.

Lemma recvTimingSnoopResp_blocking now p c s c' s' : recvTimingSnoopResp fresh now p c s = Done (c', s') -> kept false c -> kept false c'.
Proof. unfold recvTimingSnoopResp. intros E Hc. blocking. Qed.

(** *** Sending *)

Lemma tryPrefetch_ok now c s i c' s' : tryPrefetch now c s = Done (i, c', s') -> kept false c -> kept false c'.
Proof. unfold tryPrefetch, countMiss. intros E Hc. blocking. Qed.

Lemma snoopPrefetch_ok now p i blk c s b c' s' : snoopPrefetch fresh now p i blk c s = Done (b, c', s') -> kept false c -> kept false c'.
Proof.
  unfold snoopPrefetch. intros E Hc. apply obind_Done in E as (sn & _ & E). apply obind_Done in E as ([sn' s1] & _ & E).
  destruct (Packet.memInhibitAsserted sn'); [blocking|]. destruct (_ || _); [|by done_inv].
  apply obind_Done in E as ([[freed mq] h] & Hf & E). apply forceDeallocate_full in Hf as [-> Hf].
  apply obind_Done in E as (c2 & E2 & [= <- <- <-]). by eapply (shrink_kept now (queueOf i c) mq h c).
Qed.
#[local] Hint Resolve tryPrefetch_ok snoopPrefetch_ok : blocking.

Lemma getTimingPacket_ok now c s r c' s' : getTimingPacket fresh now c s = Done (r, c', s') -> kept false c -> kept false c'.
Proof. unfold getTimingPacket, getNextMSHR. intros E Hc. blocking. Qed.

Lemma scheduleNext_ok now c s c' s' : scheduleNext now c s = Done (c', s') -> kept false c -> kept false c'.
Proof. unfold scheduleNext. intros E Hc. blocking. Qed.
#[local] Hint Resolve getTimingPacket_ok scheduleNext_ok : blocking.

Lemma sendDeferred_blocking now c s c' s' : sendDeferredPacket fresh now c s = Done (c', s') -> kept false c -> kept false c'.
Proof. unfold sendDeferredPacket. intros E Hc. blocking. Qed.

End handlers_ok.
End CacheBlocking.
