(* ===== verification/CacheRetry.v ===== *)
(** * Refused requests are retried: gem5/src/mem/cache/base.cc and cache_impl.hh

    The events of a timing cache as a step relation, and what blocking means in
    every reachable state. *)

From Stdlib Require Import ZArith Lia.
From stdpp Require Import base gmap numbers list.
From S2P Require Import Prelude Bits AddrRange MemCmd Request Packet AbstractMem CacheBlk CacheTags MSHR MSHRQueue PacketQueue ClockedObject Cache CacheTiming CacheBlocking.

#[local] Open Scope Z_scope.
#[local] Open Scope outcome_scope.

Module CacheRetry.
Import Cache CacheTiming CacheBlocking.

(** ** The events *)

Section steps.
Context {S : Type} `{Ports S, TimingPorts S, Prefetcher S} (fresh : Z -> buffer).

(** Responses leave through the packet queues of their ports, and the other
    ends of the ports do what they like in between. *)
Inductive step : t * S -> t * S -> Prop :=
  | step_request now p b c s c' s' : portRecvTimingReq fresh now p c s = Done (b, c', s') -> step (c, s) (c', s')
  | step_response now p c s c' s' : recvTimingResp fresh now p c s = Done (c', s') -> step (c, s) (c', s')
  | step_snoop now p c s p' c' s' : recvTimingSnoopReq fresh now p c s = Done (p', c', s') -> step (c, s) (c', s')
  | step_snoop_response now p c s c' s' : recvTimingSnoopResp fresh now p c s = Done (c', s') -> step (c, s) (c', s')
  | step_send now c s c' s' : PacketQueue.sendEvent (reqQueue (core c)) = Some now -> processSendEvent fresh now c s = Done (c', s') ->
      step (c, s) (c', s')
  | step_retried now c s c' s' : recvReqRetry fresh now c s = Done (c', s') -> step (c, s) (c', s')
  | step_retry now c s : sendRetryEvent (port c) = Some now -> step (c, s) (processSendRetry c, s)
  | step_respond rq sq c s : step (c, s) (withCore (withQueues (regs (core c)) rq (reqQueue (core c)) sq (core c)) c, s)
  | step_drain dm c s : step (c, s) (snd (drain dm c), s)
  | step_outside c s s' : step (c, s) (c, s').

Inductive reachable (tp : params) (k : Cache.t) : t * S -> Prop :=
  | reach_new s : reachable tp k (new tp k, s)
  | reach_step x y : reachable tp k x -> step x y -> reachable tp k y.

(** ** The port *)

Lemma withPort_ok c p : blockedOK c -> blocked_ p = blocked_ (port c) -> (is_Some (sendRetryEvent p) <-> mustSendRetry p = true /\ blocked_ p = false) ->
  blockedOK (withPort p c).
Proof. intros [[Hr Hp _] Hq Ht] E He. split; [split|..]; try done. cbn. by rewrite E, Hp. Qed.

(** A refused request leaves a retry owed; a taken one leaves none. *)
Lemma portRequest_ok now p c s b c' s' : portRecvTimingReq fresh now p c s = Done (b, c', s') -> blockedOK c ->
  blockedOK c' /\ (b = false -> mustSendRetry (port c') = true).
Proof.
  unfold portRecvTimingReq. intros E Hc. pose proof (bk_retry _ (bk_ok _ Hc)) as He. destruct (bypassCaches _); [discriminate|].
  destruct (Packet.memInhibitAsserted p).
  { done_inv. split; [|done]. by destruct (recvTimingReq_blocking fresh false now p c s c' s'). }
  destruct (_ || _) eqn:Eb.
  - injection E as <- <- <-. split; [|done]. apply withPort_ok; [done..|]. cbn. rewrite He.
    destruct (blocked_ (port c)), (mustSendRetry (port c)); try done; by intuition.
  - apply orb_false_iff in Eb as [Eb Em]. apply obind_Done in E as ([c1 s1] & E1 & [= <- <- <-]). split; [|done].
    destruct (recvTimingReq_blocking fresh true now p c s c1 s1) as [Hc1 Hm1]; [done|by split|]. specialize (Hm1 eq_refl).
    apply withPort_ok; [done..|]. cbn. by rewrite (bk_retry _ (bk_ok _ Hc1)), Hm1.
Qed.

Lemma processSendRetry_ok now c : sendRetryEvent (port c) = Some now -> blockedOK c -> blockedOK (processSendRetry c).
Proof. intros Ev Hc. apply withPort_ok; [done..|]. cbn. split; [by intros []|by intros []]. Qed.

Lemma drain_full dm q : MSHRQueue.isFull (snd (MSHRQueue.drain dm q)) = MSHRQueue.isFull q.
Proof. unfold MSHRQueue.drain. by destruct (_ =? 0). Qed.

Lemma drain_ok dm c : blockedOK c -> blockedOK (snd (drain dm c)).
Proof.
  intros [[Hr Hp He] Hq Ht]. pose proof (Hq MSHRQueue_MSHRs) as Hq1. pose proof (Hq MSHRQueue_WriteBuffer) as Hq2. cbn in Hq1, Hq2. unfold drain.
  destruct (PacketQueue.drain dm (reqQueue _)), (PacketQueue.drain dm (snoopRespQueue _)), (PacketQueue.drain dm (respQueue _)).
  destruct (MSHRQueue.drain dm (mshrQueue _)) as [n4 mq] eqn:E4, (MSHRQueue.drain dm (writeBuffer _)) as [n5 wb] eqn:E5.
  apply (f_equal snd) in E4, E5. cbn in E4, E5. split; [by split| |done]. intros []; cbn; [rewrite Hq1|rewrite Hq2]; subst; by rewrite drain_full.
Qed.

(** ** Reachable states *)

Lemma retry_step_ok x y : step x y -> blockedOK (fst x) -> blockedOK (fst y).
Proof.
  intros Hs Hc. assert (Hk : kept false (fst x)) by done. destruct Hs; cbn in *.
  - by eapply portRequest_ok.
  - by eapply recvTimingResp_blocking.
  - by eapply recvTimingSnoopReq_blocking.
  - by eapply recvTimingSnoopResp_blocking.
  - unfold processSendEvent in *. destruct (PacketQueue.waitingOnRetry _); [discriminate|]. eapply sendDeferred_blocking; [done|]. by apply setReqQueue_ok.
  - unfold recvReqRetry in *. destruct (PacketQueue.waitingOnRetry _); [|discriminate]. eapply sendDeferred_blocking; [done|]. by apply setReqQueue_ok.
  - by eapply processSendRetry_ok.
  - by apply (blockedOK_view c).
  - by apply drain_ok.
  - done.
Qed.

Lemma retry_reachable_ok tp k x : MSHRQueue.isFull (mshrQueue k) = false -> MSHRQueue.isFull (writeBuffer k) = false -> reachable tp k x -> blockedOK (fst x).
Proof.
  intros H1' H2'. induction 1 as [s|x y _ IH Hs]; [|by eapply retry_step_ok]. split; [split|..]; cbn; try done.
  - split; [by intros []|by intros []].
  - by intros [].
Qed.
End steps.

(** The last cause to go schedules the retry that is owed. *)
Lemma clearBlocked_schedules now k c c' : clearBlocked now k c = Done c' -> mustSendRetry (port c) = true -> blocked c' = 0 ->
  sendRetryEvent (port c') = Some (now + 1).
Proof.
  unfold clearBlocked, curCycle. intros E Hm Hz. destruct (_ =? 0) eqn:E0; [|by injection E as <-; cbn in Hz; rewrite Hz in E0].
  cbn [core withBlocked] in E. destruct (ClockedObject.curCycle _ _ _) as [cyc clk]. cbn [port withCore withStat withBlocked] in E.
  unfold portClearBlocked in E. rewrite Hm in E. destruct (negb _); [discriminate|]. destruct (sendRetryEvent (port c)); [discriminate|].
  by injection E as <-.
Qed.

(** Why the cache is blocked. *)
Definition holds (cause : BlockedCause) (c : t) : bool :=
  match cause with
  | Blocked_NoMSHRs => MSHRQueue.isFull (mshrQueue (core c))
  | Blocked_NoWBBuffers => MSHRQueue.isFull (writeBuffer (core c))
  | Blocked_NoTargets => bool_decide (is_Some (noTargetMSHR c))
  end.

Lemma blockedOK_holds c cause : blockedOK c -> Z.testbit (blocked c) (causeIndex cause) = holds cause c.
Proof. intros [_ Hq Ht]. destruct cause; [exact (Hq MSHRQueue_MSHRs)|exact (Hq MSHRQueue_WriteBuffer)|done]. Qed.

Lemma blocked_because c : blockedOK c -> blocked_ (port c) = true -> exists cause, holds cause c = true.
Proof.
  intros Hc Hb. pose proof (bk_ok _ Hc) as [Hr Hp _]. rewrite Hp in Hb. apply negb_true_iff, Z.eqb_neq in Hb.
  destruct (mask_cases _ Hr) as [E|[E|[E|[E|[E|[E|[E|E]]]]]]]; [done|..];
    first [exists Blocked_NoMSHRs; rewrite <- (blockedOK_holds _ _ Hc), E; reflexivity
          | exists Blocked_NoWBBuffers; rewrite <- (blockedOK_holds _ _ Hc), E; reflexivity
          | exists Blocked_NoTargets; rewrite <- (blockedOK_holds _ _ Hc), E; reflexivity].
Qed.

(** C29: in every reachable state of a timing cache the bits of the blocked mask
    are set exactly while their causes last; the port refuses requests while
    some bit is set, and a refused request has its retry scheduled or waits for
    a cause that lasts; blocking for any cause, and unblocking for one that is
    set, never fail, and the last cause to go schedules the retry for the next
    tick. *)
Theorem refused_is_retried {S : Type} `{Ports S, TimingPorts S, Prefetcher S} fresh tp k c (s : S) :
  MSHRQueue.isFull (mshrQueue k) = false -> MSHRQueue.isFull (writeBuffer k) = false -> reachable fresh tp k (c, s) ->
  (forall cause, Z.testbit (blocked c) (causeIndex cause) = holds cause c) /\ blocked_ (port c) = isBlocked c /\
  (forall now p c' s', portRecvTimingReq fresh now p c s = Done (false, c', s') ->
     is_Some (sendRetryEvent (port c')) \/ exists cause, holds cause c' = true) /\
  (forall now cause, exists c', setBlocked now cause c = Done c') /\
  (forall now cause, holds cause c = true -> exists c', clearBlocked now cause c = Done c' /\
     (mustSendRetry (port c) = true -> blocked c' = 0 -> sendRetryEvent (port c') = Some (now + 1))).
Proof.
  intros Hm Hw Hr. apply (retry_reachable_ok fresh tp k (c, s) Hm Hw) in Hr as Hc. cbn in Hc. pose proof (bk_ok _ Hc) as Hp.
  split; [intros cause; by apply blockedOK_holds|]. split; [exact (bk_port _ Hp)|]. split; [|split].
  - intros now p c' s' E. destruct (portRequest_ok fresh now p c s false c' s' E Hc) as [Hc' He]. specialize (He eq_refl).
    destruct (blocked_ (port c')) eqn:Eb; [right; by apply blocked_because|left]. by apply (bk_retry _ (bk_ok _ Hc')).
  - intros now cause. destruct (setBlocked_spec now cause c Hp) as (c' & E & _). by exists c'.
  - intros now cause Hh. destruct (clearBlocked_spec now cause c Hp) as (c' & E & _); [by rewrite blockedOK_holds|].
    exists c'. split; [done|]. intros Hm' Hz. by eapply clearBlocked_schedules.
Qed.

(** ** Snoop responses go first, but not for gathered lines *)

(** The check in [sendDeferredPacket] compares the cache address of the request
    with the plain addresses of the queued responses, so a request with a
    pattern does not wait for the response to its own address. *)
Lemma gather_does_not_wait p a pat q : Packet.getAddr p = Done a -> Request.getGatherPattern (Packet.req p) = Done pat ->
  0 <= a < 2 ^ 61 -> 0 < pat < 8 ->
  (forall dp, dp ∈ PacketQueue.transmitList q -> exists b, Packet.getAddr (PacketQueue.pkt dp) = Done b /\ 0 <= b < 2 ^ 61) ->
  exists ca, Packet.getCacheAddr p = Done ca /\ PacketQueue.hasAddr ca q = Done false.
Proof.
  intros Ha Hg Hr Hpat Hq. unfold Packet.getCacheAddr. rewrite Ha, Hg. cbn [obind]. eexists. split; [done|].
  destruct (Packet.cache_pattern_bits a pat) as (Hs & _ & _); [done|lia|]. change Request.GATHER_PATTERN_SHIFT with 61 in *.
  set (ca := Z.lor a _) in *. clearbody ca. unfold PacketQueue.hasAddr. induction (PacketQueue.transmitList q) as [|dp l IH]; [done|].
  cbn. destruct (Hq dp) as (b & -> & Hb); [set_solver|]. cbn. destruct (Z.eqb_spec b ca) as [->|_]; [|apply IH; set_solver].
  rewrite Z.shiftr_div_pow2, Z.div_small in Hs by lia. lia.
Qed.

(** A software prefetch of a gathered line copies the flags of its request and
    not the pattern, which is read uninitialised. *)
Lemma gather_prefetch_fails fresh now rt p c : Request.isGather (Packet.req p) = true -> softPrefetch fresh now rt p false c = Exited.
Proof.
  intros Hg. unfold softPrefetch. destruct (MemCmd.needsResponse _); [|done]. destruct (Request.hasPaddr (Packet.req p)); [|done]. cbn [negb].
  destruct (Request.getPaddr (Packet.req p)) as [a| |] eqn:E1; [|done|by unfold Request.getPaddr, Request.guarded in E1; case_match].
  destruct (Request.getSize (Packet.req p)) as [n| |] eqn:E2; [|done|by unfold Request.getSize, Request.guarded in E2; case_match].
  unfold Request.getFlags, Request.guarded. destruct (Flags.isSet _ _); [|done]. cbn [obind].
  set (q := Packet.new _ _). assert (Hq : Request.getGatherPattern (Packet.req q) = Exited) by (unfold Request.getGatherPattern; by change (Request.isGather (Packet.req q)) with (Request.isGather (Packet.req p)); rewrite Hg).
  unfold Packet.allocate. destruct (Packet.getSize q) as [m| |] eqn:E3; [|done|by unfold Packet.getSize in E3; case_match]. cbn [obind].
  destruct (Packet.giveData _ _ q) as [q'| |] eqn:E4; [|done|by unfold Packet.giveData in E4; case_match]. cbn [obind].
  assert (Hr : Packet.req q' = Packet.req q) by (unfold Packet.giveData in E4; case_match; by inversion E4).
  unfold Packet.getCacheAddr at 1. rewrite Hr, Hq. destruct (Packet.getAddr q') as [b| |] eqn:E5; [done..|by unfold Packet.getAddr in E5; case_match].
Qed.

(** ** A run *)

(** The other ends of the ports: the packets sent down, no snooping above. *)
Definition wire : Type := list Packet.t.
#[local] Instance wirePorts : Ports wire := {|
  sendAtomic p s := Done (0, p, s); sendFunctional p s := Done (p, s); isSnooping _ := false;
  sendAtomicSnoop p s := Done (p, s); sendFunctionalSnoop p s := Done (p, s) |}.
#[local] Instance wireTiming : TimingPorts wire := {|
  sendTimingReq p s := Done (true, p, s ++ [p]); sendTimingSnoopReq p s := Done (p, s) |}.
#[local] Instance wirePrefetcher : Prefetcher wire := {|
  notify _ _ _ _ s := Done (PacketQueue.MaxTick, s); getPacket _ s := Done (None, s); nextPrefetchReadyTime _ := PacketQueue.MaxTick |}.

(** One register, one write buffer, and blocks of 64 bytes. *)
Definition runBuffer (n : Z) : buffer := repeat 0 (Z.to_nat n).
Definition runGeometry : CacheTags.geometry := CacheTags.mkGeometry 64 2 2 false 1 63 6 1 7 4 4 8 1000.
Definition runCore : Cache.t :=
  let mq := MSHRQueue.new 1 4 1 0 in
  let wb := MSHRQueue.new 1 4 0 8 in
  Cache.mk (Cache.mkParams 64 1 1 1 false true true false 8 1000) (CacheTags.new (fun _ => runBuffer 64) runGeometry) CacheBlk.new mq wb
    (MSHRQueue.newHeap wb (MSHRQueue.newHeap mq ∅)) PacketQueue.new PacketQueue.new PacketQueue.new ClockedObject.new ∅ ∅ ∅ 0 false.
Definition runParams : params := mkParams 1 2 [] false false.
Definition runPacket (a : Z) : Packet.t :=
  Packet.setFlag Packet.DYNAMIC_DATA (Packet.withData (Some (runBuffer 8)) (Packet.new (Request.physical a 8 0 3 0) MemCmd.ReadReq)).

(** The run of a list of events; a failed one ends it. *)
Definition runFrom {A} (f : t -> wire -> outcome (A * t * wire)) (x : t * wire) : t * wire :=
  match f (fst x) (snd x) with Done (_, c, s) => (c, s) | _ => x end.
Definition run0 : t * wire := (new runParams runCore, []).
Definition run1 : t * wire := runFrom (portRecvTimingReq runBuffer 1000 (runPacket 0x40)) run0.
Definition run2 : t * wire := runFrom (portRecvTimingReq runBuffer 2000 (runPacket 0x80)) run1.
Definition run3 : t * wire := runFrom (fun c s => let! (c, s) := processSendEvent runBuffer 2000 c s in Done (tt, c, s)) run2.
(** The answer of the memory to the packet sent. *)
Definition runAnswer : outcome Packet.t :=
  match snd run3 with p :: _ => Packet.makeResponse p | [] => Exited end.
Definition run4 : t * wire :=
  runFrom (fun c s => let! p := runAnswer in let! (c, s) := recvTimingResp runBuffer 5000 p c s in Done (tt, c, s)) run3.

(** The first miss takes the only register; the second request is refused, and
    retried the tick after the answer arrives. *)
Example run_blocks : map (fun x => (blocked (fst x), port (fst x))) [run1; run2; run3; run4] =
  [(1, mkPort true false None 0); (1, mkPort true true None 0); (1, mkPort true true None 0); (0, mkPort false true (Some 5001) 0)].
Proof. by vm_compute. Qed.

Lemma runFrom_reachable {A} (f : t -> wire -> outcome (A * t * wire)) x :
  (forall c s a c' s', f c s = Done (a, c', s') -> step runBuffer (c, s) (c', s')) ->
  reachable runBuffer runParams runCore x -> reachable runBuffer runParams runCore (runFrom f x).
Proof.
  intros Hf Hx. unfold runFrom. destruct (f _ _) as [[[a c'] s']| |] eqn:E; [|done..]. eapply reach_step; [exact Hx|].
  rewrite (surjective_pairing x). by eapply Hf.
Qed.

Lemma run_reachable : reachable runBuffer runParams runCore run2.
Proof.
  apply runFrom_reachable; [intros c s b c' s' E; by eapply step_request|].
  apply runFrom_reachable; [intros c s b c' s' E; by eapply step_request|]. apply reach_new.
Qed.

Lemma refused_is_retried_witness : MSHRQueue.isFull (mshrQueue (core (fst run2))) = true /\ mustSendRetry (port (fst run2)) = true /\
  holds Blocked_NoMSHRs (fst run2) = true /\
  exists c', clearBlocked 7 Blocked_NoMSHRs (fst run2) = Done c' /\ (mustSendRetry (port (fst run2)) = true -> blocked c' = 0 -> sendRetryEvent (port c') = Some 8).
Proof.
  split; [by vm_compute|]. split; [by vm_compute|]. split; [by vm_compute|].
  destruct (refused_is_retried runBuffer runParams runCore (fst run2) (snd run2)) as (_ & _ & _ & _ & H); [by vm_compute..| |].
  - rewrite <- surjective_pairing. exact run_reachable.
  - apply (H 7 Blocked_NoMSHRs). by vm_compute.
Defined.
End CacheRetry.
