(* ===== verification/Prefetch.v ===== *)
(** * Prefetchers: gem5/src/mem/cache/prefetch

    The base class and its queue (base.cc, queued.cc) over any way to choose
    addresses, and the two ways there are: the next lines (tagged.cc) and the
    strides of a table indexed by program counter (stride.cc).  The cache a
    prefetcher looks into is given by its two questions [inCache] and
    [inMissQueue], as in the class [Prefetcher] of the cache. *)

From Stdlib Require Import ZArith Lia.
From stdpp Require Import base numbers list.
From S2P Require Import Prelude Bits MemCmd Request Packet PacketQueue.

#[local] Open Scope Z_scope.
#[local] Open Scope outcome_scope.

Module Prefetch.

(** ** State *)

(** The parameters of [BasePrefetcher] and [QueuedPrefetcher]; [clockPeriod] is
    that of the clock domain. *)
Record params := mkParams {
  blkSize : Z;
  pageBytes : Z;
  onMiss : bool;
  onRead : bool;
  onWrite : bool;
  onData : bool;
  onInst : bool;
  masterId : Z;
  clockPeriod : Z;
  queueSize : Z;
  latency : Z;
  queueSquash : bool;
  queueFilter : bool;
  cacheSnoop : bool;
  tagPrefetch : bool
}.

Record DeferredPacket := mkDeferred { tick : Z; pkt : Packet.t }.

Record stats := mkStats {
  pfIssued : Z;
  pfIdentified : Z;
  pfBufferHit : Z;
  pfInCache : Z;
  pfRemovedFull : Z;
  pfSpanPage : Z
}.

(** [X] is what a subclass adds. *)
Record t (X : Type) := mk { pfq : list DeferredPacket; st : stats; sub : X }.
Arguments mk {X}.
Arguments pfq {X}.
Arguments st {X}.
Arguments sub {X}.

Definition noStats : stats := mkStats 0 0 0 0 0 0.
Definition new {X : Type} (x : X) : t X := mk [] noStats x.

Definition issuedOne (s : stats) : stats :=
  mkStats (pfIssued s + 1) (pfIdentified s) (pfBufferHit s) (pfInCache s) (pfRemovedFull s) (pfSpanPage s).
Definition identified (s : stats) : stats :=
  mkStats (pfIssued s) (pfIdentified s + 1) (pfBufferHit s) (pfInCache s) (pfRemovedFull s) (pfSpanPage s).
Definition bufferHit (s : stats) : stats :=
  mkStats (pfIssued s) (pfIdentified s) (pfBufferHit s + 1) (pfInCache s) (pfRemovedFull s) (pfSpanPage s).
Definition foundInCache (s : stats) : stats :=
  mkStats (pfIssued s) (pfIdentified s) (pfBufferHit s) (pfInCache s + 1) (pfRemovedFull s) (pfSpanPage s).
Definition removedFull (s : stats) : stats :=
  mkStats (pfIssued s) (pfIdentified s) (pfBufferHit s) (pfInCache s) (pfRemovedFull s + 1) (pfSpanPage s).
Definition spanPage (n : Z) (s : stats) : stats :=
  mkStats (pfIssued s) (pfIdentified s) (pfBufferHit s) (pfInCache s) (pfRemovedFull s) (pfSpanPage s + n).

(** The virtual method: the addresses worth fetching after an access. *)
Class Calculator (X : Type) := calculatePrefetch : params -> Packet.t -> t X -> outcome (list Z * t X).

(** ** BasePrefetcher *)

Definition observeAccess (prm : params) (p : Packet.t) (inCache inMissQueue : Z -> bool -> outcome bool) : outcome bool :=
  let! addr := Packet.getAddr p in
  let fetch := Request.isInstFetch (Packet.req p) in
  let read := MemCmd.isRead (Packet.cmd p) in
  let inv := MemCmd.isInvalidate (Packet.cmd p) in
  let! is_secure := Packet.isSecure p in
  if Request.isUncacheable (Packet.req p) then Done false
  else if fetch && negb (onInst prm) then Done false
  else if negb fetch && negb (onData prm) then Done false
  else if negb fetch && read && negb (onRead prm) then Done false
  else if negb fetch && negb read && negb (onWrite prm) then Done false
  else if negb fetch && negb read && inv then Done false
  else if onMiss prm then
    let! c := inCache addr is_secure in
    if c then Done false else let! m := inMissQueue addr is_secure in Done (negb m)
  else Done true.

Definition samePage (prm : params) (a b : Z) : bool := roundDown a (pageBytes prm) =? roundDown b (pageBytes prm).

(** [addr & ~(Addr)(blkSize - 1)] *)
Definition blockAlign (prm : params) (a : Z) : Z := Z.land a (bnot 64 (wrap 32 (blkSize prm - 1))).

(** ** QueuedPrefetcher *)

(** Is the packet for this block? *)
Definition isFor (a : Z) (is_secure : bool) (dp : DeferredPacket) : outcome bool :=
  let! b := Packet.getAddr (pkt dp) in
  if b =? a then let! sec := Packet.isSecure (pkt dp) in Done (Bool.eqb sec is_secure) else Done false.

Fixpoint inPrefetch (a : Z) (is_secure : bool) (q : list DeferredPacket) : outcome bool :=
  match q with
  | [] => Done false
  | dp :: q => let! b := isFor a is_secure dp in if b then Done true else inPrefetch a is_secure q
  end.

(** The loop that erases the packets for a block. *)
Fixpoint squash (a : Z) (is_secure : bool) (q : list DeferredPacket) : outcome (list DeferredPacket) :=
  match q with
  | [] => Done []
  | dp :: q =>
      let! b := isFor a is_secure dp in
      let! q := squash a is_secure q in
      Done (if b then q else dp :: q)
  end.

Definition PrefetcherTaskId := 1022.

(** The request and the packet of a prefetch at [pf_addr], after the access [p]. *)
Definition prefetchPacket (fresh : Z -> buffer) (prm : params) (p : Packet.t) (pf_addr : Z) (is_secure : bool) : outcome Packet.t :=
  let pf_req := Request.physical pf_addr (blkSize prm) 0 (masterId prm) 0 in
  let! pf_req := (if is_secure then Request.setFlags Request.SECURE pf_req else Done pf_req) in
  let pf_req := Request.setTaskId PrefetcherTaskId pf_req in
  let pf_pkt := Packet.new pf_req MemCmd.HardPFReq in
  let! pf_pkt := Packet.allocate fresh pf_pkt in
  let! pf_req := (if Request.hasContextId (Packet.req p) then
                    let! cid := Request.contextId (Packet.req p) in
                    let! tid := Request.threadId (Packet.req p) in
                    Done (Request.setThreadContext cid tid pf_req)
                  else Done pf_req) in
  let! pf_req := (if tagPrefetch prm && Request.hasPC (Packet.req p) then
                    let! pc := Request.getPC (Packet.req p) in Done (Request.setPC pc pf_req)
                  else Done pf_req) in
  Done (Packet.withReq pf_req pf_pkt).

Section queued.
Context {X : Type} `{Calculator X}.
Context (fresh : Z -> buffer) (prm : params).
Implicit Types s : t X.

Definition withQueue (q : list DeferredPacket) s : t X := mk q (st s) (sub s).
Definition count (f : stats -> stats) s : t X := mk (pfq s) (f (st s)) (sub s).

(** The queue is full: the oldest packet is dropped.  With no packet at all
    ([queueSize] is 0) there is nothing to drop. *)
Definition makeRoom s : outcome (t X) :=
  if Z.of_nat (length (pfq s)) =? queueSize prm then
    match pfq s with
    | [] => Exited
    | _ :: q => Done (withQueue q (count removedFull s))
    end
  else Done s.

(** One turn of the loop over the addresses. *)
Definition queueOne (now : Z) (p : Packet.t) (is_secure : bool) (inCache inMissQueue : Z -> bool -> outcome bool)
    (pf_addr : Z) s : outcome (t X) :=
  let pf_addr := blockAlign prm pf_addr in
  let s := count identified s in
  let! queued := (if queueFilter prm then inPrefetch pf_addr is_secure (pfq s) else Done false) in
  if queued then Done (count bufferHit s)
  else
    let! cached := (if cacheSnoop prm then
                      let! c := inCache pf_addr is_secure in
                      if c then Done true else inMissQueue pf_addr is_secure
                    else Done false) in
    if cached then Done (count foundInCache s)
    else
      let! pf_pkt := prefetchPacket fresh prm p pf_addr is_secure in
      let! s := makeRoom s in
      let pf_time := wrap 64 (now + wrap 64 (clockPeriod prm * latency prm)) in
      Done (withQueue (pfq s ++ [mkDeferred pf_time pf_pkt]) s).

Fixpoint queueAll (now : Z) (p : Packet.t) (is_secure : bool) (inCache inMissQueue : Z -> bool -> outcome bool)
    (addresses : list Z) s : outcome (t X) :=
  match addresses with
  | [] => Done s
  | a :: l =>
      let! s := queueOne now p is_secure inCache inMissQueue a s in
      queueAll now p is_secure inCache inMissQueue l s
  end.

Definition nextPrefetchReadyTime s : Z :=
  match pfq s with [] => PacketQueue.MaxTick | dp :: _ => tick dp end.

(** [deassertMemSideBusRequest] does nothing. *)
Definition notify (now : Z) (p : Packet.t) (inCache inMissQueue : Z -> bool -> outcome bool) s : outcome (Z * t X) :=
  let! observed := observeAccess prm p inCache inMissQueue in
  let! s :=
    (if observed : bool then
       let! addr := Packet.getAddr p in
       let blk_addr := blockAlign prm addr in
       let! is_secure := Packet.isSecure p in
       let! q := (if queueSquash prm then squash blk_addr is_secure (pfq s) else Done (pfq s)) in
       let! (addresses, s) := calculatePrefetch prm p (withQueue q s) in
       queueAll now p is_secure inCache inMissQueue addresses s
     else Done s) in
  Done (nextPrefetchReadyTime s, s).

Definition getPacket s : outcome (option Packet.t * t X) :=
  match pfq s with
  | [] => Done (None, s)
  | dp :: q => Done (Some (pkt dp), withQueue q (count issuedOne s))
  end.
End queued.

(** ** TaggedPrefetcher *)

Record tagged := mkTagged { tg_degree : Z }.

(** The loop over [d], with the turns left: [d * blkSize] is unsigned. *)
Fixpoint taggedLoop (fuel : nat) (prm : params) (degree blkAddr d : Z) : list Z * Z :=
  match fuel with
  | O => ([], 0)
  | S fuel =>
      let newAddr := wrap 64 (blkAddr + wrap 32 (d * blkSize prm)) in
      if samePage prm blkAddr newAddr then
        let (l, n) := taggedLoop fuel prm degree blkAddr (d + 1) in (newAddr :: l, n)
      else ([], degree - d + 1)
  end.

#[global] Instance taggedCalculate : Calculator tagged := fun prm p s =>
  let! addr := Packet.getAddr p in
  let blkAddr := blockAlign prm addr in
  let degree := tg_degree (sub s) in
  let (l, n) := taggedLoop (Z.to_nat degree) prm degree blkAddr 1 in
  Done (l, count (spanPage n) s).

(** ** StridePrefetcher *)

Record StrideEntry := mkEntry { instAddr : Z; lastAddr : Z; isSecure : bool; stride : Z; confidence : Z }.
Definition emptyEntry : StrideEntry := mkEntry 0 0 false 0 0.

Definition maxContexts := 64.

(** [draws] counts the random numbers drawn so far. *)
Record striding := mkStriding {
  maxConf : Z;
  threshConf : Z;
  minConf : Z;
  startConf : Z;
  pcTableAssoc : Z;
  pcTableSets : Z;
  useMasterId : bool;
  degree : Z;
  pcTable : list (list (list StrideEntry));
  draws : nat
}.

Definition withTable (tb : list (list (list StrideEntry))) (n : nat) (x : striding) : striding :=
  mkStriding (maxConf x) (threshConf x) (minConf x) (startConf x) (pcTableAssoc x) (pcTableSets x) (useMasterId x) (degree x) tb n.

(** The constructor; it also sets [onInst] of the base class to false. *)
Definition newStriding (maxC threshC minC startC assoc sets : Z) (useMaster : bool) (deg : Z) : outcome striding :=
  if isPowerOf2 sets then
    Done (mkStriding maxC threshC minC startC assoc sets useMaster deg
            (replicate (Z.to_nat maxContexts) (replicate (Z.to_nat sets) (replicate (Z.to_nat assoc) emptyEntry))) 0)
  else Exited.
Definition noInst (prm : params) : params :=
  mkParams (blkSize prm) (pageBytes prm) (onMiss prm) (onRead prm) (onWrite prm) (onData prm) false (masterId prm)
    (clockPeriod prm) (queueSize prm) (latency prm) (queueSquash prm) (queueFilter prm) (cacheSnoop prm) (tagPrefetch prm).

Definition pcHash (x : striding) (pc : Z) : outcome Z :=
  let hash1 := Z.shiftr pc 1 in
  let! k := floorLog2 (pcTableSets x) in
  let hash2 := Z.shiftr hash1 k in
  Done (Z.land (Z.lxor hash1 hash2) (pcTableSets x - 1)).

(** The set of a program counter. *)
Definition setOf (x : striding) (pc master_id : Z) : outcome (Z * list StrideEntry) :=
  let! set := pcHash x pc in
  let! sets := vec_get (pcTable x) master_id in
  let! ways := vec_get sets set in
  Done (set, ways).

(** The first way that matches. *)
Fixpoint findWay (pc : Z) (is_secure : bool) (ways : list StrideEntry) (i : Z) : option (Z * StrideEntry) :=
  match ways with
  | [] => None
  | e :: l => if (instAddr e =? pc) && Bool.eqb (isSecure e) is_secure then Some (i, e) else findWay pc is_secure l (i + 1)
  end.

Definition pcTableHit (x : striding) (pc : Z) (is_secure : bool) (master_id : Z) : outcome (option (Z * StrideEntry)) :=
  let! (_, ways) := setOf x pc master_id in Done (findWay pc is_secure ways 0).

(** An entry is written through the pointer to it. *)
Definition writeEntry (x : striding) (pc master_id way : Z) (e : StrideEntry) (n : nat) : outcome striding :=
  let! (set, ways) := setOf x pc master_id in
  let! sets := vec_get (pcTable x) master_id in
  let! ways := vec_set ways way e in
  let! sets := vec_set sets set ways in
  let! tb := vec_set (pcTable x) master_id sets in
  Done (withTable tb n x).

(** The confidence and the stride of an entry after an access at [pkt_addr]. *)
Definition trainEntry (x : striding) (new_stride pkt_addr : Z) (e : StrideEntry) : StrideEntry :=
  let stride_match := new_stride =? stride e in
  if stride_match && negb (new_stride =? 0) then
    mkEntry (instAddr e) pkt_addr (isSecure e) (stride e)
      (if confidence e <? maxConf x then confidence e + 1 else confidence e)
  else
    let c := if minConf x <? confidence e then confidence e - 1 else confidence e in
    mkEntry (instAddr e) pkt_addr (isSecure e) (if c <? threshConf x then new_stride else stride e) c.

Definition inInt (x : Z) : bool := (- 2 ^ 31 <=? x) && (x <? 2 ^ 31).

(** The stride to fetch with: at least a block.  [abs] of the least [int] has no
    value; the comparison and the negation are unsigned. *)
Definition prefetchStride (prm : params) (new_stride : Z) : outcome Z :=
  if new_stride =? - 2 ^ 31 then Exited
  else Done (if Z.abs new_stride <? blkSize prm
             then toInt32 (if new_stride <? 0 then wrap 32 (- blkSize prm) else blkSize prm)
             else new_stride).

(** The loop over [d]; a product outside [int] has no value. *)
Fixpoint strideLoop (fuel : nat) (prm : params) (degree pkt_addr new_stride d : Z) : outcome (list Z * Z) :=
  match fuel with
  | O => Done ([], 0)
  | S fuel =>
      let! prefetch_stride := prefetchStride prm new_stride in
      if inInt (d * prefetch_stride) then
        let new_addr := wrap 64 (pkt_addr + d * prefetch_stride) in
        if samePage prm pkt_addr new_addr then
          let! (l, n) := strideLoop fuel prm degree pkt_addr new_stride (d + 1) in Done (new_addr :: l, n)
        else Done ([], degree - d + 1)
      else Exited
  end.

(** [random k lo hi] is the [k]-th number drawn, between [lo] and [hi]. *)
Definition strideCalculate (random : nat -> Z -> Z -> Z) : Calculator striding := fun prm p s =>
  let x := sub s in
  if negb (Request.hasPC (Packet.req p)) then Done ([], s)
  else
    let! pkt_addr := Packet.getAddr p in
    let! pc := Request.getPC (Packet.req p) in
    let! is_secure := Packet.isSecure p in
    let master_id := if useMasterId x then Request.masterId (Packet.req p) else 0 in
    if negb (master_id <? maxContexts) then Exited
    else
      let! hit := pcTableHit x pc is_secure master_id in
      match hit with
      | Some (way, e) =>
          let new_stride := toInt32 (wrap 64 (pkt_addr - lastAddr e)) in
          let e := trainEntry x new_stride pkt_addr e in
          let! x := writeEntry x pc master_id way e (draws x) in
          let s := mk (pfq s) (st s) x in
          if confidence e <? threshConf x then Done ([], s)
          else
            let! (l, n) := strideLoop (Z.to_nat (degree x)) prm (degree x) pkt_addr new_stride 1 in
            Done (l, count (spanPage n) s)
      | None =>
          let way := random (draws x) 0 (pcTableAssoc x - 1) in
          let! x := writeEntry x pc master_id way (mkEntry pc pkt_addr is_secure 0 (startConf x)) (S (draws x)) in
          Done ([], mk (pfq s) (st s) x)
      end.

End Prefetch.
