(* ===== verification/PrefetchCorrect.v ===== *)
(** * The prefetch queue and the next-line prefetcher

    The queue stays within its size, holds each line once, keeps its packets in
    the order of their ticks, and holds only block-aligned prefetches; the
    tagged prefetcher asks for the next lines of the page. *)

From Stdlib Require Import ZArith Lia Sorting.Sorted.
From stdpp Require Import base numbers list sorting.
From S2P Require Import Prelude Bits MemCmd Request Packet PacketQueue Prefetch.

#[local] Open Scope Z_scope.
#[local] Open Scope outcome_scope.

Module PrefetchCorrect.
Import Prefetch.

(** ** Packets of the queue *)

Abbreviation key := (Z * bool)%type.
Definition keyOf (dp : DeferredPacket) : key := (Packet.addr (pkt dp), Packet.isSecure_ (pkt dp)).

(** A prefetch of a whole block of the cache. *)
Record isPrefetch (prm : params) (p : Packet.t) : Prop := {
  ip_addr : Packet.getAddr p = Done (Packet.addr p);
  ip_secure : Packet.isSecure p = Done (Packet.isSecure_ p);
  ip_size : Packet.getSize p = Done (blkSize prm);
  ip_cmd : Packet.cmd p = MemCmd.HardPFReq;
  ip_aligned : blockAlign prm (Packet.addr p) = Packet.addr p;
  ip_cacheAddr : Packet.getCacheAddr p = Done (Packet.addr p);
  ip_task : Request.taskId (Packet.req p) = PrefetcherTaskId;
  ip_master : Request.masterId (Packet.req p) = masterId prm }.

(** A context of the request comes with a thread. *)
Definition contextOK (r : Request.t) : Prop :=
  Request.hasContextId r = true -> Flags.isSet (Request.privateFlags r) Request.VALID_THREAD_ID = true.

Lemma blockAlign_idemp prm a : blockAlign prm (blockAlign prm a) = blockAlign prm a.
Proof. unfold blockAlign. by rewrite <-Z.land_assoc, Z.land_diag. Qed.

Lemma prefetchPacket_ok fresh prm p a sec : contextOK (Packet.req p) -> blockAlign prm a = a ->
  exists q, prefetchPacket fresh prm p a sec = Done q /\ isPrefetch prm q /\ Packet.addr q = a /\ Packet.isSecure_ q = sec.
Proof.
  intros Hc Ha. unfold prefetchPacket.
  assert (Hr : exists r, (if sec then Request.setFlags Request.SECURE (Request.physical a (blkSize prm) 0 (masterId prm) 0)
      else Done (Request.physical a (blkSize prm) 0 (masterId prm) 0)) = Done r /\ Request.flags r = (if sec then Request.SECURE else 0) /\
      Request.privateFlags r = 3 /\ Request.paddr r = a /\ Request.size r = blkSize prm /\ Request.masterId r = masterId prm).
  { destruct sec; cbn; eexists; repeat split. }
  destruct Hr as (r & -> & Hf & Hp & Hpa & Hsz & Hma). cbn [obind].
  set (r' := Request.setTaskId PrefetcherTaskId r).
  assert (Hf' : Request.flags r' = if sec then Request.SECURE else 0) by done.
  assert (Hp' : Request.privateFlags r' = 3) by done.
  unfold Packet.allocate, Packet.getSize, Packet.new, Request.hasPaddr, Request.hasSize, Request.isSecure. rewrite Hf', Hp'. cbn -[r'].
  assert (Hctx : exists r1, (if Request.hasContextId (Packet.req p) then
      let! cid := Request.contextId (Packet.req p) in let! tid := Request.threadId (Packet.req p) in Done (Request.setThreadContext cid tid r')
      else Done r') = Done r1 /\ Request.flags r1 = Request.flags r' /\ Request.taskId r1 = PrefetcherTaskId /\ Request.masterId r1 = masterId prm).
  { destruct (Request.hasContextId (Packet.req p)) eqn:E; [|by exists r']. specialize (Hc E).
    unfold Request.contextId, Request.threadId, Request.guarded. unfold Request.hasContextId in E. rewrite E, Hc. cbn. by eexists. }
  destruct Hctx as (r1 & -> & Hf1 & Ht1 & Hm1). cbn [obind].
  assert (Hpc : exists r2, (if tagPrefetch prm && Request.hasPC (Packet.req p) then
      let! pc := Request.getPC (Packet.req p) in Done (Request.setPC pc r1) else Done r1) = Done r2 /\ Request.flags r2 = Request.flags r' /\
      Request.taskId r2 = PrefetcherTaskId /\ Request.masterId r2 = masterId prm).
  { destruct (tagPrefetch prm && Request.hasPC (Packet.req p)) eqn:E; [|by exists r1]. apply andb_prop in E as [_ E].
    unfold Request.getPC, Request.guarded. unfold Request.hasPC in E. rewrite E. cbn. by eexists. }
  destruct Hpc as (r2 & -> & Hf2 & Ht2 & Hm2). cbn [obind]. eexists. split; [done|]. split; [|by destruct sec].
  split; cbn; [done|by destruct sec|by rewrite Hsz|done|by rewrite Hpa| |done|done].
  unfold Packet.getCacheAddr, Request.getGatherPattern, Request.isGather. cbn -[Z.shiftl Z.lor]. rewrite Hf2, Hf'. rewrite Hpa. transitivity (Done (Z.lor a 0)); [by destruct sec|by rewrite Z.lor_0_r].
Qed.

Lemma isFor_spec prm a sec dp : isPrefetch prm (pkt dp) -> isFor a sec dp = Done (bool_decide (keyOf dp = (a, sec))).
Proof.
  intros Hp. unfold isFor. rewrite (ip_addr _ _ Hp). cbn [obind]. unfold keyOf. destruct (Z.eqb_spec (Packet.addr (pkt dp)) a) as [->|Hne].
  - rewrite (ip_secure _ _ Hp). cbn [obind]. f_equal. destruct (Packet.isSecure_ (pkt dp)), sec; cbn; symmetry; [by apply bool_decide_eq_true|by apply bool_decide_eq_false; intros [=]|by apply bool_decide_eq_false; intros [=]|by apply bool_decide_eq_true].
  - symmetry. f_equal. apply bool_decide_eq_false. congruence.
Qed.

Lemma inPrefetch_spec prm a sec q : Forall (fun dp => isPrefetch prm (pkt dp)) q ->
  inPrefetch a sec q = Done (bool_decide ((a, sec) ∈ keyOf <$> q)).
Proof.
  intros Hq. induction Hq as [|dp q Hp Hq IH]; [done|]. cbn [inPrefetch]. rewrite (isFor_spec prm), IH by done. cbn [obind].
  change (keyOf <$> dp :: q) with (keyOf dp :: (keyOf <$> q)).
  destruct (decide (keyOf dp = (a, sec))) as [E|E].
  { rewrite (bool_decide_eq_true_2 (keyOf dp = _)) by done. f_equal. symmetry. apply bool_decide_eq_true_2. rewrite E. left. }
  rewrite (bool_decide_eq_false_2 (keyOf dp = _)) by done. f_equal. apply bool_decide_ext. rewrite elem_of_cons. naive_solver.
Qed.

Lemma squash_queue_spec prm a sec q : Forall (fun dp => isPrefetch prm (pkt dp)) q ->
  squash a sec q = Done (filter (fun dp => keyOf dp <> (a, sec)) q).
Proof.
  intros Hq. induction Hq as [|dp q Hp Hq IH]; [done|]. cbn [squash]. rewrite (isFor_spec prm), IH by done. cbn [obind].
  rewrite filter_cons. repeat case_decide; case_bool_decide; naive_solver.
Qed.

(** ** The invariant *)

Section queue.
Context {X : Type} `{Calculator X}.
Context (fresh : Z -> buffer) (prm : params).
Implicit Types (s : t X) (q : list DeferredPacket).

(** The delay of a prefetch, in ticks. *)
Definition delay : Z := clockPeriod prm * latency prm.

Definition earlier (a b : DeferredPacket) : Prop := tick a <= tick b.

(** The queue at tick [now]. *)
Record queueOK (now : Z) (q : list DeferredPacket) : Prop := {
  qo_size : Z.of_nat (length q) <= queueSize prm;
  qo_packets : Forall (fun dp => isPrefetch prm (pkt dp)) q;
  qo_once : queueFilter prm = true -> NoDup (keyOf <$> q);
  qo_order : StronglySorted earlier q;
  qo_ticks : Forall (fun dp => tick dp <= now + delay) q }.

Lemma StronglySorted_sublist {A} (R : relation A) (l k : list A) : l `sublist_of` k -> StronglySorted R k -> StronglySorted R l.
Proof.
  induction 1 as [|x l k Hs IH|x l k Hs IH]; [done|..]; intros [Hf Hk]%StronglySorted_cons; [|by apply IH].
  apply StronglySorted_cons. split; [|by apply IH]. rewrite Forall_forall in *. intros y Hy. apply Hf. by eapply elem_of_sublist.
Qed.

Lemma queueOK_sublist now q q' : q' `sublist_of` q -> queueOK now q -> queueOK now q'.
Proof.
  intros Hs [H1 H2 H3 H4 H5]. pose proof (sublist_length _ _ Hs). split; [lia|..].
  - rewrite Forall_forall in *. intros dp Hdp. apply H2. by eapply elem_of_sublist.
  - intros Hf. eapply sublist_NoDup; [by apply H3|by apply fmap_sublist].
  - by eapply StronglySorted_sublist.
  - rewrite Forall_forall in *. intros dp Hdp. apply H5. by eapply elem_of_sublist.
Qed.

Lemma queueOK_later now now' q : now <= now' -> queueOK now q -> queueOK now' q.
Proof. intros Hn [H1 H2 H3 H4 H5]. split; try done. eapply Forall_impl; [exact H5|]. cbn. lia. Qed.

Lemma queueOK_push now q dp : queueOK now q -> Z.of_nat (length q) < queueSize prm -> isPrefetch prm (pkt dp) ->
  (queueFilter prm = true -> keyOf dp ∉ keyOf <$> q) -> tick dp = now + delay -> queueOK now (q ++ [dp]).
Proof.
  intros [H1 H2 H3 H4 H5] Hl Hp Hk Ht. split.
  - rewrite length_app. cbn. lia.
  - apply Forall_app. split; [done|by apply Forall_singleton].
  - intros Hf. rewrite fmap_app. apply NoDup_app. split; [by apply H3|]. split; [|apply NoDup_singleton].
    intros k Hk1 ->%list_elem_of_singleton. by apply Hk.
  - apply StronglySorted_app. split; [|split; [done|apply SSorted_cons; constructor]]. intros x y Hx ->%list_elem_of_singleton.
    unfold earlier. rewrite Forall_forall in H5. specialize (H5 x Hx). lia.
  - apply Forall_app. split; [done|]. apply Forall_singleton. lia.
Qed.

(** The questions are answered. *)
Definition answers (f : Z -> bool -> outcome bool) : Prop := forall a sec, exists b, f a sec = Done b.

(** The prefetcher is configured with a queue and its ticks do not overflow. *)
Record timely (now : Z) : Prop := {
  ti_size : 1 <= queueSize prm;
  ti_delay : 0 <= delay;
  ti_now : 0 <= now;
  ti_ticks : now + delay < 2 ^ 64 }.

(** The candidates [l] were added behind [q]; as many of the oldest packets are
    gone as the size asks for. *)
Definition grown (now : Z) (sec : bool) (l : list Z) (q q' : list DeferredPacket) : Prop :=
  exists n news, q' = drop n (q ++ news) /\ (n <= length (q ++ news))%nat /\
    sublist (keyOf <$> news) ((fun a => (blockAlign prm a, sec)) <$> l) /\ Forall (fun dp => tick dp = now + delay) news.

Lemma grown_none now sec l q : grown now sec l q q.
Proof. exists O, []. rewrite app_nil_r. repeat split; [lia|apply sublist_nil_l|constructor]. Qed.

Lemma grown_trans now sec a l q1 q2 q3 : grown now sec [a] q1 q2 -> grown now sec l q2 q3 -> grown now sec (a :: l) q1 q3.
Proof.
  intros (n & x & -> & Hn & Kx & Tx) (m & y & -> & Hm & Ky & Ty). exists (n + m)%nat, (x ++ y).
  rewrite (app_assoc q1 x y).
  split; [|split; [|split; [|by apply Forall_app]]].
  - rewrite <-(drop_app_le (q1 ++ x) y n) by lia. by rewrite drop_drop.
  - rewrite !length_app, length_drop, length_app in *. lia.
  - rewrite fmap_app. change (a :: l) with ([a] ++ l). rewrite fmap_app. by apply sublist_app.
Qed.

Lemma makeRoom_ok now s : queueOK now (pfq s) -> 1 <= queueSize prm ->
  exists n s', makeRoom prm s = Done s' /\ pfq s' = drop n (pfq s) /\ (n <= length (pfq s))%nat /\ sub s' = sub s /\ Z.of_nat (length (pfq s')) < queueSize prm.
Proof.
  intros Hq Hs. unfold makeRoom. pose proof (qo_size _ _ Hq). destruct (Z.eqb_spec (Z.of_nat (length (pfq s))) (queueSize prm)) as [E|E].
  - destruct (pfq s) as [|dp q] eqn:Eq; [cbn in *; lia|]. exists 1%nat. eexists. split; [done|]. cbn in *. repeat split; lia.
  - exists O, s. repeat split; lia.
Qed.

Lemma queueOne_ok now p sec inC inM a s : queueOK now (pfq s) -> timely now -> contextOK (Packet.req p) -> answers inC -> answers inM ->
  exists s', queueOne fresh prm now p sec inC inM a s = Done s' /\ queueOK now (pfq s') /\ sub s' = sub s /\ grown now sec [a] (pfq s) (pfq s').
Proof.
  intros Hq [T1 T2 T3 T4] Hc HC HM. unfold queueOne. pose proof (qo_packets _ _ Hq) as Hp.
  set (b := blockAlign prm a). rewrite (inPrefetch_spec prm) by done. cbn [pfq count].
  destruct (queueFilter prm && bool_decide ((b, sec) ∈ keyOf <$> pfq s)) eqn:Ef.
  { apply andb_prop in Ef as [-> ->]. cbn [obind]. eexists. split; [done|]. split; [done|]. split; [done|]. apply grown_none. }
  assert (Hk : queueFilter prm = true -> (b, sec) ∉ keyOf <$> pfq s).
  { intros E. rewrite E in Ef. by apply bool_decide_eq_false in Ef. }
  assert (E1 : (if queueFilter prm then Done (bool_decide ((b, sec) ∈ keyOf <$> pfq s)) else Done false) = Done false).
  { destruct (queueFilter prm); [|done]. by rewrite bool_decide_eq_false_2 by (by apply Hk). }
  rewrite E1. cbn [obind]. clear Ef E1.
  assert (E2 : exists c, (if cacheSnoop prm then let! c := inC b sec in if c then Done true else inM b sec else Done false) = Done c).
  { destruct (cacheSnoop prm); [|by eexists]. destruct (HC b sec) as [[] ->], (HM b sec) as [? ->]; by eexists. }
  destruct E2 as [cached ->]. cbn [obind]. destruct cached.
  { eexists. split; [done|]. split; [done|]. split; [done|]. apply grown_none. }
  destruct (prefetchPacket_ok fresh prm p b sec) as (k & -> & Hk1 & Hk2 & Hk3); [done|apply blockAlign_idemp|]. cbn [obind].
  destruct (makeRoom_ok now (count identified s)) as (n & s' & -> & Es & Hn & Hsub & Hlen); [done|done|]. cbn [obind]. cbn [pfq count] in Es, Hn.
  assert (Ht : wrap 64 (now + wrap 64 (clockPeriod prm * latency prm)) = now + delay).
  { unfold wrap, delay in *. rewrite (Z.mod_small (clockPeriod prm * _)), Z.mod_small by lia. done. }
  assert (Kk : keyOf (mkDeferred (now + delay) k) = (b, sec)) by (unfold keyOf; cbn; by rewrite Hk2, Hk3).
  assert (Hsl : pfq s' `sublist_of` pfq s) by (rewrite Es; apply sublist_drop).
  rewrite Ht. eexists. split; [done|]. cbn [pfq withQueue]. split; [|split; [done|]].
  - apply queueOK_push; [by eapply queueOK_sublist|done|done| |done]. intros E. rewrite Kk. intros Hin. apply (Hk E).
    eapply elem_of_sublist; [exact Hin|by apply fmap_sublist].
  - exists n, [mkDeferred (now + delay) k]. split; [by rewrite drop_app_le, Es by lia|]. split; [rewrite length_app; lia|].
    split; [|by apply Forall_singleton]. cbn. rewrite Kk. done.
Qed.

Lemma queueAll_ok now p sec inC inM l : forall s, queueOK now (pfq s) -> timely now -> contextOK (Packet.req p) -> answers inC -> answers inM ->
  exists s', queueAll fresh prm now p sec inC inM l s = Done s' /\ queueOK now (pfq s') /\ sub s' = sub s /\ grown now sec l (pfq s) (pfq s').
Proof.
  induction l as [|a l IH]; intros s Hq Ht Hc HC HM; [exists s; do 3 (split; [done|]); apply grown_none|].
  destruct (queueOne_ok now p sec inC inM a s) as (s1 & E1 & Hq1 & S1 & G1); [done..|].
  destruct (IH s1) as (s2 & E2 & Hq2 & S2 & G2); [done..|]. exists s2. cbn [queueAll]. rewrite E1. cbn [obind]. rewrite E2.
  split; [done|]. split; [done|]. split; [congruence|]. by eapply grown_trans.
Qed.

(** The packet can be looked at. *)
Record readable (p : Packet.t) : Prop := {
  re_addr : Packet.getAddr p = Done (Packet.addr p);
  re_secure : Packet.isSecure p = Done (Packet.isSecure_ p);
  re_context : contextOK (Packet.req p) }.

Lemma observeAccess_answers p inC inM : readable p -> answers inC -> answers inM -> exists b, observeAccess prm p inC inM = Done b.
Proof.
  intros [Ea Es _] HC HM. unfold observeAccess. rewrite Ea, Es. cbn [obind]. repeat (case_match; [by eexists|]). case_match; [|by eexists].
  destruct (HC (Packet.addr p) (Packet.isSecure_ p)) as [[] ->]; [by eexists|]. destruct (HM (Packet.addr p) (Packet.isSecure_ p)) as [b ->]. by eexists.
Qed.

(** The queue once the demanded line is out of it. *)
Definition squashed (p : Packet.t) (q : list DeferredPacket) : list DeferredPacket :=
  if queueSquash prm then filter (fun dp => keyOf dp <> (blockAlign prm (Packet.addr p), Packet.isSecure_ p)) q else q.

Lemma squashed_sublist p q : sublist (squashed p q) q.
Proof. unfold squashed. case_match; [apply sublist_filter|done]. Qed.

(** What an observed access does. *)
Lemma notify_observed now p inC inM s l s1 s2 : queueOK now (pfq s) -> readable p -> observeAccess prm p inC inM = Done true ->
  calculatePrefetch prm p (withQueue (squashed p (pfq s)) s) = Done (l, s1) ->
  queueAll fresh prm now p (Packet.isSecure_ p) inC inM l s1 = Done s2 ->
  notify fresh prm now p inC inM s = Done (nextPrefetchReadyTime s2, s2).
Proof.
  intros Hq Hp Ho E1 E2. unfold notify. rewrite Ho. cbn [obind]. rewrite (re_addr _ Hp), (re_secure _ Hp). cbn [obind].
  assert (E : (if queueSquash prm then squash (blockAlign prm (Packet.addr p)) (Packet.isSecure_ p) (pfq s) else Done (pfq s)) = Done (squashed p (pfq s))).
  { unfold squashed. case_match; [|done]. apply (squash_queue_spec prm), (qo_packets _ _ Hq). }
  rewrite E. cbn [obind]. rewrite E1. cbn [obind]. by rewrite E2.
Qed.

Lemma grown_keys now sec l q q' key : grown now sec l q q' -> key ∈ keyOf <$> q' ->
  key ∈ keyOf <$> q \/ exists a, a ∈ l /\ key = (blockAlign prm a, sec).
Proof.
  intros (n & news & -> & _ & Hk & _) Hin. assert (Hin' : key ∈ keyOf <$> q ++ news).
  { eapply elem_of_sublist; [exact Hin|]. apply fmap_sublist, sublist_drop. }
  rewrite fmap_app in Hin'. apply elem_of_app in Hin' as [Hin'|Hin']; [by left|right].
  eapply elem_of_sublist in Hin'; [|exact Hk]. apply list_elem_of_fmap in Hin' as (a & -> & Ha). by exists a.
Qed.

(** An access: it is not observed, or the candidates are behind the packets
    that were not squashed. *)
Lemma notify_ok now p inC inM s : queueOK now (pfq s) -> timely now -> readable p -> answers inC -> answers inM ->
  (forall q, exists l s', calculatePrefetch prm p (withQueue q s) = Done (l, s') /\ pfq s' = q) ->
  exists s', notify fresh prm now p inC inM s = Done (nextPrefetchReadyTime s', s') /\ queueOK now (pfq s') /\
    match observeAccess prm p inC inM with
    | Done true => exists l s1, calculatePrefetch prm p (withQueue (squashed p (pfq s)) s) = Done (l, s1) /\ sub s' = sub s1 /\
        grown now (Packet.isSecure_ p) l (squashed p (pfq s)) (pfq s')
    | _ => s' = s
    end.
Proof.
  intros Hq Ht Hp HC HM Hcalc. destruct (observeAccess_answers p inC inM Hp HC HM) as [b Eo]. rewrite Eo.
  destruct b; [|by exists s; unfold notify; rewrite Eo]. destruct (Hcalc (squashed p (pfq s))) as (l & s1 & E1 & Q1).
  destruct (queueAll_ok now p (Packet.isSecure_ p) inC inM l s1) as (s2 & E2 & Hq2 & S2 & G2); [|done..|apply Hp|done|done|].
  - rewrite Q1. eapply queueOK_sublist; [apply squashed_sublist|done].
  - exists s2. split; [by eapply notify_observed|]. split; [done|]. exists l, s1. rewrite Q1 in G2. by repeat split.
Qed.

(** Each packet is due [delay] after an access of the same security. *)
Definition caused (seen : list (Z * Packet.t)) (q : list DeferredPacket) : Prop :=
  forall dp, dp ∈ q -> exists now p, (now, p) ∈ seen /\ tick dp = now + delay /\ Packet.isSecure_ (pkt dp) = Packet.isSecure_ p.

Lemma caused_sublist seen q q' : q' `sublist_of` q -> caused seen q -> caused seen q'.
Proof. intros Hs Hq dp Hdp. apply Hq. by eapply elem_of_sublist. Qed.

Lemma caused_grown seen now p l q q' : caused seen q -> grown now (Packet.isSecure_ p) l q q' -> caused ((now, p) :: seen) q'.
Proof.
  intros Hq (n & news & -> & _ & Hk & Ht). apply (caused_sublist _ (q ++ news)); [apply sublist_drop|]. intros dp [Hdp|Hdp]%elem_of_app.
  - destruct (Hq dp Hdp) as (T & p0 & Hin & Hrest). exists T, p0. split; [by right|done].
  - exists now, p. split; [left|]. rewrite Forall_forall in Ht. split; [by apply Ht|].
    assert (Hin : keyOf dp ∈ keyOf <$> news) by (apply list_elem_of_fmap; by exists dp).
    eapply elem_of_sublist in Hin; [|exact Hk]. apply list_elem_of_fmap in Hin as (a & E & _). by injection E.
Qed.

(** Accesses and issued prefetches, at ticks that do not go back; the accesses
    are kept with their ticks, the last first. *)
Inductive reach : Z -> list (Z * Packet.t) -> t X -> Prop :=
| reach_new x : reach 0 [] (new x)
| reach_access now now' seen p inC inM s r s' : reach now seen s -> now <= now' -> timely now' -> readable p -> answers inC -> answers inM ->
    (forall q, exists l s', calculatePrefetch prm p (withQueue q s) = Done (l, s') /\ pfq s' = q) ->
    notify fresh prm now' p inC inM s = Done (r, s') -> reach now' ((now', p) :: seen) s'
| reach_issue now seen o s s' : reach now seen s -> getPacket s = Done (o, s') -> reach now seen s'.

Lemma getPacket_queue s o s' : getPacket s = Done (o, s') ->
  (pfq s = [] /\ o = None /\ s' = s) \/ exists dp, pfq s = dp :: pfq s' /\ o = Some (pkt dp).
Proof.
  unfold getPacket. destruct (pfq s) as [|dp q] eqn:E; intros [= <- <-]; [by left|]. right. by exists dp.
Qed.

Lemma reach_ok now seen s : 1 <= queueSize prm -> reach now seen s -> queueOK now (pfq s) /\ caused seen (pfq s).
Proof.
  intros Hs. induction 1 as [x|now now' seen p inC inM s r s' _ [IH IHc] Hn Ht Hp HC HM Hcalc E|now seen o s s' _ [IH IHc] E].
  - split; [|by intros dp ?%not_elem_of_nil]. split; cbn; [lia|by apply Forall_nil|intros _; apply NoDup_nil_2|apply SSorted_nil|by apply Forall_nil].
  - destruct (notify_ok now' p inC inM s) as (s1 & E1 & Hq & Hg); [by eapply queueOK_later|done..|]. rewrite E in E1. injection E1 as _ ->. split; [done|].
    assert (Hkeep : caused ((now', p) :: seen) (pfq s)) by (eapply (caused_grown seen now' p []); [done|apply grown_none]).
    destruct (observeAccess_answers p inC inM Hp HC HM) as [[] Eo]; rewrite Eo in Hg; [|by subst s1].
    destruct Hg as (l & s2 & _ & _ & Hg). eapply caused_grown; [|exact Hg]. by eapply caused_sublist; [apply squashed_sublist|].
  - apply getPacket_queue in E as [(_ & _ & ->)|(dp & Eq & _)]; [done|]. assert (Hsub : pfq s' `sublist_of` pfq s) by (rewrite Eq; by constructor).
    split; [by eapply queueOK_sublist|by eapply caused_sublist].
Qed.

Lemma ready_first now s : queueOK now (pfq s) -> now + delay < 2 ^ 64 -> forall dp, dp ∈ pfq s -> nextPrefetchReadyTime s <= tick dp.
Proof.
  intros [_ _ _ Ho Ht] Hn dp Hdp. unfold nextPrefetchReadyTime. destruct (pfq s) as [|d q]; [by apply not_elem_of_nil in Hdp|].
  apply StronglySorted_cons in Ho as [Hf _]. apply elem_of_cons in Hdp as [->|Hdp]; [done|]. rewrite Forall_forall in Hf. by apply Hf.
Qed.

End queue.

(** ** Coverage *)

Section cover.
Context {X : Type} (fresh : Z -> buffer) (prm : params).
Implicit Types s : t X.

(** The line is queued, or the cache has it or waits for it. *)
Definition covered (inC inM : Z -> bool -> outcome bool) (a : Z) (sec : bool) (q : list DeferredPacket) : Prop :=
  (a, sec) ∈ keyOf <$> q \/ (cacheSnoop prm = true /\ (inC a sec = Done true \/ inM a sec = Done true)).

Lemma covered_mono inC inM a sec q q' : keyOf <$> q ⊆ keyOf <$> q' -> covered inC inM a sec q -> covered inC inM a sec q'.
Proof. intros Hq [Hk|Hk]; [left; by apply Hq|by right]. Qed.

(** With room for it, a candidate is covered and nothing is dropped. *)
Lemma queueOne_covers now p sec inC inM a s s' : queueOK prm now (pfq s) -> contextOK (Packet.req p) -> Z.of_nat (length (pfq s)) < queueSize prm ->
  queueOne fresh prm now p sec inC inM a s = Done s' ->
  covered inC inM (blockAlign prm a) sec (pfq s') /\ (keyOf <$> pfq s) ⊆ (keyOf <$> pfq s') /\ (length (pfq s') <= S (length (pfq s)))%nat.
Proof.
  intros Hq Hc Hl. pose proof (qo_packets _ _ _ Hq) as Hp. unfold queueOne. rewrite (inPrefetch_spec prm) by done. cbn [pfq count].
  set (b := blockAlign prm a). intros E. apply obind_Done in E as (queued & E1 & E). destruct queued.
  { injection E as <-. destruct (queueFilter prm); [|done]. injection E1 as E1%bool_decide_eq_true. cbn. split; [by left|]. split; [done|lia]. }
  apply obind_Done in E as (cached & E2 & E). destruct cached.
  { injection E as <-. cbn. split; [|split; [done|lia]]. right. destruct (cacheSnoop prm); [|done]. split; [done|].
    apply obind_Done in E2 as (c & E2 & E3). destruct c; [by left|by right]. }
  apply obind_Done in E as (k & E3 & E). destruct (prefetchPacket_ok fresh prm p b sec) as (k' & E3' & _ & Hk2 & Hk3); [done|apply blockAlign_idemp|].
  assert (k' = k) as -> by congruence. unfold makeRoom in E. cbn [pfq count] in E. rewrite (proj2 (Z.eqb_neq _ _)) in E by lia. injection E as <-.
  cbn [pfq withQueue]. rewrite fmap_app, length_app. cbn. split; [|split; [by intros x Hx; apply elem_of_app; left|lia]]. left. rewrite fmap_app. apply elem_of_app. right.
  apply list_elem_of_singleton. unfold keyOf. cbn. by rewrite Hk2, Hk3.
Qed.

Lemma queueAll_covers now p sec inC inM l : forall s s', queueOK prm now (pfq s) -> timely prm now -> contextOK (Packet.req p) -> answers inC -> answers inM ->
  Z.of_nat (length (pfq s)) + Z.of_nat (length l) <= queueSize prm ->
  queueAll fresh prm now p sec inC inM l s = Done s' ->
  (keyOf <$> pfq s) ⊆ (keyOf <$> pfq s') /\ forall a, a ∈ l -> covered inC inM (blockAlign prm a) sec (pfq s').
Proof.
  induction l as [|a l IH]; intros s s' Hq Ht Hc HC HM Hl E; [injection E as <-; split; [done|by intros a ?%not_elem_of_nil]|].
  cbn [queueAll length] in *. destruct (queueOne_ok fresh prm now p sec inC inM a s) as (s1 & E1 & Hq1 & _); [done..|]. rewrite E1 in E. cbn [obind] in E.
  destruct (queueOne_covers _ _ _ _ _ _ _ _ Hq Hc ltac:(lia) E1) as (C1 & K1 & L1).
  destruct (IH s1 s') as [K2 C2]; [done..|lia|done|]. split; [by etrans|]. intros b [->|Hb]%elem_of_cons; [by eapply covered_mono|by apply C2].
Qed.

End cover.

(** C33: whatever is accessed and issued, the prefetch queue of a prefetcher with
    room for one packet stays within its size, holds only block-aligned
    hardware prefetches of one block, with the prefetcher's master and task id,
    holds no line twice when it filters, and is in the order of its ticks, so
    that the time it announces is the earliest; each packet is due exactly
    [latency] cycles after an access that was made, and has its security; the
    next access, observed or not, completes, and the next prefetch to leave is
    the oldest.  The accesses are at ticks that do not go back or overflow, carry
    an address, the cache answers what it is asked, and [calculatePrefetch]
    returns and leaves the queue alone. *)
Theorem prefetch_queue_inv {X} `{Calculator X} fresh prm now seen (s : t X) : 1 <= queueSize prm -> reach fresh prm now seen s ->
  queueOK prm now (pfq s) /\ caused prm seen (pfq s) /\
  (now + delay prm < 2 ^ 64 -> forall dp, dp ∈ pfq s -> nextPrefetchReadyTime s <= tick dp) /\
  (forall now' p inC inM, now <= now' -> timely prm now' -> readable p -> answers inC -> answers inM ->
     (forall q, exists l s', calculatePrefetch prm p (withQueue q s) = Done (l, s') /\ pfq s' = q) ->
     exists s', notify fresh prm now' p inC inM s = Done (nextPrefetchReadyTime s', s')) /\
  (exists o s', getPacket s = Done (o, s') /\ o = pkt <$> head (pfq s) /\ pfq s' = tail (pfq s)).
Proof.
  intros Hs Hr. destruct (reach_ok _ _ _ _ _ Hs Hr) as [Hq Hc]. split; [done|]. split; [done|]. split; [by intros; eapply ready_first|]. split.
  - intros now' p inC inM Hn Ht Hp HC HM Hcalc. destruct (notify_ok fresh prm now' p inC inM s) as (s' & E & _); [by eapply queueOK_later|done..|]. by exists s'.
  - unfold getPacket. destruct (pfq s) as [|dp q] eqn:E; do 2 eexists; split; [done| |done|done]. by rewrite E.
Qed.

(** ** The next lines of the page *)

(** Blocks and pages are powers of two, and a page is less than 2 GB. *)
Record geometry (prm : params) (k g : Z) : Prop := {
  ge_blk : blkSize prm = 2 ^ k;
  ge_page : pageBytes prm = 2 ^ g;
  ge_order : 0 <= k <= g;
  ge_small : g < 31 }.

Lemma blockAlign_spec prm k g a : geometry prm k g -> u64 a -> blockAlign prm a = a - a mod 2 ^ k.
Proof.
  intros [Hb _ Ho Hs] Ha. unfold blockAlign. rewrite Hb. assert (0 < 2 ^ k) by (apply Z.pow_pos_nonneg; lia).
  assert (2 ^ k < 2 ^ 32) by (apply Z.pow_lt_mono_r; lia). unfold wrap. rewrite Z.mod_small by lia.
  replace (2 ^ k - 1) with (Z.ones k) by (rewrite Z.ones_equiv; lia). apply land_bnot_mask; [done|lia].
Qed.

Lemma page_end g a : u64 a -> 0 <= g <= 64 -> 0 <= a - a mod 2 ^ g /\ a - a mod 2 ^ g + 2 ^ g <= 2 ^ 64.
Proof.
  intros Ha Hg. assert (HP : 0 < 2 ^ g) by (apply Z.pow_pos_nonneg; lia).
  assert (E64 : 2 ^ 64 = 2 ^ (64 - g) * 2 ^ g) by (rewrite <-Z.pow_add_r by lia; f_equal; lia).
  pose proof (Z.div_mod a (2 ^ g) ltac:(lia)) as D. pose proof (Z.mod_pos_bound a (2 ^ g) HP) as B. unfold u64 in Ha.
  assert (a / 2 ^ g < 2 ^ (64 - g)) by (apply (Z.mul_lt_mono_pos_r (2 ^ g)); lia).
  assert (-1 < a / 2 ^ g) by (apply (Z.mul_lt_mono_pos_r (2 ^ g)); lia). rewrite E64. nia.
Qed.

(** A near address is in the same page when the offset stays in it. *)
Lemma samePage_spec prm k g a x : geometry prm k g -> u64 a -> Z.abs x <= 2 ^ 32 ->
  samePage prm a (wrap 64 (a + x)) = bool_decide (0 <= a mod 2 ^ g + x < 2 ^ g).
Proof.
  intros [_ Hp Ho Hs] Ha Hx. unfold samePage. rewrite Hp.
  assert (Hw : u64 (wrap 64 (a + x))) by (apply Z.mod_pos_bound; lia). rewrite !roundDown_spec by (done || lia).
  assert (HP : 0 < 2 ^ g < 2 ^ 31) by (split; [apply Z.pow_pos_nonneg|apply Z.pow_lt_mono_r]; lia).
  assert (E64 : 2 ^ 64 = 2 ^ (64 - g) * 2 ^ g) by (rewrite <-Z.pow_add_r by lia; f_equal; lia).
  assert (Hm : wrap 64 (a + x) mod 2 ^ g = (a mod 2 ^ g + x) mod 2 ^ g).
  { unfold wrap. rewrite E64. rewrite <-(Znumtheory.Zmod_div_mod (2 ^ g) (2 ^ (64 - g) * 2 ^ g)); [|lia|nia|by exists (2 ^ (64 - g))].
    by rewrite Zplus_mod_idemp_l. }
  rewrite Hm. set (r := a mod 2 ^ g). assert (Hr : 0 <= r < 2 ^ g) by (apply Z.mod_pos_bound; lia).
  pose proof (Z.mod_pos_bound (r + x) (2 ^ g) ltac:(lia)) as Hrx.
  pose proof (page_end g a Ha ltac:(lia)) as Hend. fold r in Hend. unfold u64 in *.
  apply eq_bool_prop_intro. rewrite bool_decide_spec, Is_true_true, Z.eqb_eq. split.
  - intros E. assert (Hwx : wrap 64 (a + x) = a - r + (r + x) mod 2 ^ g) by lia. unfold wrap in Hwx.
    pose proof (Z.div_mod (a + x) (2 ^ 64) ltac:(lia)) as D. assert ((a + x) / 2 ^ 64 = 0) by nia. lia.
  - intros Hin. rewrite (Z.mod_small (r + x)) by lia. unfold wrap. rewrite Z.mod_small by lia. lia.
Qed.

(** The lines after the block at [blk], up to the [degree]-th or the end of the page. *)
Definition lastLine (k g degree blk : Z) : Z := Z.min degree ((2 ^ g - 1 - blk mod 2 ^ g) / 2 ^ k).
Definition nextLines (k g degree blk : Z) : list Z := (fun d => blk + d * 2 ^ k) <$> seqZ 1 (lastLine k g degree blk).

Lemma line_in_page k g d r : 0 <= k -> (r + d * 2 ^ k < 2 ^ g <-> d <= (2 ^ g - 1 - r) / 2 ^ k).
Proof.
  intros Hk. assert (0 < 2 ^ k) by (apply Z.pow_pos_nonneg; lia). split; intros Hd.
  - apply Z.div_le_lower_bound; lia.
  - pose proof (Z.mul_div_le (2 ^ g - 1 - r) (2 ^ k) ltac:(lia)). nia.
Qed.

Lemma taggedLoop_spec prm k g degree blk fuel : geometry prm k g -> u64 blk -> 0 <= degree -> degree * 2 ^ k < 2 ^ 32 -> forall d,
  1 <= d -> Z.of_nat fuel = degree - d + 1 -> d <= lastLine k g degree blk + 1 ->
  taggedLoop fuel prm degree blk d =
    ((fun i => blk + i * 2 ^ k) <$> seqZ d (lastLine k g degree blk - d + 1), degree - lastLine k g degree blk).
Proof.
  intros Hg Hb H0 Hdeg. assert (HK : 0 < 2 ^ k) by (apply Z.pow_pos_nonneg; [lia|apply Hg]).
  induction fuel as [|fuel IH]; intros d Hd Hf Hl; cbn [taggedLoop].
  { assert (lastLine k g degree blk <= degree) by (unfold lastLine; lia). rewrite seqZ_nil by lia. cbn. f_equal. lia. }
  rewrite (ge_blk _ _ _ Hg). assert (0 <= d * 2 ^ k < 2 ^ 32) by nia. 
  assert (Hw : wrap 32 (d * 2 ^ k) = d * 2 ^ k) by (apply Z.mod_small; lia). rewrite Hw.
  rewrite (samePage_spec prm k g) by (done || lia).
  assert (0 <= blk mod 2 ^ g) by (apply Z.mod_pos_bound, Z.pow_pos_nonneg; [lia|]; destruct Hg; lia).
  pose proof (line_in_page k g d (blk mod 2 ^ g) ltac:(destruct Hg; lia)) as Hline. case_bool_decide as Hin.
  - assert (Hd' : d <= lastLine k g degree blk) by (unfold lastLine in *; lia). rewrite (IH (d + 1)) by lia.
    rewrite (seqZ_cons d) by lia. rewrite fmap_cons. f_equal. f_equal; [|f_equal; f_equal; lia].
    apply Z.mod_small. pose proof (page_end g blk Hb ltac:(destruct Hg; lia)). unfold u64 in *. lia.
  - assert (lastLine k g degree blk < d) by (unfold lastLine in *; lia). rewrite seqZ_nil by lia. cbn. f_equal. lia.
Qed.

Lemma lastLine_range k g degree blk : 0 <= k -> 0 <= g -> 0 <= degree -> 0 <= lastLine k g degree blk <= degree.
Proof.
  intros Hk Hg Hd. unfold lastLine. assert (0 < 2 ^ k) by (apply Z.pow_pos_nonneg; lia). assert (0 < 2 ^ g) by (apply Z.pow_pos_nonneg; lia).
  pose proof (Z.mod_pos_bound blk (2 ^ g) ltac:(lia)). assert (0 <= (2 ^ g - 1 - blk mod 2 ^ g) / 2 ^ k) by (apply Z.div_pos; lia). lia.
Qed.

(** The line is one of the next ones, in the page of the block. *)
Definition isNext (k g degree blk a : Z) : Prop := exists d, 1 <= d <= degree /\ a = blk + d * 2 ^ k /\ a / 2 ^ g = blk / 2 ^ g.

Lemma nextLines_spec k g degree blk a : 0 <= k -> 0 <= g -> 0 <= blk -> a ∈ nextLines k g degree blk <-> isNext k g degree blk a.
Proof.
  intros Hk Hg Hb. assert (0 < 2 ^ k) by (apply Z.pow_pos_nonneg; lia). assert (0 < 2 ^ g) by (apply Z.pow_pos_nonneg; lia).
  unfold nextLines, isNext. rewrite list_elem_of_fmap. split.
  - intros (d & -> & Hd%elem_of_seqZ). exists d. split; [unfold lastLine in *; lia|]. split; [done|].
    assert (Hin : blk mod 2 ^ g + d * 2 ^ k < 2 ^ g) by (apply line_in_page; unfold lastLine in *; lia).
    symmetry. apply (Z.div_unique _ _ _ (blk mod 2 ^ g + d * 2 ^ k)); [|pose proof (Z.div_mod blk (2 ^ g)); lia].
    left. pose proof (Z.mod_pos_bound blk (2 ^ g)). nia.
  - intros (d & Hd & -> & E). exists d. split; [done|]. apply elem_of_seqZ. unfold lastLine.
    enough (d <= (2 ^ g - 1 - blk mod 2 ^ g) / 2 ^ k) by lia. apply line_in_page; [done|].
    pose proof (Z.div_mod blk (2 ^ g)). pose proof (Z.div_mod (blk + d * 2 ^ k) (2 ^ g)). pose proof (Z.mod_pos_bound (blk + d * 2 ^ k) (2 ^ g)). lia.
Qed.

Lemma block_start k a : 0 <= k -> u64 a -> u64 (a - a mod 2 ^ k).
Proof.
  intros Hk Ha. assert (0 < 2 ^ k) by (apply Z.pow_pos_nonneg; lia). pose proof (Z.mod_pos_bound a (2 ^ k) ltac:(lia)).
  unfold u64 in *. pose proof (Z.mod_le a (2 ^ k)). lia.
Qed.

Lemma tagged_calculate prm k g p s : geometry prm k g -> readable p -> u64 (Packet.addr p) -> 0 <= tg_degree (sub s) -> tg_degree (sub s) * 2 ^ k < 2 ^ 32 ->
  let blk := Packet.addr p - Packet.addr p mod 2 ^ k in
  calculatePrefetch prm p s = Done (nextLines k g (tg_degree (sub s)) blk, count (spanPage (tg_degree (sub s) - lastLine k g (tg_degree (sub s)) blk)) s).
Proof.
  intros Hg Hp Ha H0 Hd blk. unfold calculatePrefetch, taggedCalculate. rewrite (re_addr _ Hp). cbn [obind].
  rewrite (blockAlign_spec prm k g) by done. fold blk. pose proof (lastLine_range k g (tg_degree (sub s)) blk) as Hl.
  rewrite (taggedLoop_spec prm k g); [|done|by apply block_start; [destruct Hg; lia|]|done|done|lia|lia|destruct Hg; lia].
  unfold nextLines. by rewrite (Z.add_comm (_ - _)), Zplus_minus.
Qed.

Lemma nextLines_aligned prm k g degree blk a : geometry prm k g -> u64 blk -> blk mod 2 ^ k = 0 -> isNext k g degree blk a -> blockAlign prm a = a.
Proof.
  intros Hg Hb Hm (d & Hd & -> & E). assert (0 < 2 ^ k) by (apply Z.pow_pos_nonneg; destruct Hg; lia).
  assert (HP : 0 < 2 ^ g) by (apply Z.pow_pos_nonneg; destruct Hg; lia).
  rewrite (blockAlign_spec prm k g); [|done|].
  - rewrite Z_mod_plus_full, Hm. lia.
  - pose proof (page_end g blk Hb ltac:(destruct Hg; lia)). pose proof (Z.mod_eq blk (2 ^ g) ltac:(lia)).
    pose proof (Z.mod_eq (blk + d * 2 ^ k) (2 ^ g) ltac:(lia)). pose proof (Z.mod_pos_bound (blk + d * 2 ^ k) (2 ^ g) HP). unfold u64 in *. nia.
Qed.

(** An observed access to a line makes the tagged prefetcher, when its queue
    has room for [degree] more packets, queue the next [degree] lines as far as
    they are in the page, unless they are already queued or the cache has them;
    it queues nothing else, and the line itself is no longer queued when the
    queue squashes. *)
Theorem tagged_next_lines fresh prm k g now seen p inC inM (s : t tagged) :
  geometry prm k g -> timely prm now -> reach fresh prm now seen s -> readable p -> u64 (Packet.addr p) -> answers inC -> answers inM ->
  observeAccess prm p inC inM = Done true -> let degree := tg_degree (sub s) in 0 <= degree -> degree * 2 ^ k < 2 ^ 32 ->
  Z.of_nat (length (pfq s)) + degree <= queueSize prm ->
  let blk := Packet.addr p - Packet.addr p mod 2 ^ k in let sec := Packet.isSecure_ p in
  exists s', notify fresh prm now p inC inM s = Done (nextPrefetchReadyTime s', s') /\
    (forall a, isNext k g degree blk a -> covered prm inC inM a sec (pfq s')) /\
    (forall key, key ∈ keyOf <$> pfq s' -> key ∈ keyOf <$> pfq s \/ (key.2 = sec /\ isNext k g degree blk key.1)) /\
    (queueSquash prm = true -> (blk, sec) ∉ keyOf <$> pfq s').
Proof.
  intros Hg Ht Hr Hp Ha HC HM Ho degree H0 Hd Hroom blk sec.
  assert (Hb : u64 blk) by (apply block_start; [destruct Hg; lia|done]).
  assert (HK : 0 < 2 ^ k) by (apply Z.pow_pos_nonneg; destruct Hg; lia).
  assert (Hbm : blk mod 2 ^ k = 0) by (unfold blk; rewrite Zminus_mod_idemp_r, Z.sub_diag; apply Zmod_0_l).
  pose proof (proj1 (reach_ok _ _ _ _ _ (ti_size _ _ Ht) Hr)) as Hq.
  assert (Hcalc : forall q, calculatePrefetch prm p (withQueue q s) = Done (nextLines k g degree blk, count (spanPage (degree - lastLine k g degree blk)) (withQueue q s)))
    by (intros q; by apply (tagged_calculate prm k g)).
  assert (Hnl : forall a, a ∈ nextLines k g degree blk -> isNext k g degree blk a /\ blockAlign prm a = a).
  { intros a Hin. apply nextLines_spec in Hin; [|destruct Hg; lia|destruct Hg; lia|apply Hb]. split; [done|by eapply nextLines_aligned]. }
  set (s1 := count (spanPage (degree - lastLine k g degree blk)) (withQueue (squashed prm p (pfq s)) s)).
  assert (Hq1 : queueOK prm now (pfq s1)) by (eapply queueOK_sublist; [apply squashed_sublist|done]).
  destruct (queueAll_ok fresh prm now p sec inC inM (nextLines k g degree blk) s1) as (s2 & E2 & Hq2 & _ & G2); [done|done|apply Hp|done|done|].
  exists s2. split; [|split; [|split]].
  - eapply notify_observed; [done..|apply Hcalc|exact E2].
  - intros a Hin%nextLines_spec; [|destruct Hg; lia|destruct Hg; lia|apply Hb].
    destruct (queueAll_covers fresh prm now p sec inC inM (nextLines k g degree blk) s1 s2) as [_ Hcov]; [done|done|apply Hp|done|done| |done|].
    + pose proof (sublist_length _ _ (squashed_sublist prm p (pfq s))). unfold s1. cbn [pfq count withQueue]. unfold nextLines at 1.
      rewrite length_fmap, length_seqZ. pose proof (lastLine_range k g degree blk). destruct Hg. lia.
    + specialize (Hcov a Hin). by rewrite (proj2 (Hnl a Hin)) in Hcov.
  - intros [a sec'] [Hin|(b & Hb1 & [= -> ->])]%(grown_keys _ _ _ _ _ _ _ G2); [left|right].
    + eapply elem_of_sublist; [exact Hin|]. apply fmap_sublist, squashed_sublist.
    + split; [done|]. cbn. destruct (Hnl b Hb1) as [Hn ->]. exact Hn.
  - intros Hsq [Hin|(b & Hb1 & [= E])]%(grown_keys _ _ _ _ _ _ _ G2).
    + unfold s1, squashed in Hin. cbn [pfq count withQueue] in Hin. rewrite Hsq in Hin.
      apply list_elem_of_fmap in Hin as (dp & E & [Hne _]%list_elem_of_filter). apply Hne. rewrite <-E, (blockAlign_spec prm k g) by done. done.
    + destruct (Hnl b Hb1) as [(d & Hd' & Eb & _) Eal]. rewrite Eal in E. nia.
Qed.

(** ** A run *)

(** Blocks of 64 bytes, pages of 4 KB, two lines ahead and a queue of four. *)
Definition runParams : params := mkParams 64 4096 false true true true true 5 500 4 1 true true false true.
Definition runBuffer (n : Z) : buffer := repeat 0 (Z.to_nat n).
Definition runRead (a : Z) : Packet.t := Packet.new (Request.setPC 0x400 (Request.physical a 8 0 3 0)) MemCmd.ReadReq.
Definition nowhere (a : Z) (sec : bool) : outcome bool := Done false.

Lemma nowhere_answers : answers nowhere.
Proof. intros a sec. by exists false. Qed.

Lemma run_timely now : 0 <= now < 2 ^ 63 -> timely runParams now.
Proof. intros Hn. split; unfold delay; cbn; lia. Qed.

Lemma runRead_readable a : readable (runRead a).
Proof. split; [done|done|]. intros [=]. Qed.

(** A last line of a page has no next line; the one before has one. *)
Example run_page_end :
  (let! (_, s) := notify runBuffer runParams 100 (runRead 0x1f80) nowhere nowhere (new (mkTagged 2)) in
   Done (keyOf <$> pfq s, tick <$> pfq s, pfSpanPage (st s))) = Done ([(0x1fc0, false)], [600], 1).
Proof. reflexivity. Qed.

Lemma prefetch_queue_inv_witness : exists s : t tagged, reach runBuffer runParams 100 [(100, runRead 0x1040)] s /\ length (pfq s) = 2%nat /\
  queueOK runParams 100 (pfq s) /\ caused runParams [(100, runRead 0x1040)] (pfq s).
Proof.
  destruct (notify runBuffer runParams 100 (runRead 0x1040) nowhere nowhere (new (mkTagged 2))) as [[r s]| |] eqn:E; [|vm_compute in E; discriminate..].
  assert (Hr : reach runBuffer runParams 100 [(100, runRead 0x1040)] s).
  { eapply (reach_access _ _ 0 100 [] (runRead 0x1040) nowhere nowhere); [apply reach_new|lia|by apply run_timely|apply runRead_readable|apply nowhere_answers..| |exact E].
    intros q. do 2 eexists. split; reflexivity. }
  exists s. split; [done|]. split; [vm_compute in E; by injection E as _ <-|].
  destruct (prefetch_queue_inv runBuffer runParams 100 [(100, runRead 0x1040)] s) as (H1 & H2 & _); [cbn; lia|done|]. split; [exact H1|exact H2].
Defined.

Lemma tagged_next_lines_witness : exists s',
  notify runBuffer runParams 0 (runRead 0x1040) nowhere nowhere (new (mkTagged 2)) = Done (nextPrefetchReadyTime s', s') /\
  (0x1040, false) ∉ keyOf <$> pfq s' /\ covered runParams nowhere nowhere 0x1080 false (pfq s').
Proof.
  destruct (tagged_next_lines runBuffer runParams 6 12 0 [] (runRead 0x1040) nowhere nowhere (new (mkTagged 2))) as (s' & E & H1 & _ & H2).
  - split; [done|done|lia|lia].
  - by apply run_timely.
  - apply reach_new.
  - apply runRead_readable.
  - vm_compute. done.
  - apply nowhere_answers.
  - apply nowhere_answers.
  - done.
  - cbn. lia.
  - cbn. lia.
  - cbn. lia.
  - exists s'. split; [exact E|]. split; [by apply H2|]. apply H1. exists 1. split; [cbn; lia|]. split; reflexivity.
Defined.

End PrefetchCorrect.
