(* ===== verification/PrefetchStride.v ===== *)
(** * What the stride prefetcher learns

    The table of strides stays well formed, and an instruction that keeps one
    stride is prefetched along it after a bounded number of its accesses, from
    any contents of the table and whatever other sets are used for in between. *)

From Stdlib Require Import ZArith Lia.
From stdpp Require Import base numbers list.
From S2P Require Import Prelude Bits MemCmd Request Packet Prefetch PrefetchCorrect.

#[local] Open Scope Z_scope.
#[local] Open Scope outcome_scope.

Module PrefetchStride.
Import Prefetch PrefetchCorrect.

(** ** The table *)

Definition entryOK (x : striding) (e : StrideEntry) : Prop := minConf x <= confidence e <= maxConf x.
Definition setOK (x : striding) (ways : list StrideEntry) : Prop :=
  length ways = Z.to_nat (pcTableAssoc x) /\ Forall (entryOK x) ways.
Definition contextTableOK (x : striding) (sets : list (list StrideEntry)) : Prop :=
  length sets = Z.to_nat (pcTableSets x) /\ Forall (setOK x) sets.

Record tableOK (x : striding) : Prop := {
  to_pow : isPowerOf2 (pcTableSets x) = true;
  to_sets : 0 < pcTableSets x < 2 ^ 31;
  to_assoc : 0 < pcTableAssoc x;
  to_thresh : minConf x < threshConf x <= maxConf x;
  to_start : minConf x <= startConf x <= maxConf x;
  to_length : length (pcTable x) = Z.to_nat maxContexts;
  to_table : Forall (contextTableOK x) (pcTable x) }.

(** A new prefetcher, with no confidence between the bounds. *)
Lemma newStriding_ok maxC threshC minC startC assoc sets useMaster deg x :
  newStriding maxC threshC minC startC assoc sets useMaster deg = Done x -> 0 < sets < 2 ^ 31 -> 0 < assoc ->
  minC < threshC <= maxC -> minC <= startC <= maxC -> minC <= 0 <= maxC -> tableOK x.
Proof.
  unfold newStriding. destruct (isPowerOf2 sets) eqn:E; [|done]. intros Ex Hs Ha Ht Hst H0.
  match type of Ex with Done ?y = _ => assert (x = y) as -> by congruence end. clear Ex.
  split; try done. cbn [pcTable]. apply Forall_replicate. split; [by rewrite length_replicate|]. apply Forall_replicate. split; [by rewrite length_replicate|].
  apply Forall_replicate. exact H0.
Qed.

Lemma pcHash_ok x pc : tableOK x -> 0 <= pc -> exists h, pcHash x pc = Done h /\ 0 <= h < pcTableSets x.
Proof.
  intros Hx Hpc. pose proof (to_sets _ Hx) as Hs. unfold pcHash. rewrite floorLog2_spec by lia. cbn [obind]. eexists. split; [done|].
  rewrite (pow2_mask (pcTableSets x)) by (lia || apply Hx). rewrite Z.land_ones by apply Z.log2_nonneg.
  pose proof (isPowerOf2_log2 (pcTableSets x) ltac:(lia) (to_pow _ Hx)) as E.
  rewrite <-E. apply Z.mod_pos_bound. lia.
Qed.

Lemma setOf_ok x pc m : tableOK x -> 0 <= pc -> 0 <= m < maxContexts ->
  exists set sets ways, pcHash x pc = Done set /\ 0 <= set < pcTableSets x /\ pcTable x !! Z.to_nat m = Some sets /\ contextTableOK x sets /\
    sets !! Z.to_nat set = Some ways /\ setOK x ways /\ setOf x pc m = Done (set, ways).
Proof.
  intros Hx Hpc Hm. destruct (pcHash_ok x pc Hx Hpc) as (set & E & Hset). pose proof (to_length _ Hx) as Hl.
  destruct (vec_get_in (pcTable x) m) as (sets & Es & Ls); [rewrite Hl; unfold maxContexts in *; lia|].
  pose proof (Forall_lookup_1 _ _ _ _ (to_table _ Hx) Ls) as Hc. destruct (vec_get_in sets set) as (ways & Ew & Lw); [rewrite (proj1 Hc); lia|].
  pose proof (Forall_lookup_1 _ _ _ _ (proj2 Hc) Lw) as Hw. exists set, sets, ways. repeat split; try (done || apply Hc || apply Hw || lia).
  unfold setOf. rewrite E. cbn [obind]. rewrite Es. cbn [obind]. by rewrite Ew.
Qed.

Lemma findWay_spec pc sec ways : forall i w e, findWay pc sec ways i = Some (w, e) ->
  i <= w < i + Z.of_nat (length ways) /\ ways !! Z.to_nat (w - i) = Some e /\ instAddr e = pc /\ isSecure e = sec /\
  forall e', instAddr e' = pc -> isSecure e' = sec -> findWay pc sec (<[Z.to_nat (w - i) := e']> ways) i = Some (w, e').
Proof.
  induction ways as [|d ways IH]; intros i w e E; [done|]. cbn [findWay length] in *.
  destruct ((instAddr d =? pc) && Bool.eqb (isSecure d) sec) eqn:Ed.
  - injection E as <- <-. apply andb_prop in Ed as [Ed1%Z.eqb_eq Ed2%eqb_prop]. rewrite Z.sub_diag. split; [lia|]. split; [done|]. split; [done|]. split; [done|].
    intros e' H1 H2. change (findWay pc sec (e' :: ways) i = Some (i, e')). cbn. by rewrite H1, H2, Z.eqb_refl, eqb_reflx.
  - destruct (IH _ _ _ E) as (Hw & Hl & Hi & Hs & Hf). replace (Z.to_nat (w - i)) with (S (Z.to_nat (w - (i + 1)))) by lia. split; [lia|].
    split; [done|]. split; [done|]. split; [done|]. intros e' H1 H2.
    change (findWay pc sec (d :: <[Z.to_nat (w - (i + 1)) := e']> ways) i = Some (w, e')). cbn [findWay]. rewrite Ed. by apply Hf.
Qed.

Lemma findWay_none pc sec ways : forall i w e', findWay pc sec ways i = None -> (w < length ways)%nat -> instAddr e' = pc -> isSecure e' = sec ->
  findWay pc sec (<[w := e']> ways) i = Some (i + Z.of_nat w, e').
Proof.
  induction ways as [|d ways IH]; intros i w e' E Hw H1 H2; [cbn in Hw; lia|]. cbn [findWay length] in *.
  destruct ((instAddr d =? pc) && Bool.eqb (isSecure d) sec) eqn:Ed; [done|]. destruct w as [|w].
  - change (findWay pc sec (e' :: ways) i = Some (i + 0, e')). cbn. rewrite H1, H2, Z.eqb_refl, eqb_reflx. cbn. do 2 f_equal. lia.
  - change (findWay pc sec (d :: <[w := e']> ways) i = Some (i + Z.of_nat (S w), e')). cbn [findWay]. rewrite Ed, IH by (done || lia). do 2 f_equal. lia.
Qed.

(** Writing a way of a set: the table stays well formed and no other set
    changes. *)
Lemma writeEntry_ok x pc m way e n : tableOK x -> 0 <= pc -> 0 <= m < maxContexts -> 0 <= way < pcTableAssoc x -> entryOK x e ->
  exists tb set ways, writeEntry x pc m way e n = Done (withTable tb n x) /\ tableOK (withTable tb n x) /\ setOf x pc m = Done (set, ways) /\
    (way < Z.of_nat (length ways)) /\
    setOf (withTable tb n x) pc m = Done (set, <[Z.to_nat way := e]> ways) /\
    forall pc' m', 0 <= pc' -> 0 <= m' < maxContexts -> m' <> m \/ pcHash x pc' <> pcHash x pc ->
      setOf (withTable tb n x) pc' m' = setOf x pc' m'.
Proof.
  intros Hx Hpc Hm Hw He. destruct (setOf_ok x pc m Hx Hpc Hm) as (set & sets & ways & E & Hset & Lm & Hc & Ls & Hs & Eo).
  pose proof (to_length _ Hx) as Hl. unfold maxContexts in *. destruct Hc as [Hc1 Hc2], Hs as [Hs1 Hs2].
  set (ways' := <[Z.to_nat way := e]> ways). set (sets' := <[Z.to_nat set := ways']> sets). set (tb := <[Z.to_nat m := sets']> (pcTable x)).
  assert (Hget : forall pc' m', setOf (withTable tb n x) pc' m' = let! set := pcHash x pc' in let! sets := vec_get tb m' in let! ways := vec_get sets set in Done (set, ways)) by done.
  exists tb, set, ways. split.
  { unfold writeEntry. rewrite Eo. cbn [obind]. rewrite (proj2 (vec_get_Done (pcTable x) m sets)) by (split; [lia|done]). cbn [obind].
    rewrite vec_set_in by (rewrite Hs1; lia). cbn [obind]. rewrite vec_set_in by (rewrite Hc1; lia). cbn [obind]. by rewrite vec_set_in by (rewrite Hl; lia). }
  split; [|split; [done|split; [rewrite Hs1; lia|split]]].
  - destruct Hx. split; try done; cbn [pcTable withTable]; [by unfold tb; rewrite length_insert|].
    apply Forall_insert; [done|]. split; [unfold sets'; by rewrite length_insert|]. apply Forall_insert; [done|].
    split; [unfold ways'; by rewrite length_insert|]. by apply Forall_insert.
  - rewrite Hget, E. cbn [obind]. rewrite (proj2 (vec_get_Done tb m sets')) by (split; [lia|apply list_lookup_insert_eq; lia]). cbn [obind].
    by rewrite (proj2 (vec_get_Done sets' set ways')) by (split; [lia|apply list_lookup_insert_eq; lia]).
  - intros pc' m' Hpc' Hm' Hne. destruct (setOf_ok x pc' m' Hx Hpc' Hm') as (set' & sets1 & ways1 & E' & Hset' & Lm' & Hc' & Ls' & _ & ->).
    rewrite Hget, E'. cbn [obind]. destruct (decide (m' = m)) as [->|Hmm].
    + assert (sets1 = sets) as -> by congruence. rewrite (proj2 (vec_get_Done tb m sets')) by (split; [lia|apply list_lookup_insert_eq; lia]). cbn [obind].
      assert (set' <> set) by (intros ->; destruct Hne as [?|[]]; [done|congruence]).
      by rewrite (proj2 (vec_get_Done sets' set' ways1)) by (split; [lia|unfold sets'; rewrite list_lookup_insert_ne by lia; done]).
    + rewrite (proj2 (vec_get_Done tb m' sets1)) by (split; [lia|unfold tb; rewrite list_lookup_insert_ne by lia; done]). cbn [obind].
      by rewrite (proj2 (vec_get_Done sets1 set' ways1)) by (split; [lia|done]).
Qed.

(** ** Training one entry *)

(** The most accesses an entry needs to be trusted with a new stride. *)
Definition training (x : striding) : Z := maxConf x - minConf x + 1.

(** The accesses with stride [sg] an entry still needs. *)
Definition distance (x : striding) (sg : Z) (e : StrideEntry) : Z :=
  if decide (stride e = sg) then Z.max 0 (threshConf x - confidence e)
  else if decide (threshConf x <= confidence e) then confidence e - threshConf x + 2
  else 1 + threshConf x - Z.max (minConf x) (confidence e - 1).

Lemma trainEntry_ok x ns a e : tableOK x -> entryOK x e -> entryOK x (trainEntry x ns a e).
Proof.
  intros Hx He. unfold entryOK, trainEntry in *. destruct ((ns =? stride e) && negb (ns =? 0)); cbn [confidence].
  - destruct (Z.ltb_spec (confidence e) (maxConf x)); lia.
  - destruct (Z.ltb_spec (minConf x) (confidence e)); lia.
Qed.

Lemma trainEntry_fields x ns a e : let e' := trainEntry x ns a e in instAddr e' = instAddr e /\ lastAddr e' = a /\ isSecure e' = isSecure e.
Proof. unfold trainEntry. by case_match. Qed.

Lemma distance_range x sg e : tableOK x -> entryOK x e -> 0 <= distance x sg e <= training x.
Proof. intros Hx He. pose proof (to_thresh _ Hx). unfold entryOK, distance, training in *. repeat case_decide; lia. Qed.

Lemma trainEntry_closer x sg a e : tableOK x -> entryOK x e -> sg <> 0 ->
  distance x sg (trainEntry x sg a e) <= Z.max 0 (distance x sg e - 1).
Proof.
  intros Hx He H0. pose proof (to_thresh _ Hx) as Ht. unfold entryOK, distance, trainEntry in *. rewrite (proj2 (Z.eqb_neq sg 0)) by done.
  destruct (Z.eqb_spec sg (stride e)) as [E|E]; cbn [andb negb stride confidence].
  - rewrite decide_True by done. rewrite decide_True by done. destruct (Z.ltb_spec (confidence e) (maxConf x)); lia.
  - rewrite (decide_False (P := stride e = sg)) by congruence. destruct (Z.ltb_spec (minConf x) (confidence e)).
    + destruct (Z.ltb_spec (confidence e - 1) (threshConf x)); [rewrite decide_True by done|rewrite decide_False by congruence]; repeat case_decide; lia.
    + destruct (Z.ltb_spec (confidence e) (threshConf x)); [rewrite decide_True by done|lia]. repeat case_decide; lia.
Qed.

Lemma distance_zero x sg e : tableOK x -> entryOK x e -> distance x sg e <= 0 -> stride e = sg /\ threshConf x <= confidence e.
Proof. intros Hx He Hd. pose proof (to_thresh _ Hx). unfold entryOK, distance in *. repeat case_decide; try done; lia. Qed.

(** ** The addresses along a stride *)

(** A stride is at least a block. *)
Definition lineStride (k sg : Z) : Z := if Z.abs sg <? 2 ^ k then (if sg <? 0 then - 2 ^ k else 2 ^ k) else sg.

(** How many strides stay in the page, at most [degree]. *)
Definition lastStride (k g degree a sg : Z) : Z :=
  let ls := lineStride k sg in
  Z.min degree (if 0 <? ls then (2 ^ g - 1 - a mod 2 ^ g) / ls else (a mod 2 ^ g) / - ls).
Definition strideLines (k g degree a sg : Z) : list Z := (fun d => a + d * lineStride k sg) <$> seqZ 1 (lastStride k g degree a sg).

Lemma lineStride_range k g sg : 0 <= k <= g -> g < 31 -> Z.abs sg < 2 ^ 31 -> Z.abs (lineStride k sg) < 2 ^ 31 /\ lineStride k sg <> 0.
Proof.
  intros Hk Hg Hs. assert (0 < 2 ^ k) by (apply Z.pow_pos_nonneg; lia). assert (2 ^ k < 2 ^ 31) by (apply Z.pow_lt_mono_r; lia).
  unfold lineStride. destruct (Z.ltb_spec (Z.abs sg) (2 ^ k)); [destruct (Z.ltb_spec sg 0)|]; lia.
Qed.

Lemma prefetchStride_spec prm k g sg : geometry prm k g -> Z.abs sg < 2 ^ 31 -> prefetchStride prm sg = Done (lineStride k sg).
Proof.
  intros [Hb _ Hk Hg] Hs. assert (0 < 2 ^ k) by (apply Z.pow_pos_nonneg; lia). assert (2 ^ k < 2 ^ 31) by (apply Z.pow_lt_mono_r; lia).
  unfold prefetchStride, lineStride. rewrite (proj2 (Z.eqb_neq sg (- 2 ^ 31))) by lia. rewrite Hb. f_equal.
  destruct (Z.ltb_spec (Z.abs sg) (2 ^ k)); [|done]. destruct (Z.ltb_spec sg 0); [|by rewrite toInt32_id by lia].
  unfold toInt32, wrap. replace (- 2 ^ k) with (2 ^ 32 - 2 ^ k + (-1) * 2 ^ 32) at 1 by lia. rewrite Z_mod_plus_full, (Z.mod_small (2 ^ 32 - 2 ^ k)) by lia.
  replace (2 ^ 32 - 2 ^ k + 2 ^ 31) with (2 ^ 31 - 2 ^ k + 1 * 2 ^ 32) by lia. rewrite Z_mod_plus_full, Z.mod_small by lia. lia.
Qed.

Lemma stride_in_page g r ls d : 0 <= r < 2 ^ g -> ls <> 0 -> 0 <= d ->
  0 <= r + d * ls < 2 ^ g <-> d <= (if 0 <? ls then (2 ^ g - 1 - r) / ls else r / - ls).
Proof.
  intros Hr Hl Hd. destruct (Z.ltb_spec 0 ls).
  - pose proof (Z.mul_div_le (2 ^ g - 1 - r) ls ltac:(lia)). split; intros Hx; [apply Z.div_le_lower_bound; lia|nia].
  - pose proof (Z.mul_div_le r (- ls) ltac:(lia)). split; intros Hx; [apply Z.div_le_lower_bound; lia|nia].
Qed.

Lemma strideLoop_spec prm k g degree a sg fuel : geometry prm k g -> u64 a -> Z.abs sg < 2 ^ 31 -> 0 <= degree -> forall d,
  1 <= d -> Z.of_nat fuel = degree - d + 1 -> d <= lastStride k g degree a sg + 1 ->
  strideLoop fuel prm degree a sg d =
    Done ((fun i => a + i * lineStride k sg) <$> seqZ d (lastStride k g degree a sg - d + 1), degree - lastStride k g degree a sg).
Proof.
  intros Hg Ha Hs H0. pose proof Hg as [_ _ Hk Hg31]. destruct (lineStride_range k g sg Hk Hg31 Hs) as [Hls Hl0].
  assert (HP : 0 < 2 ^ g) by (apply Z.pow_pos_nonneg; lia). assert (HP' : 2 ^ g <= 2 ^ 30) by (apply Z.pow_le_mono_r; lia).
  set (r := a mod 2 ^ g). assert (Hr : 0 <= r < 2 ^ g) by (apply Z.mod_pos_bound; lia).
  assert (Hlast : forall d, 0 <= d <= degree -> 0 <= r + d * lineStride k sg < 2 ^ g <-> d <= lastStride k g degree a sg).
  { intros d Hd. rewrite stride_in_page by lia. unfold lastStride. fold r. lia. }
  induction fuel as [|fuel IH]; intros d Hd Hf Hl; cbn [strideLoop].
  { assert (lastStride k g degree a sg <= degree) by (unfold lastStride; lia). rewrite seqZ_nil by lia. cbn. do 2 f_equal. lia. }
  rewrite (prefetchStride_spec prm k g) by done. cbn [obind]. set (ls := lineStride k sg) in *.
  assert (Hin : Z.abs (d * ls) < 2 ^ 31).
  { destruct (decide (d = 1)) as [->|]; [lia|]. pose proof (proj2 (Hlast (d - 1) ltac:(lia)) ltac:(lia)) as Hprev.
    assert (Z.abs ls <= Z.abs ((d - 1) * ls)) by nia. lia. }
  unfold inInt. rewrite (proj2 (Z.leb_le _ _)), (proj2 (Z.ltb_lt _ _)) by lia. cbn [andb].
  rewrite (samePage_spec prm k g) by (done || lia). fold r. case_bool_decide as Hpg.
  - apply (Hlast d ltac:(lia)) in Hpg as Hd'. rewrite (IH (d + 1)) by lia. cbn [obind]. rewrite (seqZ_cons d) by lia. rewrite fmap_cons.
    f_equal. f_equal. f_equal; [|f_equal; f_equal; lia]. apply Z.mod_small. pose proof (page_end g a Ha ltac:(lia)) as He. fold r in He. lia.
  - assert (~ d <= lastStride k g degree a sg) by (rewrite <-Hlast by lia; done). rewrite seqZ_nil by lia. cbn. do 2 f_equal. lia.
Qed.

(** ** One access *)

Section learning.
Context (random : nat -> Z -> Z -> Z) (Hrandom : forall n lo hi, lo <= hi -> lo <= random n lo hi <= hi).
Context (prm : params) (k g : Z) (Hg : geometry prm k g).
Existing Instance strideCalculate.

Definition masterOf (x : striding) (p : Packet.t) : Z := if useMasterId x then Request.masterId (Packet.req p) else 0.

(** A data access by the instruction at [pc], of context [m]. *)
Record ownAccess (x : striding) (pc m : Z) (sec : bool) (a : Z) (p : Packet.t) : Prop := {
  oa_read : readable p;
  oa_pc : Request.getPC (Packet.req p) = Done pc;
  oa_master : masterOf x p = m;
  oa_secure : Packet.isSecure_ p = sec;
  oa_addr : Packet.addr p = a;
  oa_word : u64 a }.

Lemma getPC_has r pc : Request.getPC r = Done pc -> Request.hasPC r = true.
Proof. unfold Request.getPC, Request.guarded, Request.hasPC. by case_match. Qed.

Lemma calculate_hit (s : t striding) pc m sec a p w e : ownAccess (sub s) pc m sec a p -> m < maxContexts ->
  pcTableHit (sub s) pc sec m = Done (Some (w, e)) ->
  calculatePrefetch (Calculator := strideCalculate random) prm p s =
    let x := sub s in
    let ns := toInt32 (wrap 64 (a - lastAddr e)) in
    let e := trainEntry x ns a e in
    let! x := writeEntry x pc m w e (draws x) in
    let s := mk (pfq s) (st s) x in
    if confidence e <? threshConf x then Done ([], s)
    else let! (l, n) := strideLoop (Z.to_nat (degree x)) prm (degree x) a ns 1 in Done (l, count (spanPage n) s).
Proof.
  intros [Hp Hpc Hm Hsec Ha _] Hm64 Eh. unfold calculatePrefetch, strideCalculate. rewrite (getPC_has _ _ Hpc), (re_addr _ Hp), Hpc, (re_secure _ Hp), Hsec, Ha.
  unfold masterOf in Hm. cbn [obind negb]. rewrite Hm, (proj2 (Z.ltb_lt _ _) Hm64), Eh. done.
Qed.

Lemma calculate_miss (s : t striding) pc m sec a p : ownAccess (sub s) pc m sec a p -> m < maxContexts ->
  pcTableHit (sub s) pc sec m = Done None ->
  calculatePrefetch (Calculator := strideCalculate random) prm p s =
    let x := sub s in
    let! x := writeEntry x pc m (random (draws x) 0 (pcTableAssoc x - 1)) (mkEntry pc a sec 0 (startConf x)) (S (draws x)) in
    Done ([], mk (pfq s) (st s) x).
Proof.
  intros [Hp Hpc Hm Hsec Ha _] Hm64 Eh. unfold calculatePrefetch, strideCalculate. rewrite (getPC_has _ _ Hpc), (re_addr _ Hp), Hpc, (re_secure _ Hp), Hsec, Ha.
  unfold masterOf in Hm. cbn [obind negb]. rewrite Hm, (proj2 (Z.ltb_lt _ _) Hm64), Eh. done.
Qed.

(** The set of the instruction is as it was, and the table is well formed. *)
Definition sameSet (x x' : striding) (pc m : Z) : Prop :=
  tableOK x' /\ (exists tb n, x' = withTable tb n x) /\ setOf x' pc m = setOf x pc m.

(** The access writes one entry of its set, found or chosen, if it writes at all. *)
Lemma calculate_writes s p l s' : tableOK (sub s) -> 0 <= masterOf (sub s) p -> 0 <= Request.pc (Packet.req p) ->
  calculatePrefetch (Calculator := strideCalculate random) prm p s = Done (l, s') ->
  sub s' = sub s \/ exists w e n, 0 <= w < pcTableAssoc (sub s) /\ entryOK (sub s) e /\ Request.hasPC (Packet.req p) = true /\ masterOf (sub s) p < maxContexts /\
    writeEntry (sub s) (Request.pc (Packet.req p)) (masterOf (sub s) p) w e n = Done (sub s').
Proof.
  intros Hx Hm Hpc E. unfold calculatePrefetch, strideCalculate in E. destruct (Request.hasPC (Packet.req p)) eqn:Ehas; cbn [negb] in E; [|injection E as _ <-; by left]. right.
  apply obind_Done in E as (a & _ & E). apply obind_Done in E as (pc & Epc & E). apply obind_Done in E as (sec & _ & E).
  assert (pc = Request.pc (Packet.req p)) as -> by (unfold Request.getPC, Request.guarded in Epc; destruct (Flags.isSet _ _); by inversion Epc).
  fold (masterOf (sub s) p) in E. destruct (Z.ltb_spec (masterOf (sub s) p) maxContexts) as [Hm64|]; [|done]. cbn [negb] in E.
  destruct (setOf_ok (sub s) (Request.pc (Packet.req p)) (masterOf (sub s) p)) as (set & sets & ways & _ & _ & _ & _ & _ & Hs & Es); [done|done|lia|].
  unfold pcTableHit in E. rewrite Es in E. cbn [obind] in E. destruct (findWay _ sec ways 0) as [[w e]|] eqn:Ef.
  - apply findWay_spec in Ef as (Hw & Lw & _ & _ & _). apply obind_Done in E as (x' & Ew & E). exists w. do 2 eexists.
    split; [rewrite (proj1 Hs) in Hw; pose proof (to_assoc _ Hx); lia|]. split; [apply trainEntry_ok; [done|by eapply Forall_lookup_1; [apply Hs|]]|].
    split; [done|]. split; [done|]. rewrite Ew. f_equal. revert E. case_match; [by intros [= _ <-]|]. intros E. by apply obind_Done in E as ([l' n'] & _ & [= _ <-]).
  - apply obind_Done in E as (x' & Ew & E). injection E as _ <-. do 3 eexists. split; [|split; [|split; [done|split; [done|exact Ew]]]].
    + pose proof (Hrandom (draws (sub s)) 0 (pcTableAssoc (sub s) - 1)). pose proof (to_assoc _ Hx). lia.
    + unfold entryOK. cbn. by destruct Hx.
Qed.

(** The access is not for the set of the instruction. *)
Definition elsewhere (x : striding) (pc m : Z) (q : Packet.t) : Prop :=
  0 <= masterOf x q /\ 0 <= Request.pc (Packet.req q) /\ (masterOf x q <> m \/ pcHash x (Request.pc (Packet.req q)) <> pcHash x pc).

Lemma calculate_elsewhere s pc m q l s' : tableOK (sub s) -> 0 <= pc -> 0 <= m < maxContexts -> elsewhere (sub s) pc m q ->
  calculatePrefetch (Calculator := strideCalculate random) prm q s = Done (l, s') -> sameSet (sub s) (sub s') pc m.
Proof.
  intros Hx Hpc Hm (Hm' & Hpc' & Hne) E. destruct (calculate_writes s q l s') as [->|(w & e & n & Hw & He & _ & Hm64 & Ew)]; [done..| |].
  { split; [done|]. split; [|done]. exists (pcTable (sub s)), (draws (sub s)). by destruct (sub s). }
  destruct (writeEntry_ok (sub s) (Request.pc (Packet.req q)) (masterOf (sub s) q) w e n) as (tb & set & ways & Ew' & Hx' & _ & _ & _ & Ho); [done|done|lia|done|done|].
  rewrite Ew in Ew'. injection Ew' as ->. split; [done|]. split; [by exists tb, n|]. apply Ho; [done|done|]. destruct Hne; [left|right]; congruence.
Qed.

(** ** A run of accesses *)

Context (pc m : Z) (sec : bool) (Hpc : 0 <= pc) (Hm : 0 <= m < maxContexts).

Abbreviation calculate := (calculatePrefetch (Calculator := strideCalculate random) prm).

Lemma toInt32_stride a sg : u64 a -> u64 (a - sg) -> Z.abs sg < 2 ^ 31 -> toInt32 (wrap 64 (a - (a - sg))) = sg.
Proof.
  intros Ha Hb Hs. replace (a - (a - sg)) with sg by lia. unfold toInt32, wrap. rewrite (Zmod_eq_full sg (2 ^ 64)) by lia.
  replace (sg - sg / 2 ^ 64 * 2 ^ 64 + 2 ^ 31) with (sg + 2 ^ 31 + (- (sg / 2 ^ 64) * 2 ^ 32) * 2 ^ 32) by lia.
  rewrite Z_mod_plus_full, Z.mod_small by lia. lia.
Qed.

(** The entry of the instruction. *)
Definition hasEntry (x : striding) (e : StrideEntry) : Prop := exists w, pcTableHit x pc sec m = Done (Some (w, e)) /\ entryOK x e.

(** The entry found is written back in its place. *)
Lemma writeBack x w e e' : tableOK x -> pcTableHit x pc sec m = Done (Some (w, e)) -> instAddr e' = instAddr e -> isSecure e' = isSecure e -> entryOK x e' ->
  exists tb, writeEntry x pc m w e' (draws x) = Done (withTable tb (draws x) x) /\ tableOK (withTable tb (draws x) x) /\ hasEntry (withTable tb (draws x) x) e'.
Proof.
  intros Hx Eh Hi Hs He. unfold pcTableHit in Eh. apply obind_Done in Eh as ([set ways] & Es & Ef). injection Ef as Ef.
  apply findWay_spec in Ef as (Hw & Lw & Hpe & Hse & Hf). rewrite Z.sub_0_r in Hf.
  destruct (setOf_ok x pc m Hx Hpc Hm) as (set' & sets & ways' & _ & _ & _ & _ & _ & [Hlen _] & Es'). assert (ways' = ways) as -> by congruence.
  destruct (writeEntry_ok x pc m w e' (draws x)) as (tb & set1 & ways1 & Ew & Hx' & Es1 & _ & Es2 & _); [done|done|done|pose proof (to_assoc _ Hx); lia|done|].
  rewrite Es in Es1. injection Es1 as <- <-. exists tb. split; [done|]. split; [done|]. exists w. split; [|done].
  unfold pcTableHit. rewrite Es2. cbn [obind]. f_equal. apply Hf; congruence.
Qed.

(** An access one stride after the last trains the entry and, once the entry is
    trusted, prefetches along the stride. *)
Lemma own_hit s p a sg e : tableOK (sub s) -> 0 <= degree (sub s) -> ownAccess (sub s) pc m sec a p -> hasEntry (sub s) e -> lastAddr e = a - sg -> u64 (a - sg) -> Z.abs sg < 2 ^ 31 ->
  let e' := trainEntry (sub s) sg a e in
  exists s', calculate p s = Done (if confidence e' <? threshConf (sub s) then [] else strideLines k g (degree (sub s)) a sg, s') /\
    tableOK (sub s') /\ (exists tb n, sub s' = withTable tb n (sub s)) /\ hasEntry (sub s') e'.
Proof.
  intros Hx Hdeg Hp (w & Eh & He) Hlast Hb Hs e'. rewrite (calculate_hit s pc m sec a p w e Hp (proj2 Hm) Eh), Hlast. cbv zeta.
  rewrite toInt32_stride by (done || apply Hp). fold e'.
  destruct (writeBack (sub s) w e e' Hx Eh) as (tb & -> & Hx' & Hh); [apply trainEntry_fields..|by apply trainEntry_ok|]. cbn [obind].
  change (threshConf (withTable _ _ _)) with (threshConf (sub s)). change (degree (withTable _ _ _)) with (degree (sub s)).
  destruct (Z.ltb_spec (confidence e') (threshConf (sub s))).
  - eexists. split; [done|]. split; [done|]. split; [by do 2 eexists|done].
  - assert (Hlast0 : 0 <= lastStride k g (degree (sub s)) a sg).
    { unfold lastStride. destruct Hg as [_ _ Hk Hg31]. destruct (lineStride_range k g sg Hk Hg31 Hs) as [_ Hl0].
      assert (0 < 2 ^ g) by (apply Z.pow_pos_nonneg; lia). pose proof (Z.mod_pos_bound a (2 ^ g) ltac:(lia)).
      apply Z.min_glb; [lia|]. destruct (Z.ltb_spec 0 (lineStride k sg)); apply Z.div_pos; lia. }
    rewrite (strideLoop_spec prm k g (degree (sub s)) a sg) by (done || lia || apply Hp). cbn [obind]. eexists.
    split; [unfold strideLines; by replace (lastStride k g (degree (sub s)) a sg - 1 + 1) with (lastStride k g (degree (sub s)) a sg) by lia|].
    split; [done|]. split; [by do 2 eexists|done].
Qed.

(** Any access of the instruction leaves an entry with its address. *)
Lemma own_entry s p a l s' : tableOK (sub s) -> ownAccess (sub s) pc m sec a p -> calculate p s = Done (l, s') ->
  tableOK (sub s') /\ (exists tb n, sub s' = withTable tb n (sub s)) /\ exists e, hasEntry (sub s') e /\ lastAddr e = a.
Proof.
  intros Hx Hp E. destruct (setOf_ok (sub s) pc m Hx Hpc Hm) as (set & sets & ways & _ & _ & _ & _ & _ & [Hlen Hways] & Es).
  destruct (findWay pc sec ways 0) as [[w e]|] eqn:Ef.
  - assert (Eh : pcTableHit (sub s) pc sec m = Done (Some (w, e))) by (unfold pcTableHit; rewrite Es; cbn; by rewrite Ef).
    rewrite (calculate_hit s pc m sec a p w e Hp (proj2 Hm) Eh) in E. cbv zeta in E.
    set (e' := trainEntry (sub s) _ a e) in E. apply findWay_spec in Ef as (_ & Lw & _).
    destruct (writeBack (sub s) w e e' Hx Eh) as (tb & Ew & Hx' & Hh); [apply trainEntry_fields..|apply trainEntry_ok; [done|by eapply Forall_lookup_1]|].
    rewrite Ew in E. cbn [obind] in E. assert (Es' : sub s' = withTable tb (draws (sub s)) (sub s)).
    { revert E. case_match; [by intros [= _ <-]|]. intros E. by apply obind_Done in E as ([l' n'] & _ & [= _ <-]). }
    rewrite Es'. split; [done|]. split; [by do 2 eexists|]. exists e'. split; [done|]. apply trainEntry_fields.
  - assert (Eh : pcTableHit (sub s) pc sec m = Done None) by (unfold pcTableHit; rewrite Es; cbn; by rewrite Ef).
    rewrite (calculate_miss s pc m sec a p Hp (proj2 Hm) Eh) in E. cbv zeta in E. set (e' := mkEntry pc a sec 0 (startConf (sub s))) in E.
    pose proof (Hrandom (draws (sub s)) 0 (pcTableAssoc (sub s) - 1) ltac:(pose proof (to_assoc _ Hx); lia)) as Hr. set (w := random _ _ _) in *.
    destruct (writeEntry_ok (sub s) pc m w e' (S (draws (sub s)))) as (tb & set1 & ways1 & Ew & Hx' & Es1 & Hw & Es2 & _);
      [done|done|done|lia|unfold entryOK; cbn; by destruct Hx|]. rewrite Ew in E. injection E as _ <-. rewrite Es in Es1. injection Es1 as <- <-.
    cbn [sub]. split; [done|]. split; [by do 2 eexists|]. exists e'. split; [|done]. exists (0 + Z.of_nat (Z.to_nat w)). split; [|unfold entryOK; cbn; by destruct Hx].
    unfold pcTableHit. rewrite Es2. cbn [obind]. f_equal. by apply findWay_none; [|lia|..].
Qed.

(** The instruction has made [n] accesses, each one stride after the last, the
    first at [a0]; accesses to other sets go on in between. *)
Inductive strides (a0 sg : Z) : nat -> t striding -> Prop :=
| strides_start s : tableOK (sub s) -> 0 <= degree (sub s) -> strides a0 sg 0 s
| strides_own n s p l s' : strides a0 sg n s -> ownAccess (sub s) pc m sec (a0 + Z.of_nat n * sg) p -> calculate p s = Done (l, s') -> strides a0 sg (S n) s'
| strides_other n s q l s' : strides a0 sg n s -> elsewhere (sub s) pc m q -> calculate q s = Done (l, s') -> strides a0 sg n s'.

(** The entry is closer to be trusted by each access but the first. *)
Definition closing (a0 sg : Z) (n : nat) (x : striding) : Prop :=
  n = O \/ exists e, hasEntry x e /\ lastAddr e = a0 + Z.of_nat n * sg - sg /\ u64 (lastAddr e) /\
    distance x sg e <= Z.max 0 (training x - (Z.of_nat n - 1)).

Lemma strides_closing a0 sg n s : sg <> 0 -> Z.abs sg < 2 ^ 31 -> strides a0 sg n s -> tableOK (sub s) /\ 0 <= degree (sub s) /\ closing a0 sg n (sub s).
Proof.
  intros H0 Hs. induction 1 as [s Hx Hd|n s p l s' _ (Hx & Hd & IH) Hp E|n s q l s' _ (Hx & Hd & IH) Hq E].
  - split; [done|]. split; [done|]. by left.
  - destruct IH as [->|(e & He & Hl & Hu & Hdist)].
    + destruct (own_entry _ _ _ _ _ Hx Hp E) as (Hx' & (tb & n & Ew) & e & He & Hl). split; [done|]. split; [by rewrite Ew|]. right. exists e.
      split; [done|]. split; [lia|]. split; [rewrite Hl; apply Hp|]. destruct He as (w & _ & He). pose proof (distance_range _ sg e Hx' He). lia.
    + destruct (own_hit _ _ _ sg e Hx Hd Hp He) as (s1 & E1 & Hx' & (tb & j & Ew) & He'); [lia|by rewrite <-Hl|done|].
      assert (s1 = s') as -> by congruence. split; [done|]. split; [by rewrite Ew|]. right. eexists. split; [exact He'|].
      destruct (trainEntry_fields (sub s) sg (a0 + Z.of_nat n * sg) e) as (_ & Hl' & _). rewrite Hl'. split; [lia|]. split; [apply Hp|].
      destruct He as (w & _ & He). pose proof (trainEntry_closer _ sg (a0 + Z.of_nat n * sg) e Hx He H0).
      rewrite Ew. change (distance (withTable tb j (sub s))) with (distance (sub s)). change (training (withTable tb j (sub s))) with (training (sub s)). lia.
  - destruct (calculate_elsewhere _ _ _ _ _ _ Hx Hpc Hm Hq E) as (Hx' & (tb & j & Ew) & Es). split; [done|]. split; [by rewrite Ew|].
    destruct IH as [->|(e & (w & Eh & He) & IH)]; [by left|]. right. exists e. split; [|by rewrite Ew].
    exists w. split; [|by rewrite Ew]. unfold pcTableHit in *. by rewrite Es.
Qed.

End learning.

(** C34: an instruction that keeps a stride is prefetched along it.  From any
    well-formed table, once it has made [maxConf - minConf + 1] accesses with
    one stride, whatever accesses to other sets came between, its next access
    gives exactly the addresses that many strides on, a stride being at least a
    line, up to [degree] of them and to the end of the page. *)
Theorem stride_learns random prm k g pc m sec a0 sg n s p :
  (forall i lo hi, lo <= hi -> lo <= random i lo hi <= hi) -> geometry prm k g -> 0 <= pc -> 0 <= m < maxContexts -> sg <> 0 -> Z.abs sg < 2 ^ 31 ->
  strides random prm pc m sec a0 sg n s -> training (sub s) <= Z.of_nat n ->
  let a := a0 + Z.of_nat n * sg in ownAccess (sub s) pc m sec a p ->
  exists s', calculatePrefetch (Calculator := strideCalculate random) prm p s = Done (strideLines k g (degree (sub s)) a sg, s') /\
    strides random prm pc m sec a0 sg (S n) s'.
Proof.
  intros Hr Hg Hpc Hm H0 Hs Htr Hn a Hp. destruct (strides_closing random Hr prm k g Hg pc m sec Hpc Hm a0 sg n s H0 Hs Htr) as (Hx & Hd & [->|(e & He & Hl & Hu & Hdist)]).
  { pose proof (to_thresh _ Hx). unfold training in Hn. lia. }
  destruct (own_hit random prm k g Hg pc m sec Hpc Hm s p a sg e Hx Hd Hp He) as (s' & E & _); [done|by unfold a; rewrite <-Hl|done|].
  destruct He as (w & _ & He). pose proof (trainEntry_closer _ sg a e Hx He H0) as Hc.
  destruct (distance_zero _ sg _ Hx (trainEntry_ok _ sg a _ Hx He)) as [_ Hconf]; [unfold training in *; lia|].
  rewrite (proj2 (Z.ltb_ge _ _)) in E by lia. exists s'. split; [done|]. by eapply strides_own.
Qed.

(** ** A run *)

(** One entry per context, trusted after two accesses with a stride. *)
Definition runRandom (i : nat) (lo hi : Z) : Z := lo.
Definition runStriding : striding := mkStriding 1 1 0 0 1 1 false 4 (replicate 64 [[emptyEntry]]) 0.
Definition runAfter (p : Packet.t) (s : t striding) : t striding :=
  match calculatePrefetch (Calculator := strideCalculate runRandom) runParams p s with Done (_, s') => s' | _ => s end.

Lemma runRead_own x a : useMasterId x = false -> 0 <= a < 2 ^ 64 -> ownAccess x 0x400 0 false a (runRead a).
Proof. intros Hx Ha. split; [apply runRead_readable|done| |done..]. unfold masterOf. by rewrite Hx. Qed.

(** A negative stride of two lines, near the start of a page. *)
Lemma stride_learns_witness :
  let s := runAfter (runRead 0x1180) (runAfter (runRead 0x1200) (new runStriding)) in
  exists s', calculatePrefetch (Calculator := strideCalculate runRandom) runParams (runRead 0x1100) s = Done ([0x1080; 0x1000], s').
Proof.
  intros s. assert (E : strideLines 6 12 4 0x1100 (-0x80) = [0x1080; 0x1000]) by reflexivity. rewrite <-E.
  destruct (stride_learns runRandom runParams 6 12 0x400 0 false 0x1200 (-0x80) 2 s (runRead 0x1100)) as (s' & E' & _).
  - intros i lo hi Hl. unfold runRandom. lia.
  - split; [done|done|lia|lia].
  - lia.
  - done.
  - done.
  - lia.
  - eapply (strides_own _ _ _ _ _ _ _ 1 _ (runRead 0x1180)); [eapply (strides_own _ _ _ _ _ _ _ 0 (new runStriding) (runRead 0x1200))| |].
    + apply strides_start; [|cbn; lia]. apply (newStriding_ok 1 1 0 0 1 1 false 4); [reflexivity|lia..].
    + apply runRead_own; [reflexivity|lia].
    + reflexivity.
    + apply runRead_own; [reflexivity|lia].
    + reflexivity.
  - done.
  - apply runRead_own; [reflexivity|lia].
  - exists s'. exact E'.
Defined.

End PrefetchStride.
