(* ===== verification/PrefetchCache.v ===== *)
(** * A cache with its prefetcher

    The queued prefetchers as the [Prefetcher] a timing cache talks to: what the
    cache does with the packet it is handed, and when. *)

From Stdlib Require Import ZArith Lia.
From stdpp Require Import base gmap numbers list.
From S2P Require Import Prelude Bits MemCmd Request Packet CacheBlk CacheTags MSHR MSHRQueue PacketQueue ClockedObject Cache CacheTiming Prefetch PrefetchCorrect.

#[local] Open Scope Z_scope.
#[local] Open Scope outcome_scope.

Module PrefetchCache.
Import Prefetch PrefetchCorrect.

Section cache.
Context {X : Type} `{Calculator X}.
Context (fresh : Z -> buffer) (prm : params).

(** The cache asks for a packet without saying when. *)
#[local] Instance queuedPrefetcher : CacheTiming.Prefetcher (t X) := {|
  CacheTiming.notify := notify fresh prm;
  CacheTiming.getPacket now s := getPacket s;
  CacheTiming.nextPrefetchReadyTime := nextPrefetchReadyTime |}.

(** The line is in no block and no register of the cache. *)
Definition absent (a : Z) (sec : bool) (k : Cache.t) : Prop :=
  CacheTags.findBlock a sec (Cache.tags k) = Done None /\ MSHRQueue.findMatch a sec (Cache.mshrQueue k) (Cache.regs k) = Done None /\
  MSHRQueue.findMatch a sec (Cache.writeBuffer k) (Cache.regs k) = Done None.

(** A prefetch takes a register only for an absent line, and it is the oldest of
    the queue; the others are as they were. *)
Lemma tryPrefetch_absent now now' c (s : t X) r c' s' : queueOK prm now (pfq s) -> Cache.blkSize (Cache.prm (CacheTiming.core c)) = blkSize prm ->
  0 < blkSize prm < 2 ^ 32 ->
  CacheTiming.tryPrefetch now' c s = Done (r, c', s') ->
  match r with
  | None => c' = c
  | Some _ => exists dp, pfq s = dp :: pfq s' /\ absent (Packet.addr (pkt dp)) (Packet.isSecure_ (pkt dp)) (CacheTiming.core c)
  end.
Proof.
  intros Hq Hb Hb32 E. unfold CacheTiming.tryPrefetch in E. destruct (_ && _); [|by injection E as <- <- <-].
  cbn in E. unfold getPacket in E. destruct (pfq s) as [|dp q] eqn:Eq; cbn [obind] in E; [by injection E as <- <- <-|].
  destruct (Forall_inv (qo_packets _ _ _ Hq)) as [Ha Hs _ _ Hal Hc _]. rewrite Hc, Hs in E. cbn [obind] in E.
  assert (Hal' : Cache.blockAlign (CacheTiming.core c) (Packet.addr (pkt dp)) = Packet.addr (pkt dp)).
  { unfold Cache.blockAlign. rewrite Hb. rewrite <-Hal at 2. unfold blockAlign, wrap. by rewrite Z.mod_small by lia. }
  rewrite Hal' in E. apply obind_Done in E as (b & E1 & E). apply obind_Done in E as (m1 & E2 & E). apply obind_Done in E as (m2 & E3 & E).
  destruct b; [by injection E as <- <- <-|]. destruct m1; [by injection E as <- <- <-|]. destruct m2; [by injection E as <- <- <-|].
  destruct (CacheTiming.checkMaster _ _); [|done]. cbn [negb] in E. apply obind_Done in E as ([i c1] & _ & E). injection E as <- _ <-.
  exists dp. by rewrite <-Eq.
Qed.

End cache.

(** ** A run *)

(** A cache of 64-byte blocks with eight registers; nothing is sent. *)
#[local] Instance runPorts : Cache.Ports (t tagged) := {|
  Cache.sendAtomic p s := Done (0, p, s); Cache.sendFunctional p s := Done (p, s); Cache.isSnooping _ := false;
  Cache.sendAtomicSnoop p s := Done (p, s); Cache.sendFunctionalSnoop p s := Done (p, s) |}.
#[local] Instance runTiming : CacheTiming.TimingPorts (t tagged) := {|
  CacheTiming.sendTimingReq p s := Done (true, p, s); CacheTiming.sendTimingSnoopReq p s := Done (p, s) |}.
#[local] Instance runPrefetcher : CacheTiming.Prefetcher (t tagged) := queuedPrefetcher runBuffer runParams.

Definition runCache : CacheTiming.t :=
  let mq := MSHRQueue.new 8 4 1 0 in
  let wb := MSHRQueue.new 4 4 0 16 in
  CacheTiming.new (CacheTiming.mkParams 1 2 [] true true)
    (Cache.mk (Cache.mkParams 64 1 1 1 false true true false 8 1000)
       (CacheTags.new (fun _ => runBuffer 64) (CacheTags.mkGeometry 64 2 2 false 1 63 6 1 7 4 4 8 1000)) CacheBlk.new mq wb
       (MSHRQueue.newHeap wb (MSHRQueue.newHeap mq ∅)) PacketQueue.new PacketQueue.new PacketQueue.new ClockedObject.new ∅ ∅ ∅ 0 false).

(** The prefetches announced for a tick. *)
Definition announced : outcome (list Z * t tagged) :=
  let! (_, s) := notify runBuffer runParams 100 (runRead 0x1040) nowhere nowhere (new (mkTagged 2)) in Done (tick <$> pfq s, s).

(** A prefetch that can first be issued at tick 600 takes a register at tick
    101: the cache does not look at the time. *)
Theorem prefetch_issued_early : exists s i c' s', announced = Done ([600; 600], s) /\
  CacheTiming.tryPrefetch 101 runCache s = Done (Some i, c', s').
Proof.
  destruct announced as [[ts s]| |] eqn:E; [|vm_compute in E; discriminate..]. assert (Et : ts = [600; 600]) by (vm_compute in E; congruence).
  destruct (CacheTiming.tryPrefetch 101 runCache s) as [[[[i|] c'] s']| |] eqn:E'; try (vm_compute in E; injection E as _ <-; vm_compute in E'; discriminate).
  exists s, i, c', s'. by rewrite Et.
Qed.

(** A gather access to a line whose plain form is in the cache is a miss, and
    the prefetcher that learns from misses is not told. *)
Definition onMissParams : params := mkParams 64 4096 true true true true true 5 500 4 1 true true false true.
Definition gatherRead (a : Z) : Packet.t :=
  Packet.new (Request.setPaddr (a - a mod 8) (Request.virtual 0 0 a 8 Request.GATHER 3 0x400 0 0)) MemCmd.ReadReq.
Definition onlyPlain (a : Z) (sec : bool) : outcome bool := Done (a =? 0x1040).

Theorem gather_miss_unobserved : exists ca, Packet.getCacheAddr (gatherRead 0x1043) = Done ca /\ onlyPlain ca false = Done false /\
  observeAccess onMissParams (gatherRead 0x1043) onlyPlain nowhere = Done false /\
  observeAccess onMissParams (gatherRead 0x1043) nowhere nowhere = Done true.
Proof. eexists. repeat split; reflexivity. Qed.

(** It also squashes the queued prefetch of the plain line, which it does not
    bring in. *)
Theorem gather_squashes_plain :
  (let! (_, s) := notify runBuffer runParams 100 (runRead 0x1000) nowhere nowhere (new (mkTagged 1)) in
   let! (_, s') := notify runBuffer runParams 200 (gatherRead 0x1043) nowhere nowhere s in
   Done (keyOf <$> pfq s, keyOf <$> pfq s')) = Done ([(0x1040, false)], [(0x1080, false)]).
Proof. reflexivity. Qed.

End PrefetchCache.
