(* ===== verification/StackDist.v ===== *)
(** * Stack distances: gem5/src/mem/stack_dist_calc.cc and stack_dist_calc.hh

    A tree of partial sums over the accesses made so far.  Nodes live in a heap
    and point to their parents; a layer of the tree is a map from the index of
    a node to its address, in which [operator[]] makes a null entry when there
    is none.  Reading a null or deleted node leaves the model. *)

From Stdlib Require Import ZArith Lia.
From stdpp Require Import base gmap numbers list.
From S2P Require Import Prelude Bits MemCmd.

#[local] Open Scope Z_scope.
#[local] Open Scope outcome_scope.

Module StackDist.

Record Node := mkNode {
  sumLeft : Z;
  sumRight : Z;
  discardLeft : bool;
  discardRight : bool;
  nodeIndex : Z;
  parent : option nat;
  isLeftNode : bool;
  isMarked : bool
}.
Definition newNode : Node := mkNode 0 0 false false 0 None true false.

Definition withSums (l r : Z) (n : Node) : Node :=
  mkNode l r (discardLeft n) (discardRight n) (nodeIndex n) (parent n) (isLeftNode n) (isMarked n).
Definition withDiscards (l r : bool) (n : Node) : Node :=
  mkNode (sumLeft n) (sumRight n) l r (nodeIndex n) (parent n) (isLeftNode n) (isMarked n).
Definition withParent (p : option nat) (n : Node) : Node :=
  mkNode (sumLeft n) (sumRight n) (discardLeft n) (discardRight n) (nodeIndex n) p (isLeftNode n) (isMarked n).
Definition withPlace (i : Z) (p : option nat) (left : bool) (n : Node) : Node :=
  mkNode (sumLeft n) (sumRight n) (discardLeft n) (discardRight n) i p left (isMarked n).
Definition withMark (m : bool) (n : Node) : Node :=
  mkNode (sumLeft n) (sumRight n) (discardLeft n) (discardRight n) (nodeIndex n) (parent n) (isLeftNode n) m.

(** The four histograms, as the values they were given. *)
Record hists := mkHists { readLinearHist : list Z; readLogHist : list Z; writeLinearHist : list Z; writeLogHist : list Z }.

Record t := mk {
  index : Z;
  tree : list (gmap Z (option nat));
  aiMap : gmap Z Z;
  nextIndex : list Z;
  stack : list Z;
  verifyStack : bool;
  disableLinearHists : bool;
  disableLogHists : bool;
  samples : hists;
  heap : gmap nat Node;
  brk : nat
}.

Definition Infinity : Z := 2 ^ 64 - 1.

(** Updates of one field. *)
Definition withIndex (i : Z) (s : t) : t :=
  mk i (tree s) (aiMap s) (nextIndex s) (stack s) (verifyStack s) (disableLinearHists s) (disableLogHists s) (samples s) (heap s) (brk s).
Definition withTree (tr : list (gmap Z (option nat))) (s : t) : t :=
  mk (index s) tr (aiMap s) (nextIndex s) (stack s) (verifyStack s) (disableLinearHists s) (disableLogHists s) (samples s) (heap s) (brk s).
Definition withMap (m : gmap Z Z) (s : t) : t :=
  mk (index s) (tree s) m (nextIndex s) (stack s) (verifyStack s) (disableLinearHists s) (disableLogHists s) (samples s) (heap s) (brk s).
Definition withNext (l : list Z) (s : t) : t :=
  mk (index s) (tree s) (aiMap s) l (stack s) (verifyStack s) (disableLinearHists s) (disableLogHists s) (samples s) (heap s) (brk s).
Definition withStack (l : list Z) (s : t) : t :=
  mk (index s) (tree s) (aiMap s) (nextIndex s) l (verifyStack s) (disableLinearHists s) (disableLogHists s) (samples s) (heap s) (brk s).
Definition withSamples (h : hists) (s : t) : t :=
  mk (index s) (tree s) (aiMap s) (nextIndex s) (stack s) (verifyStack s) (disableLinearHists s) (disableLogHists s) h (heap s) (brk s).
Definition withHeap (h : gmap nat Node) (b : nat) (s : t) : t :=
  mk (index s) (tree s) (aiMap s) (nextIndex s) (stack s) (verifyStack s) (disableLinearHists s) (disableLogHists s) (samples s) h b.

(** ** Pointers and layers *)

Definition deref (p : option nat) (s : t) : outcome (nat * Node) :=
  match p with
  | Some a => match heap s !! a with Some n => Done (a, n) | None => Exited end
  | None => Exited
  end.
Definition store (a : nat) (n : Node) (s : t) : t := withHeap (<[a := n]> (heap s)) (brk s) s.
Definition free (a : nat) (s : t) : t := withHeap (delete a (heap s)) (brk s) s.
Definition alloc (n : Node) (s : t) : nat * t := (brk s, withHeap (<[brk s := n]> (heap s)) (S (brk s)) s).

(** [tree[i][k]], as a value, as the target of an assignment, and erased. *)
Definition treeGet (i : Z) (k : Z) (s : t) : outcome (option nat * t) :=
  let! layer := vec_get (tree s) i in
  match layer !! k with
  | Some p => Done (p, s)
  | None => let! tr := vec_set (tree s) i (<[k := None]> layer) in Done (None, withTree tr s)
  end.
Definition treeSet (i : Z) (k : Z) (p : option nat) (s : t) : outcome t :=
  let! layer := vec_get (tree s) i in
  let! tr := vec_set (tree s) i (<[k := p]> layer) in
  Done (withTree tr s).
Definition treeErase (i : Z) (k : Z) (s : t) : outcome t :=
  let! layer := vec_get (tree s) i in
  let! tr := vec_set (tree s) i (delete k layer) in
  Done (withTree tr s).

Definition getTreeDepth (s : t) : Z := Z.of_nat (length (tree s)) - 1.

(** [1 << n] for an [int]. *)
Definition shiftOne (n : Z) : outcome Z := if (0 <=? n) && (n <? 31) then Done (Z.shiftl 1 n) else Exited.

(** The constructor. *)
Definition new (verify noLinear noLog : bool) : t :=
  mk 0 [∅; {[0 := Some O]}] ∅ [0; 1] [] verify noLinear noLog (mkHists [] [] [] []) {[O := newNode]} 1.

(** ** Sums *)

(** [updateSum(node, from_left, sum_from_below, level, stack_dist, discard_node)];
    the fuel is the number of nodes up to the root. *)
Fixpoint updateSum (fuel : nat) (node : option nat) (from_left : bool) (sum_from_below level stack_dist : Z) (discard_node : bool) (s : t)
    : outcome (Z * t) :=
  match fuel with
  | O => OutOfFuel
  | S fuel =>
      let level := level + 1 in
      let! (a, n) := deref node s in
      let! _ := (if verifyStack s then
                   let! bound := shiftOne (level - 1) in
                   if (bound <? sumLeft n) || (bound <? sumRight n) then Exited else Done tt
                 else Done tt) in
      let node_sum_l := if from_left then sum_from_below else sumLeft n in
      let stack_dist := if from_left then wrap 64 (stack_dist + sumRight n) else stack_dist in
      let node_sum_r := if from_left then sumRight n else sum_from_below in
      let gone := discard_node && (sum_from_below =? 0) in
      let node_discard_left := if gone && from_left then true else discardLeft n in
      let node_discard_right := if gone && negb from_left then true else discardRight n in
      let s := store a (withDiscards node_discard_left node_discard_right (withSums node_sum_l node_sum_r n)) s in
      let removed := node_discard_left && node_discard_right && discard_node && bool_decide (is_Some (parent n)) && (sum_from_below =? 0) in
      let! s := (if removed then treeErase level (nodeIndex n) (free a s) else Done s) in
      match parent n with
      | Some _ => updateSum fuel (parent n) (isLeftNode n) (wrap 64 (node_sum_l + node_sum_r)) level stack_dist removed s
      | None => Done (stack_dist, s)
      end
  end.

Definition updateSumsLeavesToRoot (node : option nat) (is_new_leaf : bool) (s : t) : outcome (Z * t) :=
  let! (a, n) := deref node s in
  let fuel := length (tree s) in
  if is_new_leaf then
    let s := store a (withSums 1 (sumRight n) n) s in
    let! (_, s) := updateSum fuel (parent n) (isLeftNode n) 1 0 0 false s in
    Done (Infinity, s)
  else
    let s := store a (withSums 0 (sumRight n) n) s in
    updateSum fuel (parent n) (isLeftNode n) 0 0 0 true s.

Fixpoint getSum (fuel : nat) (node : option nat) (from_left : bool) (stack_dist : Z) (s : t) : outcome Z :=
  match fuel with
  | O => OutOfFuel
  | S fuel =>
      let! (_, n) := deref node s in
      let stack_dist := if from_left then wrap 64 (stack_dist + sumRight n) else stack_dist in
      match parent n with
      | Some _ => getSum fuel (parent n) (isLeftNode n) stack_dist s
      | None => Done stack_dist
      end
  end.

Definition getSumsLeavesToRoot (node : option nat) (s : t) : outcome Z :=
  let! (_, n) := deref node s in getSum (length (tree s)) (parent n) (isLeftNode n) 0 s.

(** ** Growing the tree *)

(** A new node of layer [i], below the last one of the layer above. *)
Definition addINode (i : Z) (s : t) : outcome t :=
  let! ni := vec_get (nextIndex s) i in
  let left := ni mod 2 =? 0 in
  let! above := vec_get (nextIndex s) (i + 1) in
  let! (p, s) := treeGet (i + 1) (wrap 64 (above - 1)) s in
  let! next := vec_set (nextIndex s) i (wrap 64 (ni + 1)) in
  let s := withNext next s in
  let (a, s) := alloc (withPlace (wrap 64 (wrap 64 (ni + 1) - 1)) p left newNode) s in
  treeSet i (wrap 64 (wrap 64 (ni + 1) - 1)) (Some a) s.

(** The loops of [updateTree], down to layer 1: every layer, or those whose
    width divides the index. *)
Fixpoint addAll (i : nat) (s : t) : outcome t :=
  match i with
  | O => Done s
  | S j => let! s := addINode (Z.of_nat i) s in addAll j s
  end.
Fixpoint addDue (i : nat) (s : t) : outcome t :=
  match i with
  | O => Done s
  | S j =>
      let! width := shiftOne (Z.of_nat i) in
      let! s := (if index s mod width =? 0 then addINode (Z.of_nat i) s else Done s) in
      addDue j s
  end.

(** A new root above the old one. *)
Definition growRoot (s : t) : outcome t :=
  let! (p, s) := treeGet (getTreeDepth s) 0 s in
  let! (_, n) := deref p s in
  let root := mkNode (wrap 64 (sumRight n + sumLeft n)) 0 (discardLeft n && discardRight n) false 0 None true false in
  let s := withNext (nextIndex s ++ [1]) (withTree (tree s ++ [∅]) s) in
  let (a, s) := alloc root s in
  let! s := treeSet (getTreeDepth s) 0 (Some a) s in
  let! (p, s) := treeGet (getTreeDepth s - 1) 0 s in
  let! (q, s) := treeGet (getTreeDepth s) 0 s in
  let! (b, m) := deref p s in
  Done (store b (withParent q m) s).

Definition updateTree (s : t) : outcome t :=
  if isPowerOf2 (index s) then
    let! s := growRoot s in addAll (Z.to_nat (getTreeDepth s - 1)) s
  else addDue (Z.to_nat (getTreeDepth s - 1)) s.

(** ** The reference stack *)

(** The position of an address from the top; the vector without it. *)
Fixpoint fromTop (a : Z) (l : list Z) (d : Z) : option Z :=
  match l with
  | [] => None
  | b :: l => if b =? a then Some d else fromTop a l (d + 1)
  end.

Definition verifyStackDist (a : Z) (update_stack : bool) (s : t) : Z * t :=
  let (d, l) := match fromTop a (rev (stack s)) 0 with
                | Some d => (d, delete (length (stack s) - 1 - Z.to_nat d)%nat (stack s))
                | None => (Infinity, stack s)
                end in
  (d, if update_stack then withStack (l ++ [a]) s else s).

(** From a leaf, [depth] steps up lead to the root. *)
Fixpoint climb (k : nat) (p : option nat) (s : t) : outcome (option nat) :=
  match k with
  | O => Done p
  | S k => let! (_, n) := deref p s in match parent n with Some _ => climb k (parent n) s | None => Exited end
  end.
Definition sanityCheckTree (node : option nat) (s : t) : outcome unit :=
  let! (_, n) := deref node s in
  let! p := climb (Z.to_nat (getTreeDepth s - 1)) (parent n) s in
  let! (_, n) := deref p s in
  match parent n with Some _ => Exited | None => Done tt end.

(** ** The calculator *)

(** The old leaf of an address that was seen. *)
Definition removeLeaf (r_index : Z) (s : t) : outcome (Z * bool * t) :=
  let! (p, s) := treeGet 0 r_index s in
  let! (stack_dist, s) := updateSumsLeavesToRoot p false s in
  let! (p, s) := treeGet 0 r_index s in
  let! (a, n) := deref p s in
  let! s := treeErase 0 r_index (free a s) in
  Done (stack_dist, isMarked n, s).

(** The leaf of the access. *)
Definition addLeaf (s : t) : outcome t :=
  let! s := (if index s mod 2 =? 0 then updateTree s else Done s) in
  let isLeft := index s mod 2 =? 0 in
  let! n0 := vec_get (nextIndex s) 0 in
  let! next := vec_set (nextIndex s) 0 (wrap 64 (n0 + 1)) in
  let s := withNext next s in
  let! n1 := vec_get (nextIndex s) 1 in
  let! (p, s) := treeGet 1 (wrap 64 (n1 - 1)) s in
  let (a, s) := alloc (withPlace (index s) p isLeft newNode) s in
  let! s := treeSet 0 (index s) (Some a) s in
  let! (p, s) := treeGet 0 (index s) s in
  let! (_, s) := updateSumsLeavesToRoot p true s in
  Done s.

Definition calcStackDistAndUpdate (r_address : Z) (addNewNode : bool) (s : t) : outcome (Z * bool * t) :=
  let! (stack_dist, mark, s) :=
    (match aiMap s !! r_address with
     | Some r_index =>
         removeLeaf r_index (withMap (if addNewNode then <[r_address := index s]> (aiMap s) else delete r_address (aiMap s)) s)
     | None => Done (Infinity, false, if addNewNode then withMap (<[r_address := index s]> (aiMap s)) s else s)
     end) in
  if addNewNode then
    let! s := addLeaf s in
    let! s := (if verifyStack s then
                 let! (p, s) := treeGet 0 (index s) s in
                 let! _ := sanityCheckTree p s in
                 let (d, s) := verifyStackDist r_address true s in
                 if d =? stack_dist then Done s else Exited
               else Done s) in
    Done (stack_dist, mark, withIndex (wrap 64 (index s + 1)) s)
  else Done (stack_dist, mark, s).

Definition calcStackDist (r_address : Z) (mark : bool) (s : t) : outcome (Z * bool * t) :=
  let! (stack_dist, old, s) :=
    (match aiMap s !! r_address with
     | Some r_index =>
         let! (p, s) := treeGet 0 r_index s in
         let! (a, n) := deref p s in
         let s := store a (withMark mark n) s in
         let! d := getSumsLeavesToRoot p s in
         Done (d, isMarked n, s)
     | None => Done (Infinity, false, s)
     end) in
  if verifyStack s then
    let (d, s) := verifyStackDist r_address false s in
    if d =? stack_dist then Done (stack_dist, old, s) else Exited
  else Done (stack_dist, old, s).

(** [update(cmd, addr)]: the histograms of reads and of writes. *)
Definition sample (read : bool) (d : Z) (s : t) : outcome t :=
  let h := samples s in
  let h := if disableLinearHists s then h
           else if read then mkHists (readLinearHist h ++ [d]) (readLogHist h) (writeLinearHist h) (writeLogHist h)
           else mkHists (readLinearHist h) (readLogHist h) (writeLinearHist h ++ [d]) (writeLogHist h) in
  let! h := (if disableLogHists s then Done h
             else
               let! l := (if d =? 0 then Done 1 else floorLog2 d) in
               Done (if read then mkHists (readLinearHist h) (readLogHist h ++ [l]) (writeLinearHist h) (writeLogHist h)
                     else mkHists (readLinearHist h) (readLogHist h) (writeLinearHist h) (writeLogHist h ++ [l]))) in
  Done (withSamples h s).

Definition update (cmd : MemCmd.Command) (addr : Z) (s : t) : outcome t :=
  if MemCmd.isRead cmd || MemCmd.isWrite cmd then
    let! (d, _, s) := calcStackDistAndUpdate addr true s in
    if d =? Infinity then Done s else sample (MemCmd.isRead cmd) d s
  else Done s.

End StackDist.
