(* ===== verification/StackDistTree.v ===== *)
(** * The tree of partial sums

    The invariant of the tree of the stack-distance calculator: every node that
    can still be reached holds the number of live leaves below it, and climbing
    from a leaf adds up the live leaves to its right. *)

From Stdlib Require Import ZArith Lia.
From stdpp Require Import base gmap numbers list.
From S2P Require Import Prelude Bits MemCmd StackDist.

#[local] Open Scope Z_scope.
#[local] Open Scope outcome_scope.

Module StackDistTree.
Import StackDist.

(** ** Counting live leaves *)

(** The leaves of [ks] from [a] to [b], and those below node [j] of layer [i]. *)
Definition cnt (ks : list Z) (a b : Z) : Z := Z.of_nat (length (filter (fun k => a <= k < b) ks)).
Definition blk (ks : list Z) (i j : Z) : Z := cnt ks (j * 2 ^ i) ((j + 1) * 2 ^ i).

Lemma cnt_nonneg ks a b : 0 <= cnt ks a b.
Proof. unfold cnt. lia. Qed.

Lemma cnt_split ks a b c : a <= b <= c -> cnt ks a c = cnt ks a b + cnt ks b c.
Proof.
  intros Hab. unfold cnt. induction ks as [|k ks IH]; [done|]. rewrite !filter_cons. repeat case_decide; cbn [length]; lia.
Qed.

Lemma cnt_app ks ks' a b : cnt (ks ++ ks') a b = cnt ks a b + cnt ks' a b.
Proof. unfold cnt. rewrite filter_app, length_app. lia. Qed.

Lemma cnt_out ks a b : (forall k, k ∈ ks -> ~ a <= k < b) -> cnt ks a b = 0.
Proof.
  intros Hk. unfold cnt. replace (filter _ ks) with (@nil Z); [done|]. symmetry. induction ks as [|k ks IH]; [done|].
  rewrite filter_cons. rewrite decide_False by (apply Hk; left). apply IH. intros x Hx. apply Hk. by right.
Qed.

Lemma cnt_in ks a b k : k ∈ ks -> a <= k < b -> 0 < cnt ks a b.
Proof.
  intros Hk Hab. unfold cnt. assert (Hin : k ∈ filter (fun k => a <= k < b) ks) by (by apply list_elem_of_filter).
  destruct (filter _ ks); [by apply not_elem_of_nil in Hin|]. cbn. lia.
Qed.

Lemma cnt_le ks a b : NoDup ks -> a <= b -> cnt ks a b <= b - a.
Proof.
  intros Hnd Hab. unfold cnt. assert (Hs : filter (fun k => a <= k < b) ks ⊆ seqZ a (b - a)).
  { intros k [Hk _]%list_elem_of_filter. apply elem_of_seqZ. lia. }
  apply NoDup_submseteq in Hs; [|by apply NoDup_filter]. apply submseteq_length in Hs. rewrite length_seqZ in Hs. lia.
Qed.

Lemma blk_split ks i j : 1 <= i -> blk ks i j = blk ks (i - 1) (2 * j) + blk ks (i - 1) (2 * j + 1).
Proof.
  intros Hi. unfold blk. assert (E : 2 ^ i = 2 * 2 ^ (i - 1)) by (rewrite <-Z.pow_succ_r by lia; f_equal; lia).
  assert (0 < 2 ^ (i - 1)) by (apply Z.pow_pos_nonneg; lia). rewrite E.
  rewrite (cnt_split ks (j * (2 * 2 ^ (i - 1))) ((2 * j + 1) * 2 ^ (i - 1))) by nia. f_equal; f_equal; lia.
Qed.

Lemma blk_le ks i j : NoDup ks -> 0 <= i -> blk ks i j <= 2 ^ i.
Proof.
  intros Hn Hi. assert (0 < 2 ^ i) by (apply Z.pow_pos_nonneg; lia). unfold blk. pose proof (cnt_le ks (j * 2 ^ i) ((j + 1) * 2 ^ i) Hn). nia.
Qed.

(** ** Paths *)

Lemma path_up k i : 0 <= i -> (k / 2 ^ i) / 2 = k / 2 ^ (i + 1).
Proof. intros Hi. rewrite Z.div_div by (try apply Z.pow_nonzero; lia). f_equal. rewrite Z.pow_add_r by lia. lia. Qed.

Lemma path_in k i : 0 <= i -> k / 2 ^ i * 2 ^ i <= k < (k / 2 ^ i + 1) * 2 ^ i.
Proof.
  intros Hi. assert (0 < 2 ^ i) by (apply Z.pow_pos_nonneg; lia). pose proof (Z.div_mod k (2 ^ i)). pose proof (Z.mod_pos_bound k (2 ^ i)). nia.
Qed.

Lemma path_only k i j : 0 <= i -> j * 2 ^ i <= k < (j + 1) * 2 ^ i -> j = k / 2 ^ i.
Proof.
  intros Hi Hk. assert (0 < 2 ^ i) by (apply Z.pow_pos_nonneg; lia). apply (Z.div_unique k (2 ^ i) j (k - j * 2 ^ i)); lia.
Qed.

(** The two nodes below one, and which of them is on the path. *)
Lemma child_cases k i : 1 <= i -> let c := k / 2 ^ (i - 1) in let j := k / 2 ^ i in
  ((c mod 2 =? 0) = true /\ c = 2 * j) \/ ((c mod 2 =? 0) = false /\ c = 2 * j + 1).
Proof.
  intros Hi c j. assert (E : c / 2 = j) by (unfold c, j; rewrite path_up by lia; f_equal; f_equal; lia).
  pose proof (Z.div_mod c 2 ltac:(lia)). pose proof (Z.mod_pos_bound c 2 ltac:(lia)).
  destruct (Z.eqb_spec (c mod 2) 0); [left|right]; (split; [done|lia]).
Qed.

(** ** Versions *)

(** The leaves made so far and those still live. *)
Record version := V { made : Z; live : list Z }.

(** All leaves below the node were made and none is live. *)
Definition dead (v : version) (i j : Z) : Prop := (j + 1) * 2 ^ i <= made v /\ blk (live v) i j = 0.

Lemma dead_child v i j : 1 <= i -> dead v i j -> dead v (i - 1) (2 * j) /\ dead v (i - 1) (2 * j + 1).
Proof.
  intros Hi [Hm Hb]. assert (E : 2 ^ i = 2 * 2 ^ (i - 1)) by (rewrite <-Z.pow_succ_r by lia; f_equal; lia).
  assert (0 < 2 ^ (i - 1)) by (apply Z.pow_pos_nonneg; lia). rewrite blk_split in Hb by done.
  pose proof (cnt_nonneg (live v) ((2 * j) * 2 ^ (i - 1)) ((2 * j + 1) * 2 ^ (i - 1))) as H1.
  pose proof (cnt_nonneg (live v) ((2 * j + 1) * 2 ^ (i - 1)) ((2 * j + 1 + 1) * 2 ^ (i - 1))) as H2.
  fold (blk (live v) (i - 1) (2 * j)) in H1. fold (blk (live v) (i - 1) (2 * j + 1)) in H2. split; split; try lia; nia.
Qed.

Lemma dead_both v i j : 1 <= i -> dead v (i - 1) (2 * j) -> dead v (i - 1) (2 * j + 1) -> dead v i j.
Proof.
  intros Hi [_ H1] [H2 H3]. assert (E : 2 ^ i = 2 * 2 ^ (i - 1)) by (rewrite <-Z.pow_succ_r by lia; f_equal; lia).
  split; [rewrite E; lia|]. rewrite blk_split by done. lia.
Qed.

(** One leaf [k] changes between two versions: it was not dead before on any layer. *)
Record change (k D : Z) (v v' : version) : Prop := {
  ch_leaf : 0 <= k;
  ch_made : made v <= made v';
  ch_same : forall a b, ~ a <= k < b -> cnt (live v') a b = cnt (live v) a b;
  ch_path : forall i, 0 <= i <= D -> ~ dead v i (k / 2 ^ i) }.

Lemma change_blk k D v v' i j : change k D v v' -> 0 <= i -> j <> k / 2 ^ i -> blk (live v') i j = blk (live v) i j.
Proof. intros Hc Hi Hj. apply Hc. intros Hk. apply Hj. by apply path_only. Qed.

Lemma change_dead k D v v' i j : change k D v v' -> 0 <= i <= D -> dead v i j -> dead v' i j /\ j <> k / 2 ^ i.
Proof.
  intros Hc Hi Hd. assert (Hj : j <> k / 2 ^ i) by (intros ->; by apply (ch_path _ _ _ _ Hc i)). split; [|done].
  destruct Hd as [H1 H2]. split; [pose proof (ch_made _ _ _ _ Hc); lia|]. by rewrite (change_blk k D v) by (done || lia).
Qed.

(** ** Nodes *)

(** Node [j] of layer [i] is at [p]. *)
Definition at_ (s : t) (i j : Z) (p : nat) : Prop := exists layer, tree s !! Z.to_nat i = Some layer /\ layer !! j = Some (Some p).

(** The nodes that can still be reached: begun, and not dead unless the root. *)
Definition needed (D : Z) (c : Z -> Z) (v : version) (i j : Z) : Prop := 0 <= j < c i /\ (dead v i j -> i = D).

Record nodeOK (s : t) (D : Z) (marks : Z -> bool) (v : version) (i j : Z) (n : Node) : Prop := {
  no_index : nodeIndex n = j;
  no_left : isLeftNode n = (j mod 2 =? 0);
  no_root : i = D -> parent n = None;
  no_parent : i <> D -> exists p, parent n = Some p /\ at_ s (i + 1) (j / 2) p;
  no_mark : i = 0 -> isMarked n = marks j;
  no_suml : 1 <= i -> sumLeft n = blk (live v) (i - 1) (2 * j);
  no_sumr : 1 <= i -> sumRight n = blk (live v) (i - 1) (2 * j + 1);
  no_discl : 1 <= i -> discardLeft n = true -> dead v (i - 1) (2 * j);
  no_discr : 1 <= i -> discardRight n = true -> dead v (i - 1) (2 * j + 1) }.

(** The heap and the layers. *)
Record shape (s : t) (D : Z) (c : Z -> Z) : Prop := {
  sh_depth : 1 <= D <= 31;
  sh_tree : Z.of_nat (length (tree s)) = D + 1;
  sh_next : forall i, 0 <= i <= D -> nextIndex s !! Z.to_nat i = Some (c i);
  sh_len : Z.of_nat (length (nextIndex s)) = D + 1;
  sh_up : forall i j, 0 <= i < D -> j < c i -> j / 2 < c (i + 1);
  sh_once : forall i i' j j' p, 0 <= i -> 0 <= i' -> at_ s i j p -> at_ s i' j' p -> i = i' /\ j = j';
  sh_old : forall i j p, 0 <= i -> at_ s i j p -> (p < brk s)%nat }.

(** Each layer has its version. *)
Definition nodes (s : t) (D : Z) (c : Z -> Z) (marks : Z -> bool) (v : Z -> version) : Prop :=
  forall i j, 0 <= i <= D -> needed D c (v i) i j -> exists p n, at_ s i j p /\ heap s !! p = Some n /\ nodeOK s D marks (v i) i j n.

Lemma at_fun s i j p p' : at_ s i j p -> at_ s i j p' -> p = p'.
Proof. intros (l & E1 & E2) (l' & E1' & E2'). congruence. Qed.

Lemma nodeOK_at s s' D marks v i j n : (i <> D -> forall p, at_ s (i + 1) (j / 2) p -> at_ s' (i + 1) (j / 2) p) ->
  nodeOK s D marks v i j n -> nodeOK s' D marks v i j n.
Proof. intros Hat [H1 H2 H3 H4 H5 H6 H7 H8 H9]. split; try done. intros Hi. destruct (H4 Hi) as (p & E & Hp). exists p. split; [done|by apply Hat]. Qed.

(** ** Writing and deleting nodes *)

(** Only the heap and the layers change. *)
Definition framed (s s' : t) : Prop := exists tr h, s' = withTree tr (withHeap h (brk s) s).

Lemma framed_refl s : framed s s.
Proof. exists (tree s), (heap s). by destruct s. Qed.
Lemma framed_trans s1 s2 s3 : framed s1 s2 -> framed s2 s3 -> framed s1 s3.
Proof. intros (tr & h & ->) (tr' & h' & ->). by exists tr', h'. Qed.
Lemma framed_store a n s : framed s (store a n s).
Proof. exists (tree s), (<[a := n]> (heap s)). by destruct s. Qed.

Lemma store_at a n s i j p : at_ (store a n s) i j p <-> at_ s i j p.
Proof. done. Qed.
Lemma store_shape a n s D c : shape s D c -> shape (store a n s) D c.
Proof. intros [H1 H2 H3 H4 H5 H6 H7]. by split. Qed.

(** A layer with one entry changed. *)
Lemma layer_set s D c i layer : shape s D c -> 0 <= i <= D -> exists l, vec_get (tree s) i = Done l /\ tree s !! Z.to_nat i = Some l /\
  vec_set (tree s) i layer = Done (<[Z.to_nat i := layer]> (tree s)).
Proof.
  intros Hs Hi. pose proof (sh_tree _ _ _ Hs). destruct (vec_get_in (tree s) i) as (l & E & L); [lia|]. exists l. split; [done|]. split; [done|]. apply vec_set_in. lia.
Qed.

Lemma treeErase_ok s D c i j : shape s D c -> 0 <= i <= D -> exists s', treeErase i j s = Done s' /\ framed s s' /\ heap s' = heap s /\
  (forall i' j' p, 0 <= i' -> at_ s' i' j' p <-> at_ s i' j' p /\ (i', j') <> (i, j)) /\ (i <> 0 -> tree s' !! O = tree s !! O) /\ shape s' D c.
Proof.
  intros Hs Hi. destruct (layer_set s D c i ∅ Hs Hi) as (l & E & L & _). destruct (layer_set s D c i (delete j l) Hs Hi) as (_ & _ & _ & E2).
  unfold treeErase. rewrite E. cbn [obind]. rewrite E2. cbn [obind]. eexists. split; [done|].
  assert (Hat : forall i' j' p, 0 <= i' -> at_ (withTree (<[Z.to_nat i:=delete j l]> (tree s)) s) i' j' p <-> at_ s i' j' p /\ (i', j') <> (i, j)).
  { intros i' j' p Hi'. unfold at_. cbn [tree withTree]. destruct (decide (i' = i)) as [->|Hne].
    - rewrite list_lookup_insert_eq by (pose proof (sh_tree _ _ _ Hs); lia). rewrite L. split.
      + intros (l' & [= <-] & [Hj Hl]%lookup_delete_Some). split; [by exists l|congruence].
      + intros [(l' & [= <-] & Hl) Hj]. eexists. split; [done|]. rewrite lookup_delete_ne by congruence. done.
    - rewrite list_lookup_insert_ne by lia. split; [intros H; split; [done|congruence]|by intros []]. }
  split; [exists (<[Z.to_nat i:=delete j l]> (tree s)), (heap s); by destruct s|]. split; [done|]. split; [exact Hat|].
  split; [intros H0; cbn [tree withTree]; apply list_lookup_insert_ne; lia|].
  destruct Hs as [H1 H2 H3 H4 H5 H6 H7]. split; try done; [cbn; by rewrite length_insert|..].
  - intros i1 i2 j1 j2 p Hi1 Hi2 [Ha1 _]%Hat [Ha2 _]%Hat; [|done..]. by eapply H6.
  - intros i1 j1 p Hi1 [Ha _]%Hat; [|done]. by eapply H7.
Qed.

Section path.
Context (D : Z) (c : Z -> Z) (marks : Z -> bool) (v v' : version) (k : Z) (Hch : change k D v v').

(** The layers below [i] are of the new version. *)
Definition upTo (i : Z) : Z -> version := fun l => if l <? i then v' else v.

Lemma needed_other i j : 0 <= i <= D -> needed D c v' i j -> needed D c v i j.
Proof. intros Hi [Hj Hd]. split; [done|]. intros Hdead. apply Hd. by eapply change_dead. Qed.

Lemma nodeOK_other s i j n : 0 <= i <= D -> j <> k / 2 ^ i -> nodeOK s D marks v i j n -> nodeOK s D marks v' i j n.
Proof.
  intros Hi Hj [H1 H2 H3 H4 H5 H6 H7 H8 H9].
  assert (Hc : 1 <= i -> 2 * j <> k / 2 ^ (i - 1) /\ 2 * j + 1 <> k / 2 ^ (i - 1)).
  { intros H1i. destruct (child_cases k i H1i) as [[_ E]|[_ E]]; lia. }
  split; try done.
  - intros H1i. rewrite (change_blk k D v) by (done || lia || apply Hc; done). by apply H6.
  - intros H1i. rewrite (change_blk k D v) by (done || lia || apply Hc; done). by apply H7.
  - intros H1i Hd. eapply change_dead; [exact Hch|lia|by apply H8].
  - intros H1i Hd. eapply change_dead; [exact Hch|lia|by apply H9].
Qed.

(** The node of the path on layer [i] is brought to the new version. *)
Lemma write_node s i p n : shape s D c -> 0 <= i <= D -> nodes s D c marks (upTo i) -> at_ s i (k / 2 ^ i) p ->
  nodeOK s D marks v' i (k / 2 ^ i) n -> nodes (store p n s) D c marks (upTo (i + 1)).
Proof.
  intros Hs Hi Hn Hp Hok l m Hl Hnd. unfold upTo in *. destruct (decide (l = i)) as [->|Hli].
  - rewrite (proj2 (Z.ltb_lt i (i + 1))) in * by lia. destruct (decide (m = k / 2 ^ i)) as [->|Hm].
    { exists p, n. split; [done|]. split; [apply lookup_insert_eq|by apply (nodeOK_at s)]. }
    destruct (Hn i m Hl) as (q & nq & Hq & Eq & Hnq); [rewrite (proj2 (Z.ltb_ge i i)) by lia; by apply needed_other|].
    rewrite (proj2 (Z.ltb_ge i i)) in Hnq by lia. exists q, nq. split; [done|]. split; [|apply (nodeOK_at s); [done|by apply nodeOK_other]].
    cbn. rewrite lookup_insert_ne; [done|]. intros ->. destruct (sh_once _ _ _ Hs i i m (k / 2 ^ i) q) as [_ E]; [lia|lia|done|done|done].
  - assert (E : (l <? i + 1) = (l <? i)) by (destruct (Z.ltb_spec l (i + 1)), (Z.ltb_spec l i); lia || done). rewrite E in *.
    destruct (Hn l m Hl Hnd) as (q & nq & Hq & Eq & Hnq). exists q, nq. split; [done|]. split; [|by apply (nodeOK_at s)]. cbn. rewrite lookup_insert_ne; [done|].
    intros ->. destruct (sh_once _ _ _ Hs l i m (k / 2 ^ i) q) as [E' _]; [lia|lia|done|done|done].
Qed.

(** A dead node is deleted: no needed node points to it. *)
Lemma delete_node s i p : shape s D c -> 1 <= i < D -> nodes s D c marks (upTo (i + 1)) -> at_ s i (k / 2 ^ i) p -> dead v' i (k / 2 ^ i) ->
  exists s', treeErase i (k / 2 ^ i) (free p s) = Done s' /\ framed s s' /\ shape s' D c /\ nodes s' D c marks (upTo (i + 1)) /\
    tree s' !! O = tree s !! O /\ (forall q, q <> p -> heap s' !! q = heap s !! q) /\
    (forall i' j' q, 0 <= i' -> at_ s i' j' q -> (i', j') <> (i, k / 2 ^ i) -> at_ s' i' j' q).
Proof.
  intros Hs Hi Hn Hp Hd. assert (Hs1 : shape (free p s) D c) by (destruct Hs; by split).
  destruct (treeErase_ok (free p s) D c i (k / 2 ^ i) Hs1) as (s' & E & Hf & Hh & Hat & H0 & Hs'); [lia|]. exists s'. split; [done|].
  assert (Hat' : forall i' j' q, 0 <= i' -> at_ s i' j' q -> (i', j') <> (i, k / 2 ^ i) -> at_ s' i' j' q) by (intros; by apply Hat).
  split; [eapply framed_trans; [|exact Hf]; exists (tree s), (delete p (heap s)); by destruct s|]. split; [done|].
  split; [|split; [rewrite H0 by lia; done|split; [intros q Hq; rewrite Hh; by apply lookup_delete_ne|exact Hat']]].
  intros l m Hl Hnd. assert (Hlm : (l, m) <> (i, k / 2 ^ i)).
  { intros [= -> ->]. destruct Hnd as [_ Hx]. unfold upTo in Hx. rewrite (proj2 (Z.ltb_lt _ _)) in Hx by lia. specialize (Hx Hd). lia. }
  destruct (Hn l m Hl Hnd) as (q & nq & Hq & Eq & Hnq). exists q, nq. split; [apply Hat'; [lia|done|done]|]. split.
  - rewrite Hh. cbn. rewrite lookup_delete_ne; [done|]. intros ->. destruct (sh_once _ _ _ Hs l i m (k / 2 ^ i) q) as [-> ->]; [lia|lia|done|done|done].
  - eapply nodeOK_at; [|done]. intros HlD q' Hq'. apply Hat'; [lia|done|]. intros [= Eli Em]. destruct Hnd as [_ Hx]. unfold upTo in Hx. rewrite (proj2 (Z.ltb_lt l (i + 1))) in Hx by lia.
    assert (Hdm : dead v' l m); [|specialize (Hx Hdm); lia].
    destruct (dead_child v' i (k / 2 ^ i)) as [Hl' Hr']; [lia|done|]. rewrite <-Em in Hl', Hr'. replace (i - 1) with l in * by lia.
    pose proof (Z.div_mod m 2 ltac:(lia)) as Hdm. pose proof (Z.mod_pos_bound m 2 ltac:(lia)).
    destruct (decide (m mod 2 = 0)); [by replace m with (2 * (m / 2)) by lia|by replace m with (2 * (m / 2) + 1) by lia].
Qed.

Context (Hnd : NoDup (live v)) (Hnd' : NoDup (live v')) (Hk : k < 2 ^ D).

(** The end of the block of the path on a layer. *)
Definition blockEnd (i : Z) : Z := (k / 2 ^ i + 1) * 2 ^ i.

Lemma blockEnd_le i : 0 <= i <= D -> blockEnd i <= 2 ^ D.
Proof.
  intros Hi. assert (0 < 2 ^ i) by (apply Z.pow_pos_nonneg; lia).
  assert (E : 2 ^ D = 2 ^ (D - i) * 2 ^ i) by (rewrite <-Z.pow_add_r by lia; f_equal; lia).
  assert (k / 2 ^ i < 2 ^ (D - i)) by (apply Z.div_lt_upper_bound; lia). unfold blockEnd. nia.
Qed.

(** The leaves to the right of the path, one layer at a time. *)
Lemma right_of_path i : 1 <= i <= D -> cnt (live v') (blockEnd (i - 1)) (2 ^ D) =
  (if k / 2 ^ (i - 1) mod 2 =? 0 then blk (live v') (i - 1) (2 * (k / 2 ^ i) + 1) else 0) + cnt (live v') (blockEnd i) (2 ^ D).
Proof.
  intros Hi. assert (E : 2 ^ i = 2 * 2 ^ (i - 1)) by (rewrite <-Z.pow_succ_r by lia; f_equal; lia).
  assert (0 < 2 ^ (i - 1)) by (apply Z.pow_pos_nonneg; lia). pose proof (blockEnd_le i ltac:(lia)) as He. unfold blockEnd in *.
  destruct (child_cases k i ltac:(lia)) as [[-> Ec]|[-> Ec]]; rewrite Ec; rewrite E in *.
  - rewrite (cnt_split _ _ ((k / (2 * 2 ^ (i - 1)) + 1) * (2 * 2 ^ (i - 1)))) by nia. f_equal. unfold blk. f_equal; lia.
  - rewrite Z.add_0_l. f_equal. lia.
Qed.

(** The sums of the node of the path, with the new one on the path's side. *)
Definition updatedNode (i : Z) (d : bool) (n : Node) : Node :=
  let from_left := k / 2 ^ (i - 1) mod 2 =? 0 in
  let sum := blk (live v') (i - 1) (k / 2 ^ (i - 1)) in
  let gone := d && (sum =? 0) in
  withDiscards (if gone && from_left then true else discardLeft n) (if gone && negb from_left then true else discardRight n)
    (withSums (if from_left then sum else sumLeft n) (if from_left then sumRight n else sum) n).

Lemma updatedNode_ok s i d n : 1 <= i <= D -> (d = true -> dead v' (i - 1) (k / 2 ^ (i - 1))) ->
  nodeOK s D marks v i (k / 2 ^ i) n -> nodeOK s D marks v' i (k / 2 ^ i) (updatedNode i d n).
Proof.
  intros Hi Hd [H1 H2 H3 H4 H5 H6 H7 H8 H9]. unfold updatedNode.
  assert (Hnot : ~ dead v (i - 1) (k / 2 ^ (i - 1))) by (apply (ch_path _ _ _ _ Hch); lia).
  destruct (child_cases k i ltac:(lia)) as [[-> Ec]|[-> Ec]]; rewrite Ec in *; cbn [negb].
  - split; cbn [nodeIndex isLeftNode parent isMarked sumLeft sumRight discardLeft discardRight withDiscards withSums]; try (done || lia).
    + intros _. rewrite (change_blk k D v) by (done || lia). apply H7. lia.
    + intros _. destruct d; [|intros Hx; destruct Hnot; apply H8; [lia|done]]. intros _. by apply Hd.
    + intros _. rewrite andb_false_r. intros Hx. eapply (change_dead k D v); [done|lia|apply H9; [lia|done]].
  - split; cbn [nodeIndex isLeftNode parent isMarked sumLeft sumRight discardLeft discardRight withDiscards withSums]; try (done || lia).
    + intros _. rewrite (change_blk k D v) by (done || lia). apply H6. lia.
    + intros _. rewrite andb_false_r. intros Hx. eapply (change_dead k D v); [done|lia|apply H8; [lia|done]].
    + intros _. destruct d; [|intros Hx; destruct Hnot; apply H9; [lia|done]]. intros _. by apply Hd.
Qed.

Lemma needed_path i : 0 <= i <= D -> k / 2 ^ i < c i -> needed D c v i (k / 2 ^ i).
Proof.
  intros Hi Hc. split; [|by intros Hd; destruct (ch_path _ _ _ _ Hch i Hi)]. split; [|done].
  apply Z.div_pos; [apply Hch|apply Z.pow_pos_nonneg; lia].
Qed.

(** The node of the path is written, and deleted when it is dead. *)
Lemma settle_node s i p n removed : shape s D c -> 1 <= i <= D -> nodes s D c marks (upTo i) -> at_ s i (k / 2 ^ i) p ->
  nodeOK s D marks v' i (k / 2 ^ i) n -> (removed = true -> dead v' i (k / 2 ^ i) /\ i <> D) ->
  exists s1, (if removed : bool then treeErase i (k / 2 ^ i) (free p (store p n s)) else Done (store p n s)) = Done s1 /\ framed s s1 /\ shape s1 D c /\
    nodes s1 D c marks (upTo (i + 1)) /\ tree s1 !! O = tree s !! O /\ (forall j q, at_ s 0 j q -> heap s1 !! q = heap s !! q) /\
    (forall i' j' q, i < i' -> at_ s i' j' q -> at_ s1 i' j' q).
Proof.
  intros Hs Hi Hn Hp Hok Hrem. assert (Hn1 : nodes (store p n s) D c marks (upTo (i + 1))) by (apply write_node; (done || lia)).
  assert (Hs1 : shape (store p n s) D c) by (by apply store_shape).
  assert (Hleaf : forall j q, at_ s 0 j q -> q <> p) by (intros j q Hj ->; destruct (sh_once _ _ _ Hs 0 i j (k / 2 ^ i) p); (done || lia)).
  destruct removed.
  - destruct (Hrem eq_refl) as [Hdead HiD].
    destruct (delete_node (store p n s) i p Hs1 ltac:(lia) Hn1 Hp Hdead) as (s1 & E1 & F1 & S1 & N1 & T1 & Hh & Hat). exists s1. split; [done|].
    split; [eapply framed_trans; [apply framed_store|done]|]. split; [done|]. split; [done|]. split; [done|]. split.
    + intros j q Hj. specialize (Hleaf j q Hj). rewrite Hh by done. cbn. by rewrite lookup_insert_ne.
    + intros i' j' q Hi' Hq'. apply Hat; [lia|done|]. intros [= ? ?]. lia.
  - exists (store p n s). split; [done|]. split; [apply framed_store|]. split; [done|]. split; [done|]. split; [done|]. split; [|done].
    intros j q Hj. specialize (Hleaf j q Hj). cbn. by rewrite lookup_insert_ne.
Qed.

Lemma half_bound w i j : NoDup (live w) -> 1 <= i -> 0 <= blk (live w) (i - 1) j <= 2 ^ (i - 1).
Proof. intros Hw Hi. split; [apply cnt_nonneg|apply blk_le; [done|lia]]. Qed.

(** The panics of [updateSum]. *)
Lemma sums_checked s i n : shape s D c -> 1 <= i <= D -> nodeOK s D marks v i (k / 2 ^ i) n ->
  (if verifyStack s then let! bound := shiftOne (i - 1) in if (bound <? sumLeft n) || (bound <? sumRight n) then Exited else Done () else Done ()) = Done ().
Proof.
  intros Hs Hi Hok. destruct (verifyStack s); [|done]. unfold shiftOne. pose proof (sh_depth _ _ _ Hs). rewrite (proj2 (Z.leb_le _ _)), (proj2 (Z.ltb_lt _ _)) by lia. cbn [andb obind].
  rewrite Z.shiftl_mul_pow2, Z.mul_1_l by lia. rewrite (no_suml _ _ _ _ _ _ _ Hok), (no_sumr _ _ _ _ _ _ _ Hok) by lia.
  rewrite !(proj2 (Z.ltb_ge _ _)) by (apply half_bound; (done || lia)). done.
Qed.

(** The sum that goes up. *)
Lemma sum_up s i n : shape s D c -> 1 <= i <= D -> nodeOK s D marks v' i (k / 2 ^ i) n -> wrap 64 (sumLeft n + sumRight n) = blk (live v') i (k / 2 ^ i).
Proof.
  intros Hs Hi Hok. rewrite (blk_split _ i) by lia. rewrite (no_suml _ _ _ _ _ _ _ Hok), (no_sumr _ _ _ _ _ _ _ Hok) by lia. apply Z.mod_small.
  pose proof (half_bound v' i (2 * (k / 2 ^ i)) Hnd' ltac:(lia)). pose proof (half_bound v' i (2 * (k / 2 ^ i) + 1) Hnd' ltac:(lia)). pose proof (sh_depth _ _ _ Hs).
  assert (2 ^ (i - 1) <= 2 ^ 31) by (apply Z.pow_le_mono_r; lia). lia.
Qed.

(** From layer [i] up: the node of the path there is at [p], the child's sum and
    whether the child is gone are given. *)
Lemma updateSum_ok m : forall fuel s i p sd d, m = Z.to_nat (D - i) -> (m < fuel)%nat -> 1 <= i <= D -> shape s D c -> nodes s D c marks (upTo i) ->
  at_ s i (k / 2 ^ i) p -> k / 2 ^ i < c i -> (d = true -> dead v' (i - 1) (k / 2 ^ (i - 1))) ->
  0 <= sd -> sd + cnt (live v') (blockEnd (i - 1)) (2 ^ D) < 2 ^ 64 ->
  exists s', updateSum fuel (Some p) (k / 2 ^ (i - 1) mod 2 =? 0) (blk (live v') (i - 1) (k / 2 ^ (i - 1))) (i - 1) sd d s =
      Done (sd + cnt (live v') (blockEnd (i - 1)) (2 ^ D), s') /\
    framed s s' /\ shape s' D c /\ nodes s' D c marks (fun _ => v') /\ tree s' !! O = tree s !! O /\
    (forall j q, at_ s 0 j q -> heap s' !! q = heap s !! q).
Proof.
  induction m as [m IH] using lt_wf_ind. intros fuel s i p sd d Em Hf Hi Hs Hn Hp Hc Hd Hsd Hov.
  destruct fuel as [|fuel]; [lia|]. cbn [updateSum]. replace (i - 1 + 1) with i by lia.
  destruct (Hn i (k / 2 ^ i)) as (q & n & Hq & Eq & Hok); [lia|unfold upTo; rewrite (proj2 (Z.ltb_ge i i)) by lia; apply needed_path; lia|].
  assert (q = p) as -> by (by eapply at_fun). unfold upTo in Hok. rewrite (proj2 (Z.ltb_ge i i)) in Hok by lia.
  unfold deref. rewrite Eq. cbn [obind].
  rewrite (sums_checked s i n) by (done || lia). cbn [obind]. rewrite (right_of_path i) in * by lia.
  set (n' := updatedNode i d n). assert (Hok' : nodeOK s D marks v' i (k / 2 ^ i) n') by (apply updatedNode_ok; [lia|done|done]).
  set (sum := blk (live v') (i - 1) (k / 2 ^ (i - 1))) in *. set (from_left := k / 2 ^ (i - 1) mod 2 =? 0) in *.
  change (withDiscards _ _ (withSums _ _ n)) with n'.
  assert (Esd : (if from_left then wrap 64 (sd + sumRight n) else sd) = sd + (if from_left then blk (live v') (i - 1) (2 * (k / 2 ^ i) + 1) else 0)).
  { destruct from_left eqn:Efl; [|lia]. rewrite (no_sumr _ _ _ _ _ _ _ Hok) by lia. destruct (child_cases k i ltac:(lia)) as [[_ Ec]|[Ex _]]; [|fold from_left in Ex; congruence].
    rewrite <-(change_blk k D v v') by (done || lia). apply Z.mod_small. pose proof (half_bound v' i (2 * (k / 2 ^ i) + 1) Hnd' ltac:(lia)).
    pose proof (cnt_nonneg (live v') (blockEnd i) (2 ^ D)). lia. }
  rewrite Esd. set (sd' := sd + _). set (removed := _ && (sum =? 0)).
  assert (Hrem : removed = true -> dead v' i (k / 2 ^ i) /\ i <> D).
  { intros Hr. unfold removed in Hr. rewrite !andb_true_iff in Hr. destruct Hr as ((((Hl & Hr) & _) & Hpar) & _). split.
    - apply dead_both; [lia|apply Hok'; [lia|exact Hl]|apply Hok'; [lia|exact Hr]].
    - intros E. rewrite (no_root _ _ _ _ _ _ _ Hok E) in Hpar. apply bool_decide_eq_true in Hpar. by destruct Hpar. }
  rewrite (no_index _ _ _ _ _ _ _ Hok).
  destruct (settle_node s i p n' removed Hs Hi Hn Hp Hok' Hrem) as (s1 & -> & F1 & S1 & N1 & T1 & L1 & U1). cbn [obind]. destruct (decide (i = D)) as [EiD|HiD].
  - rewrite (no_root _ _ _ _ _ _ _ Hok EiD). exists s1. assert (E0 : cnt (live v') (blockEnd i) (2 ^ D) = 0).
    { apply cnt_out. intros x _. subst i. unfold blockEnd. rewrite Z.div_small by (split; [apply Hch|done]). lia. }
    rewrite E0. split; [f_equal; f_equal; unfold sd'; lia|]. split; [done|]. split; [done|]. split; [|done].
    intros l j Hl Hx. assert (Ev : upTo (i + 1) l = v') by (unfold upTo; by rewrite (proj2 (Z.ltb_lt _ _)) by lia).
    specialize (N1 l j Hl). rewrite Ev in N1. by apply N1.
  - destruct (no_parent _ _ _ _ _ _ _ Hok HiD) as (p' & Epar & Hp'). rewrite path_up in Hp' by lia. rewrite Epar.
    assert (Esum : wrap 64 ((if from_left then sum else sumLeft n) + (if from_left then sumRight n else sum)) = blk (live v') (i + 1 - 1) (k / 2 ^ (i + 1 - 1)))
      by (replace (i + 1 - 1) with i by lia; exact (sum_up s i n' Hs Hi Hok')).
    rewrite Esum, (no_left _ _ _ _ _ _ _ Hok). replace (k / 2 ^ i) with (k / 2 ^ (i + 1 - 1)) by (do 2 f_equal; lia).
    assert (Elev : Z.to_nat (D - (i + 1)) = (m - 1)%nat) by lia.
    destruct (IH (m - 1)%nat ltac:(lia) fuel s1 (i + 1) p' sd' removed) as (s2 & E2 & F2 & S2 & N2 & T2 & L2); [lia|lia|lia|done|done|apply U1; [lia|done]| | | | |].
    + rewrite <-path_up by lia. apply (sh_up _ _ _ Hs); lia.
    + intros Hr. replace (i + 1 - 1) with i by lia. by apply Hrem.
    + unfold sd'. pose proof (half_bound v' i (2 * (k / 2 ^ i) + 1) Hnd' ltac:(lia)). destruct from_left; lia.
    + replace (i + 1 - 1) with i by lia. unfold sd'. lia.
    + replace (i + 1 - 1) with i in E2 |- * by lia. exists s2. rewrite E2. split; [f_equal; f_equal; unfold sd'; lia|].
      split; [by eapply framed_trans|]. split; [done|]. split; [done|]. split; [congruence|]. intros j q Hj. rewrite (L2 j q); [by apply (L1 j)|].
      destruct Hj as (l & El & Hl). exists l. split; [|done]. change (tree s1 !! O = Some l). by rewrite T1.
Qed.

End path.

End StackDistTree.
