(* ===== verification/StackDistGrow.v ===== *)
(** * How the tree of partial sums grows

    New roots, new inner nodes and new leaves keep the invariant of the tree;
    climbing without writing gives the same sums. *)

From Stdlib Require Import ZArith Lia.
From stdpp Require Import base gmap numbers list.
From S2P Require Import Prelude Bits MemCmd StackDist StackDistTree.

#[local] Open Scope Z_scope.
#[local] Open Scope outcome_scope.

Module StackDistGrow.
Import StackDist StackDistTree.

(** Growing changes the layers, the counters and the heap. *)
Definition regrown (s s' : t) : Prop := exists tr nx h b, s' = withHeap h b (withNext nx (withTree tr s)).

Lemma regrown_refl s : regrown s s.
Proof. exists (tree s), (nextIndex s), (heap s), (brk s). by destruct s. Qed.
Lemma regrown_trans s1 s2 s3 : regrown s1 s2 -> regrown s2 s3 -> regrown s1 s3.
Proof. intros (tr & nx & h & b & ->) (tr' & nx' & h' & b' & ->). by exists tr', nx', h', b'. Qed.
Lemma regrown_framed s s' : framed s s' -> regrown s s'.
Proof. intros (tr & h & ->). exists tr, (nextIndex s), h, (brk s). by destruct s. Qed.

Lemma treeGet_at s D c i j p : shape s D c -> 0 <= i <= D -> at_ s i j p -> treeGet i j s = Done (Some p, s).
Proof.
  intros Hs Hi (l & El & Ej). destruct (layer_set s D c i ∅ Hs Hi) as (l' & E & L & _). assert (l' = l) as -> by congruence.
  unfold treeGet. rewrite E. cbn [obind]. by rewrite Ej.
Qed.

(** The leaves from [n] on are neither made nor live. *)
Definition fresh_from (n : Z) (ks : list Z) : Prop := forall k, k ∈ ks -> 0 <= k < n.

Lemma blk_fresh n ks i j : fresh_from n ks -> n <= j * 2 ^ i -> blk ks i j = 0.
Proof. intros Hf Hn. apply cnt_out. intros k Hk. specialize (Hf k Hk). lia. Qed.

(** The node being filled is not dead. *)
Lemma filling_alive n ks i : 0 <= i -> ~ dead (V n ks) i (n / 2 ^ i).
Proof. intros Hi [Hd _]. pose proof (path_in n i Hi). cbn in Hd. lia. Qed.

(** ** A node is added *)

Section add.
Context (marks : Z -> bool) (n : Z) (ks : list Z) (Hfresh : fresh_from n ks) (Hn : 0 <= n < 2 ^ 31).

Definition upd (c : Z -> Z) (i x : Z) : Z -> Z := fun l => if l =? i then x else c l.
Lemma upd_eq c i x : upd c i x i = x.
Proof. unfold upd. by rewrite Z.eqb_refl. Qed.
Lemma upd_ne c i x l : l <> i -> upd c i x l = c l.
Proof. intros Hl. unfold upd. by rewrite (proj2 (Z.eqb_neq _ _)). Qed.

(** Node [j] of layer [i], the next of its layer, is put at a new address. *)
Definition placed (i j : Z) (nd : Node) (s : t) : outcome t :=
  let! next := vec_set (nextIndex s) i (j + 1) in
  let (a, s) := alloc nd (withNext next s) in
  treeSet i j (Some a) s.

Lemma placed_ok s D c i j nd : shape s D c -> 0 <= i < D -> c i = j -> 0 <= j -> j / 2 < c (i + 1) ->
  exists s', placed i j nd s = Done s' /\ regrown s s' /\ shape s' D (upd c i (j + 1)) /\ heap s' = <[brk s := nd]> (heap s) /\
    at_ s' i j (brk s) /\
    (forall i' j' p, 0 <= i' -> (i', j') <> (i, j) -> at_ s' i' j' p <-> at_ s i' j' p).
Proof.
  intros Hs Hi Hc Hj Hup. unfold placed. pose proof (sh_len _ _ _ Hs) as Hl. rewrite vec_set_in by lia. cbn [obind]. cbn [alloc].
  set (s1 := withHeap _ _ _). assert (T1 : tree s1 = tree s) by done. pose proof (sh_tree _ _ _ Hs) as Ht.
  destruct (vec_get_in (tree s) i) as (l & E & L); [lia|]. unfold treeSet. rewrite T1, E. cbn [obind]. rewrite vec_set_in by lia. cbn [obind].
  eexists. split; [done|]. set (tr := <[Z.to_nat i := _]> (tree s)).
  assert (Hother : forall i' j' p, 0 <= i' -> (i', j') <> (i, j) -> at_ (withTree tr s1) i' j' p <-> at_ s i' j' p).
  { intros i' j' p Hi' Hne. unfold at_. cbn [tree withTree]. unfold tr. destruct (decide (i' = i)) as [->|Hii].
    - rewrite list_lookup_insert_eq by lia. rewrite L. assert (Hjj : j' <> j) by congruence. split.
      + intros (l' & [= <-] & Hx). exists l. split; [done|]. by rewrite lookup_insert_ne in Hx by done.
      + intros (l' & [= <-] & Hx). eexists. split; [done|]. by rewrite lookup_insert_ne by done.
    - rewrite list_lookup_insert_ne by lia. done. }
  assert (Hself : forall p, at_ (withTree tr s1) i j p <-> p = brk s).
  { intros p. unfold at_. cbn [tree withTree]. unfold tr. rewrite list_lookup_insert_eq by lia. split.
    - intros (l' & [= <-] & Hx). rewrite lookup_insert_eq in Hx. by injection Hx.
    - intros ->. eexists. split; [done|]. by rewrite lookup_insert_eq. }
  split; [exists tr, (<[Z.to_nat i := j + 1]> (nextIndex s)), (<[brk s := nd]> (heap s)), (S (brk s)); by destruct s|].
  split; [|split; [done|split; [by apply Hself|exact Hother]]].
  assert (Hcase : forall i' j' p, 0 <= i' -> at_ (withTree tr s1) i' j' p -> ((i', j') = (i, j) /\ p = brk s) \/ ((i', j') <> (i, j) /\ at_ s i' j' p /\ (p < brk s)%nat)).
  { intros i' j' p Hi' Hx. destruct (decide ((i', j') = (i, j))) as [[= -> ->]|Hne]; [left; split; [done|by apply Hself]|right].
    apply Hother in Hx; [|done..]. split; [done|]. split; [done|]. by eapply (sh_old _ _ _ Hs). }
  destruct Hs as [H1 H2 H3 H4 H5 H6 H7]. split; cbn [tree nextIndex brk withTree]; try done.
  - unfold tr. by rewrite length_insert.
  - intros l' Hl'. change (nextIndex s1) with (<[Z.to_nat i := j + 1]> (nextIndex s)). destruct (decide (l' = i)) as [->|Hne].
    + rewrite upd_eq. apply list_lookup_insert_eq. lia.
    + rewrite upd_ne by done. rewrite list_lookup_insert_ne by lia. by apply H3.
  - change (nextIndex s1) with (<[Z.to_nat i := j + 1]> (nextIndex s)). by rewrite length_insert.
  - intros l' j' Hl' Hj'. unfold upd in *. destruct (Z.eqb_spec l' i) as [->|Hne].
    + rewrite (proj2 (Z.eqb_neq (i + 1) i)) by lia. destruct (decide (j' = j)) as [->|]; [done|]. apply H5; lia.
    + specialize (H5 l' j' Hl' Hj'). destruct (Z.eqb_spec (l' + 1) i) as [<-|]; [lia|done].
  - intros i1 i2 j1 j2 p Hi1 Hi2 Ha1 Ha2. destruct (Hcase _ _ _ Hi1 Ha1) as [[E1 P1]|(_ & A1 & P1)], (Hcase _ _ _ Hi2 Ha2) as [[E2 P2]|(_ & A2 & P2)].
    + split; congruence.
    + subst. lia.
    + subst. lia.
    + by eapply H6.
  - intros i' j' p Hi' Hx. destruct (Hcase _ _ _ Hi' Hx) as [[_ ->]|(_ & _ & Hp)]; cbn; lia.
Qed.

(** The other nodes are as they were, at whatever version their layer has. *)
Lemma placed_nodes s s' D c i j nd v : shape s D c -> 0 <= i < D -> c i = j -> nodes s D c marks v ->
  heap s' = <[brk s := nd]> (heap s) -> at_ s' i j (brk s) ->
  (forall i' j' p, 0 <= i' -> (i', j') <> (i, j) -> at_ s' i' j' p <-> at_ s i' j' p) ->
  nodeOK s' D marks (v i) i j nd -> nodes s' D (upd c i (j + 1)) marks v.
Proof.
  intros Hs Hi Hc Hnd Hh Hself Hother Hok l m Hl [[Hm0 Hm] Hd]. destruct (decide ((l, m) = (i, j))) as [[= -> ->]|Hne].
  { exists (brk s), nd. split; [done|]. split; [by rewrite Hh, lookup_insert_eq|done]. }
  assert (Hml : m < c l). { unfold upd in Hm. destruct (Z.eqb_spec l i) as [->|]; [|done]. assert (m <> j) by congruence. lia. }
  destruct (Hnd l m Hl) as (p & nq & Hp & Ep & Hq); [done|]. exists p, nq. split; [apply Hother; [lia|done|done]|]. split.
  - rewrite Hh, lookup_insert_ne; [done|]. pose proof (sh_old _ _ _ Hs l m p ltac:(lia) Hp). lia.
  - eapply nodeOK_at; [|exact Hq]. intros HlD q Hq'. apply Hother; [lia| |done]. intros [= El Em].
    pose proof (sh_up _ _ _ Hs l m ltac:(lia) Hml). rewrite El in *. lia.
Qed.

(** ** The loops of updateTree *)

(** The layers above [l] have the node of leaf [n], the others only when it was
    begun before. *)
Definition counts (D l : Z) (c : Z -> Z) : Prop :=
  c 0 = n /\ forall i, 1 <= i <= D -> c i = n / 2 ^ i + (if (l <? i) || negb (n mod 2 ^ i =? 0) then 1 else 0).

Lemma counts_word D l c i : counts D l c -> 1 <= i <= D -> 0 <= n / 2 ^ i < 2 ^ 32.
Proof.
  intros _ Hi. assert (0 < 2 ^ i) by (apply Z.pow_pos_nonneg; lia). split; [apply Z.div_pos; lia|].
  assert (n / 2 ^ i <= n) by (apply Z.div_le_upper_bound; nia). lia.
Qed.

Lemma inner_node_ok s D v i p : 1 <= i < D -> n mod 2 ^ i = 0 -> live v = ks -> at_ s (i + 1) (n / 2 ^ (i + 1)) p ->
  nodeOK s D marks v i (n / 2 ^ i) (withPlace (n / 2 ^ i) (Some p) (n / 2 ^ i mod 2 =? 0) newNode).
Proof.
  intros Hi Hd Hv Hp. assert (H2 : 0 < 2 ^ (i - 1)) by (apply Z.pow_pos_nonneg; lia).
  assert (E : 2 ^ i = 2 * 2 ^ (i - 1)) by (rewrite <-Z.pow_succ_r by lia; f_equal; lia).
  assert (En : n = 2 * (n / 2 ^ i) * 2 ^ (i - 1)) by (pose proof (Z.div_mod n (2 ^ i) ltac:(lia)); lia).
  split; cbn; try (done || lia).
  - intros _. exists p. split; [done|]. by rewrite path_up by lia.
  - intros _. rewrite Hv. symmetry. apply (blk_fresh n); [done|lia].
  - intros _. rewrite Hv. symmetry. apply (blk_fresh n); [done|lia].
Qed.

Lemma addINode_ok s D c i : shape s D c -> nodes s D c marks (fun _ => V n ks) -> counts D i c -> 1 <= i < D -> n mod 2 ^ i = 0 ->
  exists s' c', addINode i s = Done s' /\ regrown s s' /\ shape s' D c' /\ nodes s' D c' marks (fun _ => V n ks) /\ counts D (i - 1) c'.
Proof.
  intros Hs Hnd Hc Hi Hd. destruct Hc as [Hc0 Hc]. pose proof (counts_word D i c i (conj Hc0 Hc) ltac:(lia)) as Hw. pose proof (counts_word D i c (i + 1) (conj Hc0 Hc) ltac:(lia)) as Hw1.
  assert (Ei : c i = n / 2 ^ i) by (rewrite Hc by lia; rewrite (proj2 (Z.ltb_ge i i)), Hd by lia; cbn; lia).
  assert (Ei1 : c (i + 1) = n / 2 ^ (i + 1) + 1) by (rewrite Hc by lia; rewrite (proj2 (Z.ltb_lt i (i + 1))) by lia; done).
  destruct (Hnd (i + 1) (n / 2 ^ (i + 1))) as (p & np & Hp & _ & _); [lia|split; [lia|by intros Hx; apply filling_alive in Hx; [|lia]]|].
  set (j := n / 2 ^ i) in *. set (nd := withPlace j (Some p) (j mod 2 =? 0) newNode).
  assert (E : addINode i s = placed i j nd s).
  { unfold addINode, placed. rewrite (proj2 (vec_get_Done (nextIndex s) i j)) by (split; [lia|rewrite <-Ei; apply Hs; lia]). cbn [obind].
    rewrite (proj2 (vec_get_Done (nextIndex s) (i + 1) (n / 2 ^ (i + 1) + 1))) by (split; [lia|rewrite <-Ei1; apply Hs; lia]). cbn [obind].
    assert (W1 : wrap 64 (n / 2 ^ (i + 1) + 1 - 1) = n / 2 ^ (i + 1)) by (unfold wrap; rewrite Z.mod_small by lia; lia).
    assert (W2 : wrap 64 (j + 1) = j + 1) by (unfold wrap; rewrite Z.mod_small by lia; lia).
    assert (W3 : wrap 64 (j + 1 - 1) = j) by (unfold wrap; rewrite Z.mod_small by lia; lia).
    rewrite W1, W2, W3. rewrite (treeGet_at s D c (i + 1) _ p) by (done || lia). done. }
  destruct (placed_ok s D c i j nd) as (s' & E' & Hr & Hs' & Hh & Hself & Hother); [done|lia|done|lia|unfold j; rewrite path_up by lia; lia|].
  exists s', (upd c i (j + 1)). split; [by rewrite E|]. split; [done|]. split; [done|]. split.
  - eapply (placed_nodes s); [done|lia|done|done|done|done|done|]. apply inner_node_ok; [lia|done|done|]. apply Hother; [lia|intros [=]; lia|done].
  - split; [rewrite upd_ne by lia; done|]. intros l Hl. destruct (decide (l = i)) as [->|Hne].
    + rewrite upd_eq, (proj2 (Z.ltb_lt (i - 1) i)) by lia. done.
    + rewrite upd_ne, Hc by lia. destruct (Z.ltb_spec i l), (Z.ltb_spec (i - 1) l); try lia; done.
Qed.

Lemma addAll_ok D m : (forall i, 1 <= i <= Z.of_nat m -> n mod 2 ^ i = 0) -> Z.of_nat m < D -> forall s c, shape s D c -> nodes s D c marks (fun _ => V n ks) ->
  counts D (Z.of_nat m) c ->
  exists s' c', addAll m s = Done s' /\ regrown s s' /\ shape s' D c' /\ nodes s' D c' marks (fun _ => V n ks) /\ counts D 0 c'.
Proof.
  induction m as [|m IH]; intros Hd Hm s c Hs Hnd Hc; [exists s, c; split; [done|]; split; [apply regrown_refl|done]|].
  destruct (addINode_ok s D c (Z.of_nat (S m))) as (s1 & c1 & E1 & R1 & S1 & N1 & C1); [done|done|done|lia|apply Hd; lia|].
  replace (Z.of_nat (S m) - 1) with (Z.of_nat m) in C1 by lia.
  destruct (IH ltac:(intros; apply Hd; lia) ltac:(lia) s1 c1 S1 N1 C1) as (s2 & c2 & E2 & R2 & S2 & N2 & C2).
  exists s2, c2. cbn [addAll]. rewrite E1. cbn [obind]. split; [done|]. split; [by eapply regrown_trans|done].
Qed.

Lemma counts_skip D l c : counts D l c -> n mod 2 ^ l <> 0 -> counts D (l - 1) c.
Proof.
  intros [Hc0 Hc] Hl. split; [done|]. intros i Hi. rewrite (Hc i Hi). f_equal.
  destruct (Z.ltb_spec l i), (Z.ltb_spec (l - 1) i); try (lia || done). replace i with l by lia. by rewrite (proj2 (Z.eqb_neq _ _)).
Qed.

Lemma addDue_ok D m : Z.of_nat m < D -> forall s c, index s = n -> shape s D c -> nodes s D c marks (fun _ => V n ks) ->
  counts D (Z.of_nat m) c ->
  exists s' c', addDue m s = Done s' /\ regrown s s' /\ shape s' D c' /\ nodes s' D c' marks (fun _ => V n ks) /\ counts D 0 c'.
Proof.
  induction m as [|m IH]; intros Hm s c Ei Hs Hnd Hc; [exists s, c; split; [done|]; split; [apply regrown_refl|done]|].
  cbn [addDue]. pose proof (sh_depth _ _ _ Hs). unfold shiftOne. rewrite (proj2 (Z.leb_le _ _)), (proj2 (Z.ltb_lt _ 31)) by lia. cbn [andb obind].
  rewrite Z.shiftl_mul_pow2, Z.mul_1_l, Ei by lia.
  destruct (Z.eqb_spec (n mod 2 ^ Z.of_nat (S m)) 0) as [Hz|Hz].
  - destruct (addINode_ok s D c (Z.of_nat (S m))) as (s1 & c1 & E1 & R1 & S1 & N1 & C1); [done|done|done|lia|done|].
    replace (Z.of_nat (S m) - 1) with (Z.of_nat m) in C1 by lia.
    destruct (IH ltac:(lia) s1 c1) as (s2 & c2 & E2 & R2 & S2 & N2 & C2); [destruct R1 as (? & ? & ? & ? & ->); done|done..|].
    exists s2, c2. rewrite E1. cbn [obind]. split; [done|]. split; [by eapply regrown_trans|done].
  - cbn [obind]. apply counts_skip in Hc; [|done]. replace (Z.of_nat (S m) - 1) with (Z.of_nat m) in Hc by lia. apply (IH ltac:(lia) s c); done.
Qed.

(** ** A new root *)

(** The tree with a new root [a] above the old one at [p]. *)
Definition rooted (a p : nat) (old root : Node) (s : t) : t :=
  withHeap (<[p := withParent (Some a) old]> (<[a := root]> (heap s))) (S a)
    (withNext (nextIndex s ++ [1]) (withTree (tree s ++ [{[0 := Some a]}]) s)).

Definition newRoot (old : Node) : Node :=
  mkNode (wrap 64 (sumRight old + sumLeft old)) 0 (discardLeft old && discardRight old) false 0 None true false.

Lemma growRoot_eq s D c p old : shape s D c -> at_ s D 0 p -> heap s !! p = Some old ->
  growRoot s = Done (rooted (brk s) p old (newRoot old) s).
Proof.
  intros Hs Hp Ho. pose proof (sh_tree _ _ _ Hs) as Ht. pose proof (sh_depth _ _ _ Hs) as HD. unfold growRoot, getTreeDepth.
  replace (Z.of_nat (length (tree s)) - 1) with D by lia. rewrite (treeGet_at s D c D 0 p) by (done || lia). cbn [obind deref]. rewrite Ho. cbn [obind].
  fold (newRoot old). cbn [alloc]. set (root := newRoot old). cbn [tree withHeap withNext withTree]. rewrite length_app. cbn [length].
  replace (Z.of_nat (length (tree s) + 1) - 1) with (D + 1) by lia. unfold treeSet. cbn [tree withHeap withNext withTree].
  assert (Elen : Z.to_nat (D + 1) = length (tree s)) by lia.
  rewrite (proj2 (vec_get_Done (tree s ++ [∅]) (D + 1) ∅)) by (split; [lia|rewrite Elen; by apply list_lookup_middle]). cbn [obind].
  rewrite vec_set_in by (rewrite length_app; cbn; lia). cbn [obind]. rewrite Elen. cbn [brk withNext withTree].
  assert (Eins : <[length (tree s) := <[0:=Some (brk s)]> (∅ : gmap Z (option nat))]> (tree s ++ [∅]) = tree s ++ [{[0 := Some (brk s)]}]).
  { rewrite <-(Nat.add_0_r (length (tree s))), insert_app_r. done. }
  rewrite Eins. set (tr := tree s ++ [{[0 := Some (brk s)]}]). cbn [tree withTree withHeap withNext].
  assert (Htr : Z.of_nat (length tr) = D + 2) by (unfold tr; rewrite length_app; cbn; lia). rewrite Htr. replace (D + 2 - 1 - 1) with D by lia. replace (D + 2 - 1) with (D + 1) by lia.
  assert (G1 : forall s', tree s' = tr -> treeGet D 0 s' = Done (Some p, s')).
  { intros s' Es'. destruct Hp as (l & El & Ep). unfold treeGet. rewrite Es'. rewrite (proj2 (vec_get_Done tr D l)); [cbn; by rewrite Ep|].
    split; [lia|]. unfold tr. rewrite lookup_app_l by lia. done. }
  assert (G2 : forall s', tree s' = tr -> treeGet (D + 1) 0 s' = Done (Some (brk s), s')).
  { intros s' Es'. unfold treeGet. rewrite Es'. rewrite (proj2 (vec_get_Done tr (D + 1) {[0 := Some (brk s)]})); [cbn; by rewrite lookup_singleton_eq|].
    split; [lia|]. unfold tr. rewrite Elen. by apply list_lookup_middle. }
  rewrite G1 by done. cbn [obind]. cbn [tree withTree withHeap withNext]. rewrite Htr. replace (D + 2 - 1) with (D + 1) by lia. rewrite G2 by done. cbn [obind deref heap withTree withHeap].
  rewrite lookup_insert_ne by (pose proof (sh_old _ _ _ Hs D 0 p ltac:(lia) Hp); lia). cbn [heap withTree withNext]. rewrite Ho. done.
Qed.

Lemma rooted_at a p old root s D c i j q : shape s D c -> 0 <= i -> at_ (rooted a p old root s) i j q <-> at_ s i j q \/ (i = D + 1 /\ j = 0 /\ q = a).
Proof.
  intros Hs Hi. pose proof (sh_tree _ _ _ Hs) as Ht. unfold at_, rooted. cbn [tree withHeap withNext withTree].
  destruct (decide (i <= D)) as [Hd|Hd]; [rewrite lookup_app_l by lia; split; [by left|intros [?|[? _]]; [done|lia]]|].
  assert (Hnone : tree s !! Z.to_nat i = None) by (apply lookup_ge_None; lia). destruct (decide (i = D + 1)) as [->|Hne].
  - replace (Z.to_nat (D + 1)) with (length (tree s)) by lia. rewrite list_lookup_middle by done. split.
    + intros (l & [= <-] & [E1 E2]%lookup_singleton_Some). right. by injection E2 as ->.
    + intros [(l & E & _)|(_ & -> & ->)]; [replace (Z.to_nat (D + 1)) with (length (tree s)) in Hnone by lia; congruence|].
      eexists. split; [done|apply lookup_singleton_eq].
  - split.
    + intros (l & E & _). apply lookup_lt_Some in E. rewrite length_app in E. cbn in E. lia.
    + intros [(l & E & _)|[? _]]; [congruence|lia].
Qed.

Lemma growRoot_ok s D c : shape s D c -> nodes s D c marks (fun _ => V n ks) -> NoDup ks -> counts D D c -> n = 2 ^ D ->
  exists s' c', growRoot s = Done s' /\ regrown s s' /\ shape s' (D + 1) c' /\ nodes s' (D + 1) c' marks (fun _ => V n ks) /\ counts (D + 1) D c'.
Proof.
  intros Hs Hnd Hks Hc En. pose proof (sh_depth _ _ _ Hs) as HD. assert (HD31 : D < 31) by (apply (Z.pow_lt_mono_r_iff 2); lia).
  destruct Hc as [Hc0 Hc].
  assert (EcD : c D = 1) by (rewrite Hc, (proj2 (Z.ltb_ge D D)), En, Z_mod_same_full, Z_div_same_full by lia; done).
  destruct (Hnd D 0) as (p & old & Hp & Ho & Hok); [lia|by split; [lia|]|].
  exists (rooted (brk s) p old (newRoot old) s), (upd c (D + 1) 1). split; [by eapply growRoot_eq|].
  split; [by do 4 eexists|]. pose proof (sh_old _ _ _ Hs D 0 p ltac:(lia) Hp) as Hpb.
  assert (Hat : forall i j q, 0 <= i -> at_ (rooted (brk s) p old (newRoot old) s) i j q <-> at_ s i j q \/ (i = D + 1 /\ j = 0 /\ q = brk s))
    by (intros; by eapply rooted_at).
  assert (Hlow : forall i j q, 0 <= i -> at_ s i j q -> i <= D) by (intros i j q Hi (l & E & _); apply lookup_lt_Some in E; pose proof (sh_tree _ _ _ Hs); lia).
  split; [|split].
  - pose proof Hs as [H1 H2 H3 H4 H5 H6 H7]. split; cbn [tree nextIndex brk rooted withHeap withNext withTree].
    + lia.
    + rewrite length_app. cbn. lia.
    + intros i Hi. destruct (decide (i = D + 1)) as [->|Hne].
      * rewrite upd_eq. replace (Z.to_nat (D + 1)) with (length (nextIndex s)) by lia. by apply list_lookup_middle.
      * rewrite upd_ne by done. rewrite lookup_app_l by lia. apply H3. lia.
    + rewrite length_app. cbn. lia.
    + intros i j Hi Hj. unfold upd in *. rewrite (proj2 (Z.eqb_neq i (D + 1))) in Hj by lia. destruct (Z.eqb_spec (i + 1) (D + 1)) as [Ei|].
      * replace i with D in Hj by lia. assert (j / 2 <= 0) by (apply Z.div_le_upper_bound; lia). lia.
      * apply H5; lia.
    + intros i1 i2 j1 j2 q Hi1 Hi2 [A1|(-> & -> & ->)]%Hat [A2|(-> & -> & Eq)]%Hat; try done.
      * by eapply H6.
      * subst q. pose proof (H7 _ _ _ Hi1 A1). lia.
      * pose proof (H7 _ _ _ Hi2 A2). lia.
    + intros i j q Hi [A|(_ & _ & ->)]%Hat; [|lia|done]. pose proof (H7 _ _ _ Hi A). lia.
  - assert (Hup : forall i j q, 0 <= i -> at_ s i j q -> at_ (rooted (brk s) p old (newRoot old) s) i j q) by (intros; apply Hat; [done|by left]).
    intros i j Hi [Hj Hd]. unfold upd in Hj. destruct (Z.eqb_spec i (D + 1)) as [->|Hne].
    + assert (j = 0) as -> by lia. exists (brk s), (newRoot old). split; [apply Hat; [lia|by right]|]. cbn [heap rooted withHeap].
      split; [rewrite lookup_insert_ne by lia; apply lookup_insert_eq|]. assert (Hb : 0 <= blk ks D 0 <= 2 ^ D) by (split; [apply cnt_nonneg|apply blk_le; (done || lia)]).
      assert (2 ^ D < 2 ^ 31) by (apply Z.pow_lt_mono_r; lia).
      split; cbn [newRoot nodeIndex isLeftNode parent isMarked sumLeft sumRight discardLeft discardRight]; try (done || lia).
      * intros _. replace (D + 1 - 1) with D by lia. rewrite Z.mul_0_r. pose proof (blk_split ks D 0 ltac:(lia)) as Esp.
        rewrite (no_suml _ _ _ _ _ _ _ Hok), (no_sumr _ _ _ _ _ _ _ Hok) by lia. cbn [live]. unfold wrap. rewrite Z.mod_small by lia. lia.
      * intros _. symmetry. apply (blk_fresh n); [done|]. replace (D + 1 - 1) with D by lia. lia.
      * intros _ [Hl Hr]%andb_prop. replace (D + 1 - 1) with D by lia. apply dead_both; [lia|apply Hok; [lia|done]|apply Hok; [lia|done]].
    + destruct (Hnd i j) as (q & nq & Hq & Eq & Hnq); [lia|split; [done|]; intros Hx; specialize (Hd Hx); lia|].
      destruct (decide (i = D)) as [->|HiD].
      * assert (j = 0) as -> by lia. assert (q = p) as -> by (by eapply at_fun). exists p, (withParent (Some (brk s)) old). split; [apply Hup; [lia|done]|].
        split; [apply lookup_insert_eq|]. destruct Hok as [K1 K2 K3 K4 K5 K6 K7 K8 K9]. split; cbn; try (done || lia).
        intros _. exists (brk s). split; [done|]. apply Hat; [lia|by right].
      * exists q, nq. split; [apply Hup; [lia|done]|]. assert (q <> p) by (intros ->; destruct (sh_once _ _ _ Hs i D j 0 p); (done || lia)).
        split; [cbn [heap rooted withHeap]; rewrite !lookup_insert_ne; [done|pose proof (sh_old _ _ _ Hs i j q ltac:(lia) Hq); lia|done]|].
        destruct Hnq as [K1 K2 K3 K4 K5 K6 K7 K8 K9]. split; try (done || lia). intros _. destruct (K4 HiD) as (q' & E' & Hq'). exists q'. split; [done|]. apply Hup; [lia|done].
  - split; [rewrite upd_ne by lia; done|]. intros i Hi. destruct (decide (i = D + 1)) as [->|Hne].
    + rewrite upd_eq, (proj2 (Z.ltb_lt D (D + 1))) by lia. cbn. rewrite Z.div_small; [done|]. rewrite En. split; [lia|]. apply Z.pow_lt_mono_r; lia.
    + rewrite upd_ne by done. apply Hc. lia.
Qed.

End add.
End StackDistGrow.

(** ** The calculator gives the stack distance

    Leaves are added and removed with the invariant of the tree, so that the
    tree counts the addresses used since, like the naive stack it is checked
    against. *)

Module StackDistCorrect.
Import StackDist StackDistTree StackDistGrow.

(** ** One leaf *)

(** The sums on the way from a leaf to the root. *)
Lemma leaf_update s D c marks v v' k a nd is_new : shape s D c -> nodes s D c marks (fun _ => v) -> change k D v v' -> NoDup (live v) -> NoDup (live v') ->
  k < 2 ^ D -> k < c 0 -> at_ s 0 k a -> heap s !! a = Some nd -> blk (live v') 0 k = (if is_new : bool then 1 else 0) -> (is_new = false -> dead v' 0 k) ->
  exists s', updateSumsLeavesToRoot (Some a) is_new s = Done (if is_new then Infinity else cnt (live v') (k + 1) (2 ^ D), s') /\
    framed s s' /\ shape s' D c /\ nodes s' D c marks (fun _ => v') /\ tree s' !! O = tree s !! O /\ exists nd', heap s' !! a = Some nd' /\ isMarked nd' = isMarked nd.
Proof.
  intros Hs Hnd Hch N1 N2 Hk Hc0 Ha Eh Hblk Hdead. pose proof (sh_depth _ _ _ Hs) as HD.
  assert (Hk0 : 0 <= k) by apply Hch.
  destruct (Hnd 0 k) as (a' & nd' & Ha' & Eh' & Hok); [lia|split; [lia|intros Hx; destruct (ch_path _ _ _ _ Hch 0); [lia|by rewrite Z.pow_0_r, Z.div_1_r]]|].
  assert (a' = a) as -> by (by eapply at_fun). assert (nd' = nd) as -> by congruence. clear Ha' Eh'.
  set (x := if is_new then 1 else 0) in *. set (nd1 := withSums x (sumRight nd) nd).
  assert (Hok1 : nodeOK s D marks v' 0 (k / 2 ^ 0) nd1).
  { rewrite Z.pow_0_r, Z.div_1_r. destruct Hok as [K1 K2 K3 K4 K5 K6 K7 K8 K9]. split; cbn; try (done || lia). }
  assert (Hn1 : nodes (store a nd1 s) D c marks (upTo v v' (0 + 1))).
  { apply (write_node D c marks v v' k Hch); [done|lia| |by rewrite Z.pow_0_r, Z.div_1_r|done]. intros i j Hi. unfold upTo. rewrite (proj2 (Z.ltb_ge i 0)) by lia. by apply Hnd. }
  destruct (no_parent _ _ _ _ _ _ _ Hok) as (p & Epar & Hp); [lia|].
  assert (Ec : k / 2 ^ (1 - 1) = k) by (rewrite Z.sub_diag, Z.pow_0_r, Z.div_1_r; done).
  assert (Eend : blockEnd k (1 - 1) = k + 1) by (unfold blockEnd; rewrite Ec, Z.sub_diag, Z.pow_0_r; lia).
  assert (Hcnt : 0 <= cnt (live v') (k + 1) (2 ^ D) <= 2 ^ 31).
  { split; [apply cnt_nonneg|]. pose proof (cnt_le (live v') (k + 1) (2 ^ D) N2 ltac:(lia)). assert (2 ^ D <= 2 ^ 31) by (apply Z.pow_le_mono_r; lia). lia. }
  destruct (updateSum_ok D c marks v v' k Hch N1 N2 Hk (Z.to_nat (D - 1)) (length (tree s)) (store a nd1 s) 1 p 0 (negb is_new))
    as (s' & E & F & S' & N' & T' & L'); [done|pose proof (sh_tree _ _ _ Hs); lia|lia|by apply store_shape|exact Hn1| | | |lia|rewrite Eend; lia|].
  - replace (k / 2 ^ 1) with (k / 2) by (by rewrite Z.pow_1_r). exact Hp.
  - rewrite Z.pow_1_r. apply (sh_up _ _ _ Hs 0 k); lia.
  - rewrite Ec. intros Hx. apply Hdead. by destruct is_new.
  - rewrite Ec in E. rewrite Z.sub_diag in E. rewrite Hblk in E. exists s'. split.
    + unfold updateSumsLeavesToRoot. cbn [deref]. rewrite Eh. cbn [obind]. rewrite Epar, (no_left _ _ _ _ _ _ _ Hok). fold x in E.
      unfold nd1, x in *. destruct is_new; cbn [negb] in E |- *; rewrite E; cbn [obind]; [done|]. rewrite <-Eend. rewrite Z.sub_diag. done.
    + split; [eapply framed_trans; [apply framed_store|done]|]. split; [done|]. split; [done|]. split; [done|]. exists nd1. split; [|done].
      rewrite (L' k a) by exact Ha. cbn. apply lookup_insert_eq.
Qed.

(** A leaf that is not needed is deleted. *)
Lemma erase_leaf s D c marks v k a : shape s D c -> nodes s D c marks (fun _ => v) -> at_ s 0 k a -> dead v 0 k ->
  exists s', treeErase 0 k (free a s) = Done s' /\ framed s s' /\ shape s' D c /\ nodes s' D c marks (fun _ => v).
Proof.
  intros Hs Hnd Ha Hd. pose proof (sh_depth _ _ _ Hs). assert (Hs1 : shape (free a s) D c) by (destruct Hs; by split).
  destruct (treeErase_ok (free a s) D c 0 k Hs1) as (s' & E & F & Hh & Hat & _ & S'); [lia|]. exists s'. split; [done|].
  split; [eapply framed_trans; [|exact F]; exists (tree s), (delete a (heap s)); by destruct s|]. split; [done|].
  intros i j Hi Hn. destruct (Hnd i j Hi Hn) as (q & nq & Hq & Eq & Hok).
  assert (Hne : (i, j) <> (0, k)) by (intros [= -> ->]; destruct Hn as [_ Hx]; specialize (Hx Hd); lia).
  exists q, nq. split; [apply Hat; [lia|done]|]. split.
  - rewrite Hh. cbn. rewrite lookup_delete_ne; [done|]. intros ->. destruct (sh_once _ _ _ Hs i 0 j k q) as [-> ->]; [lia|lia|done|done|done].
  - eapply nodeOK_at; [|exact Hok]. intros HiD p Hp. apply Hat; [lia|]. split; [exact Hp|]. intros [=]. lia.
Qed.

(** ** Between accesses *)

(** [n] accesses were made, and the leaves [ks] are live. *)
Record resting (s : t) (n : Z) (ks : list Z) (marks : Z -> bool) (D : Z) (c : Z -> Z) : Prop := {
  rs_shape : shape s D c;
  rs_nodes : nodes s D c marks (fun _ => V n ks);
  rs_counts : counts n D (if n =? 0 then 0 else D) c;
  rs_index : index s = n;
  rs_range : 0 <= n < 2 ^ 31;
  rs_fresh : fresh_from n ks;
  rs_once : NoDup ks;
  rs_high : n <= 2 ^ D;
  rs_low : D = 1 \/ 2 ^ (D - 1) < n }.

Lemma isPowerOf2_pow D : 0 <= D <= 31 -> isPowerOf2 (2 ^ D) = true.
Proof.
  intros HD. assert (Hall : forallb (fun d => isPowerOf2 (2 ^ d)) (seqZ 0 32) = true) by (vm_compute; reflexivity).
  rewrite forallb_forall in Hall. apply Hall. apply list_elem_of_In. apply elem_of_seqZ. lia.
Qed.

Lemma power_at_depth n D : 1 <= D <= 31 -> 0 <= n <= 2 ^ D -> D = 1 \/ 2 ^ (D - 1) < n -> n mod 2 = 0 -> isPowerOf2 n = bool_decide (n = 2 ^ D).
Proof.
  intros HD Hn Hlow He. destruct (decide (n = 2 ^ D)) as [->|Hne]; [rewrite isPowerOf2_pow by lia; by rewrite bool_decide_eq_true_2|].
  rewrite bool_decide_eq_false_2 by done. destruct (isPowerOf2 n) eqn:E; [|done]. destruct (decide (n = 0)) as [->|]; [done|].
  assert (2 ^ D <= 2 ^ 31) by (apply Z.pow_le_mono_r; lia). apply isPowerOf2_log2 in E; [|lia]. pose proof (Z.log2_nonneg n). set (L := Z.log2 n) in *.
  assert (L < D) by (apply (Z.pow_lt_mono_r_iff 2); lia). destruct Hlow as [->|Hlow].
  - replace L with 0 in E by lia. rewrite E in He. done.
  - assert (D - 1 < L) by (apply (Z.pow_lt_mono_r_iff 2); lia). lia.
Qed.

(** After [updateTree] the nodes above the next leaf are there. *)
Lemma prepare_ok s n ks marks D c : resting s n ks marks D c -> exists s' D' c', (if index s mod 2 =? 0 then updateTree s else Done s) = Done s' /\
  regrown s s' /\ shape s' D' c' /\ nodes s' D' c' marks (fun _ => V n ks) /\ counts n D' 0 c' /\ n < 2 ^ D' /\ (D' = 1 \/ 2 ^ (D' - 1) <= n).
Proof.
  intros [Hs Hnd Hc Ei Hn Hf Ho Hhi Hlo]. pose proof (sh_depth _ _ _ Hs) as HD. pose proof (sh_tree _ _ _ Hs) as Ht. rewrite Ei. destruct (Z.eqb_spec (n mod 2) 0) as [He|He].
  - unfold updateTree, getTreeDepth. rewrite Ei. replace (Z.of_nat (length (tree s)) - 1) with D by lia. rewrite (power_at_depth n D) by (done || lia).
    case_bool_decide as En.
    + rewrite (proj2 (Z.eqb_neq n 0)) in Hc by (pose proof (Z.pow_pos_nonneg 2 D); lia).
      destruct (growRoot_ok marks n ks Hf Hn s D c) as (s1 & c1 & E1 & R1 & S1 & N1 & C1); [done..|]. rewrite E1. cbn [obind].
      replace (Z.of_nat (length (tree s1)) - 1 - 1) with D by (pose proof (sh_tree _ _ _ S1); lia).
      destruct (addAll_ok marks n ks Hf Hn (D + 1) (Z.to_nat D)) with (s := s1) (c := c1) as (s2 & c2 & E2 & R2 & S2 & N2 & C2); [|lia|done|done|by rewrite Z2Nat.id by lia|].
      { intros i Hi. rewrite En. replace (2 ^ D) with (2 ^ (D - i) * 2 ^ i) by (rewrite <-Z.pow_add_r by lia; f_equal; lia). apply Z_mod_mult. }
      exists s2, (D + 1), c2. split; [done|]. split; [by eapply regrown_trans|]. split; [done|]. split; [done|]. split; [done|]. rewrite En. replace (D + 1 - 1) with D by lia.
      split; [apply Z.pow_lt_mono_r; lia|by right].
    + assert (Hc' : counts n D (D - 1) c).
      { destruct (Z.eqb_spec n 0) as [->|]; [destruct Hlo as [->|Hlo]; [done|pose proof (Z.pow_pos_nonneg 2 (D - 1)); lia]|].
        apply counts_skip; [done|]. rewrite Z.mod_small by lia. done. }
      destruct (addDue_ok marks n ks Hf Hn D (Z.to_nat (D - 1))) with (s := s) (c := c) as (s2 & c2 & E2 & R2 & S2 & N2 & C2); [lia|done|done|done|by rewrite Z2Nat.id by lia|].
      exists s2, D, c2. split; [done|]. split; [done|]. split; [done|]. split; [done|]. split; [done|]. split; [lia|]. destruct Hlo; [by left|right; lia].
  - assert (n <> 0) by (intros ->; done). rewrite (proj2 (Z.eqb_neq n 0)) in Hc by done. exists s, D, c. split; [done|]. split; [apply regrown_refl|]. split; [done|]. split; [done|].
    split; [|split; [|destruct Hlo; [by left|right; lia]]].
    + destruct Hc as [Hc0 Hc]. split; [done|]. intros i Hi. rewrite (Hc i Hi). assert (Hodd : n mod 2 ^ i <> 0).
      { intros Hz. apply He. apply Z.mod_divide in Hz; [|apply Z.pow_nonzero; lia]. apply Z.mod_divide; [done|]. etrans; [|exact Hz]. exists (2 ^ (i - 1)). rewrite Z.mul_comm, <-Z.pow_succ_r by lia. f_equal. lia. }
      rewrite (proj2 (Z.eqb_neq _ _) Hodd), !orb_true_r. done.
    + destruct (decide (n = 2 ^ D)) as [E|]; [|lia]. destruct He. rewrite E. replace (2 ^ D) with (2 ^ (D - 1) * 2); [apply Z_mod_mult|].
      rewrite Z.mul_comm, <-Z.pow_succ_r by lia. f_equal. lia.
Qed.

(** ** Adding the leaf of an access *)

Lemma add_change n ks D : 0 <= n -> fresh_from n ks -> change n D (V n ks) (V (n + 1) (ks ++ [n])).
Proof.
  intros Hn Hf. split; [done|cbn; lia| |intros i Hi; by apply filling_alive; lia]. intros a b Hab. cbn [live]. rewrite cnt_app.
  rewrite (cnt_out [n]); [lia|]. intros k ->%list_elem_of_singleton. done.
Qed.

Lemma leaf_placed s D c n nd p : shape s D c -> counts n D 0 c -> 0 <= n < 2 ^ 31 -> at_ s 1 (n / 2) p -> nd = withPlace n (Some p) (n mod 2 =? 0) newNode -> index s = n ->
  (let isLeft := index s mod 2 =? 0 in
   let! n0 := vec_get (nextIndex s) 0 in
   let! next := vec_set (nextIndex s) 0 (wrap 64 (n0 + 1)) in
   let s := withNext next s in
   let! n1 := vec_get (nextIndex s) 1 in
   let! (p, s) := treeGet 1 (wrap 64 (n1 - 1)) s in
   let (a, s) := alloc (withPlace (index s) p isLeft newNode) s in
   treeSet 0 (index s) (Some a) s) = placed 0 n nd s.
Proof.
  intros Hs [Hc0 Hc] Hn Hp -> Ei. pose proof (sh_depth _ _ _ Hs) as HD. pose proof (sh_len _ _ _ Hs) as Hl. cbv zeta.
  rewrite (proj2 (vec_get_Done (nextIndex s) 0 n)) by (split; [lia|rewrite <-Hc0; apply Hs; lia]). cbn [obind].
  assert (W : wrap 64 (n + 1) = n + 1) by (apply Z.mod_small; lia). rewrite W. unfold placed. rewrite vec_set_in by lia. cbn [obind nextIndex withNext].
  assert (E1 : c 1 = n / 2 + 1) by (rewrite Hc by lia; rewrite Z.pow_1_r; done).
  rewrite (proj2 (vec_get_Done (<[Z.to_nat 0:=n + 1]> (nextIndex s)) 1 (n / 2 + 1)));
    [|split; [lia|rewrite list_lookup_insert_ne by lia; rewrite <-E1; apply Hs; lia]]. cbn [obind].
  assert (0 <= n / 2 <= n) by (split; [apply Z.div_pos|apply Z.div_le_upper_bound]; lia).
  assert (W1 : wrap 64 (n / 2 + 1 - 1) = n / 2) by (unfold wrap; rewrite Z.mod_small by lia; lia). rewrite W1.
  assert (G : treeGet 1 (n / 2) (withNext (<[Z.to_nat 0:=n + 1]> (nextIndex s)) s) = Done (Some p, withNext (<[Z.to_nat 0:=n + 1]> (nextIndex s)) s)).
  { destruct Hp as (l & El & Ep). unfold treeGet. cbn [tree withNext]. rewrite (proj2 (vec_get_Done (tree s) 1 l)) by (split; [lia|done]). cbn [obind]. by rewrite Ep. }
  rewrite G. cbn [obind index withNext alloc withHeap]. by rewrite Ei.
Qed.

Lemma nodes_marks s D c marks marks' v : (forall j, 0 <= j < c 0 -> marks' j = marks j) -> nodes s D c marks v -> nodes s D c marks' v.
Proof.
  intros Hm Hnd i j Hi Hn. destruct (Hnd i j Hi Hn) as (p & nd & Hp & Ep & Hok). exists p, nd. split; [done|]. split; [done|].
  destruct Hok as [K1 K2 K3 K4 K5 K6 K7 K8 K9]. split; try done. intros ->. rewrite Hm by apply Hn. by apply K5.
Qed.

Lemma counts_next n D c : 0 <= n -> counts n D 0 c -> counts (n + 1) D D (upd c 0 (n + 1)).
Proof.
  intros Hn [Hc0 Hc]. split; [apply upd_eq|]. intros i Hi. rewrite upd_ne, Hc by lia. rewrite (proj2 (Z.ltb_lt 0 i)), (proj2 (Z.ltb_ge D i)) by lia. cbn [orb].
  assert (H2 : 0 < 2 ^ i) by (apply Z.pow_pos_nonneg; lia). pose proof (Z.div_mod n (2 ^ i) ltac:(lia)). pose proof (Z.mod_pos_bound n (2 ^ i) H2).
  destruct (decide (n mod 2 ^ i + 1 = 2 ^ i)) as [E|E].
  - assert (Eq : (n + 1) / 2 ^ i = n / 2 ^ i + 1) by (symmetry; apply (Z.div_unique _ _ _ 0); lia).
    assert (Er : (n + 1) mod 2 ^ i = 0) by (symmetry; apply (Z.mod_unique _ _ (n / 2 ^ i + 1)); lia). rewrite Eq, Er. cbn. lia.
  - assert (Eq : (n + 1) / 2 ^ i = n / 2 ^ i) by (symmetry; apply (Z.div_unique _ _ _ (n mod 2 ^ i + 1)); lia).
    assert (Er : (n + 1) mod 2 ^ i = n mod 2 ^ i + 1) by (symmetry; apply (Z.mod_unique _ _ (n / 2 ^ i)); lia).
    rewrite Eq, Er, (proj2 (Z.eqb_neq _ 0)) by lia. done.
Qed.

Definition mark1 (marks : Z -> bool) (k : Z) (b : bool) : Z -> bool := fun j => if j =? k then b else marks j.

Lemma addLeaf_ok s n ks marks D c : resting s n ks marks D c -> n + 1 < 2 ^ 31 -> exists s' D' c', addLeaf s = Done s' /\ regrown s s' /\
  resting (withIndex (n + 1) s') (n + 1) (ks ++ [n]) (mark1 marks n false) D' c'.
Proof.
  intros Hr Hn1. destruct (prepare_ok s n ks marks D c Hr) as (s1 & D1 & c1 & E1 & R1 & S1 & N1 & C1 & Hhi & Hlo).
  pose proof (rs_range _ _ _ _ _ _ Hr) as Hn. pose proof (rs_fresh _ _ _ _ _ _ Hr) as Hf. pose proof (rs_once _ _ _ _ _ _ Hr) as Ho.
  assert (Ei : index s1 = n) by (destruct R1 as (? & ? & ? & ? & ->); apply Hr). pose proof (sh_depth _ _ _ S1) as HD.
  assert (Hc1 : c1 1 = n / 2 + 1) by (rewrite (proj2 C1) by lia; rewrite Z.pow_1_r; done).
  destruct (N1 1 (n / 2)) as (p & np & Hp & _ & _).
  { lia. } { split; [rewrite Hc1; pose proof (Z.div_pos n 2); lia|]. intros Hx. replace (n / 2) with (n / 2 ^ 1) in Hx by (by rewrite Z.pow_1_r). by apply filling_alive in Hx. }
  set (nd := withPlace n (Some p) (n mod 2 =? 0) newNode).
  pose proof (leaf_placed s1 D1 c1 n nd p S1 C1 Hn Hp eq_refl Ei) as EP. destruct C1 as [C10 C1].
  destruct (placed_ok s1 D1 c1 0 n nd) as (s2 & E2 & R2 & S2 & H2 & A2 & O2); [done|lia|done|lia|change (0 + 1) with 1; rewrite Hc1; lia|].
  assert (N2 : nodes s2 D1 (upd c1 0 (n + 1)) (mark1 marks n false) (fun _ => V n ks)).
  { apply (placed_nodes (mark1 marks n false) s1 s2 D1 c1 0 n nd (fun _ => V n ks)); try done; [lia| |].
    - eapply nodes_marks; [|exact N1]. intros j Hj. unfold mark1. rewrite (proj2 (Z.eqb_neq j n)) by lia. done.
    - split; cbn; try (done || lia). + intros _. exists p. split; [done|]. apply O2; [lia|intros [=]|done]. + intros _. unfold mark1. by rewrite Z.eqb_refl. }
  assert (Hdup : NoDup (ks ++ [n])) by (apply NoDup_app; split; [done|]; split; [intros x Hx ->%list_elem_of_singleton; specialize (Hf n Hx); lia|apply NoDup_singleton]).
  assert (Hblk : blk (ks ++ [n]) 0 n = 1).
  { unfold blk. rewrite Z.pow_0_r, !Z.mul_1_r, cnt_app, cnt_out by (intros x Hx; specialize (Hf x Hx); lia). unfold cnt. rewrite filter_cons, decide_True by lia. done. }
  destruct (leaf_update s2 D1 (upd c1 0 (n + 1)) (mark1 marks n false) (V n ks) (V (n + 1) (ks ++ [n])) n (brk s1) nd true) as (s3 & E3 & F3 & S3 & N3 & _ & _);
    [done|done|apply add_change; [lia|done]|done|done|lia|rewrite upd_eq; lia|done|by rewrite H2, lookup_insert_eq|done|done|].
  exists s3, D1, (upd c1 0 (n + 1)). split; [|split].
  - unfold addLeaf. rewrite E1. cbn [obind]. revert EP. cbv zeta. intros EP. destruct (vec_get (nextIndex s1) 0) as [n0| |] eqn:G0; cbn [obind] in EP |- *; [|congruence..].
    destruct (vec_set (nextIndex s1) 0 _) as [nx| |]; cbn [obind] in EP |- *; [|congruence..]. destruct (vec_get (nextIndex (withNext nx s1)) 1); cbn [obind] in EP |- *; [|congruence..].
    destruct (treeGet 1 _ (withNext nx s1)) as [[p' s1']| |]; cbn [obind] in EP |- *; [|congruence..]. destruct (alloc _ s1') as [a' s1'']. rewrite EP, E2. cbn [obind].
    assert (Ei2 : index s2 = n) by (destruct R2 as (? & ? & ? & ? & ->); exact Ei). rewrite Ei2, (treeGet_at s2 D1 _ 0 n (brk s1)) by (done || lia). cbn [obind]. by rewrite E3.
  - eapply regrown_trans; [exact R1|]. eapply regrown_trans; [exact R2|]. by apply regrown_framed.
  - assert (S4 : shape (withIndex (n + 1) s3) D1 (upd c1 0 (n + 1))) by (destruct S3 as [Q1 Q2 Q3 Q4 Q5 Q6 Q7]; by split).
    split; [exact S4| | |done|lia| |done|lia|destruct Hlo; [by left|right; lia]].
    + intros i j Hi Hnn. destruct (N3 i j Hi Hnn) as (q & nq & Hq & Eq & Hok). exists q, nq. split; [exact Hq|]. split; [exact Eq|]. eapply (nodeOK_at s3); [|exact Hok]. by intros.
    + rewrite (proj2 (Z.eqb_neq (n + 1) 0)) by lia. apply counts_next; [lia|by split].
    + intros x [Hx|Hx%list_elem_of_singleton]%elem_of_app; [specialize (Hf x Hx); lia|lia].
Qed.

(** ** Removing a leaf *)

Definition without (k : Z) (ks : list Z) : list Z := filter (fun x => x <> k) ks.

Lemma live_path n ks k i : k ∈ ks -> 0 <= i -> ~ dead (V n ks) i (k / 2 ^ i).
Proof. intros Hk Hi [_ Hz]. pose proof (path_in k i Hi) as Hp. pose proof (cnt_in ks _ _ k Hk Hp). cbn [live] in Hz. unfold blk in Hz. lia. Qed.

Lemma cnt_without ks k a b : ~ a <= k < b -> cnt (without k ks) a b = cnt ks a b.
Proof.
  intros Hk. unfold cnt, without. induction ks as [|x ks IH]; [done|]. rewrite !(filter_cons _ x). destruct (decide (x <> k)) as [Hx|Hx].
  - rewrite filter_cons. case_decide; cbn [length]; lia.
  - rewrite (decide_False (P := a <= x < b)) by lia. exact IH.
Qed.

Lemma remove_change n ks k D : k ∈ ks -> 0 <= k -> change k D (V n ks) (V n (without k ks)).
Proof.
  intros Hk H0. split; [done|done| |intros i Hi; by apply live_path; [|lia]]. intros a b Hab. by apply cnt_without.
Qed.

Lemma removed_dead n ks k : 0 <= k < n -> dead (V n (without k ks)) 0 k.
Proof.
  intros Hk. split; [cbn [made]; rewrite Z.pow_0_r; lia|]. cbn [live]. apply cnt_out. rewrite Z.pow_0_r. intros x [Hx _]%list_elem_of_filter. lia.
Qed.

Lemma leaf_there s n ks marks D c k : resting s n ks marks D c -> k ∈ ks -> exists a nd, at_ s 0 k a /\ heap s !! a = Some nd /\ nodeOK s D marks (V n ks) 0 k nd /\ k < c 0 /\ 0 <= k < n.
Proof.
  intros Hr Hk. pose proof (rs_fresh _ _ _ _ _ _ Hr k Hk) as Hkn. pose proof (sh_depth _ _ _ (rs_shape _ _ _ _ _ _ Hr)).
  assert (Hc : k < c 0) by (rewrite (proj1 (rs_counts _ _ _ _ _ _ Hr)); lia).
  destruct (rs_nodes _ _ _ _ _ _ Hr 0 k) as (a & nd & Ha & Eh & Hok); [lia| |by exists a, nd]. split; [lia|]. intros Hx.
  destruct (live_path n ks k 0 Hk ltac:(lia)). by rewrite Z.pow_0_r, Z.div_1_r.
Qed.

Lemma removeLeaf_ok s n ks marks D c k : resting s n ks marks D c -> k ∈ ks ->
  exists s', removeLeaf k s = Done (cnt ks (k + 1) (2 ^ D), marks k, s') /\ framed s s' /\ resting s' n (without k ks) marks D c.
Proof.
  intros Hr Hk. destruct (leaf_there _ _ _ _ _ _ _ Hr Hk) as (a & nd & Ha & Eh & Hok & Hc & Hkn). pose proof Hr as [Hs Hnd Hcn Ei Hn Hf Ho Hhi Hlo].
  pose proof (sh_depth _ _ _ Hs) as HD.
  assert (Hb0 : blk (without k ks) 0 k = 0) by apply (removed_dead n ks k Hkn).
  destruct (leaf_update s D c marks (V n ks) (V n (without k ks)) k a nd false) as (s1 & E1 & F1 & S1 & N1 & T1 & nd' & Eh' & Em);
    [done|done|by apply remove_change; [|lia]|done|by apply NoDup_filter|lia|done|done|done|done|intros _; by apply removed_dead|].
  assert (Ha1 : at_ s1 0 k a). { destruct Ha as (l & El & Hl). exists l. split; [|done]. change (tree s1 !! O = Some l). by rewrite T1. }
  destruct (erase_leaf s1 D c marks (V n (without k ks)) k a S1 N1 Ha1 (removed_dead n ks k Hkn)) as (s2 & E2 & F2 & S2 & N2).
  exists s2. split; [|split; [by eapply framed_trans|]].
  - unfold removeLeaf. rewrite (treeGet_at s D c 0 k a) by (done || lia). cbn [obind]. rewrite E1. cbn [obind]. rewrite (treeGet_at s1 D c 0 k a) by (done || lia).
    cbn [obind deref]. rewrite Eh'. cbn [obind]. rewrite E2. cbn [obind live]. rewrite cnt_without by lia. by rewrite Em, (no_mark _ _ _ _ _ _ _ Hok).
  - split; try done.
    + destruct F1 as (? & ? & ->), F2 as (? & ? & ->). exact Ei.
    + intros x [_ Hx]%list_elem_of_filter. by apply Hf.
    + by apply NoDup_filter.
Qed.

(** ** Looking at a leaf *)

Lemma getSum_ok n ks marks D c k (Hk : k ∈ ks) (Hk2 : k < 2 ^ D) (Hks : NoDup ks) s : shape s D c -> nodes s D c marks (fun _ => V n ks) -> 0 <= k -> forall m fuel i p sd,
  m = Z.to_nat (D - i) -> (m < fuel)%nat -> 1 <= i <= D -> at_ s i (k / 2 ^ i) p -> k / 2 ^ i < c i ->
  0 <= sd -> sd + cnt ks (blockEnd k (i - 1)) (2 ^ D) < 2 ^ 64 ->
  getSum fuel (Some p) (k / 2 ^ (i - 1) mod 2 =? 0) sd s = Done (sd + cnt ks (blockEnd k (i - 1)) (2 ^ D)).
Proof.
  intros Hs Hnd H0. assert (Hch : change k D (V n ks) (V n ks)) by (split; [done|done|done|intros i Hi; by apply live_path; [|lia]]).
  induction m as [m IH] using lt_wf_ind. intros fuel i p sd Em Hf Hi Hp Hc Hsd Hov. destruct fuel as [|fuel]; [lia|]. cbn [getSum].
  destruct (Hnd i (k / 2 ^ i)) as (q & nd & Hq & Eq & Hok); [lia|eapply needed_path; [done|lia|done]|]. assert (q = p) as -> by (by eapply at_fun).
  unfold deref. rewrite Eq. cbn [obind]. pose proof (right_of_path D (V n ks) k Hk2 i Hi) as Hright. cbn [live] in Hright. rewrite Hright in *.
  pose proof (cnt_nonneg ks (blockEnd k i) (2 ^ D)). assert (Hb : 0 <= blk ks (i - 1) (2 * (k / 2 ^ i) + 1)) by apply cnt_nonneg.
  assert (Esd : (if k / 2 ^ (i - 1) mod 2 =? 0 then wrap 64 (sd + sumRight nd) else sd) = sd + (if k / 2 ^ (i - 1) mod 2 =? 0 then blk ks (i - 1) (2 * (k / 2 ^ i) + 1) else 0)).
  { destruct (_ =? 0); [|lia]. rewrite (no_sumr _ _ _ _ _ _ _ Hok) by lia. apply Z.mod_small. cbn [live]. lia. }
  rewrite Esd. set (sd' := sd + _). destruct (decide (i = D)) as [EiD|HiD].
  - rewrite (no_root _ _ _ _ _ _ _ Hok EiD). f_equal. unfold sd'. assert (E0 : cnt ks (blockEnd k i) (2 ^ D) = 0); [|lia].
    apply cnt_out. intros x _. subst i. unfold blockEnd. rewrite Z.div_small by lia. lia.
  - destruct (no_parent _ _ _ _ _ _ _ Hok HiD) as (p' & Epar & Hp'). rewrite path_up in Hp' by lia. rewrite Epar, (no_left _ _ _ _ _ _ _ Hok).
    pose proof (IH (m - 1)%nat ltac:(lia) fuel (i + 1) p' sd' ltac:(lia) ltac:(lia) ltac:(lia) Hp') as IH'. replace (i + 1 - 1) with i in IH' by lia.
    rewrite IH'; [f_equal; unfold sd'; lia| |unfold sd'; destruct (_ =? 0); lia|unfold sd'; lia]. rewrite <-path_up by lia. apply (sh_up _ _ _ Hs); lia.
Qed.

(** The leaf is marked and its distance is read. *)
Lemma look_ok s n ks marks D c k mark : resting s n ks marks D c -> k ∈ ks ->
  exists a nd, treeGet 0 k s = Done (Some a, s) /\ deref (Some a) s = Done (a, nd) /\ isMarked nd = marks k /\
    let s' := store a (withMark mark nd) s in
    getSumsLeavesToRoot (Some a) s' = Done (cnt ks (k + 1) (2 ^ D)) /\ resting s' n ks (mark1 marks k mark) D c.
Proof.
  intros Hr Hk. destruct (leaf_there _ _ _ _ _ _ _ Hr Hk) as (a & nd & Ha & Eh & Hok & Hc & Hkn). pose proof Hr as [Hs Hnd Hcn Ei Hn Hf Ho Hhi Hlo].
  pose proof (sh_depth _ _ _ Hs) as HD. exists a, nd. split; [eapply treeGet_at; (done || lia)|]. split; [unfold deref; by rewrite Eh|]. split; [by apply Hok|]. intros s'.
  assert (Hs' : shape s' D c) by (by apply store_shape).
  assert (Hnd' : nodes s' D c (mark1 marks k mark) (fun _ => V n ks)).
  { intros i j Hi Hnn. destruct (Hnd i j Hi Hnn) as (q & nq & Hq & Eq & Hoq). destruct (decide ((i, j) = (0, k))) as [[= -> ->]|Hne].
    - exists a, (withMark mark nd). split; [done|]. split; [apply lookup_insert_eq|]. destruct Hok as [K1 K2 K3 K4 K5 K6 K7 K8 K9]. split; cbn; try (done || lia).
      intros _. unfold mark1. by rewrite Z.eqb_refl.
    - exists q, nq. split; [done|]. split; [cbn; rewrite lookup_insert_ne; [done|]; intros ->; destruct (sh_once _ _ _ Hs i 0 j k q) as [-> ->]; (done || lia)|].
      destruct Hoq as [K1 K2 K3 K4 K5 K6 K7 K8 K9]. split; try done. intros ->. unfold mark1. rewrite (proj2 (Z.eqb_neq j k)) by congruence. by apply K5. }
  split; [|by split]. destruct (no_parent _ _ _ _ _ _ _ Hok) as (p & Epar & Hp); [lia|].
  assert (Ec : k / 2 ^ (1 - 1) = k) by (rewrite Z.sub_diag, Z.pow_0_r, Z.div_1_r; done).
  assert (Eend : blockEnd k (1 - 1) = k + 1) by (unfold blockEnd; rewrite Ec, Z.sub_diag, Z.pow_0_r; lia).
  assert (2 ^ D <= 2 ^ 31) by (apply Z.pow_le_mono_r; lia). pose proof (cnt_le ks (k + 1) (2 ^ D) Ho ltac:(lia)).
  unfold getSumsLeavesToRoot, deref. replace (heap s' !! a) with (Some (withMark mark nd)) by (symmetry; apply lookup_insert_eq). cbn [obind parent withMark isLeftNode].
  rewrite Epar, (no_left _ _ _ _ _ _ _ Hok).
  pose proof (getSum_ok n ks (mark1 marks k mark) D c k Hk ltac:(lia) Ho s' Hs' Hnd' ltac:(lia) (Z.to_nat (D - 1)) (length (tree s')) 1 p 0 eq_refl) as G.
  rewrite Ec, Eend in G. rewrite G; [done|pose proof (sh_tree _ _ _ Hs'); lia|lia|by rewrite Z.pow_1_r|rewrite Z.pow_1_r; apply (sh_up _ _ _ Hs 0 k); lia|lia|lia].
Qed.

End StackDistCorrect.
