(* ===== verification/StackDistRun.v ===== *)
(** * Runs of the stack-distance calculator

    The calculator refines a stack of marked addresses, and the distance it
    returns is the number of distinct addresses used since. *)

From Stdlib Require Import ZArith Lia Sorting.Sorted.
From stdpp Require Import base gmap fin_sets numbers list sorting.
From S2P Require Import Prelude Bits MemCmd StackDist StackDistTree StackDistGrow.

#[local] Open Scope Z_scope.
#[local] Open Scope outcome_scope.

Module StackDistRun.
Import StackDist StackDistTree StackDistGrow StackDistCorrect.

(** ** The reference *)

(** A stack of addresses, the last used first, each with its mark. *)
Abbreviation refStack := (list (Z * bool)).

Fixpoint depthOf (a : Z) (l : refStack) : option (nat * bool) :=
  match l with
  | [] => None
  | (b, m) :: l => if b =? a then Some (O, m) else match depthOf a l with Some (d, m) => Some (S d, m) | None => None end
  end.

Inductive op := Touch (a : Z) | Drop (a : Z) | Look (a : Z) (mark : bool).

Definition addrOf (o : op) : Z := match o with Touch a | Drop a | Look a _ => a end.
Definition others (a : Z) (l : refStack) : refStack := filter (fun x => x.1 <> a) l.
Definition refStep (o : op) (l : refStack) : refStack :=
  match o with
  | Touch a => (a, false) :: others a l
  | Drop a => others a l
  | Look a m => (fun x => if x.1 =? a then (a, m) else x) <$> l
  end.
Definition refResult (o : op) (l : refStack) : Z * bool :=
  match depthOf (addrOf o) l with Some (d, m) => (Z.of_nat d, m) | None => (Infinity, false) end.

Definition step (o : op) (s : t) : outcome (Z * bool * t) :=
  match o with
  | Touch a => calcStackDistAndUpdate a true s
  | Drop a => calcStackDistAndUpdate a false s
  | Look a m => calcStackDist a m s
  end.

(** ** The relation *)

Record entry := mkEntry { e_addr : Z; e_leaf : Z; e_mark : bool }.

(** The entries of the calculator, the oldest first. *)
Record holds (s : t) (n : Z) (es : list entry) : Prop := {
  ho_tree : exists marks D c, resting s n (e_leaf <$> es) marks D c /\ forall e, e ∈ es -> marks (e_leaf e) = e_mark e;
  ho_sorted : StronglySorted Z.lt (e_leaf <$> es);
  ho_once : NoDup (e_addr <$> es);
  ho_map : forall a k, aiMap s !! a = Some k <-> exists e, e ∈ es /\ e_addr e = a /\ e_leaf e = k;
  ho_stack : verifyStack s = true -> stack s = e_addr <$> es }.

Definition abstraction (es : list entry) : refStack := rev ((fun e => (e_addr e, e_mark e)) <$> es).

(** The distance of an entry is the number of entries after it. *)
Lemma entry_distance pre e post n : StronglySorted Z.lt (e_leaf <$> pre ++ e :: post) -> (forall x, x ∈ pre ++ e :: post -> e_leaf x < n) ->
  cnt (e_leaf <$> pre ++ e :: post) (e_leaf e + 1) n = Z.of_nat (length post).
Proof.
  intros Hs Hn. rewrite fmap_app, fmap_cons in *. apply StronglySorted_app in Hs as (Hpre & _ & Hs). apply StronglySorted_cons in Hs as [Hpost _].
  rewrite cnt_app, cnt_out; [|intros k Hk; specialize (Hpre k (e_leaf e) Hk ltac:(left)); lia]. unfold cnt. rewrite filter_cons, decide_False by lia.
  rewrite list_filter_all; [by rewrite length_fmap|]. apply Forall_forall. intros k Hk. rewrite Forall_forall in Hpost. specialize (Hpost k Hk).
  apply list_elem_of_fmap in Hk as (x & -> & Hx). specialize (Hn x ltac:(apply elem_of_app; right; by right)). lia.
Qed.

Lemma sorted_without pre e post : StronglySorted Z.lt (e_leaf <$> pre ++ e :: post) ->
  without (e_leaf e) (e_leaf <$> pre ++ e :: post) = e_leaf <$> pre ++ post.
Proof.
  intros Hs. rewrite !fmap_app, fmap_cons in *. apply StronglySorted_app in Hs as (Hpre & _ & Hs). apply StronglySorted_cons in Hs as [Hpost _].
  unfold without. rewrite filter_app, filter_cons, decide_False by congruence. rewrite !list_filter_all; [done|..]; apply Forall_forall.
  - intros k Hk. rewrite Forall_forall in Hpost. specialize (Hpost k Hk). lia.
  - intros k Hk. specialize (Hpre k (e_leaf e) Hk ltac:(left)). lia.
Qed.

Lemma depthOf_middle a l1 m l2 : a ∉ (fst <$> l1) -> depthOf a (l1 ++ (a, m) :: l2) = Some (length l1, m).
Proof.
  induction l1 as [|[b x] l1 IH]; intros Hn; cbn; [by rewrite Z.eqb_refl|]. rewrite fmap_cons, not_elem_of_cons in Hn. destruct Hn as [Hb Hn].
  rewrite (proj2 (Z.eqb_neq b a)) by (cbn in Hb; congruence). by rewrite IH.
Qed.

Lemma depthOf_none a l : a ∉ (fst <$> l) -> depthOf a l = None.
Proof.
  induction l as [|[b x] l IH]; intros Hn; cbn; [done|]. rewrite fmap_cons, not_elem_of_cons in Hn. destruct Hn as [Hb Hn].
  rewrite (proj2 (Z.eqb_neq b a)) by (cbn in Hb; congruence). by rewrite IH.
Qed.

Lemma fromTop_middle a l1 l2 d : a ∉ l1 -> fromTop a (l1 ++ a :: l2) d = Some (d + Z.of_nat (length l1)).
Proof.
  revert d. induction l1 as [|b l1 IH]; intros d Hn; cbn [app fromTop length]; [rewrite Z.eqb_refl; f_equal; lia|]. apply not_elem_of_cons in Hn as [Hb Hn].
  rewrite (proj2 (Z.eqb_neq b a)) by congruence. rewrite IH by done. f_equal. lia.
Qed.

Lemma fromTop_none a l d : a ∉ l -> fromTop a l d = None.
Proof.
  revert d. induction l as [|b l IH]; intros d Hn; [done|]. apply not_elem_of_cons in Hn as [Hb Hn]. cbn. rewrite (proj2 (Z.eqb_neq b a)) by congruence. by apply IH.
Qed.

Lemma abstraction_addrs es : fst <$> abstraction es = rev (e_addr <$> es).
Proof. unfold abstraction. induction es as [|e es IH]; [done|]. cbn. by rewrite fmap_app, IH. Qed.

(** ** Fields that do not matter to the tree *)

(** The tree is the same. *)
Definition sameTree (s s' : t) : Prop := tree s' = tree s /\ nextIndex s' = nextIndex s /\ heap s' = heap s /\ brk s' = brk s.

Lemma same_shape s s' D c : sameTree s s' -> shape s D c -> shape s' D c.
Proof.
  intros (Et & En & Eh & Eb) [H1 H2 H3 H4 H5 H6 H7]. assert (Hat : forall i j p, at_ s' i j p -> at_ s i j p) by (intros i j p; unfold at_; by rewrite Et).
  split; rewrite ?Et, ?En, ?Eb; try done.
  - intros i i' j j' p Hi Hi' Ha Ha'. eapply H6; [done|done|by apply Hat|by apply Hat].
  - intros i j p Hi Ha. eapply H7; [done|by apply Hat].
Qed.

Lemma same_nodes s s' D c marks v : sameTree s s' -> nodes s D c marks v -> nodes s' D c marks v.
Proof.
  intros (Et & En & Eh & Eb) Hn i j Hi Hnd. assert (Hat : forall i j p, at_ s i j p -> at_ s' i j p) by (intros i' j' p; unfold at_; by rewrite Et).
  destruct (Hn i j Hi Hnd) as (p & nd & Hp & Ep & Hok). exists p, nd. split; [by apply Hat|]. split; [by rewrite Eh|]. eapply nodeOK_at; [|exact Hok]. intros _ q. apply Hat.
Qed.

Lemma same_resting s s' n ks marks D c : sameTree s s' -> index s' = n -> resting s n ks marks D c -> resting s' n ks marks D c.
Proof. intros Hst Hi [H1 H2 H3 H4 H5 H6 H7 H8 H9]. split; try done; [by eapply same_shape|by eapply same_nodes]. Qed.

(** ** The sanity check *)

Lemma climb_ok s D c marks n ks k : shape s D c -> nodes s D c marks (fun _ => V n ks) -> k ∈ ks -> 0 <= k -> forall m i p, 1 <= i -> i + Z.of_nat m <= D ->
  at_ s i (k / 2 ^ i) p -> k / 2 ^ i < c i ->
  exists p', climb m (Some p) s = Done (Some p') /\ at_ s (i + Z.of_nat m) (k / 2 ^ (i + Z.of_nat m)) p' /\ k / 2 ^ (i + Z.of_nat m) < c (i + Z.of_nat m).
Proof.
  intros Hs Hnd Hk H0. assert (Hch : change k D (V n ks) (V n ks)) by (split; [done|done|done|intros i Hi; by apply live_path; [|lia]]).
  induction m as [|m IH]; intros i p Hi Hm Hp Hc; [exists p; rewrite Z.add_0_r; done|].
  destruct (Hnd i (k / 2 ^ i)) as (q & nd & Hq & Eq & Hok); [lia|eapply needed_path; [done|lia|done]|]. assert (q = p) as -> by (by eapply at_fun).
  destruct (no_parent _ _ _ _ _ _ _ Hok) as (p1 & Epar & Hp1); [lia|]. rewrite path_up in Hp1 by lia.
  destruct (IH (i + 1) p1) as (p' & E & Hp' & Hc'); [lia|lia|done|rewrite <-path_up by lia; apply (sh_up _ _ _ Hs); lia|].
  replace (i + 1 + Z.of_nat m) with (i + Z.of_nat (S m)) in * by lia. exists p'. split; [|done]. cbn [climb deref]. rewrite Eq. cbn [obind]. by rewrite Epar.
Qed.

Lemma sanity_ok s n ks marks D c k a : shape s D c -> nodes s D c marks (fun _ => V n ks) -> k ∈ ks -> 0 <= k < 2 ^ D -> k < c 0 -> at_ s 0 k a ->
  sanityCheckTree (Some a) s = Done tt.
Proof.
  intros Hs Hnd Hk H0 Hc Ha. pose proof (sh_depth _ _ _ Hs) as HD. pose proof (sh_tree _ _ _ Hs) as Ht.
  assert (Hch : change k D (V n ks) (V n ks)) by (split; [lia|done|done|intros i Hi; by apply live_path; [|lia]]).
  assert (E1 : k / 2 ^ 0 = k) by (by rewrite Z.pow_0_r, Z.div_1_r).
  destruct (Hnd 0 k) as (a' & nd & Ha' & Eh & Hok); [lia|rewrite <-E1; eapply needed_path; [done|lia|by rewrite E1]|]. assert (a' = a) as -> by (by eapply at_fun).
  unfold sanityCheckTree. cbn [deref]. rewrite Eh. cbn [obind]. destruct (no_parent _ _ _ _ _ _ _ Hok) as (p & Epar & Hp); [lia|]. rewrite Epar.
  unfold getTreeDepth. replace (Z.of_nat (length (tree s)) - 1 - 1) with (D - 1) by lia.
  destruct (climb_ok s D c marks n ks k Hs Hnd Hk ltac:(lia) (Z.to_nat (D - 1)) 1 p) as (p' & E & Hp' & Hc'); [lia|lia|by rewrite Z.pow_1_r|rewrite Z.pow_1_r; apply (sh_up _ _ _ Hs 0 k); lia|].
  rewrite E. cbn [obind deref]. replace (1 + Z.of_nat (Z.to_nat (D - 1))) with D in * by lia.
  destruct (Hnd D (k / 2 ^ D)) as (q & nr & Hq & Eq & Hor); [lia|eapply needed_path; [done|lia|done]|]. assert (q = p') as -> by (by eapply at_fun).
  rewrite Eq. cbn [obind]. by rewrite (no_root _ _ _ _ _ _ _ Hor).
Qed.

(** ** Entries *)

(** An address is in no entry, or in one. *)
Lemma find_entry s n es a : holds s n es ->
  (aiMap s !! a = None /\ a ∉ (e_addr <$> es)) \/
  exists pre e post, es = pre ++ e :: post /\ e_addr e = a /\ aiMap s !! a = Some (e_leaf e) /\ a ∉ (e_addr <$> pre) /\ a ∉ (e_addr <$> post).
Proof.
  intros Hh. destruct (aiMap s !! a) as [k|] eqn:E.
  - right. pose proof E as E'. apply (ho_map _ _ _ Hh) in E' as (e & He & <- & <-). apply list_elem_of_split in He as (pre & post & Ees). exists pre, e, post.
    pose proof (ho_once _ _ _ Hh) as Hnd. rewrite Ees, fmap_app, fmap_cons in Hnd. apply NoDup_app in Hnd as (_ & Hd & [Hpost _]%NoDup_cons).
    repeat split; try done. intros Hx. apply (Hd _ Hx). left.
  - left. split; [done|]. intros (e & -> & He)%list_elem_of_fmap. assert (E' : aiMap s !! e_addr e = Some (e_leaf e)) by (apply (ho_map _ _ _ Hh); by exists e). congruence.
Qed.

Lemma remove_entry s n pre e post m : holds s n (pre ++ e :: post) ->
  exists s', removeLeaf (e_leaf e) (withMap m s) = Done (Z.of_nat (length post), e_mark e, s') /\ framed (withMap m s) s' /\
    exists marks D c, resting s' n (e_leaf <$> pre ++ post) marks D c /\ forall x, x ∈ pre ++ post -> marks (e_leaf x) = e_mark x.
Proof.
  intros [(marks & D & c & Hr & Hm) Hs _ _ _]. assert (Hr1 : resting (withMap m s) n (e_leaf <$> pre ++ e :: post) marks D c) by (eapply same_resting; [|apply Hr|done]; done).
  destruct (removeLeaf_ok _ _ _ _ _ _ (e_leaf e) Hr1) as (s' & E & F & Hr'); [apply list_elem_of_fmap; exists e; split; [done|]; apply elem_of_app; right; left|].
  exists s'. split; [|split; [done|]].
  - rewrite E, entry_distance, Hm; [done|apply elem_of_app; right; left|done|]. intros x Hx. pose proof (rs_fresh _ _ _ _ _ _ Hr (e_leaf x) ltac:(apply list_elem_of_fmap; by exists x)).
    pose proof (rs_high _ _ _ _ _ _ Hr). lia.
  - exists marks, D, c. rewrite sorted_without in Hr' by done. split; [done|]. intros x Hx. apply Hm. apply elem_of_app in Hx as [Hx|Hx]; apply elem_of_app; [by left|right; by right].
Qed.

Lemma add_entry s n es marks D c a : resting s n (e_leaf <$> es) marks D c -> (forall x, x ∈ es -> marks (e_leaf x) = e_mark x) -> n + 1 < 2 ^ 31 ->
  exists s' D' c' marks', addLeaf s = Done s' /\ regrown s s' /\ resting (withIndex (n + 1) s') (n + 1) (e_leaf <$> es ++ [mkEntry a n false]) marks' D' c' /\
    forall x, x ∈ es ++ [mkEntry a n false] -> marks' (e_leaf x) = e_mark x.
Proof.
  intros Hr Hm Hn. destruct (addLeaf_ok _ _ _ _ _ _ Hr Hn) as (s' & D' & c' & E & R & Hr'). exists s', D', c', (mark1 marks n false). split; [done|]. split; [done|].
  split; [by rewrite fmap_app|]. intros x [Hx|Hx]%elem_of_app.
  - unfold mark1. pose proof (rs_fresh _ _ _ _ _ _ Hr (e_leaf x) ltac:(apply list_elem_of_fmap; by exists x)). rewrite (proj2 (Z.eqb_neq _ n)) by lia. by apply Hm.
  - apply list_elem_of_singleton in Hx as ->. unfold mark1. cbn. by rewrite Z.eqb_refl.
Qed.

(** The naive stack finds an entry where it is. *)
Lemma verify_found s pre e post a u : stack s = e_addr <$> pre ++ e :: post -> e_addr e = a -> a ∉ (e_addr <$> post) ->
  verifyStackDist a u s = (Z.of_nat (length post), if u then withStack ((e_addr <$> pre ++ post) ++ [a]) s else s).
Proof.
  intros Es <- Hn. unfold verifyStackDist. rewrite Es, !fmap_app, fmap_cons, rev_app_distr. cbn [rev]. rewrite <-app_assoc. cbn [app].
  rewrite fromTop_middle by (intros Hx; apply Hn; apply list_elem_of_In, in_rev; by apply list_elem_of_In).
  rewrite length_rev, length_fmap, Z.add_0_l. rewrite length_app. cbn [length]. rewrite !length_fmap.
  replace (length pre + S (length post) - 1 - Z.to_nat (Z.of_nat (length post)))%nat with (length (e_addr <$> pre)) by (rewrite length_fmap; lia).
  rewrite delete_middle. done.
Qed.

Lemma verify_absent s es a u : stack s = e_addr <$> es -> a ∉ (e_addr <$> es) ->
  verifyStackDist a u s = (Infinity, if u then withStack ((e_addr <$> es) ++ [a]) s else s).
Proof.
  intros Es Hn. unfold verifyStackDist. rewrite Es, fromTop_none; [done|]. intros Hx. apply Hn. apply list_elem_of_In, in_rev. by apply list_elem_of_In.
Qed.

(** ** The step of each operation *)

Lemma abstraction_app es es' : abstraction (es ++ es') = abstraction es' ++ abstraction es.
Proof. unfold abstraction. by rewrite fmap_app, rev_app_distr. Qed.

Lemma result_found pre e post o : addrOf o = e_addr e -> addrOf o ∉ (e_addr <$> post) ->
  refResult o (abstraction (pre ++ e :: post)) = (Z.of_nat (length post), e_mark e).
Proof.
  intros Ho Hn. unfold refResult. rewrite abstraction_app. change (e :: post) with ([e] ++ post). rewrite abstraction_app, <-app_assoc.
  change (abstraction [e] ++ abstraction pre) with ((e_addr e, e_mark e) :: abstraction pre). rewrite <-Ho, depthOf_middle.
  - unfold abstraction. by rewrite length_rev, length_fmap.
  - rewrite abstraction_addrs. intros Hx. apply Hn, list_elem_of_In, in_rev. by apply list_elem_of_In.
Qed.

Lemma result_absent es o : addrOf o ∉ (e_addr <$> es) -> refResult o (abstraction es) = (Infinity, false).
Proof.
  intros Hn. unfold refResult. rewrite depthOf_none; [done|]. rewrite abstraction_addrs. intros Hx. apply Hn, list_elem_of_In, in_rev. by apply list_elem_of_In.
Qed.

Lemma others_absent es a : a ∉ (e_addr <$> es) -> others a (abstraction es) = abstraction es.
Proof.
  intros Hn. unfold others. apply list_filter_all. apply Forall_forall. intros [b m] Hx E. apply Hn. cbn in E. subst b.
  assert (Hin : a ∈ (fst <$> abstraction es)) by (apply list_elem_of_fmap; by exists (a, m)). rewrite abstraction_addrs in Hin.
  apply list_elem_of_In, in_rev. by apply list_elem_of_In.
Qed.

Lemma others_found pre e post : e_addr e ∉ (e_addr <$> pre) -> e_addr e ∉ (e_addr <$> post) ->
  others (e_addr e) (abstraction (pre ++ e :: post)) = abstraction (pre ++ post).
Proof.
  intros H1 H2. rewrite abstraction_app. change (e :: post) with ([e] ++ post). rewrite abstraction_app. unfold others. rewrite !filter_app.
  fold (others (e_addr e) (abstraction post)). fold (others (e_addr e) (abstraction pre)). rewrite !others_absent by done.
  assert (E : others (e_addr e) (abstraction [e]) = []) by (unfold others; cbn [abstraction fmap list_fmap rev app]; rewrite filter_cons, decide_False by (cbn; by intros []); done).
  unfold others in E. rewrite E. rewrite app_nil_r. by rewrite abstraction_app.
Qed.

(** The map after an address is forgotten and, if touched, entered again. *)
Lemma map_without s n es a : holds s n es -> forall b k, delete a (aiMap s) !! b = Some k <-> exists e, e ∈ es /\ e_addr e <> a /\ e_addr e = b /\ e_leaf e = k.
Proof.
  intros Hh b k. rewrite lookup_delete_Some, (ho_map _ _ _ Hh). split; [intros [Hne (e & He & <- & <-)]; by exists e|intros (e & He & Hne & <- & <-); split; [done|by exists e]].
Qed.

(** The second half of an access: a new leaf, checked against the naive stack. *)
Definition enter (a d : Z) (m : bool) (s : t) : outcome (Z * bool * t) :=
  let! s := addLeaf s in
  let! s := (if verifyStack s then
               let! (p, s) := treeGet 0 (index s) s in
               let! _ := sanityCheckTree p s in
               let (d', s) := verifyStackDist a true s in
               if d' =? d then Done s else Exited
             else Done s) in
  Done (d, m, withIndex (wrap 64 (index s + 1)) s).

Lemma enter_ok s n es marks D c a d m : resting s n (e_leaf <$> es) marks D c -> (forall x, x ∈ es -> marks (e_leaf x) = e_mark x) -> n + 1 < 2 ^ 31 ->
  StronglySorted Z.lt (e_leaf <$> es) -> NoDup (e_addr <$> es) -> a ∉ (e_addr <$> es) ->
  (forall b k, aiMap s !! b = Some k <-> (b = a /\ k = n) \/ exists e, e ∈ es /\ e_addr e = b /\ e_leaf e = k) ->
  (verifyStack s = true -> forall s', stack s' = stack s -> verifyStackDist a true s' = (d, withStack ((e_addr <$> es) ++ [a]) s')) ->
  exists s', enter a d m s = Done (d, m, s') /\ holds s' (n + 1) (es ++ [mkEntry a n false]) /\ verifyStack s' = verifyStack s.
Proof.
  intros Hr Hm Hn Hso Hnd Ha Hmap Hver. destruct (add_entry s n es marks D c a Hr Hm Hn) as (s1 & D1 & c1 & marks1 & E1 & R1 & Hr1 & Hm1).
  pose proof (rs_range _ _ _ _ _ _ Hr) as Hn0. pose proof (rs_index _ _ _ _ _ _ Hr) as Hi.
  assert (F1 : index s1 = n /\ verifyStack s1 = verifyStack s /\ stack s1 = stack s /\ aiMap s1 = aiMap s) by (destruct R1 as (? & ? & ? & ? & ->); done).
  destruct F1 as (Fi & Fv & Fs & Fm). set (es' := es ++ [mkEntry a n false]) in *.
  assert (Hchk : (if verifyStack s1 then let! (p, s) := treeGet 0 (index s1) s1 in let! _ := sanityCheckTree p s in
      let (d', s) := verifyStackDist a true s in if d' =? d then Done s else Exited else Done s1) =
      Done (if verifyStack s1 then withStack (e_addr <$> es') s1 else s1)).
  { destruct (verifyStack s1) eqn:Ev; [|done]. rewrite Fi.
    assert (Hst : sameTree (withIndex (n + 1) s1) s1) by done. pose proof (rs_shape _ _ _ _ _ _ Hr1) as Hs1. pose proof (rs_nodes _ _ _ _ _ _ Hr1) as Hn1.
    destruct (leaf_there _ _ _ _ _ _ n Hr1) as (p & nd & Hp & _ & _ & Hc & _); [unfold es'; rewrite fmap_app; apply elem_of_app; right; left|].
    apply (same_shape _ s1) in Hs1; [|done]. apply (same_nodes _ s1) in Hn1; [|done]. pose proof (sh_depth _ _ _ Hs1).
    rewrite (treeGet_at s1 D1 c1 0 n p) by (done || lia). cbn [obind].
    rewrite (sanity_ok s1 (n + 1) (e_leaf <$> es') marks1 D1 c1 n p); [|done|done|unfold es'; rewrite fmap_app; apply elem_of_app; right; left|pose proof (rs_high _ _ _ _ _ _ Hr1); lia|done|done].
    cbn [obind]. rewrite Hver by congruence. rewrite Z.eqb_refl. f_equal. f_equal. unfold es'. by rewrite fmap_app. }
  eexists. split; [unfold enter; rewrite E1; cbn [obind]; rewrite Hchk; cbn [obind]; done|]. set (s2 := if verifyStack s1 then _ else s1).
  assert (F2 : index s2 = n /\ verifyStack s2 = verifyStack s /\ aiMap s2 = aiMap s /\ sameTree (withIndex (n + 1) s1) (withIndex (n + 1) s2)) by (unfold s2; destruct (verifyStack s1) eqn:Ev; (split; [exact Fi|]; split; [rewrite <-Fv; exact Ev|]; split; [exact Fm|done])).
  destruct F2 as (Gi & Gv & Gm & Gt). rewrite Gi. assert (W : wrap 64 (n + 1) = n + 1) by (apply Z.mod_small; lia). rewrite W. split; [|exact Gv]. split.
  - exists marks1, D1, c1. split; [by eapply same_resting|done].
  - unfold es'. rewrite fmap_app. apply StronglySorted_app. split; [|split; [done|apply SSorted_cons; constructor]]. intros x y Hx Hy. cbn in Hy.
    apply list_elem_of_singleton in Hy as ->. by apply (rs_fresh _ _ _ _ _ _ Hr).
  - unfold es'. rewrite fmap_app. apply NoDup_app. split; [done|]. split; [|apply NoDup_singleton]. intros x Hx Hy. cbn in Hy. apply list_elem_of_singleton in Hy as ->. done.
  - intros b k. cbn [aiMap withIndex]. rewrite Gm, Hmap. unfold es'. split.
    + intros [[-> ->]|(e & He & <- & <-)]; [exists (mkEntry a n false); split; [apply elem_of_app; right; left|done]|exists e; split; [apply elem_of_app; by left|done]].
    + intros (e & [He|He]%elem_of_app & <- & <-); [right; by exists e|]. apply list_elem_of_singleton in He as ->. by left.
  - intros Hv. cbn [verifyStack withIndex] in Hv. rewrite Gv in Hv. unfold s2. rewrite Fv, Hv. done.
Qed.

Lemma calc_enter a s : calcStackDistAndUpdate a true s =
  match aiMap s !! a with
  | Some k => let! (d, m, s) := removeLeaf k (withMap (<[a := index s]> (aiMap s)) s) in enter a d m s
  | None => enter a Infinity false (withMap (<[a := index s]> (aiMap s)) s)
  end.
Proof. unfold calcStackDistAndUpdate, enter. by destruct (aiMap s !! a). Qed.

Lemma sorted_middle pre e post : StronglySorted Z.lt (e_leaf <$> pre ++ e :: post) -> StronglySorted Z.lt (e_leaf <$> pre ++ post).
Proof.
  rewrite !fmap_app, fmap_cons, !StronglySorted_app. intros (H1 & H2 & [_ H3]%StronglySorted_cons). split; [|done]. intros x y Hx Hy. apply H1; [done|by right].
Qed.
Lemma nodup_middle pre e post : NoDup (e_addr <$> pre ++ e :: post) -> NoDup (e_addr <$> pre ++ post).
Proof.
  rewrite !fmap_app, fmap_cons, !NoDup_app. intros (H1 & H2 & [_ H3]%NoDup_cons). split; [done|]. split; [|done]. intros x Hx Hy. apply (H2 x Hx). by right.
Qed.
Lemma notin_middle pre post a : a ∉ (e_addr <$> pre) -> a ∉ (e_addr <$> post) -> a ∉ (e_addr <$> pre ++ post).
Proof. intros H1 H2. rewrite fmap_app, elem_of_app. by intros []. Qed.

(** What an operation does to the entries. *)
Definition refines (o : op) (s : t) (n n' : Z) (es : list entry) : Prop :=
  exists s' es', step o s = Done (refResult o (abstraction es), s') /\ holds s' n' es' /\ abstraction es' = refStep o (abstraction es) /\ verifyStack s' = verifyStack s.

Lemma touch_ok s n es a : holds s n es -> n + 1 < 2 ^ 31 -> refines (Touch a) s n (n + 1) es.
Proof.
  intros Hh Hn. unfold refines. cbn [step]. rewrite calc_enter. destruct (ho_tree _ _ _ Hh) as (marks & D & c & Hr & Hm). pose proof (rs_index _ _ _ _ _ _ Hr) as Hi. rewrite Hi.
  destruct (find_entry s n es a Hh) as [[-> Ha]|(pre & e & post & -> & Ea & -> & Hpre & Hpost)].
  - destruct (enter_ok (withMap (<[a := n]> (aiMap s)) s) n es marks D c a Infinity false) as (s' & E & Hh' & Hv); [by eapply same_resting; [| |exact Hr]|done|done|apply Hh|apply Hh|done| | |].
    + intros b k. cbn [aiMap withMap]. rewrite lookup_insert_Some, (ho_map _ _ _ Hh). split; [intros [[<- <-]|[_ ?]]; [by left|by right]|].
      intros [[-> ->]|(e & He & <- & <-)]; [by left|right]. split; [intros ->; apply Ha, list_elem_of_fmap; by exists e|by exists e].
    + intros Hv s' Es'. apply (verify_absent s' es a true); [|done]. rewrite Es'. by apply (ho_stack _ _ _ Hh).
    + exists s', (es ++ [mkEntry a n false]). rewrite E, (result_absent es (Touch a)) by done. split; [done|]. split; [done|]. split; [|done].
      rewrite abstraction_app. cbn [refStep]. rewrite others_absent by done. done.
  - destruct (remove_entry s n pre e post (<[a := n]> (aiMap s)) Hh) as (s1 & E1 & F1 & marks1 & D1 & c1 & Hr1 & Hm1). rewrite E1. cbn [obind].
    assert (G : aiMap s1 = <[a := n]> (aiMap s) /\ verifyStack s1 = verifyStack s /\ stack s1 = stack s) by (destruct F1 as (? & ? & ->); done). destruct G as (Gm & Gv & Gs).
    destruct (enter_ok s1 n (pre ++ post) marks1 D1 c1 a (Z.of_nat (length post)) (e_mark e)) as (s' & E & Hh' & Hv);
      [done|done|done|eapply sorted_middle, Hh|eapply nodup_middle, Hh|by apply notin_middle| | |].
    + intros b k. rewrite Gm, lookup_insert_Some, (ho_map _ _ _ Hh). split.
      * intros [[<- <-]|[Hne (x & Hx & <- & <-)]]; [by left|right]. exists x. split; [|done]. rewrite elem_of_app, elem_of_cons in *. destruct Hx as [?|[->|?]]; [by left| |by right]. congruence.
      * intros [[-> ->]|(x & Hx & <- & <-)]; [by left|right]. rewrite elem_of_app in Hx. split.
        -- intros E'. destruct Hx as [Hx|Hx]; [apply Hpre|apply Hpost]; rewrite E'; apply list_elem_of_fmap; by exists x.
        -- exists x. split; [|done]. rewrite elem_of_app, elem_of_cons. tauto.
    + intros Hv s' Es'. rewrite (verify_found s' pre e post a true); [done| |done|done]. rewrite Es', Gs. apply (ho_stack _ _ _ Hh). congruence.
    + exists s', ((pre ++ post) ++ [mkEntry a n false]). rewrite E, (result_found pre e post (Touch a)) by done. split; [done|]. split; [done|]. split; [|congruence].
      rewrite abstraction_app. cbn [refStep]. rewrite <-Ea, others_found by (by rewrite Ea). done.
Qed.

Lemma drop_ok s n es a : holds s n es -> verifyStack s = false -> refines (Drop a) s n n es.
Proof.
  intros Hh Hv. unfold refines. cbn [step]. unfold calcStackDistAndUpdate. destruct (find_entry s n es a Hh) as [[-> Ha]|(pre & e & post & -> & Ea & -> & Hpre & Hpost)].
  - exists s, es. cbn [obind]. rewrite (result_absent es (Drop a)) by done. split; [done|]. split; [done|]. split; [|done]. cbn [refStep]. by rewrite others_absent.
  - destruct (remove_entry s n pre e post (delete a (aiMap s)) Hh) as (s1 & E1 & F1 & marks1 & D1 & c1 & Hr1 & Hm1). rewrite E1. cbn [obind].
    assert (G : aiMap s1 = delete a (aiMap s) /\ verifyStack s1 = verifyStack s) by (destruct F1 as (? & ? & ->); done). destruct G as (Gm & Gv).
    exists s1, (pre ++ post). rewrite (result_found pre e post (Drop a)) by done. split; [done|]. split; [|split; [|done]].
    + split; [by exists marks1, D1, c1|eapply sorted_middle, Hh|eapply nodup_middle, Hh| |congruence]. intros b k. rewrite Gm, (map_without _ _ _ a Hh). split.
      * intros (x & Hx & Hne & <- & <-). exists x. split; [|done]. rewrite elem_of_app, elem_of_cons in *. destruct Hx as [?|[->|?]]; [by left| |by right]. congruence.
      * intros (x & Hx & <- & <-). rewrite elem_of_app in Hx. exists x. split; [rewrite elem_of_app, elem_of_cons; tauto|]. split; [|done].
        intros E'. destruct Hx as [Hx|Hx]; [apply Hpre|apply Hpost]; rewrite <-E'; apply list_elem_of_fmap; by exists x.
    + cbn [refStep]. by rewrite <-Ea, others_found by (by rewrite Ea).
Qed.

Definition remark (a : Z) (m : bool) (l : refStack) : refStack := (fun x => if x.1 =? a then (a, m) else x) <$> l.

Lemma remark_absent es a m : a ∉ (e_addr <$> es) -> remark a m (abstraction es) = abstraction es.
Proof.
  intros Hn. unfold remark. rewrite <-(list_fmap_id (abstraction es)) at 2. apply list_fmap_ext. intros i [b x] Hx%list_elem_of_lookup_2. cbn.
  destruct (Z.eqb_spec b a) as [->|]; [|done]. destruct Hn. apply list_elem_of_In, in_rev, list_elem_of_In. rewrite <-abstraction_addrs. apply list_elem_of_fmap. by exists (a, x).
Qed.

Lemma look_step_ok s n es a m : holds s n es -> refines (Look a m) s n n es.
Proof.
  intros Hh. unfold refines. cbn [step]. unfold calcStackDist. destruct (find_entry s n es a Hh) as [[-> Ha]|(pre & e & post & -> & Ea & -> & Hpre & Hpost)].
  - cbn [obind]. exists s, es. rewrite (result_absent es (Look a m)) by done. split; [|split; [done|split; [cbn [refStep]; by rewrite <-(remark_absent es a m) at 1|done]]].
    destruct (verifyStack s) eqn:Hv; [|done]. rewrite (verify_absent s es a false) by (try apply Hh; done). by rewrite Z.eqb_refl.
  - destruct (ho_tree _ _ _ Hh) as (marks & D & c & Hr & Hm). assert (He : e ∈ pre ++ e :: post) by (apply elem_of_app; right; left).
    destruct (look_ok s n _ marks D c (e_leaf e) m Hr) as (p & nd & G1 & G2 & G3 & G4 & Hr'); [apply list_elem_of_fmap; by exists e|].
    rewrite G1. cbn [obind]. rewrite G2. cbn [obind]. rewrite G4. cbn [obind]. set (s' := store p (withMark m nd) s) in *.
    rewrite entry_distance, G3, (Hm e He); [|apply Hh|intros x Hx; pose proof (rs_fresh _ _ _ _ _ _ Hr (e_leaf x) ltac:(apply list_elem_of_fmap; by exists x)); pose proof (rs_high _ _ _ _ _ _ Hr); lia].
    set (e' := mkEntry a (e_leaf e) m). assert (El : e_leaf <$> pre ++ e' :: post = e_leaf <$> pre ++ e :: post) by (by rewrite !fmap_app).
    assert (Eadd : e_addr <$> pre ++ e' :: post = e_addr <$> pre ++ e :: post) by (rewrite !fmap_app, !fmap_cons; by rewrite Ea).
    exists s', (pre ++ e' :: post). rewrite (result_found pre e post (Look a m)) by done. split; [|split; [|split; [|done]]].
    + destruct (verifyStack s') eqn:Hv; [|done]. rewrite (verify_found s' pre e post a false) by (try done; by apply (ho_stack _ _ _ Hh)). by rewrite Z.eqb_refl.
    + destruct Hh as [_ Hso Hon Hmap Hst]. split; [|by rewrite El|by rewrite Eadd| |by rewrite Eadd].
      * exists (mark1 marks (e_leaf e) m), D, c. rewrite El. split; [done|]. intros x Hx. unfold mark1. pose proof (rs_once _ _ _ _ _ _ Hr) as Hnd. rewrite fmap_app, fmap_cons in Hnd.
        apply NoDup_app in Hnd as (_ & Hd & [Hp _]%NoDup_cons). rewrite elem_of_app, elem_of_cons in Hx. destruct Hx as [Hx|[->|Hx]].
        -- destruct (Z.eqb_spec (e_leaf x) (e_leaf e)) as [E|]; [|by apply Hm, elem_of_app; left]. destruct (Hd (e_leaf x)); [apply list_elem_of_fmap; by exists x|rewrite E; left].
        -- cbn. by rewrite Z.eqb_refl.
        -- destruct (Z.eqb_spec (e_leaf x) (e_leaf e)) as [E|]; [|by apply Hm, elem_of_app; right; right]. destruct Hp. rewrite <-E. apply list_elem_of_fmap. by exists x.
      * intros b k. change (aiMap s') with (aiMap s). rewrite Hmap. setoid_rewrite elem_of_app. setoid_rewrite elem_of_cons. split.
        -- intros (x & [Hx|[->|Hx]] & Hb & Hk); [by exists x; auto|exists e'; rewrite <-Hb, <-Hk; auto|by exists x; auto].
        -- intros (x & [Hx|[->|Hx]] & Hb & Hk); [by exists x; auto|exists e; rewrite <-Hb, <-Hk; auto|by exists x; auto].
    + cbn [refStep]. fold (remark a m (abstraction (pre ++ e :: post))). rewrite !abstraction_app. change (e' :: post) with ([e'] ++ post). change (e :: post) with ([e] ++ post).
      rewrite !abstraction_app. unfold remark. rewrite !fmap_app. fold (remark a m (abstraction post)). fold (remark a m (abstraction pre)). rewrite !remark_absent by done.
      cbn. by rewrite Ea, Z.eqb_refl.
Qed.

(** ** Runs *)

Fixpoint run (os : list op) (s : t) : outcome (list (Z * bool) * t) :=
  match os with
  | [] => Done ([], s)
  | o :: os => let! (d, m, s) := step o s in let! (l, s) := run os s in Done ((d, m) :: l, s)
  end.
Fixpoint refRun (os : list op) (l : refStack) : list (Z * bool) * refStack :=
  match os with
  | [] => ([], l)
  | o :: os => let (r, l') := refRun os (refStep o l) in (refResult o l :: r, l')
  end.

(** The number of accesses; nothing is dropped while checking. *)
Fixpoint touches (os : list op) : Z := match os with [] => 0 | Touch _ :: os => touches os + 1 | _ :: os => touches os end.
Definition allowed (verify : bool) (o : op) : Prop := match o with Drop _ => verify = false | _ => True end.

Lemma new_holds verify lin log : holds (new verify lin log) 0 [].
Proof.
  assert (Hat : forall i j p, 0 <= i -> at_ (new verify lin log) i j p <-> i = 1 /\ j = 0 /\ p = O).
  { intros i j p Hi. unfold at_. cbn [tree new]. split.
    - intros (l & E & Ej). destruct (Z.to_nat i) as [|[|k]] eqn:Ei; [injection E as <-; by rewrite lookup_empty in Ej|injection E as <-|done].
      apply lookup_singleton_Some in Ej as [<- [= <-]]. lia.
    - intros (-> & -> & ->). eexists. split; [done|apply lookup_singleton_eq]. }
  split; [|apply SSorted_nil|apply NoDup_nil_2| |done].
  - exists (fun _ => false), 1, (fun i => if i =? 0 then 0 else 1). split; [|by intros e ?%not_elem_of_nil]. split; try done; try lia; try apply NoDup_nil_2.
    + split; try done; try lia.
      * intros i Hi. assert (i = 0 \/ i = 1) as [->| ->] by lia; done.
      * intros i j Hi Hj. assert (i = 0) as -> by lia. change (j < 0) in Hj. change (j / 2 < 1). assert (j / 2 <= 0) by (apply Z.div_le_upper_bound; lia). lia.
      * intros i i' j j' p Hi Hi' (-> & -> & _)%Hat (-> & -> & _)%Hat; done.
      * intros i j p Hi (_ & _ & ->)%Hat; [cbn; lia|done].
    + intros i j Hi [Hj Hd]. cbn in Hj. destruct (Z.eqb_spec i 0) as [->|]; [lia|]. assert (i = 1) as -> by lia. assert (j = 0) as -> by lia.
      exists O, newNode. split; [by apply Hat|]. split; [apply lookup_singleton_eq|]. split; done.
    + split; [done|]. intros i Hi. assert (i = 1) as -> by lia. done.
    + intros k ?%not_elem_of_nil. done.
  - intros a k. cbn [aiMap new]. rewrite lookup_empty. split; [done|by intros (e & ?%not_elem_of_nil & _)].
Qed.

Lemma run_ok verify os : Forall (allowed verify) os -> forall s n es, holds s n es -> verifyStack s = verify -> n + touches os < 2 ^ 31 ->
  exists s' n' es', run os s = Done (fst (refRun os (abstraction es)), s') /\ holds s' n' es' /\ abstraction es' = snd (refRun os (abstraction es)) /\ n' <= n + touches os.
Proof.
  intros Hall. induction Hall as [|o os Ho Hall IH]; intros s n es Hh Hv Hn; [exists s, n, es; split; [done|]; split; [done|]; split; [done|]; cbn; lia|].
  assert (Hstep : exists n', refines o s n n' es /\ n' + touches os = n + touches (o :: os)).
  { destruct o as [a|a|a m]; cbn [touches] in *.
    - exists (n + 1). assert (0 <= touches os) by (clear; induction os as [|[] os IH]; cbn; lia). split; [apply touch_ok; [done|]|]; lia.
    - exists n. split; [apply drop_ok; [done|congruence]|lia].
    - exists n. split; [by apply look_step_ok|lia]. }
  destruct Hstep as (n1 & (s1 & es1 & E1 & Hh1 & A1 & V1) & Hn1). destruct (IH s1 n1 es1 Hh1 ltac:(congruence) ltac:(lia)) as (s2 & n2 & es2 & E2 & Hh2 & A2 & Hle).
  exists s2, n2, es2. cbn [run refRun]. rewrite E1. destruct (refResult o (abstraction es)) as [d m]. cbn [obind]. rewrite E2. cbn [obind]. rewrite A1 in *.
  destruct (refRun os (refStep o (abstraction es))) as [r l']. cbn [fst snd] in *. split; [done|]. split; [done|]. split; [done|lia].
Qed.

(** ** Distinct addresses *)

(** The accesses since the last one to [a], in a history with the newest first. *)
Fixpoint since (a : Z) (h : list Z) : option (list Z) :=
  match h with
  | [] => None
  | b :: h => if b =? a then Some [] else match since a h with Some l => Some (b :: l) | None => None end
  end.

(** The number of distinct addresses among them. *)
Definition stackDistance (a : Z) (h : list Z) : Z :=
  match since a h with Some l => Z.of_nat (size (list_to_set l : gset Z)) | None => Infinity end.

Fixpoint mru (h : list Z) : refStack := match h with [] => [] | b :: h => (b, false) :: others b (mru h) end.

(** The addresses above [a]. *)
Fixpoint above (a : Z) (l : refStack) : option (list Z) :=
  match l with
  | [] => None
  | (b, _) :: l => if b =? a then Some [] else match above a l with Some p => Some (b :: p) | None => None end
  end.

Lemma depthOf_above a l : (forall x, x ∈ l -> x.2 = false) -> depthOf a l = (fun p => (length p, false)) <$> above a l.
Proof.
  induction l as [|[b m] l IH]; intros Hm; [done|]. cbn. destruct (b =? a); [cbn; do 2 f_equal; apply (Hm (b, m)); left|].
  rewrite IH by (intros x Hx; apply Hm; by right). by destruct (above a l).
Qed.

Lemma above_others a b l : b <> a -> above a (others b l) = filter (fun x => x <> b) <$> above a l.
Proof.
  intros Hne. induction l as [|[d m] l IH]; [done|]. unfold others in *. rewrite filter_cons. cbn [above fst]. destruct (decide (d <> b)) as [Hd|Hd].
  - cbn [above]. destruct (Z.eqb_spec d a); [done|]. rewrite IH. destruct (above a l); [|done]. cbn [fmap option_fmap option_map]. by rewrite filter_cons, decide_True.
  - assert (d = b) as -> by (destruct (decide (d = b)); done || tauto). rewrite IH, (proj2 (Z.eqb_neq b a)) by done. destruct (above a l); [|done]. cbn [fmap option_fmap option_map]. by rewrite filter_cons, decide_False by tauto.
Qed.

Lemma mru_unmarked h x : x ∈ mru h -> x.2 = false.
Proof.
  induction h as [|b h IH]; [by intros ?%not_elem_of_nil|]. cbn. intros [->|Hx]%elem_of_cons; [done|]. apply IH. by apply list_elem_of_filter in Hx as [_ ?].
Qed.

Lemma mru_above a h : match since a h with
  | Some l => exists p, above a (mru h) = Some p /\ NoDup p /\ forall x, x ∈ p <-> x ∈ l
  | None => above a (mru h) = None
  end.
Proof.
  induction h as [|b h IH]; [done|]. cbn. destruct (Z.eqb_spec b a) as [->|Hne]; [exists []; split; [done|]; split; [apply NoDup_nil_2|done]|].
  rewrite above_others by done. destruct (since a h) as [l|]; [|by rewrite IH]. destruct IH as (p & -> & Hnd & Hp). cbn. eexists. split; [done|]. split.
  - apply NoDup_cons. split; [|by apply NoDup_filter]. by intros [? _]%list_elem_of_filter.
  - intros x. rewrite !elem_of_cons, list_elem_of_filter, Hp. destruct (decide (x = b)); tauto.
Qed.

Lemma mru_depth a h : refResult (Touch a) (mru h) = (stackDistance a h, false).
Proof.
  unfold refResult, stackDistance. cbn [addrOf]. rewrite depthOf_above by apply mru_unmarked. pose proof (mru_above a h) as Hm. destruct (since a h) as [l|]; [|by rewrite Hm].
  destruct Hm as (p & -> & Hnd & Hp). cbn. do 2 f_equal. rewrite <-(size_list_to_set (C := gset Z) p Hnd). f_equal. set_solver.
Qed.

Lemma touches_mru h : forall l, snd (refRun (Touch <$> h) (mru l)) = mru (rev h ++ l).
Proof.
  induction h as [|a h IH]; intros l; [done|]. cbn [fmap list_fmap refRun]. change ((a, false) :: others a (mru l)) with (mru (a :: l)).
  specialize (IH (a :: l)). destruct (refRun _ _) as [r l'] eqn:E. cbn [snd rev] in *. change (refStep (Touch a) (mru l)) with (mru (a :: l)) in *.
  fold (fmap Touch h) in *. cbn [rev]. rewrite <-app_assoc. destruct (refRun (Touch <$> h) (mru (a :: l))) as [r' l''] eqn:E'. cbn in *. congruence.
Qed.

Lemma touches_all h : touches (Touch <$> h) = Z.of_nat (length h).
Proof. induction h as [|a h IH]; [done|]. cbn [fmap list_fmap touches length]. fold (fmap Touch h). lia. Qed.

(** The calculator with its tree of partial sums is the stack of marked
    addresses: on any sequence of accesses, lookups and, when it does not check
    itself, removals, with less than 2^31 accesses, it never fails, dereferences
    no deleted node, passes its own checks against the naive stack, and returns
    for each operation the depth of the address and its mark. *)
Theorem stack_refines verify lin log os : Forall (allowed verify) os -> touches os < 2 ^ 31 ->
  exists s, run os (new verify lin log) = Done (fst (refRun os []), s).
Proof.
  intros Ho Ht. destruct (run_ok verify os Ho _ 0 [] (new_holds verify lin log) eq_refl Ht) as (s & n & es & E & _). by exists s.
Qed.

(** C35: the distance returned for an access is the number of distinct addresses
    used since the last access to the same address, and infinity if there was
    none, after any history of less than 2^31 - 1 accesses. *)
Theorem stack_distance_exact verify lin log h a : Z.of_nat (length h) + 1 < 2 ^ 31 ->
  exists r s s', run (Touch <$> h) (new verify lin log) = Done (r, s) /\
    calcStackDistAndUpdate a true s = Done (stackDistance a (rev h), false, s').
Proof.
  intros Hh. assert (Hall : Forall (allowed verify) (Touch <$> h)) by (apply Forall_fmap, Forall_true; done).
  destruct (run_ok verify (Touch <$> h) Hall _ 0 [] (new_holds verify lin log) eq_refl) as (s & n & es & E & Hs & Ha & Hn); [rewrite touches_all; lia|].
  rewrite touches_all in Hn. destruct (touch_ok s n es a Hs) as (s' & es' & E' & _); [lia|].
  exists (fst (refRun (Touch <$> h) (abstraction []))), s, s'. split; [done|]. cbn [step] in E'. rewrite E', Ha. change (abstraction []) with (mru []).
  by rewrite touches_mru, app_nil_r, mru_depth.
Qed.

(** ** Examples *)

Definition runOps : list op := [Touch 1; Touch 2; Touch 3; Look 1 true; Touch 2; Touch 1; Look 1 false; Touch 3].

Lemma stack_refines_witness : exists s, run runOps (new true false false) =
  Done ([(Infinity, false); (Infinity, false); (Infinity, false); (2, false); (1, false); (2, true); (0, false); (2, false)], s).
Proof. apply (stack_refines true false false runOps); [repeat constructor|cbn; lia]. Defined.

Lemma stack_distance_exact_witness : exists r s s', run (Touch <$> [7; 8; 9; 8; 8]) (new true false false) = Done (r, s) /\
  calcStackDistAndUpdate 7 true s = Done (2, false, s').
Proof. apply (stack_distance_exact true false false [7; 8; 9; 8; 8] 7). cbn. lia. Defined.

(** An address removed while the calculator checks itself stays on the naive
    stack: its next access does not pass the check. *)
Theorem drop_fails_check : run [Touch 1; Drop 1; Touch 1] (new true false false) = Exited /\
  exists s, run [Touch 1; Drop 1; Touch 1] (new false false false) = Done ([(Infinity, false); (0, false); (Infinity, false)], s).
Proof. split; [by vm_compute|]. eexists. by vm_compute. Qed.

(** With 32 layers the width of the topmost inner layer is not an [int]. *)
Theorem deep_tree_fails s : getTreeDepth s = 32 -> isPowerOf2 (index s) = false -> updateTree s = Exited.
Proof. intros Hd Hp. unfold updateTree. rewrite Hp, Hd. done. Qed.

(** A root whose leaves are all gone when the tree grows is kept. *)
Theorem empty_root_kept : exists r s p n, run [Touch 1; Touch 1; Touch 1] (new true false false) = Done (r, s) /\
  at_ s 1 0 p /\ heap s !! p = Some n /\ sumLeft n = 0 /\ sumRight n = 0 /\ discardLeft n = true /\ discardRight n = true.
Proof.
  assert (Hc : match run [Touch 1; Touch 1; Touch 1] (new true false false) with
    | Done (_, s) => match tree s !! 1%nat ≫= lookup 0 with
        | Some (Some p) => match heap s !! p with Some n => (sumLeft n =? 0) && (sumRight n =? 0) && discardLeft n && discardRight n | None => false end
        | _ => false end
    | _ => false end = true) by (by vm_compute).
  destruct (run [Touch 1; Touch 1; Touch 1] (new true false false)) as [[r s]| |]; [|done..].
  destruct (tree s !! 1%nat) as [l|] eqn:El; [|done]. cbn in Hc. destruct (l !! 0) as [[p|]|] eqn:Ep; [|done..]. destruct (heap s !! p) as [n|] eqn:En; [|done].
  apply andb_prop in Hc as [[[H1%Z.eqb_eq H2%Z.eqb_eq]%andb_prop H3]%andb_prop H4]. exists r, s, p, n. split; [done|]. split; [by exists l|]. done.
Qed.

End StackDistRun.
