(* ===== verification/SnoopFilter.v ===== *)
(** * The snoop filter: gem5/src/mem/snoop_filter.cc and snoop_filter.hh

    A crossbar asks the filter which caches above it may have a line.  The
    filter keeps two masks of ports for each line: those that asked for it and
    those that have it.  The first part is the filter; the second the caches it
    follows, and what it knows about them. *)

From Stdlib Require Import ZArith Lia.
From stdpp Require Import base gmap numbers list fin_sets.
From S2P Require Import Prelude Bits MemCmd Request Packet.

#[local] Open Scope Z_scope.
#[local] Open Scope outcome_scope.

Module SnoopFilter.

(** ** State *)

Record SnoopItem := mkItem { requested : Z; holder : Z }.
Definition noItem : SnoopItem := mkItem 0 0.

Record stats := mkStats {
  totRequests : Z;
  hitSingleRequests : Z;
  hitMultiRequests : Z;
  totSnoops : Z;
  hitSingleSnoops : Z;
  hitMultiSnoops : Z
}.

(** A port is its identifier. *)
Record t := mk {
  cachedLocations : gmap Z SnoopItem;
  slavePorts : list Z;
  linesize : Z;
  lookupLatency : Z;
  st : stats
}.

Definition new (linesize latency : Z) (ports : list Z) : t := mk ∅ ports linesize latency (mkStats 0 0 0 0 0 0).

Definition withItem (a : Z) (i : SnoopItem) (f : t) : t :=
  mk (<[a := i]> (cachedLocations f)) (slavePorts f) (linesize f) (lookupLatency f) (st f).
Definition withStats (x : stats) (f : t) : t := mk (cachedLocations f) (slavePorts f) (linesize f) (lookupLatency f) x.

(** ** Masks *)

Definition InvalidPortID : Z := -1.

(** [unsigned id] is not [InvalidPortID] and, as an [int], less than 64. *)
Definition portToMask (port : Z) : outcome Z :=
  let id := wrap 32 port in
  if id =? wrap 32 InvalidPortID then Exited
  else if toInt32 id <? 64 then
    if 0 <=? toInt32 id then Done (wrap 64 (Z.shiftl 1 id)) else Exited
  else Exited.

Fixpoint portListToMask (ports : list Z) : outcome Z :=
  match ports with
  | [] => Done 0
  | p :: l => let! m := portToMask p in let! r := portListToMask l in Done (Z.lor m r)
  end.

Fixpoint selectPorts (mask : Z) (ports : list Z) : outcome (list Z) :=
  match ports with
  | [] => Done []
  | p :: l =>
      let! m := portToMask p in
      let! r := selectPorts mask l in
      Done (if nonzero (Z.land mask m) then p :: r else r)
  end.
Definition maskToPortList (mask : Z) (f : t) : outcome (list Z) := selectPorts mask (slavePorts f).

(** [addr & ~(linesize - 1)]: the complement is of an [unsigned], 32 bits wide. *)
Definition lineAddr (f : t) (a : Z) : Z := Z.land a (bnot 32 (wrap 32 (linesize f - 1))).

(** [~mask] of 64 bits. *)
Definition clearBits (x mask : Z) : Z := Z.land x (bnot 64 mask).

(** ** Requests from the caches above *)

Definition countRequest (is_hit single : bool) (x : stats) : stats :=
  mkStats (totRequests x + 1) (hitSingleRequests x + (if is_hit && single then 1 else 0))
    (hitMultiRequests x + (if is_hit && negb single then 1 else 0)) (totSnoops x) (hitSingleSnoops x) (hitMultiSnoops x).
Definition countSnoop (is_hit single : bool) (x : stats) : stats :=
  mkStats (totRequests x) (hitSingleRequests x) (hitMultiRequests x) (totSnoops x + 1)
    (hitSingleSnoops x + (if is_hit && single then 1 else 0)) (hitMultiSnoops x + (if is_hit && negb single then 1 else 0)).

Definition lookupRequest (p : Packet.t) (port : Z) (f : t) : outcome (list Z * Z * t) :=
  let! a := Packet.getAddr p in
  let line := lineAddr f a in
  let! req_port := portToMask port in
  let is_hit := bool_decide (is_Some (cachedLocations f !! line)) in
  let item := map_get noItem (cachedLocations f) line in
  let interested := Z.lor (holder item) (requested item) in
  let f := withStats (countRequest is_hit (isPow2 interested) (st f)) (withItem line item f) in
  let! f :=
    (if MemCmd.needsResponse (Packet.cmd p) then
       if negb (Packet.memInhibitAsserted p) then
         if nonzero (Z.land (requested item) req_port) then Exited
         else Done (withItem line (mkItem (Z.lor (requested item) req_port) (holder item)) f)
       else if nonzero (Z.land (holder item) req_port) then Done f else Exited
     else Done f) in
  let! l := maskToPortList (clearBits interested req_port) f in
  Done (l, lookupLatency f, f).

Definition updateRequest (p : Packet.t) (port : Z) (will_retry : bool) (f : t) : outcome t :=
  let! a := Packet.getAddr p in
  let line := lineAddr f a in
  let! req_port := portToMask port in
  let item := map_get noItem (cachedLocations f) line in
  if will_retry then Done (withItem line (mkItem (clearBits (requested item) req_port) (holder item)) f)
  else if negb (MemCmd.needsResponse (Packet.cmd p)) then
    if decide (Packet.cmd p = MemCmd.Writeback) then
      if nonzero (Z.land (requested item) req_port) then Exited
      else if nonzero (Z.land (holder item) req_port)
      then Done (withItem line (mkItem (requested item) (clearBits (holder item) req_port)) f)
      else Exited
    else Exited
  else Done (withItem line item f).

(** ** Snoops from below and responses *)

Definition lookupSnoop (p : Packet.t) (f : t) : outcome (list Z * Z * t) :=
  if negb (MemCmd.isRequest (Packet.cmd p)) then Exited
  else
    let! a := Packet.getAddr p in
    let line := lineAddr f a in
    let is_hit := bool_decide (is_Some (cachedLocations f !! line)) in
    let item := map_get noItem (cachedLocations f) line in
    let interested := Z.lor (holder item) (requested item) in
    let f := withStats (countSnoop is_hit (isPow2 interested) (st f)) f in
    if negb (Bool.eqb (MemCmd.isInvalidate (Packet.cmd p)) (MemCmd.needsExclusive (Packet.cmd p))) then Exited
    else
      let item := if MemCmd.isInvalidate (Packet.cmd p) && (requested item =? 0) then mkItem (requested item) 0 else item in
      let! l := maskToPortList interested f in
      Done (l, lookupLatency f, withItem line item f).

Definition updateSnoopResponse (p : Packet.t) (rsp_port req_port : Z) (f : t) : outcome t :=
  let! a := Packet.getAddr p in
  let line := lineAddr f a in
  let! rsp_mask := portToMask rsp_port in
  let! req_mask := portToMask req_port in
  let item := map_get noItem (cachedLocations f) line in
  if negb (MemCmd.isResponse (Packet.cmd p)) then Exited
  else if negb (Packet.memInhibitAsserted p) then Exited
  else if negb (nonzero (Z.land (holder item) rsp_mask)) then Exited
  else if negb (nonzero (Z.land (requested item) req_mask)) then Exited
  else
    let h := if MemCmd.needsExclusive (Packet.cmd p) || negb (Packet.sharedAsserted p) then 0 else holder item in
    if decide (Packet.cmd p = MemCmd.Writeback) then Exited
    else Done (withItem line (mkItem (clearBits (requested item) req_mask) (Z.lor h req_mask)) f).

Definition updateSnoopForward (p : Packet.t) (rsp_port : Z) (f : t) : outcome t :=
  let! a := Packet.getAddr p in
  let line := lineAddr f a in
  let! _ := portToMask rsp_port in
  let item := map_get noItem (cachedLocations f) line in
  if negb (MemCmd.isResponse (Packet.cmd p)) then Exited
  else if negb (Packet.memInhibitAsserted p) then Exited
  else Done (withItem line (if MemCmd.needsExclusive (Packet.cmd p) then mkItem (requested item) 0 else item) f).

Definition updateResponse (p : Packet.t) (port : Z) (f : t) : outcome t :=
  let! a := Packet.getAddr p in
  let line := lineAddr f a in
  let! mask := portToMask port in
  let item := map_get noItem (cachedLocations f) line in
  if negb (MemCmd.isResponse (Packet.cmd p)) then Exited
  else if negb (nonzero (Z.land (requested item) mask)) then Exited
  else
    let h := if MemCmd.needsExclusive (Packet.cmd p) || negb (Packet.sharedAsserted p) then 0 else holder item in
    Done (withItem line (mkItem (clearBits (requested item) mask) (Z.lor h mask)) f).

(** ** Bits of the masks *)

Definition isPort (p : Z) : Prop := 0 <= p < 64.

Lemma portToMask_ok p : isPort p -> portToMask p = Done (2 ^ p).
Proof.
  intros Hp. unfold isPort in Hp. unfold portToMask. assert (W : wrap 32 p = p) by (apply Z.mod_small; lia). rewrite W.
  change (wrap 32 InvalidPortID) with (2 ^ 32 - 1). rewrite (proj2 (Z.eqb_neq p (2 ^ 32 - 1))) by lia. rewrite toInt32_id by lia.
  rewrite (proj2 (Z.ltb_lt p 64)), (proj2 (Z.leb_le 0 p)) by lia. rewrite Z.shiftl_mul_pow2, Z.mul_1_l by lia. f_equal. apply Z.mod_small.
  split; [apply Z.pow_nonneg; lia|apply Z.pow_lt_mono_r; lia].
Qed.

Lemma land_port x p : 0 <= p -> nonzero (Z.land x (2 ^ p)) = Z.testbit x p.
Proof.
  intros Hp. destruct (Z.testbit x p) eqn:E.
  - apply nonzero_iff. intros Hz. assert (Hb : Z.testbit (Z.land x (2 ^ p)) p = true) by (rewrite Z.land_spec, E, Z.pow2_bits_true; done). rewrite Hz, Z.bits_0 in Hb. done.
  - destruct (nonzero (Z.land x (2 ^ p))) eqn:E'; [|done]. apply nonzero_iff in E'. destruct E'. apply Z.bits_inj_0. intros i. rewrite Z.land_spec.
    destruct (decide (i = p)) as [->|Hne]; [by rewrite E|]. rewrite Z.pow2_bits_false by done. apply andb_false_r.
Qed.

Lemma lor_port x p q : 0 <= p -> Z.testbit (Z.lor x (2 ^ p)) q = Z.testbit x q || (p =? q).
Proof. intros Hp. by rewrite Z.lor_spec, Z.pow2_bits_eqb by done. Qed.

Lemma clear_port x p q : isPort p -> isPort q -> Z.testbit (clearBits x (2 ^ p)) q = Z.testbit x q && negb (p =? q).
Proof.
  intros Hp Hq. unfold isPort in *. unfold clearBits. rewrite Z.land_spec, testbit_bnot, Z.pow2_bits_eqb by lia. rewrite (proj2 (Z.ltb_lt q 64)) by lia.
  by destruct (p =? q).
Qed.

Lemma selectPorts_ok mask ports : Forall isPort ports -> selectPorts mask ports = Done (filter (fun p => Z.testbit mask p = true) ports).
Proof.
  induction 1 as [|p ports Hp Hps IH]; [done|]. cbn [selectPorts]. rewrite portToMask_ok, IH by done. cbn [obind]. rewrite land_port by apply Hp. rewrite filter_cons.
  destruct (Z.testbit mask p); [by rewrite decide_True|by rewrite decide_False].
Qed.

(** ** The caches above *)

(** For each line, the ports whose caches wait for it and those that have it. *)
Record world := mkWorld { asked : Z -> gset Z; has : Z -> gset Z }.
Definition empty : world := mkWorld (fun _ => ∅) (fun _ => ∅).

Definition setLine (g : Z -> gset Z) (a : Z) (x : gset Z) : Z -> gset Z := fun b => if b =? a then x else g b.

(** What happens: a request that is sent on, one already answered above, one
    that has to be sent again, a writeback, one that is refused; a response from below, one from
    another cache above, a snoop from below, a response to it; and a cache may
    drop a line without telling. *)
Inductive move :=
| Ask (p : Z) (pk : Packet.t)
| AskAnswered (p : Z) (pk : Packet.t)
| Refuse (p : Z) (pk : Packet.t)
| WriteBack (p : Z) (pk : Packet.t)
| WriteBackRefused (p : Z) (pk : Packet.t)
| Answer (p : Z) (pk : Packet.t)
| AnswerFrom (q p : Z) (pk : Packet.t)
| Snoop (pk : Packet.t)
| AnswerBelow (q : Z) (pk : Packet.t)
| Lose (p : Z) (line : Z).

Definition packetOf (m : move) : option Packet.t :=
  match m with
  | Ask _ pk | AskAnswered _ pk | Refuse _ pk | WriteBack _ pk | WriteBackRefused _ pk | Answer _ pk | AnswerFrom _ _ pk | Snoop pk | AnswerBelow _ pk => Some pk
  | Lose _ _ => None
  end.

Definition filterStep (m : move) (f : t) : outcome (list Z * t) :=
  match m with
  | Ask p pk | AskAnswered p pk => let! (l, _, f) := lookupRequest pk p f in Done (l, f)
  | Refuse p pk => let! f := updateRequest pk p true f in Done ([], f)
  | WriteBack p pk =>
      let! (l, _, f) := lookupRequest pk p f in
      let! f := updateRequest pk p false f in Done (l, f)
  | WriteBackRefused p pk =>
      let! (l, _, f) := lookupRequest pk p f in
      let! f := updateRequest pk p true f in Done (l, f)
  | Answer p pk => let! f := updateResponse pk p f in Done ([], f)
  | AnswerFrom q p pk => let! f := updateSnoopResponse pk q p f in Done ([], f)
  | Snoop pk => let! (l, _, f) := lookupSnoop pk f in Done (l, f)
  | AnswerBelow q pk => let! f := updateSnoopForward pk q f in Done ([], f)
  | Lose _ _ => Done ([], f)
  end.

Section caches.
Context (ls lat : Z) (ports : list Z).

(** The line of a packet. *)
Definition lineOf (pk : Packet.t) : Z := Packet.addr pk - Packet.addr pk mod ls.

(** The response gives the line to one cache alone. *)
Definition alone (pk : Packet.t) : bool := MemCmd.needsExclusive (Packet.cmd pk) || negb (Packet.sharedAsserted pk).

Definition legal (w : world) (m : move) : Prop :=
  match m with
  | Ask p pk => isPort p /\ MemCmd.needsResponse (Packet.cmd pk) = true /\ Packet.memInhibitAsserted pk = false /\ p ∉ asked w (lineOf pk)
  | AskAnswered p pk => MemCmd.needsResponse (Packet.cmd pk) = true /\ Packet.memInhibitAsserted pk = true /\ p ∈ has w (lineOf pk)
  | Refuse p pk => p ∈ asked w (lineOf pk)
  | WriteBack p pk | WriteBackRefused p pk => Packet.cmd pk = MemCmd.Writeback /\ p ∈ has w (lineOf pk) /\ p ∉ asked w (lineOf pk)
  | Answer p pk => MemCmd.isResponse (Packet.cmd pk) = true /\ p ∈ asked w (lineOf pk)
  | AnswerFrom q p pk => MemCmd.isResponse (Packet.cmd pk) = true /\ Packet.memInhibitAsserted pk = true /\ q ∈ has w (lineOf pk) /\ p ∈ asked w (lineOf pk)
  | Snoop pk => MemCmd.isRequest (Packet.cmd pk) = true /\ MemCmd.isInvalidate (Packet.cmd pk) = MemCmd.needsExclusive (Packet.cmd pk)
  | AnswerBelow q pk => isPort q /\ MemCmd.isResponse (Packet.cmd pk) = true /\ Packet.memInhibitAsserted pk = true
  | Lose _ _ => True
  end.

(** The address of the packet is set, and below 4 GB. *)
Definition addressed (m : move) : Prop :=
  match packetOf m with Some pk => Packet.getAddr pk = Done (Packet.addr pk) /\ 0 <= Packet.addr pk < 2 ^ 32 | None => True end.

Definition given (p : Z) (pk : Packet.t) (w : world) : world :=
  let a := lineOf pk in
  mkWorld (setLine (asked w) a (asked w a ∖ {[p]})) (setLine (has w) a (if alone pk then {[p]} else has w a ∪ {[p]})).

Definition after (w : world) (m : move) : world :=
  match m with
  | Ask p pk => mkWorld (setLine (asked w) (lineOf pk) (asked w (lineOf pk) ∪ {[p]})) (has w)
  | AskAnswered _ _ | WriteBackRefused _ _ => w
  | Refuse p pk => mkWorld (setLine (asked w) (lineOf pk) (asked w (lineOf pk) ∖ {[p]})) (has w)
  | WriteBack p pk => mkWorld (asked w) (setLine (has w) (lineOf pk) (has w (lineOf pk) ∖ {[p]}))
  | Answer p pk | AnswerFrom _ p pk => given p pk w
  | Snoop pk => if MemCmd.isInvalidate (Packet.cmd pk) then mkWorld (asked w) (setLine (has w) (lineOf pk) ∅) else w
  | AnswerBelow _ pk => if MemCmd.needsExclusive (Packet.cmd pk) then mkWorld (asked w) (setLine (has w) (lineOf pk) ∅) else w
  | Lose p line => mkWorld (asked w) (setLine (has w) line (has w line ∖ {[p]}))
  end.

Inductive reachable : t -> world -> Prop :=
| reach_new : reachable (new ls lat ports) empty
| reach_move f w m l f' : reachable f w -> legal w m -> addressed m -> filterStep m f = Done (l, f') -> reachable f' (after w m).

(** ** What the filter knows *)

Definition item (f : t) (a : Z) : SnoopItem := map_get noItem (cachedLocations f) a.

Record knows (f : t) (w : world) : Prop := {
  kn_ports : slavePorts f = ports;
  kn_size : linesize f = ls;
  kn_asked : forall a p, isPort p -> p ∈ asked w a <-> Z.testbit (requested (item f a)) p = true;
  kn_has : forall a p, p ∈ has w a -> Z.testbit (holder (item f a)) p = true;
  kn_valid : forall a p, p ∈ asked w a \/ p ∈ has w a -> isPort p }.

Lemma item_with f a b i : item (withItem a i f) b = if b =? a then i else item f b.
Proof.
  unfold item, map_get. cbn [cachedLocations withItem]. destruct (Z.eqb_spec b a) as [->|Hne]; [by rewrite lookup_insert_eq|by rewrite lookup_insert_ne].
Qed.
Lemma item_stats f x b : item (withStats x f) b = item f b.
Proof. done. Qed.

(** One line changes, in the filter and in the caches. *)
Lemma knows_line f w f' a i x y : knows f w -> slavePorts f' = slavePorts f -> linesize f' = linesize f -> (forall b, item f' b = if b =? a then i else item f b) ->
  (forall p, isPort p -> p ∈ x <-> Z.testbit (requested i) p = true) -> (forall p, p ∈ y -> Z.testbit (holder i) p = true) -> (forall p, p ∈ x \/ p ∈ y -> isPort p) ->
  knows f' (mkWorld (setLine (asked w) a x) (setLine (has w) a y)).
Proof.
  intros [K1 K2 K3 K4 K5] Hp Hl Hi Hx Hy Hv. split; [congruence|congruence|..]; unfold setLine; cbn [asked has]; intros b p; rewrite ?Hi; destruct (b =? a); auto.
  apply K5.
Qed.

Lemma setLine_id (g : Z -> gset Z) a b : setLine g a (g a) b = g b.
Proof. unfold setLine. destruct (Z.eqb_spec b a) as [->|]; done. Qed.

(** The world matters up to the sets of each line. *)
Lemma knows_ext f w w' : (forall a, asked w' a = asked w a) -> (forall a, has w' a = has w a) -> knows f w -> knows f w'.
Proof. intros Ha Hh [K1 K2 K3 K4 K5]. split; try done; intros a p; rewrite ?Ha, ?Hh; [apply K3|apply K4|apply K5]. Qed.

Context (k : Z) (Hls : ls = 2 ^ k) (Hk : 0 <= k < 32).

Lemma lineAddr_ok f w pk : knows f w -> 0 <= Packet.addr pk < 2 ^ 32 -> lineAddr f (Packet.addr pk) = lineOf pk.
Proof.
  intros Hf Ha. unfold lineAddr, lineOf. rewrite (kn_size _ _ Hf), Hls. assert (0 < 2 ^ k) by (apply Z.pow_pos_nonneg; lia). assert (2 ^ k < 2 ^ 32) by (apply Z.pow_lt_mono_r; lia).
  unfold wrap. rewrite Z.mod_small by lia. replace (2 ^ k - 1) with (Z.ones k) by (rewrite Z.ones_equiv; lia).
  rewrite <-(land_bnot_mask (Packet.addr pk) k) by (unfold u64; lia). apply Z.bits_inj'. intros i Hi. rewrite !Z.land_spec, !testbit_bnot by lia.
  destruct (Z.ltb_spec i 32), (Z.ltb_spec i 64); try (done || lia). rewrite (testbit_above 32 (Packet.addr pk) i) by lia. done.
Qed.

(** One line of one of the two changes. *)
Lemma knows_move f w f' w' a i : knows f w -> (forall b, b <> a -> asked w' b = asked w b /\ has w' b = has w b) ->
  slavePorts f' = slavePorts f -> linesize f' = linesize f -> (forall b, item f' b = if b =? a then i else item f b) ->
  (forall p, isPort p -> p ∈ asked w' a <-> Z.testbit (requested i) p = true) -> (forall p, p ∈ has w' a -> Z.testbit (holder i) p = true) ->
  (forall p, p ∈ asked w' a \/ p ∈ has w' a -> isPort p) -> knows f' w'.
Proof.
  intros Hf Hw Hp Hl Hi Hx Hy Hv. apply (knows_ext _ (mkWorld (setLine (asked w) a (asked w' a)) (setLine (has w) a (has w' a)))); [..|by apply (knows_line f _ _ _ i)];
    intros b; unfold setLine; cbn [asked has]; destruct (Z.eqb_spec b a) as [->|Hne]; try done; by apply Hw.
Qed.

(** Whom a lookup has to name. *)
Definition concerned (w : world) (m : move) (q : Z) : Prop :=
  match m with
  | Ask p pk | AskAnswered p pk | WriteBack p pk | WriteBackRefused p pk => q <> p /\ (q ∈ asked w (lineOf pk) \/ q ∈ has w (lineOf pk))
  | Snoop pk => q ∈ asked w (lineOf pk) \/ q ∈ has w (lineOf pk)
  | _ => False
  end.

Context (Hports : Forall isPort ports).

Lemma interested_bits f w a q : knows f w -> q ∈ asked w a \/ q ∈ has w a -> Z.testbit (Z.lor (holder (item f a)) (requested (item f a))) q = true.
Proof.
  intros Hf Hq. assert (Hv : isPort q) by (eapply (kn_valid _ _ Hf); done). rewrite Z.lor_spec. apply orb_true_iff.
  destruct Hq as [Hq|Hq]; [right; by apply (kn_asked _ _ Hf)|left; by apply (kn_has _ _ Hf)].
Qed.

(** [f'] is [f] with the item [i] for the line [a]. *)
Definition changed (f f' : t) (a : Z) (i : SnoopItem) : Prop :=
  slavePorts f' = slavePorts f /\ linesize f' = linesize f /\ forall b, item f' b = if b =? a then i else item f b.

Lemma changed_with f a i : changed f (withItem a i f) a i.
Proof. do 2 (split; [done|]). intros b. apply item_with. Qed.
Lemma changed_twice f f' f'' a i j : changed f f' a i -> changed f' f'' a j -> changed f f'' a j.
Proof.
  intros (E1&E2&E3) (D1&D2&D3). split; [congruence|]. split; [congruence|]. intros b. rewrite D3, E3. by destruct (b =? a).
Qed.

Lemma knows_changed f w f' w' a i : knows f w -> changed f f' a i -> (forall b, b <> a -> asked w' b = asked w b /\ has w' b = has w b) ->
  (forall p, isPort p -> p ∈ asked w' a <-> Z.testbit (requested i) p = true) -> (forall p, p ∈ has w' a -> Z.testbit (holder i) p = true) ->
  (forall p, p ∈ asked w' a \/ p ∈ has w' a -> isPort p) -> knows f' w'.
Proof. intros Hf (E1&E2&E3) Hw. by eapply knows_move. Qed.

Section packet.
Context (f : t) (w : world) (pk : Packet.t) (Hf : knows f w) (Ha : Packet.getAddr pk = Done (Packet.addr pk)) (Hr : 0 <= Packet.addr pk < 2 ^ 32).
#[local] Abbreviation ln := (lineOf pk).
#[local] Abbreviation it := (item f (lineOf pk)).

Lemma lookupRequest_ok p : isPort p ->
  (MemCmd.needsResponse (Packet.cmd pk) = true -> if Packet.memInhibitAsserted pk then Z.testbit (holder it) p = true else Z.testbit (requested it) p = false) ->
  exists f', lookupRequest pk p f = Done (filter (fun q => Z.testbit (clearBits (Z.lor (holder it) (requested it)) (2 ^ p)) q = true) ports, lookupLatency f, f')
    /\ changed f f' ln (mkItem (if MemCmd.needsResponse (Packet.cmd pk) && negb (Packet.memInhibitAsserted pk) then Z.lor (requested it) (2 ^ p) else requested it) (holder it)).
Proof.
  intros Hp Hc. unfold lookupRequest. rewrite Ha. cbn [obind]. rewrite (lineAddr_ok f w) by done. rewrite portToMask_ok by done. cbn [obind]. fold (item f ln).
  assert (Hm : forall g, slavePorts g = slavePorts f -> maskToPortList (clearBits (Z.lor (holder it) (requested it)) (2 ^ p)) g = Done (filter (fun q => Z.testbit (clearBits (Z.lor (holder it) (requested it)) (2 ^ p)) q = true) ports)).
  { intros g Hg. unfold maskToPortList. rewrite Hg, (kn_ports _ _ Hf). by apply selectPorts_ok. }
  assert (Hi : it = mkItem (requested it) (holder it)) by (by destruct it).
  rewrite !land_port by apply Hp. destruct (MemCmd.needsResponse (Packet.cmd pk)) eqn:En; cbn [andb].
  - specialize (Hc eq_refl). destruct (Packet.memInhibitAsserted pk); cbn [negb]; rewrite Hc; cbn [obind]; rewrite Hm by done; cbn [obind]; eexists; (split; [done|]).
    + rewrite <-Hi. exact (changed_with f ln it).
    + eapply (changed_twice _ (withItem ln it f)); [apply changed_with|]. exact (changed_with _ ln _).
  - cbn [obind]. rewrite Hm by done. cbn [obind]. eexists; split; [done|]. rewrite <-Hi. exact (changed_with f ln it).
Qed.

Lemma refuse_ok p : isPort p -> exists f', updateRequest pk p true f = Done f' /\ changed f f' ln (mkItem (clearBits (requested it) (2 ^ p)) (holder it)).
Proof.
  intros Hp. unfold updateRequest. rewrite Ha. cbn [obind]. rewrite (lineAddr_ok f w), portToMask_ok by done. cbn [obind]. eexists; split; [done|]. apply changed_with.
Qed.

Lemma writeback_ok p : isPort p -> Packet.cmd pk = MemCmd.Writeback -> Z.testbit (requested it) p = false -> Z.testbit (holder it) p = true ->
  exists f', updateRequest pk p false f = Done f' /\ changed f f' ln (mkItem (requested it) (clearBits (holder it) (2 ^ p))).
Proof.
  intros Hp Hc H1' H2'. unfold updateRequest. rewrite Ha. cbn [obind]. rewrite (lineAddr_ok f w), portToMask_ok by done. cbn [obind]. fold (item f ln).
  rewrite Hc. change (negb (MemCmd.needsResponse MemCmd.Writeback)) with true. cbv iota. rewrite decide_True by done. rewrite !land_port, H1', H2' by apply Hp.
  eexists; split; [done|]. apply changed_with.
Qed.

(** The item after a response. *)
Definition givenItem (p : Z) : SnoopItem := mkItem (clearBits (requested it) (2 ^ p)) (Z.lor (if alone pk then 0 else holder it) (2 ^ p)).

Lemma updateResponse_ok p : isPort p -> MemCmd.isResponse (Packet.cmd pk) = true -> Z.testbit (requested it) p = true ->
  exists f', updateResponse pk p f = Done f' /\ changed f f' ln (givenItem p).
Proof.
  intros Hp Hc Hb. unfold updateResponse. rewrite Ha. cbn [obind]. rewrite (lineAddr_ok f w), portToMask_ok by done. cbn [obind]. fold (item f ln).
  rewrite Hc, land_port, Hb by apply Hp. eexists; split; [done|]. apply changed_with.
Qed.

Lemma updateSnoopResponse_ok q p : isPort q -> isPort p -> MemCmd.isResponse (Packet.cmd pk) = true -> Packet.memInhibitAsserted pk = true ->
  Z.testbit (holder it) q = true -> Z.testbit (requested it) p = true -> exists f', updateSnoopResponse pk q p f = Done f' /\ changed f f' ln (givenItem p).
Proof.
  intros Hq Hp Hc Hm Hb Hb'. unfold updateSnoopResponse. rewrite Ha. cbn [obind]. rewrite (lineAddr_ok f w), !portToMask_ok by done. cbn [obind]. fold (item f ln).
  rewrite Hc, Hm, !land_port, Hb, Hb' by apply Hp || apply Hq. cbn [negb]. rewrite decide_False by (intros E; by rewrite E in Hc). eexists; split; [done|]. apply changed_with.
Qed.

Lemma updateSnoopForward_ok q : isPort q -> MemCmd.isResponse (Packet.cmd pk) = true -> Packet.memInhibitAsserted pk = true ->
  exists f', updateSnoopForward pk q f = Done f' /\ changed f f' ln (mkItem (requested it) (if MemCmd.needsExclusive (Packet.cmd pk) then 0 else holder it)).
Proof.
  intros Hq Hc Hm. unfold updateSnoopForward. rewrite Ha. cbn [obind]. rewrite (lineAddr_ok f w), portToMask_ok by done. cbn [obind]. fold (item f ln).
  rewrite Hc, Hm. cbn [negb]. eexists; split; [done|]. destruct (MemCmd.needsExclusive (Packet.cmd pk)); [apply changed_with|].
  replace (mkItem (requested it) (holder it)) with it by (by destruct it). apply changed_with.
Qed.

Lemma lookupSnoop_ok : MemCmd.isRequest (Packet.cmd pk) = true -> MemCmd.isInvalidate (Packet.cmd pk) = MemCmd.needsExclusive (Packet.cmd pk) ->
  exists f', lookupSnoop pk f = Done (filter (fun q => Z.testbit (Z.lor (holder it) (requested it)) q = true) ports, lookupLatency f, f')
    /\ changed f f' ln (mkItem (requested it) (if MemCmd.isInvalidate (Packet.cmd pk) && (requested it =? 0) then 0 else holder it)).
Proof.
  intros Hq Hi. unfold lookupSnoop. rewrite Hq, Ha. cbn [obind negb]. rewrite (lineAddr_ok f w) by done. fold (item f ln).
  rewrite <-Hi, Bool.eqb_reflx. cbn [negb]. unfold maskToPortList. cbn [slavePorts withStats]. rewrite (kn_ports _ _ Hf), selectPorts_ok by done. cbn [obind].
  eexists; split; [done|]. destruct (MemCmd.isInvalidate (Packet.cmd pk) && (requested it =? 0)); [exact (changed_with f ln _)|].
  replace (mkItem (requested it) (holder it)) with it by (by destruct it). exact (changed_with f ln _).
Qed.

End packet.

(** ** The filter keeps up with the caches *)

Lemma setLine_eq (g : Z -> gset Z) a x : setLine g a x a = x.
Proof. unfold setLine. by rewrite Z.eqb_refl. Qed.
Lemma setLine_ne (g : Z -> gset Z) a b x : b <> a -> setLine g a x b = g b.
Proof. intros Hne. unfold setLine. by rewrite (proj2 (Z.eqb_neq b a) Hne). Qed.

#[local] Ltac line_cases :=
  cbn [asked has requested holder after given givenItem]; rewrite ?setLine_eq;
  repeat match goal with |- forall _, _ <> _ -> _ => intros ? ?; split; by rewrite ?setLine_ne end.

Lemma given_knows f w f' p pk : knows f w -> isPort p -> p ∈ asked w (lineOf pk) -> changed f f' (lineOf pk) (givenItem f pk p) -> knows f' (given p pk w).
Proof.
  intros Hf Hp Hq Hc. eapply (knows_changed f w); [done|done|line_cases..].
  - intros q Hv. rewrite clear_port by done. rewrite andb_true_iff, negb_true_iff, Z.eqb_neq, <-(kn_asked _ _ Hf) by done. set_solver.
  - intros q. rewrite lor_port by apply Hp. rewrite orb_true_iff, Z.eqb_eq. destruct (alone pk); [set_solver|].
    intros [Hin|Hin]%elem_of_union; [left; by apply (kn_has _ _ Hf)|set_solver].
  - intros q Hin. destruct (decide (q = p)) as [->|Hne]; [done|]. apply (kn_valid _ _ Hf (lineOf pk)). destruct (alone pk); set_solver.
Qed.

(** A change of who has the line alone. *)
Lemma has_knows f w f' a i y : knows f w -> changed f f' a i -> requested i = requested (item f a) -> y ⊆ has w a -> (forall q, q ∈ y -> Z.testbit (holder i) q = true) ->
  knows f' (mkWorld (asked w) (setLine (has w) a y)).
Proof.
  intros Hf Hc Hi Hy Hh. eapply (knows_changed f w); [done|done|line_cases..].
  - intros q Hv. rewrite Hi. by apply (kn_asked _ _ Hf).
  - done.
  - intros q Hq. apply (kn_valid _ _ Hf a). set_solver.
Qed.

Lemma same_knows f w f' a i : knows f w -> changed f f' a i -> requested i = requested (item f a) -> holder i = holder (item f a) -> knows f' w.
Proof.
  intros Hf Hc Hi Hh. eapply (knows_changed f w); [done|done|done|..].
  - intros q Hv. rewrite Hi. by apply (kn_asked _ _ Hf).
  - intros q. rewrite Hh. apply (kn_has _ _ Hf).
  - intros q. apply (kn_valid _ _ Hf).
Qed.

Lemma asked_knows f w f' a i x : knows f w -> changed f f' a i -> holder i = holder (item f a) -> (forall q, isPort q -> q ∈ x <-> Z.testbit (requested i) q = true) ->
  (forall q, q ∈ x -> isPort q) -> knows f' (mkWorld (setLine (asked w) a x) (has w)).
Proof.
  intros Hf Hc Hh Hx Hv. eapply (knows_changed f w); [done|done|line_cases..].
  - done.
  - intros q Hq. rewrite Hh. by apply (kn_has _ _ Hf).
  - intros q [Hq|Hq]; [by apply Hv|by eapply (kn_valid _ _ Hf); right].
Qed.

Lemma told f w pk p q : knows f w -> isPort p -> q ∈ ports -> q <> p -> q ∈ asked w (lineOf pk) \/ q ∈ has w (lineOf pk) ->
  q ∈ filter (fun q => Z.testbit (clearBits (Z.lor (holder (item f (lineOf pk))) (requested (item f (lineOf pk)))) (2 ^ p)) q = true) ports.
Proof.
  intros Hf Hp Hq Hne Hin. apply list_elem_of_filter. split; [|done]. assert (Hv : isPort q) by (by apply (kn_valid _ _ Hf (lineOf pk))).
  rewrite clear_port, (interested_bits f w) by done. cbn [andb]. rewrite negb_true_iff. apply Z.eqb_neq. done.
Qed.

(** The step succeeds, the filter follows, and its answer names everyone concerned. *)
Definition follows (f : t) (w : world) (m : move) : Prop :=
  exists l f', filterStep m f = Done (l, f') /\ knows f' (after w m) /\ forall q, q ∈ ports -> concerned w m q -> q ∈ l.

Section steps.
Context (f : t) (w : world) (Hf : knows f w) (pk : Packet.t) (Ha : Packet.getAddr pk = Done (Packet.addr pk)) (Hr : 0 <= Packet.addr pk < 2 ^ 32).
#[local] Abbreviation Kr := (kn_asked _ _ Hf).
#[local] Abbreviation Kh := (kn_has _ _ Hf).
#[local] Abbreviation Kv := (kn_valid _ _ Hf (lineOf pk)).

Lemma not_requested p : isPort p -> p ∉ asked w (lineOf pk) -> Z.testbit (requested (item f (lineOf pk))) p = false.
Proof. intros Hp Hq. destruct (Z.testbit _ p) eqn:Eb; [|done]. by apply Kr in Eb. Qed.

Lemma ask_follows p : legal w (Ask p pk) -> follows f w (Ask p pk).
Proof.
  intros (Hp&Hn&Hi&Hq). destruct (lookupRequest_ok f w pk Hf Ha Hr p Hp) as (f'&E&Hc); [intros _; rewrite Hi; by apply not_requested|].
  unfold follows. cbn [filterStep concerned]. rewrite E. cbn [obind]. eexists _, f'. split; [done|]. split; [|intros q Hq' [Hne Hin]; by eapply told].
  rewrite Hn, Hi in Hc. cbn [andb negb after] in *. eapply asked_knows; [done|done|done|..]; cbn [requested].
  - intros q Hv. rewrite lor_port, orb_true_iff, Z.eqb_eq, <-Kr by (done || apply Hp). set_solver.
  - intros q [Hin|Hin]%elem_of_union; [by apply Kv; left|set_solver].
Qed.

Lemma askAnswered_follows p : legal w (AskAnswered p pk) -> follows f w (AskAnswered p pk).
Proof.
  intros (Hn&Hi&Hq). assert (Hp : isPort p) by (apply Kv; by right). destruct (lookupRequest_ok f w pk Hf Ha Hr p Hp) as (f'&E&Hc); [intros _; rewrite Hi; by apply Kh|].
  unfold follows. cbn [filterStep concerned]. rewrite E. cbn [obind]. eexists _, f'. split; [done|]. split; [|intros q Hq' [Hne Hin]; by eapply told].
  rewrite Hn, Hi in Hc. by eapply same_knows.
Qed.

Lemma refuse_follows p : legal w (Refuse p pk) -> follows f w (Refuse p pk).
Proof.
  intros Hq. assert (Hp : isPort p) by (apply Kv; by left). destruct (refuse_ok f w pk Hf Ha Hr p Hp) as (f'&E&Hc).
  unfold follows. cbn [filterStep concerned]. rewrite E. cbn [obind]. eexists _, f'. split; [done|]. split; [|done]. eapply asked_knows; [done|done|done|..]; cbn [requested].
  - intros q Hv. rewrite clear_port, andb_true_iff, negb_true_iff, Z.eqb_neq, <-Kr by done. set_solver.
  - intros q Hin. apply Kv. set_solver.
Qed.

Lemma answer_follows p : legal w (Answer p pk) -> follows f w (Answer p pk).
Proof.
  intros (Hc&Hq). assert (Hp : isPort p) by (apply Kv; by left). destruct (updateResponse_ok f w pk Hf Ha Hr p Hp Hc) as (f'&E&Hc'); [by apply Kr|].
  unfold follows. cbn [filterStep]. rewrite E. cbn [obind]. eexists _, f'. split; [done|]. split; [by eapply given_knows|done].
Qed.

Lemma answerFrom_follows q p : legal w (AnswerFrom q p pk) -> follows f w (AnswerFrom q p pk).
Proof.
  intros (Hc&Hi&Hh&Hq). assert (Hp : isPort p) by (apply Kv; by left). assert (Hp' : isPort q) by (apply Kv; by right).
  destruct (updateSnoopResponse_ok f w pk Hf Ha Hr q p Hp' Hp Hc Hi) as (f'&E&Hc'); [by apply Kh|by apply Kr|].
  unfold follows. cbn [filterStep]. rewrite E. cbn [obind]. eexists _, f'. split; [done|]. split; [by eapply given_knows|done].
Qed.

Lemma snoop_follows : legal w (Snoop pk) -> follows f w (Snoop pk).
Proof.
  intros (Hq&Hi). destruct (lookupSnoop_ok f w pk Hf Ha Hr Hq Hi) as (f'&E&Hc). unfold follows. cbn [filterStep concerned]. rewrite E. cbn [obind]. eexists _, f'. split; [done|]. split.
  - cbn [after]. destruct (MemCmd.isInvalidate (Packet.cmd pk)); cbn [andb] in Hc; [|by eapply same_knows]. eapply has_knows; [done|done|done|set_solver|set_solver].
  - intros q Hq' Hin. apply list_elem_of_filter. split; [by eapply interested_bits|done].
Qed.

Lemma answerBelow_follows q : legal w (AnswerBelow q pk) -> follows f w (AnswerBelow q pk).
Proof.
  intros (Hq&Hc&Hi). destruct (updateSnoopForward_ok f w pk Hf Ha Hr q Hq Hc Hi) as (f'&E&Hc'). unfold follows. cbn [filterStep]. rewrite E. cbn [obind]. eexists _, f'. split; [done|].
  split; [|done]. cbn [after]. destruct (MemCmd.needsExclusive (Packet.cmd pk)); [|by eapply same_knows]. eapply has_knows; [done|done|done|set_solver|set_solver].
Qed.

End steps.

(** The lookup of a writeback changes nothing. *)
Lemma writeBack_lookup f w p pk : knows f w -> Packet.getAddr pk = Done (Packet.addr pk) -> 0 <= Packet.addr pk < 2 ^ 32 -> legal w (WriteBack p pk) ->
  isPort p /\ exists l f', lookupRequest pk p f = Done (l, lookupLatency f, f') /\ knows f' w /\ forall q, q ∈ ports -> concerned w (WriteBack p pk) q -> q ∈ l.
Proof.
  intros Hf Ha Hr (Hc&Hh&Hq). assert (Hp : isPort p) by (apply (kn_valid _ _ Hf (lineOf pk)); by right). split; [done|].
  destruct (lookupRequest_ok f w pk Hf Ha Hr p Hp) as (f1&E&Hc1); [by rewrite Hc|]. rewrite Hc in Hc1. change (MemCmd.needsResponse MemCmd.Writeback) with false in Hc1. cbn [andb] in Hc1.
  eexists _, f1. split; [done|]. split; [by eapply same_knows|]. intros q Hq' [Hne Hin]. by eapply told.
Qed.

(** What is left to do when it is taken, and when it is refused. *)
Lemma writeBack_taken f w p pk : knows f w -> Packet.getAddr pk = Done (Packet.addr pk) -> 0 <= Packet.addr pk < 2 ^ 32 -> legal w (WriteBack p pk) ->
  exists f', updateRequest pk p false f = Done f' /\ knows f' (after w (WriteBack p pk)).
Proof.
  intros Hf Ha Hr (Hc&Hh&Hq). assert (Hp : isPort p) by (apply (kn_valid _ _ Hf (lineOf pk)); by right).
  destruct (writeback_ok f w pk Hf Ha Hr p Hp Hc) as (f2&E2&Hc2); [by eapply not_requested|by apply (kn_has _ _ Hf)|]. exists f2. split; [done|].
  eapply (has_knows f w); [done|done|done|set_solver|]. intros q Hin. cbn [holder]. assert (Hv : isPort q) by (apply (kn_valid _ _ Hf (lineOf pk)); set_solver).
  rewrite clear_port, (kn_has _ _ Hf) by (done || set_solver). cbn [andb]. rewrite negb_true_iff. apply Z.eqb_neq. set_solver.
Qed.

Lemma unmark_knows f w p pk : knows f w -> Packet.getAddr pk = Done (Packet.addr pk) -> 0 <= Packet.addr pk < 2 ^ 32 -> isPort p -> p ∉ asked w (lineOf pk) ->
  exists f', updateRequest pk p true f = Done f' /\ knows f' w.
Proof.
  intros Hf Ha Hr Hp Hq. destruct (refuse_ok f w pk Hf Ha Hr p Hp) as (f'&E&Hc). exists f'. split; [done|].
  eapply (knows_changed f w); [done|done|done|..]; cbn [requested holder].
  - intros q Hv. rewrite clear_port, andb_true_iff, negb_true_iff, Z.eqb_neq, <-(kn_asked _ _ Hf) by done. split; [|tauto]. intros Hin. split; [done|]. by intros ->.
  - intros q. apply (kn_has _ _ Hf).
  - intros q. apply (kn_valid _ _ Hf).
Qed.

Lemma writeBack_follows f w p pk : knows f w -> Packet.getAddr pk = Done (Packet.addr pk) -> 0 <= Packet.addr pk < 2 ^ 32 -> legal w (WriteBack p pk) -> follows f w (WriteBack p pk).
Proof.
  intros Hf Ha Hr Hl. destruct (writeBack_lookup f w p pk Hf Ha Hr Hl) as (Hp&l&f1&E&Hf1&Hq). destruct (writeBack_taken f1 w p pk Hf1 Ha Hr Hl) as (f2&E2&Hf2).
  unfold follows. cbn [filterStep]. rewrite E. cbn [obind]. rewrite E2. by eexists _, f2.
Qed.

Lemma writeBackRefused_follows f w p pk : knows f w -> Packet.getAddr pk = Done (Packet.addr pk) -> 0 <= Packet.addr pk < 2 ^ 32 -> legal w (WriteBackRefused p pk) ->
  follows f w (WriteBackRefused p pk).
Proof.
  intros Hf Ha Hr Hl. destruct (writeBack_lookup f w p pk Hf Ha Hr Hl) as (Hp&l&f1&E&Hf1&Hq). destruct Hl as (_&_&Hno).
  destruct (unmark_knows f1 w p pk Hf1 Ha Hr Hp Hno) as (f2&E2&Hf2). unfold follows. cbn [filterStep]. rewrite E. cbn [obind]. rewrite E2. by eexists _, f2.
Qed.

Lemma lose_follows f w p line : knows f w -> follows f w (Lose p line).
Proof.
  intros Hf. eexists _, f. split; [done|]. split; [|done]. cbn [after]. eapply (has_knows f w f line (item f line)); [done| |done|set_solver|intros r Hr; apply (kn_has _ _ Hf); set_solver].
  do 2 (split; [done|]). intros b. by destruct (Z.eqb_spec b line) as [->|].
Qed.

Lemma step_follows f w m : knows f w -> legal w m -> addressed m -> follows f w m.
Proof.
  intros Hf Hm Ha. unfold addressed in Ha. destruct m; cbn [packetOf] in Ha; try destruct Ha as [Ha Hr];
    by eauto using ask_follows, askAnswered_follows, refuse_follows, writeBack_follows, writeBackRefused_follows, answer_follows, answerFrom_follows, snoop_follows, answerBelow_follows, lose_follows.
Qed.

(** ** A packet on its way through a crossbar *)

(** A request or a writeback of [p], and the caches between its lookup and the
    answer of the port below. *)
Definition sends (p : Z) (pk : Packet.t) (m : move) : Prop := m = Ask p pk \/ m = WriteBack p pk.
Definition between (w : world) (m : move) : world := match m with Ask _ _ => after w m | _ => w end.

Lemma sends_lookup f w m p pk : sends p pk m -> knows f w -> legal w m -> addressed m ->
  isPort p /\ exists l f', lookupRequest pk p f = Done (l, lookupLatency f, f') /\ knows f' (between w m) /\ forall q, q ∈ ports -> concerned w m q -> q ∈ l.
Proof.
  intros [-> | ->] Hf Hm Ha; [|by destruct Ha as [Ha Hr]; apply writeBack_lookup].
  destruct (step_follows f w (Ask p pk) Hf Hm Ha) as (l&f'&E&Hk'&Hq). destruct Hm as (Hp&Hnr&Hi&Hno). destruct Ha as [Ha Hr]. split; [done|].
  destruct (lookupRequest_ok f w pk Hf Ha Hr p Hp) as (f2&E2&_); [intros _; rewrite Hi; by eapply not_requested|]. cbn [filterStep] in E. rewrite E2 in E. cbn [obind] in E. injection E as <- <-.
  rewrite E2. by eexists _, _.
Qed.

(** The packet the filter sees afterwards has the same address and command. *)
Lemma sends_answered f w m p pk pk' b : sends p pk m -> knows f (between w m) -> legal w m -> addressed m -> isPort p ->
  Packet.getAddr pk' = Packet.getAddr pk -> Packet.addr pk' = Packet.addr pk -> Packet.cmd pk' = Packet.cmd pk ->
  exists f', updateRequest pk' p (negb b) f = Done f' /\ knows f' (if b then after w m else w).
Proof.
  intros Hs Hf Hm Ha Hp E1 E2 E3. assert (El : lineOf pk' = lineOf pk) by (unfold lineOf; by rewrite E2).
  assert (Ha' : Packet.getAddr pk' = Done (Packet.addr pk') /\ 0 <= Packet.addr pk' < 2 ^ 32) by (rewrite E1, E2; destruct Hs as [-> | ->]; exact Ha). destruct Ha' as [Ha1 Ha2].
  destruct Hs as [-> | ->]; cbn [between] in Hf; destruct b; cbn [negb].
  - destruct Hm as (_&Hnr&_). unfold updateRequest. rewrite Ha1. cbn [obind]. rewrite (lineAddr_ok f _ pk' Hf Ha2), portToMask_ok by done. cbn [obind]. rewrite E3, Hnr. cbn [negb].
    eexists. split; [done|]. eapply same_knows; [done|apply changed_with|done|done].
  - destruct Hm as (_&_&_&Hno). destruct (step_follows f (after w (Ask p pk)) (Refuse p pk') Hf) as (l&f'&E&Hk'&_); [|done|].
    { cbn [legal]. rewrite El. cbn [after asked]. unfold setLine. rewrite Z.eqb_refl. set_solver. }
    cbn [filterStep] in E. apply obind_Done in E as (f2&E4&[= _ <-]). exists f2. split; [done|]. eapply knows_ext; [| |exact Hk']; intros a; cbn [after asked has]; rewrite ?El; unfold setLine; [|done].
    destruct (Z.eqb_spec a (lineOf pk)) as [->|]; [|done]. rewrite Z.eqb_refl. set_solver.
  - destruct (writeBack_taken f w p pk' Hf Ha1 Ha2) as (f'&E&Hk'); [destruct Hm as (H1'&H2'&H3'); unfold legal; by rewrite El, E3|]. exists f'. split; [done|].
    cbn [after] in *. by rewrite El in Hk'.
  - apply unmark_knows; [done..|]. rewrite El. by destruct Hm as (_&_&Hno).
Qed.

Lemma reachable_knows f w : reachable f w -> knows f w.
Proof.
  induction 1 as [|f w m l f' Hre IH Hl Ha E]; [|destruct (step_follows f w m IH Hl Ha) as (l'&g&E'&Hg&_); congruence].
  split; [done|done|..]; intros a p; cbn [asked has empty]; [|set_solver..]. intros Hp. change (item (new ls lat ports) a) with noItem. cbn [requested noItem]. rewrite Z.bits_0. set_solver.
Qed.

End caches.

(** C36: Whatever requests, writebacks, refusals of either, responses and snoops
    have gone through the filter, with ports numbered below 64 and addresses below 4 GB,
    the next one the protocol allows runs to its end with no panic, and the
    answer to a request, a writeback or a snoop names every cache (but the one
    that asks) that waits for the line or has it. *)
Theorem snoop_filter_sound ls lat ports k f w m : ls = 2 ^ k -> 0 <= k < 32 -> Forall isPort ports ->
  reachable ls lat ports f w -> legal ls w m -> addressed m ->
  exists l f', filterStep m f = Done (l, f') /\ reachable ls lat ports f' (after ls w m) /\ forall q, q ∈ ports -> concerned ls w m q -> q ∈ l.
Proof.
  intros Hls Hk Hp Hf Hl Ha. destruct (step_follows ls ports k Hls Hk Hp f w m) as (l&f'&E&_&Hq); [by eapply reachable_knows|done|done|].
  eexists l, f'. split; [done|]. split; [by eapply reach_move|done].
Qed.

(** ** Runs *)

Definition packet (a : Z) (c : MemCmd.Command) : Packet.t := Packet.new (Request.physical a 64 0 0 0) c.
Definition three : t := new 64 1 [0; 1; 2].

Definition stepped (m : move) (f : t) : t := match filterStep m f with Done (_, f') => f' | _ => f end.
Definition firstAsks : move := Ask 0 (packet 0x1040 MemCmd.ReadReq).
Definition firstGets : move := Answer 0 (packet 0x1040 MemCmd.ReadResp).
Definition secondAsks : move := Ask 1 (packet 0x1040 MemCmd.ReadReq).

(** The second cache asks for a line the first was given. *)
Lemma snoop_filter_sound_witness : exists l f', filterStep secondAsks (stepped firstGets (stepped firstAsks three)) = Done (l, f') /\ 0 ∈ l.
Proof.
  destruct (snoop_filter_sound 64 1 [0; 1; 2] 6 (stepped firstGets (stepped firstAsks three)) (after 64 (after 64 empty firstAsks) firstGets) secondAsks) as (l & f' & E & _ & Hq).
  - reflexivity.
  - lia.
  - repeat constructor; unfold isPort; lia.
  - apply (reach_move _ _ _ (stepped firstAsks three) _ firstGets []); [apply (reach_move _ _ _ three _ firstAsks []); [apply reach_new|..]|..].
    + split; [unfold isPort; lia|]. do 2 (split; [reflexivity|]). apply (bool_decide_unpack _). vm_compute. exact I.
    + split; [reflexivity|vm_compute; split; [intros E; discriminate E|reflexivity]].
    + vm_compute. reflexivity.
    + split; [reflexivity|]. apply (bool_decide_unpack _). vm_compute. exact I.
    + split; [reflexivity|vm_compute; split; [intros E; discriminate E|reflexivity]].
    + vm_compute. reflexivity.
  - split; [unfold isPort; lia|]. do 2 (split; [reflexivity|]). apply (bool_decide_unpack _). vm_compute. exact I.
  - split; [reflexivity|vm_compute; split; [intros E; discriminate E|reflexivity]].
  - exists l, f'. split; [exact E|]. apply (Hq 0); [left|]. split; [discriminate|]. right. apply (bool_decide_unpack _). vm_compute. exact I.
Defined.

(** Finding: the line mask is 32 bits wide, so lines 4 GB apart share an entry,
    and a cache that waits for one cannot ask for the other. *)
Theorem high_lines_collide : filterStep (Ask 0 (packet 0x100001040 MemCmd.ReadReq)) three <> Exited /\
  filterStep (Ask 0 (packet 0x100001040 MemCmd.ReadReq)) (stepped firstAsks three) = Exited.
Proof. split; [vm_compute; discriminate|vm_compute; reflexivity]. Qed.

Definition gatherLine (a : Z) : Packet.t :=
  Packet.new (Request.setPaddr (a - a mod 8) (Request.virtual 0 0 a 8 Request.GATHER 3 0x400 0 0)) MemCmd.ReadReq.

(** Finding: a cache has the plain and the gathered form of a line as two lines,
    the filter as one: a cache that waits for both stops the simulation. *)
Theorem gather_double_request : Packet.getCacheAddr (packet 0x1040 MemCmd.ReadReq) <> Packet.getCacheAddr (gatherLine 0x1043) /\
  filterStep (Ask 0 (gatherLine 0x1043)) (stepped firstAsks three) = Exited.
Proof. split; [vm_compute; discriminate|vm_compute; reflexivity]. Qed.

(** Finding: zero counts as a power of two, so a line nobody has is a hit with a
    single holder from the second time on. *)
Theorem empty_hit_single : let snoop := Snoop (packet 0x1040 MemCmd.ReadReq) in
  hitSingleSnoops (st (stepped snoop (stepped snoop three))) = 1 /\ item (stepped snoop (stepped snoop three)) 0x1040 = noItem.
Proof. split; vm_compute; reflexivity. Qed.

(** Finding: a refused packet unmarks the line for its port, also a writeback,
    which had not marked it: the response the port waits for then stops the
    simulation. *)
Theorem refused_writeback_unmarks : let f := stepped (Refuse 0 (packet 0x1040 MemCmd.Writeback)) (stepped firstAsks three) in
  filterStep firstGets (stepped firstAsks three) <> Exited /\ filterStep firstGets f = Exited.
Proof. split; [vm_compute; discriminate|vm_compute; reflexivity]. Qed.

End SnoopFilter.
