(* ===== verification/NoncoherentXBar.v ===== *)
(** * The non-coherent crossbar: gem5/src/mem/noncoherent_xbar.cc

    One request layer for each port below, one response layer for each port
    above, and a table from requests to the ports they came from.  What the
    neighbours answer is an argument of the functions: whether the port below
    takes a request, and what a port does when it is sent a retry. *)

From Stdlib Require Import ZArith Lia.
From stdpp Require Import base gmap numbers list.
From S2P Require Import Prelude Bits AddrRange AddrRangeMap XBar XBarLayer MemCmd Request Packet ClockedObject.

#[local] Open Scope Z_scope.
#[local] Open Scope outcome_scope.

Module NoncoherentXBar.
Import XBarLayer.

Record params := mkParams {
  frontendLatency : Z;
  forwardLatency : Z;
  responseLatency : Z;
  width : Z;
  clockPeriod : Z;
  us : Z
}.

(** Packets and bytes by source and destination, packets by command. *)
Record stats := mkStats {
  pktCount : gmap (Z * Z) Z;
  pktSize : gmap (Z * Z) Z;
  transDist : MemCmd.Command -> Z
}.

(** A request is known by its address. *)
Record t := mk {
  base : XBar.t;
  clk : ClockedObject.t;
  reqLayers : list layer;
  respLayers : list layer;
  routeTo : gmap nat Z;
  st : stats
}.

Definition new (masters slaves : nat) (hasDefault useDefault : bool) : t :=
  mk (XBar.clearPortCache (XBar.new masters hasDefault useDefault)) ClockedObject.new (replicate (masters + (if hasDefault then 1 else 0)) newLayer)
    (replicate slaves newLayer) ∅ (mkStats ∅ ∅ (fun _ => 0)).

Definition withBase (b : XBar.t) (x : t) : t := mk b (clk x) (reqLayers x) (respLayers x) (routeTo x) (st x).
Definition withClk (c : ClockedObject.t) (x : t) : t := mk (base x) c (reqLayers x) (respLayers x) (routeTo x) (st x).
Definition withReqs (l : list layer) (x : t) : t := mk (base x) (clk x) l (respLayers x) (routeTo x) (st x).
Definition withResps (l : list layer) (x : t) : t := mk (base x) (clk x) (reqLayers x) l (routeTo x) (st x).
Definition withRoutes (m : gmap nat Z) (x : t) : t := mk (base x) (clk x) (reqLayers x) (respLayers x) m (st x).
Definition withStats (s : stats) (x : t) : t := mk (base x) (clk x) (reqLayers x) (respLayers x) (routeTo x) s.

Definition index (i : Z) : option nat := if 0 <=? i then Some (Z.to_nat i) else None.
Definition getReq (i : Z) (x : t) : option layer := match index i with Some n => reqLayers x !! n | None => None end.
Definition putReq (i : Z) (l : layer) (x : t) : t := withReqs (<[Z.to_nat i := l]> (reqLayers x)) x.
Definition getResp (i : Z) (x : t) : option layer := match index i with Some n => respLayers x !! n | None => None end.
Definition putResp (i : Z) (l : layer) (x : t) : t := withResps (<[Z.to_nat i := l]> (respLayers x)) x.

(** ** Timing *)

Definition withDelays (h p : Z) (pk : Packet.t) : Packet.t :=
  Packet.mk (Packet.flags pk) (Packet.cmd pk) (Packet.req pk) (Packet.data pk) (Packet.addr pk) (Packet.isSecure_ pk) (Packet.size pk) (Packet.origCmd pk)
    (Packet.bytesValid pk) h p (Packet.senderState pk).

Section crossbar.
Context (prm : params) (now : Z).

Definition clockEdge (cycles : Z) (x : t) : Z * t :=
  let '(e, c) := ClockedObject.clockEdge now (clockPeriod prm) cycles (clk x) in (e, withClk c x).

(** The delays of a packet are 32 bits wide. *)
Definition calcPacketTiming (header_delay : Z) (pk : Packet.t) (x : t) : outcome (Packet.t * t) :=
  let '(edge, x) := clockEdge 0 x in
  let offset := wrap 64 (edge - now) in
  let header := wrap 32 (Packet.headerDelay pk + wrap 64 (offset + header_delay)) in
  if us prm <? header then Exited
  else if MemCmd.hasData (Packet.cmd pk) then
    let! n := Packet.getSize pk in
    if width prm =? 0 then Exited
    else
      let beats := wrap 32 (n + width prm - 1) / width prm in
      Done (withDelays header (wrap 32 (Z.max (Packet.payloadDelay pk) (wrap 64 (beats * clockPeriod prm)))) pk, x)
  else Done (withDelays header (Packet.payloadDelay pk) pk, x).

Definition dataSize (pk : Packet.t) : outcome Z := if MemCmd.hasData (Packet.cmd pk) then Packet.getSize pk else Done 0.

Definition countPacket (src dst n : Z) (c : MemCmd.Command) (s : stats) : stats :=
  mkStats (<[(src, dst) := map_get 0 (pktCount s) (src, dst) + 1]> (pktCount s)) (<[(src, dst) := map_get 0 (pktSize s) (src, dst) + n]> (pktSize s))
    (fun d => if decide (d = c) then transDist s d + 1 else transDist s d).

(** ** Requests *)

(** [accepts]: the answer of the port below to [sendTimingReq]. *)
Definition recvTimingReq (r : nat) (pk : Packet.t) (slave_port_id : Z) (accepts : bool) (x : t) : outcome (bool * Packet.t * t) :=
  if Packet.isExpressSnoop pk then Exited
  else
    let! a := Packet.getAddr pk in
    let! (master_port_id, b) := XBar.findPort a (base x) in
    let x := withBase b x in
    match getReq master_port_id x with
    | None => Exited
    | Some l =>
        let! (free, l) := tryTiming slave_port_id l in
        let x := putReq master_port_id l x in
        if negb free then Done (false, pk, x)
        else
          let! pkt_size := dataSize pk in
          let old_header_delay := Packet.headerDelay pk in
          let xbar_delay := wrap 64 (wrap 64 (frontendLatency prm + forwardLatency prm) * clockPeriod prm) in
          let! (pk', x) := calcPacketTiming xbar_delay pk x in
          let '(edge, x) := clockEdge 1 x in
          let packetFinishTime := wrap 64 (edge + Packet.payloadDelay pk') in
          let expect_response := MemCmd.needsResponse (Packet.cmd pk) && negb (Packet.memInhibitAsserted pk) in
          if negb accepts then
            if Packet.memInhibitAsserted pk then Exited
            else
              let '(edge, x) := clockEdge 1 x in
              let! l := failedTiming now slave_port_id edge l in
              Done (false, withDelays old_header_delay (Packet.payloadDelay pk') pk', putReq master_port_id l x)
          else
            let! x :=
              (if expect_response then
                 match routeTo x !! r with
                 | Some _ => Exited
                 | None => Done (withRoutes (<[r := slave_port_id]> (routeTo x)) x)
                 end
               else Done x) in
            let! l := succeededTiming now packetFinishTime l in
            Done (true, pk', withStats (countPacket slave_port_id master_port_id pkt_size (Packet.cmd pk) (st x)) (putReq master_port_id l x))
    end.

(** ** Responses *)

(** The port above that gets the response, if it goes through; [accepts]: its answer. *)
Definition recvTimingResp (r : nat) (pk : Packet.t) (master_port_id : Z) (accepts : bool) (x : t) : outcome (option Z * t) :=
  match routeTo x !! r with
  | None => Exited
  | Some slave_port_id =>
      if slave_port_id =? XBar.InvalidPortID then Exited
      else match getResp slave_port_id x with
      | None => Exited
      | Some l =>
          let! (free, l) := tryTiming master_port_id l in
          let x := putResp slave_port_id l x in
          if negb free then Done (None, x)
          else
            let! pkt_size := dataSize pk in
            let xbar_delay := wrap 64 (responseLatency prm * clockPeriod prm) in
            let! (pk', x) := calcPacketTiming xbar_delay pk x in
            let '(edge, x) := clockEdge 1 x in
            let packetFinishTime := wrap 64 (edge + Packet.payloadDelay pk') in
            if negb accepts then Exited
            else
              let x := withRoutes (delete r (routeTo x)) x in
              let! l := succeededTiming now packetFinishTime l in
              Done (Some slave_port_id, withStats (countPacket slave_port_id master_port_id pkt_size (Packet.cmd pk) (st x)) (putResp slave_port_id l x))
      end
  end.

(** ** Retries *)

(** What a port does when it is sent a retry: nothing, or offer a packet. *)
Definition reactReq (reaction : option (nat * Packet.t * bool)) (p : Z) (x : t) : outcome t :=
  match reaction with
  | None => Done x
  | Some (r, pk, accepts) => let! (_, _, x) := recvTimingReq r pk p accepts x in Done x
  end.
Definition reactResp (reaction : option (nat * Packet.t * bool)) (p : Z) (x : t) : outcome t :=
  match reaction with
  | None => Done x
  | Some (r, pk, accepts) => let! (_, x) := recvTimingResp r pk p accepts x in Done x
  end.

Definition recvReqRetry (master_port_id : Z) (reaction : option (nat * Packet.t * bool)) (x : t) : outcome t :=
  recvRetry (getReq master_port_id) (putReq master_port_id) (clockEdge 0) (reactReq reaction) now x.

(** The release events of the layers. *)
Definition releaseReq (i : Z) (reaction : option (nat * Packet.t * bool)) (x : t) : outcome (bool * t) :=
  match getReq i x with
  | Some l => releaseLayer (getReq i) (putReq i) (clockEdge 0) (reactReq reaction) now (putReq i (fired l) x)
  | None => Exited
  end.
Definition releaseResp (i : Z) (reaction : option (nat * Packet.t * bool)) (x : t) : outcome (bool * t) :=
  match getResp i x with
  | Some l => releaseLayer (getResp i) (putResp i) (clockEdge 0) (reactResp reaction) now (putResp i (fired l) x)
  | None => Exited
  end.

End crossbar.

(** ** Atomic and functional accesses *)

(** [below p pk]: the latency of the port [p] and the packet after it. *)
Definition recvAtomic (below : Z -> Packet.t -> outcome (Z * Packet.t)) (pk : Packet.t) (slave_port_id : Z) (x : t) : outcome (Z * Packet.t * t) :=
  let! pkt_size := dataSize pk in
  let! a := Packet.getAddr pk in
  let! (master_port_id, b) := XBar.findPort a (base x) in
  let x := withStats (countPacket slave_port_id master_port_id pkt_size (Packet.cmd pk) (st x)) (withBase b x) in
  let! (response_latency, pk) := below master_port_id pk in
  let! x :=
    (if MemCmd.isResponse (Packet.cmd pk) then
       let! pkt_size := dataSize pk in
       Done (withStats (countPacket slave_port_id master_port_id pkt_size (Packet.cmd pk) (st x)) x)
     else Done x) in
  Done (response_latency, withDelays (Packet.headerDelay pk) (wrap 32 response_latency) pk, x).

Definition recvFunctional (below : Z -> Packet.t -> outcome Packet.t) (pk : Packet.t) (x : t) : outcome (Packet.t * t) :=
  let! a := Packet.getAddr pk in
  let! (dest_id, b) := XBar.findPort a (base x) in
  let! pk := below dest_id pk in
  Done (pk, withBase b x).

Fixpoint drainLayers (l : list layer) : Z * list layer :=
  match l with
  | [] => (0, [])
  | x :: l => let '(b, x) := XBarLayer.drain x in let '(n, l) := drainLayers l in ((if b then 1 else 0) + n, x :: l)
  end.

Definition drain (x : t) : Z * t :=
  let '(n, reqs) := drainLayers (reqLayers x) in
  let '(m, resps) := drainLayers (respLayers x) in
  (n + m, withResps resps (withReqs reqs x)).

End NoncoherentXBar.
