(* ===== verification/NoncoherentXBarCorrect.v ===== *)
(** * The non-coherent crossbar forgets nobody

    Any sequence of requests, responses, retries and release events that the
    neighbours may produce.  A port that was refused stays silent until it is
    sent a retry; the crossbar keeps each layer a queue and never leaves a port
    in it without an event or a retry to come. *)

From Stdlib Require Import ZArith Lia.
From stdpp Require Import base gmap numbers list sets.
From S2P Require Import Prelude Bits AddrRange AddrRangeMap XBar XBarLayer MemCmd Request Packet ClockedObject NoncoherentXBar.

#[local] Open Scope Z_scope.
#[local] Open Scope outcome_scope.

Module NoncoherentXBarCorrect.
Import XBarLayer NoncoherentXBar.

(** ** Queues of the layers *)

Definition allWaiters (ls : list layer) : list Z := concat (waiters <$> ls).

Lemma allWaiters_insert ls i l l' : ls !! i = Some l -> exists rest, allWaiters ls ≡ₚ waiters l ++ rest /\ allWaiters (<[i := l']> ls) ≡ₚ waiters l' ++ rest.
Proof.
  intros Hi. exists (allWaiters (take i ls) ++ allWaiters (drop (S i) ls)). pose proof (lookup_lt_Some _ _ _ Hi) as Hlt. unfold allWaiters. split.
  - rewrite <-(take_drop_middle ls i l Hi) at 1. rewrite fmap_app, fmap_cons, concat_app. cbn [concat]. apply Permutation_app_swap_app.
  - rewrite insert_take_drop by done. rewrite fmap_app, fmap_cons, concat_app. cbn [concat]. apply Permutation_app_swap_app.
Qed.

Lemma elem_allWaiters ls p : p ∈ allWaiters ls <-> exists i l, ls !! i = Some l /\ p ∈ waiters l.
Proof.
  unfold allWaiters. rewrite list_elem_of_In, in_concat. split.
  - intros (w&Hw&Hp). apply list_elem_of_In, list_elem_of_fmap in Hw as (l&->&[i Hi]%list_elem_of_lookup). exists i, l. split; [done|by apply list_elem_of_In].
  - intros (i&l&Hi&Hp). exists (waiters l). split; [apply list_elem_of_In, list_elem_of_fmap; exists l; split; [done|by eapply list_elem_of_lookup_2]|by apply list_elem_of_In].
Qed.

(** How a queue of waiting ports changes: not at all, one more at the end, or
    the first one leaves. *)
Inductive queueStep (Q : Z -> Prop) (w : list Z) : list Z -> Prop :=
| queue_same : queueStep Q w w
| queue_join p : Q p -> queueStep Q w (w ++ [p])
| queue_leave p w' : w = p :: w' -> queueStep Q w w'.

Lemma queueStep_keeps Q w w' p : queueStep Q w w' -> (forall p, p ∈ w -> Q p) -> p ∈ w' -> Q p.
Proof. intros [|p' Hp'|p' w'' ->] Hw Hp; [by apply Hw|apply elem_of_app in Hp as [Hp|Hp]; [by apply Hw|by apply list_elem_of_singleton in Hp as ->]|apply Hw; by right]. Qed.

(** ** The clock *)

Section crossbar.
Context (prm : params).
#[local] Abbreviation period := (clockPeriod prm).

Record timing : Prop := {
  tm_period : 0 < period;
  tm_us : period <= us prm < 2 ^ 32;
  tm_width : 0 < width prm;
  tm_front : 0 <= frontendLatency prm < 2 ^ 16;
  tm_forward : 0 <= forwardLatency prm < 2 ^ 16;
  tm_resp : 0 <= responseLatency prm < 2 ^ 16 }.
Context (Hprm : timing).

(** The clock was last asked for no later than [T]. *)
Definition clockOK (T : Z) (c : ClockedObject.t) : Prop := ClockedObject.onEdge period c /\ ClockedObject.tick c < T + period.

Lemma clockOK_mono T T' c : T <= T' -> clockOK T c -> clockOK T' c.
Proof. intros HT [Ho Ht]. split; [done|lia]. Qed.

Lemma xbarEdge_ok now cycles x : clockOK now (clk x) -> 0 < now < 2 ^ 63 -> 0 <= cycles <= 1 ->
  exists c e, clockEdge prm now cycles x = (e, withClk c x) /\ clockOK now c /\ now + period * cycles <= e < now + period * cycles + period.
Proof.
  intros [Ho Ht] Hn Hc. destruct Hprm as [P1 P2 _ _ _ _]. unfold clockEdge.
  assert (Hb : Z.max now (ClockedObject.tick (clk x)) + period * (cycles + 1) < 2 ^ 64) by nia.
  pose proof (ClockedObject.update_next_edge now period cycles (clk x) Ho ltac:(lia) ltac:(lia) ltac:(lia) Hb) as Hu.
  destruct (ClockedObject.clockEdge now period cycles (clk x)) as [e c]. destruct Hu as (Hoc&H1'&H2'&H3'&H4'&->).
  assert (Hlt : ClockedObject.tick c < now + period) by (destruct (Z.lt_ge_cases (ClockedObject.tick (clk x)) now); [by apply H3'|rewrite H4' by lia; lia]).
  eexists c, _. split; [done|]. split; [split; [done|lia]|lia].
Qed.

(** ** Packets that may be offered *)

(** The delays of the packet stay below a microsecond. *)
Record timely (delay : Z) (pk : Packet.t) : Prop := {
  ty_header : 0 <= Packet.headerDelay pk;
  ty_us : Packet.headerDelay pk + period + delay <= us prm;
  ty_payload : 0 <= Packet.payloadDelay pk < 2 ^ 32;
  ty_size : exists n, Packet.getSize pk = Done n }.

Lemma calcPacketTiming_ok now delay pk x : clockOK now (clk x) -> 0 < now < 2 ^ 63 -> 0 <= delay -> timely delay pk ->
  exists pk' c, calcPacketTiming prm now delay pk x = Done (pk', withClk c x) /\ clockOK now c /\ 0 <= Packet.payloadDelay pk' < 2 ^ 32 /\ exists h p, pk' = withDelays h p pk.
Proof.
  intros Hx Hn Hd [T1 T2 T3 [n Tn]]. destruct (xbarEdge_ok now 0 x Hx Hn ltac:(lia)) as (c&e&E&Hc&He). destruct Hprm as [P1 P2 P3 _ _ _]. unfold calcPacketTiming. rewrite E. cbn iota.
  assert (W1 : wrap 64 (e - now) = e - now) by (apply Z.mod_small; lia). assert (W2 : wrap 64 (e - now + delay) = e - now + delay) by (apply Z.mod_small; lia).
  assert (W3 : wrap 32 (Packet.headerDelay pk + (e - now + delay)) = Packet.headerDelay pk + (e - now + delay)) by (apply Z.mod_small; lia). rewrite W1, W2, W3.
  rewrite (proj2 (Z.ltb_ge _ _)) by lia. destruct (MemCmd.hasData (Packet.cmd pk)).
  - rewrite Tn. cbn [obind]. rewrite (proj2 (Z.eqb_neq _ _)) by lia. eexists _, c. split; [done|]. split; [done|]. split; [|by eexists _, _]. cbn [Packet.payloadDelay withDelays]. apply Z.mod_pos_bound. lia.
  - eexists _, c. split; [done|]. split; [done|]. split; [done|by eexists _, _].
Qed.

Definition reqDelay : Z := (frontendLatency prm + forwardLatency prm) * period.
Definition respDelay : Z := responseLatency prm * period.

Lemma reqDelay_wrap : 0 <= reqDelay /\ wrap 64 (wrap 64 (frontendLatency prm + forwardLatency prm) * period) = reqDelay.
Proof.
  destruct Hprm as [P1 P2 _ P4 P5 _]. unfold reqDelay. split; [nia|]. unfold wrap. rewrite (Z.mod_small (frontendLatency prm + forwardLatency prm)) by lia. apply Z.mod_small. nia.
Qed.
Lemma respDelay_wrap : 0 <= respDelay /\ wrap 64 (responseLatency prm * period) = respDelay.
Proof. destruct Hprm as [P1 P2 _ _ _ P6]. unfold respDelay. split; [nia|]. apply Z.mod_small. nia. Qed.

(** A request for a port below, new to the table; one that was answered above is
    not refused below. *)
Definition legalReq (x : t) (o : nat * Packet.t * bool) : Prop :=
  let '(r, pk, accepts) := o in
  Packet.isExpressSnoop pk = false /\ timely reqDelay pk /\ routeTo x !! r = None /\ (accepts = false -> Packet.memInhibitAsserted pk = false) /\
  exists a d b, Packet.getAddr pk = Done a /\ XBar.findPort a (base x) = Done (d, b) /\ 0 <= d < Z.of_nat (length (reqLayers x)).

(** A layer that may be tried: between calls, or while its first port retries. *)
Definition retrying (l : layer) : Prop := state l = RETRY /\ waitingForPeer l = None /\ releaseEvent l = None.

Lemma getReq_lookup d x : 0 <= d -> getReq d x = reqLayers x !! Z.to_nat d.
Proof. intros Hd. unfold getReq, index. by rewrite (proj2 (Z.leb_le 0 d)). Qed.
Lemma getResp_lookup d x : 0 <= d -> getResp d x = respLayers x !! Z.to_nat d.
Proof. intros Hd. unfold getResp, index. by rewrite (proj2 (Z.leb_le 0 d)). Qed.

(** Once [tryTiming] has let a port through, nobody was ahead of it. *)
Lemma taken_waiters l l' : layerOK l \/ retrying l -> taken l' -> waitingForLayer l' = waitingForLayer l -> state l <> BUSY -> waitingForPeer l = None ->
  waiters l = waitingForLayer l /\ (retrying l \/ waitingForLayer l = []).
Proof.
  intros Hl (_&Hp&_) Hw Hs Hpl. unfold waiters. rewrite Hpl. split; [done|]. destruct Hl as [Hl|]; [|by left]. right. unfold layerOK in Hl. destruct (state l); [|done|done].
  destruct (waitingForLayer l); [done|]. destruct Hl as [_ Hl]. by destruct Hl.
Qed.

Lemma tryTiming_through p l l' : tryTiming p l = Done (true, l') -> state l <> BUSY /\ waitingForPeer l = None.
Proof.
  unfold tryTiming. destruct (_ || _) eqn:E; [destruct (bool_decide (p ∈ _)); intros E'; discriminate E'|]. intros _. apply orb_false_iff in E. rewrite !bool_decide_eq_false in E. destruct E as [E1 E2].
  split; [done|]. destruct (waitingForPeer l); [by destruct E2|done].
Qed.

(** The queue of the layer after a packet from [p]. *)
Definition joined (p : Z) (l l' : layer) (ok : bool) : Prop :=
  waiters l' = if ok then waiters l else if bool_decide (state l = RETRY) then p :: waiters l else waiters l ++ [p].

Lemma joined_nodup p ls d l l' ok : ls !! d = Some l -> joined p l l' ok -> NoDup (allWaiters ls) -> p ∉ allWaiters ls -> NoDup (allWaiters (<[d := l']> ls)).
Proof.
  intros Hl Hj Hnd Hp. destruct (allWaiters_insert ls d l l' Hl) as (rest&P1&P2). rewrite P2. rewrite P1 in Hnd, Hp. rewrite Hj. destruct ok; [done|].
  case_bool_decide; [cbn [app]; by constructor|]. rewrite <-app_assoc. cbn [app]. rewrite <-Permutation_middle. by constructor.
Qed.

Section request.
Context (now : Z) (Hn : 0 < now < 2 ^ 63).

Lemma request_ok x r pk acc p a d b l : clockOK now (clk x) -> legalReq x (r, pk, acc) -> Packet.getAddr pk = Done a -> XBar.findPort a (base x) = Done (d, b) ->
  reqLayers x !! Z.to_nat d = Some l -> 0 <= d -> layerOK l \/ retrying l -> p ∉ waiters l ->
  exists ok pk' x' l', recvTimingReq prm now r pk p acc x = Done (ok, pk', x') /\ reqLayers x' = <[Z.to_nat d := l']> (reqLayers x) /\ respLayers x' = respLayers x /\
    clockOK now (clk x') /\ layerOK l' /\ joined p l l' ok /\
    routeTo x' = (if ok && MemCmd.needsResponse (Packet.cmd pk) && negb (Packet.memInhibitAsserted pk) then <[r := p]> (routeTo x) else routeTo x).
Proof.
  intros Hc (Le&Lt&Lr&Lm&_) Ea Ef Hl Hd Hlk Hp. destruct reqDelay_wrap as [D1 D2]. unfold recvTimingReq. rewrite Le, Ea. cbn [obind]. rewrite Ef. cbn [obind].
  rewrite getReq_lookup by done. cbn [reqLayers withBase]. rewrite Hl. destruct (tryTiming_ok p l Hlk Hp) as (free&l1&E1&H1'). rewrite E1. cbn [obind]. destruct free; cbn [negb].
  - destruct H1' as [Ht Hw]. destruct (tryTiming_through _ _ _ E1) as [Hs Hpl]. destruct (taken_waiters l l1 Hlk Ht Hw Hs Hpl) as [Hwl Hre].
    destruct (ty_size _ _ Lt) as [n Hsz]. assert (Hds : exists m, dataSize pk = Done m) by (unfold dataSize; destruct (MemCmd.hasData _); by eauto). destruct Hds as [m ->]. cbn [obind].
    rewrite D2. match goal with |- context [calcPacketTiming _ _ _ _ ?y] => destruct (calcPacketTiming_ok now reqDelay pk y Hc Hn D1 Lt) as (pk'&c&E2&Hc2&Hpay&_) end.
    rewrite E2. cbn [obind]. match goal with |- context [clockEdge _ _ 1 ?y] => destruct (xbarEdge_ok now 1 y Hc2 Hn ltac:(lia)) as (c2&e&E3&Hc3&He) end. rewrite E3. cbn iota.
    destruct Hprm as [P1 P2 _ _ _ _]. destruct acc; cbn [negb].
    + assert (Hu : wrap 64 (e + Packet.payloadDelay pk') = e + Packet.payloadDelay pk') by (apply Z.mod_small; lia).
      destruct (occupyLayer_ok now (e + Packet.payloadDelay pk') l1 ltac:(by left) ltac:(lia) ltac:(lia)) as (l2&E4&Hl2&_&_&Hw2&Hp2).
      cbn [routeTo withClk putReq withReqs withBase]. rewrite Lr. destruct Ht as (Hs1&Hp1&Hr1).
      destruct (MemCmd.needsResponse (Packet.cmd pk) && negb (Packet.memInhibitAsserted pk)) eqn:Ex; cbn [obind]; unfold succeededTiming;
        rewrite bool_decide_true by done; cbn [negb]; rewrite Hu, E4; cbn [obind]; eexists true, _, _, l2; (split; [done|]); cbn [reqLayers respLayers clk routeTo withStats putReq withReqs withClk withBase withRoutes]; rewrite list_insert_insert_eq;
        (split; [done|split; [done|split; [done|split; [done|split; [|by rewrite <-andb_assoc, Ex]]]]]); unfold joined, waiters; rewrite Hw2, Hp2, Hp1, Hw; symmetry; exact Hwl.
    + rewrite (Lm eq_refl). match goal with |- context [clockEdge _ _ 1 ?y] => destruct (xbarEdge_ok now 1 y Hc3 Hn ltac:(lia)) as (c3&e3&E4&Hc4&He3) end. rewrite E4. cbn iota.
      unfold failedTiming. destruct Ht as (Hs1&Hp1&Hr1). rewrite Hp1. cbn iota. rewrite bool_decide_true by done. cbn [negb].
      destruct (occupyLayer_ok now e3 (withPeer (Some p) l1) ltac:(right; by split) ltac:(lia) ltac:(lia)) as (l2&E5&Hl2&_&_&Hw2&Hp2). rewrite E5. cbn [obind].
      eexists false, _, _, l2. split; [done|]. cbn [reqLayers respLayers clk routeTo withStats putReq withReqs withClk withBase withRoutes]. rewrite list_insert_insert_eq.
      do 4 (split; [done|]). split; [|done]. cbn [joined]. assert (Hw' : waiters l2 = p :: waiters l) by (unfold waiters at 1; rewrite Hw2, Hp2; cbn; by rewrite Hw, Hwl).
      unfold joined. rewrite Hw'. case_bool_decide as Hst; [done|]. destruct Hre as [(Hst'&_)|Hre]; [done|]. by rewrite Hwl, Hre.
  - destruct H1' as (Hl1&Hs1&_&Hp1&Hw1). eexists false, pk, _, l1. split; [done|]. cbn [reqLayers respLayers clk routeTo putReq withReqs withBase]. do 4 (split; [done|]). split; [|done].
    unfold joined. rewrite bool_decide_false by (intros E; unfold layerOK in Hl1; by rewrite Hs1, E in Hl1). unfold waiters. by rewrite Hp1, Hw1, app_assoc.
Qed.

(** All the request layers at once. *)
Lemma request_step x r pk acc p : clockOK now (clk x) -> legalReq x (r, pk, acc) -> (forall j l, reqLayers x !! j = Some l -> layerOK l \/ retrying l) ->
  NoDup (allWaiters (reqLayers x)) -> p ∉ allWaiters (reqLayers x) ->
  exists ok pk' x' d l l', recvTimingReq prm now r pk p acc x = Done (ok, pk', x') /\ reqLayers x !! d = Some l /\ reqLayers x' = <[d := l']> (reqLayers x) /\
    respLayers x' = respLayers x /\ clockOK now (clk x') /\ layerOK l' /\ joined p l l' ok /\ NoDup (allWaiters (reqLayers x')) /\
    routeTo x' = (if ok && MemCmd.needsResponse (Packet.cmd pk) && negb (Packet.memInhibitAsserted pk) then <[r := p]> (routeTo x) else routeTo x).
Proof.
  intros Hc Hl Hok Hnd Hp. pose proof Hl as (_&_&_&_&a&d&b&Ea&Ef&Hd). destruct (lookup_lt_is_Some_2 (reqLayers x) (Z.to_nat d) ltac:(lia)) as [l Hlk].
  destruct (request_ok x r pk acc p a d b l Hc Hl Ea Ef Hlk ltac:(lia) (Hok _ _ Hlk)) as (ok&pk'&x'&l'&E&R1&R2&R3&R4&R5&R6); [intros Hin; apply Hp, elem_allWaiters; by eauto|].
  exists ok, pk', x', (Z.to_nat d), l, l'. do 7 (split; [done|]). split; [|done]. rewrite R1. by eapply joined_nodup.
Qed.

(** A response to a request of the table; the port above takes it. *)
Definition legalResp (x : t) (o : nat * Packet.t * bool) : Prop := let '(r, pk, accepts) := o in accepts = true /\ timely respDelay pk /\ is_Some (routeTo x !! r).

Definition respOK (l : layer) : Prop := waitingForPeer l = None.

Lemma response_ok x r pk m p l : clockOK now (clk x) -> timely respDelay pk -> routeTo x !! r = Some p -> 0 <= p -> respLayers x !! Z.to_nat p = Some l ->
  layerOK l \/ retrying l -> respOK l -> m ∉ waiters l ->
  exists o x' l', recvTimingResp prm now r pk m true x = Done (o, x') /\ respLayers x' = <[Z.to_nat p := l']> (respLayers x) /\ reqLayers x' = reqLayers x /\
    clockOK now (clk x') /\ layerOK l' /\ respOK l' /\ joined m l l' (bool_decide (o <> None)) /\
    match o with Some q => q = p /\ routeTo x' = delete r (routeTo x) | None => routeTo x' = routeTo x end.
Proof.
  intros Hc Lt Lr Hp Hl Hlk Hr Hm. destruct respDelay_wrap as [D1 D2]. unfold recvTimingResp. rewrite Lr. rewrite (proj2 (Z.eqb_neq p XBar.InvalidPortID)) by (unfold XBar.InvalidPortID; lia).
  rewrite getResp_lookup by done. rewrite Hl. destruct (tryTiming_ok m l Hlk Hm) as (free&l1&E1&H1'). rewrite E1. cbn [obind]. destruct free; cbn [negb].
  - destruct H1' as [Ht Hw]. destruct (tryTiming_through _ _ _ E1) as [Hs Hpl]. destruct (taken_waiters l l1 Hlk Ht Hw Hs Hpl) as [Hwl _].
    destruct (ty_size _ _ Lt) as [n Hsz]. assert (Hds : exists m, dataSize pk = Done m) by (unfold dataSize; destruct (MemCmd.hasData _); by eauto). destruct Hds as [k ->]. cbn [obind].
    rewrite D2. match goal with |- context [calcPacketTiming _ _ _ _ ?y] => destruct (calcPacketTiming_ok now respDelay pk y Hc Hn D1 Lt) as (pk'&c&E2&Hc2&Hpay&_) end.
    rewrite E2. cbn [obind]. match goal with |- context [clockEdge _ _ 1 ?y] => destruct (xbarEdge_ok now 1 y Hc2 Hn ltac:(lia)) as (c2&e&E3&Hc3&He) end. rewrite E3. cbn iota.
    destruct Hprm as [P1 P2 _ _ _ _]. assert (Hu : wrap 64 (e + Packet.payloadDelay pk') = e + Packet.payloadDelay pk') by (apply Z.mod_small; lia).
    destruct (occupyLayer_ok now (e + Packet.payloadDelay pk') l1 ltac:(by left) ltac:(lia) ltac:(lia)) as (l2&E4&Hl2&_&_&Hw2&Hp2). destruct Ht as (Hs1&Hp1&Hr1).
    unfold succeededTiming. rewrite bool_decide_true by done. cbn [negb]. rewrite Hu, E4. cbn [obind]. eexists (Some p), _, l2. split; [done|].
    cbn [reqLayers respLayers clk routeTo withStats putResp withResps withClk withBase withRoutes]. rewrite list_insert_insert_eq. do 4 (split; [done|]).
    split; [unfold respOK; congruence|]. split; [|done]. unfold joined, waiters. rewrite Hw2, Hp2, Hp1, Hw. symmetry. exact Hwl.
  - destruct H1' as (Hl1&Hs1&_&Hp1&Hw1). eexists None, _, l1. split; [done|]. cbn [reqLayers respLayers clk routeTo putResp withResps]. do 4 (split; [done|]).
    split; [unfold respOK in *; congruence|]. split; [|done]. unfold joined. cbn [bool_decide decide_rel]. rewrite (bool_decide_false (None <> None)) by (by intros E).
    rewrite bool_decide_false by (intros E; unfold layerOK in Hl1; by rewrite Hs1, E in Hl1). unfold waiters. by rewrite Hp1, Hw1, app_assoc.
Qed.

End request.
(** ** Retries *)

Lemma allWaiters_same ls i l l' : ls !! i = Some l -> waiters l' = waiters l -> allWaiters (<[i := l']> ls) = allWaiters ls.
Proof.
  intros Hi Hw. unfold allWaiters. f_equal. rewrite list_fmap_insert. apply list_insert_id. rewrite list_lookup_fmap, Hi. cbn. by rewrite Hw.
Qed.

(** The request layers or the response layers. *)
Section retry.
Context (layers : t -> list layer) (get : t -> option layer) (put : layer -> t -> t) (n : nat) (P : layer -> Prop) (Q : Z -> Prop).
Context (Hget : forall x, get x = layers x !! n) (Hput : forall l x, layers (put l x) = <[n := l]> (layers x)) (Hclk : forall l x, clk (put l x) = clk x).
Context (Hlay : forall c x, layers (withClk c x) = layers x).
Context (HP : forall l l', waitingForPeer l' = waitingForPeer l -> P l -> P l').

Definition allOK (ls : list layer) : Prop := forall j l, ls !! j = Some l -> layerOK l /\ P l.
Definition queues (ls ls' : list layer) : Prop := forall j l l', ls !! j = Some l -> ls' !! j = Some l' -> queueStep Q (waiters l) (waiters l').

(** What the port [q] did with its retry. *)
Definition reacted (q : Z) (x x' : t) : Prop :=
  layers x' = layers x \/
  exists d l l' ok, layers x !! d = Some l /\ layers x' = <[d := l']> (layers x) /\ layerOK l' /\ P l' /\ joined q l l' ok /\ NoDup (allWaiters (layers x')).

Context (now : Z) (Hn : 0 < now < 2 ^ 63) (sendRetry : Z -> t -> outcome t).

(** The layer is busy until the next edge when the port did nothing with it. *)
Lemma hold_ok x l : layers x !! n = Some l -> retrying l -> P l -> clockOK now (clk x) ->
  exists c l', (let '(edge, s) := clockEdge prm now 0 x in let! l := occupyLayer now edge (withState BUSY l) in Done (put l s)) = Done (put l' (withClk c x)) /\
    clockOK now c /\ layerOK l' /\ P l' /\ waiters l' = waiters l.
Proof.
  intros Hl (Hs&Hp&Hr) Pl Hc. destruct (xbarEdge_ok now 0 x Hc Hn ltac:(lia)) as (c&e&E&Hc'&He). rewrite E. cbn iota.
  destruct (occupyLayer_ok now e (withState BUSY l) ltac:(right; by split) ltac:(lia) ltac:(lia)) as (l'&E'&Hl'&_&_&Hw&Hp'). rewrite E'. cbn [obind].
  exists c, l'. do 3 (split; [done|]). split; [by eapply (HP l)|]. unfold waiters. by rewrite Hw, Hp'.
Qed.

Lemma insert_cases {A} (ls : list A) i j a b : <[i := a]> ls !! j = Some b -> j = i /\ b = a \/ j <> i /\ ls !! j = Some b.
Proof. intros [(->&->&_)|[Hne Hb]]%list_lookup_insert_Some; [by left|right]. split; [congruence|done]. Qed.

Section one.
Context (x : t) (l : layer) (q : Z) (rest : list Z).
Context (Hl : layers x !! n = Some l) (Hs : state l = IDLE) (Hp : waitingForPeer l = None) (Hr : releaseEvent l = None) (Hw : waitingForLayer l = q :: rest) (Pl : P l) (HQ : Q q).
Context (Hoth : forall j l, j <> n -> layers x !! j = Some l -> layerOK l /\ P l) (Hnd : NoDup (allWaiters (layers x))).

(** The layer while its first port retries. *)
Definition first : layer := withWaiting rest (withState RETRY l).

Lemma first_waiters : waiters l = q :: waiters first.
Proof. unfold waiters, first. cbn. by rewrite Hp, Hw. Qed.
Lemma first_P : P first.
Proof. apply (HP l); [reflexivity|exact Pl]. Qed.
Lemma first_lookup : layers (put first x) !! n = Some first.
Proof. rewrite Hput. apply list_lookup_insert_eq. by apply lookup_lt_Some in Hl. Qed.
Lemma first_nodup : NoDup (allWaiters (layers (put first x))) /\ q ∉ allWaiters (layers (put first x)).
Proof.
  rewrite Hput. destruct (allWaiters_insert (layers x) n l first Hl) as (r&P1&P2). rewrite P2. rewrite P1, first_waiters in Hnd. cbn [app] in Hnd. apply NoDup_cons in Hnd. tauto.
Qed.

(** What has to hold after the retry. *)
Definition retried (x2 x' : t) : Prop :=
  allOK (layers x') /\ NoDup (allWaiters (layers x')) /\ queues (layers x) (layers x') /\ clockOK now (clk x') /\ (x' = x2 \/ exists c l3, x' = put l3 (withClk c x2)).

Definition afterRetry (x2 : t) : outcome t :=
  onLayer get (fun l => if bool_decide (state l = RETRY) then let '(edge, s) := clockEdge prm now 0 x2 in let! l := occupyLayer now edge (withState BUSY l) in Done (put l s) else Done x2) x2.

Lemma retry_held x2 : layers x2 !! n = Some first -> NoDup (allWaiters (layers x2)) -> (forall j l, j <> n -> layers x2 !! j = Some l -> layerOK l /\ P l) ->
  (forall j a b, j <> n -> layers x !! j = Some a -> layers x2 !! j = Some b -> queueStep Q (waiters a) (waiters b)) -> clockOK now (clk x2) ->
  exists x', afterRetry x2 = Done x' /\ retried x2 x'.
Proof.
  intros Hl2 Hnd2 Hok2 Hq2 Hc. unfold afterRetry, onLayer. rewrite Hget, Hl2. rewrite bool_decide_true by done.
  destruct (hold_ok x2 first Hl2 ltac:(done) first_P Hc) as (c&l3&E3&Hc3&Hl3&P3&W3). rewrite E3. eexists. split; [done|]. unfold retried. rewrite Hput, Hlay, Hclk.
  split; [|split; [by rewrite (allWaiters_same _ _ first)|split; [|split; [exact Hc3|right; by eexists _, _]]]].
  - intros j b [[-> ->]|[Hne Hb]]%insert_cases; [done|by apply (Hok2 j)].
  - intros j a b Ha [[-> ->]|[Hne Hb]]%insert_cases; [|by apply (Hq2 j)]. assert (a = l) as -> by congruence. rewrite W3. apply (queue_leave _ _ q), first_waiters.
Qed.

Lemma retry_here x2 l' ok : layers x2 = <[n := l']> (layers (put first x)) -> layerOK l' -> P l' -> joined q first l' ok -> NoDup (allWaiters (layers x2)) -> clockOK now (clk x2) ->
  exists x', afterRetry x2 = Done x' /\ retried x2 x'.
Proof.
  intros Hx2 Hl' Pl' Hj Hnd2 Hc. rewrite Hput, list_insert_insert_eq in Hx2. unfold afterRetry, onLayer. rewrite Hget, Hx2, list_lookup_insert_eq by (by apply lookup_lt_Some in Hl).
  rewrite bool_decide_false by (intros E; unfold layerOK in Hl'; by rewrite E in Hl'). exists x2. split; [done|]. unfold retried. split; [|split; [done|split; [|split; [done|by left]]]]; rewrite Hx2.
  - intros j b [[-> ->]|[Hne Hb]]%insert_cases; [done|by apply (Hoth j)].
  - intros j a b Ha [[-> ->]|[Hne Hb]]%insert_cases; [|assert (a = b) as -> by congruence; constructor]. assert (a = l) as -> by congruence.
    unfold joined in Hj. rewrite bool_decide_true in Hj by done. rewrite Hj. destruct ok; [apply (queue_leave _ _ q), first_waiters|]. rewrite <-first_waiters. constructor.
Qed.

Lemma retry_elsewhere x2 d ld l' ok : d <> n -> layers x !! d = Some ld -> layers x2 = <[d := l']> (layers (put first x)) -> layerOK l' -> P l' -> joined q ld l' ok ->
  NoDup (allWaiters (layers x2)) -> clockOK now (clk x2) -> exists x', afterRetry x2 = Done x' /\ retried x2 x'.
Proof.
  intros Hdn Hd Hx2 Hl' Pl' Hj Hnd2 Hc. apply retry_held; [|done| | |done]; rewrite ?Hx2.
  - rewrite list_lookup_insert_ne by done. apply first_lookup.
  - intros j b Hne [[-> ->]|[Hjd Hb]]%insert_cases; [done|]. rewrite Hput, list_lookup_insert_ne in Hb by done. by apply (Hoth j).
  - intros j a b Hne Ha [[-> ->]|[Hjd Hb]]%insert_cases.
    + assert (a = ld) as -> by congruence. destruct (Hoth d ld Hne Hd) as [Hokd _]. unfold joined in Hj.
      rewrite bool_decide_false in Hj by (intros E; unfold layerOK in Hokd; by rewrite E in Hokd). rewrite Hj. destruct ok; by constructor.
    + rewrite Hput, list_lookup_insert_ne in Hb by done. assert (a = b) as -> by congruence. constructor.
Qed.

Lemma retryWaiting_ok x2 : sendRetry q (put first x) = Done x2 -> reacted q (put first x) x2 -> clockOK now (clk x2) ->
  exists x', retryWaiting get put (clockEdge prm now 0) sendRetry now x = Done x' /\ retried x2 x'.
Proof.
  intros E2 Hre Hc. unfold retryWaiting, onLayer at 1. rewrite Hget, Hl, Hw. rewrite bool_decide_true by done. cbn [negb]. fold first. rewrite E2. cbn [obind]. change (exists x', afterRetry x2 = Done x' /\ retried x2 x').
  destruct Hre as [Hsame|(d&ld&l'&ok&Hd&Hx2&Hl'&Pl'&Hj&Hnd2)].
  - apply retry_held; rewrite ?Hsame; [apply first_lookup|apply first_nodup|..|done]; rewrite Hput.
    + intros j b Hne. rewrite list_lookup_insert_ne by done. by apply Hoth.
    + intros j a b Hne Ha. rewrite list_lookup_insert_ne by done. intros Hb. assert (a = b) as -> by congruence. constructor.
  - destruct (decide (d = n)) as [->|Hdn]; [rewrite first_lookup in Hd; injection Hd as <-; by eapply retry_here|].
    rewrite Hput, list_lookup_insert_ne in Hd by done. by eapply (retry_elsewhere _ d ld).
Qed.

End one.
(** Between calls, but for a layer whose first port retries. *)
Definition sane (x : t) : Prop := (forall j l, layers x !! j = Some l -> (layerOK l \/ retrying l) /\ P l) /\ NoDup (allWaiters (layers x)) /\ clockOK now (clk x).

(** [E] is what the reaction relies on in the rest of the state, [F] what it does to it. *)
Context (E : t -> Prop) (F : t -> t -> Prop).
Context (HE : forall l x, E x -> E (put l x)) (HFrefl : forall l x, F x (put l x)).
Context (HFin : forall l x x', F (put l x) x' -> F x x') (HFout : forall l c x x', F x x' -> F x (put l (withClk c x'))).
Context (Hsend : forall x q, E x -> sane x -> Q q -> q ∉ allWaiters (layers x) -> exists x', sendRetry q x = Done x' /\ reacted q x x' /\ clockOK now (clk x') /\ F x x').

Definition served (x x' : t) : Prop := allOK (layers x') /\ NoDup (allWaiters (layers x')) /\ queues (layers x) (layers x') /\ clockOK now (clk x') /\ F x x'.

Lemma retry_served x l q rest : layers x !! n = Some l -> state l = IDLE -> waitingForPeer l = None -> releaseEvent l = None -> waitingForLayer l = q :: rest -> P l -> Q q ->
  (forall j l, j <> n -> layers x !! j = Some l -> layerOK l /\ P l) -> NoDup (allWaiters (layers x)) -> clockOK now (clk x) -> E x ->
  exists x', retryWaiting get put (clockEdge prm now 0) sendRetry now x = Done x' /\ served x x'.
Proof.
  intros Hl Hs Hp Hr Hw Pl HQ Hoth Hnd Hc HEx. destruct (first_nodup x l q rest Hl Hp Hw Hnd) as [Hnd1 Hq].
  destruct (Hsend (put (first l rest) x) q) as (x2&E2&Hre&Hc2&HF); [by apply HE| |done|done|].
  { split; [|by rewrite Hclk]. intros j b. rewrite Hput. intros [[-> ->]|[Hne Hb]]%insert_cases; [split; [by right|by eapply first_P]|]. destruct (Hoth j b Hne Hb). split; [by left|done]. }
  destruct (retryWaiting_ok x l q rest Hl Hs Hp Hr Hw Pl HQ Hoth Hnd x2 E2 Hre Hc2) as (x'&E'&R1&R2&R3&R4&R5). exists x'. split; [done|]. do 4 (split; [done|]).
  destruct R5 as [->|(c&l3&->)]; [by eapply HFin|by eapply HFout, HFin].
Qed.

(** A change of one layer that keeps its queue. *)
Lemma put_served x l l' : layers x !! n = Some l -> allOK (layers x) -> NoDup (allWaiters (layers x)) -> clockOK now (clk x) -> layerOK l' -> P l' -> waiters l' = waiters l -> served x (put l' x).
Proof.
  intros Hl Hok Hnd Hc Hl' Pl' Hw. unfold served. rewrite Hput, Hclk. split; [|split; [by rewrite (allWaiters_same _ _ l)|split; [|split; [done|apply HFrefl]]]].
  - intros j b [[-> ->]|[Hne Hb]]%insert_cases; [done|by apply (Hok j)].
  - intros j a b Ha [[-> ->]|[Hne Hb]]%insert_cases; [assert (a = l) as -> by congruence; rewrite Hw|assert (a = b) as -> by congruence]; constructor.
Qed.

Lemma served_in x l l' x' : layers x !! n = Some l -> waiters l' = waiters l -> served (put l' x) x' -> served x x'.
Proof.
  intros Hl Hw (S1&S2&S3&S4&S5). do 2 (split; [done|]). split; [|split; [done|by eapply HFin]]. intros j a b Ha Hb. rewrite Hput in S3. destruct (decide (j = n)) as [->|Hne].
  - assert (a = l) as -> by congruence. rewrite <-Hw. apply (S3 n l' b); [apply list_lookup_insert_eq; by apply lookup_lt_Some in Hl|done].
  - apply (S3 j a b); [by rewrite list_lookup_insert_ne|done].
Qed.

Context (Hputput : forall l l' x, put l (put l' x) = put l x).

Lemma release_served x l : layers x !! n = Some l -> allOK (layers x) -> NoDup (allWaiters (layers x)) -> clockOK now (clk x) -> E x -> (forall p, p ∈ allWaiters (layers x) -> Q p) -> releaseEvent l = Some now ->
  exists b x', releaseLayer get put (clockEdge prm now 0) sendRetry now (put (fired l) x) = Done (b, x') /\ served x x'.
Proof.
  intros Hl Hok Hnd Hc HEx HQ Hre. destruct (Hok n l Hl) as [Hlk Pl]. assert (Hs : state l = BUSY) by (unfold layerOK in Hlk; destruct (state l); [destruct Hlk; congruence|done|done]).
  assert (Hlt : (n < length (layers x))%nat) by (by apply lookup_lt_Some in Hl). unfold releaseLayer, onLayer. rewrite Hget, Hput, list_lookup_insert_eq by done. cbn [state fired releaseEvent].
  rewrite bool_decide_true by done. cbn [negb]. rewrite bool_decide_false by (by intros Hb; apply Hb). cbn [waitingForLayer withState fired waitingForPeer]. rewrite !Hputput. set (l0 := withState IDLE (fired l)).
  assert (Hp : forall l', waitingForPeer l' = waitingForPeer l -> waitingForLayer l' = waitingForLayer l -> waiters l' = waiters l) by (intros l' W1 W2; unfold waiters; by rewrite W1, W2).
  destruct (waitingForLayer l) as [|q rest] eqn:Ew; destruct (waitingForPeer l) as [p|] eqn:Ep.
  - eexists _, _. split; [done|]. eapply put_served; [done..|split; [done|cbn; by rewrite Ep]|by eapply (HP l)|by apply Hp].
  - destruct (drainManager _); eexists _, _; (split; [done|]); rewrite ?Hputput; (eapply put_served; [done..|split; [done|cbn; by rewrite Ew]|by eapply (HP l)|by apply Hp]).
  - eexists _, _. split; [done|]. eapply put_served; [done..|split; [done|cbn; by rewrite Ep]|by eapply (HP l)|by apply Hp].
  - destruct (retry_served (put l0 x) l0 q rest) as (x'&E'&Hx'); try done.
    + rewrite Hput. by apply list_lookup_insert_eq.
    + by eapply (HP l).
    + apply HQ, elem_allWaiters. exists n, l. split; [done|]. unfold waiters. rewrite Ep, Ew. by left.
    + intros j b Hne. rewrite Hput, list_lookup_insert_ne by done. apply Hok.
    + rewrite Hput, (allWaiters_same _ _ l); [done|done|by apply Hp].
    + by rewrite Hclk.
    + by apply HE.
    + rewrite E'. cbn [obind]. eexists _, x'. split; [done|]. eapply (served_in x l l0); [done|by apply Hp|done].
Qed.

Lemma recvRetry_served x l : (forall l, P l) -> layers x !! n = Some l -> allOK (layers x) -> NoDup (allWaiters (layers x)) -> clockOK now (clk x) -> E x -> (forall p, p ∈ allWaiters (layers x) -> Q p) -> waitingForPeer l <> None ->
  exists x', recvRetry get put (clockEdge prm now 0) sendRetry now x = Done x' /\ served x x'.
Proof.
  intros HPt Hl Hok Hnd Hc HEx HQ Hpe. destruct (Hok n l Hl) as [Hlk _]. unfold recvRetry, onLayer. rewrite Hget, Hl. destruct (waitingForPeer l) as [p|] eqn:Ep; [|done].
  set (l0 := withPeer None (withWaiting (p :: waitingForLayer l) l)). assert (Hw : waiters l0 = waiters l) by (unfold waiters; cbn; by rewrite Ep).
  assert (Hlt : (n < length (layers x))%nat) by (by apply lookup_lt_Some in Hl). unfold layerOK in Hlk. destruct (state l) eqn:Es; [| |done].
  - rewrite bool_decide_true by done. destruct (retry_served (put l0 x) l0 p (waitingForLayer l)) as (x'&E'&Hx'); try done.
    + rewrite Hput. by apply list_lookup_insert_eq.
    + apply Hlk.
    + apply HQ, elem_allWaiters. exists n, l. split; [done|]. unfold waiters. rewrite Ep. by left.
    + intros j b Hne. rewrite Hput, list_lookup_insert_ne by done. apply Hok.
    + rewrite Hput, (allWaiters_same _ _ l); [done|done|done].
    + by rewrite Hclk.
    + by apply HE.
    + exists x'. split; [done|]. by eapply (served_in x l l0).
  - rewrite bool_decide_false by done. rewrite bool_decide_true by done. eexists. split; [done|]. eapply put_served; [done..|unfold layerOK; cbn; by rewrite Es|done|done].
Qed.

End retry.

(** ** Every call *)

Definition offer : Type := nat * Packet.t * bool.

Inductive call :=
| Request (o : offer) (p : Z)
| Response (o : offer) (m : Z)
| Retry (i : Z) (reaction : option offer)
| ReleaseReq (i : Z) (reaction : option offer)
| ReleaseResp (i : Z) (reaction : option offer).

Definition run (now : Z) (c : call) (x : t) : outcome t :=
  match c with
  | Request o p => reactReq prm now (Some o) p x
  | Response o m => reactResp prm now (Some o) m x
  | Retry i reaction => recvReqRetry prm now i reaction x
  | ReleaseReq i reaction => let! (_, x) := releaseReq prm now i reaction x in Done x
  | ReleaseResp i reaction => let! (_, x) := releaseResp prm now i reaction x in Done x
  end.

Definition ifAny (Q : offer -> Prop) (o : option offer) : Prop := match o with Some o => Q o | None => True end.

(** A port that waits does not call; events fire when they are due; a retry comes
    from a port that refused. *)
Definition legal (now : Z) (x : t) (c : call) : Prop :=
  match c with
  | Request o p => legalReq x o /\ p ∉ allWaiters (reqLayers x)
  | Response o m => legalResp x o /\ m ∉ allWaiters (respLayers x)
  | Retry i reaction => ifAny (legalReq x) reaction /\ exists l, getReq i x = Some l /\ waitingForPeer l <> None
  | ReleaseReq i reaction => ifAny (legalReq x) reaction /\ exists l, getReq i x = Some l /\ releaseEvent l = Some now
  | ReleaseResp i reaction => ifAny (legalResp x) reaction /\ exists l, getResp i x = Some l /\ releaseEvent l = Some now
  end.

(** The port a caller stands for has a response layer. *)
Definition fromAbove (x : t) (c : call) : Prop := match c with Request _ p => 0 <= p < Z.of_nat (length (respLayers x)) | _ => True end.

(** Calls come in the order of time. *)
Inductive reachable : Z -> t -> Prop :=
| reach_start masters slaves d u b : reachable 0 (withBase b (new masters slaves d u))
| reach_call T x now c x' : reachable T x -> T <= now -> 0 < now < 2 ^ 63 -> legal now x c -> fromAbove x c -> run now c x = Done x' -> reachable now x'.

Record ok (T : Z) (x : t) : Prop := {
  ok_clock : clockOK T (clk x);
  ok_reqs : allOK (fun _ => True) (reqLayers x);
  ok_resps : allOK respOK (respLayers x);
  ok_reqOnce : NoDup (allWaiters (reqLayers x));
  ok_respOnce : NoDup (allWaiters (respLayers x));
  ok_from : forall p, p ∈ allWaiters (reqLayers x) -> 0 <= p < Z.of_nat (length (respLayers x));
  ok_routes : map_Forall (fun _ p => 0 <= p < Z.of_nat (length (respLayers x))) (routeTo x) }.

(** ** The calls keep the crossbar in order *)

Lemma getReq_Some i x l : getReq i x = Some l -> 0 <= i /\ reqLayers x !! Z.to_nat i = Some l.
Proof. unfold getReq, index. destruct (Z.leb_spec 0 i); [|done]. by split. Qed.
Lemma getResp_Some i x l : getResp i x = Some l -> 0 <= i /\ respLayers x !! Z.to_nat i = Some l.
Proof. unfold getResp, index. destruct (Z.leb_spec 0 i); [|done]. by split. Qed.

Section calls.
Context (now : Z) (Hn : 0 < now < 2 ^ 63).

Section requests.
Context (N : nat).
Definition isCaller (p : Z) : Prop := 0 <= p < Z.of_nat N.

(** What a call on the request side does to the rest. *)
Definition frameReq (x x' : t) : Prop := respLayers x' = respLayers x /\ length (reqLayers x') = length (reqLayers x) /\ (routeTo x' = routeTo x \/ exists r p, isCaller p /\ routeTo x' = <[r := p]> (routeTo x)).

Lemma reactReq_ok reaction x q : ifAny (legalReq x) reaction -> sane reqLayers (fun _ => True) now x -> isCaller q -> q ∉ allWaiters (reqLayers x) ->
  exists x', reactReq prm now reaction q x = Done x' /\ reacted reqLayers (fun _ => True) q x x' /\ clockOK now (clk x') /\ frameReq x x'.
Proof.
  intros Hl (Hok&Hnd&Hc) Hq Hp. destruct reaction as [[[r pk] acc]|]; cbn [ifAny reactReq] in *; [|exists x; split; [done|split; [by left|split; [done|split; [done|split; [done|by left]]]]]].
  destruct (request_step now Hn x r pk acc q Hc Hl) as (ok&pk'&x'&d&l&l'&E&R1&R2&R3&R4&R5&R6&R7&R8); [intros j l Hj; by apply (Hok j)|done|done|]. rewrite E. cbn [obind].
  exists x'. split; [done|]. split; [right; by exists d, l, l', ok|]. split; [done|]. split; [done|]. split; [by rewrite R2, length_insert|]. rewrite R8. destruct (_ && _); [right; by exists r, q|by left].
Qed.

Lemma legalReq_put i l x o : legalReq x o -> legalReq (putReq i l x) o.
Proof.
  destruct o as [[r pk] acc]. cbn [legalReq]. intros (L1&L2&L3&L4&a&d&b&L5&L6&L7). do 4 (split; [done|]). exists a, d, b. cbn [base putReq withReqs reqLayers]. by rewrite length_insert.
Qed.

#[local] Ltac req_frame :=
  try (intros; by cbn [putReq withReqs withClk reqLayers clk respLayers routeTo]);
  try (intros; unfold putReq, withReqs; cbn [reqLayers base clk respLayers routeTo st]; by rewrite list_insert_insert_eq).

Lemma retryReq_ok i reaction x l : getReq i x = Some l -> allOK (fun _ => True) (reqLayers x) -> NoDup (allWaiters (reqLayers x)) -> clockOK now (clk x) ->
  ifAny (legalReq x) reaction -> (forall p, p ∈ allWaiters (reqLayers x) -> isCaller p) -> waitingForPeer l <> None ->
  exists x', recvReqRetry prm now i reaction x = Done x' /\ served reqLayers (fun _ => True) isCaller now frameReq x x'.
Proof.
  intros [Hi Hl]%getReq_Some Hok Hnd Hc Hr HQ Hp.
  eapply (recvRetry_served reqLayers (getReq i) (putReq i) (Z.to_nat i) (fun _ => True) isCaller) with (E := fun x => ifAny (legalReq x) reaction); try done; req_frame.
  - intros y. by apply getReq_lookup.
  - intros l' y. destruct reaction; [apply legalReq_put|done].
  - intros l' y. split; [done|]. split; [cbn [putReq withReqs reqLayers]; by rewrite length_insert|by left].
  - intros l' y y' (F1&F2&F3). cbn [putReq withReqs reqLayers] in F2. rewrite length_insert in F2. done.
  - intros l' c y y' (F1&F2&F3). split; [done|]. split; [cbn [putReq withReqs withClk reqLayers]; by rewrite length_insert|done].
  - intros y q. apply reactReq_ok.
Qed.

Lemma releaseReq_ok i reaction x l : getReq i x = Some l -> allOK (fun _ => True) (reqLayers x) -> NoDup (allWaiters (reqLayers x)) -> clockOK now (clk x) ->
  ifAny (legalReq x) reaction -> (forall p, p ∈ allWaiters (reqLayers x) -> isCaller p) -> releaseEvent l = Some now ->
  exists b x', releaseReq prm now i reaction x = Done (b, x') /\ served reqLayers (fun _ => True) isCaller now frameReq x x'.
Proof.
  intros Hg Hok Hnd Hc Hr HQ Hp. unfold releaseReq. rewrite Hg. apply getReq_Some in Hg as [Hi Hl].
  eapply (release_served reqLayers (getReq i) (putReq i) (Z.to_nat i) (fun _ => True) isCaller) with (E := fun x => ifAny (legalReq x) reaction); try done; req_frame.
  - intros y. by apply getReq_lookup.
  - intros l' y. destruct reaction; [apply legalReq_put|done].
  - intros l' y. split; [done|]. split; [cbn [putReq withReqs reqLayers]; by rewrite length_insert|by left].
  - intros l' y y' (F1&F2&F3). cbn [putReq withReqs reqLayers] in F2. rewrite length_insert in F2. done.
  - intros l' c y y' (F1&F2&F3). split; [done|]. split; [cbn [putReq withReqs withClk reqLayers]; by rewrite length_insert|done].
  - intros y q. apply reactReq_ok.
Qed.

End requests.
(** What a call on the response side does to the rest. *)
Definition frameResp (x x' : t) : Prop := reqLayers x' = reqLayers x /\ length (respLayers x') = length (respLayers x) /\ routeTo x' ⊆ routeTo x.

Definition routed (x : t) : Prop := map_Forall (fun _ p => 0 <= p < Z.of_nat (length (respLayers x))) (routeTo x).
Definition anyPort (p : Z) : Prop := True.

Lemma reactResp_ok reaction x q : ifAny (legalResp x) reaction /\ routed x -> sane respLayers respOK now x -> anyPort q -> q ∉ allWaiters (respLayers x) ->
  exists x', reactResp prm now reaction q x = Done x' /\ reacted respLayers respOK q x x' /\ clockOK now (clk x') /\ frameResp x x'.
Proof.
  intros [Hl Hro] (Hok&Hnd&Hc) _ Hp. destruct reaction as [[[r pk] acc]|]; cbn [ifAny reactResp] in *; [|exists x; split; [done|split; [by left|done]]].
  destruct Hl as (->&Lt&[p Hr]). pose proof (Hro r p Hr) as Hpr. cbn in Hpr. destruct (lookup_lt_is_Some_2 (respLayers x) (Z.to_nat p) ltac:(lia)) as [l Hlk]. destruct (Hok _ _ Hlk) as [Hl Pl].
  destruct (response_ok now Hn x r pk q p l Hc Lt Hr ltac:(lia) Hlk Hl Pl) as (o&x'&l'&E&R1&R2&R3&R4&R5&R6&R7); [intros Hin; apply Hp, elem_allWaiters; by eauto|]. rewrite E. cbn [obind].
  exists x'. split; [done|]. split; [right; exists (Z.to_nat p), l, l', (bool_decide (o <> None)); do 5 (split; [done|]); rewrite R1; by eapply joined_nodup|]. split; [done|].
  split; [done|]. split; [by rewrite R1, length_insert|]. destruct o as [q'|]; [destruct R7 as [_ ->]; apply delete_subseteq|by rewrite R7].
Qed.

Lemma routed_put i l x : routed x -> routed (putResp i l x).
Proof. unfold routed. cbn [putResp withResps respLayers routeTo]. by rewrite length_insert. Qed.

Lemma releaseResp_ok i reaction x l : getResp i x = Some l -> allOK respOK (respLayers x) -> NoDup (allWaiters (respLayers x)) -> clockOK now (clk x) ->
  ifAny (legalResp x) reaction -> routed x -> releaseEvent l = Some now ->
  exists b x', releaseResp prm now i reaction x = Done (b, x') /\ served respLayers respOK anyPort now frameResp x x'.
Proof.
  intros Hg Hok Hnd Hc Hr Hro Hp. unfold releaseResp. rewrite Hg. apply getResp_Some in Hg as [Hi Hl].
  eapply (release_served respLayers (getResp i) (putResp i) (Z.to_nat i) respOK anyPort) with (E := fun x => ifAny (legalResp x) reaction /\ routed x); try done.
  - intros y. by apply getResp_lookup.
  - intros a b Hab Ha. unfold respOK in *. congruence.
  - intros l' y [H1' H2']. split; [by destruct reaction as [[[r pk] acc]|]|by apply routed_put].
  - intros l' y. split; [done|]. split; [cbn [putResp withResps respLayers]; by rewrite length_insert|done].
  - intros l' y y' (F1&F2&F3). cbn [putResp withResps respLayers] in F2. rewrite length_insert in F2. done.
  - intros l' c y y' (F1&F2&F3). split; [done|]. split; [cbn [putResp withResps withClk respLayers]; by rewrite length_insert|done].
  - intros y q. apply reactResp_ok.
  - intros a b y. unfold putResp, withResps. cbn [reqLayers base clk respLayers routeTo st]. by rewrite list_insert_insert_eq.
Qed.

(** A packet that is not an answer to a retry. *)
Lemma plain_served (layers : t -> list layer) (P : layer -> Prop) (Q : Z -> Prop) (F : t -> t -> Prop) q x x' : allOK P (layers x) -> NoDup (allWaiters (layers x)) -> Q q ->
  reacted layers P q x x' -> clockOK now (clk x') -> F x x' -> served layers P Q now F x x'.
Proof.
  intros Hok Hnd HQ Hre Hc HF. unfold served. destruct Hre as [->|(d&l&l'&o&Hl&->&Hl'&Pl'&Hj&Hnd')].
  - do 2 (split; [done|]). split; [|done]. intros j a b Ha Hb. assert (a = b) as -> by congruence. constructor.
  - split; [intros j b [[-> ->]|[Hne Hb]]%insert_cases; [done|by apply (Hok j)]|]. split; [done|]. split; [|done]. intros j a b Ha [[-> ->]|[Hne Hb]]%insert_cases; [|assert (a = b) as -> by congruence; constructor].
    assert (a = l) as -> by congruence. destruct (Hok d l Hl) as [Hokd _]. unfold joined in Hj. rewrite bool_decide_false in Hj by (intros E; unfold layerOK in Hokd; by rewrite E in Hokd).
    rewrite Hj. destruct o; by constructor.
Qed.

Lemma ok_sane (layers : t -> list layer) (P : layer -> Prop) x : allOK P (layers x) -> NoDup (allWaiters (layers x)) -> clockOK now (clk x) -> sane layers P now x.
Proof. intros Hok Hnd Hc. split; [|done]. intros j l Hl. destruct (Hok j l Hl). split; [by left|done]. Qed.

End calls.

Lemma queues_keep Q ls ls' : queues Q ls ls' -> length ls' = length ls -> (forall p, p ∈ allWaiters ls -> Q p) -> forall p, p ∈ allWaiters ls' -> Q p.
Proof.
  intros Hq Hlen HQ p [i [l' [Hi Hp]]]%elem_allWaiters. destruct (lookup_lt_is_Some_2 ls i) as [l Hl]; [rewrite <-Hlen; by apply lookup_lt_Some in Hi|].
  eapply queueStep_keeps; [exact (Hq i l l' Hl Hi)| |exact Hp]. intros r Hr. apply HQ, elem_allWaiters. by exists i, l.
Qed.

Lemma queues_refl Q ls : queues Q ls ls.
Proof. intros j a b Ha Hb. assert (a = b) as -> by congruence. constructor. Qed.

(** After a call on the request side or on the response side. *)
Definition advanced (now : Z) (x x' : t) : Prop := ok now x' /\ queues (isCaller (length (respLayers x))) (reqLayers x) (reqLayers x') /\ queues anyPort (respLayers x) (respLayers x').

Lemma served_req T now x x' : ok T x -> served reqLayers (fun _ => True) (isCaller (length (respLayers x))) now (frameReq (length (respLayers x))) x x' -> advanced now x x'.
Proof.
  intros [K1 K2 K3 K4 K5 K6 K7] (S1&S2&S3&S4&F1&F2&F3). unfold advanced. rewrite F1. split; [|split; [done|apply queues_refl]]. split; rewrite ?F1; try done.
  - by eapply queues_keep.
  - destruct F3 as [->|(r&p&Hp&->)]; [done|]. by apply map_Forall_insert_2.
Qed.

Lemma served_resp T now x x' : ok T x -> served respLayers respOK anyPort now frameResp x x' -> advanced now x x'.
Proof.
  intros [K1 K2 K3 K4 K5 K6 K7] (S1&S2&S3&S4&F1&F2&F3). unfold advanced. rewrite F1. split; [|split; [apply queues_refl|done]]. split; rewrite ?F1, ?F2; try done.
  intros r p Hr. apply (K7 r p). by eapply lookup_weaken.
Qed.

Lemma run_advances T now x c : ok T x -> T <= now -> 0 < now < 2 ^ 63 -> legal now x c -> fromAbove x c -> exists x', run now c x = Done x' /\ advanced now x x'.
Proof.
  intros Hx HT Hn Hl Hf. pose proof Hx as [K1 K2 K3 K4 K5 K6 K7]. apply (clockOK_mono T now) in K1; [|done].
  destruct c as [o p|o m|i re|i re|i re]; cbn [legal run fromAbove] in *.
  - destruct Hl as [Hl Hp]. destruct (reactReq_ok now Hn (length (respLayers x)) (Some o) x p Hl) as (x'&E&R1&R2&R3); [by apply ok_sane|done|done|].
    exists x'. split; [done|]. eapply served_req, plain_served; done.
  - destruct Hl as [Hl Hp]. destruct (reactResp_ok now Hn (Some o) x m) as (x'&E&R1&R2&R3); [done|by apply ok_sane|done|done|].
    exists x'. split; [done|]. eapply served_resp, plain_served; done.
  - destruct Hl as (Hl&l&Hg&Hp). destruct (retryReq_ok now Hn (length (respLayers x)) i re x l Hg K2 K4 K1 Hl K6 Hp) as (x'&E&Hs). exists x'. split; [done|]. by eapply served_req.
  - destruct Hl as (Hl&l&Hg&Hp). destruct (releaseReq_ok now Hn (length (respLayers x)) i re x l Hg K2 K4 K1 Hl K6 Hp) as (b&x'&E&Hs). rewrite E. exists x'. split; [done|]. by eapply served_req.
  - destruct Hl as (Hl&l&Hg&Hp). destruct (releaseResp_ok now Hn i re x l Hg K3 K5 K1 Hl K7 Hp) as (b&x'&E&Hs). rewrite E. exists x'. split; [done|]. by eapply served_resp.
Qed.

Lemma allWaiters_new n : allWaiters (replicate n newLayer) = [].
Proof. induction n; [done|]. exact IHn. Qed.
Lemma allOK_new P n : P newLayer -> allOK P (replicate n newLayer).
Proof. intros HP j l [-> _]%lookup_replicate. split; [|done]. by split. Qed.

Lemma reachable_inOrder T x : reachable T x -> ok T x.
Proof.
  induction 1 as [masters slaves d u b|T x now c x' Hr IH HT Hn Hl Hf E].
  - destruct Hprm as [P1 _ _ _ _ _]. split; cbn [clk reqLayers respLayers routeTo withBase new]; rewrite ?allWaiters_new.
    + unfold clockOK. split; [split; cbn; lia|cbn; lia].
    + by apply allOK_new.
    + by apply allOK_new.
    + constructor.
    + constructor.
    + by intros p ?%elem_of_nil.
    + by intros r p Hrp%lookup_empty_Some.
  - destruct (run_advances T now x c IH HT Hn Hl Hf) as (x2&E2&Ha&_). congruence.
Qed.

End crossbar.

(** C38: Arbitration.  Whatever has gone through the crossbar, the next call that
    its neighbours may make runs to its end with no assertion failing, even when
    a port answers a retry with a new packet during the call; and it leaves the
    ports that wait for each layer as they were, or with one more at the end, or
    without the first: every layer serves its ports first come, first served. *)
Theorem xbar_arbitration prm T x now c : timing prm -> reachable prm T x -> T <= now -> 0 < now < 2 ^ 63 -> legal prm now x c -> fromAbove x c ->
  exists x', run prm now c x = Done x' /\ reachable prm now x' /\
    queues (isCaller (length (respLayers x))) (reqLayers x) (reqLayers x') /\ queues anyPort (respLayers x) (respLayers x').
Proof.
  intros Hprm Hr HT Hn Hl Hf. destruct (run_advances prm Hprm T now x c (reachable_inOrder prm Hprm T x Hr) HT Hn Hl Hf) as (x'&E&_&Q1&Q2).
  exists x'. split; [done|]. split; [by eapply reach_call|done].
Qed.

(** C39: No retry is lost.  In every state the crossbar reaches between calls, a port
    waits for at most one layer and at most once; the layer it waits for is busy
    and its release event is scheduled, or is idle and owed a retry by the port
    below that refused its packet; a response layer is always the former. *)
Theorem xbar_no_lost_retry prm T x : timing prm -> reachable prm T x ->
  NoDup (allWaiters (reqLayers x)) /\ NoDup (allWaiters (respLayers x)) /\
  (forall j l p, reqLayers x !! j = Some l -> p ∈ waiters l -> state l = BUSY /\ is_Some (releaseEvent l) \/ state l = IDLE /\ is_Some (waitingForPeer l)) /\
  (forall j l p, respLayers x !! j = Some l -> p ∈ waiters l -> state l = BUSY /\ is_Some (releaseEvent l)).
Proof.
  intros Hprm Hr. destruct (reachable_inOrder prm Hprm T x Hr) as [_ K2 K3 K4 K5 _ _].
  assert (Hw : forall l p, layerOK l -> p ∈ waiters l -> state l = BUSY /\ is_Some (releaseEvent l) \/ state l = IDLE /\ is_Some (waitingForPeer l)).
  { intros l p Hl Hp. unfold layerOK in Hl. destruct (state l); [right|by left|done]. split; [done|]. unfold waiters in Hp. destruct (waitingForPeer l); [done|].
    destruct (waitingForLayer l); [by apply elem_of_nil in Hp|]. destruct Hl as [_ Hl]. by destruct Hl. }
  do 2 (split; [done|]). split.
  - intros j l p Hl. apply Hw. by apply (K2 j).
  - intros j l p Hl Hp. destruct (K3 j l Hl) as [Hlk Hno]. destruct (Hw l p Hlk Hp) as [|[_ Hsome]]; [done|]. unfold respOK in Hno. rewrite Hno in Hsome. by destruct Hsome.
Qed.

(** ** Two ports and a busy layer *)

Definition runParams : params := mkParams 1 1 1 16 1000 1000000.
Definition mapped : XBar.t := XBar.told 2 [XBar.device] XBar.two.
Definition start : t := withBase mapped (new 3 2 false false).
Definition ran (now : Z) (c : call) (x : t) : t := match run runParams now c x with Done x' => x' | _ => x end.
Definition readOf (a : Z) : Packet.t := Packet.new (Request.physical a 64 0 0 0) MemCmd.ReadReq.

Definition firstAsks : call := Request (0%nat, readOf 0x10000, true) 0.
Definition secondAsks : call := Request (1%nat, readOf 0x10000, true) 1.
Definition refused : call := Request (0%nat, readOf 0x10000, false) 0.

Lemma runParams_ok : timing runParams.
Proof. split; cbn; lia. Qed.

Lemma readOf_timely a d : 0 <= d <= 10000 -> Packet.getSize (readOf a) = Done 64 -> timely runParams d (readOf a).
Proof. intros Hd Hs. split; cbn; [lia|lia|lia|by eexists]. Qed.

Lemma ask_legal (x : t) r acc d b : XBar.findPort 0x10000 (base x) = Done (d, b) -> 0 <= d < Z.of_nat (length (reqLayers x)) -> routeTo x !! r = None ->
  legalReq runParams x (r, readOf 0x10000, acc).
Proof.
  intros Hf Hd Hr. split; [reflexivity|]. split; [apply readOf_timely; [vm_compute; split; discriminate|reflexivity]|]. split; [done|]. split; [reflexivity|]. by exists 0x10000, d, b.
Qed.

Definition afterFirst : t := ran 5000 firstAsks start.
Definition afterSecond : t := ran 5000 secondAsks afterFirst.

Lemma afterSecond_reachable : reachable runParams 5000 afterSecond.
Proof.
  apply (reach_call runParams 5000 afterFirst 5000 secondAsks); [apply (reach_call runParams 0 start 5000 firstAsks); [apply reach_start|lia|lia|..]|lia|lia|..].
  - split; [eapply ask_legal; [vm_compute; reflexivity|vm_compute; split; [discriminate|reflexivity]|reflexivity]|]. apply (bool_decide_unpack _). vm_compute. exact I.
  - vm_compute. split; [discriminate|reflexivity].
  - vm_compute. reflexivity.
  - split; [eapply ask_legal; [vm_compute; reflexivity|vm_compute; split; [discriminate|reflexivity]|reflexivity]|]. apply (bool_decide_unpack _). vm_compute. exact I.
  - vm_compute. split; [discriminate|reflexivity].
  - vm_compute. reflexivity.
Qed.

(** The second port waits; the release event of the layer sends it a retry. *)
Lemma xbar_arbitration_witness : exists x', run runParams 6000 (ReleaseReq 2 None) afterSecond = Done x' /\ allWaiters (reqLayers afterSecond) = [1].
Proof.
  destruct (xbar_arbitration runParams 5000 afterSecond 6000 (ReleaseReq 2 None)) as (x'&E&_).
  - exact runParams_ok.
  - exact afterSecond_reachable.
  - lia.
  - lia.
  - split; [exact I|]. eexists. split; [vm_compute; reflexivity|reflexivity].
  - exact I.
  - exists x'. split; [exact E|vm_compute; reflexivity].
Defined.

Lemma xbar_no_lost_retry_witness : exists l, reqLayers afterSecond !! 2%nat = Some l /\ (state l = BUSY /\ is_Some (releaseEvent l) \/ state l = IDLE /\ is_Some (waitingForPeer l)).
Proof.
  destruct (xbar_no_lost_retry runParams 5000 afterSecond runParams_ok afterSecond_reachable) as (_&_&Hq&_). eexists. split; [vm_compute; reflexivity|].
  apply (Hq 2%nat _ 1); [vm_compute; reflexivity|vm_compute; left].
Defined.

(** Finding: the comment of [drain] asks that nobody waits; an idle layer is
    drained though a port waits for its refused packet to be sent again. *)
Theorem drain_forgets_waiting : let x := ran 6000 (ReleaseReq 2 None) (ran 5000 refused start) in
  allWaiters (reqLayers x) = [0] /\ (NoncoherentXBar.drain x).1 = 0.
Proof. split; vm_compute; reflexivity. Qed.

End NoncoherentXBarCorrect.
