(* ===== verification/CoherentXBar.v ===== *)
(** * The coherent crossbar: gem5/src/mem/coherent_xbar.cc

    A crossbar whose ports above are caches.  A request is first shown to the
    caches that may have its line, which the snoop filter names when there is
    one, and then sent on.  The crossbar of [NoncoherentXBar] is its core; what
    the neighbours do with a packet are arguments of the functions. *)

From Stdlib Require Import ZArith Lia.
From stdpp Require Import base gmap numbers list.
From S2P Require Import Prelude Bits AddrRange AddrRangeMap XBar XBarLayer MemCmd Request Packet ClockedObject NoncoherentXBar SnoopFilter.

#[local] Open Scope Z_scope.
#[local] Open Scope outcome_scope.

Module CoherentXBar.
Import XBarLayer.

(** [snoopFanout] keeps its samples. *)
Record t := mk {
  core : NoncoherentXBar.t;
  snoopLayers : list layer;
  snoopPorts : list Z;
  outstandingSnoop : gset nat;
  snoopFilter : option SnoopFilter.t;
  snoops : Z;
  snoopFanout : list Z
}.

Definition withCore (c : NoncoherentXBar.t) (x : t) : t := mk c (snoopLayers x) (snoopPorts x) (outstandingSnoop x) (snoopFilter x) (snoops x) (snoopFanout x).
Definition withSnoopLayers (l : list layer) (x : t) : t := mk (core x) l (snoopPorts x) (outstandingSnoop x) (snoopFilter x) (snoops x) (snoopFanout x).
Definition withOutstanding (o : gset nat) (x : t) : t := mk (core x) (snoopLayers x) (snoopPorts x) o (snoopFilter x) (snoops x) (snoopFanout x).
Definition withFilter (f : option SnoopFilter.t) (x : t) : t := mk (core x) (snoopLayers x) (snoopPorts x) (outstandingSnoop x) f (snoops x) (snoopFanout x).
Definition addSnoop (x : t) : t := mk (core x) (snoopLayers x) (snoopPorts x) (outstandingSnoop x) (snoopFilter x) (snoops x + 1) (snoopFanout x).
Definition addFanout (n : Z) (x : t) : t := mk (core x) (snoopLayers x) (snoopPorts x) (outstandingSnoop x) (snoopFilter x) (snoops x) (snoopFanout x ++ [n]).

Definition portIds (n : nat) : list Z := map Z.of_nat (seq 0 n).

(** [isSnooping p]: the port above wants to see snoops; the filter, when there
    is one, is told all the ports. *)
Definition new (masters slaves : nat) (hasDefault useDefault : bool) (isSnooping : Z -> bool) (filter : option (Z * Z)) : t :=
  mk (NoncoherentXBar.new masters slaves hasDefault useDefault) (replicate (masters + (if hasDefault then 1 else 0)) newLayer)
    (List.filter isSnooping (portIds slaves)) ∅
    (match filter with Some (ls, lat) => Some (SnoopFilter.new ls lat (portIds slaves)) | None => None end) 0 [].

Definition onCore {A} (k : NoncoherentXBar.t -> outcome (A * NoncoherentXBar.t)) (x : t) : outcome (A * t) :=
  let! (a, c) := k (core x) in Done (a, withCore c x).

(** The port that mirrors a port above among the sources of a response layer. *)
Definition snoopRespPort (slave_port_id : Z) : Z := - slave_port_id - 2.

Section crossbar.
Context (prm : NoncoherentXBar.params) (snoopResponseLatency : Z) (bypassCaches : bool) (now : Z).
#[local] Abbreviation period := (NoncoherentXBar.clockPeriod prm).

(** [above p pk]: the packet after the cache at port [p] has snooped it;
    [below p pk]: whether the port below takes it, and the packet then. *)
Context (above : Z -> Packet.t -> outcome Packet.t) (below : Z -> Packet.t -> outcome (bool * Packet.t)).

Definition excluded (exclude_slave_port_id p : Z) : bool := negb ((exclude_slave_port_id =? SnoopFilter.InvalidPortID) || negb (p =? exclude_slave_port_id)).

(** The packet, and the ports it was shown to. *)
Fixpoint forwardLoop (pk : Packet.t) (exclude_slave_port_id : Z) (dests : list Z) : outcome (Packet.t * list Z) :=
  match dests with
  | [] => Done (pk, [])
  | p :: dests =>
      if excluded exclude_slave_port_id p then forwardLoop pk exclude_slave_port_id dests
      else let! pk := above p pk in let! (pk, l) := forwardLoop pk exclude_slave_port_id dests in Done (pk, p :: l)
  end.

Definition forwardTiming (pk : Packet.t) (exclude_slave_port_id : Z) (dests : list Z) (x : t) : outcome (Packet.t * list Z * t) :=
  if bypassCaches then Exited
  else let! (pk, l) := forwardLoop pk exclude_slave_port_id dests in Done (pk, l, addFanout (Z.of_nat (length l)) x).

Definition snooped (pk : Packet.t) : bool := negb (Request.isUncacheable (Packet.req pk)) && negb bypassCaches.

(** The look into the filter and the snoops of a request: the packet, how much
    later the layer is free, and the ports. *)
Definition snoopRequest (pk : Packet.t) (slave_port_id : Z) (x : t) : outcome (Packet.t * Z * list Z * t) :=
  if negb (snooped pk) then Done (pk, 0, [], x)
  else match snoopFilter x with
  | Some f =>
      let! (dests, lat, f) := SnoopFilter.lookupRequest pk slave_port_id f in
      let late := wrap 64 (lat * period) in
      let pk := NoncoherentXBar.withDelays (wrap 32 (Packet.headerDelay pk + late)) (Packet.payloadDelay pk) pk in
      let! (pk, l, x) := forwardTiming pk slave_port_id dests (withFilter (Some f) x) in Done (pk, late, l, x)
  | None => let! (pk, l, x) := forwardTiming pk slave_port_id (snoopPorts x) x in Done (pk, 0, l, x)
  end.

(** The filter is told whether the request went through, with the command it had. *)
Definition updateRequest (orig_cmd : MemCmd.Command) (pk : Packet.t) (slave_port_id : Z) (success : bool) (x : t) : outcome t :=
  match snoopFilter x with
  | Some f => if snooped pk then let! f := SnoopFilter.updateRequest (Packet.withCmd orig_cmd pk) slave_port_id (negb success) f in Done (withFilter (Some f) x) else Done x
  | None => Done x
  end.

Definition addRoute (r : nat) (p : Z) (x : t) : outcome t :=
  match NoncoherentXBar.routeTo (core x) !! r with
  | Some _ => Exited
  | None => Done (withCore (NoncoherentXBar.withRoutes (<[r := p]> (NoncoherentXBar.routeTo (core x))) (core x)) x)
  end.

(** The bookkeeping of a request that went through. *)
Definition remember (r : nat) (slave_port_id : Z) (expect_snoop_resp expect_response : bool) (x : t) : outcome t :=
  let! x :=
    (if expect_snoop_resp then
       if bool_decide (r ∈ outstandingSnoop x) then Exited
       else
         let x := withOutstanding ({[r]} ∪ outstandingSnoop x) x in
         if 512 <? Z.of_nat (size (outstandingSnoop x)) then Exited else Done x
     else Done x) in
  if expect_response || expect_snoop_resp then
    let! x := addRoute r slave_port_id x in
    if 512 <? Z.of_nat (size (NoncoherentXBar.routeTo (core x))) then Exited else Done x
  else Done x.

Definition count (src dst n : Z) (c : MemCmd.Command) (x : t) : t :=
  withCore (NoncoherentXBar.withStats (NoncoherentXBar.countPacket src dst n c (NoncoherentXBar.st (core x))) (core x)) x.

Definition clockEdge (cycles : Z) (x : t) : Z * t := let '(e, c) := NoncoherentXBar.clockEdge prm now cycles (core x) in (e, withCore c x).

(** The packet leaves the request layer of its destination: [l] is the layer
    after [tryTiming], [None] for an express snoop. *)
Definition sendRequest (r : nat) (pk0 : Packet.t) (slave_port_id master_port_id : Z) (l : option layer) (x : t) : outcome (bool * Packet.t * list Z * t) :=
  let is_inhibited := Packet.memInhibitAsserted pk0 in
  let! pkt_size := NoncoherentXBar.dataSize pk0 in
  let xbar_delay := wrap 64 (wrap 64 (NoncoherentXBar.frontendLatency prm + NoncoherentXBar.forwardLatency prm) * period) in
  let! (pk, x) := onCore (NoncoherentXBar.calcPacketTiming prm now xbar_delay pk0) x in
  let '(edge, x) := clockEdge 1 x in
  let packetFinishTime := wrap 64 (edge + Packet.payloadDelay pk) in
  let! (pk, late, seen, x) := snoopRequest pk slave_port_id x in
  let packetFinishTime := wrap 64 (packetFinishTime + late) in
  let expect_snoop_resp := negb is_inhibited && Packet.memInhibitAsserted pk in
  let expect_response := MemCmd.needsResponse (Packet.cmd pk) && negb (Packet.memInhibitAsserted pk) in
  let orig_cmd := Packet.cmd pk in
  let! (success, pk) := below master_port_id pk in
  let! x := updateRequest orig_cmd pk slave_port_id success x in
  if negb success then
    match l with
    | None => Exited
    | Some l =>
        if Packet.memInhibitAsserted pk then Exited
        else
          let pk := NoncoherentXBar.withDelays (Packet.headerDelay pk0) (Packet.payloadDelay pk) pk in
          let '(edge, x) := clockEdge 1 x in
          let! l := failedTiming now slave_port_id edge l in
          Done (false, pk, seen, withCore (NoncoherentXBar.putReq master_port_id l (core x)) x)
    end
  else
    let! x :=
      (match l with
       | Some l =>
           let! x := remember r slave_port_id expect_snoop_resp expect_response x in
           let! l := succeededTiming now packetFinishTime l in
           Done (withCore (NoncoherentXBar.putReq master_port_id l (core x)) x)
       | None => Done x
       end) in
    let x := count slave_port_id master_port_id pkt_size (Packet.cmd pk0) x in
    Done (true, pk, seen, match l with Some _ => x | None => addSnoop x end).

(** The packet, and the ports above it was shown to. *)
Definition recvTimingReq (r : nat) (pk : Packet.t) (slave_port_id : Z) (x : t) : outcome (bool * Packet.t * list Z * t) :=
  let is_express_snoop := Packet.isExpressSnoop pk in
  if negb (Bool.eqb is_express_snoop (Packet.memInhibitAsserted pk)) then Exited
  else
    let! a := Packet.getAddr pk in
    let! (master_port_id, b) := XBar.findPort a (NoncoherentXBar.base (core x)) in
    let x := withCore (NoncoherentXBar.withBase b (core x)) x in
    match NoncoherentXBar.getReq master_port_id (core x) with
    | None => Exited
    | Some l =>
        if is_express_snoop then sendRequest r pk slave_port_id master_port_id None x
        else
          let! (free, l) := tryTiming slave_port_id l in
          let x := withCore (NoncoherentXBar.putReq master_port_id l (core x)) x in
          if negb free then Done (false, pk, [], x) else sendRequest r pk slave_port_id master_port_id (Some l) x
    end.

(** ** Responses *)

(** [accepts]: the answer of the port above, which must take it. *)
Definition recvTimingResp (r : nat) (pk : Packet.t) (master_port_id : Z) (accepts : bool) (x : t) : outcome (option Z * t) :=
  match NoncoherentXBar.routeTo (core x) !! r with
  | None => Exited
  | Some slave_port_id =>
      if slave_port_id =? SnoopFilter.InvalidPortID then Exited
      else match NoncoherentXBar.getResp slave_port_id (core x) with
      | None => Exited
      | Some l =>
          let! (free, l) := tryTiming master_port_id l in
          let x := withCore (NoncoherentXBar.putResp slave_port_id l (core x)) x in
          if negb free then Done (None, x)
          else
            let! pkt_size := NoncoherentXBar.dataSize pk in
            let! (pk', x) := onCore (NoncoherentXBar.calcPacketTiming prm now (wrap 64 (NoncoherentXBar.responseLatency prm * period)) pk) x in
            let '(edge, x) := clockEdge 1 x in
            let packetFinishTime := wrap 64 (edge + Packet.payloadDelay pk') in
            let! x :=
              (match snoopFilter x with
               | Some f => if snooped pk' then let! f := SnoopFilter.updateResponse pk' slave_port_id f in Done (withFilter (Some f) x) else Done x
               | None => Done x
               end) in
            if negb accepts then Exited
            else
              let x := withCore (NoncoherentXBar.withRoutes (delete r (NoncoherentXBar.routeTo (core x))) (core x)) x in
              let! l := succeededTiming now packetFinishTime l in
              Done (Some slave_port_id, count slave_port_id master_port_id pkt_size (Packet.cmd pk) (withCore (NoncoherentXBar.putResp slave_port_id l (core x)) x))
      end
  end.

(** ** Snoops from below *)

Definition recvTimingSnoopReq (r : nat) (pk : Packet.t) (master_port_id : Z) (x : t) : outcome (Packet.t * list Z * t) :=
  let st := NoncoherentXBar.st (core x) in
  let x := withCore (NoncoherentXBar.withStats (NoncoherentXBar.mkStats (NoncoherentXBar.pktCount st) (NoncoherentXBar.pktSize st)
             (fun d => if decide (d = Packet.cmd pk) then NoncoherentXBar.transDist st d + 1 else NoncoherentXBar.transDist st d)) (core x)) x in
  let x := addSnoop x in
  if negb (Packet.isExpressSnoop pk) then Exited
  else
    let is_inhibited := Packet.memInhibitAsserted pk in
    let! (pk', seen, x) :=
      (match snoopFilter x with
       | Some f => let! (dests, _, f) := SnoopFilter.lookupSnoop pk f in forwardTiming pk SnoopFilter.InvalidPortID dests (withFilter (Some f) x)
       | None => forwardTiming pk SnoopFilter.InvalidPortID (snoopPorts x) x
       end) in
    let! x := (if negb is_inhibited && Packet.memInhibitAsserted pk' then addRoute r master_port_id x else Done x) in
    let! a := Packet.getAddr pk' in
    let! (p, b) := XBar.findPort a (NoncoherentXBar.base (core x)) in
    if negb (master_port_id =? p) then Exited else Done (pk', seen, withCore (NoncoherentXBar.withBase b (core x)) x).

Definition getSnoop (i : Z) (x : t) : option layer := match NoncoherentXBar.index i with Some n => snoopLayers x !! n | None => None end.
Definition putSnoop (i : Z) (l : layer) (x : t) : t := withSnoopLayers (<[Z.to_nat i := l]> (snoopLayers x)) x.

(** A snoop response goes below as one when the request came from there, and
    above as an ordinary response when it came through this crossbar. *)
Definition recvTimingSnoopResp (r : nat) (pk : Packet.t) (slave_port_id : Z) (accepts : bool) (x : t) : outcome (bool * t) :=
  match NoncoherentXBar.routeTo (core x) !! r with
  | None => Exited
  | Some dest_port_id =>
      if dest_port_id =? SnoopFilter.InvalidPortID then Exited
      else
        let forwardAsSnoop := bool_decide (r ∉ outstandingSnoop x) in
        match (if forwardAsSnoop then getSnoop dest_port_id x else NoncoherentXBar.getResp dest_port_id (core x)) with
        | None => Exited
        | Some l =>
            let put l x := if forwardAsSnoop then putSnoop dest_port_id l x else withCore (NoncoherentXBar.putResp dest_port_id l (core x)) x in
            let! (free, l) := tryTiming (if forwardAsSnoop then slave_port_id else snoopRespPort slave_port_id) l in
            let x := put l x in
            if negb free then Done (false, x)
            else if Packet.isExpressSnoop pk then Exited
            else
              let! pkt_size := NoncoherentXBar.dataSize pk in
              let xbar_delay := wrap 64 ((if forwardAsSnoop then snoopResponseLatency else NoncoherentXBar.responseLatency prm) * period) in
              let! (pk', x) := onCore (NoncoherentXBar.calcPacketTiming prm now xbar_delay pk) x in
              let '(edge, x) := clockEdge 1 x in
              let packetFinishTime := wrap 64 (edge + Packet.payloadDelay pk') in
              let! x :=
                (if forwardAsSnoop then
                   let! x :=
                     (match snoopFilter x with
                      | Some f => let! f := SnoopFilter.updateSnoopForward pk' slave_port_id f in Done (withFilter (Some f) x)
                      | None => Done x
                      end) in
                   let st := NoncoherentXBar.st (core x) in
                   Done (withCore (NoncoherentXBar.withStats (NoncoherentXBar.mkStats
                     (<[(slave_port_id, dest_port_id) := map_get 0 (NoncoherentXBar.pktCount st) (slave_port_id, dest_port_id) + 1]> (NoncoherentXBar.pktCount st))
                     (<[(slave_port_id, dest_port_id) := map_get 0 (NoncoherentXBar.pktSize st) (slave_port_id, dest_port_id) + pkt_size]> (NoncoherentXBar.pktSize st))
                     (NoncoherentXBar.transDist st)) (core x)) x)
                 else
                   let x := withOutstanding (outstandingSnoop x ∖ {[r]}) x in
                   if slave_port_id =? dest_port_id then Exited
                   else match snoopFilter x with
                        | Some f => let! f := SnoopFilter.updateSnoopResponse pk' slave_port_id dest_port_id f in Done (withFilter (Some f) x)
                        | None => Done x
                        end) in
              if negb accepts then Exited
              else
                let! l := succeededTiming now packetFinishTime l in
                let x := put l x in
                let x := withCore (NoncoherentXBar.withRoutes (delete r (NoncoherentXBar.routeTo (core x))) (core x)) x in
                let st := NoncoherentXBar.st (core x) in
                Done (true, addSnoop (withCore (NoncoherentXBar.withStats (NoncoherentXBar.mkStats (NoncoherentXBar.pktCount st) (NoncoherentXBar.pktSize st)
                  (fun d => if decide (d = Packet.cmd pk) then NoncoherentXBar.transDist st d + 1 else NoncoherentXBar.transDist st d)) (core x)) x))
        end
  end.

(** ** Retries and release events *)

(** What a port does when it is sent a retry: nothing, or offer a packet. *)
Definition reactReq (reaction : option (nat * Packet.t)) (p : Z) (x : t) : outcome t :=
  match reaction with
  | None => Done x
  | Some (r, pk) => let! (_, _, _, x) := recvTimingReq r pk p x in Done x
  end.

(** A response layer sends the retry of a mirror port to the cache behind it. *)
Definition reactResp (reaction : option (nat * Packet.t * bool)) (p : Z) (x : t) : outcome t :=
  match reaction with
  | None => Done x
  | Some (r, pk, accepts) =>
      if p <? 0 then let! (_, x) := recvTimingSnoopResp r pk (- p - 2) accepts x in Done x
      else let! (_, x) := recvTimingResp r pk p accepts x in Done x
  end.
Definition reactSnoop (reaction : option (nat * Packet.t * bool)) (p : Z) (x : t) : outcome t :=
  match reaction with
  | None => Done x
  | Some (r, pk, accepts) => let! (_, x) := recvTimingSnoopResp r pk p accepts x in Done x
  end.

Definition getReq (i : Z) (x : t) : option layer := NoncoherentXBar.getReq i (core x).
Definition putReq (i : Z) (l : layer) (x : t) : t := withCore (NoncoherentXBar.putReq i l (core x)) x.
Definition getResp (i : Z) (x : t) : option layer := NoncoherentXBar.getResp i (core x).
Definition putResp (i : Z) (l : layer) (x : t) : t := withCore (NoncoherentXBar.putResp i l (core x)) x.

Definition recvReqRetry (master_port_id : Z) (reaction : option (nat * Packet.t)) (x : t) : outcome t :=
  recvRetry (getReq master_port_id) (putReq master_port_id) (clockEdge 0) (reactReq reaction) now x.

Definition release (get : t -> option layer) (put : layer -> t -> t) (react : Z -> t -> outcome t) (x : t) : outcome (bool * t) :=
  match get x with Some l => releaseLayer get put (clockEdge 0) react now (put (fired l) x) | None => Exited end.
Definition releaseReq (i : Z) (reaction : option (nat * Packet.t)) : t -> outcome (bool * t) := release (getReq i) (putReq i) (reactReq reaction).
Definition releaseResp (i : Z) (reaction : option (nat * Packet.t * bool)) : t -> outcome (bool * t) := release (getResp i) (putResp i) (reactResp reaction).
Definition releaseSnoop (i : Z) (reaction : option (nat * Packet.t * bool)) : t -> outcome (bool * t) := release (getSnoop i) (putSnoop i) (reactSnoop reaction).

End crossbar.

(** ** Atomic accesses *)

Section atomic.
Context (period : Z) (bypassCaches : bool).

(** [above p pk]: the latency and the packet after an atomic snoop; [below p pk]:
    after an atomic access. *)
Context (above below : Z -> Packet.t -> outcome (Z * Packet.t)).

(** The loop over the caches: the response to the snoop, if any, its latency,
    and the number of caches asked. *)
Fixpoint atomicLoop (orig_cmd : MemCmd.Command) (pk : Packet.t) (exclude_slave_port_id source_master_port_id : Z) (dests : list Z)
    (snoop_response_cmd : MemCmd.Command) (latency fanout : Z) (x : t) : outcome (MemCmd.Command * Z * Z * Packet.t * t) :=
  match dests with
  | [] => Done (snoop_response_cmd, latency, fanout, pk, x)
  | p :: dests =>
      if excluded exclude_slave_port_id p then atomicLoop orig_cmd pk exclude_slave_port_id source_master_port_id dests snoop_response_cmd latency fanout x
      else
        let! (lat, pk) := above p pk in
        if negb (MemCmd.isResponse (Packet.cmd pk)) then
          atomicLoop orig_cmd pk exclude_slave_port_id source_master_port_id dests snoop_response_cmd latency (fanout + 1) x
        else if decide (Packet.cmd pk = orig_cmd) then Exited
        else if negb (Packet.memInhibitAsserted pk) then Exited
        else if decide (snoop_response_cmd = MemCmd.InvalidCmd) then
          let cmd := Packet.cmd pk in
          let! x :=
            (match snoopFilter x with
             | Some f =>
                 if negb (source_master_port_id =? SnoopFilter.InvalidPortID) then
                   if negb (exclude_slave_port_id =? SnoopFilter.InvalidPortID) then Exited
                   else let! f := SnoopFilter.updateSnoopForward pk p f in Done (withFilter (Some f) x)
                 else let! f := SnoopFilter.updateSnoopResponse pk p exclude_slave_port_id f in Done (withFilter (Some f) x)
             | None => Done x
             end) in
          atomicLoop orig_cmd (Packet.withCmd orig_cmd pk) exclude_slave_port_id source_master_port_id dests cmd lat (fanout + 1) x
        else Exited
  end.

Definition forwardAtomic (pk : Packet.t) (exclude_slave_port_id source_master_port_id : Z) (dests : list Z) (x : t) : outcome (MemCmd.Command * Z * Packet.t * t) :=
  if bypassCaches then Exited
  else
    let! (cmd, lat, fanout, pk, x) := atomicLoop (Packet.cmd pk) pk exclude_slave_port_id source_master_port_id dests MemCmd.InvalidCmd 0 0 x in
    Done (cmd, lat, pk, addFanout fanout x).

Definition recvAtomic (pk : Packet.t) (slave_port_id : Z) (x : t) : outcome (Z * Packet.t * t) :=
  let! pkt_size := NoncoherentXBar.dataSize pk in
  let pkt_cmd := Packet.cmd pk in
  let! (snoop_response_cmd, snoop_response_latency, pk, x) :=
    (if snooped bypassCaches pk then
       match snoopFilter x with
       | Some f =>
           let! (dests, lat, f) := SnoopFilter.lookupRequest pk slave_port_id f in
           let! (cmd, l, pk, x) := forwardAtomic pk slave_port_id SnoopFilter.InvalidPortID dests (withFilter (Some f) x) in
           Done (cmd, wrap 64 (wrap 64 (lat * period) + l), pk, x)
       | None => forwardAtomic pk slave_port_id SnoopFilter.InvalidPortID (snoopPorts x) x
       end
     else Done (MemCmd.InvalidCmd, 0, pk, x)) in
  let! a := Packet.getAddr pk in
  let! (master_port_id, b) := XBar.findPort a (NoncoherentXBar.base (core x)) in
  let x := count slave_port_id master_port_id pkt_size pkt_cmd (withCore (NoncoherentXBar.withBase b (core x)) x) in
  let! (response_latency, pk) := below master_port_id pk in
  let! x :=
    (match snoopFilter x with
     | Some f => if snooped bypassCaches pk && MemCmd.isResponse (Packet.cmd pk) then let! f := SnoopFilter.updateResponse pk slave_port_id f in Done (withFilter (Some f) x) else Done x
     | None => Done x
     end) in
  let! (response_latency, pk) :=
    (if decide (snoop_response_cmd = MemCmd.InvalidCmd) then Done (response_latency, pk)
     else if MemCmd.isResponse (Packet.cmd pk) then Exited
     else Done (snoop_response_latency, Packet.withCmd snoop_response_cmd pk)) in
  let! x :=
    (if MemCmd.isResponse (Packet.cmd pk) then
       let! n := NoncoherentXBar.dataSize pk in Done (count slave_port_id master_port_id n (Packet.cmd pk) x)
     else Done x) in
  Done (response_latency, NoncoherentXBar.withDelays (Packet.headerDelay pk) (wrap 32 response_latency) pk, x).

Definition recvAtomicSnoop (pk : Packet.t) (master_port_id : Z) (x : t) : outcome (Z * Packet.t * t) :=
  let x := addSnoop x in
  let! (snoop_response_cmd, snoop_response_latency, pk, x) :=
    (match snoopFilter x with
     | Some f =>
         let! (dests, lat, f) := SnoopFilter.lookupSnoop pk f in
         let! (cmd, l, pk, x) := forwardAtomic pk SnoopFilter.InvalidPortID master_port_id dests (withFilter (Some f) x) in
         Done (cmd, wrap 64 (wrap 64 (lat * period) + l), pk, x)
     | None => forwardAtomic pk SnoopFilter.InvalidPortID SnoopFilter.InvalidPortID (snoopPorts x) x
     end) in
  let pk := if decide (snoop_response_cmd = MemCmd.InvalidCmd) then pk else Packet.withCmd snoop_response_cmd pk in
  let x := if MemCmd.isResponse (Packet.cmd pk) then addSnoop x else x in
  Done (snoop_response_latency, NoncoherentXBar.withDelays (Packet.headerDelay pk) (wrap 32 snoop_response_latency) pk, x).

End atomic.

(** ** Functional accesses *)

Section functional.
Context (bypassCaches : bool) (above below : Z -> Packet.t -> outcome Packet.t).

Fixpoint functionalLoop (pk : Packet.t) (exclude_slave_port_id : Z) (ports : list Z) : outcome Packet.t :=
  match ports with
  | [] => Done pk
  | p :: ports =>
      let! pk := (if excluded exclude_slave_port_id p then Done pk else above p pk) in
      if MemCmd.isResponse (Packet.cmd pk) then Done pk else functionalLoop pk exclude_slave_port_id ports
  end.

Definition forwardFunctional (pk : Packet.t) (exclude_slave_port_id : Z) (x : t) : outcome Packet.t :=
  if bypassCaches then Exited else functionalLoop pk exclude_slave_port_id (snoopPorts x).

Definition recvFunctional (pk : Packet.t) (slave_port_id : Z) (x : t) : outcome (Packet.t * t) :=
  let! pk := (if snooped bypassCaches pk then forwardFunctional pk slave_port_id x else Done pk) in
  if MemCmd.isResponse (Packet.cmd pk) then Done (pk, x)
  else
    let! a := Packet.getAddr pk in
    let! (dest_id, b) := XBar.findPort a (NoncoherentXBar.base (core x)) in
    let! pk := below dest_id pk in
    Done (pk, withCore (NoncoherentXBar.withBase b (core x)) x).

Definition recvFunctionalSnoop (pk : Packet.t) (x : t) : outcome Packet.t := forwardFunctional pk SnoopFilter.InvalidPortID x.

End functional.

Definition drain (x : t) : Z * t :=
  let '(n, c) := NoncoherentXBar.drain (core x) in
  let '(m, l) := NoncoherentXBar.drainLayers (snoopLayers x) in
  (n + m, withSnoopLayers l (withCore c x)).

End CoherentXBar.
