(* ===== verification/CoherentXBarCorrect.v ===== *)
(** * Whom a coherent crossbar shows a request

    The crossbar with its snoop filter: a cacheable request that gets through
    its layer is shown to every other cache that waits for the line or has it,
    and the filter keeps knowing who does, whether the port below takes the
    request or not. *)

From Stdlib Require Import ZArith Lia.
From stdpp Require Import base gmap numbers list fin_sets.
From S2P Require Import Prelude Bits AddrRange AddrRangeMap XBar XBarLayer MemCmd Request Packet ClockedObject NoncoherentXBar NoncoherentXBarCorrect SnoopFilter CoherentXBar.

#[local] Open Scope Z_scope.
#[local] Open Scope outcome_scope.

Module CoherentXBarCorrect.
Import XBarLayer CoherentXBar NoncoherentXBarCorrect.

(** ** The neighbours *)

(** The packet is for the same address, request and command. *)
Record alike (pk pk' : Packet.t) : Prop := {
  al_addr : Packet.addr pk' = Packet.addr pk;
  al_getAddr : Packet.getAddr pk' = Packet.getAddr pk;
  al_req : Packet.req pk' = Packet.req pk;
  al_cmd : Packet.cmd pk' = Packet.cmd pk }.

Lemma alike_refl pk : alike pk pk.
Proof. done. Qed.
Lemma alike_trans pk pk' pk'' : alike pk pk' -> alike pk' pk'' -> alike pk pk''.
Proof. intros [A1 A2 A3 A4] [B1 B2 B3 B4]. split; congruence. Qed.
Lemma alike_delays h p pk : alike pk (NoncoherentXBar.withDelays h p pk).
Proof. done. Qed.

Section crossbar.
Context (prm : NoncoherentXBar.params) (Hprm : timing prm) (now : Z) (Hn : 0 < now < 2 ^ 63).
Context (above : Z -> Packet.t -> outcome Packet.t) (below : Z -> Packet.t -> outcome (bool * Packet.t)).

(** A cache that snoops a packet may claim it, no more; the port below may turn
    it into its response; a packet that a cache claimed is not refused. *)
Context (Habove : forall q pk, exists pk', above q pk = Done pk' /\ alike pk pk').
Context (Hbelow : forall m pk, exists b pk', below m pk = Done (b, pk') /\ Packet.addr pk' = Packet.addr pk /\ Packet.getAddr pk' = Packet.getAddr pk /\ Packet.req pk' = Packet.req pk /\
  (b = false -> Packet.memInhibitAsserted pk' = false)).

Lemma forwardLoop_ok ex dests : forall pk, exists pk', forwardLoop above pk ex dests = Done (pk', List.filter (fun p => negb (excluded ex p)) dests) /\ alike pk pk'.
Proof.
  induction dests as [|p dests IH]; intros pk; cbn [forwardLoop List.filter]; [by exists pk|]. destruct (excluded ex p); cbn [negb]; [apply IH|].
  destruct (Habove p pk) as (pk1&E1&A1). rewrite E1. cbn [obind]. destruct (IH pk1) as (pk2&E2&A2). rewrite E2. cbn [obind]. exists pk2. split; [done|]. by eapply alike_trans.
Qed.

Lemma not_excluded p dests : 0 <= p -> forall q, q ∈ List.filter (fun q => negb (excluded p q)) dests <-> q ∈ dests /\ q <> p.
Proof.
  intros Hp q. rewrite list_elem_of_In, filter_In, <-list_elem_of_In. unfold excluded, SnoopFilter.InvalidPortID. rewrite negb_involutive, (proj2 (Z.eqb_neq p (-1))) by lia. cbn [orb].
  rewrite negb_true_iff, Z.eqb_neq. done.
Qed.

(** ** The filter and the caches behind the ports *)

Context (ls k : Z) (ports : list Z) (Hls : ls = 2 ^ k) (Hk : 0 <= k < 32) (Hports : Forall SnoopFilter.isPort ports).
#[local] Abbreviation knows := (SnoopFilter.knows ls ports).
#[local] Abbreviation period := (NoncoherentXBar.clockPeriod prm).

(** Everything but the filter and the counts of the crossbar. *)
Definition sameBut (x x' : t) : Prop := core x' = core x /\ outstandingSnoop x' = outstandingSnoop x.

Lemma snoopRequest_ok x f w m pk p : SnoopFilter.sends p pk m -> snoopFilter x = Some f -> knows f w -> Request.isUncacheable (Packet.req pk) = false ->
  0 <= SnoopFilter.lookupLatency f < 2 ^ 16 -> SnoopFilter.legal ls w m -> SnoopFilter.addressed m ->
  exists pk' late seen x' f', snoopRequest prm false above pk p x = Done (pk', late, seen, x') /\ alike pk pk' /\ 0 <= late < 2 ^ 48 /\ sameBut x x' /\
    snoopFilter x' = Some f' /\ knows f' (SnoopFilter.between ls w m) /\ SnoopFilter.isPort p /\ (forall q, q ∈ seen -> q <> p) /\
    (forall q, q ∈ ports -> SnoopFilter.concerned ls w m q -> q ∈ seen).
Proof.
  intros Hs Hf Hw Hu Hlat Hl Ha. destruct (SnoopFilter.sends_lookup ls ports k Hls Hk Hports f w m p pk Hs Hw Hl Ha) as (Hp&l&f'&E&Hf'&Hq). unfold snoopRequest, snooped. rewrite Hu, Hf. cbn [negb andb].
  rewrite E. cbn [obind]. unfold forwardTiming. match goal with |- context [forwardLoop _ ?pk1 _ _] => destruct (forwardLoop_ok p l pk1) as (pk'&E'&A') end. rewrite E'. cbn [obind].
  assert (Hp0 : 0 <= p) by (unfold SnoopFilter.isPort in Hp; lia).
  destruct Hprm as [P1 P2 _ _ _ _]. eexists pk', _, _, _, f'. split; [done|]. split; [exact (alike_trans _ _ _ (alike_delays _ _ _) A')|].
  split; [unfold wrap; rewrite Z.mod_small by nia; nia|]. split; [done|]. split; [done|]. split; [done|]. split; [done|]. split.
  - intros q Hin. apply not_excluded in Hin; [tauto|done].
  - intros q Hin Hc. apply not_excluded; [done|]. split; [by apply Hq|]. destruct Hs as [-> | ->]; cbn in Hc; tauto.
Qed.

Lemma updateRequest_ok x f w m p pk pk3 b : SnoopFilter.sends p pk m -> snoopFilter x = Some f -> knows f (SnoopFilter.between ls w m) -> SnoopFilter.legal ls w m ->
  SnoopFilter.addressed m -> SnoopFilter.isPort p -> Request.isUncacheable (Packet.req pk) = false -> Packet.addr pk3 = Packet.addr pk -> Packet.getAddr pk3 = Packet.getAddr pk ->
  Packet.req pk3 = Packet.req pk ->
  exists x' f', updateRequest false (Packet.cmd pk) pk3 p b x = Done x' /\ sameBut x x' /\ snoopFilter x' = Some f' /\
    knows f' (if b then SnoopFilter.after ls w m else w).
Proof.
  intros Hs Hf Hw Hl Ha Hp Hu E1 E2 E3. unfold updateRequest, snooped. rewrite Hf, E3, Hu. cbn [negb andb].
  destruct (SnoopFilter.sends_answered ls ports k Hls Hk Hports f w m p pk (Packet.withCmd (Packet.cmd pk) pk3) b Hs Hw Hl Ha Hp E2 E1 eq_refl) as (f'&E&Hf').
  rewrite E. cbn [obind]. by eexists _, f'.
Qed.

Lemma remember_ok r p es er x : r ∉ outstandingSnoop x -> NoncoherentXBar.routeTo (core x) !! r = None ->
  Z.of_nat (size (outstandingSnoop x)) < 512 -> Z.of_nat (size (NoncoherentXBar.routeTo (core x))) < 512 ->
  exists x', remember r p es er x = Done x' /\ snoopFilter x' = snoopFilter x /\ NoncoherentXBar.clk (core x') = NoncoherentXBar.clk (core x).
Proof.
  intros Ho Hr S1 S2. unfold remember, addRoute. rewrite (bool_decide_false (r ∈ _)) by done. cbn [outstandingSnoop withOutstanding core].
  assert (Hs1 : 512 <? Z.of_nat (size ({[r]} ∪ outstandingSnoop x)) = false) by (apply Z.ltb_ge; rewrite size_union by set_solver; rewrite size_singleton; lia).
  assert (Hs2 : 512 <? Z.of_nat (size (<[r := p]> (NoncoherentXBar.routeTo (core x)))) = false) by (apply Z.ltb_ge; rewrite map_size_insert_None by done; lia).
  destruct es; [rewrite Hs1|]; cbn [obind]; rewrite ?orb_true_r, ?orb_false_r; [|destruct er]; cbn [core withOutstanding]; rewrite ?Hr; cbn [obind core withCore NoncoherentXBar.routeTo NoncoherentXBar.withRoutes]; rewrite ?Hs2; by eexists.
Qed.

(** A cacheable request or writeback, new to the crossbar, that the caches may
    send, to an address below 4 GB; the tables have room. *)
Record cleared (x : t) (f : SnoopFilter.t) (w : SnoopFilter.world) (r : nat) (m : SnoopFilter.move) (pk : Packet.t) (p : Z) : Prop := {
  rd_filter : snoopFilter x = Some f;
  rd_latency : 0 <= SnoopFilter.lookupLatency f < 2 ^ 16;
  rd_clock : clockOK prm now (NoncoherentXBar.clk (core x));
  rd_sends : SnoopFilter.sends p pk m;
  rd_legal : SnoopFilter.legal ls w m;
  rd_addressed : SnoopFilter.addressed m;
  rd_cacheable : Request.isUncacheable (Packet.req pk) = false;
  rd_express : Packet.isExpressSnoop pk = false /\ Packet.memInhibitAsserted pk = false;
  rd_timely : timely prm (reqDelay prm) pk;
  rd_route : NoncoherentXBar.routeTo (core x) !! r = None /\ r ∉ outstandingSnoop x;
  rd_room : Z.of_nat (size (outstandingSnoop x)) < 512 /\ Z.of_nat (size (NoncoherentXBar.routeTo (core x))) < 512 }.

(** The layer of its destination is free. *)
Definition free (x : t) (a : Z) : Prop :=
  exists d b l, XBar.findPort a (NoncoherentXBar.base (core x)) = Done (d, b) /\ NoncoherentXBar.getReq d (core x) = Some l /\ state l = IDLE /\ waitingForPeer l = None /\ releaseEvent l = None.

(** What has become of the packet: shown to everyone concerned, and the filter
    knows who waits for the line and who has it, with the sender's new state
    when the port below took the packet. *)
Definition shown (w : SnoopFilter.world) (m : SnoopFilter.move) (p : Z) (ok : bool) (seen : list Z) (x' : t) : Prop :=
  (exists f', snoopFilter x' = Some f' /\ knows f' (if ok then SnoopFilter.after ls w m else w)) /\
  (forall q, q ∈ seen -> q <> p) /\ (forall q, q ∈ ports -> SnoopFilter.concerned ls w m q -> q ∈ seen).

Lemma clockEdge_core cycles x : clockOK prm now (NoncoherentXBar.clk (core x)) -> 0 <= cycles <= 1 ->
  exists c e, clockEdge prm now cycles x = (e, withCore (NoncoherentXBar.withClk c (core x)) x) /\ clockOK prm now c /\ now + period * cycles <= e < now + period * cycles + period.
Proof.
  intros Hc Hcy. destruct (xbarEdge_ok prm Hprm now cycles (core x) Hc Hn Hcy) as (c&e&E&Hc'&He). unfold clockEdge. rewrite E. by exists c, e.
Qed.

(** The delays of a packet do not matter to the filter. *)
Lemma sends_delays w m p pk h pd : SnoopFilter.sends p pk m -> SnoopFilter.legal ls w m -> SnoopFilter.addressed m ->
  exists m', SnoopFilter.sends p (NoncoherentXBar.withDelays h pd pk) m' /\ SnoopFilter.legal ls w m' /\ SnoopFilter.addressed m' /\
    SnoopFilter.between ls w m' = SnoopFilter.between ls w m /\ SnoopFilter.after ls w m' = SnoopFilter.after ls w m /\ SnoopFilter.concerned ls w m' = SnoopFilter.concerned ls w m.
Proof.
  intros [-> | ->] Hl Ha; [exists (SnoopFilter.Ask p (NoncoherentXBar.withDelays h pd pk))|exists (SnoopFilter.WriteBack p (NoncoherentXBar.withDelays h pd pk))];
    (split; [unfold SnoopFilter.sends; auto|done]).
Qed.

Lemma sendRequest_ok x f w r m pk p d l1 : cleared x f w r m pk p -> knows f w -> taken l1 ->
  exists ok pk' seen x', sendRequest prm false now above below r pk p d (Some l1) x = Done (ok, pk', seen, x') /\ shown w m p ok seen x'.
Proof.
  intros [R1 R2 R3 R0 R4 R5 R6 R7 R8 [R11 R12] [R13 R14]] Hw Ht. destruct (reqDelay_wrap prm Hprm) as [D1 D2]. unfold sendRequest. destruct (ty_size _ _ _ R8) as [n Hsz].
  assert (Hds : exists m, NoncoherentXBar.dataSize pk = Done m) by (unfold NoncoherentXBar.dataSize; destruct (MemCmd.hasData _); by eauto). destruct Hds as [sz ->]. cbn [obind].
  rewrite D2. unfold onCore. destruct (calcPacketTiming_ok prm Hprm now (reqDelay prm) pk (core x) R3 Hn D1 R8) as (pk1&c&E1&Hc1&Hpay&h&pd&->). rewrite E1. cbn [obind].
  set (x1 := withCore (NoncoherentXBar.withClk c (core x)) x). destruct (clockEdge_core 1 x1 Hc1 ltac:(lia)) as (c2&e&E2&Hc2&He). rewrite E2. cbn iota. set (x2 := withCore _ x1).
  destruct (sends_delays w m p pk h pd R0 R4 R5) as (m'&M0&M1&M2&_&M4&M5).
  destruct (snoopRequest_ok x2 f w m' (NoncoherentXBar.withDelays h pd pk) p M0 R1 Hw R6 R2 M1 M2) as (pk2&late&seen&x3&f3&E3&A3&Hlate&[S1 S2]&F3&K3&Hp&Q3&Q4). rewrite E3. cbn [obind].
  destruct (Hbelow d pk2) as (ok&pk3&E4&B1&B2&B3&B4). rewrite E4. cbn [obind]. destruct A3 as [A1 A2 A3' A4].
  destruct (updateRequest_ok x3 f3 w m' p (NoncoherentXBar.withDelays h pd pk) pk3 ok M0 F3 K3 M1 M2 Hp R6) as (x4&f4&E5&[S3 S4]&F4&K4); [congruence..|]. rewrite A4, E5. cbn [obind]. rewrite M4 in K4. rewrite M5 in Q4.
  assert (Hcore : core x4 = NoncoherentXBar.withClk c2 (NoncoherentXBar.withClk c (core x))) by (rewrite S3, S1; done). assert (Ho : outstandingSnoop x4 = outstandingSnoop x) by (rewrite S4, S2; done).
  destruct Hprm as [P1 P2 _ _ _ _]. destruct Ht as (T1&T2&T3). destruct ok; cbn [negb].
  - destruct (remember_ok r p (negb (Packet.memInhibitAsserted pk) && Packet.memInhibitAsserted pk2)
      (MemCmd.needsResponse (Packet.cmd (NoncoherentXBar.withDelays h pd pk)) && negb (Packet.memInhibitAsserted pk2)) x4) as (x5&E6&F5&_); [by rewrite Ho|by rewrite Hcore|by rewrite Ho|by rewrite Hcore|]. rewrite E6. cbn [obind].
    unfold succeededTiming. rewrite bool_decide_true by done. cbn [negb].
    match goal with |- context [occupyLayer _ ?u _] => assert (Hu : u = e + pd + late) by (cbn [Packet.payloadDelay NoncoherentXBar.withDelays] in *; unfold wrap; rewrite (Z.mod_small (e + pd)) by lia; apply Z.mod_small; lia) end.
    rewrite Hu. cbn [Packet.payloadDelay NoncoherentXBar.withDelays] in Hpay. destruct (occupyLayer_ok now (e + pd + late) l1) as (l2&E7&_); [left; done|lia|lia|]. rewrite E7. cbn [obind].
    eexists true, _, _, _. split; [done|]. split; [exists f4; split; [exact (eq_trans F5 F4)|done]|done].
  - rewrite (B4 eq_refl). destruct (clockEdge_core 1 x4 ltac:(rewrite Hcore; exact Hc2) ltac:(lia)) as (c5&e5&E6&_&He5). rewrite E6. cbn iota. unfold failedTiming. rewrite T2. cbn iota.
    rewrite bool_decide_true by done. cbn [negb]. destruct (occupyLayer_ok now e5 (withPeer (Some p) l1)) as (l2&E7&_); [right; by split|lia|lia|]. rewrite E7. cbn [obind].
    eexists false, _, _, _. split; [done|]. split; [exists f4; split; [exact F4|done]|done].
Qed.

Lemma request_shown x f w r m pk p : cleared x f w r m pk p -> free x (Packet.addr pk) -> knows f w ->
  exists ok pk' seen x', recvTimingReq prm false now above below r pk p x = Done (ok, pk', seen, x') /\ shown w m p ok seen x'.
Proof.
  intros Hr (d&b&l&R9&R10&I1&I2&I3) Hw. pose proof Hr as [R1 R2 R3 R0 R4 R5 R6 [R7 Hi] R8 R11 R13]. unfold recvTimingReq. rewrite R7, Hi. cbn [Bool.eqb negb].
  assert (Ha : Packet.getAddr pk = Done (Packet.addr pk)) by (destruct R0 as [-> | ->]; apply R5).
  rewrite Ha. cbn [obind]. rewrite R9. cbn [obind core withCore]. change (NoncoherentXBar.getReq d (NoncoherentXBar.withBase b (core x))) with (NoncoherentXBar.getReq d (core x)). rewrite R10.
  assert (Etry : tryTiming p l = Done (true, withState BUSY l)) by (unfold tryTiming; rewrite I1, I2; done). rewrite Etry. cbn [obind negb].
  eapply (sendRequest_ok _ f w r m pk p d); [|done|done]. by destruct Hr.
Qed.

End crossbar.

(** C40: Coherence of requests.  When a cacheable packet, a request that needs a
    response or a writeback, finds its layer free, the coherent crossbar with a
    snoop filter shows it to every cache, but the one that sends it, that waits
    for the line or has it; and whether the port below takes the packet or
    refuses it, the filter keeps knowing all of them, with the sender waiting
    for the line (or without it, after a writeback) exactly when the packet was
    taken.  Assumed: the address is below 4 GB, ports are numbered below 64,
    the clock and the delays do not overflow and the routing tables have room;
    the packet is neither an express snoop nor claimed; a port that asks does not wait for the line
    already, one that writes back has it ([SnoopFilter.legal]); the caches that
    are shown the packet leave its address, command and request alone, and the
    port below its address and request; and a packet that a cache has claimed
    is not refused, which the code asserts. *)
Theorem coherent_request_shown prm now above below ls k lat ports x f w r m pk p : timing prm -> 0 < now < 2 ^ 63 ->
  (forall q pk, exists pk', above q pk = Done pk' /\ alike pk pk') ->
  (forall d pk, exists b pk', below d pk = Done (b, pk') /\ Packet.addr pk' = Packet.addr pk /\ Packet.getAddr pk' = Packet.getAddr pk /\ Packet.req pk' = Packet.req pk /\
     (b = false -> Packet.memInhibitAsserted pk' = false)) ->
  ls = 2 ^ k -> 0 <= k < 32 -> Forall SnoopFilter.isPort ports -> SnoopFilter.reachable ls lat ports f w ->
  cleared prm now ls x f w r m pk p -> free x (Packet.addr pk) ->
  exists ok pk' seen x', recvTimingReq prm false now above below r pk p x = Done (ok, pk', seen, x') /\ shown ls ports w m p ok seen x'.
Proof.
  intros Hprm Hn Ha Hb Hls Hk Hp Hr Hc Hf. eapply request_shown; [done..|]. by eapply SnoopFilter.reachable_knows.
Qed.

(** ** A second cache asks for a line the first has *)

Definition silent (q : Z) (pk : Packet.t) : outcome Packet.t := Done pk.
Definition takes (m : Z) (pk : Packet.t) : outcome (bool * Packet.t) := Done (true, pk).
Definition shared : SnoopFilter.t := SnoopFilter.stepped SnoopFilter.firstGets (SnoopFilter.stepped SnoopFilter.firstAsks SnoopFilter.three).
Definition sharedWorld : SnoopFilter.world := SnoopFilter.after 64 (SnoopFilter.after 64 SnoopFilter.empty SnoopFilter.firstAsks) SnoopFilter.firstGets.
Definition bus : t := withFilter (Some shared) (withCore (NoncoherentXBar.withBase mapped (NoncoherentXBar.new 3 3 false false)) (new 3 3 false false (fun _ => true) (Some (64, 1)))).

Lemma shared_reachable : SnoopFilter.reachable 64 1 [0; 1; 2] shared sharedWorld.
Proof.
  apply (SnoopFilter.reach_move _ _ _ (SnoopFilter.stepped SnoopFilter.firstAsks SnoopFilter.three) _ SnoopFilter.firstGets []);
    [apply (SnoopFilter.reach_move _ _ _ SnoopFilter.three _ SnoopFilter.firstAsks []); [apply SnoopFilter.reach_new|..]|..].
  - split; [unfold SnoopFilter.isPort; lia|]. do 2 (split; [reflexivity|]). apply (bool_decide_unpack _). vm_compute. exact I.
  - split; [reflexivity|vm_compute; split; [intros E; discriminate E|reflexivity]].
  - vm_compute. reflexivity.
  - split; [reflexivity|]. apply (bool_decide_unpack _). vm_compute. exact I.
  - split; [reflexivity|vm_compute; split; [intros E; discriminate E|reflexivity]].
  - vm_compute. reflexivity.
Qed.

Lemma coherent_request_shown_witness : exists ok pk' seen x',
  recvTimingReq runParams false 5000 silent takes 7 (SnoopFilter.packet 0x1040 MemCmd.ReadReq) 1 bus = Done (ok, pk', seen, x') /\ 0 ∈ seen.
Proof.
  destruct (coherent_request_shown runParams 5000 silent takes 64 6 1 [0; 1; 2] bus shared sharedWorld 7 SnoopFilter.secondAsks (SnoopFilter.packet 0x1040 MemCmd.ReadReq) 1) as (ok&pk'&seen&x'&E&_&_&Hq).
  - exact runParams_ok.
  - lia.
  - intros q pk. exists pk. split; [reflexivity|apply alike_refl].
  - intros m pk. exists true, pk. do 4 (split; [reflexivity|]). discriminate.
  - reflexivity.
  - lia.
  - repeat constructor; unfold SnoopFilter.isPort; lia.
  - exact shared_reachable.
  - split; [reflexivity|vm_compute; split; [discriminate|reflexivity]|split; [split; cbn; lia|cbn; lia]|left; reflexivity| |split; [reflexivity|vm_compute; split; [discriminate|reflexivity]]|reflexivity|split; reflexivity| | |].
    + split; [unfold SnoopFilter.isPort; lia|]. do 2 (split; [reflexivity|]). apply (bool_decide_unpack _). vm_compute. exact I.
    + split; [vm_compute; discriminate|vm_compute; discriminate|vm_compute; split; [discriminate|reflexivity]|exists 64; reflexivity].
    + split; [reflexivity|]. apply (bool_decide_unpack _). vm_compute. exact I.
    + split; vm_compute; reflexivity.
  - eexists 1, _, _. split; [vm_compute; reflexivity|]. split; [vm_compute; reflexivity|]. do 2 (split; [reflexivity|]). reflexivity.
  - exists ok, pk', seen, x'. split; [exact E|]. apply (Hq 0); [left|]. split; [discriminate|]. right. apply (bool_decide_unpack _). vm_compute. exact I.
Defined.

End CoherentXBarCorrect.
