(* ===== verification/Bridge.v ===== *)
(** * The bridge: gem5/src/mem/bridge.cc and bridge.hh

    A bridge queues requests towards its master port and responses towards its
    slave port, each with a delay.  Room for the response is reserved when a
    request is accepted; a request that finds no room is stalled, and its sender
    gets a retry later.  What the neighbours answer, and what the sender does
    with a retry, are arguments. *)

From Stdlib Require Import ZArith Lia.
From stdpp Require Import base numbers list.
From S2P Require Import Prelude Bits AddrRange MemCmd Request Packet ClockedObject.

#[local] Open Scope Z_scope.
#[local] Open Scope outcome_scope.

Module Bridge.

Record DeferredPacket := mkDeferred { tick : Z; pkt : Packet.t }.

Record params := mkParams {
  delay : Z;
  reqQueueLimit : Z;
  respQueueLimit : Z;
  ranges : list AddrRange.t;
  clockPeriod : Z
}.

(** [reqs] and [reqEvent] are those of the master port, the rest of the slave port. *)
Record t := mk {
  reqs : list DeferredPacket;
  reqEvent : option Z;
  resps : list DeferredPacket;
  respEvent : option Z;
  outstandingResponses : Z;
  retryReq : bool;
  clk : ClockedObject.t
}.

Definition new : t := mk [] None [] None 0 false ClockedObject.new.

Definition withReqs (l : list DeferredPacket) (e : option Z) (x : t) : t := mk l e (resps x) (respEvent x) (outstandingResponses x) (retryReq x) (clk x).
Definition withResps (l : list DeferredPacket) (e : option Z) (x : t) : t := mk (reqs x) (reqEvent x) l e (outstandingResponses x) (retryReq x) (clk x).
Definition withOutstanding (n : Z) (x : t) : t := mk (reqs x) (reqEvent x) (resps x) (respEvent x) n (retryReq x) (clk x).
Definition withRetry (b : bool) (x : t) : t := mk (reqs x) (reqEvent x) (resps x) (respEvent x) (outstandingResponses x) b (clk x).
Definition withClk (c : ClockedObject.t) (x : t) : t := mk (reqs x) (reqEvent x) (resps x) (respEvent x) (outstandingResponses x) (retryReq x) c.

(** ** Requests and responses *)

Section bridge.
Context (prm : params) (now : Z).

Definition respQueueFull (x : t) : bool := outstandingResponses x =? respQueueLimit prm.
Definition reqQueueFull (x : t) : bool := Z.of_nat (length (reqs x)) =? reqQueueLimit prm.

Definition clockEdge (cycles : Z) (x : t) : Z * t := let '(e, c) := ClockedObject.clockEdge now (clockPeriod prm) cycles (clk x) in (e, withClk c x).

(** [schedule]: not twice, not in the past. *)
Definition schedule (event : option Z) (when_ : Z) : outcome (option Z) :=
  match event with Some _ => Exited | None => if when_ <? now then Exited else Done (Some when_) end.

Definition noDelay (p : Packet.t) : Packet.t :=
  Packet.mk (Packet.flags p) (Packet.cmd p) (Packet.req p) (Packet.data p) (Packet.addr p) (Packet.isSecure_ p) (Packet.size p) (Packet.origCmd p)
    (Packet.bytesValid p) 0 0 (Packet.senderState p).

Definition schedTimingReq (p : Packet.t) (when_ : Z) (x : t) : outcome t :=
  let! e := (match reqs x with [] => schedule (reqEvent x) when_ | _ => Done (reqEvent x) end) in
  if Z.of_nat (length (reqs x)) =? reqQueueLimit prm then Exited
  else Done (withReqs (reqs x ++ [mkDeferred when_ p]) e x).

Definition schedTimingResp (p : Packet.t) (when_ : Z) (x : t) : outcome t :=
  let! e := (match resps x with [] => schedule (respEvent x) when_ | _ => Done (respEvent x) end) in
  Done (withResps (resps x ++ [mkDeferred when_ p]) e x).

Definition recvTimingResp (p : Packet.t) (x : t) : outcome t :=
  let '(when_, x) := clockEdge (delay prm) x in schedTimingResp (noDelay p) when_ x.

Definition expects_response (p : Packet.t) : bool := MemCmd.needsResponse (Packet.cmd p) && negb (Packet.memInhibitAsserted p).

Definition recvTimingReq (p : Packet.t) (x : t) : outcome (bool * t) :=
  if retryReq x then Exited
  else if reqQueueFull x then Done (false, withRetry true x)
  else
    let! x :=
      (if expects_response p then
         if respQueueFull x then Done (withRetry true x)
         else if outstandingResponses x =? respQueueLimit prm then Exited
         else Done (withOutstanding (wrap 32 (outstandingResponses x + 1)) x)
       else Done x) in
    if negb (retryReq x) then
      let '(when_, x) := clockEdge (delay prm) x in
      let! x := schedTimingReq (noDelay p) when_ x in Done (true, x)
    else Done (false, x).

(** [sendRetryReq]: the sender may offer a packet at once. *)
Definition sendRetryReq (reaction : option Packet.t) (x : t) : outcome t :=
  match reaction with
  | None => Done x
  | Some p => let! (_, x) := recvTimingReq p x in Done x
  end.

Definition retryStalledReq (reaction : option Packet.t) (x : t) : outcome t :=
  if retryReq x then sendRetryReq reaction (withRetry false x) else Done x.

(** The event of the next packet, if there is one. *)
Definition schedNext (l : list DeferredPacket) (event : option Z) (x : t) : outcome (option Z * t) :=
  match l with
  | [] => Done (event, x)
  | d :: _ => let '(edge, x) := clockEdge 0 x in let! e := schedule event (Z.max (tick d) edge) in Done (e, x)
  end.

(** [accepts]: the answer of the port below. *)
Definition trySendReq (accepts : bool) (reaction : option Packet.t) (x : t) : outcome t :=
  match reqs x with
  | [] => Exited
  | d :: rest =>
      if now <? tick d then Exited
      else if accepts then
        let! (e, x) := schedNext rest (reqEvent x) x in retryStalledReq reaction (withReqs rest e x)
      else Done x
  end.

Definition trySendResp (accepts : bool) (reaction : option Packet.t) (x : t) : outcome t :=
  match resps x with
  | [] => Exited
  | d :: rest =>
      if now <? tick d then Exited
      else if accepts then
        if outstandingResponses x =? 0 then Exited
        else
          let x := withOutstanding (wrap 32 (outstandingResponses x - 1)) x in
          let! (e, x) := schedNext rest (respEvent x) x in
          let x := withResps rest e x in
          if negb (reqQueueFull x) && retryReq x then sendRetryReq reaction (withRetry false x) else Done x
      else Done x
  end.

Definition recvReqRetry := trySendReq.
Definition recvRespRetry := trySendResp.

(** The events of the two ports. *)
Definition reqEventFires (accepts : bool) (reaction : option Packet.t) (x : t) : outcome t := trySendReq accepts reaction (withReqs (reqs x) None x).
Definition respEventFires (accepts : bool) (reaction : option Packet.t) (x : t) : outcome t := trySendResp accepts reaction (withResps (resps x) None x).

End bridge.

(** ** Atomic and functional accesses *)

Definition recvAtomic (prm : params) (below : Packet.t -> outcome (Z * Packet.t)) (p : Packet.t) : outcome (Z * Packet.t) :=
  let! (lat, p) := below p in Done (wrap 64 (wrap 64 (delay prm * clockPeriod prm) + lat), p).

(** The first queued packet that satisfies the access; a write goes into the
    queued data it overlaps.  Labels are for printing. *)
Fixpoint checkQueue (l : list DeferredPacket) (p : Packet.t) : outcome (bool * Packet.t * list DeferredPacket) :=
  match l with
  | [] => Done (false, p, [])
  | d :: l =>
      let! (b, p, q) := Packet.checkFunctionalPacket (pkt d) p in
      let d := mkDeferred (tick d) q in
      if b then let! p := Packet.makeResponse p in Done (true, p, d :: l)
      else let! (b, p, l) := checkQueue l p in Done (b, p, d :: l)
  end.

Definition recvFunctional (below : Packet.t -> outcome Packet.t) (p : Packet.t) (x : t) : outcome (Packet.t * t) :=
  let! (b, p, l) := checkQueue (resps x) p in
  let x := withResps l (respEvent x) x in
  if b then Done (p, x)
  else
    let! (b, p, l) := checkQueue (reqs x) p in
    let x := withReqs l (reqEvent x) x in
    if b then Done (p, x) else let! p := below p in Done (p, x).

Definition getAddrRanges (prm : params) : list AddrRange.t := ranges prm.

(** ** Calls and events *)

(** What the bridge does not see: the requests below that will be answered, and
    whether a refused packet waits for a retry. *)
Record outside := mkOutside { inflight : Z; waitReq : bool; waitResp : bool }.

Inductive call :=
| Request (p : Packet.t)
| Response (p : Packet.t)
| ReqEvent (accepts : bool) (reaction : option Packet.t)
| RespEvent (accepts : bool) (reaction : option Packet.t)
| ReqRetry (accepts : bool) (reaction : option Packet.t)
| RespRetry (accepts : bool) (reaction : option Packet.t).

Section steps.
Context (prm : params).

Definition run (now : Z) (c : call) (x : t) : outcome t :=
  match c with
  | Request p => let! (_, x) := recvTimingReq prm now p x in Done x
  | Response p => recvTimingResp prm now p x
  | ReqEvent accepts reaction => reqEventFires prm now accepts reaction x
  | RespEvent accepts reaction => respEventFires prm now accepts reaction x
  | ReqRetry accepts reaction => recvReqRetry prm now accepts reaction x
  | RespRetry accepts reaction => recvRespRetry prm now accepts reaction x
  end.

(** A stalled sender is silent; a response answers a request; events fire when
    they are due; a retry follows a refusal. *)
Definition legal (now : Z) (g : outside) (x : t) (c : call) : Prop :=
  match c with
  | Request _ => retryReq x = false
  | Response _ => 0 < inflight g
  | ReqEvent _ _ => reqEvent x = Some now
  | RespEvent _ _ => respEvent x = Some now
  | ReqRetry _ _ => waitReq g = true
  | RespRetry _ _ => waitResp g = true
  end.

Definition answered (d : DeferredPacket) : Z := if expects_response (pkt d) then 1 else 0.
Definition sentReq (accepts : bool) (g : outside) (x : t) : outside :=
  if accepts then mkOutside (inflight g + match reqs x with d :: _ => answered d | [] => 0 end) false (waitResp g) else mkOutside (inflight g) true (waitResp g).

Definition after (g : outside) (x : t) (c : call) : outside :=
  match c with
  | Request _ => g
  | Response _ => mkOutside (inflight g - 1) (waitReq g) (waitResp g)
  | ReqEvent accepts _ | ReqRetry accepts _ => sentReq accepts g x
  | RespEvent accepts _ | RespRetry accepts _ => mkOutside (inflight g) (waitReq g) (negb accepts)
  end.

Inductive reachable : Z -> outside -> t -> Prop :=
| reach_new : reachable 0 (mkOutside 0 false false) new
| reach_call T g x now c x' : reachable T g x -> T <= now -> 0 <= now < 2 ^ 62 -> legal now g x c -> run now c x = Done x' -> reachable now (after g x c) x'.

(** ** The invariant *)

Fixpoint expected (l : list DeferredPacket) : Z := match l with [] => 0 | d :: l => answered d + expected l end.

(** The first packet has its event, not before its time, or was tried and waits. *)
Definition pending (T : Z) (l : list DeferredPacket) (event : option Z) (waiting : bool) : Prop :=
  match l with
  | [] => event = None /\ waiting = false
  | d :: _ => if waiting then event = None /\ tick d <= T else exists e, event = Some e /\ tick d <= e
  end.

Record settings : Prop := {
  se_delay : 0 <= delay prm < 2 ^ 16;
  se_period : 0 < clockPeriod prm < 2 ^ 32;
  se_req : 0 < reqQueueLimit prm < 2 ^ 31;
  se_resp : 0 < respQueueLimit prm < 2 ^ 31 }.

Definition clockOK (T : Z) (c : ClockedObject.t) : Prop := ClockedObject.onEdge (clockPeriod prm) c /\ ClockedObject.tick c < T + clockPeriod prm.

Record ok (T : Z) (g : outside) (x : t) : Prop := {
  ok_clock : clockOK T (clk x);
  ok_reqs : Z.of_nat (length (reqs x)) <= reqQueueLimit prm;
  ok_resps : 0 <= outstandingResponses x <= respQueueLimit prm;
  ok_count : outstandingResponses x = expected (reqs x) + inflight g + Z.of_nat (length (resps x));
  ok_inflight : 0 <= inflight g;
  ok_reqPending : pending T (reqs x) (reqEvent x) (waitReq g);
  ok_respPending : pending T (resps x) (respEvent x) (waitResp g);
  ok_stalled : retryReq x = true -> Z.of_nat (length (reqs x)) = reqQueueLimit prm \/ outstandingResponses x = respQueueLimit prm }.

Lemma expected_nonneg l : 0 <= expected l.
Proof. induction l as [|d l IH]; cbn [expected]; [lia|]. unfold answered. destruct (expects_response _); lia. Qed.
Lemma expected_app l k : expected (l ++ k) = expected l + expected k.
Proof. induction l as [|d l IH]; cbn [expected app]; lia. Qed.

Context (Hprm : settings).

Lemma bridgeEdge_ok now cycles x : clockOK now (clk x) -> 0 <= now < 2 ^ 62 -> 0 <= cycles < 2 ^ 16 ->
  exists c e, clockEdge prm now cycles x = (e, withClk c x) /\ clockOK now c /\ now <= e.
Proof.
  intros [Ho Ht] Hn Hc. destruct Hprm as [_ P2 _ _]. unfold clockEdge.
  assert (Hb : Z.max now (ClockedObject.tick (clk x)) + clockPeriod prm * (cycles + 1) < 2 ^ 64) by nia.
  pose proof (ClockedObject.update_next_edge now (clockPeriod prm) cycles (clk x) Ho ltac:(lia) ltac:(lia) ltac:(lia) Hb) as Hu.
  destruct (ClockedObject.clockEdge now (clockPeriod prm) cycles (clk x)) as [e c]. destruct Hu as (Hoc&H1'&H2'&H3'&H4'&->).
  assert (Hlt : ClockedObject.tick c < now + clockPeriod prm) by (destruct (Z.lt_ge_cases (ClockedObject.tick (clk x)) now); [by apply H3'|rewrite H4' by lia; lia]).
  eexists c, _. split; [done|]. split; [split; [done|lia]|nia].
Qed.

Lemma pending_mono T T' l e w : T <= T' -> pending T l e w -> pending T' l e w.
Proof. intros HT. unfold pending. destruct l; [done|]. destruct w; [|done]. intros [He Ht]. split; [done|lia]. Qed.

(** A packet is added at the end. *)
Lemma pending_app now l ev w d : pending now l ev w -> now <= tick d ->
  exists e, (match l with [] => schedule now ev (tick d) | _ => Done ev end) = Done e /\ pending now (l ++ [d]) e w.
Proof.
  intros Hp Ht. destruct l as [|d0 l]; [|by exists ev]. destruct Hp as [-> ->]. unfold schedule. rewrite (proj2 (Z.ltb_ge _ _)) by lia. eexists. split; [done|]. cbn. by exists (tick d).
Qed.

Lemma ok_mono T T' g x : T <= T' -> ok T g x -> ok T' g x.
Proof. intros HT [O1 O2 O3 O4 O5 O6 O7 O8]. split; try done; [|by eapply pending_mono..]. destruct O1 as [Hc Ht]. split; [done|lia]. Qed.

Lemma bridgeRequest_ok now g x p : ok now g x -> 0 <= now < 2 ^ 62 -> retryReq x = false -> exists b x', recvTimingReq prm now p x = Done (b, x') /\ ok now g x'.
Proof.
  intros [O1 O2 O3 O4 O5 O6 O7 O8] Hn Hr. pose proof Hprm as [P1 P2 P3 P4]. unfold recvTimingReq, reqQueueFull, respQueueFull. rewrite Hr. destruct (Z.eqb_spec (Z.of_nat (length (reqs x))) (reqQueueLimit prm)) as [Ef|Hf].
  { eexists _, _. split; [done|]. split; try done. intros _. by left. }
  assert (Hgo : forall x1, clk x1 = clk x -> reqs x1 = reqs x -> reqEvent x1 = reqEvent x -> resps x1 = resps x -> respEvent x1 = respEvent x -> retryReq x1 = false ->
    0 <= outstandingResponses x1 <= respQueueLimit prm -> outstandingResponses x1 = outstandingResponses x + (if expects_response p then 1 else 0) ->
    exists b x', (let '(when_, x) := clockEdge prm now (delay prm) x1 in let! x := schedTimingReq prm now (noDelay p) when_ x in Done (true, x)) = Done (b, x') /\ ok now g x').
  { intros x1 E1 E2 E3 E4 E5 E6 E7 E8. destruct (bridgeEdge_ok now (delay prm) x1) as (c&e&Ec&Hc&He); [by rewrite E1|done|done|]. rewrite Ec. cbn iota. unfold schedTimingReq. cbn [reqs reqEvent withClk]. rewrite E2, E3.
    destruct (pending_app now (reqs x) (reqEvent x) (waitReq g) (mkDeferred e (noDelay p)) O6 He) as (ev&Eev&Hp). cbn [tick] in Eev. rewrite Eev. cbn [obind].
    rewrite (proj2 (Z.eqb_neq _ _)) by done. eexists _, _. split; [done|]. split; cbn [clk reqs reqEvent resps respEvent outstandingResponses retryReq withReqs withClk]; rewrite ?E4, ?E5, ?E6; try done.
    - rewrite length_app. cbn [length]. lia.
    - rewrite expected_app. cbn [expected]. change (answered (mkDeferred e (noDelay p))) with (if expects_response p then 1 else 0). lia. }
  destruct (expects_response p) eqn:Ex; cbn [obind].
  - destruct (Z.eqb_spec (outstandingResponses x) (respQueueLimit prm)) as [Er|Hrf]; cbn [obind].
    + cbn [retryReq withRetry negb]. eexists _, _. split; [done|]. split; try done. intros _. by right.
    + cbn [retryReq withOutstanding]. rewrite Hr. cbn [negb]. assert (Hw : wrap 32 (outstandingResponses x + 1) = outstandingResponses x + 1) by (apply Z.mod_small; lia).
      apply Hgo; cbn [clk reqs reqEvent resps respEvent retryReq outstandingResponses withOutstanding]; try done; rewrite Hw; lia.
  - rewrite Hr. cbn [negb]. apply Hgo; try done. lia.
Qed.

Lemma bridgeResponse_ok now g x p : ok now g x -> 0 <= now < 2 ^ 62 -> 0 < inflight g ->
  exists x', recvTimingResp prm now p x = Done x' /\ ok now (mkOutside (inflight g - 1) (waitReq g) (waitResp g)) x'.
Proof.
  intros [O1 O2 O3 O4 O5 O6 O7 O8] Hn Hi. pose proof Hprm as [P1 P2 P3 P4]. unfold recvTimingResp. destruct (bridgeEdge_ok now (delay prm) x) as (c&e&Ec&Hc&He); [done|done|done|]. rewrite Ec. cbn iota.
  unfold schedTimingResp. cbn [resps respEvent withClk]. destruct (pending_app now (resps x) (respEvent x) (waitResp g) (mkDeferred e (noDelay p)) O7 He) as (ev&Eev&Hp). cbn [tick] in Eev. rewrite Eev. cbn [obind].
  eexists. split; [done|]. split; cbn [clk reqs reqEvent resps respEvent outstandingResponses retryReq withResps withClk inflight waitReq waitResp]; try done; [|lia].
  rewrite length_app. cbn [length]. lia.
Qed.

(** The event of the next packet is scheduled. *)
Lemma schedNext_ok now l x : clockOK now (clk x) -> 0 <= now < 2 ^ 62 ->
  exists e c, schedNext prm now l None x = Done (e, withClk c x) /\ clockOK now c /\ pending now l e false.
Proof.
  intros Hc Hn. destruct l as [|d l]; cbn [schedNext].
  { exists None, (clk x). split; [by destruct x|]. done. }
  destruct (bridgeEdge_ok now 0 x) as (c&e&Ec&Hc'&He); [done|done|lia|]. rewrite Ec. cbn iota. unfold schedule. rewrite (proj2 (Z.ltb_ge _ _)) by lia. cbn [obind].
  eexists _, c. split; [done|]. split; [done|]. eexists. split; [done|]. lia.
Qed.

(** A retry of the stalled sender. *)
Lemma retry_ok now g x reaction : ok now g x -> 0 <= now < 2 ^ 62 -> exists x', sendRetryReq prm now reaction (withRetry false x) = Done x' /\ ok now g x'.
Proof.
  intros Hx Hn. assert (Hx' : ok now g (withRetry false x)) by (destruct Hx; split; done). destruct reaction as [p|]; cbn [sendRetryReq]; [|by eexists].
  destruct (bridgeRequest_ok now g (withRetry false x) p Hx' Hn eq_refl) as (b&x'&E&Ho). rewrite E. cbn [obind]. by exists x'.
Qed.

(** All of the invariant but what stalled requests wait for. *)
Definition almost (T : Z) (g : outside) (x : t) : Prop := ok T g (withRetry false x).

Lemma almost_retry now g x reaction : almost now g x -> 0 <= now < 2 ^ 62 -> exists x', sendRetryReq prm now reaction (withRetry false x) = Done x' /\ ok now g x'.
Proof. intros Hx Hn. by destruct (retry_ok now g (withRetry false x) reaction Hx Hn) as (x'&E&Ho); exists x'. Qed.

Lemma almost_ok now g x : almost now g x -> retryReq x = false -> ok now g x.
Proof. intros Hx Hr. unfold almost in Hx. destruct x as [a b c d e r k]. cbn in Hr. by rewrite Hr. Qed.

(** A packet is tried when it waits: after a retry, or once its event has fired. *)
Lemma trySendReq_ok now g x accepts reaction : waitReq g = true -> ok now g x -> 0 <= now < 2 ^ 62 ->
  exists x', trySendReq prm now accepts reaction x = Done x' /\ ok now (sentReq accepts g x) x'.
Proof.
  intros Hw Hx Hn. pose proof Hx as [O1 O2 O3 O4 O5 O6 O7 O8]. unfold trySendReq, sentReq. unfold pending in O6. rewrite Hw in O6. destruct (reqs x) as [|d rest] eqn:El; [by destruct O6|]. destruct O6 as [Ee Ht].
  rewrite (proj2 (Z.ltb_ge _ _)) by lia. destruct accepts; [|eexists; split; [done|]; by rewrite <- Hw; destruct g].
  destruct (schedNext_ok now rest x O1 Hn) as (e&c&E&Hc&Hp). rewrite Ee, E. cbn [obind].
  assert (Hal : almost now (mkOutside (inflight g + answered d) false (waitResp g)) (withReqs rest e (withClk c x))).
  { cbn [length expected] in *. assert (0 <= answered d) by (unfold answered; destruct (expects_response _); lia).
    split; cbn [clk reqs reqEvent resps respEvent outstandingResponses retryReq withRetry withReqs withClk inflight waitReq waitResp]; try done; lia. }
  unfold retryStalledReq. destruct (retryReq _) eqn:Er; [by apply almost_retry|]. eexists. split; [done|]. by apply almost_ok.
Qed.

Lemma trySendResp_ok now g x accepts reaction : waitResp g = true -> ok now g x -> 0 <= now < 2 ^ 62 ->
  exists x', trySendResp prm now accepts reaction x = Done x' /\ ok now (mkOutside (inflight g) (waitReq g) (negb accepts)) x'.
Proof.
  intros Hw Hx Hn. pose proof Hprm as [P1 P2 P3 P4]. pose proof Hx as [O1 O2 O3 O4 O5 O6 O7 O8]. unfold trySendResp. unfold pending in O7. rewrite Hw in O7. destruct (resps x) as [|d rest] eqn:El; [by destruct O7|]. destruct O7 as [Ee Ht].
  rewrite (proj2 (Z.ltb_ge _ _)) by lia. destruct accepts; [|eexists; split; [done|]; cbn [negb]; by rewrite <- Hw; destruct g].
  cbn [length] in O4. pose proof (expected_nonneg (reqs x)). rewrite (proj2 (Z.eqb_neq _ _)) by lia.
  assert (Hm : wrap 32 (outstandingResponses x - 1) = outstandingResponses x - 1) by (apply Z.mod_small; lia). rewrite Hm.
  destruct (schedNext_ok now rest (withOutstanding (outstandingResponses x - 1) x) O1 Hn) as (e&c&E&Hc&Hp). cbn [respEvent withOutstanding]. rewrite Ee. cbn [withOutstanding] in E. rewrite E. cbn [obind negb].
  set (y := withResps rest e _). assert (Hal : almost now (mkOutside (inflight g) (waitReq g) false) y).
  { split; cbn [y clk reqs reqEvent resps respEvent outstandingResponses retryReq withRetry withResps withClk withOutstanding inflight waitReq waitResp]; try done; lia. }
  destruct (reqQueueFull prm y) eqn:Ef; cbn [negb andb].
  - eexists. split; [done|]. destruct Hal as [A1 A2 A3 A4 A5 A6 A7 A8]. split; try done. intros _. left. by apply Z.eqb_eq in Ef.
  - destruct (retryReq y) eqn:Er; [by apply almost_retry|]. eexists. split; [done|]. by apply almost_ok.
Qed.

(** An event that is due makes its packet one that is tried. *)
Lemma reqEvent_tried now g x : ok now g x -> reqEvent x = Some now -> ok now (mkOutside (inflight g) true (waitResp g)) (withReqs (reqs x) None x).
Proof.
  intros [O1 O2 O3 O4 O5 O6 O7 O8] He. split; try done. cbn [reqs reqEvent withReqs waitReq]. unfold pending in *. rewrite He in O6. destruct (reqs x) as [|d l]; [by destruct O6|].
  destruct (waitReq g); [by destruct O6|]. destruct O6 as (e&[= <-]&Ht). done.
Qed.

Lemma respEvent_tried now g x : ok now g x -> respEvent x = Some now -> ok now (mkOutside (inflight g) (waitReq g) true) (withResps (resps x) None x).
Proof.
  intros [O1 O2 O3 O4 O5 O6 O7 O8] He. split; try done. cbn [resps respEvent withResps waitResp]. unfold pending in *. rewrite He in O7. destruct (resps x) as [|d l]; [by destruct O7|].
  destruct (waitResp g); [by destruct O7|]. destruct O7 as (e&[= <-]&Ht). done.
Qed.

Lemma bridge_run_ok now g x c : ok now g x -> 0 <= now < 2 ^ 62 -> legal now g x c -> exists x', run now c x = Done x' /\ ok now (after g x c) x'.
Proof.
  intros Hx Hn Hl. destruct c as [p|p|a r|a r|a r|a r]; cbn [legal run after] in *.
  - destruct (bridgeRequest_ok now g x p Hx Hn Hl) as (b&x'&E&Ho). rewrite E. by exists x'.
  - by apply bridgeResponse_ok.
  - apply (trySendReq_ok now (mkOutside (inflight g) true (waitResp g))); [done|by apply reqEvent_tried|done].
  - apply (trySendResp_ok now (mkOutside (inflight g) (waitReq g) true)); [done|by apply respEvent_tried|done].
  - by apply trySendReq_ok.
  - by apply trySendResp_ok.
Qed.

Lemma bridge_reachable_ok T g x : reachable T g x -> ok T g x.
Proof.
  pose proof Hprm as [P1 P2 P3 P4]. induction 1 as [|T g x now c x' _ IH HT Hn Hl Hr].
  - split; cbn; try done; try lia. split; [|cbn; lia]. split; cbn; lia.
  - destruct (bridge_run_ok now g x c (ok_mono T now g x HT IH) Hn Hl) as (x2&E&Ho). congruence.
Qed.

(** In every reachable state each legal call succeeds (no assertion of the
    bridge fails), the queues keep their limits, every reserved place is that of
    one request or response on its way, and a stalled sender waits for a queue
    that is full and holds a packet that will be sent. *)
Theorem bridge_reserves T g x : reachable T g x ->
  (forall now c, T <= now -> 0 <= now < 2 ^ 62 -> legal now g x c -> exists x', run now c x = Done x') /\
  Z.of_nat (length (reqs x)) <= reqQueueLimit prm /\ Z.of_nat (length (resps x)) <= respQueueLimit prm /\
  outstandingResponses x = expected (reqs x) + inflight g + Z.of_nat (length (resps x)) /\
  (retryReq x = true -> (reqs x <> [] /\ (waitReq g = true \/ is_Some (reqEvent x))) \/ 0 < inflight g \/ (resps x <> [] /\ (waitResp g = true \/ is_Some (respEvent x)))).
Proof.
  intros Hr. pose proof Hprm as [P1 P2 P3 P4]. apply bridge_reachable_ok in Hr. pose proof Hr as [O1 O2 O3 O4 O5 O6 O7 O8]. pose proof (expected_nonneg (reqs x)).
  assert (Hgo : forall l e w, pending T l e w -> l <> [] -> w = true \/ is_Some e) by (intros [|d l] e w Hp Hne; [done|]; unfold pending in Hp; destruct w; [by left|destruct Hp as (e'&->&_); by right]).
  split; [|split; [done|split; [lia|split; [done|]]]].
  - intros now c HT Hn Hl. destruct (bridge_run_ok now g x c (ok_mono T now g x HT Hr) Hn Hl) as (x'&E&_). by exists x'.
  - intros Hs. assert (Hc : reqs x <> [] \/ 0 < inflight g \/ resps x <> []).
    { destruct (reqs x); [|by left]. destruct (resps x); [|by right; right]. right; left. cbn in *. destruct (O8 Hs); lia. }
    destruct Hc as [Hc|[Hc|Hc]]; [left|by right; left|right; right]; split; try done; by eapply Hgo.
Qed.

End steps.

(** A bridge with one place for a response: the second read is stalled, again when it is
    tried as the first leaves, and gets in
    with the first response. *)
Definition demoPrm : params := mkParams 2 4 1 [] 10.
Definition readAt (a : Z) : Packet.t := Packet.new (Request.physical a 64 0 0 0) MemCmd.ReadReq.

(** The states of a list of calls, each with its time. *)
Fixpoint runs (prm : params) (l : list (Z * call)) (g : outside) (x : t) : outcome (outside * t) :=
  match l with
  | [] => Done (g, x)
  | (now, c) :: l => let! x' := run prm now c x in runs prm l (after g x c) x'
  end.

Definition demoCalls : list (Z * call) :=
  [(0, Request (readAt 0x40)); (5, Request (readAt 0x80)); (20, ReqEvent true (Some (readAt 0x80))); (40, Response (readAt 0x40)); (60, RespEvent true (Some (readAt 0x80)))].

Example demo_stalled : (let! (_, x) := runs demoPrm (take 2 demoCalls) (mkOutside 0 false false) new in Done (length (reqs x), outstandingResponses x, retryReq x)) = Done (1%nat, 1, true).
Proof. vm_compute. reflexivity. Qed.

Example demo_retried : (let! (_, x) := runs demoPrm demoCalls (mkOutside 0 false false) new in Done (length (reqs x), outstandingResponses x, retryReq x, reqEvent x)) = Done (1%nat, 1, false, Some 80).
Proof. vm_compute. reflexivity. Qed.

End Bridge.
