(* ===== verification/EventQueue.v ===== *)
(** * The event queue: gem5/src/sim/eventq.hh, eventq_impl.hh and eventq.cc

    Events are objects on a heap.  The queue is a linked list of bins through
    [nextBin]; the events of a bin (same tick, same priority) are a stack
    through [nextInBin].  Only the top event of a bin has a meaningful
    [nextBin], the others may be stale.  A failed assertion, a [panic] and the
    use of a null or freed pointer leave the simulator. *)

From stdpp Require Import gmap list strings pretty.
From Stdlib Require Import ZArith.
From S2P Require Import Prelude Bits.

Open Scope Z_scope.
Open Scope outcome_scope.

Module EventQueue.

(** The address of an event. *)
Notation loc := nat (only parsing).

(** ** Flags and priorities of [EventBase] *)

Definition PublicRead : Z := 0x003f.
Definition PublicWrite : Z := 0x001d.
Definition Squashed : Z := 0x0001.
Definition Scheduled : Z := 0x0002.
Definition AutoDelete : Z := 0x0004.
Definition AutoSerialize : Z := 0x0008.
Definition IsExitEvent : Z := 0x0010.
Definition IsMainQueue : Z := 0x0020.
Definition Initialized : Z := 0x7a40.
Definition InitMask : Z := 0xffc0.

Definition Default_Pri : Z := 0.
Definition CPU_Switch_Pri : Z := -31.
Definition CPU_Tick_Pri : Z := 50.
Definition Sim_Exit_Pri : Z := 100.

(** ** Events *)

(** [queue] is the queue the event was last scheduled on. *)
Record Event := mkEvent {
  nextBin : option loc;
  nextInBin : option loc;
  when : Z;
  priority : Z;
  flags : Z;
  queue : option nat }.

(** The constructor: it asserts that only public flags are given. *)
Definition newEvent (p f : Z) : outcome Event :=
  if Flags.noneSet f (bnot 16 PublicWrite)
  then Done (mkEvent None None 0 p (Z.lor Initialized f) None)
  else Exited.

Definition scheduled (e : Event) : bool := Flags.isSet (flags e) Scheduled.
Definition squashed (e : Event) : bool := Flags.isSet (flags e) Squashed.
Definition isExitEvent (e : Event) : bool := Flags.isSet (flags e) IsExitEvent.
Definition initialized (e : Event) : bool := Z.land (flags e) InitMask =? Initialized.

Definition withNextBin (p : option loc) (e : Event) : Event :=
  mkEvent p (nextInBin e) (when e) (priority e) (flags e) (queue e).
Definition withNextInBin (p : option loc) (e : Event) : Event :=
  mkEvent (nextBin e) p (when e) (priority e) (flags e) (queue e).
Definition withFlags (f : Z) (e : Event) : Event :=
  mkEvent (nextBin e) (nextInBin e) (when e) (priority e) f (queue e).
Definition setWhen (w : Z) (q : nat) (e : Event) : Event :=
  mkEvent (nextBin e) (nextInBin e) w (priority e) (flags e) (Some q).

Definition setFlag (f : Z) (e : Event) : Event := withFlags (Flags.set (flags e) f) e.
Definition clearFlag (f : Z) (e : Event) : Event := withFlags (Flags.clear 16 (flags e) f) e.

Definition squash (e : Event) : Event := setFlag Squashed e.

(** [Event::setFlags] and [Event::clearFlags] with their assertion. *)
Definition setFlags (f : Z) (e : Event) : outcome Event :=
  if Flags.noneSet f (bnot 16 PublicWrite) then Done (setFlag f e) else Exited.
Definition clearFlags (f : Z) (e : Event) : outcome Event :=
  if Flags.noneSet f (bnot 16 PublicWrite) then Done (clearFlag f e) else Exited.

(** ** Comparison of events *)

Definition event_lt (l r : Event) : bool :=
  (when l <? when r) || ((when l =? when r) && (priority l <? priority r)).
Definition event_le (l r : Event) : bool :=
  (when l <? when r) || ((when l =? when r) && (priority l <=? priority r)).
Definition event_gt (l r : Event) : bool :=
  (when r <? when l) || ((when l =? when r) && (priority r <? priority l)).
Definition event_ge (l r : Event) : bool :=
  (when r <? when l) || ((when l =? when r) && (priority r <=? priority l)).
Definition event_eq (l r : Event) : bool :=
  (when l =? when r) && (priority l =? priority r).
Definition event_ne (l r : Event) : bool :=
  negb (when l =? when r) || negb (priority l =? priority r).

(** ** The heap of events *)

Notation heap := (gmap nat Event) (only parsing).

Definition get (h : heap) (p : loc) : outcome Event :=
  match h !! p with Some e => Done e | None => Exited end.

Definition update (f : Event -> Event) (p : loc) (h : heap) : outcome heap :=
  let! e := get h p in Done (<[p := f e]> h).

(** ** Insertion and removal *)

(** [Event::insertBefore] returns [event] itself. *)
Definition insertBefore (event : loc) (curr : option loc) (h : heap) : outcome heap :=
  match curr with
  | None => update (fun e => withNextInBin None (withNextBin None e)) event h
  | Some c =>
      let! e := get h event in
      let! ec := get h c in
      if event_lt e ec
      then update (fun e => withNextInBin None (withNextBin (Some c) e)) event h
      else update (fun e => withNextInBin (Some c) (withNextBin (nextBin ec) e)) event h
  end.

(** The loop over [nextBin] of [EventQueue::insert] and [EventQueue::remove]. *)
Fixpoint findBin (fuel : nat) (h : heap) (event : Event) (prev : loc) (curr : option loc)
  : outcome (loc * option loc) :=
  match curr with
  | None => Done (prev, None)
  | Some c =>
      let! ec := get h c in
      if event_lt ec event then
        match fuel with
        | O => OutOfFuel
        | S fuel => findBin fuel h event c (nextBin ec)
        end
      else Done (prev, curr)
  end.

(** [EventQueue::insert]: the heap and the new head. *)
Definition insert (event : loc) (h : heap) (head : option loc) : outcome (heap * option loc) :=
  match head with
  | None => let! h := insertBefore event None h in Done (h, Some event)
  | Some hd =>
      let! e := get h event in
      let! ehd := get h hd in
      if event_le e ehd then let! h := insertBefore event head h in Done (h, Some event)
      else
        let! (prev, curr) := findBin (size h) h e hd (nextBin ehd) in
        let! h := insertBefore event curr h in
        let! h := update (withNextBin (Some event)) prev h in
        Done (h, head)
  end.

(** The loop of [Event::removeItem]. *)
Fixpoint findItem (fuel : nat) (h : heap) (event : loc) (curr : loc) (next : option loc)
  : outcome (loc * loc) :=
  match next with
  | None => Exited
  | Some n =>
      if decide (event = n) then Done (curr, n)
      else
        let! en := get h n in
        match fuel with
        | O => OutOfFuel
        | S fuel => findItem fuel h event n (nextInBin en)
        end
  end.

(** [Event::removeItem]: the new top of the bin. *)
Definition removeItem (event top : loc) (h : heap) : outcome (heap * option loc) :=
  let! et := get h top in
  if decide (event = top) then
    match nextInBin et with
    | None => Done (h, nextBin et)
    | Some next => let! h := update (withNextBin (nextBin et)) next h in Done (h, Some next)
    end
  else
    let! (curr, next) := findItem (size h) h event top (nextInBin et) in
    let! en := get h next in
    let! h := update (withNextInBin (nextInBin en)) curr h in
    Done (h, Some top).

(** [EventQueue::remove] on the queue [self]. *)
Definition remove (self : nat) (event : loc) (h : heap) (head : option loc)
  : outcome (heap * option loc) :=
  match head with
  | None => Exited
  | Some hd =>
      let! e := get h event in
      if decide (queue e = Some self) then
        let! ehd := get h hd in
        if event_eq ehd e then removeItem event hd h
        else
          let! (prev, curr) := findBin (size h) h e hd (nextBin ehd) in
          match curr with
          | None => Exited
          | Some c =>
              let! ec := get h c in
              if event_ne ec e then Exited
              else
                let! (h, top) := removeItem event c h in
                let! h := update (withNextBin top) prev h in
                Done (h, head)
          end
      else Exited
  end.

(** ** The queue *)

(** The object, the events it can reach and the two globals it consults.
    [processed] records the calls of [process()] with the tick at which they
    were made. *)
Record t := mkQueue {
  self : nat;
  events : heap;
  head : option loc;
  curTick : Z;
  async_queue : list loc;
  inParallelMode : bool;
  curEventQueue : nat;
  processed : list (Z * loc) }.

Definition new (id : nat) (h : heap) (par : bool) (cur : nat) : t := mkQueue id h None 0 [] par cur [].

Definition withList (h : heap) (hd : option loc) (q : t) : t :=
  mkQueue (self q) h hd (curTick q) (async_queue q) (inParallelMode q) (curEventQueue q) (processed q).
Definition withEvents (h : heap) (q : t) : t := withList h (head q) q.
Definition withAsync (l : list loc) (q : t) : t :=
  mkQueue (self q) (events q) (head q) (curTick q) l (inParallelMode q) (curEventQueue q) (processed q).
Definition setCurTick (w : Z) (q : t) : t :=
  mkQueue (self q) (events q) (head q) w (async_queue q) (inParallelMode q) (curEventQueue q) (processed q).
Definition called (x : loc) (q : t) : t :=
  mkQueue (self q) (events q) (head q) (curTick q) (async_queue q) (inParallelMode q) (curEventQueue q)
    (processed q ++ [(curTick q, x)]).

Definition empty (q : t) : bool := match head q with None => true | Some _ => false end.
Definition nextTick (q : t) : outcome Z :=
  match head q with None => Exited | Some hd => let! e := get (events q) hd in Done (when e) end.

Definition queueInsert (event : loc) (q : t) : outcome t :=
  let! (h, hd) := insert event (events q) (head q) in Done (withList h hd q).
Definition queueRemove (event : loc) (q : t) : outcome t :=
  let! (h, hd) := remove (self q) event (events q) (head q) in Done (withList h hd q).
Definition queueUpdate (f : Event -> Event) (event : loc) (q : t) : outcome t :=
  let! h := update f event (events q) in Done (withEvents h q).

Definition asyncInsert (event : loc) (q : t) : t := withAsync (async_queue q ++ [event]) q.

(** [delete event], with the assertion of the destructor. *)
Definition deleteEvent (event : loc) (q : t) : outcome t :=
  let! e := get (events q) event in
  if scheduled e then Exited else Done (withEvents (base.delete event (events q)) q).

Definition schedule (event : loc) (w : Z) (global : bool) (q : t) : outcome t :=
  let! e := get (events q) event in
  if (w <? curTick q) || scheduled e || negb (initialized e) then Exited
  else
    let! q := queueUpdate (setWhen w (self q)) event q in
    let! q :=
      if inParallelMode q && (negb (bool_decide (self q = curEventQueue q)) || global)
      then Done (asyncInsert event q) else queueInsert event q in
    queueUpdate (setFlag Scheduled) event q.

Definition deschedule (event : loc) (q : t) : outcome t :=
  let! e := get (events q) event in
  if negb (scheduled e) || negb (initialized e)
     || (inParallelMode q && negb (bool_decide (self q = curEventQueue q)))
  then Exited
  else
    let! q := queueRemove event q in
    let! q := queueUpdate (fun e => clearFlag Scheduled (clearFlag Squashed e)) event q in
    let! e := get (events q) event in
    if Flags.isSet (flags e) AutoDelete then deleteEvent event q else Done q.

Definition reschedule (event : loc) (w : Z) (always : bool) (q : t) : outcome t :=
  let! e := get (events q) event in
  if (w <? curTick q) || negb (always || scheduled e) || negb (initialized e)
     || (inParallelMode q && negb (bool_decide (self q = curEventQueue q)))
  then Exited
  else
    let! q := if scheduled e then queueRemove event q else Done q in
    let! q := queueUpdate (setWhen w (self q)) event q in
    let! q := queueInsert event q in
    queueUpdate (fun e => setFlag Scheduled (clearFlag Squashed e)) event q.

(** The loop of [handleAsyncInsertions] over the queue of asynchronous events. *)
Fixpoint drainAsync (l : list loc) (q : t) : outcome t :=
  match l with
  | [] => Done (withAsync [] q)
  | x :: l => let! q := queueInsert x q in drainAsync l q
  end.
Definition handleAsyncInsertions (q : t) : outcome t :=
  if decide (self q = curEventQueue q) then drainAsync (async_queue q) q else Exited.

(** ** Servicing *)

(** What [process()] asks of the queue.  The subclasses of [Event] are spread
    over the simulator; here they are a parameter that says, for an event and
    the state in which it is processed, which operations it performs. *)
Inductive action :=
| Create (x : loc) (p f : Z)
| Schedule (x : loc) (w : Z) (global : bool)
| Deschedule (x : loc)
| Reschedule (x : loc) (w : Z) (always : bool)
| Squash (x : loc).

Definition perform (a : action) (q : t) : outcome t :=
  match a with
  | Create x p f =>
      match events q !! x with
      | Some _ => Exited
      | None => let! e := newEvent p f in Done (withEvents (<[x := e]> (events q)) q)
      end
  | Schedule x w global => schedule x w global q
  | Deschedule x => deschedule x q
  | Reschedule x w always => reschedule x w always q
  | Squash x => queueUpdate squash x q
  end.

Fixpoint performAll (l : list action) (q : t) : outcome t :=
  match l with
  | [] => Done q
  | a :: l => let! q := perform a q in performAll l q
  end.

(** The beginning of [serviceOne]: the first event leaves the queue. *)
Definition popHead (q : t) : outcome (loc * t) :=
  match head q with
  | None => Exited
  | Some event =>
      let! e := get (events q) event in
      let! h := update (clearFlag Scheduled) event (events q) in
      match nextInBin e with
      | Some n => let! h := update (withNextBin (nextBin e)) n h in Done (event, withList h (Some n) q)
      | None => Done (event, withList h (nextBin e) q)
      end
  end.

(** Its end: an exit event that was processed is returned, an event that
    deletes itself and was not scheduled again is freed. *)
Definition finish (event : loc) (ran : bool) (q : t) : outcome (option loc * t) :=
  let! e := get (events q) event in
  if ran && isExitEvent e then
    if Flags.isSet (flags e) AutoDelete && Flags.isSet (flags e) IsMainQueue then Exited
    else Done (Some event, q)
  else if Flags.isSet (flags e) AutoDelete && negb (scheduled e) then
    let! q := deleteEvent event q in Done (None, q)
  else Done (None, q).

Section Service.
Variable process : loc -> t -> list action.

(** [EventQueue::serviceOne] returns the event when it is an exit event. *)
Definition serviceOne (q : t) : outcome (option loc * t) :=
  let! (event, q) := popHead q in
  let! e := get (events q) event in
  if negb (squashed e) then
    let q := called event (setCurTick (when e) q) in
    let! q := performAll (process event q) q in
    finish event true q
  else
    let! q := queueUpdate (clearFlag Squashed) event q in
    finish event false q.

Fixpoint serviceEvents (fuel : nat) (w : Z) (q : t) : outcome t :=
  if empty q then Done (setCurTick w q)
  else
    let! n := nextTick q in
    if w <? n then Done (setCurTick w q)
    else
      match fuel with
      | O => OutOfFuel
      | S fuel => let! (_, q) := serviceOne q in serviceEvents fuel w q
      end.
End Service.

(** ** Walks over the whole queue *)

(** The inner loop of [debugVerify] over a bin: [None] once a check fails. *)
Fixpoint verifyBin (fuel : nat) (h : heap) (p : option loc) (st : gset loc * Z * Z)
  : outcome (option (gset loc * Z * Z)) :=
  match p with
  | None => Done (Some st)
  | Some x =>
      let! e := get h x in
      let '(seen, time, pri) := st in
      if when e <? time then Done None
      else if (when e =? time) && (priority e <? pri) then Done None
      else if decide (x ∈ seen) then Done None
      else
        match fuel with
        | O => OutOfFuel
        | S fuel => verifyBin fuel h (nextInBin e) ({[x]} ∪ seen, when e, priority e)
        end
  end.

Fixpoint verifyBins (fuel : nat) (h : heap) (p : option loc) (st : gset loc * Z * Z) : outcome bool :=
  match p with
  | None => Done true
  | Some x =>
      let! r := verifyBin (size h) h p st in
      match r with
      | None => Done false
      | Some st =>
          let! e := get h x in
          match fuel with
          | O => OutOfFuel
          | S fuel => verifyBins fuel h (nextBin e) st
          end
      end
  end.
Definition debugVerify (q : t) : outcome bool := verifyBins (size (events q)) (events q) (head q) (∅, 0, 0).

(** The walk of [EventQueue::serialize]: the events of a bin, then of all. *)
Fixpoint walkBin (fuel : nat) (h : heap) (p : option loc) : outcome (list loc) :=
  match p with
  | None => Done []
  | Some x =>
      let! e := get h x in
      match fuel with
      | O => OutOfFuel
      | S fuel =>
          let! l := walkBin fuel h (nextInBin e) in
          Done (if Flags.isSet (flags e) AutoSerialize then x :: l else l)
      end
  end.

Fixpoint walkBins (fuel : nat) (h : heap) (p : option loc) : outcome (list loc) :=
  match p with
  | None => Done []
  | Some x =>
      let! l := walkBin (size h) h p in
      let! e := get h x in
      match fuel with
      | O => OutOfFuel
      | S fuel => let! l' := walkBins fuel h (nextBin e) in Done (l ++ l')
      end
  end.

(** What [Event::serialize] writes: [_when], [_priority] and the flags as a
    signed 16-bit number. *)
Definition toShort (x : Z) : Z := let y := wrap 16 x in if y <? 2 ^ 15 then y else y - 2 ^ 16.
Definition serializeEvent (e : Event) : Z * Z * Z := (when e, priority e, toShort (flags e)).

(** [EventQueue::serialize]: the events named in the checkpoint with what
    each of them writes. *)
Fixpoint writeEvents (h : heap) (eventPtrs : list loc) : outcome (list (loc * (Z * Z * Z))) :=
  match eventPtrs with
  | [] => Done []
  | x :: l =>
      let! e := get h x in
      let! r := writeEvents h l in
      Done ((x, serializeEvent e) :: r)
  end.
Definition serialize (q : t) : outcome (list (loc * (Z * Z * Z))) :=
  let! eventPtrs := walkBins (size (events q)) (events q) (head q) in
  writeEvents (events q) eventPtrs.

(** [Event::unserialize] on the queue [eventq]. *)
Definition unserializeEvent (event : loc) (data : Z * Z * Z) (q : t) : outcome t :=
  let '(w, p, f) := data in
  let! e := get (events q) event in
  let! q := if scheduled e then deschedule event q else Done q in
  let! e := get (events q) event in
  if initialized e then
    let fl := Flags.set (wrap 16 f) Initialized in
    let wasScheduled := Flags.isSet fl Scheduled && negb (Flags.isSet fl Squashed) in
    let e := mkEvent (nextBin e) (nextInBin e) w p (Flags.clear 16 fl (Z.lor Squashed Scheduled)) (queue e) in
    let q := withEvents (<[event := e]> (events q)) q in
    if wasScheduled then schedule event w false q else Done q
  else Exited.

Definition replaceHead (s : option loc) (q : t) : option loc * t := (head q, withList (events q) s q).

(** ** The main event queues *)

(** [getEventQueue]: the names of the queues that exist afterwards. *)
Fixpoint growQueues (fuel : nat) (index : nat) (names : list string) : outcome (list string) :=
  if decide (length names <= index)%nat then
    match fuel with
    | O => OutOfFuel
    | S fuel => growQueues fuel index (names ++ [("MainEventQueue-" +:+ pretty (N.of_nat index))%string])
    end
  else Done names.
Definition getEventQueue (index : nat) (names : list string) : outcome (list string) :=
  growQueues (S index) index names.

End EventQueue.
