(* ===== verification/EventQueueLinks.v ===== *)
(** * The linked structure of the event queue

    The pointers of the queue represent a list of bins, each with its tick and
    priority; read bin by bin this is a list of entries ordered by tick and
    priority.  [insert] adds an entry before the first that is not smaller,
    [remove] takes an entry out. *)

From stdpp Require Import gmap list sorting.
From Stdlib Require Import ZArith.
From S2P Require Import Prelude Bits EventQueue.
Import EventQueue.

Open Scope Z_scope.

(** ** The abstract queue *)

Notation key := (Z * Z)%type (only parsing).
Notation entry := (Z * Z * nat)%type (only parsing).

Definition klt (a b : key) : bool := (a.1 <? b.1) || ((a.1 =? b.1) && (a.2 <? b.2)).

(** Before the first entry that is not smaller: last in, first out among
    events of the same tick and priority. *)
Fixpoint enqueue (x : entry) (l : list entry) : list entry :=
  match l with
  | [] => [x]
  | y :: l' => if klt y.1 x.1 then y :: enqueue x l' else x :: l
  end.

Definition cancel (x : loc) (l : list entry) : list entry := filter (fun y => y.2 <> x) l.

Definition keyOf (e : Event) : key := (when e, priority e).

(** ** Representation *)

(** The stack of a bin, from [p]. *)
Fixpoint inBin (h : heap) (k : key) (p : option loc) (l : list loc) : Prop :=
  match l with
  | [] => p = None
  | x :: l => p = Some x /\ exists e, h !! x = Some e /\ keyOf e = k /\ inBin h k (nextInBin e) l
  end.

(** The bins from [p] until the pointer [q]. *)
Fixpoint bins (h : heap) (p : option loc) (bs : list (key * list loc)) (q : option loc) : Prop :=
  match bs with
  | [] => p = q
  | (k, b) :: bs =>
      exists top rest e, b = top :: rest /\ p = Some top /\ h !! top = Some e /\ keyOf e = k /\
        inBin h k (nextInBin e) rest /\ bins h (nextBin e) bs q
  end.

Definition items (bs : list (key * list loc)) : list entry := concat (map (fun '(k, b) => map (pair k) b) bs).
Definition locs (l : list entry) : list loc := map snd l.

Definition Queued (h : heap) (p : option loc) (l : list entry) : Prop :=
  exists bs, bins h p bs None /\ StronglySorted (fun a b => klt a b = true) (map fst bs) /\
    NoDup (locs l) /\ items bs = l.

(** ** The order *)

Lemma klt_iff a b : klt a b = true <-> a.1 < b.1 \/ (a.1 = b.1 /\ a.2 < b.2).
Proof. unfold klt. rewrite orb_true_iff, andb_true_iff, !Z.ltb_lt, Z.eqb_eq. tauto. Qed.
Lemma klt_false a b : klt a b = false <-> b.1 < a.1 \/ (a.1 = b.1 /\ b.2 <= a.2).
Proof. rewrite <- not_true_iff_false, klt_iff. lia. Qed.
Lemma klt_trans a b c : klt a b = true -> klt b c = true -> klt a c = true.
Proof. rewrite !klt_iff. lia. Qed.
Lemma klt_irrefl a : klt a a = false.
Proof. apply klt_false. lia. Qed.
Lemma klt_antisym a b : klt a b = false -> klt b a = false -> a = b.
Proof. destruct a, b. rewrite !klt_false. simpl. intros. f_equal; lia. Qed.

Lemma event_lt_key a b : event_lt a b = klt (keyOf a) (keyOf b).
Proof. done. Qed.
Lemma event_le_key a b : event_le a b = negb (klt (keyOf b) (keyOf a)).
Proof.
  apply eq_bool_prop_intro. rewrite !Is_true_true, negb_true_iff, klt_false. unfold event_le, keyOf. simpl.
  rewrite orb_true_iff, andb_true_iff, Z.ltb_lt, Z.eqb_eq, Z.leb_le. lia.
Qed.
Lemma event_eq_key a b : event_eq a b = true <-> keyOf a = keyOf b.
Proof. unfold event_eq, keyOf. rewrite andb_true_iff, !Z.eqb_eq. split; [intros [-> ->]; done|by intros [= -> ->]]. Qed.
Lemma event_ne_key a b : event_ne a b = false <-> keyOf a = keyOf b.
Proof. rewrite <- event_eq_key. unfold event_ne, event_eq. rewrite <- negb_andb, negb_false_iff. done. Qed.

(** ** The abstract operations *)

Lemma enqueue_app x l1 l2 : Forall (fun y => klt y.1 x.1 = true) l1 -> enqueue x (l1 ++ l2) = l1 ++ enqueue x l2.
Proof. induction 1 as [|y l1 Hy _ IH]; [done|]. simpl. by rewrite Hy, IH. Qed.

Lemma locs_app l1 l2 : locs (l1 ++ l2) = locs l1 ++ locs l2.
Proof. apply map_app. Qed.

Lemma enqueue_perm x l : enqueue x l ≡ₚ x :: l.
Proof.
  induction l as [|y l IH]; [done|]. simpl. destruct (klt y.1 x.1); [|done].
  rewrite IH. apply Permutation_swap.
Qed.

Lemma locs_perm l l' : l ≡ₚ l' -> locs l ≡ₚ locs l'.
Proof. apply Permutation_map. Qed.

Lemma elem_of_locs l y : y ∈ locs l <-> exists k, (k, y) ∈ l.
Proof.
  unfold locs. rewrite elem_of_map. split.
  - intros ([k z] & -> & Hz). by exists k.
  - intros (k & Hk). by exists (k, y).
Qed.

Lemma elem_of_cancel x l y : y ∈ cancel x l <-> y.2 <> x /\ y ∈ l.
Proof. unfold cancel. by rewrite list_elem_of_filter. Qed.

Lemma cancel_app x l1 l2 : cancel x (l1 ++ l2) = cancel x l1 ++ cancel x l2.
Proof. apply filter_app. Qed.

Lemma cancel_none x l : x ∉ locs l -> cancel x l = l.
Proof.
  intros Hx. apply filter_keeps. intros [k y] Hy E. apply Hx, elem_of_locs. simpl in E. subst. by exists k.
Qed.

Lemma cancel_locs x l : locs (cancel x l) = filter (fun y => y <> x) (locs l).
Proof.
  induction l as [|[k y] l IH]; [done|]. cbn [locs map snd]. unfold cancel. rewrite !filter_cons. cbn [snd].
  fold (cancel x l). case_decide; [|done]. cbn [locs map snd]. f_equal. apply IH.
Qed.

Lemma NoDup_cancel x l : NoDup (locs l) -> NoDup (locs (cancel x l)).
Proof. rewrite cancel_locs. apply NoDup_filter. Qed.

Definition ordered (l : list entry) : Prop := StronglySorted (fun a b => klt b.1 a.1 = false) l.

Lemma items_app bs bs' : items (bs ++ bs') = items bs ++ items bs'.
Proof. unfold items. by rewrite map_app, concat_app. Qed.
Lemma items_cons k b bs : items ((k, b) :: bs) = map (pair k) b ++ items bs.
Proof. done. Qed.
Lemma elem_of_items bs k x : (k, x) ∈ items bs <-> exists b, (k, b) ∈ bs /\ x ∈ b.
Proof.
  induction bs as [|[k' b] bs IH].
  - split; [by intros ?%not_elem_of_nil|intros (? & ?%not_elem_of_nil & _); done].
  - rewrite items_cons, elem_of_app, IH, elem_of_map. split.
    + intros [(y & [= -> ->] & Hy)|(c & Hc & Hx)]; [exists b|exists c]; split; try done; [by left|by right].
    + intros (c & [[= -> ->]|Hc]%elem_of_cons & Hx); [left; by exists x|right; by exists c].
Qed.
Lemma locs_pair k b : locs (map (pair k) b) = b.
Proof. unfold locs. rewrite map_map. apply map_id. Qed.

(** ** Frames *)

Implicit Types (h : heap) (x y top : loc) (bs pre post : list (key * list loc)).

(** What the representation depends on, and what the list operations keep. *)
Definition shape (e : Event) := (nextBin e, nextInBin e, keyOf e).
Definition fields (e : Event) := (keyOf e, flags e, queue e).
Definition SameFields (h h' : heap) : Prop := forall x, fields <$> h' !! x = fields <$> h !! x.

Lemma fields_inv e e' : fields e' = fields e -> keyOf e' = keyOf e /\ flags e' = flags e /\ queue e' = queue e.
Proof.
  intros E. exact (conj (f_equal (fun z => z.1.1) E) (conj (f_equal (fun z => z.1.2) E) (f_equal snd E))).
Qed.

Lemma SameFields_refl h : SameFields h h.
Proof. done. Qed.
Lemma SameFields_trans h1 h2 h3 : SameFields h1 h2 -> SameFields h2 h3 -> SameFields h1 h3.
Proof. intros H1 H2 x. by rewrite H2, H1. Qed.
Lemma SameFields_insert h x e e' : h !! x = Some e -> fields e' = fields e -> SameFields h (<[x := e']> h).
Proof.
  intros Hx He y. destruct (decide (x = y)) as [<-|Hne]; [rewrite lookup_insert_eq, Hx|by rewrite lookup_insert_ne].
  cbn. by rewrite He.
Qed.
Lemma SameFields_lookup h h' x e : SameFields h h' -> h !! x = Some e -> exists e', h' !! x = Some e' /\ fields e' = fields e.
Proof. intros Hs Hx. specialize (Hs x). rewrite Hx in Hs. apply fmap_Some in Hs as (e' & He & E). by exists e'. Qed.

Lemma get_Some h x e : h !! x = Some e -> get h x = Done e.
Proof. unfold get. by intros ->. Qed.
Lemma update_Some f h x e : h !! x = Some e -> update f x h = Done (<[x := f e]> h).
Proof. unfold update. intros Hx. by rewrite (get_Some _ _ _ Hx). Qed.

Lemma shape_lookup h (h' : heap) x e : shape <$> h' !! x = shape <$> h !! x -> h !! x = Some e ->
  exists e', h' !! x = Some e' /\ nextBin e' = nextBin e /\ nextInBin e' = nextInBin e /\ keyOf e' = keyOf e.
Proof.
  intros E Hx. rewrite Hx in E. apply fmap_Some in E as (e' & He & E). exists e'. unfold shape, keyOf in *. injection E as ? ? ? ?. repeat split; congruence.
Qed.

Lemma inBin_frame h (h' : heap) k l : forall p, (forall x, x ∈ l -> shape <$> h' !! x = shape <$> h !! x) ->
  inBin h k p l -> inBin h' k p l.
Proof.
  induction l as [|x l IH]; intros p Hs; [done|]. intros (-> & e & Hx & Hk & Hl).
  destruct (shape_lookup h h' x e) as (e' & Hx' & _ & Hn & Hk'); [apply Hs; by left|done|].
  split; [done|]. exists e'. rewrite Hn. repeat split; [done|congruence|].
  apply IH; [|done]. intros y Hy. apply Hs. by right.
Qed.

Lemma bins_frame h (h' : heap) bs q : forall p, (forall x, x ∈ locs (items bs) -> shape <$> h' !! x = shape <$> h !! x) ->
  bins h p bs q -> bins h' p bs q.
Proof.
  induction bs as [|[k b] bs IH]; intros p Hs; [done|].
  rewrite items_cons, locs_app, locs_pair in Hs.
  intros (top & rest & e & -> & -> & Ht & Hk & Hin & Hbs).
  destruct (shape_lookup h h' top e) as (e' & Ht' & Hn & Hn' & Hk'); [apply Hs; set_solver|done|].
  exists top, rest, e'. rewrite Hn, Hn'. repeat split; try done; [congruence| |].
  - apply (inBin_frame h); [|done]. intros y Hy. apply Hs. set_solver.
  - apply IH; [|done]. intros y Hy. apply Hs. set_solver.
Qed.

Lemma shape_insert_ne h x e y : x <> y -> shape <$> <[x := e]> h !! y = shape <$> h !! y.
Proof. intros. by rewrite lookup_insert_ne. Qed.

Lemma bins_app h bs1 bs2 q : forall p, bins h p (bs1 ++ bs2) q <-> exists m, bins h p bs1 m /\ bins h m bs2 q.
Proof.
  induction bs1 as [|[k b] bs1 IH]; intros p; simpl.
  - split; [by exists p|by intros (m & -> & ?)].
  - setoid_rewrite IH. naive_solver.
Qed.

(** Redirecting [nextBin] of the top of the last bin. *)
Lemma bins_redirect h p pre k top rest q e q' : NoDup (locs (items (pre ++ [(k, top :: rest)]))) ->
  bins h p (pre ++ [(k, top :: rest)]) q -> h !! top = Some e ->
  bins (<[top := withNextBin q' e]> h) p (pre ++ [(k, top :: rest)]) q'.
Proof.
  intros Hnd (m & Hpre & Hl)%bins_app Ht. apply bins_app. exists m.
  rewrite items_app, items_cons, !locs_app, locs_pair in Hnd. apply NoDup_app in Hnd as (_ & Hd & Hnd).
  simpl in Hnd. rewrite app_nil_r in Hnd. apply NoDup_cons in Hnd as [Hr _].
  split.
  - apply (bins_frame h); [|done]. intros y Hy. apply shape_insert_ne. intros <-. apply (Hd _ Hy). set_solver.
  - destruct Hl as (top' & rest' & e' & [= <- <-] & -> & Ht' & Hk & Hin & _). rewrite Ht in Ht'. injection Ht' as <-.
    exists top, rest, (withNextBin q' e). rewrite lookup_insert_eq. repeat split; [done|].
    apply (inBin_frame h); [|done]. intros y Hy. apply shape_insert_ne. set_solver.
Qed.

Lemma bins_lookup h p bs q k b x : bins h p bs q -> (k, b) ∈ bs -> x ∈ b -> exists e, h !! x = Some e /\ keyOf e = k.
Proof.
  assert (Hin : forall l p, inBin h k p l -> x ∈ l -> exists e, h !! x = Some e /\ keyOf e = k).
  { induction l as [|y l IH]; intros r; [by intros _ ?%not_elem_of_nil|].
    intros (_ & e & Hy & Hk & Hl) [->|Hx]%elem_of_cons; [by exists e|by apply (IH (nextInBin e))]. }
  revert p. induction bs as [|[k' b'] bs IH]; intros p; [by intros _ ?%not_elem_of_nil|].
  intros (top & rest & e & -> & -> & Ht & Hk & Hl & Hbs) [[= -> ->]|Hb]%elem_of_cons Hx; [|by apply (IH (nextBin e))].
  apply elem_of_cons in Hx as [->|Hx]; [by exists e|by apply (Hin rest (nextInBin e))].
Qed.

Lemma bins_length h p bs q : NoDup (locs (items bs)) -> bins h p bs q -> (length bs <= length (locs (items bs)))%nat.
Proof.
  intros _. revert p. induction bs as [|[k b] bs IH]; intros p; [simpl; lia|].
  intros (top & rest & e & -> & _ & _ & _ & _ & Hbs). specialize (IH _ Hbs).
  rewrite items_cons, locs_app, locs_pair, length_app. simpl. lia.
Qed.

Lemma heap_size (h : heap) (l : list loc) : NoDup l -> (forall x, x ∈ l -> is_Some (h !! x)) -> (length l <= size h)%nat.
Proof.
  intros Hnd Hl. rewrite <- size_dom. rewrite <- (size_list_to_set (C := gset loc) l) by done.
  apply subseteq_size. intros x Hx%elem_of_list_to_set. by apply elem_of_dom, Hl.
Qed.

Lemma bins_size h p bs q : NoDup (locs (items bs)) -> bins h p bs q -> (length bs <= size h)%nat.
Proof.
  intros Hnd Hb. etransitivity; [by eapply bins_length|]. apply heap_size; [done|].
  intros x (k & (b & Hin & Hx)%elem_of_items)%elem_of_locs.
  destruct (bins_lookup _ _ _ _ _ _ _ Hb Hin Hx) as (e & He & _). by exists e.
Qed.

Lemma Queued_lookup h p l k x : Queued h p l -> (k, x) ∈ l -> exists e, h !! x = Some e /\ keyOf e = k.
Proof. intros (bs & Hb & _ & _ & <-) (b & Hb' & Hx)%elem_of_items. by eapply bins_lookup. Qed.

Lemma Queued_size h p l : Queued h p l -> (length l <= size h)%nat.
Proof.
  intros Hq. pose proof Hq as (bs & _ & _ & Hnd & _). replace (length l) with (length (locs l)) by apply length_map. apply heap_size; [done|].
  intros x (k & Hx)%elem_of_locs. destruct (Queued_lookup _ _ _ _ _ Hq Hx) as (e & He & _). by exists e.
Qed.

Lemma Queued_frame h (h' : heap) p l : (forall x, x ∈ locs l -> shape <$> h' !! x = shape <$> h !! x) ->
  Queued h p l -> Queued h' p l.
Proof. intros Hs (bs & Hb & Hk & Hnd & <-). exists bs. split; [by apply (bins_frame h)|done]. Qed.

(** ** Insertion *)

Notation sortedBins bs := (StronglySorted (fun a b => klt a b = true) (map fst bs)).

Lemma sorted_lt_all k ks k0 : StronglySorted (fun a b => klt a b = true) (k :: ks) -> klt k k0 = false ->
  forall k', k' ∈ k :: ks -> klt k' k0 = false.
Proof.
  intros [Hk _]%StronglySorted_cons H0 k' [->|Hin]%elem_of_cons; [done|].
  rewrite Forall_forall in Hk. specialize (Hk _ Hin). rewrite klt_iff in Hk. rewrite klt_false in *. lia.
Qed.

Lemma findBin_spec h e p0 bs : forall fuel pre k prev rest curr, (length bs <= fuel)%nat ->
  bins h p0 (pre ++ [(k, prev :: rest)]) curr -> bins h curr bs None -> sortedBins bs ->
  Forall (fun b => klt b.1 (keyOf e) = true) (pre ++ [(k, prev :: rest)]) ->
  exists pre' k' prev' rest' curr' post, findBin fuel h e prev curr = Done (prev', curr') /\
    pre ++ (k, prev :: rest) :: bs = pre' ++ (k', prev' :: rest') :: post /\
    bins h p0 (pre' ++ [(k', prev' :: rest')]) curr' /\ bins h curr' post None /\
    Forall (fun b => klt b.1 (keyOf e) = true) (pre' ++ [(k', prev' :: rest')]) /\
    (forall k, k ∈ map fst post -> klt k (keyOf e) = false).
Proof.
  induction bs as [|[k1 b1] bs IH]; intros fuel pre k prev rest curr Hf Hpre Hbs Hs Hlt.
  - cbn in Hbs. subst curr. exists pre, k, prev, rest, None, []. destruct fuel; simpl;
      (repeat split; try done; by intros ? ?%not_elem_of_nil).
  - pose proof Hbs as (top & rest1 & e1 & -> & -> & Ht & Hk1 & Hin & Hbs').
    destruct fuel as [|fuel]; [simpl in Hf; lia|]. cbn [findBin]. rewrite (get_Some _ _ _ Ht). cbn [obind].
    rewrite event_lt_key, Hk1. destruct (klt k1 (keyOf e)) eqn:E.
    + destruct (IH fuel (pre ++ [(k, prev :: rest)]) k1 top rest1 (nextBin e1)) as (pre' & k' & prev' & rest' & curr' & post & H1 & H2 & H3).
      * simpl in Hf. lia.
      * apply bins_app. exists (Some top). split; [done|]. exists top, rest1, e1. done.
      * done.
      * by apply StronglySorted_cons in Hs as [_ ?].
      * apply Forall_app. split; [done|]. by constructor.
      * exists pre', k', prev', rest', curr', post. split; [done|]. split; [|done]. by rewrite <- H2, <- app_assoc.
    + exists pre, k, prev, rest, (Some top), ((k1, top :: rest1) :: bs). repeat split; try done.
      cbn [map fst]. by apply sorted_lt_all.
Qed.

Lemma insertBefore_spec h x e curr post : h !! x = Some e -> x ∉ locs (items post) -> bins h curr post None ->
  sortedBins post -> (forall k, k ∈ map fst post -> klt k (keyOf e) = false) ->
  exists e' bs', insertBefore x curr h = Done (<[x := e']> h) /\ fields e' = fields e /\
    bins (<[x := e']> h) (Some x) bs' None /\ items bs' = (keyOf e, x) :: items post /\ sortedBins bs' /\
    (forall k, k ∈ map fst bs' -> klt k (keyOf e) = false).
Proof.
  intros Hx Hnx Hb Hs Hge. destruct post as [|[k b] post].
  - cbn in Hb. subst curr. eexists _, [(keyOf e, [x])]. cbn [insertBefore]. rewrite (update_Some _ _ _ _ Hx).
    split; [done|]. split; [done|]. split; [|split; [done|]; split; [repeat constructor|]].
    + eexists x, [], _. rewrite lookup_insert_eq. repeat split.
    + intros k ->%list_elem_of_singleton. apply klt_irrefl.
  - pose proof Hb as (top & rest & et & -> & -> & Ht & Hk & Hin & Hpost).
    rewrite items_cons, locs_app, locs_pair in Hnx.
    assert (Hne : x <> top) by set_solver.
    cbn [insertBefore]. rewrite (get_Some _ _ _ Hx), (get_Some _ _ _ Ht). cbn [obind].
    rewrite event_lt_key, Hk, !(update_Some _ _ _ _ Hx).
    assert (Hfr : forall e', bins (<[x := e']> h) (Some top) ((k, top :: rest) :: post) None).
    { intros e'. apply (bins_frame h); [|done]. intros y Hy. apply shape_insert_ne. intros <-.
      apply Hnx. by rewrite items_cons, locs_app, locs_pair in Hy. }
    destruct (klt (keyOf e) k) eqn:E.
    + eexists _, ((keyOf e, [x]) :: (k, top :: rest) :: post). split; [done|]. split; [done|]. split; [|split; [done|split]].
      * eexists x, [], _. rewrite lookup_insert_eq. repeat split. apply Hfr.
      * cbn [map fst]. apply StronglySorted_cons. split; [|done]. constructor; [done|].
        apply StronglySorted_cons in Hs as [Hs _]. eapply Forall_impl; [exact Hs|]. intros. by eapply klt_trans.
      * intros k' [->|Hk']%elem_of_cons; [apply klt_irrefl|by apply Hge].
    + assert (k = keyOf e) as -> by (apply klt_antisym; [apply Hge; by left|done]).
      eexists _, ((keyOf e, x :: top :: rest) :: post). split; [done|]. split; [done|]. split; [|by split].
      destruct (Hfr (withNextInBin (Some top) (withNextBin (nextBin et) e))) as (top' & rest' & e1 & [= <- <-] & _ & Ht1 & Hk1 & Hin1 & Hb1).
      eexists x, (top :: rest), _. rewrite lookup_insert_eq. repeat split.
      * by exists e1.
      * rewrite lookup_insert_ne in Ht1 by done. simplify_eq. done.
Qed.

Lemma enqueue_head k x l : (forall z, z ∈ l -> klt z.1 k = false) -> enqueue (k, x) l = (k, x) :: l.
Proof. destruct l as [|y l]; [done|]. intros Hl. simpl. by rewrite (Hl y) by by left. Qed.

Lemma items_keys bs (P : key -> Prop) : (forall k, k ∈ map fst bs -> P k) -> forall z, z ∈ items bs -> P z.1.
Proof.
  intros Hp [k x] (b & Hb & _)%elem_of_items. apply Hp, elem_of_map. by exists (k, b).
Qed.

Lemma NoDup_enqueue k x l : NoDup (locs l) -> x ∉ locs l -> NoDup (locs (enqueue (k, x) l)).
Proof.
  intros Hl Hx. rewrite (locs_perm _ _ (enqueue_perm (k, x) l)). by apply NoDup_cons.
Qed.

(** The new bins behind those that stay in place. *)
Lemma sortedBins_join pre post (post' : list (key * list loc)) k : sortedBins (pre ++ post) -> sortedBins post' ->
  Forall (fun b => klt b.1 k = true) pre -> (forall k', k' ∈ map fst post' -> klt k' k = false) ->
  sortedBins (pre ++ post').
Proof.
  rewrite !map_app. intros Hs Hp Hlt Hge. apply StronglySorted_app_2; [|by eapply StronglySorted_app_1_l|done].
  intros k1 k2 (b & -> & Hb)%elem_of_map H2%Hge. rewrite Forall_forall in Hlt. specialize (Hlt _ Hb). simpl in Hlt.
  rewrite klt_iff in *. rewrite klt_false in H2. lia.
Qed.

Lemma enqueue_join pre post k x : Forall (fun b => klt b.1 k = true) pre ->
  (forall k', k' ∈ map fst post -> klt k' k = false) ->
  enqueue (k, x) (items (pre ++ post)) = items pre ++ (k, x) :: items post.
Proof.
  intros Hlt Hge. rewrite items_app, enqueue_app.
  - rewrite enqueue_head; [done|]. exact (items_keys post (fun k' => klt k' k = false) Hge).
  - apply Forall_forall, (items_keys pre (fun k' => klt k' k = true)).
    intros k' (b & -> & Hb)%elem_of_map. rewrite Forall_forall in Hlt. by apply Hlt.
Qed.

(** A new first bin, or a new top of the first bin. *)
Lemma insert_front h p bs x e : bins h p bs None -> sortedBins bs -> NoDup (locs (items bs)) ->
  h !! x = Some e -> x ∉ locs (items bs) -> (forall k, k ∈ map fst bs -> klt k (keyOf e) = false) ->
  exists h', insertBefore x p h = Done h' /\ SameFields h h' /\ Queued h' (Some x) (enqueue (keyOf e, x) (items bs)).
Proof.
  intros Hb Hs Hnd Hx Hnx Hge. destruct (insertBefore_spec h x e p bs) as (e' & bs' & H1 & H2 & H3 & H4 & H5 & _); [done..|].
  eexists. split; [exact H1|]. split; [by eapply SameFields_insert|]. exists bs'.
  rewrite (enqueue_join [] bs) by done. repeat split; try done.
  change (NoDup (x :: locs (items bs))). by apply NoDup_cons.
Qed.

(** The same behind the bin of [prev], whose [nextBin] is redirected. *)
Lemma insert_behind h p pre k prev rest curr post x e :
  bins h p (pre ++ [(k, prev :: rest)]) curr -> bins h curr post None ->
  sortedBins ((pre ++ [(k, prev :: rest)]) ++ post) -> NoDup (locs (items ((pre ++ [(k, prev :: rest)]) ++ post))) ->
  h !! x = Some e -> x ∉ locs (items ((pre ++ [(k, prev :: rest)]) ++ post)) ->
  Forall (fun b => klt b.1 (keyOf e) = true) (pre ++ [(k, prev :: rest)]) ->
  (forall k', k' ∈ map fst post -> klt k' (keyOf e) = false) ->
  exists h1 h', insertBefore x curr h = Done h1 /\ update (withNextBin (Some x)) prev h1 = Done h' /\ SameFields h h' /\
    Queued h' p (enqueue (keyOf e, x) (items ((pre ++ [(k, prev :: rest)]) ++ post))).
Proof.
  set (pre' := pre ++ [(k, prev :: rest)]). intros Hpre Hpost Hs Hnd Hx Hnx Hlt Hge.
  rewrite items_app, locs_app in Hnd, Hnx. apply not_elem_of_app in Hnx as [Hx1 Hx2]. apply NoDup_app in Hnd as (Hnd1 & Hd & Hnd2).
  assert (Hs2 : sortedBins post) by (rewrite map_app in Hs; by eapply StronglySorted_app_1_r).
  destruct (insertBefore_spec h x e curr post) as (e' & bs' & H1 & H2 & H3 & H4 & H5 & H6); [done..|].
  assert (Hbin : (k, prev :: rest) ∈ pre') by (apply elem_of_app; right; by left).
  destruct (bins_lookup h _ pre' _ _ _ prev Hpre Hbin) as (ep & Hp & _); [by left|].
  assert (Hin : prev ∈ locs (items pre')).
  { apply elem_of_locs. exists k. apply elem_of_items. exists (prev :: rest). split; [done|by left]. }
  assert (Hp' : <[x := e']> h !! prev = Some ep) by (rewrite lookup_insert_ne; [done|by intros ->]).
  eexists _, _. split; [exact H1|]. split; [apply (update_Some _ _ _ _ Hp')|]. split.
  { eapply SameFields_trans; by eapply SameFields_insert. }
  exists (pre' ++ bs'). rewrite enqueue_join by done. split; [|split; [by eapply sortedBins_join|]].
  - apply bins_app. exists (Some x). split.
    + apply (bins_redirect _ _ _ _ _ _ curr ep); [done| |done].
      apply (bins_frame h); [|done]. intros y Hy. apply shape_insert_ne. by intros ->.
    + apply (bins_frame (<[x := e']> h)); [|done]. intros y Hy. apply shape_insert_ne.
      rewrite H4 in Hy. intros <-. by apply elem_of_cons in Hy as [->|?%(Hd _ Hin)].
  - rewrite items_app, H4. split; [|done]. rewrite locs_app. apply NoDup_app. split; [done|].
    cbn [locs map snd]. split; [|by apply NoDup_cons].
    intros y Hy [->|?%(Hd _ Hy)]%elem_of_cons; done.
Qed.

Lemma insert_spec h p l x e : Queued h p l -> h !! x = Some e -> x ∉ locs l ->
  exists h' p', insert x h p = Done (h', p') /\ SameFields h h' /\ Queued h' p' (enqueue (keyOf e, x) l).
Proof.
  intros (bs & Hb & Hs & Hnd & <-) Hx Hnx. pose proof (insert_front h p bs x e Hb Hs Hnd Hx Hnx) as Hfront.
  unfold insert. destruct bs as [|[k b] bs].
  { cbn in Hb. subst p. destruct Hfront as (h' & -> & ?); [by intros ? ?%not_elem_of_nil|]. by eexists _, _. }
  pose proof Hb as (top & rest & ehd & -> & -> & Ht & Hk & Hin & Hbs).
  rewrite (get_Some _ _ _ Hx), (get_Some _ _ _ Ht). cbn [obind]. rewrite event_le_key, Hk.
  destruct (klt k (keyOf e)) eqn:E; cbn [negb].
  2: { destruct Hfront as (h' & -> & ?); [by apply (sorted_lt_all k)|]. by eexists _, _. }
  destruct (findBin_spec h e (Some top) bs (size h) [] k top rest (nextBin ehd))
    as (pre & k' & prev & rest' & curr & post & -> & Heq & Hpre & Hpost & Hlt & Hge).
  { pose proof (bins_size _ _ _ _ Hnd Hb) as Hlen. simpl in Hlen. lia. }
  { exists top, rest, ehd. done. }
  { done. }
  { by apply StronglySorted_cons in Hs as [_ ?]. }
  { by repeat constructor. }
  cbn [app] in Heq. rewrite Heq in Hs, Hnd, Hnx |- *.
  rewrite (cons_middle _ pre post), app_assoc in Hs, Hnd, Hnx |- *.
  destruct (insert_behind h (Some top) pre k' prev rest' curr post x e) as (h1 & h' & H1 & H2 & H3); [done..|].
  cbn [obind]. rewrite H1. cbn [obind]. rewrite H2. by eexists _, _.
Qed.

(** ** Removal *)

Lemma bin_inBin h p k b m : bins h p [(k, b)] m <->
  exists top rest e, b = top :: rest /\ h !! top = Some e /\ nextBin e = m /\ inBin h k p b.
Proof.
  split.
  - intros (top & rest & e & -> & -> & Ht & Hk & Hin & Hm). exists top, rest, e. repeat split; try done. by exists e.
  - intros (top & rest & e & -> & Ht & Hm & -> & e' & Ht' & Hk & Hin). rewrite Ht in Ht'. injection Ht' as <-. by exists top, rest, e.
Qed.

Lemma inBin_lookup h k p l x : inBin h k p l -> x ∈ l -> exists e, h !! x = Some e.
Proof.
  revert p. induction l as [|y l IH]; intros p; [by intros _ ?%not_elem_of_nil|].
  intros (_ & e & Hy & _ & Hl) [->|Hx]%elem_of_cons; [by exists e|by apply (IH (nextInBin e))].
Qed.

Lemma findItem_spec h k x l : forall fuel curr next, inBin h k next l -> x ∈ l -> (length l <= fuel)%nat ->
  exists l1 c l2, findItem fuel h x curr next = Done (c, x) /\ curr :: l = l1 ++ c :: x :: l2.
Proof.
  induction l as [|n l IH]; intros fuel curr next; [by intros _ ?%not_elem_of_nil|].
  intros (-> & en & Hn & _ & Hl) Hx Hf. destruct fuel as [|fuel]; [simpl in Hf; lia|]. cbn [findItem].
  destruct (decide (x = n)) as [->|Hne]; [by exists [], curr, l|].
  rewrite (get_Some _ _ _ Hn). cbn [obind]. apply elem_of_cons in Hx as [->|Hx]; [done|].
  destruct (IH fuel n (nextInBin en) Hl Hx) as (l1 & c & l2 & -> & E); [simpl in Hf; lia|].
  exists (curr :: l1), c, l2. by rewrite E.
Qed.

Lemma inBin_unlink h k c x ec ex l2 : forall l1 p, inBin h k p (l1 ++ c :: x :: l2) -> NoDup (l1 ++ c :: x :: l2) ->
  h !! c = Some ec -> h !! x = Some ex ->
  inBin (<[c := withNextInBin (nextInBin ex) ec]> h) k p (l1 ++ c :: l2).
Proof.
  induction l1 as [|y l1 IH]; intros p Hb Hnd Hc Hx; cbn [app] in *; destruct Hb as (-> & e & Hy & Hk & Hb).
  - destruct Hb as (_ & e' & Hx' & _ & Hb). simplify_eq. split; [done|]. eexists. rewrite lookup_insert_eq.
    repeat split. apply (inBin_frame h); [|done]. intros y Hy'. apply shape_insert_ne. intros <-.
    apply NoDup_cons in Hnd as [Hnd _]. apply Hnd. by right.
  - apply NoDup_cons in Hnd as [Hny Hnd]. split; [done|]. exists e. split.
    + rewrite lookup_insert_ne; [done|]. intros <-. apply Hny, elem_of_app. right. by left.
    + split; [done|]. by apply IH.
Qed.

Definition binOf (k : key) (b : list loc) : list (key * list loc) := match b with [] => [] | _ => [(k, b)] end.
Lemma items_binOf k b : items (binOf k b) = map (pair k) b.
Proof. destruct b; [done|]. unfold binOf. rewrite items_cons. apply app_nil_r. Qed.

Lemma filter_ne_split x l1 l2 : NoDup (l1 ++ x :: l2) -> filter (fun y => y <> x) (l1 ++ x :: l2) = l1 ++ l2.
Proof.
  intros (Hd1 & Hd & [Hx Hd2]%NoDup_cons)%NoDup_app. rewrite filter_app, filter_cons_False by tauto.
  rewrite !filter_keeps; [done| |]; intros y Hy ->; [done|]. apply (Hd x Hy). by left.
Qed.

Lemma removeItem_spec h k p b m x : bins h p [(k, b)] m -> NoDup b -> x ∈ b -> forall top, p = Some top ->
  exists h' p', removeItem x top h = Done (h', p') /\ SameFields h h' /\
    (forall y, y ∉ b -> h' !! y = h !! y) /\ bins h' p' (binOf k (filter (fun y => y <> x) b)) m.
Proof.
  intros (top & rest & et & -> & Ht & Hm & Hin)%bin_inBin Hnd Hx top0 ->.
  pose proof Hin as ([= ->] & e' & Ht' & Hk & Hrest). rewrite Ht in Ht'. injection Ht' as <-.
  unfold removeItem. rewrite (get_Some _ _ _ Ht). cbn [obind]. destruct (decide (x = top)) as [->|Hne].
  - pose proof (filter_ne_split top [] rest Hnd) as Ef. cbn [app] in Ef. rewrite Ef.
    apply NoDup_cons in Hnd as [Hnt Hnd]. destruct rest as [|n rest].
    + rewrite Hrest. eexists _, _. split; [done|]. split; [done|]. by split.
    + pose proof Hrest as (-> & en & Hn & Hkn & Hr). rewrite (update_Some _ _ _ _ Hn). cbn [obind].
      apply NoDup_cons in Hnd as [Hnn Hnd]. eexists _, _. split; [done|]. split; [by eapply SameFields_insert|]. split.
      * intros y Hy. apply lookup_insert_ne. intros <-. apply Hy. right. by left.
      * eexists n, rest, _. rewrite lookup_insert_eq. repeat split; [done| |done].
        apply (inBin_frame h); [|done]. intros y Hy. apply shape_insert_ne. by intros ->.
  - apply elem_of_cons in Hx as [->|Hx]; [done|].
    destruct (findItem_spec h k x rest (size h) top (nextInBin et) Hrest Hx) as (l1 & c & l2 & -> & E).
    { apply NoDup_cons in Hnd as [_ Hnd]. apply heap_size; [done|]. intros y Hy. by eapply inBin_lookup. }
    cbn [obind]. rewrite E in *.
    destruct (inBin_lookup _ _ _ _ x Hin) as (ex & Hex); [set_solver|].
    destruct (inBin_lookup _ _ _ _ c Hin) as (ec & Hec); [set_solver|].
    rewrite (get_Some _ _ _ Hex). cbn [obind]. rewrite (update_Some _ _ _ _ Hec). cbn [obind]. eexists _, _. split; [done|].
    split; [by eapply SameFields_insert|]. split.
    + intros y Hy. apply lookup_insert_ne. set_solver.
    + pose proof (inBin_unlink h k c x ec ex l2 l1 (Some top) Hin Hnd Hec Hex) as Hun.
      replace (l1 ++ c :: x :: l2) with ((l1 ++ [c]) ++ x :: l2) in * by by rewrite <- app_assoc.
      rewrite filter_ne_split, <- app_assoc by done. cbn [app].
      destruct (l1 ++ c :: l2) as [|top' rest'] eqn:E'; [by destruct l1|]. unfold binOf. apply bin_inBin.
      pose proof Hun as ([= <-] & e'' & He'' & _). exists top, rest', e''. split; [done|]. split; [done|]. split; [|done].
      destruct (decide (c = top)) as [->|Hc]; [|by rewrite lookup_insert_ne in He'' by done; simplify_eq].
      rewrite lookup_insert_eq in He''. by simplify_eq.
Qed.

Lemma cancel_pair x k b : cancel x (map (pair k) b) = map (pair k) (filter (fun y => y <> x) b).
Proof.
  induction b as [|y b IH]; [done|]. cbn [map]. unfold cancel. rewrite !filter_cons. cbn [snd].
  fold (cancel x (map (pair k) b)). by case_decide; rewrite IH.
Qed.

Lemma cancel_items x pre k b post : NoDup (locs (items (pre ++ (k, b) :: post))) -> x ∈ b ->
  cancel x (items (pre ++ (k, b) :: post)) = items (pre ++ binOf k (filter (fun y => y <> x) b) ++ post).
Proof.
  rewrite !items_app, items_cons, items_binOf, !cancel_app, !locs_app, locs_pair, cancel_pair.
  intros (_ & Hd & (_ & Hd' & _)%NoDup_app)%NoDup_app Hx.
  rewrite (cancel_none x (items pre)), (cancel_none x (items post)); [done|by apply Hd'|].
  intros Hp. apply (Hd _ Hp), elem_of_app. by left.
Qed.

(** The queue after the stack [b] lost [x]. *)
Lemma Queued_removed h h' p p' pre k b m post x : bins h' p pre p' ->
  bins h' p' (binOf k (filter (fun y => y <> x) b)) m -> bins h m post None ->
  (forall y, y ∈ locs (items post) -> shape <$> h' !! y = shape <$> h !! y) ->
  sortedBins (pre ++ (k, b) :: post) -> NoDup (locs (items (pre ++ (k, b) :: post))) -> x ∈ b ->
  Queued h' p (cancel x (items (pre ++ (k, b) :: post))).
Proof.
  intros Hpre Hb Hpost Hfr Hs Hnd Hx. exists (pre ++ binOf k (filter (fun y => y <> x) b) ++ post).
  split; [|split; [|split; [by apply NoDup_cancel|symmetry; by apply cancel_items]]].
  - apply bins_app. exists p'. split; [done|]. apply bins_app. exists m. split; [done|]. by apply (bins_frame h).
  - destruct (filter (fun y => y <> x) b) as [|y b'] eqn:E; [|by rewrite map_app in *].
    rewrite map_app in *. cbn [binOf app]. apply StronglySorted_app in Hs as (Hlt & Hs1 & Hs2).
    cbn [map fst] in *. apply StronglySorted_cons in Hs2 as [_ Hs2].
    apply StronglySorted_app_2; [|done..]. intros k1 k2 H1 H2. apply Hlt; [done|by right].
Qed.

(** A bin whose key is not above the first one's is the first. *)
Lemma first_bin k b bs : (k, b) ∈ bs -> sortedBins bs -> (forall k', k' ∈ map fst bs -> klt k' k = false) ->
  exists post, bs = (k, b) :: post.
Proof.
  destruct bs as [|[k1 b1] bs]; [by intros ?%not_elem_of_nil|]. intros [[= -> ->]|Hin]%elem_of_cons Hs Hge; [by exists bs|].
  cbn [map fst] in *. apply StronglySorted_cons in Hs as [Hk _]. rewrite Forall_forall in Hk.
  assert (Hk1 : k ∈ map fst bs) by (apply elem_of_map; by exists (k, b)).
  apply Hk in Hk1. rewrite (Hge k1) in Hk1 by by left. done.
Qed.

Lemma remove_front h p k b post x : bins h p ((k, b) :: post) None -> sortedBins ((k, b) :: post) ->
  NoDup (locs (items ((k, b) :: post))) -> x ∈ b -> forall top, p = Some top ->
  exists h' p', removeItem x top h = Done (h', p') /\ SameFields h h' /\
    Queued h' p' (cancel x (items ((k, b) :: post))) /\
    (forall y, y ∉ b -> h' !! y = h !! y).
Proof.
  intros Hb Hs Hnd Hx top Hp. pose proof Hb as (m & Hb1 & Hb2)%(bins_app h [(k, b)] post None p).
  pose proof Hnd as Hnd'. rewrite items_cons, locs_app, locs_pair in Hnd'. apply NoDup_app in Hnd' as (Hnd1 & Hd & _).
  destruct (removeItem_spec h k p b m x Hb1 Hnd1 Hx top Hp) as (h' & p' & H1 & H2 & H3 & H4).
  exists h', p'. split; [done|]. split; [done|]. split; [|done].
  eapply (Queued_removed h h' p' p' [] k b m post x); try done.
  intros y Hy. rewrite H3; [done|]. intros Hy'. by apply (Hd y).
Qed.

Lemma remove_behind h p pre k0 prev rest curr k b post x :
  bins h p (pre ++ [(k0, prev :: rest)]) curr -> bins h curr ((k, b) :: post) None ->
  sortedBins ((pre ++ [(k0, prev :: rest)]) ++ (k, b) :: post) ->
  NoDup (locs (items ((pre ++ [(k0, prev :: rest)]) ++ (k, b) :: post))) -> x ∈ b -> forall c, curr = Some c ->
  exists h1 h' p', removeItem x c h = Done (h1, p') /\ update (withNextBin p') prev h1 = Done h' /\ SameFields h h' /\
    Queued h' p (cancel x (items ((pre ++ [(k0, prev :: rest)]) ++ (k, b) :: post))).
Proof.
  set (pre' := pre ++ [(k0, prev :: rest)]). intros Hpre Hb Hs Hnd Hx c Hc.
  pose proof Hb as (m & Hb1 & Hb2)%(bins_app h [(k, b)] post None curr).
  pose proof Hnd as Hnd'. rewrite items_app, items_cons, !locs_app, locs_pair in Hnd'.
  apply NoDup_app in Hnd' as (Hnd1 & Hd & (Hndb & Hd' & _)%NoDup_app).
  destruct (removeItem_spec h k curr b m x Hb1 Hndb Hx c Hc) as (h1 & top & H1 & H2 & H3 & H4).
  assert (Hbin : (k0, prev :: rest) ∈ pre') by (apply elem_of_app; right; by left).
  assert (Hin : prev ∈ locs (items pre')).
  { apply elem_of_locs. exists k0. apply elem_of_items. exists (prev :: rest). split; [done|by left]. }
  destruct (bins_lookup h _ pre' _ _ _ prev Hpre Hbin) as (ep & Hp & _); [by left|].
  assert (Hpb : forall y, y ∈ locs (items pre') -> y ∉ b /\ y ∉ locs (items post)).
  { intros y Hy. specialize (Hd y Hy). by apply not_elem_of_app in Hd. }
  assert (Hp1 : h1 !! prev = Some ep) by (rewrite H3; [done|by apply Hpb]).
  eexists _, _, _. split; [exact H1|]. split; [apply (update_Some _ _ _ _ Hp1)|].
  split; [by eapply SameFields_trans, SameFields_insert|].
  apply (Queued_removed h _ p top pre' k b m post x); try done.
  - apply (bins_redirect _ _ _ _ _ _ curr ep); [done| |done].
    apply (bins_frame h); [|done]. intros y Hy. rewrite H3; [done|by apply Hpb].
  - apply (bins_frame h1); [|done]. intros y Hy. apply shape_insert_ne. intros <-. destruct (Hpb prev Hin) as [Hnb _].
    apply Hnb. rewrite items_binOf, locs_pair in Hy. by apply list_elem_of_filter in Hy as [_ ?].
  - intros y Hy. rewrite shape_insert_ne by (intros <-; by destruct (Hpb prev Hin)). rewrite H3; [done|]. intros Hy'. by apply (Hd' y).
Qed.

Lemma remove_spec h p l k x e self : Queued h p l -> (k, x) ∈ l -> h !! x = Some e -> queue e = Some self ->
  exists h' p', remove self x h p = Done (h', p') /\ SameFields h h' /\ Queued h' p' (cancel x l).
Proof.
  intros (bs & Hb & Hs & Hnd & <-) (b & Hin & Hx)%elem_of_items Hex Hq.
  destruct (bins_lookup _ _ _ _ _ _ _ Hb Hin Hx) as (e' & He' & Hk). rewrite Hex in He'. injection He' as <-. subst k.
  destruct bs as [|[k0 b0] bs]; [by apply not_elem_of_nil in Hin|].
  pose proof Hb as (top & rest & et & -> & -> & Ht & Hk0 & Hrest & Hbs).
  unfold remove. rewrite (get_Some _ _ _ Hex). cbn [obind]. rewrite decide_True by done.
  rewrite (get_Some _ _ _ Ht). cbn [obind]. destruct (event_eq et e) eqn:E.
  { apply event_eq_key in E. assert (k0 = keyOf e) as -> by congruence.
    destruct (first_bin (keyOf e) b ((keyOf e, top :: rest) :: bs)) as (post & [= <- <-]); [done..| |].
    { apply (sorted_lt_all (keyOf e)); [done|apply klt_irrefl]. }
    destruct (remove_front h (Some top) (keyOf e) (top :: rest) bs x Hb Hs Hnd Hx top) as (h' & p' & ? & ? & ? & _); [done|].
    by exists h', p'. }
  assert (Hlt : klt k0 (keyOf e) = true).
  { apply elem_of_cons in Hin as [[= <- ->]|Hin].
    - apply not_true_iff_false in E. destruct E. by apply event_eq_key.
    - cbn [map fst] in Hs. apply StronglySorted_cons in Hs as [Hs _]. rewrite Forall_forall in Hs.
      apply Hs, elem_of_map. by exists (keyOf e, b). }
  destruct (findBin_spec h e (Some top) bs (size h) [] k0 top rest (nextBin et))
    as (pre & k' & prev & rest' & curr & post & -> & Heq & Hpre & Hpost & Hlts & Hge).
  { pose proof (bins_size _ _ _ _ Hnd Hb) as Hlen. simpl in Hlen. lia. }
  { exists top, rest, et. done. }
  { done. }
  { by apply StronglySorted_cons in Hs as [_ ?]. }
  { by repeat constructor. }
  cbn [app] in Heq. rewrite Heq in Hs, Hnd, Hin |- *.
  rewrite (cons_middle _ pre post), app_assoc in Hs, Hnd, Hin |- *.
  destruct (first_bin (keyOf e) b post) as (post' & ->); [|by rewrite map_app in Hs; eapply StronglySorted_app_1_r|done|].
  { apply elem_of_app in Hin as [Hin|?]; [|done]. rewrite Forall_forall in Hlts. specialize (Hlts _ Hin).
    cbn [fst] in Hlts. by rewrite klt_irrefl in Hlts. }
  pose proof Hpost as (c & rest1 & ec & -> & -> & Hc & Hkc & _).
  cbn [obind]. rewrite (get_Some _ _ _ Hc). cbn [obind]. rewrite (proj2 (event_ne_key ec e) Hkc).
  destruct (remove_behind h (Some top) pre k' prev rest' (Some c) (keyOf e) (c :: rest1) post' x) with (c := c)
    as (h1 & h' & p' & H1 & H2 & H3 & H4); [done..|].
  rewrite H1. cbn [obind]. rewrite H2. by eexists _, _.
Qed.

(** An event that is not in the queue: the search ends in [panic]. *)
Lemma findItem_absent h k x l : forall fuel curr next, inBin h k next l -> x ∉ l -> (length l <= fuel)%nat ->
  findItem fuel h x curr next = Exited.
Proof.
  induction l as [|n l IH]; intros fuel curr next.
  - intros -> _ _. by destruct fuel.
  - intros (-> & en & Hn & _ & Hl) [Hne Hx]%not_elem_of_cons Hf. destruct fuel as [|fuel]; [simpl in Hf; lia|].
    cbn [findItem]. rewrite decide_False by done. rewrite (get_Some _ _ _ Hn). cbn [obind].
    apply IH; [done..|simpl in Hf; lia].
Qed.

Lemma removeItem_absent h k top b m x : bins h (Some top) [(k, b)] m -> NoDup b -> x ∉ b -> removeItem x top h = Exited.
Proof.
  intros (top' & rest & et & -> & Ht & _ & Hin)%bin_inBin Hnd [Hne Hx]%not_elem_of_cons.
  pose proof Hin as ([= ->] & e' & Ht' & _ & Hrest). rewrite Ht in Ht'. injection Ht' as <-.
  unfold removeItem. rewrite (get_Some _ _ _ Ht). cbn [obind]. rewrite decide_False by done.
  rewrite (findItem_absent h k x rest); [done..|].
  apply NoDup_cons in Hnd as [_ Hnd]. apply heap_size; [done|]. intros y Hy. by eapply inBin_lookup.
Qed.

Lemma remove_absent h p l x e self : Queued h p l -> h !! x = Some e -> x ∉ locs l -> remove self x h p = Exited.
Proof.
  intros (bs & Hb & Hs & Hnd & <-) Hex Hx. unfold remove. destruct bs as [|[k0 b0] bs]; [by cbn in Hb; subst|].
  pose proof Hb as (top & rest & et & -> & -> & Ht & Hk0 & Hrest & Hbs).
  rewrite (get_Some _ _ _ Hex). cbn [obind]. case_decide; [|done]. rewrite (get_Some _ _ _ Ht). cbn [obind].
  assert (Hbin : forall k b bs1 bs2 q, (k0, top :: rest) :: bs = bs1 ++ (k, b) :: bs2 ->
    bins h q ((k, b) :: bs2) None -> forall c, q = Some c -> removeItem x c h = Exited).
  { intros k b bs1 bs2 q E (m & Hb1 & _)%(bins_app h [(k, b)] bs2 None q) c ->.
    rewrite E, items_app, items_cons, !locs_app, locs_pair in Hnd, Hx. apply NoDup_app in Hnd as (_ & _ & (? & _)%NoDup_app).
    apply not_elem_of_app in Hx as [_ [? _]%not_elem_of_app]. by eapply removeItem_absent. }
  destruct (event_eq et e) eqn:E; [by eapply (Hbin _ _ [] bs)|].
  destruct (klt k0 (keyOf e)) eqn:Hlt.
  - destruct (findBin_spec h e (Some top) bs (size h) [] k0 top rest (nextBin et))
      as (pre & k' & prev & rest' & curr & post & -> & Heq & Hpre & Hpost & Hlts & Hge).
    { pose proof (bins_size _ _ _ _ Hnd Hb) as Hlen. simpl in Hlen. lia. }
    { exists top, rest, et. done. }
    { done. }
    { by apply StronglySorted_cons in Hs as [_ ?]. }
    { by repeat constructor. }
    cbn [obind]. destruct curr as [c|]; [|done]. destruct post as [|[k1 b1] post]; [done|].
    pose proof Hpost as (c' & rest1 & ec & -> & [= <-] & Hc & _). rewrite (get_Some _ _ _ Hc). cbn [obind].
    destruct (event_ne ec e); [done|]. cbn [app] in Heq.
    rewrite (Hbin k1 (c :: rest1) (pre ++ [(k', prev :: rest')]) post (Some c)); [done|by rewrite <- app_assoc|done..].
  - destruct bs as [|[k1 b1] bs].
    { cbn in Hbs. rewrite Hbs. by destruct (size h). }
    pose proof Hbs as (c & rest1 & ec & -> & Hn & Hc & Hk1 & _). rewrite Hn.
    assert (Hk1' : klt k1 (keyOf e) = false).
    { apply (sorted_lt_all k0 (map fst ((k1, c :: rest1) :: bs))); [done|done|right; by left]. }
    assert (Hne : event_ne ec e = true).
    { apply not_false_iff_true. intros Ee%event_ne_key. rewrite Hk1 in Ee. subst k1. cbn [map fst] in Hs.
      apply StronglySorted_cons in Hs as [Hf _]. apply Forall_inv in Hf. congruence. }
    destruct (size h); cbn [findBin]; rewrite (get_Some _ _ _ Hc); cbn [obind]; rewrite event_lt_key, Hk1, Hk1'; cbn [obind];
      by rewrite (get_Some _ _ _ Hc); cbn [obind]; rewrite Hne.
Qed.

(** ** Reading the queue *)

Lemma ordered_same k b l : (forall z, z ∈ l -> klt z.1 k = false) -> ordered l -> ordered (map (pair k) b ++ l).
Proof.
  intros Hk Hl. induction b as [|x b IH]; [done|]. cbn [map app]. apply StronglySorted_cons. split; [|done].
  apply Forall_forall. intros z [(y & -> & _)%elem_of_map|Hz]%elem_of_app; [apply klt_irrefl|by apply Hk].
Qed.

Lemma Queued_ordered h p l : Queued h p l -> ordered l.
Proof.
  intros (bs & _ & Hs & _ & <-). induction bs as [|[k b] bs IH]; [constructor|]. cbn [map fst] in Hs.
  apply StronglySorted_cons in Hs as [Hk Hs]. rewrite items_cons. apply ordered_same; [|by apply IH].
  apply (items_keys bs (fun k' => klt k' k = false)). intros k' Hk'. rewrite Forall_forall in Hk.
  specialize (Hk _ Hk'). apply klt_iff in Hk. apply klt_false. lia.
Qed.

Lemma verifyBin_spec h k l : forall fuel p seen time pri, inBin h k p l -> NoDup l -> (length l <= fuel)%nat ->
  (forall x, x ∈ l -> x ∉ seen) -> klt k (time, pri) = false -> l <> [] ->
  verifyBin fuel h p (seen, time, pri) = Done (Some (list_to_set l ∪ seen, k.1, k.2)).
Proof.
  induction l as [|x l IH]; intros fuel p seen time pri Hb Hnd Hf Hd Hk Hne; [done|].
  destruct Hb as (-> & e & Hx & <- & Hl). apply NoDup_cons in Hnd as [Hnx Hnd].
  destruct fuel as [|fuel]; [simpl in Hf; lia|]. cbn [verifyBin]. rewrite (get_Some _ _ _ Hx). cbn [obind].
  pose proof Hk as [H1 H2]%orb_false_iff. cbn [keyOf fst snd] in H1, H2. rewrite H1, H2.
  rewrite decide_False by (apply Hd; by left). destruct l as [|y l].
  - cbn in Hl. rewrite Hl. replace (list_to_set [x] ∪ seen) with ({[x]} ∪ seen) by set_solver. by destruct fuel.
  - rewrite (IH fuel _ _ (when e) (priority e)); [|done|done|simpl in *; lia| |apply klt_irrefl|done].
    + by replace (list_to_set (x :: y :: l) ∪ seen) with (list_to_set (y :: l) ∪ ({[x]} ∪ seen)) by set_solver.
    + intros z Hz [->%elem_of_singleton|Hz']%elem_of_union; [done|]. by apply (Hd z); [right|].
Qed.

Lemma verifyBins_spec h bs : forall fuel p seen time pri, bins h p bs None -> sortedBins bs -> NoDup (locs (items bs)) ->
  (length bs <= fuel)%nat -> (forall x, x ∈ locs (items bs) -> x ∉ seen) ->
  (forall k, k ∈ map fst bs -> klt k (time, pri) = false) -> verifyBins fuel h p (seen, time, pri) = Done true.
Proof.
  induction bs as [|[k b] bs IH]; intros fuel p seen time pri Hb Hs Hnd Hf Hd Hk.
  { cbn in Hb. subst p. by destruct fuel. }
  pose proof Hb as (top & rest & e & -> & -> & Ht & Hke & Hin & Hbs).
  destruct fuel as [|fuel]; [simpl in Hf; lia|]. cbn [verifyBins].
  rewrite items_cons, locs_app, locs_pair in Hnd, Hd. apply NoDup_app in Hnd as (Hnb & Hdis & Hnd).
  assert (Hb1 : inBin h k (Some top) (top :: rest)) by (split; [done|by exists e]).
  rewrite (verifyBin_spec h k (top :: rest)); [|done|done| | |apply Hk; by left|done].
  - cbn [obind]. rewrite (get_Some _ _ _ Ht). cbn [obind]. cbn [map fst] in Hs. apply StronglySorted_cons in Hs as [Hlt Hs].
    apply IH; [done|done|done|simpl in Hf; lia| |].
    + intros x Hx [Hin'%elem_of_list_to_set|Hin']%elem_of_union; [by apply (Hdis x)|].
      apply (Hd x); [|done]. apply elem_of_app. by right.
    + intros k' Hk'. rewrite Forall_forall in Hlt. specialize (Hlt _ Hk'). apply klt_iff in Hlt. apply klt_false. cbn. lia.
  - apply heap_size; [done|]. intros x Hx. by eapply inBin_lookup.
  - intros x Hx. apply Hd, elem_of_app. by left.
Qed.

(** [debugVerify] starts from tick 0 and priority 0: it accepts every queue
    but those whose first event has tick 0 and a negative priority. *)
Lemma debugVerify_spec q l : Queued (events q) (head q) l ->
  debugVerify q = Done (match l with [] => true | (k, _) :: _ => negb (klt k (0, 0)) end).
Proof.
  intros (bs & Hb & Hs & Hnd & <-). unfold debugVerify. destruct bs as [|[k b] bs].
  { cbn in Hb. rewrite Hb. by destruct (size _). }
  pose proof Hb as (top & rest & e & -> & Hp & Ht & Hke & _). rewrite items_cons. cbn [map app].
  destruct (klt k (0, 0)) eqn:E; cbn [negb].
  - rewrite Hp. pose proof (bins_size _ _ _ _ Hnd Hb) as Hsz. destruct (size (events q)) as [|n] eqn:En; [simpl in Hsz; lia|].
    cbn [verifyBins]. rewrite En. cbn [verifyBin]. rewrite (get_Some _ _ _ Ht). cbn [obind]. rewrite <- Hke in E.
    unfold klt in E. cbn [keyOf fst snd] in E. destruct (when e <? 0); [done|]. cbn [orb] in E. by rewrite E.
  - eapply verifyBins_spec; [done|done|done|by eapply bins_size|set_solver|]. by apply (sorted_lt_all k).
Qed.

Definition autoSerialized (h : heap) (x : loc) : Prop :=
  match h !! x with Some e => Flags.isSet (flags e) AutoSerialize = true | None => False end.
#[export] Instance autoSerialized_dec h x : Decision (autoSerialized h x).
Proof. unfold autoSerialized. destruct (h !! x); apply _. Defined.

Lemma walkBin_spec h k l : forall fuel p, inBin h k p l -> (length l <= fuel)%nat ->
  walkBin fuel h p = Done (filter (autoSerialized h) l).
Proof.
  induction l as [|x l IH]; intros fuel p; [intros -> _; by destruct fuel|].
  intros (-> & e & Hx & _ & Hl) Hf. destruct fuel as [|fuel]; [simpl in Hf; lia|]. cbn [walkBin].
  rewrite (get_Some _ _ _ Hx). cbn [obind]. rewrite (IH fuel _ Hl) by (simpl in Hf; lia). cbn [obind].
  assert (Ha : autoSerialized h x <-> Flags.isSet (flags e) AutoSerialize = true) by (unfold autoSerialized; by rewrite Hx).
  rewrite filter_cons. destruct (Flags.isSet (flags e) AutoSerialize); case_decide; naive_solver.
Qed.

Lemma walkBins_spec h bs : forall fuel p, bins h p bs None -> NoDup (locs (items bs)) -> (length bs <= fuel)%nat ->
  walkBins fuel h p = Done (filter (autoSerialized h) (locs (items bs))).
Proof.
  induction bs as [|[k b] bs IH]; intros fuel p Hb Hnd Hf.
  { cbn in Hb. subst p. by destruct fuel. }
  destruct Hb as (top & rest & e & -> & -> & Ht & Hke & Hin & Hbs). destruct fuel as [|fuel]; [simpl in Hf; lia|].
  rewrite items_cons, locs_app, locs_pair in *. apply NoDup_app in Hnd as (Hnb & _ & Hnd). cbn [walkBins].
  assert (Hb1 : inBin h k (Some top) (top :: rest)) by (split; [done|by exists e]).
  rewrite (walkBin_spec h k (top :: rest)); [|done|by apply heap_size; [|intros x Hx; eapply inBin_lookup]].
  cbn [obind]. rewrite (get_Some _ _ _ Ht). cbn [obind]. rewrite (IH fuel) by (done || simpl in Hf; lia).
  cbn [obind]. by rewrite filter_app.
Qed.
