(* ===== verification/EventQueueCorrect.v ===== *)
(** * The event queue as an ordered list

    The operations of the queue act on an abstract list of entries, ordered by
    tick and priority and, among equals, by last insertion; the [Scheduled]
    flag of an event says whether it is in that list or waits to be inserted
    asynchronously. *)

From stdpp Require Import gmap list sorting.
From Stdlib Require Import ZArith.
From S2P Require Import Prelude Bits EventQueue EventQueueLinks.
Import EventQueue.

Open Scope Z_scope.

(** ** Flags *)

Lemma isSet_clear f m m' : Flags.isSet (Flags.clear 16 f m) m' = nonzero (Z.land f (Z.land (bnot 16 m) m')).
Proof. unfold Flags.isSet, Flags.clear. by rewrite <- Z.land_assoc. Qed.
Lemma isSet_clear_other f m m' : Z.land (bnot 16 m) m' = m' -> Flags.isSet (Flags.clear 16 f m) m' = Flags.isSet f m'.
Proof. intros E. by rewrite isSet_clear, E. Qed.
Lemma isSet_set f m m' : Flags.isSet (Flags.set f m) m' = nonzero (Z.lor (Z.land f m') (Z.land m m')).
Proof. unfold Flags.isSet, Flags.set. by rewrite Z.land_lor_distr_l. Qed.
Lemma nonzero_lor_r a m : m <> 0 -> nonzero (Z.lor a m) = true.
Proof. intros Hm. apply nonzero_iff. intros E. apply Z.lor_eq_0_iff in E. tauto. Qed.

Ltac flag_eval := unfold squash, setFlag, clearFlag, scheduled, squashed, initialized, isExitEvent; cbn [flags withFlags];
  rewrite ?isSet_clear, ?isSet_set;
  repeat match goal with
  | |- context [Z.land (bnot 16 ?m) ?m'] => let v := eval vm_compute in (Z.land (bnot 16 m) m') in change (Z.land (bnot 16 m) m') with v
  | |- context [Z.land Scheduled ?m'] => let v := eval vm_compute in (Z.land Scheduled m') in change (Z.land Scheduled m') with v
  | |- context [Z.land Squashed ?m'] => let v := eval vm_compute in (Z.land Squashed m') in change (Z.land Squashed m') with v
  end; rewrite ?Z.lor_0_r, ?Z.land_0_r; try reflexivity.

Create Rewrite HintDb event_flags.

Lemma scheduled_clear e : scheduled (clearFlag Scheduled e) = false.
Proof. by flag_eval. Qed.
Lemma scheduled_unsquash e : scheduled (clearFlag Squashed e) = scheduled e.
Proof. by flag_eval. Qed.
Lemma scheduled_set e : scheduled (setFlag Scheduled e) = true.
Proof. flag_eval. by apply nonzero_lor_r. Qed.
Lemma scheduled_squash e : scheduled (squash e) = scheduled e.
Proof. by flag_eval. Qed.
Lemma squashed_clear e : squashed (clearFlag Squashed e) = false.
Proof. by flag_eval. Qed.
Lemma squashed_unschedule e : squashed (clearFlag Scheduled e) = squashed e.
Proof. by flag_eval. Qed.
Lemma squashed_schedule e : squashed (setFlag Scheduled e) = squashed e.
Proof. by flag_eval. Qed.
Lemma scheduled_setWhen w s e : scheduled (setWhen w s e) = scheduled e.
Proof. done. Qed.
#[export] Hint Rewrite scheduled_clear scheduled_unsquash scheduled_set scheduled_squash squashed_clear
  squashed_unschedule squashed_schedule scheduled_setWhen : event_flags.

(** ** The invariant *)

(** Exactly the events of [ids] are scheduled, on the queue [s]. *)
Definition Tracked (h : heap) (s : nat) (ids : list loc) : Prop :=
  NoDup ids /\ (forall x, x ∈ ids -> is_Some (h !! x)) /\
  (forall x e, h !! x = Some e -> (scheduled e = true <-> x ∈ ids) /\ (x ∈ ids -> queue e = Some s)).

Definition Inv (q : t) (l : list entry) : Prop :=
  Queued (events q) (head q) l /\ Tracked (events q) (self q) (locs l ++ async_queue q).

Definition tracks (e : Event) := (scheduled e, queue e).

Lemma tracks_lookup (h h' : heap) x e : tracks <$> h' !! x = tracks <$> h !! x -> h !! x = Some e ->
  exists e', h' !! x = Some e' /\ scheduled e' = scheduled e /\ queue e' = queue e.
Proof.
  intros E Hx. rewrite Hx in E. apply fmap_Some in E as (e' & Hx' & E). exists e'. unfold tracks in E. by injection E as <- <-.
Qed.

Lemma Tracked_perm h s ids ids' : ids ≡ₚ ids' -> Tracked h s ids -> Tracked h s ids'.
Proof.
  intros Hp (H1 & H2 & H3). split; [by rewrite <- Hp|]. split; [intros x; rewrite <- Hp; apply H2|].
  intros x e. rewrite <- Hp. apply H3.
Qed.

Lemma Tracked_ext (h h' : heap) s ids : (forall x, tracks <$> h' !! x = tracks <$> h !! x) -> Tracked h s ids -> Tracked h' s ids.
Proof.
  intros He (H1 & H2 & H3). split; [done|]. split.
  - intros x [e Hx]%H2. destruct (tracks_lookup h h' x e (He x) Hx) as (e' & ? & _). by exists e'.
  - intros x e Hx. destruct (tracks_lookup h' h x e) as (e' & Hx' & <- & <-); [done..|]. by apply H3.
Qed.

(** The events other than [x] are tracked as before. *)
Lemma Tracked_others (h h' : heap) s ids x : Tracked h s ids -> (forall y, y <> x -> tracks <$> h' !! y = tracks <$> h !! y) ->
  forall y, y <> x -> (y ∈ ids -> is_Some (h' !! y)) /\
    (forall e, h' !! y = Some e -> (scheduled e = true <-> y ∈ ids) /\ (y ∈ ids -> queue e = Some s)).
Proof.
  intros (_ & H2 & H3) He y Hne. split.
  - intros [e Hy]%H2. destruct (tracks_lookup h h' y e (He y Hne) Hy) as (e' & ? & _). by exists e'.
  - intros e Hy. destruct (tracks_lookup h' h y e) as (e' & Hy' & <- & <-); [by rewrite He|done|]. by apply H3.
Qed.

Lemma Tracked_del (h h' : heap) s ids x : Tracked h s (x :: ids) ->
  (forall y, y <> x -> tracks <$> h' !! y = tracks <$> h !! y) ->
  (forall e, h' !! x = Some e -> scheduled e = false) -> Tracked h' s ids.
Proof.
  intros HT He Hx. pose proof (Tracked_others _ _ _ _ _ HT He) as Ho. destruct HT as ([Hnx H1]%NoDup_cons & _).
  split; [done|]. split.
  - intros y Hy. assert (Hne : y <> x) by by intros ->. apply (Ho y Hne). by right.
  - intros y e Hy. destruct (decide (y = x)) as [->|Hne]; [by rewrite (Hx _ Hy)|].
    destruct (Ho y Hne) as [_ Ho']. apply Ho' in Hy as [Ha Hb]. rewrite elem_of_cons in *. naive_solver.
Qed.

Lemma Tracked_readd (h h' : heap) s ids x e : Tracked h s ids ->
  (forall y, y <> x -> tracks <$> h' !! y = tracks <$> h !! y) -> h' !! x = Some e -> scheduled e = true ->
  queue e = Some s -> Tracked h' s (x :: filter (fun y => y <> x) ids).
Proof.
  intros HT He Hex Hs Hq. pose proof (Tracked_others _ _ _ _ _ HT He) as Ho. destruct HT as (H1 & _). split.
  { apply NoDup_cons. split; [|by apply NoDup_filter]. by intros [? _]%list_elem_of_filter. }
  split.
  - intros y [->|[Hne Hy]%list_elem_of_filter]%elem_of_cons; [by exists e|]. by apply Ho.
  - intros y e' Hy. destruct (decide (y = x)) as [->|Hne].
    + rewrite Hex in Hy. injection Hy as <-. split; [|done]. split; [intros _; by left|done].
    + destruct (Ho y Hne) as [_ Ho']. apply Ho' in Hy as [Ha Hb]. rewrite elem_of_cons, list_elem_of_filter. naive_solver.
Qed.

Lemma Tracked_add (h h' : heap) s ids x e : Tracked h s ids -> x ∉ ids ->
  (forall y, y <> x -> tracks <$> h' !! y = tracks <$> h !! y) -> h' !! x = Some e -> scheduled e = true ->
  queue e = Some s -> Tracked h' s (x :: ids).
Proof.
  intros HT Hx He Hex Hs Hq. rewrite <- (filter_keeps (fun y => y <> x) ids) by by intros y Hy ->. by eapply Tracked_readd.
Qed.

Lemma SameFields_tracks (h h' : heap) : SameFields h h' -> forall x, tracks <$> h' !! x = tracks <$> h !! x.
Proof.
  intros Hs x. specialize (Hs x). destruct (h' !! x) as [e'|], (h !! x) as [e|]; try done.
  apply (inj Some) in Hs. apply fields_inv in Hs as (_ & Hf & Hq). cbn. unfold tracks, scheduled. by rewrite Hf, Hq.
Qed.

(** ** Specifications of the operations *)

Lemma queueUpdate_Some f x q e : events q !! x = Some e -> queueUpdate f x q = Done (withEvents (<[x := f e]> (events q)) q).
Proof. intros Hx. unfold queueUpdate. by rewrite (update_Some _ _ _ _ Hx). Qed.

Lemma Queued_update h p l x e e' : h !! x = Some e -> shape e' = shape e -> Queued h p l -> Queued (<[x := e']> h) p l.
Proof.
  intros Hx He. apply Queued_frame. intros y _. destruct (decide (x = y)) as [<-|Hne].
  - rewrite lookup_insert_eq, Hx. cbn. by rewrite He.
  - by rewrite lookup_insert_ne.
Qed.

Lemma Queued_fresh h p l x e' : x ∉ locs l -> Queued h p l -> Queued (<[x := e']> h) p l.
Proof. intros Hx. apply Queued_frame. intros y Hy. apply shape_insert_ne. by intros ->. Qed.

(** The rest of the queue: what the operations on its list do not touch. *)
Definition SameQueue (q q' : t) : Prop :=
  self q' = self q /\ curTick q' = curTick q /\ inParallelMode q' = inParallelMode q /\
  curEventQueue q' = curEventQueue q /\ processed q' = processed q.

(** The events other than [x] keep their fields. *)
Definition SameBut (x : loc) (h h' : heap) : Prop := forall y, y <> x -> fields <$> h' !! y = fields <$> h !! y.

Lemma SameBut_tracks x (h h' : heap) : SameBut x h h' -> forall y, y <> x -> tracks <$> h' !! y = tracks <$> h !! y.
Proof.
  intros Hs y Hy. specialize (Hs y Hy). destruct (h' !! y) as [e'|], (h !! y) as [e|]; try done.
  apply (inj Some) in Hs. apply fields_inv in Hs as (_ & Hf & Hq). cbn. unfold tracks, scheduled. by rewrite Hf, Hq.
Qed.

Lemma SameBut_insert x (h : heap) e : SameBut x h (<[x := e]> h).
Proof. intros y Hy. by rewrite lookup_insert_ne. Qed.
Lemma SameBut_trans x h1 h2 h3 : SameBut x h1 h2 -> SameBut x h2 h3 -> SameBut x h1 h3.
Proof. intros H1 H2 y Hy. by rewrite H2, H1. Qed.
Lemma SameBut_fields x h h' : SameFields h h' -> SameBut x h h'.
Proof. intros Hs y _. apply Hs. Qed.

Lemma queueInsert_spec q l x e : Queued (events q) (head q) l -> events q !! x = Some e -> x ∉ locs l ->
  exists q', queueInsert x q = Done q' /\ SameQueue q q' /\ async_queue q' = async_queue q /\
    SameFields (events q) (events q') /\ Queued (events q') (head q') (enqueue (keyOf e, x) l).
Proof.
  intros Hq Hx Hn. unfold queueInsert. destruct (insert_spec _ _ _ _ _ Hq Hx Hn) as (h' & p' & -> & Hs & Hq').
  cbn [obind]. by exists (withList h' p' q).
Qed.

Lemma queueRemove_spec q l k x e : Queued (events q) (head q) l -> (k, x) ∈ l -> events q !! x = Some e -> queue e = Some (self q) ->
  exists q', queueRemove x q = Done q' /\ SameQueue q q' /\ async_queue q' = async_queue q /\
    SameFields (events q) (events q') /\ Queued (events q') (head q') (cancel x l).
Proof.
  intros Hq Hk Hx Hs. unfold queueRemove. destruct (remove_spec _ _ _ _ _ _ _ Hq Hk Hx Hs) as (h' & p' & -> & Hf & Hq').
  cbn [obind]. by exists (withList h' p' q).
Qed.

Lemma Inv_idle q l x e : Inv q l -> events q !! x = Some e -> scheduled e = false -> x ∉ locs l ++ async_queue q.
Proof. intros (_ & _ & _ & H) Hx Hs Hin. apply H in Hx as [Hx _]. apply Hx in Hin. congruence. Qed.

(** Setting the time, inserting and changing the flags: the common part of
    [schedule] and [reschedule]. *)
Lemma requeue_spec q l x e w g : Queued (events q) (head q) l -> events q !! x = Some e -> x ∉ locs l ->
  exists q1 q2 q' e', queueUpdate (setWhen w (self q)) x q = Done q1 /\ queueInsert x q1 = Done q2 /\
    queueUpdate (fun e => withFlags (g (flags e)) e) x q2 = Done q' /\ SameQueue q q' /\ async_queue q' = async_queue q /\
    SameBut x (events q) (events q') /\ events q' !! x = Some e' /\
    fields e' = (w, priority e, g (flags e), Some (self q)) /\
    Queued (events q') (head q') (enqueue (w, priority e, x) l).
Proof.
  intros Hq Hx Hl. pose proof (queueUpdate_Some (setWhen w (self q)) x q e Hx) as H1.
  set (q1 := withEvents _ q) in H1.
  assert (Hx1 : events q1 !! x = Some (setWhen w (self q) e)) by apply lookup_insert_eq.
  destruct (queueInsert_spec q1 l x _ (Queued_fresh _ _ _ _ _ Hl Hq) Hx1 Hl) as (q2 & H2 & Hs & Ha & Hf & Hq2).
  destruct (SameFields_lookup _ _ _ _ Hf Hx1) as (e2 & Hx2 & He2).
  eexists q1, q2, _, _. split; [done|]. split; [done|]. split; [apply (queueUpdate_Some _ _ _ _ Hx2)|].
  split; [done|]. split; [done|]. split.
  { eapply SameBut_trans; [|apply SameBut_insert]. eapply SameBut_trans; [|by apply SameBut_fields]. apply SameBut_insert. }
  apply fields_inv in He2 as (Hk2 & Hf2 & Hq2'). split; [apply lookup_insert_eq|]. split.
  - unfold fields. change (keyOf (withFlags _ e2)) with (keyOf e2). cbn. by rewrite Hk2, Hf2, Hq2'.
  - cbn. by apply (Queued_update _ _ _ _ e2).
Qed.

(** Whether [schedule] goes through the asynchronous queue. *)
Definition viaAsync (q : t) (global : bool) : bool :=
  inParallelMode q && (negb (bool_decide (self q = curEventQueue q)) || global).

Lemma schedule_spec q l x e w global : Inv q l -> events q !! x = Some e ->
  if (w <? curTick q) || scheduled e || negb (initialized e) then schedule x w global q = Exited
  else exists q' e', schedule x w global q = Done q' /\ SameQueue q q' /\ SameBut x (events q) (events q') /\
    events q' !! x = Some e' /\ fields e' = (w, priority e, Flags.set (flags e) Scheduled, Some (self q)) /\
    Inv q' (if viaAsync q global then l else enqueue (w, priority e, x) l) /\
    async_queue q' = async_queue q ++ (if viaAsync q global then [x] else []).
Proof.
  intros [Hq Ht] Hx. unfold schedule. rewrite (get_Some _ _ _ Hx). cbn [obind].
  destruct ((w <? curTick q) || scheduled e || negb (initialized e)) eqn:E; [done|].
  apply orb_false_iff in E as [[Hw Hs]%orb_false_iff Hi].
  pose proof (Inv_idle q l x e (conj Hq Ht) Hx Hs) as Hidle. pose proof Hidle as [Hl Ha]%not_elem_of_app.
  rewrite (queueUpdate_Some _ _ _ _ Hx). cbn [obind]. set (q1 := withEvents _ q).
  change (inParallelMode q1 && _) with (viaAsync q global). destruct (viaAsync q global).
  - cbn [obind asyncInsert]. assert (Hx1 : events (asyncInsert x q1) !! x = Some (setWhen w (self q) e)) by apply lookup_insert_eq.
    rewrite (queueUpdate_Some _ _ _ _ Hx1). eexists _, _. split; [done|]. split; [done|]. split.
    { cbn. eapply SameBut_trans; apply SameBut_insert. }
    split; [apply lookup_insert_eq|]. split; [done|]. split; [|done]. split.
    + cbn. do 2 (apply Queued_fresh; [done|]). done.
    + cbn. apply (Tracked_perm _ _ (x :: locs l ++ async_queue q)); [by rewrite app_assoc, <- Permutation_cons_append|].
      eapply (Tracked_add (events q)); [done|done| |apply lookup_insert_eq|by autorewrite with event_flags|done].
      apply SameBut_tracks. eapply SameBut_trans; apply SameBut_insert.
  - destruct (requeue_spec q l x e w (fun f => Flags.set f Scheduled) Hq Hx Hl)
      as (q1' & q2 & q3 & e3 & H1 & H2 & H3 & Hs3 & Ha3 & Hb3 & Hx3 & He3 & Hq3).
    rewrite (queueUpdate_Some _ _ _ _ Hx) in H1. injection H1 as <-. fold q1 in H2. rewrite H2. cbn [obind].
    exists q3, e3. repeat (split; [done|]). split; [|by rewrite app_nil_r]. split; [done|].
    rewrite Ha3. pose proof Hs3 as (-> & _).
    apply (Tracked_perm _ _ (x :: locs l ++ async_queue q)); [by rewrite (locs_perm _ _ (enqueue_perm _ l))|].
    apply (Tracked_add (events q) _ _ _ _ e3); [done|done|by apply SameBut_tracks|done| |by injection He3].
    injection He3 as _ _ Hf _. unfold scheduled. rewrite Hf. apply (scheduled_set e).
Qed.

(** [delete] of an event that is not scheduled. *)
Lemma deleteEvent_spec q l x e : Inv q l -> events q !! x = Some e -> scheduled e = false ->
  exists q', deleteEvent x q = Done q' /\ SameQueue q q' /\ async_queue q' = async_queue q /\
    events q' = base.delete x (events q) /\ Inv q' l.
Proof.
  intros HI Hx Hs. pose proof (Inv_idle q l x e HI Hx Hs) as Hidle. destruct HI as [Hq Ht].
  unfold deleteEvent. rewrite (get_Some _ _ _ Hx). cbn [obind]. rewrite Hs. eexists. split; [done|].
  split; [done|]. split; [done|]. split; [done|]. destruct Ht as (H1 & H2 & H3). split; [|split; [done|split]]; cbn.
  - eapply Queued_frame; [|done]. intros y Hy. rewrite lookup_delete_ne; [done|]. intros <-. apply Hidle, elem_of_app. by left.
  - intros y Hy. rewrite lookup_delete_ne by (intros <-; done). by apply H2.
  - intros y e' [_ Hy]%lookup_delete_Some. by apply H3.
Qed.

(** Whether the operations of the owning thread are refused. *)
Definition foreign (q : t) : bool := inParallelMode q && negb (bool_decide (self q = curEventQueue q)).

(** Taking a queued event out and clearing its flags. *)
Lemma unlink_spec q l x e f : Inv q l -> events q !! x = Some e -> x ∈ locs l ->
  (forall e, shape (f e) = shape e /\ keyOf (f e) = keyOf e /\ queue (f e) = queue e /\ scheduled (f e) = false) ->
  exists q1 q' e1, queueRemove x q = Done q1 /\ queueUpdate f x q1 = Done q' /\ SameQueue q q' /\
    async_queue q' = async_queue q /\ SameBut x (events q) (events q') /\ fields e1 = fields e /\
    events q' !! x = Some (f e1) /\ Inv q' (cancel x l).
Proof.
  intros [Hq Ht] Hx Hl Hf. pose proof Ht as (Hnd & _ & Htr). destruct (Htr x e Hx) as [_ Hown].
  apply elem_of_locs in Hl as Hk. destruct Hk as (k & Hk).
  destruct (queueRemove_spec q l k x e Hq Hk Hx) as (q1 & H1 & Hs1 & Ha1 & Hf1 & Hq1).
  { apply Hown, elem_of_app. by left. }
  destruct (SameFields_lookup _ _ _ _ Hf1 Hx) as (e1 & Hx1 & He1).
  assert (Hb : SameBut x (events q) (<[x := f e1]> (events q1))).
  { eapply SameBut_trans; [by apply SameBut_fields|apply SameBut_insert]. }
  eexists q1, _, e1. split; [done|]. split; [apply (queueUpdate_Some _ _ _ _ Hx1)|]. split; [done|]. split; [done|].
  split; [done|]. split; [done|]. split; [apply lookup_insert_eq|]. split.
  - cbn. apply (Queued_update _ _ _ _ e1); [done|apply Hf|done].
  - cbn. rewrite Ha1. destruct Hs1 as (-> & _). apply (Tracked_del (events q) _ _ _ x).
    + eapply Tracked_perm; [|exact Ht]. rewrite cancel_locs, app_comm_cons. f_equiv.
      apply NoDup_app in Hnd as (Hnd & _). apply list_elem_of_split in Hl as (l1 & l2 & E). rewrite E in *.
      rewrite filter_ne_split by done. by rewrite Permutation_middle.
    + by apply SameBut_tracks.
    + intros e2. rewrite lookup_insert_eq. intros [= <-]. apply Hf.
Qed.

Lemma deschedule_spec q l x e : Inv q l -> events q !! x = Some e ->
  if negb (scheduled e) || negb (initialized e) || foreign q || negb (bool_decide (x ∈ locs l)) then deschedule x q = Exited
  else exists q', deschedule x q = Done q' /\ SameQueue q q' /\ SameBut x (events q) (events q') /\
    async_queue q' = async_queue q /\ Inv q' (cancel x l) /\
    if Flags.isSet (flags e) AutoDelete then events q' !! x = None
    else exists e', events q' !! x = Some e' /\
      fields e' = (keyOf e, Flags.clear 16 (Flags.clear 16 (flags e) Squashed) Scheduled, queue e).
Proof.
  intros HI Hx. unfold deschedule. rewrite (get_Some _ _ _ Hx). cbn [obind]. fold (foreign q).
  destruct (negb (scheduled e) || negb (initialized e) || foreign q) eqn:E; [done|]. cbn [orb].
  case_bool_decide as Hl; cbn [negb].
  2: { unfold queueRemove. by rewrite (remove_absent _ _ _ _ _ _ (proj1 HI) Hx Hl). }
  destruct (unlink_spec q l x e (fun e => clearFlag Scheduled (clearFlag Squashed e)) HI Hx Hl)
    as (q1 & q2 & e1 & -> & H2 & Hs & Ha & Hb & He1 & Hx2 & HI2).
  { intros e0. repeat split; by autorewrite with event_flags. }
  cbn [obind]. rewrite H2. cbn [obind]. rewrite (get_Some _ _ _ Hx2). cbn [obind].
  apply fields_inv in He1 as (Hk1 & Hf1 & Hq1).
  replace (Flags.isSet (flags (clearFlag Scheduled (clearFlag Squashed e1))) AutoDelete) with (Flags.isSet (flags e) AutoDelete)
    by (cbn; by rewrite !isSet_clear_other, Hf1).
  destruct (Flags.isSet (flags e) AutoDelete).
  - destruct (deleteEvent_spec q2 _ x _ HI2 Hx2) as (q3 & -> & Hs3 & Ha3 & He3 & HI3); [by autorewrite with event_flags|].
    exists q3. split; [done|]. split; [unfold SameQueue in *; intuition congruence|]. split.
    { intros y Hy. rewrite He3, lookup_delete_ne by done. by apply Hb. }
    split; [congruence|]. split; [done|]. rewrite He3. apply lookup_delete_eq.
  - exists q2. repeat (split; [done|]). eexists. split; [exact Hx2|]. unfold fields.
    change (keyOf (clearFlag Scheduled (clearFlag Squashed e1))) with (keyOf e1). cbn. by rewrite Hk1, Hf1, Hq1.
Qed.

Lemma reschedule_spec q l x e w always : Inv q l -> events q !! x = Some e ->
  if (w <? curTick q) || negb (always || scheduled e) || negb (initialized e) || foreign q
     || (scheduled e && negb (bool_decide (x ∈ locs l))) then reschedule x w always q = Exited
  else exists q' e', reschedule x w always q = Done q' /\ SameQueue q q' /\ SameBut x (events q) (events q') /\
    async_queue q' = async_queue q /\ events q' !! x = Some e' /\
    fields e' = (w, priority e, Flags.set (Flags.clear 16 (flags e) Squashed) Scheduled, Some (self q)) /\
    Inv q' (enqueue (w, priority e, x) (cancel x l)).
Proof.
  intros HI Hx. unfold reschedule. rewrite (get_Some _ _ _ Hx). cbn [obind]. fold (foreign q).
  destruct ((w <? curTick q) || negb (always || scheduled e) || negb (initialized e) || foreign q) eqn:E; [done|]. cbn [orb].
  assert (Hrem : scheduled e && negb (bool_decide (x ∈ locs l)) = true -> queueRemove x q = Exited).
  { intros [_ Hl]%andb_true_iff. rewrite negb_true_iff, bool_decide_eq_false in Hl.
    unfold queueRemove. by rewrite (remove_absent _ _ _ _ _ _ (proj1 HI) Hx Hl). }
  destruct (scheduled e && negb (bool_decide (x ∈ locs l))) eqn:El.
  { apply andb_true_iff in El as [-> _]. by rewrite Hrem. }
  assert (Hna : x ∉ async_queue q).
  { destruct (scheduled e) eqn:Es; [|by pose proof (Inv_idle q l x e HI Hx Es) as [_ ?]%not_elem_of_app].
    apply negb_false_iff, bool_decide_eq_true in El. destruct HI as [_ [(_ & Hd & _)%NoDup_app _]]. by apply Hd. }
  assert (Hun : exists q1 e1, (if scheduled e then queueRemove x q else Done q) = Done q1 /\ SameQueue q q1 /\
      async_queue q1 = async_queue q /\ SameBut x (events q) (events q1) /\ events q1 !! x = Some e1 /\ fields e1 = fields e /\
      Queued (events q1) (head q1) (cancel x l)).
  { destruct (scheduled e) eqn:Es.
    - apply negb_false_iff, bool_decide_eq_true in El. apply elem_of_locs in El as Hk. destruct Hk as (k & Hk).
      destruct (queueRemove_spec q l k x e (proj1 HI) Hk Hx) as (q1 & H1 & Hs1 & Ha1 & Hf1 & Hq1).
      { apply (proj2 HI) in Hx as [_ Ho]. apply Ho, elem_of_app. by left. }
      destruct (SameFields_lookup _ _ _ _ Hf1 Hx) as (e1 & Hx1 & He1). exists q1, e1. repeat (split; [done|]).
      split; [by apply SameBut_fields|done].
    - exists q, e. rewrite cancel_none; [by destruct HI|]. by pose proof (Inv_idle q l x e HI Hx Es) as [? _]%not_elem_of_app. }
  destruct Hun as (q1 & e1 & -> & Hs1 & Ha1 & Hb1 & Hx1 & He1 & Hq1). cbn [obind].
  destruct (requeue_spec q1 (cancel x l) x e1 w (fun f => Flags.set (Flags.clear 16 f Squashed) Scheduled) Hq1 Hx1)
    as (q2 & q3 & q' & e' & H2 & H3 & H4 & Hs' & Ha' & Hb' & Hx' & He' & Hq').
  { intros (k & [? _]%elem_of_cancel)%elem_of_locs. done. }
  rewrite H2. cbn [obind]. rewrite H3. cbn [obind]. apply fields_inv in He1 as (Hk1 & Hf1 & Hq1').
  assert (Hp : priority e1 = priority e) by exact (f_equal snd Hk1). pose proof Hs1 as (Hself & _). rewrite Hp, Hf1, Hself in He'.
  rewrite Hp in Hq'. assert (Hbut : SameBut x (events q) (events q')) by by eapply SameBut_trans.
  exists q', e'. split; [exact H4|]. split; [unfold SameQueue in *; intuition congruence|]. split; [done|].
  split; [congruence|]. split; [done|]. split; [done|]. split; [done|].
  destruct Hs' as (-> & _). rewrite Ha', Ha1, Hself.
  apply (Tracked_perm _ _ (x :: filter (fun y => y <> x) (locs l ++ async_queue q))).
  { rewrite (locs_perm _ _ (enqueue_perm _ (cancel x l))), filter_app, (filter_keeps _ (async_queue q)) by by intros y Hy ->.
    cbn [locs map snd app]. by rewrite <- cancel_locs. }
  apply (Tracked_readd (events q) _ _ _ _ e'); [apply HI|by apply SameBut_tracks|done| |by injection He'].
  injection He' as _ _ Hf _. unfold scheduled. rewrite Hf. apply (scheduled_set (clearFlag Squashed e)).
Qed.

Lemma squash_spec q l x e : Inv q l -> events q !! x = Some e ->
  Inv (withEvents (<[x := squash e]> (events q)) q) l.
Proof.
  intros [Hq Ht] Hx. split; cbn.
  - by apply (Queued_update _ _ _ _ e).
  - eapply Tracked_ext; [|exact Ht]. intros y. destruct (decide (x = y)) as [<-|Hne]; [|by rewrite lookup_insert_ne].
    rewrite lookup_insert_eq, Hx. cbn. unfold tracks. by autorewrite with event_flags.
Qed.

Lemma newEvent_spec p f e : newEvent p f = Done e ->
  nextBin e = None /\ nextInBin e = None /\ scheduled e = false /\ priority e = p.
Proof.
  unfold newEvent. destruct (Flags.noneSet f (bnot 16 PublicWrite)) eqn:E; [|done]. intros [= <-]. repeat split.
  unfold Flags.noneSet in E. apply Z.eqb_eq in E. unfold scheduled, Flags.isSet. cbn [flags].
  rewrite Z.land_lor_distr_l. change (Z.land Initialized Scheduled) with 0. rewrite Z.lor_0_l.
  change Scheduled with (Z.land (bnot 16 PublicWrite) Scheduled). by rewrite Z.land_assoc, E.
Qed.

Lemma create_spec q l x e : Inv q l -> events q !! x = None -> scheduled e = false ->
  Inv (withEvents (<[x := e]> (events q)) q) l.
Proof.
  intros [Hq (H1 & H2 & H3)] Hx Hs. assert (Hn : x ∉ locs l ++ async_queue q).
  { intros [e' ?]%H2. congruence. }
  split; cbn; [apply Queued_fresh; [|done]; by apply not_elem_of_app in Hn as [? _]|]. split; [done|]. split.
  - intros y Hy. rewrite lookup_insert_ne by by intros ->. by apply H2.
  - intros y e' [[<- <-]|[_ Hy]]%lookup_insert_Some; [|by apply H3]. by rewrite Hs.
Qed.

Lemma perform_Inv a q l q' : Inv q l -> perform a q = Done q' -> exists l', Inv q' l'.
Proof.
  intros HI. destruct a as [x p f|x w g|x|x w g|x]; cbn [perform].
  - destruct (events q !! x) eqn:Hx; [done|]. intros (e & He & [= <-])%obind_Done. exists l.
    apply newEvent_spec in He as (_ & _ & Hs & _). by apply create_spec.
  - destruct (events q !! x) as [e|] eqn:Hx; [|by unfold schedule, get; rewrite Hx].
    pose proof (schedule_spec q l x e w g HI Hx) as Hspec.
    destruct ((w <? curTick q) || scheduled e || negb (initialized e)); [congruence|].
    destruct Hspec as (q1 & e1 & -> & _ & _ & _ & _ & HI' & _). intros [= <-]. by eexists.
  - destruct (events q !! x) as [e|] eqn:Hx; [|by unfold deschedule, get; rewrite Hx].
    pose proof (deschedule_spec q l x e HI Hx) as Hspec.
    destruct (negb (scheduled e) || negb (initialized e) || foreign q || negb (bool_decide (x ∈ locs l))); [congruence|].
    destruct Hspec as (q1 & -> & _ & _ & _ & HI' & _). intros [= <-]. by eexists.
  - destruct (events q !! x) as [e|] eqn:Hx; [|by unfold reschedule, get; rewrite Hx].
    pose proof (reschedule_spec q l x e w g HI Hx) as Hspec.
    destruct ((w <? curTick q) || negb (g || scheduled e) || negb (initialized e) || foreign q || (scheduled e && negb (bool_decide (x ∈ locs l)))); [congruence|].
    destruct Hspec as (q1 & e1 & -> & _ & _ & _ & _ & _ & HI'). intros [= <-]. by eexists.
  - destruct (events q !! x) as [e|] eqn:Hx; [|by unfold queueUpdate, update, get; rewrite Hx].
    rewrite (queueUpdate_Some _ _ _ _ Hx). intros [= <-]. exists l. by apply squash_spec.
Qed.

Lemma performAll_Inv l q es q' : Inv q es -> performAll l q = Done q' -> exists es', Inv q' es'.
Proof.
  revert q es. induction l as [|a l IH]; intros q es HI; cbn [performAll]; [intros [= <-]; by exists es|].
  intros (q1 & H1 & H2)%obind_Done. destruct (perform_Inv _ _ _ _ HI H1) as (es1 & HI1). by eapply IH.
Qed.

(** ** Asynchronous insertions *)

Definition keyAt (h : heap) (x : loc) : key := match h !! x with Some e => keyOf e | None => (0, 0) end.
Definition drained (h : heap) (l : list entry) (xs : list loc) : list entry :=
  foldl (fun acc x => enqueue (keyAt h x, x) acc) l xs.

Lemma keyAt_same h h' x : SameFields h h' -> keyAt h' x = keyAt h x.
Proof.
  intros Hs. specialize (Hs x). unfold keyAt. destruct (h' !! x) as [e'|], (h !! x) as [e|]; try done.
  apply (inj Some) in Hs. by apply fields_inv in Hs as (Hk & _).
Qed.

Lemma drained_same h h' xs : SameFields h h' -> forall l, drained h' l xs = drained h l xs.
Proof.
  intros Hs. induction xs as [|x xs IH]; intros l; [done|]. unfold drained in *. cbn [foldl].
  by rewrite IH, (keyAt_same _ _ _ Hs).
Qed.

Lemma drained_perm h xs : forall l, locs (drained h l xs) ≡ₚ locs l ++ xs.
Proof.
  induction xs as [|x xs IH]; intros l; cbn [drained foldl]; [by rewrite app_nil_r|].
  unfold drained in IH. rewrite IH, (locs_perm _ _ (enqueue_perm _ l)). cbn. by rewrite Permutation_middle.
Qed.

Lemma drainAsync_spec xs : forall q l, Queued (events q) (head q) l -> NoDup (locs l ++ xs) ->
  (forall x, x ∈ xs -> is_Some (events q !! x)) ->
  exists q', drainAsync xs q = Done q' /\ SameQueue q q' /\ async_queue q' = [] /\
    SameFields (events q) (events q') /\ Queued (events q') (head q') (drained (events q) l xs).
Proof.
  induction xs as [|x xs IH]; intros q l Hq Hnd Hex; cbn [drainAsync].
  - eexists. repeat (split; [done|]). done.
  - destruct (Hex x) as [e Hx]; [by left|].
    assert (Hl : x ∉ locs l) by (apply NoDup_app in Hnd as (_ & Hd & _); intros Hin; by apply (Hd x Hin); left).
    destruct (queueInsert_spec q l x e Hq Hx Hl) as (q1 & -> & Hs1 & _ & Hf1 & Hq1). cbn [obind].
    destruct (IH q1 _ Hq1) as (q' & -> & Hs' & Ha' & Hf' & Hq').
    + rewrite (locs_perm _ _ (enqueue_perm _ l)). cbn. by rewrite Permutation_middle.
    + intros y Hy. destruct (Hex y) as [ey Hy']; [by right|]. destruct (SameFields_lookup _ _ _ _ Hf1 Hy') as (e' & ? & _). by exists e'.
    + exists q'. split; [done|]. split; [unfold SameQueue in *; intuition congruence|]. split; [done|].
      split; [by eapply SameFields_trans|]. cbn [drained foldl].
      change (foldl _ ?a xs) with (drained (events q) a xs).
      replace (keyAt (events q) x) with (keyOf e) by (unfold keyAt; by rewrite Hx).
      by rewrite <- (drained_same _ _ xs Hf1).
Qed.

Lemma handleAsyncInsertions_spec q l : Inv q l -> self q = curEventQueue q ->
  exists q', handleAsyncInsertions q = Done q' /\ SameQueue q q' /\ async_queue q' = [] /\
    SameFields (events q) (events q') /\ Inv q' (drained (events q) l (async_queue q)).
Proof.
  intros [Hq Ht] Hs. unfold handleAsyncInsertions. rewrite decide_True by done.
  destruct (drainAsync_spec (async_queue q) q l Hq (proj1 Ht)) as (q' & -> & Hs' & Ha' & Hf' & Hq').
  { intros x Hx. apply Ht, elem_of_app. by right. }
  exists q'. repeat (split; [done|]). rewrite Ha', app_nil_r. destruct Hs' as (-> & _).
  apply (Tracked_perm _ _ (locs l ++ async_queue q)); [by rewrite drained_perm|].
  eapply Tracked_ext; [|exact Ht]. by apply SameFields_tracks.
Qed.

(** ** Servicing *)

Lemma Queued_nil h p : Queued h p [] -> p = None.
Proof.
  intros (bs & Hb & _ & _ & Hi). destruct bs as [|[k b] bs]; [done|].
  destruct Hb as (top & rest & e & -> & _). by rewrite items_cons in Hi.
Qed.

Lemma Queued_head h p k x l : Queued h p ((k, x) :: l) -> p = Some x.
Proof.
  intros (bs & Hb & _ & _ & Hi). destruct bs as [|[k0 b] bs]; [done|].
  destruct Hb as (top & rest & e & -> & -> & _). rewrite items_cons in Hi. by injection Hi as _ ->.
Qed.

Lemma cancel_head k x l : NoDup (locs ((k, x) :: l)) -> cancel x ((k, x) :: l) = l.
Proof.
  intros [Hx _]%NoDup_cons. unfold cancel. rewrite filter_cons_False by by intros []. by apply cancel_none.
Qed.

(** Popping the head is removing the top of the first bin. *)
Lemma popTop_spec h k x l e : Queued h (Some x) ((k, x) :: l) -> h !! x = Some e ->
  exists h' p', SameFields h h' /\ Queued h' p' l /\
    match nextInBin e with
    | Some n => update (withNextBin (nextBin e)) n h = Done h' /\ p' = Some n
    | None => h' = h /\ p' = nextBin e
    end.
Proof.
  intros (bs & Hb & Hs & Hnd & Hi) Hx. destruct bs as [|[k0 b] bs]; [done|].
  pose proof Hb as (top & rest & e0 & -> & [= <-] & _). rewrite <- Hi in Hnd.
  destruct (remove_front h (Some x) k0 (x :: rest) bs x Hb Hs Hnd) with (top := x) as (h' & p' & H1 & H2 & H3 & _); [by left|done|].
  rewrite Hi in H3, Hnd. rewrite cancel_head in H3 by done. exists h', p'. split; [done|]. split; [done|].
  unfold removeItem in H1. rewrite (get_Some _ _ _ Hx) in H1. cbn [obind] in H1. rewrite decide_True in H1 by done.
  destruct (nextInBin e) as [n|]; [|by injection H1].
  apply obind_Done in H1 as (h1 & H1 & [= <- <-]). done.
Qed.

Lemma popHead_spec q k x l e : Inv q ((k, x) :: l) -> events q !! x = Some e ->
  exists q' e', popHead q = Done (x, q') /\ SameQueue q q' /\ async_queue q' = async_queue q /\
    SameBut x (events q) (events q') /\ events q' !! x = Some e' /\
    fields e' = (k, Flags.clear 16 (flags e) Scheduled, queue e) /\ Inv q' l.
Proof.
  intros [Hq Ht] Hx. pose proof (Queued_head _ _ _ _ _ Hq) as Hhd. unfold popHead. rewrite Hhd, (get_Some _ _ _ Hx). cbn [obind].
  rewrite (update_Some _ _ _ _ Hx). cbn [obind]. rewrite Hhd in Hq.
  destruct (Queued_lookup _ _ _ k x Hq) as (e0 & Hx0 & Hk); [by left|]. rewrite Hx in Hx0. injection Hx0 as <-.
  set (h1 := <[x := clearFlag Scheduled e]> (events q)).
  assert (Hx1 : h1 !! x = Some (clearFlag Scheduled e)) by apply lookup_insert_eq.
  assert (Hq1 : Queued h1 (Some x) ((k, x) :: l)) by by apply (Queued_update _ _ _ _ e).
  destruct (popTop_spec h1 k x l _ Hq1 Hx1) as (h' & p' & Hf & Hq' & Hm). cbn [clearFlag withFlags nextInBin nextBin] in Hm.
  destruct (SameFields_lookup _ _ _ _ Hf Hx1) as (e' & Hx' & He').
  assert (Hb : SameBut x (events q) h') by (eapply SameBut_trans; [apply SameBut_insert|by apply SameBut_fields]).
  exists (withList h' p' q), e'. split; [|repeat (split; [done|])].
  - destruct (nextInBin e) as [n|]; [destruct Hm as [-> ->]; done|by destruct Hm as [-> ->]].
  - split; [rewrite He'; unfold fields; by rewrite <- Hk|]. split; [done|]. cbn.
    apply (Tracked_del (events q) _ _ _ x); [done|by apply SameBut_tracks|]. rewrite Hx'. intros e2 [= <-].
    apply fields_inv in He' as (_ & Hfl & _). unfold scheduled. rewrite Hfl. apply (scheduled_clear e).
Qed.

Lemma finish_Inv x ran q l r q' : Inv q l -> finish x ran q = Done (r, q') ->
  Inv q' l /\ SameQueue q q' /\ async_queue q' = async_queue q /\ (forall y, y <> x -> events q' !! y = events q !! y) /\
  (events q' !! x = None \/ events q' !! x = events q !! x).
Proof.
  intros HI. unfold finish. intros (e & He & H)%obind_Done.
  assert (Hx : events q !! x = Some e) by (unfold get in He; destruct (events q !! x); congruence).
  destruct (ran && isExitEvent e).
  { destruct (Flags.isSet (flags e) AutoDelete && Flags.isSet (flags e) IsMainQueue); [done|]. injection H as _ <-. repeat (split; [done|]). by right. }
  destruct (Flags.isSet (flags e) AutoDelete && negb (scheduled e)) eqn:E; [|injection H as _ <-; repeat (split; [done|]); by right].
  apply andb_true_iff in E as [_ Es%negb_true_iff].
  destruct (deleteEvent_spec q l x e HI Hx Es) as (q1 & H1 & Hs & Ha & Hev & HI1). rewrite H1 in H. injection H as _ <-.
  repeat (split; [done|]). rewrite Hev. split; [intros y Hy; by apply lookup_delete_ne|left; apply lookup_delete_eq].
Qed.

Lemma serviceOne_Inv process q l r q' : Inv q l -> serviceOne process q = Done (r, q') -> exists l', Inv q' l'.
Proof.
  intros HI. unfold serviceOne. destruct l as [|[k x] l].
  { unfold popHead. by rewrite (Queued_nil _ _ (proj1 HI)). }
  destruct (Queued_lookup _ _ _ k x (proj1 HI)) as (e & Hx & _); [by left|].
  destruct (popHead_spec q k x l e HI Hx) as (q1 & e1 & -> & Hs1 & _ & _ & Hx1 & _ & HI1). cbn [obind].
  rewrite (get_Some _ _ _ Hx1). cbn [obind]. destruct (squashed e1); cbn [negb].
  - rewrite (queueUpdate_Some _ _ _ _ Hx1). cbn [obind]. intros Hf. exists l. eapply finish_Inv in Hf as [? _]; [done|].
    destruct HI1 as [Hq Ht]. split; cbn; [by apply (Queued_update _ _ _ _ e1)|]. eapply Tracked_ext; [|exact Ht].
    intros y. destruct (decide (x = y)) as [<-|Hne]; [|by rewrite lookup_insert_ne].
    rewrite lookup_insert_eq, Hx1. cbn. unfold tracks. by autorewrite with event_flags.
  - intros (q2 & H2 & Hf)%obind_Done. eapply performAll_Inv in H2 as (l2 & HI2); [|exact HI1].
    exists l2. by eapply finish_Inv in Hf as [? _].
Qed.
