(* ===== verification/EventQueueRun.v ===== *)
(** * Runs of the event queue

    The states the queue can reach, and what [serviceEvents] does: it returns,
    it processes events in the order of time, and every event that is due is
    processed.  It returns because the ticks left, the ranks of the entries due
    and the number of entries decrease lexicographically. *)

From stdpp Require Import gmap list sorting relations strings.
From Stdlib Require Import ZArith.
From S2P Require Import Prelude Bits EventQueue EventQueueLinks EventQueueCorrect.
Import EventQueue.

Open Scope Z_scope.

(** ** An order on ranks *)

(** The list [M'] is [M] with one rank replaced by any number of lower ones, in
    any order, and perhaps without some others. *)
Definition smaller (M' M : list nat) : Prop := exists a K0 K, M ≡ₚ a :: K0 /\ M' ⊆+ K ++ K0 /\ Forall (fun b => b < a)%nat K.

Lemma smaller_sub M M' : Acc smaller M -> M' ⊆+ M -> Acc smaller M'.
Proof.
  intros HM Hs. constructor. intros y (a & K0 & K & E & Hy & HK). apply (Acc_inv HM). rewrite E in Hs. apply submseteq_cons_l in Hs as (K1 & E1 & Hs).
  exists a, K1, K. split; [done|]. split; [|done]. etrans; [exact Hy|]. by apply submseteq_skips_l.
Qed.

Lemma smaller_cons a : forall M, Acc smaller M -> Acc smaller (a :: M).
Proof.
  induction (lt_wf a) as [a _ IHa]. intros M HM. induction HM as [M HM IHM]. constructor. intros y (a' & K0 & K & E & Hy & HK).
  destruct (decide (a' = a)) as [->|Hne].
  - apply Permutation_cons_inv in E. apply (smaller_sub (K ++ M)); [|by rewrite E].
    clear Hy. induction HK as [|b K Hb HK IHK]; [by constructor|]. cbn. by apply IHa.
  - assert (Ha : a' ∈ M) by (assert (Hin : a' ∈ a :: M) by (rewrite E; left); apply elem_of_cons in Hin as [?|?]; done).
    apply elem_of_Permutation in Ha as [M' EM]. assert (E0 : K0 ≡ₚ a :: M') by (apply (Permutation_cons_inv (a := a')); rewrite <- E, EM; constructor).
    eapply (smaller_sub (a :: (K ++ M'))); [|by rewrite Hy, E0, Permutation_middle]. apply IHM. by exists a', M', K.
Qed.

Lemma smaller_wf : well_founded smaller.
Proof.
  intros M. induction M as [|a M IH]; [|by apply smaller_cons]. constructor. intros y (a & K0 & K & E & _). by apply Permutation_nil_cons in E.
Qed.

(** ** Handlers *)

(** What a handler of [x] may ask for: events in the future, and at the current
    tick events of lower rank.  The rank may differ from tick to tick. *)
Definition permitted (rank : Z -> loc -> nat) (x : loc) (now : Z) (a : action) : Prop :=
  match a with
  | Schedule y w _ | Reschedule y w _ => now < w \/ w = now /\ (rank now y < rank now x)%nat
  | Create _ _ _ | Deschedule _ | Squash _ => True
  end.

(** The action takes [x] out of the queue or squashes it. *)
Definition touches (a : action) (x : loc) : Prop :=
  match a with
  | Deschedule y | Reschedule y _ _ | Squash y => y = x
  | _ => False
  end.

(** No event carries the flag of main-queue exit events, which is not among
    the flags an event can be given. *)
Definition mainless (h : heap) : Prop := forall x e, h !! x = Some e -> Flags.isSet (flags e) IsMainQueue = false.

(** A state of a simulation with one queue, in which no event is in the past. *)
Record Ready (q : t) (l : list entry) : Prop := {
  r_inv : Inv q l;
  r_serial : inParallelMode q = false;
  r_async : async_queue q = [];
  r_main : mainless (events q);
  r_future : forall z, z ∈ l -> curTick q <= z.1.1 }.

(** What a handler owes the queue: called for an event that has left the queue,
    it breaks none of the assertions; and the events it asks for at the current
    tick have a lower rank, so that no chain of them goes on for ever. *)
Class Handler (process : loc -> t -> list action) (rank : Z -> loc -> nat) : Prop := {
  handler_runs : forall x q l, Ready q l -> is_Some (events q !! x) -> x ∉ locs l ->
    exists q' r q'', performAll (process x q) q = Done q' /\ finish x true q' = Done (r, q'');
  handler_permitted : forall x q a, a ∈ process x q -> permitted rank x (curTick q) a }.

(** The entry waits and its event is not squashed. *)
Definition pending (q : t) (l : list entry) (k : key) (x : loc) : Prop :=
  (k, x) ∈ l /\ exists e, events q !! x = Some e /\ squashed e = false.

(** The ranks of the entries due by [c]. *)
Definition due (rank : Z -> loc -> nat) (c : Z) (l : list entry) : list nat := (fun z => rank c z.2) <$> filter (fun z => z.1.1 <= c) l.

Lemma due_perm rank c l l' : l ≡ₚ l' -> due rank c l ≡ₚ due rank c l'.
Proof. intros E. unfold due. by rewrite E. Qed.
Lemma due_cons rank c z l : due rank c (z :: l) = if decide (z.1.1 <= c) then rank c z.2 :: due rank c l else due rank c l.
Proof. unfold due. rewrite filter_cons. by case_decide. Qed.
Lemma due_cancel rank c x l : due rank c (cancel x l) ⊆+ due rank c l.
Proof.
  induction l as [|z l IH]; [done|]. unfold cancel in *. rewrite filter_cons, !due_cons.
  repeat case_decide; rewrite ?due_cons, ?decide_True, ?decide_False by done; [by constructor|done|by constructor|done].
Qed.

Lemma due_enqueue rank x c w p y l : c < w \/ w = c /\ (rank c y < rank c x)%nat ->
  exists K, Forall (fun b => b < rank c x)%nat K /\ due rank c (enqueue (w, p, y) l) ⊆+ K ++ due rank c l.
Proof.
  intros Hw. pose proof (due_perm rank c _ _ (enqueue_perm (w, p, y) l)) as E. rewrite due_cons in E. cbn in E.
  case_decide; [|by exists []; rewrite E]. destruct Hw as [?|[-> Hr]]; [lia|]. exists [rank c y]. rewrite E. by repeat constructor.
Qed.

Lemma SameBut_squashed x (h h' : heap) y e : SameBut x h h' -> y <> x -> h !! y = Some e -> squashed e = false ->
  exists e', h' !! y = Some e' /\ squashed e' = false.
Proof.
  intros Hb Hne Hy Hs. specialize (Hb y Hne). rewrite Hy in Hb. apply fmap_Some in Hb as (e' & Hy' & E).
  exists e'. split; [done|]. symmetry in E. apply fields_inv in E as (_ & Hf & _). unfold squashed in *. by rewrite Hf.
Qed.

Lemma main_set f m : Z.land m IsMainQueue = 0 -> Flags.isSet (Flags.set f m) IsMainQueue = Flags.isSet f IsMainQueue.
Proof. intros E. by rewrite isSet_set, E, Z.lor_0_r. Qed.

Lemma newEvent_mainless p f e : newEvent p f = Done e -> Flags.isSet (flags e) IsMainQueue = false.
Proof.
  unfold newEvent. destruct (Flags.noneSet f (bnot 16 PublicWrite)) eqn:E; [|done]. intros [= <-].
  unfold Flags.noneSet in E. apply Z.eqb_eq in E. unfold Flags.isSet. cbn [flags].
  rewrite Z.land_lor_distr_l. change (Z.land Initialized IsMainQueue) with 0. rewrite Z.lor_0_l.
  change IsMainQueue with (Z.land (bnot 16 PublicWrite) IsMainQueue). by rewrite Z.land_assoc, E.
Qed.

Lemma mainless_but x (h h' : heap) : SameBut x h h' -> mainless h ->
  (forall e', h' !! x = Some e' -> Flags.isSet (flags e') IsMainQueue = false) -> mainless h'.
Proof.
  intros Hb Hm Hx y e' Hy. destruct (decide (y = x)) as [->|Hne]; [by apply Hx|]. specialize (Hb y Hne).
  rewrite Hy in Hb. symmetry in Hb. apply fmap_Some in Hb as (e & Hy' & E). apply fields_inv in E as (_ & -> & _). by eapply Hm.
Qed.

(** What actions of the handler of [x] achieve, the events [x0s] untouched. *)
Record Progress (rank : Z -> loc -> nat) (x : loc) (x0s : loc -> Prop) (q : t) (l : list entry) (q' : t) (l' : list entry) : Prop := {
  p_ready : Ready q' l';
  p_same : SameQueue q q';
  p_due : exists K, Forall (fun b => b < rank (curTick q) x)%nat K /\ due rank (curTick q) l' ⊆+ K ++ due rank (curTick q) l;
  p_pending : forall k y, x0s y -> pending q l k y -> pending q' l' k y }.

Lemma Progress_intro rank x x0s q l q' l' y : Ready q l -> SameQueue q q' -> Inv q' l' -> async_queue q' = async_queue q ->
  SameBut y (events q) (events q') -> (forall k, x0s y -> (k, y) ∉ l) ->
  (forall z, z ∈ l' -> z ∈ l \/ curTick q <= z.1.1) -> (forall z, z ∈ l -> z.2 <> y -> z ∈ l') ->
  (exists K, Forall (fun b => b < rank (curTick q) x)%nat K /\ due rank (curTick q) l' ⊆+ K ++ due rank (curTick q) l) ->
  (forall e', events q' !! y = Some e' -> Flags.isSet (flags e') IsMainQueue = false) -> Progress rank x x0s q l q' l'.
Proof.
  intros [HI Hp Ha Hmain Hf] Hs HI' Ha' Hb Hx0 Hin Hkeep Hdue Hm. pose proof Hs as (_ & Hc & Hpar & _). split; [|done..|].
  - split; [done|congruence|congruence|by eapply mainless_but|]. intros z [Hz|Hz]%Hin; rewrite Hc; [by apply Hf|done].
  - intros k z Hz (Hk & e & He & Hsq). assert (Hne : z <> y) by by intros ->; apply (Hx0 k).
    split; [by apply Hkeep|]. by eapply SameBut_squashed.
Qed.

Lemma perform_create rank x x0s q l y p f q' : Ready q l -> perform (Create y p f) q = Done q' -> Progress rank x x0s q l q' l.
Proof.
  intros HR. pose proof HR as [HI Hser Has Hmain Hfu]. cbn [perform]. destruct (events q !! y) as [?|] eqn:Hy; [done|].
  intros (e & He & [= <-])%obind_Done. pose proof (newEvent_spec p f e He) as Hn. apply (Progress_intro _ _ _ _ _ _ _ y); try done.
  - apply create_spec; [done|done|apply Hn].
  - apply SameBut_insert.
  - intros k _ Hk. destruct (Queued_lookup _ _ _ k y (proj1 HI) Hk) as (e0 & He0 & _). congruence.
  - by left.
  - by exists [].
  - cbn. rewrite lookup_insert_eq. intros e' [= <-]. by eapply newEvent_mainless.
Qed.

Lemma perform_progress rank x x0s a q l q' : Ready q l -> permitted rank x (curTick q) a -> (forall y, x0s y -> ~ touches a y) ->
  perform a q = Done q' -> exists l', Progress rank x x0s q l q' l'.
Proof.
  intros HR Hl Ht. pose proof HR as [HI Hser Has Hmain Hfu].
  destruct a as [y p f|y w g|y|y w g|y]; [intros Hd; exists l; by eapply perform_create|..]; cbn [perform permitted touches] in *;
    (destruct (events q !! y) as [e|] eqn:Hy; [|by unfold schedule, deschedule, reschedule, queueUpdate, update, get; rewrite Hy]).
  - pose proof (schedule_spec q l y e w g HI Hy) as Hspec.
    destruct ((w <? curTick q) || scheduled e || negb (initialized e)) eqn:E; [congruence|].
    apply orb_false_iff in E as [[_ Hs]%orb_false_iff _].
    pose proof (Inv_idle q l y e HI Hy Hs) as [Hnx _]%not_elem_of_app.
    destruct Hspec as (q1 & e1 & -> & Hsame & Hb & Hy1 & He1 & HI' & Ha'). intros [= <-].
    pose proof (f_equal (fun z => z.1.2) He1) as Hfl. cbn in Hfl.
    assert (Hv : viaAsync q g = false) by (unfold viaAsync; by rewrite Hser). rewrite Hv, app_nil_r in *.
    exists (enqueue (w, priority e, y) l). eapply Progress_intro; try done.
    + intros k _ Hk. apply Hnx, elem_of_locs. by exists k.
    + intros z. rewrite (enqueue_perm _ l), elem_of_cons. intros [->|?]; [right; cbn; lia|by left].
    + intros z Hz _. rewrite (enqueue_perm _ l). by right.
    + by apply due_enqueue.
    + rewrite Hy1. intros e' [= <-]. rewrite Hfl, main_set by done. by eapply Hmain.
  - pose proof (deschedule_spec q l y e HI Hy) as Hspec.
    destruct (negb (scheduled e) || negb (initialized e) || foreign q || negb (bool_decide (y ∈ locs l))); [congruence|].
    destruct Hspec as (q1 & -> & Hsame & Hb & Ha' & HI' & He1). intros [= <-].
    exists (cancel y l). eapply Progress_intro; try done.
    + intros k Hk0. by destruct (Ht y Hk0).
    + intros z [_ ?]%elem_of_cancel. by left.
    + intros z Hz Hne. by apply elem_of_cancel.
    + exists []. split; [done|]. apply due_cancel.
    + intros e' He'. destruct (Flags.isSet (flags e) AutoDelete); [congruence|]. destruct He1 as (e2 & He2 & Hfl).
      rewrite He' in He2. injection He2 as <-. apply (f_equal (fun z => z.1.2)) in Hfl. cbn in Hfl.
      rewrite Hfl, !isSet_clear_other by done. by eapply Hmain.
  - pose proof (reschedule_spec q l y e w g HI Hy) as Hspec.
    destruct ((w <? curTick q) || negb (g || scheduled e) || negb (initialized e) || foreign q ||
      (scheduled e && negb (bool_decide (y ∈ locs l)))); [congruence|].
    destruct Hspec as (q1 & e1 & -> & Hsame & Hb & Ha' & Hy1 & He1 & HI'). intros [= <-].
    pose proof (f_equal (fun z => z.1.2) He1) as Hfl. cbn in Hfl.
    exists (enqueue (w, priority e, y) (cancel y l)). eapply Progress_intro; try done.
    + intros k Hk0. by destruct (Ht y Hk0).
    + intros z. rewrite (enqueue_perm _ (cancel y l)), elem_of_cons. intros [->|[_ ?]%elem_of_cancel]; [right; cbn; lia|by left].
    + intros z Hz Hne. rewrite (enqueue_perm _ (cancel y l)). right. by apply elem_of_cancel.
    + destruct (due_enqueue rank x (curTick q) w (priority e) y (cancel y l) Hl) as (K & HK & Hd). exists K. split; [done|].
      etrans; [exact Hd|]. by apply submseteq_skips_l, due_cancel.
    + rewrite Hy1. intros e' [= <-]. rewrite Hfl, main_set, isSet_clear_other by done. by eapply Hmain.
  - rewrite (queueUpdate_Some _ _ _ _ Hy). intros [= <-]. exists l. apply (Progress_intro _ _ _ _ _ _ _ y); try done.
    + by apply squash_spec.
    + apply SameBut_insert.
    + intros k Hk0. by destruct (Ht y Hk0).
    + by left.
    + by exists [].
    + cbn. rewrite lookup_insert_eq. intros e' [= <-]. cbn. rewrite main_set by done. by eapply Hmain.
Qed.

Lemma performAll_progress rank x x0s acts : forall q l q', Ready q l -> (forall a, a ∈ acts -> permitted rank x (curTick q) a) ->
  (forall a y, a ∈ acts -> x0s y -> ~ touches a y) -> performAll acts q = Done q' -> exists l', Progress rank x x0s q l q' l'.
Proof.
  induction acts as [|a acts IH]; intros q l q' HR Hl Ht; cbn [performAll].
  - intros [= <-]. exists l. split; [done..| |done]. by exists [].
  - intros (q1 & H1 & H2)%obind_Done.
    destruct (perform_progress rank x x0s a q l q1) as (l1 & P1); [done|apply Hl; by left|intros y; apply Ht; by left|done|].
    pose proof (p_same _ _ _ _ _ _ _ P1) as (Hs & Hc & Hr).
    destruct (IH q1 l1 q') as (l' & P2); [apply P1| | |done|].
    + intros a' Ha'. rewrite Hc. apply Hl. by right.
    + intros a' y Ha'. apply Ht. by right.
    + exists l'. destruct P1 as [_ S1 (K1 & HK1 & D1) B1], P2 as [R2 S2 (K2 & HK2 & D2) B2]. rewrite Hc in HK2, D2. split; [done| | |eauto].
      * unfold SameQueue in *. intuition congruence.
      * exists (K2 ++ K1). split; [by apply Forall_app|]. etrans; [exact D2|]. rewrite <- app_assoc. by apply submseteq_skips_l.
Qed.

(** ** One event *)

Lemma pop_ready q k x l : Ready q ((k, x) :: l) ->
  exists q1 e1, popHead q = Done (x, q1) /\ SameQueue q q1 /\ Ready q1 l /\ events q1 !! x = Some e1 /\ when e1 = k.1 /\
    (forall e, events q !! x = Some e -> squashed e1 = squashed e) /\ (forall z, z ∈ l -> k.1 <= z.1.1) /\ x ∉ locs l /\
    (forall k0 y, y <> x -> pending q ((k, x) :: l) k0 y -> pending q1 l k0 y).
Proof.
  intros [HI Hser Has Hmain Hfu]. destruct (Queued_lookup _ _ _ k x (proj1 HI)) as (e & Hx & _); [by left|].
  destruct (popHead_spec q k x l e HI Hx) as (q1 & e1 & Hpop & Hs & Ha & Hb & Hx1 & He1 & HI1).
  exists q1, e1. pose proof (f_equal (fun z => z.1.1) He1) as Hk. pose proof (f_equal (fun z => z.1.2) He1) as Hf. cbn in Hk, Hf.
  split; [done|]. split; [done|]. pose proof Hs as (_ & Hc & Hpar & _). split.
  { split; [done|congruence|congruence| |].
    - eapply mainless_but; [done|done|]. rewrite Hx1. intros e' [= <-]. rewrite Hf, isSet_clear_other by done. by eapply Hmain.
    - intros z Hz. rewrite Hc. apply Hfu. by right. }
  split; [done|]. split; [by rewrite <- Hk|]. split.
  { rewrite Hx. intros e' [= <-]. unfold squashed. rewrite Hf. apply (squashed_unschedule e). }
  split; [|split].
  - intros z Hz. pose proof (Queued_ordered _ _ _ (proj1 HI)) as Ho. apply StronglySorted_cons in Ho as [Ho _].
    rewrite Forall_forall in Ho. specialize (Ho z Hz). apply klt_false in Ho. simpl in Ho. lia.
  - destruct HI as [(bs & _ & _ & Hnd & _) _]. by apply NoDup_cons in Hnd as [? _].
  - intros k0 y Hne ([[= -> ->]|Hy]%elem_of_cons & e' & Hy' & Hsq); [done|]. split; [done|]. by eapply SameBut_squashed.
Qed.

Lemma finish_ready x ran q l r q' : Ready q l -> finish x ran q = Done (r, q') ->
  Ready q' l /\ SameQueue q q' /\ (forall k0 y, y <> x -> pending q l k0 y -> pending q' l k0 y).
Proof.
  intros [HI Hser Has Hmain Hfu] Hf. assert (Hx : is_Some (events q !! x)).
  { unfold finish in Hf. apply obind_Done in Hf as (e & He & _). unfold get in He. by destruct (events q !! x). }
  destruct (finish_Inv x ran q l r q' HI Hf) as (HI' & Hs & Ha & Hev & Hevx). pose proof Hs as (_ & Hc & Hpar & _).
  split; [|split; [done|]].
  - split; [done|congruence|congruence| |by rewrite Hc].
    intros y e Hy. destruct (decide (y = x)) as [->|Hne]; [|rewrite Hev in Hy by done; by eapply Hmain].
    destruct Hevx as [E|E]; rewrite E in Hy; [done|by eapply Hmain].
  - intros k0 y Hne (Hy & e & He & Hsq). split; [done|]. exists e. by rewrite Hev.
Qed.

Lemma finish_squashed x q l e : Inv q l -> events q !! x = Some e -> exists r q', finish x false q = Done (r, q').
Proof.
  intros HI Hx. unfold finish. rewrite (get_Some _ _ _ Hx). cbn [obind andb].
  destruct (Flags.isSet (flags e) AutoDelete && negb (scheduled e)) eqn:E; [|by eexists _, _].
  apply andb_true_iff in E as [_ Es%negb_true_iff].
  destruct (deleteEvent_spec q l x e HI Hx Es) as (q1 & -> & _). by eexists _, _.
Qed.

Lemma Inv_fields q l (h : heap) : (forall y, shape <$> h !! y = shape <$> events q !! y) ->
  (forall y, tracks <$> h !! y = tracks <$> events q !! y) -> Inv q l -> Inv (withEvents h q) l.
Proof.
  intros Hs Ht [Hq Htr]. split; cbn; [|by eapply Tracked_ext]. eapply Queued_frame; [|done]. intros y _. apply Hs.
Qed.

Section Service.
Context (process : loc -> t -> list action) (rank : Z -> loc -> nat) `{!Handler process rank}.
(** The events no handler deschedules, reschedules or squashes. *)
Variable kept : loc -> Prop.
Hypothesis kept_ok : forall x q a y, a ∈ process x q -> kept y -> ~ touches a y.

(** What servicing the first entry, due by [T], achieves. *)
Record Serviced (T : Z) (q : t) (l : list entry) (q' : t) (l' : list entry) : Prop := {
  s_ready : Ready q' l';
  s_time : curTick q <= curTick q' <= T;
  s_measure : curTick q < curTick q' \/ curTick q' = curTick q /\
    (smaller (due rank (curTick q) l') (due rank (curTick q) l) \/
     due rank (curTick q) l' = due rank (curTick q) l /\ (length l' < length l)%nat);
  s_trace : exists tr, processed q' = processed q ++ tr /\ Forall (fun z => z.1 = curTick q') tr /\ (length tr <= 1)%nat;
  s_pending : forall k0 x0, kept x0 -> pending q l k0 x0 -> (k0.1, x0) ∈ processed q' \/ pending q' l' k0 x0 }.

Lemma service_squashed T q k x l q1 e1 : Ready q ((k, x) :: l) -> k.1 <= T -> popHead q = Done (x, q1) ->
  SameQueue q q1 -> Ready q1 l -> events q1 !! x = Some e1 -> squashed e1 = true ->
  (forall e, events q !! x = Some e -> squashed e1 = squashed e) ->
  (forall k0 y, y <> x -> pending q ((k, x) :: l) k0 y -> pending q1 l k0 y) ->
  exists r q', serviceOne process q = Done (r, q') /\ Serviced T q ((k, x) :: l) q' l.
Proof.
  intros HR Hk Hpop Hs HR1 Hx1 Hsq Hsqe Hp. unfold serviceOne. rewrite Hpop. cbn [obind].
  rewrite (get_Some _ _ _ Hx1). cbn [obind]. rewrite Hsq. cbn [negb]. rewrite (queueUpdate_Some _ _ _ _ Hx1). cbn [obind].
  set (q2 := withEvents _ q1).
  assert (HR2 : Ready q2 l).
  { destruct HR1 as [HI Hser Has Hmain Hfu]. split; [|done|done| |done].
    - apply Inv_fields; [..|done]; intros y; (destruct (decide (x = y)) as [<-|Hne]; [|by rewrite lookup_insert_ne]);
        rewrite lookup_insert_eq, Hx1; cbn; [done|]. unfold tracks. by autorewrite with event_flags.
    - eapply (mainless_but x); [apply SameBut_insert|exact Hmain|]. cbn. rewrite lookup_insert_eq. intros e' [= <-]. cbn.
      rewrite isSet_clear_other by done. by eapply Hmain. }
  destruct (finish_squashed x q2 l (clearFlag Squashed e1) (r_inv _ _ HR2)) as (r & q' & Hf); [apply lookup_insert_eq|].
  destruct (finish_ready x false q2 l r q' HR2 Hf) as (HR' & Hs' & Hp'). rewrite Hf. exists r, q'. split; [done|].
  assert (Hc : curTick q' = curTick q) by (destruct Hs' as (_ & -> & _), Hs as (_ & Hc & _); exact Hc).
  assert (Htr : processed q' = processed q) by (destruct Hs' as (_ & _ & _ & _ & ->), Hs as (_ & _ & _ & _ & Hc'); exact Hc').
  pose proof (r_future _ _ HR (k, x) ltac:(by left)) as Hcur. cbn in Hcur. split; [done|lia| | |].
  - right. split; [done|]. rewrite due_cons. case_decide; [left|right; split; [done|simpl; lia]].
    by exists (rank (curTick q) x), (due rank (curTick q) l), [].
  - exists []. rewrite app_nil_r. split; [done|]. split; [constructor|simpl; lia].
  - intros k0 y Hy Hpend. right. assert (Hne : y <> x).
    { intros ->. destruct Hpend as (_ & e & He & Hns). by rewrite <- (Hsqe e He), Hsq in Hns. }
    apply Hp'; [done|]. destruct (Hp k0 y Hne Hpend) as (Hin & e & He & Hns). split; [done|]. exists e.
    cbn. by rewrite lookup_insert_ne.
Qed.

Lemma service_run T q k x l q1 e1 : Ready q ((k, x) :: l) -> k.1 <= T -> popHead q = Done (x, q1) ->
  SameQueue q q1 -> Ready q1 l -> events q1 !! x = Some e1 -> when e1 = k.1 -> squashed e1 = false -> x ∉ locs l ->
  (forall z, z ∈ l -> k.1 <= z.1.1) ->
  (forall k0 y, y <> x -> pending q ((k, x) :: l) k0 y -> pending q1 l k0 y) ->
  exists r q' l', serviceOne process q = Done (r, q') /\ Serviced T q ((k, x) :: l) q' l'.
Proof.
  intros HR Hk Hpop Hs HR1 Hx1 Hw Hsq Hnx Hmin Hp. unfold serviceOne. rewrite Hpop. cbn [obind].
  rewrite (get_Some _ _ _ Hx1). cbn [obind]. rewrite Hsq, Hw. cbn [negb].
  set (q2 := called x (setCurTick k.1 q1)).
  assert (HR2 : Ready q2 l) by (destruct HR1 as [HI Hser Has Hmain Hfu]; by split).
  destruct (handler_runs x q2 l HR2) as (q3 & r & q' & H3 & Hf); [by exists e1|done|].
  destruct (performAll_progress rank x kept (process x q2) q2 l q3) as (l' & P);
    [done|apply handler_permitted|intros a y Ha; by apply (kept_ok x q2)|done|].
  rewrite H3. cbn [obind]. rewrite Hf.
  destruct (finish_ready x true q3 l' r q' (p_ready _ _ _ _ _ _ _ P) Hf) as (HR' & Hs' & Hp'). exists r, q', l'. split; [done|].
  pose proof (p_same _ _ _ _ _ _ _ P) as Hs3.
  assert (Hc : curTick q' = k.1) by (destruct Hs' as (_ & -> & _), Hs3 as (_ & -> & _); done).
  assert (Htr : processed q' = processed q ++ [(k.1, x)]).
  { destruct Hs' as (_ & _ & _ & _ & ->), Hs3 as (_ & _ & _ & _ & ->), Hs as (_ & _ & _ & _ & Hpr). cbn. by rewrite Hpr. }
  pose proof (r_future _ _ HR (k, x) ltac:(by left)) as Hcur. cbn in Hcur. split; [done|lia| | |].
  - rewrite Hc. destruct (decide (k.1 = curTick q)) as [E|Hne]; [|left; lia]. right. split; [done|]. left.
    pose proof (p_due _ _ _ _ _ _ _ P) as (K & HK & Hd). change (curTick q2) with k.1 in *. rewrite due_cons, <- E, decide_True by (cbn; lia).
    by exists (rank k.1 x), (due rank k.1 l), K.
  - exists [(k.1, x)]. split; [done|]. split; [by repeat constructor|done].
  - intros k0 y Hy Hpend. destruct (decide (y = x)) as [->|Hne].
    + left. destruct Hpend as ([[= ->]|Hin]%elem_of_cons & _); [rewrite Htr; set_solver|].
      destruct Hnx. apply elem_of_locs. by exists k0.
    + right. apply Hp'; [done|]. apply (p_pending _ _ _ _ _ _ _ P); [done|]. by apply Hp.
Qed.

Lemma service_step T q k x l : Ready q ((k, x) :: l) -> k.1 <= T ->
  exists r q' l', serviceOne process q = Done (r, q') /\ Serviced T q ((k, x) :: l) q' l'.
Proof.
  intros HR Hk. destruct (pop_ready q k x l HR) as (q1 & e1 & Hpop & Hs & HR1 & Hx1 & Hw & Hsqe & Hmin & Hnx & Hp).
  destruct (squashed e1) eqn:Hsq; [|by eapply service_run].
  destruct (service_squashed T q k x l q1 e1) as (r & q' & H1 & H2); try done; [by rewrite Hsq|]. by exists r, q', l.
Qed.

(** ** All events due *)

(** What [serviceEvents(T)] leaves. *)
Record Settled (T : Z) (q : t) (l : list entry) (q' : t) : Prop := {
  e_time : curTick q' = T;
  e_rest : exists l', Inv q' l' /\ forall z, z ∈ l' -> T < z.1.1;
  e_trace : exists tr, processed q' = processed q ++ tr /\ StronglySorted Z.le (map fst tr) /\
    Forall (fun z => curTick q <= z.1 <= T) tr;
  e_done : forall k x, kept x -> pending q l k x -> k.1 <= T -> (k.1, x) ∈ processed q' }.

Lemma Settled_now T q l : Inv q l -> (forall z, z ∈ l -> T < z.1.1) -> Settled T q l (setCurTick T q).
Proof.
  intros HI Hl. split; [done|by exists l| |].
  - exists []. rewrite app_nil_r. split; [done|]. split; constructor.
  - intros k x _ (Hk & _) Hle. specialize (Hl _ Hk). cbn in Hl. lia.
Qed.

Lemma Settled_step T q l q1 l1 q' : Serviced T q l q1 l1 -> Settled T q1 l1 q' -> Settled T q l q'.
Proof.
  intros [HR Ht _ (tr1 & Htr1 & Hf1 & Hlen) Hp] [H1 H2 (tr2 & Htr2 & Hs2 & Hf2) H4]. split; [done|done| |].
  - exists (tr1 ++ tr2). rewrite Htr2, Htr1, app_assoc. split; [done|]. rewrite Forall_forall in *. split.
    + rewrite map_app. apply StronglySorted_app_2; [| |done].
      * intros a b (z1 & -> & Hz1)%elem_of_map (z2 & -> & Hz2)%elem_of_map. rewrite (Hf1 _ Hz1). by apply Hf2.
      * destruct tr1 as [|? [|? ?]]; [constructor|repeat constructor|simpl in Hlen; lia].
    + intros z [Hz|Hz]%elem_of_app; [rewrite (Hf1 _ Hz); lia|]. specialize (Hf2 _ Hz). lia.
  - intros k x Hx Hpend Hk. destruct (Hp k x Hx Hpend) as [Hin|Hpend1]; [|by apply H4].
    rewrite Htr2. apply elem_of_app. by left.
Qed.

Lemma serviceEvents_stop T fuel q l : Ready q l -> (forall z, z ∈ l -> T < z.1.1) ->
  serviceEvents process fuel T q = Done (setCurTick T q).
Proof.
  intros HR Hl. pose proof (proj1 (r_inv _ _ HR)) as Hq.
  destruct fuel; cbn [serviceEvents]; unfold empty, nextTick; (destruct l as [|[k x] l]; [by rewrite (Queued_nil _ _ Hq)|]);
    rewrite (Queued_head _ _ _ _ _ Hq); destruct (Queued_lookup _ _ _ k x Hq) as (e & He & <-); (try by left);
    rewrite (get_Some _ _ _ He); cbn [obind]; specialize (Hl (keyOf e, x) ltac:(by left)); cbn in Hl; by zbool.
Qed.

(** The first entry decides: it is later than [T], and so are all others, or it
    is serviced. *)
Lemma serviceEvents_turn T q l : Ready q l -> curTick q <= T ->
  (forall z, z ∈ l -> T < z.1.1) \/
  exists q1 l1, Serviced T q l q1 l1 /\ forall fuel, serviceEvents process (S fuel) T q = serviceEvents process fuel T q1.
Proof.
  intros HR Hc. destruct l as [|[k x] l]; [left; by intros z ?%not_elem_of_nil|]. pose proof (proj1 (r_inv _ _ HR)) as Hq.
  destruct (decide (k.1 <= T)) as [Hk|Hk].
  - right. destruct (service_step T q k x l HR Hk) as (r & q1 & l1 & H1 & HS). exists q1, l1. split; [done|]. intros fuel.
    cbn [serviceEvents]. unfold empty, nextTick. rewrite (Queued_head _ _ _ _ _ Hq).
    destruct (Queued_lookup _ _ _ k x Hq) as (e & He & Hke); [by left|]. rewrite (get_Some _ _ _ He). cbn [obind].
    assert (Hwe : when e = k.1) by by rewrite <- Hke. by rewrite Hwe, (proj2 (Z.ltb_ge T k.1)), H1 by lia.
  - left. intros z [->|Hz]%elem_of_cons; [cbn; lia|]. pose proof (Queued_ordered _ _ _ Hq) as Ho.
    apply StronglySorted_cons in Ho as [Ho _]. rewrite Forall_forall in Ho. specialize (Ho z Hz). apply klt_false in Ho. simpl in Ho. lia.
Qed.

(** By induction on the ticks left, on the ranks of the entries due and on the
    number of entries. *)
Lemma serviceEvents_settles T : forall q l, Ready q l -> curTick q <= T ->
  exists n q', (forall fuel, (n <= fuel)%nat -> serviceEvents process fuel T q = Done q') /\ Settled T q l q'.
Proof.
  intros q l. remember (Z.to_nat (T - curTick q)) as d eqn:Ed. revert q l Ed. induction (lt_wf d) as [d _ IHd]. intros q l Ed.
  remember (due rank (curTick q) l) as M eqn:EM. revert q l Ed EM. induction (smaller_wf M) as [M _ IHM]. intros q l Ed EM.
  remember (length l) as n eqn:En. revert q l Ed EM En. induction (lt_wf n) as [n _ IHn]. intros q l Ed EM En HR Hc.
  destruct (serviceEvents_turn T q l HR Hc) as [Hall|(q1 & l1 & HS & Hturn)].
  { exists 0%nat, (setCurTick T q). split; [intros fuel _; by eapply serviceEvents_stop|apply Settled_now; [apply HR|done]]. }
  pose proof (s_ready _ _ _ _ _ HS) as HR1. pose proof (s_time _ _ _ _ _ HS) as Ht.
  assert (IH : exists n' q', (forall fuel, (n' <= fuel)%nat -> serviceEvents process fuel T q1 = Done q') /\ Settled T q1 l1 q').
  { destruct (s_measure _ _ _ _ _ HS) as [Hlt|(Hq1 & [Hsm|[Hdue Hlen]])].
    - apply (IHd (Z.to_nat (T - curTick q1))); [lia|done|done|lia].
    - apply (IHM (due rank (curTick q1) l1)); [|congruence|done|done|lia]. by rewrite EM, Hq1.
    - apply (IHn (length l1)); [lia|congruence|congruence|done|done|lia]. }
  destruct IH as (n' & q' & Hrun & HS'). exists (S n'), q'. split; [|by eapply Settled_step].
  intros [|fuel] Hf; [lia|]. rewrite Hturn. apply Hrun. lia.
Qed.
End Service.

(** ** Reachable states *)

Inductive step (process : loc -> t -> list action) : t -> t -> Prop :=
| step_perform a q q' : perform a q = Done q' -> step process q q'
| step_service q r q' : serviceOne process q = Done (r, q') -> step process q q'
| step_async q q' : handleAsyncInsertions q = Done q' -> step process q q'
| step_tick q w : step process q (setCurTick w q).

Lemma step_Inv process q q' l : Inv q l -> step process q q' -> exists l', Inv q' l'.
Proof.
  intros HI Hs. destruct Hs as [a q q' H|q r q' H|q q' H|q w].
  - by eapply perform_Inv.
  - by eapply serviceOne_Inv.
  - destruct (decide (self q = curEventQueue q)) as [E|E].
    + destruct (handleAsyncInsertions_spec q l HI E) as (q1 & H1 & _ & _ & _ & HI1). rewrite H in H1. injection H1 as <-. by eexists.
    + unfold handleAsyncInsertions in H. by rewrite decide_False in H.
  - by exists l.
Qed.

Lemma reachable_Inv process q q' l : Inv q l -> rtc (step process) q q' -> exists l', Inv q' l'.
Proof.
  intros HI Hr. revert l HI. induction Hr as [q|q q1 q2 Hs _ IH]; intros l HI; [by exists l|].
  destruct (step_Inv process q q1 l HI Hs) as (l1 & HI1). by apply (IH l1).
Qed.

Lemma new_Inv id h par cur : (forall x e, h !! x = Some e -> scheduled e = false) -> Inv (new id h par cur) [].
Proof.
  intros Hh. split; cbn.
  - exists []. repeat split; constructor.
  - split; [constructor|]. split; [by intros x ?%not_elem_of_nil|]. intros x e Hx. rewrite (Hh x e Hx).
    split; [|by intros ?%not_elem_of_nil]. by split; [|intros ?%not_elem_of_nil].
Qed.

(** ** The queue in use *)

(** Three events: two at tick 5, a CPU switch at tick 7. *)
Definition exHeap : heap :=
  {[1%nat := mkEvent None None 0 CPU_Tick_Pri Initialized None;
    2%nat := mkEvent None None 0 Default_Pri Initialized None;
    3%nat := mkEvent None None 0 CPU_Switch_Pri Initialized None]}.

Definition scheduledAll (acts : list action) : t :=
  match performAll acts (new 0 exHeap false 0) with Done q => q | _ => new 0 exHeap false 0 end.

Definition exQueue : t := scheduledAll [Schedule 1 5 false; Schedule 3 7 false; Schedule 2 5 false].
Definition exEntries : list entry := [((5, Default_Pri), 2%nat); ((5, CPU_Tick_Pri), 1%nat); ((7, CPU_Switch_Pri), 3%nat)].

Lemma Tracked_dec h s ids : bool_decide (NoDup ids /\ Forall (fun x => is_Some (h !! x)) ids /\
  map_Forall (fun x e => (scheduled e = true <-> x ∈ ids) /\ (x ∈ ids -> queue e = Some s)) h) = true -> Tracked h s ids.
Proof. intros (H1 & H2 & H3)%bool_decide_eq_true. split; [done|]. split; [by apply Forall_forall|done]. Qed.

Lemma exQueue_ready : Ready exQueue exEntries.
Proof.
  split; [split|done|done| |].
  - exists [((5, Default_Pri), [2%nat]); ((5, CPU_Tick_Pri), [1%nat]); ((7, CPU_Switch_Pri), [3%nat])].
    split; [|split; [repeat constructor|split; [|done]]].
    + eexists _, _, _. repeat (split; [by vm_compute|]). eexists _, _, _. repeat (split; [by vm_compute|]).
      eexists _, _, _. repeat (split; [by vm_compute|]). by vm_compute.
    + apply (bool_decide_unpack _). by vm_compute.
  - apply Tracked_dec. by vm_compute.
  - intros x e. revert x e. change (map_Forall (fun _ e => Flags.isSet (flags e) IsMainQueue = false) (events exQueue)).
    apply (bool_decide_unpack _). by vm_compute.
  - apply Forall_forall. by repeat constructor.
Qed.

(** Handlers: event 2 creates an event that deletes itself and schedules it at
    once; the others schedule themselves again ten ticks later, until tick 100. *)
Definition ticker (x : loc) (q : t) : list action :=
  match events q !! x with
  | Some e =>
      if decide (x = 2%nat) then
        let y := fresh (dom (events q)) in [Create y Default_Pri AutoDelete; Schedule y (curTick q) false]
      else if negb (Flags.isSet (flags e) AutoDelete) && negb (scheduled e) && initialized e && (curTick q <? 100)
      then [Schedule x (curTick q + 10) false] else []
  | None => []
  end.

(** Event 2 stands above the events it schedules. *)
Definition tickerRank (c : Z) (x : loc) : nat := if decide (x = 2%nat) then 1%nat else 0%nat.

Lemma finish_mainless x q l e : Inv q l -> events q !! x = Some e -> Flags.isSet (flags e) IsMainQueue = false ->
  exists r q', finish x true q = Done (r, q').
Proof.
  intros HI Hx Hm. destruct (isExitEvent e) eqn:Ee.
  - unfold finish. rewrite (get_Some _ _ _ Hx). cbn [obind andb]. rewrite Ee, Hm, andb_false_r. by eexists _, _.
  - destruct (finish_squashed x q l e HI Hx) as (r & q' & Hf). exists r, q'. unfold finish in *.
    rewrite (get_Some _ _ _ Hx) in *. cbn [obind andb] in *. by rewrite Ee.
Qed.

Lemma ready_finishes x q l : Ready q l -> is_Some (events q !! x) -> exists r q', finish x true q = Done (r, q').
Proof. intros HR [e Hx]. eapply finish_mainless; [apply HR|done|]. by eapply (r_main _ _ HR). Qed.

(** An idle event can be scheduled from now on. *)
Lemma ready_schedules y w q l e : Ready q l -> events q !! y = Some e -> scheduled e = false -> initialized e = true ->
  curTick q <= w -> exists q' l', perform (Schedule y w false) q = Done q' /\ Ready q' l' /\
    forall x, is_Some (events q !! x) -> is_Some (events q' !! x).
Proof.
  intros HR Hy Hs Hi Hw. pose proof (schedule_spec q l y e w false (r_inv _ _ HR) Hy) as Hspec.
  rewrite Hs, Hi, (proj2 (Z.ltb_ge _ _)) in Hspec by lia. cbn [orb negb] in Hspec.
  destruct Hspec as (q' & e' & H1 & _ & Hb & Hy' & _).
  destruct (perform_progress (fun _ z => if decide (z = y) then 0%nat else 1%nat) (S y) (fun _ => False) (Schedule y w false) q l q')
    as (l' & P); [done| |done|done|].
  { cbn. destruct (decide (w = curTick q)) as [->|?]; [right|left; lia]. rewrite decide_True, decide_False by (done || lia). lia. }
  exists q', l'. split; [done|]. split; [apply P|]. intros x [e0 Hx]. destruct (decide (x = y)) as [->|Hne]; [by exists e'|].
  specialize (Hb x Hne). rewrite Hx in Hb. apply fmap_Some in Hb as (e1 & ? & _). by exists e1.
Qed.

#[export] Instance ticker_handler : Handler ticker tickerRank.
Proof.
  split.
  - intros x q l HR [e Hx] _. unfold ticker. rewrite Hx. case_decide as Hx2.
    + set (y := fresh (dom (events q))). assert (Hy : events q !! y = None) by apply not_elem_of_dom, is_fresh.
      cbn [performAll]. destruct (perform (Create y Default_Pri AutoDelete) q) as [q1| |] eqn:H1; [|by cbn in H1; rewrite Hy in H1..].
      pose proof (p_ready _ _ _ _ _ _ _ (perform_create tickerRank x (fun _ => False) q l y _ _ q1 HR H1)) as HR1.
      cbn in H1. rewrite Hy in H1. injection H1 as <-. cbn [obind].
      edestruct (ready_schedules y (curTick q)) as (q2 & l2 & H2 & HR2 & Hal); [exact HR1|apply lookup_insert_eq|done|done|cbn; lia|].
      rewrite H2. cbn [obind]. destruct (ready_finishes x q2 l2 HR2) as (r & q3 & Hf); [|by exists q2, r, q3].
      apply Hal. cbn. rewrite lookup_insert_ne by congruence. by exists e.
    + case_match eqn:E; [|destruct (ready_finishes x q l HR) as (r & q'' & Hf); [by exists e|by exists q, r, q'']].
      apply andb_true_iff in E as [[[_ Hs%negb_true_iff]%andb_true_iff Hi]%andb_true_iff _].
      destruct (ready_schedules x (curTick q + 10) q l e) as (q' & l' & H1 & HR' & Hal); [done..|lia|]. cbn [performAll]. rewrite H1. cbn [obind].
      destruct (ready_finishes x q' l' HR') as (r & q'' & Hf); [apply Hal; by exists e|by exists q', r, q''].
  - intros x q a. unfold ticker. destruct (events q !! x) as [e|] eqn:Hx; [|by intros ?%not_elem_of_nil]. case_decide as Hx2.
    + intros [->|[->|Ha%not_elem_of_nil]%elem_of_cons]%elem_of_cons; [done| |done]. right. split; [done|]. unfold tickerRank.
      rewrite (decide_True _ _ Hx2), decide_False; [lia|]. intros E. apply (is_fresh (dom (events q))). rewrite E, <- Hx2.
      apply elem_of_dom. by exists e.
    + case_match; [|by intros ?%not_elem_of_nil]. intros ->%list_elem_of_singleton. left. lia.
Qed.

(** ** Theorems *)

(** C17: the linked list of bins implements an ordered list of entries.  On a
    state that represents the list [l], [schedule], [deschedule] and
    [reschedule] of a live event return exactly when their assertions hold (and
    the event is not still waiting in the asynchronous queue); [schedule] adds
    the entry before the first one that is not smaller (or hands the event to
    the asynchronous queue in parallel mode), [deschedule] takes it out and
    [reschedule] does both; the first entry of [l] is the one [serviceOne] pops;
    the asynchronous events are inserted in their order; [l] is ordered by tick
    and priority. *)
Theorem eventq_refines q l : Inv q l ->
  ordered l /\
  (forall x e w global, events q !! x = Some e ->
    if (w <? curTick q) || scheduled e || negb (initialized e) then schedule x w global q = Exited
    else exists q', schedule x w global q = Done q' /\ Inv q' (if viaAsync q global then l else enqueue (w, priority e, x) l)) /\
  (forall x e, events q !! x = Some e ->
    if negb (scheduled e) || negb (initialized e) || foreign q || negb (bool_decide (x ∈ locs l)) then deschedule x q = Exited
    else exists q', deschedule x q = Done q' /\ Inv q' (cancel x l)) /\
  (forall x e w always, events q !! x = Some e ->
    if (w <? curTick q) || negb (always || scheduled e) || negb (initialized e) || foreign q
       || (scheduled e && negb (bool_decide (x ∈ locs l))) then reschedule x w always q = Exited
    else exists q', reschedule x w always q = Done q' /\ Inv q' (enqueue (w, priority e, x) (cancel x l))) /\
  (forall k x l', l = (k, x) :: l' -> exists q', popHead q = Done (x, q') /\ Inv q' l') /\
  (self q = curEventQueue q -> exists q', handleAsyncInsertions q = Done q' /\ Inv q' (drained (events q) l (async_queue q))).
Proof.
  intros HI. split; [by eapply Queued_ordered, HI|]. split; [|split; [|split; [|split]]].
  - intros x e w g Hx. pose proof (schedule_spec q l x e w g HI Hx) as H. case_match; naive_solver.
  - intros x e Hx. pose proof (deschedule_spec q l x e HI Hx) as H. case_match; naive_solver.
  - intros x e w a Hx. pose proof (reschedule_spec q l x e w a HI Hx) as H. case_match; naive_solver.
  - intros k x l' ->. destruct (Queued_lookup _ _ _ k x (proj1 HI)) as (e & Hx & _); [by left|].
    destruct (popHead_spec q k x l' e HI Hx) as (q' & e' & H1 & _ & _ & _ & _ & _ & HI'). by exists q'.
  - intros Hs. destruct (handleAsyncInsertions_spec q l HI Hs) as (q' & H1 & _ & _ & _ & HI'). by exists q'.
Qed.

Lemma eventq_refines_witness : exists q', deschedule 1 exQueue = Done q' /\ Inv q' [((5, Default_Pri), 2%nat); ((7, CPU_Switch_Pri), 3%nat)].
Proof.
  destruct (eventq_refines exQueue exEntries (r_inv _ _ exQueue_ready)) as (_ & _ & H & _).
  exact (H 1%nat _ ltac:(vm_compute; reflexivity)).
Defined.

(** In every state the simulator can reach from an empty queue, whatever
    the handlers do, the events of the queue form a list ordered by tick and
    priority without duplicates, an event has the [Scheduled] flag exactly when
    it is in that list or waits in the asynchronous queue, and [debugVerify]
    returns true unless the first event has tick 0 and a negative priority. *)
Theorem eventq_reachable process id h par cur q : (forall x e, h !! x = Some e -> scheduled e = false) ->
  rtc (step process) (new id h par cur) q ->
  exists l, Queued (events q) (head q) l /\ ordered l /\ NoDup (locs l ++ async_queue q) /\
    (forall x e, events q !! x = Some e -> scheduled e = true <-> x ∈ locs l \/ x ∈ async_queue q) /\
    debugVerify q = Done (match l with [] => true | (k, _) :: _ => negb (klt k (0, 0)) end).
Proof.
  intros Hh Hr. destruct (reachable_Inv process _ q [] (new_Inv id h par cur Hh) Hr) as (l & Hq & H1 & H2 & H3).
  exists l. split; [done|]. split; [by eapply Queued_ordered|]. split; [done|]. split; [|by apply debugVerify_spec].
  intros x e Hx. rewrite <- elem_of_app. by apply H3.
Qed.

Lemma eventq_reachable_witness : debugVerify exQueue = Done true.
Proof.
  destruct (eventq_reachable ticker 0 exHeap false 0 exQueue) as (l & Hq & _ & _ & _ & H).
  - intros x e. revert x e. change (map_Forall (fun _ e => scheduled e = false) exHeap). apply (bool_decide_unpack _). vm_compute. done.
  - eapply rtc_l; [eapply (step_perform _ (Schedule 1 5 false)); vm_compute; reflexivity|].
    eapply rtc_l; [eapply (step_perform _ (Schedule 3 7 false)); vm_compute; reflexivity|].
    eapply rtc_l; [eapply (step_perform _ (Schedule 2 5 false)); vm_compute; reflexivity|]. vm_compute. apply rtc_refl.
  - rewrite H. destruct l as [|[k x] l]; [done|]. pose proof (Queued_head _ _ _ _ _ Hq) as [= <-].
    destruct (Queued_lookup _ _ _ k 2 Hq) as (e & He & <-); [left|]. vm_compute in He. injection He as <-. reflexivity.
Defined.

(** C18: what [serviceEvents(T)] does in a serial simulation, nothing waiting in
    the asynchronous queue and no event in the past.  The handlers may create,
    schedule, deschedule, reschedule and squash events; they are assumed to
    break no assertion of the queue, and to schedule at the current tick only
    events of lower rank, for some rank that may differ from tick to tick (so
    that no chain of events without delay goes on for ever).  Then
    [serviceEvents(T)] returns; it ends at tick [T] with only later events in the
    queue; the calls of [process()] come in the order of time; and every event
    that was due by [T] and not squashed is processed at its tick, unless some
    handler may deschedule, reschedule or squash it. *)
Theorem events_serviced process rank `{!Handler process rank} q l T : Ready q l -> curTick q <= T ->
  exists n q', (forall fuel, (n <= fuel)%nat -> serviceEvents process fuel T q = Done q') /\ curTick q' = T /\
    (exists l', Inv q' l' /\ forall z, z ∈ l' -> T < z.1.1) /\
    (exists tr, processed q' = processed q ++ tr /\ StronglySorted Z.le (map fst tr) /\
      Forall (fun z => curTick q <= z.1 <= T) tr) /\
    forall k x, pending q l k x -> k.1 <= T -> (forall y q a, a ∈ process y q -> ~ touches a x) -> (k.1, x) ∈ processed q'.
Proof.
  intros HR Hc. set (kept := fun x => forall y q a, a ∈ process y q -> ~ touches a x).
  destruct (serviceEvents_settles process rank kept) with (T := T) (q := q) (l := l)
    as (n & q' & H1 & [Ht Hrest Htr Hdone]); [intros x q0 a y Ha Hy; by apply (Hy x q0)|done|done|].
  exists n, q'. repeat (split; [done|]). intros k x Hp Hk Hx. by apply Hdone.
Qed.

Lemma events_serviced_witness : exists n q', (forall fuel, (n <= fuel)%nat -> serviceEvents ticker fuel 20 exQueue = Done q') /\
  (5, 1%nat) ∈ processed q' /\ (5, 2%nat) ∈ processed q' /\ (7, 3%nat) ∈ processed q' /\ curTick q' = 20.
Proof.
  destruct (events_serviced ticker tickerRank exQueue exEntries 20) as (n & q' & H1 & H2 & _ & _ & H3); [exact exQueue_ready|vm_compute; discriminate|].
  assert (Hk : forall x y q a, a ∈ ticker y q -> ~ touches a x).
  { intros x y q a Ha. unfold ticker in Ha. destruct (events q !! y); [|by apply not_elem_of_nil in Ha].
    repeat case_match; repeat (apply elem_of_cons in Ha as [->|Ha]; [by intros ?|]); by apply not_elem_of_nil in Ha. }
  exists n, q'. split; [exact H1|]. split; [|split; [|split; [|exact H2]]].
  - apply (H3 (5, CPU_Tick_Pri) 1%nat); [|cbn; lia|apply Hk]. split; [right; left|eexists; split; vm_compute; reflexivity].
  - apply (H3 (5, Default_Pri) 2%nat); [|cbn; lia|apply Hk]. split; [left|eexists; split; vm_compute; reflexivity].
  - apply (H3 (7, CPU_Switch_Pri) 3%nat); [|cbn; lia|apply Hk]. split; [right; right; left|eexists; split; vm_compute; reflexivity].
Defined.

(** A CPU switch at tick 0 is rejected by [debugVerify], although the queue is
    in order. *)
Theorem debugVerify_tick_zero : debugVerify (scheduledAll [Schedule 3 0 false]) = Done false.
Proof. by vm_compute. Qed.

(** The queues allocated on the way to an index carry that index as their name. *)
Theorem getEventQueue_names :
  getEventQueue 1 [] = Done ["MainEventQueue-1"; "MainEventQueue-1"]%string.
Proof. by vm_compute. Qed.

(** ** Checkpoints *)

Lemma writeEvents_spec h l : (forall x, x ∈ l -> is_Some (h !! x)) ->
  exists r, writeEvents h l = Done r /\ map fst r = l /\ Forall (fun '(x, d) => exists e, h !! x = Some e /\ d = serializeEvent e) r.
Proof.
  induction l as [|x l IH]; intros Hl; [by exists []|]. destruct (Hl x) as [e Hx]; [by left|].
  destruct IH as (r & Hr & Hm & Hf); [intros y Hy; apply Hl; by right|].
  exists ((x, serializeEvent e) :: r). cbn [writeEvents]. rewrite (get_Some _ _ _ Hx). cbn [obind]. rewrite Hr. cbn [obind].
  split; [done|]. split; [cbn; by rewrite Hm|]. constructor; [by exists e|done].
Qed.

(** [EventQueue::serialize] writes the events that ask for it, in the order in
    which they would be serviced. *)
Theorem serialize_order q l : Queued (events q) (head q) l ->
  exists r, serialize q = Done r /\ map fst r = filter (autoSerialized (events q)) (locs l) /\
    Forall (fun '(x, d) => exists e, events q !! x = Some e /\ d = serializeEvent e) r.
Proof.
  intros (bs & Hb & Hs & Hnd & <-). unfold serialize. rewrite (walkBins_spec _ bs); [|done|done|by eapply bins_size]. cbn [obind].
  apply writeEvents_spec. intros x [_ (k & (b & Hin & Hx)%elem_of_items)%elem_of_locs]%list_elem_of_filter.
  destruct (bins_lookup _ _ _ _ _ _ _ Hb Hin Hx) as (e & He & _). by exists e.
Qed.

Lemma toShort_wrap f : 0 <= f < 2 ^ 16 -> wrap 16 (toShort f) = f.
Proof.
  intros Hf. unfold toShort, wrap. rewrite (Z.mod_small f) by done. destruct (f <? 2 ^ 15); [by apply Z.mod_small|].
  replace (f - 2 ^ 16) with (f + (-1) * 2 ^ 16) by lia. rewrite Z.mod_add by lia. by apply Z.mod_small.
Qed.

Lemma Inv_replace q l x e e' : Inv q l -> events q !! x = Some e -> scheduled e = false -> scheduled e' = false ->
  Inv (withEvents (<[x := e']> (events q)) q) l.
Proof.
  intros HI Hx Hs Hs'. pose proof (Inv_idle q l x e HI Hx Hs) as Hn. destruct HI as [Hq (H1 & H2 & H3)].
  split; cbn; [apply Queued_fresh; [|done]; by apply not_elem_of_app in Hn as [? _]|]. split; [done|]. split.
  - intros y Hy. rewrite lookup_insert_ne by by intros ->. by apply H2.
  - intros y e0 [[<- <-]|[_ Hy]]%lookup_insert_Some; [|by apply H3]. by rewrite Hs'.
Qed.

(** Restoring an event that was saved while scheduled puts it back at its tick
    and priority. *)
Theorem checkpoint_restores q l x e e0 : Inv q l -> inParallelMode q = false -> events q !! x = Some e ->
  scheduled e = false -> initialized e = true -> 0 <= flags e0 < 2 ^ 16 -> initialized e0 = true ->
  scheduled e0 = true -> squashed e0 = false -> curTick q <= when e0 ->
  exists q', unserializeEvent x (serializeEvent e0) q = Done q' /\ Inv q' (enqueue (keyOf e0, x) l).
Proof.
  intros HI Hser Hx Hs Hi Hf Hi0 Hs0 Hq0 Hw. unfold unserializeEvent, serializeEvent. rewrite (get_Some _ _ _ Hx). cbn [obind].
  rewrite Hs. cbn [obind]. rewrite (get_Some _ _ _ Hx). cbn [obind]. rewrite Hi, toShort_wrap by done.
  set (fl := Flags.set (flags e0) Initialized).
  assert (Hfs : Flags.isSet fl Scheduled = true) by (unfold fl; rewrite isSet_set, Z.lor_0_r; exact Hs0).
  assert (Hfq : Flags.isSet fl Squashed = false) by (unfold fl; rewrite isSet_set, Z.lor_0_r; exact Hq0).
  rewrite Hfs, Hfq. cbn [andb negb].
  set (e1 := mkEvent (nextBin e) (nextInBin e) (when e0) (priority e0) (Flags.clear 16 fl (Z.lor Squashed Scheduled)) (queue e)).
  assert (Hs1 : scheduled e1 = false).
  { unfold scheduled. cbn [flags e1]. rewrite isSet_clear. by rewrite Z.land_0_r. }
  assert (Hi1 : initialized e1 = true).
  { unfold initialized in *. cbn [flags e1]. unfold Flags.clear, fl, Flags.set. rewrite <- Z.land_assoc.
    change (Z.land (bnot 16 (Z.lor Squashed Scheduled)) InitMask) with InitMask.
    rewrite Z.land_lor_distr_l. apply Z.eqb_eq in Hi0. rewrite Hi0. done. }
  pose proof (schedule_spec _ l x e1 (when e0) false (Inv_replace q l x e e1 HI Hx Hs Hs1) (lookup_insert_eq _ _ _)) as Hspec.
  cbn [curTick withEvents withList] in Hspec. rewrite Hs1, Hi1, (proj2 (Z.ltb_ge _ _)) in Hspec by lia. cbn [orb negb] in Hspec.
  destruct Hspec as (q' & e' & H1 & _ & _ & _ & _ & HI' & _). exists q'. split; [exact H1|].
  unfold viaAsync in HI'. cbn [inParallelMode withEvents withList] in HI'. by rewrite Hser in HI'.
Qed.
