(* ===== verification/SatCounter.v ===== *)
(** * Saturating counters: gem5/src/cpu/pred/sat_counter.hh *)

From Stdlib Require Import ZArith Lia.
From stdpp Require Import base list.
From S2P Require Import Prelude Bits.

#[local] Open Scope Z_scope.

Module SatCounter.

(** [maxVal] is a byte that the default constructor leaves uninitialised; every
    table calls [setBits] before it uses a counter. *)
Record t := mk { initialVal : Z; maxVal : Z; counter : Z }.

Definition maxOf (bits : Z) : Z := wrap 8 (Z.shiftl 1 bits - 1).

(** [SatCounter()] followed by [setBits(bits)], as the tables are built. *)
Definition setBits (bits : Z) (c : t) : t := mk (initialVal c) (maxOf bits) (counter c).
Definition new (bits : Z) : t := mk 0 (maxOf bits) 0.
(** [SatCounter(bits, initial_val)] *)
Definition newWith (bits initial_val : Z) : outcome t :=
  if maxOf bits <? initial_val then Exited else Done (mk initial_val (maxOf bits) initial_val).

Definition reset (c : t) : t := mk (initialVal c) (maxVal c) (initialVal c).
Definition increment (c : t) : t := if counter c <? maxVal c then mk (initialVal c) (maxVal c) (wrap 8 (counter c + 1)) else c.
Definition decrement (c : t) : t := if 0 <? counter c then mk (initialVal c) (maxVal c) (wrap 8 (counter c - 1)) else c.
Definition read (c : t) : Z := counter c.

(** Counting an outcome, as every predictor does. *)
Definition train (taken : bool) (c : t) : t := if taken then increment c else decrement c.

(** ** What a counter counts *)

(** A counter of [bits] bits. *)
Definition ok (bits : Z) (c : t) : Prop := maxVal c = 2 ^ bits - 1 /\ 0 <= counter c <= maxVal c /\ 0 <= initialVal c <= maxVal c.

Lemma maxOf_small bits : 0 <= bits <= 8 -> maxOf bits = 2 ^ bits - 1.
Proof.
  intros H. unfold maxOf, wrap. rewrite Z.shiftl_1_l. apply Z.mod_small.
  assert (2 ^ bits <= 2 ^ 8) by (apply Z.pow_le_mono_r; lia). assert (0 < 2 ^ bits) by (apply Z.pow_pos_nonneg; lia). lia.
Qed.

Lemma counter_new_ok bits : 0 <= bits <= 8 -> ok bits (new bits).
Proof. intros H. unfold ok, new. cbn. rewrite maxOf_small by done. assert (0 < 2 ^ bits) by (apply Z.pow_pos_nonneg; lia). lia. Qed.

Lemma ok_byte bits c : bits <= 8 -> ok bits c -> 2 ^ bits <= 256.
Proof.
  intros Hb _. destruct (Z.le_gt_cases 0 bits); [|rewrite Z.pow_neg_r; lia]. change 256 with (2 ^ 8). apply Z.pow_le_mono_r; lia.
Qed.

(** Training moves the counter by one and stops at its ends. *)
Lemma train_counter bits taken c : bits <= 8 -> ok bits c ->
  counter (train taken c) = (if taken then Z.min (2 ^ bits - 1) (counter c + 1) else Z.max 0 (counter c - 1)) /\
  maxVal (train taken c) = maxVal c /\ initialVal (train taken c) = initialVal c.
Proof.
  intros Hb Hc. pose proof (ok_byte _ _ Hb Hc) as H8. destruct Hc as (Hm & Hr & _). unfold train, increment, decrement. destruct taken.
  - destruct (Z.ltb_spec (counter c) (maxVal c)); cbn; [unfold wrap; rewrite Z.mod_small by lia|]; repeat split; lia.
  - destruct (Z.ltb_spec 0 (counter c)); cbn; [unfold wrap; rewrite Z.mod_small by lia|]; repeat split; lia.
Qed.

Lemma train_ok bits taken c : bits <= 8 -> ok bits c -> ok bits (train taken c).
Proof.
  intros Hb Hc. destruct (train_counter bits taken c Hb Hc) as (E1 & E2 & E3). destruct Hc as (Hm & Hr & Hi).
  split; [by rewrite E2|]. split; [|by rewrite E2, E3]. rewrite E1, E2. destruct taken; lia.
Qed.

Lemma reset_ok bits c : ok bits c -> ok bits (reset c).
Proof. by intros (Hm & Hr & Hi). Qed.

(** After [n] outcomes of one kind. *)
Fixpoint trainN (n : nat) (taken : bool) (c : t) : t := match n with O => c | S n => trainN n taken (train taken c) end.

Lemma trainN_counter bits taken n : forall c, bits <= 8 -> ok bits c ->
  ok bits (trainN n taken c) /\
  counter (trainN n taken c) = if taken then Z.min (2 ^ bits - 1) (counter c + Z.of_nat n) else Z.max 0 (counter c - Z.of_nat n).
Proof.
  induction n as [|n IH]; intros c Hb Hc.
  - cbn [trainN]. split; [done|]. destruct Hc as (Hm & Hr & _), taken; lia.
  - cbn [trainN]. destruct (IH (train taken c) Hb (train_ok _ _ _ Hb Hc)) as [H1 H2]. split; [done|].
    rewrite H2, (proj1 (train_counter bits taken c Hb Hc)). destruct Hc as (Hm & Hr & _), taken; lia.
Qed.

End SatCounter.
