(* ===== verification/RAS.v ===== *)
(** * The return address stack: gem5/src/cpu/pred/ras.hh and ras.cc

    A ring of addresses; the address type is the one of the simulated
    instruction set. *)

From Stdlib Require Import ZArith Lia.
From stdpp Require Import base list.
From S2P Require Import Prelude Bits.

#[local] Open Scope Z_scope.
#[local] Open Scope outcome_scope.

Module RAS.
Section ras.
Context {PC : Type}.

Record t := mk { addrStack : list PC; numEntries : Z; usedEntries : Z; tos : Z }.

(** [init(_numEntries)] and [reset()]; [zero] is the address after [set(0)]. *)
Definition reset (zero : PC) (r : t) : t := mk (repeat zero (Z.to_nat (numEntries r))) (numEntries r) 0 0.
Definition init (zero : PC) (n : Z) : t := reset zero (mk [] n 0 0).

Definition top (r : t) : outcome PC := vec_get (addrStack r) (tos r).
Definition topIdx (r : t) : Z := tos r.
Definition incrTos (r : t) : Z := let x := wrap 32 (tos r + 1) in if x =? numEntries r then 0 else x.
Definition decrTos (r : t) : Z := if tos r =? 0 then wrap 32 (numEntries r - 1) else tos r - 1.

Definition push (return_addr : PC) (r : t) : outcome t :=
  let i := incrTos r in
  let! s := vec_set (addrStack r) i return_addr in
  Done (mk s (numEntries r) (if usedEntries r =? numEntries r then usedEntries r else usedEntries r + 1) i).
Definition pop (r : t) : t :=
  mk (addrStack r) (numEntries r) (if 0 <? usedEntries r then usedEntries r - 1 else usedEntries r) (decrTos r).
Definition restore (top_entry_idx : Z) (restored : PC) (r : t) : outcome t :=
  let! s := vec_set (addrStack r) top_entry_idx restored in
  Done (mk s (numEntries r) (usedEntries r) top_entry_idx).
Definition empty (r : t) : bool := usedEntries r =? 0.
Definition full (r : t) : bool := usedEntries r =? numEntries r.

(** ** The ring *)

Record ok (r : t) : Prop := {
  ok_size : 0 < numEntries r < 2 ^ 32;
  ok_stack : Z.of_nat (length (addrStack r)) = numEntries r;
  ok_tos : 0 <= tos r < numEntries r;
  ok_used : 0 <= usedEntries r <= numEntries r }.

(** The address [d] places below the top. *)
Definition slot (d : Z) (r : t) : Z := (tos r - d) mod numEntries r.
Definition depth (d : Z) (r : t) : option PC := addrStack r !! Z.to_nat (slot d r).

Lemma init_ok zero n : 0 < n < 2 ^ 32 -> ok (init zero n).
Proof. intros Hn. split; cbn; try lia. rewrite repeat_length. lia. Qed.

Section one.
Context (r : t) (Hr : ok r).

Lemma incrTos_mod : incrTos r = (tos r + 1) mod numEntries r.
Proof.
  destruct Hr as [Hn _ Ht _]. unfold incrTos, wrap. rewrite (Z.mod_small _ (2 ^ 32)) by lia. destruct (Z.eqb_spec (tos r + 1) (numEntries r)) as [->|Hne].
  - by rewrite Z.mod_same by lia.
  - by rewrite Z.mod_small by lia.
Qed.

Lemma decrTos_mod : decrTos r = (tos r - 1) mod numEntries r.
Proof.
  destruct Hr as [Hn _ Ht _]. unfold decrTos, wrap. destruct (Z.eqb_spec (tos r) 0) as [->|Hne].
  - rewrite Z.mod_small by lia. rewrite <- (Z.mod_add _ 1), Z.mod_small by lia. lia.
  - by rewrite Z.mod_small by lia.
Qed.

Lemma slot_bound d : 0 <= slot d r < numEntries r.
Proof. destruct Hr. apply Z.mod_pos_bound. lia. Qed.

Lemma slot_0 : slot 0 r = tos r.
Proof. destruct Hr. unfold slot. rewrite Z.sub_0_r. by apply Z.mod_small. Qed.

Lemma slot_inj d d' : 0 <= d < numEntries r -> 0 <= d' < numEntries r -> slot d r = slot d' r -> d = d'.
Proof.
  destruct Hr as [Hn _ Ht _]. unfold slot. intros H1 H2 E. assert (Hd : (d - d') mod numEntries r = 0).
  { replace (d - d') with ((tos r - d') - (tos r - d)) by lia. by rewrite Zminus_mod, E, Z.sub_diag. }
  apply Z.mod_divide in Hd as [k Hk]; [|lia]. assert (k = 0) by nia. lia.
Qed.

Lemma depth_some d : is_Some (depth d r).
Proof. pose proof (slot_bound d). destruct Hr as [Hn Hs _ _]. apply lookup_lt_is_Some_2. lia. Qed.

Lemma top_spec : exists x, top r = Done x /\ depth 0 r = Some x.
Proof.
  destruct Hr as [Hn Hs Ht _]. destruct (vec_get_in (addrStack r) (tos r)) as (x & E1 & E2); [lia|]. exists x. split; [done|].
  unfold depth. by rewrite slot_0.
Qed.

Lemma pop_ok : ok (pop r).
Proof.
  pose proof decrTos_mod as E. destruct Hr as [Hn Hs Ht Hu]. split; cbn; try done.
  - rewrite E. apply Z.mod_pos_bound. lia.
  - destruct (Z.ltb_spec 0 (usedEntries r)); lia.
Qed.

Lemma pop_depth d : depth d (pop r) = depth (d + 1) r.
Proof.
  unfold depth, slot. cbn. rewrite decrTos_mod, Zminus_mod_idemp_l by (destruct Hr; lia). do 3 f_equal. lia.
Qed.

Lemma push_spec x : exists r', push x r = Done r' /\ ok r' /\ numEntries r' = numEntries r /\ tos r' = (tos r + 1) mod numEntries r /\
  usedEntries r' = Z.min (numEntries r) (usedEntries r + 1) /\ depth 0 r' = Some x /\
  (forall d, 0 <= d < numEntries r - 1 -> depth (d + 1) r' = depth d r).
Proof.
  pose proof incrTos_mod as E. pose proof Hr as [Hn Hs Ht Hu]. assert (Hi : 0 <= incrTos r < numEntries r) by (rewrite E; apply Z.mod_pos_bound; lia).
  unfold push. rewrite vec_set_in by lia. cbn [obind]. set (u := if _ : bool then _ else _). assert (Eu : u = Z.min (numEntries r) (usedEntries r + 1)).
  { unfold u. destruct (Z.eqb_spec (usedEntries r) (numEntries r)); lia. }
  eexists. split; [done|]. assert (Hok : ok (mk (<[Z.to_nat (incrTos r):=x]> (addrStack r)) (numEntries r) u (incrTos r))).
  { split; cbn; try lia. by rewrite length_insert. }
  split; [done|]. cbn [numEntries tos usedEntries]. split; [done|]. split; [done|]. split; [done|]. split.
  - unfold depth, slot. cbn. rewrite Z.sub_0_r, Z.mod_small by lia. rewrite list_lookup_insert_eq; [done|lia].
  - intros d Hd. unfold depth, slot. cbn. assert (Es : (incrTos r - (d + 1)) mod numEntries r = slot d r).
    { unfold slot. rewrite E, Zminus_mod_idemp_l by lia. f_equal. lia. }
    rewrite Es. fold (slot d r). apply list_lookup_insert_ne. pose proof (slot_bound d) as Hb. intros Hx%Z2Nat.inj; [|lia..].
    rewrite <- Es in Hx. rewrite <- (Z.mod_small (incrTos r) (numEntries r)) in Hx at 1 by lia. symmetry in Hx.
    assert (Hz : (d + 1) mod numEntries r = 0).
    { replace (d + 1) with (incrTos r - (incrTos r - (d + 1))) by lia. by rewrite Zminus_mod, Hx, Z.sub_diag. }
    rewrite Z.mod_small in Hz by lia. lia.
Qed.

Lemma restore_spec i x : 0 <= i < numEntries r -> exists r', restore i x r = Done r' /\ ok r' /\ numEntries r' = numEntries r.
Proof.
  intros Hi. pose proof Hr as [Hn Hs Ht Hu]. unfold restore. rewrite vec_set_in by lia. eexists. split; [done|]. split; [|done].
  split; cbn; try done. by rewrite length_insert.
Qed.
End one.

(** ** A bounded stack *)

(** The addresses in use, the top first. *)
Definition contents (r : t) : list PC := omap (fun d => depth (Z.of_nat d) r) (seq 0 (Z.to_nat (usedEntries r))).

Lemma omap_total {A B} (f : A -> option B) (l : list A) (i : nat) : (forall x, is_Some (f x)) -> omap f l !! i = l !! i ≫= f.
Proof.
  intros Hf. revert i. induction l as [|x l IH]; intros i; [done|]. destruct (Hf x) as [y E]. unfold omap in *. cbn. rewrite E. destruct i; [by cbn|]. apply IH.
Qed.

Lemma contents_lookup r d : ok r -> contents r !! d = if decide (Z.of_nat d < usedEntries r) then depth (Z.of_nat d) r else None.
Proof.
  intros Hr. unfold contents. rewrite omap_total by (intros; by apply depth_some). destruct Hr as [_ _ _ Hu]. case_decide.
  - by rewrite lookup_seq_lt by lia.
  - by rewrite lookup_seq_ge by lia.
Qed.

Lemma contents_init zero n : contents (init zero n) = [].
Proof. done. Qed.

Lemma contents_push x r r' : ok r -> push x r = Done r' -> contents r' = take (Z.to_nat (numEntries r)) (x :: contents r).
Proof.
  intros Hr E. destruct (push_spec r Hr x) as (r1 & E1 & Hok & En & _ & Eu & E0 & Ed). rewrite E in E1. injection E1 as <-.
  destruct Hr as [Hn Hs Ht Hu]. apply list_eq. intros d. rewrite contents_lookup by done. rewrite Eu. destruct (decide (d < Z.to_nat (numEntries r))%nat) as [Hd|Hd].
  - rewrite lookup_take_lt by done. destruct d as [|d]; cbn [lookup list_lookup].
    + rewrite decide_True by lia. done.
    + change (contents r !! d) with (contents r !! d). rewrite contents_lookup by done. rewrite Nat2Z.inj_succ. unfold Z.succ.
      destruct (decide (Z.of_nat d < usedEntries r)); [|by rewrite decide_False by lia].
      rewrite decide_True by lia. apply Ed. lia.
  - rewrite lookup_take_ge by lia. by rewrite decide_False by lia.
Qed.

Lemma contents_pop r : ok r -> contents (pop r) = tail (contents r).
Proof.
  intros Hr. apply list_eq. intros d. rewrite lookup_tail, !contents_lookup by (try apply pop_ok; done). rewrite pop_depth, Nat2Z.inj_succ by done.
  unfold Z.succ. cbn. destruct (Z.ltb_spec 0 (usedEntries r)); [|by rewrite !decide_False by lia].
  destruct (decide (Z.of_nat d < usedEntries r - 1)); [by rewrite decide_True by lia|by rewrite decide_False by lia].
Qed.

Lemma contents_top r x l : ok r -> contents r = x :: l -> top r = Done x.
Proof.
  intros Hr E. destruct (top_spec r Hr) as (y & -> & Ey). f_equal. assert (Hx : contents r !! 0%nat = Some x) by by rewrite E.
  rewrite contents_lookup in Hx by done. case_decide; [|done]. change (Z.of_nat 0) with 0 in Hx. congruence.
Qed.

Lemma contents_length r : ok r -> Z.of_nat (length (contents r)) = usedEntries r.
Proof.
  intros Hr. destruct (Hr) as [_ _ _ Hu]. assert (H1 : forall d, (d < length (contents r))%nat <-> Z.of_nat d < usedEntries r).
  { intros d. rewrite <- lookup_lt_is_Some, contents_lookup by done. case_decide; [|by split; [intros []|]]. split; [done|]. intros _. by apply depth_some. }
  pose proof (H1 (length (contents r))). destruct (Z.lt_trichotomy (Z.of_nat (length (contents r))) (usedEntries r)) as [|[|]]; [lia|done|].
  specialize (H1 (Z.to_nat (usedEntries r))). lia.
Qed.

(** Calls and returns. *)
Inductive op := Push (x : PC) | Pop.
Definition step (o : op) (r : t) : outcome t := match o with Push x => push x r | Pop => Done (pop r) end.
Fixpoint run (l : list op) (r : t) : outcome t :=
  match l with [] => Done r | o :: l => let! r := step o r in run l r end.
(** The stack of the last [n] calls that have not returned. *)
Definition stackStep (n : nat) (o : op) (l : list PC) : list PC := match o with Push x => take n (x :: l) | Pop => tail l end.
Fixpoint stackRun (n : nat) (l : list op) (s : list PC) : list PC := match l with [] => s | o :: l => stackRun n l (stackStep n o s) end.

Lemma step_spec o r : ok r -> exists r', step o r = Done r' /\ ok r' /\ numEntries r' = numEntries r /\
  contents r' = stackStep (Z.to_nat (numEntries r)) o (contents r).
Proof.
  intros Hr. destruct o as [x|]; cbn.
  - destruct (push_spec r Hr x) as (r' & E & Hok & En & _). exists r'. repeat split; try done; [apply Hok..|]. by apply contents_push.
  - exists (pop r). split; [done|]. split; [by apply pop_ok|]. split; [done|]. by apply contents_pop.
Qed.

Lemma run_spec l : forall r, ok r -> exists r', run l r = Done r' /\ ok r' /\ numEntries r' = numEntries r /\ contents r' = stackRun (Z.to_nat (numEntries r)) l (contents r).
Proof.
  induction l as [|o l IH]; intros r Hr; cbn; [by exists r|]. destruct (step_spec o r Hr) as (r1 & -> & Hok & En & Ec). cbn.
  destruct (IH r1 Hok) as (r2 & E2 & Hok2 & En2 & Ec2). exists r2. by rewrite <- Ec, <- En.
Qed.

(** C30: the ring of return addresses is a stack of the last [n] calls: after any
    sequence of pushes and pops its contents are those of a list that keeps the
    [n] newest entries, [top] is its head when it is not empty, and [empty] and
    [full] tell its length. *)
Theorem ras_refines zero n l : 0 < n < 2 ^ 32 -> exists r, run l (init zero n) = Done r /\
  contents r = stackRun (Z.to_nat n) l [] /\ (forall x s, contents r = x :: s -> top r = Done x) /\
  empty r = bool_decide (contents r = []) /\ full r = bool_decide (Z.of_nat (length (contents r)) = n).
Proof.
  intros Hn. destruct (run_spec l _ (init_ok zero n Hn)) as (r & E & Hok & En & Ec). cbn in En. exists r. split; [done|]. split; [done|].
  split; [intros x s; by apply contents_top|]. pose proof (contents_length r Hok) as El. split.
  - unfold empty. destruct (Z.eqb_spec (usedEntries r) 0) as [Eu|Eu]; [rewrite bool_decide_true|rewrite bool_decide_false]; [done| |done|];
      [apply nil_length_inv; lia|]. intros E0. rewrite E0 in El. cbn in El. lia.
  - unfold full. rewrite El, En. destruct (Z.eqb_spec (usedEntries r) n); [by rewrite bool_decide_true|by rewrite bool_decide_false].
Qed.

(** ** Undoing speculation *)

(** The same top, and the same addresses above the [k] deepest. *)
Record agrees (k : Z) (r r' : t) : Prop := {
  ag_ok : ok r';
  ag_size : numEntries r' = numEntries r;
  ag_tos : tos r' = tos r;
  ag_depth : forall d, 0 <= d < numEntries r - k -> depth d r' = depth d r }.

Lemma agrees_refl r : ok r -> agrees 0 r r.
Proof. by split. Qed.

Lemma agrees_weaken j k r r' : j <= k -> agrees j r r' -> agrees k r r'.
Proof. intros H [H1 H2 H3 H4]. split; try done. intros d Hd. apply H4. lia. Qed.

Lemma agrees_trans j k r r1 r2 : 0 <= j -> 0 <= k -> agrees j r r1 -> agrees k r1 r2 -> agrees (j + k) r r2.
Proof.
  intros Hj Hk [A1 A2 A3 A4] [B1 B2 B3 B4]. split; [done|congruence..|]. intros d Hd. rewrite B4, A4; [done|lia|]. rewrite A2. lia.
Qed.

(** A squashed call is popped: one entry is lost at the bottom. *)
Lemma agrees_push_pop k x r r1 r2 : ok r -> 0 <= k -> push x r = Done r1 -> agrees k r1 r2 -> agrees (k + 1) r (pop r2).
Proof.
  intros Hr Hk E [H1 H2 H3 H4]. destruct (push_spec r Hr x) as (y & E' & _ & En & Et & _ & _ & Ed). rewrite E in E'. injection E' as <-.
  split; [by apply pop_ok|cbn; congruence| |].
  - cbn. rewrite decrTos_mod by done. rewrite H2, H3, En, Et. destruct Hr. rewrite Zminus_mod_idemp_l, Z.add_simpl_r, Z.mod_small by lia. done.
  - intros d Hd. rewrite pop_depth by done. rewrite H4 by (rewrite En; lia). apply Ed. lia.
Qed.

(** A squashed return is put back. *)
Lemma agrees_pop_restore k x r r2 : ok r -> 0 <= k -> top r = Done x -> agrees k (pop r) r2 ->
  exists r3, restore (topIdx r) x r2 = Done r3 /\ agrees k r r3.
Proof.
  intros Hr Hk Ex [H1 H2 H3 H4]. cbn in H2, H3. pose proof Hr as [Hn Hs Ht Hu]. unfold restore, topIdx.
  rewrite vec_set_in by (rewrite (ok_stack _ H1), H2; lia). cbn [obind]. eexists. split; [done|].
  set (r3 := mk _ _ _ _). assert (Hok : ok r3).
  { destruct H1 as [A1 A2 A3 A4]. split; cbn; [lia| |lia|done]. by rewrite length_insert. }
  split; [done|done|done|]. intros d Hd. destruct (top_spec r Hr) as (y & Ey & E0). rewrite Ex in Ey. injection Ey as <-.
  destruct (Z.eq_dec d 0) as [->|Hne].
  - rewrite E0. unfold depth. rewrite slot_0 by done. cbn. apply list_lookup_insert_eq. pose proof (ok_stack _ H1). lia.
  - assert (Es : slot d r3 = slot (d - 1) r2).
    { unfold slot. cbn [tos numEntries r3]. rewrite H2, H3, decrTos_mod by done. rewrite Zminus_mod_idemp_l by lia. f_equal. lia. }
    transitivity (depth (d - 1) r2).
    + unfold depth at 1. rewrite Es. cbn [addrStack r3]. apply list_lookup_insert_ne.
      assert (Hb : 0 <= slot (d - 1) r2 < numEntries r2) by by apply slot_bound. intros Hx%Z2Nat.inj; [|lia..].
      rewrite <- Es in Hx. assert (E3 : slot 0 r3 = slot d r3) by (rewrite slot_0 by done; done).
      apply slot_inj in E3; [lia|done|cbn; lia..].
    + rewrite H4 by (cbn; lia). rewrite pop_depth by done. f_equal. lia.
Qed.

End ras.
Arguments t : clear implicits.
Arguments op : clear implicits.

Lemma ras_refines_witness : exists r, run [Push 1; Push 2; Pop; Push 3; Push 4] (init 0 2) = Done r /\ contents r = [4; 3] /\ top r = Done 4 /\ full r = true.
Proof.
  destruct (ras_refines 0 2 [Push 1; Push 2; Pop; Push 3; Push 4]) as (r & E & Ec & Ht & _ & Ef); [lia|]. exists r. split; [done|].
  assert (E4 : contents r = [4; 3]) by (rewrite Ec; reflexivity). split; [done|]. split; [by apply (Ht 4 [3])|]. rewrite Ef, E4. reflexivity.
Defined.

(** [restore] sets the top and not the number of entries in use: after a
    squashed return the stack holds its address and says that it is empty. *)
Lemma restored_stack_empty : exists r1 r2, push 7 (init 0 4) = Done r1 /\ restore (topIdx r1) 7 (pop r1) = Done r2 /\
  top r2 = Done 7 /\ empty r1 = false /\ empty r2 = true.
Proof. by do 2 eexists. Qed.

End RAS.
