(* ===== verification/BTB.v ===== *)
(** * The branch target buffer: gem5/src/cpu/pred/btb.hh and btb.cc *)

From Stdlib Require Import ZArith Lia.
From stdpp Require Import base list.
From S2P Require Import Prelude Bits.

#[local] Open Scope Z_scope.
#[local] Open Scope outcome_scope.

Module BTB.
Section btb.
Context {PC : Type}.

(** The thread of a new entry is uninitialised. *)
Record BTBEntry := mkEntry { tag : Z; target : PC; tid : option Z; valid_ : bool }.

Record t := mk {
  btb : list BTBEntry;
  numEntries : Z;
  idxMask : Z;
  tagBits : Z;
  tagMask : Z;
  instShiftAmt : Z;
  tagShiftAmt : Z
}.

(** [zero] is the address [PCState(0)]. *)
Definition new (zero : PC) (n tag_bits inst_shift : Z) : outcome t :=
  if negb (isPowerOf2 n) then Exited
  else
    let! k := floorLog2 n in
    Done (mk (replicate (Z.to_nat n) (mkEntry 0 zero None false)) n (n - 1) tag_bits (wrap 32 (Z.shiftl 1 tag_bits - 1)) inst_shift (inst_shift + k)).

Definition withBtb (l : list BTBEntry) (b : t) : t :=
  mk l (numEntries b) (idxMask b) (tagBits b) (tagMask b) (instShiftAmt b) (tagShiftAmt b).

Definition reset (b : t) : t := withBtb (map (fun e => mkEntry (tag e) (target e) (tid e) false) (btb b)) b.
Definition getIndex (b : t) (instPC : Z) : Z := wrap 32 (Z.land (Z.shiftr instPC (instShiftAmt b)) (idxMask b)).
Definition getTag (b : t) (instPC : Z) : Z := Z.land (Z.shiftr instPC (tagShiftAmt b)) (tagMask b).

Definition hits (b : t) (e : BTBEntry) (instPC th : Z) : bool :=
  valid_ e && (getTag b instPC =? tag e) && bool_decide (tid e = Some th).
Definition valid (b : t) (instPC th : Z) : outcome bool :=
  let! e := vec_get (btb b) (getIndex b instPC) in Done (hits b e instPC th).
Definition lookup (zero : PC) (b : t) (instPC th : Z) : outcome PC :=
  let! e := vec_get (btb b) (getIndex b instPC) in Done (if hits b e instPC th then target e else zero).
Definition update (instPC : Z) (tgt : PC) (th : Z) (b : t) : outcome t :=
  let! l := vec_set (btb b) (getIndex b instPC) (mkEntry (getTag b instPC) tgt (Some th) true) in Done (withBtb l b).

(** ** What a hit means *)

Record ok (b : t) : Prop := {
  ok_size : numEntries b = 2 ^ (tagShiftAmt b - instShiftAmt b);
  ok_shift : 0 <= instShiftAmt b <= tagShiftAmt b;
  ok_width : tagShiftAmt b - instShiftAmt b < 32;
  ok_mask : idxMask b = Z.ones (tagShiftAmt b - instShiftAmt b);
  ok_tag : tagMask b = Z.ones (tagBits b) /\ 0 <= tagBits b;
  ok_length : Z.of_nat (length (btb b)) = numEntries b }.

Lemma btb_new_ok zero n tag_bits inst_shift b : 0 < n < 2 ^ 32 -> 0 <= tag_bits <= 32 -> 0 <= inst_shift ->
  new zero n tag_bits inst_shift = Done b -> ok b.
Proof.
  intros Hn Ht Hs. unfold new. destruct (isPowerOf2 n) eqn:E; [|done]. cbn [negb]. rewrite floorLog2_spec by lia. cbn [obind]. intros [= <-].
  pose proof (Z.log2_nonneg n). pose proof (isPowerOf2_log2 n ltac:(lia) E) as Ep.
  split; cbn; rewrite ?Z.add_simpl_l; try done; try lia.
  - apply Z.log2_lt_pow2; lia.
  - apply pow2_mask; [lia|done].
  - split; [|lia]. unfold wrap. rewrite Z.shiftl_1_l, Z.ones_equiv. assert (2 ^ tag_bits <= 2 ^ 32) by (apply Z.pow_le_mono_r; lia).
    assert (0 < 2 ^ tag_bits) by (apply Z.pow_pos_nonneg; lia). rewrite Z.mod_small by lia. lia.
  - rewrite length_replicate. lia.
Qed.

(** The bits of the address that tell branches apart. *)
Definition branchBits (b : t) (instPC : Z) : Z := Z.shiftr instPC (instShiftAmt b) mod 2 ^ (tagShiftAmt b - instShiftAmt b + tagBits b).

Section one.
Context (b : t) (Hb : ok b).

Lemma getIndex_mod pc : getIndex b pc = Z.shiftr pc (instShiftAmt b) mod numEntries b.
Proof.
  destruct Hb as [Hn Hs Hw Hm _ _]. unfold getIndex, wrap. rewrite Hm, Z.land_ones, Hn by lia. apply Z.mod_small.
  pose proof (Z.mod_pos_bound (Z.shiftr pc (instShiftAmt b)) (2 ^ (tagShiftAmt b - instShiftAmt b))).
  assert (2 ^ (tagShiftAmt b - instShiftAmt b) <= 2 ^ 32) by (apply Z.pow_le_mono_r; lia).
  assert (0 < 2 ^ (tagShiftAmt b - instShiftAmt b)) by (apply Z.pow_pos_nonneg; lia). lia.
Qed.

Lemma getIndex_bound pc : 0 <= getIndex b pc < Z.of_nat (length (btb b)).
Proof.
  rewrite getIndex_mod. destruct Hb as [Hn Hs _ _ _ Hl]. rewrite Hl. apply Z.mod_pos_bound. rewrite Hn. apply Z.pow_pos_nonneg; lia.
Qed.

Lemma getTag_mod pc : getTag b pc = Z.shiftr (Z.shiftr pc (instShiftAmt b)) (tagShiftAmt b - instShiftAmt b) mod 2 ^ tagBits b.
Proof.
  destruct Hb as [_ Hs _ _ [Ht H0] _]. unfold getTag. rewrite Ht, Z.land_ones, Z.shiftr_shiftr by lia. do 2 f_equal. lia.
Qed.

(** Index and tag together are these bits. *)
Lemma branchBits_split pc pc' : branchBits b pc = branchBits b pc' <-> getIndex b pc = getIndex b pc' /\ getTag b pc = getTag b pc'.
Proof.
  rewrite !getIndex_mod, !getTag_mod. unfold branchBits. destruct Hb as [Hn Hs _ _ [_ H0] _]. rewrite Hn.
  set (w := tagShiftAmt b - instShiftAmt b) in *. assert (Hw : 0 <= w) by (unfold w; lia).
  generalize (Z.shiftr pc (instShiftAmt b)), (Z.shiftr pc' (instShiftAmt b)). intros x y. clear Hn Hs. clearbody w. rewrite <- !Z.land_ones by lia. split.
  - intros E. assert (Hbit : forall i, 0 <= i < w + tagBits b -> Z.testbit x i = Z.testbit y i).
    { intros i Hi. apply (f_equal (fun z => Z.testbit z i)) in E. rewrite !Z.land_spec, testbit_ones in E by lia.
      rewrite (proj2 (Z.ltb_lt i _)), !andb_true_r in E by lia. done. }
    split; bitwise i Hi; rewrite ?testbit_ones by lia.
    + destruct (Z.ltb_spec i w); [|by rewrite !andb_false_r]. by rewrite Hbit by lia.
    + destruct (Z.ltb_spec i (tagBits b)); [|by rewrite !andb_false_r]. by rewrite Hbit by lia.
  - intros [E1 E2]. bitwise i Hi. rewrite ?testbit_ones by lia. destruct (Z.ltb_spec i (w + tagBits b)); [|by rewrite !andb_false_r].
    destruct (Z.ltb_spec i w).
    + apply (f_equal (fun z => Z.testbit z i)) in E1. rewrite !Z.land_spec, testbit_ones in E1 by lia.
      rewrite (proj2 (Z.ltb_lt i _)) in E1 by lia. by rewrite !andb_true_r in *.
    + apply (f_equal (fun z => Z.testbit z (i - w))) in E2. rewrite !Z.land_spec, testbit_ones, !Z.shiftr_spec in E2 by lia.
      rewrite (proj2 (Z.ltb_lt (i - w) _)) in E2 by lia. rewrite Z.sub_add in E2. by rewrite !andb_true_r in *.
Qed.
End one.

(** ** Runs of updates *)

Definition entryFor (b : t) (u : Z * PC * Z) : BTBEntry := let '(pc, tgt, th) := u in mkEntry (getTag b pc) tgt (Some th) true.

Fixpoint updates (us : list (Z * PC * Z)) (b : t) : outcome t :=
  match us with [] => Done b | (pc, tgt, th) :: us => let! b := update pc tgt th b in updates us b end.

(** The last update of an entry. *)
Definition lastAt (b : t) (i : Z) (us : list (Z * PC * Z)) (acc : option (Z * PC * Z)) : option (Z * PC * Z) :=
  fold_left (fun acc u => if getIndex b (fst (fst u)) =? i then Some u else acc) us acc.

Lemma update_entries pc tgt th b : ok b -> exists l, update pc tgt th b = Done (withBtb l b) /\ ok (withBtb l b) /\
  l = <[Z.to_nat (getIndex b pc) := entryFor b (pc, tgt, th)]> (btb b).
Proof.
  intros Hb. unfold update. rewrite vec_set_in by by apply getIndex_bound. eexists. split; [done|]. split; [|done].
  destruct Hb. split; try done. cbn. by rewrite length_insert.
Qed.

(** The entries after a run, given what they are for before it. *)
Lemma updates_entries us : forall b acc e0, ok b ->
  (forall i, 0 <= i < numEntries b -> btb b !! Z.to_nat i = Some (default e0 (entryFor b <$> acc i))) ->
  exists l, updates us b = Done (withBtb l b) /\
    forall i, 0 <= i < numEntries b -> l !! Z.to_nat i = Some (default e0 (entryFor b <$> lastAt b i us (acc i))).
Proof.
  induction us as [|[[pc tgt] th] us IH]; intros b acc e0 Hb Hacc; cbn [updates].
  - exists (btb b). split; [by destruct b|done].
  - destruct (update_entries pc tgt th b Hb) as (l & -> & Hl & El). cbn [obind].
    destruct (IH (withBtb l b) (fun i => if getIndex b pc =? i then Some (pc, tgt, th) else acc i) e0 Hl) as (l' & E' & Hl').
    + intros i Hi. cbn [btb withBtb]. pose proof (getIndex_bound b Hb pc). rewrite El. destruct (Z.eqb_spec (getIndex b pc) i) as [<-|Hne].
      * rewrite list_lookup_insert_eq by lia. done.
      * rewrite list_lookup_insert_ne by lia. by apply Hacc.
    + exists l'. split; [exact E'|]. intros i Hi. exact (Hl' i Hi).
Qed.

Lemma lastAt_index b i us : forall acc u, lastAt b i us acc = Some u -> acc = Some u \/ getIndex b (fst (fst u)) = i.
Proof.
  induction us as [|v us IH]; intros acc u E; [by left|]. cbn in E. apply IH in E as [E|E]; [|by right].
  destruct (Z.eqb_spec (getIndex b (fst (fst v))) i); [right; by injection E as <-|by left].
Qed.

(** The branch target buffer keeps the last update of each entry: a branch
    hits exactly when the last update of its entry was by the same thread for
    an address with the same tag and index bits, and then its target is the one
    of that update; a lookup that misses returns the null address. *)
Theorem btb_last_update zero n tag_bits inst_shift b us : 0 < n < 2 ^ 32 -> 0 <= tag_bits <= 32 -> 0 <= inst_shift ->
  new zero n tag_bits inst_shift = Done b -> exists b', updates us b = Done b' /\ forall pc th,
    let hit := match lastAt b (getIndex b pc) us None with
               | Some (pc', tgt, th') => if (branchBits b pc' =? branchBits b pc) && (th' =? th) then Some tgt else None
               | None => None
               end in
    valid b' pc th = Done (bool_decide (is_Some hit)) /\ lookup zero b' pc th = Done (default zero hit).
Proof.
  intros Hn Ht Hs E. pose proof (btb_new_ok _ _ _ _ _ Hn Ht Hs E) as Hb.
  destruct (updates_entries us b (fun _ => None) (mkEntry 0 zero None false) Hb) as (l & E' & Hl).
  { intros i Hi. unfold new in E. destruct (negb _); [done|]. apply obind_Done in E as (k & _ & [= <-]). cbn in *. apply lookup_replicate_2. lia. }
  exists (withBtb l b). split; [done|]. intros pc th. pose proof (getIndex_bound b Hb pc) as Hi. rewrite (ok_length _ Hb) in Hi.
  unfold valid, lookup. change (getIndex (withBtb l b) pc) with (getIndex b pc). cbn [btb withBtb].
  assert (Eg : vec_get l (getIndex b pc) = Done (default (mkEntry 0 zero None false) (entryFor b <$> lastAt b (getIndex b pc) us None)))
    by (apply vec_get_Done; split; [lia|by apply Hl]).
  rewrite Eg. cbn [obind]. destruct (lastAt b (getIndex b pc) us None) as [[[pc' tgt] th']|] eqn:El; [|done]. change (default _ (entryFor b <$> Some (pc', tgt, th'))) with (entryFor b (pc', tgt, th')).
  assert (Ei : getIndex b pc' = getIndex b pc).
  { by apply lastAt_index in El as [El|El]. }
  assert (Eh : hits (withBtb l b) (entryFor b (pc', tgt, th')) pc th = (branchBits b pc' =? branchBits b pc) && (th' =? th)).
  { unfold hits, entryFor. cbn. change (getTag (withBtb l b) pc) with (getTag b pc). pose proof (branchBits_split b Hb pc' pc) as Hs'.
    assert (Eb : (getTag b pc =? getTag b pc') = (branchBits b pc' =? branchBits b pc)).
    { destruct (Z.eqb_spec (branchBits b pc') (branchBits b pc)) as [Eb|Eb].
      - destruct (proj1 Hs' Eb) as [_ ->]. apply Z.eqb_refl.
      - apply Z.eqb_neq. intros Et. apply Eb, Hs'. by split. }
    rewrite Eb. destruct (branchBits b pc' =? branchBits b pc); [|by cbn]. cbn. destruct (Z.eqb_spec th' th) as [->|Hne]; [by rewrite bool_decide_true|].
    rewrite bool_decide_false; [done|]. by intros [= ?]. }
  rewrite Eh. cbn [target entryFor]. by destruct (_ && _).
Qed.
End btb.
Arguments t : clear implicits.
Arguments BTBEntry : clear implicits.

(** Two branches of one entry, and one at the same index of another thread. *)
Definition exampleUpdates : list (Z * Z * Z) := [(0x1000, 0x2000, 0); (0x1010, 0x3000, 0); (0x1000, 0x4000, 1)].

Lemma btb_last_update_witness : exists b b', new 0 4 16 2 = Done b /\ updates exampleUpdates b = Done b' /\
  lookup 0 b' 0x1000 1 = Done 0x4000 /\ valid b' 0x1000 0 = Done false /\ valid b' 0x1010 0 = Done false.
Proof.
  destruct (new 0 4 16 2) as [b| |] eqn:E; [|discriminate E..]. exists b.
  destruct (btb_last_update 0 4 16 2 b exampleUpdates) as (b' & E' & H); [lia..|exact E|]. exists b'. split; [done|]. split; [done|].
  vm_compute in E. injection E as <-. split; [exact (proj2 (H 0x1000 1))|]. split; [exact (proj1 (H 0x1000 0))|exact (proj1 (H 0x1010 0))].
Defined.
End BTB.
