(* ===== verification/DirPred.v ===== *)
(** * Direction predictors: gem5/src/cpu/pred/2bit_local.cc, tournament.cc, bi_mode.cc

    The interface that [BPredUnit] calls and the three predictors behind it.
    Tables are vectors of counters; a history is the object passed back to the
    predictor through [void *bp_history]. *)

From Stdlib Require Import ZArith Lia.
From stdpp Require Import base list strings.
From S2P Require Import Prelude Bits SatCounter.

#[local] Open Scope Z_scope.
#[local] Open Scope outcome_scope.

(** The virtual methods of [BPredUnit]; [None] is the null history. *)
Class DirPredictor (P H : Type) := {
  uncondBranch : P -> outcome (option H * P);
  lookup : Z -> P -> outcome (bool * option H * P);
  btbUpdate : Z -> P -> outcome P;
  update : Z -> bool -> option H -> bool -> P -> outcome P;
  retireSquashed : option H -> P -> outcome P;
  squash : option H -> P -> outcome P }.

(** ** Tables of counters *)

Definition newTable (n bits : Z) : list SatCounter.t := replicate (Z.to_nat n) (SatCounter.new bits).
Definition readCtr (l : list SatCounter.t) (i : Z) : outcome Z := let! c := vec_get l i in Done (SatCounter.read c).
Definition trainCtr (taken : bool) (i : Z) (l : list SatCounter.t) : outcome (list SatCounter.t) :=
  let! c := vec_get l i in vec_set l i (SatCounter.train taken c).

(** [(ULL(1) << (bits - 1)) - 1] *)
Definition threshold (bits : Z) : Z := wrap 32 (wrap 64 (Z.shiftl 1 (bits - 1)) - 1).

(** ** LocalBP *)

Module LocalBP.
Record t := mk { localCtrs : list SatCounter.t; localPredictorSets : Z; localCtrBits : Z; instShiftAmt : Z; indexMask : Z }.

Definition new (localPredictorSize ctrBits shift : Z) : outcome t :=
  if negb (isPowerOf2 localPredictorSize) then Exited
  else if ctrBits =? 0 then Exited
  else
    let sets := localPredictorSize / ctrBits in
    if negb (isPowerOf2 sets) then Exited else Done (mk (newTable sets ctrBits) sets ctrBits shift (sets - 1)).
Definition withCtrs (l : list SatCounter.t) (s : t) : t := mk l (localPredictorSets s) (localCtrBits s) (instShiftAmt s) (indexMask s).

Definition reset (s : t) : t := withCtrs (map SatCounter.reset (localCtrs s)) s.
Definition getPrediction (s : t) (count : Z) : bool := negb (Z.shiftr count (localCtrBits s - 1) =? 0).
Definition getLocalIndex (s : t) (branch_addr : Z) : Z := wrap 32 (Z.land (Z.shiftr branch_addr (instShiftAmt s)) (indexMask s)).

Definition uncondBranch (s : t) : outcome (option unit * t) := Done (None, s).
Definition lookup (branch_addr : Z) (s : t) : outcome (bool * option unit * t) :=
  let! counter_val := readCtr (localCtrs s) (getLocalIndex s branch_addr) in
  Done (getPrediction s counter_val, None, s).
Definition btbUpdate (branch_addr : Z) (s : t) : outcome t := Done s.
Definition update (branch_addr : Z) (taken : bool) (bp_history : option unit) (squashed : bool) (s : t) : outcome t :=
  match bp_history with
  | Some _ => Exited
  | None => let! l := trainCtr taken (getLocalIndex s branch_addr) (localCtrs s) in Done (withCtrs l s)
  end.
Definition retireSquashed (bp_history : option unit) (s : t) : outcome t := match bp_history with Some _ => Exited | None => Done s end.
Definition squash (bp_history : option unit) (s : t) : outcome t := match bp_history with Some _ => Exited | None => Done s end.

#[export] Instance predictor : DirPredictor t unit := {|
  DirPred.uncondBranch := uncondBranch; DirPred.lookup := lookup; DirPred.btbUpdate := btbUpdate; DirPred.update := update;
  DirPred.retireSquashed := retireSquashed; DirPred.squash := squash |}.
End LocalBP.

(** ** TournamentBP *)

Module TournamentBP.
Record params := mkParams {
  localPredictorSize : Z;
  localPredictorMask : Z;
  localCtrBits : Z;
  localHistoryTableSize : Z;
  globalPredictorSize : Z;
  globalCtrBits : Z;
  globalHistoryMask : Z;
  choicePredictorSize : Z;
  choiceCtrBits : Z;
  choiceHistoryMask : Z;
  historyRegisterMask : Z;
  instShiftAmt : Z;
  localThreshold : Z;
  globalThreshold : Z;
  choiceThreshold : Z
}.
Record t := mk {
  prm : params;
  localCtrs : list SatCounter.t;
  localHistoryTable : list Z;
  globalCtrs : list SatCounter.t;
  choiceCtrs : list SatCounter.t;
  globalHistory : Z
}.
Record BPHistory := mkHistory {
  h_globalHistory : Z;
  h_localHistory : Z;
  localPredTaken : bool;
  globalPredTaken : bool;
  globalUsed : bool
}.

(** [-1] as an [unsigned]. *)
Definition invalidPredictorIndex : Z := wrap 32 (-1).

Definition new (localSize localBits tableSize globalSize globalBits choiceSize choiceBits shift : Z) : outcome t :=
  let! localHistoryBits := ceilLog2 localSize in
  let! g := ceilLog2 globalSize in
  let! c := ceilLog2 choiceSize in
  let globalHistoryBits := if c <? g then g else c in
  if negb (isPowerOf2 localSize) then Exited
  else if negb (isPowerOf2 globalSize) then Exited
  else if negb (isPowerOf2 tableSize) then Exited
  else if negb (isPowerOf2 choiceSize) then Exited
  else
    let reg := wrap 32 (mask globalHistoryBits) in
    if (reg <? globalSize - 1) || (reg <? choiceSize - 1) then Exited
    else
      Done (mk (mkParams localSize (wrap 32 (mask localHistoryBits)) localBits tableSize globalSize globalBits (globalSize - 1) choiceSize choiceBits
                  (choiceSize - 1) reg shift (threshold localBits) (threshold globalBits) (threshold choiceBits))
              (newTable localSize localBits) (replicate (Z.to_nat tableSize) 0) (newTable globalSize globalBits) (newTable choiceSize choiceBits) 0).

Definition withGlobal (g : Z) (s : t) : t := mk (prm s) (localCtrs s) (localHistoryTable s) (globalCtrs s) (choiceCtrs s) g.
Definition withTable (l : list Z) (s : t) : t := mk (prm s) (localCtrs s) l (globalCtrs s) (choiceCtrs s) (globalHistory s).
Definition withCtrs (l g c : list SatCounter.t) (s : t) : t := mk (prm s) l (localHistoryTable s) g c (globalHistory s).

Definition calcLocHistIdx (s : t) (branch_addr : Z) : Z :=
  wrap 32 (Z.land (Z.shiftr branch_addr (instShiftAmt (prm s))) (localHistoryTableSize (prm s) - 1)).

(** One more outcome at the low end of a history of [unsigned] width. *)
Definition shiftIn (h : Z) (taken : bool) : Z := Z.lor (wrap 32 (Z.shiftl h 1)) (Z.b2z taken).

(** [updateGlobalHistTaken] and [updateGlobalHistNotTaken] *)
Definition updateGlobalHist (taken : bool) (s : t) : t :=
  withGlobal (Z.land (shiftIn (globalHistory s) taken) (historyRegisterMask (prm s))) s.
(** [updateLocalHistTaken] and [updateLocalHistNotTaken] *)
Definition updateLocalHist (taken : bool) (local_history_idx : Z) (s : t) : outcome t :=
  let! h := vec_get (localHistoryTable s) local_history_idx in
  let! l := vec_set (localHistoryTable s) local_history_idx (shiftIn h taken) in
  Done (withTable l s).

Definition btbUpdate (branch_addr : Z) (s : t) : outcome t :=
  let i := calcLocHistIdx s branch_addr in
  let s := withGlobal (Z.land (globalHistory s) (Z.land (historyRegisterMask (prm s)) (bnot 64 1))) s in
  let! h := vec_get (localHistoryTable s) i in
  let! l := vec_set (localHistoryTable s) i (Z.land h (Z.land (localPredictorMask (prm s)) (bnot 64 1))) in
  Done (withTable l s).

Definition lookup (branch_addr : Z) (s : t) : outcome (bool * option BPHistory * t) :=
  let p := prm s in
  let local_history_idx := calcLocHistIdx s branch_addr in
  let! h := vec_get (localHistoryTable s) local_history_idx in
  let local_predictor_idx := Z.land h (localPredictorMask p) in
  let! l := readCtr (localCtrs s) local_predictor_idx in
  let! g := readCtr (globalCtrs s) (Z.land (globalHistory s) (globalHistoryMask p)) in
  let! c := readCtr (choiceCtrs s) (Z.land (globalHistory s) (choiceHistoryMask p)) in
  let local_prediction := localThreshold p <? l in
  let global_prediction := globalThreshold p <? g in
  let choice_prediction := choiceThreshold p <? c in
  let history := mkHistory (globalHistory s) local_predictor_idx local_prediction global_prediction choice_prediction in
  if negb (local_history_idx <? localHistoryTableSize p) then Exited
  else
    let taken := if choice_prediction then global_prediction else local_prediction in
    let! s := updateLocalHist taken local_history_idx (updateGlobalHist taken s) in
    Done (taken, Some history, s).

Definition uncondBranch (s : t) : outcome (option BPHistory * t) :=
  Done (Some (mkHistory (globalHistory s) invalidPredictorIndex true true true), updateGlobalHist true s).

(** The counters trained with the outcome: the choice only when the two
    predictors disagreed. *)
Definition trainAll (taken : bool) (h : BPHistory) (s : t) : outcome t :=
  let p := prm s in
  let! c := (if negb (eqb (localPredTaken h) (globalPredTaken h)) then
               let i := Z.land (h_globalHistory h) (choiceHistoryMask p) in
               if eqb (localPredTaken h) taken then trainCtr false i (choiceCtrs s)
               else if eqb (globalPredTaken h) taken then trainCtr true i (choiceCtrs s) else Done (choiceCtrs s)
             else Done (choiceCtrs s)) in
  let! g := trainCtr taken (Z.land (h_globalHistory h) (globalHistoryMask p)) (globalCtrs s) in
  let! l := (if negb (h_localHistory h =? invalidPredictorIndex)
             then trainCtr taken (Z.land (h_localHistory h) (localPredictorMask p)) (localCtrs s) else Done (localCtrs s)) in
  Done (withCtrs l g c s).

(** The histories of a mispredicted branch, corrected. *)
Definition correct (local_history_idx : Z) (taken : bool) (h : BPHistory) (s : t) : outcome t :=
  let s := withGlobal (Z.land (shiftIn (h_globalHistory h) taken) (historyRegisterMask (prm s))) s in
  if negb (h_localHistory h =? invalidPredictorIndex) then
    let! l := vec_set (localHistoryTable s) local_history_idx (shiftIn (h_localHistory h) taken) in Done (withTable l s)
  else Done s.

Definition update (branch_addr : Z) (taken : bool) (bp_history : option BPHistory) (squashed : bool) (s : t) : outcome t :=
  let local_history_idx := calcLocHistIdx s branch_addr in
  let! _ := vec_get (localHistoryTable s) local_history_idx in
  let! s :=
    (match bp_history with
     | None => Done s
     | Some h =>
         if negb (Z.land (h_localHistory h) (localPredictorMask (prm s)) <? localPredictorSize (prm s)) then Exited
         else
           let historyPred := if globalUsed h then globalPredTaken h else localPredTaken h in
           let! s := (if negb (eqb historyPred taken) || negb squashed then trainAll taken h s else Done s) in
           if squashed then correct local_history_idx taken h s else Done s
     end) in
  if local_history_idx <? localHistoryTableSize (prm s) then Done s else Exited.

(** The history is deleted; a null one may be. *)
Definition retireSquashed (bp_history : option BPHistory) (s : t) : outcome t := Done s.
Definition squash (bp_history : option BPHistory) (s : t) : outcome t :=
  match bp_history with Some h => Done (withGlobal (h_globalHistory h) s) | None => Exited end.

#[export] Instance predictor : DirPredictor t BPHistory := {|
  DirPred.uncondBranch := uncondBranch; DirPred.lookup := lookup; DirPred.btbUpdate := btbUpdate; DirPred.update := update;
  DirPred.retireSquashed := retireSquashed; DirPred.squash := squash |}.
End TournamentBP.

(** ** BiModeBP *)

Module BiModeBP.
Record params := mkParams {
  instShiftAmt : Z;
  historyRegisterMask : Z;
  choicePredictorSize : Z;
  choiceCtrBits : Z;
  choiceHistoryMask : Z;
  globalPredictorSize : Z;
  globalCtrBits : Z;
  globalHistoryMask : Z;
  choiceThreshold : Z;
  takenThreshold : Z;
  notTakenThreshold : Z
}.
Record t := mk {
  prm : params;
  choiceCounters : list SatCounter.t;
  takenCounters : list SatCounter.t;
  notTakenCounters : list SatCounter.t;
  globalHistoryReg : Z
}.
Record BPHistory := mkHistory { h_globalHistoryReg : Z; takenUsed : bool; takenPred : bool; notTakenPred : bool; finalPred : bool }.

Definition new (globalSize globalBits choiceSize choiceBits shift : Z) : outcome t :=
  let! bits := ceilLog2 globalSize in
  if negb (isPowerOf2 choiceSize) then Exited
  else if negb (isPowerOf2 globalSize) then Exited
  else
    Done (mk (mkParams shift (wrap 32 (mask bits)) choiceSize choiceBits (choiceSize - 1) globalSize globalBits (globalSize - 1)
                (threshold choiceBits) (threshold choiceBits) (threshold choiceBits))
            (newTable choiceSize choiceBits) (newTable globalSize globalBits) (newTable globalSize globalBits) 0).

Definition withReg (g : Z) (s : t) : t := mk (prm s) (choiceCounters s) (takenCounters s) (notTakenCounters s) g.

Definition updateGlobalHistReg (taken : bool) (s : t) : t :=
  withReg (Z.land (Z.lor (wrap 32 (Z.shiftl (globalHistoryReg s) 1)) (Z.b2z taken)) (historyRegisterMask (prm s))) s.

Definition uncondBranch (s : t) : outcome (option BPHistory * t) :=
  Done (Some (mkHistory (globalHistoryReg s) true true true true), updateGlobalHistReg true s).
Definition squash (bpHistory : option BPHistory) (s : t) : outcome t :=
  match bpHistory with Some h => Done (withReg (h_globalHistoryReg h) s) | None => Exited end.

Definition choiceIdx (s : t) (branchAddr : Z) : Z := wrap 32 (Z.land (Z.shiftr branchAddr (instShiftAmt (prm s))) (choiceHistoryMask (prm s))).
Definition globalIdx (s : t) (branchAddr reg : Z) : Z :=
  wrap 32 (Z.land (Z.lxor (Z.shiftr branchAddr (instShiftAmt (prm s))) reg) (globalHistoryMask (prm s))).

Definition lookup (branchAddr : Z) (s : t) : outcome (bool * option BPHistory * t) :=
  let p := prm s in
  let choiceHistoryIdx := choiceIdx s branchAddr in
  let globalHistoryIdx := globalIdx s branchAddr (globalHistoryReg s) in
  if negb (choiceHistoryIdx <? choicePredictorSize p) || negb (globalHistoryIdx <? globalPredictorSize p) then Exited
  else
    let! c := readCtr (choiceCounters s) choiceHistoryIdx in
    let! t := readCtr (takenCounters s) globalHistoryIdx in
    let! n := readCtr (notTakenCounters s) globalHistoryIdx in
    let choicePrediction := choiceThreshold p <? c in
    let takenGHBPrediction := takenThreshold p <? t in
    let notTakenGHBPrediction := notTakenThreshold p <? n in
    let finalPrediction := if choicePrediction then takenGHBPrediction else notTakenGHBPrediction in
    let history := mkHistory (globalHistoryReg s) choicePrediction takenGHBPrediction notTakenGHBPrediction finalPrediction in
    Done (finalPrediction, Some history, updateGlobalHistReg finalPrediction s).

Definition btbUpdate (branchAddr : Z) (s : t) : outcome t :=
  Done (withReg (Z.land (globalHistoryReg s) (Z.land (historyRegisterMask (prm s)) (bnot 64 1))) s).

Definition update (branchAddr : Z) (taken : bool) (bpHistory : option BPHistory) (squashed : bool) (s : t) : outcome t :=
  match bpHistory with
  | None => Done s
  | Some h =>
      let p := prm s in
      let choiceHistoryIdx := choiceIdx s branchAddr in
      let globalHistoryIdx := globalIdx s branchAddr (h_globalHistoryReg h) in
      if negb (choiceHistoryIdx <? choicePredictorSize p) || negb (globalHistoryIdx <? globalPredictorSize p) then Exited
      else
        let! t := (if takenUsed h then trainCtr taken globalHistoryIdx (takenCounters s) else Done (takenCounters s)) in
        let! n := (if takenUsed h then Done (notTakenCounters s) else trainCtr taken globalHistoryIdx (notTakenCounters s)) in
        let! c := (if eqb (finalPred h) taken then
                     if eqb (finalPred h) (takenUsed h) then trainCtr taken choiceHistoryIdx (choiceCounters s) else Done (choiceCounters s)
                   else trainCtr taken choiceHistoryIdx (choiceCounters s)) in
        let s := mk p c t n (globalHistoryReg s) in
        Done (if squashed
              then withReg (Z.land (Z.lor (wrap 32 (Z.shiftl (h_globalHistoryReg h) 1)) (Z.b2z taken)) (historyRegisterMask p)) s else s)
  end.

(** The history is deleted; a null one may be. *)
Definition retireSquashed (bp_history : option BPHistory) (s : t) : outcome t := Done s.

#[export] Instance predictor : DirPredictor t BPHistory := {|
  DirPred.uncondBranch := uncondBranch; DirPred.lookup := lookup; DirPred.btbUpdate := btbUpdate; DirPred.update := update;
  DirPred.retireSquashed := retireSquashed; DirPred.squash := squash |}.
End BiModeBP.

(** ** [BranchPredictorParams::create] *)

Record BranchPredictorParams := mkPredParams {
  predType : string;
  localPredictorSize : Z;
  localCtrBits : Z;
  localHistoryTableSize : Z;
  globalPredictorSize : Z;
  globalCtrBits : Z;
  choicePredictorSize : Z;
  choiceCtrBits : Z;
  instShiftAmt : Z
}.
Inductive anyPredictor := ALocal (s : LocalBP.t) | ATournament (s : TournamentBP.t) | ABiMode (s : BiModeBP.t).
Definition create (p : BranchPredictorParams) : outcome anyPredictor :=
  if decide (predType p = "local"%string) then
    let! s := LocalBP.new (localPredictorSize p) (localCtrBits p) (instShiftAmt p) in Done (ALocal s)
  else if decide (predType p = "tournament"%string) then
    let! s := TournamentBP.new (localPredictorSize p) (localCtrBits p) (localHistoryTableSize p) (globalPredictorSize p) (globalCtrBits p)
                (choicePredictorSize p) (choiceCtrBits p) (instShiftAmt p) in Done (ATournament s)
  else if decide (predType p = "bi-mode"%string) then
    let! s := BiModeBP.new (globalPredictorSize p) (globalCtrBits p) (choicePredictorSize p) (choiceCtrBits p) (instShiftAmt p) in Done (ABiMode s)
  else Exited.
