(* ===== verification/DirPredCorrect.v ===== *)
(** * What the direction predictors promise

    [Speculates]: no operation fails, the predictors never index outside their
    tables, and [squash] restores the history that a branch saved.  The three
    predictors satisfy it. *)

From Stdlib Require Import ZArith Lia.
From stdpp Require Import base list.
From S2P Require Import Prelude Bits SatCounter DirPred.

#[local] Open Scope Z_scope.
#[local] Open Scope outcome_scope.

(** [spec] is the history that is updated speculatively, [saved] the one a
    branch keeps, [counters] all tables of counters. *)
Class Speculates (P H : Type) `{DirPredictor P H} := {
  predOK : P -> Prop;
  histOK : option H -> Prop;
  spec : P -> Z;
  saved : option H -> Z;
  counters : P -> list (list SatCounter.t);
  uncond_law s : predOK s -> exists h s', uncondBranch s = Done (h, s') /\ predOK s' /\ histOK h /\ saved h = spec s /\ counters s' = counters s;
  lookup_law pc s : predOK s ->
    exists b h s', lookup pc s = Done (b, h, s') /\ predOK s' /\ histOK h /\ saved h = spec s /\ counters s' = counters s;
  btb_law pc s : predOK s -> exists s', btbUpdate pc s = Done s' /\ predOK s' /\ counters s' = counters s;
  update_law pc taken h sq s : predOK s -> histOK h ->
    exists s', update pc taken h sq s = Done s' /\ predOK s' /\ (sq = false -> spec s' = spec s);
  retire_law h s : predOK s -> histOK h -> retireSquashed h s = Done s;
  squash_law h s : predOK s -> histOK h ->
    exists s', squash h s = Done s' /\ predOK s' /\ spec s' = saved h /\ counters s' = counters s }.

(** ** Tables *)

Definition tableOK (n bits : Z) (l : list SatCounter.t) : Prop := Z.of_nat (length l) = n /\ Forall (SatCounter.ok bits) l /\ bits <= 8.

(** The size of a table. *)
Definition sized (n : Z) : Prop := exists k, 0 <= k < 32 /\ n = 2 ^ k.

Lemma sized_pow2 n : 0 <= n < 2 ^ 32 -> isPowerOf2 n = true -> sized n.
Proof.
  intros Hn E. assert (Hp : 0 < n).
  { destruct (Z.eq_dec n 0) as [->|]; [discriminate E|lia]. }
  exists (Z.log2 n). split; [|apply isPowerOf2_log2; [lia|done]]. split; [apply Z.log2_nonneg|]. apply Z.log2_lt_pow2; lia.
Qed.

Lemma sized_pos n : sized n -> 0 < n < 2 ^ 32.
Proof. intros (k & Hk & ->). split; [apply Z.pow_pos_nonneg; lia|apply Z.pow_lt_mono_r; lia]. Qed.

(** A masked index is inside its table. *)
Lemma masked n x : sized n -> Z.land x (n - 1) = x mod n /\ 0 <= Z.land x (n - 1) < n /\ wrap 32 (Z.land x (n - 1)) = Z.land x (n - 1).
Proof.
  intros Hs. pose proof (sized_pos n Hs) as Hn. destruct Hs as (k & Hk & E). assert (El : Z.land x (n - 1) = x mod n).
  { rewrite E, <- Z.land_ones, Z.ones_equiv by lia. done. }
  pose proof (Z.mod_pos_bound x n). split; [done|]. rewrite El. split; [lia|]. unfold wrap. apply Z.mod_small. lia.
Qed.

Lemma newTable_ok n bits : 0 <= n -> 0 <= bits <= 8 -> tableOK n bits (newTable n bits).
Proof.
  intros Hn Hb. split; [unfold newTable; rewrite length_replicate; lia|]. split; [|lia]. apply Forall_replicate. by apply SatCounter.counter_new_ok.
Qed.

Lemma readCtr_ok n bits l i : tableOK n bits l -> 0 <= i < n -> exists c, readCtr l i = Done c /\ 0 <= c <= 2 ^ bits - 1.
Proof.
  intros (Hl & Ho & _) Hi. unfold readCtr. destruct (vec_get_in l i) as (c & -> & Ec); [lia|]. exists (SatCounter.counter c). split; [done|].
  pose proof (Forall_lookup_1 _ _ _ _ Ho Ec) as (E & H & _). lia.
Qed.

Lemma trainCtr_ok n bits taken l i : tableOK n bits l -> 0 <= i < n -> exists l', trainCtr taken i l = Done l' /\ tableOK n bits l'.
Proof.
  intros (Hl & Ho & Hb) Hi. unfold trainCtr. destruct (vec_get_in l i) as (c & -> & Ec); [lia|]. cbn [obind]. rewrite vec_set_in by lia.
  eexists. split; [done|]. split; [by rewrite length_insert|]. split; [|done]. apply Forall_insert; [done|].
  apply SatCounter.train_ok; [done|]. exact (Forall_lookup_1 _ _ _ _ Ho Ec).
Qed.

(** Either training is done or the table is as before. *)
Lemma maybeTrain_ok (b : bool) n bits taken i l : tableOK n bits l -> 0 <= i < n ->
  exists l', (if b then trainCtr taken i l else Done l) = Done l' /\ tableOK n bits l'.
Proof. intros Hl Hi. destruct b; [by apply trainCtr_ok|by exists l]. Qed.

(** ** LocalBP *)

Module LocalBPCorrect.
Import LocalBP.

Record ok (s : t) : Prop := {
  ok_sets : sized (localPredictorSets s);
  ok_bits : 1 <= localCtrBits s <= 8;
  ok_ctrs : tableOK (localPredictorSets s) (localCtrBits s) (localCtrs s);
  ok_mask : indexMask s = localPredictorSets s - 1 }.

Lemma local_new_ok size bits shift s : 0 <= size < 2 ^ 32 -> 1 <= bits <= 8 -> new size bits shift = Done s -> ok s.
Proof.
  intros Hn Hb. unfold new. destruct (isPowerOf2 size); [|done]. destruct (bits =? 0); [done|]. destruct (isPowerOf2 (size / bits)) eqn:E; [|done].
  cbn [negb]. intros [= <-]. assert (Hd : 0 <= size / bits < 2 ^ 32) by (split; [apply Z.div_pos; lia|apply Z.div_lt_upper_bound; nia]).
  split; cbn; try done; [by apply sized_pow2|]. apply newTable_ok; lia.
Qed.

Lemma local_index_ok s pc : ok s -> 0 <= getLocalIndex s pc < localPredictorSets s.
Proof. intros [Hs _ _ Hm]. unfold getLocalIndex. rewrite Hm. destruct (masked _ (Z.shiftr pc (instShiftAmt s)) Hs) as (_ & H & ->). done. Qed.

#[export, refine] Instance laws : Speculates t unit := {|
  predOK := ok; histOK h := h = None; spec _ := 0; saved _ := 0; counters s := [localCtrs s] |}.
Proof.
  - intros s Hs. by exists None, s.
  - intros pc s Hs. cbn. unfold lookup. destruct (readCtr_ok _ _ _ _ (ok_ctrs _ Hs) (local_index_ok s pc Hs)) as (c & -> & _). by do 3 eexists.
  - intros pc s Hs. by exists s.
  - intros pc taken h sq s Hs ->. cbn. destruct (trainCtr_ok _ _ taken _ _ (ok_ctrs _ Hs) (local_index_ok s pc Hs)) as (l & -> & Hl). cbn.
    eexists. split; [done|]. split; [|done]. by destruct Hs.
  - by intros h s Hs ->.
  - intros h s Hs ->. by exists s.
Defined.
End LocalBPCorrect.

(** ** BiModeBP *)

Module BiModeBPCorrect.
Import BiModeBP.

Record ok (s : t) : Prop := {
  ok_choice : sized (choicePredictorSize (prm s));
  ok_global : sized (globalPredictorSize (prm s));
  ok_choiceMask : choiceHistoryMask (prm s) = choicePredictorSize (prm s) - 1;
  ok_globalMask : globalHistoryMask (prm s) = globalPredictorSize (prm s) - 1;
  ok_choiceCtrs : tableOK (choicePredictorSize (prm s)) (choiceCtrBits (prm s)) (choiceCounters s);
  ok_takenCtrs : tableOK (globalPredictorSize (prm s)) (globalCtrBits (prm s)) (takenCounters s);
  ok_notTakenCtrs : tableOK (globalPredictorSize (prm s)) (globalCtrBits (prm s)) (notTakenCounters s) }.

Lemma bimode_new_ok gsize gbits csize cbits shift s : 0 <= gsize < 2 ^ 32 -> 0 <= csize < 2 ^ 32 -> 0 <= gbits <= 8 -> 0 <= cbits <= 8 ->
  new gsize gbits csize cbits shift = Done s -> ok s.
Proof.
  intros Hg Hc Hgb Hcb E. unfold new in E. apply obind_Done in E as (bits & _ & E). destruct (isPowerOf2 csize) eqn:Ec; [|done].
  destruct (isPowerOf2 gsize) eqn:Eg; [|done]. cbn [negb] in E. injection E as <-.
  split; cbn; try done; try (by apply sized_pow2); apply newTable_ok; lia.
Qed.

Lemma bimode_choiceIdx_ok s pc : ok s -> 0 <= choiceIdx s pc < choicePredictorSize (prm s).
Proof. intros Hs. unfold choiceIdx. rewrite (ok_choiceMask _ Hs). by destruct (masked _ (Z.shiftr pc (instShiftAmt (prm s))) (ok_choice _ Hs)) as (_ & H & ->). Qed.
Lemma bimode_globalIdx_ok s pc g : ok s -> 0 <= globalIdx s pc g < globalPredictorSize (prm s).
Proof.
  intros Hs. unfold globalIdx. rewrite (ok_globalMask _ Hs).
  by destruct (masked _ (Z.lxor (Z.shiftr pc (instShiftAmt (prm s))) g) (ok_global _ Hs)) as (_ & H & ->).
Qed.

Lemma bounds_pass s pc g : ok s ->
  negb (choiceIdx s pc <? choicePredictorSize (prm s)) || negb (globalIdx s pc g <? globalPredictorSize (prm s)) = false.
Proof. intros Hs. pose proof (bimode_choiceIdx_ok s pc Hs). pose proof (bimode_globalIdx_ok s pc g Hs). by zbool. Qed.

Lemma withReg_ok g s : ok s -> ok (withReg g s).
Proof. by intros []. Qed.

Lemma bimode_update_ok pc taken h sq s : ok s -> exists s', update pc taken h sq s = Done s' /\ ok s' /\ (sq = false -> globalHistoryReg s' = globalHistoryReg s).
Proof.
  intros Hs. destruct h as [h|]; [|by exists s]. cbn [update]. rewrite bounds_pass by done. pose proof (bimode_choiceIdx_ok s pc Hs) as Hc.
  pose proof (bimode_globalIdx_ok s pc (h_globalHistoryReg h) Hs) as Hg.
  destruct (maybeTrain_ok (takenUsed h) _ _ taken _ _ (ok_takenCtrs _ Hs) Hg) as (lt & -> & Ht).
  assert (Hn : exists ln, (if takenUsed h then Done (notTakenCounters s) else trainCtr taken (globalIdx s pc (h_globalHistoryReg h)) (notTakenCounters s)) = Done ln /\
    tableOK (globalPredictorSize (prm s)) (globalCtrBits (prm s)) ln).
  { destruct (maybeTrain_ok (negb (takenUsed h)) _ _ taken _ _ (ok_notTakenCtrs _ Hs) Hg) as (ln & E & Hln). exists ln. by destruct (takenUsed h). }
  destruct Hn as (ln & -> & Hn).
  assert (Hcc : exists lc, (if eqb (finalPred h) taken then if eqb (finalPred h) (takenUsed h) then trainCtr taken (choiceIdx s pc) (choiceCounters s)
     else Done (choiceCounters s) else trainCtr taken (choiceIdx s pc) (choiceCounters s)) = Done lc /\ tableOK (choicePredictorSize (prm s)) (choiceCtrBits (prm s)) lc).
  { destruct (eqb _ taken); [|by apply trainCtr_ok; [apply Hs|]]. apply maybeTrain_ok; [apply Hs|done]. }
  destruct Hcc as (lc & -> & Hcc). cbn [obind]. eexists. split; [done|]. split; [|by intros ->]. destruct Hs. by destruct sq.
Qed.

#[export, refine] Instance laws : Speculates t BPHistory := {|
  predOK := ok; histOK h := is_Some h; spec := globalHistoryReg; saved h := from_option h_globalHistoryReg 0 h;
  counters s := [choiceCounters s; takenCounters s; notTakenCounters s] |}.
Proof.
  - intros s Hs. cbn. do 2 eexists. split; [done|]. split; [by apply withReg_ok|]. by split.
  - intros pc s Hs. cbn. unfold lookup. rewrite bounds_pass by done.
    destruct (readCtr_ok _ _ _ _ (ok_choiceCtrs _ Hs) (bimode_choiceIdx_ok s pc Hs)) as (c & -> & _).
    destruct (readCtr_ok _ _ _ _ (ok_takenCtrs _ Hs) (bimode_globalIdx_ok s pc (globalHistoryReg s) Hs)) as (x & -> & _).
    destruct (readCtr_ok _ _ _ _ (ok_notTakenCtrs _ Hs) (bimode_globalIdx_ok s pc (globalHistoryReg s) Hs)) as (y & -> & _). cbn [obind].
    do 3 eexists. split; [done|]. split; [by apply withReg_ok|]. by split.
  - intros pc s Hs. cbn. eexists. split; [done|]. split; [by apply withReg_ok|done].
  - intros pc taken h sq s Hs _. by apply bimode_update_ok.
  - done.
  - intros h s Hs [x ->]. cbn. eexists. split; [done|]. split; [by apply withReg_ok|done].
Defined.
End BiModeBPCorrect.

(** ** TournamentBP *)

Lemma ceilLog2_sized n : sized n -> exists k, ceilLog2 n = Done k /\ wrap 32 (mask k) = n - 1.
Proof.
  intros Hs. pose proof (sized_pos n Hs) as Hn. destruct Hs as (k & Hk & E). exists k.
  assert (Hp : 2 ^ k < 2 ^ 32) by lia. split.
  - unfold ceilLog2. destruct (Z.eqb_spec n 1) as [->|Hne].
    + f_equal. destruct (Z.eq_dec k 0) as [|Hk0]; [done|]. assert (2 ^ 1 <= 2 ^ k) by (apply Z.pow_le_mono_r; lia). lia.
    + assert (k <> 0) by (intros ->; apply Hne; done). unfold wrap. rewrite Z.mod_small by lia. rewrite floorLog2_spec by lia. cbn [obind].
      f_equal. rewrite E. replace (2 ^ k - 1) with (Z.pred (2 ^ k)) by lia. rewrite Z.log2_pred_pow2 by lia. lia.
  - unfold mask. rewrite (proj2 (Z.eqb_neq k 64)) by lia. unfold wrap. rewrite Z.shiftl_1_l, <- E. rewrite (Z.mod_small n), (Z.mod_small (n - 1)), Z.mod_small by lia. done.
Qed.

Module TournamentBPCorrect.
Import TournamentBP.

Record ok (s : t) : Prop := {
  ok_local : sized (localPredictorSize (prm s));
  ok_table : sized (localHistoryTableSize (prm s));
  ok_global : sized (globalPredictorSize (prm s));
  ok_choice : sized (choicePredictorSize (prm s));
  ok_localMask : localPredictorMask (prm s) = localPredictorSize (prm s) - 1;
  ok_globalMask : globalHistoryMask (prm s) = globalPredictorSize (prm s) - 1;
  ok_choiceMask : choiceHistoryMask (prm s) = choicePredictorSize (prm s) - 1;
  ok_histories : Z.of_nat (length (localHistoryTable s)) = localHistoryTableSize (prm s);
  ok_localCtrs : tableOK (localPredictorSize (prm s)) (localCtrBits (prm s)) (localCtrs s);
  ok_globalCtrs : tableOK (globalPredictorSize (prm s)) (globalCtrBits (prm s)) (globalCtrs s);
  ok_choiceCtrs : tableOK (choicePredictorSize (prm s)) (choiceCtrBits (prm s)) (choiceCtrs s) }.

Lemma tournament_new_ok lsize lbits tsize gsize gbits csize cbits shift s : 0 <= lsize < 2 ^ 32 -> 0 <= tsize < 2 ^ 32 -> 0 <= gsize < 2 ^ 32 -> 0 <= csize < 2 ^ 32 ->
  0 <= lbits <= 8 -> 0 <= gbits <= 8 -> 0 <= cbits <= 8 -> new lsize lbits tsize gsize gbits csize cbits shift = Done s -> ok s.
Proof.
  intros Hl Ht Hg Hc Hlb Hgb Hcb E. unfold new in E. apply obind_Done in E as (k & Ek & E). apply obind_Done in E as (g & _ & E). apply obind_Done in E as (c & _ & E).
  destruct (isPowerOf2 lsize) eqn:El; [|done]. destruct (isPowerOf2 gsize) eqn:Eg; [|done]. destruct (isPowerOf2 tsize) eqn:Et; [|done].
  destruct (isPowerOf2 csize) eqn:Ec; [|done]. cbn [negb] in E. destruct (_ || _); [done|]. injection E as <-.
  destruct (ceilLog2_sized lsize (sized_pow2 _ Hl El)) as (k' & Ek' & Hm). rewrite Ek in Ek'. injection Ek' as <-.
  split; cbn; try done; try (by apply sized_pow2); try (apply newTable_ok; lia). rewrite length_replicate. lia.
Qed.

Section one.
Context (s : t) (Hs : ok s).

Lemma histIdx_ok pc : 0 <= calcLocHistIdx s pc < localHistoryTableSize (prm s).
Proof. unfold calcLocHistIdx. by destruct (masked _ (Z.shiftr pc (instShiftAmt (prm s))) (ok_table _ Hs)) as (_ & H & ->). Qed.
Lemma tournament_localIdx_ok x : 0 <= Z.land x (localPredictorMask (prm s)) < localPredictorSize (prm s).
Proof. rewrite (ok_localMask _ Hs). apply masked, Hs. Qed.
Lemma tournament_globalIdx_ok x : 0 <= Z.land x (globalHistoryMask (prm s)) < globalPredictorSize (prm s).
Proof. rewrite (ok_globalMask _ Hs). apply masked, Hs. Qed.
Lemma tournament_choiceIdx_ok x : 0 <= Z.land x (choiceHistoryMask (prm s)) < choicePredictorSize (prm s).
Proof. rewrite (ok_choiceMask _ Hs). apply masked, Hs. Qed.

Lemma withGlobal_ok g : ok (withGlobal g s).
Proof. by destruct Hs. Qed.

Lemma getHist_ok pc : exists h, vec_get (localHistoryTable s) (calcLocHistIdx s pc) = Done h.
Proof. destruct (vec_get_in (localHistoryTable s) (calcLocHistIdx s pc)) as (h & E & _); [rewrite (ok_histories _ Hs); apply histIdx_ok|]. by exists h. Qed.

Lemma setHist_ok i h : 0 <= i < localHistoryTableSize (prm s) ->
  exists l, vec_set (localHistoryTable s) i h = Done l /\ ok (withTable l s).
Proof.
  intros Hi. rewrite vec_set_in by (by rewrite (ok_histories _ Hs)). eexists. split; [done|]. destruct Hs. split; try done. cbn. by rewrite length_insert.
Qed.

Lemma trainAll_ok taken h : exists s', trainAll taken h s = Done s' /\ ok s' /\ globalHistory s' = globalHistory s /\ prm s' = prm s /\
  localHistoryTable s' = localHistoryTable s.
Proof.
  unfold trainAll. set (m := if negb (eqb _ _) then _ else _). assert (Hm : exists c, m = Done c /\ tableOK (choicePredictorSize (prm s)) (choiceCtrBits (prm s)) c).
  { pose proof (ok_choiceCtrs _ Hs) as Hc. unfold m. repeat case_match; try (by exists (choiceCtrs s)); apply trainCtr_ok; try done; apply tournament_choiceIdx_ok. }
  destruct Hm as (c & -> & Hc). cbn [obind]. destruct (trainCtr_ok _ _ taken _ _ (ok_globalCtrs _ Hs) (tournament_globalIdx_ok (h_globalHistory h))) as (g & -> & Hg).
  cbn [obind]. destruct (maybeTrain_ok (negb (h_localHistory h =? invalidPredictorIndex)) _ _ taken _ _ (ok_localCtrs _ Hs) (tournament_localIdx_ok (h_localHistory h)))
    as (l & -> & Hl). cbn [obind]. eexists. split; [done|]. split; [|done]. by destruct Hs.
Qed.

Lemma correct_ok i taken h : 0 <= i < localHistoryTableSize (prm s) -> exists s', correct i taken h s = Done s' /\ ok s' /\ prm s' = prm s.
Proof.
  intros Hi. unfold correct. set (g := Z.land _ _). destruct (negb _); [|eexists; split; [done|]; split; [apply withGlobal_ok|done]].
  cbn [localHistoryTable withGlobal]. destruct (setHist_ok i (shiftIn (h_localHistory h) taken) Hi) as (l & -> & Hl). eexists. split; [done|]. split; [|done]. by destruct Hl.
Qed.
End one.

Lemma tournament_update_ok pc taken h sq s : ok s -> exists s', update pc taken h sq s = Done s' /\ ok s' /\ (sq = false -> globalHistory s' = globalHistory s).
Proof.
  intros Hs. unfold update. pose proof (histIdx_ok s Hs pc) as Hi. destruct (getHist_ok s Hs pc) as (x & ->). cbn [obind].
  destruct h as [h|]; cbn [obind]; [|zbool; by exists s]. pose proof (tournament_localIdx_ok s Hs (h_localHistory h)). zbool.
  assert (H1 : exists s1, (if negb (eqb (if globalUsed h then globalPredTaken h else localPredTaken h) taken) || negb sq then trainAll taken h s else Done s) = Done s1 /\
    ok s1 /\ globalHistory s1 = globalHistory s /\ prm s1 = prm s).
  { destruct (_ || _); [|by exists s]. destruct (trainAll_ok s Hs taken h) as (s1 & E & Ho & Eg & Ep & _). by exists s1. }
  destruct H1 as (s1 & -> & Ho & Eg & Ep). cbn [obind]. destruct sq; cbn [obind].
  - destruct (correct_ok s1 Ho (calcLocHistIdx s pc) taken h) as (s2 & -> & Ho2 & Ep2); [by rewrite Ep|]. cbn [obind]. rewrite Ep2, Ep. zbool. by exists s2.
  - rewrite Ep. zbool. by exists s1.
Qed.

#[export, refine] Instance laws : Speculates t BPHistory := {|
  predOK := ok; histOK h := is_Some h; spec := globalHistory; saved h := from_option h_globalHistory 0 h;
  counters s := [localCtrs s; globalCtrs s; choiceCtrs s] |}.
Proof.
  - intros s Hs. cbn. do 2 eexists. split; [done|]. split; [by apply withGlobal_ok|]. by split.
  - intros pc s Hs. cbn. unfold lookup. destruct (getHist_ok s Hs pc) as (h & Eh). rewrite Eh. cbn [obind].
    destruct (readCtr_ok _ _ _ _ (ok_localCtrs _ Hs) (tournament_localIdx_ok s Hs h)) as (l & -> & _).
    destruct (readCtr_ok _ _ _ _ (ok_globalCtrs _ Hs) (tournament_globalIdx_ok s Hs (globalHistory s))) as (g & -> & _).
    destruct (readCtr_ok _ _ _ _ (ok_choiceCtrs _ Hs) (tournament_choiceIdx_ok s Hs (globalHistory s))) as (c & -> & _). cbn [obind].
    pose proof (histIdx_ok s Hs pc) as Hi. rewrite (proj2 (Z.ltb_lt _ _)) by lia. cbn [negb]. unfold updateLocalHist, updateGlobalHist.
    cbn [localHistoryTable withGlobal]. rewrite Eh. cbn [obind]. set (b := if _ : bool then _ else _).
    destruct (setHist_ok _ (withGlobal_ok s Hs (Z.land (shiftIn (globalHistory s) b) (historyRegisterMask (prm s)))) (calcLocHistIdx s pc) (shiftIn h b) Hi) as (l' & E & Hl').
    cbn [localHistoryTable withGlobal] in E. rewrite E. cbn [obind]. do 3 eexists. split; [done|]. split; [done|]. by split.
  - intros pc s Hs. cbn. unfold btbUpdate. cbn [localHistoryTable withGlobal prm]. destruct (getHist_ok s Hs pc) as (h & ->). cbn [obind].
    destruct (setHist_ok _ (withGlobal_ok s Hs (Z.land (globalHistory s) (Z.land (historyRegisterMask (prm s)) (bnot 64 1)))) (calcLocHistIdx s pc)
      (Z.land h (Z.land (localPredictorMask (prm s)) (bnot 64 1))) (histIdx_ok s Hs pc)) as (l & E & Hl). cbn [localHistoryTable withGlobal] in E. rewrite E. by eexists.
  - intros pc taken h sq s Hs _. by apply tournament_update_ok.
  - done.
  - intros h s Hs [x ->]. cbn. eexists. split; [done|]. split; [by apply withGlobal_ok|done].
Defined.
End TournamentBPCorrect.
