(* ===== verification/DirPredLearn.v ===== *)
(** * What the direction predictors learn

    The table of two-bit counters predicts the outcome that its branches keep
    having; and two places where the other predictors do not do what they mean
    to. *)

From Stdlib Require Import ZArith Lia.
From stdpp Require Import base list strings.
From S2P Require Import Prelude Bits SatCounter DirPred DirPredCorrect.

#[local] Open Scope Z_scope.
#[local] Open Scope outcome_scope.

(** ** LocalBP *)

Module LocalBPLearn.
Import LocalBP LocalBPCorrect.

(** Committed branches, with their outcomes. *)
Fixpoint trainRun (us : list (Z * bool)) (s : t) : outcome t :=
  match us with [] => Done s | (pc, taken) :: us => let! s := update pc taken None false s in trainRun us s end.

(** The outcomes of the branches that share a counter. *)
Definition outcomesAt (s : t) (i : Z) (us : list (Z * bool)) : list bool := map snd (filter (fun u => getLocalIndex s (fst u) = i) us).

Definition count (c : SatCounter.t) (l : list bool) : SatCounter.t := fold_left (fun c b => SatCounter.train b c) l c.

Lemma trainCtr_entry n bits taken l i : tableOK n bits l -> 0 <= i < n -> exists l', trainCtr taken i l = Done l' /\ tableOK n bits l' /\
  forall j, 0 <= j -> l' !! Z.to_nat j = if decide (i = j) then SatCounter.train taken <$> l !! Z.to_nat i else l !! Z.to_nat j.
Proof.
  intros Hl Hi. destruct (trainCtr_ok n bits taken l i Hl Hi) as (l' & E & Hl'). exists l'. split; [done|]. split; [done|]. intros j Hj.
  unfold trainCtr in E. apply obind_Done in E as (c & Ec & E). apply vec_get_Done in Ec as [_ Ec]. apply vec_set_Done in E as [Hi' ->].
  case_decide as Hij; [subst; rewrite list_lookup_insert_eq by lia; by rewrite Ec|]. apply list_lookup_insert_ne. lia.
Qed.

Lemma trainRun_spec us : forall s, ok s -> exists l, trainRun us s = Done (withCtrs l s) /\ ok (withCtrs l s) /\
  forall i, 0 <= i < localPredictorSets s -> l !! Z.to_nat i = (fun c => count c (outcomesAt s i us)) <$> localCtrs s !! Z.to_nat i.
Proof.
  induction us as [|[pc taken] us IH]; intros s Hs.
  - exists (localCtrs s). split; [by destruct s|]. split; [by destruct Hs|]. intros i Hi. by destruct (localCtrs s !! _).
  - cbn [trainRun update]. pose proof (local_index_ok s pc Hs) as Hi.
    destruct (trainCtr_entry _ _ taken _ _ (ok_ctrs _ Hs) Hi) as (l & -> & Hl & El). cbn [obind].
    destruct (IH (withCtrs l s)) as (l' & E' & Hl' & El'); [by destruct Hs|]. exists l'. split; [exact E'|]. split; [exact Hl'|].
    intros i Hi'. rewrite El' by exact Hi'. cbn [localCtrs withCtrs]. rewrite El by lia. change (outcomesAt (withCtrs l s)) with (outcomesAt s).
    unfold outcomesAt. rewrite filter_cons. cbn [fst]. case_decide as Hd; [|by destruct (localCtrs s !! _)]. subst. by destruct (localCtrs s !! _).
Qed.

Lemma count_replicate m taken : forall c, count c (replicate m taken) = SatCounter.trainN m taken c.
Proof. induction m as [|m IH]; intros c; [done|]. apply IH. Qed.

Lemma count_ok bits l : bits <= 8 -> forall c, SatCounter.ok bits c -> SatCounter.ok bits (count c l).
Proof. intros Hb. induction l as [|b l IH]; intros c Hc; [done|]. apply IH. by apply SatCounter.train_ok. Qed.

(** The top bit of the counter. *)
Lemma getPrediction_spec s c : 1 <= localCtrBits s -> 0 <= c < 2 ^ localCtrBits s -> getPrediction s c = (2 ^ (localCtrBits s - 1) <=? c).
Proof.
  intros Hb Hc. unfold getPrediction. rewrite Z.shiftr_div_pow2 by lia. assert (Hp : 0 < 2 ^ (localCtrBits s - 1)) by (apply Z.pow_pos_nonneg; lia).
  destruct (Z.leb_spec (2 ^ (localCtrBits s - 1)) c) as [Hle|Hlt].
  - assert (1 <= c / 2 ^ (localCtrBits s - 1)) by (apply Z.div_le_lower_bound; lia). by rewrite (proj2 (Z.eqb_neq _ 0)) by lia.
  - by rewrite Z.div_small by lia.
Qed.

(** A branch of the local predictor is predicted as it keeps going: when the
    outcomes of the branches that share its counter end in [2^(bits-1)] or more
    of one kind, that kind is predicted next; and after [2^bits - 1] of one kind
    it takes [2^(bits-1)] others to change the prediction. *)
Theorem local_learns size bits shift s us pc pre m k taken : 0 <= size < 2 ^ 32 -> 1 <= bits <= 8 -> new size bits shift = Done s ->
  outcomesAt s (getLocalIndex s pc) us = pre ++ replicate m taken ++ replicate k (negb taken) ->
  (k = 0%nat /\ 2 ^ (bits - 1) <= Z.of_nat m) \/ (2 ^ bits - 1 <= Z.of_nat m /\ Z.of_nat k < 2 ^ (bits - 1)) ->
  exists s', trainRun us s = Done s' /\ lookup pc s' = Done (taken, None, s').
Proof.
  intros Hn Hb E Ho Hm. pose proof (local_new_ok _ _ _ _ Hn Hb E) as Hs. destruct (trainRun_spec us s Hs) as (l & Er & Hl & El). eexists. split; [exact Er|].
  assert (Eb : localCtrBits s = bits) by (unfold new in E; repeat case_match; try done; by injection E as <-).
  pose proof (local_index_ok s pc Hs) as Hi. destruct (ok_ctrs _ Hs) as (Hlen & Hall & _).
  destruct (vec_get_in (localCtrs s) (getLocalIndex s pc)) as (c & _ & Ec); [lia|]. pose proof (Forall_lookup_1 _ _ _ _ Hall Ec) as Hc. rewrite Eb in Hc.
  specialize (El _ Hi). rewrite Ec, Ho in El. cbn [fmap option_fmap option_map] in El. unfold count in El. rewrite !fold_left_app in El.
  fold (count c pre) in El. fold (count (count c pre) (replicate m taken)) in El. fold (count (count (count c pre) (replicate m taken)) (replicate k (negb taken))) in El.
  rewrite !count_replicate in El. pose proof (count_ok bits pre ltac:(lia) c Hc) as Hp. set (c1 := count c pre) in *. clearbody c1.
  destruct (SatCounter.trainN_counter bits taken m c1 ltac:(lia) Hp) as [Hok2 Ev2].
  destruct (SatCounter.trainN_counter bits (negb taken) k _ ltac:(lia) Hok2) as [Hok3 Ev3].
  unfold lookup, readCtr. change (getLocalIndex (withCtrs l s) pc) with (getLocalIndex s pc).
  cbn [localCtrs withCtrs]. rewrite (proj2 (vec_get_Done l (getLocalIndex s pc) _) (conj (proj1 Hi) El)). cbn [obind]. unfold SatCounter.read. rewrite getPrediction_spec; cbn [localCtrBits withCtrs]; rewrite Eb; [|lia|destruct Hok3; lia].
  do 3 f_equal. rewrite Ev3, Ev2. destruct Hp as (Hmax & Hr & _). assert (Hpow : 2 ^ bits = 2 * 2 ^ (bits - 1)) by (rewrite <- Z.pow_succ_r by lia; f_equal; lia).
  assert (0 < 2 ^ (bits - 1)) by (apply Z.pow_pos_nonneg; lia). destruct taken; cbn [negb]; [apply Z.leb_le|apply Z.leb_gt]; lia.
Qed.

Lemma local_learns_witness : exists s s', new 16 2 2 = Done s /\
  trainRun [(0x40, true); (0x44, false); (0x40, true); (0x40, true); (0x40, false)] s = Done s' /\ lookup 0x40 s' = Done (true, None, s').
Proof.
  destruct (new 16 2 2) as [s| |] eqn:E; [|discriminate E..]. exists s.
  destruct (local_learns 16 2 2 s [(0x40, true); (0x44, false); (0x40, true); (0x40, true); (0x40, false)] 0x40 [] 3 1 true) as (s' & E' & H); try lia; [exact E| |by exists s'].
  vm_compute in E. injection E as <-. by vm_compute.
Defined.
End LocalBPLearn.

(** ** BiModeBP *)

Module BiModeBPLearn.
Import BiModeBP BiModeBPCorrect.

(** The thresholds of the direction tables come from the width of the choice
    counters: with narrower direction counters no branch is predicted taken. *)
Lemma bimode_never_taken s pc : ok s -> takenThreshold (prm s) = threshold (choiceCtrBits (prm s)) -> notTakenThreshold (prm s) = threshold (choiceCtrBits (prm s)) ->
  0 <= globalCtrBits (prm s) < choiceCtrBits (prm s) -> choiceCtrBits (prm s) <= 8 -> exists h s', lookup pc s = Done (false, h, s').
Proof.
  intros Hs Ht Hn Hb Hc. unfold lookup. rewrite bounds_pass by done.
  destruct (readCtr_ok _ _ _ _ (ok_choiceCtrs _ Hs) (bimode_choiceIdx_ok s pc Hs)) as (c & -> & _).
  destruct (readCtr_ok _ _ _ _ (ok_takenCtrs _ Hs) (bimode_globalIdx_ok s pc (globalHistoryReg s) Hs)) as (x & -> & Hx).
  destruct (readCtr_ok _ _ _ _ (ok_notTakenCtrs _ Hs) (bimode_globalIdx_ok s pc (globalHistoryReg s) Hs)) as (y & -> & Hy). cbn [obind].
  assert (Hth : threshold (choiceCtrBits (prm s)) = 2 ^ (choiceCtrBits (prm s) - 1) - 1).
  { unfold threshold, wrap. rewrite Z.shiftl_1_l. assert (2 ^ (choiceCtrBits (prm s) - 1) <= 2 ^ 7) by (apply Z.pow_le_mono_r; lia).
    assert (0 < 2 ^ (choiceCtrBits (prm s) - 1)) by (apply Z.pow_pos_nonneg; lia). rewrite (Z.mod_small _ (2 ^ 64)), Z.mod_small by lia. done. }
  assert (Hle : 2 ^ globalCtrBits (prm s) <= 2 ^ (choiceCtrBits (prm s) - 1)) by (apply Z.pow_le_mono_r; lia).
  rewrite Ht, Hn, Hth. rewrite (proj2 (Z.ltb_ge _ x)), (proj2 (Z.ltb_ge _ y)) by lia. destruct (_ <? c); by do 2 eexists.
Qed.

(** The constructor sets them so. *)
Lemma new_thresholds gsize gbits csize cbits shift s : new gsize gbits csize cbits shift = Done s ->
  takenThreshold (prm s) = threshold (choiceCtrBits (prm s)) /\ notTakenThreshold (prm s) = threshold (choiceCtrBits (prm s)).
Proof. unfold new. intros E. apply obind_Done in E as (b & _ & E). repeat case_match; try done. by injection E as <-. Qed.
End BiModeBPLearn.

(** ** TournamentBP *)

Module TournamentBPLearn.
Import TournamentBP.

(** The local history is updated speculatively and not restored by a squash. *)
Lemma squash_keeps_local_history : exists s h b s1 s2, new 4 2 4 4 2 4 2 2 = Done s /\ lookup 0x40 (withTable [1; 0; 0; 0] s) = Done (b, h, s1) /\
  squash h s1 = Done s2 /\ globalHistory s2 = globalHistory s /\ localHistoryTable s2 = [2; 0; 0; 0].
Proof. by do 5 eexists. Qed.
End TournamentBPLearn.

(** The default parameters of BranchPredictor.py give a tournament predictor
    whose tables and counters are in order. *)
Lemma default_predictor_ok s :
  create (mkPredParams "tournament"%string 2048 2 2048 8192 2 8192 2 2) = Done (ATournament s) -> TournamentBPCorrect.ok s.
Proof.
  unfold create. cbn [predType]. rewrite decide_False, decide_True by done. intros E. apply obind_Done in E as (s' & E & [= ->]).
  apply (TournamentBPCorrect.tournament_new_ok 2048 2 2048 8192 2 8192 2 2); try lia. exact E.
Qed.
