(* ===== verification/BPredUnit.v ===== *)
(** * The branch prediction unit: gem5/src/cpu/pred/bpred_unit.hh and bpred_unit_impl.hh

    The unit around a direction predictor [P]: the branch target buffer, a
    return address stack and a list of predictions in flight per thread.
    Addresses and instructions are those of the simulated instruction set. *)

From Stdlib Require Import ZArith Lia.
From stdpp Require Import base list.
From S2P Require Import Prelude Bits RAS BTB DirPred.

#[local] Open Scope Z_scope.
#[local] Open Scope outcome_scope.

(** [TheISA::PCState] and the parts of [StaticInst] that the unit reads. *)
Class ISA (PC Inst : Type) := {
  instAddr : PC -> Z;
  ofAddr : Z -> PC;
  buildRetPC : PC -> PC -> PC;
  advancePC : PC -> Inst -> PC;
  branchTarget : Inst -> PC -> outcome PC;
  isUncondCtrl : Inst -> bool;
  isReturn : Inst -> bool;
  isCall : Inst -> bool;
  isDirectCtrl : Inst -> bool }.

Module BPredUnit.

Record stats := mkStats {
  lookups : Z;
  condPredicted : Z;
  condIncorrect : Z;
  BTBLookups : Z;
  BTBHits : Z;
  usedRASs : Z;
  RASIncorrect : Z
}.
Definition noStats : stats := mkStats 0 0 0 0 0 0 0.
Definition addStats (a b : stats) : stats :=
  mkStats (lookups a + lookups b) (condPredicted a + condPredicted b) (condIncorrect a + condIncorrect b) (BTBLookups a + BTBLookups b)
    (BTBHits a + BTBHits b) (usedRASs a + usedRASs b) (RASIncorrect a + RASIncorrect b).

Section bpred.
Context {PC Inst P H : Type} `{ISA PC Inst, DirPredictor P H}.

Record PredictorHistory := mkRecord {
  seqNum : Z;
  pc : Z;
  bpHistory : option H;
  RASTarget : PC;
  RASIndex : Z;
  tid : Z;
  predTaken : bool;
  usedRAS : bool;
  pushedRAS : bool;
  wasCall : bool;
  wasReturn : bool;
  wasSquashed : bool
}.

(** Newest prediction first. *)
Record t := mk {
  predHist : list (list PredictorHistory);
  btb : BTB.t PC;
  ras : list (RAS.t PC);
  dir : P;
  stat : stats
}.

Definition withHist (x : list (list PredictorHistory)) (u : t) : t := mk x (btb u) (ras u) (dir u) (stat u).
Definition withBtb (x : BTB.t PC) (u : t) : t := mk (predHist u) x (ras u) (dir u) (stat u).
Definition withRas (x : list (RAS.t PC)) (u : t) : t := mk (predHist u) (btb u) x (dir u) (stat u).
Definition withDir (x : P) (u : t) : t := mk (predHist u) (btb u) (ras u) x (stat u).
Definition counting (d : stats) (u : t) : t := mk (predHist u) (btb u) (ras u) (dir u) (addStats (stat u) d).

Definition setRas (th : Z) (r : RAS.t PC) (u : t) : outcome t := let! l := vec_set (ras u) th r in Done (withRas l u).
Definition setHist (th : Z) (h : list PredictorHistory) (u : t) : outcome t := let! l := vec_set (predHist u) th h in Done (withHist l u).

(** The constructor; [d] is the direction predictor of the subclass. *)
Definition new (numThreads BTBEntries BTBTagSize instShiftAmt RASSize : Z) (d : P) : outcome t :=
  let! b := BTB.new (ofAddr 0) BTBEntries BTBTagSize instShiftAmt in
  Done (mk (replicate (Z.to_nat numThreads) []) b (replicate (Z.to_nat numThreads) (RAS.init (ofAddr 0) RASSize)) d noStats).

Definition newRecord (sn a : Z) (pred_taken : bool) (h : option H) (th : Z) : PredictorHistory :=
  mkRecord sn a h (ofAddr 0) 0 th pred_taken false false false false false.
Definition setReturn (r : PredictorHistory) : PredictorHistory :=
  mkRecord (seqNum r) (pc r) (bpHistory r) (RASTarget r) (RASIndex r) (tid r) (predTaken r) (usedRAS r) (pushedRAS r) (wasCall r) true (wasSquashed r).
Definition setUsed (b : bool) (r : PredictorHistory) : PredictorHistory :=
  mkRecord (seqNum r) (pc r) (bpHistory r) (RASTarget r) (RASIndex r) (tid r) (predTaken r) b (pushedRAS r) (wasCall r) (wasReturn r) (wasSquashed r).
Definition setTop (x : PC) (i : Z) (r : PredictorHistory) : PredictorHistory :=
  mkRecord (seqNum r) (pc r) (bpHistory r) x i (tid r) (predTaken r) true (pushedRAS r) (wasCall r) (wasReturn r) (wasSquashed r).
Definition setPushed (b : bool) (r : PredictorHistory) : PredictorHistory :=
  mkRecord (seqNum r) (pc r) (bpHistory r) (RASTarget r) (RASIndex r) (tid r) (predTaken r) (usedRAS r) b (wasCall r) (wasReturn r) (wasSquashed r).
Definition setCall (r : PredictorHistory) : PredictorHistory :=
  mkRecord (seqNum r) (pc r) (bpHistory r) (RASTarget r) (RASIndex r) (tid r) (predTaken r) (usedRAS r) (pushedRAS r) true (wasReturn r) (wasSquashed r).
Definition setSquashed (r : PredictorHistory) : PredictorHistory :=
  mkRecord (seqNum r) (pc r) (bpHistory r) (RASTarget r) (RASIndex r) (tid r) (predTaken r) (usedRAS r) (pushedRAS r) (wasCall r) (wasReturn r) true.

Definition drainSanityCheck (u : t) : outcome unit :=
  if forallb (fun h => match h with [] => true | _ => false end) (predHist u) then Done tt else Exited.

(** The target buffer as seen from outside, for thread 0. *)
Definition BTBValid (a : Z) (u : t) : outcome bool := BTB.valid (btb u) a 0.
Definition BTBLookup (a : Z) (u : t) : outcome PC := BTB.lookup (ofAddr 0) (btb u) a 0.
Definition BTBUpdate (a : Z) (target : PC) (u : t) : outcome t := let! b := BTB.update a target 0 (btb u) in Done (withBtb b u).

(** ** Prediction *)

(** The direction, the history of the predictor and the unit. *)
Definition direction (inst : Inst) (a : Z) (u : t) : outcome (bool * option H * t) :=
  let u := counting (mkStats 1 0 0 0 0 0 0) u in
  if isUncondCtrl inst then let! (h, d) := uncondBranch (dir u) in Done (true, h, withDir d u)
  else let! (b, h, d) := lookup a (dir u) in Done (b, h, withDir d (counting (mkStats 0 1 0 0 0 0 0) u)).

(** A return takes its target from the stack. *)
Definition useRAS (cur : PC) (th : Z) (r : PredictorHistory) (u : t) : outcome (PC * PredictorHistory * t) :=
  let u := counting (mkStats 0 0 0 0 0 1 0) u in
  let! s := vec_get (ras u) th in
  let! rasTop := RAS.top s in
  let! u := setRas th (RAS.pop s) u in
  Done (buildRetPC cur rasTop, setTop rasTop (RAS.topIdx s) r, u).

(** A call pushes its own address. *)
Definition pushCall (inst : Inst) (cur : PC) (th : Z) (r : PredictorHistory) (u : t) : outcome (PredictorHistory * t) :=
  if isCall inst then
    let! s := vec_get (ras u) th in
    let! s := RAS.push cur s in
    let! u := setRas th s u in
    Done (setCall (setPushed true r), u)
  else Done (r, u).

(** The branch target buffer has no entry. *)
Definition missBTB (inst : Inst) (a th : Z) (r : PredictorHistory) (u : t) : outcome (PredictorHistory * t) :=
  if negb (isCall inst) && negb (isReturn inst) then let! d := btbUpdate a (dir u) in Done (r, withDir d u)
  else if isCall inst && negb (isUncondCtrl inst) then
    let! s := vec_get (ras u) th in
    let! u := setRas th (RAS.pop s) u in
    Done (setPushed false r, u)
  else Done (r, u).

(** [predict(inst, seqNum, pc, tid)]: the direction and the next address. *)
Definition predict (inst : Inst) (sn : Z) (cur : PC) (th : Z) (u : t) : outcome (bool * PC * t) :=
  let a := instAddr cur in
  let! (pred_taken, h, u) := direction inst a u in
  let r := newRecord sn a pred_taken h th in
  let! (taken, target, r, u) :=
    (if pred_taken then
       if isReturn inst then let! (target, r, u) := useRAS cur th (setReturn r) u in Done (true, target, r, u)
       else
         let! (r, u) := pushCall inst cur th r (counting (mkStats 0 0 0 1 0 0 0) u) in
         let! hit := BTB.valid (btb u) a th in
         if hit then
           let! target := BTB.lookup (ofAddr 0) (btb u) a th in
           Done (true, target, r, counting (mkStats 0 0 0 0 1 0 0) u)
         else
           let! (r, u) := missBTB inst a th r u in
           Done (false, advancePC cur inst, r, u)
     else Done (false, advancePC cur inst, if isReturn inst then setReturn r else r, u)) in
  let! hist := vec_get (predHist u) th in
  let! u := setHist th (r :: hist) u in
  Done (taken, target, u).

(** [predictInOrder(inst, seqNum, asid, instPC, predPC, tid)] *)
Definition predictInOrder (inst : Inst) (sn asid : Z) (instPC predPC : PC) (th : Z) (u : t) : outcome (bool * PC * t) :=
  let a := instAddr predPC in
  let! (pred_taken, h, u) := direction inst a u in
  let! pred_taken := (if isUncondCtrl inst && isReturn inst then let! s := vec_get (ras u) th in Done (negb (RAS.empty s)) else Done pred_taken) in
  let r := newRecord sn a pred_taken h th in
  let! (taken, target, r, u) :=
    (if pred_taken then
       if isReturn inst then
         let! (target, r, u) := useRAS instPC th r u in
         if RASIndex r <? 16 then Done (true, target, r, u) else Exited
       else
         let! (r, u) := pushCall inst instPC th r (counting (mkStats 0 0 0 1 0 0 0) u) in
         if isCall inst && isUncondCtrl inst && isDirectCtrl inst then
           let! target := branchTarget inst instPC in Done (true, target, r, u)
         else
           let! hit := BTB.valid (btb u) a asid in
           if hit then
             let! target := BTB.lookup (ofAddr 0) (btb u) a asid in
             Done (true, target, r, counting (mkStats 0 0 0 0 1 0 0) u)
           else Done (false, predPC, r, u)
     else Done (false, predPC, r, u)) in
  let! hist := vec_get (predHist u) th in
  let! u := setHist th (r :: hist) u in
  Done (taken, if taken then target else predPC, u).

(** ** Commit *)

(** The loop of [update], on the history from its oldest end. *)
Fixpoint commitLoop (done_sn : Z) (l : list PredictorHistory) (d : P) : outcome (list PredictorHistory * P) :=
  match l with
  | [] => Done ([], d)
  | r :: l' =>
      if seqNum r <=? done_sn then
        let! d := (if negb (wasSquashed r) then DirPred.update (pc r) (predTaken r) (bpHistory r) false d else retireSquashed (bpHistory r) d) in
        commitLoop done_sn l' d
      else Done (l, d)
  end.
Definition update (done_sn th : Z) (u : t) : outcome t :=
  let! hist := vec_get (predHist u) th in
  let! (l, d) := commitLoop done_sn (reverse hist) (dir u) in
  setHist th (reverse l) (withDir d u).

(** ** Squash *)

Definition undoRAS (r : PredictorHistory) (s : RAS.t PC) : outcome (RAS.t PC) :=
  if usedRAS r then RAS.restore (RASIndex r) (RASTarget r) s
  else if wasCall r && pushedRAS r then Done (RAS.pop s) else Done s.

(** The loop of [squash(squashed_sn, tid)]. *)
Fixpoint squashLoop (squashed_sn : Z) (l : list PredictorHistory) (s : RAS.t PC) (d : P) : outcome (list PredictorHistory * RAS.t PC * P) :=
  match l with
  | [] => Done ([], s, d)
  | r :: l' =>
      if squashed_sn <? seqNum r then
        let! s := undoRAS r s in
        let! d := DirPred.squash (bpHistory r) d in
        squashLoop squashed_sn l' s d
      else Done (l, s, d)
  end.
Definition squash (squashed_sn th : Z) (u : t) : outcome t :=
  let! hist := vec_get (predHist u) th in
  let! s := vec_get (ras u) th in
  let! (l, s, d) := squashLoop squashed_sn hist s (dir u) in
  let! u := setRas th s (withDir d u) in
  setHist th l u.

(** What a misprediction does to the stack and to its record. *)
Definition fixRAS (actually_taken : bool) (r : PredictorHistory) (s : RAS.t PC) : outcome (PredictorHistory * RAS.t PC) :=
  if actually_taken then
    Done (if wasReturn r && negb (usedRAS r) then (setUsed true r, RAS.pop s) else (r, s))
  else if usedRAS r then let! s := RAS.restore (RASIndex r) (RASTarget r) s in Done (setUsed false r, s)
  else Done (if wasCall r && pushedRAS r then (setPushed false r, RAS.pop s) else (r, s)).

(** [squash(squashed_sn, corrTarget, actually_taken, tid)] *)
Definition squashMispredicted (squashed_sn : Z) (corrTarget : PC) (actually_taken : bool) (th : Z) (u : t) : outcome t :=
  let! u := squash squashed_sn th (counting (mkStats 0 0 1 0 0 0 0) u) in
  let! hist := vec_get (predHist u) th in
  match hist with
  | [] => Done u
  | r :: hist =>
      if negb (seqNum r =? squashed_sn) then Exited
      else
        let u := if usedRAS r then counting (mkStats 0 0 0 0 0 0 1) u else u in
        let! d := DirPred.update (pc r) actually_taken (bpHistory r) true (dir u) in
        let! s := vec_get (ras u) th in
        let! (r, s) := fixRAS actually_taken (setSquashed r) s in
        let! u := setRas th s (withDir d u) in
        let! u := (if actually_taken then let! b := BTB.update (pc r) corrTarget th (btb u) in Done (withBtb b u) else Done u) in
        setHist th (r :: hist) u
  end.
End bpred.
Arguments t : clear implicits.
Arguments PredictorHistory : clear implicits.
End BPredUnit.
