(* ===== verification/BPredCorrect.v ===== *)
(** * The branch prediction unit is consistent

    No operation of the unit fails, its histories stay ordered by sequence
    number, and a squash puts back what the squashed predictions changed. *)

From Stdlib Require Import ZArith Lia.
From stdpp Require Import base list.
From S2P Require Import Prelude Bits SatCounter RAS BTB DirPred DirPredCorrect BPredUnit.

#[local] Open Scope Z_scope.
#[local] Open Scope outcome_scope.

Module BPredCorrect.
Import BPredUnit.

Section unit.
Context {PC Inst P H : Type} `{ISA PC Inst, Speculates P H}.
Notation unit := (BPredUnit.t PC P H).
Notation record := (PredictorHistory PC H).

(** ** Threads *)

(** The history and the stack of a thread. *)
Record threadAt (u : unit) (th : Z) (hist : list record) (s : RAS.t PC) : Prop := {
  ta_pos : 0 <= th;
  ta_hist : predHist u !! Z.to_nat th = Some hist;
  ta_ras : ras u !! Z.to_nat th = Some s }.

Lemma get_hist u th hist s : threadAt u th hist s -> vec_get (predHist u) th = Done hist.
Proof. intros [H1' H2' _]. by apply vec_get_Done. Qed.
Lemma get_ras u th hist s : threadAt u th hist s -> vec_get (ras u) th = Done s.
Proof. intros [H1' _ H2']. by apply vec_get_Done. Qed.
Lemma set_ras u th hist s s' : threadAt u th hist s -> setRas th s' u = Done (withRas (<[Z.to_nat th := s']> (ras u)) u).
Proof. intros [H1' _ H2']. unfold setRas. rewrite vec_set_in; [done|]. apply lookup_lt_Some in H2'. lia. Qed.
Lemma set_hist u th hist s h' : threadAt u th hist s -> setHist th h' u = Done (withHist (<[Z.to_nat th := h']> (predHist u)) u).
Proof. intros [H1' H2' _]. unfold setHist. rewrite vec_set_in; [done|]. apply lookup_lt_Some in H2'. lia. Qed.

(** ** Undoing a prediction *)

(** Whatever the stack became, if it agrees with the one the prediction left,
    undoing the prediction restores the one before it. *)
Definition rasUndone (c : Z) (s : RAS.t PC) (r : record) (s' : RAS.t PC) : Prop :=
  forall k s2, 0 <= k -> RAS.agrees k s' s2 -> exists s3, undoRAS r s2 = Done s3 /\ RAS.agrees (k + c) s s3.

(** The state of a thread after a prediction that left record [r]. *)
Record predicted (c : Z) (u : unit) (th : Z) (s : RAS.t PC) (r : record) (s' : RAS.t PC) (u' : unit) : Prop := {
  pr_hist : predHist u' = predHist u;
  pr_btb : btb u' = btb u;
  pr_ras : ras u' = <[Z.to_nat th := s']> (ras u);
  pr_ok : RAS.ok s';
  pr_size : RAS.numEntries s' = RAS.numEntries s;
  pr_index : 0 <= RASIndex r < RAS.numEntries s;
  pr_undone : rasUndone c s r s';
  pr_dir : predOK (dir u');
  pr_saved : histOK (bpHistory r) /\ saved (bpHistory r) = spec (dir u);
  pr_counters : counters (dir u') = counters (dir u) }.

Lemma direction_spec inst a u : predOK (dir u) -> exists b h d st, direction inst a u = Done (b, h, mk (predHist u) (btb u) (ras u) d st) /\
  predOK d /\ histOK h /\ saved h = spec (dir u) /\ counters d = counters (dir u).
Proof.
  intros Hd. unfold direction. destruct (isUncondCtrl inst).
  - destruct (uncond_law (dir u) Hd) as (h & d & E & Hp & Hh & Hs & Hc). cbn [dir counting]. rewrite E. cbn [obind]. by do 4 eexists.
  - destruct (lookup_law a (dir u) Hd) as (b & h & d & E & Hp & Hh & Hs & Hc). cbn [dir counting]. rewrite E. cbn [obind]. by do 4 eexists.
Qed.

(** A record that does not touch the stack. *)
Lemma undone_none c s (r : record) : 0 <= c -> usedRAS r = false -> wasCall r && pushedRAS r = false -> rasUndone c s r s.
Proof. intros Hc E1 E2 k s2 Hk Ha. unfold undoRAS. rewrite E1, E2. exists s2. split; [done|]. eapply RAS.agrees_weaken; [|done]. lia. Qed.

Lemma undone_return s x (r : record) : RAS.ok s -> RAS.top s = Done x -> usedRAS r = true -> RASIndex r = RAS.topIdx s -> RASTarget r = x ->
  rasUndone 0 s r (RAS.pop s).
Proof. intros Hs Ex E1 E2 E3 k s2 Hk Ha. unfold undoRAS. rewrite E1, E2, E3, Z.add_0_r. by apply RAS.agrees_pop_restore. Qed.

Lemma undone_call s s' x (r : record) : RAS.ok s -> RAS.push x s = Done s' -> usedRAS r = false -> wasCall r && pushedRAS r = true -> rasUndone 1 s r s'.
Proof. intros Hs Ex E1 E2 k s2 Hk Ha. unfold undoRAS. rewrite E1, E2. eexists. split; [done|]. by eapply RAS.agrees_push_pop. Qed.

(** A call that is taken back at once. *)
Lemma undone_popped s s' x (r : record) : RAS.ok s -> RAS.push x s = Done s' -> usedRAS r = false -> wasCall r && pushedRAS r = false ->
  rasUndone 1 s r (RAS.pop s').
Proof.
  intros Hs Ex E1 E2 k s2 Hk Ha. unfold undoRAS. rewrite E1, E2. exists s2. split; [done|]. rewrite Z.add_comm.
  assert (Hok : RAS.ok s') by (destruct (RAS.push_spec s Hs x) as (y & Ey & Hy & _); rewrite Ex in Ey; by injection Ey as <-).
  eapply RAS.agrees_trans; [lia|done| |done]. apply (RAS.agrees_push_pop 0 x s s' s'); [done|lia|done|]. by apply RAS.agrees_refl.
Qed.

(** ** Prediction *)

Lemma btb_total (b : BTB.t PC) zero a th : BTB.ok b -> exists v x, BTB.valid b a th = Done v /\ BTB.lookup zero b a th = Done x.
Proof.
  intros Hb. unfold BTB.valid, BTB.lookup. destruct (vec_get_in (BTB.btb b) (BTB.getIndex b a)) as (e & -> & _); [by apply BTB.getIndex_bound|]. by do 2 eexists.
Qed.

Lemma threadAt_same u th hist s st d : threadAt u th hist s -> threadAt (mk (predHist u) (btb u) (ras u) d st) th hist s.
Proof. by intros []. Qed.

Lemma threadAt_ras u th hist s s' : threadAt u th hist s -> threadAt (withRas (<[Z.to_nat th := s']> (ras u)) u) th hist s'.
Proof. intros [H1' H2' H3']. split; [done..|]. cbn. apply list_lookup_insert_eq. by eapply lookup_lt_Some. Qed.

Lemma useRAS_spec cur th r u hist s : threadAt u th hist s -> RAS.ok s -> exists x st, RAS.top s = Done x /\
  useRAS cur th r u = Done (buildRetPC cur x, setTop x (RAS.topIdx s) r, mk (predHist u) (btb u) (<[Z.to_nat th := RAS.pop s]> (ras u)) (dir u) st).
Proof.
  intros Ht Hs. destruct (RAS.top_spec s Hs) as (x & Ex & _). exists x. unfold useRAS. set (u1 := counting _ u).
  assert (Ht1 : threadAt u1 th hist s) by (by destruct Ht). eexists. split; [done|]. rewrite (get_ras _ _ _ _ Ht1). cbn [obind]. rewrite Ex. cbn [obind].
  rewrite (set_ras _ _ _ _ _ Ht1). done.
Qed.

Lemma pushCall_spec inst cur th r u hist s : threadAt u th hist s -> RAS.ok s -> exists s' r', RAS.ok s' /\ RAS.numEntries s' = RAS.numEntries s /\
  pushCall inst cur th r u = Done (r', withRas (<[Z.to_nat th := s']> (ras u)) u) /\
  (if isCall inst then RAS.push cur s = Done s' /\ r' = setCall (setPushed true r) else s' = s /\ r' = r).
Proof.
  intros Ht Hs. unfold pushCall. destruct (isCall inst).
  - destruct (RAS.push_spec s Hs cur) as (s' & Es & Hok & En & _). exists s', (setCall (setPushed true r)).
    rewrite (get_ras _ _ _ _ Ht). cbn [obind]. rewrite Es. cbn [obind]. by rewrite (set_ras _ _ _ _ _ Ht).
  - exists s, r. rewrite list_insert_id by apply Ht. split; [done|]. split; [done|]. split; [by destruct u|done].
Qed.

(** The end of both prediction routines. *)
Lemma push_record u th hist s (u1 : unit) (r : record) (b : bool) (x : PC) : threadAt u th hist s -> predHist u1 = predHist u ->
  (let! h := vec_get (predHist u1) th in let! u2 := setHist th (r :: h) u1 in Done (b, x, u2)) =
  Done (b, x, withHist (<[Z.to_nat th := r :: hist]> (predHist u)) u1).
Proof.
  intros [H1' H2' H3'] E. rewrite E. rewrite (proj2 (vec_get_Done _ _ _) (conj H1' H2')). cbn [obind]. unfold setHist. rewrite E.
  rewrite vec_set_in; [done|]. apply lookup_lt_Some in H2'. lia.
Qed.

(** The record and the unit after a taken branch that is not a return. *)
Lemma btb_miss_spec inst a th u hist s s' (r : record) c : threadAt u th hist s' -> predOK (dir u) -> RAS.ok s -> RAS.ok s' ->
  usedRAS r = false -> isReturn inst = false -> (if isCall inst then RAS.push c s = Done s' /\ wasCall r && pushedRAS r = true
    else s' = s /\ wasCall r = false) -> exists r' s'' d, missBTB inst a th r u = Done (r', mk (predHist u) (btb u) (<[Z.to_nat th := s'']> (ras u)) d (stat u)) /\
    RAS.ok s'' /\ RAS.numEntries s'' = RAS.numEntries s' /\ RASIndex r' = RASIndex r /\ bpHistory r' = bpHistory r /\ seqNum r' = seqNum r /\
    rasUndone (if isCall inst then 1 else 0) s r' s'' /\ predOK d /\ counters d = counters (dir u).
Proof.
  intros Ht Hd Hs Hs' Eu Er Hc. unfold missBTB. rewrite Er. destruct (isCall inst) eqn:Ec; cbn [negb andb].
  - destruct Hc as [Ep Hc]. destruct (isUncondCtrl inst); cbn [negb].
    + exists r, s', (dir u). rewrite list_insert_id by apply Ht. split; [by destruct u|]. repeat split; try done; try apply Hs'. by eapply undone_call.
    + rewrite (get_ras _ _ _ _ Ht). cbn [obind]. rewrite (set_ras _ _ _ _ _ Ht). cbn [obind]. exists (setPushed false r), (RAS.pop s'), (dir u).
      split; [done|]. split; [by apply RAS.pop_ok|]. repeat split; try done. eapply undone_popped; [done..|]. apply andb_false_r.
  - destruct Hc as [-> Hc]. destruct (btb_law a (dir u) Hd) as (d & -> & Hd' & Hcd). cbn [obind]. exists r, s, d. rewrite list_insert_id by apply Ht.
    split; [done|]. repeat split; try done; try apply Hs. apply undone_none; [lia|done|by rewrite Hc].
Qed.

(** How many entries of the stack a branch may cost. *)
Definition cost (inst : Inst) : Z := if isCall inst then 1 else 0.

Lemma cost_nonneg inst : 0 <= cost inst.
Proof. unfold cost. destruct (isCall inst); lia. Qed.

(** What the middle of [predict] does. *)
Lemma target_spec inst sn cur th u hist s (taken : bool) h : threadAt u th hist s -> predOK (dir u) -> BTB.ok (btb u) -> RAS.ok s -> isReturn inst = false ->
  exists b x r s' d st, (let! (r, u) := pushCall inst cur th (newRecord sn (instAddr cur) taken h th) (counting (mkStats 0 0 0 1 0 0 0) u) in
    let! hit := BTB.valid (btb u) (instAddr cur) th in
    if hit then let! target := BTB.lookup (ofAddr 0) (btb u) (instAddr cur) th in Done (true, target, r, counting (mkStats 0 0 0 0 1 0 0) u)
    else let! (r, u) := missBTB inst (instAddr cur) th r u in Done (false, advancePC cur inst, r, u)) =
    Done (b, x, r, mk (predHist u) (btb u) (<[Z.to_nat th := s']> (ras u)) d st) /\
  seqNum r = sn /\ bpHistory r = h /\ RASIndex r = 0 /\ RAS.ok s' /\ RAS.numEntries s' = RAS.numEntries s /\ rasUndone (cost inst) s r s' /\
  predOK d /\ counters d = counters (dir u).
Proof.
  intros Ht Hd Hb Hs Er. set (r0 := newRecord _ _ _ _ _). assert (Ht1 : threadAt (counting (mkStats 0 0 0 1 0 0 0) u) th hist s) by (by destruct Ht).
  destruct (pushCall_spec inst cur th r0 _ hist s Ht1 Hs) as (s' & r & Hok & En & -> & Hc). cbn [obind]. cbn [btb withRas counting].
  destruct (btb_total (btb u) (ofAddr 0) (instAddr cur) th Hb) as (hit & x & -> & ->). cbn [obind].
  assert (Eu : usedRAS r = false /\ seqNum r = sn /\ bpHistory r = h /\ RASIndex r = 0) by (destruct (isCall inst); destruct Hc as [_ ->]; done).
  destruct Eu as (Eu & Esn & Eh & Ei). destruct hit.
  - do 6 eexists. split; [done|]. cbn. repeat split; try done; try apply Hok. unfold cost. destruct (isCall inst).
    + destruct Hc as [Hc ->]. by eapply undone_call.
    + destruct Hc as [-> ->]. by apply undone_none.
  - destruct (btb_miss_spec inst (instAddr cur) th _ hist s s' r cur (threadAt_ras _ _ _ _ s' Ht1) Hd Hs Hok Eu Er) as
      (r' & s'' & d & -> & Hok' & En' & Ei' & Eh' & Esn' & Hu & Hd' & Hc').
    { destruct (isCall inst); destruct Hc as [Hc ->]; by split. }
    cbn [obind ras withRas counting]. rewrite list_insert_insert_eq. do 6 eexists. split; [done|]. repeat split; try congruence; try apply Hok'; try done.
Qed.

(** [predict] does not fail, and can be undone. *)
Lemma predict_spec inst sn cur th u hist s : threadAt u th hist s -> predOK (dir u) -> BTB.ok (btb u) -> RAS.ok s ->
  exists b x r s' u1, predict inst sn cur th u = Done (b, x, withHist (<[Z.to_nat th := r :: hist]> (predHist u)) u1) /\
    seqNum r = sn /\ predicted (cost inst) u th s r s' u1.
Proof.
  intros Ht Hd Hb Hs. unfold predict. destruct (direction_spec inst (instAddr cur) u Hd) as (taken & h & d & st & -> & Hd1 & Hh & Hsv & Hc). cbn [obind].
  set (u0 := mk _ _ _ _ _). assert (Ht0 : threadAt u0 th hist s) by by apply threadAt_same. pose proof (RAS.ok_size _ Hs) as Hn. destruct taken; [destruct (isReturn inst) eqn:Er|].
  - destruct (useRAS_spec cur th (setReturn (newRecord sn (instAddr cur) true h th)) u0 hist s Ht0 Hs) as (x & st' & Ex & ->). cbn [obind].
    rewrite (push_record u th hist s) by done. do 5 eexists. split; [done|]. split; [done|]. split; try done; cbn.
    + exact (RAS.pop_ok s Hs).
    + exact (RAS.ok_tos _ Hs).
    + intros k s2 Hk Ha. destruct (undone_return s x (setTop x (RAS.topIdx s) (setReturn (newRecord sn (instAddr cur) true h th))) Hs Ex eq_refl eq_refl eq_refl k s2 Hk Ha)
        as (s3 & E3 & H3). exists s3. split; [done|]. eapply RAS.agrees_weaken; [|done]. pose proof (cost_nonneg inst). lia.
  - destruct (target_spec inst sn cur th u0 hist s true h Ht0 Hd1 Hb Hs Er) as (b & x & r & s' & d' & st' & -> & Esn & Eh & Ei & Hok & En & Hu & Hd' & Hc').
    cbn [obind]. rewrite (push_record u th hist s) by done. do 5 eexists. split; [done|]. split; [done|]. split; try done; cbn.
    + rewrite Ei. lia.
    + by rewrite Eh.
    + by rewrite Hc'.
  - cbn [obind]. rewrite (push_record u th hist s) by done. exists false, (advancePC cur inst). do 3 eexists. split; [done|]. split; [by destruct (isReturn inst)|].
    split; try done; cbn [ras u0 RAS.numEntries]; try (by destruct (isReturn inst)).
    + symmetry. apply list_insert_id, Ht.
    + replace (RASIndex _) with 0 by (by destruct (isReturn inst)). lia.
    + apply undone_none; [apply cost_nonneg|by destruct (isReturn inst)..].
Qed.

(** ** A squash after any number of predictions *)

Fixpoint predictAll (l : list (Inst * Z * PC)) (th : Z) (u : unit) : outcome unit :=
  match l with [] => Done u | (inst, sn, cur) :: l => let! (_, _, u) := predict inst sn cur th u in predictAll l th u end.

Definition costAll (l : list (Inst * Z * PC)) : Z := foldr (fun x k => k + cost (fst (fst x))) 0 l.

Lemma costAll_nonneg l : 0 <= costAll l.
Proof. induction l as [|x l IH]; [done|]. change (0 <= costAll l + cost (fst (fst x))). pose proof (cost_nonneg (fst (fst x))). lia. Qed.

(** One step back. *)
Lemma squash_back c u th s (r : record) s' u1 sn0 hist k s2 d2 : predicted c u th s r s' u1 -> sn0 < seqNum r -> 0 <= k -> RAS.agrees k s' s2 ->
  predOK d2 -> counters d2 = counters (dir u1) -> exists s3 d3, squashLoop sn0 (r :: hist) s2 d2 = squashLoop sn0 hist s3 d3 /\
    RAS.agrees (k + c) s s3 /\ predOK d3 /\ spec d3 = spec (dir u) /\ counters d3 = counters (dir u).
Proof.
  intros [_ _ _ _ _ _ Hu _ [Hh Hsv] Hc] Hsn Hk Ha Hd Hcd. destruct (Hu k s2 Hk Ha) as (s3 & E3 & H3). destruct (squash_law (bpHistory r) d2 Hd Hh) as (d3 & E & Hd3 & Hs3 & Hc3).
  exists s3, d3. cbn [squashLoop]. rewrite (proj2 (Z.ltb_lt _ _)) by done. rewrite E3. cbn [obind]. rewrite E. cbn [obind]. repeat split; try congruence; apply H3.
Qed.

Lemma predictAll_spec l th : forall u hist s, threadAt u th hist s -> predOK (dir u) -> BTB.ok (btb u) -> RAS.ok s ->
  exists recs s' u', predictAll l th u = Done u' /\ predHist u' = <[Z.to_nat th := recs ++ hist]> (predHist u) /\ btb u' = btb u /\
    ras u' = <[Z.to_nat th := s']> (ras u) /\ map seqNum recs = reverse (map (fun x => snd (fst x)) l) /\
    forall sn0, Forall (fun x => sn0 < snd (fst x)) l -> exists s2 d2, squashLoop sn0 (recs ++ hist) s' (dir u') = squashLoop sn0 hist s2 d2 /\
      RAS.agrees (costAll l) s s2 /\ predOK d2 /\ spec d2 = spec (dir u) /\ counters d2 = counters (dir u).
Proof.
  induction l as [|[[inst sn] cur] l IH]; intros u hist s Ht Hd Hb Hs; cbn [predictAll].
  - exists [], s, u. split; [done|]. destruct Ht as [Hp Eh Er]. cbn. rewrite !list_insert_id by done. repeat split.
    intros sn0 _. exists s, (dir u). split; [done|]. split; [by apply RAS.agrees_refl|done].
  - destruct (predict_spec inst sn cur th u hist s Ht Hd Hb Hs) as (b & x & r & s1 & u1 & -> & Esn & Hpr). cbn [obind]. set (ux := withHist _ u1).
    pose proof Ht as [Hp Eh Er]. assert (Ht1 : threadAt ux th (r :: hist) s1).
    { split; [done| |]; cbn; [|rewrite (pr_ras _ _ _ _ _ _ _ Hpr)]; apply list_lookup_insert_eq; by eapply lookup_lt_Some. }
    destruct (IH ux (r :: hist) s1 Ht1 (pr_dir _ _ _ _ _ _ _ Hpr)) as (recs & s' & u' & E & E1 & E2 & E3 & E4 & Hq).
    { cbn. by rewrite (pr_btb _ _ _ _ _ _ _ Hpr). } { by destruct Hpr. }
    exists (recs ++ [r]), s', u'. split; [done|]. rewrite <- app_assoc. cbn [app]. cbn [predHist btb ras withHist ux] in E1, E2, E3.
    rewrite (pr_btb _ _ _ _ _ _ _ Hpr) in E2. rewrite (pr_ras _ _ _ _ _ _ _ Hpr), list_insert_insert_eq in E3. rewrite list_insert_insert_eq in E1.
    repeat split; try done.
    + rewrite map_app, E4. cbn [map fst snd]. by rewrite reverse_cons, Esn.
    + intros sn0 [Hsn Hl]%Forall_cons. cbn in Hsn. destruct (Hq sn0 Hl) as (s2 & d2 & -> & Ha & Hd2 & Hs2 & Hc2). cbn [costAll foldr fst].
      destruct (squash_back _ _ _ _ _ _ _ sn0 hist _ s2 d2 Hpr ltac:(lia) (costAll_nonneg l) Ha Hd2 Hc2) as (s3 & d3 & -> & ?). by exists s3, d3.
Qed.
End unit.
End BPredCorrect.
