(* ===== verification/BPredRun.v ===== *)
(** * Runs of the branch prediction unit

    The unit keeps exactly the predictions in flight, in order, and never
    fails; squashing restores what predicting changed. *)

From Stdlib Require Import ZArith Lia Sorted.
From stdpp Require Import base list sets sorting.
From S2P Require Import Prelude Bits SatCounter RAS BTB DirPred DirPredCorrect BPredUnit BPredCorrect.

#[local] Open Scope Z_scope.
#[local] Open Scope outcome_scope.

Module BPredRun.
Import BPredUnit BPredCorrect.

Lemma StronglySorted_reverse {A} (R : relation A) l : StronglySorted R l -> StronglySorted (flip R) (reverse l).
Proof.
  induction 1 as [|x l Hl IH Hx]; [constructor|]. rewrite reverse_cons. apply StronglySorted_app_2; [|done|by repeat constructor].
  intros y z Hy Hz. rewrite elem_of_reverse in Hy. apply list_elem_of_singleton in Hz as ->. by eapply Forall_forall in Hx.
Qed.

Section unit.
Context {PC Inst P H : Type} `{ISA PC Inst, Speculates P H}.
Notation unit := (BPredUnit.t PC P H).
Notation record := (PredictorHistory PC H).

(** ** The invariant *)

Definition newer (a b : record) : Prop := seqNum b < seqNum a.

(** A history of a thread whose stack has [n] entries. *)
Record histsOK (n : Z) (h : list record) : Prop := {
  ho_records : Forall (fun r => histOK (bpHistory r) /\ 0 <= RASIndex r < n) h;
  ho_order : StronglySorted newer h }.

Definition stackOK (n : Z) (s : RAS.t PC) : Prop := RAS.ok s /\ RAS.numEntries s = n.

Record unitOK (n : Z) (u : unit) : Prop := {
  uo_dir : predOK (dir u);
  uo_btb : BTB.ok (btb u);
  uo_threads : length (ras u) = length (predHist u);
  uo_ras : Forall (stackOK n) (ras u);
  uo_hist : Forall (histsOK n) (predHist u) }.

(** What the invariant says of one thread. *)
Lemma unit_thread n u th : unitOK n u -> 0 <= th < Z.of_nat (length (predHist u)) ->
  exists h s, threadAt u th h s /\ histsOK n h /\ stackOK n s.
Proof.
  intros Hu Hth. destruct (lookup_lt_is_Some_2 (predHist u) (Z.to_nat th)) as [h Eh]; [lia|].
  destruct (lookup_lt_is_Some_2 (ras u) (Z.to_nat th)) as [s Es]; [rewrite (uo_threads _ _ Hu); lia|].
  exists h, s. split; [split; [lia|done..]|]. split; [exact (Forall_lookup_1 _ _ _ _ (uo_hist _ _ Hu) Eh)|exact (Forall_lookup_1 _ _ _ _ (uo_ras _ _ Hu) Es)].
Qed.

(** The thread changes, the rest stays. *)
Lemma unit_set n (u : unit) th h s d b st : unitOK n u -> histsOK n h -> stackOK n s -> predOK d -> BTB.ok b ->
  unitOK n (mk (<[Z.to_nat th := h]> (predHist u)) b (<[Z.to_nat th := s]> (ras u)) d st).
Proof. intros [H1' H2' H3' H4' H5'] Hh Hs Hd Hb. split; cbn; try done; [by rewrite !length_insert|by apply Forall_insert..]. Qed.

(** ** The loops *)

Lemma commitLoop_spec n sn l : StronglySorted (flip newer) l -> Forall (fun r => histOK (bpHistory r) /\ 0 <= RASIndex r < n) l ->
  forall d, predOK d -> exists d', commitLoop sn l d = Done (filter (fun r => sn < seqNum r) l, d') /\ predOK d'.
Proof.
  induction 1 as [|r l Hl IH Hr]; intros Hok d Hd; [by exists d|]. apply Forall_cons in Hok as [[Hh _] Hok]. cbn [commitLoop]. rewrite filter_cons.
  destruct (Z.leb_spec (seqNum r) sn) as [Hle|Hgt].
  - rewrite decide_False by lia. assert (Hd1 : exists d1, (if negb (wasSquashed r) then DirPred.update (pc r) (predTaken r) (bpHistory r) false d
        else retireSquashed (bpHistory r) d) = Done d1 /\ predOK d1).
    { destruct (wasSquashed r); cbn [negb]; [exists d; by rewrite retire_law|].
      destruct (update_law (pc r) (predTaken r) (bpHistory r) false d Hd Hh) as (d1 & E & Hd1 & _). by exists d1. }
    destruct Hd1 as (d1 & -> & Hd1). cbn [obind]. by apply IH.
  - rewrite decide_True by lia. exists d. split; [|done]. do 3 f_equal. symmetry. apply list_filter_all.
    eapply Forall_impl; [exact Hr|]. unfold flip, newer. cbn. intros x Hx. lia.
Qed.

Lemma undoRAS_spec n (r : record) s : 0 <= RASIndex r < n -> stackOK n s -> exists s', undoRAS r s = Done s' /\ stackOK n s'.
Proof.
  intros Hi [Hs En]. unfold undoRAS. destruct (usedRAS r).
  - destruct (RAS.restore_spec s Hs (RASIndex r) (RASTarget r)) as (s' & E & Hs' & En'); [by rewrite En|]. exists s'. split; [done|]. split; [done|congruence].
  - destruct (_ && _); [|by exists s]. exists (RAS.pop s). split; [done|]. split; [by apply RAS.pop_ok|done].
Qed.

Lemma squashLoop_spec n sn l : StronglySorted newer l -> Forall (fun r => histOK (bpHistory r) /\ 0 <= RASIndex r < n) l ->
  forall s d, stackOK n s -> predOK d -> exists s' d', squashLoop sn l s d = Done (filter (fun r => seqNum r <= sn) l, s', d') /\ stackOK n s' /\ predOK d'.
Proof.
  induction 1 as [|r l Hl IH Hr]; intros Hok s d Hs Hd; [by exists s, d|]. apply Forall_cons in Hok as [[Hh Hi] Hok]. cbn [squashLoop]. rewrite filter_cons.
  destruct (Z.ltb_spec sn (seqNum r)) as [Hlt|Hge].
  - rewrite decide_False by lia. destruct (undoRAS_spec n r s Hi Hs) as (s1 & -> & Hs1). cbn [obind].
    destruct (squash_law (bpHistory r) d Hd Hh) as (d1 & -> & Hd1 & _). cbn [obind]. by apply IH.
  - rewrite decide_True by lia. exists s, d. split; [|done]. do 4 f_equal. symmetry. apply list_filter_all.
    eapply Forall_impl; [exact Hr|]. unfold newer. cbn. intros x Hx. lia.
Qed.

(** ** The operations *)

Lemma filter_newer (Q : record -> Prop) `{forall r, Decision (Q r)} h : StronglySorted newer h -> StronglySorted newer (filter Q h).
Proof.
  induction 1 as [|r l Hl IH Hx]; [constructor|]. rewrite filter_cons. case_decide; [|done]. constructor; [done|].
  apply Forall_forall. intros y [_ Hy]%list_elem_of_filter. by eapply Forall_forall in Hx.
Qed.

Lemma filter_hists n (Q : record -> Prop) `{forall r, Decision (Q r)} h : histsOK n h -> histsOK n (filter Q h).
Proof.
  intros [Hr Ho]. split.
  - apply Forall_forall. intros r [_ Hin]%list_elem_of_filter. by eapply Forall_forall in Hr.
  - by apply filter_newer.
Qed.

Lemma unit_squash_spec n sn th (u : unit) h s : unitOK n u -> threadAt u th h s -> histsOK n h -> stackOK n s ->
  exists s' d, squash sn th u = Done (mk (<[Z.to_nat th := filter (fun r => seqNum r <= sn) h]> (predHist u)) (btb u) (<[Z.to_nat th := s']> (ras u)) d (stat u)) /\
    stackOK n s' /\ predOK d.
Proof.
  intros Hu Ht [Hr Ho] Hs. destruct (squashLoop_spec n sn h Ho Hr s (dir u) Hs (uo_dir _ _ Hu)) as (s' & d & E & Hs' & Hd). exists s', d. split; [|done].
  unfold squash. rewrite (get_hist _ _ _ _ Ht), (get_ras _ _ _ _ Ht). cbn [obind]. rewrite E. cbn [obind].
  assert (Ht' : threadAt (withDir d u) th h s) by (by destruct Ht). rewrite (set_ras _ _ _ _ _ Ht'). cbn [obind].
  by rewrite (set_hist _ _ _ _ _ (threadAt_ras _ _ _ _ s' Ht')).
Qed.

Lemma fixRAS_spec n taken (r : record) s : 0 <= RASIndex r < n -> stackOK n s -> exists r' s', fixRAS taken r s = Done (r', s') /\ stackOK n s' /\
  seqNum r' = seqNum r /\ bpHistory r' = bpHistory r /\ RASIndex r' = RASIndex r /\ pc r' = pc r.
Proof.
  intros Hi [Hs En]. assert (Hp : stackOK n (RAS.pop s)) by (split; [by apply RAS.pop_ok|done]). unfold fixRAS. destruct taken.
  - destruct (_ && _); by do 2 eexists.
  - destruct (usedRAS r).
    + destruct (RAS.restore_spec s Hs (RASIndex r) (RASTarget r)) as (s' & E & Hs' & En'); [by rewrite En|]. rewrite E. cbn [obind].
      do 2 eexists. split; [done|]. split; [|done]. split; [done|congruence].
    + destruct (_ && _); by do 2 eexists.
Qed.

(** ** Runs *)

Inductive op := Predict (inst : Inst) (sn : Z) (cur : PC) (th : Z) | Commit (sn th : Z) | Squash (sn th : Z)
  | Mispredict (sn : Z) (target : PC) (taken : bool) (th : Z).
Definition step (o : op) (u : unit) : outcome unit :=
  match o with
  | Predict inst sn cur th => let! (_, _, u) := predict inst sn cur th u in Done u
  | Commit sn th => update sn th u
  | Squash sn th => squash sn th u
  | Mispredict sn target taken th => squashMispredicted sn target taken th u
  end.

(** The sequence numbers in flight, per thread, newest first. *)
Definition inFlight (u : unit) : list (list Z) := map (map seqNum) (predHist u).

(** What an operation means for them. *)
Definition onThread (th : Z) (f : list Z -> list Z) (a : list (list Z)) : list (list Z) :=
  match a !! Z.to_nat th with Some h => <[Z.to_nat th := f h]> a | None => a end.
Definition flow (o : op) (a : list (list Z)) : list (list Z) :=
  match o with
  | Predict _ sn _ th => onThread th (cons sn) a
  | Commit sn th => onThread th (filter (fun x => sn < x)) a
  | Squash sn th | Mispredict sn _ _ th => onThread th (filter (fun x => x <= sn)) a
  end.

(** The processor numbers branches in order, and reports a misprediction of a
    branch in flight, or of an instruction older than all of them. *)
Definition allowed (o : op) (a : list (list Z)) : Prop :=
  match o with
  | Predict _ sn _ th => 0 <= th < Z.of_nat (length a) /\ forall h, a !! Z.to_nat th = Some h -> Forall (fun x => x < sn) h
  | Commit _ th | Squash _ th => 0 <= th < Z.of_nat (length a)
  | Mispredict sn _ _ th => 0 <= th < Z.of_nat (length a) /\ forall h, a !! Z.to_nat th = Some h -> sn ∈ h \/ Forall (fun x => sn < x) h
  end.

Lemma map_seqNum_filter (Q : Z -> Prop) `{forall x, Decision (Q x)} (h : list record) :
  map seqNum (filter (fun r => Q (seqNum r)) h) = filter Q (map seqNum h).
Proof. induction h as [|r h IH]; [done|]. cbn [map]. rewrite !filter_cons. case_decide; cbn [map]; by rewrite IH. Qed.

Lemma inFlight_set (u : unit) th h s f h' d b r st : threadAt u th h s -> map seqNum h' = f (map seqNum h) ->
  inFlight (mk (<[Z.to_nat th := h']> (predHist u)) b r d st) = onThread th f (inFlight u).
Proof.
  intros [_ Eh _] Ef. unfold inFlight, onThread. cbn. change (map (map seqNum) (predHist u)) with (map seqNum <$> predHist u).
  rewrite list_lookup_fmap, Eh. cbn. rewrite <- Ef. apply list_fmap_insert.
Qed.

Lemma inFlight_length (u : unit) : length (inFlight u) = length (predHist u).
Proof. apply length_map. Qed.

Lemma inFlight_thread (u : unit) th h s : threadAt u th h s -> inFlight u !! Z.to_nat th = Some (map seqNum h).
Proof. intros [_ Eh _]. unfold inFlight. change (map (map seqNum) (predHist u)) with (map seqNum <$> predHist u). by rewrite list_lookup_fmap, Eh. Qed.

(** What each operation does, as one statement. *)
Definition simulated (n : Z) (o : op) (u : unit) : Prop := exists u', step o u = Done u' /\ unitOK n u' /\ inFlight u' = flow o (inFlight u).

Lemma predict_simulated n inst sn cur th u : unitOK n u -> allowed (Predict inst sn cur th) (inFlight u) -> simulated n (Predict inst sn cur th) u.
Proof.
  intros Hu [Hth Hsn]. rewrite inFlight_length in Hth. destruct (unit_thread n u th Hu Hth) as (h & s & Ht & Hh & Hs). specialize (Hsn _ (inFlight_thread _ _ _ _ Ht)).
  destruct (predict_spec inst sn cur th u h s Ht (uo_dir _ _ Hu) (uo_btb _ _ Hu) (proj1 Hs)) as (b & x & r & s' & u1 & E & Esn & Hp).
  unfold simulated. cbn [step]. rewrite E. cbn [obind]. eexists. split; [done|].
  assert (Eu : withHist (<[Z.to_nat th:=r :: h]> (predHist u)) u1 = mk (<[Z.to_nat th := r :: h]> (predHist u)) (btb u) (<[Z.to_nat th := s']> (ras u)) (dir u1) (stat u1)).
  { destruct Hp as [_ <- <- _ _ _ _ _ _ _]. done. }
  rewrite Eu. destruct Hs as [Hs En]. split.
  - apply unit_set; [done| |split; [apply Hp|by rewrite (pr_size _ _ _ _ _ _ _ Hp)]|apply Hp|apply Hu]. destruct Hh as [Hr Ho]. split.
    + constructor; [|done]. split; [apply Hp|]. rewrite <- En. apply Hp.
    + constructor; [done|]. apply Forall_map in Hsn. eapply Forall_impl; [exact Hsn|]. unfold newer. cbn. intros y Hy. by rewrite Esn.
  - cbn [flow]. eapply inFlight_set; [done|]. cbn. by rewrite Esn.
Qed.

Lemma commit_simulated n sn th u : unitOK n u -> allowed (Commit sn th) (inFlight u) -> simulated n (Commit sn th) u.
Proof.
  intros Hu Hth. cbn in Hth. rewrite inFlight_length in Hth. destruct (unit_thread n u th Hu Hth) as (h & s & Ht & Hh & Hs). pose proof Hh as [Hr Ho].
  destruct (commitLoop_spec n sn (reverse h) (StronglySorted_reverse _ _ Ho)) with (d := dir u) as (d & E & Hd);
    [by apply Forall_reverse|apply Hu|]. unfold simulated. cbn [step]. unfold update. rewrite (get_hist _ _ _ _ Ht). cbn [obind]. rewrite E. cbn [obind].
  assert (Ht' : threadAt (withDir d u) th h s) by (by destruct Ht). rewrite (set_hist _ _ _ _ _ Ht'), filter_reverse, reverse_involutive.
  eexists. split; [done|]. split.
  - pose proof (unit_set n u th (filter (fun r => sn < seqNum r) h) s d (btb u) (stat u) Hu (filter_hists _ _ _ Hh) Hs Hd (uo_btb _ _ Hu)) as Hu'.
    by rewrite (list_insert_id (ras u)) in Hu' by apply Ht.
  - cbn [flow]. apply (inFlight_set u th h s); [done|]. exact (map_seqNum_filter (fun x => sn < x) h).
Qed.

Lemma squash_simulated n sn th u : unitOK n u -> allowed (Squash sn th) (inFlight u) -> simulated n (Squash sn th) u.
Proof.
  intros Hu Hth. cbn in Hth. rewrite inFlight_length in Hth. destruct (unit_thread n u th Hu Hth) as (h & s & Ht & Hh & Hs).
  destruct (unit_squash_spec n sn th u h s Hu Ht Hh Hs) as (s' & d & E & Hs' & Hd). eexists. split; [exact E|]. split.
  - apply unit_set; [done|by apply filter_hists|done|done|apply Hu].
  - cbn [flow]. eapply inFlight_set; [done|]. exact (map_seqNum_filter (fun x => x <= sn) h).
Qed.

(** After the squash the mispredicted branch is the newest. *)
Lemma front_is_squashed sn (h : list record) r l : StronglySorted newer h -> sn ∈ map seqNum h \/ Forall (fun x => sn < x) (map seqNum h) ->
  filter (fun r => seqNum r <= sn) h = r :: l -> seqNum r = sn.
Proof.
  intros Ho Hin E. assert (Hr : r ∈ filter (fun r => seqNum r <= sn) h) by (rewrite E; left). apply list_elem_of_filter in Hr as [Hle Hr].
  destruct Hin as [Hin|Hall].
  2:{ rewrite Forall_forall in Hall. assert (sn < seqNum r) by (apply Hall, list_elem_of_fmap; by exists r). lia. }
  apply list_elem_of_fmap in Hin as (x & -> & Hx). assert (Hx' : x ∈ r :: l) by (rewrite <- E; apply list_elem_of_filter; by split).
  apply elem_of_cons in Hx' as [->|Hx']; [done|]. exfalso. assert (Hf : StronglySorted newer (r :: l)).
  { rewrite <- E. by apply filter_newer. }
  apply StronglySorted_cons in Hf as [Hf _]. eapply Forall_forall in Hf; [|exact Hx']. unfold newer in Hf. lia.
Qed.

Lemma mispredict_simulated n sn target taken th u : unitOK n u -> allowed (Mispredict sn target taken th) (inFlight u) -> simulated n (Mispredict sn target taken th) u.
Proof.
  intros Hu [Hth Hin]. rewrite inFlight_length in Hth. destruct (unit_thread n u th Hu Hth) as (h & s & Ht & Hh & Hs). specialize (Hin _ (inFlight_thread _ _ _ _ Ht)).
  unfold simulated. cbn [step flow]. unfold squashMispredicted. set (u0 := counting _ u). assert (Hu0 : unitOK n u0) by (by destruct Hu). assert (Ht0 : threadAt u0 th h s) by (by destruct Ht).
  destruct (unit_squash_spec n sn th u0 h s Hu0 Ht0 Hh Hs) as (s1 & d1 & -> & Hs1 & Hd1). cbn [obind]. set (h1 := filter _ h). set (u1 := mk _ _ _ d1 _).
  assert (Hh1 : histsOK n h1) by by apply filter_hists. assert (Ef : map seqNum h1 = filter (fun x => x <= sn) (map seqNum h)) by exact (map_seqNum_filter (fun x => x <= sn) h).
  assert (Hu1 : unitOK n u1) by (apply unit_set; [done..|apply Hu]). pose proof Ht as [Hp Eh Er]. assert (Ht1 : threadAt u1 th h1 s1).
  { split; [done|..]; cbn; apply list_lookup_insert_eq; by eapply lookup_lt_Some. }
  assert (Ei : inFlight u1 = onThread th (filter (fun x => x <= sn)) (inFlight u)) by by apply (inFlight_set u th h s).
  rewrite (get_hist _ _ _ _ Ht1). cbn [obind]. destruct h1 as [|r h1'] eqn:E1; [by exists u1|].
  rewrite (front_is_squashed sn h r h1'), Z.eqb_refl by (done || apply Hh). cbn [negb]. pose proof (ho_records _ _ Hh1) as [[Hhr Hir] Hrs]%Forall_cons.
  set (u2 := if usedRAS r then _ else _). assert (E2 : predHist u2 = predHist u1 /\ btb u2 = btb u1 /\ ras u2 = ras u1 /\ dir u2 = d1) by (unfold u2; by destruct (usedRAS r)).
  clearbody u2. destruct E2 as (E2h & E2b & E2r & E2d). rewrite E2d. destruct (update_law (pc r) taken (bpHistory r) true d1 Hd1 Hhr) as (d2 & -> & Hd2 & _). cbn [obind].
  assert (Ht2 : threadAt (withDir d2 u2) th (r :: h1') s1) by (split; cbn; [done|by rewrite E2h; apply Ht1|by rewrite E2r; apply Ht1]).
  change (ras u2) with (ras (withDir d2 u2)). rewrite (get_ras _ _ _ _ Ht2). cbn [obind].
  destruct (fixRAS_spec n taken (setSquashed r) s1 Hir Hs1) as (r' & s2 & -> & Hs2 & Esn & Ebp & Eri & Epc). cbn [obind].
  rewrite (set_ras _ _ _ _ _ Ht2). cbn [obind]. set (u3 := withRas _ _).
  assert (Hb3 : BTB.ok (btb u3)) by (cbn; rewrite E2b; apply Hu). assert (Ht3 : threadAt u3 th (r :: h1') s2) by exact (threadAt_ras _ _ _ _ s2 Ht2).
  assert (Hb : exists b, (if taken then let! b := BTB.update (pc r') target th (btb u3) in Done (withBtb b u3) else Done u3) = Done (withBtb b u3) /\ BTB.ok b).
  { destruct taken; [|by exists (btb u3)]. destruct (BTB.update_entries (pc r') target th (btb u3) Hb3) as (l & -> & Hl & _). by eexists. }
  destruct Hb as (b & -> & Hb). cbn [obind]. assert (Ht4 : threadAt (withBtb b u3) th (r :: h1') s2) by (by destruct Ht3).
  rewrite (set_hist _ _ _ _ _ Ht4). eexists. split; [done|].
  assert (E4 : withHist (<[Z.to_nat th := r' :: h1']> (predHist (withBtb b u3))) (withBtb b u3) =
    mk (<[Z.to_nat th := r' :: h1']> (predHist u)) b (<[Z.to_nat th := s2]> (ras u)) d2 (stat u2)).
  { unfold withHist. cbn. rewrite E2h, E2r. cbn. by rewrite !list_insert_insert_eq. }
  rewrite E4. split.
  - apply (unit_set n u); try done. split.
    + constructor; [|done]. by rewrite Ebp, Eri.
    + pose proof (ho_order _ _ Hh1) as [Hf Hl]%StronglySorted_cons. constructor; [done|]. eapply Forall_impl; [exact Hf|]. unfold newer. by rewrite Esn.
  - apply (inFlight_set u th h s); [done|]. rewrite <- Ef. cbn. by rewrite Esn.
Qed.

Lemma step_simulated n o u : unitOK n u -> allowed o (inFlight u) -> simulated n o u.
Proof. destruct o; [apply predict_simulated|apply commit_simulated|apply squash_simulated|apply mispredict_simulated]. Qed.

Fixpoint runs (l : list op) (u : unit) : outcome unit := match l with [] => Done u | o :: l => let! u := step o u in runs l u end.
Fixpoint flows (l : list op) (a : list (list Z)) : list (list Z) := match l with [] => a | o :: l => flows l (flow o a) end.
Fixpoint allowedAll (l : list op) (a : list (list Z)) : Prop := match l with [] => True | o :: l => allowed o a /\ allowedAll l (flow o a) end.

Lemma runs_simulated n l : forall u, unitOK n u -> allowedAll l (inFlight u) -> exists u', runs l u = Done u' /\ unitOK n u' /\ inFlight u' = flows l (inFlight u).
Proof.
  induction l as [|o l IH]; intros u Hu Ha; cbn; [by exists u|]. destruct Ha as [Ho Ha]. destruct (step_simulated n o u Hu Ho) as (u1 & -> & Hu1 & E1).
  cbn [obind]. rewrite <- E1 in *. by apply IH.
Qed.

(** A new unit. *)
Record sizes := mkSizes { numThreads : Z; BTBEntries : Z; BTBTagSize : Z; instShiftAmt : Z; RASSize : Z }.
Record sizesOK (z : sizes) : Prop := {
  so_btb : 0 < BTBEntries z < 2 ^ 32;
  so_tag : 0 <= BTBTagSize z <= 32;
  so_shift : 0 <= instShiftAmt z;
  so_ras : 0 < RASSize z < 2 ^ 32 }.
Definition newUnit (z : sizes) (d : P) : outcome unit := new (numThreads z) (BTBEntries z) (BTBTagSize z) (instShiftAmt z) (RASSize z) d.

Lemma newUnit_ok z d u : sizesOK z -> predOK d -> newUnit z d = Done u -> unitOK (RASSize z) u /\ inFlight u = replicate (Z.to_nat (numThreads z)) [].
Proof.
  intros [H1' H2' H3' H4'] Hd E. unfold newUnit, new in E. apply obind_Done in E as (b & Eb & [= <-]). split.
  - split; cbn; [done|exact (BTB.btb_new_ok _ _ _ _ _ H1' H2' H3' Eb)|by rewrite !length_replicate|..]; apply Forall_replicate.
    + split; [by apply RAS.init_ok|done].
    + split; constructor.
  - unfold inFlight. cbn. exact (fmap_replicate _ _ _).
Qed.

(** C31: the branch prediction unit keeps exactly the predictions in flight: for
    every direction predictor that keeps its promises, from a new unit, any
    sequence of predictions in program order, commits, squashes and reported
    mispredictions returns, and each thread's history is the list of its
    branches that are neither committed nor squashed, newest first. *)
Theorem bpred_refines z d u l : sizesOK z -> predOK d -> newUnit z d = Done u -> allowedAll l (replicate (Z.to_nat (numThreads z)) []) ->
  exists u', runs l u = Done u' /\ inFlight u' = flows l (replicate (Z.to_nat (numThreads z)) []).
Proof.
  intros Hz Hd E Hl. destruct (newUnit_ok z d u Hz Hd E) as [Hu Ei]. rewrite <- Ei in *.
  destruct (runs_simulated _ l u Hu Hl) as (u' & E' & _ & Ef). by exists u'.
Qed.

(** C32: a squash undoes predictions: in any state a run reaches, predicting any
    branches of a thread and squashing them restores the histories, the target
    buffer, the counters and the speculative history of the direction predictor,
    and the thread's return stack: its top, and all entries but at most one of
    the deepest for each squashed call. *)
Theorem squash_restores z d u0 ops u th h s l sn : sizesOK z -> predOK d -> newUnit z d = Done u0 -> allowedAll ops (replicate (Z.to_nat (numThreads z)) []) ->
  runs ops u0 = Done u -> threadAt u th h s -> Forall (fun r => seqNum r <= sn) h -> Forall (fun x => sn < snd (fst x)) l ->
  exists u1 u2 s2, predictAll l th u = Done u1 /\ squash sn th u1 = Done u2 /\ predHist u2 = predHist u /\ btb u2 = btb u /\
    ras u2 = <[Z.to_nat th := s2]> (ras u) /\ RAS.tos s2 = RAS.tos s /\ (forall k, 0 <= k < RASSize z - costAll l -> RAS.depth k s2 = RAS.depth k s) /\
    spec (dir u2) = spec (dir u) /\ counters (dir u2) = counters (dir u).
Proof.
  intros Hz Hd E Ha Er Ht Hh Hl. destruct (newUnit_ok z d u0 Hz Hd E) as [Hu0 Ei]. rewrite <- Ei in Ha.
  destruct (runs_simulated _ ops u0 Hu0 Ha) as (u' & E' & Hu & _). rewrite Er in E'. injection E' as <-.
  pose proof Ht as [Hp Eh Es]. pose proof (Forall_lookup_1 _ _ _ _ (uo_ras _ _ Hu) Es) as [Hs En].
  destruct (predictAll_spec l th u h s Ht (uo_dir _ _ Hu) (uo_btb _ _ Hu) Hs) as (recs & s' & u1 & E1 & Eh1 & Eb1 & Er1 & _ & Hq).
  destruct (Hq sn Hl) as (s2 & d2 & Eq & [Ho2 En2 Et2 Ed2] & Hd2 & Hs2 & Hc2).
  assert (Eq' : squashLoop sn h s2 d2 = Done (h, s2, d2)).
  { destruct h as [|r h']; [done|]. cbn. apply Forall_cons in Hh as [Hr _]. by rewrite (proj2 (Z.ltb_ge _ _)) by done. }
  assert (Ht1 : threadAt u1 th (recs ++ h) s').
  { split; [done|rewrite Eh1|rewrite Er1]; apply list_lookup_insert_eq; by eapply lookup_lt_Some. }
  exists u1. eexists. exists s2. split; [done|]. unfold squash. rewrite (get_hist _ _ _ _ Ht1), (get_ras _ _ _ _ Ht1). cbn [obind]. rewrite Eq, Eq'. cbn [obind].
  assert (Ht2 : threadAt (withDir d2 u1) th (recs ++ h) s') by (by destruct Ht1). rewrite (set_ras _ _ _ _ _ Ht2). cbn [obind].
  rewrite (set_hist _ _ _ _ _ (threadAt_ras _ _ _ _ s2 Ht2)). split; [done|]. cbn. rewrite Eh1, Er1, !list_insert_insert_eq, list_insert_id by done.
  repeat split; try done. intros k Hk. apply Ed2. lia.
Qed.
End unit.
Arguments op : clear implicits.

(** ** An instruction set of four-byte instructions *)

Record inst := mkInst { uncond : bool; ret : bool; call : bool }.
#[local] Instance isa : ISA Z inst := {|
  instAddr a := a; ofAddr a := a; buildRetPC _ a := a + 4; advancePC a _ := a + 4; branchTarget _ a := Done a;
  isUncondCtrl := uncond; isReturn := ret; isCall := call; isDirectCtrl _ := false |}.
Definition jump := mkInst true false false.
Definition branch := mkInst false false false.
Definition callInst := mkInst true false true.
Definition retInst := mkInst true true false.
Definition condRet := mkInst false true false.

#[local] Existing Instance TournamentBP.predictor.
#[local] Existing Instance TournamentBPCorrect.laws.
Notation exUnit := (BPredUnit.t Z TournamentBP.t TournamentBP.BPHistory).
Definition exNew : TournamentBP.t -> outcome exUnit := newUnit (Inst := inst) (mkSizes 1 16 16 2 4).

Definition exSizes : sizes := mkSizes 1 16 16 2 4.
Definition exOps : list (op Z inst) :=
  [Predict callInst 1 0x100 0; Predict branch 2 0x104 0; Mispredict 2 0x200 true 0; Predict retInst 3 0x200 0; Commit 1 0; Squash 2 0].

Lemma exSizes_ok : sizesOK exSizes.
Proof. split; cbn; lia. Qed.

(** The run is one of the processor's. *)
Lemma exOps_allowed : allowedAll exOps (replicate (Z.to_nat (numThreads exSizes)) []).
Proof. cbn. repeat split; try lia; intros h [= <-]; repeat constructor; try lia; left; set_solver. Qed.

Lemma exDir_ok d : TournamentBP.new 4 2 4 4 2 4 2 2 = Done d -> predOK d.
Proof. apply (TournamentBPCorrect.tournament_new_ok 4 2 4 4 2 4 2 2); lia. Qed.

Lemma bpred_refines_witness : exists d (u u' : exUnit), TournamentBP.new 4 2 4 4 2 4 2 2 = Done d /\ exNew d = Done u /\ runs exOps u = Done u' /\ inFlight u' = [[2]].
Proof.
  destruct (TournamentBP.new 4 2 4 4 2 4 2 2) as [d| |] eqn:E; [|discriminate E..]. destruct (exNew d) as [u| |] eqn:Eu; [|discriminate Eu..].
  destruct (bpred_refines exSizes d u exOps exSizes_ok (exDir_ok d E) Eu exOps_allowed) as (u' & E' & Ef).
  exists d, u, u'. split; [done|]. split; [done|]. split; [done|]. rewrite Ef. by vm_compute.
Defined.

(** Three wrong-path branches after that run, squashed. *)
Definition exWrongPath : list (inst * Z * Z) := [(retInst, 4, 0x200); (callInst, 5, 0x300); (branch, 6, 0x400)].

Lemma squash_restores_witness : exists d (u0 u u1 u2 : exUnit), TournamentBP.new 4 2 4 4 2 4 2 2 = Done d /\ exNew d = Done u0 /\ runs exOps u0 = Done u /\
  predictAll exWrongPath 0 u = Done u1 /\ squash 3 0 u1 = Done u2 /\ predHist u2 = predHist u /\
  TournamentBP.globalHistory (dir u2) = TournamentBP.globalHistory (dir u).
Proof.
  destruct (TournamentBP.new 4 2 4 4 2 4 2 2) as [d| |] eqn:E; [|discriminate E..]. destruct (exNew d) as [u0| |] eqn:Eu; [|discriminate Eu..].
  destruct (newUnit_ok exSizes d u0 exSizes_ok (exDir_ok d E) Eu) as [Hu0 Ei0].
  destruct (runs_simulated 4 exOps u0 Hu0) as (u & Er & Hu & Ef); [rewrite Ei0; exact exOps_allowed|].
  rewrite Ei0 in Ef. change (flows exOps _) with [[2]] in Ef. destruct (unit_thread 4 u 0 Hu) as (h & s & Ht & _ & _).
  { rewrite <- inFlight_length, Ef. cbn. lia. }
  assert (Hh : Forall (fun r => seqNum r <= 3) h).
  { pose proof (inFlight_thread u 0 h s Ht) as Eh. rewrite Ef in Eh. injection Eh as Eh. apply (Forall_map seqNum (fun x => x <= 3)). rewrite <- Eh. repeat constructor; lia. }
  destruct (squash_restores exSizes d u0 exOps u 0 h s exWrongPath 3 exSizes_ok (exDir_ok d E) Eu exOps_allowed Er Ht Hh) as
    (u1 & u2 & s2 & G1 & G2 & G3 & _ & _ & _ & _ & G4 & _); [repeat constructor; cbn; lia|]. by exists d, u0, u, u1, u2.
Defined.

(** ** Where the unit goes wrong *)

#[local] Existing Instance LocalBP.predictor.
Notation localUnit := (BPredUnit.t Z LocalBP.t unit).
Definition localNew (ctr : Z) : outcome localUnit := newUnit (Inst := inst) exSizes (LocalBP.mk [SatCounter.mk 0 3 ctr] 1 2 2 0).

(** A branch that the counters predict taken and that has no target is
    predicted not taken, but its record keeps the first prediction: when the
    prediction holds, committing it trains the counters towards taken. *)
Lemma btb_miss_trains_taken : exists u u1 u2, localNew 2 = Done u /\ predict branch 1 0x100 0 u = Done (false, 0x104, u1) /\ update 1 0 u1 = Done u2 /\
  LocalBP.localCtrs (dir u2) = [SatCounter.mk 0 3 3].
Proof. by do 3 eexists. Qed.

(** A return that was predicted not taken records no stack position; reporting
    it as taken marks the stack as used, and a later squash then restores
    position 0 with the null address: the return address of the caller is lost. *)
Definition clobber : list (op Z inst) :=
  [Predict callInst 1 0x100 0; Predict callInst 2 0x180 0; Predict branch 3 0x200 0; Predict condRet 4 0x204 0; Mispredict 4 0x184 true 0; Mispredict 3 0x300 true 0].
Definition stackTop (l : list (op Z inst)) : outcome Z :=
  let! u := localNew 0 in let! u := runs l u in let! s := vec_get (ras u) 0 in RAS.top s.
Lemma mispredicted_return_clobbers : stackTop (take 3 clobber) = Done 0x180 /\ stackTop clobber = Done 0.
Proof. by vm_compute. Qed.

(** In-order prediction looks targets up by address space, and the squash
    enters them by thread. *)
Lemma inorder_misses_own_target (b b' : BTB.t Z) a tgt th asid : BTB.update a tgt th b = Done b' -> BTB.ok b -> asid <> th -> BTB.valid b' a asid = Done false.
Proof.
  intros E Hb Hne. destruct (BTB.update_entries a tgt th b Hb) as (l & E' & Hl & El). rewrite E in E'. injection E' as ->. unfold BTB.valid.
  change (BTB.getIndex (BTB.withBtb l b) a) with (BTB.getIndex b a). pose proof (BTB.getIndex_bound b Hb a). cbn [BTB.btb BTB.withBtb].
  rewrite (proj2 (vec_get_Done l (BTB.getIndex b a) (BTB.entryFor b (a, tgt, th)))); [|split; [lia|subst l; apply list_lookup_insert_eq; lia]].
  cbn [obind]. unfold BTB.hits. cbn. rewrite (bool_decide_false (Some th = Some asid)), andb_false_r; [done|]. by intros [= ->].
Qed.
End BPredRun.
